(* ===== verification/_CoqProject ===== *)
-Q . S2P
Prelude.v
Params.v
Memory.v
Strings.v
Block.v
Kalloc.v
Vm.v
VmSpec.v
UserCopy.v
AddressSpace.v
VmFree.v
VmGrow.v
VmShare.v
ProcMem.v
State.v
Sched.v
SchedSpec.v
Quiet.v
Sleeping.v
Kcopy.v
Uart.v
Console.v
Dll.v
Bio.v
BioSpec.v
Cache.v
Log.v
LogSpec.v
Crash.v
Fs.v
FsSpec.v
FsBlocks.v
FsContent.v
Inodes.v
FsFile.v
FsWrite.v
FsDir.v
FsPath.v
File.v
PipeSpec.v
Tables.v
UartSpec.v
Proc.v
ProcLife.v
ProcExit.v
ProcFork.v
Exec.v
Syscall.v
Trap.v
Harts.v
SleepHarts.v
Virtio.v
VirtioSpec.v
VirtioInit.v
User.v
Grep.v
Tools.v
Find.v
FindSpec.v
Umalloc.v
MallocSpec.v
UserHeap.v
Rhtest.v
HeapAlloc.v
ArrayList.v
Warmup.v
Sh.v
ShSpec.v
ShGrammar.v
ShParse.v
ShRun.v
ShExec.v
Mkfs.v
MkfsSpec.v
MkfsImage.v
