(* ===== verification/Prelude.v ===== *)
(** * A verification library for the xv6-riscv system of this repository

    The repository is a teaching fork of xv6-riscv, a small Unix for RISC-V
    in C, with threads added (spoon, mythread_create, mythread_join).  This
    library models the kernel (src/xv6-riscv/kernel), the builder of its file system image
    (src/xv6-riscv/mkfs) and most of the user programs (src/xv6-riscv/user), and proves what makes them correct.

    ** The parts and how they interact

    At the bottom are physical pages (kalloc.c) and page tables (vm.c), which
    every process and the user copies stand on; spin locks, context switches, sleep and wakeup
    (spinlock.c, sleeplock.c, proc.c), which every driver and every table of
    the kernel uses; and the devices: the serial line (uart.c, printf.c,
    console.c), and the disk (virtio_disk.c).  The buffer cache (bio.c) reads and writes
    the disk through the driver; the log (log.c) makes groups of writes through the cache
    atomic; the file system (fs.c) allocates blocks and inodes and follows paths
    inside transactions of the log; open files and pipes (file.c, pipe.c)
    stand on it; exec.c loads programs; the system calls (syscall.c,
    sysproc.c, sysfile.c) are entered from traps (trap.c, plic.c), and main.c
    boots it all.  User programs see only system calls.  mkfs.c, a program of the host, writes the
    disk image that the kernel mounts.

    ** How the model corresponds to the code

    A path through the kernel is a function from the kernel's state to an
    [outcome] (below): it returns, panics, or gives up the processor in
    [swtch], where the outcome holds the continuation.  Paths of different processes
    interleave at those points.  Three files have a finer interleaving, in which every access is a step: Harts.v, of
    harts inside the lock code; SleepHarts.v, of harts in sleep locks, sleep, wakeup and the scheduler; Virtio.v, of the
    driver with the device.  A panic ends the path that meets it, so that the loops on [panicked] in uart.c and printf.c,
    in which other harts would stop, do not occur; on the one hart of the kernel model [holding] does not read [lk->cpu].
    C integers are [Z] kept at their width by [u8] ... [i64].  A pointer into a
    static table of the kernel is an index; a pointer to a page is its
    physical address, and pages are bytes of memory.  [bread] and [bwrite] of
    Bio.v use a disk that is a map from block numbers to
    blocks with a trace of its writes; VirtioSpec.v shows that the driver and
    the device provide it.

    - Params, Memory (string.c), Block: constants, byte memory, byte arrays; Strings: theorems.
    - Kalloc: kalloc.c.  Vm, VmSpec, UserCopy, AddressSpace, VmFree (tables taken down), VmGrow (memory that
      grows and is copied), VmShare (memory that threads share): vm.c.
    - State: the structures of the kernel, one record per struct.
    - Sched: spinlock.c (on one hart), sleeplock.c, sched, yield, sleep, wakeup, kill,
      scheduler of proc.c; SchedSpec, Quiet (paths that run alone), Sleeping (paths that sleep): theorems.  Harts:
      spinlock.c between harts.  SleepHarts: sleeplock.c, sleep, wakeup, sched, yield and scheduler between harts.
    - Kcopy: memory routines inside the kernel's state.  Uart: uart.c and printf.c;
      Console: console.c; UartSpec: theorems.
    - Dll: circular doubly linked lists.  Bio, BioSpec, Cache: bio.c.
    - Log, LogSpec, Crash: log.c and crashes.
    - Fs: fs.c; FsSpec (disk structures, paths), FsBlocks (bitmap), FsContent (bmap, readi), Inodes (the
      table of inodes), FsFile, FsWrite (bmap that allocates, writei), FsDir (directories),
      FsPath (the walk of namex): theorems.
    - File: file.c and pipe.c; PipeSpec, Tables: theorems.
    - Proc: the rest of proc.c; ProcMem (its address space), ProcLife (proc_pagetable, freeproc, wait), ProcExit
      (reparent, exit), ProcFork (allocproc, fork): theorems.  Exec: exec.c.  Syscall: syscall.c, sysproc.c,
      sysfile.c.  Trap: trap.c, plic.c, main.c.
    - Virtio, VirtioSpec, VirtioInit: virtio_disk.c and the device.
    - User: system calls as a program sees them, ulib.c, printf.c of user/.
      Grep: grep.c.  Tools: cat.c, wc.c, echo.c.  Find, FindSpec: find.c, and ls.c, kill.c, ln.c, mkdir.c, rm.c,
      sleep.c.  Umalloc, MallocSpec: umalloc.c.
    - UserHeap: a program's bytes, the interface of its allocator, and ulib.c on memory; HeapAlloc: umalloc.c
      implements the interface.  Rhtest: rhtest.c.  ArrayList: arraylist.c.  Warmup: warmup.c.
    - Sh: the parser of sh.c; ShSpec (tokens, commands), ShGrammar (the grammar), ShParse
      (the parser decides the grammar); ShRun: runcmd and main of sh.c; ShExec:
      what its processes do.
    - Mkfs: mkfs.c; MkfsSpec, MkfsImage: the image it builds, read by the kernel.

    ** What the theorems show

    - Storage: a transaction is on the disk completely or not at all after
      crashes at any point, also during recovery (Crash); the log admits and absorbs
      writes within its bounds (Crash); the cache is transparent and recycles
      the least recently used buffer (Cache); the driver, the processes in it and the
      device, in any interleaving, implement a disk of atomic block
      operations and cannot deadlock (VirtioSpec).
    - Files: readi returns the bytes of the file through direct and indirect
      blocks (FsContent), writei allocates what it needs and readi reads back
      what it wrote (FsWrite), balloc and bfree keep the bitmap (FsBlocks), inodes survive
      the way to disk and back, paths are split
      into their elements (FsSpec), a directory is a map that dirlookup reads and dirlink extends (FsDir),
      namex goes where these maps lead and counts its references exactly (FsPath), an inode
      has one counted entry in memory (Inodes), open files are counted (Tables), pipes
      are queues whose writer waits for room and whose unread bytes are never overwritten (PipeSpec).  The kernel reads from an image of mkfs exactly the files it was built from (MkfsImage).
    - Memory: pages are never lost or shared (Kalloc), mappages changes
      exactly the mapping asked for, copies between kernel and user move
      exactly the accessible bytes (AddressSpace); a child gets its own copy of its parent's memory or nothing is
      lost, an address space is given back page by page (VmGrow), a thread shares the pages of its creator (VmShare); the string routines (Strings) stand below.
    - Concurrency: mutual exclusion of spin locks between harts (Harts); between harts as well, sleep locks exclude each
      other's holders, no wakeup is lost, no check of the scheduler panics and the locks do not deadlock (SleepHarts); the
      discipline of acquire and release, wakeup wakes exactly whom it should (SchedSpec).
    - Processes: fork makes a child with its own copy of the memory and the registers and one more reference to every
      open file, or gives everything back (ProcFork; proc_pagetable, on which it stands: ProcLife), wait reaps the first
      zombie, a process with its memory or a thread without, and hands its status on, or sleeps and looks again
      (ProcLife), exit leaves a zombie for
      its parent, its children to init, and never returns (ProcExit).
    - Output: bytes reach the serial line in order, and one that finds the ring full waits (UartSpec).
    - User programs: the shell parses exactly its grammar (ShParse) and a
      session of it does what the lines mean (ShExec); malloc and free always
      return and partition the heap (MallocSpec); grep decides its patterns and
      filters lines and cat copies, for every way the kernel can
      cut the reads (Grep, Tools); find prints exactly the files with the name (FindSpec); an array list is a list,
      for every allocator that keeps the promises of the interface, unless one of the calls of malloc fails (ArrayList).

    ** Loops and fuel

    A loop of the code is [loop] with a number of rounds, or a [scan] or [iter] over the
    table it goes through.  Where the number is a bound from the
    code (the entries of a table, the bytes of a transfer, the tokens of a
    line), it is written at the loop, and the theorems show the loop ends
    before it.  Loops that wait for other processes or devices take the class [Fuel]
    of State.v; the theorems ask for as much of it as the wait
    takes.  A theorem that an operation returns always says so: [wp] is total
    correctness.

    ** What is not modelled

    start.c, entry.S, swtch.S, kernelvec.S and trampoline.S (machine-mode set-up and assembly);
    ramdisk.c (not built); the TLB and the memory model below sequential
    consistency; I/O errors of the disk and short writes of a program; the test programs
    (usertests.c, grind.c and the like), init.c and zombie.c.

    ** Plan

    Next: the threads (spoon, mythread_create, mythread_join) on top of fork, exit and wait, the dispatch of system
    calls; the strings of rhtest.c; the remaining user programs. *)

From Stdlib Require Export ZArith Lia.
From stdpp Require Export strings gmap prelude.

#[export] Set Default Goal Selector "!".
Global Open Scope Z_scope.

(** ** Machine integers

    The C types of kernel/types.h are kept at their width: a value of an
    unsigned type of [w] bits is a [Z] in [[0, 2^w)], a value of a signed one
    a [Z] in [[-2^(w-1), 2^(w-1))].  Conversions wrap as on RISC-V. *)

Definition uwrap (w x : Z) : Z := x mod 2 ^ w.

Definition swrap (w x : Z) : Z :=
  (x + 2 ^ (w - 1)) mod 2 ^ w - 2 ^ (w - 1).

Abbreviation u8 := (uwrap 8).
Abbreviation u16 := (uwrap 16).
Abbreviation u32 := (uwrap 32).
Abbreviation u64 := (uwrap 64).
Abbreviation i16 := (swrap 16).
Abbreviation i32 := (swrap 32).

(** C truth values. *)
Definition b2z (b : bool) : Z := if b then 1 else 0.

(** ** Outcomes of a kernel path

    A path through the kernel either returns, panics, or gives up the
    processor in [swtch]; in the last case the outcome holds the shared state
    at the moment the scheduler takes over and a continuation that resumes
    the path in whatever state the other processes left. *)

Inductive outcome (S A : Type) : Type :=
| Done (a : A) (s : S)
| Panic (msg : string)
| Switch (s : S) (k : S -> outcome S A)
| OutOfFuel.

Arguments Done {S A} a s.
Arguments Panic {S A} msg.
Arguments Switch {S A} s k.
Arguments OutOfFuel {S A}.

Definition M (S A : Type) : Type := S -> outcome S A.

Definition ret {S A} (a : A) : M S A := fun s => Done a s.

Fixpoint obind {S A B} (o : outcome S A) (f : A -> M S B) : outcome S B :=
  match o with
  | Done a s => f a s
  | Panic msg => Panic msg
  | Switch s k => Switch s (fun s' => obind (k s') f)
  | OutOfFuel => OutOfFuel
  end.

Definition bind {S A B} (m : M S A) (f : A -> M S B) : M S B :=
  fun s => obind (m s) f.

Definition panic {S A} (msg : string) : M S A := fun _ => Panic msg.
Definition get {S} : M S S := fun s => Done s s.
Definition gets {S A} (f : S -> A) : M S A := fun s => Done (f s) s.
Definition put {S} (s' : S) : M S unit := fun _ => Done tt s'.
Definition modify {S} (f : S -> S) : M S unit := fun s => Done tt (f s).
Definition out_of_fuel {S A} : M S A := fun _ => OutOfFuel.

Declare Scope kernel_scope.
Delimit Scope kernel_scope with kernel.
Global Open Scope kernel_scope.

Notation "x <- m ;; k" := (bind m (fun x => k))
  (at level 100, m at next level, right associativity) : kernel_scope.
Notation "m ;; k" := (bind m (fun _ => k))
  (at level 100, right associativity) : kernel_scope.

(** [if(c) panic(msg);] *)
Definition panic_if {S} (c : bool) (msg : string) : M S unit :=
  if c then panic msg else ret tt.

Definition when {S} (c : bool) (m : M S unit) : M S unit :=
  if c then m else ret tt.

(** A C loop whose body either goes round again with new loop variables
    ([inl]) or leaves with a result ([inr]); [fuel] bounds the number of
    rounds. *)
Fixpoint loop {S X R} (fuel : nat) (body : X -> M S (X + R)) (x : X) : M S R :=
  match fuel with
  | O => out_of_fuel
  | Datatypes.S fuel' =>
      c <- body x ;;
      match c with
      | inl x' => loop fuel' body x'
      | inr r => ret r
      end
  end.

(** [for(p = table; p < &table[N]; p++) body]: [scan] stops at the first
    entry whose body leaves the loop with a result, [iter] visits them all. *)
Fixpoint scan {S A R} (l : list A) (body : A -> M S (option R)) : M S (option R) :=
  match l with
  | [] => ret None
  | a :: l' =>
      r <- body a ;;
      match r with
      | Some r => ret (Some r)
      | None => scan l' body
      end
  end.

Fixpoint iter {S A} (l : list A) (body : A -> M S unit) : M S unit :=
  match l with
  | [] => ret tt
  | a :: l' => body a ;; iter l' body
  end.

(** A component of a larger state. *)
Record lens (S T : Type) : Type := Lens {
  view : S -> T;
  update : T -> S -> S;
}.
Arguments Lens {S T}.
Arguments view {S T}.
Arguments update {S T}.

(** Running a computation of a component inside a larger state. *)
Fixpoint olift {S T A} (l : lens S T) (o : outcome T A) (s : S) : outcome S A :=
  match o with
  | Done a t => Done a (update l t s)
  | Panic msg => Panic msg
  | Switch t k =>
      Switch (update l t s) (fun s' => olift l (k (view l s')) s')
  | OutOfFuel => OutOfFuel
  end.

Definition lift {S T A} (l : lens S T) (m : M T A) : M S A :=
  fun s => olift l (m (view l s)) s.

(** ** Spin locks inside a component

    Paths are interleaved only where they sleep, and xv6 never sleeps with a
    spin lock held other than the one [sleep] releases, so a path that finds
    a lock taken took it itself: [acquire] and [release] panic as in
    kernel/spinlock.c.  [Harts.v] models the locks themselves, with
    several processors and interrupts. *)

Definition acquire {S} (lk : lens S bool) : M S unit :=
  fun s => if view lk s then Panic "acquire" else Done tt (update lk true s).

Definition release {S} (lk : lens S bool) : M S unit :=
  fun s => if view lk s then Done tt (update lk false s) else Panic "release".

(** ** Total correctness

    [wp m s Q]: from [s] the path [m] returns, with a result and a state
    that satisfy [Q]; it neither panics, nor sleeps, nor runs out of fuel. *)

Definition wp {S A} (m : M S A) (s : S) (Q : A -> S -> Prop) : Prop :=
  exists a s', m s = Done a s' /\ Q a s'.

Section wp_rules.
Context {S : Type}.

Lemma wp_ret {A} (a : A) (s : S) (Q : A -> S -> Prop) :
  Q a s -> wp (ret a) s Q.
Proof. exists a, s. auto. Qed.

Lemma wp_bind {A B} (m : M S A) (f : A -> M S B) s Q :
  wp m s (fun a s' => wp (f a) s' Q) -> wp (bind m f) s Q.
Proof.
  intros (a & s' & Hm & b & s'' & Hf & HQ).
  exists b, s''. unfold bind. rewrite Hm. auto.
Qed.

Lemma wp_bind_inv {A B} (m : M S A) (f : A -> M S B) s Q :
  wp (bind m f) s Q -> wp m s (fun a s' => wp (f a) s' Q) \/
    (exists s' k, m s = Switch s' k).
Proof.
  intros (b & s'' & Hb & HQ). unfold bind in Hb.
  destruct (m s) as [a s'| | |] eqn:Hm; simplify_eq/=; eauto.
  left. exists a, s'. split; [done|]. exists b, s''. auto.
Qed.

Lemma wp_mono {A} (m : M S A) s (Q Q' : A -> S -> Prop) :
  wp m s Q -> (forall a s', Q a s' -> Q' a s') -> wp m s Q'.
Proof. intros (a & s' & ? & ?) HQ. exists a, s'. auto. Qed.

Lemma wp_done {A} (m : M S A) s a s' (Q : A -> S -> Prop) :
  m s = Done a s' -> Q a s' -> wp m s Q.
Proof. exists a, s'. auto. Qed.

Lemma wp_elim {A} (m : M S A) s a s' (Q : A -> S -> Prop) :
  wp m s Q -> m s = Done a s' -> Q a s'.
Proof. intros (? & ? & Hm & ?) Hm'. rewrite Hm' in Hm. by simplify_eq. Qed.

Lemma wp_gets {A} (f : S -> A) s (Q : A -> S -> Prop) :
  Q (f s) s -> wp (gets f) s Q.
Proof. eexists _, _. eauto. Qed.

Lemma wp_get s (Q : S -> S -> Prop) : Q s s -> wp get s Q.
Proof. eexists _, _. eauto. Qed.

Lemma wp_put s s' (Q : unit -> S -> Prop) : Q tt s' -> wp (put s') s Q.
Proof. eexists _, _. eauto. Qed.

Lemma wp_modify f s (Q : unit -> S -> Prop) :
  Q tt (f s) -> wp (modify f) s Q.
Proof. eexists _, _. eauto. Qed.

Lemma wp_panic_if c msg s (Q : unit -> S -> Prop) :
  c = false -> Q tt s -> wp (panic_if c msg) s Q.
Proof. intros ->. apply wp_ret. Qed.

(** The rule for loops: an invariant and a measure. *)
Lemma wp_loop {X R} (Inv : X -> S -> Prop) (mu : X -> nat)
    (body : X -> M S (X + R)) (Q : R -> S -> Prop) fuel x s :
  (forall x s, Inv x s ->
     wp (body x) s (fun c s' =>
       match c with
       | inl x' => Inv x' s' /\ (mu x' < mu x)%nat
       | inr r => Q r s'
       end)) ->
  Inv x s -> (mu x < fuel)%nat -> wp (loop fuel body x) s Q.
Proof.
  intros Hbody. revert x s.
  induction fuel as [|fuel IH]; intros x s Hx Hf; [lia|]. simpl.
  apply wp_bind. eapply wp_mono; [by apply Hbody|].
  intros [x'|r] s'; simpl.
  - intros [? ?]. apply IH; [done|lia].
  - apply wp_ret.
Qed.

(** The same with a measure of the state. *)
Lemma wp_loop_state {X R} (Inv : X -> S -> Prop) (mu : X -> S -> nat)
    (body : X -> M S (X + R)) (Q : R -> S -> Prop) fuel x s :
  (forall x s, Inv x s ->
     wp (body x) s (fun c s' =>
       match c with
       | inl x' => Inv x' s' /\ (mu x' s' < mu x s)%nat
       | inr r => Q r s'
       end)) ->
  Inv x s -> (mu x s < fuel)%nat -> wp (loop fuel body x) s Q.
Proof.
  intros Hbody. revert x s.
  induction fuel as [|fuel IH]; intros x s Hx Hf; [lia|]. simpl.
  apply wp_bind. eapply wp_mono; [by apply Hbody|].
  intros [x'|r] s'; simpl.
  - intros [? ?]. apply IH; [done|lia].
  - intros. by apply wp_ret.
Qed.

(** A loop that leaves in its first round. *)
Lemma wp_loop_exit {X R} (body : X -> M S (X + R)) (Q : R -> S -> Prop) fuel x s :
  wp (body x) s (fun c s' => match c with inl _ => False | inr r => Q r s' end) ->
  wp (loop (Datatypes.S fuel) body x) s Q.
Proof.
  intros Hb. simpl. apply wp_bind. eapply wp_mono; [exact Hb|].
  intros [x'|r] s'; [done|]. simpl. apply wp_ret.
Qed.

(** The rules for loops over a table: [P l] holds before the entries [l]. *)
Lemma wp_scan {A R} (P : list A -> S -> Prop) (body : A -> M S (option R))
    (Q : option R -> S -> Prop) l s :
  (forall a l s, P (a :: l) s ->
     wp (body a) s (fun r s' =>
       match r with Some r => Q (Some r) s' | None => P l s' end)) ->
  (forall s, P [] s -> Q None s) -> P l s -> wp (scan l body) s Q.
Proof.
  intros Hb Hn. revert s. induction l as [|a l IH]; intros s HP; simpl.
  - by apply wp_ret, Hn.
  - apply wp_bind. eapply wp_mono; [by apply Hb|].
    intros [r|] s'; [apply wp_ret|apply IH].
Qed.

Lemma wp_iter {A} (P : list A -> S -> Prop) (body : A -> M S unit)
    (Q : unit -> S -> Prop) l s :
  (forall a l s, P (a :: l) s -> wp (body a) s (fun _ s' => P l s')) ->
  (forall s, P [] s -> Q tt s) -> P l s -> wp (iter l body) s Q.
Proof.
  intros Hb Hn. revert s. induction l as [|a l IH]; intros s HP; simpl.
  - by apply wp_ret, Hn.
  - apply wp_bind. eapply wp_mono; [by apply Hb|]. intros [] s'. apply IH.
Qed.
End wp_rules.

Lemma bind_done {S A B} (m : M S A) (f : A -> M S B) s a s' :
  m s = Done a s' -> bind m f s = f a s'.
Proof. unfold bind. by intros ->. Qed.

Lemma bind_panic {S A B} (m : M S A) (f : A -> M S B) s msg :
  m s = Panic msg -> bind m f s = Panic msg.
Proof. unfold bind. by intros ->. Qed.

(** A round of a loop that goes on, and one that leaves. *)
Lemma loop_next {S X R} (body : X -> M S (X + R)) n x s x' s' :
  body x s = Done (inl x') s' -> loop (Datatypes.S n) body x s = loop n body x' s'.
Proof. intros E. simpl. by rewrite (bind_done _ _ _ _ _ E). Qed.

Lemma loop_last {S X R} (body : X -> M S (X + R)) n x s r s' :
  body x s = Done (inr r) s' -> loop (Datatypes.S n) body x s = Done r s'.
Proof. intros E. simpl. by rewrite (bind_done _ _ _ _ _ E). Qed.

(** A scan of a table stops at the first entry whose body has a result. *)
Lemma scan_find {S A R} (f : A -> M S (option R)) l1 a l2 s r s' :
  (forall x, x ∈ l1 -> f x s = Done None s) -> f a s = Done (Some r) s' ->
  scan (l1 ++ a :: l2) f s = Done (Some r) s'.
Proof.
  intros H1 Ha. induction l1 as [|x l1 IH]; cbn [scan app].
  - by rewrite (bind_done _ _ _ _ _ Ha).
  - rewrite (bind_done _ _ _ None s) by (apply H1; by left).
    apply IH. intros y Hy. apply H1. by right.
Qed.

Lemma scan_none {S A R} (f : A -> M S (option R)) l s :
  (forall x, x ∈ l -> f x s = Done None s) -> scan l f s = Done None s.
Proof.
  intros H1. induction l as [|x l IH]; cbn [scan]; [done|].
  rewrite (bind_done _ _ _ None s) by (apply H1; by left).
  apply IH. intros y Hy. apply H1. by right.
Qed.

(** The first element of a list that passes a test. *)
Lemma list_first {A} (P : A -> bool) (l : list A) :
  (exists l1 a l2, l = l1 ++ a :: l2 /\ P a = true /\ forall x, x ∈ l1 -> P x = false) \/
  (forall x, x ∈ l -> P x = false).
Proof.
  induction l as [|a l IH]; [by right; intros x ?%not_elem_of_nil|].
  destruct (P a) eqn:Ha.
  - left. exists [], a, l. split_and!; [done|done|]. by intros x ?%not_elem_of_nil.
  - destruct IH as [(l1 & b & l2 & -> & Hb & H1)|Hn].
    + left. exists (a :: l1), b, l2. split_and!; [done|done|].
      intros x [->|Hx]%elem_of_cons; auto.
    + right. intros x [->|Hx]%elem_of_cons; auto.
Qed.

Lemma wp_lift {S T A} (l : lens S T) (m : M T A) s (Q : A -> S -> Prop) :
  wp m (view l s) (fun a t => Q a (update l t s)) -> wp (lift l m) s Q.
Proof.
  intros (a & t & Hm & HQ). exists a, (update l t s).
  unfold lift. rewrite Hm. auto.
Qed.

Lemma wp_acquire {S} (lk : lens S bool) s (Q : unit -> S -> Prop) :
  view lk s = false -> Q tt (update lk true s) -> wp (acquire lk) s Q.
Proof. intros H HQ. eexists _, _. unfold acquire. rewrite H. eauto. Qed.

Lemma wp_release {S} (lk : lens S bool) s (Q : unit -> S -> Prop) :
  view lk s = true -> Q tt (update lk false s) -> wp (release lk) s Q.
Proof. intros H HQ. eexists _, _. unfold release. rewrite H. eauto. Qed.

(** One symbolic step of a path; [wp_run] goes on as long as it can.
    Components extend [wp_prim] with their own memory accesses. *)
Ltac wp_prim := fail.
Ltac wp_step :=
  lazymatch goal with
  | |- wp (bind _ _) _ _ => apply wp_bind
  | |- wp (ret _) _ _ => apply wp_ret
  | |- wp get _ _ => apply wp_get
  | |- wp (gets _) _ _ => apply wp_gets
  | |- wp (put _) _ _ => apply wp_put
  | |- wp (modify _) _ _ => apply wp_modify
  | |- wp (lift _ _) _ _ => apply wp_lift
  | |- wp (if 0 =? 0 then _ else _) _ _ => change (0 =? 0) with true
  | |- wp (acquire _) _ _ => apply wp_acquire; [done|]
  | |- wp (release _) _ _ => apply wp_release; [done|]
  | |- wp _ _ _ => wp_prim
  end; cbn beta iota.
Ltac wp_run := repeat wp_step.

(** ** Wrap-around *)

Create HintDb xv6.
Create Rewrite HintDb xv6_wrap.

Section wrap.
Variable w : Z.
Hypothesis w_pos : 0 < w.

Lemma uwrap_bound x : 0 <= uwrap w x < 2 ^ w.
Proof using w_pos. apply Z.mod_pos_bound. lia. Qed.

Lemma uwrap_small x : 0 <= x < 2 ^ w -> uwrap w x = x.
Proof using. apply Z.mod_small. Qed.

Lemma uwrap_idem x : uwrap w (uwrap w x) = uwrap w x.
Proof using. unfold uwrap. apply Zmod_mod. Qed.

Lemma uwrap_add_l x y : uwrap w (uwrap w x + y) = uwrap w (x + y).
Proof using. apply Zplus_mod_idemp_l. Qed.

Lemma uwrap_add_r x y : uwrap w (x + uwrap w y) = uwrap w (x + y).
Proof using. apply Zplus_mod_idemp_r. Qed.

Lemma uwrap_sub_l x y : uwrap w (uwrap w x - y) = uwrap w (x - y).
Proof using. apply Zminus_mod_idemp_l. Qed.

Lemma uwrap_sub_r x y : uwrap w (x - uwrap w y) = uwrap w (x - y).
Proof using. apply Zminus_mod_idemp_r. Qed.

(** Two wrapped counters whose distance is below the modulus are equal
    exactly when the counters are. *)
Lemma uwrap_eq_iff x y :
  x <= y < x + 2 ^ w -> uwrap w x = uwrap w y <-> x = y.
Proof using w_pos.
  intros Hxy. split; [|by intros ->]. unfold uwrap. intros H.
  assert (0 < 2 ^ w) by lia.
  assert (Hd : (y - x) mod 2 ^ w = 0).
  { rewrite Zminus_mod, H, Z.sub_diag. apply Z.mod_0_l. lia. }
  rewrite Z.mod_small in Hd; lia.
Qed.

Lemma swrap_bound x : - 2 ^ (w - 1) <= swrap w x < 2 ^ (w - 1).
Proof using w_pos.
  unfold swrap.
  assert (2 ^ w = 2 * 2 ^ (w - 1)) as E.
  { rewrite <-Z.pow_succ_r by lia. f_equal. lia. }
  pose proof (Z.mod_pos_bound (x + 2 ^ (w - 1)) (2 ^ w)).
  assert (0 < 2 ^ (w - 1)) by (apply Z.pow_pos_nonneg; lia). lia.
Qed.

Lemma swrap_small x : - 2 ^ (w - 1) <= x < 2 ^ (w - 1) -> swrap w x = x.
Proof using w_pos.
  intros. unfold swrap.
  assert (2 ^ w = 2 * 2 ^ (w - 1)) as E.
  { rewrite <-Z.pow_succ_r by lia. f_equal. lia. }
  rewrite Z.mod_small; lia.
Qed.
End wrap.

#[export] Hint Rewrite uwrap_idem uwrap_add_l uwrap_add_r uwrap_sub_l
  uwrap_sub_r : xv6_wrap.

(** ** Alignment: masks against arithmetic *)

Lemma land_ones_mod x n : 0 <= n -> Z.land x (Z.ones n) = x mod 2 ^ n.
Proof. apply Z.land_ones. Qed.

Lemma land_lnot_ones x n :
  0 <= n -> Z.land x (Z.lnot (Z.ones n)) = x - x mod 2 ^ n.
Proof.
  intros. rewrite <-Z.ldiff_land, <-Z.land_ones by done.
  assert (Z.ldiff x (Z.ones n) + Z.land x (Z.ones n) = x); [|lia].
  assert (Z.land (Z.ldiff x (Z.ones n)) (Z.land x (Z.ones n)) = 0) as E.
  { apply Z.bits_inj'. intros i Hi.
    rewrite !Z.land_spec, Z.ldiff_spec, Z.bits_0.
    by destruct (Z.testbit x i), (Z.testbit (Z.ones n) i). }
  rewrite Z.add_nocarry_lxor, Z.lxor_lor by done.
  apply Z.bits_inj'. intros i Hi.
  rewrite Z.lor_spec, Z.land_spec, Z.ldiff_spec.
  by destruct (Z.testbit x i), (Z.testbit (Z.ones n) i).
Qed.
