(* ===== verification/Params.v ===== *)
(** * Constants and address arithmetic of the kernel headers

    kernel/param.h, kernel/memlayout.h, kernel/fs.h, kernel/stat.h,
    kernel/fcntl.h and the paging macros of kernel/riscv.h, with the facts
    about page rounding, page-table entries and page-table indices that the
    virtual-memory code relies on. *)

From S2P Require Import Prelude.

(** ** kernel/param.h *)

Definition NPROC : Z := 64.
Definition NCPU : Z := 8.
Definition NOFILE : Z := 16.
Definition NFILE : Z := 100.
Definition NINODE : Z := 50.
Definition NDEV : Z := 10.
Definition ROOTDEV : Z := 1.
Definition MAXARG : Z := 32.
Definition MAXOPBLOCKS : Z := 10.
Definition LOGSIZE : Z := MAXOPBLOCKS * 3.
Definition NBUF : Z := MAXOPBLOCKS * 3.
Definition FSSIZE : Z := 2000.
Definition MAXPATH : Z := 128.

(** ** kernel/riscv.h: paging *)

Definition PGSIZE : Z := 4096.
Definition PGSHIFT : Z := 12.

Definition PGROUNDUP (sz : Z) : Z :=
  Z.land (u64 (sz + PGSIZE - 1)) (Z.lnot (PGSIZE - 1)).
Definition PGROUNDDOWN (a : Z) : Z := Z.land a (Z.lnot (PGSIZE - 1)).

Definition PTE_V : Z := Z.shiftl 1 0.
Definition PTE_R : Z := Z.shiftl 1 1.
Definition PTE_W : Z := Z.shiftl 1 2.
Definition PTE_X : Z := Z.shiftl 1 3.
Definition PTE_U : Z := Z.shiftl 1 4.

Definition PA2PTE (pa : Z) : Z := u64 (Z.shiftl (Z.shiftr pa 12) 10).
Definition PTE2PA (pte : Z) : Z := u64 (Z.shiftl (Z.shiftr pte 10) 12).
Definition PTE_FLAGS (pte : Z) : Z := Z.land pte 0x3FF.

Definition PXMASK : Z := 0x1FF.
Definition PXSHIFT (level : Z) : Z := PGSHIFT + 9 * level.
Definition PX (level va : Z) : Z := Z.land (Z.shiftr va (PXSHIFT level)) PXMASK.

Definition MAXVA : Z := Z.shiftl 1 (9 + 9 + 9 + 12 - 1).

(** ** kernel/memlayout.h *)

Definition UART0 : Z := 0x10000000.
Definition UART0_IRQ : Z := 10.
Definition VIRTIO0 : Z := 0x10001000.
Definition VIRTIO0_IRQ : Z := 1.
Definition PLIC : Z := 0x0c000000.
Definition KERNBASE : Z := 0x80000000.
Definition PHYSTOP : Z := KERNBASE + 128 * 1024 * 1024.
Definition TRAMPOLINE : Z := MAXVA - PGSIZE.
Definition KSTACK (p : Z) : Z := TRAMPOLINE - (p + 1) * 2 * PGSIZE.
Definition TRAPFRAME : Z := TRAMPOLINE - PGSIZE.

(** ** kernel/fs.h, kernel/stat.h, kernel/fcntl.h, kernel/file.h *)

Definition ROOTINO : Z := 1.
Definition BSIZE : Z := 1024.
Definition FSMAGIC : Z := 0x10203040.
Definition NDIRECT : Z := 12.
Definition NINDIRECT : Z := BSIZE / 4.
Definition MAXFILE : Z := NDIRECT + NINDIRECT.
(** [sizeof(struct dinode)]: four shorts, a uint and [NDIRECT+1] uints. *)
Definition sizeof_dinode : Z := 4 * 2 + 4 + 4 * (NDIRECT + 1).
Definition IPB : Z := BSIZE / sizeof_dinode.
Definition BPB : Z := BSIZE * 8.
Definition DIRSIZ : Z := 14.
(** [sizeof(struct dirent)] *)
Definition sizeof_dirent : Z := 2 + DIRSIZ.

Definition T_DIR : Z := 1.
Definition T_FILE : Z := 2.
Definition T_DEVICE : Z := 3.

Definition O_RDONLY : Z := 0x000.
Definition O_WRONLY : Z := 0x001.
Definition O_RDWR : Z := 0x002.
Definition O_CREATE : Z := 0x200.
Definition O_TRUNC : Z := 0x400.

Definition CONSOLE : Z := 1.

(** Linear arithmetic over addresses, pages and page numbers. *)
Ltac page_lia :=
  unfold PHYSTOP, KERNBASE, PGSIZE in *; Z.div_mod_to_equations; lia.

(** ** Page rounding *)

Lemma pgmask : PGSIZE - 1 = Z.ones 12.
Proof. reflexivity. Qed.

Lemma PGROUNDDOWN_eq a : PGROUNDDOWN a = a - a mod PGSIZE.
Proof. unfold PGROUNDDOWN. rewrite pgmask. by apply land_lnot_ones. Qed.

Lemma PGROUNDUP_eq a :
  0 <= a <= 2 ^ 64 - PGSIZE ->
  PGROUNDUP a = (a + PGSIZE - 1) - (a + PGSIZE - 1) mod PGSIZE.
Proof.
  intros. unfold PGROUNDUP. rewrite uwrap_small by (unfold PGSIZE in *; lia).
  rewrite pgmask. by rewrite land_lnot_ones.
Qed.

Lemma PGROUNDDOWN_bound a :
  PGROUNDDOWN a <= a < PGROUNDDOWN a + PGSIZE /\ PGROUNDDOWN a mod PGSIZE = 0.
Proof.
  rewrite PGROUNDDOWN_eq. unfold PGSIZE.
  Z.div_mod_to_equations. lia.
Qed.

Lemma PGROUNDUP_bound a :
  0 <= a <= 2 ^ 64 - PGSIZE ->
  a <= PGROUNDUP a < a + PGSIZE /\ PGROUNDUP a mod PGSIZE = 0.
Proof.
  intros. rewrite PGROUNDUP_eq by done. unfold PGSIZE in *.
  Z.div_mod_to_equations. lia.
Qed.

Lemma PGROUNDUP_aligned a :
  0 <= a <= 2 ^ 64 - PGSIZE -> a mod PGSIZE = 0 -> PGROUNDUP a = a.
Proof.
  intros. rewrite PGROUNDUP_eq by done. unfold PGSIZE in *.
  Z.div_mod_to_equations. lia.
Qed.

Lemma PGROUNDDOWN_aligned a : a mod PGSIZE = 0 -> PGROUNDDOWN a = a.
Proof. intros. rewrite PGROUNDDOWN_eq. lia. Qed.

(** ** Page-table entries *)

Lemma PA2PTE_eq pa : 0 <= pa < 2 ^ 56 -> PA2PTE pa = pa / PGSIZE * 1024.
Proof.
  intros. unfold PA2PTE, PGSIZE.
  rewrite Z.shiftr_div_pow2, Z.shiftl_mul_pow2 by lia.
  change (2 ^ 12) with 4096. change (2 ^ 10) with 1024.
  apply uwrap_small. Z.div_mod_to_equations. lia.
Qed.

Lemma PTE2PA_eq pte :
  0 <= pte < 2 ^ 54 -> PTE2PA pte = pte / 1024 * PGSIZE.
Proof.
  intros. unfold PTE2PA, PGSIZE.
  rewrite Z.shiftr_div_pow2, Z.shiftl_mul_pow2 by lia.
  change (2 ^ 12) with 4096. change (2 ^ 10) with 1024.
  apply uwrap_small. Z.div_mod_to_equations. lia.
Qed.

Lemma lor_flags a f : 0 <= f < 1024 -> Z.lor (a * 1024) f = a * 1024 + f.
Proof.
  intros. rewrite Z.add_nocarry_lxor, Z.lxor_lor; try done.
  all: change 1024 with (2 ^ 10) in *; rewrite <-Z.shiftl_mul_pow2 by lia.
  all: apply Z.bits_inj'; intros i Hi; rewrite Z.land_spec, Z.bits_0.
  all: rewrite Z.shiftl_spec by done.
  all: destruct (Z.ltb_spec i 10);
    [rewrite (Z.testbit_neg_r a) by lia; done|].
  all: rewrite <-(Z.mod_small f (2 ^ 10)) by lia.
  all: rewrite Z.mod_pow2_bits_high by lia; by rewrite andb_false_r.
Qed.

Lemma lor_bound a b n :
  0 <= n -> 0 <= a < 2 ^ n -> 0 <= b < 2 ^ n -> 0 <= Z.lor a b < 2 ^ n.
Proof.
  intros Hn Ha Hb.
  assert (0 <= Z.lor a b) by (apply Z.lor_nonneg; lia).
  split; [done|]. rewrite <-(Z.mod_small a (2 ^ n)), <-(Z.mod_small b (2 ^ n)) by done.
  rewrite <-!Z.land_ones, <-Z.land_lor_distr_l, Z.land_ones by done.
  apply Z.mod_pos_bound. lia.
Qed.

Lemma flags_bound f : 0 <= f < 1024 -> 0 <= Z.lor f PTE_V < 1024.
Proof. intros. apply (lor_bound f PTE_V 10); [lia|done|by compute]. Qed.

(** A PTE written by [mappages] or [walk] decodes to what was encoded. *)
Lemma pte_decode pa f :
  0 <= pa < 2 ^ 56 -> pa mod PGSIZE = 0 -> 0 <= f < 1024 ->
  PTE2PA (Z.lor (PA2PTE pa) f) = pa /\ PTE_FLAGS (Z.lor (PA2PTE pa) f) = f.
Proof.
  intros Hpa Hal Hf. rewrite PA2PTE_eq by done.
  rewrite lor_flags by done. unfold PGSIZE in *. split.
  - rewrite PTE2PA_eq.
    + unfold PGSIZE. rewrite Z.div_add_l by lia. rewrite (Z.div_small f) by lia.
      Z.div_mod_to_equations. lia.
    + Z.div_mod_to_equations. lia.
  - unfold PTE_FLAGS. change 0x3FF with (Z.ones 10). rewrite Z.land_ones by lia.
    change (2 ^ 10) with 1024. rewrite Z.add_comm, Z.mod_add by lia.
    by apply Z.mod_small.
Qed.

Lemma pte_bound pa f :
  0 <= pa < 2 ^ 56 -> 0 <= f < 1024 ->
  0 <= Z.lor (PA2PTE pa) f < 2 ^ 54.
Proof.
  intros. rewrite PA2PTE_eq by done. rewrite lor_flags by done.
  unfold PGSIZE. Z.div_mod_to_equations. lia.
Qed.

(** ** Page-table indices *)

Lemma PX_eq level va :
  0 <= level -> PX level va = va / 2 ^ (12 + 9 * level) mod 512.
Proof.
  intros. unfold PX, PXMASK, PXSHIFT, PGSHIFT. change 0x1FF with (Z.ones 9).
  rewrite Z.land_ones, Z.shiftr_div_pow2 by lia. done.
Qed.

Lemma PX_bound level va : 0 <= level -> 0 <= PX level va < 512.
Proof. intros. rewrite PX_eq by done. apply Z.mod_pos_bound. lia. Qed.

(** The three indices determine the page of a virtual address below
    [MAXVA]: no two pages share a PTE slot. *)
Lemma PX_inj va vb :
  0 <= va < MAXVA -> 0 <= vb < MAXVA ->
  PX 2 va = PX 2 vb -> PX 1 va = PX 1 vb -> PX 0 va = PX 0 vb ->
  PGROUNDDOWN va = PGROUNDDOWN vb.
Proof.
  rewrite !PX_eq, !PGROUNDDOWN_eq by lia. unfold MAXVA, PGSIZE.
  change (Z.shiftl 1 (9 + 9 + 9 + 12 - 1)) with 274877906944.
  change (2 ^ (12 + 9 * 2)) with 1073741824.
  change (2 ^ (12 + 9 * 1)) with 2097152.
  change (2 ^ (12 + 9 * 0)) with 4096.
  intros. Z.div_mod_to_equations. lia.
Qed.

(** The indices depend on the page only. *)
Lemma PX_page va vb :
  0 <= va < MAXVA -> 0 <= vb < MAXVA -> PGROUNDDOWN va = PGROUNDDOWN vb ->
  PX 2 va = PX 2 vb /\ PX 1 va = PX 1 vb /\ PX 0 va = PX 0 vb.
Proof.
  rewrite !PX_eq, !PGROUNDDOWN_eq by lia. unfold MAXVA, PGSIZE.
  change (Z.shiftl 1 (9 + 9 + 9 + 12 - 1)) with 274877906944.
  change (2 ^ (12 + 9 * 2)) with 1073741824.
  change (2 ^ (12 + 9 * 1)) with 2097152.
  change (2 ^ (12 + 9 * 0)) with 4096.
  intros. repeat split; Z.div_mod_to_equations; lia.
Qed.
