(* ===== verification/Memory.v ===== *)
(** * Byte-addressed memory and kernel/string.c

    Physical memory is a total map from addresses to bytes.  [CString] holds
    the routines of kernel/string.c, loop by loop, and their specifications;
    the kernel's [char] is unsigned on RISC-V, so a byte is a [Z] in
    [[0, 256)]. *)

From S2P Require Import Prelude.

Definition mem : Type := Z -> Z.

Definition upd (m : mem) (a v : Z) : mem := fun x => if x =? a then v else m x.

Definition mem_eq (m m' : mem) : Prop := forall x, m x = m' x.

#[export] Instance mem_eq_equiv : Equivalence mem_eq.
Proof. split; repeat intro; unfold mem_eq in *; congruence. Qed.

#[export] Instance upd_proper : Proper (mem_eq ==> eq ==> eq ==> mem_eq) upd.
Proof. intros m m' Hm a ? <- v ? <- x. unfold upd. case_match; auto. Qed.

(** Every cell holds a byte. *)
Definition mem_ok (m : mem) : Prop := forall x, 0 <= m x < 256.

(** The bytes [[a, a+n)]. *)
Definition in_range (a n x : Z) : bool := (a <=? x) && (x <? a + n).

Definition read_bytes (m : mem) (a : Z) (n : nat) : list Z :=
  map (fun i => m (a + Z.of_nat i)) (seq 0 n).

(** Writing a list of bytes: the reference definition of a block store. *)
Fixpoint write_bytes (m : mem) (a : Z) (bs : list Z) : mem :=
  match bs with
  | [] => m
  | b :: bs' => write_bytes (upd m a b) (a + 1) bs'
  end.

(** ** Little-endian words *)

Fixpoint load (m : mem) (a : Z) (n : nat) : Z :=
  match n with
  | O => 0
  | S n' => m a + 256 * load m (a + 1) n'
  end.

Fixpoint store (m : mem) (a : Z) (n : nat) (v : Z) : mem :=
  match n with
  | O => m
  | S n' => store (upd m a (v mod 256)) (a + 1) n' (v / 256)
  end.

Definition load64 (m : mem) (a : Z) : Z := load m a 8.
Definition store64 (m : mem) (a v : Z) : mem := store m a 8 v.

Arguments load64 : simpl never.
Arguments store64 : simpl never.

Lemma upd_eq m a v : upd m a v a = v.
Proof. unfold upd. by rewrite Z.eqb_refl. Qed.

Lemma upd_ne m a v x : x <> a -> upd m a v x = m x.
Proof. intros. unfold upd. destruct (Z.eqb_spec x a); [lia|done]. Qed.

Lemma in_range_spec a n x : BoolSpec (a <= x < a + n) (~ (a <= x < a + n)) (in_range a n x).
Proof. unfold in_range. destruct (_ && _) eqn:E; constructor; lia. Qed.

(** Case analysis on every range and address comparison of the goal. *)
Ltac range_cases :=
  unfold upd;
  repeat match goal with
  | |- context [in_range ?a ?n ?x] => destruct (in_range_spec a n x)
  | |- context [Z.eqb ?x ?y] => destruct (Z.eqb_spec x y)
  end; try lia; subst; try done.

Lemma mem_ok_upd m a v : mem_ok m -> 0 <= v < 256 -> mem_ok (upd m a v).
Proof. intros Hm Hv x. unfold upd. case_match; auto. Qed.

Lemma store_outside n m a v x :
  ~ (a <= x < a + Z.of_nat n) -> store m a n v x = m x.
Proof.
  revert m a v. induction n as [|n IH]; intros m a v Hx; [done|]. simpl.
  rewrite IH by lia. apply upd_ne. lia.
Qed.

Lemma load_ext n m m' a :
  (forall x, a <= x < a + Z.of_nat n -> m x = m' x) -> load m a n = load m' a n.
Proof.
  revert a. induction n as [|n IH]; intros a H; [done|]. simpl.
  rewrite (H a) by lia. rewrite (IH (a + 1)); [done|]. intros. apply H. lia.
Qed.

Lemma load_store_same n m a v :
  load (store m a n v) a n = v mod 256 ^ Z.of_nat n.
Proof.
  revert m a v. induction n as [|n IH]; intros m a v.
  { simpl. by rewrite Z.mod_1_r. }
  cbn [load store]. rewrite store_outside by lia. rewrite upd_eq, IH.
  rewrite Nat2Z.inj_succ, Z.pow_succ_r by lia.
  by rewrite Z.rem_mul_r by lia.
Qed.

Lemma load_store_disjoint n k m a b v :
  a + Z.of_nat n <= b \/ b + Z.of_nat k <= a ->
  load (store m a n v) b k = load m b k.
Proof. intros. apply load_ext. intros. apply store_outside. lia. Qed.

Lemma mem_ok_store n m a v : mem_ok m -> mem_ok (store m a n v).
Proof.
  revert m a v. induction n as [|n IH]; intros m a v Hm; [done|]. simpl.
  apply IH, mem_ok_upd; [done|]. by apply Z.mod_pos_bound.
Qed.

Lemma load_bound n m a : mem_ok m -> 0 <= load m a n < 256 ^ Z.of_nat n.
Proof.
  intros Hm. revert a. induction n as [|n IH]; intros a; [done|].
  cbn [load]. rewrite Nat2Z.inj_succ, Z.pow_succ_r by lia.
  specialize (IH (a + 1)). specialize (Hm a). nia.
Qed.

Lemma load_zero n m a :
  (forall x, a <= x < a + Z.of_nat n -> m x = 0) -> load m a n = 0.
Proof.
  revert a. induction n as [|n IH]; intros a H; [done|]. simpl.
  rewrite (H a), IH by (intros; apply H || lia; lia). done.
Qed.

Lemma load64_store64_same m a v : 0 <= v < 2 ^ 64 -> load64 (store64 m a v) a = v.
Proof.
  intros. unfold load64, store64. rewrite load_store_same.
  by apply Z.mod_small.
Qed.

Lemma load64_store64_disjoint m a b v :
  a + 8 <= b \/ b + 8 <= a -> load64 (store64 m a v) b = load64 m b.
Proof. intros. apply load_store_disjoint. lia. Qed.

Lemma store64_outside m a v x : ~ (a <= x < a + 8) -> store64 m a v x = m x.
Proof. intros. apply store_outside. lia. Qed.

Lemma load64_bound m a : mem_ok m -> 0 <= load64 m a < 2 ^ 64.
Proof. apply (load_bound 8). Qed.

Lemma write_bytes_spec bs m a x :
  write_bytes m a bs x =
    if in_range a (Z.of_nat (length bs)) x
    then bs !!! Z.to_nat (x - a) else m x.
Proof.
  revert m a. induction bs as [|b bs IH]; intros m a.
  { range_cases. simpl in *. lia. }
  cbn [write_bytes length]. rewrite IH. range_cases.
  - by replace (Z.to_nat (x - a)) with (S (Z.to_nat (x - (a + 1)))) by lia.
  - by rewrite Z.sub_diag.
Qed.

Lemma read_bytes_length m a n : length (read_bytes m a n) = n.
Proof. unfold read_bytes. by rewrite length_map, length_seq. Qed.

Lemma read_bytes_lookup m a n i :
  (i < n)%nat -> read_bytes m a n !!! i = m (a + Z.of_nat i).
Proof.
  intros. unfold read_bytes. rewrite list_lookup_total_alt.
  rewrite list_lookup_fmap, lookup_seq_lt by done. done.
Qed.

Lemma read_bytes_S m a n :
  read_bytes m a (S n) = m a :: read_bytes m (a + 1) n.
Proof.
  unfold read_bytes. cbn [seq map]. f_equal; [f_equal; lia|].
  rewrite <-seq_shift, map_map. apply map_ext. intros. f_equal. lia.
Qed.

Lemma read_bytes_ext m m' a n :
  (forall x, a <= x < a + Z.of_nat n -> m x = m' x) ->
  read_bytes m a n = read_bytes m' a n.
Proof.
  intros H. unfold read_bytes. apply map_ext_in. intros i Hi%in_seq.
  apply H. lia.
Qed.

Lemma read_bytes_app m a i j :
  read_bytes m a (i + j) =
    read_bytes m a i ++ read_bytes m (a + Z.of_nat i) j.
Proof.
  revert a. induction i as [|i IH]; intros a.
  { by rewrite Z.add_0_r. }
  cbn [Nat.add]. rewrite !read_bytes_S, IH. cbn [app].
  do 3 f_equal. lia.
Qed.

Lemma read_write_bytes m a bs :
  read_bytes (write_bytes m a bs) a (length bs) = bs.
Proof.
  apply list_eq_same_length with (n := length bs).
  - done.
  - by rewrite read_bytes_length.
  - intros i x y Hi Hx Hy.
    assert (read_bytes (write_bytes m a bs) a (length bs) !!! i = x) as <-.
    { by apply list_lookup_total_correct. }
    rewrite read_bytes_lookup, write_bytes_spec by done.
    range_cases. replace (Z.to_nat _) with i by lia.
    by apply list_lookup_total_correct.
Qed.

(** ** kernel/string.c *)

Module CString.

(** [for(i = 0; i < n; i++) cdst[i] = c;] *)
Fixpoint memset_loop (m : mem) (cdst c i : Z) (k : nat) : mem :=
  match k with
  | O => m
  | S k' => memset_loop (upd m (cdst + i) (u8 c)) cdst c (i + 1) k'
  end.

Definition memset (m : mem) (dst c n : Z) : mem :=
  memset_loop m dst c 0 (Z.to_nat n).

Fixpoint memcmp_loop (m : mem) (s1 s2 : Z) (n : nat) : Z :=
  match n with
  | O => 0
  | S n' =>
      if negb (m s1 =? m s2) then m s1 - m s2
      else memcmp_loop m (s1 + 1) (s2 + 1) n'
  end.

Definition memcmp (m : mem) (v1 v2 n : Z) : Z := memcmp_loop m v1 v2 (Z.to_nat n).

(** [while(n-- > 0) *--d = *--s;] *)
Fixpoint copy_down (m : mem) (d s : Z) (n : nat) : mem :=
  match n with
  | O => m
  | S n' => copy_down (upd m (d - 1) (m (s - 1))) (d - 1) (s - 1) n'
  end.

(** [while(n-- > 0) *d++ = *s++;] *)
Fixpoint copy_up (m : mem) (d s : Z) (n : nat) : mem :=
  match n with
  | O => m
  | S n' => copy_up (upd m d (m s)) (d + 1) (s + 1) n'
  end.

Definition memmove (m : mem) (dst src n : Z) : mem :=
  if n =? 0 then m
  else if (src <? dst) && (src + n >? dst)
  then copy_down m (dst + n) (src + n) (Z.to_nat n)
  else copy_up m dst src (Z.to_nat n).

Definition memcpy (m : mem) (dst src n : Z) : mem := memmove m dst src n.

Fixpoint strncmp_loop (m : mem) (p q : Z) (n : nat) : Z :=
  match n with
  | O => 0
  | S n' =>
      if negb (m p =? 0) && (m p =? m q)
      then strncmp_loop m (p + 1) (q + 1) n'
      else m p - m q
  end.

Definition strncmp (m : mem) (p q n : Z) : Z := strncmp_loop m p q (Z.to_nat n).

(** [while(n-- > 0) *s++ = 0;] *)
Fixpoint pad_zero (m : mem) (s : Z) (n : nat) : mem :=
  match n with
  | O => m
  | S n' => pad_zero (upd m s 0) (s + 1) n'
  end.

(** [while(n-- > 0 && ( *s++ = *t++ ) != 0) ;] and then the padding loop. *)
Fixpoint strncpy_loop (m : mem) (s t : Z) (n : nat) : mem :=
  match n with
  | O => m
  | S n' =>
      let m' := upd m s (m t) in
      if negb (m t =? 0) then strncpy_loop m' (s + 1) (t + 1) n'
      else pad_zero m' (s + 1) n'
  end.

Definition strncpy (m : mem) (s t n : Z) : mem := strncpy_loop m s t (Z.to_nat n).

(** [while(--n > 0 && ( *s++ = *t++ ) != 0) ;  *s = 0;] with [n-1] copies left *)
Fixpoint safestrcpy_loop (m : mem) (s t : Z) (n : nat) : mem :=
  match n with
  | O => upd m s 0
  | S n' =>
      let m' := upd m s (m t) in
      if negb (m t =? 0) then safestrcpy_loop m' (s + 1) (t + 1) n'
      else upd m' (s + 1) 0
  end.

Definition safestrcpy (m : mem) (s t n : Z) : mem :=
  if n <=? 0 then m else safestrcpy_loop m s t (Z.to_nat (n - 1)).

(** [for(n = 0; s[n]; n++) ;]: the scan has no bound of its own, so the
    model gives up after [fuel] bytes. *)
Fixpoint strlen_loop (fuel : nat) (m : mem) (s n : Z) : option Z :=
  match fuel with
  | O => None
  | S fuel' => if m (s + n) =? 0 then Some n else strlen_loop fuel' m s (n + 1)
  end.

Definition strlen (fuel : nat) (m : mem) (s : Z) : option Z :=
  strlen_loop fuel m s 0.








(** *** Specifications *)

(** The NUL-terminated string [l] at address [p]. *)
Definition cstr (m : mem) (p : Z) (l : list Z) : Prop :=
  read_bytes m p (length l) = l /\ Forall (fun b => b <> 0) l /\
  m (p + Z.of_nat (length l)) = 0.

Lemma memset_loop_spec k m dst c i x :
  memset_loop m dst c i k x =
    if in_range (dst + i) (Z.of_nat k) x then u8 c else m x.
Proof.
  revert m i. induction k as [|k IH]; intros m i; [simpl; range_cases|].
  cbn [memset_loop]. rewrite IH. range_cases.
Qed.

Lemma memset_spec m dst c n x :
  0 <= n -> memset m dst c n x = if in_range dst n x then u8 c else m x.
Proof.
  intros. unfold memset. by rewrite memset_loop_spec, Z.add_0_r, Z2Nat.id.
Qed.

Lemma mem_ok_memset m dst c n : 0 <= n -> mem_ok m -> mem_ok (memset m dst c n).
Proof.
  intros ? Hm x. rewrite memset_spec by done. case_match; [|done].
  by apply uwrap_bound.
Qed.

Lemma copy_down_spec n m d s x :
  s <= d ->
  copy_down m d s n x =
    if in_range (d - Z.of_nat n) (Z.of_nat n) x then m (s - (d - x)) else m x.
Proof.
  revert m d s. induction n as [|n IH]; intros m d s Hsd; [simpl; range_cases|].
  cbn [copy_down]. rewrite IH by lia. range_cases; f_equal; lia.
Qed.

Lemma copy_up_spec n m d s x :
  d <= s \/ s + Z.of_nat n <= d ->
  copy_up m d s n x =
    if in_range d (Z.of_nat n) x then m (s + (x - d)) else m x.
Proof.
  revert m d s. induction n as [|n IH]; intros m d s Hsd; [simpl; range_cases|].
  cbn [copy_up]. rewrite IH by lia. range_cases; f_equal; lia.
Qed.

Lemma memmove_copies m dst src n x :
  0 <= n ->
  memmove m dst src n x =
    if in_range dst n x then m (src + (x - dst)) else m x.
Proof.
  intros. unfold memmove. destruct (Z.eqb_spec n 0) as [->|]; [range_cases|].
  case_match eqn:E.
  - rewrite copy_down_spec by lia. rewrite Z2Nat.id by done.
    range_cases. f_equal. lia.
  - rewrite copy_up_spec by lia. by rewrite Z2Nat.id.
Qed.

Lemma mem_ok_memmove m dst src n : 0 <= n -> mem_ok m -> mem_ok (memmove m dst src n).
Proof. intros ? Hm x. rewrite memmove_copies by done. case_match; apply Hm. Qed.

Lemma strncmp_loop_zero n m p q :
  strncmp_loop m p q n = 0 <->
  (forall i : nat, (i < n)%nat ->
     (forall j : nat, (j < i)%nat -> m (p + Z.of_nat j) <> 0) ->
     m (p + Z.of_nat i) = m (q + Z.of_nat i)).
Proof.
  revert p q. induction n as [|n IH]; intros p q; [split; [lia|done]|].
  cbn [strncmp_loop]. case_match eqn:E.
  - assert (m p <> 0 /\ m p = m q) as [Hp Hpq] by lia. rewrite IH. split.
    + intros H [|i] Hi Hnz; [by rewrite !Z.add_0_r|].
      specialize (H i). rewrite <-!Z.add_assoc in H.
      replace (Z.of_nat (S i)) with (1 + Z.of_nat i) by lia. apply H; [lia|].
      intros j Hj. specialize (Hnz (S j)). rewrite <-Z.add_assoc.
      replace (1 + Z.of_nat j) with (Z.of_nat (S j)) by lia. apply Hnz. lia.
    + intros H i Hi Hnz. specialize (H (S i)).
      replace (p + 1 + Z.of_nat i) with (p + Z.of_nat (S i)) by lia.
      replace (q + 1 + Z.of_nat i) with (q + Z.of_nat (S i)) by lia.
      apply H; [lia|]. intros [|j] Hj; [by rewrite Z.add_0_r|].
      replace (p + Z.of_nat (S j)) with (p + 1 + Z.of_nat j) by lia.
      apply Hnz. lia.
  - split; [|intros H; specialize (H 0%nat); rewrite !Z.add_0_r in H;
      rewrite H; lia].
    intros H [|i] Hi Hnz; [rewrite !Z.add_0_r; lia|].
    specialize (Hnz 0%nat). rewrite Z.add_0_r in Hnz. lia.
Qed.

Lemma pad_zero_spec n m s x :
  pad_zero m s n x = if in_range s (Z.of_nat n) x then 0 else m x.
Proof.
  revert m s. induction n as [|n IH]; intros m s; [simpl; range_cases|].
  cbn [pad_zero]. rewrite IH. range_cases.
Qed.

(** The reference for [strncpy]: the source up to its NUL, then zeroes. *)
Fixpoint padded (m : mem) (t : Z) (n : nat) : list Z :=
  match n with
  | O => []
  | S n' => m t :: if m t =? 0 then replicate n' 0 else padded m (t + 1) n'
  end.

Lemma padded_length n m t : length (padded m t n) = n.
Proof.
  revert t. induction n as [|n IH]; intros t; [done|]. cbn [padded length].
  f_equal. case_match; [by rewrite length_replicate|apply IH].
Qed.

Lemma padded_ext n m m' t :
  (forall x, t <= x < t + Z.of_nat n -> m x = m' x) ->
  padded m t n = padded m' t n.
Proof.
  revert t. induction n as [|n IH]; intros t H; [done|]. cbn [padded].
  rewrite (H t) by lia. case_match; [done|]. f_equal. apply IH.
  intros. apply H. lia.
Qed.

Lemma write_zeroes m s n x :
  write_bytes m s (replicate n 0) x = pad_zero m s n x.
Proof.
  rewrite write_bytes_spec, pad_zero_spec, length_replicate.
  range_cases. apply lookup_total_replicate_2. lia.
Qed.

Lemma strncpy_loop_spec n m s t x :
  s + Z.of_nat n <= t \/ t + Z.of_nat n <= s ->
  strncpy_loop m s t n x = write_bytes m s (padded m t n) x.
Proof.
  revert m s t. induction n as [|n IH]; intros m s t H; [done|].
  cbn [strncpy_loop padded write_bytes]. destruct (m t =? 0); cbn [negb].
  - by rewrite write_zeroes.
  - rewrite IH by lia.
    rewrite (padded_ext n (upd m s (m t)) m); [done|].
    intros. apply upd_ne. lia.
Qed.

Lemma safestrcpy_loop_terminates n m s t :
  (exists k : nat, (k <= n)%nat /\ safestrcpy_loop m s t n (s + Z.of_nat k) = 0)
  /\ forall x, ~ (s <= x <= s + Z.of_nat n) -> safestrcpy_loop m s t n x = m x.
Proof.
  revert m s t. induction n as [|n IH]; intros m s t; cbn [safestrcpy_loop].
  { split; [exists 0%nat|intros; apply upd_ne; lia].
    by rewrite Z.add_0_r, upd_eq. }
  case_match.
  - destruct (IH (upd m s (m t)) (s + 1) (t + 1)) as [(k & Hk & Hz) Ho]. split.
    + exists (S k). split; [lia|].
      by replace (s + Z.of_nat (S k)) with (s + 1 + Z.of_nat k) by lia.
    + intros x Hx. rewrite Ho by lia. apply upd_ne. lia.
  - split; [exists 1%nat; split; [lia|apply upd_eq]|].
    intros x Hx. rewrite !upd_ne by lia. done.
Qed.

Lemma strlen_loop_cstr m s l fuel n :
  Forall (fun b => b <> 0) l ->
  read_bytes m (s + n) (length l) = l ->
  m (s + n + Z.of_nat (length l)) = 0 -> (length l < fuel)%nat ->
  strlen_loop fuel m s n = Some (n + Z.of_nat (length l)).
Proof.
  revert fuel n. induction l as [|b l IH]; intros fuel n Hl Hr H0 Hf;
    destruct fuel as [|fuel]; try (simpl in Hf; lia); cbn [strlen_loop].
  - rewrite Z.add_0_r in *. by rewrite H0.
  - cbn [length] in Hr. rewrite read_bytes_S in Hr. injection Hr as Hb Hr.
    apply Forall_cons_1 in Hl as [Hnz Hl].
    replace (m (s + n) =? 0) with false by lia.
    rewrite IH; [f_equal; cbn [length]; lia|done|..].
    + by rewrite Z.add_assoc.
    + rewrite <-H0. f_equal. cbn [length]. lia.
    + cbn [length] in Hf. lia.
Qed.

End CString.

(** Page-sized loops are reasoned about through their specifications only. *)
Global Opaque CString.memset CString.memmove CString.strncpy CString.safestrcpy.
