(* ===== verification/Strings.v ===== *)
(** * The theorems about kernel/string.c *)

From S2P Require Import Prelude Params Memory.
Import CString.

Lemma cstr_cons m p c l : cstr m p (c :: l) <-> m p = c /\ c <> 0 /\ cstr m (p + 1) l.
Proof.
  unfold cstr. cbn [length]. rewrite read_bytes_S, Forall_cons.
  replace (p + Z.of_nat (S (length l))) with (p + 1 + Z.of_nat (length l)) by lia.
  split.
  - intros (E & [Hc Hl] & H0). injection E as -> E. done.
  - intros (-> & Hc & E & Hl & H0). rewrite E. done.
Qed.

Lemma cstr_nil m p : cstr m p [] <-> m p = 0.
Proof. unfold cstr. simpl. rewrite Z.add_0_r. split; [by intros (_ & _ & ?)|done]. Qed.

Lemma cstr_ext m m' p l :
  (forall x, p <= x <= p + Z.of_nat (length l) -> m' x = m x) -> cstr m p l -> cstr m' p l.
Proof.
  revert p. induction l as [|c l IH]; intros p Hx.
  - rewrite !cstr_nil, Hx by (simpl; lia). done.
  - cbn [length] in Hx. rewrite !cstr_cons, Hx by lia. intros (H1 & H2 & H3).
    split_and!; [done|done|]. apply IH; [|done]. intros. apply Hx. lia.
Qed.

Lemma safestrcpy_loop_cstr n m s t l :
  cstr m t l -> s + Z.of_nat n < t \/ t + Z.of_nat (length l) < s ->
  cstr (safestrcpy_loop m s t n) s (take n l).
Proof.
  revert m s t l. induction n as [|n IH]; intros m s t l Hl Hd; cbn [safestrcpy_loop].
  { rewrite take_0. apply cstr_nil, upd_eq. }
  destruct l as [|c l].
  - apply cstr_nil in Hl. rewrite Hl. cbn [negb Z.eqb]. rewrite take_nil. apply cstr_nil.
    rewrite upd_ne by lia. apply upd_eq.
  - apply cstr_cons in Hl as (E & Hc & Hl). cbn [length] in Hd. rewrite E.
    replace (negb (c =? 0)) with true by lia. cbn [take]. apply cstr_cons.
    assert (Hl' : cstr (upd m s c) (t + 1) l).
    { eapply cstr_ext; [|exact Hl]. intros x Hx. apply upd_ne. lia. }
    split_and!; [|done|].
    + destruct (safestrcpy_loop_terminates n (upd m s c) (s + 1) (t + 1)) as [_ ->]; [|lia].
      apply upd_eq.
    + apply IH; [done|lia].
Qed.

Lemma strncmp_loop_cstr n m p q l1 l2 :
  cstr m p l1 -> cstr m q l2 -> strncmp_loop m p q n = 0 <-> take n l1 = take n l2.
Proof.
  revert p q l1 l2. induction n as [|n IH]; intros p q l1 l2 H1 H2; [done|].
  cbn [strncmp_loop].
  destruct l1 as [|c1 l1], l2 as [|c2 l2]; rewrite ?cstr_nil, ?cstr_cons in *.
  - rewrite H1, H2. done.
  - destruct H2 as (E2 & Hc2 & H2). rewrite H1, E2. cbn. split; [lia|done].
  - destruct H1 as (E1 & Hc1 & H1). rewrite H2, E1.
    replace (c1 =? 0) with false by lia. cbn. split; [lia|done].
  - destruct H1 as (E1 & Hc1 & H1), H2 as (E2 & Hc2 & H2). rewrite E1, E2.
    replace (negb (c1 =? 0)) with true by lia. cbn [andb].
    destruct (Z.eqb_spec c1 c2) as [->|Hne].
    + rewrite (IH _ _ _ _ H1 H2). cbn [take]. split; [by intros ->|by intros [= ?]].
    + split; [lia|intros E; injection E; congruence].
Qed.

Lemma strncpy_fills m s t n l :
  0 <= n -> cstr m t l -> s + n <= t \/ t + n <= s ->
  read_bytes (strncpy m s t n) s (Z.to_nat n) =
    take (Z.to_nat n) (l ++ replicate (Z.to_nat n) 0) /\
  forall x, ~ (s <= x < s + n) -> strncpy m s t n x = m x.
Proof.
  intros Hn Hl Hd.
  assert (Hp : forall k m t l, cstr m t l -> padded m t k = take k (l ++ replicate k 0)).
  { clear. intros k. induction k as [|k IH]; intros m t l Hl; [done|]. cbn [padded].
    destruct l as [|c l].
    - apply cstr_nil in Hl. rewrite Hl. cbn. f_equal.
      rewrite take_ge by (rewrite length_replicate; lia). done.
    - apply cstr_cons in Hl as (-> & Hc & Hl). replace (c =? 0) with false by lia.
      cbn [app take]. f_equal. rewrite (IH _ _ _ Hl).
      rewrite !take_app, !take_replicate. f_equal. f_equal. lia. }
  assert (Hs : forall x, strncpy m s t n x = write_bytes m s (padded m t (Z.to_nat n)) x).
  { intros x. with_strategy transparent [strncpy] unfold strncpy.
    apply strncpy_loop_spec. rewrite Z2Nat.id by done. lia. }
  split.
  - rewrite <-(Hp _ m t l Hl).
    rewrite (read_bytes_ext _ (write_bytes m s (padded m t (Z.to_nat n)))) by (intros; apply Hs).
    pose proof (read_write_bytes m s (padded m t (Z.to_nat n))) as E.
    by rewrite padded_length in E.
  - intros x Hx. rewrite Hs, write_bytes_spec, padded_length, Z2Nat.id by done.
    by destruct (in_range_spec s n x).
Qed.

(** ** Properties *)

(** [memmove] copies even if the areas overlap: the destination gets the bytes the
    source had, and no other byte changes. *)
Theorem memmove_overlap m dst src n :
  0 <= n ->
  read_bytes (memmove m dst src n) dst (Z.to_nat n) = read_bytes m src (Z.to_nat n) /\
  forall x, ~ (dst <= x < dst + n) -> memmove m dst src n x = m x.
Proof.
  intros Hn. split.
  - unfold read_bytes. apply map_ext_in. intros i Hi%in_seq. rewrite memmove_copies by done.
    destruct (in_range_spec dst n (dst + Z.of_nat i)); [f_equal; lia|lia].
  - intros x Hx. rewrite memmove_copies by done. by destruct (in_range_spec dst n x).
Qed.

(** Six bytes moved by two, forwards, over themselves. *)
Definition ramp : mem := fun x => x mod 256.

Lemma memmove_overlap_witness :
  read_bytes (memmove ramp 12 10 6) 12 6 = [10; 11; 12; 13; 14; 15].
Proof. destruct (memmove_overlap ramp 12 10 6 ltac:(lia)) as [H _]. exact H. Defined.

(** [safestrcpy] always leaves a NUL-terminated string: the source, cut off after
    [n - 1] characters; it writes nothing outside the [n] bytes of the destination. *)
Theorem safestrcpy_truncates m s t n l :
  0 < n -> cstr m t l -> s + n <= t \/ t + Z.of_nat (length l) < s ->
  cstr (safestrcpy m s t n) s (take (Z.to_nat (n - 1)) l) /\
  forall x, ~ (s <= x < s + n) -> safestrcpy m s t n x = m x.
Proof.
  intros Hn Hl Hd. with_strategy transparent [safestrcpy] unfold safestrcpy.
  replace (n <=? 0) with false by lia. split.
  - apply safestrcpy_loop_cstr; [done|lia].
  - intros x Hx. apply safestrcpy_loop_terminates. lia.
Qed.

(** "sh" with its NUL, at address 100. *)
Definition sh_string : mem := write_bytes (fun _ => 0) 100 [115; 104].

Lemma safestrcpy_truncates_witness : cstr (safestrcpy sh_string 0 100 2) 0 [115].
Proof.
  apply (safestrcpy_truncates sh_string 0 100 2 [115; 104]);
    [lia|split; [reflexivity|split; [repeat constructor; lia|reflexivity]]|lia].
Defined.

(** [strncpy] fills all [n] bytes: the source up to its NUL and zeroes after it. *)
Theorem strncpy_pads m s t n l :
  0 <= n -> cstr m t l -> s + n <= t \/ t + n <= s ->
  read_bytes (strncpy m s t n) s (Z.to_nat n) =
    take (Z.to_nat n) (l ++ replicate (Z.to_nat n) 0) /\
  forall x, ~ (s <= x < s + n) -> strncpy m s t n x = m x.
Proof. apply strncpy_fills. Qed.

Lemma strncpy_pads_witness :
  read_bytes (strncpy sh_string 0 100 5) 0 5 = [115; 104; 0; 0; 0].
Proof.
  destruct (strncpy_pads sh_string 0 100 5 [115; 104]) as [H _];
    [lia|split; [reflexivity|split; [repeat constructor; lia|reflexivity]]|lia|exact H].
Defined.

(** [strncmp] is 0 exactly if the strings agree up to [n] characters, which is
    what directory lookup asks of [namecmp]. *)
Theorem strncmp_equal m p q n l1 l2 :
  cstr m p l1 -> cstr m q l2 ->
  strncmp m p q n = 0 <-> take (Z.to_nat n) l1 = take (Z.to_nat n) l2.
Proof. intros. by apply strncmp_loop_cstr. Qed.

Lemma strncmp_equal_witness : strncmp sh_string 100 101 1 = 0 <-> [115] = [104].
Proof.
  apply (strncmp_equal sh_string 100 101 1 [115; 104] [104]);
    (split; [reflexivity|split; [repeat constructor; lia|reflexivity]]).
Defined.
