(* ===== verification/Block.v ===== *)
(** * Byte arrays

    Disk blocks and small C arrays are lists of bytes.  A pointer into a
    block that is cast to a structure ([struct dinode], [struct dirent],
    [struct logheader], ...) reads and writes little-endian fields at the
    offsets the compiler gives them. *)

From S2P Require Import Prelude.

(** [n] bytes at [off]. *)
Definition slice (off n : Z) (l : list Z) : list Z :=
  take (Z.to_nat n) (drop (Z.to_nat off) l).

(** [bs] stored at [off]. *)
Definition splice (off : Z) (bs l : list Z) : list Z :=
  take (Z.to_nat off) l ++ bs ++ drop (Z.to_nat off + length bs) l.

Fixpoint le_bytes (n : nat) (v : Z) : list Z :=
  match n with
  | O => []
  | S n' => v mod 256 :: le_bytes n' (v / 256)
  end.

Fixpoint le_val (l : list Z) : Z :=
  match l with
  | [] => 0
  | b :: l' => b + 256 * le_val l'
  end.

Definition get_le (off n : Z) (l : list Z) : Z := le_val (slice off n l).
Definition put_le (off n v : Z) (l : list Z) : list Z :=
  splice off (le_bytes (Z.to_nat n) v) l.

(** The fields of C's integer types. *)
Definition get_u16 (off : Z) (l : list Z) : Z := get_le off 2 l.
Definition get_i16 (off : Z) (l : list Z) : Z := i16 (get_le off 2 l).
Definition get_u32 (off : Z) (l : list Z) : Z := get_le off 4 l.
Definition get_i32 (off : Z) (l : list Z) : Z := i32 (get_le off 4 l).
Definition get_u64 (off : Z) (l : list Z) : Z := get_le off 8 l.
Definition put_16 (off v : Z) (l : list Z) : list Z := put_le off 2 v l.
Definition put_32 (off v : Z) (l : list Z) : list Z := put_le off 4 v l.
Definition put_64 (off v : Z) (l : list Z) : list Z := put_le off 8 v l.

(** A [char] array as a C string: the bytes before the first NUL. *)
Fixpoint cstring (l : list Z) : list Z :=
  match l with
  | [] => []
  | b :: l' => if b =? 0 then [] else b :: cstring l'
  end.

Lemma cstring_nonzero l : Forall (fun b => b <> 0) l -> cstring l = l.
Proof.
  induction 1 as [|b l Hb _ IH]; [done|]. cbn. replace (b =? 0) with false by lia. by rewrite IH.
Qed.

Lemma cstring_app_nul l r : Forall (fun b => b <> 0) l -> cstring (l ++ 0 :: r) = l.
Proof.
  induction 1 as [|b l Hb _ IH]; [done|]. cbn. replace (b =? 0) with false by lia. by rewrite IH.
Qed.

(** String literals as bytes. *)
Definition bytes_of_string (s : string) : list Z :=
  map (fun a => Z.of_N (Ascii.N_of_ascii a)) (String.list_ascii_of_string s).

(** ** Lengths *)

Lemma le_bytes_length n v : length (le_bytes n v) = n.
Proof. revert v. induction n as [|n IH]; intros v; simpl; [done|]. by rewrite IH. Qed.

Lemma splice_length off bs l :
  0 <= off -> off + Z.of_nat (length bs) <= Z.of_nat (length l) ->
  length (splice off bs l) = length l.
Proof.
  intros. unfold splice. rewrite !length_app, length_take, length_drop. lia.
Qed.

Lemma slice_length off n l :
  0 <= off -> 0 <= n -> off + n <= Z.of_nat (length l) ->
  length (slice off n l) = Z.to_nat n.
Proof. intros. unfold slice. rewrite length_take, length_drop. lia. Qed.

Lemma put_le_length off n v l :
  0 <= off -> 0 <= n -> off + n <= Z.of_nat (length l) ->
  length (put_le off n v l) = length l.
Proof. intros. apply splice_length; [done|]. rewrite le_bytes_length. lia. Qed.

(** ** Little-endian encodings *)

Lemma le_val_bytes n v : le_val (le_bytes n v) = v mod 2 ^ (8 * Z.of_nat n).
Proof.
  revert v. induction n as [|n IH]; intros v; cbn [le_bytes le_val].
  { by rewrite Z.mod_1_r. }
  rewrite IH.
  replace (2 ^ (8 * Z.of_nat (S n))) with (256 * 2 ^ (8 * Z.of_nat n)).
  - rewrite Z.rem_mul_r by lia. done.
  - change 256 with (2 ^ 8). rewrite <-Z.pow_add_r by lia. f_equal. lia.
Qed.

Lemma le_bytes_val l :
  Forall (fun b => 0 <= b < 256) l -> le_bytes (length l) (le_val l) = l.
Proof.
  induction 1 as [|b l Hb _ IH]; cbn [length le_bytes le_val]; [done|].
  f_equal.
  - rewrite Z.mul_comm, Z_mod_plus_full. by apply Z.mod_small.
  - rewrite Z.mul_comm, Z_div_plus_full, Z.div_small by lia. by rewrite Z.add_0_l.
Qed.

Lemma le_val_bound l :
  Forall (fun b => 0 <= b < 256) l ->
  0 <= le_val l < 2 ^ (8 * Z.of_nat (length l)).
Proof.
  induction 1 as [|b l Hb _ IH]; cbn [length le_val]; [lia|].
  replace (2 ^ (8 * Z.of_nat (S (length l))))
    with (256 * 2 ^ (8 * Z.of_nat (length l))); [lia|].
  change 256 with (2 ^ 8). rewrite <-Z.pow_add_r by lia. f_equal. lia.
Qed.

Lemma le_bytes_byte n v : Forall (fun b => 0 <= b < 256) (le_bytes n v).
Proof.
  revert v. induction n as [|n IH]; intros v; constructor; [|done].
  apply Z.mod_pos_bound. lia.
Qed.

(** ** Reading back what was stored *)

Lemma lookup_splice off bs l i :
  0 <= off -> off + Z.of_nat (length bs) <= Z.of_nat (length l) ->
  splice off bs l !! i =
    if decide (Z.to_nat off <= i < Z.to_nat off + length bs)%nat
    then bs !! (i - Z.to_nat off)%nat else l !! i.
Proof.
  intros. unfold splice.
  destruct (decide (i < Z.to_nat off)%nat).
  { rewrite lookup_app_l by (rewrite length_take; lia).
    rewrite lookup_take_lt by lia. by rewrite decide_False by lia. }
  rewrite lookup_app_r by (rewrite length_take; lia).
  rewrite length_take, Nat.min_l by lia.
  destruct (decide (i < Z.to_nat off + length bs)%nat).
  - rewrite lookup_app_l by lia. by rewrite decide_True by lia.
  - rewrite lookup_app_r by lia. rewrite lookup_drop, decide_False by lia.
    f_equal. lia.
Qed.

Lemma lookup_slice off n l i :
  (i < Z.to_nat n)%nat -> slice off n l !! i = l !! (Z.to_nat off + i)%nat.
Proof. intros. unfold slice. by rewrite lookup_take_lt, lookup_drop by done. Qed.

Lemma slice_ext off n l l' :
  (forall i, (Z.to_nat off <= i < Z.to_nat off + Z.to_nat n)%nat -> l !! i = l' !! i) ->
  slice off n l = slice off n l'.
Proof.
  intros H. apply list_eq. intros i. unfold slice.
  destruct (decide (i < Z.to_nat n)%nat).
  - rewrite !lookup_take_lt, !lookup_drop by done. apply H. lia.
  - by rewrite !lookup_take_ge by lia.
Qed.

Lemma slice_splice_same off bs l :
  0 <= off -> off + Z.of_nat (length bs) <= Z.of_nat (length l) ->
  slice off (Z.of_nat (length bs)) (splice off bs l) = bs.
Proof.
  intros. unfold slice, splice.
  rewrite drop_app_ge by (rewrite length_take; lia).
  rewrite length_take. replace (_ - _)%nat with 0%nat by lia.
  by rewrite drop_0, Nat2Z.id, take_app_length.
Qed.

Lemma slice_splice_disjoint off n off' bs l :
  0 <= off -> 0 <= off' -> 0 <= n ->
  off' + Z.of_nat (length bs) <= Z.of_nat (length l) ->
  off + n <= off' \/ off' + Z.of_nat (length bs) <= off ->
  slice off n (splice off' bs l) = slice off n l.
Proof.
  intros. apply slice_ext. intros i Hi.
  rewrite lookup_splice by lia. rewrite decide_False; [done|lia].
Qed.

Lemma slice_all n l : Z.of_nat (length l) = n -> slice 0 n l = l.
Proof. intros. unfold slice. simpl. apply take_ge. lia. Qed.

Lemma splice_all bs l : length bs = length l -> splice 0 bs l = bs.
Proof.
  intros. unfold splice. simpl. rewrite drop_ge by lia. apply app_nil_r.
Qed.

Lemma get_put_same off n v l :
  0 <= off -> 0 <= n -> off + n <= Z.of_nat (length l) ->
  get_le off n (put_le off n v l) = v mod 2 ^ (8 * n).
Proof.
  intros. unfold get_le, put_le.
  pose proof (slice_splice_same off (le_bytes (Z.to_nat n) v) l) as E.
  rewrite le_bytes_length, Z2Nat.id in E by lia.
  rewrite E by lia. rewrite le_val_bytes, Z2Nat.id by lia. done.
Qed.

Lemma get_put_disjoint off n off' n' v l :
  0 <= off -> 0 <= off' -> 0 <= n -> 0 <= n' -> off' + n' <= Z.of_nat (length l) ->
  off + n <= off' \/ off' + n' <= off ->
  get_le off n (put_le off' n' v l) = get_le off n l.
Proof.
  intros. unfold get_le, put_le. f_equal.
  apply slice_splice_disjoint; rewrite ?le_bytes_length; lia.
Qed.

Lemma splice_byte off bs l :
  Forall (fun b => 0 <= b < 256) bs -> Forall (fun b => 0 <= b < 256) l ->
  Forall (fun b => 0 <= b < 256) (splice off bs l).
Proof.
  intros. unfold splice. repeat apply Forall_app_2; auto using Forall_take, Forall_drop.
Qed.
