(* ===== verification/Kalloc.v ===== *)
(** * The physical page allocator: kernel/kalloc.c

    The free pages form a list threaded through the pages themselves: the
    first eight bytes of a free page are its [struct run].  [end], the first
    address after the kernel, comes from the linker and is a parameter. *)

From S2P Require Import Prelude Params Memory.
Import CString.

(** [struct { struct spinlock lock; struct run *freelist; } kmem], together
    with the physical memory it manages. *)
Record kmem := Kmem {
  kmem_lock : bool;
  freelist : Z;
  phys : mem;
}.

Definition kmem_lockL : lens kmem bool :=
  Lens kmem_lock (fun b s => Kmem b (freelist s) (phys s)).
Definition set_freelist (p : Z) (s : kmem) : kmem := Kmem (kmem_lock s) p (phys s).
Definition set_phys (m : mem) (s : kmem) : kmem := Kmem (kmem_lock s) (freelist s) m.
Definition physL : lens kmem mem := Lens phys set_phys.

Section kalloc.
Variable kend : Z.

Definition kfree (pa : Z) : M kmem unit :=
  panic_if (negb (pa mod PGSIZE =? 0) || (pa <? kend) || (PHYSTOP <=? pa))
    "kfree" ;;
  (* Fill with junk to catch dangling refs. *)
  modify (fun s => set_phys (memset (phys s) pa 1 PGSIZE) s) ;;
  acquire kmem_lockL ;;
  (* r->next = kmem.freelist; kmem.freelist = r; *)
  modify (fun s => set_phys (store64 (phys s) pa (freelist s)) s) ;;
  modify (set_freelist pa) ;;
  release kmem_lockL.

Definition kalloc : M kmem Z :=
  acquire kmem_lockL ;;
  r <- gets freelist ;;
  when (negb (r =? 0)) (modify (fun s => set_freelist (load64 (phys s) r) s)) ;;
  release kmem_lockL ;;
  when (negb (r =? 0))
    (modify (fun s => set_phys (memset (phys s) r 5 PGSIZE) s)) ;;
  ret r.

Definition freerange (pa_start pa_end : Z) : M kmem unit :=
  loop (Z.to_nat (pa_end / PGSIZE + 1)) (fun p =>
    if p + PGSIZE <=? pa_end
    then kfree p ;; ret (inl (p + PGSIZE))
    else ret (inr tt)) (PGROUNDUP pa_start).

Definition kinit : M kmem unit :=
  modify (update kmem_lockL false) ;;
  freerange kend PHYSTOP.

(** ** The free list *)

(** A page the allocator may hand out. *)
Definition page_ok (p : Z) : Prop := p mod PGSIZE = 0 /\ kend <= p < PHYSTOP.

(** The pages [l] are linked from [p] in memory. *)
Fixpoint linked (m : mem) (p : Z) (l : list Z) : Prop :=
  match l with
  | [] => p = 0
  | q :: l' => p = q /\ page_ok q /\ linked m (load64 m q) l'
  end.

Record kmem_inv (s : kmem) (l : list Z) : Prop := {
  inv_unlocked : kmem_lock s = false;
  inv_linked : linked (phys s) (freelist s) l;
  inv_nodup : NoDup l;
  inv_bytes : mem_ok (phys s);
}.

(** The two memories differ at most in the page at [p]. *)
Definition same_outside (p : Z) (m m' : mem) : Prop :=
  forall x, ~ (p <= x < p + PGSIZE) -> m' x = m x.

(** The kernel image lies in RAM: [KERNBASE <= end <= PHYSTOP]. *)
Hypothesis kend_ok : KERNBASE <= kend <= PHYSTOP.

Lemma page_disjoint p q x :
  p mod PGSIZE = 0 -> q mod PGSIZE = 0 -> p <> q ->
  p <= x < p + PGSIZE -> ~ (q <= x < q + PGSIZE).
Proof using. unfold PGSIZE. intros. Z.div_mod_to_equations. lia. Qed.

Lemma page_ok_nonzero p : page_ok p -> 0 < p < 2 ^ 32.
Proof using kend_ok. unfold page_ok, PHYSTOP, KERNBASE in *. lia. Qed.

Lemma linked_frame m m' p l q :
  linked m p l -> q mod PGSIZE = 0 -> q ∉ l -> same_outside q m m' ->
  linked m' p l.
Proof using.
  intros Hl Hq Hnin Hm. revert p Hl.
  induction l as [|r l IH]; intros p; [done|]. simpl.
  intros (-> & Hr & Hl). apply not_elem_of_cons in Hnin as [Hne Hnin].
  split; [done|]. split; [done|].
  replace (load64 m' r) with (load64 m r); [by apply IH|].
  apply load_ext. intros x Hx. symmetry. apply Hm.
  apply (page_disjoint r q); [apply Hr|done|congruence|].
  unfold PGSIZE. lia.
Qed.

Lemma linked_head_nonzero m p l :
  linked m p l -> p = 0 <-> l = [].
Proof using kend_ok.
  destruct l as [|q l]; [done|]. intros (-> & Hq%page_ok_nonzero & _).
  split; [lia|done].
Qed.

Lemma same_outside_memset m p c : same_outside p m (memset m p c PGSIZE).
Proof using. intros x Hx. rewrite memset_spec by done. range_cases. Qed.

Lemma same_outside_store m p v : same_outside p m (store64 m p v).
Proof using.
  intros x Hx. apply store_outside. unfold PGSIZE in *. lia.
Qed.

Lemma same_outside_trans p m1 m2 m3 :
  same_outside p m1 m2 -> same_outside p m2 m3 -> same_outside p m1 m3.
Proof using. intros H1 H2 x Hx. rewrite H2, H1 by done. done. Qed.

Lemma wp_kfree s l pa (Q : unit -> kmem -> Prop) :
  kmem_inv s l -> page_ok pa -> pa ∉ l ->
  (forall s', kmem_inv s' (pa :: l) ->
     same_outside pa (phys s) (phys s') -> Q tt s') ->
  wp (kfree pa) s Q.
Proof using kend_ok.
  intros [Hlk Hl Hnd Hok] Hpa Hnin HQ. unfold kfree.
  apply wp_bind, wp_panic_if.
  { unfold page_ok in Hpa. lia. }
  wp_run.
  assert (same_outside pa (phys s)
    (store64 (memset (phys s) pa 1 PGSIZE) pa (freelist s))) as Hsame.
  { eapply same_outside_trans; [apply same_outside_memset|].
    apply same_outside_store. }
  apply HQ; simpl; [|done]. constructor; simpl; [done|..].
  - split; [done|]. split; [done|].
    rewrite load64_store64_same.
    + eapply linked_frame; [done|apply Hpa|done|done].
    + destruct l as [|q l]; simpl in Hl; [lia|].
      destruct Hl as (-> & Hq%page_ok_nonzero & _). lia.
  - by constructor.
  - by apply mem_ok_store, mem_ok_memset.
Qed.

Lemma wp_kalloc s l (Q : Z -> kmem -> Prop) :
  kmem_inv s l ->
  match l with
  | [] => Q 0 s
  | p :: l' => forall s', kmem_inv s' l' -> page_ok p -> p ∉ l' ->
      same_outside p (phys s) (phys s') ->
      (forall x, p <= x < p + PGSIZE -> phys s' x = 5) -> Q p s'
  end ->
  wp kalloc s Q.
Proof using kend_ok.
  intros [Hlk Hl Hnd Hok] HQ. unfold kalloc.
  wp_run. simpl.
  destruct l as [|p l]; simpl in Hl.
  - rewrite Hl. simpl. wp_run.
    destruct s; simpl in *; subst. done.
  - destruct Hl as (Hp & Hpok & Hl). rewrite Hp.
    pose proof (page_ok_nonzero p Hpok).
    destruct (Z.eqb_spec p 0); [lia|]. simpl. wp_run. apply NoDup_cons in Hnd as [??].
    apply HQ; [|assumption|assumption|apply same_outside_memset|].
    + constructor; [reflexivity| |assumption|by apply mem_ok_memset].
      eapply linked_frame; [eassumption|apply Hpok|assumption|].
      apply same_outside_memset.
    + intros x Hx. simpl. rewrite memset_spec by done. range_cases.
Qed.

(** ** Boot *)

(** The [k] pages from [base] up, last one first. *)
Fixpoint page_run (base : Z) (k : nat) : list Z :=
  match k with
  | O => []
  | S k' => base + PGSIZE * Z.of_nat k' :: page_run base k'
  end.

Definition first_page : Z := PGROUNDUP kend.
Definition ram_pages : nat := Z.to_nat ((PHYSTOP - first_page) / PGSIZE).

Lemma first_page_bound :
  kend <= first_page <= PHYSTOP /\ first_page mod PGSIZE = 0.
Proof using kend_ok.
  pose proof (PGROUNDUP_bound kend) as H. unfold first_page.
  destruct H as [H1 H2].
  { unfold PHYSTOP, KERNBASE, PGSIZE in *. lia. }
  page_lia.
Qed.

Lemma page_run_elem base k q :
  q ∈ page_run base k <-> exists i, 0 <= i < Z.of_nat k /\ q = base + PGSIZE * i.
Proof using.
  induction k as [|k IH]; cbn [page_run].
  { split; [by intros ?%elem_of_nil|intros (i & ? & _); lia]. }
  rewrite elem_of_cons, IH. split.
  - intros [->|(i & ? & ->)]; eexists; (split; [|done]); lia.
  - intros (i & ? & ->). destruct (Z.eq_dec i (Z.of_nat k)) as [->|]; [by left|].
    right. exists i. split; [lia|done].
Qed.

Lemma page_run_nodup base k : NoDup (page_run base k).
Proof using.
  induction k as [|k IH]; constructor; [|done].
  rewrite page_run_elem. intros (i & ? & ?). unfold PGSIZE in *. lia.
Qed.

(** The run from [first_page] is exactly the pages [kfree] accepts. *)
Lemma ram_page_iff p :
  p ∈ page_run first_page ram_pages <-> p mod PGSIZE = 0 /\ kend <= p < PHYSTOP.
Proof using kend_ok.
  destruct first_page_bound as [Hb Ha]. rewrite page_run_elem. split.
  - intros (i & Hi & ->). unfold ram_pages in *. page_lia.
  - intros [Hp Hr]. exists ((p - first_page) / PGSIZE).
    assert (first_page <= p) by
      (unfold first_page in *; pose proof (PGROUNDUP_bound kend); page_lia).
    unfold ram_pages. page_lia.
Qed.

Lemma wp_kinit s (Q : unit -> kmem -> Prop) :
  freelist s = 0 -> mem_ok (phys s) ->
  (forall s', kmem_inv s' (page_run first_page ram_pages) -> Q tt s') ->
  wp kinit s Q.
Proof using kend_ok.
  intros Hf Hm HQ. destruct first_page_bound as [Hb Ha].
  unfold kinit. wp_step. wp_step. unfold freerange. fold first_page.
  assert (PHYSTOP mod PGSIZE = 0) as HP by done.
  apply (wp_loop (fun p s => exists k : nat,
    p = first_page + PGSIZE * Z.of_nat k /\ p <= PHYSTOP /\
    kmem_inv s (page_run first_page k)) (fun p => Z.to_nat ((PHYSTOP - p) / PGSIZE))).
  - intros p s1 (k & Hp & Hle & Hinv). case_match eqn:E.
    + wp_step. eapply wp_kfree; [done|..].
      * unfold page_ok. page_lia.
      * rewrite page_run_elem. intros (i & ? & ?). unfold PGSIZE in *. lia.
      * intros s2 Hinv2 _. wp_step. split.
        { exists (S k). cbn [page_run]. rewrite <-Hp.
          split; [page_lia|]. split; [page_lia|done]. }
        page_lia.
    + wp_step. apply HQ. unfold ram_pages.
      replace (Z.to_nat _) with k; [done|].
      page_lia.
  - exists 0%nat. split; [lia|]. split; [lia|].
    constructor; [done|exact Hf|constructor|exact Hm].
  - page_lia.
Qed.

(** ** Clients

    The allocator and the pages its clients own, as a transition system:
    clients allocate, free pages they own, and write into pages they own. *)

Inductive kstep : kmem * list Z -> kmem * list Z -> Prop :=
| kstep_alloc s A p s' :
    kalloc s = Done p s' -> p <> 0 -> kstep (s, A) (s', p :: A)
| kstep_nomem s A s' :
    kalloc s = Done 0 s' -> kstep (s, A) (s', A)
| kstep_free s A1 p A2 s' :
    kfree p s = Done tt s' -> kstep (s, A1 ++ p :: A2) (s', A1 ++ A2)
| kstep_write s A p m' :
    p ∈ A -> same_outside p (phys s) m' -> mem_ok m' ->
    kstep (s, A) (set_phys m' s, A).

(** No page is lost and none is both free and owned, or owned twice. *)
Definition pages_conserved (c : kmem * list Z) : Prop :=
  exists l, kmem_inv c.1 l /\ c.2 ++ l ≡ₚ page_run first_page ram_pages.

Lemma conserved_page_ok A l p :
  A ++ l ≡ₚ page_run first_page ram_pages -> p ∈ A -> page_ok p.
Proof using kend_ok.
  intros HP Hp. destruct first_page_bound as [Hb Ha].
  assert (p ∈ page_run first_page ram_pages) as Hin.
  { rewrite <-HP. apply elem_of_app. by left. }
  apply page_run_elem in Hin as (i & Hi & ->).
  unfold page_ok, ram_pages in *. page_lia.
Qed.

Lemma conserved_disjoint A l p :
  A ++ l ≡ₚ page_run first_page ram_pages -> p ∈ A -> p ∉ l.
Proof using.
  intros HP Hp. assert (NoDup (A ++ l)) as (_ & Hd & _)%NoDup_app.
  { rewrite HP. apply page_run_nodup. }
  by apply Hd.
Qed.

Lemma kstep_conserved c c' : kstep c c' -> pages_conserved c -> pages_conserved c'.
Proof using kend_ok.
  intros Hstep (l & Hinv & HP).
  destruct Hstep as [s A p s' Hk Hp|s A s' Hk|s A1 p A2 s' Hk|s A p m' Hp Hsame Hok];
    simpl in *.
  - destruct l as [|q l].
    { assert (wp kalloc s (fun r _ => r = 0)) as Hw by by eapply wp_kalloc.
      by pose proof (wp_elim _ _ _ _ _ Hw Hk). }
    assert (wp kalloc s (fun r s' => r = q /\ kmem_inv s' l)) as Hw
      by by eapply wp_kalloc.
    destruct (wp_elim _ _ _ _ _ Hw Hk) as [-> Hinv'].
    exists l. split; [done|]. by rewrite <-HP, <-Permutation_middle.
  - destruct l as [|q l].
    { assert (wp kalloc s (fun _ s' => s' = s)) as Hw by by eapply wp_kalloc.
      pose proof (wp_elim _ _ _ _ _ Hw Hk) as ->. by exists []. }
    assert (wp kalloc s (fun r s' => r = q /\ page_ok q)) as Hw
      by by eapply wp_kalloc.
    destruct (wp_elim _ _ _ _ _ Hw Hk) as [Hq Hok].
    apply page_ok_nonzero in Hok. lia.
  - assert (p ∈ A1 ++ p :: A2) as Hin by (apply elem_of_app; right; left).
    assert (wp (kfree p) s (fun _ s' => kmem_inv s' (p :: l))) as Hw.
    { eapply wp_kfree; eauto using conserved_page_ok, conserved_disjoint. }
    exists (p :: l). split; [by apply (wp_elim _ _ _ _ _ Hw Hk)|].
    rewrite <-HP, <-(assoc_L (++) A1 A2), <-(assoc_L (++) A1).
    apply Permutation_app_head. simpl. by rewrite Permutation_middle.
  - exists l. split; [|done]. destruct Hinv. constructor; [done| |done|done].
    eapply linked_frame; [done| |by eapply conserved_disjoint|done].
    by eapply conserved_page_ok.
Qed.
End kalloc.

(** ** Properties *)

(** A boot state: no free list yet, RAM full of zeroes. *)
Definition boot : kmem := Kmem false 0 (fun _ => 0).

(** when the kernel boots with an empty free list, [kinit] returns with
    the allocator's invariant established and with every whole page between
    the end of the kernel and [PHYSTOP], each of them once, on the free
    list. *)
Theorem kinit_correct (kend : Z) (s : kmem) :
  KERNBASE <= kend <= PHYSTOP -> freelist s = 0 -> mem_ok (phys s) ->
  exists s' l, kinit kend s = Done tt s' /\ kmem_inv kend s' l /\
    forall p, p ∈ l <-> p mod PGSIZE = 0 /\ kend <= p < PHYSTOP.
Proof.
  intros Hk Hf Hm. destruct (wp_kinit kend Hk s (fun _ s' =>
    kmem_inv kend s' (page_run (first_page kend) (ram_pages kend))) Hf Hm)
    as ([] & s' & Hr & Hinv); [auto|].
  exists s', (page_run (first_page kend) (ram_pages kend)).
  split_and!; [done|done|]. by apply ram_page_iff.
Qed.

Lemma kinit_correct_witness :
  exists s' l, kinit KERNBASE boot = Done tt s' /\ kmem_inv KERNBASE s' l /\
    forall p, p ∈ l <-> p mod PGSIZE = 0 /\ KERNBASE <= p < PHYSTOP.
Proof.
  apply (kinit_correct KERNBASE boot); [by compute|reflexivity|].
  intros a. simpl. lia.
Defined.

(** [kalloc] takes the first free page, fills it with junk and changes no other
    byte; it returns 0 exactly if no page is free.  [kfree] panics on an address that is not a page of RAM above the
    kernel, and puts any page that is not free back in front. *)
Theorem kalloc_kfree_correct (kend : Z) (s : kmem) (l : list Z) :
  KERNBASE <= kend <= PHYSTOP -> kmem_inv kend s l ->
  match l with
  | [] => kalloc s = Done 0 s
  | p :: l' => exists s', kalloc s = Done p s' /\ kmem_inv kend s' l' /\ p <> 0 /\
      same_outside p (phys s) (phys s') /\ forall x, p <= x < p + PGSIZE -> phys s' x = 5
  end /\
  forall pa,
    (~ (pa mod PGSIZE = 0 /\ kend <= pa < PHYSTOP) -> kfree kend pa s = Panic "kfree") /\
    (pa mod PGSIZE = 0 -> kend <= pa < PHYSTOP -> pa ∉ l ->
     exists s', kfree kend pa s = Done tt s' /\ kmem_inv kend s' (pa :: l) /\
       same_outside pa (phys s) (phys s')).
Proof.
  intros Hk Hinv. split; [|intros pa; split].
  - destruct l as [|p l].
    + assert (wp kalloc s (fun r s' => r = 0 /\ s' = s)) as (r & s' & Hr & -> & ->)
        by by eapply (wp_kalloc kend Hk). done.
    + assert (wp kalloc s (fun r s' => r = p /\ kmem_inv kend s' l /\ p <> 0 /\
        same_outside p (phys s) (phys s') /\ forall x, p <= x < p + PGSIZE -> phys s' x = 5))
        as (r & s' & Hr & -> & Hs').
      { eapply (wp_kalloc kend Hk); [done|]. intros s' H1 H2%(page_ok_nonzero kend Hk) _ H3 H4.
        split_and!; [done|done|lia|done|done]. }
      by exists s'.
  - intros Hno. unfold kfree. apply bind_panic.
    replace (_ || _ || _) with true; [done|]. lia.
  - intros Ha Hr Hnin.
    assert (wp (kfree kend pa) s (fun _ s' => kmem_inv kend s' (pa :: l) /\
      same_outside pa (phys s) (phys s'))) as ([] & s' & Hs & HQ)
      by by eapply (wp_kfree kend Hk).
    by exists s'.
Qed.

(** One page is free. *)
Definition one_page : kmem := Kmem false KERNBASE (fun _ => 0).

Lemma one_page_inv : kmem_inv KERNBASE one_page [KERNBASE].
Proof.
  constructor; [done| |apply NoDup_singleton|intros x; simpl; lia].
  split_and!; [done|by compute|]. by vm_compute.
Qed.

Lemma kalloc_kfree_correct_witness :
  exists s', kalloc one_page = Done KERNBASE s' /\ kmem_inv KERNBASE s' [].
Proof.
  destruct (kalloc_kfree_correct KERNBASE one_page [KERNBASE] ltac:(by compute) one_page_inv)
    as [(s' & H1 & H2 & _) _]. exists s'. split; [exact H1|exact H2].
Defined.

(** C29: no page is ever lost, handed out twice, or free while it is owned: whatever
    the kernel allocates, frees of its own pages and writes into its own
    pages after [kinit], the owned pages [A] and the free pages [l] are together
    the pages of RAM above the kernel, each of them once. *)
Theorem pages_never_lost (kend : Z) (s s0 s' : kmem) (A : list Z) :
  KERNBASE <= kend <= PHYSTOP -> freelist s = 0 -> mem_ok (phys s) ->
  kinit kend s = Done tt s0 -> rtc (kstep kend) (s0, []) (s', A) ->
  exists l, kmem_inv kend s' l /\ NoDup (A ++ l) /\
    forall p, p ∈ A ++ l <-> p mod PGSIZE = 0 /\ kend <= p < PHYSTOP.
Proof.
  intros Hk Hf Hm Hi Hsteps.
  assert (pages_conserved kend (s0, [])) as H0.
  { exists (page_run (first_page kend) (ram_pages kend)). split; [|done].
    assert (wp (kinit kend) s (fun _ s' =>
      kmem_inv kend s' (page_run (first_page kend) (ram_pages kend)))) as Hw.
    { by apply (wp_kinit kend Hk s). }
    exact (wp_elim _ _ _ _ _ Hw Hi). }
  assert (pages_conserved kend (s', A)) as (l & Hinv & HP).
  { clear Hi. induction Hsteps; [done|]. eauto using kstep_conserved. }
  exists l. simpl in *. split_and!; [done| |].
  - rewrite HP. apply page_run_nodup.
  - intros p. rewrite HP. by apply ram_page_iff.
Qed.

Lemma pages_never_lost_witness :
  exists s0, kinit KERNBASE boot = Done tt s0 /\
    exists l, kmem_inv KERNBASE s0 l /\ NoDup ([] ++ l) /\
      forall p, p ∈ [] ++ l <-> p mod PGSIZE = 0 /\ KERNBASE <= p < PHYSTOP.
Proof.
  assert (mem_ok (phys boot)) as Hm by (intros a; simpl; lia).
  assert (KERNBASE <= KERNBASE <= PHYSTOP) as Hk by by compute.
  destruct (wp_kinit KERNBASE Hk boot (fun _ _ => True) eq_refl Hm (fun _ _ => I))
    as ([] & s0 & Hi & _).
  exists s0. split; [exact Hi|].
  apply (pages_never_lost KERNBASE boot s0 s0 [] Hk eq_refl Hm Hi). reflexivity.
Defined.
