(* ===== verification/Vm.v ===== *)
(** * Virtual memory: kernel/vm.c

    Sv39 page tables live in physical memory; every routine of vm.c is a path
    over the allocator's state ([Kalloc.kmem]).  A pointer to a PTE is the
    address of the entry, 0 for a null pointer.  A buffer on the kernel side
    of [copyout], [copyin] and [copyinstr] is the list of its bytes.

    [kend], [etext] and [trampoline] are addresses chosen by the linker. *)

From S2P Require Import Prelude Params Memory Kalloc.
Import CString.

Section vm.
Variable kend : Z.

Abbreviation kfree := (kfree kend).

Definition read64 (a : Z) : M kmem Z := gets (fun s => load64 (phys s) a).
Definition write64 (a v : Z) : M kmem unit :=
  modify (fun s => set_phys (store64 (phys s) a v) s).
Definition kmemset (dst c n : Z) : M kmem unit :=
  modify (fun s => set_phys (memset (phys s) dst c n) s).
Definition kmemmove (dst src n : Z) : M kmem unit :=
  modify (fun s => set_phys (memmove (phys s) dst src n) s).

(** [pte & PTE_V], ... as a C condition *)
Definition has (pte flag : Z) : bool := negb (Z.land pte flag =? 0).

(** [&pagetable[i]] *)
Definition slot (pagetable i : Z) : Z := pagetable + 8 * i.

Definition walk (pagetable va : Z) (alloc : bool) : M kmem Z :=
  panic_if (MAXVA <=? va) "walk" ;;
  loop 3 (fun '(level, pagetable) =>
    if 0 <? level then
      let pte := slot pagetable (PX level va) in
      e <- read64 pte ;;
      if has e PTE_V
      then ret (inl (level - 1, PTE2PA e))
      else if negb alloc then ret (inr 0)
      else
        pagetable <- kalloc ;;
        if pagetable =? 0 then ret (inr 0)
        else
          kmemset pagetable 0 PGSIZE ;;
          write64 pte (Z.lor (PA2PTE pagetable) PTE_V) ;;
          ret (inl (level - 1, pagetable))
    else ret (inr (slot pagetable (PX 0 va)))) (2, pagetable).

Definition walkaddr (pagetable va : Z) : M kmem Z :=
  if MAXVA <=? va then ret 0
  else
    pte <- walk pagetable va false ;;
    if pte =? 0 then ret 0
    else
      e <- read64 pte ;;
      if negb (has e PTE_V) then ret 0
      else if negb (has e PTE_U) then ret 0
      else ret (PTE2PA e).

(** Enough rounds for the pages from [a] to [last], or to the end of the
    address space, where [walk] panics, when [va + size - 1] wraps. *)
Definition mappages_fuel (a last : Z) : nat :=
  Z.to_nat (((if a <=? last then Z.min last MAXVA else MAXVA) - a) / PGSIZE + 2).

Definition mappages (pagetable va size pa perm : Z) : M kmem Z :=
  panic_if (size =? 0) "mappages: size" ;;
  let a := PGROUNDDOWN va in
  let last := PGROUNDDOWN (u64 (va + size - 1)) in
  loop (mappages_fuel a last) (fun '(a, pa) =>
    pte <- walk pagetable a true ;;
    if pte =? 0 then ret (inr (-1))
    else
      e <- read64 pte ;;
      panic_if (has e PTE_V) "mappages: remap" ;;
      write64 pte (Z.lor (Z.lor (PA2PTE pa) perm) PTE_V) ;;
      if a =? last then ret (inr 0)
      else ret (inl (u64 (a + PGSIZE), u64 (pa + PGSIZE)))) (a, pa).

Definition kvmmap (kpgtbl va pa sz perm : Z) : M kmem unit :=
  r <- mappages kpgtbl va sz pa perm ;;
  panic_if (negb (r =? 0)) "kvmmap".

Definition uvmunmap (pagetable va npages : Z) (do_free : bool) : M kmem unit :=
  panic_if (negb (va mod PGSIZE =? 0)) "uvmunmap: not aligned" ;;
  let stop := u64 (va + npages * PGSIZE) in
  loop (Z.to_nat (npages + 1)) (fun a =>
    if a <? stop then
      pte <- walk pagetable a false ;;
      panic_if (pte =? 0) "uvmunmap: walk" ;;
      e <- read64 pte ;;
      panic_if (negb (has e PTE_V)) "uvmunmap: not mapped" ;;
      panic_if (PTE_FLAGS e =? PTE_V) "uvmunmap: not a leaf" ;;
      when do_free (kfree (PTE2PA e)) ;;
      write64 pte 0 ;;
      ret (inl (u64 (a + PGSIZE)))
    else ret (inr tt)) va.

Definition uvmcreate : M kmem Z :=
  pagetable <- kalloc ;;
  if pagetable =? 0 then ret 0
  else kmemset pagetable 0 PGSIZE ;; ret pagetable.

Definition uvmfirst (pagetable : Z) (src : list Z) (sz : Z) : M kmem unit :=
  panic_if (PGSIZE <=? sz) "uvmfirst: more than a page" ;;
  mem <- kalloc ;;
  kmemset mem 0 PGSIZE ;;
  mappages pagetable 0 PGSIZE mem
    (Z.lor (Z.lor (Z.lor PTE_W PTE_R) PTE_X) PTE_U) ;;
  modify (fun s =>
    set_phys (write_bytes (phys s) mem (take (Z.to_nat sz) src)) s).

Definition uvmdealloc (pagetable oldsz newsz : Z) : M kmem Z :=
  if oldsz <=? newsz then ret oldsz
  else
    when (PGROUNDUP newsz <? PGROUNDUP oldsz) (
      let npages := i32 ((PGROUNDUP oldsz - PGROUNDUP newsz) / PGSIZE) in
      uvmunmap pagetable (PGROUNDUP newsz) (u64 npages) true) ;;
    ret newsz.

Definition uvmalloc (pagetable oldsz newsz xperm : Z) : M kmem Z :=
  if newsz <? oldsz then ret oldsz
  else
    let oldsz := PGROUNDUP oldsz in
    loop (Z.to_nat ((newsz - oldsz) / PGSIZE + 2)) (fun a =>
      if a <? newsz then
        mem <- kalloc ;;
        if mem =? 0 then
          uvmdealloc pagetable a oldsz ;; ret (inr 0)
        else
          kmemset mem 0 PGSIZE ;;
          r <- mappages pagetable a PGSIZE mem (Z.lor (Z.lor PTE_R PTE_U) xperm) ;;
          if negb (r =? 0) then
            kfree mem ;; uvmdealloc pagetable a oldsz ;; ret (inr 0)
          else ret (inl (u64 (a + PGSIZE)))
      else ret (inr newsz)) oldsz.

(** The recursion goes down the levels of the tree; [depth] bounds it. *)
Fixpoint freewalk (depth : nat) (pagetable : Z) : M kmem unit :=
  match depth with
  | O => out_of_fuel
  | S depth' =>
      loop 513 (fun i =>
        if i <? 512 then
          pte <- read64 (slot pagetable i) ;;
          if has pte PTE_V && (Z.land pte (Z.lor (Z.lor PTE_R PTE_W) PTE_X) =? 0)
          then
            freewalk depth' (PTE2PA pte) ;;
            write64 (slot pagetable i) 0 ;;
            ret (inl (i + 1))
          else if has pte PTE_V then panic "freewalk: leaf"
          else ret (inl (i + 1))
        else ret (inr tt)) 0 ;;
      kfree pagetable
  end.

Definition uvmfree (pagetable sz : Z) : M kmem unit :=
  when (0 <? sz) (uvmunmap pagetable 0 (PGROUNDUP sz / PGSIZE) true) ;;
  freewalk 3 pagetable.

(** [err: uvmunmap(new, 0, i / PGSIZE, 1); return -1;] *)
Definition uvmcopy_err (new i : Z) : M kmem (Z + Z) :=
  uvmunmap new 0 (i / PGSIZE) true ;; ret (inr (-1)).

Definition uvmcopy (old new sz : Z) : M kmem Z :=
  loop (Z.to_nat (sz / PGSIZE + 2)) (fun i =>
    if i <? sz then
      pte <- walk old i false ;;
      panic_if (pte =? 0) "uvmcopy: pte should exist" ;;
      e <- read64 pte ;;
      panic_if (negb (has e PTE_V)) "uvmcopy: page not present" ;;
      let pa := PTE2PA e in
      let flags := PTE_FLAGS e in
      mem <- kalloc ;;
      if mem =? 0 then uvmcopy_err new i
      else
        kmemmove mem pa PGSIZE ;;
        r <- mappages new i PGSIZE mem flags ;;
        if negb (r =? 0) then kfree mem ;; uvmcopy_err new i
        else ret (inl (u64 (i + PGSIZE)))
    else ret (inr 0)) 0.

Definition copytable (old new sz : Z) : M kmem Z :=
  loop (Z.to_nat (sz / PGSIZE + 2)) (fun i =>
    if i <? sz then
      pte <- walk old i false ;;
      panic_if (pte =? 0) "copytable: pte should exist" ;;
      e <- read64 pte ;;
      if negb (has e PTE_V) then ret (inl (u64 (i + PGSIZE)))
      else
        let pa := PTE2PA e in
        let flags := PTE_FLAGS e in
        r <- mappages new i PGSIZE pa flags ;;
        if negb (r =? 0) then
          uvmunmap new 0 (i / PGSIZE) true ;; ret (inr (-1))
        else ret (inl (u64 (i + PGSIZE)))
    else ret (inr 0)) 0.

Definition uvmclear (pagetable va : Z) : M kmem unit :=
  pte <- walk pagetable va false ;;
  panic_if (pte =? 0) "uvmclear" ;;
  e <- read64 pte ;;
  write64 pte (Z.land e (Z.lnot PTE_U)).

(** One round per page touched. *)
Definition copy_fuel (len : Z) : nat := Z.to_nat (len / PGSIZE + 3).

Definition copyout (pagetable dstva : Z) (src : list Z) : M kmem Z :=
  loop (copy_fuel (Z.of_nat (length src))) (fun '(dstva, src) =>
    let len := Z.of_nat (length src) in
    if 0 <? len then
      let va0 := PGROUNDDOWN dstva in
      pa0 <- walkaddr pagetable va0 ;;
      if pa0 =? 0 then ret (inr (-1))
      else
        let n := Z.min (PGSIZE - (dstva - va0)) len in
        modify (fun s => set_phys
          (write_bytes (phys s) (pa0 + (dstva - va0)) (take (Z.to_nat n) src)) s) ;;
        ret (inl (u64 (va0 + PGSIZE), drop (Z.to_nat n) src))
    else ret (inr 0)) (dstva, src).

(** Returns the code and the bytes stored to [dst]. *)
Definition copyin (pagetable srcva len : Z) : M kmem (Z * list Z) :=
  loop (copy_fuel len) (fun '(srcva, len, dst) =>
    if 0 <? len then
      let va0 := PGROUNDDOWN srcva in
      pa0 <- walkaddr pagetable va0 ;;
      if pa0 =? 0 then ret (inr (-1, dst))
      else
        let n := Z.min (PGSIZE - (srcva - va0)) len in
        bs <- gets (fun s =>
          read_bytes (phys s) (pa0 + (srcva - va0)) (Z.to_nat n)) ;;
        ret (inl (u64 (va0 + PGSIZE), len - n, dst ++ bs))
    else ret (inr (0, dst))) (srcva, len, []).

(** The inner loop of [copyinstr] over [n] bytes at [p]: the bytes stored,
    and whether the NUL was met. *)
Fixpoint copy_until_nul (m : mem) (p : Z) (n : nat) : list Z * bool :=
  match n with
  | O => ([], false)
  | S n' =>
      if m p =? 0 then ([0], true)
      else let '(bs, got_null) := copy_until_nul m (p + 1) n' in
           (m p :: bs, got_null)
  end.

Definition copyinstr (pagetable srcva max : Z) : M kmem (Z * list Z) :=
  loop (copy_fuel max) (fun '(srcva, max, dst, got_null) =>
    if negb got_null && (0 <? max) then
      let va0 := PGROUNDDOWN srcva in
      pa0 <- walkaddr pagetable va0 ;;
      if pa0 =? 0 then ret (inr (-1, dst))
      else
        let n := Z.min (PGSIZE - (srcva - va0)) max in
        r <- gets (fun s =>
          copy_until_nul (phys s) (pa0 + (srcva - va0)) (Z.to_nat n)) ;;
        let '(bs, got_null) := r in
        (* --max for every byte but the NUL *)
        ret (inl (u64 (va0 + PGSIZE),
                  max - (Z.of_nat (length bs) - b2z got_null), dst ++ bs, got_null))
    else ret (inr (if got_null then 0 else -1, dst)))
    (srcva, max, [], false).

(** ** The kernel's own page table *)

Section kernel_page_table.
Variables etext trampoline : Z.

(** kernel/proc.c: a kernel stack for each process, mapped high. *)
Definition proc_mapstacks (kpgtbl : Z) : M kmem unit :=
  loop (Z.to_nat (NPROC + 1)) (fun p =>
    if p <? NPROC then
      pa <- kalloc ;;
      panic_if (pa =? 0) "kalloc" ;;
      let va := KSTACK p in
      kvmmap kpgtbl va pa PGSIZE (Z.lor PTE_R PTE_W) ;;
      ret (inl (p + 1))
    else ret (inr tt)) 0.

Definition kvmmake : M kmem Z :=
  kpgtbl <- kalloc ;;
  kmemset kpgtbl 0 PGSIZE ;;
  kvmmap kpgtbl UART0 UART0 PGSIZE (Z.lor PTE_R PTE_W) ;;
  kvmmap kpgtbl VIRTIO0 VIRTIO0 PGSIZE (Z.lor PTE_R PTE_W) ;;
  kvmmap kpgtbl PLIC PLIC 0x400000 (Z.lor PTE_R PTE_W) ;;
  kvmmap kpgtbl KERNBASE KERNBASE (etext - KERNBASE) (Z.lor PTE_R PTE_X) ;;
  kvmmap kpgtbl etext etext (PHYSTOP - etext) (Z.lor PTE_R PTE_W) ;;
  kvmmap kpgtbl TRAMPOLINE trampoline PGSIZE (Z.lor PTE_R PTE_X) ;;
  proc_mapstacks kpgtbl ;;
  ret kpgtbl.
End kernel_page_table.
End vm.

Ltac wp_prim ::=
  lazymatch goal with
  | |- wp (read64 _) _ _ => apply wp_gets
  | |- wp (write64 _ _) _ _ => apply wp_modify
  | |- wp (kmemset _ _ _) _ _ => apply wp_modify
  | |- wp (kmemmove _ _ _) _ _ => apply wp_modify
  end.
