(* ===== verification/VmSpec.v ===== *)
(** * Page tables as maps: what kernel/vm.c promises

    The abstract view of an Sv39 tree is [leaf]: the PTE that maps a virtual
    address, 0 when there is none.  Every page that serves as a table is
    labelled with its root and the indices that lead to it ([tables]), which
    makes the trees disjoint and the slots of different pages different. *)

From S2P Require Import Prelude Params Memory Kalloc Vm.
Import CString.

(** ** Lookup *)

Fixpoint follow (m : mem) (p : Z) (path : list Z) : option Z :=
  match path with
  | [] => Some p
  | i :: path' =>
      let e := load64 m (slot p i) in
      if has e PTE_V then follow m (PTE2PA e) path' else None
  end.

Definition pt_lookup (m : mem) (root va : Z) : option Z :=
  q ← follow m root [PX 2 va; PX 1 va]; Some (slot q (PX 0 va)).

Definition leaf (m : mem) (root va : Z) : Z :=
  match pt_lookup m root va with
  | Some a => load64 m a
  | None => 0
  end.

Abbreviation tables := (gmap Z (Z * list Z)).

Definition is_root (T : tables) (r : Z) : Prop := T !! r = Some (r, []).

(** The pages that are free or tables. *)
Definition pages (l : list Z) (T : tables) : gset Z := list_to_set l ∪ dom T.

Lemma elem_of_pages p l T : p ∈ pages l T <-> p ∈ l \/ is_Some (T !! p).
Proof. unfold pages. by rewrite elem_of_union, elem_of_list_to_set, elem_of_dom. Qed.

Lemma pages_move p x l T : pages l (<[p := x]> T) = pages (p :: l) T.
Proof. unfold pages. by rewrite dom_insert_L, list_to_set_cons, union_assoc_L, (union_comm_L (list_to_set l)). Qed.

Section vmspec.
Variable kend : Z.
Hypothesis kend_ok : KERNBASE <= kend <= PHYSTOP.

Record pt_inv (m : mem) (T : tables) : Prop := {
  pt_page p r path : T !! p = Some (r, path) ->
    page_ok kend p /\ (length path <= 2)%nat;
  pt_child p r path i : T !! p = Some (r, path) -> (length path < 2)%nat ->
    0 <= i < 512 -> has (load64 m (slot p i)) PTE_V = true ->
    T !! PTE2PA (load64 m (slot p i)) = Some (r, path ++ [i]);
  pt_inner p r path i : T !! p = Some (r, path) -> (length path < 2)%nat ->
    0 <= i < 512 -> has (load64 m (slot p i)) PTE_V = true ->
    Z.land (load64 m (slot p i)) (Z.lor (Z.lor PTE_R PTE_W) PTE_X) = 0;
  pt_parent p r path i : T !! p = Some (r, path ++ [i]) ->
    exists q, T !! q = Some (r, path) /\ 0 <= i < 512 /\
      has (load64 m (slot q i)) PTE_V = true /\ PTE2PA (load64 m (slot q i)) = p;
  pt_root p r : T !! p = Some (r, []) -> p = r;
  pt_low p r i path : T !! p = Some (r, i :: path) -> i < 256;
}.

(** The allocator and the page tables: tables are never free pages. *)
Record vm_inv (s : kmem) (l : list Z) (T : tables) : Prop := {
  vm_kmem : kmem_inv kend s l;
  vm_pt : pt_inv (phys s) T;
  vm_disj p : is_Some (T !! p) -> p ∉ l;
}.

(** The memories agree on every table page. *)
Definition agree_tables (T : tables) (m m' : mem) : Prop :=
  forall q x, is_Some (T !! q) -> q <= x < q + PGSIZE -> m' x = m x.

Lemma slot_in_page q i x :
  0 <= i < 512 -> slot q i <= x < slot q i + 8 -> q <= x < q + PGSIZE.
Proof using. unfold slot, PGSIZE. lia. Qed.

Lemma load_slot_agree T m m' q i :
  agree_tables T m m' -> is_Some (T !! q) -> 0 <= i < 512 ->
  load64 m' (slot q i) = load64 m (slot q i).
Proof using.
  intros Ha Hq Hi. apply load_ext. intros x Hx. eapply Ha; [done|].
  eapply slot_in_page; [done|]. lia.
Qed.

Lemma follow_path m T r q path :
  pt_inv m T -> is_root T r -> Forall (fun i => 0 <= i < 512) path ->
  (length path <= 2)%nat -> follow m r path = Some q ->
  T !! q = Some (r, path).
Proof using.
  intros Hpt Hr Hpath Hlen.
  enough (forall pre p, T !! p = Some (r, pre) ->
    (length (pre ++ path) <= 2)%nat ->
    follow m p path = Some q -> T !! q = Some (r, pre ++ path)) as H.
  { intros Hf. by apply (H [] r). }
  clear Hlen. induction Hpath as [|i path Hi Hpath IH]; intros pre p Hp Hl; simpl.
  { intros [= ->]. by rewrite app_nil_r. }
  case_match eqn:E; [|done]. intros Hf. rewrite length_app in Hl. simpl in Hl.
  rewrite (cons_middle i pre path), (assoc_L (++)). eapply IH; [|..|done].
  - eapply pt_child; [done|done|lia|done|done].
  - rewrite !length_app. simpl. lia.
Qed.

Lemma follow_agree T m m' r path :
  pt_inv m T -> agree_tables T m m' -> is_root T r ->
  Forall (fun i => 0 <= i < 512) path -> (length path <= 2)%nat ->
  follow m' r path = follow m r path.
Proof using.
  intros Hpt Ha Hr Hpath Hlen.
  enough (forall pre p, T !! p = Some (r, pre) ->
    (length (pre ++ path) <= 2)%nat -> follow m' p path = follow m p path) as H.
  { by apply (H [] r). }
  clear Hlen. induction Hpath as [|i path Hi Hpath IH]; intros pre p Hp Hl; [done|].
  simpl. rewrite (load_slot_agree T m m') by (try done; by eexists).
  case_match eqn:E; [|done]. rewrite length_app in Hl. simpl in Hl.
  apply (IH (pre ++ [i])).
  - eapply pt_child; [done|done|lia|done|done].
  - rewrite !length_app. simpl. lia.
Qed.

Lemma PX_top va : 0 <= va < MAXVA -> PX 2 va < 256.
Proof using.
  intros Hva. unfold PX, PXSHIFT, PGSHIFT. change PXMASK with (Z.ones 9). rewrite Z.land_ones by lia. rewrite Z.shiftr_div_pow2 by lia.
  change MAXVA with (2 ^ 38) in Hva. Z.div_mod_to_equations. lia.
Qed.

Lemma PX_path va : Forall (fun i => 0 <= i < 512) [PX 2 va; PX 1 va].
Proof using. repeat constructor; apply PX_bound; lia. Qed.

Lemma pt_lookup_Some m T root va a :
  pt_inv m T -> is_root T root -> pt_lookup m root va = Some a ->
  exists q, T !! q = Some (root, [PX 2 va; PX 1 va]) /\ a = slot q (PX 0 va).
Proof using.
  intros Hpt Hr. unfold pt_lookup. intros (q & Hf & [= <-])%bind_Some.
  exists q. split; [|done]. eapply follow_path; eauto using PX_path.
Qed.

Lemma leaf_agree T m m' root va :
  pt_inv m T -> agree_tables T m m' -> is_root T root ->
  pt_lookup m' root va = pt_lookup m root va /\ leaf m' root va = leaf m root va.
Proof using.
  intros Hpt Ha Hr.
  assert (pt_lookup m' root va = pt_lookup m root va) as E.
  { unfold pt_lookup. erewrite (follow_agree T m m'); eauto using PX_path. }
  split; [done|]. unfold leaf. rewrite E.
  destruct (pt_lookup m root va) as [a|] eqn:Ea; [|done].
  eapply pt_lookup_Some in Ea as (q & Hq & ->); [|done..].
  apply (load_slot_agree T); [done|by eexists|apply PX_bound; lia].
Qed.

Lemma pt_inv_agree T m m' : pt_inv m T -> agree_tables T m m' -> pt_inv m' T.
Proof using.
  intros Hpt Ha. split.
  - apply (pt_page _ _ Hpt).
  - intros p r path i Hp Hl Hi. rewrite (load_slot_agree T m m') by (try done; by eexists).
    by apply (pt_child _ _ Hpt).
  - intros p r path i Hp Hl Hi. rewrite (load_slot_agree T m m') by (try done; by eexists).
    by apply (pt_inner _ _ Hpt p r path).
  - intros p r path i Hp. destruct (pt_parent _ _ Hpt _ _ _ _ Hp) as (q & Hq & Hi & H1). exists q.
    by rewrite (load_slot_agree T m m') by (try done; by eexists).
  - apply (pt_root _ _ Hpt).
  - apply (pt_low _ _ Hpt).
Qed.

(** ** Writing entries *)

Lemma load_store_slot m p q i j v :
  p mod PGSIZE = 0 -> q mod PGSIZE = 0 -> 0 <= i < 512 -> 0 <= j < 512 ->
  0 <= v < 2 ^ 64 ->
  load64 (store64 m (slot p i) v) (slot q j) =
    if decide (p = q /\ i = j) then v else load64 m (slot q j).
Proof using.
  intros. case_decide as E.
  - destruct E as [-> ->]. by apply load64_store64_same.
  - apply load64_store64_disjoint. unfold slot. page_lia.
Qed.

Lemma page_aligned m T p : pt_inv m T -> is_Some (T !! p) -> p mod PGSIZE = 0.
Proof using. intros Hpt [[r path] Hp]. by apply (pt_page _ _ Hpt) in Hp as [[? _] _]. Qed.

Lemma has_0 f : has 0 f = false.
Proof using. done. Qed.

Lemma has_lor x f : f <> 0 -> has (Z.lor x f) f = true.
Proof using.
  intros. unfold has. assert (Z.land (Z.lor x f) f = f) as ->.
  { apply Z.bits_inj'. intros k Hk. rewrite Z.land_spec, Z.lor_spec.
    by destruct (Z.testbit x k), (Z.testbit f k). }
  destruct (Z.eqb_spec f 0); done.
Qed.

(** The PTE of [va] is overwritten: only the page of [va] is affected. *)
Lemma leaf_store m T root va a v :
  pt_inv m T -> is_root T root -> 0 <= va < MAXVA ->
  pt_lookup m root va = Some a -> 0 <= v < 2 ^ 64 ->
  pt_inv (store64 m a v) T /\
  forall r vb, is_root T r -> 0 <= vb < MAXVA ->
    pt_lookup (store64 m a v) r vb = pt_lookup m r vb /\
    leaf (store64 m a v) r vb =
      if decide (r = root /\ PGROUNDDOWN vb = PGROUNDDOWN va) then v
      else leaf m r vb.
Proof using.
  intros Hpt Hr Hva Ha Hv.
  destruct (pt_lookup_Some m T root va a) as (q & Hq & ->); [done..|].
  pose proof (PX_bound 0 va ltac:(lia)) as Hi.
  assert (forall p r path j, T !! p = Some (r, path) -> (length path < 2)%nat ->
    0 <= j < 512 ->
    load64 (store64 m (slot q (PX 0 va)) v) (slot p j) = load64 m (slot p j)) as Hup.
  { intros p r path j Hp Hl Hj. rewrite load_store_slot; try done.
    - case_decide as E; [|done]. destruct E as [-> _]. simplify_eq/=. lia.
    - eapply page_aligned; [done|]. by eexists.
    - eapply page_aligned; [done|]. by eexists. }
  assert (pt_inv (store64 m (slot q (PX 0 va)) v) T) as Hpt'.
  { split; [apply (pt_page _ _ Hpt)|..|apply (pt_root _ _ Hpt)|apply (pt_low _ _ Hpt)].
    - intros p r path i Hp Hl Hj. erewrite Hup by done. by apply (pt_child _ _ Hpt).
    - intros p r path i Hp Hl Hj. erewrite Hup by done. by apply (pt_inner _ _ Hpt p r path).
    - intros p r path i Hp. destruct (pt_parent _ _ Hpt _ _ _ _ Hp) as (z & Hz & Hj & H1). exists z.
      apply (pt_page _ _ Hpt) in Hp as [_ Hp]. rewrite length_app in Hp. simpl in Hp. erewrite Hup by (done || lia). done. }
  split; [done|]. intros r vb Hrb Hvb.
  assert (follow (store64 m (slot q (PX 0 va)) v) r [PX 2 vb; PX 1 vb] =
    follow m r [PX 2 vb; PX 1 vb]) as Ef.
  { pose proof (PX_bound 2 vb ltac:(lia)). pose proof (PX_bound 1 vb ltac:(lia)).
    cbn [follow]. rewrite (Hup r r [] (PX 2 vb)) by (done || simpl; lia).
    case_match eqn:E; [|done]. erewrite Hup; [done| |..|done].
    - eapply pt_child; [done|apply Hrb|simpl; lia|done|done].
    - simpl. lia. }
  assert (pt_lookup (store64 m (slot q (PX 0 va)) v) r vb = pt_lookup m r vb) as El.
  { unfold pt_lookup. by rewrite Ef. }
  split; [done|]. unfold leaf at 1. rewrite El.
  destruct (pt_lookup m r vb) as [b|] eqn:Eb.
  - pose proof Eb as Eb'. eapply pt_lookup_Some in Eb' as (q' & Hq' & ->); [|done..].
    rewrite load_store_slot; [|eapply page_aligned; [done|by eexists]..|done| |done];
      [|by apply PX_bound].
    unfold leaf. rewrite Eb.
    case_decide as E; case_decide as E'; try done.
    + destruct E as [-> E0]. simplify_eq. destruct E'. split; [done|].
      symmetry. by apply PX_inj.
    + destruct E' as [-> E']. destruct E.
      assert (PX 2 vb = PX 2 va /\ PX 1 vb = PX 1 va /\ PX 0 vb = PX 0 va)
        as (E2 & E1 & E0) by by apply PX_page.
      rewrite E0. split; [|done].
      apply bind_Some in Eb as (z & Hz & [= Hz']).
      apply bind_Some in Ha as (y & Hy & [= Hy']).
      rewrite E2, E1, Hy in Hz. injection Hz as <-.
      unfold slot in Hz', Hy'. lia.
  - unfold leaf. rewrite Eb. case_decide as E; [|done].
    destruct E as [-> E]. apply PX_page in E as (E2 & E1 & E0); [|done..].
    unfold pt_lookup in *. rewrite E2, E1, E0, Ha in Eb. done.
Qed.

(** A zeroed page [p] becomes the child of table [q] at index [i]. *)
Section install.
Variables (m m1 : mem) (T : tables) (q r i p : Z) (path : list Z).
Hypothesis Hpt : pt_inv m T.
Hypothesis Hq : T !! q = Some (r, path).
Hypothesis Hlen : (length path < 2)%nat.
Hypothesis Hi : 0 <= i < 512.
Hypothesis Hlow : path = [] -> i < 256.
Hypothesis Hinvalid : has (load64 m (slot q i)) PTE_V = false.
Hypothesis Hp : page_ok kend p.
Hypothesis HpT : T !! p = None.
Hypothesis Hagree : agree_tables T m m1.
Hypothesis Hzero : forall x, p <= x < p + PGSIZE -> m1 x = 0.

Let pte := Z.lor (PA2PTE p) PTE_V.
Let m' := store64 m1 (slot q i) pte.
Let T' := <[p := (r, path ++ [i])]> T.

Lemma install_pte_inner : Z.land pte (Z.lor (Z.lor PTE_R PTE_W) PTE_X) = 0.
Proof using All.
  pose proof (page_ok_nonzero kend kend_ok p Hp).
  destruct (pte_decode p PTE_V) as [_ H2]; [lia|apply Hp|by compute|]. fold pte in H2.
  unfold PTE_FLAGS in H2. change (Z.lor (Z.lor PTE_R PTE_W) PTE_X) with (Z.land 0x3FF (Z.lor (Z.lor PTE_R PTE_W) PTE_X)).
  by rewrite Z.land_assoc, H2.
Qed.

Lemma install_pte : PTE2PA pte = p /\ has pte PTE_V = true /\ 0 <= pte < 2 ^ 64.
Proof using All.
  pose proof (page_ok_nonzero kend kend_ok p Hp).
  destruct (pte_decode p PTE_V) as [H1 H2]; [lia|apply Hp|by compute|].
  pose proof (pte_bound p PTE_V ltac:(lia) ltac:(by compute)).
  split; [done|]. split; [by apply has_lor|unfold pte; lia].
Qed.

Lemma install_load x j :
  is_Some (T !! x) -> 0 <= j < 512 ->
  load64 m' (slot x j) =
    if decide (q = x /\ i = j) then pte else load64 m (slot x j).
Proof using All.
  intros Hx Hj. unfold m'. rewrite load_store_slot; try done.
  - case_decide; [done|]. by apply (load_slot_agree T).
  - eapply page_aligned; [done|by eexists].
  - by eapply page_aligned.
  - apply install_pte.
Qed.

Lemma install_load_new j : 0 <= j < 512 -> load64 m' (slot p j) = 0.
Proof using All.
  intros Hj. unfold m'. rewrite load_store_slot; try done.
  - rewrite decide_False by (intros [-> _]; congruence).
    apply load_zero. intros x Hx. apply Hzero.
    eapply slot_in_page; [done|]. lia.
  - eapply page_aligned; [done|by eexists].
  - apply Hp.
  - apply install_pte.
Qed.

Lemma install_inv : pt_inv m' T'.
Proof using All.
  split.
  - intros x r' path'. unfold T'. rewrite lookup_insert. case_decide; [|apply (pt_page _ _ Hpt)].
    intros [= <- <-]. subst x. split; [done|]. rewrite length_app. simpl. lia.
  - intros x r' path' j. unfold T' at 1. rewrite lookup_insert. case_decide as E.
    { subst x. intros _ _ Hj. by rewrite install_load_new. }
    intros Hx Hl Hj. rewrite install_load by (try done; by eexists).
    case_decide as E'.
    + destruct E' as [<- <-]. intros _. destruct install_pte as (-> & _).
      unfold T'. rewrite lookup_insert_eq. congruence.
    + intros Hv. assert (T !! PTE2PA (load64 m (slot x j)) = Some (r', path' ++ [j]))
        as Hc by by eapply pt_child.
      unfold T'. rewrite lookup_insert_ne by congruence. done.
  - intros x r' path' j. unfold T' at 1. rewrite lookup_insert. case_decide as E.
    { subst x. intros _ _ Hj. by rewrite install_load_new. }
    intros Hx Hl Hj. rewrite install_load by (try done; by eexists).
    case_decide; [intros _; apply install_pte_inner|by eapply pt_inner].
  - intros x r' path' j. unfold T' at 1. rewrite lookup_insert. case_decide as E.
    + intros [= <- Happ]. apply app_inj_2 in Happ as [<- [= <-]]; [|done]. subst x. exists q. unfold T'.
      rewrite lookup_insert_ne, install_load, decide_True by (congruence || done || by eexists).
      destruct install_pte as (-> & -> & _). done.
    + intros Hx. destruct (pt_parent _ _ Hpt _ _ _ _ Hx) as (y & Hy & Hj & Hv & Ey). exists y. unfold T'.
      rewrite lookup_insert_ne, install_load by (congruence || done || by eexists).
      rewrite decide_False by (intros [-> ->]; congruence). done.
  - intros x r'. unfold T'. rewrite lookup_insert. case_decide; [|apply (pt_root _ _ Hpt)]. intros [= _ Habs]. by destruct path.
  - intros x r' j path'. unfold T'. rewrite lookup_insert. case_decide; [|apply (pt_low _ _ Hpt)].
    intros [= _ Hpath]. destruct path as [|k path0] eqn:Epath; [injection Hpath as <- _; by apply Hlow|].
    injection Hpath as <- _. by eapply (pt_low _ _ Hpt).
Qed.

(** Paths that existed are unchanged. *)
Lemma install_follow r' path' z :
  is_root T r' -> Forall (fun i => 0 <= i < 512) path' ->
  (length path' <= 2)%nat ->
  follow m r' path' = Some z -> follow m' r' path' = Some z.
Proof using All.
  intros Hr' Hpath Hl.
  enough (forall pre x, T !! x = Some (r', pre) ->
    (length (pre ++ path') <= 2)%nat ->
    follow m x path' = Some z -> follow m' x path' = Some z) as H.
  { by apply (H [] r'). }
  clear Hl. induction Hpath as [|j path' Hj Hpath IH]; intros pre x Hx Hl; [done|].
  cbn [follow]. rewrite install_load by (try done; by eexists).
  case_match eqn:E; [|done].
  rewrite decide_False by (intros [-> ->]; congruence). rewrite E.
  rewrite length_app in Hl. simpl in Hl. apply (IH (pre ++ [j])).
  - eapply pt_child; [done|done|lia|done|done].
  - rewrite !length_app. simpl. lia.
Qed.

(** The path through the new page exists now. *)
Lemma install_follow_new :
  follow m r path = Some q -> is_root T r ->
  Forall (fun i => 0 <= i < 512) path ->
  follow m' r (path ++ [i]) = Some p.
Proof using All.
  intros Hf Hr Hpath.
  assert (follow m' r path = Some q) as Hf' by (apply install_follow; auto; lia).
  assert (forall x, follow m' x path = Some q ->
    follow m' x (path ++ [i]) = follow m' q [i]) as Happ.
  { clear -path. induction path as [|j pt IH]; intros x; simpl; [by intros [= ->]|].
    case_match; [|done]. apply IH. }
  rewrite Happ by done. cbn [follow].
  rewrite install_load, decide_True by (try done; by eexists).
  by destruct install_pte as (-> & -> & _).
Qed.

(** The abstract map does not change: the new table maps nothing. *)
Lemma install_leaf r' va : is_root T r' -> leaf m' r' va = leaf m r' va.
Proof using All.
  intros Hr'. unfold leaf.
  destruct (pt_lookup m r' va) as [a|] eqn:Ea.
  - pose proof Ea as Eb. apply bind_Some in Ea as (z & Hz & [= <-]).
    eapply pt_lookup_Some in Eb as (z' & Hz' & Ez); [|done..].
    assert (follow m' r' [PX 2 va; PX 1 va] = Some z) as Hf
      by (apply install_follow; auto using PX_path).
    unfold pt_lookup. rewrite Hf. simpl.
    assert (z = z') as -> by (unfold slot in Ez; lia).
    rewrite install_load; [|by eexists|apply PX_bound; lia].
    rewrite decide_False; [done|]. intros [-> _]. rewrite Hq in Hz'.
    simplify_eq. simpl in Hlen. lia.
  - destruct (pt_lookup m' r' va) as [b|] eqn:Eb; [|done].
    assert (is_root T' r') as Hr''.
    { unfold is_root, T'. rewrite lookup_insert_ne; [done|].
      intros ->. unfold is_root in Hr'. congruence. }
    pose proof Eb as Ec.
    eapply pt_lookup_Some in Eb as (z & Hz & ->); [|apply install_inv|done].
    unfold T' in Hz. rewrite lookup_insert in Hz. case_decide as E.
    { subst z. apply install_load_new, PX_bound. lia. }
    exfalso. apply bind_Some in Ec as (y & Hy & [= Hslot]).
    assert (y = z) as -> by (unfold slot in Hslot; lia).
    revert Hy Ea. unfold pt_lookup. cbn [follow].
    pose proof (PX_bound 2 va ltac:(lia)). pose proof (PX_bound 1 va ltac:(lia)).
    rewrite install_load by (try done; by eexists). case_decide as E2.
    + destruct E2 as [<- <-]. destruct install_pte as (-> & -> & _).
      rewrite install_load_new by done. done.
    + case_match eqn:Ev; [|done].
      assert (T !! PTE2PA (load64 m (slot r' (PX 2 va))) = Some (r', [PX 2 va]))
        as Hc by (eapply (pt_child _ _ Hpt _ _ []); eauto; simpl; lia).
      rewrite install_load by (try done; by eexists). case_decide as E1.
      * destruct install_pte as (-> & -> & _). congruence.
      * case_match; done.
Qed.
End install.

(** ** [walk] *)

(** [s'] extends [s]: pages moved from the free list to new, empty tables;
    no path and no mapping changed, and no other memory was touched. *)
Record vm_ext (s : kmem) (l : list Z) (T : tables)
    (s' : kmem) (l' : list Z) (T' : tables) : Prop := {
  ext_inv : vm_inv s' l' T';
  ext_tables : T ⊆ T';
  ext_free : l' ⊆ l;
  ext_new p : is_Some (T' !! p) -> T !! p = None -> p ∈ l;
  ext_pages : pages l' T' = pages l T;
  ext_follow r path z : is_root T r -> Forall (fun i => 0 <= i < 512) path ->
    (length path <= 2)%nat ->
    follow (phys s) r path = Some z -> follow (phys s') r path = Some z;
  ext_leaf r va : is_root T r -> leaf (phys s') r va = leaf (phys s) r va;
  ext_frame q x : T !! q = None -> q ∉ l -> q mod PGSIZE = 0 ->
    q <= x < q + PGSIZE -> phys s' x = phys s x;
}.

Lemma vm_ext_refl s l T : vm_inv s l T -> vm_ext s l T s l T.
Proof using. intros. split; try done. intros p [??] ?. congruence. Qed.

Lemma is_root_mono T T' r : T ⊆ T' -> is_root T r -> is_root T' r.
Proof using. unfold is_root. intros. by eapply lookup_weaken. Qed.

Lemma vm_ext_trans s1 l1 T1 s2 l2 T2 s3 l3 T3 :
  vm_ext s1 l1 T1 s2 l2 T2 -> vm_ext s2 l2 T2 s3 l3 T3 ->
  vm_ext s1 l1 T1 s3 l3 T3.
Proof using.
  intros [I1 S1 F1 N1 G1 P1 L1 M1] [I2 S2 F2 N2 G2 P2 L2 M2]. split; try done.
  - by trans T2.
  - by trans l2.
  - intros p Hp HT. destruct (T2 !! p) eqn:E; eauto.
  - congruence.
  - eauto using is_root_mono.
  - intros. rewrite L2, L1 by eauto using is_root_mono. done.
  - intros q x HT Hl Hq Hx. rewrite (M2 q), (M1 q); try done.
    + destruct (T2 !! q) eqn:E; [|done]. destruct Hl. by eapply N1.
    + intros H. by apply Hl, F1.
Qed.

Definition walk_body (va : Z) (alloc : bool) : Z * Z -> M kmem ((Z * Z) + Z) :=
  fun '(level, pagetable) =>
    if 0 <? level then
      let pte := slot pagetable (PX level va) in
      e <- read64 pte ;;
      if has e PTE_V
      then ret (inl (level - 1, PTE2PA e))
      else if negb alloc then ret (inr 0)
      else
        pagetable <- kalloc ;;
        if pagetable =? 0 then ret (inr 0)
        else
          kmemset pagetable 0 PGSIZE ;;
          write64 pte (Z.lor (PA2PTE pagetable) PTE_V) ;;
          ret (inl (level - 1, pagetable))
    else ret (inr (slot pagetable (PX 0 va))).

Lemma walk_noalloc s root va :
  va < MAXVA ->
  walk root va false s = Done (default 0 (pt_lookup (phys s) root va)) s.
Proof using.
  intros Hva. unfold walk, panic_if. replace (MAXVA <=? va) with false by lia.
  unfold pt_lookup. cbn [loop follow].
  unfold bind, read64, gets, ret. cbn [obind].
  change (0 <? 2) with true. cbn beta iota delta [obind].
  destruct (has (load64 (phys s) (slot root (PX 2 va))) PTE_V); [|done].
  cbn [obind]. change (2 - 1) with 1. change (0 <? 1) with true.
  cbn beta iota delta [obind].
  destruct (has (load64 (phys s) _) PTE_V); done.
Qed.

Lemma wp_walk_step s l T root va q path level Q :
  vm_inv s l T -> is_root T root -> T !! q = Some (root, path) ->
  follow (phys s) root path = Some q -> Forall (fun i => 0 <= i < 512) path ->
  level = 2 - Z.of_nat (length path) -> 0 < level -> 0 <= va < MAXVA ->
  (forall q' s' l' T', vm_ext s l T s' l' T' ->
     T' !! q' = Some (root, path ++ [PX level va]) ->
     follow (phys s') root (path ++ [PX level va]) = Some q' ->
     Q (inl (level - 1, q')) s') ->
  (l = [] -> Q (inr 0) s) ->
  wp (walk_body va true (level, q)) s Q.
Proof using kend_ok.
  intros Hvm Hr Hq Hf Hpath Hlev Hpos Hva Hok Hnomem.
  pose proof (PX_bound level va ltac:(lia)) as Hi.
  destruct Hvm as [Hkm Hpt Hd] eqn:Evm. clear Evm.
  unfold walk_body. replace (0 <? level) with true by lia. wp_run.
  set (e := load64 (phys s) (slot q (PX level va))).
  destruct (has e PTE_V) eqn:Ev.
  - wp_run. apply (Hok _ _ l T); [by apply vm_ext_refl|..].
    + eapply pt_child; [done|done|lia|done|done].
    + assert (forall x, follow (phys s) x path = Some q ->
        follow (phys s) x (path ++ [PX level va]) = Some (PTE2PA e)) as Happ.
      { clear -Ev. induction path as [|j pt IH]; intros x; cbn [follow app].
        - intros [= ->]. fold e. by rewrite Ev.
        - case_match; [|done]. apply IH. }
      by apply Happ.
  - cbn [negb]. wp_run. eapply wp_kalloc; [done..|].
    destruct l as [|p l]; [by apply wp_ret, Hnomem|].
    intros s1 Hkm1 Hp Hpl Hsame H5.
    pose proof (page_ok_nonzero kend kend_ok p Hp).
    replace (p =? 0) with false by lia. wp_run.
    assert (T !! p = None) as HpT.
    { apply eq_None_not_Some. intros H1. apply (Hd p H1). by left. }
    set (m1 := memset (phys s1) p 0 PGSIZE).
    assert (same_outside p (phys s) m1) as Hs1.
    { eapply same_outside_trans; [done|apply same_outside_memset]. }
    assert (agree_tables T (phys s) m1) as Hag.
    { intros x y Hx Hy. apply Hs1. eapply page_disjoint; [| |..|done].
      - by eapply page_aligned.
      - apply Hp.
      - intros ->. rewrite HpT in Hx. by destruct Hx. }
    assert (forall y, p <= y < p + PGSIZE -> m1 y = 0) as Hz.
    { intros y Hy. unfold m1. rewrite memset_spec by done. range_cases. }
    assert (length path < 2)%nat as Hlen by lia.
    assert (path = [] -> PX level va < 256) as Hlow by (intros ->; subst level; by apply PX_top).
    eapply (Hok p _ l (<[p:=(root, path ++ [PX level va])]> T)).
    + split.
      * split.
        -- destruct Hkm1 as [? Hl1 ? Hok1]. split; [done| |done|].
           ++ eapply linked_frame; [|eapply page_aligned; [done|by exists (root, path)]|..].
              ** eapply linked_frame; [done|apply Hp|done|apply same_outside_memset].
              ** intros ?. apply (Hd q); [by eexists|by right].
              ** intros x Hx. apply store64_outside.
                 intros Hx'. apply Hx. by eapply slot_in_page.
           ++ apply mem_ok_store, mem_ok_memset; done.
        -- eapply install_inv; done.
        -- intros x [y Hy] Hx. rewrite lookup_insert in Hy. case_decide; [by subst|].
           apply (Hd x); [by eexists|by right].
      * by apply insert_subseteq.
      * intros ? ?. by right.
      * intros x [y Hy] HT. rewrite lookup_insert in Hy. case_decide; [|congruence].
        subst. by left.
      * apply pages_move.
      * intros r' path' z Hr' Hp' Hl'. eapply install_follow; done.
      * intros r' vb Hr'. eapply install_leaf; done.
      * intros y x HT Hy Hal Hx. cbn [phys set_phys]. rewrite store64_outside.
        -- apply Hs1. eapply page_disjoint; [exact Hal|apply Hp| |done].
           intros ->. apply Hy. by left.
        -- intros Hx'. eapply (page_disjoint y q x); [done| | |done|].
           ++ eapply page_aligned; [done|by eexists].
           ++ intros ->. congruence.
           ++ by eapply slot_in_page.
    + by rewrite lookup_insert_eq.
    + eapply install_follow_new; done.
Qed.

Lemma wp_walk_alloc s l T root va (Q : Z -> kmem -> Prop) :
  vm_inv s l T -> is_root T root -> 0 <= va < MAXVA ->
  (forall a s' l' T', vm_ext s l T s' l' T' ->
     pt_lookup (phys s') root va = Some a -> a <> 0 -> Q a s') ->
  (forall s' T', vm_ext s l T s' [] T' -> Q 0 s') ->
  wp (walk root va true) s Q.
Proof using kend_ok.
  intros Hvm Hr Hva Hok Hnomem. unfold walk.
  apply wp_bind, wp_panic_if; [lia|]. fold (walk_body va true).
  pose proof (PX_bound 2 va ltac:(lia)). pose proof (PX_bound 1 va ltac:(lia)).
  cbn [loop]. apply wp_bind.
  eapply (wp_walk_step _ l T root va root []); try done.
  2: { intros ->. wp_run. eapply Hnomem, vm_ext_refl. done. }
  intros q1 s1 l1 T1 E1 Hq1 Hf1. cbn [app] in *.
  assert (is_root T1 root) by (eapply is_root_mono; [apply E1|done]).
  apply wp_bind. eapply (wp_walk_step _ l1 T1 root va q1 [PX 2 va]); try done.
  { apply E1. }
  { by constructor. }
  2: { intros ->. wp_run. eapply Hnomem. done. }
  intros q0 s0 l0 T0 E0 Hq0 Hf0. cbn [app] in *.
  apply wp_bind. unfold walk_body. change (0 <? 2 - 1 - 1) with false.
  cbn iota. wp_run. assert (vm_ext s l T s0 l0 T0) as E by by eapply vm_ext_trans.
  eapply Hok; [done|..].
  - unfold pt_lookup. change (2 - 1) with 1 in *. by rewrite Hf0.
  - assert (page_ok kend q0) as Hpq by (eapply pt_page; [apply E0|done]).
    apply page_ok_nonzero in Hpq; [|done].
    pose proof (PX_bound 0 va ltac:(lia)). unfold slot. lia.
Qed.

(** ** Mapping one page *)

Lemma vm_inv_store_leaf s l T root va a v :
  vm_inv s l T -> is_root T root -> 0 <= va < MAXVA ->
  pt_lookup (phys s) root va = Some a -> 0 <= v < 2 ^ 64 ->
  vm_inv (set_phys (store64 (phys s) a v) s) l T.
Proof using.
  intros [Hkm Hpt Hd] Hr Hva Ha Hv.
  destruct (leaf_store (phys s) T root va a v) as [Hpt' _]; [done..|].
  eapply pt_lookup_Some in Ha as (q & Hq & ->); [|done..].
  pose proof (PX_bound 0 va ltac:(lia)).
  split; [|done|done]. destruct Hkm as [? Hl ? ?]. split; [done| |done|].
  - eapply linked_frame; [done|..].
    + eapply page_aligned; [done|by eexists].
    + apply Hd. by eexists.
    + intros x Hx. apply store64_outside. intros Hx'. apply Hx.
      by eapply slot_in_page.
  - by apply mem_ok_store.
Qed.

(** The abstract effect of a page-table update: the tables may have grown
    over free pages, and the leaves of [root] are given by [f]; the leaves
    of the other roots and the memory outside the tables are unchanged. *)
Record vm_upd (root : Z) (f : Z -> Z) (s : kmem) (l : list Z) (T : tables)
    (s' : kmem) (l' : list Z) (T' : tables) : Prop := {
  upd_inv : vm_inv s' l' T';
  upd_tables : T ⊆ T';
  upd_free : l' ⊆ l;
  upd_new p : is_Some (T' !! p) -> T !! p = None -> p ∈ l;
  upd_pages : pages l' T' = pages l T;
  upd_leaf va : 0 <= va < MAXVA -> leaf (phys s') root va = f va;
  upd_other r va : is_root T r -> r <> root -> 0 <= va < MAXVA ->
    leaf (phys s') r va = leaf (phys s) r va;
  upd_frame q x : T !! q = None -> q ∉ l -> q mod PGSIZE = 0 ->
    q <= x < q + PGSIZE -> phys s' x = phys s x;
}.

Lemma vm_upd_store root f s l T s1 l1 T1 va a v :
  is_root T root -> vm_upd root f s l T s1 l1 T1 -> 0 <= va < MAXVA ->
  pt_lookup (phys s1) root va = Some a -> 0 <= v < 2 ^ 64 ->
  vm_upd root
    (fun vb => if decide (PGROUNDDOWN vb = PGROUNDDOWN va) then v else f vb)
    s l T (set_phys (store64 (phys s1) a v) s1) l1 T1.
Proof using kend_ok.
  intros Hr0 [Hvm HT Hl Hnew Hpg Hleaf Hoth Hfr] Hva Ha Hv.
  assert (is_root T1 root) as Hr by by eapply is_root_mono.
  destruct (leaf_store (phys s1) T1 root va a v) as [_ Hst];
    [apply Hvm|done..|].
  split; try done.
  - by eapply vm_inv_store_leaf.
  - intros vb Hvb. destruct (Hst root vb) as [_ E]; [done..|].
    cbn [phys set_phys]. rewrite E.
    destruct (decide (PGROUNDDOWN vb = PGROUNDDOWN va)).
    + by rewrite decide_True.
    + rewrite decide_False by (by intros [_ ?]). by apply Hleaf.
  - intros r vb Hrr Hne Hvb.
    destruct (Hst r vb) as [_ E]; [by eapply is_root_mono|done|].
    cbn [phys set_phys]. rewrite E, decide_False by (by intros [? _]).
    by apply Hoth.
  - intros q x Hq Hql Hal Hx. cbn [phys set_phys].
    rewrite store64_outside; [by eapply Hfr|]. intros Hx'.
    eapply pt_lookup_Some in Ha as (z & Hz & ->); [|apply Hvm|done].
    pose proof (PX_bound 0 va ltac:(lia)).
    eapply (page_disjoint q z x); [done| | |done|by eapply slot_in_page].
    + eapply page_aligned; [apply Hvm|by eexists].
    + intros <-. apply Hql, Hnew; [by eexists|done].
Qed.

Lemma vm_upd_refl root s l T :
  vm_inv s l T -> vm_upd root (leaf (phys s) root) s l T s l T.
Proof using. intros. split; try done. intros p [??] ?. congruence. Qed.

Lemma vm_upd_ext root f s l T s1 l1 T1 s2 l2 T2 :
  is_root T root -> vm_upd root f s l T s1 l1 T1 ->
  vm_ext s1 l1 T1 s2 l2 T2 -> vm_upd root f s l T s2 l2 T2.
Proof using.
  intros Hr [Hvm HT Hl Hnew Hpg Hleaf Hoth Hfr] [I2 S2 F2 N2 G2 P2 L2 M2]. split; try done.
  - by trans T1.
  - by trans l1.
  - intros p Hp HTp. destruct (T1 !! p) eqn:E; eauto.
  - congruence.
  - intros. rewrite L2 by eauto using is_root_mono. auto.
  - intros. rewrite L2 by eauto using is_root_mono. auto.
  - intros q x Hq Hql Hal Hx. rewrite (M2 q), (Hfr q); try done.
    + destruct (T1 !! q) eqn:E; [|done]. destruct Hql. by eapply Hnew.
    + intros H. by apply Hql, Hl.
Qed.

Lemma vm_upd_weaken root f g s l T s' l' T' :
  vm_upd root f s l T s' l' T' ->
  (forall va, 0 <= va < MAXVA -> f va = g va) -> vm_upd root g s l T s' l' T'.
Proof using.
  intros [] H. split; try done. intros. by rewrite <-H by done; auto.
Qed.

(** ** [mappages] *)

(** The pages from [va0] up to [stop] are mapped to the physical pages from
    [pa] up, with permissions [perm]. *)
Definition map_range (va0 stop pa perm : Z) (f : Z -> Z) (vb : Z) : Z :=
  if decide (va0 <= PGROUNDDOWN vb < stop)
  then Z.lor (Z.lor (PA2PTE (pa + (PGROUNDDOWN vb - va0))) perm) PTE_V
  else f vb.

Lemma map_range_empty va0 pa perm f vb : map_range va0 va0 pa perm f vb = f vb.
Proof using. unfold map_range. rewrite decide_False; [done|lia]. Qed.

Lemma map_range_step va0 a pa perm f vb :
  va0 mod PGSIZE = 0 -> a mod PGSIZE = 0 -> va0 <= a ->
  (if decide (PGROUNDDOWN vb = PGROUNDDOWN a)
   then Z.lor (Z.lor (PA2PTE (pa + (a - va0))) perm) PTE_V
   else map_range va0 a pa perm f vb) =
  map_range va0 (a + PGSIZE) pa perm f vb.
Proof using.
  intros H0 Ha Hle. rewrite (PGROUNDDOWN_aligned a) by done.
  destruct (PGROUNDDOWN_bound vb) as [_ Hvb]. unfold map_range.
  destruct (decide (PGROUNDDOWN vb = a)) as [->|].
  - rewrite decide_True; [done|page_lia].
  - repeat case_decide; try done; page_lia.
Qed.

Lemma pte_word_bound pa perm :
  0 <= pa < 2 ^ 56 -> 0 <= perm < 1024 ->
  0 <= Z.lor (Z.lor (PA2PTE pa) perm) PTE_V < 2 ^ 64.
Proof using.
  intros. pose proof (pte_bound pa perm ltac:(done) ltac:(done)).
  apply lor_bound; [lia|lia|by compute].
Qed.

Lemma leaf_lookup m root va a :
  pt_lookup m root va = Some a -> load64 m a = leaf m root va.
Proof using. unfold leaf. by intros ->. Qed.

Lemma wp_mappages s l T root va size pa perm (Q : Z -> kmem -> Prop) :
  vm_inv s l T -> is_root T root ->
  0 <= va -> 0 < size -> va + size <= MAXVA ->
  0 <= pa -> pa + size + PGSIZE <= 2 ^ 56 -> 0 <= perm < 1024 ->
  let va0 := PGROUNDDOWN va in
  let last := PGROUNDDOWN (va + size - 1) in
  (forall vb, va0 <= vb < last + PGSIZE ->
     has (leaf (phys s) root vb) PTE_V = false) ->
  (forall s' l' T',
     vm_upd root (map_range va0 (last + PGSIZE) pa perm (leaf (phys s) root))
       s l T s' l' T' -> Q 0 s') ->
  (forall s' T' stop, va0 <= stop <= last -> stop mod PGSIZE = 0 ->
     vm_upd root (map_range va0 stop pa perm (leaf (phys s) root))
       s l T s' [] T' -> Q (-1) s') ->
  wp (mappages root va size pa perm) s Q.
Proof using kend_ok.
  intros Hvm Hr Hva Hsz Hmax Hpa Hpa2 Hperm va0 last Hfree Hok Hnomem.
  destruct (PGROUNDDOWN_bound va) as [Hb0 Ha0].
  destruct (PGROUNDDOWN_bound (va + size - 1)) as [Hb1 Ha1]. fold va0 last in Hb0, Ha0, Hb1, Ha1.
  assert (MAXVA < 2 ^ 64 /\ MAXVA mod PGSIZE = 0) as [HM HM'] by by compute.
  unfold mappages. apply wp_bind, wp_panic_if; [lia|].
  fold va0. rewrite (uwrap_small 64 (va + size - 1)) by lia. fold last.
  apply (wp_loop (fun '(a, pac) s1 => exists l1 T1,
    a mod PGSIZE = 0 /\ va0 <= a <= last /\ pac = pa + (a - va0) /\
    vm_upd root (map_range va0 a pa perm (leaf (phys s) root)) s l T s1 l1 T1)
    (fun '(a, _) => Z.to_nat ((last - a) / PGSIZE))).
  - intros [a pac] s1 (l1 & T1 & Ha & Hle & -> & Hu).
    assert (0 <= a < MAXVA) by page_lia.
    assert (is_root T1 root) by (eapply is_root_mono; [apply Hu|done]).
    apply wp_bind. eapply wp_walk_alloc; [apply Hu|done|done|..].
    + intros pte s2 l2 T2 He Hlook Hnz. replace (pte =? 0) with false by lia.
      wp_run. assert (Hu2 := vm_upd_ext _ _ _ _ _ _ _ _ _ _ _ Hr Hu He).
      assert (load64 (phys s2) pte = leaf (phys s) root a) as ->.
      { rewrite (leaf_lookup _ root a) by done. rewrite (upd_leaf _ _ _ _ _ _ _ _ Hu2) by done.
        unfold map_range. rewrite decide_False; [done|].
        rewrite PGROUNDDOWN_aligned by done. lia. }
      apply wp_panic_if; [apply Hfree; page_lia|]. wp_run.
      eapply vm_upd_store in Hu2; [|done|done|done|].
      2: { apply (pte_word_bound (pa + (a - va0)) perm); [page_lia|done]. }
      eapply vm_upd_weaken in Hu2; [|intros; by apply map_range_step; try lia].
      destruct (Z.eqb_spec a last) as [->|].
      * wp_run. by eapply Hok.
      * wp_run. rewrite !uwrap_small by page_lia. split; [|page_lia].
        exists l2, T2. split; [page_lia|]. split; [page_lia|]. split; [lia|done].
    + intros s2 T2 He. wp_run. eapply (Hnomem _ T2 a); [lia|done|].
      by eapply vm_upd_ext.
  - exists l, T. split; [done|]. split; [page_lia|]. split; [lia|].
    eapply vm_upd_weaken; [by apply vm_upd_refl|].
    intros. by rewrite map_range_empty.
  - unfold mappages_fuel. replace (va0 <=? last) with true by page_lia.
    rewrite Z.min_l by lia. page_lia.
Qed.
End vmspec.
