(* ===== verification/UserCopy.v ===== *)
(** * Moving data between kernel and user space

    What [walkaddr], [copyin], [copyout] and [copyinstr] of kernel/vm.c do,
    in terms of the translation that the page table defines. *)

From S2P Require Import Prelude Params Memory Kalloc Vm VmSpec.

(** The physical page behind a user virtual address, 0 if there is none. *)
Definition translate (m : mem) (root va : Z) : Z :=
  if MAXVA <=? va then 0
  else
    let e := leaf m root va in
    if has e PTE_V && has e PTE_U then PTE2PA e else 0.

Definition user_ok (m : mem) (root va : Z) : Prop :=
  translate m root (PGROUNDDOWN va) <> 0.

Definition user_addr (m : mem) (root va : Z) : Z :=
  translate m root (PGROUNDDOWN va) + (va - PGROUNDDOWN va).

Definition user_byte (m : mem) (root va : Z) : Z := m (user_addr m root va).

(** The [n] bytes at user address [va]. *)
Definition user_bytes (m : mem) (root va : Z) (n : nat) : list Z :=
  read_bytes (user_byte m root) va n.

Section usercopy.
Variable kend : Z.
Hypothesis kend_ok : KERNBASE <= kend <= PHYSTOP.

Abbreviation vm_inv := (vm_inv kend).

Lemma walkaddr_translate s l T root va :
  vm_inv s l T -> is_root T root ->
  walkaddr root va s = Done (translate (phys s) root va) s.
Proof using kend_ok.
  intros Hvm Hr. unfold walkaddr, translate.
  destruct (Z.leb_spec MAXVA va) as [|Hva]; [done|].
  unfold bind. rewrite walk_noalloc by lia. cbn [obind].
  unfold leaf. destruct (pt_lookup (phys s) root va) as [a|] eqn:Ea; [|done].
  simpl. assert (a <> 0) as Hnz.
  { eapply pt_lookup_Some in Ea as (q & Hq & ->); [|apply Hvm|done].
    eapply pt_page in Hq as [Hq _]; [|apply Hvm].
    apply page_ok_nonzero in Hq; [|done]. pose proof (PX_bound 0 va). unfold slot. lia. }
  replace (a =? 0) with false by lia. cbn.
  by destruct (has _ PTE_V), (has _ PTE_U).
Qed.

Lemma translate_agree s l T root va m' :
  vm_inv s l T -> is_root T root -> agree_tables T (phys s) m' ->
  translate m' root va = translate (phys s) root va.
Proof using.
  intros Hvm Hr Ha. unfold translate. destruct (MAXVA <=? va); [done|].
  destruct (leaf_agree kend T (phys s) m' root va) as [_ ->]; [apply Hvm|done..].
Qed.

Lemma translate_aligned m root va : translate m root va mod PGSIZE = 0.
Proof using.
  unfold translate. case_match; [done|]. case_match; [|done].
  unfold PTE2PA, PGSIZE. rewrite Z.shiftl_mul_pow2 by lia. unfold uwrap.
  change (2 ^ 12) with 4096. change (2 ^ 64) with (4096 * 2 ^ 52).
  rewrite (Z.mul_comm _ 4096), Z.mul_mod_distr_l by lia.
  rewrite Z.mul_comm. by apply Z.mod_mul.
Qed.

Lemma translate_bound m root va : translate m root va <> 0 -> va < MAXVA.
Proof using. unfold translate. destruct (Z.leb_spec MAXVA va); [done|lia]. Qed.

Lemma PGROUNDDOWN_same va i :
  0 <= i < PGSIZE - (va - PGROUNDDOWN va) ->
  PGROUNDDOWN (va + i) = PGROUNDDOWN va.
Proof using. rewrite !PGROUNDDOWN_eq. intros. page_lia. Qed.

(** Within a page, user memory is the physical page. *)
Lemma user_chunk m root va n :
  Z.of_nat n <= PGSIZE - (va - PGROUNDDOWN va) ->
  read_bytes m (user_addr m root va) n = user_bytes m root va n.
Proof using.
  intros Hn. unfold read_bytes, user_bytes. apply map_ext_in.
  intros i Hi%in_seq. unfold user_byte, user_addr.
  rewrite PGROUNDDOWN_same by lia. f_equal. lia.
Qed.

Lemma user_ok_chunk m root va n i :
  translate m root (PGROUNDDOWN va) <> 0 ->
  n <= PGSIZE - (va - PGROUNDDOWN va) -> 0 <= i < n -> user_ok m root (va + i).
Proof using. intros. unfold user_ok. by rewrite PGROUNDDOWN_same by lia. Qed.

(** Pages left to visit. *)
Definition copy_mu (va len : Z) : nat :=
  if 0 <? len then Z.to_nat ((len + va mod PGSIZE + PGSIZE - 1) / PGSIZE) else 0%nat.

Lemma copy_mu_step va len k :
  0 < len -> 0 < k -> k <= len ->
  (k < len -> k = PGSIZE - (va - PGROUNDDOWN va)) ->
  (copy_mu (PGROUNDDOWN va + PGSIZE) (len - k) < copy_mu va len)%nat.
Proof using.
  intros. unfold copy_mu. rewrite PGROUNDDOWN_eq in *.
  destruct (Z.ltb_spec 0 len), (Z.ltb_spec 0 (len - k)); try lia; [|page_lia].
  assert (k = PGSIZE - (va - (va - va mod PGSIZE))) as -> by auto with lia.
  page_lia.
Qed.

Lemma copy_mu_fuel va len : 0 <= len -> (copy_mu va len < copy_fuel len)%nat.
Proof using. intros. unfold copy_mu, copy_fuel. destruct (Z.ltb_spec 0 len); page_lia. Qed.

(** ** [copyin] *)

Lemma wp_copyin s l T root va len :
  vm_inv s l T -> is_root T root -> 0 <= va -> 0 <= len ->
  wp (copyin root va len) s (fun r s' => s' = s /\
    ((r = (0, user_bytes (phys s) root va (Z.to_nat len)) /\
      forall i, 0 <= i < len -> user_ok (phys s) root (va + i)) \/
     (exists i n, r = (-1, user_bytes (phys s) root va n) /\ 0 <= i < len /\
      (n <= Z.to_nat i)%nat /\ ~ user_ok (phys s) root (va + i)))).
Proof using kend_ok.
  intros Hvm Hr Hva Hlen. unfold copyin.
  assert (MAXVA + PGSIZE < 2 ^ 64) as HMX by by compute.
  apply (wp_loop (fun '(va', len', dst) s1 => s1 = s /\ exists n : nat,
    len' = len - Z.of_nat n /\ 0 <= len' /\
    dst = user_bytes (phys s) root va n /\
    (len' = 0 \/ va' = va + Z.of_nat n) /\
    (forall i, 0 <= i < Z.of_nat n -> user_ok (phys s) root (va + i)))
    (fun '(va', len', _) => copy_mu va' len')).
  - intros [[va' len'] dst] s1 (-> & n & Hlen' & Hpos & -> & Hva' & Hall).
    destruct (Z.ltb_spec 0 len').
    + destruct Hva' as [?| ->]; [lia|].
      destruct (PGROUNDDOWN_bound (va + Z.of_nat n)) as [Hb Hmod].
      apply wp_bind. eapply wp_done; [by eapply walkaddr_translate|].
      destruct (Z.eqb_spec (translate (phys s) root (PGROUNDDOWN (va + Z.of_nat n))) 0)
        as [Hz|Hnz].
      * wp_run. split; [done|]. right. exists (Z.of_nat n), n.
        split; [done|]. split; [lia|]. split; [lia|]. by intros Hok.
      * wp_run. set (k := Z.min _ _).
        pose proof (translate_bound _ _ _ Hnz).
        assert (0 < k <= len' /\ k <= PGSIZE - (va + Z.of_nat n - PGROUNDDOWN (va + Z.of_nat n)))
          as [Hk1 Hk2] by (unfold k; lia).
        split; [split; [done|]|].
        -- exists (n + Z.to_nat k)%nat. split; [lia|]. split; [lia|]. split.
           { unfold user_bytes. rewrite read_bytes_app. f_equal.
             fold (user_addr (phys s) root (va + Z.of_nat n)).
             apply user_chunk. lia. }
           rewrite uwrap_small by lia.
           split; [unfold k; lia|].
           intros i Hi. destruct (Z.ltb_spec i (Z.of_nat n)); [apply Hall; lia|].
           replace (va + i) with (va + Z.of_nat n + (i - Z.of_nat n)) by lia.
           apply (user_ok_chunk _ _ _ k); [done|lia|lia].
        -- rewrite uwrap_small by lia. apply copy_mu_step; unfold k; lia.
    + wp_run. split; [done|]. left.
      replace (Z.to_nat len) with n by lia. split; [done|].
      intros. apply Hall. lia.
  - split; [done|]. exists 0%nat. repeat split; try done; try lia.
  - by apply copy_mu_fuel.
Qed.

(** ** [copyout] *)

(** A sane user address space: its frames are neither page tables nor free,
    and no frame is mapped twice. *)
Record user_space (m : mem) (l : list Z) (T : tables) (root : Z) : Prop := {
  us_frame va : 0 <= va -> translate m root va <> 0 ->
    T !! translate m root va = None /\ translate m root va ∉ l;
  us_inj va vb : 0 <= va -> 0 <= vb -> va mod PGSIZE = 0 -> vb mod PGSIZE = 0 ->
    translate m root va <> 0 -> translate m root va = translate m root vb ->
    va = vb;
}.

(** The first [n] bytes of [bs] have been stored at user address [va]. *)
Record stored (s : kmem) (l : list Z) (T : tables) (root va : Z) (bs : list Z)
    (n : nat) (s' : kmem) : Prop := {
  st_inv : vm_inv s' l T;
  st_agree : agree_tables T (phys s) (phys s');
  st_ok i : 0 <= i < Z.of_nat n -> user_ok (phys s) root (va + i);
  st_bytes vb : 0 <= vb -> user_ok (phys s) root vb ->
    user_byte (phys s') root vb =
      if in_range va (Z.of_nat n) vb then bs !!! Z.to_nat (vb - va)
      else user_byte (phys s) root vb;
  st_frame x : (forall i, 0 <= i < Z.of_nat n -> x <> user_addr (phys s) root (va + i)) ->
    phys s' x = phys s x;
}.

Lemma stored_refl s l T root va bs : vm_inv s l T -> stored s l T root va bs 0 s.
Proof using.
  intros. split; try done; [lia|]. intros vb Hvb Hok.
  destruct (in_range_spec va (Z.of_nat 0) vb); [lia|done].
Qed.

(** One page-sized chunk of the copy. *)
Lemma stored_chunk s l T root va bs n s1 k :
  is_root T root -> user_space (phys s) l T root -> vm_inv s l T -> 0 <= va ->
  stored s l T root va bs n s1 ->
  let dstva := va + Z.of_nat n in
  user_ok (phys s) root dstva ->
  Z.of_nat k <= PGSIZE - (dstva - PGROUNDDOWN dstva) ->
  (n + k <= length bs)%nat -> Forall (fun b => 0 <= b < 256) bs ->
  stored s l T root va bs (n + k)
    (set_phys (write_bytes (phys s1) (user_addr (phys s) root dstva)
                 (take k (drop n bs))) s1).
Proof using.
  intros Hr [Hfr Hinj] Hvm Hva [Hvm1 Hag Hok Hby Hframe] dstva Hd Hk Hlen Hbytes.
  destruct (PGROUNDDOWN_bound dstva) as [Hb Hal].
  pose proof (translate_aligned (phys s) root (PGROUNDDOWN dstva)) as Hpal.
  set (pa := translate (phys s) root (PGROUNDDOWN dstva)) in *.
  assert (0 <= PGROUNDDOWN dstva) as H0 by (unfold dstva in *; page_lia).
  destruct (Hfr (PGROUNDDOWN dstva)) as [HT Hl]; [done|done|]. fold pa in HT, Hl.
  set (m' := write_bytes _ _ _).
  assert (length (take k (drop n bs)) = k) as Hlk.
  { rewrite length_take, length_drop. lia. }
  assert (same_outside pa (phys s1) m') as Hsame.
  { intros x Hx. unfold m'. rewrite write_bytes_spec, Hlk. unfold user_addr.
    fold pa. range_cases. }
  assert (agree_tables T (phys s1) m') as Hag1.
  { intros q x Hq Hx. apply Hsame. eapply page_disjoint; [|exact Hpal| |exact Hx].
    - eapply page_aligned; [apply Hvm|done].
    - intros ->. rewrite HT in Hq. by destruct Hq. }
  assert (agree_tables T (phys s) m') as Hag2.
  { intros q x Hq Hx. rewrite (Hag1 q x), (Hag q x) by done. done. }
  assert (forall vb, translate m' root vb = translate (phys s) root vb) as Etr.
  { intros. by eapply translate_agree. }
  split; [|done|..].
  - destruct Hvm1 as [[? Hlk1 ? Hmok] Hpt1 Hd1]. split; [|by eapply pt_inv_agree|done].
    split; [done| |done|].
    + eapply linked_frame; [done|exact Hpal|done|done].
    + intros x. cbn [phys set_phys]. unfold m'. rewrite write_bytes_spec, Hlk.
      destruct (in_range_spec (user_addr (phys s) root dstva) (Z.of_nat k) x); [|apply Hmok].
      rewrite list_lookup_total_alt.
      destruct (take k (drop n bs) !! _) as [b|] eqn:E; [|by simpl].
      apply list_elem_of_lookup_2, elem_of_take in E as (j & E & _).
      apply list_elem_of_lookup_2 in E. simpl.
      rewrite Forall_forall in Hbytes. apply Hbytes.
      rewrite <-(take_drop n bs). apply elem_of_app. by right.
  - intros i Hi. destruct (Z.ltb_spec i (Z.of_nat n)); [apply Hok; lia|].
    replace (va + i) with (dstva + (i - Z.of_nat n)) by (unfold dstva; lia).
    apply (user_ok_chunk _ _ _ (Z.of_nat k)); [done|lia|lia].
  - intros vb Hvb Hvok. unfold user_byte, user_addr. cbn [phys set_phys].
    rewrite Etr.
    assert (forall vb, translate (phys s1) root vb = translate (phys s) root vb) as Etr1.
    { intros. by eapply translate_agree. }
    specialize (Hby vb Hvb Hvok). unfold user_byte, user_addr in Hby. rewrite Etr1 in Hby.
    destruct (PGROUNDDOWN_bound vb) as [Hvb1 Hvb2].
    unfold m'. rewrite write_bytes_spec, Hlk. unfold user_addr. fold pa.
    destruct (decide (PGROUNDDOWN vb = PGROUNDDOWN dstva)) as [Ev|Ev].
    + rewrite Ev in *. fold pa in Hby |- *. rewrite Hby.
      destruct (in_range_spec (pa + (dstva - PGROUNDDOWN dstva)) (Z.of_nat k)
        (pa + (vb - PGROUNDDOWN dstva))).
      * destruct (in_range_spec va (Z.of_nat (n + k)) vb); [|unfold dstva in *; lia].
        rewrite list_lookup_total_alt, lookup_take_lt, lookup_drop by lia.
        rewrite list_lookup_total_alt. do 2 f_equal. unfold dstva in *. lia.
      * destruct (in_range_spec va (Z.of_nat n) vb);
          destruct (in_range_spec va (Z.of_nat (n + k)) vb); try done;
          unfold dstva in *; lia.
    + assert (translate (phys s) root (PGROUNDDOWN vb) <> pa) as Hne.
      { intros E. apply Ev. apply Hinj; [page_lia|done|done|done|exact Hvok|exact E]. }
      pose proof (translate_aligned (phys s) root (PGROUNDDOWN vb)) as Hpal2.
      destruct (in_range_spec (pa + (dstva - PGROUNDDOWN dstva)) (Z.of_nat k)
        (translate (phys s) root (PGROUNDDOWN vb) + (vb - PGROUNDDOWN vb))) as [Hin|].
      { exfalso.
        apply (page_disjoint _ pa (translate (phys s) root (PGROUNDDOWN vb) +
          (vb - PGROUNDDOWN vb)) Hpal2 Hpal Hne); lia. }
      rewrite Hby.
      destruct (in_range_spec va (Z.of_nat n) vb);
        destruct (in_range_spec va (Z.of_nat (n + k)) vb); try done; [lia|].
      exfalso. apply Ev. replace vb with (dstva + (vb - dstva)) by lia.
      apply PGROUNDDOWN_same. unfold dstva in *. lia.
  - intros x Hx. cbn [phys set_phys]. unfold m'. rewrite write_bytes_spec, Hlk.
    destruct (in_range_spec (user_addr (phys s) root dstva) (Z.of_nat k) x) as [Hin|].
    + exfalso. apply (Hx (Z.of_nat n + (x - user_addr (phys s) root dstva))); [lia|].
      rewrite Z.add_assoc. fold dstva. unfold user_addr in *. fold pa in Hin |- *.
      rewrite PGROUNDDOWN_same by lia. fold pa. lia.
    + apply Hframe. intros i Hi. apply Hx. lia.
Qed.

Lemma wp_copyout s l T root va bs (Q : Z -> kmem -> Prop) :
  vm_inv s l T -> is_root T root -> user_space (phys s) l T root -> 0 <= va ->
  Forall (fun b => 0 <= b < 256) bs ->
  (forall s', stored s l T root va bs (length bs) s' -> Q 0 s') ->
  (forall s' n i, stored s l T root va bs n s' ->
     Z.of_nat n <= i < Z.of_nat (length bs) ->
     ~ user_ok (phys s) root (va + i) -> Q (-1) s') ->
  wp (copyout root va bs) s Q.
Proof using kend_ok.
  intros Hvm Hr Hus Hva Hbs Hok Herr. unfold copyout.
  assert (MAXVA + PGSIZE < 2 ^ 64) as HMX by by compute.
  apply (wp_loop (fun '(va', src) s1 => exists n : nat,
    src = drop n bs /\ (n <= length bs)%nat /\
    (src = [] \/ va' = va + Z.of_nat n) /\ stored s l T root va bs n s1)
    (fun '(va', src) => copy_mu va' (Z.of_nat (length src)))).
  - intros [va' src] s1 (n & -> & Hn & Hva' & Hst).
    set (len := Z.of_nat (length (drop n bs))).
    assert (len = Z.of_nat (length bs) - Z.of_nat n) as Hlen
      by (unfold len; rewrite length_drop; lia).
    destruct (Z.ltb_spec 0 len) as [Hpos|].
    + destruct Hva' as [E| ->]; [unfold len in Hpos; rewrite E in Hpos; simpl in Hpos; lia|].
      destruct (PGROUNDDOWN_bound (va + Z.of_nat n)) as [Hb Hmod].
      apply wp_bind. eapply wp_done; [eapply walkaddr_translate; [apply Hst|done]|].
      rewrite (translate_agree s l T) by (done || apply Hst).
      destruct (Z.eqb_spec (translate (phys s) root (PGROUNDDOWN (va + Z.of_nat n))) 0)
        as [Hz|Hnz].
      * wp_run. eapply (Herr _ n (Z.of_nat n)); [done|lia|]. by intros Hu.
      * wp_run. set (k := Z.min _ _).
        pose proof (translate_bound _ _ _ Hnz).
        assert (0 < k <= len /\
          k <= PGSIZE - (va + Z.of_nat n - PGROUNDDOWN (va + Z.of_nat n)))
          as [Hk1 Hk2] by (unfold k; lia).
        rewrite uwrap_small by lia. split.
        -- exists (n + Z.to_nat k)%nat. rewrite drop_drop. split; [done|].
           split; [lia|]. split.
           { destruct (decide (k = len)) as [E|].
             - left. apply drop_ge. lia.
             - right. unfold k in *. lia. }
           fold (user_addr (phys s) root (va + Z.of_nat n)).
           apply stored_chunk; try done; lia.
        -- rewrite length_drop. rewrite Nat2Z.inj_sub by (unfold len in *; lia).
           fold len. rewrite Z2Nat.id by lia. apply copy_mu_step; unfold k; lia.
    + wp_run. apply Hok. by replace (length bs) with n by lia.
  - exists 0%nat. rewrite drop_0. split; [done|]. split; [lia|].
    split; [right; lia|]. by apply stored_refl.
  - apply copy_mu_fuel. lia.
Qed.

(** ** [copyinstr] *)

Lemma copy_until_nul_spec m p n :
  let '(bs, got) := copy_until_nul m p n in
  exists k : nat, (k <= n)%nat /\
    Forall (fun b => b <> 0) (read_bytes m p k) /\
    if got then (k < n)%nat /\ m (p + Z.of_nat k) = 0 /\ bs = read_bytes m p (S k)
    else k = n /\ bs = read_bytes m p n.
Proof using.
  revert p. induction n as [|n IH]; intros p; cbn [copy_until_nul].
  { exists 0%nat. by repeat split. }
  destruct (Z.eqb_spec (m p) 0) as [E|E].
  { exists 0%nat. rewrite Z.add_0_r. split; [lia|].
    split; [done|]. split; [lia|]. split; [done|].
    by rewrite read_bytes_S, E. }
  specialize (IH (p + 1)). destruct (copy_until_nul m (p + 1) n) as [bs got].
  destruct IH as (k & Hk & Hnz & Hgot). exists (S k). split; [lia|].
  rewrite (read_bytes_S m p k). split; [by constructor|]. destruct got.
  - destruct Hgot as (? & Hz & ->). split; [lia|].
    split; [rewrite <-Hz; f_equal; lia|]. by rewrite (read_bytes_S m p (S k)).
  - destruct Hgot as (-> & ->). split; [done|]. by rewrite read_bytes_S.
Qed.

(** A string of [k] bytes lies at [va], NUL included all mapped. *)
Definition user_string (m : mem) (root va : Z) (k : nat) : Prop :=
  Forall (fun b => b <> 0) (user_bytes m root va k) /\
  user_byte m root (va + Z.of_nat k) = 0 /\
  forall i, 0 <= i <= Z.of_nat k -> user_ok m root (va + i).

Lemma wp_copyinstr s l T root va max (Q : Z * list Z -> kmem -> Prop) :
  vm_inv s l T -> is_root T root -> 0 <= va -> 0 <= max ->
  (forall k, Z.of_nat k < max -> user_string (phys s) root va k ->
     Q (0, user_bytes (phys s) root va (S k)) s) ->
  (forall bs, (forall k, Z.of_nat k < max -> ~ user_string (phys s) root va k) ->
     Q (-1, bs) s) ->
  wp (copyinstr root va max) s Q.
Proof using kend_ok.
  intros Hvm Hr Hva Hmax Hok Herr. unfold copyinstr.
  assert (MAXVA + PGSIZE < 2 ^ 64) as HMX by by compute.
  apply (wp_loop (fun '(va', max', dst, got) s1 => s1 = s /\ exists n : nat,
    max' = max - Z.of_nat n /\ 0 <= max' /\
    Forall (fun b => b <> 0) (user_bytes (phys s) root va n) /\
    (forall i, 0 <= i < Z.of_nat n -> user_ok (phys s) root (va + i)) /\
    if (got : bool) then Z.of_nat n < max /\ user_string (phys s) root va n /\
      dst = user_bytes (phys s) root va (S n)
    else dst = user_bytes (phys s) root va n /\ (max' = 0 \/ va' = va + Z.of_nat n))
    (fun '(va', max', _, got) => if got : bool then 0%nat else copy_mu va' max')).
  - intros [[[va' max'] dst] got] s1 (-> & n & Hmax' & Hpos & Hnz & Hall & Hgot).
    destruct got; cbn [negb andb].
    { destruct Hgot as (? & Hstr & ->). wp_run. by apply Hok. }
    destruct Hgot as [-> Hva']. destruct (Z.ltb_spec 0 max') as [Hgt|].
    2: { wp_run. apply Herr. intros k Hk (Hk1 & Hk2 & _).
      assert (k < n)%nat as Hkn by lia. unfold user_bytes in Hnz.
      replace n with (k + (S (n - k - 1)))%nat in Hnz by lia.
      rewrite read_bytes_app, Forall_app, read_bytes_S in Hnz.
      destruct Hnz as [_ Hnz]. by inversion_clear Hnz. }
    destruct Hva' as [?| ->]; [lia|].
    destruct (PGROUNDDOWN_bound (va + Z.of_nat n)) as [Hb Hmod].
    apply wp_bind. eapply wp_done; [by eapply walkaddr_translate|].
    destruct (Z.eqb_spec (translate (phys s) root (PGROUNDDOWN (va + Z.of_nat n))) 0)
      as [Hz|Hnz0].
    { wp_run. apply Herr. intros k Hk (Hk1 & Hk2 & Hk3).
      destruct (decide (k < n)%nat) as [Hkn|].
      - unfold user_bytes in Hnz.
        replace n with (k + (S (n - k - 1)))%nat in Hnz by lia.
        rewrite read_bytes_app, Forall_app, read_bytes_S in Hnz.
        destruct Hnz as [_ Hnz]. by inversion_clear Hnz.
      - apply (Hk3 (Z.of_nat n)); [lia|done]. }
    wp_run. set (c := Z.min _ _). pose proof (translate_bound _ _ _ Hnz0).
    assert (0 < c <= max' /\
      c <= PGSIZE - (va + Z.of_nat n - PGROUNDDOWN (va + Z.of_nat n)))
      as [Hc1 Hc2] by (unfold c; lia).
    fold (user_addr (phys s) root (va + Z.of_nat n)).
    pose proof (copy_until_nul_spec (phys s) (user_addr (phys s) root (va + Z.of_nat n))
      (Z.to_nat c)) as Hspec.
    destruct (copy_until_nul _ _ _) as [bs got].
    destruct Hspec as (k & Hk & Hknz & Hgot). wp_run.
    rewrite uwrap_small by lia.
    rewrite user_chunk in Hknz by lia.
    assert (Forall (fun b => b <> 0) (user_bytes (phys s) root va (n + k))) as Hnz'.
    { unfold user_bytes. rewrite read_bytes_app. by apply Forall_app. }
    assert (forall i, 0 <= i < Z.of_nat n + c -> user_ok (phys s) root (va + i)) as Hall'.
    { intros i Hi. destruct (Z.ltb_spec i (Z.of_nat n)); [apply Hall; lia|].
      replace (va + i) with (va + Z.of_nat n + (i - Z.of_nat n)) by lia.
      apply (user_ok_chunk _ _ _ c); [done|lia|lia]. }
    destruct got.
    + destruct Hgot as (Hlt & Hnul & ->).
      rewrite read_bytes_length, user_chunk by lia. cbn [b2z].
      split; [split; [done|]; exists (n + k)%nat|unfold copy_mu; replace (0 <? max') with true by lia; page_lia].
      split; [lia|]. split; [lia|]. split; [done|].
      split; [intros; apply Hall'; lia|]. split; [lia|].
      split; [|unfold user_bytes; rewrite <-read_bytes_app; f_equal; lia].
      split; [done|]. split; [|intros; apply Hall'; lia].
      rewrite <-Hnul. unfold user_byte, user_addr.
      replace (va + Z.of_nat (n + k)) with (va + Z.of_nat n + Z.of_nat k) by lia.
      rewrite PGROUNDDOWN_same by lia. f_equal. lia.
    + destruct Hgot as (-> & ->). rewrite read_bytes_length. cbn [b2z].
      rewrite Z.sub_0_r, Z2Nat.id by lia. split; [split; [done|]|].
      * exists (n + Z.to_nat c)%nat. split; [lia|]. split; [lia|]. split; [done|].
        split; [intros; apply Hall'; lia|]. split; [|unfold c; lia].
        rewrite user_chunk by lia. unfold user_bytes. by rewrite <-read_bytes_app.
      * apply copy_mu_step; unfold c; lia.
  - split; [done|]. exists 0%nat. rewrite !Z.add_0_r, Z.sub_0_r.
    repeat split; try done; try lia.
  - by apply copy_mu_fuel.
Qed.
End usercopy.
