(* ===== verification/AddressSpace.v ===== *)
(** * Address spaces: the theorems about kernel/vm.c *)

From S2P Require Import Prelude Params Memory Kalloc Vm VmSpec UserCopy.
Import CString.

(** ** New page tables *)

Section create.
Variable kend : Z.
Hypothesis kend_ok : KERNBASE <= kend <= PHYSTOP.

Lemma agree_outside m m' T p :
  pt_inv kend m T -> p mod PGSIZE = 0 -> T !! p = None -> same_outside p m m' ->
  agree_tables T m m'.
Proof using.
  intros Hpt Hp HT Hs q x Hq Hx. apply Hs. apply (page_disjoint q p); [|done| |done].
  - by eapply page_aligned.
  - intros ->. destruct Hq. congruence.
Qed.

(** A zeroed page is an empty table. *)
Lemma new_root m m' T p :
  pt_inv kend m T -> page_ok kend p -> T !! p = None -> same_outside p m m' ->
  (forall x, p <= x < p + PGSIZE -> m' x = 0) ->
  pt_inv kend m' (<[p := (p, [])]> T) /\
  (forall va, leaf m' p va = 0) /\
  (forall r va, is_root T r -> leaf m' r va = leaf m r va).
Proof using.
  intros Hpt Hp HT Hs Hz.
  assert (Hag : agree_tables T m m') by (eapply agree_outside; [done|apply Hp|done..]).
  assert (Hload : forall i, 0 <= i < 512 -> load64 m' (slot p i) = 0).
  { intros i Hi. apply load_zero. intros x Hx. apply Hz. by apply (slot_in_page p i). }
  split_and!.
  - pose proof (pt_inv_agree kend T m m' Hpt Hag) as Hpt'.
    constructor.
    + intros q r path [(<- & [= <- <-])|[_ Hq]]%lookup_insert_Some; [simpl; split; [done|lia]|].
      by apply (pt_page _ _ _ Hpt' q r).
    + intros q r path i Hq Hlen Hi Hv.
      apply lookup_insert_Some in Hq as [(<- & [= <- <-])|[Hne Hq]].
      * by rewrite Hload in Hv.
      * rewrite lookup_insert_ne; [by eapply (pt_child _ _ _ Hpt')|].
        intros E. pose proof (pt_child _ _ _ Hpt' q r path i Hq Hlen Hi Hv). congruence.
    + intros q r path i Hq Hlen Hi Hv.
      apply lookup_insert_Some in Hq as [(<- & [= <- <-])|[Hne Hq]]; [by rewrite Hload in Hv|].
      by eapply (pt_inner _ _ _ Hpt').
    + intros q r path i [(_ & [= _ Habs])|[_ Hq]]%lookup_insert_Some; [by destruct path|].
      destruct (pt_parent _ _ _ Hpt' _ _ _ _ Hq) as (z & Hzp & H1). exists z.
      rewrite lookup_insert_ne by congruence. done.
    + intros q r [(<- & [= <-])|[_ Hq]]%lookup_insert_Some; [done|]. by apply (pt_root _ _ _ Hpt').
    + intros q r i path [(_ & [=])|[_ Hq]]%lookup_insert_Some. by eapply (pt_low _ _ _ Hpt').
  - intros va. unfold leaf, pt_lookup. cbn [follow].
    rewrite Hload by by apply PX_bound. done.
  - intros r va Hr. by apply (leaf_agree kend T m m' r va).
Qed.

(** A new table is a page of the free list, and no other page changes. *)
Lemma wp_uvmcreate_frame s l T (Q : Z -> kmem -> Prop) :
  vm_inv kend s l T ->
  match l with
  | [] => Q 0 s
  | p :: l' => forall s', vm_inv kend s' l' (<[p := (p, [])]> T) -> p <> 0 -> T !! p = None ->
      (forall va, leaf (phys s') p va = 0) ->
      (forall r va, is_root T r -> leaf (phys s') r va = leaf (phys s) r va) ->
      same_outside p (phys s) (phys s') -> Q p s'
  end ->
  wp uvmcreate s Q.
Proof using kend_ok.
  intros [Hk Hpt Hd] HQ. unfold uvmcreate. apply wp_bind. eapply (wp_kalloc kend kend_ok); [done|].
  destruct l as [|p l].
  - apply wp_ret. exact HQ.
  - intros s1 Hk1 Hp Hnin Hs1 _. pose proof (page_ok_nonzero kend kend_ok p Hp) as Hnz.
    replace (p =? 0) with false by lia. apply wp_bind, wp_modify, wp_ret.
    assert (HT : T !! p = None).
    { destruct (T !! p) eqn:E; [|done]. destruct (Hd p); [by eexists|by left]. }
    assert (Hs : same_outside p (phys s) (memset (phys s1) p 0 PGSIZE)).
    { eapply same_outside_trans; [exact Hs1|apply same_outside_memset]. }
    destruct (new_root (phys s) (memset (phys s1) p 0 PGSIZE) T p Hpt Hp HT Hs) as (H1 & H2 & H3).
    { intros x Hx. rewrite memset_spec by done. range_cases. }
    apply HQ; [|lia|done|exact H2|exact H3|exact Hs].
    constructor.
    + destruct Hk1 as [Hlk Hl Hnd Hok]. constructor; [done| |done|].
      * eapply linked_frame; [done|apply Hp|done|apply same_outside_memset].
      * by apply mem_ok_memset.
    + exact H1.
    + intros q [[r pa] [(<- & _)|[_ Hq]]%lookup_insert_Some]; [done|].
      intros Hin. destruct (Hd q); [by eexists|by right].
Qed.

Lemma wp_uvmcreate s l T (Q : Z -> kmem -> Prop) :
  vm_inv kend s l T ->
  match l with
  | [] => Q 0 s
  | p :: l' => forall s', vm_inv kend s' l' (<[p := (p, [])]> T) -> p <> 0 -> T !! p = None ->
      (forall va, leaf (phys s') p va = 0) ->
      (forall r va, is_root T r -> leaf (phys s') r va = leaf (phys s) r va) -> Q p s'
  end ->
  wp uvmcreate s Q.
Proof using kend_ok.
  intros Hvm HQ. eapply wp_uvmcreate_frame; [exact Hvm|]. destruct l as [|p l]; [done|]. intros s' H1 H2 H3 H4 H5 _. by apply HQ.
Qed.
End create.

(** ** A concrete address space *)

(** An empty table at [KERNBASE], four free pages above it. *)
Definition page (i : Z) : Z := KERNBASE + i * PGSIZE.
Definition demo_mem : mem :=
  store64 (store64 (store64 (store64 (fun _ => 0) (page 1) (page 2))
    (page 2) (page 3)) (page 3) (page 4)) (page 4) 0.
Definition demo_kmem : kmem := Kmem false (page 1) demo_mem.
Definition demo_free : list Z := [page 1; page 2; page 3; page 4].
Definition demo_tables : tables := {[ KERNBASE := (KERNBASE, []) ]}.

Lemma demo_kmem_inv : kmem_inv KERNBASE demo_kmem demo_free.
Proof.
  constructor.
  - done.
  - cbn [linked demo_free]. split_and!; by vm_compute.
  - by apply (bool_decide_unpack _).
  - repeat apply mem_ok_store. intros x. lia.
Qed.

Lemma demo_mem_low x : x < page 1 -> demo_mem x = 0.
Proof. intros Hx. unfold demo_mem, page in *. rewrite !store64_outside by (unfold PGSIZE in *; lia). done. Qed.

Lemma demo_slot_zero i : 0 <= i < 512 -> load64 demo_mem (slot KERNBASE i) = 0.
Proof.
  intros Hi. apply load_zero. intros x Hx. apply demo_mem_low.
  unfold slot, page, PGSIZE in *. lia.
Qed.

Lemma demo_tables_lookup p x :
  demo_tables !! p = Some x -> p = KERNBASE /\ x = (KERNBASE, []).
Proof. unfold demo_tables. by intros [<- <-]%lookup_singleton_Some. Qed.

Lemma demo_vm_inv : vm_inv KERNBASE demo_kmem demo_free demo_tables.
Proof.
  constructor; [apply demo_kmem_inv| |].
  - constructor.
    + intros p r path [-> [= -> ->]]%demo_tables_lookup. simpl. split; [by compute|lia].
    + intros p r path i [-> [= -> ->]]%demo_tables_lookup _ Hi Hv.
      cbn [phys demo_kmem] in Hv. by rewrite demo_slot_zero in Hv.
    + intros p r path i [-> [= -> ->]]%demo_tables_lookup _ Hi Hv.
      cbn [phys demo_kmem] in Hv. by rewrite demo_slot_zero in Hv.
    + intros p r path i [-> [= -> Habs]]%demo_tables_lookup. by destruct path.
    + by intros p r [-> [= ->]]%demo_tables_lookup.
    + by intros p r i path [_ [=]]%demo_tables_lookup.
  - intros p [x [-> _]%demo_tables_lookup]. by apply (bool_decide_unpack _).
Qed.

Lemma demo_leaf va : leaf demo_mem KERNBASE va = 0.
Proof.
  unfold leaf, pt_lookup. cbn [follow]. by rewrite demo_slot_zero by by apply PX_bound.
Qed.

Lemma demo_root : is_root demo_tables KERNBASE.
Proof. apply lookup_singleton_eq. Qed.

(** The user page 0, writable, mapped to page 8. *)
Definition user_perm : Z := Z.lor (Z.lor PTE_R PTE_W) PTE_U.
Definition user_kmem : kmem :=
  match mappages KERNBASE 0 PGSIZE (page 8) user_perm demo_kmem with
  | Done _ s => s
  | _ => demo_kmem
  end.

Lemma user_kmem_maps :
  match mappages KERNBASE 0 PGSIZE (page 8) user_perm demo_kmem with
  | Done r _ => r = 0
  | _ => False
  end.
Proof. by vm_compute. Qed.

Lemma user_kmem_upd :
  exists l T, vm_upd KERNBASE KERNBASE
    (map_range 0 PGSIZE (page 8) user_perm (leaf demo_mem KERNBASE))
    demo_kmem demo_free demo_tables user_kmem l T.
Proof.
  assert (wp (mappages KERNBASE 0 PGSIZE (page 8) user_perm) demo_kmem (fun r s' => r = 0 ->
    exists l T, vm_upd KERNBASE KERNBASE
      (map_range 0 PGSIZE (page 8) user_perm (leaf demo_mem KERNBASE))
      demo_kmem demo_free demo_tables s' l T)) as (r & s' & Hrun & HQ).
  { eapply (wp_mappages KERNBASE ltac:(by compute) demo_kmem demo_free demo_tables);
      [exact demo_vm_inv|exact demo_root|by compute..| | |].
    - intros vb _. cbn [phys demo_kmem]. by rewrite demo_leaf.
    - intros s' l' T' Hu _. by exists l', T'.
    - done. }
  pose proof user_kmem_maps as Hm. unfold user_kmem. rewrite Hrun in Hm |- *. by apply HQ.
Qed.

Lemma user_translate va :
  0 <= va -> translate (phys user_kmem) KERNBASE va = if va <? PGSIZE then page 8 else 0.
Proof.
  intros Hva. destruct user_kmem_upd as (l & T & Hu). unfold translate.
  destruct (Z.leb_spec MAXVA va) as [Hm|Hm].
  { assert (PGSIZE <= MAXVA) by by compute. by replace (va <? PGSIZE) with false by lia. }
  rewrite (upd_leaf _ _ _ _ _ _ _ _ _ Hu) by done. unfold map_range. rewrite demo_leaf.
  destruct (PGROUNDDOWN_bound va) as [Hb Ha].
  destruct (Z.ltb_spec va PGSIZE) as [Hlt|Hge].
  - assert (PGROUNDDOWN va = 0) as -> by page_lia.
    by vm_compute.
  - rewrite decide_False; [done|]. page_lia.
Qed.

Lemma user_kmem_space :
  exists l T, vm_inv KERNBASE user_kmem l T /\ is_root T KERNBASE /\
    user_space (phys user_kmem) l T KERNBASE.
Proof.
  destruct user_kmem_upd as (l & T & Hu). exists l, T. split_and!; [apply Hu| |].
  - eapply is_root_mono; [apply Hu|exact demo_root].
  - assert (page 8 ∉ demo_free) as Hnf by by apply (bool_decide_unpack _).
    split.
    + intros va Hva. rewrite user_translate by done. case_match; [|done]. intros _. split.
      * destruct (T !! page 8) eqn:E; [|done]. destruct Hnf.
        by eapply (upd_new _ _ _ _ _ _ _ _ _ Hu).
      * intros Hin. by apply Hnf, (upd_free _ _ _ _ _ _ _ _ _ Hu).
    + intros va vb Hva Hvb Hma Hmb. rewrite !user_translate by done.
      destruct (Z.ltb_spec va PGSIZE); [|done]. intros Hnz.
      destruct (Z.ltb_spec vb PGSIZE); [intros _|by vm_compute].
      rewrite Z.mod_small in Hma, Hmb by lia. congruence.
Qed.

Lemma user_page0_ok va : 0 <= va < PGSIZE -> user_ok (phys user_kmem) KERNBASE va.
Proof.
  intros Hva. unfold user_ok. destruct (PGROUNDDOWN_bound va) as [Hb Ha].
  rewrite user_translate by page_lia.
  replace (PGROUNDDOWN va <? PGSIZE) with true by (unfold PGSIZE in *; lia). done.
Qed.

(** ** Properties *)

(** [uvmcreate] returns a new table that maps nothing, made of a free page, and
    changes no mapping of any other table; it returns 0 exactly if no page
    is free. *)
Theorem uvmcreate_correct (kend : Z) (s : kmem) (l : list Z) (T : tables) :
  KERNBASE <= kend <= PHYSTOP -> vm_inv kend s l T ->
  match l with
  | [] => uvmcreate s = Done 0 s
  | p :: l' => exists s', uvmcreate s = Done p s' /\ p <> 0 /\
      vm_inv kend s' l' (<[p := (p, [])]> T) /\
      (forall va, leaf (phys s') p va = 0) /\
      (forall r va, is_root T r -> leaf (phys s') r va = leaf (phys s) r va)
  end.
Proof.
  intros Hk Hinv. destruct l as [|p l].
  - assert (wp uvmcreate s (fun r s' => r = 0 /\ s' = s)) as (r & s' & Hr & -> & ->)
      by by eapply (wp_uvmcreate kend Hk). done.
  - assert (wp uvmcreate s (fun r s' => r = p /\ p <> 0 /\
      vm_inv kend s' l (<[p := (p, [])]> T) /\ (forall va, leaf (phys s') p va = 0) /\
      (forall r va, is_root T r -> leaf (phys s') r va = leaf (phys s) r va)))
      as (r & s' & Hr & -> & HQ).
    { eapply (wp_uvmcreate kend Hk); [done|]. cbv iota. intros. by split_and!. }
    by exists s'.
Qed.

Lemma uvmcreate_correct_witness :
  exists s', uvmcreate demo_kmem = Done (page 1) s' /\ forall va, leaf (phys s') (page 1) va = 0.
Proof.
  destruct (uvmcreate_correct KERNBASE demo_kmem demo_free demo_tables ltac:(by compute) demo_vm_inv)
    as (s' & H1 & _ & _ & H2 & _).
  exists s'. split; [exact H1|exact H2].
Defined.

(** C28: [mappages] on a range none of whose pages is mapped.  If it
    returns 0, exactly these pages are mapped, to the consecutive physical
    pages from [pa] with the permissions [perm]; if it returns -1, memory ran
    out, no page is free, and a prefix of the range is mapped.  Nothing else changes: not the
    mappings of any other table, not the contents of any page that
    was neither free nor a table. *)
Theorem mappages_correct (kend : Z) (s : kmem) (l : list Z) (T : tables)
    (root va size pa perm : Z) :
  KERNBASE <= kend <= PHYSTOP -> vm_inv kend s l T -> is_root T root ->
  0 <= va -> 0 < size -> va + size <= MAXVA ->
  0 <= pa -> pa + size + PGSIZE <= 2 ^ 56 -> 0 <= perm < 1024 ->
  let va0 := PGROUNDDOWN va in
  let stop := PGROUNDDOWN (va + size - 1) + PGSIZE in
  (forall vb, va0 <= vb < stop -> has (leaf (phys s) root vb) PTE_V = false) ->
  exists r s' l' T' mid,
    mappages root va size pa perm s = Done r s' /\
    (r = 0 /\ mid = stop \/ r = -1 /\ va0 <= mid < stop /\ l' = []) /\
    vm_inv kend s' l' T' /\ T ⊆ T' /\
    (forall vb, 0 <= vb < MAXVA -> leaf (phys s') root vb =
       if decide (va0 <= PGROUNDDOWN vb < mid)
       then Z.lor (Z.lor (PA2PTE (pa + (PGROUNDDOWN vb - va0))) perm) PTE_V
       else leaf (phys s) root vb) /\
    (forall r vb, is_root T r -> r <> root -> 0 <= vb < MAXVA ->
       leaf (phys s') r vb = leaf (phys s) r vb) /\
    (forall p x, T !! p = None -> p ∉ l -> p mod PGSIZE = 0 -> p <= x < p + PGSIZE ->
       phys s' x = phys s x).
Proof.
  intros Hk Hinv Hr Hva Hsz Hmax Hpa Hpa2 Hperm va0 stop Hfree.
  assert (wp (mappages root va size pa perm) s (fun r s' => exists l' T' mid,
    (r = 0 /\ mid = stop \/ r = -1 /\ va0 <= mid < stop /\ l' = []) /\
    vm_upd kend root (map_range va0 mid pa perm (leaf (phys s) root)) s l T s' l' T'))
    as (r & s' & Hrun & l' & T' & mid & Hcase & [H1 H2 _ _ _ H5 H6 H7]).
  { eapply (wp_mappages kend Hk); try done.
    - intros s' l' T' Hu. exists l', T', stop. auto.
    - intros s' T' mid Hm _ Hu. exists [], T', mid. split; [|done]. right.
      unfold stop, PGSIZE. split_and!; lia || done. }
  by exists r, s', l', T', mid.
Qed.

Lemma mappages_correct_witness :
  exists r s', mappages KERNBASE 0 PGSIZE KERNBASE PTE_R demo_kmem = Done r s' /\
    (r = 0 \/ r = -1).
Proof.
  destruct (mappages_correct KERNBASE demo_kmem demo_free demo_tables KERNBASE 0 PGSIZE KERNBASE PTE_R)
    as (r & s' & l' & T' & mid & H1 & H2 & _).
  - by compute.
  - exact demo_vm_inv.
  - exact demo_root.
  - lia.
  - by compute.
  - by compute.
  - by compute.
  - by compute.
  - by compute.
  - intros vb _. cbn [phys demo_kmem]. by rewrite demo_leaf.
  - exists r, s'. split; [exact H1|]. destruct H2 as [[? _]|[? _]]; auto.
Defined.

(** [copyin] reads user memory through the page table.  It succeeds exactly if every byte of
    the range lies on a page the user may access, returns these
    bytes, and in no case changes memory. *)
Theorem copyin_correct (kend : Z) (s : kmem) (l : list Z) (T : tables) (root va len : Z) :
  KERNBASE <= kend <= PHYSTOP -> vm_inv kend s l T -> is_root T root -> 0 <= va -> 0 <= len ->
  (exists bs, copyin root va len s = Done (0, bs) s /\
     bs = user_bytes (phys s) root va (Z.to_nat len) /\
     forall i, 0 <= i < len -> user_ok (phys s) root (va + i)) \/
  (exists bs i, copyin root va len s = Done (-1, bs) s /\
     0 <= i < len /\ ~ user_ok (phys s) root (va + i)).
Proof.
  intros Hk Hinv Hr Hva Hlen.
  destruct (wp_copyin kend Hk s l T root va len Hinv Hr Hva Hlen)
    as (r & s' & Hrun & -> & [[-> Hok]|(i & n & -> & Hi & _ & Hno)]).
  - left. by eexists.
  - right. by eexists _, i.
Qed.

(** C27: [copyout] followed by [copyin] of the same range returns the bytes written: user memory is a store.
    [copyout] fails exactly if some byte of the
    range is not accessible, and a successful one changes no other byte of
    user memory and no byte of physical memory outside the frames of the range. *)
Theorem copyout_copyin (kend : Z) (s : kmem) (l : list Z) (T : tables) (root va : Z) (bs : list Z) :
  KERNBASE <= kend <= PHYSTOP -> vm_inv kend s l T -> is_root T root ->
  user_space (phys s) l T root -> 0 <= va -> Forall (fun b => 0 <= b < 256) bs ->
  let len := Z.of_nat (length bs) in
  (exists s', copyout root va bs s = Done 0 s' /\
     copyin root va len s' = Done (0, bs) s' /\
     (forall i, 0 <= i < len -> user_ok (phys s) root (va + i)) /\
     (forall vb, 0 <= vb -> user_ok (phys s) root vb -> ~ (va <= vb < va + len) ->
        user_byte (phys s') root vb = user_byte (phys s) root vb) /\
     (forall x, (forall i, 0 <= i < len -> x <> user_addr (phys s) root (va + i)) ->
        phys s' x = phys s x)) \/
  (exists s' i, copyout root va bs s = Done (-1) s' /\
     0 <= i < len /\ ~ user_ok (phys s) root (va + i)).
Proof.
  intros Hk Hinv Hr Hus Hva Hbs len.
  assert (wp (copyout root va bs) s (fun r s' =>
    (r = 0 /\ stored kend s l T root va bs (length bs) s') \/
    (r = -1 /\ exists i, 0 <= i < len /\ ~ user_ok (phys s) root (va + i))))
    as (r & s' & Hrun & [[-> Hst]|(-> & i & Hi & Hno)]).
  { eapply (wp_copyout kend Hk); eauto.
    intros s' n i _ Hi Hno. right. split; [done|]. exists i. split; [lia|done]. }
  - left. exists s'. destruct Hst as [Hinv' Hag Hok Hb Hfr].
    assert (Htr : forall vb, translate (phys s') root vb = translate (phys s) root vb).
    { intros vb. by eapply (translate_agree kend). }
    assert (Huok : forall vb, user_ok (phys s') root vb <-> user_ok (phys s) root vb).
    { intros vb. unfold user_ok. by rewrite Htr. }
    split_and!; [done| |done| |done].
    + destruct (wp_copyin kend Hk s' l T root va len Hinv' Hr Hva ltac:(lia))
        as (r & s2 & Hrun2 & -> & [[-> _]|(i & n & -> & Hi & _ & Hno)]).
      * rewrite Hrun2. f_equal. f_equal. unfold user_bytes, len. rewrite Nat2Z.id.
        rewrite (read_bytes_ext _ (write_bytes (fun _ => 0) va bs)), read_write_bytes; [done|].
        intros x Hx. rewrite Hb; [|lia|].
        -- rewrite write_bytes_spec. by destruct (in_range_spec va (Z.of_nat (length bs)) x).
        -- replace x with (va + (x - va)) by lia. apply Hok. lia.
      * destruct Hno. apply Huok, Hok. done.
    + intros vb Hvb Hu Hnin. rewrite Hb by done. unfold len in Hnin.
      by destruct (in_range_spec va (Z.of_nat (length bs)) vb).
  - right. by exists s', i.
Qed.

(** [copyinstr] copies a NUL-terminated string.  It succeeds exactly if
    a NUL lies among the first [max] bytes with every byte up to it accessible, and then returns the string with its NUL; memory is unchanged. *)
Theorem copyinstr_correct (kend : Z) (s : kmem) (l : list Z) (T : tables) (root va max : Z) :
  KERNBASE <= kend <= PHYSTOP -> vm_inv kend s l T -> is_root T root -> 0 <= va -> 0 <= max ->
  (exists k, Z.of_nat k < max /\ user_string (phys s) root va k /\
     copyinstr root va max s = Done (0, user_bytes (phys s) root va (S k)) s) \/
  ((forall k, Z.of_nat k < max -> ~ user_string (phys s) root va k) /\
   exists bs, copyinstr root va max s = Done (-1, bs) s).
Proof.
  intros Hk Hinv Hr Hva Hmax.
  assert (wp (copyinstr root va max) s (fun r s' => s' = s /\
    ((exists k, Z.of_nat k < max /\ user_string (phys s) root va k /\
       r = (0, user_bytes (phys s) root va (S k))) \/
     ((forall k, Z.of_nat k < max -> ~ user_string (phys s) root va k) /\
      exists bs, r = (-1, bs)))))
    as (r & s' & Hrun & -> & [(k & Hk1 & Hk2 & ->)|(Hno & bs & ->)]).
  { eapply (wp_copyinstr kend Hk); [done|done|done|done|..]; intros; (split; [done|]); eauto 10. }
  - left. by exists k.
  - right. eauto.
Qed.

Lemma copyin_correct_witness :
  exists bs, copyin KERNBASE 8 4 user_kmem = Done (0, bs) user_kmem.
Proof.
  destruct user_kmem_space as (l & T & Hinv & Hr & _).
  destruct (copyin_correct KERNBASE user_kmem l T KERNBASE 8 4 ltac:(by compute) Hinv Hr
    ltac:(lia) ltac:(lia)) as [(bs & H & _)|(bs & i & _ & Hi & Hno)].
  - exists bs. exact H.
  - destruct Hno. apply user_page0_ok. unfold PGSIZE. lia.
Defined.

Lemma copyout_copyin_witness :
  exists s', copyout KERNBASE 8 [1; 2; 3] user_kmem = Done 0 s' /\
    copyin KERNBASE 8 3 s' = Done (0, [1; 2; 3]) s'.
Proof.
  destruct user_kmem_space as (l & T & Hinv & Hr & Hus).
  destruct (copyout_copyin KERNBASE user_kmem l T KERNBASE 8 [1; 2; 3] ltac:(by compute) Hinv Hr Hus
    ltac:(lia) ltac:(repeat constructor; lia)) as [(s' & H1 & H2 & _)|(s' & i & _ & Hi & Hno)].
  - exists s'. split; [exact H1|exact H2].
  - destruct Hno. apply user_page0_ok. simpl in Hi. unfold PGSIZE. lia.
Defined.

Lemma copyinstr_correct_witness :
  exists r, copyinstr KERNBASE 8 4 user_kmem = Done r user_kmem.
Proof.
  destruct user_kmem_space as (l & T & Hinv & Hr & _).
  destruct (copyinstr_correct KERNBASE user_kmem l T KERNBASE 8 4 ltac:(by compute) Hinv Hr
    ltac:(lia) ltac:(lia)) as [(k & _ & _ & H)|(_ & bs & H)].
  - eexists. exact H.
  - eexists. exact H.
Defined.
