(* ===== verification/VmFree.v ===== *)
(** * Page tables that are taken down: uvmunmap, freewalk and uvmfree of kernel/vm.c

    The pages of a tree of tables, in the order in which [freewalk] gives them back, and the pages of user memory:
    each goes to the free list exactly once, and nothing else does. *)

From S2P Require Import Prelude Params Memory Kalloc Vm VmSpec.
Import CString.

(** The bytes outside the pages [ps] are the same. *)
Definition same_but (ps : list Z) (m m' : mem) : Prop :=
  forall x, (forall q, q ∈ ps -> ~ (q <= x < q + PGSIZE)) -> m' x = m x.

Lemma same_but_trans ps qs m1 m2 m3 : same_but ps m1 m2 -> same_but qs m2 m3 -> same_but (ps ++ qs) m1 m3.
Proof. intros H1 H2 x Hx. rewrite H2, H1; [done|..]; intros q Hq; apply Hx, elem_of_app; auto. Qed.

Lemma same_but_one p m m' : same_outside p m m' -> same_but [p] m m'.
Proof. intros Hs x Hx. apply Hs. apply Hx. by left. Qed.

(** ** The pages of a tree *)

(** The pages of the tree below [p], in the order in which they are freed. *)
Fixpoint subtree (m : mem) (d : nat) (p : Z) : list Z :=
  match d with
  | O => []
  | S d' => (seqZ 0 512 ≫= fun i => if has (load64 m (slot p i)) PTE_V then subtree m d' (PTE2PA (load64 m (slot p i))) else []) ++ [p]
  end.

(** What hangs below entry [i] of a table. *)
Definition kids (m : mem) (d : nat) (p i : Z) : list Z :=
  if has (load64 m (slot p i)) PTE_V then subtree m d (PTE2PA (load64 m (slot p i))) else [].

Definition kids_to (m : mem) (d : nat) (p n : Z) : list Z := seqZ 0 n ≫= kids m d p.

Lemma subtree_S m d p : subtree m (S d) p = kids_to m d p 512 ++ [p].
Proof. done. Qed.

Lemma kids_to_S m d p i : 0 <= i -> kids_to m d p (i + 1) = kids_to m d p i ++ kids m d p i.
Proof.
  intros Hi. assert (seqZ 0 (i + 1) = seqZ 0 i ++ [i]) as E.
  { pose proof (seqZ_S 0 (Z.to_nat i)) as E. by rewrite Nat2Z.inj_succ, Z2Nat.id in E by lia. }
  unfold kids_to. rewrite E, bind_app. f_equal. cbn [mbind list_bind]. apply app_nil_r.
Qed.

Lemma elem_of_kids_to m d p n q : q ∈ kids_to m d p n <-> exists i, 0 <= i < n /\ q ∈ kids m d p i.
Proof. unfold kids_to. rewrite list_elem_of_bind. split.
  - intros (i & Hq & Hi%elem_of_seqZ). exists i. split; [lia|done].
  - intros (i & Hi & Hq). exists i. rewrite elem_of_seqZ. split; [done|lia].
 Qed.

Lemma kids_split m d p i : 0 <= i < 512 -> exists rest, kids_to m d p 512 = kids_to m d p i ++ kids m d p i ++ rest.
Proof.
  intros Hi. exists (seqZ (i + 1) (511 - i) ≫= kids m d p). rewrite (assoc_L (++)), <-kids_to_S by lia. unfold kids_to.
  rewrite <-bind_app. f_equal. replace 512 with ((i + 1) + (511 - i)) by lia. rewrite seqZ_app by lia. done.
Qed.

(** No entry of the tree is a leaf. *)
Fixpoint freeable (m : mem) (d : nat) (p : Z) : Prop :=
  match d with
  | O => False
  | S d' => forall i, 0 <= i < 512 -> has (load64 m (slot p i)) PTE_V = true ->
      Z.land (load64 m (slot p i)) (Z.lor (Z.lor PTE_R PTE_W) PTE_X) = 0 /\ freeable m d' (PTE2PA (load64 m (slot p i)))
  end.

Lemma load_slot_same m m' p i : 0 <= i < 512 -> (forall x, p <= x < p + PGSIZE -> m' x = m x) -> load64 m' (slot p i) = load64 m (slot p i).
Proof. intros Hi Hm. apply load_ext. intros x Hx. apply Hm. eapply slot_in_page; [done|]. lia. Qed.

(** The tree is in its own pages. *)
Lemma subtree_ext m m' d p : (forall q x, q ∈ subtree m d p -> q <= x < q + PGSIZE -> m' x = m x) ->
  subtree m' d p = subtree m d p /\ (freeable m d p -> freeable m' d p).
Proof.
  revert p. induction d as [|d IH]; intros p Hm; [done|].
  assert (Hl : forall i, 0 <= i < 512 -> load64 m' (slot p i) = load64 m (slot p i)).
  { intros i Hi. apply load_slot_same; [done|]. intros x Hx. apply (Hm p); [|done]. rewrite subtree_S. apply elem_of_app. right. by left. }
  assert (Hk : forall i, 0 <= i < 512 -> has (load64 m (slot p i)) PTE_V = true ->
    forall q x, q ∈ subtree m d (PTE2PA (load64 m (slot p i))) -> q <= x < q + PGSIZE -> m' x = m x).
  { intros i Hi Hv q x Hq. apply Hm. rewrite subtree_S. apply elem_of_app. left. apply elem_of_kids_to. exists i. split; [done|].
    unfold kids. by rewrite Hv. }
  split.
  - rewrite !subtree_S. f_equal. unfold kids_to. apply Forall_bind_ext, Forall_forall. intros i Hi%elem_of_seqZ. unfold kids.
    rewrite Hl by lia. destruct (has (load64 m (slot p i)) PTE_V) eqn:Ev; [|done]. apply (proj1 (IH _ (Hk i ltac:(lia) Ev))).
  - cbn [freeable]. intros Hf i Hi. rewrite Hl by done. intros Hv. destruct (Hf i Hi Hv) as [H1 H2]. split; [done|].
    by apply (IH _ (Hk i Hi Hv)).
Qed.

Section free.
Variable kend : Z.
Hypothesis kend_ok : KERNBASE <= kend <= PHYSTOP.

Abbreviation page_ok := (page_ok kend).
Abbreviation kmem_inv := (kmem_inv kend).

(** A write to a page that is not free. *)
Lemma kmem_inv_write s l p m' : kmem_inv s l -> p mod PGSIZE = 0 -> p ∉ l -> same_outside p (phys s) m' -> mem_ok m' ->
  kmem_inv (set_phys m' s) l.
Proof using. intros [H1 H2 H3 H4] Hp Hn Hs Hm. constructor; [done| |done|done]. by eapply linked_frame. Qed.

Lemma page_apart p q x : page_ok p -> page_ok q -> p <> q -> p <= x < p + PGSIZE -> ~ (q <= x < q + PGSIZE).
Proof using. intros [Hp _] [Hq _]. by apply page_disjoint. Qed.

(** ** freewalk *)

(** One round of the loop of [freewalk]. *)
Definition freewalk_round (d : nat) (p : Z) : Z -> M kmem (Z + unit) := fun i =>
  if i <? 512 then
    pte <- read64 (slot p i) ;;
    if has pte PTE_V && (Z.land pte (Z.lor (Z.lor PTE_R PTE_W) PTE_X) =? 0)
    then
      freewalk kend d (PTE2PA pte) ;;
      write64 (slot p i) 0 ;;
      ret (inl (i + 1))
    else if has pte PTE_V then panic "freewalk: leaf"
    else ret (inl (i + 1))
  else ret (inr tt).

(** Before round [i]: the first trees are free, the rest of the table is as it was. *)
Record freeing (s : kmem) (l : list Z) (d : nat) (p i : Z) (s1 : kmem) : Prop := {
  fr_range : 0 <= i <= 512;
  fr_inv : kmem_inv s1 (reverse (kids_to (phys s) d p i) ++ l);
  fr_same x : (forall q, q ∈ kids_to (phys s) d p i -> ~ (q <= x < q + PGSIZE)) -> ~ (p <= x < slot p i) -> phys s1 x = phys s x;
}.

Section level.
Variables (s : kmem) (l : list Z) (d : nat) (p : Z).
Hypothesis Hf : freeable (phys s) (S d) p.
Hypothesis Hnd : NoDup (kids_to (phys s) d p 512).
Hypothesis Hp : page_ok p /\ p ∉ l.
Hypothesis Hk : forall q, q ∈ kids_to (phys s) d p 512 -> page_ok q /\ q <> p /\ q ∉ l.

Lemma kids_ok i q : 0 <= i <= 512 -> q ∈ kids_to (phys s) d p i -> page_ok q /\ q <> p /\ q ∉ l.
Proof using Hk.
  intros Hi (j & Hj & Hq)%elem_of_kids_to. apply Hk. apply elem_of_kids_to. exists j. split; [lia|done].
Qed.

(** The trees that are not yet free, and the rest of the table. *)
Lemma freeing_slot i s1 : freeing s l d p i s1 -> 0 <= i < 512 -> load64 (phys s1) (slot p i) = load64 (phys s) (slot p i).
Proof using Hk Hp.
  intros [Hi _ Hs1] Hlt. apply load_ext. intros x Hx. apply Hs1.
  - intros q Hq. destruct (kids_ok i q) as (H1 & H3 & _); [lia|done|]. apply (page_apart p q); [apply Hp|done|done|].
    eapply slot_in_page; [exact Hlt|]. lia.
  - lia.
Qed.

Lemma freeing_kid i s1 : freeing s l d p i s1 -> 0 <= i < 512 ->
  forall q x, q ∈ kids (phys s) d p i -> q <= x < q + PGSIZE -> phys s1 x = phys s x.
Proof using Hk Hp Hnd.
  intros [Hi _ Hs1] Hlt q x Hq Hx. destruct (kids_split (phys s) d p i Hlt) as [rest E].
  assert (Hall : q ∈ kids_to (phys s) d p 512) by (rewrite E, !elem_of_app; auto).
  destruct (Hk q Hall) as (H1 & H3 & H2). pose proof Hnd as Hnd'. rewrite E in Hnd'. apply NoDup_app in Hnd' as (_ & Hdis & _). apply Hs1.
  - intros q' Hq'. destruct (kids_ok i q') as (H1' & _ & _); [lia|done|]. apply (page_apart q q'); [done|done| |done].
    intros <-. apply (Hdis q Hq'). apply elem_of_app. by left.
  - intros Hin. apply (page_apart q p x); [done|apply Hp|done|done|]. unfold slot, PGSIZE in *. lia.
Qed.

Lemma freeing_next i s1 m2 s2 : freeing s l d p i s1 -> 0 <= i < 512 -> kmem_inv s2 (reverse (kids (phys s) d p i) ++ reverse (kids_to (phys s) d p i) ++ l) ->
  same_but (kids (phys s) d p i) (phys s1) m2 -> (forall x, ~ (slot p i <= x < slot p (i + 1)) -> phys s2 x = m2 x) -> freeing s l d p (i + 1) s2.
Proof using.
  intros [Hi _ Hs1] Hlt Hinv2 Hm2 Hs2. constructor; [lia| |].
  - rewrite kids_to_S by lia. rewrite reverse_app, <-(assoc_L (++)). exact Hinv2.
  - intros x Hx Hnp. rewrite kids_to_S in Hx by lia. unfold slot in *. rewrite Hs2 by lia. rewrite Hm2.
    + apply Hs1; [|lia]. intros q Hq. apply Hx, elem_of_app. by left.
    + intros q Hq. apply Hx, elem_of_app. by right.
Qed.

Lemma wp_freewalk_round i s1 :
  (forall c s l Q, kmem_inv s l -> freeable (phys s) d c -> NoDup (subtree (phys s) d c) ->
     (forall q, q ∈ subtree (phys s) d c -> page_ok q /\ q ∉ l) ->
     (forall s', kmem_inv s' (reverse (subtree (phys s) d c) ++ l) -> same_but (subtree (phys s) d c) (phys s) (phys s') -> Q tt s') ->
     wp (freewalk kend d c) s Q) ->
  freeing s l d p i s1 -> 0 <= i < 512 ->
  wp (freewalk_round d p i) s1 (fun c s2 => match c with inl i' => freeing s l d p i' s2 /\ i' = i + 1 | inr _ => False end).
Proof using All.
  intros IH Hfr Hlt. pose proof (freeing_slot i s1 Hfr Hlt) as Hload. pose proof (freeing_kid i s1 Hfr Hlt) as Hkid.
  pose proof (freeing_next i s1) as Hnext. destruct (kids_split (phys s) d p i Hlt) as [rest Esplit].
  pose proof Hnd as Hnd'. rewrite Esplit in Hnd'. apply NoDup_app in Hnd' as (_ & Hdis & Hnd').
  apply NoDup_app in Hnd' as (Hndk & _ & _).
  assert (Hkin : forall q, q ∈ kids (phys s) d p i -> page_ok q /\ q ∉ reverse (kids_to (phys s) d p i) ++ l).
  { intros q Hq. destruct (Hk q) as (H1 & H3 & H2); [rewrite Esplit, !elem_of_app; auto|]. split; [done|].
    rewrite elem_of_app, elem_of_reverse. intros [Hin|]; [|done]. apply (Hdis q Hin), elem_of_app. by left. }
  unfold freewalk_round. replace (i <? 512) with true by lia. apply wp_bind, wp_gets. rewrite Hload.
  unfold kids in Hkid, Hkin, Hndk, Hnext. pose proof (Hf i Hlt) as Hfi. set (e := load64 (phys s) (slot p i)) in *.
  destruct (has e PTE_V) eqn:Ev; cbn [andb].
  - destruct (Hfi eq_refl) as [Hinner Hfc]. rewrite Hinner. cbn [Z.eqb].
    destruct (subtree_ext (phys s) (phys s1) d (PTE2PA e) Hkid) as [Est Hfree].
    apply wp_bind. eapply (IH _ s1); [apply Hfr|by apply Hfree|by rewrite Est|by rewrite Est|]. rewrite Est. intros s2 Hinv2 Hs2.
    apply wp_bind. apply wp_modify, wp_ret. split; [|done]. eapply (Hnext (phys s2)); [done|done| |exact Hs2|].
    + eapply kmem_inv_write; [exact Hinv2|apply Hp| | |apply mem_ok_store, Hinv2].
      * rewrite !elem_of_app, !elem_of_reverse. intros [Hin|[Hin|Hin]]; [..|by apply Hp].
        -- by destruct (Hk p) as (_ & Hne & _); [rewrite Esplit, !elem_of_app; unfold kids; fold e; rewrite Ev; auto|].
        -- by destruct (kids_ok i p) as (_ & Hne & _); [lia|done|].
      * intros x Hx. apply store64_outside. intros Hin. apply Hx. by eapply slot_in_page.
    + intros x Hx. apply store64_outside. unfold slot in *. lia.
  - apply wp_ret. split; [|done]. eapply (Hnext (phys s1)); [done|done|apply Hfr|done|done].
Qed.
End level.

Lemma wp_freewalk d p s l (Q : unit -> kmem -> Prop) : kmem_inv s l -> freeable (phys s) d p -> NoDup (subtree (phys s) d p) ->
  (forall q, q ∈ subtree (phys s) d p -> page_ok q /\ q ∉ l) ->
  (forall s', kmem_inv s' (reverse (subtree (phys s) d p) ++ l) -> same_but (subtree (phys s) d p) (phys s) (phys s') -> Q tt s') ->
  wp (freewalk kend d p) s Q.
Proof using kend_ok.
  revert p s l Q. induction d as [|d IH]; intros p s l Q Hinv Hf Hnd Hok HQ; [done|].
  rewrite subtree_S in Hnd, Hok, HQ. cbn [freewalk]. fold (freewalk_round d p).
  assert (Hp : page_ok p /\ p ∉ l) by (apply Hok, elem_of_app; right; by left).
  apply NoDup_app in Hnd as (Hnd & Hpn & _).
  assert (Hk : forall q, q ∈ kids_to (phys s) d p 512 -> page_ok q /\ q <> p /\ q ∉ l).
  { intros q Hq. destruct (Hok q) as [H1 H2]; [apply elem_of_app; by left|]. split; [done|]. split; [|done]. intros ->. apply (Hpn p Hq). by left. }
  apply wp_bind. apply (wp_loop (freeing s l d p) (fun i => Z.to_nat (512 - i))).
  2:{ constructor; [lia|done|]. intros x _ Hx. done. }
  2:{ cbn. lia. }
  intros i s1 Hfr. pose proof Hfr as [Hi Hinv1 Hs1]. destruct (Z.ltb_spec i 512) as [Hlt|Hge].
  - eapply wp_mono; [eapply (wp_freewalk_round s l d p); try done; lia|]. intros [i'|[]] s2; [|done]. intros [H2 ->]. split; [done|lia].
  - assert (i = 512) as -> by lia. apply wp_ret. eapply (wp_kfree kend kend_ok); [exact Hinv1|apply Hp| |].
    { rewrite elem_of_app, elem_of_reverse. intros [Hin|?]; [|by apply Hp]. by destruct (Hk p Hin) as (_ & Hne & _). }
    intros s2 Hinv2 Hs2. apply HQ.
    + rewrite reverse_app. exact Hinv2.
    + intros x Hx. assert (Hxp : ~ (p <= x < p + PGSIZE)) by (apply Hx, elem_of_app; right; by left).
      rewrite Hs2 by done. apply Hs1; [intros q Hq; apply Hx, elem_of_app; by left|]. unfold slot, PGSIZE in *. lia.
Qed.

(** ** The tables of a root *)

Abbreviation pt_inv := (pt_inv kend).
Abbreviation vm_inv := (vm_inv kend).

(** A path has one table. *)
Lemma label_inj m T r path p q : pt_inv m T -> T !! p = Some (r, path) -> T !! q = Some (r, path) -> p = q.
Proof using.
  intros Hpt. revert p q. induction path as [|i path IH] using rev_ind; intros p q Hp Hq.
  - rewrite (pt_root _ _ _ Hpt _ _ Hp). by rewrite (pt_root _ _ _ Hpt _ _ Hq).
  - destruct (pt_parent _ _ _ Hpt _ _ _ _ Hp) as (p' & Hp' & _ & _ & <-).
    destruct (pt_parent _ _ _ Hpt _ _ _ _ Hq) as (q' & Hq' & _ & _ & <-). by rewrite (IH _ _ Hp' Hq').
Qed.

(** The tables below a table are those its entries lead to. *)
Lemma below m T r path p i path' q : pt_inv m T -> T !! p = Some (r, path) -> T !! q = Some (r, path ++ i :: path') ->
  0 <= i < 512 /\ has (load64 m (slot p i)) PTE_V = true /\ T !! PTE2PA (load64 m (slot p i)) = Some (r, path ++ [i]).
Proof using.
  intros Hpt Hp. revert q. induction path' as [|j path' IH] using rev_ind; intros q Hq.
  - destruct (pt_parent _ _ _ Hpt _ _ _ _ Hq) as (p' & Hp' & Hi & Hv & He). rewrite (label_inj _ _ _ _ _ _ Hpt Hp Hp').
    by rewrite He.
  - rewrite (app_comm_cons path'), (assoc_L (++)) in Hq. destruct (pt_parent _ _ _ Hpt _ _ _ _ Hq) as (q' & Hq' & _).
    by apply (IH q').
Qed.

Lemma subtree_tables m T r d path p : pt_inv m T -> T !! p = Some (r, path) -> (length path + d = 3)%nat ->
  (forall q, q ∈ subtree m d p <-> exists path', T !! q = Some (r, path ++ path')) /\ NoDup (subtree m d p).
Proof using.
  intros Hpt. revert path p. induction d as [|d IH]; intros path p Hp Hd.
  { pose proof (proj2 (pt_page _ _ _ Hpt _ _ _ Hp)). lia. }
  assert (Hkid : forall i q, 0 <= i < 512 -> q ∈ kids m d p i -> exists path', T !! q = Some (r, path ++ i :: path')).
  { intros i q Hi. unfold kids. destruct (has (load64 m (slot p i)) PTE_V) eqn:Ev; [|by intros ?%elem_of_nil].
    destruct d as [|d]; [by intros ?%elem_of_nil|].
    pose proof (pt_child _ _ _ Hpt _ _ _ _ Hp ltac:(lia) Hi Ev) as Hc. destruct (IH _ _ Hc) as [Hin _]; [rewrite length_app; cbn; lia|].
    intros [path' Hq]%Hin. exists path'. by rewrite <-(assoc_L (++)) in Hq. }
  split.
  - intros q. rewrite subtree_S, elem_of_app, elem_of_kids_to, list_elem_of_singleton. split.
    + intros [(i & Hi & [path' Hq]%Hkid)| ->]; [by exists (i :: path')|done|exists []; by rewrite app_nil_r].
    + intros [[|i path'] Hq]; [right; rewrite app_nil_r in Hq; by eapply label_inj|]. left.
      destruct (below _ _ _ _ _ _ _ _ Hpt Hp Hq) as (Hi & Hv & Hc). exists i. split; [done|]. unfold kids. rewrite Hv.
      pose proof (proj2 (pt_page _ _ _ Hpt _ _ _ Hq)) as Hlen. rewrite length_app in Hlen. cbn in Hlen.
      destruct (IH _ _ Hc) as [Hin _]; [rewrite length_app; cbn; lia|]. apply Hin. exists path'. by rewrite <-(assoc_L (++)).
  - rewrite subtree_S. apply NoDup_app. split; [|split; [|apply NoDup_singleton]].
    + apply NoDup_bind; [| |apply NoDup_seqZ].
      * intros i j q Hi%elem_of_seqZ Hj%elem_of_seqZ H1 H2. destruct (Hkid i q ltac:(lia) H1) as [p1 E1].
        destruct (Hkid j q ltac:(lia) H2) as [p2 E2]. rewrite E1 in E2. injection E2 as E2. apply app_inv_head in E2. congruence.
      * intros i Hi%elem_of_seqZ. unfold kids. destruct (has (load64 m (slot p i)) PTE_V) eqn:Ev; [|constructor].
        destruct d as [|d]; [constructor|].
        assert (Hc : T !! PTE2PA (load64 m (slot p i)) = Some (r, path ++ [i])) by (eapply pt_child; [done|done|lia|lia|done]). apply (IH _ _ Hc). rewrite length_app. cbn. lia.
    + intros q (i & Hi & [path' Hq]%Hkid)%elem_of_kids_to; [|done]. intros ->%list_elem_of_singleton. rewrite Hp in Hq. injection Hq as Hq.
      apply (f_equal length) in Hq. rewrite length_app in Hq. cbn in Hq. lia.
Qed.

Lemma follow_app m p path path' q : follow m p path = Some q -> follow m p (path ++ path') = follow m q path'.
Proof using.
  revert p. induction path as [|i path IH]; intros p; cbn [follow app]; [by intros [= ->]|]. case_match; [apply IH|done].
Qed.

Lemma follow_label m T r path q : pt_inv m T -> T !! q = Some (r, path) -> follow m r path = Some q.
Proof using.
  intros Hpt. revert q. induction path as [|i path IH] using rev_ind; intros q Hq.
  - by rewrite (pt_root _ _ _ Hpt _ _ Hq).
  - destruct (pt_parent _ _ _ Hpt _ _ _ _ Hq) as (p & Hp & _ & Hv & <-). rewrite (follow_app _ _ _ _ p) by by apply IH.
    cbn [follow]. by rewrite Hv.
Qed.

(** The address that the indices [a], [b] and [i] lead to. *)
Definition va_of (a b i : Z) : Z := a * 2 ^ 30 + b * 2 ^ 21 + i * 2 ^ 12.

Lemma va_of_PX a b i : 0 <= a < 256 -> 0 <= b < 512 -> 0 <= i < 512 ->
  0 <= va_of a b i < MAXVA /\ PX 2 (va_of a b i) = a /\ PX 1 (va_of a b i) = b /\ PX 0 (va_of a b i) = i.
Proof using.
  intros Ha Hb Hi. change MAXVA with (2 ^ 38). unfold PX, PXSHIFT, PGSHIFT, va_of. change PXMASK with (Z.ones 9).
  rewrite !Z.land_ones, !Z.shiftr_div_pow2 by lia. change (2 ^ (12 + 9 * 2)) with (2 ^ 30). change (2 ^ (12 + 9 * 1)) with (2 ^ 21).
  change (2 ^ (12 + 9 * 0)) with (2 ^ 12). split_and!; try lia; Z.div_mod_to_equations; lia.
Qed.

(** Nothing is mapped at [r]. *)
Definition maps_nothing (m : mem) (r : Z) : Prop := forall va, 0 <= va < MAXVA -> has (leaf m r va) PTE_V = false.

Lemma leaf_entry m T r a b q i : pt_inv m T -> T !! q = Some (r, [a; b]) -> 0 <= i < 512 ->
  exists va, 0 <= va < MAXVA /\ leaf m r va = load64 m (slot q i).
Proof using.
  intros Hpt Hq Hi. pose proof (pt_low _ _ _ Hpt _ _ _ _ Hq) as Hlow.
  destruct (pt_parent _ _ _ Hpt _ _ [a] b Hq) as (p & Hp & Hb & _).
  destruct (pt_parent _ _ _ Hpt _ _ [] a Hp) as (_ & _ & Ha & _).
  destruct (va_of_PX a b i) as (H1 & E2 & E1 & E0); [lia..|]. exists (va_of a b i). split; [done|].
  unfold leaf, pt_lookup. rewrite E2, E1, E0, (follow_label _ _ _ _ _ Hpt Hq). done.
Qed.

Lemma tables_freeable m T r d path p : pt_inv m T -> maps_nothing m r -> T !! p = Some (r, path) -> (length path + S d = 3)%nat ->
  freeable m (S d) p.
Proof using.
  intros Hpt Hno. revert path p. induction d as [|d IH]; intros path p Hp Hd i Hi Hv.
  - exfalso. destruct path as [|a [|b [|]]]; try (cbn in Hd; lia).
    destruct (leaf_entry m T r a b p i Hpt Hp Hi) as (va & Hva & E). specialize (Hno va Hva). congruence.
  - split; [by eapply (pt_inner _ _ _ Hpt); [done|lia|..]|]. apply (IH (path ++ [i])); [|rewrite length_app; cbn; lia].
    eapply (pt_child _ _ _ Hpt); [done|lia|done|done].
Qed.

(** ** Taking a tree down *)

(** The tables without those of root [r]. *)
Definition without (r : Z) (T : tables) : tables := filter (fun x => x.2.1 <> r) T.

Lemma without_lookup r T p x : without r T !! p = Some x <-> T !! p = Some x /\ x.1 <> r.
Proof using. unfold without. by rewrite map_lookup_filter_Some. Qed.

Lemma without_pt_inv m m' T r : pt_inv m T -> (forall q x, is_Some (without r T !! q) -> q <= x < q + PGSIZE -> m' x = m x) ->
  pt_inv m' (without r T).
Proof using.
  intros Hpt Hag. apply (pt_inv_agree kend _ m m'); [|done]. constructor.
  - intros p r' path [Hp _]%without_lookup. by apply (pt_page _ _ _ Hpt p r').
  - intros p r' path i [Hp Hne]%without_lookup Hl Hi Hv. apply without_lookup. split; [by eapply (pt_child _ _ _ Hpt)|done].
  - intros p r' path i [Hp Hne]%without_lookup. by apply (pt_inner _ _ _ Hpt p r').
  - intros p r' path i [Hp Hne]%without_lookup. destruct (pt_parent _ _ _ Hpt _ _ _ _ Hp) as (q & Hq & H1). exists q.
    split; [by apply without_lookup|done].
  - intros p r' [Hp Hne]%without_lookup. by apply (pt_root _ _ _ Hpt).
  - intros p r' i path [Hp Hne]%without_lookup. by apply (pt_low _ _ _ Hpt p r' i path).
Qed.

(** [freewalk] from the root of a tree that maps nothing. *)
Lemma wp_freewalk_root s l T r (Q : unit -> kmem -> Prop) : vm_inv s l T -> is_root T r -> maps_nothing (phys s) r ->
  (forall s' ps, vm_inv s' (ps ++ l) (without r T) -> NoDup ps -> (forall q, q ∈ ps <-> exists path, T !! q = Some (r, path)) ->
     same_but ps (phys s) (phys s') -> Q tt s') ->
  wp (freewalk kend 3 r) s Q.
Proof using kend_ok.
  intros [Hkm Hpt Hd] Hr Hno HQ. destruct (subtree_tables (phys s) T r 3 [] r Hpt Hr eq_refl) as [Hin Hnd]. cbn [app] in Hin.
  eapply wp_freewalk; [done|by eapply (tables_freeable _ _ _ _ [])|done| |].
  - intros q [path Hq]%Hin. split; [apply (pt_page _ _ _ Hpt _ _ _ Hq)|]. apply Hd. by eexists.
  - intros s' Hkm' Hs'. apply (HQ s' (reverse (subtree (phys s) 3 r))); [|by rewrite reverse_Permutation| |].
    + constructor; [exact Hkm'| |].
      * eapply without_pt_inv; [exact Hpt|]. intros q x [[r' path] [Hq Hne]%without_lookup] Hx. apply Hs'.
        intros q' [path' Hq']%Hin. apply (page_apart q q'); [by eapply pt_page in Hq as [? _]|by eapply pt_page in Hq' as [? _]| |done].
        intros ->. rewrite Hq in Hq'. by injection Hq' as -> _.
      * intros q [[r' path] [Hq Hne]%without_lookup]. rewrite elem_of_app, elem_of_reverse, Hin. intros [[path' Hq']|Hl].
        -- rewrite Hq in Hq'. by injection Hq' as -> _.
        -- apply (Hd q); [by eexists|done].
    + intros q. by rewrite elem_of_reverse.
    + intros x Hx. apply Hs'. intros q Hq. apply Hx. by rewrite elem_of_reverse.
Qed.

(** ** uvmunmap *)

(** The page behind the [k]-th page from [va]. *)
Definition upage (m : mem) (root va : Z) (k : nat) : Z := PTE2PA (leaf m root (va + PGSIZE * Z.of_nat k)).
Definition upages (m : mem) (root va : Z) (n : nat) : list Z := upage m root va <$> seq 0 n.

Lemma upages_S m root va n : upages m root va (S n) = upages m root va n ++ [upage m root va n].
Proof using. unfold upages. by rewrite seq_S, fmap_app. Qed.

(** The pages from [va0] up to [stop] are not mapped. *)
Definition clear_range (va0 stop : Z) (f : Z -> Z) (vb : Z) : Z := if decide (va0 <= PGROUNDDOWN vb < stop) then 0 else f vb.

(** The effect of [uvmunmap]: the leaves of [root] are those of [f], and the pages [ps] are free. *)
Record unmapped (root : Z) (f : Z -> Z) (ps : list Z) (s : kmem) (l : list Z) (T : tables) (s' : kmem) : Prop := {
  un_inv : vm_inv s' (reverse ps ++ l) T;
  un_leaf va : 0 <= va < MAXVA -> leaf (phys s') root va = f va;
  un_other r va : is_root T r -> r <> root -> 0 <= va < MAXVA -> leaf (phys s') r va = leaf (phys s) r va;
  un_frame q x : T !! q = None -> q ∉ ps -> q mod PGSIZE = 0 -> q <= x < q + PGSIZE -> phys s' x = phys s x;
}.

(** A page that is neither free nor a table is given back. *)
Lemma wp_kfree_page root f ps s l T s1 pa (Q : unit -> kmem -> Prop) : is_root T root -> unmapped root f ps s l T s1 ->
  page_ok pa -> pa ∉ reverse ps ++ l -> T !! pa = None ->
  (forall s2, unmapped root f (ps ++ [pa]) s l T s2 -> (forall va, pt_lookup (phys s2) root va = pt_lookup (phys s1) root va) -> Q tt s2) ->
  wp (kfree kend pa) s1 Q.
Proof using kend_ok.
  intros Hr [[Hkm Hpt Hd] Hleaf Hoth Hfr] Hpa Hnin HT HQ. eapply (wp_kfree kend kend_ok); [done|done|done|]. intros s2 Hkm2 Hs2.
  assert (Hag : agree_tables T (phys s1) (phys s2)).
  { intros q x Hq Hx. apply Hs2. apply (page_disjoint q pa); [by eapply page_aligned|apply Hpa| |done]. intros ->. rewrite HT in Hq. by destruct Hq. }
  apply HQ; [|intros va; by eapply leaf_agree]. constructor.
  - constructor; [by rewrite reverse_snoc|by eapply pt_inv_agree|].
    intros p Hp. rewrite reverse_snoc. intros [->|Hin]%elem_of_cons; [rewrite HT in Hp; by destruct Hp|]. by apply (Hd p).
  - intros va Hva. destruct (leaf_agree kend T (phys s1) (phys s2) root va Hpt Hag Hr) as [_ ->]. by apply Hleaf.
  - intros r va Hrr Hne Hva. destruct (leaf_agree kend T (phys s1) (phys s2) r va Hpt Hag Hrr) as [_ ->]. by apply Hoth.
  - intros q x HTq Hq Hal Hx. rewrite Hs2; [apply (Hfr q); [done| |done|done]|].
    + intros Hin. apply Hq, elem_of_app. by left.
    + apply (page_disjoint q pa); [done|apply Hpa| |done]. intros ->. apply Hq, elem_of_app. right. by left.
Qed.

Lemma unmapped_store root f ps s l T s1 va a : is_root T root -> unmapped root f ps s l T s1 -> 0 <= va < MAXVA ->
  pt_lookup (phys s1) root va = Some a ->
  unmapped root (fun vb => if decide (PGROUNDDOWN vb = PGROUNDDOWN va) then 0 else f vb) ps s l T (set_phys (store64 (phys s1) a 0) s1).
Proof using kend_ok.
  intros Hr [Hvm Hleaf Hoth Hfr] Hva Ha. destruct (leaf_store kend (phys s1) T root va a 0 (vm_pt _ _ _ _ Hvm) Hr Hva Ha ltac:(lia)) as [_ Hst].
  constructor.
  - by eapply vm_inv_store_leaf.
  - intros vb Hvb. destruct (Hst root vb) as [_ E]; [done..|]. cbn [phys set_phys]. rewrite E.
    destruct (decide (PGROUNDDOWN vb = PGROUNDDOWN va)); [by rewrite decide_True|].
    rewrite decide_False by (by intros [_ ?]). by apply Hleaf.
  - intros r vb Hrr Hne Hvb. destruct (Hst r vb) as [_ E]; [done..|]. cbn [phys set_phys]. rewrite E, decide_False by (by intros [? _]). by apply Hoth.
  - intros q x Hq Hps Hal Hx. cbn [phys set_phys]. rewrite store64_outside; [by apply (Hfr q)|]. intros Hx'.
    eapply pt_lookup_Some in Ha as (z & Hz & ->); [|apply Hvm|done]. pose proof (PX_bound 0 va ltac:(lia)).
    apply (page_disjoint q z x); [done|eapply page_aligned; [apply Hvm|by eexists]|congruence|done|by eapply slot_in_page].
Qed.

Lemma clear_range_step va0 a f vb : va0 mod PGSIZE = 0 -> a mod PGSIZE = 0 -> va0 <= a ->
  (if decide (PGROUNDDOWN vb = PGROUNDDOWN a) then 0 else clear_range va0 a f vb) = clear_range va0 (a + PGSIZE) f vb.
Proof using.
  intros H0 Ha Hle. rewrite (PGROUNDDOWN_aligned a) by done. destruct (PGROUNDDOWN_bound vb) as [_ Hvb]. unfold clear_range.
  destruct (decide (PGROUNDDOWN vb = a)) as [->|]; [rewrite decide_True; [done|page_lia]|].
  repeat case_decide; try done; page_lia.
Qed.

Lemma unmapped_weaken root f g ps s l T s' : unmapped root f ps s l T s' -> (forall va, 0 <= va < MAXVA -> f va = g va) ->
  unmapped root g ps s l T s'.
Proof using. intros [] H. split; try done. intros. by rewrite <-H by done; auto. Qed.

(** The pages that [uvmunmap] is to give back. *)
Record user_pages (m : mem) (l : list Z) (T : tables) (root va : Z) (n : nat) : Prop := {
  up_ok p : p ∈ upages m root va n -> page_ok p /\ T !! p = None /\ p ∉ l;
  up_nodup : NoDup (upages m root va n);
}.

Lemma pt_lookup_nonzero s l T root va a : vm_inv s l T -> is_root T root -> pt_lookup (phys s) root va = Some a -> a <> 0.
Proof using kend_ok.
  intros Hvm Hr Ha. eapply pt_lookup_Some in Ha as (q & Hq & ->); [|apply Hvm|done].
  eapply pt_page in Hq as [Hq _]; [|apply Hvm]. apply page_ok_nonzero in Hq; [|done]. pose proof (PX_bound 0 va ltac:(lia)). unfold slot. lia.
Qed.

Lemma leaf_mapped m root va : has (leaf m root va) PTE_V = true -> exists a, pt_lookup m root va = Some a /\ load64 m a = leaf m root va.
Proof using. unfold leaf. destruct (pt_lookup m root va) as [a|]; [|done]. by exists a. Qed.

(** A page that is mapped, as a leaf. *)
Definition is_leaf (e : Z) : Prop := has e PTE_V = true /\ PTE_FLAGS e <> PTE_V.

Definition freed_pages (do_free : bool) (m : mem) (root va : Z) (n : nat) : list Z := if do_free then upages m root va n else [].

Lemma wp_uvmunmap s l T root va n do_free (Q : unit -> kmem -> Prop) : vm_inv s l T -> is_root T root ->
  va mod PGSIZE = 0 -> 0 <= va -> va + PGSIZE * Z.of_nat n <= MAXVA ->
  (forall k, (k < n)%nat -> is_leaf (leaf (phys s) root (va + PGSIZE * Z.of_nat k))) ->
  (do_free = true -> user_pages (phys s) l T root va n) ->
  (forall s', unmapped root (clear_range va (va + PGSIZE * Z.of_nat n) (leaf (phys s) root)) (freed_pages do_free (phys s) root va n) s l T s' -> Q tt s') ->
  wp (uvmunmap kend root va (Z.of_nat n) do_free) s Q.
Proof using kend_ok.
  intros Hvm Hr Hal Hva Hmax Hmap Hup HQ. assert (HM : MAXVA + PGSIZE < 2 ^ 64) by by compute.
  unfold uvmunmap. apply wp_bind, wp_panic_if; [by rewrite Hal|]. rewrite uwrap_small by (unfold PGSIZE in *; lia).
  rewrite (Z.mul_comm (Z.of_nat n)).
  apply (wp_loop (fun a s1 => exists k, (k <= n)%nat /\ a = va + PGSIZE * Z.of_nat k /\
    unmapped root (clear_range va a (leaf (phys s) root)) (freed_pages do_free (phys s) root va k) s l T s1)
    (fun a => Z.to_nat ((va + PGSIZE * Z.of_nat n - a) / PGSIZE))).
  2:{ exists 0%nat. split; [lia|]. split; [lia|].
      assert (freed_pages do_free (phys s) root va 0 = []) as -> by by destruct do_free.
      constructor; [done| |done|done]. intros vb Hvb. unfold clear_range. rewrite decide_False; [done|lia]. }
  2:{ page_lia. }
  intros a s1 (k & Hk & -> & Hun). set (a := va + PGSIZE * Z.of_nat k) in *.
  destruct (Z.ltb_spec a (va + PGSIZE * Z.of_nat n)) as [Hlt|Hge].
  2:{ assert (k = n) as -> by (unfold a, PGSIZE in *; lia). apply wp_ret. by apply HQ. }
  assert (Ha : 0 <= a < MAXVA) by (unfold a, PGSIZE in *; lia). assert (Hkn : (k < n)%nat) by (unfold a, PGSIZE in *; lia).
  assert (Haa : a mod PGSIZE = 0) by (unfold a; page_lia).
  assert (Eleaf : leaf (phys s1) root a = leaf (phys s) root a).
  { rewrite (un_leaf _ _ _ _ _ _ _ Hun) by done. unfold clear_range. rewrite PGROUNDDOWN_aligned, decide_False by (done || lia). done. }
  destruct (Hmap k Hkn) as [Hv Hfl]. fold a in Hv, Hfl. rewrite <-Eleaf in Hv.
  destruct (leaf_mapped (phys s1) root a Hv) as (pte & Hlook & Eload). rewrite Eleaf in Eload, Hv.
  apply wp_bind. eapply wp_done; [apply walk_noalloc; lia|]. rewrite Hlook. change (default 0 (Some pte)) with pte.
  pose proof (pt_lookup_nonzero _ _ _ _ _ _ (un_inv _ _ _ _ _ _ _ Hun) Hr Hlook) as Hnz.
  apply wp_bind, wp_panic_if; [lia|]. apply wp_bind, wp_gets. rewrite Eload.
  apply wp_bind, wp_panic_if; [by rewrite Hv|]. apply wp_bind, wp_panic_if; [lia|].
  apply wp_bind. apply (wp_mono _ _ (fun _ s2 => unmapped root (clear_range va a (leaf (phys s) root)) (freed_pages do_free (phys s) root va (S k)) s l T s2 /\
    pt_lookup (phys s2) root a = Some pte)).
  - destruct do_free; [|by apply wp_ret]. cbn [when freed_pages] in *. destruct (Hup eq_refl) as [Hok Hnd].
    assert (Hin : forall j, (j < n)%nat -> upage (phys s) root va j ∈ upages (phys s) root va n).
    { intros j Hj. apply list_elem_of_fmap. exists j. split; [done|]. apply elem_of_seq. lia. }
    destruct (Hok _ (Hin k Hkn)) as (H1 & H2 & H3).
    eapply (wp_kfree_page root _ _ s l T s1 (upage (phys s) root va k)); [done|exact Hun|done| |done|].
    + rewrite elem_of_app, elem_of_reverse. intros [(j & Ej & Hj%elem_of_seq)%list_elem_of_fmap|]; [|done].
      assert (k = j) as <-; [|lia]. eapply NoDup_lookup; [exact Hnd|..]; unfold upages; rewrite list_lookup_fmap, lookup_seq_lt by lia; [done|].
      cbn. by rewrite Ej.
    + intros s2 Hun2 Hsame. rewrite Hsame. split; [|done]. by rewrite upages_S.
  - intros [] s2 [Hun2 Hlook2]. apply wp_bind, wp_modify, wp_ret. rewrite uwrap_small by (clear -Ha HM; assert (0 < PGSIZE) by done; lia).
    split; [|unfold a in *; page_lia]. exists (S k). split; [lia|]. split; [unfold a; lia|].
    eapply unmapped_weaken; [by apply (unmapped_store root _ _ s l T s2 a pte Hr Hun2 Ha Hlook2)|].
    intros vb Hvb. cbv beta. by rewrite clear_range_step by (done || unfold a, PGSIZE; lia).
Qed.

(** ** uvmfree *)

(** The number of pages of a process of size [sz]. *)
Definition npages (sz : Z) : nat := Z.to_nat (PGROUNDUP sz / PGSIZE).

(** User memory of size [sz]: its pages are mapped, and are not shared with anything. *)
Record user_mem (m : mem) (l : list Z) (T : tables) (root sz : Z) : Prop := {
  um_size : 0 <= sz <= MAXVA;
  um_leaf k : (k < npages sz)%nat -> is_leaf (leaf m root (PGSIZE * Z.of_nat k));
  um_pages : user_pages m l T root 0 (npages sz);
}.

Lemma size_bound sz : 0 <= sz <= MAXVA -> sz <= PGROUNDUP sz < sz + PGSIZE /\ PGROUNDUP sz mod PGSIZE = 0 /\ PGROUNDUP sz <= MAXVA.
Proof using.
  intros Hsz. assert (HM : MAXVA + PGSIZE < 2 ^ 64 /\ MAXVA mod PGSIZE = 0) by by compute.
  destruct (PGROUNDUP_bound sz) as [H1 H2]; [lia|]. split; [done|]. split; [done|]. page_lia.
Qed.

Lemma npages_stop sz : 0 <= sz <= MAXVA -> PGSIZE * Z.of_nat (npages sz) = PGROUNDUP sz.
Proof using. intros Hsz. destruct (size_bound sz Hsz) as (H1 & H2 & H3). unfold npages. page_lia. Qed.

(** The tables of a root, each once. *)
Definition tables_of (T : tables) (r : Z) (ts : list Z) : Prop := NoDup ts /\ forall q, q ∈ ts <-> exists path, T !! q = Some (r, path).

(** The address space [root] is gone: its tables and the pages [us] are free, nothing else changed. *)
Record released (root : Z) (us : list Z) (s : kmem) (l : list Z) (T : tables) (s' : kmem) : Prop := {
  rl_inv : exists l' ts, vm_inv s' l' (without root T) /\ tables_of T root ts /\ l' ≡ₚ us ++ ts ++ l;
  rl_leaf r va : is_root T r -> r <> root -> 0 <= va < MAXVA -> leaf (phys s') r va = leaf (phys s) r va;
  rl_frame q x : T !! q = None -> q ∉ us -> q mod PGSIZE = 0 -> q <= x < q + PGSIZE -> phys s' x = phys s x;
}.

Lemma wp_freewalk_released s l T root f us s1 (Q : unit -> kmem -> Prop) : is_root T root -> unmapped root f us s l T s1 ->
  (forall va, 0 <= va < MAXVA -> has (f va) PTE_V = false) ->
  (forall s', released root us s l T s' -> Q tt s') -> wp (freewalk kend 3 root) s1 Q.
Proof using kend_ok.
  intros Hr [Hvm Hleaf Hoth Hfr] Hno HQ. eapply wp_freewalk_root; [exact Hvm|done| |].
  { intros va Hva. rewrite Hleaf by done. by apply Hno. }
  intros s2 ts Hvm2 Hnd Hin Hs2. apply HQ. constructor.
  - exists (ts ++ reverse us ++ l), ts. split; [done|]. split; [done|]. rewrite (reverse_Permutation us). rewrite !(assoc_L (++)).
    by rewrite (comm (++) ts us).
  - intros r va Hrr Hne Hva. rewrite <-Hoth by done.
    assert (Hag : agree_tables (without root T) (phys s1) (phys s2)).
    { intros q x [[r' path] [Hq Hne']%without_lookup] Hx. apply Hs2. intros q' [path' Hq']%Hin.
      apply (page_apart q q'); [by eapply pt_page in Hq as [? _]; [|apply Hvm]|by eapply pt_page in Hq' as [? _]; [|apply Hvm]| |done].
      intros ->. rewrite Hq in Hq'. by injection Hq' as -> _. }
    assert (Hpt : pt_inv (phys s1) (without root T)) by (eapply without_pt_inv; [apply Hvm|done]).
    destruct (leaf_agree kend (without root T) (phys s1) (phys s2) r va Hpt Hag) as [_ E]; [|done]. apply without_lookup. split; [exact Hrr|done].
  - intros q x Hq Hus Hal Hx. rewrite Hs2; [by apply (Hfr q)|]. intros q' [path' Hq']%Hin.
    apply (page_disjoint q q' x); [done|eapply page_aligned; [apply Hvm|by eexists]|congruence|done].
Qed.

Lemma wp_uvmfree s l T root sz (Q : unit -> kmem -> Prop) : vm_inv s l T -> is_root T root -> user_mem (phys s) l T root sz ->
  (forall va, PGROUNDUP sz <= va < MAXVA -> has (leaf (phys s) root va) PTE_V = false) ->
  (forall s', released root (upages (phys s) root 0 (npages sz)) s l T s' -> Q tt s') ->
  wp (uvmfree kend root sz) s Q.
Proof using kend_ok.
  intros Hvm Hr [Hsz Hleaf Hup] Hno HQ. pose proof (npages_stop sz Hsz) as Hstop. destruct (size_bound sz Hsz) as (Hb1 & Hb2 & Hmax).
  unfold uvmfree. apply wp_bind.
  apply (wp_mono _ _ (fun _ s1 => unmapped root (clear_range 0 (PGROUNDUP sz) (leaf (phys s) root)) (upages (phys s) root 0 (npages sz)) s l T s1)).
  - destruct (Z.ltb_spec 0 sz) as [Hpos|Hneg]; cbn [when].
    + replace (PGROUNDUP sz / PGSIZE) with (Z.of_nat (npages sz)) by (unfold npages; page_lia). rewrite <-Hstop.
      eapply wp_uvmunmap; [done|done|done|done|lia| |done|].
      * intros k Hk. by apply Hleaf.
      * intros s' Hun. exact Hun.
    + assert (sz = 0) as -> by lia. apply wp_ret. change (PGROUNDUP 0) with 0. constructor; [done| |done|done].
      intros va Hva. unfold clear_range. rewrite decide_False; [done|lia].
  - intros [] s1 Hun. eapply wp_freewalk_released; [done|exact Hun| |done]. intros va Hva. unfold clear_range. case_decide as E; [done|].
    apply Hno. destruct (PGROUNDDOWN_bound va) as [H1 H2]. page_lia.
Qed.
End free.
