(* ===== verification/VmGrow.v ===== *)
(** * User memory that grows and is copied: uvmalloc, uvmdealloc and uvmcopy of kernel/vm.c

    Both routines map fresh pages one after the other and, when memory runs out, take them back.  [grown] is what they
    have done after [k] pages, whatever the pages hold. *)

From S2P Require Import Prelude Params Memory Kalloc Vm VmSpec AddressSpace VmFree.
Import CString.

Lemma pages_take p l T (us : list Z) : pages l T ∪ list_to_set (us ++ [p]) = pages (p :: l) T ∪ list_to_set us.
Proof.
  apply set_eq. intros x. unfold pages. rewrite !elem_of_union, !elem_of_list_to_set, elem_of_app, !elem_of_cons, elem_of_nil. tauto.
Qed.

Section grow.
Variable kend : Z.
Hypothesis kend_ok : KERNBASE <= kend <= PHYSTOP.

Abbreviation page_ok := (page_ok kend).
Abbreviation vm_inv := (vm_inv kend).
Abbreviation user_pages := (user_pages kend).

(** ** A fresh page *)

Lemma wp_kalloc_vm s l T (Q : Z -> kmem -> Prop) : vm_inv s l T ->
  match l with
  | [] => Q 0 s
  | p :: l' => forall s1, vm_inv s1 l' T -> page_ok p -> T !! p = None -> p ∉ l' -> same_outside p (phys s) (phys s1) -> Q p s1
  end -> wp kalloc s Q.
Proof using kend_ok.
  intros [Hkm Hpt Hd] HQ. eapply (wp_kalloc kend kend_ok); [done|]. destruct l as [|p l]; [done|].
  intros s1 Hkm1 Hp Hnin Hs1 _. assert (HT : T !! p = None).
  { apply eq_None_not_Some. intros Hin. apply (Hd p Hin). by left. }
  apply HQ; [|done..]. constructor; [done| |].
  - eapply pt_inv_agree; [done|]. eapply agree_outside; [done|apply Hp|done|done].
  - intros q Hq Hin. apply (Hd q Hq). by right.
Qed.

(** A write to a page that is neither free nor a table. *)
Lemma vm_page_write s l T p m' : vm_inv s l T -> T !! p = None -> p ∉ l -> p mod PGSIZE = 0 -> same_outside p (phys s) m' -> mem_ok m' ->
  vm_inv (set_phys m' s) l T /\ agree_tables T (phys s) m'.
Proof using.
  intros [Hkm Hpt Hd] HT Hl Hp Hs Hm. pose proof (agree_outside _ _ _ _ _ Hpt Hp HT Hs) as Hag. split; [|done].
  constructor; [by eapply kmem_inv_write|by eapply pt_inv_agree|done].
Qed.

(** ** What has grown *)

(** From [base] up, [k] fresh pages are mapped, with the permissions [perm] and the bytes [fill]. *)
Record grown (root base : Z) (perm : nat -> Z) (fill : nat -> Z -> Z) (s : kmem) (l : list Z) (T : tables) (k : nat)
    (s1 : kmem) (l1 : list Z) (T1 : tables) : Prop := {
  gw_inv : vm_inv s1 l1 T1;
  gw_tables : T ⊆ T1;
  gw_user : user_pages (phys s1) l1 T1 root base k;
  gw_pages : pages l1 T1 ∪ list_to_set (upages (phys s1) root base k) = pages l T;
  gw_entry j : (j < k)%nat -> leaf (phys s1) root (base + PGSIZE * Z.of_nat j) =
    Z.lor (Z.lor (PA2PTE (upage (phys s1) root base j)) (perm j)) PTE_V;
  gw_fill j x : (j < k)%nat -> 0 <= x < PGSIZE -> phys s1 (upage (phys s1) root base j + x) = fill j x;
  gw_rest va : 0 <= va < MAXVA -> ~ (base <= PGROUNDDOWN va < base + PGSIZE * Z.of_nat k) ->
    leaf (phys s1) root va = leaf (phys s) root va;
  gw_other r va : is_root T r -> r <> root -> 0 <= va < MAXVA -> leaf (phys s1) r va = leaf (phys s) r va;
  gw_frame q x : T !! q = None -> q ∉ l -> q mod PGSIZE = 0 -> q <= x < q + PGSIZE -> phys s1 x = phys s x;
}.

#[local] Arguments gw_inv {_ _ _ _ _ _ _ _ _ _ _} _.
#[local] Arguments gw_tables {_ _ _ _ _ _ _ _ _ _ _} _.
#[local] Arguments gw_user {_ _ _ _ _ _ _ _ _ _ _} _.
#[local] Arguments gw_pages {_ _ _ _ _ _ _ _ _ _ _} _.
#[local] Arguments gw_entry {_ _ _ _ _ _ _ _ _ _ _} _.
#[local] Arguments gw_fill {_ _ _ _ _ _ _ _ _ _ _} _.
#[local] Arguments gw_rest {_ _ _ _ _ _ _ _ _ _ _} _.
#[local] Arguments gw_other {_ _ _ _ _ _ _ _ _ _ _} _.
#[local] Arguments gw_frame {_ _ _ _ _ _ _ _ _ _ _} _.

(** The pages of [s1] come from those of [s]. *)
Lemma grown_from root base perm fill s l T k s1 l1 T1 p : grown root base perm fill s l T k s1 l1 T1 ->
  p ∈ l1 \/ is_Some (T1 !! p) \/ p ∈ upages (phys s1) root base k -> p ∈ l \/ is_Some (T !! p).
Proof using.
  intros Hg Hp. assert (Hin : p ∈ pages l T).
  { rewrite <-(gw_pages Hg). unfold pages. rewrite !elem_of_union, !elem_of_list_to_set, elem_of_dom. destruct Hp as [?|[?|?]]; auto. }
  unfold pages in Hin. by rewrite elem_of_union, elem_of_list_to_set, elem_of_dom in Hin.
Qed.

Lemma grown_0 root base perm fill s l T : vm_inv s l T -> grown root base perm fill s l T 0 s l T.
Proof using.
  intros Hvm. constructor; try done.
  - constructor; [by intros p ?%elem_of_nil|constructor].
  - unfold upages. cbn. by rewrite union_empty_r_L.
  - intros j Hj. lia.
  - intros j x Hj. lia.
Qed.

Lemma upages_same m m' root base k : (forall j, (j < k)%nat -> leaf m' root (base + PGSIZE * Z.of_nat j) = leaf m root (base + PGSIZE * Z.of_nat j)) ->
  upages m' root base k = upages m root base k /\ forall j, (j < k)%nat -> upage m' root base j = upage m root base j.
Proof using.
  intros Hl. assert (Hu : forall j, (j < k)%nat -> upage m' root base j = upage m root base j) by (intros j Hj; unfold upage; by rewrite Hl).
  split; [|done]. unfold upages. apply list_fmap_ext. intros i j [-> Hlt]%lookup_seq. by apply Hu.
Qed.

(** Free pages that become tables make no difference. *)
Lemma grown_ext root base perm fill s l T k s1 l1 T1 s2 l2 T2 : is_root T root -> 0 <= base -> base + PGSIZE * Z.of_nat k <= MAXVA ->
  grown root base perm fill s l T k s1 l1 T1 ->
  vm_upd kend root (leaf (phys s1) root) s1 l1 T1 s2 l2 T2 -> grown root base perm fill s l T k s2 l2 T2.
Proof using.
  intros Hr Hb Hmax Hg Hu. pose proof (gw_user Hg) as [Hok Hnd]. destruct Hu as [Hvm2 HT Hfree Hnew Hpg Hleaf Hoth Hfr].
  destruct (upages_same (phys s1) (phys s2) root base k) as [Eus Eu]; [intros j Hj; apply Hleaf; unfold PGSIZE in *; lia|].
  assert (Hmono : forall r, is_root T r -> is_root T1 r) by (intros r; apply is_root_mono, Hg).
  assert (Hin : forall j, (j < k)%nat -> upage (phys s1) root base j ∈ upages (phys s1) root base k).
  { intros j Hj. apply list_elem_of_fmap. exists j. split; [done|]. apply elem_of_seq. lia. }
  constructor.
  - done.
  - etrans; [apply (gw_tables Hg)|done].
  - constructor; rewrite Eus; [|done]. intros q (H1 & H2 & H3)%Hok. split; [done|]. split.
    + apply eq_None_not_Some. intros Hin2. by apply H3, Hnew.
    + intros Hin2. by apply H3, Hfree.
  - by rewrite Eus, Hpg, (gw_pages Hg).
  - intros j Hj. rewrite Hleaf, Eu by (done || unfold PGSIZE in *; lia). by apply (gw_entry Hg).
  - intros j x Hj Hx. rewrite Eu by done. destruct (Hok _ (Hin j Hj)) as (H1 & H2 & H3).
    rewrite (Hfr (upage (phys s1) root base j)); [by apply (gw_fill Hg)|done|done|apply H1|lia].
  - intros va Hva Hn. rewrite Hleaf by done. by apply (gw_rest Hg).
  - intros r va Hrr Hne Hva. rewrite Hoth by auto. by apply (gw_other Hg).
  - intros q x HTq Hl Hq Hx. rewrite (Hfr q); [by apply (gw_frame Hg q)|..|done|done].
    + apply eq_None_not_Some. intros Hin2. destruct (grown_from _ _ _ _ _ _ _ _ _ _ _ q Hg) as [?|[? ?]]; [auto|done|congruence].
    + intros Hin2. destruct (grown_from _ _ _ _ _ _ _ _ _ _ _ q Hg) as [?|[? ?]]; [auto|done|congruence].
Qed.

(** ** One page more *)

Section step.
Context (root base : Z) (perm : nat -> Z) (fill : nat -> Z -> Z) (s : kmem) (l : list Z) (T : tables) (k : nat).
Context (s1 : kmem) (p : Z) (l2 : list Z) (T1 : tables) (s3 : kmem).
Hypothesis Hroot : is_root T root.
Hypothesis Hg : grown root base perm fill s l T k s1 (p :: l2) T1.
Hypothesis Hp : page_ok p.
Hypothesis Hbase : 0 <= base /\ base mod PGSIZE = 0 /\ base + PGSIZE * Z.of_nat k < MAXVA.
Hypothesis Hvm3 : vm_inv s3 l2 T1.
Hypothesis Hs3 : same_outside p (phys s1) (phys s3).

Let a := base + PGSIZE * Z.of_nat k.

Lemma taken_page : T1 !! p = None /\ (p ∉ l2) /\ p ∉ upages (phys s1) root base k.
Proof using Hg.
  destruct (gw_inv Hg) as [[_ _ Hnd _] _ Hd]. apply NoDup_cons in Hnd as [Hn _]. split; [|split; [done|]].
  - apply eq_None_not_Some. intros Hin. apply (Hd p Hin). by left.
  - intros Hin. apply (up_ok _ _ _ _ _ _ _ (gw_user Hg)) in Hin as (_ & _ & Hin). apply Hin. by left.
Qed.

Lemma taken_leaf r va : is_root T r -> leaf (phys s3) r va = leaf (phys s1) r va.
Proof using Hg Hp Hs3 kend_ok.
  intros Hr. pose proof (gw_inv Hg) as Hvm1.
  destruct (leaf_agree kend T1 (phys s1) (phys s3) r va) as [_ E]; [apply Hvm1| | |done].
  - eapply agree_outside; [apply Hvm1|apply Hp|apply taken_page|done].
  - eapply is_root_mono; [apply Hg|done].
Qed.

(** The page is mapped. *)
Section mapped.
Context (s4 : kmem) (l4 : list Z) (T4 : tables).
Hypothesis Hperm : 0 <= perm k < 1024.
Hypothesis Hfill : forall x, 0 <= x < PGSIZE -> phys s3 (p + x) = fill k x.
Hypothesis Hu : vm_upd kend root (map_range a (a + PGSIZE) p (perm k) (leaf (phys s3) root)) s3 l2 T1 s4 l4 T4.

Lemma mapped_leaf va : 0 <= va < MAXVA -> leaf (phys s4) root va =
  if decide (PGROUNDDOWN va = a) then Z.lor (Z.lor (PA2PTE p) (perm k)) PTE_V else leaf (phys s1) root va.
Proof using All.
  intros Hva. rewrite (upd_leaf _ _ _ _ _ _ _ _ _ Hu) by done. unfold map_range. destruct (PGROUNDDOWN_bound va) as [H1 H2].
  assert (Ha : a mod PGSIZE = 0) by (unfold a; page_lia). destruct (decide (PGROUNDDOWN va = a)) as [E|E].
  - rewrite decide_True by (unfold PGSIZE in *; lia). rewrite E, Z.sub_diag, Z.add_0_r. done.
  - rewrite decide_False by page_lia. by apply taken_leaf.
Qed.

Lemma mapped_upage j : (j <= k)%nat -> upage (phys s4) root base j = if decide (j = k) then p else upage (phys s1) root base j.
Proof using All.
  intros Hj. unfold upage. rewrite mapped_leaf by (unfold PGSIZE in *; lia).
  rewrite PGROUNDDOWN_aligned by page_lia. unfold a. pose proof (page_ok_nonzero kend kend_ok p Hp) as Hnz. destruct (decide (j = k)) as [->|Hne].
  - rewrite decide_True by done. rewrite <-Z.lor_assoc. apply pte_decode; [lia|apply Hp|].
    apply (lor_bound _ _ 10); [lia|lia|by compute].
  - rewrite decide_False by (unfold PGSIZE in *; lia). done.
Qed.

Lemma mapped_upages : upages (phys s4) root base (S k) = upages (phys s1) root base k ++ [p].
Proof using All.
  rewrite upages_S. f_equal; [|by rewrite mapped_upage, decide_True by done]. unfold upages. apply list_fmap_ext. intros i j Hj.
  apply lookup_seq in Hj as [-> Hlt]. rewrite mapped_upage by lia. by rewrite decide_False by lia.
Qed.

Lemma mapped_apart q : q ∉ p :: l2 -> T1 !! q = None -> T4 !! q = None /\ q ∉ l4.
Proof using Hu.
  intros Hl HT. assert (Hl2 : q ∉ l2) by (intros Hin; apply Hl; by right). split.
  - apply eq_None_not_Some. intros Hin. by apply Hl2, (upd_new _ _ _ _ _ _ _ _ _ Hu).
  - intros Hin. by apply Hl2, (upd_free _ _ _ _ _ _ _ _ _ Hu).
Qed.

Lemma mapped_byte q x : q ∉ l2 -> T1 !! q = None -> q mod PGSIZE = 0 -> q <= x < q + PGSIZE -> phys s4 x = phys s3 x.
Proof using Hu. intros Hl HT Hq. by apply (upd_frame _ _ _ _ _ _ _ _ _ Hu). Qed.

Lemma grown_step : grown root base perm fill s l T (S k) s4 l4 T4.
Proof using All.
  destruct taken_page as (HpT & Hp2 & Hpu). pose proof (gw_user Hg) as [Hok Hnd].
  assert (Hold : forall q, q ∈ upages (phys s1) root base k -> page_ok q /\ T1 !! q = None /\ q ∉ p :: l2) by done.
  constructor.
  - apply Hu.
  - etrans; [apply Hg|apply Hu].
  - constructor.
    + intros q. rewrite mapped_upages, elem_of_app, list_elem_of_singleton. intros [(H1 & H2 & H3)%Hold| ->].
      * destruct (mapped_apart q H3 H2). done.
      * split; [done|]. split; [|intros Hin; by apply Hp2, (upd_free _ _ _ _ _ _ _ _ _ Hu)].
        apply eq_None_not_Some. intros Hin. by apply Hp2, (upd_new _ _ _ _ _ _ _ _ _ Hu).
    + rewrite mapped_upages. apply NoDup_app. split; [done|]. split; [|apply NoDup_singleton]. intros q Hq ->%list_elem_of_singleton. done.
  - rewrite (upd_pages _ _ _ _ _ _ _ _ _ Hu), mapped_upages, <-(gw_pages Hg). apply pages_take.
  - intros j Hj. rewrite mapped_leaf by (unfold PGSIZE in *; lia). rewrite mapped_upage by lia. rewrite PGROUNDDOWN_aligned by page_lia.
    unfold a. destruct (decide (j = k)) as [->|Hne]; [by rewrite decide_True|].
    rewrite decide_False by (unfold PGSIZE in *; lia). apply (gw_entry Hg). lia.
  - intros j x Hj Hx. rewrite mapped_upage by lia. destruct (decide (j = k)) as [->|Hne].
    + rewrite (mapped_byte p); [by apply Hfill|done|done|apply Hp|lia].
    + destruct (Hold (upage (phys s1) root base j)) as (H1 & H2 & H3).
      { apply list_elem_of_fmap. exists j. split; [done|]. apply elem_of_seq. lia. }
      rewrite (mapped_byte (upage (phys s1) root base j)); [|intros Hin; apply H3; by right|done|apply H1|lia].
      rewrite Hs3; [apply (gw_fill Hg); lia|]. apply (page_disjoint (upage (phys s1) root base j) p); [apply H1|apply Hp| |lia].
      intros E. apply H3. rewrite E. by left.
  - intros va Hva Hn. rewrite mapped_leaf by done. rewrite decide_False by (unfold a, PGSIZE in *; lia). apply (gw_rest Hg); [done|]. unfold PGSIZE in *. lia.
  - intros r va Hr Hne Hva. rewrite (upd_other _ _ _ _ _ _ _ _ _ Hu); [|eapply is_root_mono; [apply (gw_tables Hg)|done]|done|done].
    rewrite taken_leaf by done. by apply (gw_other Hg).
  - intros q x HT Hl Hq Hx. assert (Hfrom : ~ (q ∈ l \/ is_Some (T !! q))) by (rewrite HT; intros [?|[? [=]]]; done).
    assert (Hq1 : q ∉ p :: l2) by (intros Hin; apply Hfrom, (grown_from _ _ _ _ _ _ _ _ _ _ _ _ Hg); auto).
    assert (HqT : T1 !! q = None) by (apply eq_None_not_Some; intros Hin; apply Hfrom, (grown_from _ _ _ _ _ _ _ _ _ _ _ _ Hg); auto).
    rewrite (mapped_byte q); [|intros Hin; apply Hq1; by right|done|done|done].
    rewrite Hs3; [by apply (gw_frame Hg q)|]. apply (page_disjoint q p); [done|apply Hp| |done]. intros ->. apply Hq1. by left.
Qed.
End mapped.

(** There is no memory for its tables: the page is given back. *)
Lemma undo_page s4 T4 s5 : vm_upd kend root (leaf (phys s3) root) s3 l2 T1 s4 [] T4 ->
  kmem_inv kend s5 [p] -> same_outside p (phys s4) (phys s5) ->
  vm_upd kend root (leaf (phys s1) root) s1 (p :: l2) T1 s5 [p] T4.
Proof using All.
  intros [Hvm4 HT _ Hnew Hpg Hleaf Hoth Hfr] Hkm5 Hs5. destruct taken_page as (HpT & Hp2 & Hpu).
  assert (HpT4 : T4 !! p = None) by (apply eq_None_not_Some; intros Hin; by apply Hp2, Hnew).
  assert (Hag : agree_tables T4 (phys s4) (phys s5)) by (eapply agree_outside; [apply Hvm4|apply Hp|done|done]).
  assert (Hl5 : forall r va, is_root T1 r -> leaf (phys s5) r va = leaf (phys s4) r va).
  { intros r va Hr. apply (leaf_agree kend T4); [apply Hvm4|done|by eapply is_root_mono]. }
  assert (Hl3 : forall r va, is_root T1 r -> leaf (phys s3) r va = leaf (phys s1) r va).
  { intros r va Hr. apply (leaf_agree kend T1); [apply (gw_inv Hg)|eapply agree_outside; [apply (gw_inv Hg)|apply Hp|done|done]|done]. }
  pose proof (is_root_mono _ _ _ (gw_tables Hg) Hroot) as Hr1. constructor.
  - constructor; [done|eapply pt_inv_agree; [apply Hvm4|done]|]. intros q Hq ->%list_elem_of_singleton. rewrite HpT4 in Hq. by destruct Hq.
  - done.
  - intros q ->%list_elem_of_singleton. by left.
  - intros q Hq HTq. right. by apply Hnew.
  - rewrite <-(pages_move p (p, []) l2 T1), <-(pages_move p (p, []) [] T4). unfold pages in *. rewrite !dom_insert_L.
    rewrite !(union_assoc_L _ {[p]}), !(union_comm_L _ {[p]}), <-!union_assoc_L. by rewrite Hpg.
  - intros va Hva. rewrite Hl5, Hleaf by done. by apply Hl3.
  - intros r va Hrr Hne Hva. rewrite Hl5, Hoth by done. by apply Hl3.
  - intros q x HTq Hl Hq Hx. assert (Hqp : q <> p) by (intros ->; apply Hl; by left).
    rewrite Hs5, (Hfr q), Hs3; [done|..]; [by apply (page_disjoint q p x Hq (proj1 Hp))|done|intros Hin; apply Hl; by right|done|done|by apply (page_disjoint q p x Hq (proj1 Hp))].
Qed.

(** [mappages] of the page: it is mapped, or the page is still to be given back. *)
Lemma wp_map_page (Q : Z -> kmem -> Prop) : 0 <= perm k < 1024 -> (forall x, 0 <= x < PGSIZE -> phys s3 (p + x) = fill k x) ->
  (forall vb, a <= vb < a + PGSIZE -> leaf (phys s) root vb = 0) ->
  (forall s4 l4 T4, grown root base perm fill s l T (S k) s4 l4 T4 -> Q 0 s4) ->
  (forall s4 T4, vm_upd kend root (leaf (phys s3) root) s3 l2 T1 s4 [] T4 -> Q (-1) s4) ->
  wp (mappages root a PGSIZE p (perm k)) s3 Q.
Proof using All.
  intros Hperm Hfill Hno Hok Hfail. assert (Ha : a mod PGSIZE = 0) by (unfold a; page_lia). pose proof (page_ok_nonzero kend kend_ok p Hp) as Hnz.
  assert (HM : MAXVA mod PGSIZE = 0) by by compute. assert (Hend : PGROUNDDOWN (a + PGSIZE - 1) = a) by (rewrite PGROUNDDOWN_eq; page_lia).
  eapply (wp_mappages kend kend_ok s3 l2 T1); [done|eapply is_root_mono; [apply (gw_tables Hg)|done]|unfold a, PGSIZE in *; lia|done|unfold a; page_lia|lia|unfold PGSIZE; lia|done|..].
  - rewrite Hend, PGROUNDDOWN_aligned by done. intros vb Hvb. rewrite taken_leaf by done. destruct (PGROUNDDOWN_bound vb) as [H1 H2].
    rewrite (gw_rest Hg); [by rewrite Hno|unfold a in *; page_lia|]. assert (PGROUNDDOWN vb = a) as -> by page_lia. unfold a. lia.
  - rewrite Hend, PGROUNDDOWN_aligned by done. intros s4 l4 T4 Hu. by eapply Hok, grown_step.
  - rewrite Hend, PGROUNDDOWN_aligned by done. intros s4 T4 stop Hstop _ Hu. assert (stop = a) as -> by lia.
    eapply Hfail, vm_upd_weaken; [exact Hu|]. intros vb _. apply map_range_empty.
Qed.

Lemma wp_undo_page s4 T4 (Q : unit -> kmem -> Prop) : vm_upd kend root (leaf (phys s3) root) s3 l2 T1 s4 [] T4 ->
  (forall s5 T5, grown root base perm fill s l T k s5 [p] T5 -> Q tt s5) -> wp (kfree kend p) s4 Q.
Proof using All.
  intros Hu HQ. eapply (wp_kfree kend kend_ok); [apply Hu|done|by intros ?%elem_of_nil|]. intros s5 Hkm5 Hs5.
  eapply HQ. eapply grown_ext; [exact Hroot|lia|lia|exact Hg|by eapply undo_page].
Qed.
End step.

(** ** All of it taken back *)

Lemma flags_leaf pa perm : page_ok pa -> 0 <= perm < 1024 -> Z.lor perm PTE_V <> PTE_V -> is_leaf (Z.lor (Z.lor (PA2PTE pa) perm) PTE_V).
Proof using kend_ok.
  intros Hpa Hperm Hne. pose proof (page_ok_nonzero kend kend_ok pa Hpa) as Hnz. split; [by apply has_lor|].
  rewrite <-Z.lor_assoc. destruct (pte_decode pa (Z.lor perm PTE_V)) as [_ ->]; [lia|apply Hpa|apply (lor_bound _ _ 10); [lia|lia|by compute]|done].
Qed.

Lemma wp_take_back root base perm fill s l T k s1 l1 T1 (Q : unit -> kmem -> Prop) : is_root T root ->
  0 <= base -> base mod PGSIZE = 0 -> base + PGSIZE * Z.of_nat k <= MAXVA ->
  grown root base perm fill s l T k s1 l1 T1 ->
  (forall j, (j < k)%nat -> 0 <= perm j < 1024 /\ Z.lor (perm j) PTE_V <> PTE_V) ->
  (forall vb, base <= vb < base + PGSIZE * Z.of_nat k -> leaf (phys s) root vb = 0) ->
  (forall s2 l2, vm_upd kend root (leaf (phys s) root) s l T s2 l2 T1 -> Q tt s2) ->
  wp (uvmunmap kend root base (Z.of_nat k) true) s1 Q.
Proof using kend_ok.
  intros Hr Hb Hal Hmax Hg Hperm Hno HQ. pose proof (gw_user Hg) as Hup.
  assert (Hmono : forall r, is_root T r -> is_root T1 r) by (intros r; apply is_root_mono, (gw_tables Hg)).
  eapply (wp_uvmunmap kend kend_ok s1 l1 T1); [apply (gw_inv Hg)|by apply Hmono|done|done|done| |done|].
  - intros j Hj. rewrite (gw_entry Hg) by done. destruct (Hperm j Hj) as [H1 H2]. apply flags_leaf; [|done|done].
    apply Hup. apply list_elem_of_fmap. exists j. split; [done|]. apply elem_of_seq. lia.
  - cbn [freed_pages]. intros s2 [Hvm2 Hleaf Hoth Hfr]. apply (HQ s2 (reverse (upages (phys s1) root base k) ++ l1)).
    assert (Hset : forall q, q ∈ reverse (upages (phys s1) root base k) ++ l1 <-> q ∈ upages (phys s1) root base k \/ q ∈ l1)
      by (intros q; by rewrite elem_of_app, elem_of_reverse).
    pose proof (vm_disj _ _ _ _ Hvm2) as Hd2. constructor.
    + done.
    + apply (gw_tables Hg).
    + intros q Hq. destruct (grown_from _ _ _ _ _ _ _ _ _ _ _ q Hg) as [?|[x Hx]]; [apply Hset in Hq as [?|?]; auto|done|].
      exfalso. apply (Hd2 q); [|done]. exists x. eapply lookup_weaken; [exact Hx|apply (gw_tables Hg)].
    + intros q Hq HTq. destruct (grown_from _ _ _ _ _ _ _ _ _ _ _ q Hg) as [?|[x Hx]]; [auto|done|congruence].
    + rewrite <-(gw_pages Hg). unfold pages. apply set_eq. intros q.
      rewrite !elem_of_union, !elem_of_list_to_set, Hset. tauto.
    + intros va Hva. rewrite Hleaf by done. unfold clear_range. destruct (PGROUNDDOWN_bound va) as [H1 H2]. case_decide as E.
      * symmetry. apply Hno. page_lia.
      * by apply (gw_rest Hg).
    + intros r va Hrr Hne Hva. rewrite Hoth by auto. by apply (gw_other Hg).
    + intros q x HTq Hl Hq Hx. rewrite (Hfr q); [by apply (gw_frame Hg q)|..|done|done].
      * apply eq_None_not_Some. intros Hin. destruct (grown_from _ _ _ _ _ _ _ _ _ _ _ q Hg) as [?|[? ?]]; [auto|done|congruence].
      * intros Hin. destruct (grown_from _ _ _ _ _ _ _ _ _ _ _ q Hg) as [?|[? ?]]; [auto|done|congruence].
Qed.

(** ** uvmdealloc and uvmalloc *)

Lemma grown_none root base perm fill s l T s1 l1 T1 : grown root base perm fill s l T 0 s1 l1 T1 ->
  vm_upd kend root (leaf (phys s) root) s l T s1 l1 T1.
Proof using.
  intros Hg. pose proof (fun q => grown_from _ _ _ _ _ _ _ _ _ _ _ q Hg) as Hfrom. destruct Hg as [G1 G2 _ G4 _ _ G7 G8 G9]. constructor; try done.
  - intros q Hq. destruct (Hfrom q) as [?|[x Hx]]; [auto|done|]. exfalso. apply (vm_disj _ _ _ _ G1 q); [|done]. exists x. by eapply lookup_weaken.
  - intros q Hq HTq. destruct (Hfrom q) as [?|[x Hx]]; [auto|done|congruence].
  - rewrite <-G4. symmetry. exact (union_empty_r_L (pages l1 T1)).
  - intros va Hva. apply G7; [done|lia].
Qed.

Lemma wp_dealloc_back root base perm fill s l T k s1 l1 T1 (Q : Z -> kmem -> Prop) : is_root T root ->
  0 <= base -> base mod PGSIZE = 0 -> base + PGSIZE * Z.of_nat k <= MAXVA ->
  grown root base perm fill s l T k s1 l1 T1 ->
  (forall j, (j < k)%nat -> 0 <= perm j < 1024 /\ Z.lor (perm j) PTE_V <> PTE_V) ->
  (forall vb, base <= vb < base + PGSIZE * Z.of_nat k -> leaf (phys s) root vb = 0) ->
  (forall r s2 l2 T2, vm_upd kend root (leaf (phys s) root) s l T s2 l2 T2 -> Q r s2) ->
  wp (uvmdealloc kend root (base + PGSIZE * Z.of_nat k) base) s1 Q.
Proof using kend_ok.
  intros Hr Hb Hal Hmax Hg Hperm Hno HQ. assert (HM : MAXVA = 2 ^ 38) by done. unfold uvmdealloc.
  assert (Hback : wp (uvmunmap kend root base (Z.of_nat k) true) s1 (fun _ s2 => forall r, Q r s2)).
  { eapply wp_take_back; [done..|]. intros s2 l2 Hu r. by eapply HQ. }
  rewrite !PGROUNDUP_aligned by page_lia. destruct k as [|k].
  - replace (base + PGSIZE * Z.of_nat 0 <=? base) with true by (symmetry; apply Z.leb_le; cbn [Z.of_nat]; lia). apply wp_ret. by eapply (HQ _ s1 l1 T1), grown_none.
  - replace (base + PGSIZE * Z.of_nat (S k) <=? base) with false by (symmetry; apply Z.leb_gt; unfold PGSIZE; lia).
    replace (base <? base + PGSIZE * Z.of_nat (S k)) with true by (symmetry; apply Z.ltb_lt; unfold PGSIZE; lia). cbn [when].
    replace ((base + PGSIZE * Z.of_nat (S k) - base) / PGSIZE) with (Z.of_nat (S k)) by page_lia.
    assert (Hk : 0 <= Z.of_nat (S k) < 2 ^ 31) by (unfold PGSIZE in *; lia). rewrite (swrap_small 32), (uwrap_small 64) by lia.
    apply wp_bind. eapply wp_mono; [exact Hback|]. intros [] s2 HQ2. apply wp_ret, HQ2.
Qed.

(** A page that is filled before it is mapped. *)
Lemma fill_page root base perm fill s l T k s1 p l2 T1 s2 m3 : grown root base perm fill s l T k s1 (p :: l2) T1 ->
  vm_inv s2 l2 T1 -> page_ok p -> same_outside p (phys s1) (phys s2) -> same_outside p (phys s2) m3 -> mem_ok m3 ->
  vm_inv (set_phys m3 s2) l2 T1 /\ same_outside p (phys s1) (phys (set_phys m3 s2)).
Proof using.
  intros Hg Hvm2 Hp Hs2 Hs3 Hm3. destruct (taken_page root base perm fill s l T k s1 p l2 T1 Hg) as (HT & Hl & _). split.
  - by apply (vm_page_write s2 l2 T1 p m3 Hvm2 HT Hl (proj1 Hp)).
  - by eapply same_outside_trans.
Qed.

(** [uvmalloc]: the pages up to the new size are mapped and zero, or all is as it was. *)
Lemma wp_uvmalloc s l T root oldsz newsz xperm n (Q : Z -> kmem -> Prop) : vm_inv s l T -> is_root T root ->
  0 <= oldsz <= newsz -> newsz <= MAXVA -> 0 <= xperm < 1024 ->
  PGROUNDUP oldsz + PGSIZE * Z.of_nat n = PGROUNDUP newsz ->
  (forall vb, PGROUNDUP oldsz <= vb < PGROUNDUP newsz -> leaf (phys s) root vb = 0) ->
  (forall s' l' T', grown root (PGROUNDUP oldsz) (fun _ => Z.lor (Z.lor PTE_R PTE_U) xperm) (fun _ _ => 0) s l T n s' l' T' -> Q newsz s') ->
  (forall s' l' T', vm_upd kend root (leaf (phys s) root) s l T s' l' T' -> Q 0 s') ->
  wp (uvmalloc kend root oldsz newsz xperm) s Q.
Proof using kend_ok.
  intros Hvm Hr Hsz Hmax Hxp Hn Hno Hok Hfail. destruct (size_bound oldsz) as (B1 & B2 & B3); [lia|]. destruct (size_bound newsz) as (C1 & C2 & C3); [lia|].
  assert (HM : MAXVA + PGSIZE < 2 ^ 64) by by compute. unfold uvmalloc. replace (newsz <? oldsz) with false by lia.
  set (base := PGROUNDUP oldsz) in *. set (perm := fun _ : nat => Z.lor (Z.lor PTE_R PTE_U) xperm) in *. set (fill := fun (_ : nat) (_ : Z) => 0) in *.
  assert (Hperm : forall j, 0 <= perm j < 1024 /\ Z.lor (perm j) PTE_V <> PTE_V).
  { intros j. unfold perm. split; [apply (lor_bound _ _ 10); [lia|by compute|lia]|]. intros E. apply (f_equal (fun x => Z.testbit x 4)) in E.
    rewrite !Z.lor_spec in E. cbn in E. done. }
  apply (wp_loop (fun a s1 => exists k l1 T1, (k <= n)%nat /\ a = base + PGSIZE * Z.of_nat k /\ grown root base perm fill s l T k s1 l1 T1)
    (fun a => Z.to_nat ((base + PGSIZE * Z.of_nat n - a) / PGSIZE))).
  2:{ exists 0%nat, l, T. split; [lia|]. split; [unfold PGSIZE; lia|]. by apply grown_0. }
  2:{ page_lia. }
  intros a s1 (k & l1 & T1 & Hk & -> & Hg). set (a := base + PGSIZE * Z.of_nat k) in *.
  destruct (Z.ltb_spec a newsz) as [Hlt|Hge].
  2:{ assert (k = n) as -> by (unfold a in *; page_lia). apply wp_ret. by eapply Hok. }
  assert (Hkn : (k < n)%nat) by (unfold a in *; page_lia).
  assert (Hback : forall k' s5 l5 T5, (k' <= k)%nat -> grown root base perm fill s l T k' s5 l5 T5 ->
    wp (uvmdealloc kend root (base + PGSIZE * Z.of_nat k') base) s5 (fun _ s' => Q 0 s')).
  { intros k' s5 l5 T5 Hk' Hg'. eapply wp_dealloc_back; [done|lia|done|unfold PGSIZE in *; lia|exact Hg'|auto|..].
    - intros vb Hvb. apply Hno. unfold PGSIZE in *. lia.
    - intros r s2 l2 T2 Hu. by eapply Hfail. }
  apply wp_bind. eapply wp_kalloc_vm; [apply (gw_inv Hg)|]. destruct l1 as [|p l2].
  { cbn [Z.eqb]. apply wp_bind. eapply wp_mono; [by eapply (Hback k s1)|]. intros r s' HQ. by apply wp_ret. }
  intros s2 Hvm2 Hp HT Hl2 Hs2. pose proof (page_ok_nonzero kend kend_ok p Hp) as Hnz. replace (p =? 0) with false by lia.
  apply wp_bind, wp_modify. set (m3 := memset (phys s2) p 0 PGSIZE).
  destruct (fill_page root base perm fill s l T k s1 p l2 T1 s2 m3) as [Hvm3 Hs3]; [done|done|done|done|apply same_outside_memset|apply mem_ok_memset; [done|apply Hvm2]|].
  apply wp_bind. eapply (wp_map_page root base perm fill s l T k s1 p l2 T1 (set_phys m3 s2)); [done|exact Hg|done|unfold a in *; lia|done|done|by apply Hperm|..].
  - intros x Hx. cbn [phys set_phys]. unfold m3. rewrite memset_spec by done. range_cases.
  - intros vb Hvb. apply Hno. unfold PGSIZE in *. lia.
  - intros s4 l4 T4 Hg4. cbn [Z.eqb negb]. apply wp_ret. rewrite uwrap_small by (unfold a, PGSIZE in *; lia).
    split; [|unfold a in *; page_lia]. exists (S k), l4, T4. split; [lia|]. split; [unfold a, PGSIZE; lia|done].
  - intros s4 T4 Hu. cbn [Z.eqb negb]. apply wp_bind.
    eapply (wp_undo_page root base perm fill s l T k s1 p l2 T1 (set_phys m3 s2)); [done|exact Hg|done|unfold a in *; lia|done|done|exact Hu|].
    intros s5 T5 Hg5. apply wp_bind. eapply wp_mono; [by eapply (Hback k s5)|]. intros r s' HQ. by apply wp_ret.
Qed.

(** ** uvmcopy *)

Lemma has_V_bit e : has e PTE_V = Z.testbit e 0.
Proof using.
  unfold has. change PTE_V with (Z.ones 1). rewrite Z.land_ones by lia. change (2 ^ 1) with 2. rewrite Zmod_odd, Z.bit0_odd. by destruct (Z.odd e).
Qed.

(** The flags of a valid entry have [PTE_V]. *)
Lemma flags_valid e : has e PTE_V = true -> Z.lor (PTE_FLAGS e) PTE_V = PTE_FLAGS e.
Proof using.
  rewrite has_V_bit. intros Hv. apply Z.bits_inj'. intros n Hn. rewrite Z.lor_spec. destruct (decide (n = 0)) as [->|Hne].
  - unfold PTE_FLAGS. rewrite Z.land_spec, Hv. done.
  - change PTE_V with (2 ^ 0). rewrite Z.pow2_bits_false by lia. apply orb_false_r.
Qed.

Lemma leaf_flags e : is_leaf e -> 0 <= PTE_FLAGS e < 1024 /\ Z.lor (PTE_FLAGS e) PTE_V <> PTE_V.
Proof using.
  intros [Hv Hne]. rewrite flags_valid by done. split; [|done]. unfold PTE_FLAGS. change 0x3FF with (Z.ones 10).
  rewrite Z.land_ones by lia. apply Z.mod_pos_bound. lia.
Qed.

(** The flags and the bytes of the pages of [old]. *)
Definition copy_perm (m : mem) (old : Z) (j : nat) : Z := PTE_FLAGS (leaf m old (PGSIZE * Z.of_nat j)).
Definition copy_fill (m : mem) (old : Z) (j : nat) (x : Z) : Z := m (upage m old 0 j + x).

Lemma same_outside_memmove m dst src : same_outside dst m (memmove m dst src PGSIZE).
Proof using. intros x Hx. rewrite memmove_copies by done. by destruct (in_range_spec dst PGSIZE x). Qed.

(** The round of [uvmcopy] reads the entry of [old]. *)
Lemma wp_copy_entry {R} s l T old new sz k s1 l1 T1 (C : Z -> M kmem R) (Q : R -> kmem -> Prop) :
  is_root T old -> old <> new -> user_mem kend (phys s) l T old sz -> (k < npages sz)%nat ->
  grown new 0 (copy_perm (phys s) old) (copy_fill (phys s) old) s l T k s1 l1 T1 ->
  wp (C (leaf (phys s) old (PGSIZE * Z.of_nat k))) s1 Q ->
  wp (pte <- walk old (PGSIZE * Z.of_nat k) false ;;
      panic_if (pte =? 0) "uvmcopy: pte should exist" ;;
      e <- read64 pte ;;
      panic_if (negb (has e PTE_V)) "uvmcopy: page not present" ;; C e) s1 Q.
Proof using kend_ok.
  intros Hr Hne [Hsz Hleaf Hup] Hk Hg HQ. pose proof (npages_stop sz Hsz) as Hstop. destruct (size_bound sz Hsz) as (B1 & B2 & B3).
  assert (Hva : 0 <= PGSIZE * Z.of_nat k < MAXVA) by (unfold PGSIZE in *; lia). destruct (Hleaf k Hk) as [Hv _].
  assert (Eleaf : leaf (phys s1) old (PGSIZE * Z.of_nat k) = leaf (phys s) old (PGSIZE * Z.of_nat k)) by by apply (gw_other Hg).
  destruct (leaf_mapped (phys s1) old (PGSIZE * Z.of_nat k)) as (pte & Hlook & Eload); [by rewrite Eleaf|].
  apply wp_bind. eapply wp_done; [apply walk_noalloc; lia|]. rewrite Hlook. change (default 0 (Some pte)) with pte.
  pose proof (pt_lookup_nonzero kend kend_ok _ _ _ _ _ _ (gw_inv Hg) (is_root_mono _ _ _ (gw_tables Hg) Hr) Hlook) as Hnz.
  apply wp_bind, wp_panic_if; [lia|]. apply wp_bind, wp_gets. rewrite Eload, Eleaf. apply wp_bind, wp_panic_if; [by rewrite Hv|]. done.
Qed.

Lemma wp_uvmcopy_err s l T old new sz k s1 l1 T1 (Q : Z + Z -> kmem -> Prop) : is_root T new -> user_mem kend (phys s) l T old sz -> (k <= npages sz)%nat ->
  grown new 0 (copy_perm (phys s) old) (copy_fill (phys s) old) s l T k s1 l1 T1 ->
  (forall vb, 0 <= vb < PGROUNDUP sz -> leaf (phys s) new vb = 0) ->
  (forall s2 l2 T2, vm_upd kend new (leaf (phys s) new) s l T s2 l2 T2 -> Q (inr (-1)) s2) ->
  wp (uvmcopy_err kend new (PGSIZE * Z.of_nat k)) s1 Q.
Proof using kend_ok.
  intros Hr [Hsz Hleaf Hup] Hk Hg Hno HQ. pose proof (npages_stop sz Hsz) as Hstop. destruct (size_bound sz Hsz) as (B1 & B2 & B3).
  unfold uvmcopy_err. replace (PGSIZE * Z.of_nat k / PGSIZE) with (Z.of_nat k) by page_lia. apply wp_bind.
  eapply wp_take_back; [done|lia|done|unfold PGSIZE in *; lia|exact Hg|..].
  - intros j Hj. apply leaf_flags, Hleaf. lia.
  - intros vb Hvb. apply Hno. unfold PGSIZE in *. lia.
  - intros s2 l2 Hu. apply wp_ret. by eapply HQ.
Qed.

(** [uvmcopy]: the child has a copy of every page of the parent, or all is as it was. *)
Lemma wp_uvmcopy s l T old new sz (Q : Z -> kmem -> Prop) : vm_inv s l T -> is_root T old -> is_root T new -> old <> new ->
  user_mem kend (phys s) l T old sz -> (forall vb, 0 <= vb < PGROUNDUP sz -> leaf (phys s) new vb = 0) ->
  (forall s' l' T', grown new 0 (copy_perm (phys s) old) (copy_fill (phys s) old) s l T (npages sz) s' l' T' -> Q 0 s') ->
  (forall s' l' T', vm_upd kend new (leaf (phys s) new) s l T s' l' T' -> Q (-1) s') ->
  wp (uvmcopy kend old new sz) s Q.
Proof using kend_ok.
  intros Hvm Hro Hrn Hne Hum Hno Hok Hfail. pose proof Hum as [Hsz Hleaf [Hup Hnd]]. pose proof (npages_stop sz Hsz) as Hstop.
  destruct (size_bound sz Hsz) as (B1 & B2 & B3). assert (HM : MAXVA + PGSIZE < 2 ^ 64) by by compute. unfold uvmcopy.
  apply (wp_loop (fun i s1 => exists k l1 T1, (k <= npages sz)%nat /\ i = PGSIZE * Z.of_nat k /\
    grown new 0 (copy_perm (phys s) old) (copy_fill (phys s) old) s l T k s1 l1 T1) (fun i => Z.to_nat ((PGROUNDUP sz - i) / PGSIZE))).
  2:{ exists 0%nat, l, T. split; [lia|]. split; [done|]. by apply grown_0. }
  2:{ page_lia. }
  intros i s1 (k & l1 & T1 & Hk & -> & Hg). destruct (Z.ltb_spec (PGSIZE * Z.of_nat k) sz) as [Hlt|Hge].
  2:{ assert (k = npages sz) as -> by (unfold PGSIZE in *; lia). apply wp_ret. by eapply Hok. }
  assert (Hkn : (k < npages sz)%nat) by (unfold PGSIZE in *; lia).
  assert (Herr : forall k' s5 l5 T5, (k' <= npages sz)%nat -> grown new 0 (copy_perm (phys s) old) (copy_fill (phys s) old) s l T k' s5 l5 T5 ->
    wp (uvmcopy_err kend new (PGSIZE * Z.of_nat k')) s5 (fun c s' => match c with inl _ => False | inr r => Q r s' end)).
  { intros k' s5 l5 T5 Hk' Hg'. eapply wp_uvmcopy_err; [done|exact Hum|done|exact Hg'|done|]. intros s2 l2 T2 Hu. by eapply Hfail. }
  eapply (wp_copy_entry s l T old new sz k s1 l1 T1); [done|done|done|done|done|].
  set (e := leaf (phys s) old (PGSIZE * Z.of_nat k)). change (PTE2PA e) with (upage (phys s) old 0 k). change (PTE_FLAGS e) with (copy_perm (phys s) old k).
  destruct (Hup (upage (phys s) old 0 k)) as (U1 & U2 & U3).
  { apply list_elem_of_fmap. exists k. split; [done|]. apply elem_of_seq. lia. }
  apply wp_bind. eapply wp_kalloc_vm; [apply (gw_inv Hg)|]. destruct l1 as [|p l2].
  { cbn [Z.eqb]. eapply wp_mono; [by eapply (Herr k s1)|]. by intros [?|r] s'. }
  intros s2 Hvm2 Hp HT Hl2 Hs2. pose proof (page_ok_nonzero kend kend_ok p Hp) as Hnz. replace (p =? 0) with false by lia.
  apply wp_bind, wp_modify. set (m3 := memmove (phys s2) p (upage (phys s) old 0 k) PGSIZE).
  destruct (fill_page new 0 (copy_perm (phys s) old) (copy_fill (phys s) old) s l T k s1 p l2 T1 s2 m3) as [Hvm3 Hs3];
    [done|done|done|done|apply same_outside_memmove|apply mem_ok_memmove; [done|apply Hvm2]|].
  assert (Hpu : upage (phys s) old 0 k <> p).
  { intros E. destruct (grown_from _ _ _ _ _ _ _ _ _ _ _ p Hg) as [Hin|[x Hx]]; [left; by left|by rewrite E in U3|by rewrite E, Hx in U2]. }
  apply wp_bind. change (mappages new (PGSIZE * Z.of_nat k)) with (mappages new (0 + PGSIZE * Z.of_nat k)).
  eapply (wp_map_page new 0 (copy_perm (phys s) old) (copy_fill (phys s) old) s l T k s1 p l2 T1 (set_phys m3 s2));
    [done|exact Hg|done|page_lia|done|done|apply leaf_flags, Hleaf; lia|..].
  - intros x Hx. cbn [phys set_phys]. unfold m3. rewrite memmove_copies by done. destruct (in_range_spec p PGSIZE (p + x)); [|lia].
    replace (upage (phys s) old 0 k + (p + x - p)) with (upage (phys s) old 0 k + x) by lia.
    rewrite Hs2; [|apply (page_disjoint (upage (phys s) old 0 k) p); [apply U1|apply Hp|done|lia]].
    apply (gw_frame Hg (upage (phys s) old 0 k)); [done|done|apply U1|lia].
  - intros vb Hvb. apply Hno. unfold PGSIZE in *. lia.
  - intros s4 l4 T4 Hg4. cbn [Z.eqb negb]. apply wp_ret. rewrite uwrap_small by (unfold PGSIZE in *; lia).
    split; [|page_lia]. exists (S k), l4, T4. split; [lia|]. split; [unfold PGSIZE; lia|done].
  - intros s4 T4 Hu. cbn [Z.eqb negb]. apply wp_bind.
    eapply (wp_undo_page new 0 (copy_perm (phys s) old) (copy_fill (phys s) old) s l T k s1 p l2 T1 (set_phys m3 s2)); [done|exact Hg|done|page_lia|done|done|exact Hu|].
    intros s5 T5 Hg5. eapply wp_mono; [by eapply (Herr k s5)|]. by intros [?|r] s'.
Qed.

(** ** What it means for the two address spaces *)

(** The byte at [va], through the page table. *)
Definition byte_at (m : mem) (root va : Z) : Z := m (PTE2PA (leaf m root va) + va mod PGSIZE).

Lemma grown_user_mem root perm fill s l T sz s1 l1 T1 : 0 <= sz <= MAXVA ->
  (forall j, (j < npages sz)%nat -> 0 <= perm j < 1024 /\ Z.lor (perm j) PTE_V <> PTE_V) ->
  grown root 0 perm fill s l T (npages sz) s1 l1 T1 -> user_mem kend (phys s1) l1 T1 root sz.
Proof using kend_ok.
  intros Hsz Hperm Hg. pose proof (gw_user Hg) as Hup. constructor; [done| |done]. intros k Hk.
  rewrite <-(Z.add_0_l (PGSIZE * Z.of_nat k)), (gw_entry Hg) by done. destruct (Hperm k Hk). apply flags_leaf; [|done|done].
  apply Hup. apply list_elem_of_fmap. exists k. split; [done|]. apply elem_of_seq. lia.
Qed.

(** Another address space keeps its memory: its leaves, and pages that do not become free or tables. *)
Lemma user_mem_keep m l T m' l' T' root sz : user_mem kend m l T root sz ->
  (forall va, 0 <= va < MAXVA -> leaf m' root va = leaf m root va) ->
  (forall p, p ∈ l' \/ is_Some (T' !! p) -> p ∈ l \/ is_Some (T !! p)) -> user_mem kend m' l' T' root sz.
Proof using.
  intros [Hsz Hleaf [Hok Hnd]] Hl Hfrom. pose proof (npages_stop sz Hsz) as Hstop. destruct (size_bound sz Hsz) as (B1 & B2 & B3).
  destruct (upages_same m m' root 0 (npages sz)) as [Eus Eu]; [intros j Hj; apply Hl; unfold PGSIZE in *; lia|].
  constructor; [done|intros k Hk; rewrite Hl by (unfold PGSIZE in *; lia); by apply Hleaf|].
  constructor; rewrite Eus; [|done]. intros p (H1 & H2 & H3)%Hok. assert (Hn : ~ (p ∈ l \/ is_Some (T !! p))) by (rewrite H2; intros [?|[? [=]]]; done).
  split; [done|]. split; [apply eq_None_not_Some|]; intros Hin; apply Hn, Hfrom; auto.
Qed.

(** A virtual address as page and offset. *)
Lemma va_page sz va : 0 <= sz <= MAXVA -> 0 <= va < PGROUNDUP sz -> exists j x, (j < npages sz)%nat /\ 0 <= x < PGSIZE /\
  va = PGSIZE * Z.of_nat j + x /\ va mod PGSIZE = x /\ PGROUNDDOWN va = PGSIZE * Z.of_nat j.
Proof using.
  intros Hsz Hva. pose proof (npages_stop sz Hsz) as Hstop. destruct (size_bound sz Hsz) as (B1 & B2 & B3). exists (Z.to_nat (va / PGSIZE)), (va mod PGSIZE). rewrite PGROUNDDOWN_eq.
  split_and!; try page_lia.
Qed.

Lemma leaf_page m root va : 0 <= va < MAXVA -> leaf m root va = leaf m root (PGROUNDDOWN va).
Proof using.
  intros Hva. destruct (PGROUNDDOWN_bound va) as [H1 H2]. destruct (PX_page va (PGROUNDDOWN va)) as (E2 & E1 & E0); [done|page_lia|by rewrite (PGROUNDDOWN_aligned (PGROUNDDOWN va))|].
  unfold leaf, pt_lookup. by rewrite E2, E1, E0.
Qed.

Lemma byte_at_page m root va : 0 <= va < MAXVA -> byte_at m root va = m (PTE2PA (leaf m root (PGROUNDDOWN va)) + va mod PGSIZE).
Proof using. intros Hva. unfold byte_at. by rewrite (leaf_page m root va). Qed.

(** A frame that keeps its leaves and its pages keeps its bytes. *)
Lemma user_mem_bytes s l T s' l' T' root sz : user_mem kend (phys s) l T root sz ->
  (forall va, 0 <= va < MAXVA -> leaf (phys s') root va = leaf (phys s) root va) ->
  (forall p, p ∈ l' \/ is_Some (T' !! p) -> p ∈ l \/ is_Some (T !! p)) ->
  (forall q x, T !! q = None -> q ∉ l -> q mod PGSIZE = 0 -> q <= x < q + PGSIZE -> phys s' x = phys s x) ->
  user_mem kend (phys s') l' T' root sz /\
  forall va, 0 <= va < PGROUNDUP sz -> leaf (phys s') root va = leaf (phys s) root va /\ byte_at (phys s') root va = byte_at (phys s) root va.
Proof using.
  intros Hum Hl Hfrom Hfr. split; [by eapply user_mem_keep|]. pose proof Hum as [Hsz Hleaf Hup]. destruct (size_bound sz Hsz) as (B1 & B2 & B3).
  intros va Hva. split; [apply Hl; lia|]. unfold byte_at. rewrite Hl by lia.
  destruct (va_page sz va Hsz Hva) as (j & x & Hj & Hx & E & Em & Ep). rewrite (leaf_page _ _ va), Ep, Em by lia.
  destruct (up_ok _ _ _ _ _ _ _ Hup (upage (phys s) root 0 j)) as (U1 & U2 & U3).
  { apply list_elem_of_fmap. exists j. split; [done|]. apply elem_of_seq. lia. }
  apply (Hfr (upage (phys s) root 0 j)); [done|done|apply U1|]. change (PTE2PA (leaf (phys s) root (PGSIZE * Z.of_nat j))) with (upage (phys s) root 0 j). lia.
Qed.

Lemma grown_bytes root perm fill s l T sz s1 l1 T1 va : 0 <= sz <= MAXVA -> 0 <= va < PGROUNDUP sz ->
  (forall j, (j < npages sz)%nat -> 0 <= perm j < 1024) ->
  grown root 0 perm fill s l T (npages sz) s1 l1 T1 -> exists j x, (j < npages sz)%nat /\ va = PGSIZE * Z.of_nat j + x /\ 0 <= x < PGSIZE /\
    byte_at (phys s1) root va = fill j x /\ PTE_FLAGS (leaf (phys s1) root va) = Z.lor (perm j) PTE_V.
Proof using kend_ok.
  intros Hsz Hva Hperm Hg. destruct (size_bound sz Hsz) as (B1 & B2 & B3). destruct (va_page sz va Hsz Hva) as (j & x & Hj & Hx & E & Em & Ep).
  exists j, x. do 3 (split; [done|]). rewrite byte_at_page, (leaf_page _ _ va), Ep, Em by lia. split.
  - apply (gw_fill Hg j x Hj Hx).
  - rewrite <-(Z.add_0_l (PGSIZE * Z.of_nat j)), (gw_entry Hg) by done. rewrite <-Z.lor_assoc.
    assert (Hp : page_ok (upage (phys s1) root 0 j)).
    { apply (gw_user Hg). apply list_elem_of_fmap. exists j. split; [done|]. apply elem_of_seq. lia. }
    pose proof (page_ok_nonzero kend kend_ok _ Hp). apply pte_decode; [lia|apply Hp|]. apply (lor_bound _ _ 10); [lia|by apply Hperm|by compute].
Qed.

(** The pages that [uvmcopy] made have the bytes and the flags of the old ones. *)
Lemma copied_bytes s l T old new sz s' l' T' va : user_mem kend (phys s) l T old sz ->
  grown new 0 (copy_perm (phys s) old) (copy_fill (phys s) old) s l T (npages sz) s' l' T' -> 0 <= va < PGROUNDUP sz ->
  byte_at (phys s') new va = byte_at (phys s) old va /\ PTE_FLAGS (leaf (phys s') new va) = PTE_FLAGS (leaf (phys s) old va).
Proof using kend_ok.
  intros [Hsz Hleaf Hup] Hg Hva. destruct (size_bound sz Hsz) as (B1 & B2 & B3).
  destruct (grown_bytes new (copy_perm (phys s) old) (copy_fill (phys s) old) s l T sz s' l' T' va) as (j & x & Hj & -> & Hx & Eb & Ef); [done|done|by intros j Hj; apply leaf_flags, Hleaf|done|].
  rewrite Eb, Ef. destruct (va_page sz _ Hsz Hva) as (j' & x' & Hj' & Hx' & E & Em & Ep).
  assert (j' = j /\ x' = x) as [-> ->] by (unfold PGSIZE in *; lia). rewrite byte_at_page, (leaf_page _ _ (_ + x)), Ep, Em by lia. split; [done|].
  apply flags_valid. by apply Hleaf.
Qed.
End grow.

(** ** Properties *)

(** C24: [uvmcopy] gives a child its own copy of the parent's memory.  If it returns 0, every address of the child reads the byte
    the parent has there, with the parent's flags, from pages that were free before and that the child shares
    with nobody.  If it returns -1 memory ran out: the child maps nothing that it did not map before, and no page is
    lost, every page taken is free again or a table of the child.  In both cases the parent's memory is unchanged. *)
Theorem uvmcopy_correct (kend : Z) (s : kmem) (l : list Z) (T : tables) (old new sz : Z) :
  KERNBASE <= kend <= PHYSTOP -> vm_inv kend s l T -> is_root T old -> is_root T new -> old <> new ->
  user_mem kend (phys s) l T old sz -> (forall va, 0 <= va < PGROUNDUP sz -> leaf (phys s) new va = 0) ->
  exists r s' l' T', uvmcopy kend old new sz s = Done r s' /\ vm_inv kend s' l' T' /\ T ⊆ T' /\
    user_mem kend (phys s') l' T' old sz /\
    (forall va, 0 <= va < PGROUNDUP sz -> leaf (phys s') old va = leaf (phys s) old va /\ byte_at (phys s') old va = byte_at (phys s) old va) /\
    ((r = 0 /\ user_mem kend (phys s') l' T' new sz /\
      (forall va, 0 <= va < PGROUNDUP sz -> byte_at (phys s') new va = byte_at (phys s) old va /\
         PTE_FLAGS (leaf (phys s') new va) = PTE_FLAGS (leaf (phys s) old va)) /\
      pages l' T' ∪ list_to_set (upages (phys s') new 0 (npages sz)) = pages l T) \/
     (r = -1 /\ (forall va, 0 <= va < MAXVA -> leaf (phys s') new va = leaf (phys s) new va) /\ pages l' T' = pages l T)).
Proof.
  intros Hk Hvm Hro Hrn Hne Hum Hno. pose proof Hum as [Hsz Hleaf Hup]. destruct (size_bound sz Hsz) as (B1 & B2 & B3).
  assert (Hperm : forall j, (j < npages sz)%nat -> 0 <= copy_perm (phys s) old j < 1024 /\ Z.lor (copy_perm (phys s) old j) PTE_V <> PTE_V)
    by (intros j Hj; by apply leaf_flags, Hleaf).
  assert (wp (uvmcopy kend old new sz) s (fun r s' =>
    (r = 0 /\ exists l' T', grown kend new 0 (copy_perm (phys s) old) (copy_fill (phys s) old) s l T (npages sz) s' l' T') \/
    (r = -1 /\ exists l' T', vm_upd kend new (leaf (phys s) new) s l T s' l' T'))) as (r & s' & Hrun & [(-> & l' & T' & Hg)|(-> & l' & T' & Hu)]).
  { eapply (wp_uvmcopy kend Hk); eauto 10. }
  - exists 0, s', l', T'. destruct (user_mem_bytes kend s l T s' l' T' old sz Hum) as [H1 H2]; [intros va Hva; by apply (gw_other _ _ _ _ _ _ _ _ _ _ _ _ Hg)|intros p Hp; eapply (grown_from kend); [exact Hg|destruct Hp; auto]|apply Hg|].
    split; [done|]. split; [apply Hg|]. split; [apply Hg|]. split; [done|]. split; [done|]. left. split; [done|].
    split; [by eapply (grown_user_mem kend Hk)|]. split; [|apply Hg]. intros va Hva.
    by apply (copied_bytes kend Hk s l T old new sz s' l' T').
  - exists (-1), s', l', T'. destruct (user_mem_bytes kend s l T s' l' T' old sz Hum) as [H1 H2];
      [intros va Hva; by apply (upd_other _ _ _ _ _ _ _ _ _ Hu)|intros p Hp; apply elem_of_pages; rewrite <-(upd_pages _ _ _ _ _ _ _ _ _ Hu); by apply elem_of_pages|apply Hu|].
    split; [done|]. split; [apply Hu|]. split; [apply Hu|]. split; [done|]. split; [done|]. right. split; [done|]. split; apply Hu.
Qed.

(** C25: [uvmfree] gives an address space back.  When the pages of user memory are mapped and nothing above them is, it
    returns, and the free list has, beside the pages it had, each page of user memory and each table of the tree,
    every one of them once.  The tables that remain map what they mapped, and no page but those freed and the tables has changed. *)
Theorem uvmfree_correct (kend : Z) (s : kmem) (l : list Z) (T : tables) (root sz : Z) :
  KERNBASE <= kend <= PHYSTOP -> vm_inv kend s l T -> is_root T root -> user_mem kend (phys s) l T root sz ->
  (forall va, PGROUNDUP sz <= va < MAXVA -> has (leaf (phys s) root va) PTE_V = false) ->
  exists s' l' ts, uvmfree kend root sz s = Done tt s' /\ vm_inv kend s' l' (without root T) /\
    tables_of T root ts /\ l' ≡ₚ upages (phys s) root 0 (npages sz) ++ ts ++ l /\
    (forall r va, is_root T r -> r <> root -> 0 <= va < MAXVA -> leaf (phys s') r va = leaf (phys s) r va) /\
    (forall q x, T !! q = None -> q ∉ upages (phys s) root 0 (npages sz) -> q mod PGSIZE = 0 -> q <= x < q + PGSIZE -> phys s' x = phys s x).
Proof.
  intros Hk Hvm Hr Hum Hno.
  assert (wp (uvmfree kend root sz) s (fun _ s' => released kend root (upages (phys s) root 0 (npages sz)) s l T s'))
    as ([] & s' & Hrun & [(l' & ts & H1 & H2 & H3) H4 H5]) by (eapply (wp_uvmfree kend Hk); eauto).
  by exists s', l', ts.
Qed.

(** ** A concrete parent and child *)

(** Sixteen pages of memory, two page tables, and a page of user memory in the first. *)
Definition life_end : Z := PHYSTOP - 16 * PGSIZE.

Definition life_setup : M kmem (Z * Z * Z) :=
  kinit life_end ;;
  parent <- uvmcreate ;;
  child <- uvmcreate ;;
  r <- uvmalloc life_end parent 0 PGSIZE PTE_W ;;
  ret (parent, child, r).

Definition life_kmem : kmem := match life_setup boot with Done _ s => s | _ => boot end.
Definition life_parent : Z := PHYSTOP - PGSIZE.
Definition life_child : Z := PHYSTOP - 2 * PGSIZE.

Lemma life_run : match life_setup boot with Done r _ => r = (life_parent, life_child, PGSIZE) | _ => False end.
Proof. by vm_compute. Qed.

(** Two address spaces: one with a page, one empty. *)
Record parent_child (kend : Z) (s : kmem) (l : list Z) (T : tables) (parent child sz : Z) : Prop := {
  pc_inv : vm_inv kend s l T;
  pc_roots : is_root T parent /\ is_root T child /\ parent <> child;
  pc_user : user_mem kend (phys s) l T parent sz;
  pc_top va : PGROUNDUP sz <= va < MAXVA -> leaf (phys s) parent va = 0;
  pc_child va : 0 <= va < MAXVA -> leaf (phys s) child va = 0;
}.

Lemma life_end_ok : KERNBASE <= life_end <= PHYSTOP.
Proof. by compute. Qed.

Lemma life_setup_ok : wp life_setup boot (fun r s => r.2 = PGSIZE -> exists l T, parent_child life_end s l T r.1.1 r.1.2 PGSIZE).
Proof.
  unfold life_setup. apply wp_bind. eapply (wp_kinit life_end life_end_ok); [done|intros x; cbn; lia|]. intros s1 Hk1.
  assert (exists rest, page_run (first_page life_end) (ram_pages life_end) = life_parent :: life_child :: rest) as [rest E] by (eexists; vm_compute; reflexivity).
  rewrite E in Hk1. assert (Hvm1 : vm_inv life_end s1 (life_parent :: life_child :: rest) ∅).
  { constructor; [done| |intros p; rewrite lookup_empty; by intros [? ?]]. by constructor; intros *; rewrite lookup_empty. }
  apply wp_bind. eapply (wp_uvmcreate life_end life_end_ok); [exact Hvm1|]. cbv iota. intros s2 Hvm2 _ HT2 Hl2 _.
  apply wp_bind. eapply (wp_uvmcreate life_end life_end_ok); [exact Hvm2|]. cbv iota. intros s3 Hvm3 _ HT3 Hl3 Hkeep3.
  set (T := <[life_child := (life_child, [])]> (<[life_parent := (life_parent, [])]> ∅) : tables) in *.
  assert (Hrp : is_root T life_parent) by (by vm_compute). assert (Hrc : is_root T life_child) by (by vm_compute).
  assert (Hp0 : forall va, leaf (phys s3) life_parent va = 0) by (intros va; rewrite Hkeep3; [apply Hl2|apply lookup_insert_eq]).
  apply wp_bind. eapply (wp_uvmalloc life_end life_end_ok s3 rest T life_parent 0 PGSIZE PTE_W 1); [exact Hvm3|exact Hrp|by compute|by compute|by compute|done|by intros; apply Hp0| |].
  - change (PGROUNDUP 0) with 0. intros s4 l4 T4 Hg. apply wp_ret. intros _. exists l4, T4. cbn [fst snd]. constructor.
    + apply Hg.
    + split; [eapply is_root_mono; [apply Hg|done]|]. split; [eapply is_root_mono; [apply Hg|done]|by compute].
    + eapply (grown_user_mem life_end life_end_ok life_parent _ _ s3 rest T PGSIZE); [by compute| |exact Hg]. intros j _. split; [by compute|by vm_compute].
    + intros va Hva. change (PGROUNDUP PGSIZE) with PGSIZE in Hva. rewrite (gw_rest _ _ _ _ _ _ _ _ _ _ _ _ Hg); [apply Hp0|unfold PGSIZE in *; lia|].
      destruct (PGROUNDDOWN_bound va) as [H1 H2]. page_lia.
    + intros va Hva. rewrite (gw_other _ _ _ _ _ _ _ _ _ _ _ _ Hg); [apply Hl3|exact Hrc|by compute|done].
  - intros s4 l4 T4 _. apply wp_ret. cbn [snd]. by intros [=].
Qed.

Lemma life_ok : exists l T, parent_child life_end life_kmem l T life_parent life_child PGSIZE.
Proof.
  destruct life_setup_ok as (r & s & Hrun & HQ). pose proof life_run as Hr. unfold life_kmem. rewrite Hrun in Hr |- *. subst r. by apply HQ.
Qed.

Lemma uvmcopy_correct_witness : exists s', uvmcopy life_end life_parent life_child PGSIZE life_kmem = Done 0 s' /\
  forall va, 0 <= va < PGSIZE -> byte_at (phys s') life_child va = byte_at (phys life_kmem) life_parent va.
Proof.
  destruct life_ok as (l & T & [H1 (H2 & H3 & H4) H5 H6 H7]).
  destruct (uvmcopy_correct life_end life_kmem l T life_parent life_child PGSIZE life_end_ok H1 H2 H3 H4 H5) as (r & s' & l' & T' & E & _ & _ & _ & _ & Hr).
  - intros va Hva. apply H7. assert (PGROUNDUP PGSIZE <= MAXVA) by by compute. lia.
  - assert (r = 0) as ->.
    { clear -E. apply (f_equal (fun o => match o with Done a _ => Some a | _ => None end)) in E. vm_compute in E. congruence. }
    exists s'. split; [exact E|]. destruct Hr as [(_ & _ & Hb & _)|[Hr _]]; [|exfalso; clear -Hr; lia]. intros va Hva. apply Hb. exact Hva.
Defined.

Lemma uvmfree_correct_witness : exists s' l' ts l, uvmfree life_end life_parent PGSIZE life_kmem = Done tt s' /\
  l' ≡ₚ upages (phys life_kmem) life_parent 0 (npages PGSIZE) ++ ts ++ l.
Proof.
  destruct life_ok as (l & T & [H1 (H2 & H3 & H4) H5 H6 H7]).
  destruct (uvmfree_correct life_end life_kmem l T life_parent PGSIZE life_end_ok H1 H2 H5) as (s' & l' & ts & E & _ & _ & Hl & _).
  - intros va Hva. by rewrite H6.
  - exists s', l', ts, l. split; [exact E|exact Hl].
Defined.
