(* ===== verification/VmShare.v ===== *)
(** * Threads share memory: copytable of kernel/vm.c

    [mythread_create] gives the new thread a page table of its own that maps the pages of its creator. *)

From S2P Require Import Prelude Params Memory Kalloc Vm VmSpec AddressSpace VmFree VmGrow.
Import CString.

Section share.
Variable kend : Z.
Hypothesis kend_ok : KERNBASE <= kend <= PHYSTOP.

Lemma vm_upd_trans root f g s l T s1 l1 T1 s2 l2 T2 : is_root T root -> vm_upd kend root f s l T s1 l1 T1 ->
  vm_upd kend root g s1 l1 T1 s2 l2 T2 -> vm_upd kend root g s l T s2 l2 T2.
Proof using.
  intros Hr [I1 S1 F1 N1 G1 P1 O1 M1] [I2 S2 F2 N2 G2 P2 O2 M2]. split; try done.
  - by trans T1.
  - by trans l1.
  - intros p Hp HT. destruct (T1 !! p) eqn:E; eauto.
  - congruence.
  - intros r va Hrr Hne Hva. rewrite O2 by (done || by eapply is_root_mono). by apply O1.
  - intros q x HT Hl Hq Hx. rewrite (M2 q), (M1 q); try done.
    + destruct (T1 !! q) eqn:E; [|done]. destruct Hl. by eapply N1.
    + intros Hin. by apply Hl, F1.
Qed.

(** The entry that maps the same page, with the same flags. *)
Definition share_entry (e : Z) : Z := Z.lor (Z.lor (PA2PTE (PTE2PA e)) (PTE_FLAGS e)) PTE_V.

Lemma share_entry_ok e : page_ok kend (PTE2PA e) -> is_leaf e ->
  PTE2PA (share_entry e) = PTE2PA e /\ PTE_FLAGS (share_entry e) = PTE_FLAGS e /\ is_leaf (share_entry e).
Proof using kend_ok.
  intros Hp Hl. destruct (leaf_flags e Hl) as [Hf Hne]. pose proof (page_ok_nonzero kend kend_ok _ Hp) as Hnz. unfold share_entry.
  pose proof (flags_leaf kend kend_ok (PTE2PA e) (PTE_FLAGS e) Hp Hf Hne) as Hleaf. rewrite <-Z.lor_assoc in Hleaf |- *.
  rewrite flags_valid in Hleaf |- * by apply Hl. destruct (pte_decode (PTE2PA e) (PTE_FLAGS e)) as [-> ->]; [lia|apply Hp|done|]. done.
Qed.

(** The first [k] pages of [old] are mapped at [new] too. *)
Definition shared (m : mem) (old new : Z) (k : nat) (va : Z) : Z :=
  if decide (0 <= PGROUNDDOWN va < PGSIZE * Z.of_nat k) then share_entry (leaf m old (PGROUNDDOWN va)) else leaf m new va.

Section run.
Context (s : kmem) (l : list Z) (T : tables) (old new sz : Z).
Hypothesis Hold : is_root T old.
Hypothesis Hnew : is_root T new.
Hypothesis Hne : old <> new.
Hypothesis Hum : user_mem kend (phys s) l T old sz.
Hypothesis Hno : forall va, 0 <= va < PGROUNDUP sz -> leaf (phys s) new va = 0.

Lemma old_page k : (k < npages sz)%nat -> is_leaf (leaf (phys s) old (PGSIZE * Z.of_nat k)) /\
  page_ok kend (upage (phys s) old 0 k) /\ T !! upage (phys s) old 0 k = None /\ upage (phys s) old 0 k ∉ l.
Proof using Hum.
  intros Hk. destruct Hum as [_ Hleaf [Hup _]]. split; [by apply Hleaf|]. apply Hup. apply list_elem_of_fmap. exists k. split; [done|].
  apply elem_of_seq. lia.
Qed.

(** What the entry of [old] is while the entries of [new] are made. *)
Lemma wp_share_entry {R} k s1 l1 T1 (C : Z -> M kmem R) (Q : R -> kmem -> Prop) : (k < npages sz)%nat ->
  vm_upd kend new (shared (phys s) old new k) s l T s1 l1 T1 ->
  wp (C (leaf (phys s) old (PGSIZE * Z.of_nat k))) s1 Q ->
  wp (pte <- walk old (PGSIZE * Z.of_nat k) false ;;
      panic_if (pte =? 0) "copytable: pte should exist" ;;
      e <- read64 pte ;; C e) s1 Q.
Proof using All.
  intros Hk Hu HQ. pose proof Hum as [Hsz _ _]. pose proof (npages_stop sz Hsz) as Hstop. destruct (size_bound sz Hsz) as (B1 & B2 & B3).
  assert (Hva : 0 <= PGSIZE * Z.of_nat k < MAXVA) by (unfold PGSIZE in *; lia). destruct (old_page k Hk) as ([Hv _] & _).
  assert (Eleaf : leaf (phys s1) old (PGSIZE * Z.of_nat k) = leaf (phys s) old (PGSIZE * Z.of_nat k)) by by apply (upd_other _ _ _ _ _ _ _ _ _ Hu).
  destruct (leaf_mapped (phys s1) old (PGSIZE * Z.of_nat k)) as (pte & Hlook & Eload); [by rewrite Eleaf|].
  apply wp_bind. eapply wp_done; [apply walk_noalloc; lia|]. rewrite Hlook. change (default 0 (Some pte)) with pte.
  assert (Hr1 : is_root T1 old) by (eapply is_root_mono; [apply (upd_tables _ _ _ _ _ _ _ _ _ Hu)|done]).
  pose proof (pt_lookup_nonzero kend kend_ok _ _ _ _ _ _ (upd_inv _ _ _ _ _ _ _ _ _ Hu) Hr1 Hlook) as Hnz.
  apply wp_bind, wp_panic_if; [lia|]. apply wp_bind, wp_gets. by rewrite Eload, Eleaf.
Qed.

Lemma shared_step k va : (k < npages sz)%nat ->
  map_range (PGSIZE * Z.of_nat k) (PGSIZE * Z.of_nat k + PGSIZE) (upage (phys s) old 0 k) (PTE_FLAGS (leaf (phys s) old (PGSIZE * Z.of_nat k)))
    (shared (phys s) old new k) va = shared (phys s) old new (S k) va.
Proof using.
  intros Hk. destruct (PGROUNDDOWN_bound va) as [H1 H2]. unfold map_range, shared. case_decide as E.
  - assert (PGROUNDDOWN va = PGSIZE * Z.of_nat k) as -> by page_lia. rewrite decide_True by (unfold PGSIZE; lia).
    rewrite Z.sub_diag, Z.add_0_r. done.
  - destruct (decide (0 <= PGROUNDDOWN va < PGSIZE * Z.of_nat k)); destruct (decide (0 <= PGROUNDDOWN va < PGSIZE * Z.of_nat (S k))); try done; page_lia.
Qed.

Lemma shared_leaf k j s1 l1 T1 : vm_upd kend new (shared (phys s) old new k) s l T s1 l1 T1 -> (j < k)%nat -> (k <= npages sz)%nat ->
  leaf (phys s1) new (0 + PGSIZE * Z.of_nat j) = share_entry (leaf (phys s) old (PGSIZE * Z.of_nat j)).
Proof using Hum.
  intros Hu Hj Hk. pose proof Hum as [Hsz _ _]. pose proof (npages_stop sz Hsz) as Hstop. destruct (size_bound sz Hsz) as (B1 & B2 & B3).
  rewrite (upd_leaf _ _ _ _ _ _ _ _ _ Hu) by (unfold PGSIZE in *; lia). unfold shared. rewrite PGROUNDDOWN_aligned by page_lia.
  by rewrite decide_True by (unfold PGSIZE; lia).
Qed.

Lemma shared_upages k s1 l1 T1 : vm_upd kend new (shared (phys s) old new k) s l T s1 l1 T1 -> (k <= npages sz)%nat ->
  upages (phys s1) new 0 k = upages (phys s) old 0 k.
Proof using Hum kend_ok.
  intros Hu Hk. unfold upages. apply list_fmap_ext. intros i j [-> Hlt]%lookup_seq. cbn [Nat.add] in *. unfold upage at 1.
  rewrite (shared_leaf k i s1 l1 T1 Hu) by lia. destruct (old_page i) as (H1 & H2 & _); [lia|]. apply share_entry_ok; done.
Qed.

(** Memory ran out after [k] pages: [copytable] takes them back with [uvmunmap] and [do_free] set. *)
Lemma wp_share_err k s1 T1 (Q : unit -> kmem -> Prop) : (k <= npages sz)%nat -> vm_upd kend new (shared (phys s) old new k) s l T s1 [] T1 ->
  (forall s', unmapped kend new (clear_range 0 (PGSIZE * Z.of_nat k) (leaf (phys s1) new)) (upages (phys s) old 0 k) s1 [] T1 s' -> Q tt s') ->
  wp (uvmunmap kend new 0 (PGSIZE * Z.of_nat k / PGSIZE) true) s1 Q.
Proof using All.
  intros Hk Hu HQ. pose proof Hum as [Hsz _ [_ Hnd]]. pose proof (npages_stop sz Hsz) as Hstop. destruct (size_bound sz Hsz) as (B1 & B2 & B3).
  pose proof (shared_upages k s1 [] T1 Hu Hk) as Eus.
  replace (PGSIZE * Z.of_nat k / PGSIZE) with (Z.of_nat k) by page_lia.
  eapply (wp_uvmunmap kend kend_ok s1 [] T1); [apply Hu|eapply is_root_mono; [apply Hu|done]|done|done|unfold PGSIZE in *; lia|..].
  - intros j Hj. rewrite (shared_leaf k j s1 [] T1 Hu) by lia. destruct (old_page j) as (H1 & H2 & _); [lia|]. by apply share_entry_ok.
  - intros _. constructor; rewrite Eus.
    + intros p (j & -> & Hj%elem_of_seq)%list_elem_of_fmap. destruct (old_page j) as (_ & H2 & H3 & H4); [lia|]. split; [done|].
      split; [|by intros ?%elem_of_nil]. apply eq_None_not_Some. intros Hin. apply H4. by eapply (upd_new _ _ _ _ _ _ _ _ _ Hu).
    + unfold upages in *. replace (npages sz) with (k + (npages sz - k))%nat in Hnd by lia. rewrite seq_app, fmap_app in Hnd. by apply NoDup_app in Hnd as [? _].
  - cbn [freed_pages]. rewrite Eus, Z.add_0_l. exact HQ.
Qed.

Lemma wp_copytable (Q : Z -> kmem -> Prop) : vm_inv kend s l T ->
  (forall s' l' T', vm_upd kend new (shared (phys s) old new (npages sz)) s l T s' l' T' -> Q 0 s') ->
  (forall k s1 T1 s', (k < npages sz)%nat -> vm_upd kend new (shared (phys s) old new k) s l T s1 [] T1 ->
     unmapped kend new (clear_range 0 (PGSIZE * Z.of_nat k) (leaf (phys s1) new)) (upages (phys s) old 0 k) s1 [] T1 s' -> Q (-1) s') ->
  wp (copytable kend old new sz) s Q.
Proof using All.
  intros Hvm Hok Hfail. pose proof Hum as [Hsz _ _]. pose proof (npages_stop sz Hsz) as Hstop. destruct (size_bound sz Hsz) as (B1 & B2 & B3).
  assert (HM : MAXVA + PGSIZE < 2 ^ 64) by by compute. unfold copytable.
  apply (wp_loop (fun i s1 => exists k l1 T1, (k <= npages sz)%nat /\ i = PGSIZE * Z.of_nat k /\ vm_upd kend new (shared (phys s) old new k) s l T s1 l1 T1)
    (fun i => Z.to_nat ((PGROUNDUP sz - i) / PGSIZE))).
  2:{ exists 0%nat, l, T. split; [lia|]. split; [done|]. eapply vm_upd_weaken; [by apply vm_upd_refl|]. intros va Hva. unfold shared.
      rewrite decide_False; [done|]. unfold PGSIZE. lia. }
  2:{ page_lia. }
  intros i s1 (k & l1 & T1 & Hk & -> & Hu). destruct (Z.ltb_spec (PGSIZE * Z.of_nat k) sz) as [Hlt|Hge].
  2:{ assert (k = npages sz) as -> by (unfold PGSIZE in *; lia). apply wp_ret. by eapply Hok. }
  assert (Hkn : (k < npages sz)%nat) by (unfold PGSIZE in *; lia). destruct (old_page k Hkn) as (Hleaf & Hp & HT & Hl).
  pose proof (page_ok_nonzero kend kend_ok _ Hp) as Hnz. assert (Hr1 : is_root T1 new) by (eapply is_root_mono; [apply Hu|done]).
  eapply (wp_share_entry k s1 l1 T1); [done|done|]. set (e := leaf (phys s) old (PGSIZE * Z.of_nat k)) in *. destruct Hleaf as [Hv Hfl]. rewrite Hv. cbn [negb].
  destruct (leaf_flags e (conj Hv Hfl)) as [Hf _]. change (PTE2PA e) with (upage (phys s) old 0 k).
  assert (Ha : (PGSIZE * Z.of_nat k) mod PGSIZE = 0) by page_lia.
  assert (Hend : PGROUNDDOWN (PGSIZE * Z.of_nat k + PGSIZE - 1) = PGSIZE * Z.of_nat k) by (rewrite PGROUNDDOWN_eq; page_lia).
  apply wp_bind. eapply (wp_mappages kend kend_ok s1 l1 T1); [apply Hu|done|unfold PGSIZE; lia|done|unfold PGSIZE in *; lia|lia|unfold PGSIZE; lia|done|..];
    rewrite Hend, PGROUNDDOWN_aligned by done.
  - intros vb Hvb. rewrite (upd_leaf _ _ _ _ _ _ _ _ _ Hu) by (unfold PGSIZE in *; lia). unfold shared. destruct (PGROUNDDOWN_bound vb) as [H1 H2].
    rewrite decide_False by page_lia. rewrite Hno; [done|]. unfold PGSIZE in *. lia.
  - intros s2 l2 T2 Hu2. cbn [Z.eqb negb]. apply wp_ret. rewrite uwrap_small by (unfold PGSIZE in *; lia). split; [|page_lia].
    exists (S k), l2, T2. split; [lia|]. split; [unfold PGSIZE; lia|]. eapply vm_upd_weaken; [by eapply vm_upd_trans|]. intros va Hva.
    rewrite <-(shared_step k va Hkn). fold e. unfold map_range. case_decide; [done|]. by apply (upd_leaf _ _ _ _ _ _ _ _ _ Hu).
  - intros s2 T2 stop Hs _ Hu2. assert (stop = PGSIZE * Z.of_nat k) as -> by lia. cbn [Z.eqb negb].
    assert (Hu' : vm_upd kend new (shared (phys s) old new k) s l T s2 [] T2).
    { eapply vm_upd_weaken; [by eapply vm_upd_trans|]. intros va Hva. rewrite map_range_empty. by apply (upd_leaf _ _ _ _ _ _ _ _ _ Hu). }
    apply wp_bind. eapply (wp_share_err k s2 T2); [lia|done|]. intros s3 Hun. apply wp_ret. by eapply (Hfail k).
Qed.
End run.
End share.

(** ** Properties *)

(** C26: [copytable] makes a thread share its creator's memory.  If it returns 0, the new table translates every address of the
    creator's memory to the creator's own page, with the same flags, so both read the same bytes; no page is lost.  If
    it returns -1 memory ran out, and the pages mapped so far are on the free list although the creator's table still maps
    them.  The creator's table maps in both cases what it mapped. *)
Theorem copytable_shares (kend : Z) (s : kmem) (l : list Z) (T : tables) (old new sz : Z) :
  KERNBASE <= kend <= PHYSTOP -> vm_inv kend s l T -> is_root T old -> is_root T new -> old <> new ->
  user_mem kend (phys s) l T old sz -> (forall va, 0 <= va < PGROUNDUP sz -> leaf (phys s) new va = 0) ->
  exists r s' l' T', copytable kend old new sz s = Done r s' /\ vm_inv kend s' l' T' /\ T ⊆ T' /\
    (forall va, 0 <= va < MAXVA -> leaf (phys s') old va = leaf (phys s) old va) /\
    ((r = 0 /\ pages l' T' = pages l T /\
      forall va, 0 <= va < PGROUNDUP sz -> PTE2PA (leaf (phys s') new va) = PTE2PA (leaf (phys s) old va) /\
        PTE_FLAGS (leaf (phys s') new va) = PTE_FLAGS (leaf (phys s) old va) /\
        byte_at (phys s') new va = byte_at (phys s') old va /\ byte_at (phys s') old va = byte_at (phys s) old va) \/
     (r = -1 /\ exists k, (k < npages sz)%nat /\ l' = reverse (upages (phys s) old 0 k))).
Proof.
  intros Hk Hvm Hro Hrn Hne Hum Hno. pose proof Hum as [Hsz _ _]. destruct (size_bound sz Hsz) as (B1 & B2 & B3).
  assert (wp (copytable kend old new sz) s (fun r s' =>
    (r = 0 /\ exists l' T', vm_upd kend new (shared (phys s) old new (npages sz)) s l T s' l' T') \/
    (r = -1 /\ exists k s1 T1, (k < npages sz)%nat /\ vm_upd kend new (shared (phys s) old new k) s l T s1 [] T1 /\
       unmapped kend new (clear_range 0 (PGSIZE * Z.of_nat k) (leaf (phys s1) new)) (upages (phys s) old 0 k) s1 [] T1 s')))
    as (r & s' & Hrun & [(-> & l' & T' & Hu)|(-> & k & s1 & T1 & Hkn & Hu & Hun)]).
  { eapply (wp_copytable kend Hk s l T old new sz); eauto 15. }
  - exists 0, s', l', T'. split; [done|]. split; [apply Hu|]. split; [apply Hu|].
    split; [intros va Hva; by apply (upd_other _ _ _ _ _ _ _ _ _ Hu)|]. left. split; [done|]. split; [apply Hu|]. intros va Hva.
    destruct (user_mem_bytes kend s l T s' l' T' old sz Hum) as [_ Hb]; [intros vb Hvb; by apply (upd_other _ _ _ _ _ _ _ _ _ Hu)| |apply Hu|].
    { intros p Hp. apply elem_of_pages. rewrite <-(upd_pages _ _ _ _ _ _ _ _ _ Hu). by apply elem_of_pages. }
    destruct (Hb va Hva) as [El Eb]. destruct (va_page sz va Hsz Hva) as (j & x & Hj & Hx & E & Em & Ep).
    assert (Enew : leaf (phys s') new va = share_entry (leaf (phys s) old va)).
    { rewrite (leaf_page _ new), (leaf_page _ old), Ep by lia. by apply (shared_leaf kend s l T old new sz Hum (npages sz) j s' l' T' Hu). }
    destruct (old_page kend s l T old sz Hum j Hj) as (Hleaf & Hp & _).
    destruct (share_entry_ok kend Hk (leaf (phys s) old va)) as (E1 & E2 & _).
    { rewrite leaf_page, Ep by lia. exact Hp. }
    { rewrite leaf_page, Ep by lia. exact Hleaf. }
    rewrite Enew. split; [done|]. split; [done|]. split; [|done]. unfold byte_at. by rewrite Enew, E1, El.
  - exists (-1), s', (reverse (upages (phys s) old 0 k)), T1. split; [done|]. split; [rewrite <-(app_nil_r (reverse _)); apply Hun|]. split; [apply Hu|]. split.
    + intros va Hva. rewrite (un_other _ _ _ _ _ _ _ _ Hun); [by apply (upd_other _ _ _ _ _ _ _ _ _ Hu)|eapply is_root_mono; [apply Hu|done]|done|done].
    + right. split; [done|]. by exists k.
Qed.

Lemma copytable_shares_witness : exists s', copytable life_end life_parent life_child PGSIZE life_kmem = Done 0 s' /\
  forall va, 0 <= va < PGSIZE -> PTE2PA (leaf (phys s') life_child va) = PTE2PA (leaf (phys life_kmem) life_parent va).
Proof.
  destruct life_ok as (l & T & [H1 (H2 & H3 & H4) H5 H6 H7]).
  destruct (copytable_shares life_end life_kmem l T life_parent life_child PGSIZE life_end_ok H1 H2 H3 H4 H5) as (r & s' & l' & T' & E & _ & _ & _ & Hr).
  - intros va Hva. apply H7. assert (PGROUNDUP PGSIZE <= MAXVA) by by compute. lia.
  - assert (r = 0) as ->.
    { clear -E. apply (f_equal (fun o => match o with Done a _ => Some a | _ => None end)) in E. vm_compute in E. congruence. }
    exists s'. split; [exact E|]. destruct Hr as [(_ & _ & Hb)|[Hr _]]; [|exfalso; clear -Hr; lia]. intros va Hva. apply Hb. exact Hva.
Defined.
