(* ===== verification/ProcMem.v ===== *)
(** * The memory of a process: what freeproc and proc_freepagetable of kernel/proc.c give back *)

From S2P Require Import Prelude Params Memory Kalloc Vm VmSpec UserCopy AddressSpace VmFree VmGrow.
Import CString.

Section procmem.
Variable kend : Z.
Hypothesis kend_ok : KERNBASE <= kend <= PHYSTOP.

Lemma unmapped_refl root s l T : vm_inv kend s l T -> unmapped kend root (leaf (phys s) root) [] s l T s.
Proof using. by intros. Qed.

Lemma unmapped_trans root f g ps qs s l T s1 s2 : unmapped kend root f ps s l T s1 -> unmapped kend root g qs s1 (reverse ps ++ l) T s2 ->
  unmapped kend root g (ps ++ qs) s l T s2.
Proof using.
  intros [U1 U2 U3 U4] [V1 V2 V3 V4]. constructor.
  - by rewrite reverse_app, <-(assoc_L (++)).
  - done.
  - intros r va Hr Hne Hva. rewrite V3 by done. by apply U3.
  - intros q x HT Hq Hal Hx. apply not_elem_of_app in Hq as [Hq1 Hq2]. by rewrite (V4 q), (U4 q) by done.
Qed.

Lemma released_trans root f ps us s l T s1 s2 : unmapped kend root f ps s l T s1 -> released kend root us s1 (reverse ps ++ l) T s2 ->
  released kend root (ps ++ us) s l T s2.
Proof using.
  intros [U1 U2 U3 U4] [(l' & ts & R1 & R2 & R3) R4 R5]. constructor.
  - exists l', ts. split; [done|]. split; [done|]. rewrite R3, (reverse_Permutation ps). rewrite !(assoc_L (++)). apply Permutation_app_tail.
    rewrite (comm (++) _ ps), (assoc_L (++)). done.
  - intros r va Hr Hne Hva. rewrite R4 by done. by apply U3.
  - intros q x HT Hq Hal Hx. apply not_elem_of_app in Hq as [Hq1 Hq2]. by rewrite (R5 q), (U4 q) by done.
Qed.

(** The address space [root] of a process of size [sz], with its trap frame [tf] and the trampoline above user memory. *)
Record proc_mem (m : mem) (l : list Z) (T : tables) (root sz tf : Z) : Prop := {
  pm_root : is_root T root;
  pm_user : user_mem kend m l T root sz;
  pm_size : sz <= TRAPFRAME;
  pm_tramp : is_leaf (leaf m root TRAMPOLINE);
  pm_trap : is_leaf (leaf m root TRAPFRAME);
  pm_rest va : PGROUNDUP sz <= va < TRAPFRAME -> has (leaf m root va) PTE_V = false;
  pm_frame : page_ok kend tf /\ T !! tf = None /\ (tf ∉ l) /\ tf ∉ upages m root 0 (npages sz);
}.

(** A page that is neither free nor a table goes to the free list. *)
Lemma wp_kfree_vm s l T p (Q : unit -> kmem -> Prop) : vm_inv kend s l T -> page_ok kend p -> p ∉ l -> T !! p = None ->
  (forall s', vm_inv kend s' (p :: l) T -> same_outside p (phys s) (phys s') -> Q tt s') -> wp (kfree kend p) s Q.
Proof using kend_ok.
  intros [Hkm Hpt Hd] Hp Hl HT HQ. eapply (wp_kfree kend kend_ok); [done|done|done|]. intros s' Hkm' Hs. apply HQ; [|done].
  constructor; [done|eapply pt_inv_agree; [done|]; eapply agree_outside; [done|apply Hp|done|done]|].
  intros q Hq [->|Hin]%elem_of_cons; [rewrite HT in Hq; by destruct Hq|by apply (Hd q)].
Qed.

Lemma high_pages : 0 <= TRAPFRAME /\ TRAPFRAME + PGSIZE = TRAMPOLINE /\ TRAMPOLINE + PGSIZE = MAXVA /\ TRAPFRAME mod PGSIZE = 0 /\ TRAMPOLINE mod PGSIZE = 0.
Proof using. by vm_compute. Qed.

(** The pages of user memory stay, whatever becomes of the pages above. *)
Lemma user_mem_low m l T m' root sz tf : proc_mem m l T root sz tf ->
  (forall va, 0 <= va < TRAPFRAME -> leaf m' root va = leaf m root va) ->
  user_mem kend m' (tf :: l) T root sz /\ upages m' root 0 (npages sz) = upages m root 0 (npages sz).
Proof using.
  intros [H1 [Hsz Hleaf [Hok Hnd]] H3 H4 H5 H6 (F1 & F2 & F3 & F4)] Hl. destruct high_pages as (T1 & T2 & T3 & T4 & T5).
  pose proof (npages_stop sz Hsz) as Hstop. destruct (size_bound sz Hsz) as (B1 & B2 & B3). assert (Hlow : PGROUNDUP sz <= TRAPFRAME) by page_lia.
  destruct (upages_same m m' root 0 (npages sz)) as [Eus Eu]; [intros j Hj; apply Hl; unfold PGSIZE in *; lia|]. split; [|done].
  constructor; [done|intros k Hk; rewrite Hl by (unfold PGSIZE in *; lia); by apply Hleaf|]. constructor; rewrite Eus; [|done].
  intros p Hp. destruct (Hok p Hp) as (A1 & A2 & A3). split; [done|]. split; [done|]. intros [->|Hin]%elem_of_cons; [by apply F4|by apply A3].
Qed.

(** A page is unmapped and not given back. *)
Lemma wp_unmap_page root f ps s l T s1 va (Q : unit -> kmem -> Prop) : is_root T root -> unmapped kend root f ps s l T s1 ->
  va mod PGSIZE = 0 -> 0 <= va -> va + PGSIZE <= MAXVA -> is_leaf (f va) ->
  (forall s2, unmapped kend root (clear_range va (va + PGSIZE) f) ps s l T s2 -> Q tt s2) -> wp (uvmunmap kend root va 1 false) s1 Q.
Proof using kend_ok.
  intros Hr Hu Hal Hva Hmax Hleaf HQ.
  eapply (wp_uvmunmap kend kend_ok s1 (reverse ps ++ l) T root va 1 false); [apply Hu|done|done|done|lia| |done|].
  - intros k Hk. assert (k = 0%nat) as -> by lia. rewrite Z.mul_0_r, Z.add_0_r. rewrite (un_leaf _ _ _ _ _ _ _ _ Hu); [done|unfold PGSIZE in *; lia].
  - intros s2 Hu2. apply HQ. rewrite <-(app_nil_r ps). eapply unmapped_weaken; [by apply (unmapped_trans root _ _ ps [] s l T s1 s2 Hu Hu2)|].
    intros vb Hvb. unfold clear_range. change (Z.of_nat 1) with 1. rewrite Z.mul_1_r. case_decide; [done|]. by apply (un_leaf _ _ _ _ _ _ _ _ Hu).
Qed.

(** What [freeproc] does with the memory of a process that is no thread. *)
Lemma wp_proc_mem_free s l T root sz tf (Q : unit -> kmem -> Prop) : vm_inv kend s l T -> proc_mem (phys s) l T root sz tf ->
  (forall s', released kend root (tf :: upages (phys s) root 0 (npages sz)) s l T s' -> Q tt s') ->
  wp (kfree kend tf ;; uvmunmap kend root TRAMPOLINE 1 false ;; uvmunmap kend root TRAPFRAME 1 false ;; uvmfree kend root sz) s Q.
Proof using kend_ok.
  intros Hvm Hpm HQ. pose proof Hpm as [Hr Hum Hsz Htr Htf Hrest (F1 & F2 & F3 & F4)]. destruct high_pages as (T1 & T2 & T3 & T4 & T5).
  pose proof (um_size _ _ _ _ _ _ Hum) as Hsz0. destruct (size_bound sz Hsz0) as (B1 & B2 & B3).
  apply wp_bind. eapply (wp_kfree_page kend kend_ok root _ [] s l T s tf); [done|by apply unmapped_refl|done|done|done|].
  intros s1 Hu1 _. cbn [app] in Hu1. pose proof (un_inv _ _ _ _ _ _ _ _ Hu1) as Hvm1. change (reverse [tf] ++ l) with (tf :: l) in Hvm1.
  apply wp_bind. eapply (wp_unmap_page root _ [tf] s l T s1 TRAMPOLINE); [done|exact Hu1|done|lia|lia|done|]. intros s2 Hu2.
  apply wp_bind. eapply (wp_unmap_page root _ [tf] s l T s2 TRAPFRAME); [done|exact Hu2|done|lia|lia| |].
  { unfold clear_range. rewrite PGROUNDDOWN_aligned, decide_False by (done || unfold PGSIZE in *; lia). done. }
  intros s3 Hu3. assert (Hl3 : forall va, 0 <= va < TRAPFRAME -> leaf (phys s3) root va = leaf (phys s) root va).
  { intros va Hva. rewrite (un_leaf _ _ _ _ _ _ _ _ Hu3) by (unfold PGSIZE in *; lia). unfold clear_range. destruct (PGROUNDDOWN_bound va).
    rewrite !decide_False by (unfold PGSIZE in *; lia). done. }
  destruct (user_mem_low _ _ _ (phys s3) _ _ _ Hpm Hl3) as [Hum3 Eus].
  eapply (wp_uvmfree kend kend_ok s3 (tf :: l) T); [apply Hu3|done|done| |].
  - intros va Hva. rewrite (un_leaf _ _ _ _ _ _ _ _ Hu3) by lia. unfold clear_range. destruct (PGROUNDDOWN_bound va) as [P1 P2].
    case_decide as E1; [done|]. case_decide as E2; [done|]. apply Hrest. page_lia.
  - rewrite Eus. intros s4 Hrel. apply HQ. by apply (released_trans root _ [tf] _ s l T s3 s4 Hu3).
Qed.

(** ** A new address space *)

(** From [s], [root] was made a table of its own, with the leaves [f]; every other address space and every page in use is
    as it was. *)
Record made (root : Z) (f : Z -> Z) (s : kmem) (l : list Z) (T : tables) (s' : kmem) (l' : list Z) (T' : tables) : Prop := {
  mk_inv : vm_inv kend s' l' T';
  mk_sub : T ⊆ T';
  mk_fresh : T !! root = None;
  mk_root : is_root T' root;
  mk_pages : pages l' T' = pages l T;
  mk_leaf va : 0 <= va < MAXVA -> leaf (phys s') root va = f va;
  mk_other r va : is_root T r -> 0 <= va < MAXVA -> leaf (phys s') r va = leaf (phys s) r va;
  mk_frame q x : T !! q = None -> q ∉ l -> q mod PGSIZE = 0 -> q <= x < q + PGSIZE -> phys s' x = phys s x;
}.

(** Nothing was made: the pages that were taken are free again. *)
Record given_back (s : kmem) (l : list Z) (T : tables) (s' : kmem) (l' : list Z) (T' : tables) : Prop := {
  gb_inv : vm_inv kend s' l' T';
  gb_sub : T ⊆ T';
  gb_pages : pages l' T' = pages l T;
  gb_other r va : is_root T r -> 0 <= va < MAXVA -> leaf (phys s') r va = leaf (phys s) r va;
  gb_frame q x : T !! q = None -> q ∉ l -> q mod PGSIZE = 0 -> q <= x < q + PGSIZE -> phys s' x = phys s x;
}.

(** A page in use stays neither free nor a table. *)
Lemma pages_none l T l' T' q : pages l' T' = pages l T -> T !! q = None -> q ∉ l -> T' !! q = None /\ q ∉ l'.
Proof using.
  intros E HT Hl. assert (Hq : q ∉ pages l' T'). { rewrite E. rewrite elem_of_pages. intros [?|[? ?]]; [done|congruence]. }
  rewrite elem_of_pages in Hq. split; [|by intros ?; apply Hq; left]. apply eq_None_not_Some. intros ?. apply Hq. by right.
Qed.

Lemma made_upd root f g s l T s1 l1 T1 s2 l2 T2 : made root f s l T s1 l1 T1 -> vm_upd kend root g s1 l1 T1 s2 l2 T2 -> made root g s l T s2 l2 T2.
Proof using.
  intros [A1 A2 A3 A4 A5 A6 A7 A8] [B1 B2 B3 B4 B5 B6 B7 B8]. constructor; [done|by trans T1|done|by eapply is_root_mono|congruence|done|..].
  - intros r va Hr Hva. rewrite B7; [by apply A7|by eapply is_root_mono| |done]. intros ->. unfold is_root in Hr. congruence.
  - intros q x HT Hq Hal Hx. destruct (pages_none _ _ _ _ _ A5 HT Hq). rewrite (B8 q) by done. by apply (A8 q).
Qed.

(** The owner of a table is a root. *)
Lemma owner_root m T p r path : pt_inv kend m T -> T !! p = Some (r, path) -> is_root T r.
Proof using.
  intros Hpt. revert p. induction path as [|i path IH] using rev_ind; intros p Hp.
  - pose proof (pt_root _ _ _ Hpt _ _ Hp) as ->. done.
  - destruct (pt_parent _ _ _ Hpt _ _ _ _ Hp) as (q & Hq & _). by apply (IH q).
Qed.

Lemma made_released root f s l T s1 l1 T1 s2 : vm_inv kend s l T -> made root f s l T s1 l1 T1 -> released kend root [] s1 l1 T1 s2 ->
  exists l2 T2, given_back s l T s2 l2 T2.
Proof using kend_ok.
  intros Hvm [A1 A2 A3 A4 A5 A6 A7 A8] [(l' & ts & R1 & [R2 R3] & R4) R5 R6]. exists l', (without root T1).
  assert (Hsub : T ⊆ without root T1).
  { apply map_subseteq_spec. intros p [r path] Hp. apply without_lookup. split; [by eapply lookup_weaken|]. cbn. intros ->.
    pose proof (owner_root _ _ _ _ _ (vm_pt _ _ _ _ Hvm) Hp) as Hr. unfold is_root in Hr. congruence. }
  constructor; [done|done| | |].
  - rewrite <-A5. apply set_eq. intros q. rewrite !elem_of_pages, R4. cbn [app]. rewrite elem_of_app, R3. split.
    + intros [[[path Hq]|Hq]|[[r path] [Hq _]%without_lookup]]; [right; by eexists|by left|right; by eexists].
    + intros [Hq|[[r path] Hq]]; [left; by right|]. destruct (decide (r = root)) as [->|Hne]; [left; left; by eexists|].
      right. exists (r, path). by apply without_lookup.
  - intros r va Hr Hva. rewrite R5; [by apply A7|by eapply is_root_mono| |done]. intros ->. unfold is_root in Hr. congruence.
  - intros q x HT Hq Hal Hx. destruct (pages_none _ _ _ _ _ A5 HT Hq). rewrite (R6 q) by (done || set_solver). by apply (A8 q).
Qed.

Lemma wp_make_root s l T (Q : Z -> kmem -> Prop) : vm_inv kend s l T -> Q 0 s ->
  (forall root s' l' T', root <> 0 -> made root (fun _ => 0) s l T s' l' T' -> Q root s') -> wp uvmcreate s Q.
Proof using kend_ok.
  intros Hvm H0 HQ. eapply (wp_uvmcreate_frame kend kend_ok); [exact Hvm|]. destruct l as [|p l]; [done|].
  intros s' H1 H2 H3 H4 H5 H6. apply (HQ p s' l (<[p := (p, [])]> T)); [done|]. constructor; [done|by apply insert_subseteq|done|apply lookup_insert_eq| |by intros; apply H4|by intros; apply H5|].
  - apply pages_move.
  - intros q x HT Hq Hal Hx. apply H6. intros Hp. apply Hq. assert (q = p) as ->; [|by left].
    assert (page_ok kend p) as [Hp1 _] by (apply (pt_page _ _ _ (vm_pt _ _ _ _ H1) p p []), lookup_insert_eq). page_lia.
Qed.

(** One page at [va]. *)
Definition map_page (va e : Z) (f : Z -> Z) (vb : Z) : Z := if decide (PGROUNDDOWN vb = va) then e else f vb.

Lemma wp_map_high root f s l T s1 l1 T1 va pa perm (Q : Z -> kmem -> Prop) : made root f s l T s1 l1 T1 ->
  va mod PGSIZE = 0 -> 0 <= va -> va + PGSIZE <= MAXVA -> 0 <= pa < PHYSTOP -> 0 <= perm < 1024 ->
  (forall vb, va <= vb < va + PGSIZE -> has (f vb) PTE_V = false) ->
  (forall s2 l2 T2, made root (map_page va (Z.lor (Z.lor (PA2PTE pa) perm) PTE_V) f) s l T s2 l2 T2 -> Q 0 s2) ->
  (forall s2 l2 T2, made root f s l T s2 l2 T2 -> Q (-1) s2) ->
  wp (mappages root va PGSIZE pa perm) s1 Q.
Proof using kend_ok.
  intros Hm Hal Hva Hmax Hpa Hperm Hno HQ HQ1. assert (Hpos : PHYSTOP + PGSIZE + PGSIZE <= 2 ^ 56) by by compute.
  assert (Hl : PGROUNDDOWN (va + PGSIZE - 1) = va) by (rewrite PGROUNDDOWN_eq; page_lia). assert (Hd : PGROUNDDOWN va = va) by by apply PGROUNDDOWN_aligned.
  eapply (wp_mappages kend kend_ok s1 l1 T1 root va PGSIZE pa perm); [apply Hm|apply Hm|done|by compute|done|lia|lia|done|..].
  - rewrite Hl, Hd. intros vb Hvb. rewrite (mk_leaf _ _ _ _ _ _ _ _ Hm) by lia. by apply Hno.
  - rewrite Hl, Hd. intros s2 l2 T2 Hu. apply (HQ s2 l2 T2). eapply made_upd; [exact Hm|]. eapply vm_upd_weaken; [exact Hu|].
    intros vb Hvb. unfold map_range, map_page. destruct (PGROUNDDOWN_bound vb) as [P1 P2].
    destruct (decide (PGROUNDDOWN vb = va)) as [E|E].
    + rewrite decide_True by (unfold PGSIZE in *; lia). by rewrite E, Z.sub_diag, Z.add_0_r.
    + rewrite decide_False by page_lia. by apply (mk_leaf _ _ _ _ _ _ _ _ Hm).
  - rewrite Hl, Hd. intros s2 T2 stop Hstop _ Hu. apply (HQ1 s2 [] T2). eapply made_upd; [exact Hm|]. eapply vm_upd_weaken; [exact Hu|].
    intros vb Hvb. assert (stop = va) as -> by lia. rewrite map_range_empty. by apply (mk_leaf _ _ _ _ _ _ _ _ Hm).
Qed.

(** A space that maps nothing is given back by [uvmfree]. *)
Lemma wp_unmake root f s l T s1 l1 T1 (Q : unit -> kmem -> Prop) : vm_inv kend s l T -> made root f s l T s1 l1 T1 ->
  (forall va, 0 <= va < MAXVA -> has (f va) PTE_V = false) ->
  (forall s2 l2 T2, given_back s l T s2 l2 T2 -> Q tt s2) -> wp (uvmfree kend root 0) s1 Q.
Proof using kend_ok.
  intros Hvm Hm Hno HQ. eapply (wp_uvmfree kend kend_ok s1 l1 T1 root 0); [apply Hm|apply Hm| | |].
  - constructor; [by compute|intros k Hk; vm_compute in Hk; lia|constructor; [intros p Hp; by apply elem_of_nil in Hp|apply NoDup_nil_2]].
  - intros va Hva. change (PGROUNDUP 0) with 0 in Hva. rewrite (mk_leaf _ _ _ _ _ _ _ _ Hm) by done. by apply Hno.
  - intros s2 Hrel. change (upages (phys s1) root 0 (npages 0)) with (@nil Z) in Hrel.
    destruct (made_released _ _ _ _ _ _ _ _ _ Hvm Hm Hrel) as (l2 & T2 & Hg). by eapply HQ.
Qed.

(** ** The two pages above user memory *)

Definition tramp_entry (tramp : Z) : Z := Z.lor (Z.lor (PA2PTE tramp) (Z.lor PTE_R PTE_X)) PTE_V.
Definition frame_entry (tf : Z) : Z := Z.lor (Z.lor (PA2PTE tf) (Z.lor PTE_R PTE_W)) PTE_V.

(** The leaves of a new address space: the trampoline, and the trap frame below it. *)
Definition tramp_map (tramp : Z) : Z -> Z := map_page TRAMPOLINE (tramp_entry tramp) (fun _ => 0).
Definition high_map (tramp tf : Z) : Z -> Z := map_page TRAPFRAME (frame_entry tf) (tramp_map tramp).

Lemma entry_leaf pa perm : 0 <= pa < PHYSTOP -> pa mod PGSIZE = 0 -> 0 <= perm < 1024 -> Z.lor perm PTE_V <> PTE_V -> is_leaf (Z.lor (Z.lor (PA2PTE pa) perm) PTE_V).
Proof using.
  intros Hpa Hal Hperm Hne. assert (PHYSTOP <= 2 ^ 56) by by compute. split; [by apply has_lor|].
  rewrite <-Z.lor_assoc. destruct (pte_decode pa (Z.lor perm PTE_V)) as [_ ->]; [lia|done|apply (lor_bound _ _ 10); [lia|lia|by compute]|done].
Qed.

Lemma tramp_leaf tramp : 0 <= tramp < PHYSTOP -> tramp mod PGSIZE = 0 -> is_leaf (tramp_entry tramp).
Proof using. intros H1 H2. refine (entry_leaf tramp (Z.lor PTE_R PTE_X) H1 H2 _ _); [by compute|]. intros E. vm_compute in E. discriminate E. Qed.

Lemma frame_leaf tf : 0 <= tf < PHYSTOP -> tf mod PGSIZE = 0 -> is_leaf (frame_entry tf).
Proof using. intros H1 H2. refine (entry_leaf tf (Z.lor PTE_R PTE_W) H1 H2 _ _); [by compute|]. intros E. vm_compute in E. discriminate E. Qed.

Lemma tramp_map_high tramp va : TRAPFRAME <= va < TRAPFRAME + PGSIZE -> tramp_map tramp va = 0.
Proof using.
  intros Hva. destruct high_pages as (T1 & T2 & T3 & T4 & T5). unfold tramp_map, map_page. destruct (PGROUNDDOWN_bound va).
  rewrite decide_False; [done|]. unfold PGSIZE in *. lia.
Qed.

Lemma high_map_low tramp tf va : va < TRAPFRAME -> high_map tramp tf va = 0.
Proof using.
  intros Hva. destruct high_pages as (T1 & T2 & T3 & T4 & T5). unfold high_map, tramp_map, map_page. destruct (PGROUNDDOWN_bound va).
  rewrite !decide_False; [done|unfold PGSIZE in *; lia..].
Qed.

Lemma high_map_pages tramp tf : high_map tramp tf TRAMPOLINE = tramp_entry tramp /\ high_map tramp tf TRAPFRAME = frame_entry tf.
Proof using.
  destruct high_pages as (T1 & T2 & T3 & T4 & T5). unfold high_map, tramp_map, map_page. rewrite !PGROUNDDOWN_aligned by done.
  rewrite (decide_False (P := TRAMPOLINE = TRAPFRAME)) by (unfold PGSIZE in *; lia). by rewrite !decide_True.
Qed.

(** A new address space is the memory of a process of size 0. *)
Lemma made_proc_mem tramp tf root s l T s' l' T' : 0 <= tramp < PHYSTOP -> tramp mod PGSIZE = 0 -> page_ok kend tf -> T !! tf = None -> tf ∉ l ->
  made root (high_map tramp tf) s l T s' l' T' -> proc_mem (phys s') l' T' root 0 tf.
Proof using kend_ok.
  intros Htr Hal Htf HT Hl Hm. destruct high_pages as (T1 & T2 & T3 & T4 & T5). destruct (high_map_pages tramp tf) as [E1 E2].
  pose proof Hm as [A1 A2 A3 A4 A5 A6 A7 A8]. pose proof (page_ok_nonzero kend kend_ok _ Htf). constructor; [done| |by compute|..].
  - constructor; [by compute|intros k Hk; vm_compute in Hk; lia|constructor; [intros p Hp; by apply elem_of_nil in Hp|apply NoDup_nil_2]].
  - rewrite A6, E1 by (unfold PGSIZE in *; lia). by apply tramp_leaf.
  - rewrite A6, E2 by (unfold PGSIZE in *; lia). apply frame_leaf; [destruct Htf; lia|apply Htf].
  - intros va Hva. change (PGROUNDUP 0) with 0 in Hva. rewrite A6 by (unfold PGSIZE in *; lia). by rewrite high_map_low by lia.
  - destruct (pages_none _ _ _ _ _ A5 HT Hl). split; [done|]. split; [done|]. split; [done|]. by intros ?%elem_of_nil.
Qed.

(** The trampoline is unmapped again, and the space given back. *)
Lemma wp_unmake_tramp tramp root s l T s1 l1 T1 (Q : unit -> kmem -> Prop) : 0 <= tramp < PHYSTOP -> tramp mod PGSIZE = 0 -> vm_inv kend s l T -> made root (tramp_map tramp) s l T s1 l1 T1 ->
  (forall s2 l2 T2, given_back s l T s2 l2 T2 -> Q tt s2) -> wp (uvmunmap kend root TRAMPOLINE 1 false ;; uvmfree kend root 0) s1 Q.
Proof using kend_ok.
  intros Htr Hal Hvm Hm HQ. destruct high_pages as (T1' & T2' & T3' & T4' & T5'). pose proof Hm as [A1 A2 A3 A4 A5 A6 A7 A8].
  apply wp_bind. eapply (wp_unmap_page root _ [] s1 l1 T1 s1 TRAMPOLINE); [done|by apply unmapped_refl|done|unfold PGSIZE in *; lia|unfold PGSIZE in *; lia| |].
  { rewrite A6 by (unfold PGSIZE in *; lia). unfold tramp_map, map_page. rewrite decide_True by by apply PGROUNDDOWN_aligned. by apply tramp_leaf. }
  intros s2 Hu. eapply (wp_uvmfree kend kend_ok s2 l1 T1 root 0); [apply Hu|done| | |].
  - constructor; [by compute|intros k Hk; vm_compute in Hk; lia|constructor; [intros p Hp; by apply elem_of_nil in Hp|apply NoDup_nil_2]].
  - intros va Hva. change (PGROUNDUP 0) with 0 in Hva. rewrite (un_leaf _ _ _ _ _ _ _ _ Hu) by done. unfold clear_range.
    case_decide as E; [done|]. rewrite A6 by done. unfold tramp_map, map_page. rewrite decide_False; [done|]. unfold PGSIZE in *. lia.
  - intros s3 Hrel. change (upages (phys s2) root 0 (npages 0)) with (@nil Z) in Hrel.
    destruct (made_released _ _ _ _ _ _ _ _ s3 Hvm Hm) as (l2 & T2 & Hg); [by apply (released_trans root _ [] [] s1 l1 T1 s2 s3 Hu)|]. by eapply HQ.
Qed.

(** ** The memory a process sees *)

(** Where user code can go: the pages of user memory, and no other. *)
Lemma translate_page m l T root sz va : user_mem kend m l T root sz -> (forall vb, PGROUNDUP sz <= vb < MAXVA -> translate m root vb = 0) ->
  0 <= va -> translate m root va <> 0 -> exists j, (j < npages sz)%nat /\ PGROUNDDOWN va = PGSIZE * Z.of_nat j /\ translate m root va = upage m root 0 j.
Proof using.
  intros [Hsz Hleaf Hup] Hno Hva Htr. pose proof (translate_bound _ _ _ Htr) as Hmax.
  destruct (Z.lt_ge_cases va (PGROUNDUP sz)) as [Hlt|Hge]; [|by rewrite Hno in Htr by lia].
  destruct (va_page sz va Hsz ltac:(lia)) as (j & x & Hj & _ & _ & _ & Ej). exists j. split; [done|]. split; [done|].
  revert Htr. unfold translate, upage. rewrite leaf_page, Ej by lia. rewrite Z.add_0_l. case_match; [done|]. by case_match.
Qed.

Lemma user_mem_space m l T root sz : user_mem kend m l T root sz -> (forall vb, PGROUNDUP sz <= vb < MAXVA -> translate m root vb = 0) -> user_space m l T root.
Proof using.
  intros Hum Hno. pose proof Hum as [Hsz Hleaf [Hok Hnd]]. constructor.
  - intros va Hva Htr. destruct (translate_page m l T root sz va Hum Hno Hva Htr) as (j & Hj & _ & ->).
    assert (Hin : upage m root 0 j ∈ upages m root 0 (npages sz)) by (apply list_elem_of_fmap; exists j; split; [done|apply elem_of_seq; lia]).
    by destruct (Hok _ Hin) as (_ & ? & ?).
  - intros va vb Hva Hvb Ha Hb Htr E. destruct (translate_page m l T root sz va Hum Hno Hva Htr) as (i & Hi & Ei & Eti).
    destruct (translate_page m l T root sz vb Hum Hno Hvb ltac:(congruence)) as (j & Hj & Ej & Etj). rewrite PGROUNDDOWN_aligned in Ei, Ej by done.
    assert (i = j) as ->; [|congruence]. apply (NoDup_lookup _ i j (upage m root 0 i) Hnd); unfold upages; rewrite list_lookup_fmap, lookup_seq_lt by done; cbn; congruence.
Qed.
End procmem.
