(* ===== verification/State.v ===== *)
(** * The state of the kernel

    The C structures of kernel/proc.h, sleeplock.h, buf.h, file.h, log.c, fs.c,
    pipe.c, console.c and uart.c, as records, with a setter per field, and
    the state of the whole kernel that the operations of the later files
    transform.  A pointer into one of the kernel's static tables (proc, bcache,
    itable, ftable) is the index of the entry, [None] the null pointer; a
    pointer to an allocated page is the page's physical address, 0 the null
    pointer. *)

From S2P Require Import Prelude Params Memory Kalloc.

(** The bytes of a disk block. *)
Abbreviation block := (list Z).

Definition zero_block : block := replicate (Z.to_nat BSIZE) 0.

(** What a [void *chan] points to. *)
Inductive chan :=
| ChanProc (p : nat)          (* wait: the process itself *)
| ChanTicks                   (* &ticks *)
| ChanLog                     (* &log *)
| ChanBufLock (b : nat)       (* &b->lock *)
| ChanInodeLock (i : nat)     (* &ip->lock *)
| ChanPipeRead (pi : Z)       (* &pi->nread *)
| ChanPipeWrite (pi : Z)      (* &pi->nwrite *)
| ChanCons                    (* &cons.r *)
| ChanUart                    (* &uart_tx_r *)
| ChanDisk.                   (* &disk.free[0] *)

#[export] Instance chan_eq_dec : EqDecision chan.
Proof. solve_decision. Defined.

Inductive procstate := UNUSED | USED | SLEEPING | RUNNABLE | RUNNING | ZOMBIE.

#[export] Instance procstate_eq_dec : EqDecision procstate.
Proof. solve_decision. Defined.

(** Where [swtch] resumes a kernel thread: nowhere yet, at the start of
    [forkret], or after its own call of [swtch]. *)
Inductive kcode := NoCode | Forkret | InSwtch.

#[export] Instance kcode_eq_dec : EqDecision kcode.
Proof. solve_decision. Defined.

(** [struct context]: the return address and the stack pointer; the callee-saved
    registers belong to the suspended computation. *)
Record context := Context' {
  ctx_ra : kcode;
  ctx_sp : Z;
}.

Definition set_ctx_ra (v : kcode) (s : context) : context :=
  Context' v (ctx_sp s).
Definition set_ctx_sp (v : Z) (s : context) : context :=
  Context' (ctx_ra s) v.

(** [struct cpu], with the interrupt-enable bit of [sstatus]. *)
Record cpu := Cpu {
  c_proc : option nat;
  noff : Z;
  intena : bool;
  intr : bool;
}.

Definition set_c_proc (v : option nat) (s : cpu) : cpu :=
  Cpu v (noff s) (intena s) (intr s).
Definition set_noff (v : Z) (s : cpu) : cpu :=
  Cpu (c_proc s) v (intena s) (intr s).
Definition set_intena (v : bool) (s : cpu) : cpu :=
  Cpu (c_proc s) (noff s) v (intr s).
Definition set_intr (v : bool) (s : cpu) : cpu :=
  Cpu (c_proc s) (noff s) (intena s) v.

(** [struct proc]; [p_trapframe] is the physical address of the trapframe page,
    [p_name] the bytes of the [char] array. *)
Record proc := Proc {
  p_lock : bool;
  p_state : procstate;
  p_chan : option chan;
  p_killed : Z;
  p_xstate : Z;
  p_pid : Z;
  p_isthread : Z;
  p_fid : Z;
  p_parent : option nat;
  p_kstack : Z;
  p_sz : Z;
  p_pagetable : Z;
  p_trapframe : Z;
  p_context : context;
  p_ofile : list (option nat);
  p_cwd : option nat;
  p_name : list Z;
}.

Definition set_p_lock (v : bool) (s : proc) : proc :=
  Proc v (p_state s) (p_chan s) (p_killed s) (p_xstate s) (p_pid s) (p_isthread s)
    (p_fid s) (p_parent s) (p_kstack s) (p_sz s) (p_pagetable s) (p_trapframe s)
    (p_context s) (p_ofile s) (p_cwd s) (p_name s).
Definition set_p_state (v : procstate) (s : proc) : proc :=
  Proc (p_lock s) v (p_chan s) (p_killed s) (p_xstate s) (p_pid s) (p_isthread s)
    (p_fid s) (p_parent s) (p_kstack s) (p_sz s) (p_pagetable s) (p_trapframe s)
    (p_context s) (p_ofile s) (p_cwd s) (p_name s).
Definition set_p_chan (v : option chan) (s : proc) : proc :=
  Proc (p_lock s) (p_state s) v (p_killed s) (p_xstate s) (p_pid s) (p_isthread s)
    (p_fid s) (p_parent s) (p_kstack s) (p_sz s) (p_pagetable s) (p_trapframe s)
    (p_context s) (p_ofile s) (p_cwd s) (p_name s).
Definition set_p_killed (v : Z) (s : proc) : proc :=
  Proc (p_lock s) (p_state s) (p_chan s) v (p_xstate s) (p_pid s) (p_isthread s)
    (p_fid s) (p_parent s) (p_kstack s) (p_sz s) (p_pagetable s) (p_trapframe s)
    (p_context s) (p_ofile s) (p_cwd s) (p_name s).
Definition set_p_xstate (v : Z) (s : proc) : proc :=
  Proc (p_lock s) (p_state s) (p_chan s) (p_killed s) v (p_pid s) (p_isthread s)
    (p_fid s) (p_parent s) (p_kstack s) (p_sz s) (p_pagetable s) (p_trapframe s)
    (p_context s) (p_ofile s) (p_cwd s) (p_name s).
Definition set_p_pid (v : Z) (s : proc) : proc :=
  Proc (p_lock s) (p_state s) (p_chan s) (p_killed s) (p_xstate s) v (p_isthread
    s) (p_fid s) (p_parent s) (p_kstack s) (p_sz s) (p_pagetable s) (p_trapframe
    s) (p_context s) (p_ofile s) (p_cwd s) (p_name s).
Definition set_p_isthread (v : Z) (s : proc) : proc :=
  Proc (p_lock s) (p_state s) (p_chan s) (p_killed s) (p_xstate s) (p_pid s) v
    (p_fid s) (p_parent s) (p_kstack s) (p_sz s) (p_pagetable s) (p_trapframe s)
    (p_context s) (p_ofile s) (p_cwd s) (p_name s).
Definition set_p_fid (v : Z) (s : proc) : proc :=
  Proc (p_lock s) (p_state s) (p_chan s) (p_killed s) (p_xstate s) (p_pid s)
    (p_isthread s) v (p_parent s) (p_kstack s) (p_sz s) (p_pagetable s)
    (p_trapframe s) (p_context s) (p_ofile s) (p_cwd s) (p_name s).
Definition set_p_parent (v : option nat) (s : proc) : proc :=
  Proc (p_lock s) (p_state s) (p_chan s) (p_killed s) (p_xstate s) (p_pid s)
    (p_isthread s) (p_fid s) v (p_kstack s) (p_sz s) (p_pagetable s)
    (p_trapframe s) (p_context s) (p_ofile s) (p_cwd s) (p_name s).
Definition set_p_kstack (v : Z) (s : proc) : proc :=
  Proc (p_lock s) (p_state s) (p_chan s) (p_killed s) (p_xstate s) (p_pid s)
    (p_isthread s) (p_fid s) (p_parent s) v (p_sz s) (p_pagetable s)
    (p_trapframe s) (p_context s) (p_ofile s) (p_cwd s) (p_name s).
Definition set_p_sz (v : Z) (s : proc) : proc :=
  Proc (p_lock s) (p_state s) (p_chan s) (p_killed s) (p_xstate s) (p_pid s)
    (p_isthread s) (p_fid s) (p_parent s) (p_kstack s) v (p_pagetable s)
    (p_trapframe s) (p_context s) (p_ofile s) (p_cwd s) (p_name s).
Definition set_p_pagetable (v : Z) (s : proc) : proc :=
  Proc (p_lock s) (p_state s) (p_chan s) (p_killed s) (p_xstate s) (p_pid s)
    (p_isthread s) (p_fid s) (p_parent s) (p_kstack s) (p_sz s) v (p_trapframe
    s) (p_context s) (p_ofile s) (p_cwd s) (p_name s).
Definition set_p_trapframe (v : Z) (s : proc) : proc :=
  Proc (p_lock s) (p_state s) (p_chan s) (p_killed s) (p_xstate s) (p_pid s)
    (p_isthread s) (p_fid s) (p_parent s) (p_kstack s) (p_sz s) (p_pagetable s)
    v (p_context s) (p_ofile s) (p_cwd s) (p_name s).
Definition set_p_context (v : context) (s : proc) : proc :=
  Proc (p_lock s) (p_state s) (p_chan s) (p_killed s) (p_xstate s) (p_pid s)
    (p_isthread s) (p_fid s) (p_parent s) (p_kstack s) (p_sz s) (p_pagetable s)
    (p_trapframe s) v (p_ofile s) (p_cwd s) (p_name s).
Definition set_p_ofile (v : list (option nat)) (s : proc) : proc :=
  Proc (p_lock s) (p_state s) (p_chan s) (p_killed s) (p_xstate s) (p_pid s)
    (p_isthread s) (p_fid s) (p_parent s) (p_kstack s) (p_sz s) (p_pagetable s)
    (p_trapframe s) (p_context s) v (p_cwd s) (p_name s).
Definition set_p_cwd (v : option nat) (s : proc) : proc :=
  Proc (p_lock s) (p_state s) (p_chan s) (p_killed s) (p_xstate s) (p_pid s)
    (p_isthread s) (p_fid s) (p_parent s) (p_kstack s) (p_sz s) (p_pagetable s)
    (p_trapframe s) (p_context s) (p_ofile s) v (p_name s).
Definition set_p_name (v : list Z) (s : proc) : proc :=
  Proc (p_lock s) (p_state s) (p_chan s) (p_killed s) (p_xstate s) (p_pid s)
    (p_isthread s) (p_fid s) (p_parent s) (p_kstack s) (p_sz s) (p_pagetable s)
    (p_trapframe s) (p_context s) (p_ofile s) (p_cwd s) v.

(** The variables of kernel/proc.c. *)
Record ptable := Ptable {
  procs : list proc;
  nextpid : Z;
  pid_lock : bool;
  wait_lock : bool;
  initproc : option nat;
  threads : list (option nat);
  currId : Z;
  currFid : Z;
  families : list Z;
  running : Z;
  joined : Z;
}.

Definition set_procs (v : list proc) (s : ptable) : ptable :=
  Ptable v (nextpid s) (pid_lock s) (wait_lock s) (initproc s) (threads s) (currId
    s) (currFid s) (families s) (running s) (joined s).
Definition set_nextpid (v : Z) (s : ptable) : ptable :=
  Ptable (procs s) v (pid_lock s) (wait_lock s) (initproc s) (threads s) (currId
    s) (currFid s) (families s) (running s) (joined s).
Definition set_pid_lock (v : bool) (s : ptable) : ptable :=
  Ptable (procs s) (nextpid s) v (wait_lock s) (initproc s) (threads s) (currId s)
    (currFid s) (families s) (running s) (joined s).
Definition set_wait_lock (v : bool) (s : ptable) : ptable :=
  Ptable (procs s) (nextpid s) (pid_lock s) v (initproc s) (threads s) (currId s)
    (currFid s) (families s) (running s) (joined s).
Definition set_initproc (v : option nat) (s : ptable) : ptable :=
  Ptable (procs s) (nextpid s) (pid_lock s) (wait_lock s) v (threads s) (currId s)
    (currFid s) (families s) (running s) (joined s).
Definition set_threads (v : list (option nat)) (s : ptable) : ptable :=
  Ptable (procs s) (nextpid s) (pid_lock s) (wait_lock s) (initproc s) v (currId
    s) (currFid s) (families s) (running s) (joined s).
Definition set_currId (v : Z) (s : ptable) : ptable :=
  Ptable (procs s) (nextpid s) (pid_lock s) (wait_lock s) (initproc s) (threads s)
    v (currFid s) (families s) (running s) (joined s).
Definition set_currFid (v : Z) (s : ptable) : ptable :=
  Ptable (procs s) (nextpid s) (pid_lock s) (wait_lock s) (initproc s) (threads s)
    (currId s) v (families s) (running s) (joined s).
Definition set_families (v : list Z) (s : ptable) : ptable :=
  Ptable (procs s) (nextpid s) (pid_lock s) (wait_lock s) (initproc s) (threads s)
    (currId s) (currFid s) v (running s) (joined s).
Definition set_running (v : Z) (s : ptable) : ptable :=
  Ptable (procs s) (nextpid s) (pid_lock s) (wait_lock s) (initproc s) (threads s)
    (currId s) (currFid s) (families s) v (joined s).
Definition set_joined (v : Z) (s : ptable) : ptable :=
  Ptable (procs s) (nextpid s) (pid_lock s) (wait_lock s) (initproc s) (threads s)
    (currId s) (currFid s) (families s) (running s) v.

(** [struct sleeplock] *)
Record sleeplock := Sleeplock {
  sl_locked : bool;
  sl_lk : bool;
  sl_pid : Z;
}.

Definition set_sl_locked (v : bool) (s : sleeplock) : sleeplock :=
  Sleeplock v (sl_lk s) (sl_pid s).
Definition set_sl_lk (v : bool) (s : sleeplock) : sleeplock :=
  Sleeplock (sl_locked s) v (sl_pid s).
Definition set_sl_pid (v : Z) (s : sleeplock) : sleeplock :=
  Sleeplock (sl_locked s) (sl_lk s) v.

(** [struct buf]; [prev] and [next] are indices.  The [disk] flag belongs to the
    driver and is part of [Virtio.v]. *)
Record buf := Buf {
  b_valid : bool;
  b_dev : Z;
  b_blockno : Z;
  b_lock : sleeplock;
  b_refcnt : Z;
  b_prev : nat;
  b_next : nat;
  b_data : block;
}.

Definition set_b_valid (v : bool) (s : buf) : buf :=
  Buf v (b_dev s) (b_blockno s) (b_lock s) (b_refcnt s) (b_prev s) (b_next s)
    (b_data s).
Definition set_b_dev (v : Z) (s : buf) : buf :=
  Buf (b_valid s) v (b_blockno s) (b_lock s) (b_refcnt s) (b_prev s) (b_next s)
    (b_data s).
Definition set_b_blockno (v : Z) (s : buf) : buf :=
  Buf (b_valid s) (b_dev s) v (b_lock s) (b_refcnt s) (b_prev s) (b_next s) (b_data s).
Definition set_b_lock (v : sleeplock) (s : buf) : buf :=
  Buf (b_valid s) (b_dev s) (b_blockno s) v (b_refcnt s) (b_prev s) (b_next s)
    (b_data s).
Definition set_b_refcnt (v : Z) (s : buf) : buf :=
  Buf (b_valid s) (b_dev s) (b_blockno s) (b_lock s) v (b_prev s) (b_next s) (b_data s).
Definition set_b_prev (v : nat) (s : buf) : buf :=
  Buf (b_valid s) (b_dev s) (b_blockno s) (b_lock s) (b_refcnt s) v (b_next s)
    (b_data s).
Definition set_b_next (v : nat) (s : buf) : buf :=
  Buf (b_valid s) (b_dev s) (b_blockno s) (b_lock s) (b_refcnt s) (b_prev s) v
    (b_data s).
Definition set_b_data (v : block) (s : buf) : buf :=
  Buf (b_valid s) (b_dev s) (b_blockno s) (b_lock s) (b_refcnt s) (b_prev s)
    (b_next s) v.

(** [bcache]: the [NBUF] buffers and, last, the list head. *)
Record bcache := Bcache {
  bc_lock : bool;
  bc_buf : list buf;
}.

Definition set_bc_lock (v : bool) (s : bcache) : bcache :=
  Bcache v (bc_buf s).
Definition set_bc_buf (v : list buf) (s : bcache) : bcache :=
  Bcache (bc_lock s) v.

(** [struct log] with its [struct logheader] [lh]. *)
Record log := Log {
  log_lock : bool;
  log_start : Z;
  log_size : Z;
  log_outstanding : Z;
  log_committing : bool;
  log_dev : Z;
  lh_n : Z;
  lh_block : list Z;
}.

Definition set_log_lock (v : bool) (s : log) : log :=
  Log v (log_start s) (log_size s) (log_outstanding s) (log_committing s) (log_dev
    s) (lh_n s) (lh_block s).
Definition set_log_start (v : Z) (s : log) : log :=
  Log (log_lock s) v (log_size s) (log_outstanding s) (log_committing s) (log_dev
    s) (lh_n s) (lh_block s).
Definition set_log_size (v : Z) (s : log) : log :=
  Log (log_lock s) (log_start s) v (log_outstanding s) (log_committing s) (log_dev
    s) (lh_n s) (lh_block s).
Definition set_log_outstanding (v : Z) (s : log) : log :=
  Log (log_lock s) (log_start s) (log_size s) v (log_committing s) (log_dev s)
    (lh_n s) (lh_block s).
Definition set_log_committing (v : bool) (s : log) : log :=
  Log (log_lock s) (log_start s) (log_size s) (log_outstanding s) v (log_dev s)
    (lh_n s) (lh_block s).
Definition set_log_dev (v : Z) (s : log) : log :=
  Log (log_lock s) (log_start s) (log_size s) (log_outstanding s) (log_committing
    s) v (lh_n s) (lh_block s).
Definition set_lh_n (v : Z) (s : log) : log :=
  Log (log_lock s) (log_start s) (log_size s) (log_outstanding s) (log_committing
    s) (log_dev s) v (lh_block s).
Definition set_lh_block (v : list Z) (s : log) : log :=
  Log (log_lock s) (log_start s) (log_size s) (log_outstanding s) (log_committing
    s) (log_dev s) (lh_n s) v.

(** [struct superblock] *)
Record superblock := Superblock {
  sb_magic : Z;
  sb_size : Z;
  sb_nblocks : Z;
  sb_ninodes : Z;
  sb_nlog : Z;
  sb_logstart : Z;
  sb_inodestart : Z;
  sb_bmapstart : Z;
}.

Definition set_sb_magic (v : Z) (s : superblock) : superblock :=
  Superblock v (sb_size s) (sb_nblocks s) (sb_ninodes s) (sb_nlog s) (sb_logstart
    s) (sb_inodestart s) (sb_bmapstart s).
Definition set_sb_size (v : Z) (s : superblock) : superblock :=
  Superblock (sb_magic s) v (sb_nblocks s) (sb_ninodes s) (sb_nlog s) (sb_logstart
    s) (sb_inodestart s) (sb_bmapstart s).
Definition set_sb_nblocks (v : Z) (s : superblock) : superblock :=
  Superblock (sb_magic s) (sb_size s) v (sb_ninodes s) (sb_nlog s) (sb_logstart s)
    (sb_inodestart s) (sb_bmapstart s).
Definition set_sb_ninodes (v : Z) (s : superblock) : superblock :=
  Superblock (sb_magic s) (sb_size s) (sb_nblocks s) v (sb_nlog s) (sb_logstart s)
    (sb_inodestart s) (sb_bmapstart s).
Definition set_sb_nlog (v : Z) (s : superblock) : superblock :=
  Superblock (sb_magic s) (sb_size s) (sb_nblocks s) (sb_ninodes s) v (sb_logstart
    s) (sb_inodestart s) (sb_bmapstart s).
Definition set_sb_logstart (v : Z) (s : superblock) : superblock :=
  Superblock (sb_magic s) (sb_size s) (sb_nblocks s) (sb_ninodes s) (sb_nlog s) v
    (sb_inodestart s) (sb_bmapstart s).
Definition set_sb_inodestart (v : Z) (s : superblock) : superblock :=
  Superblock (sb_magic s) (sb_size s) (sb_nblocks s) (sb_ninodes s) (sb_nlog s)
    (sb_logstart s) v (sb_bmapstart s).
Definition set_sb_bmapstart (v : Z) (s : superblock) : superblock :=
  Superblock (sb_magic s) (sb_size s) (sb_nblocks s) (sb_ninodes s) (sb_nlog s)
    (sb_logstart s) (sb_inodestart s) v.

(** [struct inode] *)
Record inode := Inode {
  i_dev : Z;
  i_inum : Z;
  i_ref : Z;
  i_lock : sleeplock;
  i_valid : bool;
  i_type : Z;
  i_major : Z;
  i_minor : Z;
  i_nlink : Z;
  i_size : Z;
  i_addrs : list Z;
}.

Definition set_i_dev (v : Z) (s : inode) : inode :=
  Inode v (i_inum s) (i_ref s) (i_lock s) (i_valid s) (i_type s) (i_major s)
    (i_minor s) (i_nlink s) (i_size s) (i_addrs s).
Definition set_i_inum (v : Z) (s : inode) : inode :=
  Inode (i_dev s) v (i_ref s) (i_lock s) (i_valid s) (i_type s) (i_major s)
    (i_minor s) (i_nlink s) (i_size s) (i_addrs s).
Definition set_i_ref (v : Z) (s : inode) : inode :=
  Inode (i_dev s) (i_inum s) v (i_lock s) (i_valid s) (i_type s) (i_major s)
    (i_minor s) (i_nlink s) (i_size s) (i_addrs s).
Definition set_i_lock (v : sleeplock) (s : inode) : inode :=
  Inode (i_dev s) (i_inum s) (i_ref s) v (i_valid s) (i_type s) (i_major s)
    (i_minor s) (i_nlink s) (i_size s) (i_addrs s).
Definition set_i_valid (v : bool) (s : inode) : inode :=
  Inode (i_dev s) (i_inum s) (i_ref s) (i_lock s) v (i_type s) (i_major s)
    (i_minor s) (i_nlink s) (i_size s) (i_addrs s).
Definition set_i_type (v : Z) (s : inode) : inode :=
  Inode (i_dev s) (i_inum s) (i_ref s) (i_lock s) (i_valid s) v (i_major s)
    (i_minor s) (i_nlink s) (i_size s) (i_addrs s).
Definition set_i_major (v : Z) (s : inode) : inode :=
  Inode (i_dev s) (i_inum s) (i_ref s) (i_lock s) (i_valid s) (i_type s) v
    (i_minor s) (i_nlink s) (i_size s) (i_addrs s).
Definition set_i_minor (v : Z) (s : inode) : inode :=
  Inode (i_dev s) (i_inum s) (i_ref s) (i_lock s) (i_valid s) (i_type s) (i_major
    s) v (i_nlink s) (i_size s) (i_addrs s).
Definition set_i_nlink (v : Z) (s : inode) : inode :=
  Inode (i_dev s) (i_inum s) (i_ref s) (i_lock s) (i_valid s) (i_type s) (i_major
    s) (i_minor s) v (i_size s) (i_addrs s).
Definition set_i_size (v : Z) (s : inode) : inode :=
  Inode (i_dev s) (i_inum s) (i_ref s) (i_lock s) (i_valid s) (i_type s) (i_major
    s) (i_minor s) (i_nlink s) v (i_addrs s).
Definition set_i_addrs (v : list Z) (s : inode) : inode :=
  Inode (i_dev s) (i_inum s) (i_ref s) (i_lock s) (i_valid s) (i_type s) (i_major
    s) (i_minor s) (i_nlink s) (i_size s) v.

(** [itable] *)
Record itable := Itable {
  it_lock : bool;
  it_inode : list inode;
}.

Definition set_it_lock (v : bool) (s : itable) : itable :=
  Itable v (it_inode s).
Definition set_it_inode (v : list inode) (s : itable) : itable :=
  Itable (it_lock s) v.

Inductive fdtype := FD_NONE | FD_PIPE | FD_INODE | FD_DEVICE.

#[export] Instance fdtype_eq_dec : EqDecision fdtype.
Proof. solve_decision. Defined.

(** [struct file] *)
Record file := File {
  f_type : fdtype;
  f_ref : Z;
  f_readable : bool;
  f_writable : bool;
  f_pipe : Z;
  f_ip : option nat;
  f_off : Z;
  f_major : Z;
}.

Definition set_f_type (v : fdtype) (s : file) : file :=
  File v (f_ref s) (f_readable s) (f_writable s) (f_pipe s) (f_ip s) (f_off s)
    (f_major s).
Definition set_f_ref (v : Z) (s : file) : file :=
  File (f_type s) v (f_readable s) (f_writable s) (f_pipe s) (f_ip s) (f_off s)
    (f_major s).
Definition set_f_readable (v : bool) (s : file) : file :=
  File (f_type s) (f_ref s) v (f_writable s) (f_pipe s) (f_ip s) (f_off s) (f_major s).
Definition set_f_writable (v : bool) (s : file) : file :=
  File (f_type s) (f_ref s) (f_readable s) v (f_pipe s) (f_ip s) (f_off s) (f_major s).
Definition set_f_pipe (v : Z) (s : file) : file :=
  File (f_type s) (f_ref s) (f_readable s) (f_writable s) v (f_ip s) (f_off s)
    (f_major s).
Definition set_f_ip (v : option nat) (s : file) : file :=
  File (f_type s) (f_ref s) (f_readable s) (f_writable s) (f_pipe s) v (f_off s)
    (f_major s).
Definition set_f_off (v : Z) (s : file) : file :=
  File (f_type s) (f_ref s) (f_readable s) (f_writable s) (f_pipe s) (f_ip s) v
    (f_major s).
Definition set_f_major (v : Z) (s : file) : file :=
  File (f_type s) (f_ref s) (f_readable s) (f_writable s) (f_pipe s) (f_ip s)
    (f_off s) v.

(** [ftable] *)
Record ftable := Ftable {
  ft_lock : bool;
  ft_file : list file;
}.

Definition set_ft_lock (v : bool) (s : ftable) : ftable :=
  Ftable v (ft_file s).
Definition set_ft_file (v : list file) (s : ftable) : ftable :=
  Ftable (ft_lock s) v.

(** [struct pipe]; it lives in a page of its own. *)
Record pipe := Pipe {
  pi_lock : bool;
  pi_data : list Z;
  pi_nread : Z;
  pi_nwrite : Z;
  pi_readopen : bool;
  pi_writeopen : bool;
}.

Definition set_pi_lock (v : bool) (s : pipe) : pipe :=
  Pipe v (pi_data s) (pi_nread s) (pi_nwrite s) (pi_readopen s) (pi_writeopen s).
Definition set_pi_data (v : list Z) (s : pipe) : pipe :=
  Pipe (pi_lock s) v (pi_nread s) (pi_nwrite s) (pi_readopen s) (pi_writeopen s).
Definition set_pi_nread (v : Z) (s : pipe) : pipe :=
  Pipe (pi_lock s) (pi_data s) v (pi_nwrite s) (pi_readopen s) (pi_writeopen s).
Definition set_pi_nwrite (v : Z) (s : pipe) : pipe :=
  Pipe (pi_lock s) (pi_data s) (pi_nread s) v (pi_readopen s) (pi_writeopen s).
Definition set_pi_readopen (v : bool) (s : pipe) : pipe :=
  Pipe (pi_lock s) (pi_data s) (pi_nread s) (pi_nwrite s) v (pi_writeopen s).
Definition set_pi_writeopen (v : bool) (s : pipe) : pipe :=
  Pipe (pi_lock s) (pi_data s) (pi_nread s) (pi_nwrite s) (pi_readopen s) v.

(** [cons], the line editor of kernel/console.c. *)
Record cons := Cons {
  cons_lock : bool;
  cons_buf : list Z;
  cons_r : Z;
  cons_w : Z;
  cons_e : Z;
}.

Definition set_cons_lock (v : bool) (s : cons) : cons :=
  Cons v (cons_buf s) (cons_r s) (cons_w s) (cons_e s).
Definition set_cons_buf (v : list Z) (s : cons) : cons :=
  Cons (cons_lock s) v (cons_r s) (cons_w s) (cons_e s).
Definition set_cons_r (v : Z) (s : cons) : cons :=
  Cons (cons_lock s) (cons_buf s) v (cons_w s) (cons_e s).
Definition set_cons_w (v : Z) (s : cons) : cons :=
  Cons (cons_lock s) (cons_buf s) (cons_r s) v (cons_e s).
Definition set_cons_e (v : Z) (s : cons) : cons :=
  Cons (cons_lock s) (cons_buf s) (cons_r s) (cons_w s) v.

(** The transmit ring of kernel/uart.c and the device: how many more reads of LSR
    find the transmitter busy, the bytes written to THR so far, the bytes
    waiting in RHR, and the writes to the control registers. *)
Record uart := Uart {
  uart_tx_lock : bool;
  uart_tx_buf : list Z;
  uart_tx_w : Z;
  uart_tx_r : Z;
  uart_busy : nat;
  uart_sent : list Z;
  uart_rx : list Z;
  uart_conf : list (Z * Z);
}.

Definition set_uart_tx_lock (v : bool) (s : uart) : uart :=
  Uart v (uart_tx_buf s) (uart_tx_w s) (uart_tx_r s) (uart_busy s) (uart_sent s)
    (uart_rx s) (uart_conf s).
Definition set_uart_tx_buf (v : list Z) (s : uart) : uart :=
  Uart (uart_tx_lock s) v (uart_tx_w s) (uart_tx_r s) (uart_busy s) (uart_sent s)
    (uart_rx s) (uart_conf s).
Definition set_uart_tx_w (v : Z) (s : uart) : uart :=
  Uart (uart_tx_lock s) (uart_tx_buf s) v (uart_tx_r s) (uart_busy s) (uart_sent
    s) (uart_rx s) (uart_conf s).
Definition set_uart_tx_r (v : Z) (s : uart) : uart :=
  Uart (uart_tx_lock s) (uart_tx_buf s) (uart_tx_w s) v (uart_busy s) (uart_sent
    s) (uart_rx s) (uart_conf s).
Definition set_uart_busy (v : nat) (s : uart) : uart :=
  Uart (uart_tx_lock s) (uart_tx_buf s) (uart_tx_w s) (uart_tx_r s) v (uart_sent
    s) (uart_rx s) (uart_conf s).
Definition set_uart_sent (v : list Z) (s : uart) : uart :=
  Uart (uart_tx_lock s) (uart_tx_buf s) (uart_tx_w s) (uart_tx_r s) (uart_busy s)
    v (uart_rx s) (uart_conf s).
Definition set_uart_rx (v : list Z) (s : uart) : uart :=
  Uart (uart_tx_lock s) (uart_tx_buf s) (uart_tx_w s) (uart_tx_r s) (uart_busy s)
    (uart_sent s) v (uart_conf s).
Definition set_uart_conf (v : list (Z * Z)) (s : uart) : uart :=
  Uart (uart_tx_lock s) (uart_tx_buf s) (uart_tx_w s) (uart_tx_r s) (uart_busy s)
    (uart_sent s) (uart_rx s) v.

(** [pr], the lock of kernel/printf.c.  [panicked] is not a variable of the
    model: a path that panics ends. *)
Record pr := Pr {
  pr_lock : bool;
  pr_locking : bool;
}.

Definition set_pr_lock (v : bool) (s : pr) : pr :=
  Pr v (pr_locking s).
Definition set_pr_locking (v : bool) (s : pr) : pr :=
  Pr (pr_lock s) v.

(** The control registers the trap code uses, the interrupt the PLIC hands out
    next and the ones it was told are complete, and the writes to its configuration
    registers.  [sstatus.SIE] is [intr]. *)
Record csr := Csr {
  sepc : Z;
  scause : Z;
  stval : Z;
  sstatus_SPP : bool;
  sstatus_SPIE : bool;
  stvec : Z;
  satp : Z;
  sip : Z;
  plic_irq : Z;
  plic_done : list Z;
  plic_conf : list (Z * Z);
}.

Definition set_sepc (v : Z) (s : csr) : csr :=
  Csr v (scause s) (stval s) (sstatus_SPP s) (sstatus_SPIE s) (stvec s) (satp s)
    (sip s) (plic_irq s) (plic_done s) (plic_conf s).
Definition set_scause (v : Z) (s : csr) : csr :=
  Csr (sepc s) v (stval s) (sstatus_SPP s) (sstatus_SPIE s) (stvec s) (satp s)
    (sip s) (plic_irq s) (plic_done s) (plic_conf s).
Definition set_stval (v : Z) (s : csr) : csr :=
  Csr (sepc s) (scause s) v (sstatus_SPP s) (sstatus_SPIE s) (stvec s) (satp s)
    (sip s) (plic_irq s) (plic_done s) (plic_conf s).
Definition set_sstatus_SPP (v : bool) (s : csr) : csr :=
  Csr (sepc s) (scause s) (stval s) v (sstatus_SPIE s) (stvec s) (satp s) (sip s)
    (plic_irq s) (plic_done s) (plic_conf s).
Definition set_sstatus_SPIE (v : bool) (s : csr) : csr :=
  Csr (sepc s) (scause s) (stval s) (sstatus_SPP s) v (stvec s) (satp s) (sip s)
    (plic_irq s) (plic_done s) (plic_conf s).
Definition set_stvec (v : Z) (s : csr) : csr :=
  Csr (sepc s) (scause s) (stval s) (sstatus_SPP s) (sstatus_SPIE s) v (satp s)
    (sip s) (plic_irq s) (plic_done s) (plic_conf s).
Definition set_satp (v : Z) (s : csr) : csr :=
  Csr (sepc s) (scause s) (stval s) (sstatus_SPP s) (sstatus_SPIE s) (stvec s) v
    (sip s) (plic_irq s) (plic_done s) (plic_conf s).
Definition set_sip (v : Z) (s : csr) : csr :=
  Csr (sepc s) (scause s) (stval s) (sstatus_SPP s) (sstatus_SPIE s) (stvec s)
    (satp s) v (plic_irq s) (plic_done s) (plic_conf s).
Definition set_plic_irq (v : Z) (s : csr) : csr :=
  Csr (sepc s) (scause s) (stval s) (sstatus_SPP s) (sstatus_SPIE s) (stvec s)
    (satp s) (sip s) v (plic_done s) (plic_conf s).
Definition set_plic_done (v : list Z) (s : csr) : csr :=
  Csr (sepc s) (scause s) (stval s) (sstatus_SPP s) (sstatus_SPIE s) (stvec s)
    (satp s) (sip s) (plic_irq s) v (plic_conf s).
Definition set_plic_conf (v : list (Z * Z)) (s : csr) : csr :=
  Csr (sepc s) (scause s) (stval s) (sstatus_SPP s) (sstatus_SPIE s) (stvec s)
    (satp s) (sip s) (plic_irq s) (plic_done s) v.

(** The kernel as seen by the processor that runs it, with the disk it drives;
    [k_writes] is the history of the blocks written to the disk, oldest first. *)
Record kernel := Kernel {
  k_mem : kmem;
  k_cpu : cpu;
  k_pt : ptable;
  k_tickslock : bool;
  k_ticks : Z;
  k_disk : gmap Z block;
  k_writes : list (Z * block);
  k_bc : bcache;
  k_log : log;
  k_sb : superblock;
  k_it : itable;
  k_ft : ftable;
  k_pipes : gmap Z pipe;
  k_cons : cons;
  k_uart : uart;
  k_pr : pr;
  k_first : bool;
  k_csr : csr;
}.

Definition set_k_mem (v : kmem) (s : kernel) : kernel :=
  Kernel v (k_cpu s) (k_pt s) (k_tickslock s) (k_ticks s) (k_disk s) (k_writes s)
    (k_bc s) (k_log s) (k_sb s) (k_it s) (k_ft s) (k_pipes s) (k_cons s) (k_uart
    s) (k_pr s) (k_first s) (k_csr s).
Definition set_k_cpu (v : cpu) (s : kernel) : kernel :=
  Kernel (k_mem s) v (k_pt s) (k_tickslock s) (k_ticks s) (k_disk s) (k_writes s)
    (k_bc s) (k_log s) (k_sb s) (k_it s) (k_ft s) (k_pipes s) (k_cons s) (k_uart
    s) (k_pr s) (k_first s) (k_csr s).
Definition set_k_pt (v : ptable) (s : kernel) : kernel :=
  Kernel (k_mem s) (k_cpu s) v (k_tickslock s) (k_ticks s) (k_disk s) (k_writes s)
    (k_bc s) (k_log s) (k_sb s) (k_it s) (k_ft s) (k_pipes s) (k_cons s) (k_uart
    s) (k_pr s) (k_first s) (k_csr s).
Definition set_k_tickslock (v : bool) (s : kernel) : kernel :=
  Kernel (k_mem s) (k_cpu s) (k_pt s) v (k_ticks s) (k_disk s) (k_writes s) (k_bc
    s) (k_log s) (k_sb s) (k_it s) (k_ft s) (k_pipes s) (k_cons s) (k_uart s)
    (k_pr s) (k_first s) (k_csr s).
Definition set_k_ticks (v : Z) (s : kernel) : kernel :=
  Kernel (k_mem s) (k_cpu s) (k_pt s) (k_tickslock s) v (k_disk s) (k_writes s)
    (k_bc s) (k_log s) (k_sb s) (k_it s) (k_ft s) (k_pipes s) (k_cons s) (k_uart
    s) (k_pr s) (k_first s) (k_csr s).
Definition set_k_disk (v : gmap Z block) (s : kernel) : kernel :=
  Kernel (k_mem s) (k_cpu s) (k_pt s) (k_tickslock s) (k_ticks s) v (k_writes s)
    (k_bc s) (k_log s) (k_sb s) (k_it s) (k_ft s) (k_pipes s) (k_cons s) (k_uart
    s) (k_pr s) (k_first s) (k_csr s).
Definition set_k_writes (v : list (Z * block)) (s : kernel) : kernel :=
  Kernel (k_mem s) (k_cpu s) (k_pt s) (k_tickslock s) (k_ticks s) (k_disk s) v
    (k_bc s) (k_log s) (k_sb s) (k_it s) (k_ft s) (k_pipes s) (k_cons s) (k_uart
    s) (k_pr s) (k_first s) (k_csr s).
Definition set_k_bc (v : bcache) (s : kernel) : kernel :=
  Kernel (k_mem s) (k_cpu s) (k_pt s) (k_tickslock s) (k_ticks s) (k_disk s)
    (k_writes s) v (k_log s) (k_sb s) (k_it s) (k_ft s) (k_pipes s) (k_cons s)
    (k_uart s) (k_pr s) (k_first s) (k_csr s).
Definition set_k_log (v : log) (s : kernel) : kernel :=
  Kernel (k_mem s) (k_cpu s) (k_pt s) (k_tickslock s) (k_ticks s) (k_disk s)
    (k_writes s) (k_bc s) v (k_sb s) (k_it s) (k_ft s) (k_pipes s) (k_cons s)
    (k_uart s) (k_pr s) (k_first s) (k_csr s).
Definition set_k_sb (v : superblock) (s : kernel) : kernel :=
  Kernel (k_mem s) (k_cpu s) (k_pt s) (k_tickslock s) (k_ticks s) (k_disk s)
    (k_writes s) (k_bc s) (k_log s) v (k_it s) (k_ft s) (k_pipes s) (k_cons s)
    (k_uart s) (k_pr s) (k_first s) (k_csr s).
Definition set_k_it (v : itable) (s : kernel) : kernel :=
  Kernel (k_mem s) (k_cpu s) (k_pt s) (k_tickslock s) (k_ticks s) (k_disk s)
    (k_writes s) (k_bc s) (k_log s) (k_sb s) v (k_ft s) (k_pipes s) (k_cons s)
    (k_uart s) (k_pr s) (k_first s) (k_csr s).
Definition set_k_ft (v : ftable) (s : kernel) : kernel :=
  Kernel (k_mem s) (k_cpu s) (k_pt s) (k_tickslock s) (k_ticks s) (k_disk s)
    (k_writes s) (k_bc s) (k_log s) (k_sb s) (k_it s) v (k_pipes s) (k_cons s)
    (k_uart s) (k_pr s) (k_first s) (k_csr s).
Definition set_k_pipes (v : gmap Z pipe) (s : kernel) : kernel :=
  Kernel (k_mem s) (k_cpu s) (k_pt s) (k_tickslock s) (k_ticks s) (k_disk s)
    (k_writes s) (k_bc s) (k_log s) (k_sb s) (k_it s) (k_ft s) v (k_cons s)
    (k_uart s) (k_pr s) (k_first s) (k_csr s).
Definition set_k_cons (v : cons) (s : kernel) : kernel :=
  Kernel (k_mem s) (k_cpu s) (k_pt s) (k_tickslock s) (k_ticks s) (k_disk s)
    (k_writes s) (k_bc s) (k_log s) (k_sb s) (k_it s) (k_ft s) (k_pipes s) v
    (k_uart s) (k_pr s) (k_first s) (k_csr s).
Definition set_k_uart (v : uart) (s : kernel) : kernel :=
  Kernel (k_mem s) (k_cpu s) (k_pt s) (k_tickslock s) (k_ticks s) (k_disk s)
    (k_writes s) (k_bc s) (k_log s) (k_sb s) (k_it s) (k_ft s) (k_pipes s)
    (k_cons s) v (k_pr s) (k_first s) (k_csr s).
Definition set_k_pr (v : pr) (s : kernel) : kernel :=
  Kernel (k_mem s) (k_cpu s) (k_pt s) (k_tickslock s) (k_ticks s) (k_disk s)
    (k_writes s) (k_bc s) (k_log s) (k_sb s) (k_it s) (k_ft s) (k_pipes s)
    (k_cons s) (k_uart s) v (k_first s) (k_csr s).
Definition set_k_first (v : bool) (s : kernel) : kernel :=
  Kernel (k_mem s) (k_cpu s) (k_pt s) (k_tickslock s) (k_ticks s) (k_disk s)
    (k_writes s) (k_bc s) (k_log s) (k_sb s) (k_it s) (k_ft s) (k_pipes s)
    (k_cons s) (k_uart s) (k_pr s) v (k_csr s).
Definition set_k_csr (v : csr) (s : kernel) : kernel :=
  Kernel (k_mem s) (k_cpu s) (k_pt s) (k_tickslock s) (k_ticks s) (k_disk s)
    (k_writes s) (k_bc s) (k_log s) (k_sb s) (k_it s) (k_ft s) (k_pipes s)
    (k_cons s) (k_uart s) (k_pr s) (k_first s) v.

Abbreviation K := (M kernel).

(** ** Access paths *)

Definition lcomp {S T U} (l : lens S T) (r : lens T U) : lens S U :=
  Lens (fun s => view r (view l s)) (fun u s => update l (update r u (view l s)) s).

Infix "∘l" := lcomp (at level 40, left associativity) : kernel_scope.

(** [table[i]] for an index in range; a write out of range does nothing,
    and no pointer of the kernel is out of range. *)
Definition nthL {A} `{Inhabited A} (i : nat) : lens (list A) A :=
  Lens (fun l => l !!! i) (fun a l => <[i := a]> l).

Definition memL : lens kernel kmem := Lens k_mem set_k_mem.
Definition cpuL : lens kernel cpu := Lens k_cpu set_k_cpu.
Definition ptL : lens kernel ptable := Lens k_pt set_k_pt.
Definition tickslockL : lens kernel bool := Lens k_tickslock set_k_tickslock.
Definition ticksL : lens kernel Z := Lens k_ticks set_k_ticks.
Definition diskL : lens kernel (gmap Z block) := Lens k_disk set_k_disk.
Definition writesL : lens kernel (list (Z * block)) := Lens k_writes set_k_writes.
Definition bcL : lens kernel bcache := Lens k_bc set_k_bc.
Definition logL : lens kernel log := Lens k_log set_k_log.
Definition sbL : lens kernel superblock := Lens k_sb set_k_sb.
Definition itL : lens kernel itable := Lens k_it set_k_it.
Definition ftL : lens kernel ftable := Lens k_ft set_k_ft.
Definition pipesL : lens kernel (gmap Z pipe) := Lens k_pipes set_k_pipes.
Definition consL : lens kernel cons := Lens k_cons set_k_cons.
Definition uartL : lens kernel uart := Lens k_uart set_k_uart.
Definition prL : lens kernel pr := Lens k_pr set_k_pr.
Definition firstL : lens kernel bool := Lens k_first set_k_first.
Definition csrL : lens kernel csr := Lens k_csr set_k_csr.

#[export] Instance context_inhabited : Inhabited context :=
  populate (Context' NoCode 0).

(** A zeroed table entry: the static tables start in .bss. *)
Definition proc0 : proc :=
  Proc false UNUSED None 0 0 0 0 0 None 0 0 0 0 (Context' NoCode 0)
    (replicate (Z.to_nat NOFILE) None) None (replicate 16 0).
Definition sleeplock0 : sleeplock := Sleeplock false false 0.
Definition buf0 : buf := Buf false 0 0 sleeplock0 0 0 0 zero_block.
Definition inode0 : inode :=
  Inode 0 0 0 sleeplock0 false 0 0 0 0 0 (replicate (Z.to_nat (NDIRECT + 1)) 0).
Definition file0 : file := File FD_NONE 0 false false 0 None 0 0.
Definition pipe0 : pipe := Pipe false [] 0 0 false false.

#[export] Instance proc_inhabited : Inhabited proc := populate proc0.
#[export] Instance buf_inhabited : Inhabited buf := populate buf0.
#[export] Instance inode_inhabited : Inhabited inode := populate inode0.
#[export] Instance file_inhabited : Inhabited file := populate file0.
#[export] Instance pipe_inhabited : Inhabited pipe := populate pipe0.

Definition procL (i : nat) : lens kernel proc :=
  ptL ∘l Lens procs set_procs ∘l nthL i.
Definition bufL (i : nat) : lens kernel buf :=
  bcL ∘l Lens bc_buf set_bc_buf ∘l nthL i.
Definition inodeL (i : nat) : lens kernel inode :=
  itL ∘l Lens it_inode set_it_inode ∘l nthL i.
Definition fileL (i : nat) : lens kernel file :=
  ftL ∘l Lens ft_file set_ft_file ∘l nthL i.
Definition pipeL (pi : Z) : lens kernel pipe :=
  pipesL ∘l Lens (fun m => m !!! pi) (fun p m => <[pi := p]> m).

(** Reading and assigning through an access path. *)
Definition getf {S T A} (l : lens S T) (f : T -> A) : M S A :=
  gets (fun s => f (view l s)).
Definition setf {S T} (l : lens S T) (f : T -> T) : M S unit :=
  modify (fun s => update l (f (view l s)) s).

(** The locks. *)
Definition p_lockL (i : nat) : lens kernel bool := procL i ∘l Lens p_lock set_p_lock.
Definition pid_lockL : lens kernel bool := ptL ∘l Lens pid_lock set_pid_lock.
Definition wait_lockL : lens kernel bool := ptL ∘l Lens wait_lock set_wait_lock.
Definition bc_lockL : lens kernel bool := bcL ∘l Lens bc_lock set_bc_lock.
Definition log_lockL : lens kernel bool := logL ∘l Lens log_lock set_log_lock.
Definition it_lockL : lens kernel bool := itL ∘l Lens it_lock set_it_lock.
Definition ft_lockL : lens kernel bool := ftL ∘l Lens ft_lock set_ft_lock.
Definition pi_lockL (pi : Z) : lens kernel bool := pipeL pi ∘l Lens pi_lock set_pi_lock.
Definition cons_lockL : lens kernel bool := consL ∘l Lens cons_lock set_cons_lock.
Definition uart_lockL : lens kernel bool := uartL ∘l Lens uart_tx_lock set_uart_tx_lock.
Definition pr_lockL : lens kernel bool := prL ∘l Lens pr_lock set_pr_lock.
Definition b_lockL (i : nat) : lens kernel sleeplock := bufL i ∘l Lens b_lock set_b_lock.
Definition i_lockL (i : nat) : lens kernel sleeplock := inodeL i ∘l Lens i_lock set_i_lock.

(** How often a path that waits in a loop around [sleep] may be woken in
    vain, and how many rounds a search over unbounded data may take. *)
Class Fuel := fuel : nat.

(** How many reads of the UART's line status register find the transmitter
    busy after its [n]-th byte. *)
Class UartHw := tx_time : nat -> nat.

(** The linker's symbols and the addresses it gives to the code. *)
Class Image := {
  img_end : Z;
  img_etext : Z;
  img_trampoline : Z;
  img_uservec : Z;
  img_userret : Z;
  img_usertrap : Z;
  img_kernelvec : Z;
}.

Class ImageOk `{Image} : Prop := {
  img_end_ok : KERNBASE <= img_end <= PHYSTOP;
}.

(** The kernel as the loader leaves it: everything in .bss is zero, except
    for [nextpid] and [first], and the disk is blank. *)
Definition kernel0 : kernel :=
  Kernel (Kmem false 0 (fun _ => 0))
    (Cpu None 0 false false)
    (Ptable (replicate (Z.to_nat NPROC) proc0) 1 false false None
       (replicate 1024 None) 0 0 (replicate 1024 0) 0 0)
    false 0 ∅ []
    (Bcache false (replicate (S (Z.to_nat NBUF)) buf0))
    (Log false 0 0 0 false 0 0 (replicate (Z.to_nat LOGSIZE) 0))
    (Superblock 0 0 0 0 0 0 0 0)
    (Itable false (replicate (Z.to_nat NINODE) inode0))
    (Ftable false (replicate (Z.to_nat NFILE) file0))
    ∅
    (Cons false (replicate 128 0) 0 0 0)
    (Uart false (replicate 32 0) 0 0 0 [] [] [])
    (Pr false false)
    true
    (Csr 0 0 0 false false 0 0 0 0 [] []).
