(* ===== verification/Sched.v ===== *)
(** * Locks, context switches, sleep and wakeup

    kernel/spinlock.c and the scheduling half of kernel/proc.c, on the state
    of one processor.  [sched] hands the processor over: its outcome is a
    [Switch] whose continuation runs when [scheduler] picks the process
    again.  Paths of different processes interleave exactly there. *)

From S2P Require Import Prelude Params Memory Kalloc State.

(** ** kernel/spinlock.c *)

Definition cpu_get {A} (f : cpu -> A) : K A := getf cpuL f.
Definition cpu_set (f : cpu -> cpu) : K unit := setf cpuL f.

Definition intr_get : K bool := cpu_get intr.
Definition intr_off : K unit := cpu_set (set_intr false).
Definition intr_on : K unit := cpu_set (set_intr true).

Definition push_off : K unit :=
  old <- intr_get ;;
  intr_off ;;
  n <- cpu_get noff ;;
  when (n =? 0) (cpu_set (set_intena old)) ;;
  cpu_set (fun c => set_noff (noff c + 1) c).

Definition pop_off : K unit :=
  i <- intr_get ;;
  panic_if i "pop_off - interruptible" ;;
  n <- cpu_get noff ;;
  panic_if (n <? 1) "pop_off" ;;
  cpu_set (fun c => set_noff (noff c - 1) c) ;;
  n <- cpu_get noff ;;
  e <- cpu_get intena ;;
  when ((n =? 0) && e) intr_on.

Definition initlock (lk : lens kernel bool) : K unit := modify (update lk false).

(** With one processor a lock that is held is held by this one. *)
Definition holding (lk : lens kernel bool) : K bool := gets (view lk).

Definition acquire (lk : lens kernel bool) : K unit :=
  push_off ;;
  h <- holding lk ;;
  panic_if h "acquire" ;;
  modify (update lk true).

Definition release (lk : lens kernel bool) : K unit :=
  h <- holding lk ;;
  panic_if (negb h) "release" ;;
  modify (update lk false) ;;
  pop_off.

(** ** kernel/proc.c: the current process *)

Definition myproc : K (option nat) :=
  push_off ;;
  p <- cpu_get c_proc ;;
  pop_off ;;
  ret p.

(** [myproc()->...]: the callers dereference the result. *)
Definition myproc' : K nat :=
  p <- myproc ;;
  match p with
  | Some p => ret p
  | None => panic "kerneltrap"
  end.

Definition proc_ids : list nat := seq 0 (Z.to_nat NPROC).

Definition pget {A} (p : nat) (f : proc -> A) : K A := getf (procL p) f.
Definition pset (p : nat) (f : proc -> proc) : K unit := setf (procL p) f.

(** [swtch(&p->context, &mycpu()->context)]: save the context and leave. *)
Definition swtch (p : nat) : K unit :=
  pset p (fun q => set_p_context (set_ctx_ra InSwtch (p_context q)) q) ;;
  (fun s => Switch s (fun s' => Done tt s')).

Definition sched : K unit :=
  p <- myproc' ;;
  h <- holding (p_lockL p) ;;
  panic_if (negb h) "sched p->lock" ;;
  n <- cpu_get noff ;;
  panic_if (negb (n =? 1)) "sched locks" ;;
  st <- pget p p_state ;;
  panic_if (bool_decide (st = RUNNING)) "sched running" ;;
  i <- intr_get ;;
  panic_if i "sched interruptible" ;;
  intena <- cpu_get intena ;;
  swtch p ;;
  cpu_set (set_intena intena).

Definition yield : K unit :=
  p <- myproc' ;;
  acquire (p_lockL p) ;;
  pset p (set_p_state RUNNABLE) ;;
  sched ;;
  release (p_lockL p).

Definition sleep (c : chan) (lk : lens kernel bool) : K unit :=
  p <- myproc' ;;
  acquire (p_lockL p) ;;
  release lk ;;
  pset p (set_p_chan (Some c)) ;;
  pset p (set_p_state SLEEPING) ;;
  sched ;;
  pset p (set_p_chan None) ;;
  release (p_lockL p) ;;
  acquire lk.

Definition wakeup (c : chan) : K unit :=
  iter proc_ids (fun p =>
    me <- myproc ;;
    if bool_decide (me = Some p) then ret tt
    else
      acquire (p_lockL p) ;;
      st <- pget p p_state ;;
      ch <- pget p p_chan ;;
      when (bool_decide (st = SLEEPING) && bool_decide (ch = Some c))
        (pset p (set_p_state RUNNABLE)) ;;
      release (p_lockL p)).

Definition kill (pid : Z) : K Z :=
  r <- scan proc_ids (fun p =>
    acquire (p_lockL p) ;;
    pid' <- pget p p_pid ;;
    if pid' =? pid then
      pset p (set_p_killed 1) ;;
      st <- pget p p_state ;;
      when (bool_decide (st = SLEEPING)) (pset p (set_p_state RUNNABLE)) ;;
      release (p_lockL p) ;;
      ret (Some 0)
    else
      release (p_lockL p) ;;
      ret None) ;;
  ret (default (-1) r).

Definition setkilled (p : nat) : K unit :=
  acquire (p_lockL p) ;;
  pset p (set_p_killed 1) ;;
  release (p_lockL p).

Definition killed (p : nat) : K Z :=
  acquire (p_lockL p) ;;
  k <- pget p p_killed ;;
  release (p_lockL p) ;;
  ret k.

(** [while(cond) sleep(chan, lk);] *)
Definition wait_while `{Fuel} (cond : K bool) (c : chan) (lk : lens kernel bool) : K unit :=
  loop (S fuel) (fun _ =>
    b <- cond ;;
    if b then sleep c lk ;; ret (inl tt) else ret (inr tt)) tt.

(** ** kernel/sleeplock.c *)

Definition slget {A} (l : lens kernel sleeplock) (f : sleeplock -> A) : K A := getf l f.
Definition slset (l : lens kernel sleeplock) (f : sleeplock -> sleeplock) : K unit :=
  setf l f.

Definition sl_lkL (l : lens kernel sleeplock) : lens kernel bool :=
  l ∘l Lens sl_lk set_sl_lk.

Definition initsleeplock (l : lens kernel sleeplock) : K unit :=
  initlock (sl_lkL l) ;;
  slset l (set_sl_locked false) ;;
  slset l (set_sl_pid 0).

Definition acquiresleep `{Fuel} (l : lens kernel sleeplock) (c : chan) : K unit :=
  acquire (sl_lkL l) ;;
  wait_while (slget l sl_locked) c (sl_lkL l) ;;
  slset l (set_sl_locked true) ;;
  p <- myproc' ;;
  pid <- pget p p_pid ;;
  slset l (set_sl_pid pid) ;;
  release (sl_lkL l).

Definition releasesleep (l : lens kernel sleeplock) (c : chan) : K unit :=
  acquire (sl_lkL l) ;;
  slset l (set_sl_locked false) ;;
  slset l (set_sl_pid 0) ;;
  wakeup c ;;
  release (sl_lkL l).

Definition holdingsleep (l : lens kernel sleeplock) : K bool :=
  acquire (sl_lkL l) ;;
  b <- slget l sl_locked ;;
  pid <- slget l sl_pid ;;
  p <- myproc' ;;
  mypid <- pget p p_pid ;;
  release (sl_lkL l) ;;
  ret (b && (pid =? mypid)).

(** ** kernel/proc.c: scheduler

    One round of the inner loop for table entry [p]; [run p] resumes the
    suspended computation of [p] and gives the state when it switches
    back. *)
Definition schedule_one (run : nat -> K unit) (p : nat) : K unit :=
  acquire (p_lockL p) ;;
  st <- pget p p_state ;;
  when (bool_decide (st = RUNNABLE)) (
    pset p (set_p_state RUNNING) ;;
    cpu_set (set_c_proc (Some p)) ;;
    run p ;;
    cpu_set (set_c_proc None)) ;;
  release (p_lockL p).

(** One pass over the process table. *)
Definition scheduler (run : nat -> K unit) : K unit :=
  cpu_set (set_c_proc None) ;;
  intr_on ;;
  iter proc_ids (schedule_one run).
