(* ===== verification/SchedSpec.v ===== *)
(** * Properties of locks, sleep and wakeup *)

From S2P Require Import Prelude Params Memory Kalloc State Sched.

(** ** Interrupts and nesting *)

(** Interrupts are off inside [push_off], and outside [intena] records
    whether they are on. *)
Record cpu_ok (c : cpu) : Prop := {
  cpu_noff : 0 <= noff c;
  cpu_off : 0 < noff c -> intr c = false;
  cpu_quiet : noff c = 0 -> intena c = intr c;
}.

Definition cpu_push (c : cpu) : cpu := Cpu (c_proc c) (noff c + 1) (intena c) false.
Definition cpu_pop (c : cpu) : cpu :=
  Cpu (c_proc c) (noff c - 1) (intena c) ((noff c =? 1) && intena c).

Lemma push_off_eq s :
  cpu_ok (k_cpu s) -> push_off s = Done tt (set_k_cpu (cpu_push (k_cpu s)) s).
Proof.
  intros [Hn Ho Hq]. destruct s, k_cpu as [cp n e i]. simpl in *.
  unfold push_off, intr_get, intr_off, cpu_get, cpu_set, getf, setf, bind. cbn.
  destruct (Z.eqb_spec n 0) as [->|]; cbn; [|done].
  unfold cpu_push. simpl. by rewrite Hq.
Qed.

Lemma cpu_push_ok c : cpu_ok c -> cpu_ok (cpu_push c).
Proof. intros [Hn Ho Hq]. constructor; simpl; lia || done. Qed.

Lemma pop_off_eq s :
  cpu_ok (k_cpu s) -> 0 < noff (k_cpu s) ->
  pop_off s = Done tt (set_k_cpu (cpu_pop (k_cpu s)) s).
Proof.
  intros [Hn Ho Hq] Hp. destruct s, k_cpu as [cp n e i]. simpl in *.
  unfold pop_off, intr_get, intr_on, cpu_get, cpu_set, getf, setf, bind. cbn.
  rewrite Ho by done. cbn. destruct (Z.ltb_spec n 1); [lia|]. cbn.
  unfold cpu_pop. cbn. replace (n - 1 =? 0) with (n =? 1) by lia.
  destruct (n =? 1), e; cbn; by rewrite ?Ho.
Qed.

Lemma cpu_pop_ok c : cpu_ok c -> 0 < noff c -> cpu_ok (cpu_pop c).
Proof.
  intros [Hn Ho Hq] Hp. constructor; simpl; [lia| |].
  - intros. by destruct (Z.eqb_spec (noff c) 1); [lia|].
  - intros. by destruct (Z.eqb_spec (noff c) 1); [|lia].
Qed.

Lemma cpu_pop_push c : cpu_ok c -> cpu_pop (cpu_push c) = c.
Proof.
  intros [Hn Ho Hq]. destruct c as [cp n e i]. unfold cpu_pop, cpu_push. simpl in *.
  f_equal; [lia|]. destruct (Z.eqb_spec (n + 1) 1).
  - simpl. apply Hq. lia.
  - simpl. rewrite Ho; [done|lia].
Qed.

(** ** Access paths

    The laws of the paths to locks: they do not touch the processor, and
    they read what was written. *)

Class LensOk {T} (l : lens kernel T) (dom : kernel -> Prop) : Prop := {
  lens_view_cpu c s : view l (set_k_cpu c s) = view l s;
  lens_cpu_update t s : k_cpu (update l t s) = k_cpu s;
  lens_update_cpu c t s : update l t (set_k_cpu c s) = set_k_cpu c (update l t s);
  lens_dom_cpu c s : dom s -> dom (set_k_cpu c s);
  lens_dom_update t s : dom s -> dom (update l t s);
  lens_get_put t s : dom s -> view l (update l t s) = t;
  lens_put_put t t' s : dom s -> update l t' (update l t s) = update l t' s;
  lens_put_get s : dom s -> update l (view l s) s = s;
}.

(** The tables have their C sizes. *)
Record tables_ok (s : kernel) : Prop := {
  procs_length : length (procs (k_pt s)) = Z.to_nat NPROC;
  bufs_length : length (bc_buf (k_bc s)) = S (Z.to_nat NBUF);
  inodes_length : length (it_inode (k_it s)) = Z.to_nat NINODE;
  files_length : length (ft_file (k_ft s)) = Z.to_nat NFILE;
}.

Definition always (s : kernel) : Prop := True.

Ltac solve_simple_lens :=
  constructor; unfold always; intros; trivial;
  match goal with s : kernel |- _ => destruct s end; reflexivity.

#[export] Instance pid_lock_ok : LensOk pid_lockL always.
Proof. constructor; unfold always; intros; trivial; destruct s as [? ? []]; reflexivity. Qed.
#[export] Instance wait_lock_ok : LensOk wait_lockL always.
Proof. constructor; unfold always; intros; trivial; destruct s as [? ? []]; reflexivity. Qed.
#[export] Instance tickslock_ok : LensOk tickslockL always.
Proof. solve_simple_lens. Qed.

Lemma list_insert_total_id {A} `{Inhabited A} (l : list A) i :
  (i < length l)%nat -> <[i := l !!! i]> l = l.
Proof. intros. apply list_insert_id. by apply list_lookup_lookup_total_lt. Qed.

Lemma list_insert_lookup_total {A} `{Inhabited A} (l : list A) i x :
  (i < length l)%nat -> <[i := x]> l !!! i = x.
Proof. intros. by apply list_lookup_total_insert_eq. Qed.

Definition proc_dom (i : nat) (s : kernel) : Prop := (i < length (procs (k_pt s)))%nat.

#[export] Instance p_lock_ok i : LensOk (p_lockL i) (proc_dom i).
Proof.
  constructor; unfold proc_dom; intros; destruct s as [? ? []]; simpl in *; trivial.
  - by rewrite length_insert.
  - unfold p_lockL, procL, nthL, lcomp; simpl. by rewrite list_insert_lookup_total.
  - unfold p_lockL, procL, nthL, lcomp; simpl.
    rewrite list_insert_insert_eq.
    by rewrite list_insert_lookup_total.
  - unfold p_lockL, procL, nthL, lcomp; simpl.
    replace (set_p_lock _ _) with (procs !!! i) by by destruct (procs !!! i).
    by rewrite list_insert_total_id.
Qed.

Lemma cpu_push_pop c : cpu_ok c -> noff c = 1 -> cpu_push (cpu_pop c) = c.
Proof.
  intros [Hn Ho Hq] H1. destruct c as [cp n e i]. unfold cpu_push, cpu_pop. simpl in *.
  subst n. by rewrite Ho.
Qed.

Section lock_rules.
Context {lk : lens kernel bool} {dom : kernel -> Prop} `{!LensOk lk dom}.

Definition locked (s : kernel) : kernel :=
  update lk true (set_k_cpu (cpu_push (k_cpu s)) s).
Definition unlocked (s : kernel) : kernel :=
  set_k_cpu (cpu_pop (k_cpu s)) (update lk false s).

Lemma acquire_eq s :
  cpu_ok (k_cpu s) -> view lk s = false -> acquire lk s = Done tt (locked s).
Proof using LensOk0.
  intros Hc Hl. unfold acquire. rewrite (bind_done _ _ _ _ _ (push_off_eq s Hc)).
  unfold bind, holding, gets. cbn [obind]. rewrite lens_view_cpu, Hl. done.
Qed.

(** Acquiring a lock this processor holds is the panic of a deadlock. *)
Lemma acquire_held s :
  cpu_ok (k_cpu s) -> view lk s = true -> acquire lk s = Panic "acquire".
Proof using LensOk0.
  intros Hc Hl. unfold acquire. rewrite (bind_done _ _ _ _ _ (push_off_eq s Hc)).
  unfold bind, holding, gets. cbn [obind]. rewrite lens_view_cpu, Hl. done.
Qed.

Lemma release_eq s :
  cpu_ok (k_cpu s) -> 0 < noff (k_cpu s) -> view lk s = true ->
  release lk s = Done tt (unlocked s).
Proof using LensOk0.
  intros Hc Hn Hl. unfold release, holding, gets, bind. cbn [obind]. rewrite Hl.
  cbn [negb panic_if ret obind modify].
  rewrite pop_off_eq; rewrite lens_cpu_update; done.
Qed.

Lemma release_unheld s : view lk s = false -> release lk s = Panic "release".
Proof using. intros Hl. unfold release, holding, gets, bind. cbn [obind]. by rewrite Hl. Qed.

Lemma locked_cpu s : k_cpu (locked s) = cpu_push (k_cpu s).
Proof using LensOk0. unfold locked. by rewrite lens_cpu_update. Qed.

Lemma locked_ok s : cpu_ok (k_cpu s) -> cpu_ok (k_cpu (locked s)).
Proof using LensOk0. rewrite locked_cpu. apply cpu_push_ok. Qed.

Lemma locked_view s : dom s -> view lk (locked s) = true.
Proof using LensOk0. intros. unfold locked. by apply lens_get_put, lens_dom_cpu. Qed.

Lemma locked_noff s : cpu_ok (k_cpu s) -> 0 < noff (k_cpu (locked s)).
Proof using LensOk0. intros [? _ _]. rewrite locked_cpu. simpl. lia. Qed.

(** A critical section that does nothing changes nothing. *)
Lemma unlocked_locked s :
  cpu_ok (k_cpu s) -> dom s -> view lk s = false -> unlocked (locked s) = s.
Proof using LensOk0.
  intros Hc Hd Hl. unfold unlocked. rewrite locked_cpu, cpu_pop_push by done.
  unfold locked. rewrite lens_put_put, lens_update_cpu by by apply lens_dom_cpu.
  rewrite <-Hl, lens_put_get by done. by destruct s.
Qed.

(** A whole critical section: [m] runs in the locked state. *)
Lemma critical_eq {A} (m : K A) s s1 (a : A) :
  cpu_ok (k_cpu s) -> dom s -> view lk s = false ->
  m (locked s) = Done a s1 ->
  k_cpu s1 = cpu_push (k_cpu s) -> view lk s1 = true ->
  (acquire lk ;; x <- m ;; release lk ;; ret x) s =
    Done a (set_k_cpu (k_cpu s) (update lk false s1)).
Proof using LensOk0.
  intros Hc Hd Hl Hm Hc1 Hl1.
  rewrite (bind_done _ _ _ _ _ (acquire_eq s Hc Hl)).
  rewrite (bind_done _ _ _ _ _ Hm).
  erewrite bind_done; [|apply release_eq; rewrite ?Hc1; auto using cpu_push_ok].
  - unfold ret, unlocked. by rewrite Hc1, cpu_pop_push by done.
  - destruct Hc. simpl. lia.
Qed.
End lock_rules.

Arguments locked lk s : clear implicits, simpl never.
Arguments unlocked lk s : clear implicits, simpl never.

(** ** The current process *)

Lemma myproc_eq s : cpu_ok (k_cpu s) -> myproc s = Done (c_proc (k_cpu s)) s.
Proof.
  intros Hc. unfold myproc. rewrite (bind_done _ _ _ _ _ (push_off_eq s Hc)).
  unfold cpu_get, getf, gets, bind. cbn [obind].
  rewrite pop_off_eq.
  - simpl. rewrite cpu_pop_push by done. by destruct s.
  - by apply cpu_push_ok.
  - destruct Hc. simpl. lia.
Qed.

Lemma myproc'_eq s p :
  cpu_ok (k_cpu s) -> c_proc (k_cpu s) = Some p -> myproc' s = Done p s.
Proof.
  intros Hc Hp. unfold myproc'. rewrite (bind_done _ _ _ _ _ (myproc_eq s Hc)).
  by rewrite Hp.
Qed.

(** ** wakeup *)

Definition on_procs (f : list proc -> list proc) (s : kernel) : kernel :=
  set_k_pt (set_procs (f (procs (k_pt s))) (k_pt s)) s.

(** What [wakeup(c)] does to a process. *)
Definition wake (c : chan) (p : proc) : proc :=
  if bool_decide (p_state p = SLEEPING) && bool_decide (p_chan p = Some c)
  then set_p_state RUNNABLE p else p.

(** The processes in [l] other than [me] are woken. *)
Definition wake_all (c : chan) (me : option nat) (l : list nat) (ps : list proc) :
    list proc :=
  imap (fun i p => if decide (i ∈ l /\ me <> Some i) then wake c p else p) ps.

(** No process lock is held, other than perhaps the current process's. *)
Definition procs_unlocked (s : kernel) : Prop :=
  forall i p, procs (k_pt s) !! i = Some p -> c_proc (k_cpu s) <> Some i ->
    p_lock p = false.

Lemma wake_lock c p : p_lock (wake c p) = p_lock p.
Proof. unfold wake. by case_match. Qed.

Lemma wake_all_length c me l ps : length (wake_all c me l ps) = length ps.
Proof. apply length_imap. Qed.

Lemma wake_all_lookup c me l ps i :
  wake_all c me l ps !! i =
    (fun p => if decide (i ∈ l /\ me <> Some i) then wake c p else p) <$> ps !! i.
Proof. unfold wake_all. by rewrite list_lookup_imap. Qed.

Lemma proc_alter_eq s i f :
  update (procL i) (f (view (procL i) s)) s = on_procs (alter f i) s.
Proof.
  destruct s as [? ? []]. unfold procL, nthL, lcomp, on_procs. simpl.
  f_equal. f_equal. apply list_eq. intros j.
  destruct (decide (i < length procs)%nat).
  - destruct (decide (i = j)) as [->|].
    + rewrite list_lookup_insert_eq, list_lookup_alter_eq by done.
      by rewrite (list_lookup_lookup_total_lt procs j) by done.
    + by rewrite list_lookup_insert_ne, list_lookup_alter_ne.
  - rewrite list_insert_ge by lia. destruct (decide (i = j)) as [->|].
    + rewrite list_lookup_alter_eq, lookup_ge_None_2 by lia. done.
    + by rewrite list_lookup_alter_ne.
Qed.

(** The algebra of these updates. *)
Lemma p_lock_update i b s :
  update (p_lockL i) b s = on_procs (alter (set_p_lock b) i) s.
Proof. apply (proc_alter_eq s i (set_p_lock b)). Qed.

Lemma on_procs_compose f g s :
  on_procs f (on_procs g s) = on_procs (fun ps => f (g ps)) s.
Proof. by destruct s as [? ? []]. Qed.

Lemma on_procs_procs f s : procs (k_pt (on_procs f s)) = f (procs (k_pt s)).
Proof. done. Qed.

Lemma on_procs_cpu f c s : on_procs f (set_k_cpu c s) = set_k_cpu c (on_procs f s).
Proof. by destruct s as [? ? []]. Qed.

Lemma on_procs_ext f g s :
  f (procs (k_pt s)) = g (procs (k_pt s)) -> on_procs f s = on_procs g s.
Proof. unfold on_procs. by intros ->. Qed.

Lemma on_procs_id f s : f (procs (k_pt s)) = procs (k_pt s) -> on_procs f s = s.
Proof. unfold on_procs. intros ->. by destruct s as [? ? []]. Qed.

Lemma set_cpu_cpu c c' s : set_k_cpu c (set_k_cpu c' s) = set_k_cpu c s.
Proof. done. Qed.

Lemma set_cpu_id s : set_k_cpu (k_cpu s) s = s.
Proof. by destruct s. Qed.

Lemma alter_compose_at {A} (f g : A -> A) i (l : list A) :
  alter f i (alter g i l) = alter (fun x => f (g x)) i l.
Proof.
  revert i. induction l as [|x l IH]; intros [|i]; simpl; [done..|].
  f_equal. apply IH.
Qed.

Lemma list_alter_ext_at {A} (f g : A -> A) i (l : list A) :
  (forall x, l !! i = Some x -> f x = g x) -> alter f i l = alter g i l.
Proof.
  revert i. induction l as [|x l IH]; intros [|i] H; simpl; [done|done| |].
  - by rewrite H.
  - f_equal. by apply IH.
Qed.

Lemma p_lock_view i s p :
  procs (k_pt s) !! i = Some p -> view (p_lockL i) s = p_lock p.
Proof.
  intros Hp. unfold p_lockL, procL, nthL, lcomp. simpl.
  by rewrite (list_lookup_total_correct _ _ _ Hp).
Qed.

(** [f] acts on a process under its lock. *)
Definition lock_free (f : proc -> proc) : Prop :=
  forall b p, set_p_lock b (f p) = f (set_p_lock b p).

Lemma proc_critical i (f : proc -> proc) s p :
  cpu_ok (k_cpu s) -> procs (k_pt s) !! i = Some p -> p_lock p = false ->
  lock_free f ->
  unlocked (p_lockL i) (on_procs (alter f i) (locked (p_lockL i) s)) =
    on_procs (alter f i) s.
Proof.
  intros Hc Hp Hl Hf. unfold unlocked, locked.
  rewrite !p_lock_update, !on_procs_cpu. simpl.
  rewrite set_cpu_cpu, cpu_pop_push by done.
  rewrite !on_procs_compose.
  transitivity (set_k_cpu (k_cpu s) (on_procs (alter f i) s));
    [|by destruct s as [? ? []]].
  f_equal. apply on_procs_ext. rewrite !alter_compose_at.
  apply list_alter_ext_at. intros x Hx. rewrite Hf. f_equal.
  replace x with p by congruence. rewrite <-Hl. by destruct p.
Qed.

Lemma pget_eq {A} i (f : proc -> A) s p :
  procs (k_pt s) !! i = Some p -> pget i f s = Done (f p) s.
Proof.
  intros Hp. unfold pget, getf, gets, procL, nthL, lcomp. simpl.
  by rewrite (list_lookup_total_correct _ _ _ Hp).
Qed.

Lemma pset_eq i f s : pset i f s = Done tt (on_procs (alter f i) s).
Proof. unfold pset, setf, modify. by rewrite proc_alter_eq. Qed.

Lemma locked_proc i s p :
  procs (k_pt s) !! i = Some p ->
  procs (k_pt (locked (p_lockL i) s)) !! i = Some (set_p_lock true p).
Proof.
  intros Hp. unfold locked. rewrite p_lock_update. simpl.
  by rewrite list_lookup_alter_eq, Hp.
Qed.

(** Under the process's lock, nothing but [f] happens to the state. *)
Lemma proc_section_eq i f s p :
  cpu_ok (k_cpu s) -> procs (k_pt s) !! i = Some p -> p_lock p = false ->
  lock_free f ->
  release (p_lockL i) (on_procs (alter f i) (locked (p_lockL i) s)) =
    Done tt (on_procs (alter f i) s).
Proof.
  intros Hc Hp Hl Hf. rewrite release_eq.
  - by rewrite (proc_critical i f s p).
  - simpl. by apply cpu_push_ok.
  - destruct Hc. simpl. lia.
  - erewrite p_lock_view.
    2:{ unfold locked. rewrite p_lock_update. simpl.
        rewrite list_lookup_alter_eq, list_lookup_alter_eq, Hp. done. }
    rewrite <-Hf. done.
Qed.

Lemma lock_free_id : lock_free id.
Proof. done. Qed.

Lemma lock_free_wake c : lock_free (wake c).
Proof. intros b p. unfold wake. simpl. by case_match. Qed.

Lemma alter_id_eq {A} i (l : list A) : alter id i l = l.
Proof. apply list_alter_id. auto. Qed.

Lemma wakeup_body_eq c i s p :
  cpu_ok (k_cpu s) -> procs (k_pt s) !! i = Some p -> p_lock p = false ->
  (acquire (p_lockL i) ;;
   st <- pget i p_state ;;
   ch <- pget i p_chan ;;
   when (bool_decide (st = SLEEPING) && bool_decide (ch = Some c))
     (pset i (set_p_state RUNNABLE)) ;;
   release (p_lockL i)) s = Done tt (on_procs (alter (wake c) i) s).
Proof.
  intros Hc Hp Hl.
  rewrite (bind_done _ _ _ _ _ (acquire_eq s Hc (eq_trans (p_lock_view i s p Hp) Hl))).
  pose proof (locked_proc i s p Hp) as Hlp.
  rewrite (bind_done _ _ _ _ _ (pget_eq i p_state _ _ Hlp)).
  rewrite (bind_done _ _ _ _ _ (pget_eq i p_chan _ _ Hlp)).
  rewrite <-(proc_section_eq i (wake c) s p Hc Hp Hl (lock_free_wake c)).
  simpl. unfold wake at 1.
  destruct (bool_decide _ && bool_decide _) eqn:E; simpl.
  - rewrite (bind_done _ _ _ _ _ (pset_eq _ _ _)). f_equal. apply on_procs_ext.
    apply list_alter_ext_at. intros x Hx. rewrite Hlp in Hx. simplify_eq/=.
    by rewrite E.
  - rewrite (bind_done _ _ _ tt (locked (p_lockL i) s)) by done. f_equal.
    symmetry. apply on_procs_id. rewrite <-(alter_id_eq i (procs _)) at 2.
    apply list_alter_ext_at. intros x Hx. rewrite Hlp in Hx. simplify_eq/=.
    by rewrite E.
Qed.

Lemma wake_all_nil c me ps : wake_all c me [] ps = ps.
Proof.
  apply list_eq. intros j. rewrite wake_all_lookup.
  destruct (ps !! j) as [q|]; [|done]. unfold fmap, option_fmap, option_map.
  case_decide as Hd; [|done]. destruct Hd as [Hd _]. by apply elem_of_nil in Hd.
Qed.

Lemma wake_all_cons_skip c me i l ps :
  me = Some i -> wake_all c me l ps = wake_all c me (i :: l) ps.
Proof.
  intros ->. apply list_eq. intros j. rewrite !wake_all_lookup.
  destruct (ps !! j) as [q|]; [|done]. unfold fmap, option_fmap, option_map.
  f_equal. apply decide_ext. rewrite elem_of_cons. split; [tauto|].
  intros [[->|?] ?]; done.
Qed.

Lemma wake_all_cons c me i l ps :
  me <> Some i -> i ∉ l ->
  wake_all c me l (alter (wake c) i ps) = wake_all c me (i :: l) ps.
Proof.
  intros Hm Hi. apply list_eq. intros j. rewrite !wake_all_lookup.
  destruct (decide (i = j)) as [<-|Hij].
  - rewrite list_lookup_alter_eq. destruct (ps !! i) as [q|]; [|done].
    unfold fmap, option_fmap, option_map. f_equal.
    rewrite decide_False by tauto. rewrite decide_True; [done|].
    split; [by left|done].
  - rewrite list_lookup_alter_ne by done. destruct (ps !! j) as [q|]; [|done].
    unfold fmap, option_fmap, option_map. f_equal.
    apply decide_ext. rewrite elem_of_cons. split; [tauto|].
    intros [[->|?] ?]; done.
Qed.

Lemma wakeup_eq c s :
  cpu_ok (k_cpu s) -> length (procs (k_pt s)) = Z.to_nat NPROC -> procs_unlocked s ->
  wakeup c s = Done tt (on_procs (wake_all c (c_proc (k_cpu s)) proc_ids) s).
Proof.
  intros Hc Hlen Hun. unfold wakeup.
  assert (Hlt : Forall (fun i => i < length (procs (k_pt s)))%nat proc_ids).
  { rewrite Hlen. apply Forall_forall. intros i [_ Hi]%elem_of_seq. simpl in *. lia. }
  assert (Hnd : NoDup proc_ids) by apply NoDup_seq.
  clear Hlen. revert s Hc Hun Hlt Hnd.
  induction proc_ids as [|i l IH]; intros s Hc Hun Hlt Hnd; cbn [iter].
  { unfold ret. f_equal. symmetry. apply on_procs_id.
    apply wake_all_nil. }
  apply Forall_cons_1 in Hlt as [Hi Hlt]. apply NoDup_cons in Hnd as [Hni Hnd].
  destruct (lookup_lt_is_Some_2 _ _ Hi) as [p Hp].
  set (s1 := if decide (c_proc (k_cpu s) = Some i) then s
             else on_procs (alter (wake c) i) s).
  erewrite (bind_done _ _ _ tt s1).
  2:{ rewrite (bind_done _ _ _ _ _ (myproc_eq s Hc)). unfold s1. case_decide as Hm.
      - by rewrite bool_decide_true.
      - rewrite bool_decide_false by done. by apply (wakeup_body_eq c i s p); eauto. }
  assert (Hcpu : k_cpu s1 = k_cpu s) by (unfold s1; by case_decide).
  assert (Hlen1 : length (procs (k_pt s1)) = length (procs (k_pt s))).
  { unfold s1. case_decide; [done|]. simpl. apply length_alter. }
  rewrite IH.
  - f_equal. rewrite Hcpu. unfold s1. case_decide as Hm.
    + by apply on_procs_ext, wake_all_cons_skip.
    + rewrite on_procs_compose. by apply on_procs_ext, wake_all_cons.
  - by rewrite Hcpu.
  - intros j q Hq Hm. rewrite Hcpu in Hm. unfold s1 in Hq. case_decide.
    + by eapply Hun.
    + simpl in Hq. destruct (decide (i = j)) as [<-|].
      * rewrite list_lookup_alter_eq, Hp in Hq. simplify_eq/=.
        rewrite wake_lock. by eapply Hun.
      * rewrite list_lookup_alter_ne in Hq by done. by eapply Hun.
  - by rewrite Hlen1.
  - done.
Qed.

(** ** kill *)

Definition kill1 (p : proc) : proc :=
  if bool_decide (p_state p = SLEEPING)
  then set_p_state RUNNABLE (set_p_killed 1 p) else set_p_killed 1 p.

(** No process lock is held at all. *)
Definition all_unlocked (s : kernel) : Prop :=
  Forall (fun p => p_lock p = false) (procs (k_pt s)).

Lemma lock_free_kill1 : lock_free kill1.
Proof. intros b p. unfold kill1. simpl. by case_match. Qed.

Lemma lock_free_setkilled : lock_free (set_p_killed 1).
Proof. done. Qed.

(** The body of the loop of [kill] at a process. *)
Lemma kill_body_eq pid i s p :
  cpu_ok (k_cpu s) -> procs (k_pt s) !! i = Some p -> p_lock p = false ->
  (acquire (p_lockL i) ;;
   pid' <- pget i p_pid ;;
   if pid' =? pid then
     pset i (set_p_killed 1) ;;
     st <- pget i p_state ;;
     when (bool_decide (st = SLEEPING)) (pset i (set_p_state RUNNABLE)) ;;
     release (p_lockL i) ;;
     ret (Some 0)
   else release (p_lockL i) ;; ret None) s =
  if p_pid p =? pid then Done (Some 0) (on_procs (alter kill1 i) s) else Done None s.
Proof.
  intros Hc Hp Hl.
  rewrite (bind_done _ _ _ _ _ (acquire_eq s Hc (eq_trans (p_lock_view i s p Hp) Hl))).
  pose proof (locked_proc i s p Hp) as Hlp.
  rewrite (bind_done _ _ _ _ _ (pget_eq i p_pid _ _ Hlp)). simpl.
  destruct (p_pid p =? pid).
  - rewrite (bind_done _ _ _ _ _ (pset_eq _ _ _)).
    erewrite (bind_done (pget i p_state)).
    2:{ apply pget_eq. rewrite on_procs_procs, list_lookup_alter_eq, Hlp. done. }
    simpl.
    erewrite (bind_done (when _ _) _ _ tt
      (on_procs (alter kill1 i) (locked (p_lockL i) s))).
    + rewrite (bind_done _ _ _ _ _ (proc_section_eq i kill1 s p Hc Hp Hl lock_free_kill1)).
      done.
    + destruct (bool_decide (p_state p = SLEEPING)) eqn:E; simpl.
      * rewrite pset_eq, on_procs_compose. f_equal. apply on_procs_ext.
        rewrite alter_compose_at. apply list_alter_ext_at. intros x Hx.
        rewrite Hlp in Hx. simplify_eq. unfold kill1. simpl. by rewrite E.
      * unfold ret. f_equal. apply on_procs_ext, list_alter_ext_at. intros x Hx.
        rewrite Hlp in Hx. simplify_eq. unfold kill1. simpl. by rewrite E.
  - pose proof (proc_section_eq i id s p Hc Hp Hl lock_free_id) as E.
    rewrite !on_procs_id in E by apply alter_id_eq.
    by rewrite (bind_done _ _ _ _ _ E).
Qed.

(** The index of the first process with that pid. *)
Fixpoint find_pid (pid : Z) (ps : list proc) : option nat :=
  match ps with
  | [] => None
  | p :: ps' => if p_pid p =? pid then Some 0%nat else S <$> find_pid pid ps'
  end.

Lemma find_pid_Some pid ps i :
  find_pid pid ps = Some i ->
  exists p, ps !! i = Some p /\ p_pid p = pid /\
    forall j q, (j < i)%nat -> ps !! j = Some q -> p_pid q <> pid.
Proof.
  revert i. induction ps as [|p ps IH]; intros i; simpl; [done|].
  destruct (Z.eqb_spec (p_pid p) pid).
  - intros [= <-]. exists p. split_and!; [done|done|]. intros; lia.
  - destruct (find_pid pid ps) as [i'|] eqn:E; simpl; [|done]. intros [= <-].
    destruct (IH _ eq_refl) as (q & Hq & Hpid & Hf). exists q. split_and!; [done|done|].
    intros [|j] q' Hj Hq'; simpl in Hq'; [by simplify_eq|]. eapply Hf; [|done]. lia.
Qed.

Lemma find_pid_None pid ps :
  find_pid pid ps = None -> forall j q, ps !! j = Some q -> p_pid q <> pid.
Proof.
  induction ps as [|p ps IH]; simpl; [done|].
  destruct (Z.eqb_spec (p_pid p) pid); [done|].
  destruct (find_pid pid ps); [done|]. intros _ [|j] q Hq; simpl in Hq; [by simplify_eq|].
  by eapply IH.
Qed.

Lemma kill_scan pid s n k :
  cpu_ok (k_cpu s) -> all_unlocked s -> (k + n = length (procs (k_pt s)))%nat ->
  scan (seq k n) (fun p =>
    acquire (p_lockL p) ;;
    pid' <- pget p p_pid ;;
    if pid' =? pid then
      pset p (set_p_killed 1) ;;
      st <- pget p p_state ;;
      when (bool_decide (st = SLEEPING)) (pset p (set_p_state RUNNABLE)) ;;
      release (p_lockL p) ;;
      ret (Some 0)
    else release (p_lockL p) ;; ret None) s =
  match find_pid pid (drop k (procs (k_pt s))) with
  | Some i => Done (Some 0) (on_procs (alter kill1 (k + i)%nat) s)
  | None => Done None s
  end.
Proof.
  intros Hc Hun. revert k. induction n as [|n IH]; intros k Hk; cbn [scan seq].
  { by rewrite drop_ge by lia. }
  assert (k < length (procs (k_pt s)))%nat as Hlt by lia.
  destruct (lookup_lt_is_Some_2 _ _ Hlt) as [p Hp].
  assert (p_lock p = false) as Hl by by apply (Forall_lookup_1 _ _ _ _ Hun Hp).
  pose proof (kill_body_eq pid k s p Hc Hp Hl) as Hb.
  rewrite (drop_S _ _ _ Hp). cbn [find_pid].
  destruct (p_pid p =? pid).
  - rewrite (bind_done _ _ _ _ _ Hb). unfold ret. by rewrite Nat.add_0_r.
  - rewrite (bind_done _ _ _ _ _ Hb). rewrite IH by lia.
    destruct (find_pid pid _); simpl; [|done]. by rewrite Nat.add_succ_r.
Qed.

Lemma kill_eq pid s :
  cpu_ok (k_cpu s) -> all_unlocked s -> length (procs (k_pt s)) = Z.to_nat NPROC ->
  kill pid s =
    match find_pid pid (procs (k_pt s)) with
    | Some i => Done 0 (on_procs (alter kill1 i) s)
    | None => Done (-1) s
    end.
Proof.
  intros Hc Hun Hlen. unfold kill, bind, proc_ids.
  rewrite (kill_scan pid s _ 0) by (simpl in *; lia || done).
  rewrite drop_0. by destruct (find_pid pid (procs (k_pt s))).
Qed.

Lemma killed_eq i s p :
  cpu_ok (k_cpu s) -> procs (k_pt s) !! i = Some p -> p_lock p = false ->
  killed i s = Done (p_killed p) s.
Proof.
  intros Hc Hp Hl. unfold killed.
  rewrite (bind_done _ _ _ _ _ (acquire_eq s Hc (eq_trans (p_lock_view i s p Hp) Hl))).
  rewrite (bind_done _ _ _ _ _ (pget_eq i p_killed _ _ (locked_proc i s p Hp))).
  pose proof (proc_section_eq i id s p Hc Hp Hl lock_free_id) as E.
  rewrite !on_procs_id in E by apply alter_id_eq.
  by rewrite (bind_done _ _ _ _ _ E).
Qed.

(** ** sleep *)

(** A lock that is not one of the process locks. *)
Class OutsideProcs {T} (l : lens kernel T) (dom : kernel -> Prop) : Prop := {
  op_dom f s : dom s -> dom (on_procs f s);
  op_view f s : view l (on_procs f s) = view l s;
  op_update f t s : on_procs f (update l t s) = update l t (on_procs f s);
  op_procs t s : procs (k_pt (update l t s)) = procs (k_pt s);
}.

#[export] Instance wait_lock_outside : OutsideProcs wait_lockL always.
Proof. constructor; intros; by destruct s as [? ? []]. Qed.
#[export] Instance tickslock_outside : OutsideProcs tickslockL always.
Proof. constructor; intros; by destruct s as [? ? []]. Qed.

(** What [sleep] has done to its process when it switches, and what it does
    after it is resumed. *)
Definition fall_asleep (c : chan) (p : proc) : proc :=
  set_p_context (set_ctx_ra InSwtch (p_context p))
    (set_p_state SLEEPING (set_p_chan (Some c) (set_p_lock true p))).
Definition wake_up (p : proc) : proc := set_p_lock false (set_p_chan None p).

Lemma bind_switch {S A B} (m : M S A) (f : A -> M S B) s s1 k :
  m s = Switch s1 k -> bind m f s = Switch s1 (fun s' => obind (k s') f).
Proof. unfold bind. by intros ->. Qed.

Lemma sched_eq s i p :
  cpu_ok (k_cpu s) -> noff (k_cpu s) = 1 -> c_proc (k_cpu s) = Some i ->
  procs (k_pt s) !! i = Some p -> p_lock p = true -> p_state p <> RUNNING ->
  sched s = Switch
    (on_procs (alter (fun p => set_p_context (set_ctx_ra InSwtch (p_context p)) p) i) s)
    (fun s' => Done tt (set_k_cpu (set_intena (intena (k_cpu s)) (k_cpu s')) s')).
Proof.
  intros Hc Hn Hm Hp Hl Hr. unfold sched.
  rewrite (bind_done _ _ _ _ _ (myproc'_eq s i Hc Hm)).
  rewrite (bind_done _ _ _ true s).
  2:{ unfold holding, gets. by rewrite (p_lock_view i s p Hp), Hl. }
  rewrite (bind_done _ _ _ tt s) by done.
  rewrite (bind_done _ _ _ (noff (k_cpu s)) s) by done.
  rewrite (bind_done _ _ _ tt s) by by rewrite Hn.
  rewrite (bind_done _ _ _ _ _ (pget_eq i p_state s p Hp)).
  rewrite (bind_done _ _ _ tt s) by by rewrite bool_decide_false.
  rewrite (bind_done _ _ _ (intr (k_cpu s)) s) by done.
  rewrite (bind_done _ _ _ tt s) by (rewrite cpu_off by (done || lia); done).
  rewrite (bind_done _ _ _ (intena (k_cpu s)) s) by done.
  erewrite bind_switch;
    [|unfold swtch; by rewrite (bind_done _ _ _ _ _ (pset_eq _ _ _))].
  reflexivity.
Qed.

Section sleep.
Context {lk : lens kernel bool} {dom : kernel -> Prop} `{!LensOk lk dom, !OutsideProcs lk dom}.

(** The process state and the channel are set, with the process's lock held
    and [lk] free, when the processor is handed over. *)
Lemma sleep_eq c s i p :
  cpu_ok (k_cpu s) -> noff (k_cpu s) = 1 -> c_proc (k_cpu s) = Some i ->
  procs (k_pt s) !! i = Some p -> p_lock p = false ->
  dom s -> view lk s = true ->
  exists k,
    sleep c lk s = Switch (update lk false (on_procs (alter (fall_asleep c) i) s)) k /\
    forall s2 q,
      cpu_ok (k_cpu s2) -> noff (k_cpu s2) = 1 -> c_proc (k_cpu s2) = Some i ->
      procs (k_pt s2) !! i = Some q -> p_lock q = true ->
      dom s2 -> view lk s2 = false ->
      k s2 = Done tt (update lk true
               (set_k_cpu (set_intena (intena (k_cpu s)) (k_cpu s2))
                  (on_procs (alter wake_up i) s2))).
Proof using LensOk0 OutsideProcs0.
  intros Hc Hn Hm Hp Hl Hd Hlk. unfold sleep.
  rewrite (bind_done _ _ _ _ _ (myproc'_eq s i Hc Hm)).
  rewrite (bind_done _ _ _ _ _ (acquire_eq s Hc (eq_trans (p_lock_view i s p Hp) Hl))).
  pose proof (locked_proc i s p Hp) as Hlp.
  assert (Hlc : k_cpu (locked (p_lockL i) s) = cpu_push (k_cpu s)) by by rewrite locked_cpu.
  assert (Hlv : view lk (locked (p_lockL i) s) = true).
  { unfold locked. rewrite p_lock_update, on_procs_cpu, lens_view_cpu, op_view. done. }
  erewrite bind_done.
  2:{ apply release_eq; [rewrite Hlc; by apply cpu_push_ok| |done].
      rewrite Hlc. simpl. lia. }
  assert (unlocked lk (locked (p_lockL i) s) =
    update lk false (on_procs (alter (set_p_lock true) i) s)) as ->.
  { unfold unlocked. rewrite Hlc, cpu_pop_push by done. unfold locked.
    rewrite p_lock_update, on_procs_cpu, lens_update_cpu, set_cpu_cpu.
    replace (k_cpu s) with (k_cpu (update lk false (on_procs (alter (set_p_lock true) i) s)))
      by by rewrite lens_cpu_update.
    by rewrite set_cpu_id. }
  rewrite (bind_done _ _ _ _ _ (pset_eq _ _ _)).
  rewrite (bind_done _ _ _ _ _ (pset_eq _ _ _)).
  rewrite !op_update, !on_procs_compose.
  set (s1 := update lk false _).
  set (q1 := set_p_state SLEEPING (set_p_chan (Some c) (set_p_lock true p))).
  assert (Hq1 : procs (k_pt s1) !! i = Some q1).
  { unfold s1. rewrite op_procs. simpl.
    by rewrite !list_lookup_alter_eq, Hp. }
  assert (Hc1 : k_cpu s1 = k_cpu s) by (unfold s1; by rewrite lens_cpu_update).
  erewrite bind_switch; [|apply (sched_eq s1 i q1); rewrite ?Hc1; done].
  eexists. split.
  { unfold s1. rewrite op_update, on_procs_compose. f_equal. f_equal.
    apply on_procs_ext. rewrite !alter_compose_at. apply list_alter_ext_at.
    intros x _. done. }
  intros s2 q Hc2 Hn2 Hm2 Hp2 Hl2 Hd2 Hv2. cbn [obind]. rewrite lens_cpu_update. simpl (intena _).
  set (c2 := set_intena _ _).
  assert (Hok2 : cpu_ok c2).
  { destruct Hc2. constructor; simpl; auto; lia. }
  rewrite (bind_done _ _ _ _ _ (pset_eq _ _ _)). rewrite on_procs_cpu.
  erewrite bind_done.
  2:{ apply release_eq.
      - done.
      - simpl. lia.
      - rewrite (p_lock_view i _ (set_p_chan None q)); [done|].
        simpl. by rewrite list_lookup_alter_eq, Hp2. }
  rewrite acquire_eq.
  - f_equal. unfold locked, unlocked. rewrite p_lock_update, !on_procs_cpu.
    simpl. rewrite !set_cpu_cpu, on_procs_compose.
    f_equal. f_equal.
    + by apply cpu_push_pop.
    + apply on_procs_ext. by rewrite alter_compose_at.
  - unfold unlocked. simpl. apply (cpu_pop_ok c2); [done|simpl; lia].
  - unfold unlocked. rewrite lens_view_cpu, p_lock_update, !op_view.
    by rewrite lens_view_cpu, op_view.
Qed.
End sleep.

(** ** Claims *)

(** C32: A lock protects against interrupts and is given back exactly. *)
Theorem lock_discipline (lk : lens kernel bool) (dom : kernel -> Prop)
    `{!LensOk lk dom} (s : kernel) :
  cpu_ok (k_cpu s) -> dom s -> view lk s = false ->
  exists s1,
    acquire lk s = Done tt s1 /\ view lk s1 = true /\ intr (k_cpu s1) = false /\
    acquire lk s1 = Panic "acquire" /\ release lk s1 = Done tt s /\
    release lk s = Panic "release".
Proof.
  intros Hc Hd Hl. exists (locked lk s).
  pose proof (locked_ok s Hc) as Hc1. pose proof (locked_view s Hd) as Hv1.
  split_and!.
  - by apply acquire_eq.
  - done.
  - by rewrite locked_cpu.
  - by apply acquire_held.
  - rewrite release_eq; [by rewrite unlocked_locked|done|by apply locked_noff|done].
  - by apply release_unheld.
Qed.

Lemma kernel0_cpu_ok : cpu_ok (k_cpu kernel0).
Proof. constructor; simpl; lia || done. Qed.

Lemma lock_discipline_witness :
  exists s1, acquire wait_lockL kernel0 = Done tt s1 /\ view wait_lockL s1 = true /\
    intr (k_cpu s1) = false /\ acquire wait_lockL s1 = Panic "acquire" /\
    release wait_lockL s1 = Done tt kernel0 /\
    release wait_lockL kernel0 = Panic "release".
Proof.
  exact (lock_discipline wait_lockL always kernel0 kernel0_cpu_ok I eq_refl).
Defined.

(** The running process of a kernel where process [i] runs with [lks] locks
    held. *)
Definition running_kernel (i : nat) (p : proc) (n : Z) : kernel :=
  on_procs (<[i := p]>) (set_k_cpu (Cpu (Some i) n true (n =? 0)) kernel0).

Lemma running_kernel_lookup i p n j q :
  procs (k_pt (running_kernel i p n)) !! j = Some q -> q = p \/ q = proc0.
Proof.
  unfold running_kernel. rewrite on_procs_procs.
  intros [(_ & -> & _)|[_ Hq]]%list_lookup_insert_Some; [by left|right].
  by apply lookup_replicate_1 in Hq as [-> _].
Qed.

Lemma running_kernel_unlocked i p n :
  p_lock p = false -> procs_unlocked (running_kernel i p n).
Proof.
  intros Hp j q Hq _. by destruct (running_kernel_lookup i p n j q Hq) as [->| ->].
Qed.

(** C31: Sleepers on the channel wake up, and nothing else changes. *)
Theorem wakeup_exact (c : chan) (s : kernel) :
  cpu_ok (k_cpu s) -> length (procs (k_pt s)) = Z.to_nat NPROC -> procs_unlocked s ->
  exists ps,
    wakeup c s = Done tt (set_k_pt (set_procs ps (k_pt s)) s) /\
    length ps = length (procs (k_pt s)) /\
    forall i p, procs (k_pt s) !! i = Some p ->
      ps !! i = Some (if decide (p_state p = SLEEPING /\ p_chan p = Some c /\
                                 c_proc (k_cpu s) <> Some i)
                      then set_p_state RUNNABLE p else p).
Proof.
  intros Hc Hlen Hun.
  exists (wake_all c (c_proc (k_cpu s)) proc_ids (procs (k_pt s))). split_and!.
  - by rewrite wakeup_eq.
  - apply wake_all_length.
  - intros i p Hp. rewrite wake_all_lookup, Hp. unfold fmap, option_fmap, option_map.
    f_equal. apply lookup_lt_Some in Hp. rewrite Hlen in Hp.
    assert (i ∈ proc_ids) by (apply elem_of_seq; simpl in *; lia).
    unfold wake. destruct (decide (_ /\ _ /\ _)) as [(-> & -> & ?)|Hn].
    + rewrite decide_True by done. by rewrite !bool_decide_true.
    + case_decide as Hd; [|done]. destruct (_ && _) eqn:E; [|done].
      apply andb_true_iff in E as [E1%bool_decide_eq_true E2%bool_decide_eq_true].
      destruct Hd. tauto.
Qed.

Lemma wakeup_exact_witness :
  let s := on_procs (<[2%nat := set_p_lock false (fall_asleep ChanTicks proc0)]>)
             (running_kernel 1 (set_p_state RUNNING proc0) 0) in
  exists ps,
    wakeup ChanTicks s = Done tt (set_k_pt (set_procs ps (k_pt s)) s) /\
    length ps = length (procs (k_pt s)) /\
    forall i p, procs (k_pt s) !! i = Some p ->
      ps !! i = Some (if decide (p_state p = SLEEPING /\ p_chan p = Some ChanTicks /\
                                 c_proc (k_cpu s) <> Some i)
                      then set_p_state RUNNABLE p else p).
Proof.
  intros s. apply (wakeup_exact ChanTicks s).
  - constructor; simpl; lia || done.
  - reflexivity.
  - intros i p Hp Hi. unfold s in Hp. rewrite on_procs_procs in Hp.
    apply list_lookup_insert_Some in Hp as [(_ & <- & _)|[_ Hp]]; [done|].
    by apply (running_kernel_unlocked 1 (set_p_state RUNNING proc0) 0 eq_refl i).
Defined.

(** [kill] marks the first process with the pid and makes it runnable if it
    sleeps; without such a process it fails and changes nothing. *)
Theorem kill_correct (pid : Z) (s : kernel) :
  cpu_ok (k_cpu s) -> all_unlocked s -> length (procs (k_pt s)) = Z.to_nat NPROC ->
  (exists i p,
     procs (k_pt s) !! i = Some p /\ p_pid p = pid /\
     (forall j q, (j < i)%nat -> procs (k_pt s) !! j = Some q -> p_pid q <> pid) /\
     kill pid s = Done 0 (on_procs (<[i := set_p_killed 1
       (if decide (p_state p = SLEEPING) then set_p_state RUNNABLE p else p)]>) s)) \/
  ((forall j q, procs (k_pt s) !! j = Some q -> p_pid q <> pid) /\
   kill pid s = Done (-1) s).
Proof.
  intros Hc Hun Hlen. rewrite (kill_eq pid s) by done.
  destruct (find_pid pid (procs (k_pt s))) as [i|] eqn:E.
  - apply find_pid_Some in E as (p & Hp & Hpid & Hfirst). left. exists i, p.
    split_and!; [done|done|done|]. f_equal. apply on_procs_ext.
    apply list_eq. intros j. destruct (decide (i = j)) as [<-|].
    + rewrite list_lookup_alter_eq, Hp, list_lookup_insert_eq by by eapply lookup_lt_Some.
      simpl. f_equal. unfold kill1. case_decide.
      * by rewrite bool_decide_true.
      * by rewrite bool_decide_false.
    + by rewrite list_lookup_alter_ne, list_lookup_insert_ne.
  - right. split; [|done]. by apply find_pid_None.
Qed.

Lemma kill_correct_witness :
  let s := running_kernel 1 (set_p_pid 7 (set_p_state RUNNING proc0)) 0 in
  (exists i p,
     procs (k_pt s) !! i = Some p /\ p_pid p = 7 /\
     (forall j q, (j < i)%nat -> procs (k_pt s) !! j = Some q -> p_pid q <> 7) /\
     kill 7 s = Done 0 (on_procs (<[i := set_p_killed 1
       (if decide (p_state p = SLEEPING) then set_p_state RUNNABLE p else p)]>) s)) \/
  ((forall j q, procs (k_pt s) !! j = Some q -> p_pid q <> 7) /\
   kill 7 s = Done (-1) s).
Proof.
  intros s. apply (kill_correct 7 s).
  - constructor; simpl; lia || done.
  - apply Forall_lookup_2. intros j q Hq.
    destruct (running_kernel_lookup 1 _ 0 j q Hq) as [->| ->]; reflexivity.
  - reflexivity.
Defined.
