(* ===== verification/Quiet.v ===== *)
(** * Paths that run alone

    What a path does when no other process waits for anything: [wakeup]
    finds nobody, and sleep locks that are free are taken at once.  The
    sequential specifications of the buffer cache, the log and the file
    system are stated in such states. *)

From S2P Require Import Prelude Params Memory Kalloc State Sched SchedSpec.

(** ** Composed access paths *)

Class FieldOk {T U} (r : lens T U) (P : T -> Prop) : Prop := {
  field_get_put u t : P t -> view r (update r u t) = u;
  field_put_put u u' t : P t -> update r u' (update r u t) = update r u' t;
  field_put_get t : P t -> update r (view r t) t = t;
  field_dom u t : P t -> P (update r u t);
}.

Definition everywhere {T} (t : T) : Prop := True.

#[export] Instance lcomp_ok {T U} (l : lens kernel T) dom (r : lens T U) P :
  LensOk l dom -> FieldOk r P ->
  LensOk (l ∘l r) (fun s => dom s /\ P (view l s)).
Proof.
  intros Hl Hr. constructor; simpl.
  - intros c s. by rewrite lens_view_cpu.
  - intros t s. by rewrite lens_cpu_update.
  - intros c t s. by rewrite lens_view_cpu, lens_update_cpu.
  - intros c s [Hd HP]. rewrite lens_view_cpu. split; [by apply lens_dom_cpu|done].
  - intros t s [Hd HP]. rewrite lens_get_put by done.
    split; [by apply lens_dom_update|by apply field_dom].
  - intros t s [Hd HP]. rewrite lens_get_put by done. by apply field_get_put.
  - intros t t' s [Hd HP]. rewrite lens_get_put, lens_put_put by done.
    by rewrite field_put_put.
  - intros s [Hd HP]. rewrite field_put_get by done. by apply lens_put_get.
Qed.

#[export] Instance lcomp_outside {T U} (l : lens kernel T) dom (r : lens T U) P :
  OutsideProcs l dom -> FieldOk r P ->
  OutsideProcs (l ∘l r) (fun s => dom s /\ P (view l s)).
Proof.
  intros Hl Hr. constructor; simpl.
  - intros f s [Hd HP]. rewrite op_view. split; [by apply op_dom|done].
  - intros f s. by rewrite op_view.
  - intros f t s. by rewrite op_update, op_view.
  - intros t s. by rewrite op_procs.
Qed.

#[export] Instance nth_ok {A} `{Inhabited A} i :
  FieldOk (nthL (A := A) i) (fun l => (i < length l)%nat).
Proof.
  constructor; simpl; intros.
  - by apply list_insert_lookup_total.
  - apply list_insert_insert_eq.
  - by apply list_insert_total_id.
  - by rewrite length_insert.
Qed.

#[export] Instance bc_lock_field : FieldOk (Lens bc_lock set_bc_lock) everywhere.
Proof. constructor; unfold everywhere; intros; trivial; by destruct t. Qed.
#[export] Instance bc_buf_field : FieldOk (Lens bc_buf set_bc_buf) everywhere.
Proof. constructor; unfold everywhere; intros; trivial; by destruct t. Qed.
#[export] Instance b_lock_field : FieldOk (Lens b_lock set_b_lock) everywhere.
Proof. constructor; unfold everywhere; intros; trivial; by destruct t. Qed.
#[export] Instance sl_lk_field : FieldOk (Lens sl_lk set_sl_lk) everywhere.
Proof. constructor; unfold everywhere; intros; trivial; by destruct t. Qed.
#[export] Instance log_lock_field : FieldOk (Lens log_lock set_log_lock) everywhere.
Proof. constructor; unfold everywhere; intros; trivial; by destruct t. Qed.
#[export] Instance it_lock_field : FieldOk (Lens it_lock set_it_lock) everywhere.
Proof. constructor; unfold everywhere; intros; trivial; by destruct t. Qed.
#[export] Instance it_inode_field : FieldOk (Lens it_inode set_it_inode) everywhere.
Proof. constructor; unfold everywhere; intros; trivial; by destruct t. Qed.
#[export] Instance i_lock_field : FieldOk (Lens i_lock set_i_lock) everywhere.
Proof. constructor; unfold everywhere; intros; trivial; by destruct t. Qed.
#[export] Instance ft_lock_field : FieldOk (Lens ft_lock set_ft_lock) everywhere.
Proof. constructor; unfold everywhere; intros; trivial; by destruct t. Qed.
#[export] Instance ft_file_field : FieldOk (Lens ft_file set_ft_file) everywhere.
Proof. constructor; unfold everywhere; intros; trivial; by destruct t. Qed.
#[export] Instance uart_lock_field : FieldOk (Lens uart_tx_lock set_uart_tx_lock) everywhere.
Proof. constructor; unfold everywhere; intros; trivial; by destruct t. Qed.
#[export] Instance cons_lock_field : FieldOk (Lens cons_lock set_cons_lock) everywhere.
Proof. constructor; unfold everywhere; intros; trivial; by destruct t. Qed.
#[export] Instance pi_lock_field : FieldOk (Lens pi_lock set_pi_lock) everywhere.
Proof. constructor; unfold everywhere; intros; trivial; by destruct t. Qed.

Ltac solve_component :=
  split; (constructor; unfold always; intros; trivial;
    match goal with s : kernel |- _ => destruct s as [? ? []] end; reflexivity).

(** The components of the kernel other than the processor and the process
    table. *)
Lemma bc_component : LensOk bcL always /\ OutsideProcs bcL always.
Proof. solve_component. Qed.
Lemma log_component : LensOk logL always /\ OutsideProcs logL always.
Proof. solve_component. Qed.
Lemma it_component : LensOk itL always /\ OutsideProcs itL always.
Proof. solve_component. Qed.
Lemma ft_component : LensOk ftL always /\ OutsideProcs ftL always.
Proof. solve_component. Qed.
Lemma uart_component : LensOk uartL always /\ OutsideProcs uartL always.
Proof. solve_component. Qed.
Lemma cons_component : LensOk consL always /\ OutsideProcs consL always.
Proof. solve_component. Qed.
Lemma pipes_component : LensOk pipesL always /\ OutsideProcs pipesL always.
Proof. solve_component. Qed.

#[export] Instance bcL_ok : LensOk bcL always := proj1 bc_component.
#[export] Instance bcL_out : OutsideProcs bcL always := proj2 bc_component.
#[export] Instance logL_ok : LensOk logL always := proj1 log_component.
#[export] Instance logL_out : OutsideProcs logL always := proj2 log_component.
#[export] Instance itL_ok : LensOk itL always := proj1 it_component.
#[export] Instance itL_out : OutsideProcs itL always := proj2 it_component.
#[export] Instance ftL_ok : LensOk ftL always := proj1 ft_component.
#[export] Instance ftL_out : OutsideProcs ftL always := proj2 ft_component.
#[export] Instance uartL_ok : LensOk uartL always := proj1 uart_component.
#[export] Instance uartL_out : OutsideProcs uartL always := proj2 uart_component.
#[export] Instance consL_ok : LensOk consL always := proj1 cons_component.
#[export] Instance consL_out : OutsideProcs consL always := proj2 cons_component.
#[export] Instance pipesL_ok : LensOk pipesL always := proj1 pipes_component.
#[export] Instance pipesL_out : OutsideProcs pipesL always := proj2 pipes_component.

#[export] Instance map_at_ok (pi : Z) :
  FieldOk (Lens (fun m : gmap Z pipe => m !!! pi) (fun p m => <[pi := p]> m))
    (fun m => is_Some (m !! pi)).
Proof.
  constructor; simpl.
  - intros u t _. apply lookup_total_insert_eq.
  - intros u u' t _. apply insert_insert_eq.
  - intros t [x Hx]. apply insert_id. by rewrite (lookup_total_correct _ _ _ Hx).
  - intros u t _. rewrite lookup_insert_eq. by eexists.
Qed.

(** ** The locks *)

Lemma lens_dom_iff {T} (l : lens kernel T) dom dom' :
  (forall s, dom' s <-> dom s) -> LensOk l dom -> LensOk l dom'.
Proof.
  intros E Hl. constructor; intros.
  - apply lens_view_cpu.
  - apply lens_cpu_update.
  - apply lens_update_cpu.
  - apply E, lens_dom_cpu, E. done.
  - apply E, lens_dom_update, E. done.
  - apply lens_get_put, E. done.
  - apply lens_put_put, E. done.
  - apply lens_put_get, E. done.
Qed.

Lemma outside_dom_iff {T} (l : lens kernel T) dom dom' :
  (forall s, dom' s <-> dom s) -> OutsideProcs l dom -> OutsideProcs l dom'.
Proof.
  intros E Hl. constructor; intros.
  - apply E, op_dom, E. done.
  - apply op_view.
  - apply op_update.
  - apply op_procs.
Qed.

Ltac solve_path :=
  match goal with
  | |- LensOk _ _ => eapply lens_dom_iff; [|apply _]
  | |- OutsideProcs _ _ => eapply outside_dom_iff; [|apply _]
  end; unfold always, everywhere; simpl; tauto.

Definition buf_dom (i : nat) (s : kernel) : Prop := (i < length (bc_buf (k_bc s)))%nat.
Definition inode_dom (i : nat) (s : kernel) : Prop := (i < length (it_inode (k_it s)))%nat.
Definition file_dom (i : nat) (s : kernel) : Prop := (i < length (ft_file (k_ft s)))%nat.
Definition pipe_dom (pi : Z) (s : kernel) : Prop := is_Some (k_pipes s !! pi).

#[export] Instance bufL_ok i : LensOk (bufL i) (buf_dom i).
Proof. unfold bufL, buf_dom. solve_path. Qed.
#[export] Instance bufL_out i : OutsideProcs (bufL i) (buf_dom i).
Proof. unfold bufL, buf_dom. solve_path. Qed.
#[export] Instance inodeL_ok i : LensOk (inodeL i) (inode_dom i).
Proof. unfold inodeL, inode_dom. solve_path. Qed.
#[export] Instance inodeL_out i : OutsideProcs (inodeL i) (inode_dom i).
Proof. unfold inodeL, inode_dom. solve_path. Qed.
#[export] Instance fileL_ok i : LensOk (fileL i) (file_dom i).
Proof. unfold fileL, file_dom. solve_path. Qed.
#[export] Instance fileL_out i : OutsideProcs (fileL i) (file_dom i).
Proof. unfold fileL, file_dom. solve_path. Qed.
#[export] Instance pipeL_ok pi : LensOk (pipeL pi) (pipe_dom pi).
Proof. unfold pipeL, pipe_dom. solve_path. Qed.
#[export] Instance pipeL_out pi : OutsideProcs (pipeL pi) (pipe_dom pi).
Proof. unfold pipeL, pipe_dom. solve_path. Qed.
#[export] Instance b_lockL_ok i : LensOk (b_lockL i) (buf_dom i).
Proof. unfold b_lockL. solve_path. Qed.
#[export] Instance b_lockL_out i : OutsideProcs (b_lockL i) (buf_dom i).
Proof. unfold b_lockL. solve_path. Qed.
#[export] Instance i_lockL_ok i : LensOk (i_lockL i) (inode_dom i).
Proof. unfold i_lockL. solve_path. Qed.
#[export] Instance i_lockL_out i : OutsideProcs (i_lockL i) (inode_dom i).
Proof. unfold i_lockL. solve_path. Qed.
#[export] Instance bc_lockL_ok : LensOk bc_lockL always.
Proof. unfold bc_lockL. solve_path. Qed.
#[export] Instance bc_lockL_out : OutsideProcs bc_lockL always.
Proof. unfold bc_lockL. solve_path. Qed.
#[export] Instance log_lockL_ok : LensOk log_lockL always.
Proof. unfold log_lockL. solve_path. Qed.
#[export] Instance log_lockL_out : OutsideProcs log_lockL always.
Proof. unfold log_lockL. solve_path. Qed.
#[export] Instance it_lockL_ok : LensOk it_lockL always.
Proof. unfold it_lockL. solve_path. Qed.
#[export] Instance it_lockL_out : OutsideProcs it_lockL always.
Proof. unfold it_lockL. solve_path. Qed.
#[export] Instance ft_lockL_ok : LensOk ft_lockL always.
Proof. unfold ft_lockL. solve_path. Qed.
#[export] Instance ft_lockL_out : OutsideProcs ft_lockL always.
Proof. unfold ft_lockL. solve_path. Qed.
#[export] Instance uart_lockL_ok : LensOk uart_lockL always.
Proof. unfold uart_lockL. solve_path. Qed.
#[export] Instance uart_lockL_out : OutsideProcs uart_lockL always.
Proof. unfold uart_lockL. solve_path. Qed.
#[export] Instance cons_lockL_ok : LensOk cons_lockL always.
Proof. unfold cons_lockL. solve_path. Qed.
#[export] Instance cons_lockL_out : OutsideProcs cons_lockL always.
Proof. unfold cons_lockL. solve_path. Qed.
#[export] Instance pi_lockL_ok pi : LensOk (pi_lockL pi) (pipe_dom pi).
Proof. unfold pi_lockL. solve_path. Qed.
#[export] Instance pi_lockL_out pi : OutsideProcs (pi_lockL pi) (pipe_dom pi).
Proof. unfold pi_lockL. solve_path. Qed.
#[export] Instance sl_lkL_ok l dom : LensOk l dom -> LensOk (sl_lkL l) dom.
Proof. intros. unfold sl_lkL. solve_path. Qed.
#[export] Instance sl_lkL_out l dom : OutsideProcs l dom -> OutsideProcs (sl_lkL l) dom.
Proof. intros. unfold sl_lkL. solve_path. Qed.

(** ** Quiet states *)

(** Process [me] runs, no process lock is held, and nobody else sleeps. *)
Record quiet (me : nat) (q : proc) (s : kernel) : Prop := {
  quiet_cpu : cpu_ok (k_cpu s);
  quiet_me : c_proc (k_cpu s) = Some me;
  quiet_procs : length (procs (k_pt s)) = Z.to_nat NPROC;
  quiet_proc : procs (k_pt s) !! me = Some q;
  quiet_unlocked : all_unlocked s;
  quiet_awake : forall i p, procs (k_pt s) !! i = Some p -> i <> me ->
    p_state p <> SLEEPING;
}.

Lemma all_unlocked_others s : all_unlocked s -> procs_unlocked s.
Proof. intros H i p Hp _. by apply (Forall_lookup_1 _ _ _ _ H Hp). Qed.

Lemma wakeup_quiet me q c s : quiet me q s -> wakeup c s = Done tt s.
Proof.
  intros [Hc Hm Hlen Hq Hun Haw]. rewrite wakeup_eq; auto using all_unlocked_others.
  f_equal. apply on_procs_id, list_eq. intros i. rewrite wake_all_lookup.
  destruct (procs (k_pt s) !! i) as [p|] eqn:Hp; [|done].
  unfold fmap, option_fmap, option_map. f_equal. case_decide as Hd; [|done].
  unfold wake. rewrite bool_decide_false; [done|]. apply (Haw i p Hp).
  intros ->. destruct Hd. congruence.
Qed.

(** Quiet states stay quiet under updates elsewhere. *)
Lemma quiet_update {T} (l : lens kernel T) dom `{!LensOk l dom, !OutsideProcs l dom}
    me q t s : quiet me q s -> quiet me q (update l t s).
Proof.
  intros []. constructor; unfold all_unlocked in *; rewrite ?lens_cpu_update, ?op_procs;
    done.
Qed.

Lemma quiet_same me q s s' :
  quiet me q s -> k_cpu s' = k_cpu s -> procs (k_pt s') = procs (k_pt s) -> quiet me q s'.
Proof.
  intros [] E1 E2. constructor; unfold all_unlocked in *; rewrite ?E1, ?E2; done.
Qed.

(** ** Sleep locks that are free *)

Section sleeplock.
Context (l : lens kernel sleeplock) (dom : kernel -> Prop) (c : chan).
Context `{Fuel, !LensOk l dom, !OutsideProcs l dom}.

Lemma slget_eq {A} (f : sleeplock -> A) s : slget l f s = Done (f (view l s)) s.
Proof using. done. Qed.

Lemma slset_eq f s : slset l f s = Done tt (update l (f (view l s)) s).
Proof using. done. Qed.

Lemma initsleeplock_eq s :
  dom s -> initsleeplock l s = Done tt (update l sleeplock0 s).
Proof using LensOk0.
  intros Hd. unfold initsleeplock, initlock.
  rewrite (bind_done _ _ _ tt (update l (set_sl_lk false (view l s)) s)) by done.
  rewrite (bind_done _ _ _ _ _ (slset_eq _ _)), slset_eq. f_equal.
  rewrite !lens_get_put by (repeat apply lens_dom_update; done).
  by rewrite !lens_put_put by (repeat apply lens_dom_update; done).
Qed.

Lemma locked_sl s :
  dom s -> locked (sl_lkL l) s =
    update l (set_sl_lk true (view l s)) (set_k_cpu (cpu_push (k_cpu s)) s).
Proof using LensOk0. intros Hd. unfold locked, sl_lkL. simpl. by rewrite lens_view_cpu. Qed.

(** The end of each routine: the state of the lock record [t] under its spin
    lock becomes visible. *)
Lemma release_sl t s :
  cpu_ok (k_cpu s) -> dom s -> sl_lk t = false ->
  release (sl_lkL l) (update l (set_sl_lk true t) (set_k_cpu (cpu_push (k_cpu s)) s)) =
    Done tt (update l t s).
Proof using LensOk0.
  intros Hc Hd Ht.
  assert (Hd' := lens_dom_cpu (l := l) (cpu_push (k_cpu s)) s Hd).
  rewrite release_eq.
  - f_equal. unfold unlocked, sl_lkL. simpl.
    rewrite lens_get_put, lens_put_put, lens_cpu_update by done. simpl.
    rewrite cpu_pop_push by done.
    rewrite lens_update_cpu, set_cpu_cpu.
    replace (set_sl_lk false (set_sl_lk true t)) with t by (destruct t; simpl in *; by subst).
    rewrite <-(lens_cpu_update (l := l) t s). by rewrite set_cpu_id.
  - rewrite lens_cpu_update. by apply cpu_push_ok.
  - rewrite lens_cpu_update. destruct Hc. simpl. lia.
  - unfold sl_lkL. simpl. by rewrite lens_get_put.
Qed.

Lemma acquire_sl s :
  cpu_ok (k_cpu s) -> dom s -> sl_lk (view l s) = false ->
  acquire (sl_lkL l) s =
    Done tt (update l (set_sl_lk true (view l s)) (set_k_cpu (cpu_push (k_cpu s)) s)).
Proof using LensOk0. intros Hc Hd Hl. rewrite acquire_eq by done. by rewrite locked_sl. Qed.

Lemma mypid_eq me q s :
  quiet me q s -> (p <- myproc' ;; pget p p_pid) s = Done (p_pid q) s.
Proof using.
  intros [Hc Hm Hlen Hq Hun Haw].
  rewrite (bind_done _ _ _ _ _ (myproc'_eq s me Hc Hm)). by apply pget_eq.
Qed.
(** The state under the spin lock of the sleep lock, whose record is [t]. *)
Definition inside (t : sleeplock) (s : kernel) : kernel :=
  update l t (set_k_cpu (cpu_push (k_cpu s)) s).

Lemma inside_quiet t me q s : quiet me q s -> quiet me q (inside t s).
Proof using LensOk0 OutsideProcs0.
  intros Hq. unfold inside. eapply quiet_update; [done|done|].
  destruct Hq. constructor; simpl; try done. by apply cpu_push_ok.
Qed.

Lemma slset_inside f t s : dom s -> slset l f (inside t s) = Done tt (inside (f t) s).
Proof using LensOk0.
  intros Hd. assert (Hd' := lens_dom_cpu (l := l) (cpu_push (k_cpu s)) s Hd).
  unfold slset, setf, modify, inside. by rewrite lens_get_put, lens_put_put by done.
Qed.

Lemma slget_inside {A} (f : sleeplock -> A) t s :
  dom s -> slget l f (inside t s) = Done (f t) (inside t s).
Proof using LensOk0.
  intros Hd. assert (Hd' := lens_dom_cpu (l := l) (cpu_push (k_cpu s)) s Hd).
  unfold slget, getf, gets, inside. by rewrite lens_get_put.
Qed.

Lemma acquiresleep_eq me q s pid :
  quiet me q s -> dom s -> view l s = Sleeplock false false pid ->
  acquiresleep l c s = Done tt (update l (Sleeplock true false (p_pid q)) s).
Proof using LensOk0 OutsideProcs0.
  intros Hq Hd Hv. assert (Hc := quiet_cpu _ _ _ Hq). unfold acquiresleep.
  rewrite (bind_done _ _ _ _ _ (acquire_sl s Hc Hd ltac:(by rewrite Hv))).
  fold (inside (set_sl_lk true (view l s)) s). rewrite Hv. simpl (set_sl_lk _ _).
  rewrite (bind_done (wait_while _ _ _) _ _ tt (inside (Sleeplock false true pid) s)).
  2:{ unfold wait_while. cbn [loop].
      rewrite (bind_done _ _ _ (inr tt) (inside (Sleeplock false true pid) s));
        [reflexivity|].
      by rewrite (bind_done _ _ _ _ _ (slget_inside _ _ _ Hd)). }
  rewrite (bind_done _ _ _ _ _ (slset_inside _ _ _ Hd)).
  assert (Hq1 := inside_quiet (Sleeplock true true pid) me q s Hq).
  rewrite (bind_done _ _ _ _ _ (myproc'_eq _ me (quiet_cpu _ _ _ Hq1) (quiet_me _ _ _ Hq1))).
  rewrite (bind_done _ _ _ _ _ (pget_eq me p_pid _ q (quiet_proc _ _ _ Hq1))).
  rewrite (bind_done _ _ _ _ _ (slset_inside _ _ _ Hd)).
  by apply (release_sl (Sleeplock true false (p_pid q))).
Qed.

Lemma releasesleep_eq me q s pid :
  quiet me q s -> dom s -> view l s = Sleeplock true false pid ->
  releasesleep l c s = Done tt (update l (Sleeplock false false 0) s).
Proof using LensOk0 OutsideProcs0.
  intros Hq Hd Hv. assert (Hc := quiet_cpu _ _ _ Hq). unfold releasesleep.
  rewrite (bind_done _ _ _ _ _ (acquire_sl s Hc Hd ltac:(by rewrite Hv))).
  fold (inside (set_sl_lk true (view l s)) s). rewrite Hv. simpl (set_sl_lk _ _).
  rewrite (bind_done _ _ _ _ _ (slset_inside _ _ _ Hd)).
  rewrite (bind_done _ _ _ _ _ (slset_inside _ _ _ Hd)). simpl (set_sl_pid _ _).
  rewrite (bind_done _ _ _ _ _ (wakeup_quiet me q c _ (inside_quiet _ me q s Hq))).
  by apply (release_sl (Sleeplock false false 0)).
Qed.

Lemma holdingsleep_eq me q s t :
  quiet me q s -> dom s -> view l s = t -> sl_lk t = false ->
  holdingsleep l s = Done (sl_locked t && (sl_pid t =? p_pid q)) s.
Proof using LensOk0 OutsideProcs0.
  intros Hq Hd Hv Ht. assert (Hc := quiet_cpu _ _ _ Hq). unfold holdingsleep.
  rewrite (bind_done _ _ _ _ _ (acquire_sl s Hc Hd ltac:(by rewrite Hv))).
  fold (inside (set_sl_lk true (view l s)) s). rewrite Hv.
  rewrite (bind_done _ _ _ _ _ (slget_inside _ _ _ Hd)).
  rewrite (bind_done _ _ _ _ _ (slget_inside _ _ _ Hd)).
  assert (Hq1 := inside_quiet (set_sl_lk true t) me q s Hq).
  rewrite (bind_done _ _ _ _ _ (myproc'_eq _ me (quiet_cpu _ _ _ Hq1) (quiet_me _ _ _ Hq1))).
  rewrite (bind_done _ _ _ _ _ (pget_eq me p_pid _ q (quiet_proc _ _ _ Hq1))).
  erewrite bind_done; [|by apply (release_sl t)].
  rewrite <-Hv, lens_put_get by done. done.
Qed.
End sleeplock.

(** ** A spin lock around an update of its own component

    [acquire lk; m; release lk] where [lk] is free and [m] leaves the
    processor alone. *)
Lemma locked_quiet (lk : lens kernel bool) dom `{!LensOk lk dom, !OutsideProcs lk dom}
    me q s : quiet me q s -> quiet me q (locked lk s).
Proof.
  intros [Hc Hm Hlen Hq Hun Haw]. unfold locked.
  constructor; unfold all_unlocked in *; rewrite ?lens_cpu_update, ?op_procs; simpl; try done.
  by apply cpu_push_ok.
Qed.
