(* ===== verification/Sleeping.v ===== *)
(** * Paths that sleep

    What a path of kernel/proc.c, kernel/pipe.c or kernel/uart.c meets when it
    gives the processor away in [sleep]: the state in which it leaves, and the
    state in which it goes on.  Between the two the other processes may have
    done anything to the kernel. *)

From S2P Require Import Prelude Params Memory Kalloc State Sched SchedSpec Quiet.

(** Process [me] runs and no process lock is held; others may sleep. *)
Record running (me : nat) (q : proc) (s : kernel) : Prop := {
  rn_cpu : cpu_ok (k_cpu s);
  rn_me : c_proc (k_cpu s) = Some me;
  rn_procs : length (procs (k_pt s)) = Z.to_nat NPROC;
  rn_proc : procs (k_pt s) !! me = Some q;
  rn_unlocked : all_unlocked s;
}.

(** [me] is resumed by the scheduler, with its lock held and no other. *)
Record resumes (me : nat) (q : proc) (s2 : kernel) : Prop := {
  re_cpu : cpu_ok (k_cpu s2);
  re_noff : noff (k_cpu s2) = 1;
  re_me : c_proc (k_cpu s2) = Some me;
  re_procs : length (procs (k_pt s2)) = Z.to_nat NPROC;
  re_proc : procs (k_pt s2) !! me = Some q;
  re_locked : p_lock q = true;
  re_others : forall j p, procs (k_pt s2) !! j = Some p -> j <> me -> p_lock p = false;
}.

(** The state in which [me] sleeps on [c], and the state it comes back to. *)
Definition dozing (c : chan) (me : nat) (s : kernel) : kernel :=
  set_k_cpu (cpu_push (k_cpu s)) (on_procs (alter (fall_asleep c) me) s).
Definition returned (me : nat) (s s2 : kernel) : kernel :=
  set_k_cpu (cpu_pop (set_intena (intena (k_cpu s)) (k_cpu s2))) (on_procs (alter wake_up me) s2).

(** The sleepers on [c] other than [me] are runnable. *)
Definition woken (c : chan) (me : nat) (s : kernel) : kernel := on_procs (wake_all c (Some me) proc_ids) s.

Section running.
Context (me : nat) (q : proc).

Lemma quiet_running s : quiet me q s -> running me q s.
Proof using. by intros []. Qed.

Lemma running_same s s' : running me q s -> k_cpu s' = k_cpu s -> procs (k_pt s') = procs (k_pt s) -> running me q s'.
Proof using. intros [] E1 E2. constructor; unfold all_unlocked in *; rewrite ?E1, ?E2; done. Qed.

Lemma running_lock s : running me q s -> p_lock q = false.
Proof using. intros []. by apply (Forall_lookup_1 _ _ _ _ rn_unlocked0 rn_proc0). Qed.

Lemma running_push s : running me q s -> running me q (set_k_cpu (cpu_push (k_cpu s)) s).
Proof using. intros []. constructor; try done. by apply cpu_push_ok. Qed.

Lemma running_update {T} (l : lens kernel T) dom `{!LensOk l dom, !OutsideProcs l dom} t s :
  running me q s -> running me q (update l t s).
Proof using. intros []. constructor; unfold all_unlocked in *; rewrite ?lens_cpu_update, ?op_procs; done. Qed.

Lemma wakeup_running c s : running me q s -> wakeup c s = Done tt (woken c me s).
Proof using. intros []. rewrite wakeup_eq; [|done|done|by apply all_unlocked_others]. by rewrite rn_me0. Qed.

Lemma woken_running c s : running me q s -> running me q (woken c me s).
Proof using.
  intros [H1 H2 H3 H4 H5]. unfold woken. constructor; [done|done|by rewrite on_procs_procs, wake_all_length|..].
  - rewrite on_procs_procs, wake_all_lookup, H4. cbn. f_equal. rewrite decide_False; [done|]. by intros [_ []].
  - apply Forall_lookup_2. intros i p Hp. rewrite on_procs_procs, wake_all_lookup in Hp.
    destruct (procs (k_pt s) !! i) as [p0|] eqn:E; [|done]. cbn in Hp. injection Hp as <-.
    pose proof (Forall_lookup_1 _ _ _ _ H5 E) as Hl. cbv beta in Hl. case_decide; [by rewrite wake_lock|done].
Qed.

(** Waking the same sleepers twice is waking them once. *)
Lemma woken_twice c s : woken c me (woken c me s) = woken c me s.
Proof using.
  unfold woken. rewrite on_procs_compose. apply on_procs_ext, list_eq. intros i. rewrite !wake_all_lookup.
  destruct (procs (k_pt s) !! i) as [p|]; [|done]. cbn. f_equal. case_decide; [|done]. unfold wake.
  by destruct (bool_decide (p_state p = SLEEPING) && bool_decide (p_chan p = Some c)) eqn:E; rewrite ?E.
Qed.

Lemma resumes_running s s2 q2 : resumes me q2 s2 -> running me (wake_up q2) (returned me s s2).
Proof using.
  intros [H1 H2 H3 H4 H5 H6 H7]. constructor.
  - apply cpu_pop_ok; [|cbn; lia]. destruct H1. constructor; cbn; auto; lia.
  - done.
  - cbn. by rewrite length_alter.
  - cbn. by rewrite list_lookup_alter_eq, H5.
  - apply Forall_lookup_2. intros j p Hj. cbn in Hj. destruct (decide (j = me)) as [->|Hne].
    + rewrite list_lookup_alter_eq, H5 in Hj. by injection Hj as <-.
    + rewrite list_lookup_alter_ne in Hj by done. by apply (H7 j p).
Qed.

(** [sleep] under the lock [lk] and no other: [lk] is free while [me] sleeps, and held again when it goes on. *)
Lemma sleep_section (lk : lens kernel bool) dom `{!LensOk lk dom, !OutsideProcs lk dom} c s :
  running me q s -> noff (k_cpu s) = 0 -> dom s -> view lk s = false ->
  exists k, sleep c lk (locked lk s) = Switch (dozing c me s) k /\
    forall s2 q2, resumes me q2 s2 -> dom s2 -> view lk s2 = false -> k s2 = Done tt (locked lk (returned me s s2)).
Proof using.
  intros Hr Hn Hd Hv. pose proof (running_lock s Hr) as Hlk. destruct Hr as [H1 H2 H3 H4 H5].
  assert (Hdl : dom (set_k_cpu (cpu_push (k_cpu s)) s)) by by apply lens_dom_cpu.
  destruct (sleep_eq (lk := lk) (dom := dom) c (locked lk s) me q) as (k & Ek & Hres).
  - by apply locked_ok.
  - rewrite locked_cpu. cbn. lia.
  - by rewrite locked_cpu.
  - unfold locked. by rewrite op_procs.
  - done.
  - unfold locked. by apply lens_dom_update.
  - by apply locked_view.
  - exists k. split.
    + rewrite Ek. f_equal. unfold locked, dozing. rewrite op_update, on_procs_cpu.
      assert (Hd2 : dom (set_k_cpu (cpu_push (k_cpu s)) (on_procs (alter (fall_asleep c) me) s))) by by apply lens_dom_cpu, op_dom.
      rewrite lens_put_put by done. replace false with (view lk (set_k_cpu (cpu_push (k_cpu s)) (on_procs (alter (fall_asleep c) me) s)))
        by by rewrite lens_view_cpu, op_view.
      by apply lens_put_get.
    + intros s2 q2 [R1 R2 R3 R4 R5 R6 R7] Hd2 Hv2. rewrite (Hres s2 q2) by done. f_equal. rewrite locked_cpu.
      unfold locked, returned. cbn [k_cpu set_k_cpu]. rewrite cpu_push_pop; [done| |done]. destruct R1. constructor; cbn; auto; lia.
Qed.

(** The scheduler chooses [me] again at once. *)
Definition run_again (c : chan) (s : kernel) : kernel := on_procs (alter (set_p_state RUNNING) me) (dozing c me s).

Lemma run_again_resumes c s : running me q s -> noff (k_cpu s) = 0 ->
  resumes me (set_p_state RUNNING (fall_asleep c q)) (run_again c s).
Proof using.
  intros [H1 H2 H3 H4 H5] Hn. unfold run_again, dozing. constructor; try done.
  - by apply cpu_push_ok.
  - cbn. lia.
  - cbn. by rewrite !length_alter.
  - cbn. by rewrite !list_lookup_alter_eq, H4.
  - intros j p Hj Hne. cbn in Hj. rewrite !list_lookup_alter_ne in Hj by done. by apply (Forall_lookup_1 _ _ _ _ H5 Hj).
Qed.

Lemma resumes_same q2 s s' : resumes me q2 s -> k_cpu s' = k_cpu s -> procs (k_pt s') = procs (k_pt s) -> resumes me q2 s'.
Proof using. intros [] E1 E2. constructor; rewrite ?E1, ?E2; done. Qed.
End running.
