(* ===== verification/Kcopy.v ===== *)
(** * Memory as the rest of the kernel uses it

    Physical memory and the page allocator inside the kernel's state, and
    [either_copyout] and [either_copyin] of kernel/proc.c.  The kernel side of
    a transfer is the list of its bytes; the other side is a user address, a
    physical address, or a variable on the kernel stack. *)

From S2P Require Import Prelude Params Memory Kalloc Vm State Sched.

(** Paths of kalloc.c and vm.c inside the kernel. *)
Abbreviation onmem := (lift memL).

Definition rd64 (a : Z) : K Z := onmem (read64 a).
Definition wr64 (a v : Z) : K unit := onmem (write64 a v).

Inductive dest := ToUser (va : Z) | ToPhys (pa : Z) | ToLocal.
Inductive source := FromUser (va : Z) | FromPhys (pa : Z) | FromLocal (bs : list Z).

(** The place [n] bytes further on. *)
Definition dest_add (d : dest) (n : Z) : dest :=
  match d with
  | ToUser va => ToUser (u64 (va + n))
  | ToPhys pa => ToPhys (u64 (pa + n))
  | ToLocal => ToLocal
  end.

Definition source_add (d : source) (n : Z) : source :=
  match d with
  | FromUser va => FromUser (u64 (va + n))
  | FromPhys pa => FromPhys (u64 (pa + n))
  | FromLocal bs => FromLocal (drop (Z.to_nat n) bs)
  end.

Definition either_copyout (dst : dest) (src : list Z) : K Z :=
  p <- myproc' ;;
  match dst with
  | ToUser va =>
      pagetable <- pget p p_pagetable ;;
      onmem (copyout pagetable va src)
  | ToPhys pa =>
      setf memL (fun m => set_phys (write_bytes (phys m) pa src) m) ;; ret 0
  | ToLocal => ret 0
  end.

Definition either_copyin (src : source) (len : Z) : K (Z * list Z) :=
  p <- myproc' ;;
  match src with
  | FromUser va =>
      pagetable <- pget p p_pagetable ;;
      onmem (copyin pagetable va len)
  | FromPhys pa =>
      bs <- getf memL (fun m => read_bytes (phys m) pa (Z.to_nat len)) ;;
      ret (0, bs)
  | FromLocal bs => ret (0, take (Z.to_nat len) bs)
  end.
