(* ===== verification/Uart.v ===== *)
(** * The serial line and kernel output: kernel/uart.c and kernel/printf.c

    The 16550 itself is outside the program: [tx_time] says how long it
    stays busy after a byte, [uart_sent] records what it was given. *)

From S2P Require Import Prelude Params Memory Kalloc Block State Sched.

Definition UART_TX_BUF_SIZE : Z := 32.

(** The control registers. *)
Definition RHR : Z := 0.
Definition THR : Z := 0.
Definition IER : Z := 1.
Definition IER_RX_ENABLE : Z := Z.shiftl 1 0.
Definition IER_TX_ENABLE : Z := Z.shiftl 1 1.
Definition FCR : Z := 2.
Definition FCR_FIFO_ENABLE : Z := Z.shiftl 1 0.
Definition FCR_FIFO_CLEAR : Z := Z.shiftl 3 1.
Definition LCR : Z := 3.
Definition LCR_EIGHT_BITS : Z := Z.shiftl 3 0.
Definition LCR_BAUD_LATCH : Z := Z.shiftl 1 7.

Definition uget {A} (f : uart -> A) : K A := getf uartL f.
Definition uset (f : uart -> uart) : K unit := setf uartL f.

(** A write to a control register. *)
Definition WriteReg (reg v : Z) : K unit :=
  uset (fun u => set_uart_conf (uart_conf u ++ [(reg, v)]) u).

Section uart.
Context `{Fuel, UartHw}.

(** [ReadReg(LSR) & LSR_TX_IDLE] *)
Definition tx_idle : K bool :=
  busy <- uget uart_busy ;;
  match busy with
  | O => ret true
  | S busy' => uset (set_uart_busy busy') ;; ret false
  end.

(** [WriteReg(THR, c)]; the register is eight bits wide. *)
Definition write_THR (c : Z) : K unit :=
  uset (fun u =>
    set_uart_busy (tx_time (length (uart_sent u)))
      (set_uart_sent (uart_sent u ++ [u8 c]) u)).

Definition uartinit : K unit :=
  WriteReg IER 0x00 ;;
  WriteReg LCR LCR_BAUD_LATCH ;;
  WriteReg 0 0x03 ;;
  WriteReg 1 0x00 ;;
  WriteReg LCR LCR_EIGHT_BITS ;;
  WriteReg FCR (Z.lor FCR_FIFO_ENABLE FCR_FIFO_CLEAR) ;;
  WriteReg IER (Z.lor IER_TX_ENABLE IER_RX_ENABLE) ;;
  initlock uart_lockL.

(** The ring holds at most [UART_TX_BUF_SIZE] bytes. *)
Definition uartstart : K unit :=
  loop (S (Z.to_nat UART_TX_BUF_SIZE)) (fun _ =>
    w <- uget uart_tx_w ;;
    r <- uget uart_tx_r ;;
    if w =? r then ret (inr tt)
    else
      idle <- tx_idle ;;
      if negb idle then ret (inr tt)
      else
        c <- uget (fun u => uart_tx_buf u !!! Z.to_nat (r mod UART_TX_BUF_SIZE)) ;;
        uset (set_uart_tx_r (u64 (r + 1))) ;;
        wakeup ChanUart ;;
        write_THR c ;;
        ret (inl tt)) tt.

Definition uartputc (c : Z) : K unit :=
  acquire uart_lockL ;;
  wait_while (uget (fun u => uart_tx_w u =? u64 (uart_tx_r u + UART_TX_BUF_SIZE)))
    ChanUart uart_lockL ;;
  uset (fun u =>
    set_uart_tx_buf (<[Z.to_nat (uart_tx_w u mod UART_TX_BUF_SIZE) := u8 c]>
      (uart_tx_buf u)) u) ;;
  uset (fun u => set_uart_tx_w (u64 (uart_tx_w u + 1)) u) ;;
  uartstart ;;
  release uart_lockL.

Definition uartputc_sync (c : Z) : K unit :=
  push_off ;;
  busy <- uget uart_busy ;;
  loop (S busy) (fun _ =>
    idle <- tx_idle ;;
    ret (if (idle : bool) then inr tt else inl tt)) tt ;;
  write_THR c ;;
  pop_off.

Definition uartgetc : K Z :=
  rx <- uget uart_rx ;;
  match rx with
  | c :: rx' => uset (set_uart_rx rx') ;; ret c
  | [] => ret (-1)
  end.

(** ** kernel/console.c: consputc *)

Definition BACKSPACE : Z := 0x100.

Definition consputc (c : Z) : K unit :=
  if c =? BACKSPACE then
    uartputc_sync 8 ;; uartputc_sync 32 ;; uartputc_sync 8
  else uartputc_sync c.

(** ** kernel/printf.c *)

Definition digits : list Z := bytes_of_string "0123456789abcdef".
Definition digit (x : Z) : Z := digits !!! Z.to_nat x.

(** The digits of [x], least significant first, as they go into [buf]. *)
Fixpoint int_digits (n : nat) (x base : Z) : list Z :=
  match n with
  | O => []
  | S n' =>
      digit (x mod base) ::
      (if x / base =? 0 then [] else int_digits n' (x / base) base)
  end.

(** [char buf[16]]: a 32-bit number has at most 32 digits in any base. *)
Definition printint (xx base : Z) (sign : bool) : K unit :=
  let neg := sign && (xx <? 0) in
  let x := if (neg : bool) then u32 (- xx) else u32 xx in
  let buf := int_digits 32 x base ++ (if (neg : bool) then [45] else []) in
  iter (rev buf) consputc.

Definition printptr (x : Z) : K unit :=
  consputc 48 ;; consputc 120 ;;
  loop 17 (fun '(i, x) =>
    if i <? 16 then
      consputc (digit (Z.shiftr x 60)) ;;
      ret (inl (i + 1, u64 (Z.shiftl x 4)))
    else ret (inr tt)) (0, x).

(** The variable arguments of [printf]. *)
Inductive parg := PInt (x : Z) | PPtr (x : Z) | PStr (s : option (list Z)).

Definition arg_int (ap : list parg) : Z :=
  match ap with PInt x :: _ => x | PPtr x :: _ => x | _ => 0 end.
Definition arg_str (ap : list parg) : list Z :=
  match ap with PStr (Some s) :: _ => cstring s | _ => bytes_of_string "(null)" end.

Fixpoint printf_loop (fmt : list Z) (ap : list parg) : K unit :=
  match fmt with
  | [] => ret tt
  | c :: fmt' =>
      if c =? 0 then ret tt
      else if negb (c =? 37) then consputc c ;; printf_loop fmt' ap
      else
        match fmt' with
        | [] => ret tt
        | c :: fmt'' =>
            if c =? 0 then ret tt
            else if c =? 100 then
              printint (i32 (arg_int ap)) 10 true ;; printf_loop fmt'' (tail ap)
            else if c =? 120 then
              printint (i32 (arg_int ap)) 16 true ;; printf_loop fmt'' (tail ap)
            else if c =? 112 then
              printptr (u64 (arg_int ap)) ;; printf_loop fmt'' (tail ap)
            else if c =? 115 then
              iter (arg_str ap) consputc ;; printf_loop fmt'' (tail ap)
            else if c =? 37 then consputc 37 ;; printf_loop fmt'' ap
            else consputc 37 ;; consputc c ;; printf_loop fmt'' ap
        end
  end.

Definition printf (fmt : string) (ap : list parg) : K unit :=
  locking <- getf prL pr_locking ;;
  when locking (acquire pr_lockL) ;;
  printf_loop (bytes_of_string fmt) ap ;;
  when locking (release pr_lockL).

Definition printfinit : K unit :=
  initlock pr_lockL ;;
  setf prL (set_pr_locking true).

(** ** kernel/proc.c: procdump *)

Definition state_name (st : procstate) : string :=
  match st with
  | UNUSED => "unused"
  | USED => "used"
  | SLEEPING => "sleep "
  | RUNNABLE => "runble"
  | RUNNING => "run   "
  | ZOMBIE => "zombie"
  end.

(** A newline, which a Rocq string literal cannot spell. *)
Definition nl : string := String (Ascii.ascii_of_N 10) EmptyString.

Definition procdump : K unit :=
  printf nl [] ;;
  iter proc_ids (fun p =>
    st <- pget p p_state ;;
    if bool_decide (st = UNUSED) then ret tt
    else
      pid <- pget p p_pid ;;
      name <- pget p p_name ;;
      printf "%d %s %s" [PInt pid; PStr (Some (bytes_of_string (state_name st)));
                         PStr (Some name)] ;;
      printf nl []).

End uart.
