(* ===== verification/Console.v ===== *)
(** * The console: kernel/console.c *)

From S2P Require Import Prelude Params Memory Kalloc Block State Sched Kcopy Uart.

Definition INPUT_BUF_SIZE : Z := 128.

(** [C(x)], Control-x *)
Definition ctrl (x : Z) : Z := x - 64.

Definition cget {A} (f : cons -> A) : K A := getf consL f.
Definition cset (f : cons -> cons) : K unit := setf consL f.

Definition cons_at (i : Z) (c : cons) : Z := cons_buf c !!! Z.to_nat (i mod INPUT_BUF_SIZE).

Section console.
Context `{Fuel, UartHw}.

Definition consolewrite (src : source) (n : Z) : K Z :=
  loop (S (Z.to_nat n)) (fun i =>
    if i <? n then
      r <- either_copyin (source_add src i) 1 ;;
      if fst r =? -1 then ret (inr i)
      else
        uartputc (hd 0 (snd r)) ;;
        ret (inl (i + 1))
    else ret (inr i)) 0.

(** The inner [while(cons.r == cons.w)]: [false] when the process was
    killed. *)
Definition cons_wait : K bool :=
  loop (S fuel) (fun _ =>
    r <- cget cons_r ;;
    w <- cget cons_w ;;
    if r =? w then
      p <- myproc' ;;
      k <- killed p ;;
      if negb (k =? 0) then
        release cons_lockL ;; ret (inr false)
      else sleep ChanCons cons_lockL ;; ret (inl tt)
    else ret (inr true)) tt.

(** The number of bytes read, -1 when the process was killed. *)
Definition consoleread (dst : dest) (n : Z) : K Z :=
  let target := u32 n in
  acquire cons_lockL ;;
  r <- loop (S (Z.to_nat n)) (fun '(n, dst) =>
    if 0 <? n then
      ok <- cons_wait ;;
      if negb ok then ret (inr None)
      else
        c <- cget (fun c => cons_at (cons_r c) c) ;;
        cset (fun c => set_cons_r (u32 (cons_r c + 1)) c) ;;
        if c =? ctrl 68 then
          when (u32 n <? target) (cset (fun c => set_cons_r (u32 (cons_r c - 1)) c)) ;;
          ret (inr (Some n))
        else
          e <- either_copyout dst [c] ;;
          if e =? -1 then ret (inr (Some n))
          else if c =? 10 then ret (inr (Some (n - 1)))
          else ret (inl (n - 1, dest_add dst 1))
    else ret (inr (Some n))) (n, dst) ;;
  match r with
  | None => ret (-1)
  | Some n =>
      release cons_lockL ;;
      ret (i32 (target - n))
  end.

Definition consoleintr (c : Z) : K unit :=
  acquire cons_lockL ;;
  (if c =? ctrl 80 then procdump
   else if c =? ctrl 85 then
     loop (S (Z.to_nat INPUT_BUF_SIZE)) (fun _ =>
       e <- cget cons_e ;;
       w <- cget cons_w ;;
       last <- cget (cons_at (u32 (e - 1))) ;;
       if negb (e =? w) && negb (last =? 10) then
         cset (set_cons_e (u32 (e - 1))) ;;
         consputc BACKSPACE ;;
         ret (inl tt)
       else ret (inr tt)) tt
   else if (c =? ctrl 72) || (c =? 0x7f) then
     e <- cget cons_e ;;
     w <- cget cons_w ;;
     when (negb (e =? w)) (
       cset (set_cons_e (u32 (e - 1))) ;;
       consputc BACKSPACE)
   else
     e <- cget cons_e ;;
     r <- cget cons_r ;;
     when (negb (c =? 0) && (u32 (e - r) <? INPUT_BUF_SIZE)) (
       let c := if c =? 13 then 10 else c in
       consputc c ;;
       cset (fun x => set_cons_buf
         (<[Z.to_nat (cons_e x mod INPUT_BUF_SIZE) := u8 c]> (cons_buf x)) x) ;;
       cset (fun x => set_cons_e (u32 (cons_e x + 1)) x) ;;
       e <- cget cons_e ;;
       r <- cget cons_r ;;
       when ((c =? 10) || (c =? ctrl 68) || (u32 (e - r) =? INPUT_BUF_SIZE)) (
         cset (set_cons_w e) ;;
         wakeup ChanCons))) ;;
  release cons_lockL.

Definition consoleinit : K unit :=
  initlock cons_lockL ;;
  uartinit.

(** kernel/uart.c: the interrupt handler; [uart_rx] holds the input that
    has arrived. *)
Definition uartintr : K unit :=
  rx <- uget uart_rx ;;
  loop (S (length rx)) (fun _ =>
    c <- uartgetc ;;
    if c =? -1 then ret (inr tt)
    else consoleintr c ;; ret (inl tt)) tt ;;
  acquire uart_lockL ;;
  uartstart ;;
  release uart_lockL.

End console.
