(* ===== verification/Dll.v ===== *)
(** * Circular doubly linked lists

    The list of kernel/bio.c, as two successor functions [nx] and [pv] over
    nodes: [dlink x l y] says that [l] leads from [x] to [y] in both
    directions, and the ring of the buffer cache is [dlink head l head]. *)

From S2P Require Import Prelude.

Abbreviation links := (nat -> nat).

Definition set_link (f : links) (x y : nat) : links :=
  fun z => if decide (z = x) then y else f z.

Fixpoint dlink (nx pv : links) (x : nat) (l : list nat) (y : nat) : Prop :=
  match l with
  | [] => nx x = y /\ pv y = x
  | z :: l' => nx x = z /\ pv z = x /\ dlink nx pv z l' y
  end.

(** The last node of [x :: l] and the first of [l ++ [y]]. *)
Definition last_of (x : nat) (l : list nat) : nat := List.last l x.
Definition first_of (l : list nat) (y : nat) : nat := hd y l.

Section dll.
Implicit Types (nx pv : links) (l : list nat).

Lemma dlink_app nx pv x l1 z l2 y :
  dlink nx pv x (l1 ++ z :: l2) y <-> dlink nx pv x l1 z /\ dlink nx pv z l2 y.
Proof.
  revert x. induction l1 as [|w l1 IH]; intros x; simpl; [tauto|]. rewrite IH. tauto.
Qed.

(** [dlink] looks at the successors of [x :: l] and the predecessors of
    [l ++ [y]]. *)
Lemma dlink_frame nx pv nx' pv' x l y :
  (forall z, z ∈ x :: l -> nx' z = nx z) -> (forall z, z ∈ l ++ [y] -> pv' z = pv z) ->
  dlink nx pv x l y -> dlink nx' pv' x l y.
Proof.
  revert x. induction l as [|w l IH]; intros x Hn Hp; simpl.
  - intros [Hy Hx]. rewrite (Hn x), (Hp y) by (by left). done.
  - intros (Hx & Hw & Hl). rewrite (Hn x), (Hp w) by (by left).
    split; [done|]. split; [done|]. apply IH; [| |done].
    + intros z Hz. apply Hn. by right.
    + intros z Hz. apply Hp. by right.
Qed.

Lemma last_of_elem x l : last_of x l ∈ x :: l.
Proof.
  unfold last_of. destruct l as [|w l] using rev_ind; simpl; [by left|].
  rewrite List.last_last. right. apply elem_of_app. right. by left.
Qed.

Lemma last_of_cons x w l : last_of x (w :: l) = last_of w l.
Proof. unfold last_of. revert w. induction l as [|v l IH]; intros w; [done|].
  change (List.last (v :: l) x = List.last (v :: l) w). revert v.
  clear. induction l as [|u l IH]; intros v; [done|]. simpl in *. apply IH.
Qed.

Lemma first_of_elem l y : first_of l y ∈ l ++ [y].
Proof. destruct l; simpl; by left. Qed.

Lemma dlink_last nx pv x l y : dlink nx pv x l y -> nx (last_of x l) = y /\ pv y = last_of x l.
Proof.
  revert x. induction l as [|w l IH]; intros x; cbn [dlink]; [done|].
  intros (_ & _ & Hl). rewrite last_of_cons. by apply IH.
Qed.

Lemma dlink_first nx pv x l y :
  dlink nx pv x l y -> nx x = first_of l y /\ pv (first_of l y) = x.
Proof. destruct l; simpl; tauto. Qed.

(** Bypassing the end of a segment: the last node of [x :: l] now leads to
    [z]. *)
Lemma dlink_retarget nx pv x l y z :
  NoDup (x :: l) -> z ∉ l ->
  dlink nx pv x l y ->
  dlink (set_link nx (last_of x l) z) (set_link pv z (last_of x l)) x l z.
Proof.
  revert x. induction l as [|w l IH]; intros x Hnd Hz; cbn [dlink].
  - intros _. unfold set_link. simpl. by rewrite !decide_True.
  - intros (Hw & Hpw & Hl). rewrite last_of_cons.
    apply NoDup_cons in Hnd as [Hx Hnd]. apply not_elem_of_cons in Hz as [Hzw Hz].
    split_and!.
    + unfold set_link. rewrite decide_False; [done|]. intros ->. apply Hx, last_of_elem.
    + unfold set_link. by rewrite decide_False.
    + by apply IH.
Qed.

Lemma set_link_ne f x y z : z <> x -> set_link f x y z = f z.
Proof. intros. unfold set_link. by rewrite decide_False. Qed.

Lemma set_link_eq f x y : set_link f x y x = y.
Proof. unfold set_link. by rewrite decide_True. Qed.

(** Taking node [i] out of the ring: [i->next->prev = i->prev;
    i->prev->next = i->next]. *)
Lemma dlink_remove nx pv h l1 i l2 :
  NoDup (h :: l1 ++ i :: l2) ->
  dlink nx pv h (l1 ++ i :: l2) h ->
  dlink (set_link nx (pv i) (nx i)) (set_link pv (nx i) (pv i)) h (l1 ++ l2) h.
Proof.
  intros Hnd [H1 H2]%dlink_app.
  destruct (dlink_last _ _ _ _ _ H1) as [_ ->].
  destruct (dlink_first _ _ _ _ _ H2) as [-> _].
  apply NoDup_cons in Hnd as [Hh Hnd]. apply NoDup_app in Hnd as (Hnd1 & Hd & Hnd2).
  apply NoDup_cons in Hnd2 as [Hi Hnd2].
  assert (h ∉ l1) as Hh1 by (intros Hin; apply Hh, elem_of_app; by left).
  assert (h ∉ l2) as Hh2.
  { intros Hin. apply Hh, elem_of_app. right. by right. }
  destruct l2 as [|w l2]; simpl.
  - rewrite app_nil_r. eapply dlink_retarget; [by constructor|done|done].
  - apply dlink_app. simpl in H2. destruct H2 as (_ & _ & H2). split.
    + eapply dlink_retarget; [by constructor| |done].
      intros Hw. apply (Hd w Hw). right. by left.
    + eapply dlink_frame; [| |done].
      * intros z Hz. apply set_link_ne. intros ->.
        pose proof (last_of_elem h l1) as [Hl|Hl]%elem_of_cons.
        -- rewrite Hl in Hz. done.
        -- apply (Hd _ Hl). by right.
      * intros z Hz. apply set_link_ne. intros ->.
        apply NoDup_cons in Hnd2 as [Hw Hnd2].
        apply elem_of_app in Hz as [Hz|Hz%list_elem_of_singleton]; [done|].
        subst. apply Hh2. by left.
Qed.

(** Putting [i] at the front. *)
Lemma dlink_insert nx pv h i l :
  NoDup (h :: i :: l) ->
  dlink nx pv h l h ->
  dlink (set_link (set_link nx i (nx h)) h i)
        (set_link (set_link pv i h) (nx h) i) h (i :: l) h.
Proof.
  intros Hnd Hl. destruct (dlink_first _ _ _ _ _ Hl) as [E _].
  apply NoDup_cons in Hnd as [Hh Hnd]. apply NoDup_cons in Hnd as [Hi Hnd].
  apply not_elem_of_cons in Hh as [Hhi Hhl].
  assert (nx h <> i) as Hne.
  { rewrite E. intros Hx. pose proof (first_of_elem l h) as Hin.
    rewrite Hx in Hin. apply elem_of_app in Hin as [?|?%list_elem_of_singleton]; [done|].
    congruence. }
  simpl. split_and!.
  - by rewrite set_link_eq.
  - rewrite set_link_ne by congruence. by rewrite set_link_eq.
  - destruct l as [|w l]; simpl in Hl |- *.
    + destruct Hl as [Hn Hp]. rewrite set_link_ne, set_link_eq by done. split; [done|].
      rewrite Hn. by rewrite set_link_eq.
    + destruct Hl as (Hn & Hp & Hl). rewrite set_link_ne, set_link_eq by done.
      split_and!; [done|rewrite Hn; by rewrite set_link_eq|].
      apply NoDup_cons in Hnd as [Hw Hnd].
      apply not_elem_of_cons in Hi as [Hiw Hil].
      apply not_elem_of_cons in Hhl as [Hhw Hhl].
      eapply dlink_frame; [| |done].
      * intros z Hz. rewrite !set_link_ne; [done| |].
        -- intros ->. apply elem_of_cons in Hz as [?|?]; done.
        -- intros ->. apply elem_of_cons in Hz as [?|?]; done.
      * intros z Hz. apply elem_of_app in Hz as [Hz|Hz%list_elem_of_singleton].
        -- rewrite !set_link_ne; [done| |].
           ++ intros ->. done.
           ++ rewrite Hn. intros ->. done.
        -- subst z. rewrite !set_link_ne; [done| |].
           ++ done.
           ++ rewrite Hn. done.
Qed.
End dll.
