(* ===== verification/Bio.v ===== *)
(** * The buffer cache: kernel/bio.c

    The buffers form a circular doubly linked list through [prev] and
    [next], with the list head as the entry after the last buffer. *)

From S2P Require Import Prelude Params Memory Kalloc Block State Sched.

Definition bhead : nat := Z.to_nat NBUF.
Definition buf_ids : list nat := seq 0 (Z.to_nat NBUF).

Definition bfget {A} (b : nat) (f : buf -> A) : K A := getf (bufL b) f.
Definition bfset (b : nat) (f : buf -> buf) : K unit := setf (bufL b) f.

(** The transfer of one block between the disk and a buffer, as the callers
    of [virtio_disk_rw] see it; [Virtio.v] has the driver. *)
Definition disk_block (s : kernel) (blockno : Z) : block :=
  default zero_block (k_disk s !! blockno).

Definition virtio_disk_rw (b : nat) (write : bool) : K unit :=
  blockno <- bfget b b_blockno ;;
  if write then
    data <- bfget b b_data ;;
    setf diskL (insert blockno data) ;;
    setf writesL (fun w => w ++ [(blockno, data)])
  else
    data <- gets (fun s => disk_block s blockno) ;;
    bfset b (set_b_data data).

(** [b] goes to the front of the list, between the head and [head.next]. *)
Definition binsert (b : nat) : K unit :=
  first <- bfget bhead b_next ;;
  bfset b (set_b_next first) ;;
  bfset b (set_b_prev bhead) ;;
  first <- bfget bhead b_next ;;
  bfset first (set_b_prev b) ;;
  bfset bhead (set_b_next b).

Definition binit : K unit :=
  initlock bc_lockL ;;
  bfset bhead (set_b_prev bhead) ;;
  bfset bhead (set_b_next bhead) ;;
  iter buf_ids (fun b =>
    first <- bfget bhead b_next ;;
    bfset b (set_b_next first) ;;
    bfset b (set_b_prev bhead) ;;
    initsleeplock (b_lockL b) ;;
    first <- bfget bhead b_next ;;
    bfset first (set_b_prev b) ;;
    bfset bhead (set_b_next b)).

Section bio.
Context `{Fuel}.

(** The walk of the list in one direction until [f] leaves it. *)
Definition blist_walk {R} (dir : buf -> nat) (f : nat -> K (option R)) : K (option R) :=
  first <- bfget bhead dir ;;
  loop (S (Z.to_nat NBUF)) (fun b =>
    if bool_decide (b = bhead) then ret (inr None)
    else
      r <- f b ;;
      match r with
      | Some r => ret (inr (Some r))
      | None => b' <- bfget b dir ;; ret (inl b')
      end) first.

Definition bget (dev blockno : Z) : K nat :=
  acquire bc_lockL ;;
  (* Is the block already cached? *)
  r <- blist_walk b_next (fun b =>
    d <- bfget b b_dev ;;
    n <- bfget b b_blockno ;;
    if (d =? dev) && (n =? blockno) then
      bfset b (fun x => set_b_refcnt (u32 (b_refcnt x + 1)) x) ;;
      release bc_lockL ;;
      acquiresleep (b_lockL b) (ChanBufLock b) ;;
      ret (Some b)
    else ret None) ;;
  match r with
  | Some b => ret b
  | None =>
      (* Not cached: recycle the least recently used unused buffer. *)
      r <- blist_walk b_prev (fun b =>
        c <- bfget b b_refcnt ;;
        if c =? 0 then
          bfset b (set_b_dev dev) ;;
          bfset b (set_b_blockno blockno) ;;
          bfset b (set_b_valid false) ;;
          bfset b (set_b_refcnt 1) ;;
          release bc_lockL ;;
          acquiresleep (b_lockL b) (ChanBufLock b) ;;
          ret (Some b)
        else ret None) ;;
      match r with
      | Some b => ret b
      | None => panic "bget: no buffers"
      end
  end.

Definition bread (dev blockno : Z) : K nat :=
  b <- bget dev blockno ;;
  v <- bfget b b_valid ;;
  when (negb v) (
    virtio_disk_rw b false ;;
    bfset b (set_b_valid true)) ;;
  ret b.

Definition bwrite (b : nat) : K unit :=
  h <- holdingsleep (b_lockL b) ;;
  panic_if (negb h) "bwrite" ;;
  virtio_disk_rw b true.

Definition brelse (b : nat) : K unit :=
  h <- holdingsleep (b_lockL b) ;;
  panic_if (negb h) "brelse" ;;
  releasesleep (b_lockL b) (ChanBufLock b) ;;
  acquire bc_lockL ;;
  bfset b (fun x => set_b_refcnt (u32 (b_refcnt x - 1)) x) ;;
  c <- bfget b b_refcnt ;;
  when (c =? 0) (
    next <- bfget b b_next ;;
    prev <- bfget b b_prev ;;
    bfset next (set_b_prev prev) ;;
    prev <- bfget b b_prev ;;
    next <- bfget b b_next ;;
    bfset prev (set_b_next next) ;;
    binsert b) ;;
  release bc_lockL.

Definition bpin (b : nat) : K unit :=
  acquire bc_lockL ;;
  bfset b (fun x => set_b_refcnt (u32 (b_refcnt x + 1)) x) ;;
  release bc_lockL.

Definition bunpin (b : nat) : K unit :=
  acquire bc_lockL ;;
  bfset b (fun x => set_b_refcnt (u32 (b_refcnt x - 1)) x) ;;
  release bc_lockL.

End bio.
