(* ===== verification/BioSpec.v ===== *)
(** * Properties of the buffer cache *)

From S2P Require Import Prelude Params Memory Kalloc Block State Sched SchedSpec Quiet Dll Bio.

(** ** Updates of the buffer table *)

Abbreviation bufs s := (bc_buf (k_bc s)).

Definition on_bufs (f : list buf -> list buf) (s : kernel) : kernel :=
  set_k_bc (set_bc_buf (f (bufs s)) (k_bc s)) s.

Lemma on_bufs_compose f g s : on_bufs f (on_bufs g s) = on_bufs (fun l => f (g l)) s.
Proof. by destruct s. Qed.

Lemma on_bufs_ext f g s : f (bufs s) = g (bufs s) -> on_bufs f s = on_bufs g s.
Proof. unfold on_bufs. by intros ->. Qed.

Lemma on_bufs_id f s : f (bufs s) = bufs s -> on_bufs f s = s.
Proof. unfold on_bufs. intros ->. by destruct s as [? ? ? ? ? ? ? []]. Qed.

Lemma insert_alter {A} `{Inhabited A} (l : list A) i f :
  <[i := f (l !!! i)]> l = alter f i l.
Proof.
  apply list_eq. intros j. destruct (decide (i < length l)%nat).
  - destruct (decide (i = j)) as [->|].
    + rewrite list_lookup_insert_eq, list_lookup_alter_eq by done.
      by rewrite (list_lookup_lookup_total_lt l j) by done.
    + by rewrite list_lookup_insert_ne, list_lookup_alter_ne.
  - rewrite list_insert_ge by lia. destruct (decide (i = j)) as [->|].
    + rewrite list_lookup_alter_eq, lookup_ge_None_2 by lia. done.
    + by rewrite list_lookup_alter_ne.
Qed.

Lemma bfset_eq i f s : bfset i f s = Done tt (on_bufs (alter f i) s).
Proof.
  unfold bfset, setf, modify, bufL, nthL, lcomp, on_bufs. simpl.
  by rewrite insert_alter.
Qed.

Lemma bfget_eq {A} i (f : buf -> A) s b :
  bufs s !! i = Some b -> bfget i f s = Done (f b) s.
Proof.
  intros Hb. unfold bfget, getf, gets, bufL, nthL, lcomp. simpl.
  by rewrite (list_lookup_total_correct _ _ _ Hb).
Qed.

Lemma bfget_total {A} i (f : buf -> A) s : bfget i f s = Done (f (bufs s !!! i)) s.
Proof. done. Qed.

Lemma b_lock_update i t s : update (b_lockL i) t s = on_bufs (alter (set_b_lock t) i) s.
Proof.
  unfold b_lockL, bufL, nthL, lcomp, on_bufs. simpl. by rewrite insert_alter.
Qed.

Lemma b_lock_view i s b : bufs s !! i = Some b -> view (b_lockL i) s = b_lock b.
Proof.
  intros Hb. unfold b_lockL, bufL, nthL, lcomp. simpl.
  by rewrite (list_lookup_total_correct _ _ _ Hb).
Qed.

(** Under [bcache.lock] *)
Lemma locked_bufs s : bufs (locked bc_lockL s) = bufs s.
Proof. done. Qed.

Lemma bc_section f s :
  cpu_ok (k_cpu s) -> bc_lock (k_bc s) = false ->
  release bc_lockL (on_bufs f (locked bc_lockL s)) = Done tt (on_bufs f s).
Proof.
  intros Hc Hl. rewrite release_eq.
  - f_equal. unfold unlocked, on_bufs, locked, bc_lockL, lcomp. simpl.
    rewrite cpu_pop_push by done. destruct s as [? ? ? ? ? ? ? []]; simpl in *.
    by rewrite <-Hl.
  - simpl. by apply cpu_push_ok.
  - destruct Hc. simpl. lia.
  - done.
Qed.

(** ** Walking the list *)

(** The links of the table. *)
Definition bnext (l : list buf) : links := fun i => b_next (l !!! i).
Definition bprev (l : list buf) : links := fun i => b_prev (l !!! i).

(** The list in one direction. *)
Fixpoint chain (f : links) (x : nat) (l : list nat) (y : nat) : Prop :=
  match l with
  | [] => f x = y
  | z :: l' => f x = z /\ chain f z l' y
  end.

Lemma dlink_next nx pv x l y : dlink nx pv x l y -> chain nx x l y.
Proof.
  revert x. induction l as [|z l IH]; intros x; simpl; [tauto|].
  intros (? & ? & ?). auto.
Qed.

Lemma chain_snoc f x l z y : chain f x (l ++ [z]) y <-> chain f x l z /\ f z = y.
Proof.
  revert x. induction l as [|w l IH]; intros x; simpl; [tauto|]. rewrite IH. tauto.
Qed.

Lemma dlink_prev nx pv x l y : dlink nx pv x l y -> chain pv y (rev l) x.
Proof.
  revert x. induction l as [|z l IH]; intros x; simpl; [tauto|].
  intros (Hx & Hz & Hl). rewrite chain_snoc. split; [by apply IH|done].
Qed.

(** The loop is a scan of the list: [f] leaves the state alone at the nodes
    it passes. *)
Section walk.
Context {R : Type} (dir : buf -> nat) (f : nat -> K (option R)) (s : kernel).

Abbreviation body := (fun b =>
  if bool_decide (b = bhead) then ret (inr None)
  else
    r <- f b ;;
    match r with
    | Some r => ret (inr (Some r))
    | None => b' <- bfget b dir ;; ret (inl b')
    end).

Definition passes (b : nat) : Prop :=
  f b s = Done None s \/ exists r s', f b s = Done (Some r) s'.

Lemma walk_loop n x l :
  chain (fun i => dir (bufs s !!! i)) x l bhead -> bhead ∉ l -> (length l <= n)%nat ->
  Forall passes l ->
  loop (S n) body (dir (bufs s !!! x)) s = scan l f s.
Proof using.
  revert n x. induction l as [|z l IH]; intros n x Hch Hl Hn Hp; cbn [chain] in Hch.
  - cbn [loop scan]. rewrite Hch. unfold bind. by rewrite bool_decide_true.
  - destruct Hch as [-> Hch]. apply not_elem_of_cons in Hl as [Hz Hl].
    apply Forall_cons_1 in Hp as [Hf Hp]. destruct n as [|n]; [simpl in Hn; lia|].
    change (loop (S (S n)) body z s) with
      ((c <- body z ;; match c with inl x' => loop (S n) body x' | inr r => ret r end) s).
    cbn [scan]. rewrite bool_decide_false by done.
    destruct Hf as [Hf|(r & s' & Hf)].
    + rewrite (bind_done _ _ _ (inl (dir (bufs s !!! z))) s).
      2:{ by rewrite (bind_done _ _ _ _ _ Hf). }
      rewrite (bind_done _ _ _ _ _ Hf). apply IH; [done|done|simpl in Hn; lia|done].
    + rewrite (bind_done _ _ _ (inr (Some r)) s').
      2:{ by rewrite (bind_done _ _ _ _ _ Hf). }
      by rewrite (bind_done _ _ _ _ _ Hf).
Qed.

Lemma blist_walk_eq l :
  chain (fun i => dir (bufs s !!! i)) bhead l bhead -> bhead ∉ l ->
  (length l <= Z.to_nat NBUF)%nat -> Forall passes l ->
  blist_walk dir f s = scan l f s.
Proof using.
  intros. unfold blist_walk.
  rewrite (bind_done _ _ _ _ _ (bfget_total bhead dir s)). by apply walk_loop.
Qed.
End walk.

(** ** The invariant

    [ord] lists the buffers from the most to the least recently used. *)
Record bcache_inv (ord : list nat) (s : kernel) : Prop := {
  bi_unlocked : bc_lock (k_bc s) = false;
  bi_length : length (bufs s) = S (Z.to_nat NBUF);
  bi_ring : dlink (bnext (bufs s)) (bprev (bufs s)) bhead ord bhead;
  bi_perm : ord ≡ₚ buf_ids;
  bi_sleep : forall i b, bufs s !! i = Some b -> sl_lk (b_lock b) = false;
  bi_refcnt : forall i b, bufs s !! i = Some b -> 0 <= b_refcnt b < 2 ^ 32 - 1;
  (* a lock holder has a reference *)
  bi_held : forall i b, bufs s !! i = Some b -> b_refcnt b = 0 -> sl_locked (b_lock b) = false;
  (* one buffer per block *)
  bi_unique : forall i j b b', bufs s !! i = Some b -> bufs s !! j = Some b' ->
    b_dev b <> 0 -> b_dev b = b_dev b' -> b_blockno b = b_blockno b' -> i = j;
}.

Lemma bhead_not_id : bhead ∉ buf_ids.
Proof. unfold bhead, buf_ids. rewrite elem_of_seq. lia. Qed.

Section inv.
Context (ord : list nat) (s : kernel) (Hinv : bcache_inv ord s).

Lemma ord_elem i : i ∈ ord <-> (i < Z.to_nat NBUF)%nat.
Proof using Hinv.
  rewrite (bi_perm _ _ Hinv). unfold buf_ids. rewrite elem_of_seq. lia.
Qed.

Lemma ord_head : bhead ∉ ord.
Proof using Hinv. rewrite (bi_perm _ _ Hinv). apply bhead_not_id. Qed.

Lemma ord_length : length ord = Z.to_nat NBUF.
Proof using Hinv. rewrite (bi_perm _ _ Hinv). unfold buf_ids. by rewrite length_seq. Qed.

Lemma ord_nodup : NoDup ord.
Proof using Hinv. rewrite (bi_perm _ _ Hinv). apply NoDup_seq. Qed.

Lemma ord_buf i : i ∈ ord -> exists b, bufs s !! i = Some b.
Proof using Hinv.
  rewrite ord_elem. intros Hi. apply lookup_lt_is_Some_2.
  rewrite (bi_length _ _ Hinv). lia.
Qed.

(** The two loops of [bget], in the locked state. *)
Lemma walk_next {R} (f : nat -> K (option R)) :
  Forall (passes f (locked bc_lockL s)) ord ->
  blist_walk b_next f (locked bc_lockL s) = scan ord f (locked bc_lockL s).
Proof using Hinv.
  intros Hp. apply blist_walk_eq; [| |by rewrite ord_length|done].
  - apply (dlink_next _ _ _ _ _ (bi_ring _ _ Hinv)).
  - apply ord_head.
Qed.

Lemma walk_prev {R} (f : nat -> K (option R)) :
  Forall (passes f (locked bc_lockL s)) (rev ord) ->
  blist_walk b_prev f (locked bc_lockL s) = scan (rev ord) f (locked bc_lockL s).
Proof using Hinv.
  intros Hp. apply blist_walk_eq; [| | |done].
  - apply (dlink_prev _ _ _ _ _ (bi_ring _ _ Hinv)).
  - intros Hin%list_elem_of_In%in_rev%list_elem_of_In. by apply ord_head in Hin.
  - by rewrite length_rev, ord_length.
Qed.
End inv.

(** ** bget *)

(** A buffer taken by process [pid]. *)
Definition hold (pid : Z) (b : buf) : buf :=
  set_b_lock (Sleeplock true false pid) (set_b_refcnt (u32 (b_refcnt b + 1)) b).
(** A buffer recycled for another block. *)
Definition recycle (dev n pid : Z) (b : buf) : buf :=
  set_b_lock (Sleeplock true false pid)
    (set_b_refcnt 1 (set_b_valid false (set_b_blockno n (set_b_dev dev b)))).

Definition caches (dev n : Z) (b : buf) : bool := (b_dev b =? dev) && (b_blockno b =? n).

Section bget.
Context `{Fuel} (me : nat) (q : proc) (ord : list nat) (s : kernel).
Context (Hq : quiet me q s) (Hinv : bcache_inv ord s).

Lemma on_bufs_quiet f : quiet me q (on_bufs f s).
Proof using Hq. by eapply quiet_same. Qed.

(** Taking the sleep lock after the cache's lock is released. *)
Lemma take_buffer i b g :
  bufs s !! i = Some b -> sl_locked (b_lock b) = false -> b_lock (g b) = b_lock b ->
  (release bc_lockL ;; acquiresleep (b_lockL i) (ChanBufLock i) ;; ret (Some i))
    (on_bufs (alter g i) (locked bc_lockL s)) =
  Done (Some i)
    (on_bufs (alter (fun x => set_b_lock (Sleeplock true false (p_pid q)) (g x)) i) s).
Proof using Hq Hinv.
  intros Hb Hl Hg.
  rewrite (bind_done _ _ _ _ _ (bc_section _ s (quiet_cpu _ _ _ Hq) (bi_unlocked _ _ Hinv))).
  assert (bufs (on_bufs (alter g i) s) !! i = Some (g b)) as Hb1.
  { simpl. by rewrite list_lookup_alter_eq, Hb. }
  erewrite bind_done.
  2:{ eapply (acquiresleep_eq (b_lockL i) (buf_dom i) _ me q _ (sl_pid (b_lock b)));
        [apply on_bufs_quiet| |].
      - unfold buf_dom. simpl. rewrite length_alter. by eapply lookup_lt_Some.
      - rewrite (b_lock_view _ _ _ Hb1), Hg. pose proof (bi_sleep _ _ Hinv i b Hb).
        destruct (b_lock b); simpl in *; by subst. }
  unfold ret. f_equal. rewrite b_lock_update, on_bufs_compose.
  apply on_bufs_ext. by rewrite alter_compose_at.
Qed.

(** The bodies of the two loops of [bget]. *)
Definition hit_body (dev n : Z) (b : nat) : K (option nat) :=
  d <- bfget b b_dev ;;
  n' <- bfget b b_blockno ;;
  if (d =? dev) && (n' =? n) then
    bfset b (fun x => set_b_refcnt (u32 (b_refcnt x + 1)) x) ;;
    release bc_lockL ;;
    acquiresleep (b_lockL b) (ChanBufLock b) ;;
    ret (Some b)
  else ret None.

Definition miss_body (dev n : Z) (b : nat) : K (option nat) :=
  c <- bfget b b_refcnt ;;
  if c =? 0 then
    bfset b (set_b_dev dev) ;;
    bfset b (set_b_blockno n) ;;
    bfset b (set_b_valid false) ;;
    bfset b (set_b_refcnt 1) ;;
    release bc_lockL ;;
    acquiresleep (b_lockL b) (ChanBufLock b) ;;
    ret (Some b)
  else ret None.

Lemma hit_body_eq dev n i b :
  bufs s !! i = Some b -> (caches dev n b = true -> sl_locked (b_lock b) = false) ->
  hit_body dev n i (locked bc_lockL s) =
    if caches dev n b then Done (Some i) (on_bufs (alter (hold (p_pid q)) i) s)
    else Done None (locked bc_lockL s).
Proof using Hq Hinv.
  intros Hb Hl. unfold hit_body.
  rewrite (bind_done _ _ _ _ _ (bfget_eq i b_dev (locked bc_lockL s) b Hb)).
  rewrite (bind_done _ _ _ _ _ (bfget_eq i b_blockno (locked bc_lockL s) b Hb)).
  fold (caches dev n b). destruct (caches dev n b); [|done].
  rewrite (bind_done _ _ _ _ _ (bfset_eq _ _ _)). apply (take_buffer i b); auto.
Qed.

Lemma miss_body_eq dev n i b :
  bufs s !! i = Some b ->
  miss_body dev n i (locked bc_lockL s) =
    if b_refcnt b =? 0 then Done (Some i) (on_bufs (alter (recycle dev n (p_pid q)) i) s)
    else Done None (locked bc_lockL s).
Proof using Hq Hinv.
  intros Hb. unfold miss_body.
  rewrite (bind_done _ _ _ _ _ (bfget_eq i b_refcnt (locked bc_lockL s) b Hb)).
  destruct (Z.eqb_spec (b_refcnt b) 0) as [Hr|]; [|done].
  rewrite !(bind_done _ _ _ _ _ (bfset_eq _ _ _)), !on_bufs_compose.
  erewrite (on_bufs_ext _ (alter (fun x => set_b_refcnt 1
    (set_b_valid false (set_b_blockno n (set_b_dev dev x)))) i));
    [|by rewrite !alter_compose_at].
  apply (take_buffer i b); [done| |done]. by apply (bi_held _ _ Hinv i b).
Qed.

Lemma bget_hit dev n i b :
  i ∈ ord -> bufs s !! i = Some b -> dev <> 0 -> caches dev n b = true ->
  sl_locked (b_lock b) = false ->
  bget dev n s = Done i (on_bufs (alter (hold (p_pid q)) i) s).
Proof using Hq Hinv.
  intros Hi Hb Hdev Hd Hl. unfold bget.
  rewrite (bind_done _ _ _ _ _ (acquire_eq (lk := bc_lockL) s (quiet_cpu _ _ _ Hq) (bi_unlocked _ _ Hinv))).
  match goal with |- context [blist_walk b_next ?f] => change f with (hit_body dev n) end.
  assert (Hfx : forall x, x ∈ ord -> x <> i ->
    hit_body dev n x (locked bc_lockL s) = Done None (locked bc_lockL s)).
  { intros x Hx Hne. destruct (ord_buf ord s Hinv x Hx) as [b' Hb'].
    assert (caches dev n b' = false) as Hc.
    { apply not_true_is_false. unfold caches in *. intros Hc. destruct Hne.
      apply (bi_unique _ _ Hinv x i b' b); auto; lia. }
    by rewrite (hit_body_eq dev n x b' Hb'), Hc by congruence. }
  pose proof (hit_body_eq dev n i b Hb (fun _ => Hl)) as Hfi. rewrite Hd in Hfi.
  rewrite (bind_done _ _ _ (Some i) (on_bufs (alter (hold (p_pid q)) i) s)); [done|].
  rewrite (walk_next ord s Hinv).
  - apply list_elem_of_split in Hi as (l1 & l2 & ->).
    pose proof (ord_nodup _ _ Hinv) as (_ & Hd1 & _)%NoDup_app.
    apply scan_find; [|done]. intros x Hx. apply Hfx.
    + apply elem_of_app. by left.
    + intros ->. apply (Hd1 i Hx). by left.
  - apply Forall_forall. intros x Hx. destruct (decide (x = i)) as [->|Hne].
    + right. eauto.
    + left. by apply Hfx.
Qed.

(** The victim is the least recently used buffer without references. *)
Lemma bget_miss dev n i b l1 l2 :
  (forall x b', x ∈ ord -> bufs s !! x = Some b' -> caches dev n b' = false) ->
  ord = l1 ++ i :: l2 -> bufs s !! i = Some b -> b_refcnt b = 0 ->
  (forall x b', x ∈ l2 -> bufs s !! x = Some b' -> b_refcnt b' <> 0) ->
  bget dev n s = Done i (on_bufs (alter (recycle dev n (p_pid q)) i) s).
Proof using Hq Hinv.
  intros Hno Hord Hb Hr Hl2. unfold bget.
  rewrite (bind_done _ _ _ _ _ (acquire_eq (lk := bc_lockL) s (quiet_cpu _ _ _ Hq) (bi_unlocked _ _ Hinv))).
  match goal with |- context [blist_walk b_next ?f] => change f with (hit_body dev n) end.
  assert (Hf : forall x, x ∈ ord ->
    hit_body dev n x (locked bc_lockL s) = Done None (locked bc_lockL s)).
  { intros x Hx. destruct (ord_buf ord s Hinv x Hx) as [b' Hb'].
    pose proof (Hno x b' Hx Hb') as Hc.
    by rewrite (hit_body_eq dev n x b' Hb'), Hc by congruence. }
  rewrite (bind_done _ _ _ None (locked bc_lockL s)).
  2:{ rewrite (walk_next ord s Hinv); [by apply scan_none|].
      apply Forall_forall. intros x Hx. left. by apply Hf. }
  match goal with |- context [blist_walk b_prev ?f] => change f with (miss_body dev n) end.
  pose proof (miss_body_eq dev n i b Hb) as Hfi. rewrite Hr in Hfi. simpl in Hfi.
  rewrite (bind_done _ _ _ (Some i)
    (on_bufs (alter (recycle dev n (p_pid q)) i) s)); [done|].
  rewrite (walk_prev ord s Hinv).
  - rewrite Hord, rev_app_distr. cbn [rev]. rewrite <-app_assoc. cbn [app].
    apply scan_find; [|done].
    intros x Hx%list_elem_of_In%in_rev%list_elem_of_In.
    destruct (ord_buf ord s Hinv x) as [b' Hb'].
    { rewrite Hord. apply elem_of_app. right. by right. }
    rewrite (miss_body_eq dev n x b' Hb').
    specialize (Hl2 x b' Hx Hb'). by destruct (Z.eqb_spec (b_refcnt b') 0).
  - apply Forall_forall. intros x Hx%list_elem_of_In%in_rev%list_elem_of_In.
    destruct (ord_buf ord s Hinv x Hx) as [b' Hb'].
    unfold passes. rewrite (miss_body_eq dev n x b' Hb').
    case_match; [right; eauto|by left].
Qed.

(** Every buffer is in use for another block. *)
Lemma bget_full dev n :
  (forall x b', x ∈ ord -> bufs s !! x = Some b' -> caches dev n b' = false /\ b_refcnt b' <> 0) ->
  bget dev n s = Panic "bget: no buffers".
Proof using Hq Hinv.
  intros Hno. unfold bget.
  rewrite (bind_done _ _ _ _ _ (acquire_eq (lk := bc_lockL) s (quiet_cpu _ _ _ Hq) (bi_unlocked _ _ Hinv))).
  match goal with |- context [blist_walk b_next ?f] => change f with (hit_body dev n) end.
  assert (Hf : forall x, x ∈ ord ->
    hit_body dev n x (locked bc_lockL s) = Done None (locked bc_lockL s)).
  { intros x Hx. destruct (ord_buf ord s Hinv x Hx) as [b' Hb'].
    destruct (Hno x b' Hx Hb') as [Hc _].
    by rewrite (hit_body_eq dev n x b' Hb'), Hc by congruence. }
  rewrite (bind_done _ _ _ None (locked bc_lockL s)).
  2:{ rewrite (walk_next ord s Hinv); [by apply scan_none|].
      apply Forall_forall. intros x Hx. left. by apply Hf. }
  match goal with |- context [blist_walk b_prev ?f] => change f with (miss_body dev n) end.
  assert (Hg : forall x, x ∈ rev ord ->
    miss_body dev n x (locked bc_lockL s) = Done None (locked bc_lockL s)).
  { intros x Hx%list_elem_of_In%in_rev%list_elem_of_In.
    destruct (ord_buf ord s Hinv x Hx) as [b' Hb']. destruct (Hno x b' Hx Hb') as [_ Hr].
    rewrite (miss_body_eq dev n x b' Hb'). by destruct (Z.eqb_spec (b_refcnt b') 0). }
  rewrite (bind_done _ _ _ None (locked bc_lockL s)); [done|].
  rewrite (walk_prev ord s Hinv); [by apply scan_none|].
  apply Forall_forall. intros x Hx. left. by apply Hg.
Qed.
End bget.

(** ** The cache as its clients see it

    [V] is the current contents of the blocks, [D] what the disk holds, [W]
    the history of its writes; [L] are the blocks pinned by the log and [H]
    the buffers the running process holds, with their blocks. *)

Definition is_buf (i : nat) : Prop := (i < Z.to_nat NBUF)%nat.

Definition refs (L : gset Z) (H : gmap nat Z) (i : nat) (b : buf) : Z :=
  (if decide (is_Some (H !! i)) then 1 else 0) +
  (if decide (b_dev b = ROOTDEV /\ b_blockno b ∈ L) then 1 else 0).

Record buf_ok (pid : Z) (V : Z -> block) (L : gset Z) (H : gmap nat Z) (i : nat) (b : buf) :
    Prop := {
  bo_dev : b_dev b = 0 \/ b_dev b = ROOTDEV;
  bo_unused : b_dev b = 0 -> b_valid b = false;
  bo_refs : b_refcnt b = refs L H i b;
  bo_lock : sl_locked (b_lock b) = bool_decide (is_Some (H !! i));
  bo_pid : is_Some (H !! i) -> sl_pid (b_lock b) = pid;
  bo_held : forall n, H !! i = Some n -> b_dev b = ROOTDEV /\ b_blockno b = n /\ b_valid b = true;
  bo_data : b_valid b = true -> b_data b = V (b_blockno b);
}.

Record binv (me : nat) (q : proc) (W : list (Z * block)) (V D : Z -> block)
    (L : gset Z) (H : gmap nat Z) (s : kernel) : Prop := {
  binv_quiet : quiet me q s;
  binv_cache : exists ord, bcache_inv ord s;
  binv_bufs : forall i b, is_buf i -> bufs s !! i = Some b -> buf_ok (p_pid q) V L H i b;
  binv_head : forall i b, ~ is_buf i -> bufs s !! i = Some b -> b_dev b = 0;
  binv_held : forall i, is_Some (H !! i) -> is_buf i;
  binv_pinned : forall n, n ∈ L -> exists i b, is_buf i /\ bufs s !! i = Some b /\
    b_dev b = ROOTDEV /\ b_blockno b = n /\ b_valid b = true;
  binv_clean : forall n, n ∉ L -> (forall i, H !! i <> Some n) -> V n = D n;
  binv_disk : forall n, disk_block s n = D n;
  binv_writes : k_writes s = W;
}.

(** Only the cache and the disk differ. *)
Definition bframe (s s' : kernel) : Prop :=
  s' = set_k_writes (k_writes s') (set_k_disk (k_disk s') (set_k_bc (k_bc s') s)).

Lemma bframe_refl s : bframe s s.
Proof. by destruct s. Qed.

Lemma bframe_trans s1 s2 s3 : bframe s1 s2 -> bframe s2 s3 -> bframe s1 s3.
Proof. unfold bframe. intros H1 H2. rewrite H2, H1. done. Qed.

Lemma bframe_on_bufs f s : bframe s (on_bufs f s).
Proof. by destruct s. Qed.

#[export] Hint Resolve bframe_refl bframe_on_bufs : xv6.

(** Buffers whose links are kept and whose block is not shared keep the
    invariant of the cache. *)
Lemma bcache_inv_alter ord s i b f :
  bcache_inv ord s -> is_buf i -> bufs s !! i = Some b ->
  b_next (f b) = b_next b -> b_prev (f b) = b_prev b ->
  sl_lk (b_lock (f b)) = false -> 0 <= b_refcnt (f b) < 2 ^ 32 - 1 ->
  (b_refcnt (f b) = 0 -> sl_locked (b_lock (f b)) = false) ->
  (forall j b', j <> i -> bufs s !! j = Some b' -> b_dev (f b) <> 0 ->
     caches (b_dev (f b)) (b_blockno (f b)) b' = false) ->
  bcache_inv ord (on_bufs (alter f i) s).
Proof.
  intros [Hul Hlen Hring Hperm Hsl Href Hheld Huniq] Hi Hb Hnx Hpv Hlk Hr Hh Hu.
  assert (Hget : forall j b', bufs (on_bufs (alter f i) s) !! j = Some b' ->
    (j = i /\ b' = f b) \/ (j <> i /\ bufs s !! j = Some b')).
  { intros j b' Hj. simpl in Hj. destruct (decide (i = j)) as [<-|].
    - rewrite list_lookup_alter_eq, Hb in Hj. simplify_eq/=. by left.
    - rewrite list_lookup_alter_ne in Hj by done. auto. }
  constructor; simpl.
  - done.
  - by rewrite length_alter.
  - assert (Ht : forall x, (alter f i (bufs s) !!! x) =
      if decide (x = i) then f b else bufs s !!! x).
    { intros x. rewrite !list_lookup_total_alt. case_decide as Hx.
      - subst. by rewrite list_lookup_alter_eq, Hb.
      - by rewrite list_lookup_alter_ne. }
    assert (bufs s !!! i = b) as Hbt by by apply list_lookup_total_correct.
    eapply dlink_frame; [| |done].
    + intros z _. unfold bnext. rewrite Ht. case_decide; congruence.
    + intros z _. unfold bprev. rewrite Ht. case_decide; congruence.
  - done.
  - intros j b' [[-> ->]|[_ Hj]]%Hget; eauto.
  - intros j b' [[-> ->]|[_ Hj]]%Hget; eauto.
  - intros j b' [[-> ->]|[_ Hj]]%Hget; eauto.
  - intros j k b1 b2 Hj Hk Hd Ed En.
    destruct (Hget _ _ Hj) as [[-> ->]|[Hji Hj']]; destruct (Hget _ _ Hk) as [[-> ->]|[Hki Hk']].
    + done.
    + specialize (Hu k b2 Hki Hk' Hd). unfold caches in Hu. lia.
    + rewrite Ed in Hd. specialize (Hu j b1 Hji Hj' Hd). unfold caches in Hu. lia.
    + eauto.
Qed.

Lemma last_split {A} (P : A -> Prop) `{!forall x, Decision (P x)} (l : list A) x :
  x ∈ l -> P x -> exists l1 y l2, l = l1 ++ y :: l2 /\ P y /\ forall z, z ∈ l2 -> ~ P z.
Proof.
  induction l as [|z l IH] using rev_ind; [by intros ?%elem_of_nil|].
  intros Hx HP. destruct (decide (P z)) as [Hz|Hz].
  - exists l, z, []. split_and!; [done|done|]. by intros w ?%elem_of_nil.
  - apply elem_of_app in Hx as [Hx|Hx%list_elem_of_singleton]; [|congruence].
    destruct (IH Hx HP) as (l1 & y & l2 & -> & Hy & Hl2).
    exists l1, y, (l2 ++ [z]). rewrite <-app_assoc. split_and!; [done|done|].
    intros w [Hw|Hw%list_elem_of_singleton]%elem_of_app; [by apply Hl2|congruence].
Qed.

(** ** Moving a buffer to the front *)

(** The assignments of [brelse] and [binsert] to the links. *)
Definition unlink (i : nat) (l : list buf) : list buf :=
  let a := bprev l i in
  let z := bnext l i in
  alter (set_b_next z) a (alter (set_b_prev a) z l).

Definition push_front (i : nat) (l : list buf) : list buf :=
  let first := bnext l bhead in
  alter (set_b_next i) bhead
    (alter (set_b_prev i) first
      (alter (set_b_prev bhead) i (alter (set_b_next first) i l))).

Definition to_front (i : nat) (l : list buf) : list buf := push_front i (unlink i l).

Section links.
Implicit Types l : list buf.

Lemma total_alter f x l i :
  (x < length l)%nat -> alter f x l !!! i = if decide (i = x) then f (l !!! x) else l !!! i.
Proof.
  intros Hx. rewrite !list_lookup_total_alt. case_decide as E.
  - subst. rewrite list_lookup_alter_eq.
    by rewrite (list_lookup_lookup_total_lt l x) by done.
  - by rewrite list_lookup_alter_ne.
Qed.

Lemma bnext_set_next x y l i :
  (x < length l)%nat -> bnext (alter (set_b_next y) x l) i = set_link (bnext l) x y i.
Proof. intros. unfold bnext, set_link. rewrite total_alter by done. by case_decide. Qed.
Lemma bnext_set_prev x y l i :
  (x < length l)%nat -> bnext (alter (set_b_prev y) x l) i = bnext l i.
Proof. intros. unfold bnext. rewrite total_alter by done. case_decide; by subst. Qed.
Lemma bprev_set_prev x y l i :
  (x < length l)%nat -> bprev (alter (set_b_prev y) x l) i = set_link (bprev l) x y i.
Proof. intros. unfold bprev, set_link. rewrite total_alter by done. by case_decide. Qed.
Lemma bprev_set_next x y l i :
  (x < length l)%nat -> bprev (alter (set_b_next y) x l) i = bprev l i.
Proof. intros. unfold bprev. rewrite total_alter by done. case_decide; by subst. Qed.

Lemma dlink_ext nx pv nx' pv' x (l : list nat) y :
  (forall z, nx' z = nx z) -> (forall z, pv' z = pv z) -> dlink nx pv x l y ->
  dlink nx' pv' x l y.
Proof. intros Hn Hp. apply dlink_frame; auto. Qed.

Lemma unlink_ring l (l1 : list nat) i (l2 : list nat) :
  Forall (fun x => x < length l)%nat (bhead :: l1 ++ i :: l2) ->
  NoDup (bhead :: l1 ++ i :: l2) ->
  dlink (bnext l) (bprev l) bhead (l1 ++ i :: l2) bhead ->
  dlink (bnext (unlink i l)) (bprev (unlink i l)) bhead (l1 ++ l2) bhead.
Proof.
  intros Hlt Hnd Hl. pose proof Hl as [H1 H2]%dlink_app.
  rewrite Forall_forall in Hlt.
  assert (bprev l i < length l)%nat as Ha.
  { destruct (dlink_last _ _ _ _ _ H1) as [_ ->]. apply Hlt.
    pose proof (last_of_elem bhead l1) as [->|Hin]%elem_of_cons; [by left|].
    right. apply elem_of_app. by left. }
  assert (bnext l i < length l)%nat as Hz.
  { destruct (dlink_first _ _ _ _ _ H2) as [-> _]. apply Hlt.
    pose proof (first_of_elem l2 bhead) as [Hin|Hin%list_elem_of_singleton]%elem_of_app.
    - right. apply elem_of_app. right. by right.
    - rewrite Hin. by left. }
  eapply dlink_ext; [| |by apply dlink_remove].
  - intros x. unfold unlink. rewrite bnext_set_next by by rewrite length_alter.
    unfold set_link. case_decide; [done|]. by apply bnext_set_prev.
  - intros x. unfold unlink. rewrite bprev_set_next by by rewrite length_alter.
    by apply bprev_set_prev.
Qed.

Lemma unlink_length i l : length (unlink i l) = length l.
Proof. unfold unlink. by rewrite !length_alter. Qed.

Lemma push_front_ring l i ord :
  Forall (fun x => x < length l)%nat (bhead :: i :: ord) ->
  NoDup (bhead :: i :: ord) ->
  dlink (bnext l) (bprev l) bhead ord bhead ->
  dlink (bnext (push_front i l)) (bprev (push_front i l)) bhead (i :: ord) bhead.
Proof.
  intros Hlt Hnd Hl. pose proof Hlt as Hlt'. rewrite Forall_forall in Hlt.
  assert (bhead < length l)%nat as Hh by (apply Hlt; by left).
  assert (i < length l)%nat as Hi by (apply Hlt; right; by left).
  assert (bnext l bhead < length l)%nat as Hf.
  { destruct (dlink_first _ _ _ _ _ Hl) as [-> _]. apply Hlt.
    pose proof (first_of_elem ord bhead) as [Hin|Hin%list_elem_of_singleton]%elem_of_app.
    - right. by right.
    - rewrite Hin. by left. }
  eapply dlink_ext; [| |by apply dlink_insert].
  - intros x. unfold push_front.
    rewrite bnext_set_next by by rewrite !length_alter.
    unfold set_link. case_decide; [done|].
    rewrite bnext_set_prev, bnext_set_prev, bnext_set_next by by rewrite ?length_alter.
    unfold set_link. by case_decide.
  - intros x. unfold push_front.
    rewrite bprev_set_next by by rewrite !length_alter.
    rewrite bprev_set_prev by by rewrite !length_alter.
    unfold set_link. case_decide; [done|].
    rewrite bprev_set_prev by by rewrite !length_alter.
    unfold set_link. case_decide; [done|]. by rewrite bprev_set_next.
Qed.

(** Nothing but links changes. *)
Definition same_but_links (b b' : buf) : Prop :=
  b_valid b' = b_valid b /\ b_dev b' = b_dev b /\ b_blockno b' = b_blockno b /\
  b_lock b' = b_lock b /\ b_refcnt b' = b_refcnt b /\ b_data b' = b_data b.

Lemma alter_links f x l j b :
  (forall b, same_but_links b (f b)) -> alter f x l !! j = Some b ->
  exists b0, l !! j = Some b0 /\ same_but_links b0 b.
Proof.
  intros Hf. destruct (decide (x = j)) as [<-|].
  - rewrite list_lookup_alter_eq. intros (b0 & Hx & ->)%fmap_Some. exists b0. auto.
  - rewrite list_lookup_alter_ne by done. intros Hb. exists b. split; [done|].
    by unfold same_but_links.
Qed.

Lemma same_but_links_trans b1 b2 b3 :
  same_but_links b1 b2 -> same_but_links b2 b3 -> same_but_links b1 b3.
Proof. unfold same_but_links. intros (?&?&?&?&?&?) (?&?&?&?&?&?). split_and!; congruence. Qed.

Lemma to_front_fields i l j b :
  to_front i l !! j = Some b -> exists b0, l !! j = Some b0 /\ same_but_links b0 b.
Proof.
  unfold to_front, push_front, unlink. intros Hb.
  assert (Hf : forall y b, same_but_links b (set_b_next y b)) by done.
  assert (Hg : forall y b, same_but_links b (set_b_prev y b)) by done.
  repeat match goal with
  | H : alter _ _ _ !! j = Some _ |- _ =>
      apply alter_links in H as (? & ? & ?); [|by auto]
  end.
  eexists. split; [done|]. eauto 10 using same_but_links_trans.
Qed.

Lemma to_front_length i l : length (to_front i l) = length l.
Proof. unfold to_front, push_front. by rewrite !length_alter, unlink_length. Qed.
End links.

Section client.
Context {HF : Fuel} (me : nat) (q : proc).
Implicit Types (V D : Z -> block) (L : gset Z) (H : gmap nat Z).

Abbreviation pid := (p_pid q).

(** Replacing one buffer. *)
Lemma binv_step W V D L H V' L' H' s i b f :
  binv me q W V D L H s -> is_buf i -> bufs s !! i = Some b ->
  (exists ord, bcache_inv ord (on_bufs (alter f i) s)) ->
  buf_ok pid V' L' H' i (f b) ->
  (forall j b', j <> i -> is_buf j -> bufs s !! j = Some b' -> buf_ok pid V L H j b' ->
     buf_ok pid V' L' H' j b') ->
  (forall j, is_Some (H' !! j) -> is_Some (H !! j) \/ j = i) ->
  (forall n, n ∈ L' -> (n ∈ L /\ ~ (b_dev b = ROOTDEV /\ b_blockno b = n)) \/
     (b_dev (f b) = ROOTDEV /\ b_blockno (f b) = n /\ b_valid (f b) = true)) ->
  (forall n, n ∉ L' -> (forall i, H' !! i <> Some n) -> V' n = D n) ->
  binv me q W V' D L' H' (on_bufs (alter f i) s).
Proof using.
  intros [Hq Hc Hb Hhd Hh Hp Hcl Hd Hw] Hi Hbi Hc' Hbi' Ho HH HL HV.
  constructor; [by eapply quiet_same|done| | | | |done|done|done].
  - intros j b' Hj Hj'. simpl in Hj'. destruct (decide (i = j)) as [<-|Hne].
    + rewrite list_lookup_alter_eq, Hbi in Hj'. by simplify_eq/=.
    + rewrite list_lookup_alter_ne in Hj' by done. by apply Ho; auto.
  - intros j b' Hj Hj'. simpl in Hj'. rewrite list_lookup_alter_ne in Hj' by congruence.
    by eapply Hhd.
  - intros j [Hj| ->]%HH; auto.
  - intros n [[Hn Hnb]|Hn]%HL.
    + destruct (Hp n Hn) as (j & b' & Hj & Hj' & Hd1 & Hd2 & Hd3). exists j, b'.
      simpl. rewrite list_lookup_alter_ne; [done|]. intros ->. simplify_eq. tauto.
    + exists i, (f b). simpl. by rewrite list_lookup_alter_eq, Hbi.
Qed.

(** A buffer of another block is not concerned by what happens to block
    [n]. *)
Lemma buf_ok_other V L H V' L' H' n j b :
  buf_ok pid V L H j b -> (b_dev b = ROOTDEV -> b_blockno b <> n) ->
  H' !! j = H !! j ->
  (forall m, m <> n -> V' m = V m) -> (forall m, m <> n -> m ∈ L' <-> m ∈ L) ->
  buf_ok pid V' L' H' j b.
Proof using.
  intros [H1 H2 H3 H4 H5 H6 H7] Hn HH HV HL. constructor; rewrite ?HH; auto.
  - rewrite H3. unfold refs. rewrite HH. f_equal. apply decide_ext.
    split; intros [Hd Hb]; (split; [done|]); apply HL; auto.
  - intros Hv. rewrite H7 by done. symmetry. apply HV. apply Hn.
    destruct H1 as [H1|H1]; [|done]. rewrite H2 in Hv by done. done.
Qed.

Lemma bound_refs L H i b : 0 <= refs L H i b <= 2.
Proof using. unfold refs. repeat case_decide; lia. Qed.

(** The two ways [bread] finds a buffer. *)
Lemma busy_bound W V D L H s :
  binv me q W V D L H s -> (size L + size H < Z.to_nat NBUF)%nat ->
  exists i b, is_buf i /\ bufs s !! i = Some b /\ b_refcnt b = 0.
Proof using.
  intros [Hq [ord Hc] Hb Hhd Hh Hp Hcl Hd Hw] Hsz.
  destruct (decide (Exists (fun i => b_refcnt (bufs s !!! i) = 0) buf_ids)) as [He|Hne].
  { apply Exists_exists in He as (i & Hi & Hr). exists i, (bufs s !!! i).
    apply elem_of_seq in Hi. split; [unfold is_buf; lia|]. split; [|done].
    apply list_lookup_lookup_total_lt. rewrite (bi_length _ _ Hc). lia. }
  exfalso. apply not_Exists_Forall in Hne; [|apply _].
  (* every buffer is held or pinned: count the blocks *)
  assert (Hinj : forall i, is_buf i -> exists b, bufs s !! i = Some b /\ b_dev b = ROOTDEV /\
     (b_blockno b ∈ L \/ is_Some (H !! i))).
  { intros i Hi. assert (i < length (bufs s))%nat as Hlt.
    { rewrite (bi_length _ _ Hc). unfold is_buf in Hi. lia. }
    destruct (lookup_lt_is_Some_2 _ _ Hlt) as [b Hbi]. exists b. split; [done|].
    assert (i ∈ buf_ids) as Hin by (apply elem_of_seq; unfold is_buf in *; lia).
    rewrite Forall_forall in Hne. specialize (Hne i Hin).
    unfold compose in Hne. rewrite (list_lookup_total_correct _ _ _ Hbi) in Hne.
    destruct (Hb i b Hi Hbi) as [H1 H2 H3 H4 H5 H6 H7].
    rewrite H3 in Hne. unfold refs in Hne.
    destruct (decide (is_Some (H !! i))) as [[n Hn]|].
    - destruct (H6 n Hn) as (? & ? & _). split; [done|]. right. by eexists.
    - destruct (decide (b_dev b = ROOTDEV /\ b_blockno b ∈ L)) as [[? ?]|]; [auto|lia]. }
  (* map each buffer to its block or to itself *)
  set (g := fun i => match H !! i with Some _ => inl i | None => inr (b_blockno (bufs s !!! i)) end).
  assert (Hnd : NoDup (g <$> buf_ids)).
  { apply NoDup_fmap_2_strong; [|apply NoDup_seq].
    intros i j Hi Hj Hg. apply elem_of_seq in Hi, Hj. unfold g in Hg.
    destruct (H !! i) eqn:Ei, (H !! j) eqn:Ej; simplify_eq; try done.
    destruct (Hinj i) as (b1 & Hb1 & Hd1 & _); [unfold is_buf; lia|].
    destruct (Hinj j) as (b2 & Hb2 & Hd2 & _); [unfold is_buf; lia|].
    rewrite (list_lookup_total_correct _ _ _ Hb1), (list_lookup_total_correct _ _ _ Hb2) in Hg.
    apply (bi_unique _ _ Hc i j b1 b2 Hb1 Hb2); rewrite ?Hd1, ?Hd2; done. }
  assert (Hsub : (g <$> buf_ids) ⊆ ((inl <$> (map_to_list H).*1) ++ (inr <$> elements L))).
  { intros y Hy. apply list_elem_of_fmap in Hy as (i & -> & Hi). apply elem_of_seq in Hi.
    apply elem_of_app. unfold g. destruct (H !! i) as [n|] eqn:Ei.
    - left. apply list_elem_of_fmap. exists i. split; [done|].
      apply list_elem_of_fmap. exists (i, n). split; [done|]. by apply elem_of_map_to_list.
    - right. apply list_elem_of_fmap. eexists. split; [done|].
      destruct (Hinj i) as (b1 & Hb1 & Hd1 & [HL|[n Hn]]); [unfold is_buf; lia| |congruence].
      rewrite (list_lookup_total_correct _ _ _ Hb1). by apply elem_of_elements. }
  pose proof (submseteq_length _ _ (NoDup_submseteq _ _ Hnd Hsub)) as Hlen.
  rewrite length_app, !length_fmap, length_map_to_list in Hlen.
  unfold buf_ids in Hlen. rewrite length_seq in Hlen.
  change (length (elements L)) with (size L) in Hlen. lia.
Qed.
(** The state after [bread] took buffer [i] for block [n]: [f] is what
    happened to it. *)
Definition taken (V : Z -> block) (n : Z) (f : buf -> buf) (b : buf) : Prop :=
  b_dev (f b) = ROOTDEV /\ b_blockno (f b) = n /\ b_valid (f b) = true /\
  b_data (f b) = V n /\ b_lock (f b) = Sleeplock true false pid /\
  b_next (f b) = b_next b /\ b_prev (f b) = b_prev b.

Lemma binv_taken W V D L H s i b n f :
  binv me q W V D L H s -> is_buf i -> bufs s !! i = Some b ->
  (forall j, H !! j <> Some n) -> H !! i = None ->
  taken V n f b -> b_refcnt (f b) = (if decide (n ∈ L) then 2 else 1) ->
  (caches ROOTDEV n b = true \/
   b_refcnt b = 0 /\ forall j b', is_buf j -> bufs s !! j = Some b' ->
     caches ROOTDEV n b' = false) ->
  binv me q W V D L (<[i := n]> H) (on_bufs (alter f i) s).
Proof using.
  intros Hinv Hi Hb HnH HiH (T1 & T2 & T3 & T4 & T5 & T6 & T7) Hr Hwhich.
  pose proof Hinv as [Hq [ord Hc] Hbs Hhd Hh Hp Hcl Hd Hw].
  pose proof (Hbs i b Hi Hb) as Hok.
  assert (Huniq : forall j b', j <> i -> bufs s !! j = Some b' -> caches ROOTDEV n b' = false).
  { intros j b' Hj Hb'. apply not_true_is_false. intros Hca.
    destruct Hwhich as [Hcb|[_ Hno]].
    - destruct Hj. unfold caches in *. apply (bi_unique _ _ Hc j i b' b Hb' Hb); unfold ROOTDEV in *; lia.
    - destruct (decide (is_buf j)) as [Hjb|Hjb]; [by rewrite (Hno j b') in Hca|].
      unfold caches in Hca. rewrite (Hhd j b' Hjb Hb') in Hca. unfold ROOTDEV in *. lia. }
  eapply (binv_step W V D L H); [done|done|done|..].
  - exists ord. apply (bcache_inv_alter ord s i b); rewrite ?T1, ?T2, ?T5, ?Hr; try done.
    + case_decide; lia.
    + case_decide; lia.
    + intros j b' Hj Hb' _. by eapply Huniq.
  - constructor; rewrite ?T1, ?T2, ?T3, ?T4, ?T5; simpl.
    + by right.
    + done.
    + rewrite Hr. unfold refs. rewrite T1, T2.
      assert (is_Some (<[i := n]> H !! i)) by by rewrite lookup_insert_eq.
      repeat case_decide; tauto || lia.
    + symmetry. apply bool_decide_eq_true. by rewrite lookup_insert_eq.
    + done.
    + intros m. rewrite lookup_insert_eq. by intros [= ->].
    + done.
  - intros j b' Hj Hjb Hb' Hok'. eapply (buf_ok_other V L H V L _ n); [done| |..]; try done.
    + intros Hd1 Hd2. specialize (Huniq j b' Hj Hb'). unfold caches in Huniq. lia.
    + by rewrite lookup_insert_ne.
  - intros j. rewrite lookup_insert_is_Some'. intros [->|?]; auto.
  - intros m Hm. destruct (decide (b_dev b = ROOTDEV /\ b_blockno b = m)) as [[E1 E2]|]; [|auto].
    right. rewrite T1, T2, T3. split; [done|]. split; [|done].
    destruct Hwhich as [Hcb|[Hr0 _]]; [unfold caches in Hcb; lia|].
    pose proof (bo_refs _ _ _ _ _ _ Hok) as Hrf. unfold refs in Hrf.
    rewrite (decide_True (P := b_dev b = ROOTDEV /\ _)) in Hrf by (subst m; done).
    case_decide; lia.
  - intros m Hm HmH. apply Hcl; [done|]. intros j Hj. apply (HmH j).
    rewrite lookup_insert_ne; [done|]. intros ->. congruence.
Qed.
(** The part of [bread] after [bget]: fill an invalid buffer. *)
Definition fill (d : block) (b : buf) : buf :=
  if b_valid b then b else set_b_valid true (set_b_data d b).

Lemma bread_fill dev n i b s s1 :
  bget dev n s = Done i s1 -> bufs s1 !! i = Some b ->
  bread dev n s = Done i (on_bufs (alter (fill (disk_block s1 (b_blockno b))) i) s1).
Proof using.
  intros Hg Hb. unfold bread. rewrite (bind_done _ _ _ _ _ Hg).
  rewrite (bind_done _ _ _ _ _ (bfget_eq i b_valid s1 b Hb)).
  destruct (b_valid b) eqn:Hv; simpl.
  - unfold bind, ret. simpl. f_equal. symmetry. apply on_bufs_id.
    rewrite <-(alter_id_eq i (bufs s1)) at 2. apply list_alter_ext_at.
    intros x Hx. simplify_eq. unfold fill. by rewrite Hv.
  - unfold virtio_disk_rw.
    erewrite bind_done; [done|].
    erewrite bind_done.
    2:{ rewrite (bind_done _ _ _ _ _ (bfget_eq i b_blockno s1 b Hb)).
        rewrite (bind_done _ _ _ (disk_block s1 (b_blockno b)) s1) by done.
        apply bfset_eq. }
    rewrite bfset_eq, on_bufs_compose. f_equal. apply on_bufs_ext.
    rewrite alter_compose_at. apply list_alter_ext_at.
    intros x Hx. simplify_eq. unfold fill. by rewrite Hv.
Qed.

Lemma wp_bread W V D L H n s (Q : nat -> kernel -> Prop) :
  binv me q W V D L H s -> (forall i, H !! i <> Some n) ->
  n ∈ L \/ (size L + size H < Z.to_nat NBUF)%nat ->
  (forall i s', binv me q W V D L (<[i := n]> H) s' -> H !! i = None ->
     bframe s s' -> Q i s') ->
  wp (bread ROOTDEV n) s Q.
Proof using.
  intros Hinv HnH Hroom HQ. pose proof Hinv as [Hq [ord Hc] Hbs Hhd Hh Hp Hcl Hd Hw].
  destruct (decide (Exists (fun i => caches ROOTDEV n (bufs s !!! i) = true) buf_ids))
    as [He|Hne].
  - (* cached *)
    apply Exists_exists in He as (i & Hi & Hca). apply elem_of_seq in Hi.
    assert (is_buf i) as Hib by (unfold is_buf; lia).
    assert (bufs s !! i = Some (bufs s !!! i)) as Hb.
    { apply list_lookup_lookup_total_lt. rewrite (bi_length _ _ Hc). lia. }
    set (b := bufs s !!! i) in *. pose proof (Hbs i b Hib Hb) as Hok.
    assert (H !! i = None) as HiH.
    { destruct (H !! i) as [m|] eqn:E; [|done].
      destruct (bo_held _ _ _ _ _ _ Hok m E) as (_ & Hm & _).
      destruct (HnH i). unfold caches in Hca. rewrite E. f_equal. lia. }
    assert (sl_locked (b_lock b) = false) as Hul.
    { rewrite (bo_lock _ _ _ _ _ _ Hok). apply bool_decide_eq_false.
      rewrite HiH. by intros [? ?]. }
    pose proof (bget_hit me q ord s Hq Hc ROOTDEV n i b
      (proj2 (ord_elem ord s Hc i) Hib) Hb ltac:(done) Hca Hul) as Hg.
    eapply wp_done.
    { eapply bread_fill; [exact Hg|]. simpl. by rewrite list_lookup_alter_eq, Hb. }
    rewrite on_bufs_compose.
    rewrite (on_bufs_ext _ (alter (fun x => fill (D n) (hold pid x)) i)).
    2:{ rewrite alter_compose_at. apply list_alter_ext_at. intros x Hx. f_equal.
        unfold disk_block. simpl. rewrite <-Hd. unfold caches in Hca.
        replace (b_blockno b) with n by lia. done. }
    assert (Hcb := Hca). unfold caches in Hca.
    assert (b_dev b = ROOTDEV /\ b_blockno b = n) as [Hdev Hbn] by lia.
    assert (b_refcnt b = if decide (n ∈ L) then 1 else 0) as Hrc.
    { rewrite (bo_refs _ _ _ _ _ _ Hok). unfold refs. rewrite HiH.
      rewrite (decide_False (P := is_Some None)) by by intros [? ?].
      rewrite Hdev, Hbn. repeat case_decide; tauto || lia. }
    apply HQ; [|done|apply bframe_on_bufs].
    apply (binv_taken W V D L H s i b); auto.
    + unfold taken, fill. simpl. destruct (b_valid b) eqn:Hv; simpl; split_and!; auto.
      * rewrite (bo_data _ _ _ _ _ _ Hok Hv). by rewrite Hbn.
      * symmetry. apply Hcl; [|done]. intros HnL.
        destruct (Hp n HnL) as (j & b' & Hj & Hb' & Hd1 & Hd2 & Hd3).
        assert (j = i) as ->.
        { apply (bi_unique _ _ Hc j i b' b Hb' Hb); unfold ROOTDEV in *; congruence. }
        congruence.
    + unfold fill, hold. destruct (b_valid _); simpl; rewrite Hrc; by case_decide.
  - (* not cached *)
    assert (Hno : forall j b', is_buf j -> bufs s !! j = Some b' ->
      caches ROOTDEV n b' = false).
    { intros j b' Hj Hb'. apply not_true_is_false. intros Hca. apply Hne.
      apply Exists_exists. exists j. split; [apply elem_of_seq; unfold is_buf in Hj; lia|].
      by rewrite (list_lookup_total_correct _ _ _ Hb'). }
    assert (n ∉ L) as HnL.
    { intros HnL. destruct (Hp n HnL) as (j & b' & Hj & Hb' & Hd1 & Hd2 & Hd3).
      specialize (Hno j b' Hj Hb'). unfold caches in Hno. lia. }
    destruct Hroom as [?|Hroom]; [done|].
    destruct (busy_bound W V D L H s Hinv Hroom) as (i0 & b0 & Hi0 & Hb0 & Hr0).
    destruct (last_split (fun i => b_refcnt (bufs s !!! i) = 0) ord i0)
      as (l1 & i & l2 & Hord & Hr & Hl2).
    { by apply (ord_elem ord s Hc). }
    { by rewrite (list_lookup_total_correct _ _ _ Hb0). }
    assert (is_buf i) as Hib.
    { apply (ord_elem ord s Hc). rewrite Hord. apply elem_of_app. right. by left. }
    assert (bufs s !! i = Some (bufs s !!! i)) as Hb.
    { apply list_lookup_lookup_total_lt. rewrite (bi_length _ _ Hc).
      unfold is_buf in Hib. lia. }
    set (b := bufs s !!! i) in *. pose proof (Hbs i b Hib Hb) as Hok.
    assert (H !! i = None) as HiH.
    { destruct (H !! i) as [m|] eqn:E; [|done].
      pose proof (bo_refs _ _ _ _ _ _ Hok) as Hrf. unfold refs in Hrf.
      rewrite (decide_True (P := is_Some (H !! i))) in Hrf by by rewrite E.
      case_decide; lia. }
    assert (Hg : bget ROOTDEV n s = Done i (on_bufs (alter (recycle ROOTDEV n pid) i) s)).
    { apply (bget_miss me q ord s Hq Hc ROOTDEV n i b l1 l2); [|done|done|done|].
      - intros x b' Hx. apply Hno. by apply (ord_elem ord s Hc).
      - intros x b' Hx Hb'. specialize (Hl2 x Hx).
        by rewrite (list_lookup_total_correct _ _ _ Hb') in Hl2. }
    eapply wp_done.
    { eapply bread_fill; [exact Hg|]. simpl. by rewrite list_lookup_alter_eq, Hb. }
    rewrite on_bufs_compose.
    rewrite (on_bufs_ext _ (alter (fun x => fill (D n) (recycle ROOTDEV n pid x)) i)).
    2:{ rewrite alter_compose_at. apply list_alter_ext_at. intros x Hx. f_equal.
        unfold disk_block. simpl. by rewrite <-Hd. }
    apply HQ; [|done|apply bframe_on_bufs].
    apply (binv_taken W V D L H s i b); auto.
    + unfold taken, fill. simpl. split_and!; auto. symmetry. by apply Hcl.
    + unfold fill. simpl. by rewrite decide_False.
Qed.
(** ** Contents *)

Definition fupd (V : Z -> block) (n : Z) (d : block) : Z -> block :=
  fun m => if decide (m = n) then d else V m.

Lemma fupd_eq V n d : fupd V n d n = d.
Proof using. unfold fupd. by rewrite decide_True. Qed.
Lemma fupd_ne V n d m : m <> n -> fupd V n d m = V m.
Proof using. intros. unfold fupd. by rewrite decide_False. Qed.

(** A held buffer and what the others can say about its block. *)
Lemma held_buf W V D L H s i n :
  binv me q W V D L H s -> H !! i = Some n ->
  exists b, is_buf i /\ bufs s !! i = Some b /\ buf_ok pid V L H i b /\
    b_dev b = ROOTDEV /\ b_blockno b = n /\ b_valid b = true /\ b_data b = V n /\
    b_lock b = Sleeplock true false pid /\
    (forall j b', j <> i -> bufs s !! j = Some b' -> b_dev b' = ROOTDEV -> b_blockno b' <> n).
Proof using.
  intros [Hq [ord Hc] Hbs Hhd Hh Hp Hcl Hd Hw] Hn.
  assert (is_buf i) as Hi by (apply Hh; by rewrite Hn).
  assert (i < length (bufs s))%nat as Hlt.
  { rewrite (bi_length _ _ Hc). unfold is_buf in Hi. lia. }
  destruct (lookup_lt_is_Some_2 _ _ Hlt) as [b Hb]. exists b.
  pose proof (Hbs i b Hi Hb) as Hok.
  destruct (bo_held _ _ _ _ _ _ Hok n Hn) as (H1 & H2 & H3).
  split_and!; auto.
  - rewrite (bo_data _ _ _ _ _ _ Hok H3). by rewrite H2.
  - pose proof (bi_sleep _ _ Hc i b Hb) as H4. pose proof (bo_lock _ _ _ _ _ _ Hok) as H5.
    rewrite bool_decide_true in H5 by by rewrite Hn.
    pose proof (bo_pid _ _ _ _ _ _ Hok ltac:(by rewrite Hn)) as H6.
    destruct (b_lock b); simpl in *; congruence.
  - intros j b' Hj Hb' Hd1 Hd2. apply Hj.
    apply (bi_unique _ _ Hc j i b' b Hb' Hb); unfold ROOTDEV in *; congruence.
Qed.

Lemma wp_bdata W V D L H s i n (Q : block -> kernel -> Prop) :
  binv me q W V D L H s -> H !! i = Some n -> Q (V n) s -> wp (bfget i b_data) s Q.
Proof using.
  intros Hinv Hn HQ. destruct (held_buf _ _ _ _ _ _ _ _ Hinv Hn)
    as (b & _ & Hb & _ & _ & _ & _ & Hda & _).
  eapply wp_done; [by apply bfget_eq|by rewrite Hda].
Qed.

Lemma wp_bdata_set W V D L H s i n g (Q : unit -> kernel -> Prop) :
  binv me q W V D L H s -> H !! i = Some n ->
  (forall s', binv me q W (fupd V n (g (V n))) D L H s' -> bframe s s' -> Q tt s') ->
  wp (bfset i (fun x => set_b_data (g (b_data x)) x)) s Q.
Proof using.
  intros Hinv Hn HQ. destruct (held_buf _ _ _ _ _ _ _ _ Hinv Hn)
    as (b & Hi & Hb & Hok & Hdev & Hbn & Hv & Hda & Hl & Ho).
  eapply wp_done; [apply bfset_eq|]. apply HQ; [|apply bframe_on_bufs].
  pose proof Hinv as [Hq [ord Hc] Hbs Hhd Hh Hp Hcl Hd Hw].
  eapply (binv_step W V D L H); [done|done|done|..].
  - exists ord. apply (bcache_inv_alter ord s i b); simpl; try done.
    + by rewrite Hl.
    + by apply (bi_refcnt _ _ Hc i b).
    + by apply (bi_held _ _ Hc i b).
    + intros j b' Hj Hb' _. pose proof (Ho j b' Hj Hb'). unfold caches. rewrite Hdev. lia.
  - destruct Hok as [H1 H2 H3 H4 H5 H6 H7]. constructor; simpl; auto.
    intros _. by rewrite Hbn, fupd_eq, Hda.
  - intros j b' Hj Hjb Hb' Hok'. eapply (buf_ok_other V L H _ L H n); try done.
    + by apply (Ho j b').
    + intros m Hm. by apply fupd_ne.
  - auto.
  - intros m Hm. destruct (decide (b_dev b = ROOTDEV /\ b_blockno b = m)); auto.
    right. simpl. by split_and!; try tauto.
  - intros m Hm HmH. rewrite fupd_ne; [by apply Hcl|]. intros ->. by apply (HmH i).
Qed.

(** ** bwrite *)

Lemma wp_bwrite W V D L H s i n (Q : unit -> kernel -> Prop) :
  binv me q W V D L H s -> H !! i = Some n ->
  (forall s', binv me q (W ++ [(n, V n)]) V (fupd D n (V n)) L H s' -> bframe s s' -> Q tt s') ->
  wp (bwrite i) s Q.
Proof using.
  intros Hinv Hn HQ. destruct (held_buf _ _ _ _ _ _ _ _ Hinv Hn)
    as (b & Hi & Hb & Hok & Hdev & Hbn & Hv & Hda & Hl & Ho).
  pose proof Hinv as [Hq [ord Hc] Hbs Hhd Hh Hp Hcl Hd Hw].
  set (s' := set_k_writes (k_writes s ++ [(n, V n)]) (set_k_disk (<[n := V n]> (k_disk s)) s)).
  apply (wp_done _ _ tt s').
  - unfold bwrite. erewrite bind_done.
    2:{ apply (holdingsleep_eq (b_lockL i) (buf_dom i) me q s (b_lock b)); [done| |by apply b_lock_view|by rewrite Hl].
        unfold buf_dom. by eapply lookup_lt_Some. }
    rewrite Hl. simpl. rewrite Z.eqb_refl. rewrite (bind_done _ _ _ tt s) by done.
    unfold virtio_disk_rw.
    rewrite (bind_done _ _ _ _ _ (bfget_eq i b_blockno s b Hb)).
    rewrite (bind_done _ _ _ _ _ (bfget_eq i b_data s b Hb)).
    rewrite Hbn, Hda. done.
  - apply HQ; [|unfold s'; by destruct s]. constructor; simpl; auto.
    + by eapply quiet_same.
    + exists ord. by destruct Hc; constructor.
    + intros m Hm HmH. rewrite fupd_ne; [by apply Hcl|]. intros ->. by apply (HmH i).
    + intros m. unfold disk_block. simpl. destruct (decide (m = n)) as [->|Hm].
      * by rewrite lookup_insert_eq, fupd_eq.
      * rewrite lookup_insert_ne, fupd_ne by done. apply Hd.
    + by rewrite Hw.
Qed.

(** ** bpin and bunpin *)

Lemma bc_refcnt_eq i g s :
  quiet me q s -> bc_lock (k_bc s) = false ->
  (acquire bc_lockL ;; bfset i g ;; release bc_lockL) s = Done tt (on_bufs (alter g i) s).
Proof using.
  intros Hq Hl.
  rewrite (bind_done _ _ _ _ _ (acquire_eq (lk := bc_lockL) s (quiet_cpu _ _ _ Hq) Hl)).
  rewrite (bind_done _ _ _ _ _ (bfset_eq _ _ _)). apply bc_section; [|done].
  by apply quiet_cpu in Hq.
Qed.

(** A change of the reference count of a held buffer, with its pin. *)
Lemma binv_repin W V D L H L' s i n r :
  binv me q W V D L H s -> H !! i = Some n ->
  (forall m, m <> n -> m ∈ L' <-> m ∈ L) -> r = (if decide (n ∈ L') then 2 else 1) ->
  binv me q W V D L' H (on_bufs (alter (set_b_refcnt r) i) s).
Proof using.
  intros Hinv Hn HL Hr. destruct (held_buf _ _ _ _ _ _ _ _ Hinv Hn)
    as (b & Hi & Hb & Hok & Hdev & Hbn & Hv & Hda & Hl & Ho).
  pose proof Hinv as [Hq [ord Hc] Hbs Hhd Hh Hp Hcl Hd Hw].
  eapply (binv_step W V D L H); [done|done|done|..].
  - exists ord. apply (bcache_inv_alter ord s i b); simpl; try done.
    + by rewrite Hl.
    + subst r. case_decide; lia.
    + subst r. case_decide; lia.
    + intros j b' Hj Hb' _. pose proof (Ho j b' Hj Hb'). unfold caches. rewrite Hdev. lia.
  - destruct Hok as [H1 H2 H3 H4 H5 H6 H7]. constructor; simpl; auto.
    unfold refs. simpl. rewrite (decide_True (P := is_Some (H !! i))) by by rewrite Hn.
    rewrite Hdev, Hbn, Hr. repeat case_decide; tauto || lia.
  - intros j b' Hj Hjb Hb' Hok'. eapply (buf_ok_other V L H V L' H n); try done.
    by apply (Ho j b').
  - auto.
  - intros m Hm. destruct (decide (m = n)) as [->|Hmn].
    + right. by rewrite <-Hbn.
    + left. split; [by apply HL|]. rewrite Hbn. intros [_ E]. done.
  - intros m Hm HmH. apply Hcl; [|done]. rewrite <-HL; [done|]. intros ->. by apply (HmH i).
Qed.

Lemma wp_bpin W V D L H s i n (Q : unit -> kernel -> Prop) :
  binv me q W V D L H s -> H !! i = Some n -> n ∉ L ->
  (forall s', binv me q W V D ({[n]} ∪ L) H s' -> bframe s s' -> Q tt s') ->
  wp (bpin i) s Q.
Proof using.
  intros Hinv Hn HnL HQ. destruct (held_buf _ _ _ _ _ _ _ _ Hinv Hn)
    as (b & Hi & Hb & Hok & Hdev & Hbn & _).
  pose proof Hinv as [Hq [ord Hc] _ _ _ _ _ _ _].
  eapply wp_done; [by apply bc_refcnt_eq, Hc|].
  apply HQ; [|apply bframe_on_bufs].
  rewrite (on_bufs_ext _ (alter (set_b_refcnt 2) i)).
  - apply (binv_repin W V D L H _ s i n); [done|done| |].
    + intros m Hm. rewrite elem_of_union, elem_of_singleton. tauto.
    + rewrite decide_True; [done|]. apply elem_of_union_l. by apply elem_of_singleton.
  - apply list_alter_ext_at. intros x Hx. assert (x = b) as -> by congruence.
    rewrite (bo_refs _ _ _ _ _ _ Hok). unfold refs. rewrite Hdev, Hbn.
    rewrite (decide_True (P := is_Some (H !! i))) by by rewrite Hn.
    by rewrite decide_False by tauto.
Qed.

Lemma wp_bunpin W V D L H s i n (Q : unit -> kernel -> Prop) :
  binv me q W V D L H s -> H !! i = Some n -> n ∈ L ->
  (forall s', binv me q W V D (L ∖ {[n]}) H s' -> bframe s s' -> Q tt s') ->
  wp (bunpin i) s Q.
Proof using.
  intros Hinv Hn HnL HQ. destruct (held_buf _ _ _ _ _ _ _ _ Hinv Hn)
    as (b & Hi & Hb & Hok & Hdev & Hbn & _).
  pose proof Hinv as [Hq [ord Hc] _ _ _ _ _ _ _].
  eapply wp_done; [by apply bc_refcnt_eq, Hc|].
  apply HQ; [|apply bframe_on_bufs].
  rewrite (on_bufs_ext _ (alter (set_b_refcnt 1) i)).
  - apply (binv_repin W V D L H _ s i n); [done|done| |].
    + intros m Hm. rewrite elem_of_difference, elem_of_singleton. tauto.
    + rewrite decide_False; [done|]. rewrite elem_of_difference, elem_of_singleton. tauto.
  - apply list_alter_ext_at. intros x Hx. assert (x = b) as -> by congruence.
    rewrite (bo_refs _ _ _ _ _ _ Hok). unfold refs. rewrite Hdev, Hbn.
    rewrite (decide_True (P := is_Some (H !! i))) by by rewrite Hn.
    by rewrite decide_True by tauto.
Qed.
(** ** brelse *)

Lemma on_bufs_bufs f s : bufs (on_bufs f s) = f (bufs s).
Proof using. done. Qed.

Lemma binsert_eq i s :
  i <> bhead -> (i < length (bufs s))%nat ->
  binsert i s = Done tt (on_bufs (push_front i) s).
Proof using.
  intros Hi Hlt. unfold binsert.
  rewrite (bind_done _ _ _ _ _ (bfget_total bhead b_next s)).
  rewrite !(bind_done _ _ _ _ _ (bfset_eq _ _ _)).
  rewrite (bind_done _ _ _ _ _ (bfget_total bhead b_next _)).
  rewrite (bind_done _ _ _ _ _ (bfset_eq _ _ _)), bfset_eq.
  rewrite !on_bufs_compose, on_bufs_bufs.
  f_equal. apply on_bufs_ext. unfold push_front, bnext.
  rewrite total_alter, decide_False by (rewrite ?length_alter; done).
  by rewrite total_alter, decide_False by done.
Qed.

Lemma relink_eq i s :
  i <> bhead -> (i < length (bufs s))%nat -> bnext (bufs s) i <> i ->
  (bnext (bufs s) i < length (bufs s))%nat ->
  (next <- bfget i b_next ;;
   prev <- bfget i b_prev ;;
   bfset next (set_b_prev prev) ;;
   prev <- bfget i b_prev ;;
   next <- bfget i b_next ;;
   bfset prev (set_b_next next) ;;
   binsert i) s = Done tt (on_bufs (to_front i) s).
Proof using.
  intros Hi Hlt Hz Hzlt.
  rewrite (bind_done _ _ _ _ _ (bfget_total i b_next s)).
  rewrite (bind_done _ _ _ _ _ (bfget_total i b_prev s)).
  rewrite (bind_done _ _ _ _ _ (bfset_eq _ _ _)).
  rewrite (bind_done _ _ _ _ _ (bfget_total i b_prev _)).
  rewrite (bind_done _ _ _ _ _ (bfget_total i b_next _)).
  rewrite (bind_done _ _ _ _ _ (bfset_eq _ _ _)).
  rewrite !on_bufs_bufs.
  rewrite total_alter, decide_False by auto.
  rewrite on_bufs_compose. fold (bprev (bufs s) i) (bnext (bufs s) i).
  rewrite (on_bufs_ext _ (unlink i)) by done.
  rewrite binsert_eq; [|done|by rewrite on_bufs_bufs, unlink_length].
  by rewrite on_bufs_compose.
Qed.

(** The buffer without its lock and one of its references. *)
Definition drop_ref (b : buf) : buf :=
  set_b_refcnt (u32 (b_refcnt b - 1)) (set_b_lock (Sleeplock false false 0) b).

Lemma brelse_eq W V D L H s i n ord :
  binv me q W V D L H s -> bcache_inv ord s -> H !! i = Some n ->
  brelse i s = Done tt
    (on_bufs (fun l => if decide (n ∈ L) then alter drop_ref i l
                       else to_front i (alter drop_ref i l)) s).
Proof using.
  intros Hinv Hc Hn. destruct (held_buf _ _ _ _ _ _ _ _ Hinv Hn)
    as (b & Hi & Hb & Hok & Hdev & Hbn & Hv & Hda & Hl & Ho).
  pose proof Hinv as [Hq _ Hbs Hhd Hh Hp Hcl Hd Hw].
  assert (buf_dom i s) as Hdom by (unfold buf_dom; by eapply lookup_lt_Some).
  assert (b_refcnt b = if decide (n ∈ L) then 2 else 1) as Hr.
  { rewrite (bo_refs _ _ _ _ _ _ Hok). unfold refs. rewrite Hdev, Hbn.
    rewrite (decide_True (P := is_Some (H !! i))) by by rewrite Hn.
    repeat case_decide; tauto || lia. }
  unfold brelse.
  erewrite bind_done.
  2:{ apply (holdingsleep_eq (b_lockL i) (buf_dom i) me q s (b_lock b));
        [done|done|by apply b_lock_view|by rewrite Hl]. }
  rewrite Hl. simpl. rewrite Z.eqb_refl. rewrite (bind_done _ _ _ tt s) by done.
  erewrite bind_done.
  2:{ apply (releasesleep_eq (b_lockL i) (buf_dom i) _ me q s pid);
        [done|done|]. by rewrite (b_lock_view i s b). }
  rewrite b_lock_update. set (s1 := on_bufs _ s).
  assert (quiet me q s1) as Hq1 by by eapply quiet_same.
  rewrite (bind_done _ _ _ _ _ (acquire_eq (lk := bc_lockL) s1 (quiet_cpu _ _ _ Hq1)
    (bi_unlocked _ _ Hc))).
  rewrite (bind_done _ _ _ _ _ (bfset_eq _ _ _)).
  set (s2 := on_bufs _ (locked bc_lockL s1)).
  assert (bufs s2 = alter drop_ref i (bufs s)) as Hs2.
  { unfold s2, s1. rewrite on_bufs_bufs, locked_bufs, on_bufs_bufs. by rewrite alter_compose_at. }
  assert (bufs s2 !! i = Some (drop_ref b)) as Hb2.
  { by rewrite Hs2, list_lookup_alter_eq, Hb. }
  rewrite (bind_done _ _ _ _ _ (bfget_eq i b_refcnt s2 _ Hb2)).
  simpl (b_refcnt (drop_ref b)). rewrite Hr.
  destruct (decide (n ∈ L)) as [HnL|HnL]; simpl.
  - rewrite (bind_done _ _ _ tt s2) by done. unfold s2.
    rewrite bc_section; [|by apply quiet_cpu in Hq1|by apply (bi_unlocked _ _ Hc)].
    f_equal. unfold s1. rewrite on_bufs_compose. apply on_bufs_ext. by rewrite alter_compose_at.
  - assert (Hring := bi_ring _ _ Hc).
    assert (i ∈ ord) as Hio by by apply (ord_elem ord s Hc).
    assert (i <> bhead) as Hih by (intros ->; by apply (ord_head ord s Hc)).
    assert (bnext (bufs s2) i = bnext (bufs s) i) as Hnx.
    { unfold bnext. rewrite Hs2, total_alter by done. by rewrite decide_True. }
    apply list_elem_of_split in Hio as (l1 & l2 & Hord).
    assert (bnext (bufs s) i = first_of l2 bhead) as Hfirst.
    { rewrite Hord in Hring. apply dlink_app in Hring as [_ H2].
      by apply dlink_first in H2 as [? _]. }
    assert (bnext (bufs s) i ∈ l2 ++ [bhead]) as Hin.
    { rewrite Hfirst. apply first_of_elem. }
    rewrite (bind_done _ _ _ tt (on_bufs (to_front i) s2)).
    2:{ apply relink_eq; [done|by rewrite Hs2, length_alter| |].
        - rewrite Hnx. intros E. rewrite E in Hin.
          pose proof (ord_nodup ord s Hc) as Hnd. rewrite Hord in Hnd.
          apply NoDup_app in Hnd as (_ & _ & Hnd). apply NoDup_cons in Hnd as [Hni _].
          apply elem_of_app in Hin as [?|?%list_elem_of_singleton]; done.
        - rewrite Hnx, Hs2, length_alter, (bi_length _ _ Hc).
          apply elem_of_app in Hin as [Hin|Hin%list_elem_of_singleton].
          + assert (bnext (bufs s) i ∈ ord) as Hx.
            { rewrite Hord. apply elem_of_app. right. by right. }
            apply (ord_elem ord s Hc) in Hx. lia.
          + rewrite Hin. unfold bhead. lia. }
    unfold s2. rewrite on_bufs_compose.
    rewrite bc_section; [|by apply quiet_cpu in Hq1|by apply (bi_unlocked _ _ Hc)].
    f_equal. unfold s1. rewrite on_bufs_compose. apply on_bufs_ext.
    by rewrite alter_compose_at.
Qed.
(** The front of the list is the most recently used buffer. *)
Lemma to_front_inv l1 i l2 s :
  bcache_inv (l1 ++ i :: l2) s -> bcache_inv (i :: l1 ++ l2) (on_bufs (to_front i) s).
Proof using.
  intros Hc. pose proof Hc as [Hul Hlen Hring Hperm Hsl Href Hheld Huniq].
  assert (Hget : forall j b, bufs (on_bufs (to_front i) s) !! j = Some b ->
    exists b0, bufs s !! j = Some b0 /\ same_but_links b0 b).
  { intros j b. apply to_front_fields. }
  assert (Hlt : Forall (fun x => x < length (bufs s))%nat (bhead :: l1 ++ i :: l2)).
  { apply Forall_forall. intros x [->|Hx]%elem_of_cons.
    - rewrite Hlen. unfold bhead. lia.
    - apply (ord_elem _ _ Hc) in Hx. rewrite Hlen. lia. }
  assert (Hnd : NoDup (bhead :: l1 ++ i :: l2)).
  { constructor; [apply (ord_head _ _ Hc)|apply (ord_nodup _ _ Hc)]. }
  constructor.
  - done.
  - by rewrite on_bufs_bufs, to_front_length.
  - rewrite on_bufs_bufs. apply push_front_ring.
    + rewrite unlink_length. by rewrite Permutation_middle.
    + by rewrite Permutation_middle.
    + by apply unlink_ring.
  - by rewrite Permutation_middle.
  - intros j b (b0 & Hb0 & (_&_&_&->&_))%Hget. by eapply Hsl.
  - intros j b (b0 & Hb0 & (_&_&_&_&->&_))%Hget. by eapply Href.
  - intros j b (b0 & Hb0 & (_&_&_&->&->&_))%Hget. by eapply Hheld.
  - intros j k b b' (b0 & Hb0 & (_&->&->&_))%Hget (b1 & Hb1 & (_&->&->&_))%Hget.
    by eapply Huniq.
Qed.

Lemma binv_to_front W V D L H s i :
  binv me q W V D L H s -> is_buf i -> binv me q W V D L H (on_bufs (to_front i) s).
Proof using.
  intros [Hq [ord Hc] Hbs Hhd Hh Hp Hcl Hd Hw] Hi.
  assert (Hget : forall j b, bufs (on_bufs (to_front i) s) !! j = Some b ->
    exists b0, bufs s !! j = Some b0 /\ same_but_links b0 b).
  { intros j b. apply to_front_fields. }
  constructor; [by eapply quiet_same| | | |done| |done|done|done].
  - apply (ord_elem ord s Hc) in Hi. apply list_elem_of_split in Hi as (l1 & l2 & ->).
    exists (i :: l1 ++ l2). by apply to_front_inv.
  - intros j b Hj (b0 & Hb0 & (E1&E2&E3&E4&E5&E6))%Hget.
    destruct (Hbs j b0 Hj Hb0) as [H1 H2 H3 H4 H5 H6 H7].
    constructor; rewrite ?E1, ?E2, ?E3, ?E4, ?E5, ?E6; try done.
    rewrite H3. unfold refs. by rewrite E2, E3.
  - intros j b Hj (b0 & Hb0 & (E1&E2&_))%Hget. rewrite E2. by eapply Hhd.
  - intros n Hn. destruct (Hp n Hn) as (j & b0 & Hj & Hb0 & H1 & H2 & H3).
    assert (j < length (to_front i (bufs s)))%nat as Hlt.
    { rewrite to_front_length. by eapply lookup_lt_Some. }
    destruct (lookup_lt_is_Some_2 _ _ Hlt) as [b Hb].
    destruct (Hget j b Hb) as (b1 & Hb1 & (E1&E2&E3&_)). simplify_eq.
    exists j, b. by rewrite E1, E2, E3.
Qed.

Lemma wp_brelse W V D L H s i n (Q : unit -> kernel -> Prop) :
  binv me q W V D L H s -> H !! i = Some n -> n ∈ L \/ V n = D n ->
  (forall s', binv me q W V D L (delete i H) s' -> bframe s s' -> Q tt s') ->
  wp (brelse i) s Q.
Proof using.
  intros Hinv Hn Hclean HQ. destruct (held_buf _ _ _ _ _ _ _ _ Hinv Hn)
    as (b & Hi & Hb & Hok & Hdev & Hbn & Hv & Hda & Hl & Ho).
  pose proof Hinv as [Hq [ord Hc] Hbs Hhd Hh Hp Hcl Hd Hw].
  assert (b_refcnt b = if decide (n ∈ L) then 2 else 1) as Hr.
  { rewrite (bo_refs _ _ _ _ _ _ Hok). unfold refs. rewrite Hdev, Hbn.
    rewrite (decide_True (P := is_Some (H !! i))) by by rewrite Hn.
    repeat case_decide; tauto || lia. }
  assert (binv me q W V D L (delete i H) (on_bufs (alter drop_ref i) s)) as Hinv'.
  { eapply (binv_step W V D L H); [done|done|done|..].
    - exists ord. apply (bcache_inv_alter ord s i b); simpl; try done.
      + rewrite Hr. case_decide; by compute.
      + intros j b' Hj Hb' _. pose proof (Ho j b' Hj Hb'). unfold caches.
        rewrite Hdev, Hbn. lia.
    - destruct Hok as [H1 H2 H3 H4 H5 H6 H7].
      assert (~ is_Some (delete i H !! i)) as Hnone.
      { rewrite lookup_delete_eq. by intros [? ?]. }
      constructor; simpl; auto.
      + rewrite Hr. unfold refs. simpl. rewrite Hdev, Hbn.
        rewrite (decide_False (P := is_Some (delete i H !! i))) by done.
        repeat case_decide; tauto || done.
      + symmetry. by apply bool_decide_eq_false.
      + tauto.
      + intros m Hm. destruct Hnone. by rewrite Hm.
    - intros j b' Hj Hjb Hb' Hok'. eapply (buf_ok_other V L H V L _ n); try done.
      + by apply (Ho j b').
      + by rewrite lookup_delete_ne.
    - intros j [x Hx]. left. apply lookup_delete_Some in Hx as [_ Hx]. by exists x.
    - intros m Hm. destruct (decide (b_dev b = ROOTDEV /\ b_blockno b = m)); auto.
      right. simpl. by split_and!; try tauto.
    - intros m Hm HmH. destruct (decide (m = n)) as [->|Hmn]; [tauto|].
      apply Hcl; [done|]. intros j Hj. apply (HmH j). rewrite lookup_delete_ne; [done|].
      intros ->. congruence. }
  eapply wp_done; [by eapply brelse_eq|].
  destruct (decide (n ∈ L)).
  - by apply HQ; [|apply bframe_on_bufs].
  - apply HQ; [|apply bframe_on_bufs].
    rewrite <-(on_bufs_compose (to_front i) (alter drop_ref i)). by apply binv_to_front.
Qed.
End client.

(** ** binit *)

(** The buffer [i] with a fresh lock, in front of the list. *)
Definition init_buf (i : nat) (l : list buf) : list buf :=
  push_front i (alter (set_b_lock sleeplock0) i l).

Lemma init_body_eq i s :
  i <> bhead -> (i < length (bufs s))%nat ->
  (first <- bfget bhead b_next ;;
   bfset i (set_b_next first) ;;
   bfset i (set_b_prev bhead) ;;
   initsleeplock (b_lockL i) ;;
   first <- bfget bhead b_next ;;
   bfset first (set_b_prev i) ;;
   bfset bhead (set_b_next i)) s = Done tt (on_bufs (init_buf i) s).
Proof.
  intros Hi Hlt.
  rewrite (bind_done _ _ _ _ _ (bfget_total bhead b_next s)).
  rewrite !(bind_done _ _ _ _ _ (bfset_eq _ _ _)), on_bufs_compose.
  erewrite bind_done; [|apply (initsleeplock_eq (b_lockL i) (buf_dom i));
    unfold buf_dom; by rewrite on_bufs_bufs, !length_alter].
  rewrite b_lock_update, on_bufs_compose.
  rewrite (bind_done _ _ _ _ _ (bfget_total bhead b_next _)).
  rewrite !(bind_done _ _ _ _ _ (bfset_eq _ _ _)), bfset_eq, !on_bufs_compose, on_bufs_bufs.
  f_equal. apply on_bufs_ext. unfold init_buf, push_front, bnext.
  rewrite !total_alter, !decide_False by (rewrite ?length_alter; done).
  f_equal. f_equal. by rewrite !alter_compose_at.
Qed.

Lemma init_buf_lookup i l j b :
  init_buf i l !! j = Some b ->
  exists b0, l !! j = Some b0 /\ b_valid b = b_valid b0 /\ b_dev b = b_dev b0 /\
    b_blockno b = b_blockno b0 /\ b_refcnt b = b_refcnt b0 /\ b_data b = b_data b0 /\
    b_lock b = if decide (i = j) then sleeplock0 else b_lock b0.
Proof.
  intros Hb. unfold init_buf, push_front in Hb.
  assert (Hf : forall y b, same_but_links b (set_b_next y b)) by done.
  assert (Hg : forall y b, same_but_links b (set_b_prev y b)) by done.
  do 4 (apply alter_links in Hb as (? & Hb & ?); [|by auto]).
  assert (same_but_links x2 b) as (E1&E2&E3&E4&E5&E6)
    by eauto 10 using same_but_links_trans.
  destruct (decide (i = j)) as [<-|].
  - rewrite list_lookup_alter_eq in Hb. apply fmap_Some in Hb as (b0 & Hb0 & ->).
    exists b0. by split_and!.
  - rewrite list_lookup_alter_ne in Hb by done. exists x2. by split_and!.
Qed.

(** The cache before [binit] uses it: as the loader leaves it. *)
Definition fresh_bufs (l : list buf) : Prop :=
  length l = S (Z.to_nat NBUF) /\
  forall i b, l !! i = Some b -> b_valid b = false /\ b_dev b = 0 /\ b_refcnt b = 0 /\
    (i = bhead -> b_lock b = sleeplock0).

(** The state of the loop of [binit] once it has inserted [pre]. *)
Record init_inv (s0 : kernel) (pre : list nat) (s : kernel) : Prop := {
  ii_lock : bc_lock (k_bc s) = false;
  ii_length : length (bufs s) = S (Z.to_nat NBUF);
  ii_ring : dlink (bnext (bufs s)) (bprev (bufs s)) bhead (reverse pre) bhead;
  ii_bufs : forall i b, bufs s !! i = Some b -> b_valid b = false /\ b_dev b = 0 /\
    b_refcnt b = 0 /\ (i ∈ bhead :: pre -> b_lock b = sleeplock0);
  ii_frame : s = set_k_bc (k_bc s) s0;
}.

Lemma init_inv_step s0 pre i s :
  init_inv s0 pre s -> NoDup (pre ++ [i]) -> (forall j, j ∈ pre ++ [i] -> j ∈ buf_ids) ->
  init_inv s0 (pre ++ [i]) (on_bufs (init_buf i) s).
Proof.
  intros [Hlk Hlen Hring Hbufs Hfr] Hnd Hids.
  assert (i ∈ buf_ids) as Hi by (apply Hids, elem_of_app; right; by left).
  assert (i <> bhead) as Hne by (intros ->; by apply bhead_not_id).
  assert (Hlt : forall j, j ∈ bhead :: i :: reverse pre -> (j < length (bufs s))%nat).
  { rewrite Hlen. intros j Hj. unfold bhead in Hj.
    apply elem_of_cons in Hj as [->|Hj]; [lia|].
    assert (j ∈ buf_ids) as ?%elem_of_seq; [|lia]. apply Hids.
    apply elem_of_app. rewrite list_elem_of_singleton, <-elem_of_reverse.
    apply elem_of_cons in Hj. tauto. }
  constructor; rewrite ?on_bufs_bufs.
  - done.
  - unfold init_buf, push_front. by rewrite !length_alter.
  - rewrite reverse_snoc. apply push_front_ring.
    + rewrite length_alter. by apply Forall_forall.
    + apply NoDup_cons. split.
      * intros [E|Hin]%elem_of_cons; [by apply Hne|]. apply bhead_not_id, Hids, elem_of_app.
        left. by apply elem_of_reverse.
      * rewrite <-reverse_snoc. by rewrite reverse_Permutation.
    + assert (i < length (bufs s))%nat as Hil by (apply Hlt; right; by left).
      eapply dlink_ext; [| |exact Hring]; intros z; unfold bnext, bprev;
        rewrite total_alter by done; case_decide; by subst.
  - intros j b (b0 & Hb0 & -> & -> & _ & -> & _ & ->)%init_buf_lookup.
    destruct (Hbufs j b0 Hb0) as (H1 & H2 & H3 & H4). split_and!; [done..|].
    intros Hj. case_decide; [done|]. apply H4.
    apply elem_of_cons in Hj as [->|[Hj|Hj%list_elem_of_singleton]%elem_of_app];
      [by left|by right|done].
  - rewrite Hfr at 1. done.
Qed.

Lemma init_inv_done s0 s : init_inv s0 buf_ids s -> bcache_inv (reverse buf_ids) s.
Proof.
  intros [Hlk Hlen Hring Hbufs Hfr].
  assert (Hall : forall i b, bufs s !! i = Some b -> b_lock b = sleeplock0).
  { intros i b Hb. apply (Hbufs i b Hb). pose proof (lookup_lt_Some _ _ _ Hb) as Hi.
    rewrite elem_of_cons. unfold bhead, buf_ids. rewrite elem_of_seq. lia. }
  constructor; try done.
  - apply reverse_Permutation.
  - intros i b Hb. by rewrite (Hall i b Hb).
  - intros i b Hb. destruct (Hbufs i b Hb) as (_ & _ & -> & _). done.
  - intros i b Hb _. by rewrite (Hall i b Hb).
  - intros i j b b' Hb _ Hd. destruct (Hbufs i b Hb) as (_ & ? & _). done.
Qed.

Lemma wp_binit s (Q : unit -> kernel -> Prop) :
  fresh_bufs (bufs s) -> (forall s', init_inv s buf_ids s' -> Q tt s') -> wp binit s Q.
Proof.
  intros [Hlen Hfresh] HQ. unfold binit.
  apply wp_bind. eapply wp_done; [done|].
  apply wp_bind. eapply wp_done; [apply bfset_eq|].
  apply wp_bind. eapply wp_done; [apply bfset_eq|]. rewrite on_bufs_compose.
  apply (wp_iter (fun l s' => exists pre, buf_ids = pre ++ l /\ init_inv s pre s')).
  - intros i l s' (pre & Hids & Hinv).
    assert (i ∈ buf_ids) as Hi by (rewrite Hids; apply elem_of_app; right; by left).
    eapply wp_done; [apply init_body_eq|].
    + intros ->. by apply bhead_not_id.
    + rewrite (ii_length _ _ _ Hinv). apply elem_of_seq in Hi. lia.
    + change (i :: l) with ([i] ++ l) in Hids. rewrite app_assoc in Hids.
      exists (pre ++ [i]). split; [done|].
      pose proof (NoDup_seq 0 (Z.to_nat NBUF)) as Hnd. fold buf_ids in Hnd.
      rewrite Hids in Hnd.
      apply init_inv_step; [done| |].
      * by apply NoDup_app in Hnd as [? _].
      * intros j Hj. rewrite Hids. apply elem_of_app. by left.
  - intros s' (pre & Hids & Hinv). rewrite app_nil_r in Hids. subst. by apply HQ.
  - exists []. split; [done|]. constructor; rewrite ?on_bufs_bufs.
    + done.
    + by rewrite !length_alter.
    + change (bnext (alter (set_b_next bhead) bhead (alter (set_b_prev bhead) bhead (bufs s)))
        bhead = bhead /\
        bprev (alter (set_b_next bhead) bhead (alter (set_b_prev bhead) bhead (bufs s)))
        bhead = bhead).
      assert (bhead < length (bufs s))%nat by (unfold bhead; lia).
      unfold bnext, bprev.
      by rewrite !total_alter, !decide_True by (rewrite ?length_alter; done).
    + intros i b Hb. simpl in Hb.
      apply alter_links in Hb as (b1 & Hb & E1); [|done].
      apply alter_links in Hb as (b0 & Hb & E0); [|done].
      destruct (same_but_links_trans _ _ _ E0 E1) as (-> & -> & _ & -> & -> & _).
      destruct (Hfresh i b0 Hb) as (H1 & H2 & H3 & H4). split_and!; [done..|].
      intros [->|[]%not_elem_of_nil]%elem_of_cons. by apply H4.
    + by destruct s.
Qed.
