(* ===== verification/Cache.v ===== *)
(** * The buffer cache is transparent: the theorems about kernel/bio.c *)

From S2P Require Import Prelude Params Memory Kalloc Block State Sched SchedSpec Quiet Dll Bio.
From S2P Require Import BioSpec.

(** ** A cold cache *)

Lemma init_binv me q s0 s :
  init_inv s0 buf_ids s -> quiet me q s ->
  binv me q (k_writes s) (disk_block s) (disk_block s) ∅ ∅ s.
Proof.
  intros Hi Hq. pose proof (init_inv_done _ _ Hi) as Hc. destruct Hi as [Hlk Hlen Hring Hb Hfr].
  constructor; try done.
  - by eexists.
  - intros i b Hbuf Hib. destruct (Hb i b Hib) as (H1 & H2 & H3 & H4).
    assert (b_lock b = sleeplock0) as El.
    { apply H4. right. apply elem_of_seq. unfold is_buf in Hbuf. lia. }
    assert (~ is_Some ((∅ : gmap nat Z) !! i)) as Hn.
    { rewrite lookup_empty. by intros [? ?]. }
    constructor; rewrite ?H1, ?H2, ?H3, ?El; auto; try done.
    unfold refs. rewrite H2. rewrite (decide_False (P := is_Some _)) by done.
    by rewrite decide_False by by intros [? _].
  - intros i b _ Hib. by destruct (Hb i b Hib) as (_ & ? & _).
  - intros i Hi. by apply lookup_empty_is_Some in Hi.
Qed.

(** ** Executions from concrete states *)

Definition after {A} (m : K A) (s : kernel) : kernel :=
  match m s with Done _ s' => s' | _ => s end.

Lemma wp_after {A} (m : K A) s (Q : kernel -> Prop) :
  wp m s (fun _ s' => Q s') -> Q (after m s).
Proof. intros (a & s' & Hm & HQ). unfold after. by rewrite Hm. Qed.

#[local] Instance demo_fuel : Fuel := 1%nat.

Definition demo_proc : proc := set_p_pid 1 (set_p_state RUNNING proc0).
Lemma running_kernel_quiet i p :
  (i < Z.to_nat NPROC)%nat -> p_lock p = false -> quiet i p (running_kernel i p 0).
Proof.
  intros Hi Hp. constructor.
  - constructor; simpl; lia || done.
  - done.
  - unfold running_kernel. rewrite on_procs_procs. by rewrite length_insert.
  - unfold running_kernel. rewrite on_procs_procs. by apply list_lookup_insert_eq.
  - apply Forall_lookup. intros j x Hx. by destruct (running_kernel_lookup _ _ _ _ _ Hx) as [->| ->].
  - intros j x Hx Hj. unfold running_kernel in Hx. rewrite on_procs_procs in Hx.
    rewrite list_lookup_insert_ne in Hx by done. by apply lookup_replicate_1 in Hx as [-> _].
Qed.


(** ** Which buffer bget returns *)

(** C5: [bget] finds the buffer of a cached block and takes a reference and its lock.
    Otherwise it recycles the least recently used buffer without references,
    and panics exactly if there is none.  No other buffer changes. *)
Theorem bget_lru `{Fuel} me q ord s dev n :
  quiet me q s -> bcache_inv ord s -> dev <> 0 ->
  (forall i b, bufs s !! i = Some b -> caches dev n b = true ->
     i ∈ ord /\ sl_locked (b_lock b) = false) ->
  (exists i b, bufs s !! i = Some b /\ caches dev n b = true /\
     bget dev n s = Done i (on_bufs (alter (hold (p_pid q)) i) s)) \/
  ((forall i b, bufs s !! i = Some b -> caches dev n b = false) /\
   ((exists l1 i l2 b, ord = l1 ++ i :: l2 /\ bufs s !! i = Some b /\ b_refcnt b = 0 /\
       (forall j b', j ∈ l2 -> bufs s !! j = Some b' -> b_refcnt b' <> 0) /\
       bget dev n s = Done i (on_bufs (alter (recycle dev n (p_pid q)) i) s)) \/
    ((forall j b', j ∈ ord -> bufs s !! j = Some b' -> b_refcnt b' <> 0) /\
     bget dev n s = Panic "bget: no buffers"))).
Proof.
  intros Hq Hinv Hdev Hfree.
  assert (Hget : forall i, i ∈ ord -> bufs s !! i = Some (bufs s !!! i)).
  { intros i Hi. destruct (ord_buf ord s Hinv i Hi) as [b Hb].
    by rewrite (list_lookup_total_correct _ _ _ Hb). }
  destruct (decide (Exists (fun b => caches dev n b = true) (bufs s))) as [He|Hne].
  - left. apply Exists_exists in He as (b & Hin & Hc).
    apply list_elem_of_lookup in Hin as [i Hi]. exists i, b. split_and!; [done|done|].
    destruct (Hfree i b Hi Hc). by apply (bget_hit me q ord s Hq Hinv dev n i b).
  - right. assert (Hno : forall i b, bufs s !! i = Some b -> caches dev n b = false).
    { intros i b Hb. destruct (caches dev n b) eqn:E; [|done]. destruct Hne.
      apply Exists_exists. exists b. split; [by eapply list_elem_of_lookup_2|done]. }
    split; [done|].
    destruct (decide (Exists (fun i => b_refcnt (bufs s !!! i) = 0) ord)) as [He|Hbusy].
    + left. apply Exists_exists in He as (x & Hx & Hr).
      destruct (last_split (fun i => b_refcnt (bufs s !!! i) = 0) ord x Hx Hr)
        as (l1 & i & l2 & Hord & Hi & Hl2).
      exists l1, i, l2, (bufs s !!! i).
      assert (bufs s !! i = Some (bufs s !!! i)) as Hb.
      { apply Hget. rewrite Hord. apply elem_of_app. right. by left. }
      assert (forall j b', j ∈ l2 -> bufs s !! j = Some b' -> b_refcnt b' <> 0) as Hrest.
      { intros j b' Hj Hb'. rewrite <-(list_lookup_total_correct _ _ _ Hb').
        by apply Hl2. }
      split_and!; [done..|].
      by eapply (bget_miss me q ord s Hq Hinv dev n i _ l1 l2); eauto.
    + right. assert (Hall : forall j b', j ∈ ord -> bufs s !! j = Some b' -> b_refcnt b' <> 0).
      { intros j b' Hj Hb' E. apply Hbusy, Exists_exists. exists j. split; [done|].
        by rewrite (list_lookup_total_correct _ _ _ Hb'). }
      split; [done|]. apply (bget_full me q ord s Hq Hinv). eauto.
Qed.

(** ** A cold kernel *)

Definition cold_kernel : kernel := after binit (running_kernel 1 demo_proc 0).

Lemma kernel0_fresh i p n : fresh_bufs (bufs (running_kernel i p n)).
Proof.
  split; [done|]. intros j b Hb. by apply lookup_replicate_1 in Hb as [-> _].
Qed.

Lemma cold_init : init_inv (running_kernel 1 demo_proc 0) buf_ids cold_kernel.
Proof.
  unfold cold_kernel. apply (wp_after _ _ (init_inv _ _)), wp_binit; [apply kernel0_fresh|done].
Qed.

Lemma cold_quiet : quiet 1 demo_proc cold_kernel.
Proof.
  rewrite (ii_frame _ _ _ cold_init).
  eapply quiet_same; [apply (running_kernel_quiet 1 demo_proc); [unfold NPROC; lia|done]|done..].
Qed.

Lemma cold_binv : binv 1 demo_proc [] (disk_block kernel0) (disk_block kernel0) ∅ ∅ cold_kernel.
Proof.
  pose proof (init_binv 1 demo_proc _ _ cold_init cold_quiet) as H.
  pose proof (ii_frame _ _ _ cold_init) as Hf.
  assert (k_writes cold_kernel = []) as Hw by by rewrite Hf.
  assert (disk_block cold_kernel = disk_block kernel0) as Hd by by rewrite Hf.
  by rewrite Hw, Hd in H.
Qed.

Lemma bget_lru_witness :
  exists r, bget ROOTDEV 5 cold_kernel = r /\
    match r with Done i s' => (b_blockno <$> bufs s' !! i) = Some 5 | _ => False end.
Proof.
  pose proof (init_inv_done _ _ cold_init) as Hc.
  assert (Hno : forall i b, bufs cold_kernel !! i = Some b -> caches ROOTDEV 5 b = false).
  { intros i b Hb. destruct (ii_bufs _ _ _ cold_init i b Hb) as (_ & Hd & _).
    unfold caches. by rewrite Hd. }
  destruct (bget_lru 1 demo_proc _ cold_kernel ROOTDEV 5 cold_quiet Hc ltac:(done))
    as [(i & b & Hb & Hca & _)|[_ [(l1 & i & l2 & b & _ & Hb & _ & _ & E)|[Hall _]]]].
  - intros i b Hb Hca. by rewrite (Hno i b Hb) in Hca.
  - by rewrite (Hno i b Hb) in Hca.
  - eexists. split; [exact E|]. cbv iota beta. rewrite on_bufs_bufs, list_lookup_alter_eq, Hb. done.
  - destruct (lookup_lt_is_Some_2 (bufs cold_kernel) 0%nat) as [b Hb].
    { rewrite (bi_length _ _ Hc). unfold NBUF, MAXOPBLOCKS. lia. }
    destruct (Hall 0%nat b); [|done|].
    + rewrite elem_of_reverse. apply elem_of_seq. unfold NBUF, MAXOPBLOCKS. lia.
    + by destruct (ii_bufs _ _ _ cold_init 0%nat b Hb) as (_ & _ & ? & _).
Defined.

(** [binit] builds the ring of the buffers, in the order in which [bget] will
    recycle them, all of them free; it changes nothing else. *)
Theorem binit_correct s :
  fresh_bufs (bufs s) ->
  exists s', binit s = Done tt s' /\ bcache_inv (reverse buf_ids) s' /\
    (forall i b, bufs s' !! i = Some b -> b_refcnt b = 0 /\ b_valid b = false) /\
    s' = set_k_bc (k_bc s') s.
Proof.
  intros Hf. assert (Hw : wp binit s (fun _ s' => init_inv s buf_ids s'))
    by (apply wp_binit; [exact Hf|intros s' Hs'; exact Hs']).
  destruct Hw as ([] & s' & Hrun & Hi). exists s'. split_and!; [exact Hrun|exact (init_inv_done _ _ Hi)| |apply Hi].
  intros i b Hb. destruct (ii_bufs _ _ _ Hi i b Hb) as (? & _ & ? & _). split; assumption.
Qed.

Lemma binit_correct_witness :
  exists s', binit kernel0 = Done tt s' /\ bcache_inv (reverse buf_ids) s'.
Proof.
  destruct (binit_correct kernel0) as (s' & H1 & H2 & _).
  - split; [reflexivity|]. intros j b Hb. by apply lookup_replicate_1 in Hb as [-> _].
  - exists s'. split; [exact H1|exact H2].
Defined.

(** ** Transparency *)

(** What the users of the cache do with one block. *)
Inductive blk_op := BlkRead (n : Z) | BlkWrite (n : Z) (d : block).

Definition blk_run `{Fuel} (o : blk_op) : K (option block) :=
  match o with
  | BlkRead n =>
      b <- bread ROOTDEV n ;;
      d <- bfget b b_data ;;
      brelse b ;;
      ret (Some d)
  | BlkWrite n d =>
      b <- bread ROOTDEV n ;;
      bfset b (set_b_data d) ;;
      bwrite b ;;
      brelse b ;;
      ret None
  end.

Fixpoint blk_runs `{Fuel} (os : list blk_op) : K (list (option block)) :=
  match os with
  | [] => ret []
  | o :: os' => r <- blk_run o ;; rs <- blk_runs os' ;; ret (r :: rs)
  end.

(** The specification: a disk without a cache. *)
Definition blk_spec (o : blk_op) (D : Z -> block) : option block * (Z -> block) :=
  match o with
  | BlkRead n => (Some (D n), D)
  | BlkWrite n d => (None, fupd D n d)
  end.

Fixpoint blk_specs (os : list blk_op) (D : Z -> block) : list (option block) * (Z -> block) :=
  match os with
  | [] => ([], D)
  | o :: os' =>
      let '(r, D1) := blk_spec o D in
      let '(rs, D2) := blk_specs os' D1 in (r :: rs, D2)
  end.

Definition blk_write_of (o : blk_op) : list (Z * block) :=
  match o with BlkRead _ => [] | BlkWrite n d => [(n, d)] end.

Section transparent.
Context {HF : Fuel} (me : nat) (q : proc).

Lemma wp_blk_run o W D s (Q : option block -> kernel -> Prop) :
  binv me q W D D ∅ ∅ s ->
  (forall s', binv me q (W ++ blk_write_of o) (blk_spec o D).2 (blk_spec o D).2 ∅ ∅ s' ->
     Q (blk_spec o D).1 s') ->
  wp (blk_run o) s Q.
Proof using.
  intros Hinv HQ.
  assert (Hroom : (size (∅ : gset Z) + size (∅ : gmap nat Z) < Z.to_nat NBUF)%nat).
  { rewrite size_empty, map_size_empty. unfold NBUF, MAXOPBLOCKS. lia. }
  destruct o as [n|n d]; cbn [blk_run blk_spec blk_write_of fst snd] in *; apply wp_bind;
    (eapply (wp_bread me q); [done|done|by right|]); intros b s1 Hinv1 _ _;
    set (H := <[b := n]> ∅ : gmap nat Z) in *;
    assert (HH : H !! b = Some n) by (by apply lookup_insert_eq);
    assert (Hdel : delete b H = ∅) by (by apply delete_insert_id).
  - apply wp_bind. eapply (wp_bdata me q); [done|done|].
    apply wp_bind. eapply (wp_brelse me q); [done|done|by right|]. intros s2 Hinv2 _.
    rewrite Hdel in Hinv2. apply wp_ret, HQ. by rewrite app_nil_r.
  - apply wp_bind. eapply (wp_bdata_set me q _ _ _ _ _ _ _ _ (fun _ => d)); [done|done|].
    intros s2 Hinv2 _. apply wp_bind. eapply (wp_bwrite me q); [done|done|].
    intros s3 Hinv3 _. rewrite fupd_eq in Hinv3.
    apply wp_bind. eapply (wp_brelse me q); [done|done|right; by rewrite !fupd_eq|].
    intros s4 Hinv4 _. rewrite Hdel in Hinv4. by apply wp_ret, HQ.
Qed.

Lemma wp_blk_runs os W D s (Q : list (option block) -> kernel -> Prop) :
  binv me q W D D ∅ ∅ s ->
  (forall s', binv me q (W ++ (os ≫= blk_write_of)) (blk_specs os D).2 (blk_specs os D).2 ∅ ∅ s' ->
     Q (blk_specs os D).1 s') ->
  wp (blk_runs os) s Q.
Proof using.
  revert W D s Q. induction os as [|o os IH]; intros W D s Q Hinv HQ; cbn [blk_runs].
  - apply wp_ret, HQ. by rewrite app_nil_r.
  - apply wp_bind. eapply wp_blk_run; [done|]. intros s1 Hinv1.
    apply wp_bind. eapply IH; [done|]. intros s2 Hinv2. apply wp_ret.
    cbn [blk_specs] in HQ. destruct (blk_spec o D) as [r D1] eqn:E1. cbn [fst snd] in *.
    destruct (blk_specs os D1) as [rs D2] eqn:E2. apply HQ.
    rewrite <-app_assoc in Hinv2. exact Hinv2.
Qed.
End transparent.

(** C4: the cache is transparent.  Any sequence of reads and write-throughs of blocks through
    [bread], [bwrite] and [brelse] returns what the same sequence returns on
    a disk without a cache, leaves that disk, and writes each block once, in order: hits,
    evictions and the reuse of buffers cannot be observed. *)
Theorem cache_transparent `{Fuel} me q W D s os :
  binv me q W D D ∅ ∅ s ->
  exists s', blk_runs os s = Done (blk_specs os D).1 s' /\
    (forall n, disk_block s' n = (blk_specs os D).2 n) /\
    k_writes s' = W ++ (os ≫= blk_write_of) /\
    exists ord, bcache_inv ord s'.
Proof.
  intros Hinv.
  assert (Hw : wp (blk_runs os) s (fun r s' => r = (blk_specs os D).1 /\
    binv me q (W ++ (os ≫= blk_write_of)) (blk_specs os D).2 (blk_specs os D).2 ∅ ∅ s'))
    by by eapply wp_blk_runs.
  destruct Hw as (r & s' & Hrun & -> & Hinv'). exists s'.
  split_and!; [done|apply Hinv'|apply Hinv'|apply Hinv'].
Qed.

Lemma cache_transparent_witness :
  exists s', blk_runs [BlkWrite 9 [1]; BlkRead 9] cold_kernel = Done [None; Some [1]] s'.
Proof.
  destruct (cache_transparent 1 demo_proc [] (disk_block kernel0) cold_kernel
    [BlkWrite 9 [1]; BlkRead 9] cold_binv) as (s' & Hrun & _).
  exists s'. exact Hrun.
Defined.
