(* ===== verification/Log.v ===== *)
(** * The write-ahead log: kernel/log.c *)

From S2P Require Import Prelude Params Memory Kalloc Block State Sched Bio.

Definition lget {A} (f : log -> A) : K A := getf logL f.
Definition lset (f : log -> log) : K unit := setf logL f.

(** [sizeof(struct logheader)] *)
Definition sizeof_logheader : Z := 4 + 4 * LOGSIZE.

(** [log.lh.block[i]] *)
Definition lh_get (i : Z) (l : log) : Z := lh_block l !!! Z.to_nat i.
Definition lh_set (i v : Z) (l : log) : log :=
  set_lh_block (<[Z.to_nat i := v]> (lh_block l)) l.

(** [0, 1, ..., n-1] for a C loop [for(i = 0; i < n; i++)]. *)
Definition upto (n : Z) : list Z := Z.of_nat <$> seq 0 (Z.to_nat n).

Section log_ops.
Context `{Fuel}.

Definition install_trans (recovering : bool) : K unit :=
  n <- lget lh_n ;;
  iter (upto n) (fun tail =>
    dev <- lget log_dev ;;
    start <- lget log_start ;;
    lbuf <- bread dev (u32 (start + tail + 1)) ;;
    dst <- lget (lh_get tail) ;;
    dbuf <- bread dev (u32 dst) ;;
    data <- bfget lbuf b_data ;;
    bfset dbuf (set_b_data data) ;;
    bwrite dbuf ;;
    when (negb recovering) (bunpin dbuf) ;;
    brelse lbuf ;;
    brelse dbuf).

Definition read_head : K unit :=
  dev <- lget log_dev ;;
  start <- lget log_start ;;
  buf <- bread dev (u32 start) ;;
  data <- bfget buf b_data ;;
  lset (set_lh_n (get_i32 0 data)) ;;
  n <- lget lh_n ;;
  iter (upto n) (fun i => lset (lh_set i (get_i32 (4 + 4 * i) data))) ;;
  brelse buf.

Definition write_head : K unit :=
  dev <- lget log_dev ;;
  start <- lget log_start ;;
  buf <- bread dev (u32 start) ;;
  n <- lget lh_n ;;
  bfset buf (fun x => set_b_data (put_32 0 n (b_data x)) x) ;;
  iter (upto n) (fun i =>
    v <- lget (lh_get i) ;;
    bfset buf (fun x => set_b_data (put_32 (4 + 4 * i) v (b_data x)) x)) ;;
  bwrite buf ;;
  brelse buf.

Definition recover_from_log : K unit :=
  read_head ;;
  install_trans true ;;
  lset (set_lh_n 0) ;;
  write_head.

Definition initlog (dev : Z) (sb : superblock) : K unit :=
  panic_if (BSIZE <=? sizeof_logheader) "initlog: too big logheader" ;;
  initlock log_lockL ;;
  lset (set_log_start (i32 (sb_logstart sb))) ;;
  lset (set_log_size (i32 (sb_nlog sb))) ;;
  lset (set_log_dev dev) ;;
  recover_from_log.

Definition begin_op : K unit :=
  acquire log_lockL ;;
  loop (S fuel) (fun _ =>
    committing <- lget log_committing ;;
    if (committing : bool) then sleep ChanLog log_lockL ;; ret (inl tt)
    else
      n <- lget lh_n ;;
      outstanding <- lget log_outstanding ;;
      if LOGSIZE <? n + (outstanding + 1) * MAXOPBLOCKS then
        sleep ChanLog log_lockL ;; ret (inl tt)
      else
        lset (fun l => set_log_outstanding (log_outstanding l + 1) l) ;;
        release log_lockL ;;
        ret (inr tt)) tt.

Definition write_log : K unit :=
  n <- lget lh_n ;;
  iter (upto n) (fun tail =>
    dev <- lget log_dev ;;
    start <- lget log_start ;;
    to <- bread dev (u32 (start + tail + 1)) ;;
    src <- lget (lh_get tail) ;;
    from <- bread dev (u32 src) ;;
    data <- bfget from b_data ;;
    bfset to (set_b_data data) ;;
    bwrite to ;;
    brelse from ;;
    brelse to).

Definition commit : K unit :=
  n <- lget lh_n ;;
  when (0 <? n) (
    write_log ;;
    write_head ;;
    install_trans false ;;
    lset (set_lh_n 0) ;;
    write_head).

Definition end_op : K unit :=
  acquire log_lockL ;;
  lset (fun l => set_log_outstanding (log_outstanding l - 1) l) ;;
  committing <- lget log_committing ;;
  panic_if committing "log.committing" ;;
  outstanding <- lget log_outstanding ;;
  do_commit <- (if outstanding =? 0 then
    lset (set_log_committing true) ;; ret true
  else wakeup ChanLog ;; ret false) ;;
  release log_lockL ;;
  when do_commit (
    commit ;;
    acquire log_lockL ;;
    lset (set_log_committing false) ;;
    wakeup ChanLog ;;
    release log_lockL).

(** The position of [blockno] among the logged blocks, [n] if it is not. *)
Fixpoint log_find (blockno : Z) (bs : list Z) (i : Z) : Z :=
  match bs with
  | [] => i
  | b :: bs' => if b =? blockno then i else log_find blockno bs' (i + 1)
  end.

Definition log_write (b : nat) : K unit :=
  acquire log_lockL ;;
  n <- lget lh_n ;;
  size <- lget log_size ;;
  panic_if ((LOGSIZE <=? n) || (size - 1 <=? n)) "too big a transaction" ;;
  outstanding <- lget log_outstanding ;;
  panic_if (outstanding <? 1) "log_write outside of trans" ;;
  blockno <- bfget b b_blockno ;;
  i <- lget (fun l => log_find (i32 blockno) (take (Z.to_nat n) (lh_block l)) 0) ;;
  lset (lh_set i (i32 blockno)) ;;
  when (i =? n) (
    bpin b ;;
    lset (fun l => set_lh_n (lh_n l + 1) l)) ;;
  release log_lockL.

End log_ops.
