(* ===== verification/LogSpec.v ===== *)
(** * Properties of the write-ahead log: crash safety *)

From S2P Require Import Prelude Params Memory Kalloc Block State Sched SchedSpec Quiet Dll Bio.
From S2P Require Import BioSpec Log.

(** ** Loops over [0, ..., n-1] *)

Lemma upto_S (n : nat) : upto (Z.of_nat (S n)) = upto (Z.of_nat n) ++ [Z.of_nat n].
Proof. unfold upto. by rewrite !Nat2Z.id, seq_S, fmap_app. Qed.

Lemma upto_snoc n : 0 <= n -> upto (n + 1) = upto n ++ [n].
Proof.
  intros Hn. replace n with (Z.of_nat (Z.to_nat n)) by lia.
  by rewrite Z.add_1_r, <-Nat2Z.inj_succ, upto_S.
Qed.

Lemma upto_cons n : 0 < n -> upto n = 0 :: ((fun k => k + 1) <$> upto (n - 1)).
Proof.
  intros Hn. unfold upto. replace (Z.to_nat n) with (S (Z.to_nat (n - 1))) by lia.
  cbn [seq fmap list_fmap]. f_equal. rewrite <-fmap_S_seq, <-!list_fmap_compose.
  apply list_fmap_ext. intros k x _. simpl. lia.
Qed.

Lemma wp_iter_upto {S} (P : Z -> S -> Prop) (body : Z -> M S unit) (n : Z) s
    (Q : unit -> S -> Prop) :
  0 <= n -> P 0 s ->
  (forall j s, 0 <= j < n -> P j s -> wp (body j) s (fun _ s' => P (j + 1) s')) ->
  (forall s, P n s -> Q tt s) ->
  wp (iter (upto n) body) s Q.
Proof.
  intros Hn HP Hb HQ. unfold upto.
  apply (wp_iter (fun l s => exists k, l = Z.of_nat <$> seq k (Z.to_nat n - k) /\
    (k <= Z.to_nat n)%nat /\ P (Z.of_nat k) s)).
  - intros j l s1 (k & Hl & Hk & HPk).
    destruct (Z.to_nat n - k)%nat as [|m] eqn:E; [done|]. simpl in Hl. simplify_eq.
    eapply wp_mono; [apply Hb; [lia|done]|]. intros [] s2 HP2. exists (Datatypes.S k).
    split; [|split; [lia|by rewrite Nat2Z.inj_succ]].
    f_equal. f_equal. lia.
  - intros s1 (k & Hl & Hk & HPk). apply HQ.
    destruct (Z.to_nat n - k)%nat as [|m] eqn:E; [|done].
    by replace n with (Z.of_nat k) by lia.
  - exists 0%nat. rewrite Nat.sub_0_r. split; [done|]. split; [lia|done].
Qed.

(** ** Disks and write histories *)

Definition apply_writes (ws : list (Z * block)) (D : Z -> block) : Z -> block :=
  foldl (fun D w => fupd D w.1 w.2) D ws.

Lemma apply_writes_app ws ws' D :
  apply_writes (ws ++ ws') D = apply_writes ws' (apply_writes ws D).
Proof. apply foldl_app. Qed.

Lemma apply_writes_cons n d ws D :
  apply_writes ((n, d) :: ws) D = apply_writes ws (fupd D n d).
Proof. done. Qed.

Lemma apply_writes_nil D : apply_writes [] D = D.
Proof. done. Qed.

Lemma apply_writes_other ws D b : b ∉ ws.*1 -> apply_writes ws D b = D b.
Proof.
  revert D. induction ws as [|[n d] ws IH]; intros D Hb; [done|].
  rewrite fmap_cons, not_elem_of_cons in Hb. destruct Hb as [Hn Hb].
  rewrite apply_writes_cons, IH by done. by apply fupd_ne.
Qed.

Lemma apply_writes_in ws D b i d :
  NoDup ws.*1 -> ws !! i = Some (b, d) -> apply_writes ws D b = d.
Proof.
  revert D i. induction ws as [|[n e] ws IH]; intros D i Hnd Hi; [done|].
  rewrite fmap_cons in Hnd. apply NoDup_cons in Hnd as [Hn Hnd].
  destruct i as [|i]; simpl in Hi.
  - simplify_eq. rewrite apply_writes_cons, apply_writes_other by done. apply fupd_eq.
  - rewrite apply_writes_cons. by eapply IH.
Qed.

(** The writes of the first [j] of the blocks [bs] to the places [f]. *)
Definition writes_of (f : Z -> Z) (v : Z -> block) (j : Z) : list (Z * block) :=
  (fun i => (f i, v i)) <$> upto j.

Lemma writes_of_S f v j :
  0 <= j -> writes_of f v (j + 1) = writes_of f v j ++ [(f j, v j)].
Proof.
  intros Hj. unfold writes_of. replace j with (Z.of_nat (Z.to_nat j)) by lia.
  rewrite Z.add_1_r, <-Nat2Z.inj_succ, upto_S, fmap_app. done.
Qed.

Lemma elem_of_upto i n : i ∈ upto n <-> 0 <= i < n.
Proof.
  unfold upto. rewrite list_elem_of_fmap. split.
  - intros (k & -> & Hk%elem_of_seq). lia.
  - intros. exists (Z.to_nat i). rewrite elem_of_seq. lia.
Qed.

Lemma writes_of_dom f v j b : b ∈ (writes_of f v j).*1 <-> exists i, 0 <= i < j /\ b = f i.
Proof.
  unfold writes_of. rewrite list_elem_of_fmap. split.
  - intros ([b' d] & -> & Hx). apply list_elem_of_fmap in Hx as (i & E & Hi).
    simplify_eq. exists i. split; [by apply elem_of_upto|done].
  - intros (i & Hi & ->). exists (f i, v i). split; [done|].
    apply list_elem_of_fmap. exists i. split; [done|by apply elem_of_upto].
Qed.

Lemma upto_lookup n i : 0 <= i < n -> upto n !! Z.to_nat i = Some i.
Proof.
  intros Hi. unfold upto. rewrite list_lookup_fmap, lookup_seq_lt by lia. simpl.
  f_equal. lia.
Qed.

Lemma writes_of_apply f v j D i :
  (forall a b, 0 <= a < j -> 0 <= b < j -> f a = f b -> a = b) -> 0 <= i < j ->
  apply_writes (writes_of f v j) D (f i) = v i.
Proof.
  intros Hinj Hi. apply (apply_writes_in _ _ _ (Z.to_nat i)).
  - unfold writes_of. rewrite <-list_fmap_compose.
    apply NoDup_fmap_2_strong.
    + intros a b Ha%elem_of_upto Hb%elem_of_upto Hf. by apply Hinj.
    + unfold upto. apply NoDup_fmap_2; [|apply NoDup_seq]. intros x y. lia.
  - unfold writes_of. by rewrite list_lookup_fmap, upto_lookup.
Qed.

(** ** The header block *)

(** The bytes [write_head] leaves in the header block. *)
Definition head_put (l : list Z) (n : Z) (d : block) : block :=
  foldl (fun d i => put_32 (4 + 4 * i) (l !!! Z.to_nat i) d) (put_32 0 n d) (upto n).

Definition head_n (d : block) : Z := get_i32 0 d.
Definition head_block (i : Z) (d : block) : Z := get_i32 (4 + 4 * i) d.

Lemma head_put_nat (l : list Z) (n : nat) (v : Z) d :
  Z.of_nat n <= LOGSIZE -> Z.of_nat (length d) = BSIZE ->
  let d' := foldl (fun d i => put_32 (4 + 4 * i) (l !!! Z.to_nat i) d) (put_32 0 v d)
              (upto (Z.of_nat n)) in
  Z.of_nat (length d') = BSIZE /\
  get_le 0 4 d' = v mod 2 ^ 32 /\
  forall i, 0 <= i < Z.of_nat n -> get_le (4 + 4 * i) 4 d' = l !!! Z.to_nat i mod 2 ^ 32.
Proof.
  intros Hn Hd. induction n as [|n IH]; cbn zeta.
  - change (upto (Z.of_nat 0)) with (@nil Z). cbn [foldl]. unfold put_32. split_and!.
    + rewrite put_le_length; unfold BSIZE in *; lia.
    + by rewrite get_put_same by (unfold BSIZE in *; lia).
    + intros; lia.
  - rewrite upto_S, foldl_app. cbn [foldl].
    unfold LOGSIZE, MAXOPBLOCKS in *.
    destruct IH as (IH1 & IH2 & IH3); [lia|].
    set (d' := foldl _ _ _) in *. unfold put_32. split_and!.
    + rewrite put_le_length; unfold BSIZE in *; lia.
    + rewrite get_put_disjoint by (unfold BSIZE in *; lia). done.
    + intros i Hi. destruct (decide (i = Z.of_nat n)) as [->|].
      * rewrite get_put_same by (unfold BSIZE in *; lia). done.
      * rewrite get_put_disjoint by (unfold BSIZE in *; lia). apply IH3. lia.
Qed.

Lemma i32_mod v : - 2 ^ 31 <= v < 2 ^ 31 -> i32 (v mod 2 ^ 32) = v.
Proof.
  intros Hv. unfold swrap. rewrite <-Zplus_mod_idemp_l, Zmod_mod, Zplus_mod_idemp_l.
  rewrite Z.mod_small; simpl (2 ^ (32 - 1)); lia.
Qed.

Lemma head_put_spec l n d :
  0 <= n <= LOGSIZE -> Z.of_nat (length d) = BSIZE ->
  (forall i, 0 <= i < n -> 0 <= l !!! Z.to_nat i < 2 ^ 31) ->
  Z.of_nat (length (head_put l n d)) = BSIZE /\ head_n (head_put l n d) = n /\
  forall i, 0 <= i < n -> head_block i (head_put l n d) = l !!! Z.to_nat i.
Proof.
  intros Hn Hd Hl. destruct (head_put_nat l (Z.to_nat n) n d) as (H1 & H2 & H3); [lia|done|].
  rewrite Z2Nat.id in H1, H2, H3 by lia. unfold head_put, head_n, head_block, get_i32.
  split_and!; [done| |].
  - rewrite H2. apply i32_mod. unfold LOGSIZE, MAXOPBLOCKS in *. lia.
  - intros i Hi. rewrite H3 by done. apply i32_mod. specialize (Hl i Hi). lia.
Qed.

(** ** commit *)

Lemma bframe_log s s' : bframe s s' -> k_log s' = k_log s.
Proof. unfold bframe. by intros ->. Qed.

Lemma wp_lget {A} (f : log -> A) s (Q : A -> kernel -> Prop) :
  Q (f (k_log s)) s -> wp (lget f) s Q.
Proof. intros. by eapply wp_done. Qed.

Lemma wp_lset f s (Q : unit -> kernel -> Prop) :
  Q tt (set_k_log (f (k_log s)) s) -> wp (lset f) s Q.
Proof. intros. by eapply wp_done. Qed.

Lemma binv_set_log me q W V D L H lg s :
  binv me q W V D L H s -> binv me q W V D L H (set_k_log lg s).
Proof.
  intros [Hq [ord Hc] Hbs Hhd Hh Hp Hcl Hd Hw]. constructor; try done.
  - by eapply quiet_same.
  - exists ord. by destruct Hc; constructor.
Qed.

(** The blocks of the in-memory header. *)
Definition lblk (lg : log) (i : Z) : Z := lh_block lg !!! Z.to_nat i.
Definition lset_of (lg : log) (a n : Z) : gset Z :=
  list_to_set (lblk lg <$> filter (fun i => a <= i) (upto n)).

(** A log on disk blocks [start], the header, to [start + LOGSIZE - 1], with the
    first [n] entries of the header in use. *)
Record log_ok (start n : Z) (lg : log) : Prop := {
  lo_dev : log_dev lg = ROOTDEV;
  lo_start : log_start lg = start;
  lo_region : 0 <= start /\ start + LOGSIZE < 2 ^ 31;
  lo_n : 0 <= n < NBUF;
  lo_block : forall i, 0 <= i < n -> 0 <= lblk lg i < 2 ^ 31;
  lo_home : forall i, 0 <= i < n -> ~ (start <= lblk lg i < start + LOGSIZE);
  lo_inj : forall i j, 0 <= i < n -> 0 <= j < n -> lblk lg i = lblk lg j -> i = j;
}.

Lemma elem_of_lset lg a n b :
  b ∈ lset_of lg a n <-> exists i, a <= i /\ 0 <= i < n /\ b = lblk lg i.
Proof.
  unfold lset_of. rewrite elem_of_list_to_set, list_elem_of_fmap. split.
  - intros (i & -> & [Hi%elem_of_upto Ha]%list_elem_of_filter%and_comm). eauto.
  - intros (i & Ha & Hi & ->). exists i. split; [done|].
    apply list_elem_of_filter. split; [done|by apply elem_of_upto].
Qed.

Lemma lset_size start lg a n :
  log_ok start n lg -> (size (lset_of lg a n) <= Z.to_nat n)%nat.
Proof.
  intros Hl. unfold lset_of. rewrite size_list_to_set.
  - rewrite length_fmap. etrans; [apply length_filter|].
    unfold upto. by rewrite length_fmap, length_seq.
  - apply NoDup_fmap_2_strong.
    + intros i j [_ Hi%elem_of_upto]%list_elem_of_filter [_ Hj%elem_of_upto]%list_elem_of_filter.
      by apply (lo_inj _ _ _ Hl).
    + apply NoDup_filter. unfold upto. apply NoDup_fmap_2; [|apply NoDup_seq].
      intros x y. lia.
Qed.

Lemma u32_small x : 0 <= x < 2 ^ 31 -> u32 x = x.
Proof. intros. apply uwrap_small. lia. Qed.

Section commit.
Context {HF : Fuel} (me : nat) (q : proc) (start n : Z) (lg : log).
Context (Hlg : log_ok start n lg) (Hlen : lh_n lg = n).

Abbreviation L := (lset_of lg 0 n).
Abbreviation logpos := (fun i => start + i + 1).

(** The first writes of a commit: the blocks go to the log. *)
Lemma wp_write_log W V D s (Q : unit -> kernel -> Prop) :
  binv me q W V D L ∅ s -> k_log s = lg ->
  (let ws := writes_of logpos (fun i => V (lblk lg i)) n in
   forall s', binv me q (W ++ ws) (apply_writes ws V) (apply_writes ws D) L ∅ s' ->
     k_log s' = lg -> Q tt s') ->
  wp write_log s Q.
Proof using Hlg Hlen.
  intros Hinv Hl HQ. unfold write_log. apply wp_bind, wp_lget. rewrite Hl, Hlen.
  destruct Hlg as [Hdev Hst [Hs0 Hs1] Hn Hblk Hhome Hinj].
  set (ws j := writes_of logpos (fun i => V (lblk lg i)) j) in *.
  apply (wp_iter_upto (fun j s =>
    binv me q (W ++ ws j) (apply_writes (ws j) V) (apply_writes (ws j) D) L ∅ s /\
    k_log s = lg)).
  - lia.
  - unfold ws, writes_of. simpl. by rewrite app_nil_r.
  - clear s Hinv Hl. intros j s Hj [Hinv Hl].
    unfold NBUF, LOGSIZE, MAXOPBLOCKS in *.
    apply wp_bind, wp_lget, wp_bind, wp_lget. rewrite Hl, Hdev, Hst.
    rewrite u32_small by lia. apply wp_bind.
    eapply (wp_bread me q); [done|done| |].
    { right. pose proof (lset_size start lg 0 n Hlg). rewrite map_size_empty.
      unfold NBUF, MAXOPBLOCKS in *. lia. }
    intros to s1 Hinv1 _ F1%bframe_log. apply wp_bind, wp_lget. rewrite F1, Hl.
    change (lh_get j lg) with (lblk lg j). rewrite u32_small by by apply Hblk. apply wp_bind.
    eapply (wp_bread me q); [done| |left; apply elem_of_lset; exists j; lia|].
    { intros i Hi. rewrite lookup_insert_Some, lookup_empty in Hi.
      destruct Hi as [[_ Hi]|[_ Hi]]; [|done]. specialize (Hhome j Hj). lia. }
    intros from s2 Hinv2 Hft F2%bframe_log.
    assert (from <> to) by (intros ->; by rewrite lookup_insert_eq in Hft).
    apply wp_bind. eapply (wp_bdata me q); [done|by rewrite lookup_insert_eq|].
    apply wp_bind. eapply (wp_bdata_set me q _ _ _ _ _ _ _ _ (fun _ => _)); [done| |].
    { rewrite lookup_insert_ne by done. by rewrite lookup_insert_eq. }
    intros s3 Hinv3 F3%bframe_log. cbn beta in Hinv3.
    apply wp_bind. eapply (wp_bwrite me q); [done| |].
    { rewrite lookup_insert_ne by done. by rewrite lookup_insert_eq. }
    intros s4 Hinv4 F4%bframe_log. rewrite fupd_eq in Hinv4.
    apply wp_bind. eapply (wp_brelse me q); [done|by rewrite lookup_insert_eq| |].
    { left. apply elem_of_lset. exists j. lia. }
    intros s5 Hinv5 F5%bframe_log.
    rewrite delete_insert_id in Hinv5 by (rewrite lookup_insert_ne by done; done).
    eapply (wp_brelse me q); [done|by rewrite lookup_insert_eq|right; by rewrite !fupd_eq|].
    intros s6 Hinv6 F6%bframe_log.
    rewrite delete_insert_id in Hinv6 by done.
    split; [|congruence]. unfold ws. rewrite writes_of_S by lia. fold (ws j).
    assert (apply_writes (ws j) V (lblk lg j) = V (lblk lg j)) as E.
    { apply apply_writes_other. unfold ws. rewrite writes_of_dom.
      intros (i & Hi & Hb). specialize (Hhome j Hj). lia. }
    rewrite E in Hinv6. rewrite app_assoc, !apply_writes_app. exact Hinv6.
  - intros s' [Hinv' Hl']. by apply HQ.
Qed.
Lemma binv_ext W V V' D D' L' H s :
  (forall b, V' b = V b) -> (forall b, D' b = D b) ->
  binv me q W V D L' H s -> binv me q W V' D' L' H s.
Proof using.
  intros HV HD [Hq Hc Hbs Hhd Hh Hp Hcl Hd Hw]. constructor; try done.
  - intros i b Hi Hb. destruct (Hbs i b Hi Hb) as [H1 H2 H3 H4 H5 H6 H7].
    constructor; try done. intros Hv. by rewrite HV, H7.
  - intros b Hb HbH. rewrite HV, HD. by apply Hcl.
  - intros b. rewrite HD. apply Hd.
Qed.

(** The header block, for any header [lg'] with [k] entries. *)
Lemma wp_write_head W V D L' k lg' s (Q : unit -> kernel -> Prop) :
  binv me q W V D L' ∅ s -> k_log s = lg' ->
  log_dev lg' = ROOTDEV -> log_start lg' = start -> lh_n lg' = k -> 0 <= k ->
  start ∉ L' -> (size L' < Z.to_nat NBUF)%nat ->
  (let d := head_put (lh_block lg') k (V start) in
   forall s', binv me q (W ++ [(start, d)]) (fupd V start d) (fupd D start d) L' ∅ s' ->
     k_log s' = lg' -> Q tt s') ->
  wp write_head s Q.
Proof using Hlg.
  intros Hinv Hl Hdev Hst Hk Hk0 HsL Hroom HQ. unfold write_head.
  destruct (lo_region _ _ _ Hlg) as [Hs0 Hs1].
  apply wp_bind, wp_lget, wp_bind, wp_lget. rewrite Hl, Hdev, Hst.
  rewrite u32_small by (unfold LOGSIZE, MAXOPBLOCKS in *; lia). apply wp_bind.
  eapply (wp_bread me q); [done|done|right; rewrite map_size_empty; lia|].
  intros hb s1 Hinv1 _ F1%bframe_log.
  set (H := <[hb := start]> ∅ : gmap nat Z) in *.
  assert (HH : H !! hb = Some start) by by apply lookup_insert_eq.
  apply wp_bind, wp_lget. rewrite F1, Hl, Hk. apply wp_bind.
  eapply (wp_bdata_set me q); [done|done|]. intros s2 Hinv2 F2%bframe_log.
  set (d j := foldl (fun d i => put_32 (4 + 4 * i) (lh_block lg' !!! Z.to_nat i) d)
    (put_32 0 k (V start)) (upto j)).
  apply wp_bind.
  apply (wp_iter_upto (fun j s => binv me q W (fupd V start (d j)) D L' H s /\ k_log s = lg'));
    [done| | |].
  - split; [exact Hinv2|congruence].
  - intros j s3 Hj [Hinv3 Hl3]. apply wp_bind, wp_lget. rewrite Hl3.
    eapply (wp_bdata_set me q); [done|done|]. intros s4 Hinv4 F4%bframe_log.
    split; [|congruence]. eapply binv_ext; [| |exact Hinv4]; [|done].
    rewrite fupd_eq. intros b. unfold d.
    replace j with (Z.of_nat (Z.to_nat j)) at 1 by lia.
    rewrite Z.add_1_r, <-Nat2Z.inj_succ, upto_S, foldl_app. cbn [foldl].
    unfold fupd, lh_get. case_decide; [|done]. by rewrite Z2Nat.id by lia.
  - intros s3 [Hinv3 Hl3]. apply wp_bind.
    eapply (wp_bwrite me q); [done|done|]. intros s4 Hinv4 F4%bframe_log.
    rewrite fupd_eq in Hinv4.
    eapply (wp_brelse me q); [done|done|right; by rewrite !fupd_eq|].
    intros s5 Hinv5 F5%bframe_log. unfold H in Hinv5.
    rewrite delete_insert_id in Hinv5 by done.
    apply HQ; [exact Hinv5|congruence].
Qed.

(** Copying the logged blocks home; during a commit the cached copies are
    unpinned on the way. *)
Definition pins (recovering : bool) (j : Z) : gset Z :=
  if recovering then ∅ else lset_of lg j n.

Lemma pins_size r j : (size (pins r j) <= Z.to_nat n)%nat.
Proof using Hlg.
  unfold pins. destruct r; [rewrite size_empty; lia|]. by apply (lset_size start).
Qed.

Lemma wp_install_trans r W V D s (Q : unit -> kernel -> Prop) :
  binv me q W V D (pins r 0) ∅ s -> k_log s = lg ->
  (let ws := writes_of (lblk lg) (fun i => V (logpos i)) n in
   forall s', binv me q (W ++ ws) (apply_writes ws V) (apply_writes ws D) (pins r n) ∅ s' ->
     k_log s' = lg -> Q tt s') ->
  wp (install_trans r) s Q.
Proof using Hlg Hlen.
  intros Hinv Hl HQ. unfold install_trans. apply wp_bind, wp_lget. rewrite Hl, Hlen.
  pose proof Hlg as [Hdev Hst [Hs0 Hs1] Hn Hblk Hhome Hinj].
  unfold NBUF, LOGSIZE, MAXOPBLOCKS in *.
  assert (Hclean : forall i, 0 <= i < n -> V (logpos i) = D (logpos i)).
  { intros i Hi. apply (binv_clean _ _ _ _ _ _ _ _ Hinv); [|done].
    unfold pins. destruct r; [apply not_elem_of_empty|]. rewrite elem_of_lset.
    intros (k & _ & Hk & E). specialize (Hhome k Hk). lia. }
  set (ws j := writes_of (lblk lg) (fun i => V (logpos i)) j) in *.
  assert (Hsame : forall j i (X : Z -> block), 0 <= j <= n -> 0 <= i < n ->
    apply_writes (ws j) X (logpos i) = X (logpos i)).
  { intros j i X Hj Hi. apply apply_writes_other. unfold ws. rewrite writes_of_dom.
    intros (k & Hk & E). specialize (Hhome k ltac:(lia)). lia. }
  apply (wp_iter_upto (fun j s =>
    binv me q (W ++ ws j) (apply_writes (ws j) V) (apply_writes (ws j) D) (pins r j) ∅ s /\
    k_log s = lg)).
  - lia.
  - unfold ws, writes_of. simpl. by rewrite app_nil_r.
  - clear s Hinv Hl. intros j s Hj [Hinv Hl].
    apply wp_bind, wp_lget, wp_bind, wp_lget. rewrite Hl, Hdev, Hst.
    rewrite u32_small by lia. apply wp_bind.
    pose proof (pins_size r j) as Hsz.
    eapply (wp_bread me q); [done|done| |].
    { right. rewrite map_size_empty. unfold NBUF, MAXOPBLOCKS. lia. }
    intros lbuf s1 Hinv1 _ F1%bframe_log. apply wp_bind, wp_lget. rewrite F1, Hl.
    change (lh_get j lg) with (lblk lg j). rewrite u32_small by by apply Hblk.
    apply wp_bind. eapply (wp_bread me q); [done| | |].
    { intros i Hi. rewrite lookup_insert_Some, lookup_empty in Hi.
      destruct Hi as [[_ Hi]|[_ Hi]]; [|done]. specialize (Hhome j Hj). lia. }
    { unfold pins. destruct r.
      - right. rewrite size_empty, map_size_insert_None, map_size_empty by done.
        unfold NBUF, MAXOPBLOCKS. lia.
      - left. apply elem_of_lset. exists j. lia. }
    intros dbuf s2 Hinv2 Hdl F2%bframe_log.
    assert (dbuf <> lbuf) as Hne by (intros ->; by rewrite lookup_insert_eq in Hdl).
    set (H := <[dbuf := lblk lg j]> (<[lbuf := start + j + 1]> ∅) : gmap nat Z) in *.
    assert (Hd1 : H !! dbuf = Some (lblk lg j)) by by apply lookup_insert_eq.
    assert (Hl1 : H !! lbuf = Some (start + j + 1)).
    { unfold H. rewrite lookup_insert_ne by done. apply lookup_insert_eq. }
    apply wp_bind. eapply (wp_bdata me q); [done|done|].
    apply wp_bind. eapply (wp_bdata_set me q _ _ _ _ _ _ _ _ (fun _ => _)); [done|done|].
    intros s3 Hinv3 F3%bframe_log. cbn beta in Hinv3. rewrite Hsame in Hinv3 by lia.
    apply wp_bind. eapply (wp_bwrite me q); [done|done|].
    intros s4 Hinv4 F4%bframe_log. rewrite fupd_eq in Hinv4.
    apply wp_bind.
    assert (Hnext : wp (when (negb r) (bunpin dbuf)) s4 (fun _ s5 =>
      binv me q ((W ++ ws j) ++ [(lblk lg j, V (start + j + 1))])
        (fupd (apply_writes (ws j) V) (lblk lg j) (V (start + j + 1)))
        (fupd (apply_writes (ws j) D) (lblk lg j) (V (start + j + 1)))
        (pins r (j + 1)) H s5 /\ k_log s5 = lg)).
    { unfold pins in *. destruct r; cbn [when negb].
      - apply wp_ret. split; [done|congruence].
      - eapply (wp_bunpin me q); [done|done|apply elem_of_lset; exists j; lia|].
        intros s5 Hinv5 F5%bframe_log. split; [|congruence].
        replace (lset_of lg (j + 1) n) with (lset_of lg j n ∖ {[lblk lg j]}); [done|].
        apply set_eq. intros b. rewrite elem_of_difference, elem_of_singleton, !elem_of_lset.
        split.
        + intros [(i & Hi1 & Hi2 & ->) Hbne]. exists i.
          assert (i <> j) by congruence. lia.
        + intros (i & Hi1 & Hi2 & ->). split; [exists i; lia|].
          intros E. apply Hinj in E; lia. }
    eapply wp_mono; [exact Hnext|]. intros [] s5 [Hinv5 Hl5].
    apply wp_bind. eapply (wp_brelse me q); [done|done| |].
    { right. rewrite !fupd_ne by (specialize (Hhome j Hj); lia).
      rewrite !(Hsame j j) by lia. by apply Hclean. }
    intros s6 Hinv6 F6%bframe_log.
    eapply (wp_brelse me q); [done| |right; by rewrite !fupd_eq|].
    { by rewrite lookup_delete_ne. }
    intros s7 Hinv7 F7%bframe_log. split; [|congruence].
    replace (delete dbuf (delete lbuf H)) with (∅ : gmap nat Z) in Hinv7.
    2:{ unfold H. rewrite delete_insert_ne by done.
        rewrite (delete_insert_id ∅ lbuf) by done. by rewrite delete_insert_id. }
    unfold ws. rewrite writes_of_S by lia. fold (ws j).
    rewrite app_assoc, !apply_writes_app. exact Hinv7.
  - intros s' [Hinv' Hl']. by apply HQ.
Qed.
Lemma writes_of_ext f v v' j :
  (forall i, 0 <= i < j -> v i = v' i) -> writes_of f v j = writes_of f v' j.
Proof using.
  intros Hv. unfold writes_of. apply list_fmap_ext. intros k i Hi. f_equal. apply Hv.
  apply elem_of_upto. by eapply list_elem_of_lookup_2.
Qed.

Lemma logpos_inj a b : 0 <= a < n -> 0 <= b < n -> logpos a = logpos b -> a = b.
Proof using. cbn beta; lia. Qed.

Lemma log_at V i :
  0 <= i < n ->
  apply_writes (writes_of logpos (fun i => V (lblk lg i)) n) V (logpos i) = V (lblk lg i).
Proof using.
  intros Hi. apply (writes_of_apply logpos (fun i => V (lblk lg i)));
    [apply logpos_inj|done].
Qed.

Lemma log_at_start X v j : apply_writes (writes_of logpos v j) X start = X start.
Proof using.
  apply apply_writes_other. rewrite writes_of_dom. intros (i & Hi & E). lia.
Qed.

Lemma home_at_start X v j :
  j <= n -> apply_writes (writes_of (lblk lg) v j) X start = X start.
Proof using Hlg.
  intros Hj. apply apply_writes_other. rewrite writes_of_dom. intros (i & Hi & E).
  pose proof (lo_home _ _ _ Hlg i ltac:(lia)) as Hh. unfold LOGSIZE, MAXOPBLOCKS in Hh. lia.
Qed.

Lemma home_at_log X v j i :
  j <= n -> 0 <= i < n -> apply_writes (writes_of (lblk lg) v j) X (logpos i) = X (logpos i).
Proof using Hlg.
  intros Hj Hi. apply apply_writes_other. rewrite writes_of_dom. intros (k & Hk & E).
  pose proof (lo_home _ _ _ Hlg k ltac:(lia)) as Hh. pose proof (lo_n _ _ _ Hlg).
  unfold LOGSIZE, NBUF, MAXOPBLOCKS in *. lia.
Qed.

(** Every write of a commit, in order. *)
Definition commit_trace (V : Z -> block) : list (Z * block) :=
  let d1 := head_put (lh_block lg) n (V start) in
  writes_of logpos (fun i => V (lblk lg i)) n ++
  [(start, d1)] ++
  writes_of (lblk lg) (fun i => V (lblk lg i)) n ++
  [(start, head_put (lh_block lg) 0 d1)].

Lemma start_not_pinned j : start ∉ lset_of lg j n.
Proof using Hlg.
  rewrite elem_of_lset. intros (i & _ & Hi & E).
  pose proof (lo_home _ _ _ Hlg i Hi). unfold LOGSIZE, MAXOPBLOCKS in *. lia.
Qed.

Lemma wp_commit W V D s (Q : unit -> kernel -> Prop) :
  0 < n -> binv me q W V D L ∅ s -> k_log s = lg ->
  (forall s', binv me q (W ++ commit_trace V) (apply_writes (commit_trace V) V)
      (apply_writes (commit_trace V) D) ∅ ∅ s' ->
     k_log s' = set_lh_n 0 lg -> Q tt s') ->
  wp commit s Q.
Proof using Hlg Hlen.
  intros Hn Hinv Hl HQ. unfold commit. apply wp_bind, wp_lget. rewrite Hl, Hlen.
  destruct (Z.ltb_spec 0 n); [|lia]. cbn [when].
  pose proof (lo_n _ _ _ Hlg) as Hnb.
  assert (Hroom : forall j, (size (lset_of lg j n) < Z.to_nat NBUF)%nat).
  { intros j. pose proof (lset_size start lg j n Hlg). lia. }
  apply wp_bind. eapply wp_write_log; [done|done|]. cbv zeta. intros s1 Hinv1 Hl1.
  apply wp_bind. eapply (wp_write_head _ _ _ _ n lg);
    [done|done|exact (lo_dev _ _ _ Hlg)|exact (lo_start _ _ _ Hlg)|done|lia
    |apply start_not_pinned|apply Hroom|].
  cbv zeta. rewrite log_at_start. intros s2 Hinv2 Hl2.
  apply wp_bind. eapply (wp_install_trans false); [done|done|]. cbv zeta.
  intros s3 Hinv3 Hl3.
  rewrite (writes_of_ext (lblk lg) _ (fun i => V (lblk lg i))) in Hinv3.
  2:{ intros i Hi. cbn beta. rewrite fupd_ne by lia. by rewrite log_at. }
  apply wp_bind, wp_lset. rewrite Hl3.
  assert (pins false n = ∅) as Hpins.
  { apply set_eq. intros b. unfold pins. rewrite elem_of_lset.
    split; [intros (i & ? & ? & _); lia|by intros ?%not_elem_of_empty]. }
  rewrite Hpins in Hinv3. apply (binv_set_log _ _ _ _ _ _ _ (set_lh_n 0 lg)) in Hinv3.
  eapply (wp_write_head _ _ _ _ 0 (set_lh_n 0 lg));
    [exact Hinv3|done|exact (lo_dev _ _ _ Hlg)|exact (lo_start _ _ _ Hlg)|done|lia
    |apply not_elem_of_empty|rewrite size_empty; unfold NBUF, MAXOPBLOCKS in *; lia|].
  cbv zeta. rewrite home_at_start, fupd_eq by lia.
  intros s5 Hinv5 Hl5. apply HQ; [|done].
  unfold commit_trace. rewrite !apply_writes_app, !apply_writes_cons, !app_assoc.
  exact Hinv5.
Qed.
End commit.
(** ** Crash safety *)

(** What recovery makes of a disk: the blocks the header lists are installed
    at their homes. [wp_recover] below shows that [recover_from_log] does this. *)
Definition recovery_writes (start : Z) (D : Z -> block) : list (Z * block) :=
  writes_of (fun i => head_block i (D start)) (fun i => D (start + i + 1)) (head_n (D start)).

Definition recovered (start : Z) (D : Z -> block) : Z -> block :=
  apply_writes (recovery_writes start D) D.

(** Blocks the log does not occupy. *)
Definition home (start b : Z) : Prop := ~ (start <= b < start + LOGSIZE).

Lemma recovered_empty start D : head_n (D start) = 0 -> recovered start D = D.
Proof. intros E. unfold recovered, recovery_writes. by rewrite E. Qed.

Lemma recovered_ext start D D' b :
  (forall b, D b = D' b) -> recovered start D b = recovered start D' b.
Proof.
  intros E. unfold recovered, recovery_writes. rewrite !E.
  replace (writes_of (fun i => head_block i (D' start)) (fun i => D (start + i + 1)) (head_n (D' start)))
    with (writes_of (fun i => head_block i (D' start)) (fun i => D' (start + i + 1)) (head_n (D' start))).
  - generalize (writes_of (fun i => head_block i (D' start)) (fun i => D' (start + i + 1)) (head_n (D' start))).
    intros ws. revert D D' E. induction ws as [|[n d] ws IH]; intros D D' E; [by apply E|].
    rewrite !apply_writes_cons. apply IH. intros b'. unfold fupd. case_decide; [done|apply E].
  - unfold writes_of. apply list_fmap_ext. intros k i _. by rewrite E.
Qed.

(** A header that lists the blocks [lg] logs. *)
Lemma recovered_full start n lg D b :
  log_ok start n lg -> head_n (D start) = n ->
  (forall i, 0 <= i < n -> head_block i (D start) = lblk lg i) ->
  recovered start D b = apply_writes (writes_of (lblk lg) (fun i => D (start + i + 1)) n) D b.
Proof.
  intros Hlg Hn Hb. unfold recovered, recovery_writes. rewrite Hn. f_equal.
  unfold writes_of. apply list_fmap_ext. intros k i Hi. f_equal. apply Hb.
  apply elem_of_upto. by eapply list_elem_of_lookup_2.
Qed.

Lemma apply_prefix_other k ws D b : b ∉ ws.*1 -> apply_writes (take k ws) D b = D b.
Proof.
  intros Hb. apply apply_writes_other. intros Hin. apply Hb.
  rewrite fmap_take in Hin. by eapply elem_of_take in Hin as (i & Hi & _); eapply list_elem_of_lookup_2.
Qed.

Lemma writes_of_length f v j : length (writes_of f v j) = Z.to_nat j.
Proof. unfold writes_of, upto. by rewrite !length_fmap, length_seq. Qed.

Section crash.
Context (start n : Z) (lg : log) (Hlg : log_ok start n lg).
Context (V D : Z -> block).
Context (Hempty : head_n (D start) = 0) (Hsize : Z.of_nat (length (V start)) = BSIZE).

Abbreviation logpos := (fun i => start + i + 1).
Abbreviation A := (writes_of logpos (fun i => V (lblk lg i)) n).
Abbreviation B := (writes_of (lblk lg) (fun i => V (lblk lg i)) n).
Abbreviation d1 := (head_put (lh_block lg) n (V start)).

Lemma home_not_log b : home start b -> b ∉ A.*1.
Proof using Hlg.
  intros Hb. rewrite writes_of_dom. intros (i & Hi & ->). apply Hb.
  pose proof (lo_n _ _ _ Hlg). unfold LOGSIZE, NBUF, MAXOPBLOCKS in *. lia.
Qed.

Lemma log_not_home b : ~ home start b -> b ∉ B.*1.
Proof using Hlg.
  intros Hb. rewrite writes_of_dom. intros (i & Hi & ->). apply Hb.
  exact (lo_home _ _ _ Hlg i Hi).
Qed.

Lemma head_written :
  Z.of_nat (length d1) = BSIZE /\ head_n d1 = n /\
  forall i, 0 <= i < n -> head_block i d1 = lblk lg i.
Proof using Hlg Hsize.
  pose proof (lo_n _ _ _ Hlg). apply head_put_spec; [unfold LOGSIZE, NBUF, MAXOPBLOCKS in *; lia|done|].
  exact (lo_block _ _ _ Hlg).
Qed.

(** Before the header is written, the log is empty: nothing is recovered. *)
Lemma crash_before k b :
  home start b -> recovered start (apply_writes (take k A) D) b = D b.
Proof using Hlg Hempty.
  intros Hb. rewrite recovered_empty.
  - by apply apply_prefix_other, home_not_log.
  - rewrite apply_prefix_other; [done|]. rewrite writes_of_dom. intros (i & Hi & E). lia.
Qed.

(** Once it is written, every logged block is recovered from the log. *)
Lemma crash_after k b :
  home start b ->
  recovered start (apply_writes (take k B) (fupd (apply_writes A D) start d1)) b =
  if decide (b ∈ lset_of lg 0 n) then V b else D b.
Proof using Hlg Hsize.
  intros Hb. destruct head_written as (_ & Hn & Hblk).
  set (X := apply_writes (take k B) _).
  assert (Hlog : forall c, ~ home start c -> X c = fupd (apply_writes A D) start d1 c).
  { intros c Hc. by apply apply_prefix_other, log_not_home. }
  assert (~ home start start) as Hst.
  { unfold home, LOGSIZE, MAXOPBLOCKS. lia. }
  rewrite (recovered_full start n lg); [|done| |].
  2:{ by rewrite (Hlog start Hst), fupd_eq. }
  2:{ by rewrite (Hlog start Hst), fupd_eq. }
  rewrite (writes_of_ext _ _ (fun i => V (lblk lg i))).
  2:{ intros i Hi. pose proof (lo_n _ _ _ Hlg). rewrite Hlog.
      - rewrite fupd_ne by lia. apply (writes_of_apply logpos (fun i => V (lblk lg i)));
          [intros; lia|done].
      - unfold home, LOGSIZE, NBUF, MAXOPBLOCKS in *. lia. }
  case_decide as HbL.
  - apply elem_of_lset in HbL as (i & _ & Hi & ->).
    apply (writes_of_apply (lblk lg) (fun i => V (lblk lg i))); [|done].
    exact (lo_inj _ _ _ Hlg).
  - assert (b ∉ B.*1) as HbB.
    { rewrite writes_of_dom. intros (i & Hi & ->). apply HbL, elem_of_lset. exists i. lia. }
    rewrite apply_writes_other by done. unfold X. rewrite apply_prefix_other by done.
    rewrite fupd_ne by (intros ->; done). by apply apply_writes_other, home_not_log.
Qed.

(** After the header is cleared again the disk holds the new contents. *)
Lemma crash_done b :
  home start b ->
  recovered start (fupd (apply_writes B (fupd (apply_writes A D) start d1)) start
    (head_put (lh_block lg) 0 d1)) b =
  if decide (b ∈ lset_of lg 0 n) then V b else D b.
Proof using Hlg Hsize.
  intros Hb. destruct head_written as (Hlen & Hn & Hblk).
  destruct (head_put_spec (lh_block lg) 0 d1) as (_ & H0 & _);
    [unfold LOGSIZE, MAXOPBLOCKS; lia|done|intros; lia|].
  rewrite recovered_empty by by rewrite fupd_eq.
  assert (b <> start) as Hbs.
  { intros ->. apply Hb. unfold LOGSIZE, MAXOPBLOCKS. lia. }
  rewrite fupd_ne by done.
  case_decide as HbL.
  - apply elem_of_lset in HbL as (i & _ & Hi & ->).
    apply (writes_of_apply (lblk lg) (fun i => V (lblk lg i))); [|done].
    exact (lo_inj _ _ _ Hlg).
  - rewrite apply_writes_other.
    + rewrite fupd_ne by done. by apply apply_writes_other, home_not_log.
    + rewrite writes_of_dom. intros (i & Hi & ->). apply HbL, elem_of_lset. exists i. lia.
Qed.

Lemma crash_commit k b :
  home start b ->
  recovered start (apply_writes (take k (commit_trace start n lg V)) D) b =
  if decide ((k <= Z.to_nat n)%nat) then D b
  else if decide (b ∈ lset_of lg 0 n) then V b else D b.
Proof using Hlg Hsize Hempty.
  intros Hb. unfold commit_trace. destruct (decide _) as [Hk|Hk].
  - rewrite take_app_le by (rewrite writes_of_length; lia). by apply crash_before.
  - rewrite take_app, take_ge, writes_of_length by (rewrite writes_of_length; lia).
    destruct (k - Z.to_nat n)%nat as [|j] eqn:E; [lia|]. cbn [app take].
    rewrite apply_writes_app, apply_writes_cons.
    destruct (decide (j <= Z.to_nat n)%nat) as [Hj|Hj].
    + rewrite take_app_le by (rewrite writes_of_length; lia). by apply crash_after.
    + rewrite take_app, take_ge, writes_of_length by (rewrite writes_of_length; lia).
      destruct (j - Z.to_nat n)%nat as [|i] eqn:E'; [lia|]. cbn [take]. rewrite take_nil.
      rewrite apply_writes_app, apply_writes_cons. by apply crash_done.
Qed.
End crash.

(** ** Recovery *)

(** A disk whose log can be recovered: what [commit] leaves at any time. *)
Record disk_log_ok (start : Z) (D : Z -> block) : Prop := {
  dl_size : Z.of_nat (length (D start)) = BSIZE;
  dl_n : 0 <= head_n (D start) < NBUF;
  dl_block : forall i, 0 <= i < head_n (D start) -> 0 <= head_block i (D start) < 2 ^ 31;
  dl_home : forall i, 0 <= i < head_n (D start) -> home start (head_block i (D start));
  dl_inj : forall i j, 0 <= i < head_n (D start) -> 0 <= j < head_n (D start) ->
    head_block i (D start) = head_block j (D start) -> i = j;
}.

(** Every write of [recover_from_log], in order. *)
Definition recover_trace (start : Z) (D : Z -> block) : list (Z * block) :=
  recovery_writes start D ++ [(start, put_32 0 0 (D start))].

Lemma head_cleared d : Z.of_nat (length d) = BSIZE ->
  Z.of_nat (length (put_32 0 0 d)) = BSIZE /\ head_n (put_32 0 0 d) = 0.
Proof.
  intros Hd. destruct (head_put_spec [] 0 d) as (H1 & H2 & _); [|done|intros; lia|done].
  unfold LOGSIZE, MAXOPBLOCKS. lia.
Qed.

Section recover_disk.
Context (start : Z) (D : Z -> block) (Hok : disk_log_ok start D).

Lemma not_home_start : ~ home start start.
Proof using. unfold home, LOGSIZE, MAXOPBLOCKS. lia. Qed.

Lemma recovery_home b : ~ home start b -> b ∉ (recovery_writes start D).*1.
Proof using Hok.
  intros Hb. unfold recovery_writes. rewrite writes_of_dom. intros (i & Hi & ->).
  by apply Hb, (dl_home _ _ Hok).
Qed.

Lemma recover_again k b :
  recovered start (apply_writes (take k (recovery_writes start D)) D) b = recovered start D b.
Proof using Hok.
  set (X := apply_writes _ D).
  assert (Hlog : forall c, ~ home start c -> X c = D c).
  { intros c Hc. by apply apply_prefix_other, recovery_home. }
  assert (E : recovery_writes start X = recovery_writes start D).
  { unfold recovery_writes. rewrite (Hlog _ not_home_start). apply writes_of_ext.
    intros i Hi. apply Hlog. pose proof (dl_n _ _ Hok).
    unfold home, LOGSIZE, NBUF, MAXOPBLOCKS in *. lia. }
  unfold recovered. rewrite E.
  destruct (decide (b ∈ (recovery_writes start D).*1)) as [Hb|Hb].
  - unfold recovery_writes in *. apply writes_of_dom in Hb as (i & Hi & ->).
    by rewrite !(writes_of_apply _ (fun i => D (start + i + 1)) _ _ _ (dl_inj _ _ Hok)).
  - rewrite !apply_writes_other by done. by apply apply_prefix_other.
Qed.

Lemma crash_recover k b :
  home start b ->
  recovered start (apply_writes (take k (recover_trace start D)) D) b = recovered start D b.
Proof using Hok.
  intros Hb. unfold recover_trace.
  destruct (decide (k <= length (recovery_writes start D))%nat) as [Hk|Hk].
  - rewrite take_app_le by done. apply recover_again.
  - rewrite take_ge by (rewrite length_app; simpl; lia).
    rewrite apply_writes_app, apply_writes_cons.
    rewrite recovered_empty.
    + cbn [apply_writes foldl]. rewrite fupd_ne; [done|].
      intros ->. by apply not_home_start.
    + cbn [apply_writes foldl]. rewrite fupd_eq. apply head_cleared, Hok.
Qed.

Lemma crash_recover_ok k :
  disk_log_ok start (apply_writes (take k (recover_trace start D)) D).
Proof using Hok.
  set (X := apply_writes _ D).
  assert (X start = D start \/ X start = put_32 0 0 (D start)) as [E|E].
  { unfold X, recover_trace. rewrite take_app, apply_writes_app.
    destruct (k - _)%nat; cbn [take]; [left|right; rewrite take_nil; apply fupd_eq].
    by apply apply_prefix_other, recovery_home, not_home_start. }
  - destruct Hok. constructor; rewrite E; done.
  - destruct (head_cleared (D start) (dl_size _ _ Hok)) as [H1 H2].
    constructor; rewrite E; rewrite ?H2; try done; intros; lia.
Qed.
End recover_disk.

(** The machine stops after some of the writes of a recovery. *)
Definition recovery_crash (start : Z) (D D' : Z -> block) : Prop :=
  exists k, D' = apply_writes (take k (recover_trace start D)) D.

Lemma recovery_crashes start D D' b :
  rtc (recovery_crash start) D D' -> disk_log_ok start D -> home start b ->
  recovered start D' b = recovered start D b.
Proof.
  intros Hr. induction Hr as [|D D1 D2 [k ->] Hr IH]; intros Hok Hb; [done|].
  rewrite IH; [by apply crash_recover|by apply crash_recover_ok|done].
Qed.

Section recover.
Context {HF : Fuel} (me : nat) (q : proc) (start : Z) (D : Z -> block).
Context (Hok : disk_log_ok start D) (Hreg : 0 <= start /\ start + LOGSIZE < 2 ^ 31).

Lemma lh_set_lookup i v l j :
  (Z.to_nat i < length (lh_block l))%nat -> 0 <= i -> 0 <= j ->
  lblk (lh_set i v l) j = if decide (i = j) then v else lblk l j.
Proof using.
  intros Hi H1 H2. unfold lblk, lh_set. cbn [lh_block set_lh_block].
  destruct (decide (i = j)) as [<-|]; [by apply list_lookup_total_insert_eq|].
  rewrite list_lookup_total_insert_ne by lia. done.
Qed.

Lemma wp_read_head W s (Q : unit -> kernel -> Prop) :
  binv me q W D D ∅ ∅ s -> log_dev (k_log s) = ROOTDEV -> log_start (k_log s) = start ->
  length (lh_block (k_log s)) = Z.to_nat LOGSIZE ->
  (forall s', binv me q W D D ∅ ∅ s' -> log_ok start (head_n (D start)) (k_log s') ->
     lh_n (k_log s') = head_n (D start) ->
     (forall i, 0 <= i < head_n (D start) -> lblk (k_log s') i = head_block i (D start)) ->
     Q tt s') ->
  wp read_head s Q.
Proof using Hok Hreg.
  intros Hinv Hdev Hst Hlen HQ. unfold read_head.
  destruct Hreg as [Hs0 Hs1]. pose proof (dl_n _ _ Hok) as Hn.
  apply wp_bind, wp_lget, wp_bind, wp_lget. rewrite Hdev, Hst.
  unfold LOGSIZE, NBUF, MAXOPBLOCKS in *.
  rewrite u32_small by lia. apply wp_bind.
  eapply (wp_bread me q); [done|done|right; rewrite map_size_empty, size_empty; unfold NBUF, MAXOPBLOCKS; lia|].
  intros hb s1 Hinv1 _ F1%bframe_log.
  set (H := <[hb := start]> ∅ : gmap nat Z) in *.
  assert (HH : H !! hb = Some start) by by apply lookup_insert_eq.
  apply wp_bind. eapply (wp_bdata me q); [done|done|].
  apply wp_bind, wp_lset. apply wp_bind, wp_lget. cbn [k_log set_k_log lh_n set_lh_n].
  change (get_i32 0 (D start)) with (head_n (D start)) in *.
  apply wp_bind.
  apply (wp_iter_upto (fun j s' => binv me q W D D ∅ H s' /\
    log_dev (k_log s') = ROOTDEV /\ log_start (k_log s') = start /\
    lh_n (k_log s') = head_n (D start) /\ length (lh_block (k_log s')) = 30%nat /\
    forall i, 0 <= i < j -> lblk (k_log s') i = head_block i (D start))); [lia| | |].
  - split; [by apply binv_set_log|]. cbn. rewrite F1. split_and!; try done. intros; lia.
  - intros j s2 Hj (Hinv2 & H1 & H2 & H3 & H4 & H5). apply wp_lset.
    split; [by apply binv_set_log|]. cbn [k_log set_k_log].
    split_and!; [done..|unfold lh_set; cbn; by rewrite length_insert|].
    intros i Hi. rewrite lh_set_lookup by lia. case_decide; [by subst|]. apply H5. lia.
  - intros s2 (Hinv2 & H1 & H2 & H3 & H4 & H5).
    eapply (wp_brelse me q); [done|done|by right|]. intros s3 Hinv3 F3%bframe_log.
    unfold H in Hinv3. rewrite delete_insert_id in Hinv3 by done.
    apply HQ; rewrite ?F3; try done. destruct Hok as [? ? Hb Hh Hi].
    constructor; try done; try (unfold LOGSIZE, NBUF, MAXOPBLOCKS; lia).
    + intros i Hii. rewrite H5 by done. by apply Hb.
    + intros i Hii. rewrite H5 by done. by apply Hh.
    + intros i j Hii Hj. rewrite !H5 by done. by apply Hi.
Qed.

Lemma wp_recover W s (Q : unit -> kernel -> Prop) :
  binv me q W D D ∅ ∅ s -> log_dev (k_log s) = ROOTDEV -> log_start (k_log s) = start ->
  length (lh_block (k_log s)) = Z.to_nat LOGSIZE ->
  (let D' := apply_writes (recover_trace start D) D in
   forall s', binv me q (W ++ recover_trace start D) D' D' ∅ ∅ s' ->
     lh_n (k_log s') = 0 -> Q tt s') ->
  wp recover_from_log s Q.
Proof using Hok Hreg.
  intros Hinv Hdev Hst Hlen HQ. unfold recover_from_log.
  apply wp_bind. eapply wp_read_head; [done..|]. intros s1 Hinv1 Hlg Hn Hb.
  apply wp_bind. eapply (wp_install_trans me q start _ _ Hlg Hn true); [done|done|].
  cbv zeta. intros s2 Hinv2 Hl2.
  assert (writes_of (lblk (k_log s1)) (fun i => D (start + i + 1)) (head_n (D start)) =
    recovery_writes start D) as E.
  { unfold recovery_writes, writes_of. apply list_fmap_ext. intros k i Hi. f_equal.
    apply Hb. apply elem_of_upto. by eapply list_elem_of_lookup_2. }
  rewrite E in Hinv2.
  apply wp_bind, wp_lset. rewrite Hl2.
  apply (binv_set_log _ _ _ _ _ _ _ (set_lh_n 0 (k_log s1))) in Hinv2.
  eapply (wp_write_head me q start _ _ Hlg _ _ _ _ 0 (set_lh_n 0 (k_log s1)));
    [exact Hinv2|done|exact (lo_dev _ _ _ Hlg)|exact (lo_start _ _ _ Hlg)|done|lia
    |apply not_elem_of_empty|unfold pins; rewrite size_empty; unfold NBUF, MAXOPBLOCKS; lia|].
  cbv zeta. unfold head_put. cbn [upto seq Z.to_nat fmap list_fmap foldl].
  rewrite (apply_writes_other _ _ start) by by apply recovery_home, not_home_start.
  intros s3 Hinv3 Hl3. cbv zeta in HQ. unfold recover_trace in *.
  rewrite apply_writes_app, app_assoc in HQ. apply HQ; [exact Hinv3|by rewrite Hl3].
Qed.
End recover.

(** ** Transactions: begin_op, log_write and end_op *)

(** The in-memory log of a transaction that has logged the blocks [L]. *)
Record log_inv (start : Z) (L : gset Z) (lg : log) : Prop := {
  li_lock : log_lock lg = false;
  li_ok : log_ok start (lh_n lg) lg;
  li_set : L = lset_of lg 0 (lh_n lg);
  li_length : length (lh_block lg) = Z.to_nat LOGSIZE;
  li_size : log_size lg <= LOGSIZE;
  li_commit : log_committing lg = false;
}.

Lemma log_inv_outstanding start L lg n :
  log_inv start L lg -> log_inv start L (set_log_outstanding n lg).
Proof. intros [? [] ? ? ? ?]. constructor; [assumption|constructor; assumption|assumption..]. Qed.

Lemma binv_same me q W V D L H s s' :
  binv me q W V D L H s -> quiet me q s' -> k_bc s' = k_bc s -> k_disk s' = k_disk s ->
  k_writes s' = k_writes s -> binv me q W V D L H s'.
Proof.
  intros [Hq [ord Hc] Hbs Hhd Hh Hp Hcl Hd Hw] Hq' E1 E2 E3.
  constructor; rewrite ?E1, ?E3; try done.
  - exists ord. destruct Hc. by constructor; rewrite ?E1.
  - intros n. unfold disk_block. rewrite E2. apply Hd.
Qed.

(** Only the cache, the disk, the log and the interrupt state differ. *)
Definition lframe (s s' : kernel) : Prop :=
  s' = set_k_cpu (k_cpu s') (set_k_log (k_log s') (set_k_writes (k_writes s')
    (set_k_disk (k_disk s') (set_k_bc (k_bc s') s)))).

Lemma lframe_refl s : lframe s s.
Proof. by destruct s. Qed.
Lemma lframe_trans s1 s2 s3 : lframe s1 s2 -> lframe s2 s3 -> lframe s1 s3.
Proof. unfold lframe. intros H1 H2. rewrite H2, H1. done. Qed.
Lemma lframe_bframe s s' : bframe s s' -> lframe s s'.
Proof. unfold bframe, lframe. intros H. rewrite H. by destruct s. Qed.
Lemma lframe_sb s s' : lframe s s' -> k_sb s' = k_sb s.
Proof. unfold lframe. by intros ->. Qed.
Lemma lframe_it s s' : lframe s s' -> k_it s' = k_it s.
Proof. unfold lframe. by intros ->. Qed.
Lemma lframe_log s lg : lframe s (set_k_log lg s).
Proof. by destruct s. Qed.

Section transaction.
Context {HF : Fuel} (me : nat) (q : proc).

Lemma wp_log_acquire W V D L H s (Q : unit -> kernel -> Prop) :
  binv me q W V D L H s -> log_lock (k_log s) = false ->
  (forall s', binv me q W V D L H s' -> k_log s' = set_log_lock true (k_log s) ->
     0 < noff (k_cpu s') -> lframe s s' -> Q tt s') ->
  wp (acquire log_lockL) s Q.
Proof using.
  intros Hinv Hl HQ. pose proof (binv_quiet _ _ _ _ _ _ _ _ Hinv) as Hq.
  eapply wp_done; [apply acquire_eq; [apply Hq|done]|].
  apply HQ; [|done| |by destruct s].
  - eapply binv_same; [done|by apply (locked_quiet log_lockL always)|done..].
  - destruct (quiet_cpu _ _ _ Hq). simpl. lia.
Qed.

Lemma wp_log_release W V D L H s (Q : unit -> kernel -> Prop) :
  binv me q W V D L H s -> log_lock (k_log s) = true -> 0 < noff (k_cpu s) ->
  (forall s', binv me q W V D L H s' -> k_log s' = set_log_lock false (k_log s) ->
     lframe s s' -> Q tt s') ->
  wp (release log_lockL) s Q.
Proof using.
  intros Hinv Hl Hn HQ. pose proof (binv_quiet _ _ _ _ _ _ _ _ Hinv) as Hq.
  eapply wp_done; [apply release_eq; [apply Hq|done|done]|].
  apply HQ; [|done|by destruct s].
  eapply binv_same; [done| |done..].
  destruct Hq. constructor; try done. by apply cpu_pop_ok.
Qed.

Lemma wp_begin_op W V D L start s (Q : unit -> kernel -> Prop) :
  binv me q W V D L ∅ s -> log_inv start L (k_log s) ->
  lh_n (k_log s) + (log_outstanding (k_log s) + 1) * MAXOPBLOCKS <= LOGSIZE ->
  (forall s', binv me q W V D L ∅ s' ->
     k_log s' = set_log_outstanding (log_outstanding (k_log s) + 1) (k_log s) ->
     lframe s s' -> Q tt s') ->
  wp begin_op s Q.
Proof using.
  intros Hinv Hl Hroom HQ. unfold begin_op.
  apply wp_bind. eapply wp_log_acquire; [done|apply Hl|]. intros s1 Hinv1 Hl1 Hn1 F1.
  cbn [loop]. apply wp_bind.
  apply wp_bind, wp_lget. rewrite Hl1. cbn [log_committing set_log_lock].
  rewrite (li_commit _ _ _ Hl). apply wp_bind, wp_lget, wp_bind, wp_lget. rewrite Hl1.
  cbn [lh_n log_outstanding set_log_lock].
  destruct (Z.ltb_spec LOGSIZE (lh_n (k_log s) + (log_outstanding (k_log s) + 1) * MAXOPBLOCKS));
    [lia|].
  apply wp_bind, wp_lset. apply wp_bind.
  eapply wp_log_release; [by apply binv_set_log|by rewrite Hl1|done|].
  intros s2 Hinv2 Hl2 F2. apply wp_ret, wp_ret. apply HQ; [done| |].
  2:{ eauto using lframe_trans, lframe_log. }
  rewrite Hl2. cbn [k_log set_k_log]. rewrite Hl1.
  pose proof (li_lock _ _ _ Hl). by destruct (k_log s); simpl in *; subst.
Qed.

(** [log_find] finds the entry of a block among the first [n]. *)
Lemma log_find_spec b bs i :
  (exists k : nat, log_find b bs i = i + Z.of_nat k /\ bs !! k = Some b) \/
  (log_find b bs i = i + Z.of_nat (length bs) /\ b ∉ bs).
Proof using.
  revert i. induction bs as [|c bs IH]; intros i; cbn [log_find].
  - right. simpl. split; [lia|apply not_elem_of_nil].
  - destruct (Z.eqb_spec c b) as [->|Hc].
    + left. exists 0%nat. split; [lia|done].
    + destruct (IH (i + 1)) as [(k & E & Hk)|[E Hb]].
      * left. exists (S k). split; [lia|done].
      * right. split; [simpl; lia|]. rewrite not_elem_of_cons. auto.
Qed.

(** Where [log_write] puts the entry of the block [n]. *)
Lemma log_slot start L lg n :
  log_inv start L lg -> 0 <= n < 2 ^ 31 ->
  let i := log_find n (take (Z.to_nat (lh_n lg)) (lh_block lg)) 0 in
  (n ∈ L /\ 0 <= i < lh_n lg /\ lblk lg i = n) \/
  ((n ∉ L) /\ i = lh_n lg).
Proof using.
  intros [_ Hok -> Hlen _ _] Hn. pose proof (lo_n _ _ _ Hok) as Hb.
  unfold LOGSIZE, NBUF, MAXOPBLOCKS in *.
  destruct (log_find_spec n (take (Z.to_nat (lh_n lg)) (lh_block lg)) 0)
    as [(k & -> & Hk)|[-> Hno]]; cbv zeta.
  - apply lookup_take_Some in Hk as [Hk Hlt]. left.
    assert (lblk lg (0 + Z.of_nat k) = n) as E.
    { unfold lblk. rewrite Z.add_0_l, Nat2Z.id. by apply list_lookup_total_correct. }
    split_and!; [|lia|lia|done]. apply elem_of_lset. exists (0 + Z.of_nat k). lia.
  - rewrite length_take. right. split; [|lia]. rewrite elem_of_lset.
    intros (i & _ & Hi & E). apply Hno. apply list_elem_of_lookup. exists (Z.to_nat i).
    rewrite lookup_take_lt by lia. unfold lblk in E.
    rewrite E. apply list_lookup_lookup_total_lt. lia.
Qed.

(** A block that is logged again is absorbed: the log does not change. *)
Lemma log_absorb lg i : 0 <= i -> (Z.to_nat i < length (lh_block lg))%nat ->
  lh_set i (lblk lg i) lg = lg.
Proof using.
  intros Hi Hlt. unfold lh_set, lblk. rewrite list_insert_id; [by destruct lg|].
  by apply list_lookup_lookup_total_lt.
Qed.

Lemma log_append start L lg n :
  log_inv start L lg -> n ∉ L -> 0 <= n < 2 ^ 31 -> home start n -> lh_n lg + 1 < NBUF ->
  log_inv start ({[n]} ∪ L) (set_lh_n (lh_n lg + 1) (lh_set (lh_n lg) n lg)).
Proof using.
  intros [Hlk [Hdev Hst Hreg Hn Hblk Hhome Hinj] HL Hlen Hsz Hco] HnL Hnb Hh Hroom.
  set (lg' := set_lh_n _ _).
  unfold LOGSIZE, NBUF, MAXOPBLOCKS in *.
  assert (Hget : forall j, 0 <= j -> lblk lg' j = if decide (lh_n lg = j) then n else lblk lg j).
  { intros j Hj. change (lblk lg' j) with (lblk (lh_set (lh_n lg) n lg) j).
    apply lh_set_lookup; lia. }
  assert (Hnew : forall j, 0 <= j < lh_n lg -> n <> lblk lg j).
  { intros j Hj ->. apply HnL. rewrite HL. apply elem_of_lset. exists j. lia. }
  constructor; try done.
  - constructor; try done; change (lh_n lg') with (lh_n lg + 1).
    + unfold NBUF, MAXOPBLOCKS. lia.
    + intros i Hi. rewrite Hget by lia. case_decide; [done|]. apply Hblk. lia.
    + intros i Hi. rewrite Hget by lia. case_decide; [done|]. apply Hhome. lia.
    + intros i j Hi Hj. rewrite !Hget by lia. repeat case_decide; intros E.
      * lia.
      * destruct (Hnew j); [lia|done].
      * destruct (Hnew i); [lia|done].
      * apply Hinj; lia || done.
  - rewrite HL. apply set_eq. intros b. rewrite elem_of_union, elem_of_singleton, !elem_of_lset.
    change (lh_n lg') with (lh_n lg + 1). split.
    + intros [->|(i & _ & Hi & ->)].
      * exists (lh_n lg). rewrite Hget, decide_True by lia. lia.
      * exists i. rewrite Hget, decide_False by lia. lia.
    + intros (i & _ & Hi & ->). rewrite Hget by lia. case_decide; [by left|].
      right. exists i. lia.
  - unfold lg', lh_set. cbn. by rewrite length_insert.
Qed.

Lemma wp_log_write W V D L H start s b n (Q : unit -> kernel -> Prop) :
  binv me q W V D L H s -> H !! b = Some n -> log_inv start L (k_log s) ->
  0 <= n < 2 ^ 31 -> home start n ->
  lh_n (k_log s) < log_size (k_log s) - 1 -> 1 <= log_outstanding (k_log s) ->
  (forall s', binv me q W V D ({[n]} ∪ L) H s' -> log_inv start ({[n]} ∪ L) (k_log s') ->
     k_log s' = (if decide (n ∈ L) then k_log s
       else set_lh_n (lh_n (k_log s) + 1) (lh_set (lh_n (k_log s)) n (k_log s))) ->
     lframe s s' -> Q tt s') ->
  wp (log_write b) s Q.
Proof using.
  intros Hinv Hb Hl Hn Hh Hroom Hout HQ. unfold log_write.
  pose proof Hl as [Hlk Hok _ Hlen Hsz _]. pose proof (lo_n _ _ _ Hok) as Hn0.
  unfold LOGSIZE, NBUF, MAXOPBLOCKS in *.
  apply wp_bind. eapply wp_log_acquire; [done|done|]. intros s1 Hinv1 Hl1 Hn1 F1.
  apply wp_bind, wp_lget, wp_bind, wp_lget. rewrite Hl1.
  cbn [lh_n log_size set_log_lock].
  apply wp_bind. eapply wp_panic_if; [lia|].
  apply wp_bind, wp_lget. rewrite Hl1. cbn [log_outstanding set_log_lock].
  apply wp_bind. eapply wp_panic_if; [lia|].
  destruct (held_buf _ _ _ _ _ _ _ _ _ _ Hinv1 Hb) as (x & Hi & Hx & _ & _ & Hbn & _).
  apply wp_bind. eapply wp_done; [by apply bfget_eq|]. rewrite Hbn.
  rewrite (swrap_small 32) by (simpl; lia).
  apply wp_bind, wp_lget. rewrite Hl1. cbn [lh_block set_log_lock].
  destruct (log_slot start L (k_log s) n Hl Hn) as [(HnL & Hi2 & E)|[HnL E]];
    cbv zeta in E; set (i := log_find _ _ _) in *.
  - assert ({[n]} ∪ L = L) as EL
      by by apply subseteq_union_1_L, singleton_subseteq_l.
    apply wp_bind, wp_lset. destruct (Z.eqb_spec i (lh_n (k_log s))); [lia|]. cbn [when].
    apply wp_bind, wp_ret. cbn [k_log set_k_log].
    assert (lh_set i n (k_log s1) = set_log_lock true (k_log s)) as El.
    { rewrite Hl1. rewrite <-E. apply (log_absorb (set_log_lock true (k_log s))); [lia|].
      cbn [lh_block set_log_lock]. lia. }
    rewrite El.
    eapply wp_log_release; [by apply binv_set_log|done|done|]. intros s2 Hinv2 Hl2 F2.
    cbn [k_log set_k_log] in Hl2.
    replace (set_log_lock false (set_log_lock true (k_log s))) with (k_log s) in Hl2
      by (destruct (k_log s); simpl in *; by subst).
    apply HQ; rewrite ?EL, ?Hl2; [done|done|by rewrite decide_True|].
    eauto using lframe_trans, lframe_log.
  - rewrite E. apply wp_bind, wp_lset. rewrite Z.eqb_refl. cbn [when].
    apply wp_bind, wp_bind. eapply (wp_bpin me q); [by apply binv_set_log|done|done|].
    intros s2 Hinv2 F2. apply wp_lset. rewrite (bframe_log _ _ F2). cbn [k_log set_k_log].
    rewrite Hl1.
    eapply wp_log_release; [by apply binv_set_log|done|..].
    { rewrite F2. done. }
    intros s3 Hinv3 Hl3 F3. cbn [k_log set_k_log] in Hl3.
    assert (k_log s3 = set_lh_n (lh_n (k_log s) + 1) (lh_set (lh_n (k_log s)) n (k_log s))) as E3.
    { clear -Hl3 Hlk. rewrite Hl3. destruct (k_log s). simpl in *. by subst. }
    apply HQ; [done| |by rewrite decide_False|].
    2:{ eapply lframe_trans; [exact F1|]. eapply lframe_trans; [apply lframe_log|].
        eapply lframe_trans; [apply lframe_bframe, F2|].
        eapply lframe_trans; [apply lframe_log|exact F3]. }
    rewrite E3. apply log_append; try done. unfold NBUF, MAXOPBLOCKS. lia.
Qed.

Lemma wp_wakeup W V D L H s c (Q : unit -> kernel -> Prop) :
  binv me q W V D L H s -> Q tt s -> wp (wakeup c) s Q.
Proof using. intros Hinv. eapply wp_done, wakeup_quiet, (binv_quiet _ _ _ _ _ _ _ _ Hinv). Qed.

(** The writes of the [end_op] that commits. *)
Definition end_trace (start : Z) (lg : log) (V : Z -> block) : list (Z * block) :=
  if decide (0 < lh_n lg) then commit_trace start (lh_n lg) lg V else [].

Lemma wp_commit_any W V D L start s (Q : unit -> kernel -> Prop) :
  binv me q W V D L ∅ s -> log_ok start (lh_n (k_log s)) (k_log s) ->
  L = lset_of (k_log s) 0 (lh_n (k_log s)) ->
  (let tr := end_trace start (k_log s) V in
   forall s', binv me q (W ++ tr) (apply_writes tr V) (apply_writes tr D) ∅ ∅ s' ->
     k_log s' = set_lh_n 0 (k_log s) -> Q tt s') ->
  wp commit s Q.
Proof using.
  intros Hinv Hok -> HQ. unfold end_trace in HQ. destruct (decide _) as [Hn|Hn].
  - by eapply (wp_commit me q start).
  - pose proof (lo_n _ _ _ Hok). assert (lh_n (k_log s) = 0) as E by lia.
    unfold commit. apply wp_bind, wp_lget. rewrite E. apply wp_ret. cbv zeta in HQ. apply HQ.
    + rewrite app_nil_r. rewrite E in Hinv. exact Hinv.
    + clear -E. destruct (k_log s). simpl in *. by subst.
Qed.

Lemma wp_end_op W V D L start s (Q : unit -> kernel -> Prop) :
  binv me q W V D L ∅ s -> log_inv start L (k_log s) -> log_outstanding (k_log s) = 1 ->
  (let tr := end_trace start (k_log s) V in
   forall s', binv me q (W ++ tr) (apply_writes tr V) (apply_writes tr D) ∅ ∅ s' ->
     k_log s' = set_log_outstanding 0 (set_lh_n 0 (k_log s)) -> Q tt s') ->
  wp end_op s Q.
Proof using.
  intros Hinv Hl Hout HQ. unfold end_op.
  pose proof Hl as [Hlk Hok HL Hlen Hsz Hco].
  apply wp_bind. eapply wp_log_acquire; [done|done|]. intros s1 Hinv1 Hl1 Hn1 F1.
  apply wp_bind, wp_lset, wp_bind, wp_lget. cbn [k_log set_k_log]. rewrite Hl1.
  cbn [log_committing set_log_outstanding set_log_lock log_outstanding]. rewrite Hco, Hout.
  apply wp_bind, wp_panic_if; [done|]. apply wp_bind, wp_lget.
  cbn [k_log set_k_log log_outstanding set_log_outstanding]. cbn [Z.eqb Z.sub Z.add Z.opp Z.pos_sub].
  apply wp_bind, wp_bind, wp_lset, wp_ret. apply wp_bind.
  eapply wp_log_release; [by apply binv_set_log, binv_set_log|done|done|].
  intros s2 Hinv2 Hl2 _. cbn [when k_log set_k_log] in *.
  set (lg2 := set_log_lock false _) in Hl2.
  apply wp_bind. eapply (wp_commit_any _ _ _ _ start); [done| | |].
  { rewrite Hl2. by destruct Hok. }
  { by rewrite Hl2. }
  cbv zeta. intros s3 Hinv3 Hl3. rewrite Hl2 in Hinv3, Hl3.
  change (end_trace start lg2 V) with (end_trace start (k_log s) V) in Hinv3.
  apply wp_bind. eapply wp_log_acquire; [done|by rewrite Hl3|]. intros s4 Hinv4 Hl4 Hn4 _.
  apply wp_bind, wp_lset. apply wp_bind. eapply wp_wakeup; [by apply binv_set_log|].
  eapply wp_log_release; [by apply binv_set_log|by cbn; rewrite Hl4|done|].
  intros s5 Hinv5 Hl5 _. cbv zeta in HQ. apply HQ; [done|].
  rewrite Hl5. cbn [k_log set_k_log]. rewrite Hl4, Hl3.
  clear -Hlk Hco. unfold lg2. destruct (k_log s). simpl in *. by subst.
Qed.
End transaction.

(** ** Atomicity of transactions across crashes *)

Section atomic.
Context (start : Z) (lg : log) (V D : Z -> block).
Abbreviation n := (lh_n lg).
Context (Hlg : log_ok start n lg) (Hd : disk_log_ok start D).
Context (Hempty : head_n (D start) = 0) (Hclean : forall b, b ∉ lset_of lg 0 n -> V b = D b).

Lemma header_size : Z.of_nat (length (V start)) = BSIZE.
Proof using Hlg Hd Hclean.
  rewrite Hclean; [apply Hd|]. by eapply start_not_pinned.
Qed.

(** The header at any time during a commit. *)
Lemma commit_header k :
  let d1 := head_put (lh_block lg) n (V start) in
  let X := apply_writes (take k (commit_trace start n lg V)) D in
  X start = D start \/ X start = d1 \/ X start = head_put (lh_block lg) 0 d1.
Proof using Hlg.
  cbv zeta. unfold commit_trace.
  assert (HA : forall k X v, apply_writes (take k (writes_of (fun i => start + i + 1) v n)) X start
    = X start).
  { intros. apply apply_prefix_other. rewrite writes_of_dom. intros (i & Hi & E). lia. }
  assert (HB : forall k X v, apply_writes (take k (writes_of (lblk lg) v n)) X start = X start).
  { intros. apply apply_prefix_other. rewrite writes_of_dom. intros (i & Hi & E).
    apply (lo_home _ _ _ Hlg i Hi). unfold LOGSIZE, MAXOPBLOCKS. lia. }
  rewrite take_app, apply_writes_app. destruct (k - _)%nat as [|k1]; [left; apply HA|right].
  cbn [app take]. rewrite apply_writes_cons, take_app, apply_writes_app.
  destruct (k1 - _)%nat as [|k2]; cbn [take]; [left|right].
  - rewrite apply_writes_nil, HB. apply fupd_eq.
  - rewrite take_nil, apply_writes_cons. apply fupd_eq.
Qed.

Lemma commit_disk_ok k :
  disk_log_ok start (apply_writes (take k (commit_trace start n lg V)) D).
Proof using Hlg Hd Hclean.
  destruct (head_written start n lg Hlg V header_size) as (H1 & H2 & H3).
  destruct (head_put_spec (lh_block lg) 0 (head_put (lh_block lg) n (V start)))
    as (H4 & H5 & _); [unfold LOGSIZE, MAXOPBLOCKS; lia|done|intros; lia|].
  destruct (commit_header k) as [E|[E|E]]; cbv zeta in E.
  - destruct Hd. constructor; rewrite E; done.
  - constructor; rewrite E; rewrite ?H2; try done.
    + apply Hlg.
    + intros i Hi. rewrite H3 by done. by apply (lo_block _ _ _ Hlg).
    + intros i Hi. rewrite H3 by done. by apply (lo_home _ _ _ Hlg).
    + intros i j Hi Hj. rewrite !H3 by done. by apply (lo_inj _ _ _ Hlg).
  - constructor; rewrite E; rewrite ?H5; try done; intros; lia.
Qed.

Lemma end_trace_disk_ok k : disk_log_ok start (apply_writes (take k (end_trace start lg V)) D).
Proof using Hlg Hd Hclean.
  unfold end_trace. destruct (decide _); [apply commit_disk_ok|by rewrite take_nil].
Qed.

(** Recovery after any prefix of the writes gives the old or the new contents. *)
Lemma end_trace_crash k b :
  home start b ->
  recovered start (apply_writes (take k (end_trace start lg V)) D) b =
  if decide ((k <= Z.to_nat n)%nat) then D b else V b.
Proof using Hlg Hd Hclean Hempty.
  intros Hb. unfold end_trace. destruct (decide (0 < n)) as [Hn|Hn].
  - rewrite (crash_commit start n lg Hlg V D Hempty header_size k b Hb).
    case_decide; [done|]. case_decide; [done|]. symmetry. by apply Hclean.
  - rewrite take_nil, recovered_empty by done. cbn [apply_writes foldl].
    case_decide; [done|]. symmetry. apply Hclean. rewrite elem_of_lset.
    intros (i & _ & Hi & _). lia.
Qed.

(** The writes are complete: the log is empty and the disk current. *)
Lemma end_trace_done b :
  head_n (apply_writes (end_trace start lg V) D start) = 0 /\
  (home start b -> apply_writes (end_trace start lg V) D b = V b).
Proof using Hlg Hd Hclean Hempty.
  assert (H0 : head_n (apply_writes (end_trace start lg V) D start) = 0).
  { unfold end_trace. destruct (decide _); [|done]. unfold commit_trace.
    rewrite !apply_writes_app, !apply_writes_cons. cbn [apply_writes foldl].
    rewrite fupd_eq.
    destruct (head_written start n lg Hlg V header_size) as (H1 & _).
    apply head_put_spec; [unfold LOGSIZE, MAXOPBLOCKS; lia|done|intros; lia]. }
  split; [done|]. intros Hb.
  pose proof (end_trace_crash (S (Z.to_nat n) + length (end_trace start lg V)) b Hb) as E.
  rewrite take_ge, recovered_empty, decide_False in E by (done || lia). done.
Qed.
End atomic.

(** A kernel that has just booted on the disk [D] with the log at [start]. *)
Definition booted (me : nat) (q : proc) (start : Z) (D : Z -> block) (s : kernel) : Prop :=
  binv me q (k_writes s) D D ∅ ∅ s /\ log_dev (k_log s) = ROOTDEV /\
  log_start (k_log s) = start /\ length (lh_block (k_log s)) = Z.to_nat LOGSIZE.

Section booted.
Context {HF : Fuel} (me : nat) (q : proc) (start : Z) (D : Z -> block) (s : kernel).
Context (Hboot : booted me q start D s) (Hok : disk_log_ok start D).
Context (Hreg : 0 <= start /\ start + LOGSIZE < 2 ^ 31).

Lemma recover_run :
  exists s', recover_from_log s = Done tt s' /\
    k_writes s' = k_writes s ++ recover_trace start D /\
    binv me q (k_writes s') (disk_block s') (disk_block s') ∅ ∅ s' /\
    head_n (disk_block s' start) = 0 /\ lh_n (k_log s') = 0 /\
    forall b, home start b -> disk_block s' b = recovered start D b.
Proof using Hboot Hok Hreg.
  destruct Hboot as (Hinv & Hdev & Hst & Hlen).
  assert (Hw : wp recover_from_log s (fun _ s' =>
    binv me q (k_writes s ++ recover_trace start D) (apply_writes (recover_trace start D) D)
      (apply_writes (recover_trace start D) D) ∅ ∅ s' /\ lh_n (k_log s') = 0)).
  { eapply (wp_recover me q start D Hok Hreg); done. }
  destruct Hw as ([] & s' & Hrun & Hinv' & Hn). exists s'.
  pose proof (binv_disk _ _ _ _ _ _ _ _ Hinv') as Hdisk.
  pose proof (binv_writes _ _ _ _ _ _ _ _ Hinv') as Hwr.
  assert (Hstart : apply_writes (recover_trace start D) D start = put_32 0 0 (D start)).
  { unfold recover_trace. rewrite apply_writes_app. apply fupd_eq. }
  split_and!; try done.
  - rewrite Hwr. eapply binv_ext; [..|exact Hinv']; done.
  - rewrite Hdisk, Hstart. apply head_cleared, Hok.
  - intros b Hb. rewrite Hdisk. unfold recover_trace. rewrite apply_writes_app.
    cbn [apply_writes foldl]. rewrite fupd_ne; [done|].
    intros ->. by apply (not_home_start start).
Qed.
End booted.
