(* ===== verification/Crash.v ===== *)
(** * Transactions survive crashes: the theorems about kernel/bio.c and
      kernel/log.c

    The contracts of the buffer cache and of the log, and a kernel with a
    transaction under way on which they are instantiated. *)

From S2P Require Import Prelude Params Memory Kalloc Block State Sched SchedSpec Quiet Dll Bio.
From S2P Require Import BioSpec Cache Log LogSpec.

(** ** A kernel with a transaction under way *)

#[local] Existing Instance demo_fuel.

Definition demo_log : log := Log false 2 LOGSIZE 0 false ROOTDEV 0 (replicate (Z.to_nat LOGSIZE) 0).
(** A kernel that has booted on a disk. *)
Definition cold_boot (disk : gmap Z block) (sb : superblock) : kernel :=
  set_k_sb sb (set_k_disk disk (set_k_log demo_log (running_kernel 1 demo_proc 0))).
Definition boot_on (disk : gmap Z block) (sb : superblock) : kernel := after binit (cold_boot disk sb).
Definition contents (disk : gmap Z block) (n : Z) : block := default zero_block (disk !! n).

Lemma boot_on_init disk sb : init_inv (cold_boot disk sb) buf_ids (boot_on disk sb).
Proof.
  unfold boot_on. apply (wp_after _ _ (init_inv _ _)), wp_binit; [|done].
  apply (kernel0_fresh 1 demo_proc 0).
Qed.

Lemma boot_on_ok disk sb :
  booted 1 demo_proc 2 (contents disk) (boot_on disk sb) /\
  k_writes (boot_on disk sb) = [] /\ k_log (boot_on disk sb) = demo_log /\ k_sb (boot_on disk sb) = sb.
Proof.
  pose proof (boot_on_init disk sb) as Hi. pose proof (ii_frame _ _ _ Hi) as Hf.
  split; [split|].
  - assert (disk_block (boot_on disk sb) = contents disk) as <- by by rewrite Hf.
    eapply init_binv; [done|]. rewrite Hf.
    eapply quiet_same; [apply (running_kernel_quiet 1 demo_proc); [unfold NPROC; lia|done]|done..].
  - rewrite Hf. by split_and!.
  - rewrite Hf. by split_and!.
Qed.

Definition demo_disk : Z -> block := contents ∅.
Definition demo_boot : kernel := boot_on ∅ (k_sb kernel0).

Lemma demo_boot_ok : booted 1 demo_proc 2 demo_disk demo_boot.
Proof. exact (proj1 (boot_on_ok ∅ (k_sb kernel0))). Qed.

Lemma demo_boot_fields : k_writes demo_boot = [] /\ k_log demo_boot = demo_log.
Proof.
  exact (conj (proj1 (proj2 (boot_on_ok ∅ (k_sb kernel0))))
    (proj1 (proj2 (proj2 (boot_on_ok ∅ (k_sb kernel0)))))).
Qed.

(** Process 1 has changed block 100 in a transaction of its own. *)
Definition demo_block : block := replicate (Z.to_nat BSIZE) 7.
Definition demo_write : K unit :=
  begin_op ;;
  b <- bread ROOTDEV 100 ;;
  bfset b (set_b_data demo_block) ;;
  log_write b ;;
  brelse b.
Definition demo_dirty : kernel := after demo_write demo_boot.

Lemma demo_disk_ok : disk_log_ok 2 demo_disk.
Proof.
  assert (head_n (demo_disk 2) = 0) as E by by vm_compute.
  constructor; rewrite ?E; [by vm_compute|done|intros; lia..].
Qed.

Lemma demo_log_inv : log_inv 2 ∅ demo_log.
Proof.
  constructor; try done.
  constructor; try done; cbn [lh_n demo_log]; unfold LOGSIZE, NBUF, MAXOPBLOCKS; intros; lia.
Qed.

Lemma demo_dirty_ok :
  binv 1 demo_proc [] (fupd demo_disk 100 demo_block) demo_disk {[100]} ∅ demo_dirty /\
  log_inv 2 {[100]} (k_log demo_dirty) /\ log_outstanding (k_log demo_dirty) = 1.
Proof.
  destruct demo_boot_ok as (Hinv & _).
  destruct demo_boot_fields as [Hw Hl].
  rewrite Hw in Hinv.
  unfold demo_dirty. apply (wp_after _ _ (fun s =>
    binv 1 demo_proc [] (fupd demo_disk 100 demo_block) demo_disk {[100]} ∅ s /\
    log_inv 2 {[100]} (k_log s) /\ log_outstanding (k_log s) = 1)).
  unfold demo_write. apply wp_bind.
  eapply (wp_begin_op 1 demo_proc _ _ _ _ 2);
    [done|rewrite Hl; apply demo_log_inv|rewrite Hl; cbn; unfold LOGSIZE, MAXOPBLOCKS; lia|].
  rewrite Hl. intros s1 Hinv1 Hl1 _.
  apply wp_bind. eapply (wp_bread 1 demo_proc);
    [done|done|right; rewrite map_size_empty, size_empty; unfold NBUF, MAXOPBLOCKS; lia|].
  intros b s2 Hinv2 _ F2%bframe_log.
  set (H := <[b := 100]> ∅ : gmap nat Z) in *.
  assert (HH : H !! b = Some 100) by by apply lookup_insert_eq.
  apply wp_bind. eapply (wp_bdata_set 1 demo_proc _ _ _ _ _ _ _ _ (fun _ => demo_block)); [done|done|].
  intros s3 Hinv3 F3%bframe_log. cbn beta in Hinv3. rewrite F2, Hl1 in F3.
  apply wp_bind. eapply (wp_log_write 1 demo_proc _ _ _ _ _ 2); [done|done| |lia| | | |];
    try (rewrite F3).
  { apply log_inv_outstanding, demo_log_inv. }
  { unfold home, LOGSIZE, MAXOPBLOCKS. lia. }
  { cbn. unfold LOGSIZE, MAXOPBLOCKS. lia. }
  { cbn. lia. }
  intros s4 Hinv4 Hli4 Hl4 _. rewrite union_empty_r_L in Hinv4, Hli4.
  eapply (wp_brelse 1 demo_proc); [done|done|left; by apply elem_of_singleton|].
  intros s5 Hinv5 F5%bframe_log. unfold H in Hinv5. rewrite delete_insert_id in Hinv5 by done.
  rewrite F5. split_and!; [exact Hinv5|exact Hli4|]. rewrite Hl4.
  by rewrite decide_False by apply not_elem_of_empty.
Qed.

(** ** The theorems *)

Lemma crashed_disk_ok start D D' :
  rtc (recovery_crash start) D D' -> disk_log_ok start D -> disk_log_ok start D'.
Proof.
  intros Hr. induction Hr as [|D D1 D2 [k ->] Hr IH]; intros Hok; [done|].
  by apply IH, crash_recover_ok.
Qed.

(** C1: transactions are atomic across crashes.  Let process [me] be the last one in
    its transaction: the cache holds the contents [V], the disk [D] with an
    empty log, and the in-memory log lists the blocks [L] on which they may
    differ.  Then [end_op] returns, its disk writes are some [tr], the disk
    then holds [V] outside the log and its log is empty.  And if the machine
    stops after any [k] of these writes, and again any number of times during
    recoveries, then the [recover_from_log] of the next boot returns with a disk that
    holds, outside the log, the contents [D] from before the transaction if at most the
    copies to the log had been written, the contents [V] otherwise: never a
    mixture. *)
Theorem transaction_atomic `{Fuel} me q start W V D L s :
  binv me q W V D L ∅ s -> log_inv start L (k_log s) -> log_outstanding (k_log s) = 1 ->
  disk_log_ok start D -> head_n (D start) = 0 ->
  exists s' tr,
    end_op s = Done tt s' /\ k_writes s' = W ++ tr /\
    (forall b, home start b -> disk_block s' b = V b) /\
    head_n (disk_block s' start) = 0 /\ lh_n (k_log s') = 0 /\
    forall k D' me2 q2 s2,
      rtc (recovery_crash start) (apply_writes (take k tr) D) D' ->
      booted me2 q2 start D' s2 ->
      exists s3, recover_from_log s2 = Done tt s3 /\
        forall b, home start b ->
          disk_block s3 b = if decide ((k <= Z.to_nat (lh_n (k_log s)))%nat) then D b else V b.
Proof.
  intros Hinv Hl Hout Hd He. pose proof (li_ok _ _ _ Hl) as Hlg.
  assert (Hclean : forall b, b ∉ lset_of (k_log s) 0 (lh_n (k_log s)) -> V b = D b).
  { intros b Hb. rewrite <-(li_set _ _ _ Hl) in Hb. by apply (binv_clean _ _ _ _ _ _ _ _ Hinv). }
  set (tr := end_trace start (k_log s) V).
  assert (Hw : wp end_op s (fun _ s' =>
    binv me q (W ++ tr) (apply_writes tr V) (apply_writes tr D) ∅ ∅ s' /\ lh_n (k_log s') = 0)).
  { eapply (wp_end_op me q); [done..|]. cbv zeta. intros s' Hs' Hk. split; [done|by rewrite Hk]. }
  destruct Hw as ([] & s' & Hrun & Hinv' & Hn'). exists s', tr.
  split_and!; [done|by apply (binv_writes _ _ _ _ _ _ _ _ Hinv')| | |done|].
  - intros b Hb. rewrite (binv_disk _ _ _ _ _ _ _ _ Hinv'). by apply end_trace_done.
  - rewrite (binv_disk _ _ _ _ _ _ _ _ Hinv').
    by apply (end_trace_done start (k_log s) V D Hlg Hd He Hclean start).
  - intros k D' me2 q2 s2 Hcr Hboot.
    pose proof (end_trace_disk_ok start (k_log s) V D Hlg Hd Hclean k) as Hokk.
    destruct (recover_run me2 q2 start D' s2 Hboot (crashed_disk_ok _ _ _ Hcr Hokk)
      (lo_region _ _ _ Hlg)) as (s3 & Hrec & _ & _ & _ & _ & Hd3).
    exists s3. split; [done|]. intros b Hb. rewrite (Hd3 b Hb).
    rewrite (recovery_crashes _ _ _ _ Hcr Hokk Hb). by apply end_trace_crash.
Qed.

Lemma transaction_atomic_witness :
  exists s', end_op demo_dirty = Done tt s' /\ disk_block s' 100 = demo_block.
Proof.
  destruct demo_dirty_ok as (Hinv & Hl & Ho).
  destruct (transaction_atomic 1 demo_proc 2 [] (fupd demo_disk 100 demo_block) demo_disk {[100]}
    demo_dirty Hinv Hl Ho demo_disk_ok ltac:(by vm_compute)) as (s' & tr & H1 & _ & H2 & _).
  exists s'. split; [exact H1|]. rewrite H2; [apply fupd_eq|].
  unfold home, LOGSIZE, MAXOPBLOCKS. lia.
Defined.

(** C2: recovery.  On a kernel that boots from a disk with a well-formed log,
    [recover_from_log] returns; every block the header lists then holds the
    contents the log has for it, every other block outside the log is as it was,
    and the log is empty.  A crash at any point of it, any number of times,
    does not change what the next recovery yields. *)
Theorem recovery_correct `{Fuel} me q start D s :
  booted me q start D s -> disk_log_ok start D -> 0 <= start -> start + LOGSIZE < 2 ^ 31 ->
  exists s',
    recover_from_log s = Done tt s' /\
    head_n (disk_block s' start) = 0 /\ lh_n (k_log s') = 0 /\
    (forall i, 0 <= i < head_n (D start) ->
       disk_block s' (head_block i (D start)) = D (start + i + 1)) /\
    (forall b, home start b -> (forall i, 0 <= i < head_n (D start) -> b <> head_block i (D start)) ->
       disk_block s' b = D b) /\
    (exists tr, k_writes s' = k_writes s ++ tr /\
     forall k b, home start b ->
       recovered start (apply_writes (take k tr) D) b = disk_block s' b).
Proof.
  intros Hboot Hok Hs Hr.
  destruct (recover_run me q start D s Hboot Hok (conj Hs Hr))
    as (s' & Hrun & Hw & _ & Hh & Hn & Hd).
  exists s'. split_and!; [done|done|done| | |].
  - intros i Hi. rewrite Hd by by apply (dl_home _ _ Hok).
    unfold recovered, recovery_writes.
    by rewrite (writes_of_apply _ (fun i => D (start + i + 1)) _ _ _ (dl_inj _ _ Hok)).
  - intros b Hb Hno. rewrite Hd by done. apply apply_writes_other.
    unfold recovery_writes. rewrite writes_of_dom. intros (i & Hi & ->). by apply (Hno i).
  - exists (recover_trace start D). split; [done|]. intros k b Hb.
    rewrite (Hd b Hb). by apply crash_recover.
Qed.

Lemma recovery_correct_witness :
  exists s', recover_from_log demo_boot = Done tt s' /\ lh_n (k_log s') = 0.
Proof.
  destruct (recovery_correct 1 demo_proc 2 demo_disk demo_boot demo_boot_ok demo_disk_ok
    ltac:(lia) ltac:(unfold LOGSIZE, MAXOPBLOCKS; lia)) as (s' & H1 & _ & H2 & _).
  exists s'. split; [exact H1|exact H2].
Defined.

(** ** Admission *)

Lemma unlock_log s lg :
  cpu_ok (k_cpu s) -> log_lock lg = false ->
  unlocked log_lockL (set_k_log (set_log_lock true lg) (locked log_lockL s)) = set_k_log lg s.
Proof.
  intros Hc Hl. unfold unlocked, locked. cbn [k_cpu set_k_log].
  rewrite lens_cpu_update. cbn [k_cpu set_k_cpu]. rewrite cpu_pop_push by done.
  destruct s, lg. simpl in *. by subst.
Qed.

(** C22: [begin_op] admits an operation exactly if no commit is under way and the
    log has room for what all admitted operations may still write; it then only counts the operation.  Otherwise the process
    goes to sleep on the log and the log is unchanged. *)
Theorem begin_op_admission `{Fuel} me q s :
  quiet me q s -> noff (k_cpu s) = 0 -> log_lock (k_log s) = false ->
  if decide (log_committing (k_log s) = false /\
             lh_n (k_log s) + (log_outstanding (k_log s) + 1) * MAXOPBLOCKS <= LOGSIZE)
  then begin_op s = Done tt
         (set_k_log (set_log_outstanding (log_outstanding (k_log s) + 1) (k_log s)) s)
  else exists s1 k p1, begin_op s = Switch s1 k /\ k_log s1 = k_log s /\
         procs (k_pt s1) !! me = Some p1 /\ p_state p1 = SLEEPING /\ p_chan p1 = Some ChanLog.
Proof.
  intros Hq Hn Hl. pose proof (quiet_cpu _ _ _ Hq) as Hc. unfold begin_op.
  rewrite (bind_done _ _ _ _ _ (acquire_eq (lk := log_lockL) s Hc Hl)).
  set (s1 := locked log_lockL s).
  assert (Hg : forall A (f : log -> A), lget f s1 = Done (f (set_log_lock true (k_log s))) s1) by done.
  destruct (sleep_eq (lk := log_lockL) (dom := always) ChanLog s1 me q) as (k & Hs & _); try done.
  { by apply cpu_push_ok. }
  { simpl. lia. }
  { apply Hq. }
  { apply Hq. }
  { apply (Forall_lookup_1 _ _ _ _ (quiet_unlocked _ _ _ Hq) (quiet_proc _ _ _ Hq)). }
  set (s2 := update log_lockL false _) in Hs.
  assert (Hs2 : k_log s2 = k_log s /\
    procs (k_pt s2) !! me = Some (fall_asleep ChanLog q)).
  { split; [clear -Hl; destruct s, k_log; simpl in *; by subst|].
    change (procs (k_pt s2)) with (alter (fall_asleep ChanLog) me (procs (k_pt s))).
    by rewrite list_lookup_alter_eq, (quiet_proc _ _ _ Hq). }
  assert (Hw : (sleep ChanLog log_lockL ;; ret (inl tt)) s1 =
    Switch s2 (fun s' => obind (k s') (fun _ => ret (inl tt : unit + unit))))
    by by apply bind_switch.
  cbn [loop]. destruct (decide _) as [[Hco Hroom]|Hno].
  - set (lg := set_log_outstanding (log_outstanding (k_log s) + 1) (k_log s)).
    rewrite (bind_done _ _ _ (inr tt) (set_k_log lg s)); [done|].
    rewrite (bind_done _ _ _ _ _ (Hg _ _)).
    cbn [log_committing set_log_lock]. rewrite Hco.
    rewrite !(bind_done _ _ _ _ _ (Hg _ _)). cbn [lh_n log_outstanding set_log_lock].
    destruct (Z.ltb_spec LOGSIZE
      (lh_n (k_log s) + (log_outstanding (k_log s) + 1) * MAXOPBLOCKS)); [lia|].
    rewrite (bind_done _ _ _ tt (set_k_log (set_log_lock true lg) s1)) by done.
    erewrite bind_done; [|apply (release_eq (lk := log_lockL));
      [by apply cpu_push_ok|unfold s1; simpl; lia|done]].
    unfold s1. by rewrite unlock_log.
  - exists s2. eexists _, (fall_asleep ChanLog q).
    split_and!; [|apply Hs2|apply Hs2|done|done].
    apply bind_switch. rewrite (bind_done _ _ _ _ _ (Hg _ _)).
    cbn [log_committing set_log_lock]. destruct (log_committing (k_log s)); [apply Hw|].
    rewrite !(bind_done _ _ _ _ _ (Hg _ _)). cbn [lh_n log_outstanding set_log_lock].
    destruct (Z.ltb_spec LOGSIZE
      (lh_n (k_log s) + (log_outstanding (k_log s) + 1) * MAXOPBLOCKS)); [apply Hw|tauto].
Qed.

Lemma begin_op_admission_witness :
  begin_op (running_kernel 1 demo_proc 0) =
    Done tt (set_k_log (set_log_outstanding 1 (k_log kernel0)) (running_kernel 1 demo_proc 0)).
Proof.
  pose proof (begin_op_admission 1 demo_proc (running_kernel 1 demo_proc 0)
    (running_kernel_quiet 1 demo_proc ltac:(unfold NPROC; lia) eq_refl) eq_refl eq_refl) as H.
  rewrite decide_True in H by (split; [reflexivity|vm_compute; discriminate]).
  exact H.
Defined.

(** ** Logging a block *)

(** C23: [log_write] adds the block of a held buffer to the transaction.  A block that is in the log already is absorbed, a new one takes the next
    entry and is pinned in the cache; the log stays well-formed.  It
    panics exactly if the log is full or no operation is under way. *)
Theorem log_write_correct {HF : Fuel} me q W V D L H start s b n :
  binv me q W V D L H s -> H !! b = Some n -> log_inv start L (k_log s) ->
  0 <= n < 2 ^ 31 -> home start n ->
  if decide (LOGSIZE <= lh_n (k_log s) \/ log_size (k_log s) - 1 <= lh_n (k_log s))
  then log_write b s = Panic "too big a transaction"
  else if decide (log_outstanding (k_log s) < 1)
  then log_write b s = Panic "log_write outside of trans"
  else exists s', log_write b s = Done tt s' /\
         binv me q W V D ({[n]} ∪ L) H s' /\ log_inv start ({[n]} ∪ L) (k_log s') /\
         lh_n (k_log s') = (if decide (n ∈ L) then lh_n (k_log s) else lh_n (k_log s) + 1).
Proof.
  intros Hinv Hb Hl Hn Hh. pose proof (binv_quiet _ _ _ _ _ _ _ _ Hinv) as Hq.
  pose proof (acquire_eq (lk := log_lockL) s (quiet_cpu _ _ _ Hq) (li_lock _ _ _ Hl)) as Ha.
  set (s1 := locked log_lockL s) in Ha.
  assert (Hg : forall A (f : log -> A), lget f s1 = Done (f (set_log_lock true (k_log s))) s1) by done.
  case_decide as Hfull.
  { unfold log_write. rewrite (bind_done _ _ _ _ _ Ha), !(bind_done _ _ _ _ _ (Hg _ _)).
    cbn [lh_n log_size set_log_lock]. apply bind_panic.
    by replace (_ || _) with true by lia. }
  case_decide as Hout.
  - unfold log_write. rewrite (bind_done _ _ _ _ _ Ha), !(bind_done _ _ _ _ _ (Hg _ _)).
    cbn [lh_n log_size set_log_lock].
    rewrite (bind_done _ _ _ tt s1); [|replace (_ || _) with false by lia; done].
    rewrite (bind_done _ _ _ _ _ (Hg _ _)). cbn [log_outstanding set_log_lock].
    apply bind_panic. by destruct (Z.ltb_spec (log_outstanding (k_log s)) 1); [|lia].
  - assert (Hw : wp (log_write b) s (fun _ s' => binv me q W V D ({[n]} ∪ L) H s' /\
      log_inv start ({[n]} ∪ L) (k_log s') /\
      lh_n (k_log s') = (if decide (n ∈ L) then lh_n (k_log s) else lh_n (k_log s) + 1))).
    { eapply (wp_log_write me q); [done|done|done|done|done|lia|lia|].
      intros s' Hinv' Hl' E _. split_and!; [done|done|]. rewrite E. by case_decide. }
    destruct Hw as ([] & s' & Hrun & HQ). by exists s'.
Qed.

(** A kernel in a transaction that holds block 100. *)
Definition demo_hold : K nat :=
  begin_op ;;
  bread ROOTDEV 100.

Lemma demo_hold_ok :
  exists b s, demo_hold demo_boot = Done b s /\
    binv 1 demo_proc [] demo_disk demo_disk ∅ {[b := 100]} s /\
    k_log s = set_log_outstanding 1 demo_log.
Proof.
  destruct demo_boot_ok as (Hinv & _).
  destruct demo_boot_fields as [Hw Hl].
  rewrite Hw in Hinv.
  cut (wp demo_hold demo_boot (fun b s =>
    binv 1 demo_proc [] demo_disk demo_disk ∅ {[b := 100]} s /\
    k_log s = set_log_outstanding 1 demo_log)); [done|].
  apply wp_bind. eapply (wp_begin_op 1 demo_proc _ _ _ _ 2);
    [done|rewrite Hl; apply demo_log_inv|rewrite Hl; cbn; unfold LOGSIZE, MAXOPBLOCKS; lia|].
  rewrite Hl. intros s1 Hinv1 Hl1 _. eapply (wp_bread 1 demo_proc);
    [done|done|right; rewrite map_size_empty, size_empty; unfold NBUF, MAXOPBLOCKS; lia|].
  intros b s2 Hinv2 _ F2%bframe_log. split; [exact Hinv2|]. by rewrite F2, Hl1.
Qed.

Lemma log_write_correct_witness :
  exists b s s', demo_hold demo_boot = Done b s /\ log_write b s = Done tt s' /\
    lh_n (k_log s') = 1.
Proof.
  destruct demo_hold_ok as (b & s & Hrun & Hinv & Hl).
  pose proof (log_write_correct 1 demo_proc [] demo_disk demo_disk ∅ {[b := 100]} 2 s b 100
    Hinv ltac:(by apply lookup_singleton_eq)
    ltac:(rewrite Hl; apply log_inv_outstanding, demo_log_inv) ltac:(lia)
    ltac:(unfold home, LOGSIZE, MAXOPBLOCKS; lia)) as H.
  rewrite Hl in H.
  rewrite decide_False in H by (cbn; unfold LOGSIZE, MAXOPBLOCKS; lia).
  rewrite decide_False in H by (cbn; lia).
  destruct H as (s' & H1 & _ & _ & H2). exists b, s, s'. split; [exact Hrun|]. split; [exact H1|].
  rewrite H2. by rewrite decide_False by apply not_elem_of_empty.
Defined.
