(* ===== verification/Fs.v ===== *)
(** * The file system: kernel/fs.c

    Blocks, inodes, inode content, directories and paths.  An inode pointer
    is the index of its entry of [itable]; a path is the bytes of the C
    string, without the NUL; a directory entry name is an array of [DIRSIZ]
    bytes. *)

From S2P Require Import Prelude Params Memory Kalloc Block State Sched Kcopy Uart Bio Log.
Import CString.

Definition sbget {A} (f : superblock -> A) : K A := getf sbL f.
Definition iget_ {A} (ip : nat) (f : inode -> A) : K A := getf (inodeL ip) f.
Definition iset_ (ip : nat) (f : inode -> inode) : K unit := setf (inodeL ip) f.

(** [bp->data] *)
Definition bdata (b : nat) : K block := bfget b b_data.
Definition bdata_set (b : nat) (f : block -> block) : K unit :=
  bfset b (fun x => set_b_data (f (b_data x)) x).

(** kernel/fs.h *)
Definition IBLOCK (i : Z) (sb : superblock) : Z := u32 (i / IPB + sb_inodestart sb).
Definition BBLOCK (b : Z) (sb : superblock) : Z := u32 (b / BPB + sb_bmapstart sb).

(** The superblock of a block's bytes. *)
Definition superblock_of (d : block) : superblock :=
  Superblock (get_u32 0 d) (get_u32 4 d) (get_u32 8 d) (get_u32 12 d)
    (get_u32 16 d) (get_u32 20 d) (get_u32 24 d) (get_u32 28 d).

(** The fields of entry [inum % IPB] of the array of [struct dinode] that a
    block holds. *)
Definition di_off (inum : Z) : Z := inum mod IPB * sizeof_dinode.
Definition di_type (inum : Z) (d : block) : Z := get_i16 (di_off inum) d.
Definition di_major (inum : Z) (d : block) : Z := get_i16 (di_off inum + 2) d.
Definition di_minor (inum : Z) (d : block) : Z := get_i16 (di_off inum + 4) d.
Definition di_nlink (inum : Z) (d : block) : Z := get_i16 (di_off inum + 6) d.
Definition di_size (inum : Z) (d : block) : Z := get_u32 (di_off inum + 8) d.
Definition di_addrs (inum : Z) (d : block) : list Z :=
  (fun i => get_u32 (di_off inum + 12 + 4 * i) d) <$> upto (NDIRECT + 1).

(** [uint addrs[]] as bytes, for [memmove]. *)
Definition addrs_bytes (a : list Z) : list Z := concat (le_bytes 4 <$> a).

(** Two character arrays side by side, for the string routines. *)
Definition arrays (s t : list Z) : mem :=
  write_bytes (write_bytes (fun _ => 0) 0 s) PGSIZE t.

Definition namecmp (s t : list Z) : Z := strncmp (arrays s t) 0 PGSIZE DIRSIZ.

(** [struct dirent] as bytes. *)
Definition de_inum (de : list Z) : Z := get_u16 0 de.
Definition de_name (de : list Z) : list Z := slice 2 DIRSIZ de.
Definition de_set (name : list Z) (inum : Z) (de : list Z) : list Z :=
  put_16 0 inum
    (splice 2 (read_bytes (strncpy (arrays (de_name de) name) 0 PGSIZE DIRSIZ) 0
                 (Z.to_nat DIRSIZ)) de).

(** ** Paths *)

Fixpoint skip_slashes (path : list Z) : list Z :=
  match path with
  | c :: path' => if c =? 47 then skip_slashes path' else path
  | [] => []
  end.

(** The characters up to the next slash, and the rest. *)
Fixpoint take_elem (path : list Z) : list Z * list Z :=
  match path with
  | c :: path' =>
      if c =? 47 then ([], path)
      else let '(s, rest) := take_elem path' in (c :: s, rest)
  | [] => ([], [])
  end.

(** The rest of the path and the new contents of [name], or null. *)
Definition skipelem (path name : list Z) : option (list Z * list Z) :=
  let path := skip_slashes path in
  match path with
  | [] => None
  | _ =>
      let '(s, path) := take_elem path in
      let len := Z.of_nat (length s) in
      let name :=
        if DIRSIZ <=? len then splice 0 (take (Z.to_nat DIRSIZ) s) name
        else splice 0 (s ++ [0]) name in
      Some (skip_slashes path, name)
  end.

Section fs.
Context `{Fuel, UartHw}.

Definition readsb (dev : Z) : K unit :=
  bp <- bread dev 1 ;;
  d <- bdata bp ;;
  setf sbL (fun _ => superblock_of d) ;;
  brelse bp.

Definition fsinit (dev : Z) : K unit :=
  readsb dev ;;
  magic <- sbget sb_magic ;;
  panic_if (negb (magic =? FSMAGIC)) "invalid file system" ;;
  sb <- gets k_sb ;;
  initlog dev sb.

(** ** Blocks *)

Definition bzero (dev bno : Z) : K unit :=
  bp <- bread dev bno ;;
  bdata_set bp (fun _ => zero_block) ;;
  log_write bp ;;
  brelse bp.

(** [data[bi/8] & (1 << (bi % 8))] *)
Definition bit_byte (bi : Z) (d : block) : Z := d !!! Z.to_nat (bi / 8).
Definition bit_used (bi : Z) (d : block) : bool :=
  negb (Z.land (bit_byte bi d) (Z.shiftl 1 (bi mod 8)) =? 0).
Definition bit_set (bi : Z) (d : block) : block :=
  <[Z.to_nat (bi / 8) := Z.lor (bit_byte bi d) (Z.shiftl 1 (bi mod 8))]> d.
Definition bit_clear (bi : Z) (d : block) : block :=
  <[Z.to_nat (bi / 8) :=
      Z.land (bit_byte bi d) (Z.lnot (Z.shiftl 1 (bi mod 8)))]> d.

(** The first free bit of a bitmap block that describes a block of the file
    system, the block's bits standing for [b, b+1, ...]. *)
Fixpoint find_free (n : nat) (d : block) (b bi size : Z) : option Z :=
  match n with
  | O => None
  | S n' =>
      if (bi <? BPB) && (b + bi <? size) then
        if negb (bit_used bi d) then Some bi else find_free n' d b (bi + 1) size
      else None
  end.

Definition balloc (dev : Z) : K Z :=
  sb <- gets k_sb ;;
  r <- loop (Z.to_nat (sb_size sb / BPB + 2)) (fun b =>
    if b <? sb_size sb then
      bp <- bread dev (BBLOCK b sb) ;;
      d <- bdata bp ;;
      match find_free (Z.to_nat BPB) d b 0 (sb_size sb) with
      | Some bi =>
          bdata_set bp (bit_set bi) ;;
          log_write bp ;;
          brelse bp ;;
          bzero dev (b + bi) ;;
          ret (inr (Some (b + bi)))
      | None => brelse bp ;; ret (inl (b + BPB))
      end
    else ret (inr None)) 0 ;;
  match r with
  | Some b => ret b
  | None => printf ("balloc: out of blocks" +:+ nl) [] ;; ret 0
  end.

Definition bfree (dev b : Z) : K unit :=
  sb <- gets k_sb ;;
  bp <- bread dev (BBLOCK b sb) ;;
  let bi := b mod BPB in
  d <- bdata bp ;;
  panic_if (negb (bit_used bi d)) "freeing free block" ;;
  bdata_set bp (bit_clear bi) ;;
  log_write bp ;;
  brelse bp.

(** ** Inodes *)

Definition inode_ids : list nat := seq 0 (Z.to_nat NINODE).

Definition iinit : K unit :=
  initlock it_lockL ;;
  iter inode_ids (fun i => initsleeplock (i_lockL i)).

(** The scan of [iget]: the cached entry, or the first empty slot. *)
Definition iget (dev inum : Z) : K nat :=
  acquire it_lockL ;;
  r <- loop (S (Z.to_nat NINODE)) (fun '(ip, empty) =>
    if (ip <? Z.to_nat NINODE)%nat then
      rf <- iget_ ip i_ref ;;
      d <- iget_ ip i_dev ;;
      n <- iget_ ip i_inum ;;
      if (0 <? rf) && (d =? dev) && (n =? inum) then
        iset_ ip (fun i => set_i_ref (i_ref i + 1) i) ;;
        release it_lockL ;;
        ret (inr (inl ip))
      else
        let empty :=
          match empty with
          | None => if rf =? 0 then Some ip else None
          | Some e => Some e
          end in
        ret (inl (S ip, empty))
    else ret (inr (inr empty))) (0%nat, None) ;;
  match r with
  | inl ip => ret ip
  | inr None => panic "iget: no inodes"
  | inr (Some ip) =>
      iset_ ip (set_i_dev dev) ;;
      iset_ ip (set_i_inum inum) ;;
      iset_ ip (set_i_ref 1) ;;
      iset_ ip (set_i_valid false) ;;
      release it_lockL ;;
      ret ip
  end.

Definition ialloc (dev type : Z) : K (option nat) :=
  sb <- gets k_sb ;;
  r <- loop (S (Z.to_nat (sb_ninodes sb))) (fun inum =>
    if inum <? sb_ninodes sb then
      bp <- bread dev (IBLOCK inum sb) ;;
      d <- bdata bp ;;
      if di_type inum d =? 0 then
        bdata_set bp (fun d =>
          put_16 (di_off inum) type
            (splice (di_off inum) (replicate (Z.to_nat sizeof_dinode) 0) d)) ;;
        log_write bp ;;
        brelse bp ;;
        ip <- iget dev inum ;;
        ret (inr (Some ip))
      else brelse bp ;; ret (inl (inum + 1))
    else ret (inr None)) 1 ;;
  match r with
  | Some ip => ret (Some ip)
  | None => printf ("ialloc: no inodes" +:+ nl) [] ;; ret None
  end.

(** The on-disk copy of an inode's fields. *)
Definition dinode_put (inum : Z) (i : inode) (d : block) : block :=
  let o := di_off inum in
  splice (o + 12) (addrs_bytes (i_addrs i))
    (put_32 (o + 8) (i_size i)
      (put_16 (o + 6) (i_nlink i)
        (put_16 (o + 4) (i_minor i)
          (put_16 (o + 2) (i_major i)
            (put_16 o (i_type i) d))))).

Definition iupdate (ip : nat) : K unit :=
  sb <- gets k_sb ;;
  i <- iget_ ip id ;;
  bp <- bread (i_dev i) (IBLOCK (i_inum i) sb) ;;
  i <- iget_ ip id ;;
  bdata_set bp (dinode_put (i_inum i) i) ;;
  log_write bp ;;
  brelse bp.

Definition idup (ip : nat) : K nat :=
  acquire it_lockL ;;
  iset_ ip (fun i => set_i_ref (i_ref i + 1) i) ;;
  release it_lockL ;;
  ret ip.

(** The in-memory copy of an on-disk inode. *)
Definition dinode_load (inum : Z) (d : block) (i : inode) : inode :=
  set_i_addrs (di_addrs inum d)
    (set_i_size (di_size inum d)
      (set_i_nlink (di_nlink inum d)
        (set_i_minor (di_minor inum d)
          (set_i_major (di_major inum d)
            (set_i_type (di_type inum d) i))))).

Definition ilock (ip : nat) : K unit :=
  rf <- iget_ ip i_ref ;;
  panic_if (rf <? 1) "ilock" ;;
  acquiresleep (i_lockL ip) (ChanInodeLock ip) ;;
  v <- iget_ ip i_valid ;;
  when (negb v) (
    sb <- gets k_sb ;;
    dev <- iget_ ip i_dev ;;
    inum <- iget_ ip i_inum ;;
    bp <- bread dev (IBLOCK inum sb) ;;
    d <- bdata bp ;;
    iset_ ip (dinode_load inum d) ;;
    brelse bp ;;
    iset_ ip (set_i_valid true) ;;
    t <- iget_ ip i_type ;;
    panic_if (t =? 0) "ilock: no type").

Definition iunlock (ip : nat) : K unit :=
  h <- holdingsleep (i_lockL ip) ;;
  rf <- iget_ ip i_ref ;;
  panic_if (negb h || (rf <? 1)) "iunlock" ;;
  releasesleep (i_lockL ip) (ChanInodeLock ip).

(** ** Inode content *)

Definition addr_get (ip : nat) (i : Z) : K Z := iget_ ip (fun x => i_addrs x !!! Z.to_nat i).
Definition addr_set (ip : nat) (i a : Z) : K unit :=
  iset_ ip (fun x => set_i_addrs (<[Z.to_nat i := a]> (i_addrs x)) x).

Definition bmap (ip : nat) (bn : Z) : K Z :=
  dev <- iget_ ip i_dev ;;
  if bn <? NDIRECT then
    addr <- addr_get ip bn ;;
    if addr =? 0 then
      addr <- balloc dev ;;
      if addr =? 0 then ret 0
      else addr_set ip bn addr ;; ret addr
    else ret addr
  else
    let bn := bn - NDIRECT in
    if bn <? NINDIRECT then
      addr <- addr_get ip NDIRECT ;;
      addr <- (if addr =? 0 then
        addr <- balloc dev ;;
        when (negb (addr =? 0)) (addr_set ip NDIRECT addr) ;;
        ret addr
      else ret addr) ;;
      if addr =? 0 then ret 0
      else
        bp <- bread dev addr ;;
        d <- bdata bp ;;
        let addr := get_u32 (4 * bn) d in
        addr <- (if addr =? 0 then
          addr <- balloc dev ;;
          when (negb (addr =? 0)) (
            bdata_set bp (put_32 (4 * bn) addr) ;;
            log_write bp) ;;
          ret addr
        else ret addr) ;;
        brelse bp ;;
        ret addr
    else panic "bmap: out of range".

Definition itrunc (ip : nat) : K unit :=
  iter (upto NDIRECT) (fun i =>
    a <- addr_get ip i ;;
    when (negb (a =? 0)) (
      dev <- iget_ ip i_dev ;;
      bfree dev a ;;
      addr_set ip i 0)) ;;
  a <- addr_get ip NDIRECT ;;
  when (negb (a =? 0)) (
    dev <- iget_ ip i_dev ;;
    bp <- bread dev a ;;
    d <- bdata bp ;;
    iter (upto NINDIRECT) (fun j =>
      let e := get_u32 (4 * j) d in
      when (negb (e =? 0)) (bfree dev e)) ;;
    brelse bp ;;
    a <- addr_get ip NDIRECT ;;
    bfree dev a ;;
    addr_set ip NDIRECT 0) ;;
  iset_ ip (set_i_size 0) ;;
  iupdate ip.

Definition iput (ip : nat) : K unit :=
  acquire it_lockL ;;
  rf <- iget_ ip i_ref ;;
  v <- iget_ ip i_valid ;;
  nlink <- iget_ ip i_nlink ;;
  when ((rf =? 1) && v && (nlink =? 0)) (
    acquiresleep (i_lockL ip) (ChanInodeLock ip) ;;
    release it_lockL ;;
    itrunc ip ;;
    iset_ ip (set_i_type 0) ;;
    iupdate ip ;;
    iset_ ip (set_i_valid false) ;;
    releasesleep (i_lockL ip) (ChanInodeLock ip) ;;
    acquire it_lockL) ;;
  iset_ ip (fun i => set_i_ref (i_ref i - 1) i) ;;
  release it_lockL.

Definition iunlockput (ip : nat) : K unit := iunlock ip ;; iput ip.

(** [struct stat]: dev, ino, type, nlink, size *)
Record stat := Stat { st_dev : Z; st_ino : Z; st_type : Z; st_nlink : Z; st_size : Z }.

Definition stati (ip : nat) : K stat :=
  iget_ ip (fun i => Stat (i_dev i) (i_inum i) (i_type i) (i_nlink i) (i_size i)).

(** The code and, for a destination on the kernel stack, the bytes read. *)
Definition readi (ip : nat) (dst : dest) (off n : Z) : K (Z * list Z) :=
  size <- iget_ ip i_size ;;
  if (size <? off) || (u32 (off + n) <? off) then ret (0, [])
  else
    let n := if size <? u32 (off + n) then u32 (size - off) else n in
    loop (Z.to_nat (n / BSIZE + 3)) (fun '(tot, off, dst, acc) =>
      if tot <? n then
        addr <- bmap ip (off / BSIZE) ;;
        if addr =? 0 then ret (inr (i32 tot, acc))
        else
          dev <- iget_ ip i_dev ;;
          bp <- bread dev addr ;;
          let m := Z.min (n - tot) (BSIZE - off mod BSIZE) in
          d <- bdata bp ;;
          let src := slice (off mod BSIZE) m d in
          e <- either_copyout dst src ;;
          if e =? -1 then brelse bp ;; ret (inr (-1, acc))
          else
            brelse bp ;;
            ret (inl (tot + m, u32 (off + m), dest_add dst m, acc ++ src))
      else ret (inr (i32 tot, acc))) (0, off, dst, []).

Definition writei (ip : nat) (src : source) (off n : Z) : K Z :=
  size <- iget_ ip i_size ;;
  if (size <? off) || (u32 (off + n) <? off) then ret (-1)
  else if MAXFILE * BSIZE <? u32 (off + n) then ret (-1)
  else
    r <- loop (Z.to_nat (n / BSIZE + 3)) (fun '(tot, off, src) =>
      if tot <? n then
        addr <- bmap ip (off / BSIZE) ;;
        if addr =? 0 then ret (inr (tot, off))
        else
          dev <- iget_ ip i_dev ;;
          bp <- bread dev addr ;;
          let m := Z.min (n - tot) (BSIZE - off mod BSIZE) in
          c <- either_copyin src m ;;
          (* what arrived is in the buffer even when the copy fails *)
          bdata_set bp (splice (off mod BSIZE) (snd c)) ;;
          if fst c =? -1 then brelse bp ;; ret (inr (tot, off))
          else
            log_write bp ;;
            brelse bp ;;
            ret (inl (tot + m, u32 (off + m), source_add src m))
      else ret (inr (tot, off))) (0, off, src) ;;
    let '(tot, off) := r in
    when (size <? off) (iset_ ip (set_i_size off)) ;;
    iupdate ip ;;
    ret (i32 tot).

(** ** Directories *)

(** The entry and its offset. *)
Definition dirlookup (dp : nat) (name : list Z) : K (option (nat * Z)) :=
  t <- iget_ dp i_type ;;
  panic_if (negb (t =? T_DIR)) "dirlookup not DIR" ;;
  size <- iget_ dp i_size ;;
  loop (Z.to_nat (size / sizeof_dirent + 2)) (fun off =>
    if off <? size then
      r <- readi dp ToLocal off sizeof_dirent ;;
      panic_if (negb (fst r =? sizeof_dirent)) "dirlookup read" ;;
      let de := snd r in
      if de_inum de =? 0 then ret (inl (u32 (off + sizeof_dirent)))
      else if namecmp name (de_name de) =? 0 then
        dev <- iget_ dp i_dev ;;
        ip <- iget dev (de_inum de) ;;
        ret (inr (Some (ip, off)))
      else ret (inl (u32 (off + sizeof_dirent)))
    else ret (inr None)) 0.

Definition dirlink (dp : nat) (name : list Z) (inum : Z) : K Z :=
  r <- dirlookup dp name ;;
  match r with
  | Some (ip, _) => iput ip ;; ret (-1)
  | None =>
      size <- iget_ dp i_size ;;
      r <- loop (Z.to_nat (size / sizeof_dirent + 2)) (fun '(off, de) =>
        if off <? size then
          r <- readi dp ToLocal off sizeof_dirent ;;
          panic_if (negb (fst r =? sizeof_dirent)) "dirlink read" ;;
          let de := snd r in
          if de_inum de =? 0 then ret (inr (off, de))
          else ret (inl (off + sizeof_dirent, de))
        else ret (inr (off, de)))
        (0, replicate (Z.to_nat sizeof_dirent) 0) ;;
      let '(off, de) := r in
      w <- writei dp (FromLocal (de_set name inum de)) (u32 off) sizeof_dirent ;;
      ret (if negb (w =? sizeof_dirent) then -1 else 0)
  end.

(** The inode and the last element of the path. *)
Definition namex (path : list Z) (nameiparent : bool) (name : list Z) :
    K (option nat * list Z) :=
  ip <- (if hd 0 path =? 47 then iget ROOTDEV ROOTINO
         else
           p <- myproc' ;;
           cwd <- pget p p_cwd ;;
           match cwd with
           | Some ip => idup ip
           | None => panic "kerneltrap"
           end) ;;
  loop (S (length path)) (fun '(ip, path, name) =>
    match skipelem path name with
    | Some (path, name) =>
        ilock ip ;;
        t <- iget_ ip i_type ;;
        if negb (t =? T_DIR) then iunlockput ip ;; ret (inr (None, name))
        else if nameiparent && (hd 0 path =? 0) then
          iunlock ip ;; ret (inr (Some ip, name))
        else
          next <- dirlookup ip name ;;
          match next with
          | None => iunlockput ip ;; ret (inr (None, name))
          | Some (next, _) => iunlockput ip ;; ret (inl (next, path, name))
          end
    | None =>
        if (nameiparent : bool) then iput ip ;; ret (inr (None, name))
        else ret (inr (Some ip, name))
    end) (ip, path, name).

Definition name0 : list Z := replicate (Z.to_nat DIRSIZ) 0.

Definition namei (path : list Z) : K (option nat) :=
  r <- namex path false name0 ;; ret (fst r).

Definition nameiparent (path : list Z) : K (option nat * list Z) :=
  namex path true name0.

End fs.
