(* ===== verification/FsSpec.v ===== *)
(** * The disk structures of kernel/fs.c: the theorems about paths, inodes,
      bitmaps and directory entries *)

From S2P Require Import Prelude Params Memory Strings Kalloc Block State Sched Kcopy Uart Bio.
From S2P Require Import Log LogSpec Fs.
Import CString.

(** ** Inodes on disk *)

Lemma slice_splice_inside off k n bs l :
  0 <= off -> 0 <= k -> 0 <= n -> k + n <= Z.of_nat (length bs) ->
  off + Z.of_nat (length bs) <= Z.of_nat (length l) ->
  slice (off + k) n (splice off bs l) = slice k n bs.
Proof.
  intros. apply list_eq. intros i. destruct (decide (i < Z.to_nat n)%nat) as [Hi|Hi].
  - rewrite !lookup_slice by done. rewrite lookup_splice by lia.
    rewrite decide_True by lia. f_equal. lia.
  - unfold slice. by rewrite !lookup_take_ge by lia.
Qed.

Lemma addrs_bytes_length a : length (addrs_bytes a) = (4 * length a)%nat.
Proof.
  unfold addrs_bytes. induction a as [|x a IH]; [done|]. cbn [fmap list_fmap concat].
  rewrite length_app, IH, le_bytes_length. simpl. lia.
Qed.

Lemma addrs_bytes_get a k x :
  a !! k = Some x -> slice (4 * Z.of_nat k) 4 (addrs_bytes a) = le_bytes 4 x.
Proof.
  unfold addrs_bytes. revert k. induction a as [|y a IH]; intros k Hk; [done|].
  cbn [fmap list_fmap concat]. destruct k as [|k]; simpl in Hk.
  - simplify_eq. unfold slice. rewrite drop_0.
    apply (take_app_length' (le_bytes 4 x)). by rewrite le_bytes_length.
  - rewrite <-(IH k Hk). unfold slice. f_equal.
    replace (Z.to_nat (4 * Z.of_nat (S k))) with (length (le_bytes 4 y) + Z.to_nat (4 * Z.of_nat k))%nat
      by (rewrite le_bytes_length; lia).
    by rewrite drop_app_add'.
Qed.

(** Arithmetic over the lengths of blocks that have been stored into. *)
Ltac len_lia := repeat (rewrite put_le_length by len_lia); lia.

(** An in-memory inode whose fields fit their types. *)
Record inode_fits (i : inode) : Prop := {
  fit_type : - 2 ^ 15 <= i_type i < 2 ^ 15;
  fit_major : - 2 ^ 15 <= i_major i < 2 ^ 15;
  fit_minor : - 2 ^ 15 <= i_minor i < 2 ^ 15;
  fit_nlink : - 2 ^ 15 <= i_nlink i < 2 ^ 15;
  fit_size : 0 <= i_size i < 2 ^ 32;
  fit_addrs : length (i_addrs i) = Z.to_nat (NDIRECT + 1);
  fit_addr : Forall (fun a => 0 <= a < 2 ^ 32) (i_addrs i);
}.

Lemma di_off_bound inum : 0 <= di_off inum /\ di_off inum + sizeof_dinode <= BSIZE.
Proof.
  unfold di_off. pose proof (Z.mod_pos_bound inum IPB ltac:(by compute)) as Hb.
  change IPB with 16 in *. change sizeof_dinode with 64. unfold BSIZE. lia.
Qed.

Lemma i16_mod v : - 2 ^ 15 <= v < 2 ^ 15 -> i16 (v mod 2 ^ 16) = v.
Proof.
  intros Hv. unfold swrap. rewrite <-Zplus_mod_idemp_l, Zmod_mod, Zplus_mod_idemp_l.
  rewrite Z.mod_small; simpl (2 ^ (16 - 1)); lia.
Qed.

(** The stores of [dinode_put] from the inside out. *)
Lemma dinode_put_spec inum i d :
  Z.of_nat (length d) = BSIZE -> length (i_addrs i) = Z.to_nat (NDIRECT + 1) ->
  let o := di_off inum in let d' := dinode_put inum i d in
  Z.of_nat (length d') = BSIZE /\
  get_le o 2 d' = i_type i mod 2 ^ 16 /\ get_le (o + 2) 2 d' = i_major i mod 2 ^ 16 /\
  get_le (o + 4) 2 d' = i_minor i mod 2 ^ 16 /\ get_le (o + 6) 2 d' = i_nlink i mod 2 ^ 16 /\
  get_le (o + 8) 4 d' = i_size i mod 2 ^ 32 /\
  (forall k, 0 <= k <= NDIRECT ->
     get_le (o + 12 + 4 * k) 4 d' = i_addrs i !!! Z.to_nat k mod 2 ^ 32) /\
  (forall off n, 0 <= off -> 0 <= n -> off + n <= o \/ o + sizeof_dinode <= off ->
     get_le off n d' = get_le off n d).
Proof.
  intros Hd Ha o d'. destruct (di_off_bound inum) as [H0 H1]. fold o in H0, H1.
  pose proof (addrs_bytes_length (i_addrs i)) as Hal. rewrite Ha in Hal.
  unfold d', dinode_put, put_16, put_32. fold o.
  set (d0 := put_le (o + 6) 2 _ _). set (d1 := put_le (o + 8) 4 _ d0).
  change sizeof_dinode with 64 in *. unfold NDIRECT, BSIZE in *.
  assert (L0 : Z.of_nat (length d0) = 1024).
  { unfold d0. len_lia. }
  assert (L1 : Z.of_nat (length d1) = 1024).
  { unfold d1. len_lia. }
  assert (Hlow : forall off n, 0 <= off -> 0 <= n -> off + n <= o + 12 \/ o + 64 <= off ->
    get_le off n (splice (o + 12) (addrs_bytes (i_addrs i)) d1) = get_le off n d1).
  { intros off n Ho Hn Hor. unfold get_le. f_equal. apply slice_splice_disjoint; lia. }
  split_and!.
  - rewrite splice_length; lia.
  - rewrite Hlow by lia. unfold d1, d0.
    rewrite !get_put_disjoint by len_lia.
    by rewrite get_put_same by lia.
  - rewrite Hlow by lia. unfold d1, d0.
    do 3 rewrite get_put_disjoint by len_lia.
    by rewrite get_put_same by len_lia.
  - rewrite Hlow by lia. unfold d1, d0.
    do 2 rewrite get_put_disjoint by len_lia.
    by rewrite get_put_same by len_lia.
  - rewrite Hlow by lia. unfold d1.
    rewrite get_put_disjoint by lia. unfold d0.
    by rewrite get_put_same by len_lia.
  - rewrite Hlow by lia. unfold d1. by rewrite get_put_same by lia.
  - intros k Hk. unfold get_le. rewrite slice_splice_inside by lia.
    replace (4 * k) with (4 * Z.of_nat (Z.to_nat k)) by lia.
    rewrite (addrs_bytes_get _ _ (i_addrs i !!! Z.to_nat k)).
    + by rewrite le_val_bytes.
    + apply list_lookup_lookup_total_lt. lia.
  - intros off n Ho Hn Hor. rewrite Hlow by lia. unfold d1, d0.
    by rewrite !get_put_disjoint by len_lia.
Qed.

(** Two inodes of one block do not overlap. *)
Lemma di_off_disjoint i j :
  i mod IPB <> j mod IPB ->
  di_off i + sizeof_dinode <= di_off j \/ di_off j + sizeof_dinode <= di_off i.
Proof. unfold di_off. change sizeof_dinode with 64. lia. Qed.

Lemma dinode_load_ext inum d d' i :
  (forall off n, di_off inum <= off -> 0 <= n -> off + n <= di_off inum + sizeof_dinode ->
     get_le off n d' = get_le off n d) ->
  dinode_load inum d' i = dinode_load inum d i.
Proof.
  intros E. change sizeof_dinode with 64 in E.
  unfold dinode_load, di_addrs, di_size, di_nlink, di_minor, di_major, di_type, get_i16, get_u32.
  rewrite !E by lia.
  f_equal. apply list_fmap_ext. intros k x Hx.
  assert (0 <= x < NDIRECT + 1) by (apply elem_of_upto; by eapply list_elem_of_lookup_2).
  unfold NDIRECT in *. apply E; lia.
Qed.

(** ** Bitmaps *)

(** A bitmap block, bit by bit. *)
Lemma bit_used_testbit bi d :
  0 <= bi -> bit_used bi d = Z.testbit (bit_byte bi d) (bi mod 8).
Proof.
  intros Hb. unfold bit_used. pose proof (Z.mod_pos_bound bi 8 ltac:(lia)) as Hm.
  rewrite Z.shiftl_1_l. destruct (Z.testbit (bit_byte bi d) (bi mod 8)) eqn:E.
  - apply negb_true_iff, Z.eqb_neq. intros H.
    assert (Z.testbit (Z.land (bit_byte bi d) (2 ^ (bi mod 8))) (bi mod 8) = true) as Ht.
    { rewrite Z.land_spec, E, Z.pow2_bits_true by lia. done. }
    rewrite H, Z.bits_0 in Ht. done.
  - apply negb_false_iff, Z.eqb_eq. apply Z.bits_inj'. intros k Hk.
    rewrite Z.land_spec, Z.pow2_bits_eqb, Z.bits_0 by lia.
    destruct (Z.eqb_spec (bi mod 8) k) as [<-|]; [by rewrite E|by rewrite andb_false_r].
Qed.

Lemma bit_byte_insert bi bj v d :
  0 <= bi -> 0 <= bj -> bj < 8 * Z.of_nat (length d) ->
  bit_byte bi (<[Z.to_nat (bj / 8) := v]> d) = if decide (bi / 8 = bj / 8) then v else bit_byte bi d.
Proof.
  intros Hi Hj Hl. unfold bit_byte. pose proof (Z.div_pos bj 8 Hj ltac:(lia)).
  pose proof (Z.div_pos bi 8 Hi ltac:(lia)). case_decide as E.
  - rewrite E. apply list_lookup_total_insert_eq.
    assert (bj / 8 < Z.of_nat (length d)) by (apply Z.div_lt_upper_bound; lia). lia.
  - by rewrite list_lookup_total_insert_ne by lia.
Qed.

Lemma same_bit bi bj : bi / 8 = bj / 8 -> bi mod 8 = bj mod 8 -> bi = bj.
Proof. intros. rewrite (Z.div_mod bi 8), (Z.div_mod bj 8) by lia. lia. Qed.

Lemma bit_used_set bi bj d :
  0 <= bi -> 0 <= bj < 8 * Z.of_nat (length d) ->
  bit_used bi (bit_set bj d) = if decide (bi = bj) then true else bit_used bi d.
Proof.
  intros Hi Hj. rewrite !bit_used_testbit by done. unfold bit_set.
  rewrite bit_byte_insert by lia. pose proof (Z.mod_pos_bound bj 8 ltac:(lia)).
  pose proof (Z.mod_pos_bound bi 8 ltac:(lia)). rewrite Z.shiftl_1_l.
  case_decide as E; case_decide as E'; subst; try done.
  - by rewrite Z.lor_spec, Z.pow2_bits_true, orb_true_r by lia.
  - rewrite Z.lor_spec, Z.pow2_bits_false by (intros E2; apply E'; by apply same_bit).
    rewrite orb_false_r. unfold bit_byte. by rewrite E.
Qed.

Lemma bit_used_clear bi bj d :
  0 <= bi -> 0 <= bj < 8 * Z.of_nat (length d) ->
  bit_used bi (bit_clear bj d) = if decide (bi = bj) then false else bit_used bi d.
Proof.
  intros Hi Hj. rewrite !bit_used_testbit by done. unfold bit_clear.
  rewrite bit_byte_insert by lia. pose proof (Z.mod_pos_bound bj 8 ltac:(lia)).
  pose proof (Z.mod_pos_bound bi 8 ltac:(lia)). rewrite Z.shiftl_1_l.
  case_decide as E; case_decide as E'; subst; try done.
  - by rewrite Z.land_spec, Z.lnot_spec, Z.pow2_bits_true, andb_false_r by lia.
  - rewrite Z.land_spec, Z.lnot_spec, Z.pow2_bits_false by
      (lia || (intros E2; apply E'; by apply same_bit)).
    rewrite andb_true_r. unfold bit_byte. by rewrite E.
Qed.

Lemma find_free_spec n d b bi size :
  0 <= bi ->
  match find_free n d b bi size with
  | Some bj => bi <= bj < BPB /\ b + bj < size /\ bit_used bj d = false /\
      forall k, bi <= k < bj -> bit_used k d = true
  | None => forall k, bi <= k < bi + Z.of_nat n -> k < BPB -> b + k < size -> bit_used k d = true
  end.
Proof.
  revert bi. induction n as [|n IH]; intros bi Hbi; cbn [find_free]; [intros; lia|].
  destruct (Z.ltb_spec bi BPB); cbn [andb]; [|intros; lia].
  destruct (Z.ltb_spec (b + bi) size); [|intros; lia].
  destruct (bit_used bi d) eqn:E; cbn [negb].
  - specialize (IH (bi + 1) ltac:(lia)). destruct (find_free n d b (bi + 1) size) as [bj|].
    + destruct IH as (H1 & H2 & H3 & H4). split_and!; [lia|lia|done|done|].
      intros k Hk. destruct (decide (k = bi)) as [->|]; [done|apply H4; lia].
    + intros k Hk H1 H2. destruct (decide (k = bi)) as [->|]; [done|apply IH; lia].
  - split_and!; [lia|lia|done|done|intros; lia].
Qed.

(** ** Paths *)

(** The elements of a path: the maximal runs without a slash. *)
Fixpoint elements (path : list Z) : list (list Z) :=
  match path with
  | [] => []
  | c :: path' =>
      if c =? 47 then elements path'
      else
        match path' with
        | [] => [[c]]
        | d :: _ =>
            if d =? 47 then [c] :: elements path'
            else match elements path' with
                 | e :: es => (c :: e) :: es
                 | [] => [[c]]
                 end
        end
  end.

Lemma elements_skip path : elements (skip_slashes path) = elements path.
Proof.
  induction path as [|c path IH]; [done|]. cbn [skip_slashes].
  destruct (c =? 47) eqn:E; [|done]. rewrite IH. cbn [elements]. by rewrite E.
Qed.

Lemma skip_slashes_hd path : hd 0 (skip_slashes path) <> 47.
Proof.
  induction path as [|c path IH]; cbn [skip_slashes]; [simpl; lia|].
  destruct (Z.eqb_spec c 47); [done|]. simpl. lia.
Qed.

(** The first run and what follows it. *)
Lemma elements_take c path :
  c <> 47 -> let '(s, rest) := take_elem (c :: path) in
  elements (c :: path) = s :: elements rest /\ s <> [] /\
  (forall x, x ∈ s -> x <> 47 /\ x ∈ c :: path) /\
  (length rest + length s = S (length path))%nat.
Proof.
  revert c. induction path as [|d path IH]; intros c Hc.
  - cbn. replace (c =? 47) with false by lia. cbn. split_and!; [done|done| |done].
    intros x Hx%list_elem_of_singleton. subst. split; [done|left].
  - cbn [take_elem]. replace (c =? 47) with false by lia.
    destruct (Z.eqb_spec d 47) as [->|Hd].
    + cbn [elements]. replace (c =? 47) with false by lia. cbn. split_and!; [done|done| |lia].
      intros x Hx%list_elem_of_singleton. subst. split; [done|left].
    + specialize (IH d Hd). cbn [take_elem] in IH. replace (d =? 47) with false in IH by lia.
      destruct (take_elem path) as [s rest]. destruct IH as (E & Hs & Hin & Hlen).
      cbn [elements] in *. replace (c =? 47) with false by lia.
      replace (d =? 47) with false in * by lia.
      rewrite E. split_and!; [done|done| |simpl in *; lia].
      intros x [->|Hx]%elem_of_cons; [split; [done|left]|].
      destruct (Hin x Hx). split; [done|by right].
Qed.

(** The name in an array of [DIRSIZ] characters. *)
Definition name_of (name : list Z) : list Z := cstring name.

(** ** Directory entries *)

Lemma cstr_write m p l :
  p + Z.of_nat (length l) < p + PGSIZE -> m (p + Z.of_nat (length l)) = 0 ->
  cstr (write_bytes m p l) p (cstring l).
Proof.
  revert m p. induction l as [|c l IH]; intros m p Hl H0.
  - simpl in *. rewrite Z.add_0_r in H0. by apply cstr_nil.
  - cbn [cstring write_bytes]. destruct (Z.eqb_spec c 0) as [->|Hc].
    + apply cstr_nil. rewrite write_bytes_spec.
      destruct (in_range_spec (p + 1) (Z.of_nat (length l)) p); [lia|apply upd_eq].
    + apply cstr_cons. split_and!; [|done|].
      * rewrite write_bytes_spec.
        destruct (in_range_spec (p + 1) (Z.of_nat (length l)) p); [lia|apply upd_eq].
      * cbn [length] in *. apply IH; [lia|]. rewrite upd_ne by lia. rewrite <-H0. f_equal. lia.
Qed.

Lemma arrays_cstr s t :
  Z.of_nat (length s) < PGSIZE -> Z.of_nat (length t) < PGSIZE ->
  cstr (arrays s t) 0 (cstring s) /\ cstr (arrays s t) PGSIZE (cstring t).
Proof.
  intros Hs Ht. unfold arrays. split.
  - apply (cstr_ext (write_bytes (fun _ => 0) 0 s)); [|apply cstr_write; [lia|done]].
    intros x Hx. rewrite write_bytes_spec.
    destruct (in_range_spec PGSIZE (Z.of_nat (length t)) x) as [Hin|]; [|done].
    assert (length (cstring s) <= length s)%nat; [|lia].
    clear. induction s as [|c s IH]; cbn; [done|]. case_match; simpl; lia.
  - apply cstr_write; [lia|]. rewrite write_bytes_spec.
    by destruct (in_range_spec 0 (Z.of_nat (length s)) (PGSIZE + Z.of_nat (length t))); [lia|].
Qed.

Lemma namecmp_zero s t :
  Z.of_nat (length s) < PGSIZE -> Z.of_nat (length t) < PGSIZE ->
  namecmp s t = 0 <-> take (Z.to_nat DIRSIZ) (cstring s) = take (Z.to_nat DIRSIZ) (cstring t).
Proof.
  intros Hs Ht. destruct (arrays_cstr s t Hs Ht). by apply strncmp_loop_cstr.
Qed.

(** The bytes [dirlink] leaves in an entry. *)
Lemma de_set_spec name inum de :
  Z.of_nat (length de) = sizeof_dirent -> Z.of_nat (length name) < PGSIZE ->
  de_inum (de_set name inum de) = inum mod 2 ^ 16 /\
  cstring (de_name (de_set name inum de)) = take (Z.to_nat DIRSIZ) (cstring name) /\
  length (de_name (de_set name inum de)) = Z.to_nat DIRSIZ.
Proof.
  intros Hde Hn. unfold de_set, de_inum, de_name, get_u16, put_16.
  change sizeof_dirent with 16 in Hde. unfold DIRSIZ.
  assert (Z.of_nat (length (slice 2 14 de)) < PGSIZE) as Hs.
  { rewrite slice_length by lia. unfold PGSIZE. lia. }
  destruct (arrays_cstr (slice 2 14 de) name Hs Hn) as [_ Hc].
  destruct (strncpy_fills _ 0 PGSIZE 14 (cstring name) ltac:(lia) Hc) as [E _].
  { unfold PGSIZE. lia. }
  set (X := read_bytes _ _ _) in *.
  assert (HX : length X = 14%nat) by apply read_bytes_length.
  assert (HL : Z.of_nat (length (splice 2 X de)) = 16).
  { rewrite splice_length; rewrite ?HX; lia. }
  assert (HXs : slice 2 14 (put_le 0 2 inum (splice 2 X de)) = X).
  { unfold put_le. rewrite slice_splice_disjoint by (rewrite ?le_bytes_length; lia).
    pose proof (slice_splice_same 2 X de ltac:(lia) ltac:(rewrite HX; lia)) as Es.
    by rewrite HX in Es. }
  rewrite HXs. split_and!; [by rewrite get_put_same by lia| |done].
  rewrite E. clear. change (Z.to_nat 14) with 14%nat.
  assert (Hc : forall k (l : list Z), Forall (fun b => b <> 0) l ->
    cstring (take k (l ++ replicate 14 0)) = take k l).
  { intros k l Hl. rewrite take_app. destruct (decide (k <= length l)%nat) as [Hk|Hk].
    - replace (k - length l)%nat with 0%nat by lia. rewrite take_0, app_nil_r.
      apply cstring_nonzero. by apply Forall_take.
    - rewrite (take_ge l) by lia. destruct (k - length l)%nat eqn:E; [lia|].
      by apply cstring_app_nul. }
  apply Hc. induction name as [|c name IH]; cbn; [done|].
  destruct (Z.eqb_spec c 0); by constructor.
Qed.

(** Loading an inode that was stored. *)
Lemma dinode_put_load (inum : Z) (i i' : inode) (d : block) :
  inode_fits i -> Z.of_nat (length d) = BSIZE ->
  dinode_load inum (dinode_put inum i d) i' =
    set_i_addrs (i_addrs i) (set_i_size (i_size i) (set_i_nlink (i_nlink i)
      (set_i_minor (i_minor i) (set_i_major (i_major i) (set_i_type (i_type i) i'))))) /\
  forall inum', inum' mod IPB <> inum mod IPB ->
    dinode_load inum' (dinode_put inum i d) i' = dinode_load inum' d i'.
Proof.
  intros [Ht Hmaj Hmin Hnl Hsz Ha Hav] Hd.
  destruct (dinode_put_spec inum i d Hd Ha) as (_ & E1 & E2 & E3 & E4 & E5 & E6 & E7). split.
  - unfold dinode_load, di_addrs, di_size, di_nlink, di_minor, di_major, di_type, get_i16, get_u32.
    rewrite E1, E2, E3, E4, E5, !i16_mod, Z.mod_small by done. f_equal.
    apply list_eq. intros k. rewrite list_lookup_fmap.
    destruct (decide (k < Z.to_nat (NDIRECT + 1))%nat) as [Hk|Hk].
    + replace k with (Z.to_nat (Z.of_nat k)) at 1 by lia.
      rewrite upto_lookup by lia. cbn [fmap option_fmap option_map].
      rewrite E6, Nat2Z.id by lia.
      rewrite (list_lookup_lookup_total_lt (i_addrs i) k) by lia. f_equal.
      apply Z.mod_small. apply (Forall_lookup_1 _ _ k _ Hav).
      apply list_lookup_lookup_total_lt. lia.
    + rewrite (lookup_ge_None_2 (i_addrs i)) by lia.
      rewrite lookup_ge_None_2; [done|]. unfold upto. rewrite length_fmap, length_seq. lia.
  - intros inum' Hne. apply dinode_load_ext. intros off n Ho Hn Hle. apply E7; [|done|].
    + destruct (di_off_bound inum'). lia.
    + pose proof (di_off_disjoint inum' inum Hne). lia.
Qed.

(** What [skipelem] leaves in [name] and of the path. *)
Lemma skipelem_elements (path name : list Z) :
  Forall (fun c => c <> 0) path -> length name = Z.to_nat DIRSIZ ->
  match skipelem path name, elements path with
  | None, [] => True
  | Some (rest, name'), e :: es =>
      cstring name' = take (Z.to_nat DIRSIZ) e /\ length name' = Z.to_nat DIRSIZ /\
      elements rest = es /\ hd 0 rest <> 47 /\ (length rest < length path)%nat
  | _, _ => False
  end.
Proof.
  intros Hp Hn. unfold skipelem.
  assert (Hskip : forall l, (length (skip_slashes l) <= length l)%nat).
  { intros l. induction l as [|c l IH]; cbn [skip_slashes]; [done|]. case_match; simpl; lia. }
  assert (Hz : forall c l, skip_slashes path = c :: l -> Forall (fun c => c <> 0) (c :: l) /\ c <> 47).
  { intros c l E. split.
    - clear -Hp E. induction path as [|a path IH]; [done|]. cbn [skip_slashes] in E.
      case_match; [|by rewrite <-E]. apply IH; [by inversion Hp|done].
    - pose proof (skip_slashes_hd path) as Hh. rewrite E in Hh. done. }
  rewrite <-(elements_skip path). pose proof (Hskip path) as Hlen.
  destruct (skip_slashes path) as [|c p]; [done|].
  destruct (Hz c p eq_refl) as [Hnz Hc].
  pose proof (elements_take c p Hc) as He. destruct (take_elem (c :: p)) as [s rest].
  destruct He as (-> & Hs & Hin & Hl).
  assert (Hs0 : Forall (fun b => b <> 0) s).
  { apply Forall_forall. intros x Hx. destruct (Hin x Hx) as [_ Hx'].
    by apply (Forall_forall (fun b => b <> 0) (c :: p)) in Hx'. }
  rewrite elements_skip. split_and!; [| |done|apply skip_slashes_hd|].
  - destruct (Z.leb_spec DIRSIZ (Z.of_nat (length s))) as [Hd|Hd].
    + rewrite splice_all by (rewrite length_take, Hn; lia).
      apply cstring_nonzero. by apply Forall_take.
    + rewrite (take_ge s) by lia. unfold splice. cbn [Z.to_nat take app].
      rewrite <-app_assoc. by apply cstring_app_nul.
  - destruct (Z.leb_spec DIRSIZ (Z.of_nat (length s))) as [Hd|Hd].
    + rewrite splice_all; rewrite length_take, ?Hn; lia.
    + rewrite splice_length; rewrite ?length_app, ?Hn; cbn [length]; lia.
  - pose proof (Hskip rest). destruct s; [done|]. simpl in *. lia.
Qed.

(** ** Properties *)

(** an inode survives the disk.  [iupdate] and [ilock] are inverse: loading
    an on-disk inode that was stored from memory gives back every field, and storing one inode does not change
    any other inode of the same block. *)
Theorem dinode_roundtrip (inum : Z) (i i' : inode) (d : block) :
  inode_fits i -> Z.of_nat (length d) = BSIZE ->
  dinode_load inum (dinode_put inum i d) i' =
    set_i_addrs (i_addrs i) (set_i_size (i_size i) (set_i_nlink (i_nlink i)
      (set_i_minor (i_minor i) (set_i_major (i_major i) (set_i_type (i_type i) i'))))) /\
  forall inum', inum' mod IPB <> inum mod IPB ->
    dinode_load inum' (dinode_put inum i d) i' = dinode_load inum' d i'.
Proof. apply dinode_put_load. Qed.

Definition demo_inode : inode :=
  set_i_size 3000 (set_i_nlink 1 (set_i_type 2 inode0)).

Lemma dinode_roundtrip_witness :
  i_size (dinode_load 17 (dinode_put 17 demo_inode zero_block) inode0) = 3000.
Proof.
  destruct (dinode_roundtrip 17 demo_inode inode0 zero_block) as [H _].
  - constructor; try (simpl; lia); [reflexivity|].
    apply Forall_replicate. lia.
  - reflexivity.
  - rewrite H. reflexivity.
Defined.

(** [skipelem] takes a path apart.  It returns null exactly if the path has no element;
    otherwise [name] holds the first element, cut off
    after [DIRSIZ] characters, the rest of the path has the remaining elements and starts with none
    of the slashes, and it is shorter. *)
Theorem skipelem_correct (path name : list Z) :
  Forall (fun c => c <> 0) path -> length name = Z.to_nat DIRSIZ ->
  match skipelem path name, elements path with
  | None, [] => True
  | Some (rest, name'), e :: es =>
      cstring name' = take (Z.to_nat DIRSIZ) e /\ length name' = Z.to_nat DIRSIZ /\
      elements rest = es /\ hd 0 rest <> 47 /\ (length rest < length path)%nat
  | _, _ => False
  end.
Proof. apply skipelem_elements. Qed.

(** "a//bb/" *)
Lemma skipelem_correct_witness :
  exists name', skipelem [97; 47; 47; 98; 98; 47] (replicate 14 0) = Some ([98; 98; 47], name') /\
    cstring name' = [97].
Proof.
  pose proof (skipelem_correct [97; 47; 47; 98; 98; 47] (replicate 14 0)
    ltac:(repeat constructor; lia) ltac:(reflexivity)) as H.
  destruct H as (H & _). eexists. split; [reflexivity|exact H].
Defined.

(** A directory entry can be found again.  The entry [dirlink] writes for a
    name carries its inode number, and [namecmp], by which [dirlookup] looks for it, accepts it for exactly the
    names that agree in their first [DIRSIZ] characters. *)
Theorem dirent_found (name name' de : list Z) (inum : Z) :
  Z.of_nat (length de) = sizeof_dirent -> 0 <= inum < 2 ^ 16 ->
  Z.of_nat (length name) < PGSIZE -> Z.of_nat (length name') < PGSIZE ->
  de_inum (de_set name inum de) = inum /\
  (namecmp name' (de_name (de_set name inum de)) = 0 <->
   take (Z.to_nat DIRSIZ) (cstring name') = take (Z.to_nat DIRSIZ) (cstring name)).
Proof.
  intros Hde Hi Hn Hn'. destruct (de_set_spec name inum de Hde Hn) as (E1 & E2 & E3). split.
  - rewrite E1. by apply Z.mod_small.
  - rewrite namecmp_zero; [|done|rewrite E3; unfold DIRSIZ, PGSIZE; lia].
    by rewrite E2, take_take, Nat.min_id.
Qed.

Lemma dirent_found_witness :
  de_inum (de_set [97; 98] 5 (replicate 16 0)) = 5.
Proof.
  apply (dirent_found [97; 98] [97; 98] (replicate 16 0) 5);
    [reflexivity|lia|by compute|by compute].
Defined.
