(* ===== verification/FsBlocks.v ===== *)
(** * Blocks of the file system inside a transaction: balloc and bfree of
      kernel/fs.c *)

From S2P Require Import Prelude Params Memory Kalloc Block State Sched SchedSpec Quiet Kcopy.
From S2P Require Import Uart Dll Bio BioSpec Cache Log LogSpec Crash Fs FsSpec.

(** Process [me] is in a transaction that may still log [k] blocks: the
    cache holds [V], the disk [D], the blocks [L] are logged, the buffers [H]
    held. *)
Record txn (me : nat) (q : proc) (start k : Z) (W : list (Z * block)) (V D : Z -> block)
    (L : gset Z) (H : gmap nat Z) (s : kernel) : Prop := {
  tx_binv : binv me q W V D L H s;
  tx_log : log_inv start L (k_log s);
  tx_out : 1 <= log_outstanding (k_log s);
  tx_size : log_size (k_log s) = LOGSIZE;
  tx_room : lh_n (k_log s) + k <= LOGSIZE - 1;
}.

(** Blocks that can be logged. *)
Definition loggable (start n : Z) : Prop := 0 <= n < 2 ^ 31 /\ home start n.

Section txn.
Context {HF : Fuel} (me : nat) (q : proc) (start : Z).
Abbreviation txn := (txn me q start).

Lemma txn_bframe k W V D L H W' V' D' L' H' s s' :
  txn k W V D L H s -> binv me q W' V' D' L' H' s' -> L' = L -> bframe s s' ->
  txn k W' V' D' L' H' s'.
Proof using.
  intros [_ Hl Ho Hs Hr] Hinv -> F%bframe_log. constructor; rewrite ?F; done.
Qed.

Lemma txn_size k W V D L H s : txn k W V D L H s -> (size L + Z.to_nat k <= 29)%nat \/ k < 0.
Proof using.
  intros [Hinv [_ Hok -> _ _ _] Ho Hs Hr]. pose proof (lset_size _ _ 0 _ Hok).
  unfold LOGSIZE, MAXOPBLOCKS in *. pose proof (lo_n _ _ _ Hok). lia.
Qed.

Lemma txn_weaken k k' W V D L H s : k' <= k -> txn k W V D L H s -> txn k' W V D L H s.
Proof using. intros Hk []. constructor; try done. lia. Qed.

Lemma wp_txn_bread k W V D L H n s (Q : nat -> kernel -> Prop) :
  txn k W V D L H s -> (forall i, H !! i <> Some n) -> n ∈ L \/ Z.of_nat (size H) <= k ->
  (forall b s', txn k W V D L (<[b := n]> H) s' -> H !! b = None -> lframe s s' -> Q b s') ->
  wp (bread ROOTDEV n) s Q.
Proof using.
  intros Ht Hn Hroom HQ. eapply (wp_bread me q); [apply Ht|done| |].
  - destruct Hroom as [?|Hk]; [by left|right]. destruct (txn_size _ _ _ _ _ _ _ Ht) as [Hs|Hs]; [|lia].
    unfold NBUF, MAXOPBLOCKS. lia.
  - intros b s' Hinv Hb F. apply HQ; [|done|by apply lframe_bframe]. by eapply txn_bframe.
Qed.

Lemma wp_txn_bdata k W V D L H b n s (Q : block -> kernel -> Prop) :
  txn k W V D L H s -> H !! b = Some n -> Q (V n) s -> wp (bdata b) s Q.
Proof using. intros Ht Hb HQ. eapply (wp_bdata me q); [apply Ht|done|done]. Qed.

Lemma wp_txn_bdata_set k W V D L H b n g s (Q : unit -> kernel -> Prop) :
  txn k W V D L H s -> H !! b = Some n ->
  (forall s', txn k W (fupd V n (g (V n))) D L H s' -> lframe s s' -> Q tt s') ->
  wp (bdata_set b g) s Q.
Proof using.
  intros Ht Hb HQ. eapply (wp_bdata_set me q); [apply Ht|done|].
  intros s' Hinv F. apply HQ; [|by apply lframe_bframe]. by eapply txn_bframe.
Qed.

Lemma wp_txn_log_write k W V D L H b n s (Q : unit -> kernel -> Prop) :
  txn (k + 1) W V D L H s -> 0 <= k -> H !! b = Some n -> loggable start n ->
  (forall s', txn k W V D ({[n]} ∪ L) H s' -> lframe s s' -> Q tt s') ->
  wp (log_write b) s Q.
Proof using.
  intros [Hinv Hl Ho Hs Hr] Hk Hb [Hn Hh] HQ.
  eapply (wp_log_write me q); [done|done|done|done|done|lia|lia|].
  intros s' Hinv' Hl' E F. apply HQ; [|done]. constructor; try done.
  - rewrite E. by case_decide.
  - rewrite E. by case_decide.
  - rewrite E. case_decide; cbn [lh_n set_lh_n]; lia.
Qed.

Lemma wp_txn_brelse k W V D L H b n s (Q : unit -> kernel -> Prop) :
  txn k W V D L H s -> H !! b = Some n -> n ∈ L \/ V n = D n ->
  (forall s', txn k W V D L (delete b H) s' -> lframe s s' -> Q tt s') ->
  wp (brelse b) s Q.
Proof using.
  intros Ht Hb Hc HQ. eapply (wp_brelse me q); [apply Ht|done|done|].
  intros s' Hinv F. apply HQ; [|by apply lframe_bframe]. by eapply txn_bframe.
Qed.

(** A block that nobody holds is clean or logged. *)
Lemma txn_clean k W V D L H n s :
  txn k W V D L H s -> (forall i, H !! i <> Some n) -> n ∈ L \/ V n = D n.
Proof using.
  intros Ht Hn. destruct (decide (n ∈ L)); [by left|right].
  by apply (binv_clean _ _ _ _ _ _ _ _ (tx_binv _ _ _ _ _ _ _ _ _ _ Ht)).
Qed.

Lemma delete_fresh (b : nat) (n : Z) (H : gmap nat Z) :
  H !! b = None -> delete b (<[b := n]> H) = H.
Proof using. apply delete_insert_id. Qed.

(** ** bzero *)

Lemma wp_bzero k W V D L H n s (Q : unit -> kernel -> Prop) :
  txn (k + 1) W V D L H s -> 0 <= k -> Z.of_nat (size H) <= k + 1 ->
  (forall i, H !! i <> Some n) -> loggable start n ->
  (forall s', txn k W (fupd V n zero_block) D ({[n]} ∪ L) H s' -> lframe s s' -> Q tt s') ->
  wp (bzero ROOTDEV n) s Q.
Proof using.
  intros Ht Hk HH Hn Hl HQ. unfold bzero.
  apply wp_bind. eapply wp_txn_bread; [done|done|by right|]. intros b s1 Ht1 Hb F1.
  assert (Hbn : <[b := n]> H !! b = Some n) by apply lookup_insert_eq.
  apply wp_bind. eapply wp_txn_bdata_set; [done|done|]. intros s2 Ht2 F2.
  apply wp_bind. eapply wp_txn_log_write; [done|done|done|done|]. intros s3 Ht3 F3.
  eapply wp_txn_brelse; [done|done|left; by apply elem_of_union_l, elem_of_singleton|].
  intros s4 Ht4 F4. rewrite delete_fresh in Ht4 by done.
  apply HQ; [exact Ht4|]. eauto using lframe_trans.
Qed.
End txn.

(** ** The bitmap *)

Definition used (sb : superblock) (V : Z -> block) (b : Z) : bool :=
  bit_used (b mod BPB) (V (BBLOCK b sb)).

(** [b] is the first free block. *)
Definition first_free (sb : superblock) (V : Z -> block) (b : Z) : Prop :=
  0 <= b < sb_size sb /\ used sb V b = false /\ forall c, 0 <= c < b -> used sb V c = true.

(** The bitmap blocks are full blocks that can be logged. *)
Definition bitmap_ok (start : Z) (sb : superblock) (V : Z -> block) : Prop :=
  forall b, 0 <= b < sb_size sb ->
    loggable start (BBLOCK b sb) /\ Z.of_nat (length (V (BBLOCK b sb))) = BSIZE.

Lemma BPB_pos : 0 < BPB.
Proof. by compute. Qed.

Lemma BBLOCK_same sb b k :
  b mod BPB = 0 -> 0 <= k < BPB -> BBLOCK (b + k) sb = BBLOCK b sb /\ (b + k) mod BPB = k.
Proof.
  intros Hb Hk. pose proof BPB_pos. unfold BBLOCK.
  apply Z.mod_divide in Hb as [z ->]; [|lia].
  rewrite (Z.add_comm (z * BPB)), Z.div_add, Z.div_small, Z.mod_add, Z.mod_small, Z.div_mul by lia.
  split; [f_equal; lia|done].
Qed.

Section balloc.
Context {HF : Fuel} {HU : UartHw} (me : nat) (q : proc) (start : Z) (sb : superblock).
Abbreviation txn := (txn me q start).

(** The state after [balloc] has taken block [b]. *)
Definition alloc_block (V : Z -> block) (b : Z) : Z -> block :=
  fupd (fupd V (BBLOCK b sb) (bit_set (b mod BPB) (V (BBLOCK b sb)))) b zero_block.

Lemma wp_balloc k W V D L H s fb (Q : Z -> kernel -> Prop) :
  txn (k + 2) W V D L H s -> 0 <= k -> Z.of_nat (size H) <= k + 1 ->
  k_sb s = sb -> bitmap_ok start sb V -> first_free sb V fb -> loggable start fb ->
  (forall b i, 0 <= b < sb_size sb -> H !! i <> Some (BBLOCK b sb)) ->
  (forall i, H !! i <> Some fb) ->
  (forall s', txn k W (alloc_block V fb) D ({[fb]} ∪ ({[BBLOCK fb sb]} ∪ L)) H s' ->
     lframe s s' -> Q fb s') ->
  wp (balloc ROOTDEV) s Q.
Proof using.
  intros Ht Hk HH Hsb Hbm (Hfb & Hfree & Hused) Hlog HnB Hnfb HQ. unfold balloc.
  pose proof BPB_pos as HBP.
  apply wp_bind, wp_gets. rewrite Hsb. apply wp_bind.
  apply (wp_loop (fun b s' => txn (k + 2) W V D L H s' /\ lframe s s' /\
      0 <= b <= fb /\ b mod BPB = 0)
    (fun b => Z.to_nat ((sb_size sb - b) / BPB))).
  - intros b s1 (Ht1 & F1 & Hb & Hmod).
    destruct (Z.ltb_spec b (sb_size sb)); [|lia].
    destruct (Hbm b ltac:(lia)) as [Hlb Hlen].
    apply wp_bind. eapply (wp_txn_bread me q); [done|intros i; apply HnB; lia|right; lia|].
    intros bp s2 Ht2 Hbp F2.
    assert (Hbb : <[bp := BBLOCK b sb]> H !! bp = Some (BBLOCK b sb)) by apply lookup_insert_eq.
    apply wp_bind. eapply (wp_txn_bdata me q); [done|done|].
    pose proof (find_free_spec (Z.to_nat BPB) (V (BBLOCK b sb)) b 0 (sb_size sb) ltac:(lia)) as Hff.
    destruct (find_free _ _ _ _ _) as [bi|].
    + destruct Hff as (Hbi & Hsz & Hu & Hall).
      destruct (BBLOCK_same sb b bi Hmod ltac:(lia)) as [EB EM].
      assert (b + bi = fb) as E.
      { destruct (Z.lt_trichotomy (b + bi) fb) as [Hlt|[?|Hgt]]; [|done|].
        - specialize (Hused (b + bi) ltac:(lia)). unfold used in Hused.
          rewrite EB, EM in Hused. congruence.
        - destruct (BBLOCK_same sb b (fb - b) Hmod ltac:(lia)) as [EB' EM'].
          unfold used in Hfree. replace fb with (b + (fb - b)) in Hfree by lia.
          rewrite EB', EM', Hall in Hfree by lia. done. }
      rewrite E in *. rewrite <-EB in *.
      apply wp_bind. eapply (wp_txn_bdata_set me q); [done|done|]. intros s3 Ht3 F3.
      replace (k + 2) with (k + 1 + 1) in Ht3 by lia.
      apply wp_bind. eapply (wp_txn_log_write me q); [done|lia|done|done|]. intros s4 Ht4 F4.
      apply wp_bind. eapply (wp_txn_brelse me q);
        [done|done|left; by apply elem_of_union_l, elem_of_singleton|].
      intros s5 Ht5 F5. rewrite delete_fresh in Ht5 by done.
      apply wp_bind. eapply (wp_bzero me q); [done|done|lia|done|done|].
      intros s6 Ht6 F6. apply wp_ret, wp_ret. apply HQ.
      * unfold alloc_block. by rewrite EM.
      * eauto 10 using lframe_trans.
    + assert (b + BPB <= fb) as Hnext.
      { destruct (Z.le_gt_cases (b + BPB) fb) as [|Hgt]; [done|].
        destruct (BBLOCK_same sb b (fb - b) Hmod ltac:(lia)) as [EB' EM'].
        unfold used in Hfree. replace fb with (b + (fb - b)) in Hfree by lia.
        rewrite EB', EM', Hff in Hfree by lia. done. }
      apply wp_bind. eapply (wp_txn_brelse me q); [done|done| |].
      { eapply txn_clean; [exact Ht1|]. intros i. apply HnB. lia. }
      intros s3 Ht3 F3. rewrite delete_fresh in Ht3 by done. apply wp_ret.
      split; [split_and!; [done|eauto using lframe_trans|lia|lia|]|].
      * rewrite <-Z.add_mod_idemp_r, Z.mod_same, Z.add_0_r by lia. done.
      * replace (sb_size sb - b) with (sb_size sb - (b + BPB) + 1 * BPB) by lia.
        rewrite Z.div_add by lia.
        pose proof (Z.div_pos (sb_size sb - (b + BPB)) BPB ltac:(lia) HBP). lia.
  - split_and!; [done|apply lframe_refl|lia|lia|by apply Z.mod_0_l; lia].
  - rewrite Z.sub_0_r. pose proof (Z.div_pos (sb_size sb) BPB ltac:(lia) HBP). lia.
Qed.
End balloc.

(** ** Properties *)

(** Two blocks with the same bit of the same bitmap block are the same. *)
Lemma bitmap_inj start sb V b c :
  bitmap_ok start sb V -> sb_size sb + sb_bmapstart sb < 2 ^ 32 -> 0 <= sb_bmapstart sb ->
  0 <= b < sb_size sb -> 0 <= c < sb_size sb ->
  BBLOCK b sb = BBLOCK c sb -> b mod BPB = c mod BPB -> b = c.
Proof.
  intros _ Hsz Hbs Hb Hc E Em. pose proof BPB_pos. unfold BBLOCK in E.
  assert (Hd : forall x, 0 <= x < sb_size sb -> 0 <= x / BPB <= x).
  { intros x Hx. split; [apply Z.div_pos; lia|apply Z.div_le_upper_bound; nia]. }
  pose proof (Hd b Hb). pose proof (Hd c Hc).
  rewrite !uwrap_small in E by lia.
  rewrite (Z.div_mod b BPB), (Z.div_mod c BPB) by lia. rewrite Em. f_equal. f_equal. lia.
Qed.

Lemma mod_BPB_bits b (d : block) : Z.of_nat (length d) = BSIZE -> 0 <= b mod BPB < 8 * Z.of_nat (length d).
Proof.
  intros ->. pose proof (Z.mod_pos_bound b BPB BPB_pos). change (8 * BSIZE) with BPB. done.
Qed.

(** C16: [balloc] is first fit.  In a transaction with room for two more blocks it returns the first
    free block, now marked used in the bitmap and filled with zeroes; no other block's bit
    and no other block changes, and both changes are logged. *)
Theorem balloc_first_fit {HF : Fuel} {HU : UartHw} me q start k W V D L H s fb :
  let sb := k_sb s in
  txn me q start (k + 2) W V D L H s -> 0 <= k -> Z.of_nat (size H) <= k + 1 ->
  bitmap_ok start sb V -> sb_size sb + sb_bmapstart sb < 2 ^ 32 -> 0 <= sb_bmapstart sb ->
  first_free sb V fb -> loggable start fb ->
  (forall b, 0 <= b < sb_size sb -> fb <> BBLOCK b sb) ->
  (forall b i, 0 <= b < sb_size sb -> H !! i <> Some (BBLOCK b sb)) ->
  (forall i, H !! i <> Some fb) ->
  exists s' V', balloc ROOTDEV s = Done fb s' /\
    txn me q start k W V' D ({[fb]} ∪ ({[BBLOCK fb sb]} ∪ L)) H s' /\
    V' fb = zero_block /\
    (forall b, 0 <= b < sb_size sb ->
       used sb V' b = if decide (b = fb) then true else used sb V b) /\
    (forall n, n <> fb -> n <> BBLOCK fb sb -> V' n = V n).
Proof.
  intros sb Ht Hk HH Hbm Hsz Hbs Hff Hlog Hnb HnB Hnfb.
  assert (wp (balloc ROOTDEV) s (fun r s' => r = fb /\
    txn me q start k W (alloc_block sb V fb) D ({[fb]} ∪ ({[BBLOCK fb sb]} ∪ L)) H s'))
    as (r & s' & Hrun & -> & Ht').
  { eapply (wp_balloc me q start sb); try done. }
  exists s', (alloc_block sb V fb). pose proof Hff as (Hfb & _ & _).
  split_and!; [done|done|apply fupd_eq| |].
  - intros b Hb. unfold used, alloc_block. rewrite fupd_ne by (intros E; by apply (Hnb b Hb)).
    destruct (Hbm b Hb) as [_ Hlen]. destruct (Hbm fb Hfb) as [_ Hlenf].
    pose proof (Z.mod_pos_bound b BPB BPB_pos).
    destruct (decide (BBLOCK b sb = BBLOCK fb sb)) as [E|E].
    + rewrite E, fupd_eq, bit_used_set by (lia || by apply mod_BPB_bits).
      case_decide as E2; case_decide as E3; subst; try done.
      destruct E3. by eapply (bitmap_inj start sb V).
    + rewrite fupd_ne by done. rewrite decide_False; [done|]. by intros ->.
  - intros n H1 H2. unfold alloc_block. by rewrite !fupd_ne.
Qed.

(** [bfree] clears the bit of a used block and changes nothing else; it panics on a
    block that is free already. *)
Theorem bfree_correct {HF : Fuel} me q start k W V D L H s b :
  let sb := k_sb s in
  txn me q start (k + 1) W V D L H s -> 0 <= k -> Z.of_nat (size H) <= k + 1 ->
  bitmap_ok start sb V -> sb_size sb + sb_bmapstart sb < 2 ^ 32 -> 0 <= sb_bmapstart sb ->
  0 <= b < sb_size sb -> (forall i, H !! i <> Some (BBLOCK b sb)) ->
  if used sb V b
  then exists s' V', bfree ROOTDEV b s = Done tt s' /\
    txn me q start k W V' D ({[BBLOCK b sb]} ∪ L) H s' /\
    (forall c, 0 <= c < sb_size sb ->
       used sb V' c = if decide (c = b) then false else used sb V c) /\
    (forall n, n <> BBLOCK b sb -> V' n = V n)
  else bfree ROOTDEV b s = Panic "freeing free block".
Proof.
  intros sb Ht Hk HH Hbm Hsz Hbs Hb HnB. destruct (Hbm b Hb) as [Hlog Hlen].
  unfold bfree. fold sb.
  assert (wp (bread ROOTDEV (BBLOCK b sb)) s (fun bp s1 =>
    txn me q start (k + 1) W V D L (<[bp := BBLOCK b sb]> H) s1 /\ H !! bp = None))
    as (bp & s1 & Hrun & Ht1 & Hbp).
  { eapply (wp_txn_bread me q); [done|done|right; lia|]. done. }
  assert (Hbb : <[bp := BBLOCK b sb]> H !! bp = Some (BBLOCK b sb)) by apply lookup_insert_eq.
  assert (Hd : bdata bp s1 = Done (V (BBLOCK b sb)) s1).
  { assert (wp (bdata bp) s1 (fun d s' => d = V (BBLOCK b sb) /\ s' = s1))
      as (d & s' & Hr & -> & ->) by by eapply (wp_txn_bdata me q). done. }
  rewrite (bind_done _ _ _ sb s) by done.
  rewrite (bind_done _ _ _ _ _ Hrun), (bind_done _ _ _ _ _ Hd).
  unfold used at 1. destruct (bit_used (b mod BPB) (V (BBLOCK b sb))) eqn:Eu; cbn [negb].
  2:{ by apply bind_panic. }
  rewrite (bind_done _ _ _ tt s1) by done.
  set (V' := fupd V (BBLOCK b sb) (bit_clear (b mod BPB) (V (BBLOCK b sb)))).
  assert (wp (bdata_set bp (bit_clear (b mod BPB)) ;; log_write bp ;; brelse bp) s1 (fun _ s' =>
    txn me q start k W V' D ({[BBLOCK b sb]} ∪ L) H s')) as ([] & s' & Hrun' & Ht').
  { apply wp_bind. eapply (wp_txn_bdata_set me q); [done|done|]. intros s2 Ht2 _.
    apply wp_bind. eapply (wp_txn_log_write me q); [done|done|done|done|]. intros s3 Ht3 _.
    eapply (wp_txn_brelse me q); [done|done|left; by apply elem_of_union_l, elem_of_singleton|].
    intros s4 Ht4 _. by rewrite delete_fresh in Ht4. }
  exists s', V'. split_and!; [done|done| |intros n Hn; by apply fupd_ne].
  intros c Hc. unfold used, V'. destruct (Hbm c Hc) as [_ Hlenc].
  pose proof (Z.mod_pos_bound c BPB BPB_pos).
  destruct (decide (BBLOCK c sb = BBLOCK b sb)) as [E|E].
  - rewrite E, fupd_eq, bit_used_clear by (lia || by apply mod_BPB_bits).
    case_decide as E2; case_decide as E3; subst; try done.
    destruct E3. by eapply (bitmap_inj start sb V).
  - rewrite fupd_ne by done. rewrite decide_False; [done|]. by intros ->.
Qed.

(** ** A file system with a transaction under way

    200 blocks, the bitmap in block 45, of which the first 48 are in use. *)
#[local] Existing Instance demo_fuel.
#[local] Instance demo_uart : UartHw := fun _ => 0%nat.

Definition fs_sb : superblock := Superblock FSMAGIC 200 100 16 LOGSIZE 2 33 45.
Definition fs_bitmap : block := replicate 6 255 ++ replicate (Z.to_nat BSIZE - 6) 0.
Definition fs_disk : gmap Z block := {[ 45 := fs_bitmap ]}.
Definition fs_txn : kernel := after begin_op (boot_on fs_disk fs_sb).

Lemma fs_txn_ok :
  txn 1 demo_proc 2 29 [] (contents fs_disk) (contents fs_disk) ∅ ∅ fs_txn /\ k_sb fs_txn = fs_sb.
Proof.
  destruct (boot_on_ok fs_disk fs_sb) as ((Hinv & _) & Hw & Hl & Hsb). rewrite Hw in Hinv.
  unfold fs_txn. apply (wp_after _ _ (fun s =>
    txn 1 demo_proc 2 29 [] (contents fs_disk) (contents fs_disk) ∅ ∅ s /\ k_sb s = fs_sb)).
  eapply (wp_begin_op 1 demo_proc _ _ _ _ 2);
    [done|rewrite Hl; apply demo_log_inv|rewrite Hl; cbn; unfold LOGSIZE, MAXOPBLOCKS; lia|].
  rewrite Hl. intros s1 Hinv1 Hl1 F1. split; [|rewrite (lframe_sb _ _ F1); exact Hsb].
  constructor; rewrite ?Hl1; [done|apply log_inv_outstanding, demo_log_inv|cbn; lia|done|].
  cbn. unfold LOGSIZE, MAXOPBLOCKS. lia.
Qed.

Lemma fs_bblock b : 0 <= b < 200 -> BBLOCK b fs_sb = 45.
Proof.
  intros Hb. unfold BBLOCK. rewrite Z.div_small by (change BPB with 8192; lia). done.
Qed.

Lemma fs_bitmap_ok : bitmap_ok 2 fs_sb (contents fs_disk).
Proof.
  intros b Hb. cbn [sb_size fs_sb] in Hb. rewrite fs_bblock by done. split.
  - unfold loggable, home, LOGSIZE, MAXOPBLOCKS. lia.
  - by vm_compute.
Qed.

Lemma fs_first_free : first_free fs_sb (contents fs_disk) 48.
Proof.
  split_and!; [cbn; lia|cbn; lia|by vm_compute|].
  intros c Hc. unfold used. rewrite fs_bblock by lia.
  assert (forallb (fun c => bit_used (c mod BPB) (contents fs_disk 45)) (upto 48) = true) as Hall
    by by vm_compute.
  rewrite forallb_forall in Hall. apply Hall, list_elem_of_In, elem_of_upto. lia.
Qed.

Lemma balloc_first_fit_witness : exists s', balloc ROOTDEV fs_txn = Done 48 s'.
Proof.
  destruct fs_txn_ok as [Ht Hsb].
  destruct (balloc_first_fit 1 demo_proc 2 27 [] (contents fs_disk) (contents fs_disk) ∅ ∅ fs_txn 48)
    as (s' & V' & H & _); rewrite ?Hsb.
  - exact Ht.
  - lia.
  - rewrite map_size_empty. lia.
  - exact fs_bitmap_ok.
  - cbn. lia.
  - cbn. lia.
  - exact fs_first_free.
  - unfold loggable, home, LOGSIZE, MAXOPBLOCKS. lia.
  - intros b Hb. cbn in Hb. rewrite fs_bblock by done. lia.
  - done.
  - done.
  - exists s'. exact H.
Defined.

Lemma bfree_correct_witness :
  exists s', bfree ROOTDEV 40 fs_txn = Done tt s'.
Proof.
  destruct fs_txn_ok as [Ht Hsb].
  pose proof (bfree_correct 1 demo_proc 2 28 [] (contents fs_disk) (contents fs_disk) ∅ ∅ fs_txn 40)
    as H. cbv zeta in H. rewrite Hsb in H.
  specialize (H Ht ltac:(lia) ltac:(rewrite map_size_empty; lia) fs_bitmap_ok
    ltac:(cbn; lia) ltac:(cbn; lia) ltac:(cbn; lia) ltac:(done)).
  assert (used fs_sb (contents fs_disk) 40 = true) as Eu by by vm_compute.
  rewrite Eu in H. destruct H as (s' & V' & H & _). exists s'. exact H.
Defined.
