(* ===== verification/FsContent.v ===== *)
(** * The content of files: bmap and readi of kernel/fs.c *)

From S2P Require Import Prelude Params Memory Kalloc Block State Sched SchedSpec Quiet Kcopy.
From S2P Require Import Uart Dll Bio BioSpec Cache Log LogSpec Crash Fs FsSpec.

Abbreviation inodes s := (it_inode (k_it s)).

Lemma bframe_it s s' : bframe s s' -> k_it s' = k_it s.
Proof. unfold bframe. by intros ->. Qed.

Lemma iget__eq {A} ip (f : inode -> A) s i :
  inodes s !! ip = Some i -> iget_ ip f s = Done (f i) s.
Proof.
  intros Hi. unfold iget_, getf, inodeL, nthL, lcomp, gets. simpl. do 2 f_equal.
  by apply list_lookup_total_correct.
Qed.

Lemma wp_iget_ {A} ip (f : inode -> A) s i (Q : A -> kernel -> Prop) :
  inodes s !! ip = Some i -> Q (f i) s -> wp (iget_ ip f) s Q.
Proof. intros Hi. eapply wp_done. by apply iget__eq. Qed.

(** ** Which block holds which part of a file *)

Definition addr_of (i : inode) (bn : Z) : Z := i_addrs i !!! Z.to_nat bn.

Definition file_block (V : Z -> block) (i : inode) (bn : Z) : Z :=
  if bn <? NDIRECT then addr_of i bn
  else get_u32 (4 * (bn - NDIRECT)) (V (addr_of i NDIRECT)).

(** The byte at offset [x]. *)
Definition file_byte (V : Z -> block) (i : inode) (x : Z) : Z :=
  V (file_block V i (x / BSIZE)) !!! Z.to_nat (x mod BSIZE).

Definition file_bytes (V : Z -> block) (i : inode) (off n : Z) : list Z :=
  read_bytes (file_byte V i) off (Z.to_nat n).

(** An inode without holes below its size. *)
Record content_ok (V : Z -> block) (i : inode) : Prop := {
  co_dev : i_dev i = ROOTDEV;
  co_size : 0 <= i_size i <= MAXFILE * BSIZE;
  co_indirect : NDIRECT * BSIZE < i_size i -> addr_of i NDIRECT <> 0;
  co_block : forall bn, 0 <= bn -> bn * BSIZE < i_size i -> file_block V i bn <> 0;
  co_len : forall bn, 0 <= bn -> bn * BSIZE < i_size i ->
    Z.of_nat (length (V (file_block V i bn))) = BSIZE;
}.

Lemma read_bytes_slice m a n d k :
  (forall j, 0 <= j < n -> m (a + j) = d !!! Z.to_nat (k + j)) -> 0 <= k -> 0 <= n ->
  k + n <= Z.of_nat (length d) -> read_bytes m a (Z.to_nat n) = slice k n d.
Proof.
  intros Hm Hk Hn Hl. apply list_eq_same_length with (n := Z.to_nat n).
  - rewrite slice_length; lia.
  - apply read_bytes_length.
  - intros i x y Hi Hx Hy. rewrite lookup_slice in Hy by done.
    apply list_lookup_total_correct in Hx as <-, Hy as <-.
    rewrite read_bytes_lookup by done. rewrite Hm by lia. f_equal. lia.
Qed.

Section content.
Context {HF : Fuel} {HU : UartHw} (me : nat) (q : proc) (ip : nat) (i : inode).

(** The state of a reader: nothing is held. *)
Record reading (W : list (Z * block)) (V D : Z -> block) (L : gset Z) (s : kernel) : Prop := {
  rd_binv : binv me q W V D L ∅ s;
  rd_room : (size L < Z.to_nat NBUF)%nat;
  rd_inode : inodes s !! ip = Some i;
}.

Lemma wp_read_block W V D L n s (Q : nat -> kernel -> Prop) :
  reading W V D L s ->
  (forall b s1, binv me q W V D L {[b := n]} s1 -> bframe s s1 -> Q b s1) ->
  wp (bread ROOTDEV n) s Q.
Proof using.
  intros [Hinv Hroom Hi] HQ. eapply (wp_bread me q); [done|done|right|].
  - rewrite map_size_empty. lia.
  - intros b s1 Hinv1 _ F1. by apply HQ.
Qed.

Lemma wp_done_block W V D L n b s s1 (Q : unit -> kernel -> Prop) :
  reading W V D L s -> binv me q W V D L {[b := n]} s1 -> bframe s s1 ->
  (forall s2, reading W V D L s2 -> bframe s s2 -> Q tt s2) ->
  wp (brelse b) s1 Q.
Proof using.
  intros [Hinv Hroom Hi] Hinv1 F1 HQ. eapply (wp_brelse me q); [done|apply lookup_singleton_eq| |].
  - destruct (decide (n ∈ L)); [by left|right]. by apply (binv_clean _ _ _ _ _ _ _ _ Hinv).
  - intros s2 Hinv2 F2. rewrite delete_singleton_eq in Hinv2.
    assert (bframe s s2) as F by by eapply bframe_trans.
    apply HQ; [|done]. constructor; [done|done|by rewrite (bframe_it _ _ F)].
Qed.

Lemma wp_bmap W V D L bn s (Q : Z -> kernel -> Prop) :
  reading W V D L s -> content_ok V i -> 0 <= bn -> bn * BSIZE < i_size i ->
  (forall s', reading W V D L s' -> bframe s s' -> Q (file_block V i bn) s') ->
  wp (bmap ip bn) s Q.
Proof using.
  intros Hr [Hdev Hsz Hind Hblk Hlen] Hbn Hlt HQ. unfold bmap.
  pose proof (Hblk bn Hbn Hlt) as Hnz. unfold file_block in *.
  pose proof (rd_inode _ _ _ _ _ Hr) as Hi.
  apply wp_bind. eapply wp_iget_; [done|]. rewrite Hdev.
  revert Hnz HQ. destruct (Z.ltb_spec bn NDIRECT); intros Hnz HQ.
  - apply wp_bind. eapply wp_iget_; [done|]. fold (addr_of i bn).
    destruct (Z.eqb_spec (addr_of i bn) 0); [done|]. apply wp_ret, HQ; [done|apply bframe_refl].
  - destruct (Z.ltb_spec (bn - NDIRECT) NINDIRECT).
    2:{ change (MAXFILE) with (NDIRECT + NINDIRECT) in Hsz. unfold BSIZE in *. lia. }
    assert (addr_of i NDIRECT <> 0) as Ha by (apply Hind; unfold BSIZE in *; lia).
    apply wp_bind. eapply wp_iget_; [done|]. fold (addr_of i NDIRECT).
    apply wp_bind. replace (addr_of i NDIRECT =? 0) with false by lia. apply wp_ret.
    replace (addr_of i NDIRECT =? 0) with false by lia.
    apply wp_bind. eapply wp_read_block; [done|]. intros b s1 Hinv1 F1.
    apply wp_bind. eapply (wp_bdata me q); [done|apply lookup_singleton_eq|].
    destruct (Z.eqb_spec (get_u32 (4 * (bn - NDIRECT)) (V (addr_of i NDIRECT))) 0); [done|].
    apply wp_bind, wp_ret. apply wp_bind. eapply wp_done_block; [done|done|done|].
    intros s2 Hr2 F2. by apply wp_ret, HQ.
Qed.

(** The rounds [readi] still needs. *)
Definition rounds (off rest : Z) : Z :=
  if 0 <? rest then (off + rest - 1) / BSIZE - off / BSIZE + 1 else 0.

Lemma rounds_step off rest :
  0 <= off -> 0 < rest ->
  let m := Z.min rest (BSIZE - off mod BSIZE) in
  0 < m <= rest /\ 0 <= rounds (off + m) (rest - m) < rounds off rest.
Proof using.
  intros Ho Hr m. assert (0 < m <= rest) as Hm by (unfold m, BSIZE; Z.div_mod_to_equations; lia).
  split; [done|]. unfold rounds. destruct (Z.ltb_spec 0 rest); [|lia].
  unfold BSIZE in *. destruct (Z.ltb_spec 0 (rest - m)).
  - assert (m = 1024 - off mod 1024) as -> by lia.
    replace (off + (1024 - off mod 1024)) with ((off / 1024 + 1) * 1024)
      by (Z.div_mod_to_equations; lia).
    rewrite Z.div_mul by lia. Z.div_mod_to_equations. lia.
  - Z.div_mod_to_equations. lia.
Qed.

Lemma file_chunk V off m :
  content_ok V i -> 0 <= off -> 0 < m -> off mod BSIZE + m <= BSIZE -> off < i_size i ->
  slice (off mod BSIZE) m (V (file_block V i (off / BSIZE))) = file_bytes V i off m.
Proof using.
  intros Hc Ho Hm Hle Hlt. unfold file_bytes. symmetry.
  assert (0 <= off / BSIZE /\ off / BSIZE * BSIZE <= off) as [H1 H2]
    by (unfold BSIZE in *; Z.div_mod_to_equations; lia).
  pose proof (co_len _ _ Hc (off / BSIZE) H1 ltac:(lia)) as Hlen.
  pose proof (Z.mod_pos_bound off BSIZE ltac:(by compute)).
  apply read_bytes_slice; [|lia|lia|lia]. intros j Hj. unfold file_byte.
  assert ((off + j) / BSIZE = off / BSIZE /\ (off + j) mod BSIZE = off mod BSIZE + j) as [-> ->];
    [|done].
  unfold BSIZE in *. split; Z.div_mod_to_equations; lia.
Qed.

Lemma file_bytes_app V off m k :
  0 <= m -> 0 <= k -> file_bytes V i off m ++ file_bytes V i (off + m) k = file_bytes V i off (m + k).
Proof using.
  intros Hm Hk. unfold file_bytes. rewrite Z2Nat.inj_add by done.
  rewrite read_bytes_app. by rewrite Z2Nat.id.
Qed.

(** How much [readi] reads. *)
Definition read_len (off n : Z) : Z :=
  if i_size i <? off then 0 else Z.min n (i_size i - off).

Lemma wp_readi W V D L off n s (Q : Z * list Z -> kernel -> Prop) :
  reading W V D L s -> content_ok V i -> 0 <= off -> 0 <= n -> off + n < 2 ^ 31 ->
  (forall s', reading W V D L s' -> bframe s s' ->
     Q (read_len off n, file_bytes V i off (read_len off n)) s') ->
  wp (readi ip ToLocal off n) s Q.
Proof using.
  intros Hr Hc Ho Hn Hmax HQ. unfold readi, read_len in *.
  pose proof (rd_inode _ _ _ _ _ Hr) as Hi. pose proof (co_size _ _ Hc) as Hsz.
  assert (MAXFILE * BSIZE < 2 ^ 31) as HM by by compute.
  apply wp_bind. eapply wp_iget_; [done|].
  rewrite (uwrap_small 32 (off + n)) by lia.
  destruct (Z.ltb_spec (i_size i) off); cbn [orb].
  { apply wp_ret, HQ; [done|apply bframe_refl]. }
  destruct (Z.ltb_spec (off + n) off); [lia|].
  set (n' := if i_size i <? off + n then _ else n).
  assert (n' = Z.min n (i_size i - off)) as E.
  { unfold n'. destruct (Z.ltb_spec (i_size i) (off + n)); [rewrite uwrap_small|]; lia. }
  rewrite <-E in HQ. clearbody n'. assert (0 <= n' /\ off + n' <= i_size i) as [Hn0 Hn1] by lia.
  apply (wp_loop (fun '(tot, o, dst, acc) s' => reading W V D L s' /\ bframe s s' /\
      0 <= tot <= n' /\ o = off + tot /\ dst = ToLocal /\ acc = file_bytes V i off tot)
    (fun '(tot, o, _, _) => Z.to_nat (rounds o (n' - tot)))).
  - intros [[[tot o] dst] acc] s1 (Hr1 & F1 & Ht & -> & -> & ->).
    destruct (Z.ltb_spec tot n').
    2:{ apply wp_ret. assert (tot = n') as -> by lia. rewrite (swrap_small 32) by (simpl; lia).
        by apply HQ. }
    assert (0 <= (off + tot) / BSIZE /\ (off + tot) / BSIZE * BSIZE <= off + tot) as [Hb1 Hb2]
      by (unfold BSIZE in *; Z.div_mod_to_equations; lia).
    apply wp_bind. eapply wp_bmap; [done|done|done|lia|]. intros s2 Hr2 F2.
    pose proof (co_block _ _ Hc ((off + tot) / BSIZE) Hb1 ltac:(lia)) as Hnz.
    destruct (Z.eqb_spec (file_block V i ((off + tot) / BSIZE)) 0); [done|].
    apply wp_bind. eapply wp_iget_; [apply Hr2|]. rewrite (co_dev _ _ Hc).
    apply wp_bind. eapply wp_read_block; [done|]. intros b s3 Hinv3 F3.
    apply wp_bind. eapply (wp_bdata me q); [done|apply lookup_singleton_eq|].
    destruct (rounds_step (off + tot) (n' - tot) ltac:(lia) ltac:(lia)) as [Hm Hmu].
    set (m := Z.min (n' - tot) (BSIZE - (off + tot) mod BSIZE)) in *.
    assert ((off + tot) mod BSIZE + m <= BSIZE) as Hfit by (unfold m; lia).
    rewrite file_chunk by (done || lia).
    apply wp_bind. eapply wp_done.
    { unfold either_copyout. rewrite (bind_done _ _ _ _ _ (myproc'_eq s3 me
        (quiet_cpu _ _ _ (binv_quiet _ _ _ _ _ _ _ _ Hinv3))
        (quiet_me _ _ _ (binv_quiet _ _ _ _ _ _ _ _ Hinv3)))). done. }
    cbn [Z.eqb]. apply wp_bind. eapply wp_done_block; [exact Hr2|done|done|].
    intros s4 Hr4 F4. apply wp_ret. rewrite uwrap_small by lia.
    split; [|rewrite <-Z.add_assoc in Hmu; replace (n' - (tot + m)) with (n' - tot - m) by lia;
      rewrite <-Z.add_assoc; lia].
    split_and!; [done|eauto using bframe_trans|lia|lia|lia|done|].
    by rewrite <-file_bytes_app by lia.
  - split_and!; [done|apply bframe_refl|lia|lia|lia|done|done].
  - rewrite Z.sub_0_r. unfold rounds, BSIZE. destruct (Z.ltb_spec 0 n');
      Z.div_mod_to_equations; lia.
Qed.
End content.

(** ** Properties *)

(** C15: [readi] returns the content of the file.  On an inode without holes it reads, from offset [off], [n] bytes or as many as the file has
    there: exactly the bytes that the direct and indirect blocks hold for these
    offsets; nothing but the cache's bookkeeping changes, in particular no block and nothing on
    disk. *)
Theorem readi_correct {HF : Fuel} {HU : UartHw} me q ip i W V D L off n s :
  binv me q W V D L ∅ s -> (size L < Z.to_nat NBUF)%nat -> inodes s !! ip = Some i ->
  content_ok V i -> 0 <= off -> 0 <= n -> off + n < 2 ^ 31 ->
  exists s', let len := if i_size i <? off then 0 else Z.min n (i_size i - off) in
    readi ip ToLocal off n s = Done (len, file_bytes V i off len) s' /\
    binv me q W V D L ∅ s' /\ bframe s s'.
Proof.
  intros Hinv HL Hi Hc Ho Hn Hmax.
  assert (wp (readi ip ToLocal off n) s (fun r s' =>
    r = (read_len i off n, file_bytes V i off (read_len i off n)) /\
    binv me q W V D L ∅ s' /\ bframe s s')) as (r & s' & Hrun & -> & HQ).
  { eapply (wp_readi me q ip i W V D L); try done. intros s' [Hinv' _ _] F. done. }
  by exists s'.
Qed.

(** A file of five bytes in block 100. *)
#[local] Existing Instance demo_fuel.
#[local] Instance content_uart : UartHw := fun _ => 0%nat.

Definition five_bytes : block := [104; 101; 108; 108; 111] ++ replicate (Z.to_nat BSIZE - 5) 0.
Definition five_disk : gmap Z block := {[ 100 := five_bytes ]}.
Definition five_inode : inode :=
  set_i_dev ROOTDEV (set_i_size 5 (set_i_addrs (100 :: replicate 12 0) inode0)).
Definition five_kernel : kernel :=
  set_k_it (Itable false (five_inode :: replicate 49 inode0))
    (boot_on five_disk (k_sb kernel0)).

Lemma five_content : content_ok (contents five_disk) five_inode.
Proof.
  assert (H0 : forall bn, 0 <= bn -> bn * BSIZE < i_size five_inode -> bn = 0).
  { cbn. unfold BSIZE. lia. }
  constructor.
  - done.
  - by compute.
  - by compute.
  - intros bn H1 H2. rewrite (H0 bn H1 H2). by compute.
  - intros bn H1 H2. rewrite (H0 bn H1 H2). by vm_compute.
Qed.

Lemma binv_set_it me q W V D L H it s :
  binv me q W V D L H s -> binv me q W V D L H (set_k_it it s).
Proof.
  intros Hinv. eapply binv_same; [exact Hinv| |reflexivity..].
  eapply quiet_same; [exact (binv_quiet _ _ _ _ _ _ _ _ Hinv)|reflexivity..].
Qed.

Lemma inodes_set_it it s : inodes (set_k_it it s) = it_inode it.
Proof. done. Qed.

Lemma five_binv : binv 1 demo_proc [] (contents five_disk) (contents five_disk) ∅ ∅ five_kernel.
Proof.
  destruct (boot_on_ok five_disk (k_sb kernel0)) as ((Hinv & _) & Hw & _). rewrite Hw in Hinv.
  by apply binv_set_it.
Qed.

Lemma readi_correct_witness :
  exists s', readi 0 ToLocal 1 10 five_kernel = Done (4, [101; 108; 108; 111]) s'.
Proof.
  destruct (readi_correct 1 demo_proc 0 five_inode [] (contents five_disk) (contents five_disk) ∅
    1 10 five_kernel five_binv) as (s' & H & _).
  - rewrite size_empty. unfold NBUF, MAXOPBLOCKS. lia.
  - unfold five_kernel. rewrite inodes_set_it. reflexivity.
  - exact five_content.
  - lia.
  - lia.
  - lia.
  - exists s'. rewrite H. f_equal.
Defined.
