(* ===== verification/Inodes.v ===== *)
(** * The table of inodes in memory: iget, idup and iput of kernel/fs.c

    [iget] as a function on the table, and what [iput] does to a reference that is not the last one
    to a deleted file. *)

From S2P Require Import Prelude Params Memory Kalloc Block State Sched SchedSpec Quiet Kcopy.
From S2P Require Import Uart Dll Bio BioSpec Cache Log LogSpec Crash Fs FsSpec FsContent.

Definition on_inodes (f : list inode -> list inode) (s : kernel) : kernel :=
  set_k_it (set_it_inode (f (inodes s)) (k_it s)) s.

Lemma on_inodes_id s : on_inodes id s = s.
Proof. unfold on_inodes. by destruct s as [? ? ? ? ? ? ? ? ? ? []]. Qed.

Lemma on_inodes_compose f g s : on_inodes f (on_inodes g s) = on_inodes (fun l => f (g l)) s.
Proof. by destruct s. Qed.

Lemma iset__eq i g s : iset_ i g s = Done tt (on_inodes (alter g i) s).
Proof. unfold iset_, setf, modify, inodeL, nthL, lcomp, on_inodes. simpl. by rewrite insert_alter. Qed.

Lemma unlock_inodes f s : cpu_ok (k_cpu s) -> it_lock (k_it s) = false ->
  release it_lockL (on_inodes f (locked it_lockL s)) = Done tt (on_inodes f s).
Proof.
  intros Hc Hl. rewrite release_eq; [|by apply cpu_push_ok|destruct Hc; simpl; lia|done].
  unfold unlocked, locked. cbn [k_cpu on_inodes set_k_it].
  f_equal. unfold on_inodes. cbn. change (noff (k_cpu s) + 1) with (noff (cpu_push (k_cpu s))).
  rewrite cpu_pop_push by done. by destruct s as [? ? ? ? ? ? ? ? ? ? []]; simpl in *; subst.
Qed.

(** ** iget *)

(** The entry is the inode [inum] of the device. *)
Definition is_inode (dev inum : Z) (i : inode) : bool := (0 <? i_ref i) && (i_dev i =? dev) && (i_inum i =? inum).

Definition unused (i : inode) : bool := i_ref i =? 0.

Definition recycle (dev inum : Z) (i : inode) : inode := set_i_valid false (set_i_ref 1 (set_i_inum inum (set_i_dev dev i))).

Definition one_more (i : inode) : inode := set_i_ref (i_ref i + 1) i.

(** The entry for the inode, and the table with the new reference; [None] if the table is full. *)
Definition iget_table (dev inum : Z) (l : list inode) : option (nat * list inode) :=
  match list_find (fun i => is_inode dev inum i) l with
  | Some (ip, _) => Some (ip, alter one_more ip l)
  | None => match list_find (fun i => unused i) l with
            | Some (ip, _) => Some (ip, alter (recycle dev inum) ip l)
            | None => None
            end
  end.

Section iget.
Context (dev inum : Z) (s : kernel).
Hypothesis (Hcpu : cpu_ok (k_cpu s)) (Hlock : it_lock (k_it s) = false) (Hlen : length (inodes s) = Z.to_nat NINODE).

(** A round of the search, as in the code. *)
Definition iget_round : nat * option nat -> K ((nat * option nat) + (nat + option nat)) := fun '(ip, empty) =>
  if (ip <? Z.to_nat NINODE)%nat then
    rf <- iget_ ip i_ref ;;
    d <- iget_ ip i_dev ;;
    n <- iget_ ip i_inum ;;
    if (0 <? rf) && (d =? dev) && (n =? inum) then
      iset_ ip (fun i => set_i_ref (i_ref i + 1) i) ;;
      release it_lockL ;;
      ret (inr (inl ip))
    else
      let empty :=
        match empty with
        | None => if rf =? 0 then Some ip else None
        | Some e => Some e
        end in
      ret (inl (S ip, empty))
  else ret (inr (inr empty)).

Lemma iget_scan l2 l1 e : inodes s = l1 ++ l2 ->
  loop (S (length l2)) iget_round (length l1, e) (locked it_lockL s) =
  match list_find (fun i => is_inode dev inum i) l2 with
  | Some (k, _) => Done (inl (length l1 + k)%nat) (on_inodes (alter one_more (length l1 + k)%nat) s)
  | None => Done (inr (match e with Some e => Some e | None => (fun p => (length l1 + p.1)%nat) <$> list_find (fun i => unused i) l2 end))
              (locked it_lockL s)
  end.
Proof using Hcpu Hlock Hlen.
  revert l1 e. induction l2 as [|i l2 IH]; intros l1 e Hl.
  - assert (Er : iget_round (length l1, e) (locked it_lockL s) = Done (inr (inr e)) (locked it_lockL s)).
    { unfold iget_round. rewrite <-Hlen, Hl, app_nil_r, Nat.ltb_irrefl. done. }
    rewrite (loop_last _ _ _ _ _ _ Er). simpl. by destruct e.
  - assert (Hi : inodes (locked it_lockL s) !! length l1 = Some i).
    { change (inodes (locked it_lockL s)) with (inodes s). rewrite Hl. by apply list_lookup_middle. }
    assert (Hlt : (length l1 <? Z.to_nat NINODE)%nat = true).
    { apply Nat.ltb_lt. rewrite <-Hlen, Hl, length_app. simpl. lia. }
    cbn [list_find]. destruct (decide (is_inode dev inum i)) as [Hd|Hd].
    + rewrite Nat.add_0_r. apply loop_last. unfold iget_round. rewrite Hlt.
      do 3 rewrite (bind_done _ _ _ _ _ (iget__eq _ _ _ _ Hi)). apply Is_true_true in Hd. unfold is_inode in Hd. rewrite Hd.
      rewrite (bind_done _ _ _ _ _ (iset__eq _ _ _)). by rewrite (bind_done _ _ _ _ _ (unlock_inodes _ _ Hcpu Hlock)).
    + apply Is_true_false in Hd. erewrite loop_next.
      2:{ unfold iget_round. rewrite Hlt. do 3 rewrite (bind_done _ _ _ _ _ (iget__eq _ _ _ _ Hi)).
          unfold is_inode in Hd. by rewrite Hd. }
      replace (S (length l1)) with (length (l1 ++ [i])) by (rewrite length_app; simpl; lia).
      change (S (length l2)) with (S (length l2)). rewrite IH by (by rewrite <-app_assoc).
      rewrite length_app. cbn [length].
      destruct (list_find (fun i => is_inode dev inum i) l2) as [[k j]|]; cbn [fmap option_fmap option_map prod_map fst snd].
      * by replace (length l1 + 1 + k)%nat with (length l1 + S k)%nat by lia.
      * do 2 f_equal. destruct e as [e|]; [done|]. destruct (decide (unused i)) as [Hu|Hu].
        -- apply Is_true_true in Hu. unfold unused in Hu. rewrite Hu. simpl. f_equal. lia.
        -- apply Is_true_false in Hu. unfold unused in Hu. rewrite Hu.
           destruct (list_find (fun i => unused i) l2) as [[k j]|]; simpl; [f_equal; lia|done].
Qed.

Lemma iget_eq : iget dev inum s =
  match iget_table dev inum (inodes s) with
  | Some (ip, l) => Done ip (on_inodes (fun _ => l) s)
  | None => Panic "iget: no inodes"
  end.
Proof using Hcpu Hlock Hlen.
  unfold iget. rewrite (bind_done _ _ _ _ _ (acquire_eq (lk := it_lockL) s Hcpu Hlock)). fold iget_round.
  rewrite <-Hlen. pose proof (iget_scan (inodes s) [] None eq_refl) as Es. cbn [length] in Es. cbn [Nat.add] in Es.
  unfold iget_table. destruct (list_find (fun i => is_inode dev inum i) (inodes s)) as [[k i]|].
  - by rewrite (bind_done _ _ _ _ _ Es).
  - rewrite (bind_done _ _ _ _ _ Es). destruct (list_find (fun i => unused i) (inodes s)) as [[k i]|]; [|done].
    cbn [fmap option_fmap option_map fst]. do 4 rewrite (bind_done _ _ _ _ _ (iset__eq _ _ _)). rewrite !on_inodes_compose.
    rewrite (bind_done _ _ _ _ _ (unlock_inodes _ _ Hcpu Hlock)). unfold ret, on_inodes. cbn [it_inode].
    by rewrite !list_alter_alter_eq.
Qed.
End iget.

(** ** idup and iput *)

Lemma one_less_more i : set_i_ref (i_ref (one_more i) - 1) (one_more i) = i.
Proof. unfold one_more. destruct i as [dev inum ref lk v t ma mi nl sz ad]. unfold set_i_ref. simpl. by rewrite Z.add_simpl_r. Qed.

Lemma idup_eq ip i s : cpu_ok (k_cpu s) -> it_lock (k_it s) = false -> inodes s !! ip = Some i ->
  idup ip s = Done ip (on_inodes (alter one_more ip) s).
Proof.
  intros Hc Hl Hi. unfold idup. rewrite (bind_done _ _ _ _ _ (acquire_eq (lk := it_lockL) s Hc Hl)).
  rewrite (bind_done _ _ _ _ _ (iset__eq _ _ _)). by rewrite (bind_done _ _ _ _ _ (unlock_inodes _ _ Hc Hl)).
Qed.

(** A reference that is not the last one to a file without links. *)
Lemma iput_eq {HF : Fuel} {HU : UartHw} ip i s : cpu_ok (k_cpu s) -> it_lock (k_it s) = false -> inodes s !! ip = Some i ->
  (i_ref i =? 1) && i_valid i && (i_nlink i =? 0) = false ->
  iput ip s = Done tt (on_inodes (alter (fun i => set_i_ref (i_ref i - 1) i) ip) s).
Proof.
  intros Hc Hl Hi Hlast. unfold iput. rewrite (bind_done _ _ _ _ _ (acquire_eq (lk := it_lockL) s Hc Hl)).
  do 3 rewrite (bind_done _ _ _ _ _ (iget__eq ip _ (locked it_lockL s) i Hi)). rewrite Hlast. cbn [when].
  rewrite (bind_done (ret tt) _ _ _ _ eq_refl), (bind_done _ _ _ _ _ (iset__eq _ _ _)). by apply unlock_inodes.
Qed.

Lemma alter_insert (f : inode -> inode) (l : list inode) (k : nat) i : l !! k = Some i -> alter f k l = <[k := f i]> l.
Proof. intros Hk. by rewrite <-insert_alter, (list_lookup_total_correct _ _ _ Hk). Qed.

(** What [iget] does to the table: the entry it returns is the inode asked for, and the other entries are as before. *)
Lemma iget_table_spec dev inum l ip l' : iget_table dev inum l = Some (ip, l') ->
  exists i i', l !! ip = Some i /\ l' = <[ip := i']> l /\ i_dev i' = dev /\ i_inum i' = inum /\ 1 <= i_ref i' /\
    ((is_inode dev inum i /\ i' = one_more i) \/ (i_ref i = 0 /\ i' = recycle dev inum i)).
Proof.
  unfold iget_table. intros Ht.
  destruct (list_find (fun i => is_inode dev inum i) l) as [[k i]|] eqn:E1; [|destruct (list_find (fun i => unused i) l) as [[k i]|] eqn:E2; [|done]].
  - apply list_find_Some in E1 as (Hk & Hp & _). simplify_eq. exists i, (one_more i). split; [done|].
    apply Is_true_true in Hp. pose proof Hp as Hp'. unfold is_inode in Hp. split; [by apply alter_insert|].
    simpl. split_and!; [lia|lia|lia|]. left. split; [by rewrite Hp'|done].
  - apply list_find_Some in E2 as (Hk & Hp & _). simplify_eq. exists i, (recycle dev inum i). split; [done|].
    apply Is_true_true in Hp. unfold unused in Hp. split; [by apply alter_insert|]. simpl. split_and!; [done|done|lia|]. right. split; [lia|done].
Qed.

(** ** References *)

(** The references to an inode that an entry holds. *)
Definition weight (dev inum : Z) (i : inode) : Z := if is_inode dev inum i then i_ref i else 0.

Definition refs (dev inum : Z) (l : list inode) : Z := foldr (fun i n => weight dev inum i + n) 0 l.

Lemma refs_insert dev inum l ip i i' : l !! ip = Some i ->
  refs dev inum (<[ip := i']> l) = refs dev inum l - weight dev inum i + weight dev inum i'.
Proof.
  revert ip. induction l as [|j l IH]; intros [|ip] Hi; try done; simpl in *.
  - simplify_eq. lia.
  - rewrite (IH ip Hi). lia.
Qed.

(** No inode has two entries, and no count is negative. *)
Record table_ok (l : list inode) : Prop := {
  to_ref : forall k i, l !! k = Some i -> 0 <= i_ref i;
  to_one : forall k j i i', l !! k = Some i -> l !! j = Some i' -> 0 < i_ref i -> 0 < i_ref i' ->
    i_dev i = i_dev i' -> i_inum i = i_inum i' -> k = j;
}.

Lemma is_inode_spec dev inum i : is_inode dev inum i = true <-> 0 < i_ref i /\ i_dev i = dev /\ i_inum i = inum.
Proof. unfold is_inode. rewrite !andb_true_iff, Z.ltb_lt, !Z.eqb_eq. tauto. Qed.

(** An entry may get another count, or a free one an inode that the table does not have. *)
Lemma table_ok_insert l ip i i' : table_ok l -> l !! ip = Some i -> 0 <= i_ref i' ->
  (0 < i_ref i' -> forall k j, k <> ip -> l !! k = Some j -> is_inode (i_dev i') (i_inum i') j = false) ->
  table_ok (<[ip := i']> l).
Proof.
  intros [T1 T2] Hi Hr Hno. pose proof (lookup_lt_Some _ _ _ Hi) as Hlt.
  assert (Hcase : forall k x, <[ip := i']> l !! k = Some x -> (k = ip /\ x = i') \/ (k <> ip /\ l !! k = Some x)).
  { intros k x Hk. destruct (decide (k = ip)) as [->|Hne]; [left|right].
    - rewrite list_lookup_insert_eq in Hk by done. by simplify_eq.
    - by rewrite list_lookup_insert_ne in Hk. }
  assert (Hdiff : forall k j, k <> ip -> l !! k = Some j -> 0 < i_ref j -> 0 < i_ref i' -> i_dev j = i_dev i' -> i_inum j = i_inum i' -> False).
  { intros k j Hk Hj Hrj Hri' Hd Hn. pose proof (Hno Hri' k j Hk Hj) as Hf. apply not_true_iff_false in Hf. apply Hf. by apply is_inode_spec. }
  constructor.
  - intros k x [[-> ->]|[_ Hk]]%Hcase; [done|by eapply T1].
  - intros k j x y [[-> ->]|[Hk Hx]]%Hcase [[-> ->]|[Hj Hy]]%Hcase H1 H2 Hd Hn; [done|exfalso; by eapply (Hdiff j y)|exfalso; by eapply (Hdiff k x)|by eapply T2].
Qed.

Lemma weight_more dev inum d n i : is_inode dev inum i = true ->
  weight d n (one_more i) = weight d n i + (if (d =? dev) && (n =? inum) then 1 else 0).
Proof.
  intros (H1 & H2 & H3)%is_inode_spec. unfold weight, is_inode, one_more. cbn. rewrite H2, H3.
  replace (0 <? i_ref i + 1) with true by lia. replace (0 <? i_ref i) with true by lia. cbn [andb].
  rewrite (Z.eqb_sym d), (Z.eqb_sym n). destruct ((dev =? d) && (inum =? n)); lia.
Qed.

Lemma weight_recycled dev inum d n i : i_ref i = 0 ->
  weight d n (recycle dev inum i) = weight d n i + (if (d =? dev) && (n =? inum) then 1 else 0).
Proof.
  intros H0. unfold weight, is_inode, recycle. cbn. rewrite H0. cbn [Z.ltb Z.compare andb].
  rewrite (Z.eqb_sym d), (Z.eqb_sym n). by destruct ((dev =? d) && (inum =? n)).
Qed.

(** One more reference to one inode. *)
Definition plus_one (dev inum d n : Z) : Z := if (d =? dev) && (n =? inum) then 1 else 0.

Lemma iget_table_ok dev inum l ip l' : table_ok l -> iget_table dev inum l = Some (ip, l') ->
  table_ok l' /\ forall d n, refs d n l' = refs d n l + plus_one dev inum d n.
Proof.
  intros Hok Ht. destruct (iget_table_spec _ _ _ _ _ Ht) as (i & i' & Hi & -> & H1 & H2 & H3 & Hcase). split.
  - eapply table_ok_insert; [done|done|lia|]. intros _ k j Hk Hj. apply not_true_iff_false. intros Hj'. rewrite H1, H2 in Hj'.
    destruct Hcase as [[Hi' _]|[Hz _]].
    + apply Is_true_true, is_inode_spec in Hi' as (A1 & A2 & A3). apply is_inode_spec in Hj' as (B1 & B2 & B3).
      apply Hk. eapply (to_one _ Hok); [exact Hj|exact Hi|lia..].
    + unfold iget_table in Ht. destruct (list_find (fun i => is_inode dev inum i) l) as [[k' i'']|] eqn:E1.
      * apply list_find_Some in E1 as (Hk' & Hp & _). apply Is_true_true, is_inode_spec in Hp as (B1 & _). simplify_eq. lia.
      * apply list_find_None in E1. rewrite Forall_lookup in E1. apply (E1 k j Hj). by apply Is_true_true.
  - intros d n. rewrite (refs_insert _ _ _ _ _ _ Hi). unfold plus_one. destruct Hcase as [[Hi' ->]|[Hz ->]].
    + apply Is_true_true in Hi'. rewrite (weight_more _ _ _ _ _ Hi'). lia.
    + rewrite (weight_recycled _ _ _ _ _ Hz). lia.
Qed.

(** The free entries. *)
Definition nfree (l : list inode) : nat := foldr (fun i n => if unused i then S n else n) 0%nat l.

Lemma nfree_insert l ip i i' : l !! ip = Some i ->
  (nfree (<[ip := i']> l) + Nat.b2n (unused i) = nfree l + Nat.b2n (unused i'))%nat.
Proof.
  revert ip. induction l as [|j l IH]; intros [|ip] Hi; try done; simpl in *.
  - simplify_eq. destruct (unused i), (unused i'); simpl; lia.
  - specialize (IH ip Hi). destruct (unused j); lia.
Qed.

Lemma iget_table_room dev inum l : (1 <= nfree l)%nat -> is_Some (iget_table dev inum l).
Proof.
  intros Hf. unfold iget_table. destruct (list_find (fun i => is_inode dev inum i) l) as [[]|]; [by eexists|].
  destruct (list_find (fun i => unused i) l) as [[]|] eqn:E2; [by eexists|]. exfalso.
  apply list_find_None in E2. induction E2 as [|i l Hi _ IH]; simpl in Hf; [lia|].
  apply Is_true_false in Hi. rewrite Hi in Hf. by apply IH.
Qed.

(** C39: [iget] keeps the table of inodes in order and counts exactly one reference more.  If the inode is in the table, or there
    is a free entry, it returns an entry for it; the inode has one entry only; the references to it have become one more, and those to every other inode
    are the same; nothing else of the kernel changes.  Otherwise every entry is in use for other inodes, and it panics. *)
Theorem iget_correct (dev inum : Z) (s : kernel) :
  cpu_ok (k_cpu s) -> it_lock (k_it s) = false -> length (inodes s) = Z.to_nat NINODE -> table_ok (inodes s) ->
  (exists ip l i, iget dev inum s = Done ip (on_inodes (fun _ => l) s) /\ l !! ip = Some i /\ is_inode dev inum i = true /\
     table_ok l /\ forall d n, refs d n l = refs d n (inodes s) + plus_one dev inum d n) \/
  (iget dev inum s = Panic "iget: no inodes" /\
   forall k i, inodes s !! k = Some i -> i_ref i <> 0 /\ is_inode dev inum i = false).
Proof.
  intros Hc Hl Hlen Hok. rewrite (iget_eq dev inum s Hc Hl Hlen).
  destruct (iget_table dev inum (inodes s)) as [[ip l]|] eqn:Ht.
  - left. destruct (iget_table_ok _ _ _ _ _ Hok Ht) as [Hok' Hr].
    destruct (iget_table_spec _ _ _ _ _ Ht) as (i & i' & Hi & -> & H1 & H2 & H3 & _).
    exists ip, (<[ip := i']> (inodes s)), i'. split; [done|]. split; [by apply list_lookup_insert_eq; eapply lookup_lt_Some|].
    split; [by apply is_inode_spec; split_and!; [lia|..]|]. by split.
  - right. split; [done|]. intros k i Hi. unfold iget_table in Ht.
    destruct (list_find (fun i => is_inode dev inum i) (inodes s)) as [[]|] eqn:E1; [done|].
    destruct (list_find (fun i => unused i) (inodes s)) as [[]|] eqn:E2; [done|].
    apply list_find_None in E1, E2. rewrite Forall_lookup in E1, E2. specialize (E1 k i Hi). specialize (E2 k i Hi).
    apply Is_true_false in E1, E2. unfold unused in E2. split; [lia|done].
Qed.

(** The inode 7 is in the second entry. *)
Definition seven_table : list inode := inode0 :: set_i_ref 2 (set_i_dev 1 (set_i_inum 7 inode0)) :: replicate 48 inode0.
Definition seven_kernel : kernel := set_k_it (Itable false seven_table) kernel0.

Lemma iget_correct_witness : exists l, iget 1 7 seven_kernel = Done 1%nat (on_inodes (fun _ => l) seven_kernel) /\ refs 1 7 l = 3.
Proof.
  destruct (iget_correct 1 7 seven_kernel) as [(ip & l & i & E & Hi & Hd & Hok & Hr)|[E _]].
  - constructor; by vm_compute.
  - reflexivity.
  - reflexivity.
  - assert (Hin : forall k i, seven_table !! k = Some i -> i_ref i = 0 \/ k = 1%nat).
    { intros [|[|k]] i Hk; [left; by simplify_eq/=|by right|left]. apply lookup_replicate in Hk as [-> _]. done. }
    constructor.
    + intros k i Hk. destruct k as [|[|k]]; [by simplify_eq/=|by simplify_eq/=|]. apply lookup_replicate in Hk as [-> _]. by vm_compute.
    + intros k j i i' Hk Hj H1 H2 _ _. apply Hin in Hk as [?| ->]; [lia|]. apply Hin in Hj as [?| ->]; [lia|done].
  - assert (ip = 1%nat) as ->.
    { apply (f_equal (fun o => match o with Done a _ => Some a | _ => None end)) in E. vm_compute in E. congruence. }
    exists l. split; [exact E|]. rewrite Hr. by vm_compute.
  - vm_compute in E. discriminate.
Defined.
