(* ===== verification/FsFile.v ===== *)
(** * The blocks of a file

    Which disk blocks an inode owns, and how the block map changes when a
    block is taken from the bitmap and entered in the inode or in its
    indirect block: the steps that bmap of kernel/fs.c makes. *)

From S2P Require Import Prelude Params Memory Kalloc Block State Sched SchedSpec Quiet Kcopy.
From S2P Require Import Uart Dll Bio BioSpec Cache Log LogSpec Crash Fs FsSpec FsBlocks FsContent.

(** The indirect block, and the block of part [bn]; 0 if there is none. *)
Definition iblock (i : inode) : Z := addr_of i NDIRECT.

Definition fblock (V : Z -> block) (i : inode) (bn : Z) : Z :=
  if bn <? NDIRECT then addr_of i bn
  else if iblock i =? 0 then 0
  else get_u32 (4 * (bn - NDIRECT)) (V (iblock i)).

Definition fbyte (V : Z -> block) (i : inode) (x : Z) : Z :=
  V (fblock V i (x / BSIZE)) !!! Z.to_nat (x mod BSIZE).

Definition owned (V : Z -> block) (i : inode) (b : Z) : Prop :=
  b <> 0 /\ (b = iblock i \/ exists bn, 0 <= bn < MAXFILE /\ b = fblock V i bn).

Section file.
Context (start : Z) (sb : superblock) (ib : Z).

(** Blocks that hold data: not the bitmap, not the block [ib] of the inode. *)
Definition data_block (b : Z) : Prop := b <> ib /\ forall c, 0 <= c < sb_size sb -> b <> BBLOCK c sb.

(** Every block that is not data is marked used. *)
Record fs_ok (V : Z -> block) : Prop := {
  fs_bitmap : bitmap_ok start sb V;
  fs_size : sb_size sb + sb_bmapstart sb < 2 ^ 32;
  fs_start : 0 <= sb_bmapstart sb;
  fs_free : forall b, 0 <= b < sb_size sb -> used sb V b = false -> b <> 0 /\ loggable start b /\ data_block b;
  fs_inode : loggable start ib /\ forall c, 0 <= c < sb_size sb -> ib <> BBLOCK c sb;
}.

(** A block in use for data. *)
Record in_use (V : Z -> block) (b : Z) : Prop := {
  iu_range : 0 <= b < sb_size sb;
  iu_used : used sb V b = true;
  iu_log : loggable start b;
  iu_data : data_block b;
  iu_len : Z.of_nat (length (V b)) = BSIZE;
}.

Record file_ok (V : Z -> block) (i : inode) : Prop := {
  fo_dev : i_dev i = ROOTDEV;
  fo_addrs : length (i_addrs i) = 13%nat;
  fo_own : forall b, owned V i b -> in_use V b;
  fo_inj : forall bn bn', 0 <= bn < MAXFILE -> 0 <= bn' < MAXFILE -> fblock V i bn = fblock V i bn' ->
    fblock V i bn <> 0 -> bn = bn';
  fo_ind : forall bn, 0 <= bn < MAXFILE -> fblock V i bn <> 0 -> fblock V i bn <> iblock i;
}.

Lemma owned_fblock V i bn : 0 <= bn < MAXFILE -> fblock V i bn <> 0 -> owned V i (fblock V i bn).
Proof using. intros Hb Hn. split; [done|]. right. by exists bn. Qed.

Lemma owned_iblock V i : iblock i <> 0 -> owned V i (iblock i).
Proof using. intros Hn. split; [done|by left]. Qed.

(** The block map looks at the indirect block only. *)
Lemma fblock_ext V V' i : (iblock i <> 0 -> V' (iblock i) = V (iblock i)) -> forall bn, fblock V' i bn = fblock V i bn.
Proof using.
  intros E bn. unfold fblock. destruct (bn <? NDIRECT); [done|]. destruct (Z.eqb_spec (iblock i) 0); [done|]. by rewrite E.
Qed.

Lemma owned_ext V V' i b : (forall bn, fblock V' i bn = fblock V i bn) -> owned V' i b <-> owned V i b.
Proof using. intros E. unfold owned. by setoid_rewrite E. Qed.

(** Changes elsewhere on the disk. *)
Lemma file_ok_ext V V' i : file_ok V i -> (forall bn, fblock V' i bn = fblock V i bn) ->
  (forall b, owned V i b -> used sb V' b = true /\ Z.of_nat (length (V' b)) = BSIZE) -> file_ok V' i.
Proof using.
  intros [F1 F2 F3 F4 F5] E Ho. constructor; [done|done| |setoid_rewrite E; done|setoid_rewrite E; done].
  intros b Hb. rewrite (owned_ext V V') in Hb by done. destruct (Ho b Hb) as [U1 U2]. destruct (F3 b Hb). by constructor.
Qed.

Lemma used_ext V V' b : V' (BBLOCK b sb) = V (BBLOCK b sb) -> used sb V' b = used sb V b.
Proof using. unfold used. by intros ->. Qed.

(** ** A block is taken *)

Lemma alloc_used V fb b : fs_ok V -> first_free sb V fb -> 0 <= b < sb_size sb ->
  used sb (alloc_block sb V fb) b = if decide (b = fb) then true else used sb V b.
Proof using.
  intros [Hbm Hsz Hbs Hfr _] Hff Hb. pose proof Hff as (Hfb & Hu & _). destruct (Hfr fb Hfb Hu) as (_ & _ & _ & Hnb).
  unfold used, alloc_block. rewrite fupd_ne by (intros E; by apply (Hnb b Hb)).
  destruct (Hbm b Hb) as [_ Hlen]. destruct (Hbm fb Hfb) as [_ Hlenf]. pose proof (Z.mod_pos_bound b BPB BPB_pos).
  destruct (decide (BBLOCK b sb = BBLOCK fb sb)) as [E|E].
  - rewrite E, fupd_eq, bit_used_set by (lia || by apply mod_BPB_bits).
    case_decide as E2; case_decide as E3; subst; try done. destruct E3. by eapply (bitmap_inj start sb V).
  - rewrite fupd_ne by done. rewrite decide_False; [done|]. by intros ->.
Qed.

Lemma alloc_other V fb b : b <> fb -> b <> BBLOCK fb sb -> alloc_block sb V fb b = V b.
Proof using. intros H1 H2. unfold alloc_block. by rewrite !fupd_ne. Qed.

Lemma alloc_new V fb : alloc_block sb V fb fb = zero_block.
Proof using. unfold alloc_block. apply fupd_eq. Qed.

Lemma bit_set_length bi (d : block) : length (bit_set bi d) = length d.
Proof using. unfold bit_set. apply length_insert. Qed.

Lemma alloc_fs_ok V fb : fs_ok V -> first_free sb V fb -> fs_ok (alloc_block sb V fb).
Proof using.
  intros Hfs Hff. pose proof Hfs as [Hbm Hsz Hbs Hfr Hi]. pose proof Hff as (Hfb & Hu & _).
  destruct (Hfr fb Hfb Hu) as (_ & _ & _ & Hnb). constructor; [|done|done| |done].
  - intros b Hb. destruct (Hbm b Hb) as [Hl Hlen]. split; [done|]. unfold alloc_block.
    rewrite fupd_ne by (intros E; by apply (Hnb b Hb)).
    destruct (decide (BBLOCK b sb = BBLOCK fb sb)) as [E|E]; [|by rewrite fupd_ne].
    by rewrite E, fupd_eq, bit_set_length, <-E.
  - intros b Hb. rewrite alloc_used by done. destruct (decide (b = fb)); [done|]. by apply Hfr.
Qed.

(** The new block, and the file it is not yet part of. *)
Lemma alloc_in_use V fb : fs_ok V -> first_free sb V fb -> in_use (alloc_block sb V fb) fb.
Proof using.
  intros Hfs Hff. pose proof Hff as (Hfb & Hu & _). destruct (fs_free _ Hfs fb Hfb Hu) as (H0 & Hl & Hd).
  constructor; [done|by rewrite alloc_used, decide_True|done|done|]. rewrite alloc_new. by vm_compute.
Qed.

Lemma in_use_alloc V fb b : fs_ok V -> first_free sb V fb -> in_use V b ->
  b <> fb /\ alloc_block sb V fb b = V b /\ in_use (alloc_block sb V fb) b.
Proof using.
  intros Hfs Hff [U1 U2 U3 U4 U5]. pose proof Hff as (Hfb & Hu & _).
  assert (Hne : b <> fb) by (intros ->; congruence).
  assert (E : alloc_block sb V fb b = V b) by (apply alloc_other; [done|by apply U4]).
  split_and!; [done|done|]. constructor; [done| |done|done|by rewrite E]. rewrite alloc_used by done. by rewrite decide_False.
Qed.

Lemma alloc_file_ok V i fb : fs_ok V -> file_ok V i -> first_free sb V fb ->
  let V' := alloc_block sb V fb in
  file_ok V' i /\ (forall bn, fblock V' i bn = fblock V i bn) /\ ~ owned V' i fb /\ (forall b, owned V i b -> V' b = V b).
Proof using.
  intros Hfs Hf Hff V'.
  assert (Ho : forall b, owned V i b -> b <> fb /\ V' b = V b /\ in_use V' b).
  { intros b Hb. by apply in_use_alloc; [..|by apply (fo_own _ _ Hf)]. }
  assert (Ef : forall bn, fblock V' i bn = fblock V i bn).
  { apply fblock_ext. intros Hi. by apply Ho, owned_iblock. }
  split_and!; [|done| |by intros b Hb; apply Ho].
  - apply (file_ok_ext V); [done|done|]. intros b Hb. destruct (Ho b Hb) as (_ & _ & [_ U2 _ _ U5]). done.
  - rewrite (owned_ext V V') by done. intros Hb. by apply Ho in Hb as [? _].
Qed.

(** ** It is entered in the map *)

Lemma file_ok_add V V' i i' bn fb : file_ok V i -> i_dev i' = i_dev i -> length (i_addrs i') = 13%nat ->
  iblock i' = iblock i -> 0 <= bn < MAXFILE -> fb <> 0 -> ~ owned V i fb -> in_use V' fb ->
  (forall b, owned V i b -> in_use V' b) ->
  (forall k, 0 <= k < MAXFILE -> fblock V' i' k = if decide (k = bn) then fb else fblock V i k) -> file_ok V' i'.
Proof using.
  intros Hf Ed El Ei Hbn Hfb Hno Hu Ho Ef. pose proof Hf as [F1 F2 F3 F4 F5].
  assert (Hsplit : forall b, owned V' i' b -> b = fb \/ owned V i b).
  { intros b [Hb [E|(k & Hk & E)]].
    - right. split; [done|]. left. by rewrite <-Ei.
    - rewrite Ef in E by done. destruct (decide (k = bn)); [by left|]. right. split; [done|]. right. by exists k. }
  constructor; [congruence|done| | |].
  - intros b [->|Hb]%Hsplit; [done|by apply Ho].
  - intros k k' Hk Hk'. rewrite !Ef by done. destruct (decide (k = bn)) as [->|Hn], (decide (k' = bn)) as [->|Hn']; try done.
    + intros E _. destruct Hno. rewrite E. apply owned_fblock; [done|by rewrite <-E].
    + intros E Hz. destruct Hno. rewrite <-E. by apply owned_fblock.
    + by apply F4.
  - intros k Hk. rewrite Ef by done. rewrite Ei. destruct (decide (k = bn)); [|by apply F5].
    intros _ E. destruct Hno. split; [done|]. by left.
Qed.

(** A direct block. *)
Definition with_addr (i : inode) (n a : Z) : inode := set_i_addrs (<[Z.to_nat n := a]> (i_addrs i)) i.

Lemma addr_of_with i n a k : length (i_addrs i) = 13%nat -> 0 <= n <= NDIRECT -> 0 <= k <= NDIRECT ->
  addr_of (with_addr i n a) k = if decide (k = n) then a else addr_of i k.
Proof using.
  intros Hl Hn Hk. unfold addr_of, with_addr, NDIRECT in *. cbn [i_addrs set_i_addrs].
  destruct (decide (k = n)) as [->|Hne]; [apply list_lookup_total_insert_eq; lia|].
  apply list_lookup_total_insert_ne. lia.
Qed.

Lemma fblock_direct V i bn fb k : length (i_addrs i) = 13%nat -> 0 <= bn < NDIRECT -> 0 <= k ->
  fblock V (with_addr i bn fb) k = if decide (k = bn) then fb else fblock V i k.
Proof using.
  intros Hl Hb Hk. unfold fblock, iblock. rewrite (addr_of_with i bn fb NDIRECT) by (done || lia).
  rewrite (decide_False (P := NDIRECT = bn)) by lia. destruct (Z.ltb_spec k NDIRECT).
  - by rewrite addr_of_with by (done || lia).
  - by rewrite decide_False by lia.
Qed.

(** The indirect block, which is empty. *)
Lemma get_zero off : get_u32 off zero_block = 0.
Proof using.
  unfold get_u32, get_le, slice. unfold zero_block. rewrite drop_replicate, take_replicate.
  generalize (Z.to_nat 4 `min` (Z.to_nat BSIZE - Z.to_nat off))%nat. intros n. induction n as [|n IH]; [done|].
  cbn [replicate le_val]. by rewrite IH.
Qed.

Lemma add_indirect V i fb : file_ok V i -> iblock i = 0 -> fb <> 0 -> ~ owned V i fb -> in_use V fb -> V fb = zero_block ->
  let i' := with_addr i NDIRECT fb in
  file_ok V i' /\ iblock i' = fb /\ forall bn, 0 <= bn < MAXFILE -> fblock V i' bn = fblock V i bn.
Proof using.
  intros Hf Hi Hfb Hno Hu Hz i'. pose proof Hf as [F1 F2 F3 F4 F5].
  assert (Ei : iblock i' = fb).
  { unfold iblock, i'. rewrite addr_of_with by (done || unfold NDIRECT; lia). by rewrite decide_True. }
  assert (Ef : forall bn, 0 <= bn < MAXFILE -> fblock V i' bn = fblock V i bn).
  { intros bn Hbn. unfold fblock. rewrite Ei, Hi, Hz, get_zero. rewrite (proj2 (Z.eqb_neq fb 0) Hfb). cbn [Z.eqb].
    destruct (Z.ltb_spec bn NDIRECT); [|done]. unfold i'. rewrite addr_of_with by (done || lia). by rewrite decide_False by lia. }
  split_and!; [|done|done]. constructor; [done|by unfold i'; cbn; rewrite length_insert| | |].
  - intros b [Hb [E|(k & Hk & E)]]; [by rewrite E, Ei|]. apply F3. split; [done|]. right. exists k. by rewrite <-Ef.
  - intros k k' Hk Hk'. rewrite !Ef by done. by apply F4.
  - intros k Hk Hn E. rewrite Ef in Hn, E by done. apply Hno. rewrite Ei in E. rewrite <-E. by apply owned_fblock.
Qed.

(** An entry of the indirect block. *)
Definition with_entry (V : Z -> block) (i : inode) (bn a : Z) : Z -> block :=
  fupd V (iblock i) (put_32 (4 * (bn - NDIRECT)) a (V (iblock i))).

Lemma fblock_entry V i bn fb k : iblock i <> 0 -> Z.of_nat (length (V (iblock i))) = BSIZE ->
  NDIRECT <= bn < MAXFILE -> 0 <= k < MAXFILE -> 0 <= fb < 2 ^ 32 ->
  fblock (with_entry V i bn fb) i k = if decide (k = bn) then fb else fblock V i k.
Proof using.
  intros Hi Hl Hb Hk Hfb. unfold fblock, with_entry. rewrite (proj2 (Z.eqb_neq (iblock i) 0) Hi), fupd_eq.
  assert (HM : 4 * (bn - NDIRECT) + 4 <= Z.of_nat (length (V (iblock i)))).
  { rewrite Hl. change MAXFILE with 268 in Hb. unfold BSIZE, NDIRECT in *. lia. }
  destruct (Z.ltb_spec k NDIRECT); [by rewrite decide_False by lia|]. unfold get_u32, put_32.
  destruct (decide (k = bn)) as [->|Hne].
  - rewrite get_put_same by lia. apply Z.mod_small. simpl. lia.
  - apply get_put_disjoint; lia.
Qed.

Lemma write_owned V i b d : file_ok V i -> owned V i b -> Z.of_nat (length d) = BSIZE ->
  (forall bn, fblock (fupd V b d) i bn = fblock V i bn) -> file_ok (fupd V b d) i.
Proof using.
  intros Hf Hb Hd Ef. apply (file_ok_ext V); [done|done|]. intros c Hc. pose proof (fo_own _ _ Hf b Hb) as [_ _ _ [_ Hnb] _].
  pose proof (fo_own _ _ Hf c Hc) as [C1 C2 _ _ C5]. split.
  - rewrite (used_ext V); [done|]. apply fupd_ne. intros E. by apply (Hnb c C1).
  - destruct (decide (c = b)) as [->|Hne]; [by rewrite fupd_eq|by rewrite fupd_ne].
Qed.

Lemma write_fs_ok V b d : fs_ok V -> data_block b -> fs_ok (fupd V b d).
Proof using.
  intros [Hbm Hsz Hbs Hfr Hi] [_ Hnb].
  assert (E : forall c, 0 <= c < sb_size sb -> fupd V b d (BBLOCK c sb) = V (BBLOCK c sb)).
  { intros c Hc. apply fupd_ne. intros E. by apply (Hnb c Hc). }
  constructor; [|done|done| |done].
  - intros c Hc. rewrite E by done. by apply Hbm.
  - intros c Hc. rewrite (used_ext V) by (by apply E). by apply Hfr.
Qed.
End file.
