(* ===== verification/FsWrite.v ===== *)
(** * Writing files: bmap and writei of kernel/fs.c

    In a transaction, [bmap] allocates the blocks a file grows by, and
    [writei] fills them. *)

From S2P Require Import Prelude Params Memory Kalloc Block State Sched SchedSpec Quiet Kcopy.
From S2P Require Import Uart Dll Bio BioSpec Cache Log LogSpec Crash Fs FsSpec FsBlocks FsContent FsFile.

(** ** Free blocks *)

(** At least [n] blocks are free. *)
Definition enough (sb : superblock) (V : Z -> block) (n : nat) : Prop :=
  exists l, NoDup l /\ length l = n /\ Forall (fun b => 0 <= b < sb_size sb /\ used sb V b = false) l.

Lemma enough_le sb V m n : (m <= n)%nat -> enough sb V n -> enough sb V m.
Proof.
  intros Hm (l & Hn & Hl & Hf). exists (take m l). split_and!; [|rewrite length_take; lia|by apply Forall_take].
  rewrite <-(take_drop m l) in Hn. by apply NoDup_app in Hn as [? _].
Qed.

Lemma enough_ext sb V V' n : (forall b, 0 <= b < sb_size sb -> used sb V' b = used sb V b) -> enough sb V n -> enough sb V' n.
Proof.
  intros E (l & Hn & Hl & Hf). exists l. split_and!; [done|done|]. eapply Forall_impl; [exact Hf|].
  intros b [Hb Hu]. split; [done|]. by rewrite E.
Qed.

(** The first of them. *)
Lemma least_free sb V n b : 0 <= b < sb_size sb -> used sb V b = false -> (Z.to_nat b < n)%nat -> exists fb, first_free sb V fb.
Proof.
  revert b. induction n as [|n IH]; intros b Hb Hu Hn; [lia|].
  destruct (list_first (fun c => negb (used sb V c)) (upto b)) as [(l1 & c & l2 & E & Hc & _)|Hall].
  - assert (Hin : c ∈ upto b) by (rewrite E; apply elem_of_app; right; by left). apply elem_of_upto in Hin.
    apply (IH c); [lia|by apply negb_true_iff|lia].
  - exists b. split_and!; [lia|lia|done|]. intros c Hc. apply negb_false_iff, Hall, elem_of_upto. lia.
Qed.

Lemma enough_alloc start sb ib V n : fs_ok start sb ib V -> enough sb V (S n) ->
  exists fb, first_free sb V fb /\ enough sb (alloc_block sb V fb) n.
Proof.
  intros Hfs (l & Hn & Hl & Hf). destruct l as [|b l]; [done|]. pose proof (Forall_inv Hf) as [Hb Hu].
  destruct (least_free sb V (S (Z.to_nat b)) b Hb Hu) as (fb & Hff); [lia|]. exists fb. split; [done|].
  assert (Hd : exists l', NoDup l' /\ (n <= length l')%nat /\ (fb ∉ l') /\ Forall (fun b => 0 <= b < sb_size sb /\ used sb V b = false) l').
  { destruct (decide (fb ∈ b :: l)) as [Hin|Hni].
    - apply list_elem_of_split in Hin as (l1 & l2 & E). rewrite E in Hn, Hl, Hf. exists (l1 ++ l2).
      rewrite <-(Permutation_middle l1 l2 fb) in Hn.  apply NoDup_cons in Hn as [Hn1 Hn2].
      rewrite length_app in *. simpl in Hl. split_and!; [done|lia|done|].
      apply Forall_app in Hf as [F1 F2]. apply Forall_cons in F2 as [_ F2]. by apply Forall_app.
    - exists (b :: l). split_and!; [done|lia|done|done]. }
  destruct Hd as (l' & N' & L' & Hni & F'). eapply enough_le; [exact L'|]. exists l'. split_and!; [done|done|].
  rewrite Forall_forall in F' |- *. intros x Hx. destruct (F' x Hx) as [Hx1 Hx2]. split; [done|].
  rewrite (alloc_used start sb ib) by done. rewrite decide_False; [done|]. by intros ->.
Qed.

(** ** The state of a writer *)

Lemma txn_set_it me q start k W V D L H it s :
  txn me q start k W V D L H s -> txn me q start k W V D L H (set_k_it it s).
Proof. intros [T1 T2 T3 T4 T5]. constructor; [by apply binv_set_it|done..]. Qed.

Lemma wp_iset_ ip f s i (Q : unit -> kernel -> Prop) : inodes s !! ip = Some i ->
  (forall it, it_inode it = <[ip := f i]> (inodes s) -> Q tt (set_k_it it s)) -> wp (iset_ ip f) s Q.
Proof.
  intros Hi HQ. eapply wp_done; [|apply (HQ (set_it_inode (<[ip := f i]> (inodes s)) (k_it s))); by destruct (k_it s)].
  unfold iset_, setf, inodeL, nthL, lcomp, modify. simpl. by rewrite (list_lookup_total_correct _ _ _ Hi).
Qed.

(** The place of a chunk in its block. *)
Lemma chunk_place o m x : 0 <= o -> 0 < m -> o mod BSIZE + m <= BSIZE -> 0 <= x ->
  (o <= x < o + m -> x / BSIZE = o / BSIZE) /\
  (x / BSIZE = o / BSIZE -> o <= x < o + m <-> o mod BSIZE <= x mod BSIZE < o mod BSIZE + m) /\
  (x / BSIZE = o / BSIZE -> x mod BSIZE - o mod BSIZE = x - o) /\ 0 <= x mod BSIZE < BSIZE.
Proof. intros Ho Hm Hle Hx. unfold BSIZE in *. split_and!; Z.div_mod_to_equations; lia. Qed.

Section writer.
Context {HF : Fuel} {HU : UartHw} (me : nat) (q : proc) (start : Z) (sb : superblock) (ib : Z) (ip : nat).
Context (W : list (Z * block)) (D : Z -> block).
Abbreviation fs_ok := (fs_ok start sb ib).
Abbreviation file_ok := (file_ok start sb ib).

(** A transaction that may still log [k] blocks, on a file system in order, with [n] free
    blocks, and the inode [i] of a file in order. *)
Record writing (k : Z) (n : nat) (V : Z -> block) (i : inode) (s : kernel) : Prop := {
  wr_txn : exists L, txn me q start k W V D L ∅ s;
  wr_sb : k_sb s = sb;
  wr_inode : inodes s !! ip = Some i;
  wr_fs : fs_ok V;
  wr_file : file_ok V i;
  wr_enough : enough sb V n;
}.

Lemma writing_weaken k k' n n' V i s : k' <= k -> (n' <= n)%nat -> writing k n V i s -> writing k' n' V i s.
Proof using.
  intros Hk Hn [[L W1] W2 W3 W4 W5 W6]. constructor; [exists L; by eapply txn_weaken|done..|by eapply enough_le].
Qed.

(** What has become of the file: part [bn] is in block [b] now, and everything that was there still is. *)
Record mapped (V : Z -> block) (i : inode) (bn : Z) (V' : Z -> block) (i' : inode) (b : Z) : Prop := {
  mp_inode : i' = set_i_addrs (i_addrs i') i;
  mp_nonzero : b <> 0;
  mp_block : fblock V' i' bn = b;
  mp_old : forall k, 0 <= k < MAXFILE -> k <> bn \/ fblock V i k <> 0 -> fblock V' i' k = fblock V i k;
  mp_data : forall k, 0 <= k < MAXFILE -> fblock V i k <> 0 -> V' (fblock V i k) = V (fblock V i k);
  mp_ib : V' ib = V ib;
}.

Lemma mapped_same V i bn : fblock V i bn <> 0 -> mapped V i bn V i (fblock V i bn).
Proof using. intros Hn. constructor; try done. by destruct i. Qed.

Lemma alloc_ib V fb : fs_ok V -> first_free sb V fb -> alloc_block sb V fb ib = V ib.
Proof using.
  intros Hfs Hff. pose proof Hff as (Hfb & Hu & _). destruct (fs_free _ _ _ _ Hfs fb Hfb Hu) as (_ & _ & Hd & _).
  apply alloc_other; [by apply not_eq_sym|]. by apply (fs_inode _ _ _ _ Hfs).
Qed.

(** [balloc], when no block is held or the block [h] is. *)
Lemma wp_balloc_file k n V i s H L (Q : Z -> kernel -> Prop) :
  txn me q start (k + 2) W V D L H s -> 0 <= k -> Z.of_nat (size H) <= k + 1 -> k_sb s = sb -> fs_ok V -> file_ok V i ->
  enough sb V (S n) -> (forall j h, H !! j = Some h -> in_use start sb ib V h) ->
  (forall fb L' s', first_free sb V fb -> enough sb (alloc_block sb V fb) n ->
     txn me q start k W (alloc_block sb V fb) D L' H s' -> lframe s s' -> Q fb s') ->
  wp (balloc ROOTDEV) s Q.
Proof using.
  intros Ht Hk HH Hsb Hfs Hf Hen Hheld HQ. destruct (enough_alloc _ _ _ _ _ Hfs Hen) as (fb & Hff & Hen').
  pose proof Hff as (Hfb & Hu & _). destruct (fs_free _ _ _ _ Hfs fb Hfb Hu) as (_ & Hl & _).
  eapply (wp_balloc me q start sb); [done|done|done|done|apply Hfs|exact Hff|done| | |].
  - intros b j Hb E. destruct (Hheld j _ E) as [_ _ _ [_ Hn] _]. by apply (Hn b Hb).
  - intros j E. destruct (Hheld j _ E) as [_ U _ _ _]. congruence.
  - intros s' Ht' F. by eapply HQ.
Qed.

(** A new direct block. *)
Lemma mapped_direct V i bn fb : fs_ok V -> file_ok V i -> first_free sb V fb -> 0 <= bn < NDIRECT -> fblock V i bn = 0 ->
  let V' := alloc_block sb V fb in let i' := with_addr i bn fb in
  fs_ok V' /\ file_ok V' i' /\ mapped V i bn V' i' fb.
Proof using.
  intros Hfs Hf Hff Hbn H0 V' i'. pose proof Hff as (Hfb & Hu & _).
  destruct (fs_free _ _ _ _ Hfs fb Hfb Hu) as (Hnz & _ & _).
  destruct (alloc_file_ok _ _ _ _ _ _ Hfs Hf Hff) as (Hf' & Ef & Hno & Ho). fold V' in Hf', Ef, Hno, Ho.
  assert (Hfs' : fs_ok V') by by apply alloc_fs_ok.
  assert (HM : NDIRECT <= MAXFILE) by by vm_compute.
  assert (Ei : forall k, 0 <= k -> fblock V' i' k = if decide (k = bn) then fb else fblock V' i k).
  { intros k Hk. apply fblock_direct; [apply (fo_addrs _ _ _ _ _ Hf)|done|done]. }
  split_and!; [done| |].
  - eapply (file_ok_add start sb ib V' V' i i' bn fb); try done.
    + unfold i', with_addr. cbn. rewrite length_insert. apply (fo_addrs _ _ _ _ _ Hf).
    + unfold i', iblock. rewrite addr_of_with by (apply (fo_addrs _ _ _ _ _ Hf) || lia). by rewrite decide_False by lia.
    + lia.
    + by apply alloc_in_use.
    + intros b Hb. by apply (fo_own _ _ _ _ _ Hf').
    + intros k Hk. apply Ei. lia.
  - constructor.
    + by destruct i.
    + done.
    + rewrite Ei by lia. by rewrite decide_True.
    + intros k Hk Hor. rewrite Ei, Ef by lia. destruct (decide (k = bn)) as [->|]; [|done]. destruct Hor; [done|congruence].
    + intros k Hk Hn. by apply Ho, owned_fblock.
    + by apply alloc_ib.
Qed.

Lemma wp_bmap_direct k n V i s bn (Q : Z -> kernel -> Prop) : writing (k + 5) (n + 2) V i s -> 0 <= k -> 0 <= bn < NDIRECT ->
  (forall V' i' b s', writing k n V' i' s' -> mapped V i bn V' i' b -> Q b s') -> wp (bmap ip bn) s Q.
Proof using.
  intros Hw Hk Hbn HQ. pose proof Hw as [[L Ht] Hsb Hi Hfs Hf Hen]. unfold bmap.
  apply wp_bind. eapply wp_iget_; [done|]. rewrite (fo_dev _ _ _ _ _ Hf). replace (bn <? NDIRECT) with true by lia.
  apply wp_bind. unfold addr_get. eapply wp_iget_; [done|]. fold (addr_of i bn).
  assert (Ea : fblock V i bn = addr_of i bn) by (unfold fblock; by replace (bn <? NDIRECT) with true by lia).
  destruct (Z.eqb_spec (addr_of i bn) 0) as [E0|Hn].
  - apply wp_bind. eapply (wp_balloc_file (k + 3) (n + 1)); [by replace (k + 3 + 2) with (k + 5) by lia|lia|rewrite map_size_empty; lia|
      done|done|exact Hf|by replace (S (n + 1)) with (n + 2)%nat by lia|done|].
    intros fb L' s1 Hff Hen1 Ht1 F1.
    destruct (mapped_direct V i bn fb Hfs Hf Hff Hbn ltac:(congruence)) as (Hfs' & Hf' & Hm).
    rewrite (proj2 (Z.eqb_neq fb 0) (mp_nonzero _ _ _ _ _ _ Hm)). apply wp_bind.
    eapply wp_iset_; [by rewrite (lframe_it _ _ F1)|]. intros it Eit. apply wp_ret. eapply HQ; [|exact Hm].
    constructor; [exists L'; apply txn_set_it; eapply txn_weaken; [|exact Ht1]; lia| | |done|done|eapply enough_le; [|exact Hen1]; lia].
    + cbn. by rewrite (lframe_sb _ _ F1).
    + cbn. rewrite Eit, (lframe_it _ _ F1). apply list_lookup_insert_eq. by eapply lookup_lt_Some.
  - apply wp_ret. rewrite <-Ea. eapply HQ; [eapply writing_weaken; [| |exact Hw]; lia|]. apply mapped_same. by rewrite Ea.
Qed.

Lemma in_use_write V b c d : in_use start sb ib V b -> data_block sb ib c -> (b = c -> Z.of_nat (length d) = BSIZE) ->
  in_use start sb ib (fupd V c d) b.
Proof using.
  intros [U1 U2 U3 U4 U5] [_ Hc] Hd. constructor; [done| |done|done|].
  - rewrite (used_ext sb V); [done|]. apply fupd_ne. intros E. by apply (Hc b U1).
  - destruct (decide (b = c)) as [->|Hne]; [rewrite fupd_eq; by apply Hd|by rewrite fupd_ne].
Qed.

(** ** The indirect block *)

(** The same file, with an indirect block. *)
Record with_indirect (V : Z -> block) (i : inode) (V' : Z -> block) (i' : inode) : Prop := {
  wi_inode : i' = set_i_addrs (i_addrs i') i;
  wi_nonzero : iblock i' <> 0;
  wi_block : forall k, 0 <= k < MAXFILE -> fblock V' i' k = fblock V i k;
  wi_data : forall k, 0 <= k < MAXFILE -> fblock V i k <> 0 -> V' (fblock V i k) = V (fblock V i k);
  wi_ib : V' ib = V ib;
}.

Definition get_indirect : K Z :=
  addr <- addr_get ip NDIRECT ;;
  if addr =? 0 then
    addr <- balloc ROOTDEV ;;
    when (negb (addr =? 0)) (addr_set ip NDIRECT addr) ;;
    ret addr
  else ret addr.

Lemma wp_get_indirect k n V i s (Q : Z -> kernel -> Prop) : writing (k + 2) (n + 1) V i s -> 0 <= k ->
  (forall V' i' s', writing k n V' i' s' -> with_indirect V i V' i' -> Q (iblock i') s') -> wp get_indirect s Q.
Proof using.
  intros Hw Hk HQ. pose proof Hw as [[L Ht] Hsb Hi Hfs Hf Hen]. unfold get_indirect, addr_get.
  apply wp_bind. eapply wp_iget_; [done|]. fold (addr_of i NDIRECT). fold (iblock i).
  destruct (Z.eqb_spec (iblock i) 0) as [E0|Hn].
  - apply wp_bind. eapply (wp_balloc_file k n); [done|done|rewrite map_size_empty; lia|
      done|done|exact Hf|by replace (S n) with (n + 1)%nat by lia|done|].
    intros fb L' s1 Hff Hen1 Ht1 F1. pose proof Hff as (Hfb & Hu & _).
    destruct (fs_free _ _ _ _ Hfs fb Hfb Hu) as (Hnz & _ & _).
    destruct (alloc_file_ok _ _ _ _ _ _ Hfs Hf Hff) as (Hf' & Ef & Hno & Ho).
    destruct (add_indirect start sb ib (alloc_block sb V fb) i fb Hf' E0 Hnz Hno) as (Hf2 & Ei & Ef2);
      [by apply alloc_in_use|by apply alloc_new|].
    rewrite (proj2 (Z.eqb_neq fb 0) Hnz). cbn [negb when]. apply wp_bind.
    eapply wp_iset_; [by rewrite (lframe_it _ _ F1)|]. intros it Eit. apply wp_ret. rewrite <-Ei. eapply HQ.
    + constructor; [exists L'; by apply txn_set_it| | |by apply alloc_fs_ok|exact Hf2|done].
      * cbn. by rewrite (lframe_sb _ _ F1).
      * cbn. rewrite Eit, (lframe_it _ _ F1). apply list_lookup_insert_eq. by eapply lookup_lt_Some.
    + constructor; [by destruct i|by rewrite Ei| | |by apply alloc_ib].
      * intros b Hb. by rewrite Ef2, Ef.
      * intros b Hb Hn. by apply Ho, owned_fblock.
  - apply wp_ret. eapply HQ; [eapply writing_weaken; [| |exact Hw]; lia|]. constructor; try done. by destruct i.
Qed.

(** A new entry of it. *)
Lemma mapped_entry V i bn fb : fs_ok V -> file_ok V i -> first_free sb V fb -> iblock i <> 0 ->
  NDIRECT <= bn < MAXFILE -> fblock V i bn = 0 ->
  let V' := with_entry (alloc_block sb V fb) i bn fb in
  fs_ok V' /\ file_ok V' i /\ mapped V i bn V' i fb /\ alloc_block sb V fb (iblock i) = V (iblock i).
Proof using.
  intros Hfs Hf Hff Hi Hbn H0 V'. pose proof Hff as (Hfb & Hu & _).
  destruct (fs_free _ _ _ _ Hfs fb Hfb Hu) as (Hnz & _ & _). set (V1 := alloc_block sb V fb).
  destruct (alloc_file_ok _ _ _ _ _ _ Hfs Hf Hff) as (Hf1 & Ef & Hno & Ho). fold V1 in Hf1, Ef, Hno, Ho.
  pose proof (fo_own _ _ _ _ _ Hf1 _ (owned_iblock V1 i Hi)) as Ui. pose proof Ui as [_ _ _ Hdi Hli].
  assert (Hlen : Z.of_nat (length (put_32 (4 * (bn - NDIRECT)) fb (V1 (iblock i)))) = BSIZE).
  { unfold put_32. rewrite put_le_length; [done|..]; change MAXFILE with 268 in Hbn; unfold NDIRECT, BSIZE in *; lia. }
  assert (Hfb32 : 0 <= fb < 2 ^ 32) by (pose proof (fs_size _ _ _ _ Hfs); pose proof (fs_start _ _ _ _ Hfs); lia).
  assert (Ee : forall k, 0 <= k < MAXFILE -> fblock V' i k = if decide (k = bn) then fb else fblock V1 i k).
  { intros k Hk. by apply fblock_entry. }
  assert (Hbn' : 0 <= bn < MAXFILE) by (unfold NDIRECT in *; lia).
  split_and!.
  - apply write_fs_ok; [by apply alloc_fs_ok|done].
  - apply (file_ok_add start sb ib V1 V' i i bn fb); try done.
    + apply (fo_addrs _ _ _ _ _ Hf).
    + apply in_use_write; [by apply alloc_in_use|done|done].
    + intros b Hb. apply in_use_write; [by apply (fo_own _ _ _ _ _ Hf1)|done|done].
  - constructor; [by destruct i|done|by rewrite Ee, decide_True| | |].
    + intros k Hk Hor. rewrite Ee, Ef by done. destruct (decide (k = bn)) as [->|]; [|done]. destruct Hor; [done|congruence].
    + intros k Hk Hn. unfold V', with_entry. rewrite fupd_ne by (by apply (fo_ind _ _ _ _ _ Hf)). by apply Ho, owned_fblock.
    + unfold V', with_entry. rewrite fupd_ne by (apply not_eq_sym; apply Hdi). by apply alloc_ib.
  - by apply Ho, owned_iblock.
Qed.

Lemma mapped_trans V i V1 i1 bn V2 i2 b : with_indirect V i V1 i1 -> mapped V1 i1 bn V2 i2 b -> 0 <= bn < MAXFILE -> mapped V i bn V2 i2 b.
Proof using.
  intros [I1 I2 I3 I4 I5] [M1 M2 M3 M4 M5 M6] Hbn. constructor; [|done|done| | |congruence].
  - rewrite M1, I1. by destruct i.
  - intros k Hk Hor. rewrite M4; [by apply I3|done|]. by rewrite I3.
  - intros k Hk Hn. rewrite <-I3, M5 by (done || by rewrite I3). by rewrite I3, I4.
Qed.

Lemma wp_bmap_indirect k n V i s bn (Q : Z -> kernel -> Prop) : writing (k + 5) (n + 2) V i s -> 0 <= k -> NDIRECT <= bn < MAXFILE ->
  (forall V' i' b s', writing k n V' i' s' -> mapped V i bn V' i' b -> Q b s') -> wp (bmap ip bn) s Q.
Proof using.
  intros Hw Hk Hbn HQ. pose proof Hw as [_ _ Hi0 _ Hf0 _]. unfold bmap.
  assert (Hbn' : 0 <= bn < MAXFILE) by (unfold NDIRECT in *; lia).
  apply wp_bind. eapply wp_iget_; [done|]. rewrite (fo_dev _ _ _ _ _ Hf0). replace (bn <? NDIRECT) with false by lia.
  replace (bn - NDIRECT <? NINDIRECT) with true by (change MAXFILE with (NDIRECT + NINDIRECT) in Hbn; lia).
  assert (Hg : wp get_indirect s (fun a s1 => exists V1 i1, a = iblock i1 /\ writing (k + 3) (n + 1) V1 i1 s1 /\ with_indirect V i V1 i1)).
  { eapply (wp_get_indirect (k + 3) (n + 1)); [by replace (k + 3 + 2) with (k + 5) by lia; replace (n + 1 + 1)%nat with (n + 2)%nat by lia|lia|].
    intros V' i' s' H1 H2. by exists V', i'. }
  destruct Hg as (a & s1 & Hrun & V1 & i1 & -> & Hw1 & Hwi).
  unfold get_indirect, addr_get in Hrun. rewrite (bind_done _ _ _ _ _ (iget__eq ip _ s i Hi0)) in Hrun.
  apply wp_bind. eapply wp_iget_; [done|]. apply wp_bind. eapply wp_done; [exact Hrun|]. clear Hrun.
  pose proof Hw1 as [[L Ht] Hsb Hi Hfs Hf Hen]. pose proof (wi_nonzero _ _ _ _ Hwi) as Hnz.
  rewrite (proj2 (Z.eqb_neq _ 0) Hnz).
  apply wp_bind. eapply (wp_txn_bread me q); [exact Ht|done|right; rewrite map_size_empty; lia|]. intros b s2 Ht2 Hb F2.
  assert (Hbb : <[b := iblock i1]> (∅ : gmap nat Z) !! b = Some (iblock i1)) by apply lookup_insert_eq.
  apply wp_bind. eapply (wp_txn_bdata me q); [exact Ht2|done|].
  assert (Ee : fblock V1 i1 bn = get_u32 (4 * (bn - NDIRECT)) (V1 (iblock i1))).
  { unfold fblock. replace (bn <? NDIRECT) with false by lia. by rewrite (proj2 (Z.eqb_neq _ 0) Hnz). }
  rewrite <-Ee. destruct (Z.eqb_spec (fblock V1 i1 bn) 0) as [E0|Hne].
  - apply wp_bind, wp_bind. eapply (wp_balloc_file (k + 1) n); [by replace (k + 1 + 2) with (k + 3) by lia|lia|
      rewrite map_size_insert_None, map_size_empty by done; lia|by rewrite (lframe_sb _ _ F2)|done|exact Hf|
      by replace (S n) with (n + 1)%nat by lia| |].
    { intros j h Hj. apply lookup_insert_Some in Hj as [[_ <-]|[_ Hj]]; [|done]. by apply (fo_own _ _ _ _ _ Hf), owned_iblock. }
    intros fb L' s3 Hff Hen3 Ht3 F3.
    destruct (mapped_entry V1 i1 bn fb Hfs Hf Hff Hnz Hbn E0) as (Hfs' & Hf' & Hm & Eb).
    rewrite (proj2 (Z.eqb_neq fb 0) (mp_nonzero _ _ _ _ _ _ Hm)). cbn [negb when].
    pose proof (fo_own _ _ _ _ _ Hf _ (owned_iblock V1 i1 Hnz)) as [_ _ Hlog _ _].
    apply wp_bind, wp_bind. eapply (wp_txn_bdata_set me q); [exact Ht3|done|]. intros s4 Ht4 F4.
    eapply (wp_txn_log_write me q); [exact Ht4|done|done|done|]. intros s5 Ht5 F5. apply wp_ret.
    apply wp_bind. eapply (wp_txn_brelse me q); [exact Ht5|done|left; by apply elem_of_union_l, elem_of_singleton|].
    intros s6 Ht6 F6. rewrite delete_fresh in Ht6 by done. apply wp_ret.
    assert (F : lframe s1 s6) by eauto 10 using lframe_trans.
    eapply HQ; [|by eapply mapped_trans]. constructor; [by eexists|by rewrite (lframe_sb _ _ F)|by rewrite (lframe_it _ _ F)|done|done|].
    eapply enough_ext; [|exact Hen3]. intros c Hc. apply used_ext. unfold with_entry. apply fupd_ne. intros E.
    pose proof (fo_own _ _ _ _ _ Hf _ (owned_iblock V1 i1 Hnz)) as [_ _ _ [_ Hd] _]. by apply (Hd c Hc).
  - apply wp_bind, wp_ret. apply wp_bind. eapply (wp_txn_brelse me q); [exact Ht2|done|by eapply (txn_clean me q start _ _ _ _ _ ∅); [exact Ht|]|].
    intros s3 Ht3 F3. rewrite delete_fresh in Ht3 by done. apply wp_ret.
    assert (F : lframe s1 s3) by eauto using lframe_trans.
    eapply HQ; [|eapply mapped_trans; [exact Hwi|by apply mapped_same|done]].
    eapply (writing_weaken (k + 3) k (n + 1) n); [lia|lia|].
    constructor; [by eexists|by rewrite (lframe_sb _ _ F)|by rewrite (lframe_it _ _ F)|done|done|done].
Qed.

Lemma wp_bmap_write k n V i s bn (Q : Z -> kernel -> Prop) : writing (k + 5) (n + 2) V i s -> 0 <= k -> 0 <= bn < MAXFILE ->
  (forall V' i' b s', writing k n V' i' s' -> mapped V i bn V' i' b -> Q b s') -> wp (bmap ip bn) s Q.
Proof using.
  intros Hw Hk Hbn HQ. destruct (decide (bn < NDIRECT)); [by eapply wp_bmap_direct; [..|lia|]|by eapply wp_bmap_indirect; [..|lia|]].
Qed.

(** ** writei *)

(** The file below [size] has no holes. *)
Definition filled (V : Z -> block) (i : inode) (size : Z) : Prop := forall x, 0 <= x < size -> fblock V i (x / BSIZE) <> 0.

(** After [tot] of the bytes [bs] have been written at [off]. *)
Definition written (V : Z -> block) (i : inode) (off tot : Z) (bs : list Z) (V' : Z -> block) (i' : inode) : Prop :=
  filled V' i' (Z.max (i_size i) (off + tot)) /\
  forall x, 0 <= x < Z.max (i_size i) (off + tot) ->
    fbyte V' i' x = if decide (off <= x < off + tot) then bs !!! Z.to_nat (x - off) else fbyte V i x.

(** One chunk more. *)
Lemma written_chunk V i off tot bs V1 i1 V2 i2 b m : let o := off + tot in
  written V i off tot bs V1 i1 -> 0 <= off <= i_size i -> 0 <= tot -> 0 < m -> o mod BSIZE + m <= BSIZE ->
  tot + m <= Z.of_nat (length bs) -> off + Z.of_nat (length bs) <= MAXFILE * BSIZE -> i_size i <= MAXFILE * BSIZE ->
  mapped V1 i1 (o / BSIZE) V2 i2 b -> file_ok V2 i2 ->
  let d := splice (o mod BSIZE) (take (Z.to_nat m) (drop (Z.to_nat tot) bs)) (V2 b) in
  let V3 := fupd V2 b d in
  file_ok V3 i2 /\ Z.of_nat (length d) = BSIZE /\ written V i off (tot + m) bs V3 i2 /\ owned V2 i2 b.
Proof using.
  intros o [Hfill Hby] Hoff Htot Hm Hle Hlen Hmax Hsz [M1 M2 M3 M4 M5 M6] Hf d V3.
  assert (Hrange : forall x, 0 <= x < MAXFILE * BSIZE -> 0 <= x / BSIZE < MAXFILE).
  { intros x Hx. unfold BSIZE in *. split; [apply Z.div_pos; lia|apply Z.div_lt_upper_bound; lia]. }
  assert (Hbn : 0 <= o / BSIZE < MAXFILE) by (apply Hrange; unfold o; lia).
  assert (Hown : owned V2 i2 b) by (rewrite <-M3; apply owned_fblock; [done|by rewrite M3]).
  pose proof (fo_own _ _ _ _ _ Hf b Hown) as [_ _ _ _ Hlb].
  set (chunk := take (Z.to_nat m) (drop (Z.to_nat tot) bs)) in *.
  assert (Hlc : length chunk = Z.to_nat m) by (unfold chunk; rewrite length_take, length_drop; lia).
  pose proof (Z.mod_pos_bound o BSIZE ltac:(by compute)) as Hmod.
  assert (Hld : Z.of_nat (length d) = BSIZE) by (unfold d; rewrite splice_length; rewrite ?Hlc; lia).
  assert (Hbi : b <> iblock i2) by (rewrite <-M3; apply (fo_ind _ _ _ _ _ Hf); [done|by rewrite M3]).
  assert (Ef : forall k, fblock V3 i2 k = fblock V2 i2 k).
  { apply fblock_ext. intros _. unfold V3. by rewrite fupd_ne by done. }
  assert (Hfile : file_ok V3 i2) by by apply write_owned.
  split_and!; [done|done| |done].
  assert (Hold : forall x, 0 <= x < Z.max (i_size i) o -> fblock V2 i2 (x / BSIZE) = fblock V1 i1 (x / BSIZE) /\ fblock V1 i1 (x / BSIZE) <> 0).
  { intros x Hx. pose proof (Hfill x Hx) as Hn. split; [|done]. apply M4; [|by right]. apply Hrange. unfold o in *. lia. }
  assert (Hin : forall x, 0 <= x < Z.max (i_size i) (off + (tot + m)) -> (0 <= x < Z.max (i_size i) o) \/ o <= x < o + m).
  { intros x Hx. unfold o in *. lia. }
  split.
  - intros x Hx. rewrite Ef. destruct (Hin x Hx) as [Hx'|Hx']; [by destruct (Hold x Hx') as [-> ?]|].
    destruct (chunk_place o m x) as (P1 & _); [unfold o; lia|done|done|lia|]. by rewrite P1, M3.
  - intros x Hx. unfold fbyte. rewrite Ef.
    destruct (chunk_place o m x) as (P1 & P2 & P3 & P4); [unfold o; lia|done|done|lia|].
    destruct (decide (x / BSIZE = o / BSIZE)) as [Ek|Nk].
    + rewrite Ek, M3. unfold V3. rewrite fupd_eq. specialize (P2 Ek). specialize (P3 Ek).
      rewrite list_lookup_total_alt. unfold d. rewrite lookup_splice by (rewrite ?Hlc; lia). rewrite Hlc.
      destruct (decide (o <= x < o + m)) as [Hc|Hc].
      * rewrite decide_True by lia. rewrite (decide_True (P := off <= x < off + (tot + m))) by (unfold o in *; lia).
        unfold chunk. rewrite lookup_take_lt by lia. rewrite lookup_drop, list_lookup_total_alt. f_equal. f_equal. unfold o in *. lia.
      * rewrite decide_False by lia.
        assert (Hx' : 0 <= x < Z.max (i_size i) o) by (destruct (Hin x Hx); [done|lia]).
        destruct (Hold x Hx') as [E1 E2]. rewrite Ek in E1, E2. rewrite M3 in E1. rewrite E1, M5 by done.
        rewrite <-list_lookup_total_alt. specialize (Hby x Hx'). unfold fbyte in Hby. rewrite Ek in Hby. rewrite Hby.
        unfold o in *. destruct (decide (off <= x < off + tot)), (decide (off <= x < off + (tot + m))); try done; lia.
    + assert (Hc : ~ (o <= x < o + m)) by (intros Hc; by apply Nk, P1).
      assert (Hx' : 0 <= x < Z.max (i_size i) o) by (destruct (Hin x Hx); [done|lia]).
      destruct (Hold x Hx') as [E1 E2]. assert (Hrx : 0 <= x / BSIZE < MAXFILE) by (apply Hrange; unfold o in *; lia).
      unfold V3. rewrite fupd_ne.
      2:{ intros E. apply Nk. apply (fo_inj _ _ _ _ _ Hf); [done|done|by rewrite E, M3|by rewrite E1]. }
      rewrite E1, M5 by done. specialize (Hby x Hx'). unfold fbyte in Hby. rewrite Hby.
      unfold o in *. destruct (decide (off <= x < off + tot)), (decide (off <= x < off + (tot + m))); try done; lia.
Qed.

(** The file, after a write of [d] into one of its blocks. *)
Lemma writing_set V i b d k n s s' L : fs_ok V -> enough sb V n -> owned V i b -> file_ok V i -> file_ok (fupd V b d) i ->
  inodes s !! ip = Some i -> k_sb s = sb -> lframe s s' -> txn me q start k W (fupd V b d) D L ∅ s' ->
  writing k n (fupd V b d) i s'.
Proof using.
  intros Hfs Hen Hb Hf Hf' Hi Hsb F Ht. pose proof (fo_own _ _ _ _ _ Hf b Hb) as [_ _ _ Hd _].
  constructor; [by eexists|by rewrite (lframe_sb _ _ F)|by rewrite (lframe_it _ _ F)|by apply write_fs_ok|done|].
  eapply enough_ext; [|exact Hen]. intros c Hc. apply used_ext, fupd_ne. intros E. by apply (proj2 Hd c Hc).
Qed.

(** The state of the loop, [tot] bytes done. *)
Record progress (k : Z) (m : nat) (V : Z -> block) (i : inode) (off : Z) (bs : list Z) (tot : Z)
    (V1 : Z -> block) (i1 : inode) (s : kernel) : Prop := {
  pg_writing : writing k m V1 i1 s;
  pg_written : written V i off tot bs V1 i1;
  pg_inode : i1 = set_i_addrs (i_addrs i1) i;
  pg_ib : V1 ib = V ib;
}.

(** The round of the loop that writes the chunk at [off + tot]. *)
Definition write_round (n : Z) : Z * Z * source -> K (Z * Z * source + Z * Z) := fun '(tot, off, src) =>
  if tot <? n then
    addr <- bmap ip (off / BSIZE) ;;
    if addr =? 0 then ret (inr (tot, off))
    else
      dev <- iget_ ip i_dev ;;
      bp <- bread dev addr ;;
      let m := Z.min (n - tot) (BSIZE - off mod BSIZE) in
      c <- either_copyin src m ;;
      bdata_set bp (splice (off mod BSIZE) (snd c)) ;;
      if fst c =? -1 then brelse bp ;; ret (inr (tot, off))
      else
        log_write bp ;;
        brelse bp ;;
        ret (inl (tot + m, u32 (off + m), source_add src m))
  else ret (inr (tot, off)).

Lemma wp_write_round k m V i off bs tot V1 i1 s (Q : Z * Z * source + Z * Z -> kernel -> Prop) :
  let n := Z.of_nat (length bs) in let o := off + tot in let c := Z.min (n - tot) (BSIZE - o mod BSIZE) in
  progress (k + 6) (m + 2) V i off bs tot V1 i1 s -> 0 <= k -> 0 <= tot < n -> 0 <= off <= i_size i ->
  off + n <= MAXFILE * BSIZE -> i_size i <= MAXFILE * BSIZE ->
  (forall V2 i2 s2, progress k m V i off bs (tot + c) V2 i2 s2 ->
     Q (inl (tot + c, o + c, FromLocal (drop (Z.to_nat (tot + c)) bs))) s2) ->
  wp (write_round n (tot, o, FromLocal (drop (Z.to_nat tot) bs))) s Q.
Proof using.
  intros n o c [Hw Hwr Hin Hib] Hk Ht Hoff Hmax Hsz HQ. unfold write_round. fold c.
  destruct (rounds_step o (n - tot) ltac:(lia) ltac:(lia)) as [Hc _]. fold c in Hc.
  assert (Hbn : 0 <= o / BSIZE < MAXFILE).
  { unfold BSIZE, o in *. split; [apply Z.div_pos; lia|apply Z.div_lt_upper_bound; lia]. }
  replace (tot <? n) with true by lia. apply wp_bind.
  eapply (wp_bmap_write (k + 1) m); [by replace (k + 1 + 5) with (k + 6) by lia|lia|done|].
  intros V2 i2 b s2 Hw2 Hm. pose proof Hw2 as [[L Ht2] Hsb2 Hi2 Hfs2 Hf2 Hen2].
  destruct (written_chunk V i off tot bs V1 i1 V2 i2 b c Hwr Hoff ltac:(lia) ltac:(lia)) as (Hf3 & Hlen & Hwr3 & Hown);
    [fold o; unfold c; lia|fold n; lia|fold n; lia|done|done|done|]. fold o in Hf3, Hlen, Hwr3.
  rewrite (proj2 (Z.eqb_neq b 0) (mp_nonzero _ _ _ _ _ _ Hm)).
  pose proof (fo_own _ _ _ _ _ Hf2 b Hown) as [_ _ Hlog [Hnib _] _].
  apply wp_bind. eapply wp_iget_; [exact Hi2|]. rewrite (fo_dev _ _ _ _ _ Hf2).
  apply wp_bind. eapply (wp_txn_bread me q); [exact Ht2|done|right; rewrite map_size_empty; lia|]. intros bp s3 Ht3 _ F3.
  assert (Hbp : <[bp := b]> (∅ : gmap nat Z) !! bp = Some b) by apply lookup_insert_eq.
  apply wp_bind. eapply wp_done.
  { unfold either_copyin. pose proof (binv_quiet _ _ _ _ _ _ _ _ (tx_binv _ _ _ _ _ _ _ _ _ _ Ht3)) as Hq.
    rewrite (bind_done _ _ _ _ _ (myproc'_eq s3 me (quiet_cpu _ _ _ Hq) (quiet_me _ _ _ Hq))). reflexivity. }
  cbn [fst snd Z.eqb]. apply wp_bind. eapply (wp_txn_bdata_set me q); [exact Ht3|done|]. intros s4 Ht4 F4.
  apply wp_bind. eapply (wp_txn_log_write me q); [exact Ht4|done|done|done|]. intros s5 Ht5 F5.
  apply wp_bind. eapply (wp_txn_brelse me q); [exact Ht5|done|left; by apply elem_of_union_l, elem_of_singleton|].
  intros s6 Ht6 F6. rewrite delete_fresh in Ht6 by done. apply wp_ret.
  assert (HM : MAXFILE * BSIZE < 2 ^ 32) by by vm_compute.
  cbn [source_add]. rewrite drop_drop, uwrap_small by (unfold o; lia).
  replace (Z.to_nat tot + Z.to_nat c)%nat with (Z.to_nat (tot + c)) by lia. eapply HQ. constructor.
  - eapply (writing_set V2 i2 b); [done|done|done|done|done|exact Hi2|done| |exact Ht6]. eauto 6 using lframe_trans.
  - exact Hwr3.
  - rewrite (mp_inode _ _ _ _ _ _ Hm), Hin. by destruct i.
  - rewrite fupd_ne by (by apply not_eq_sym). by rewrite (mp_ib _ _ _ _ _ _ Hm).
Qed.

(** The whole loop. *)
Lemma wp_write_loop k m V i off bs s (Q : Z * Z -> kernel -> Prop) :
  let n := Z.of_nat (length bs) in
  writing (k + 6 * rounds off n) (m + 2 * Z.to_nat (rounds off n)) V i s -> 0 <= k -> 0 <= off <= i_size i ->
  off + n <= MAXFILE * BSIZE -> i_size i <= MAXFILE * BSIZE -> filled V i (i_size i) ->
  (forall V1 i1 s1, progress k m V i off bs n V1 i1 s1 -> Q (n, off + n) s1) ->
  wp (loop (Z.to_nat (n / BSIZE + 3)) (write_round n) (0, off, FromLocal bs)) s Q.
Proof using.
  intros n Hw Hk Hoff Hmax Hsz Hfill HQ.
  apply (wp_loop (fun '((tot, o, src) : Z * Z * source) (s' : kernel) => 0 <= tot <= n /\ o = off + tot /\ src = FromLocal (drop (Z.to_nat tot) bs) /\ exists V1 i1, progress (k + 6 * rounds o (n - tot)) (m + 2 * Z.to_nat (rounds o (n - tot))) V i off bs tot V1 i1 s')
    (fun '(tot, o, _) => Z.to_nat (rounds o (n - tot)))).
  - intros [[tot o] src] s1 (Ht & -> & -> & V1 & i1 & Hp). destruct (decide (tot = n)) as [->|Hne].
    { unfold write_round. rewrite Z.ltb_irrefl. apply wp_ret. apply (HQ V1 i1).
      replace (n - n) with 0 in Hp by lia. change (rounds (off + n) 0) with 0 in Hp.
      by rewrite Z.mul_0_r, Z.add_0_r, Nat.mul_0_r, Nat.add_0_r in Hp. }
    destruct (rounds_step (off + tot) (n - tot) ltac:(lia) ltac:(lia)) as [Hc Hr].
    set (c := Z.min (n - tot) (BSIZE - (off + tot) mod BSIZE)) in *.
    replace (off + tot + c) with (off + (tot + c)) in Hr by lia. replace (n - tot - c) with (n - (tot + c)) in Hr by lia.
    set (r := rounds (off + (tot + c)) (n - (tot + c))) in *.
    eapply (wp_write_round (k + 6 * r) (m + 2 * Z.to_nat r) V i off bs tot V1 i1); [|lia|lia|done|done|done|].
    + destruct Hp as [P1 P2 P3 P4]. constructor; [|done|done|done]. eapply writing_weaken; [| |exact P1]; lia.
    + intros V2 i2 s2 Hp2. fold n. fold c. replace (off + tot + c) with (off + (tot + c)) by lia. fold r.
      split; [|lia]. split_and!; [lia|lia|done|done|]. exists V2, i2. exact Hp2.
  - rewrite Z.add_0_r, Z.sub_0_r. split_and!; [lia|lia|done|by rewrite drop_0|]. exists V, i.
    constructor; [done| |by destruct i|done]. unfold written; rewrite !Z.add_0_r. split.
    + by rewrite Z.max_l by lia.
    + intros x Hx. by rewrite decide_False by lia.
  - rewrite Z.sub_0_r. unfold rounds, BSIZE. destruct (Z.ltb_spec 0 n); Z.div_mod_to_equations; lia.
Qed.

(** [iupdate] writes the block of the inode. *)
Lemma inode_block_ok V i d : fs_ok V -> file_ok V i -> fs_ok (fupd V ib d) /\ file_ok (fupd V ib d) i /\ (forall k, fblock (fupd V ib d) i k = fblock V i k) /\ (forall b, owned V i b -> fupd V ib d b = V b).
Proof using.
  intros Hfs Hf. pose proof Hfs as [Hbm Hsz Hbs Hfr [Hil Hib]].
  assert (E : forall c, 0 <= c < sb_size sb -> fupd V ib d (BBLOCK c sb) = V (BBLOCK c sb)).
  { intros c Hc. apply fupd_ne. by apply not_eq_sym, Hib. }
  assert (Eu : forall c, 0 <= c < sb_size sb -> used sb (fupd V ib d) c = used sb V c).
  { intros c Hc. by apply used_ext, E. }
  assert (Eo : forall b, owned V i b -> fupd V ib d b = V b).
  { intros b Hb. apply fupd_ne. by destruct (fo_own _ _ _ _ _ Hf b Hb) as [_ _ _ [? _] _]. }
  assert (Ef : forall k, fblock (fupd V ib d) i k = fblock V i k).
  { apply fblock_ext. intros Hn. by apply Eo, owned_iblock. }
  split_and!; [|apply (file_ok_ext start sb ib V); [done|done|]|done|done].
  - constructor; [|done|done| |done].
    + intros c Hc. rewrite E by done. by apply Hbm.
    + intros c Hc. rewrite Eu by done. by apply Hfr.
  - intros b Hb. rewrite (Eo b Hb). destruct (fo_own _ _ _ _ _ Hf b Hb) as [U1 U2 _ _ U5]. by rewrite Eu.
Qed.

Lemma wp_iupdate k n V i s (Q : unit -> kernel -> Prop) : writing (k + 1) n V i s -> 0 <= k -> ib = IBLOCK (i_inum i) sb ->
  (forall s', writing k n (fupd V ib (dinode_put (i_inum i) i (V ib))) i s' -> Q tt s') -> wp (iupdate ip) s Q.
Proof using.
  intros [[L Ht] Hsb Hi Hfs Hf Hen] Hk Hib HQ. unfold iupdate.
  apply wp_bind, wp_gets. rewrite Hsb. apply wp_bind. eapply wp_iget_; [done|]. cbn [id]. rewrite (fo_dev _ _ _ _ _ Hf), <-Hib.
  apply wp_bind. eapply (wp_txn_bread me q); [exact Ht|done|right; rewrite map_size_empty; lia|]. intros bp s3 Ht3 _ F3.
  assert (Hbp : <[bp := ib]> (∅ : gmap nat Z) !! bp = Some ib) by apply lookup_insert_eq.
  apply wp_bind. eapply wp_iget_; [by rewrite (lframe_it _ _ F3)|]. cbn [id].
  apply wp_bind. eapply (wp_txn_bdata_set me q); [exact Ht3|done|]. intros s4 Ht4 F4.
  apply wp_bind. eapply (wp_txn_log_write me q); [exact Ht4|done|done|by apply (fs_inode _ _ _ _ Hfs)|]. intros s5 Ht5 F5.
  eapply (wp_txn_brelse me q); [exact Ht5|done|left; by apply elem_of_union_l, elem_of_singleton|].
  intros s6 Ht6 F6. rewrite delete_fresh in Ht6 by done. apply HQ.
  assert (F : lframe s s6) by eauto 10 using lframe_trans.
  destruct (inode_block_ok V i (dinode_put (i_inum i) i (V ib)) Hfs Hf) as (Hfs' & Hf' & _).
  constructor; [by eexists|by rewrite (lframe_sb _ _ F)|by rewrite (lframe_it _ _ F)|done|done|].
  eapply enough_ext; [|exact Hen]. intros c Hc. apply used_ext, fupd_ne. apply not_eq_sym. by apply (fs_inode _ _ _ _ Hfs).
Qed.

(** The outcome of a write of [bs] at [off]. *)
Record wrote (V : Z -> block) (i : inode) (off : Z) (bs : list Z) (V' : Z -> block) (i' : inode) : Prop := {
  wo_inode : i' = set_i_size (Z.max (i_size i) (off + Z.of_nat (length bs))) (set_i_addrs (i_addrs i') i);
  wo_disk : V' ib = dinode_put (i_inum i) i' (V ib);
  wo_filled : filled V' i' (i_size i');
  wo_bytes : forall x, 0 <= x < i_size i' ->
    fbyte V' i' x = if decide (off <= x < off + Z.of_nat (length bs)) then bs !!! Z.to_nat (x - off) else fbyte V i x;
}.

Lemma wrote_update V i off bs V1 i1 : let n := Z.of_nat (length bs) in let i2 := set_i_size (Z.max (i_size i) (off + n)) i1 in
  let V2 := fupd V1 ib (dinode_put (i_inum i2) i2 (V1 ib)) in
  fs_ok V1 -> file_ok V1 i1 -> written V i off n bs V1 i1 -> i1 = set_i_addrs (i_addrs i1) i -> V1 ib = V ib ->
  Z.max (i_size i) (off + n) <= MAXFILE * BSIZE -> wrote V i off bs V2 i2.
Proof using.
  intros n i2 V2 Hfs Hf [Hfill Hby] Hin Hib Hmax.
  destruct (inode_block_ok V1 i1 (dinode_put (i_inum i2) i2 (V1 ib)) Hfs Hf) as (_ & _ & Ef & Eo). fold V2 in Ef, Eo.
  assert (Esz : i_size i2 = Z.max (i_size i) (off + n)) by done. constructor.
  - unfold i2. rewrite Hin at 1. by destruct i.
  - unfold V2. rewrite fupd_eq, Hib. f_equal. unfold i2. rewrite Hin. by destruct i.
  - rewrite Esz. intros x Hx. change (fblock V2 i2 (x / BSIZE)) with (fblock V2 i1 (x / BSIZE)). rewrite Ef. by apply Hfill.
  - rewrite Esz. intros x Hx. rewrite <-Hby by done. unfold fbyte.
    change (fblock V2 i2 (x / BSIZE)) with (fblock V2 i1 (x / BSIZE)). rewrite Ef, Eo; [done|].
    apply owned_fblock; [|by apply Hfill]. unfold BSIZE in *. split; [apply Z.div_pos; lia|apply Z.div_lt_upper_bound; lia].
Qed.

Lemma writing_size k n V i s z (Q : unit -> kernel -> Prop) : writing k n V i s ->
  (forall s', writing k n V (set_i_size z i) s' -> Q tt s') -> wp (iset_ ip (set_i_size z)) s Q.
Proof using.
  intros [[L Ht] Hsb Hi Hfs Hf Hen] HQ. eapply wp_iset_; [done|]. intros it Eit. apply HQ.
  constructor; [exists L; by apply txn_set_it|done| |done|by destruct Hf; constructor|done].
  cbn. rewrite Eit. apply list_lookup_insert_eq. by eapply lookup_lt_Some.
Qed.

Lemma set_same_size i : set_i_size (i_size i) i = i.
Proof using. by destruct i. Qed.

Lemma wp_writei k m V i off bs s (Q : Z -> kernel -> Prop) :
  let n := Z.of_nat (length bs) in
  writing (k + 1 + 6 * rounds off n) (m + 2 * Z.to_nat (rounds off n)) V i s -> 0 <= k -> 0 <= off <= i_size i ->
  off + n <= MAXFILE * BSIZE -> i_size i <= MAXFILE * BSIZE -> filled V i (i_size i) -> ib = IBLOCK (i_inum i) sb ->
  (forall V' i' s', writing k m V' i' s' -> wrote V i off bs V' i' -> Q n s') ->
  wp (writei ip (FromLocal bs) off n) s Q.
Proof using.
  intros n Hw Hk Hoff Hmax Hsz Hfill Hib HQ. unfold writei.
  assert (HM : MAXFILE * BSIZE < 2 ^ 31) by by vm_compute.
  apply wp_bind. eapply wp_iget_; [apply (wr_inode _ _ _ _ _ Hw)|]. rewrite (uwrap_small 32 (off + n)) by lia.
  replace (i_size i <? off) with false by lia. replace (off + n <? off) with false by lia. cbn [orb].
  replace (MAXFILE * BSIZE <? off + n) with false by lia.
  apply wp_bind. eapply (wp_write_loop (k + 1) m V i off bs); [exact Hw|lia|done|done|done|done|].
  intros V1 i1 s1 [Hw1 Hwr Hin Eib]. fold n in Hwr |- *. apply wp_bind.
  assert (Hsz2 : wp (when (i_size i <? off + n) (iset_ ip (set_i_size (off + n)))) s1 (fun _ s2 =>
    writing (k + 1) m V1 (set_i_size (Z.max (i_size i) (off + n)) i1) s2)).
  { destruct (Z.ltb_spec (i_size i) (off + n)); cbn [when].
    - rewrite Z.max_r by lia. by eapply writing_size.
    - apply wp_ret. rewrite Z.max_l by lia. assert (i_size i1 = i_size i) as <- by (by rewrite Hin). by rewrite set_same_size. }
  eapply wp_mono; [exact Hsz2|]. intros u s2 Hw2; cbv beta in Hw2. apply wp_bind.
  eapply (wp_iupdate k m); [exact Hw2|done|by rewrite Hin|]. intros s3 Hw3. apply wp_ret.
  rewrite swrap_small by (simpl; lia). eapply HQ; [exact Hw3|]. pose proof Hw1 as [_ _ _ Hfs1 Hf1 _].
  apply wrote_update; [done|done|done|done|done|fold n; lia].
Qed.

(** The errors: nothing is written. *)
Lemma wp_writei_refuses i off n src s (Q : Z -> kernel -> Prop) : inodes s !! ip = Some i ->
  0 <= off < 2 ^ 32 -> 0 <= n < 2 ^ 32 -> i_size i < off \/ MAXFILE * BSIZE < off + n \/ 2 ^ 32 <= off + n ->
  Q (-1) s -> wp (writei ip src off n) s Q.
Proof using.
  intros Hi Ho Hn Hbad HQ. unfold writei. apply wp_bind. eapply wp_iget_; [done|].
  destruct ((i_size i <? off) || (u32 (off + n) <? off)) eqn:E; [by apply wp_ret|].
  apply orb_false_iff in E as [E1 E2]. apply Z.ltb_ge in E1, E2.
  destruct (Z.ltb_spec (off + n) (2 ^ 32)).
  - rewrite uwrap_small by lia. replace (MAXFILE * BSIZE <? off + n) with true by lia. by apply wp_ret.
  - exfalso. replace (off + n) with ((off + n - 2 ^ 32) + 1 * 2 ^ 32) in E2 by lia.
    unfold uwrap in E2. rewrite Z.mod_add, Z.mod_small in E2; lia.
Qed.
End writer.

(** ** Reading it back *)

Lemma file_block_fblock V i bn : fblock V i bn <> 0 -> file_block V i bn = fblock V i bn /\ (NDIRECT <= bn -> iblock i <> 0).
Proof.
  unfold fblock, file_block. destruct (Z.ltb_spec bn NDIRECT); [split; [done|lia]|].
  destruct (Z.eqb_spec (iblock i) 0); [done|]. done.
Qed.

Lemma filled_content start sb ib V i : file_ok start sb ib V i -> filled V i (i_size i) -> 0 <= i_size i <= MAXFILE * BSIZE ->
  content_ok V i /\ forall x, 0 <= x < i_size i -> file_byte V i x = fbyte V i x.
Proof.
  intros Hf Hfill Hsz.
  assert (Hb : forall bn, 0 <= bn -> bn * BSIZE < i_size i -> fblock V i bn <> 0 /\ 0 <= bn < MAXFILE).
  { intros bn H0 H1. split; [|unfold BSIZE in *; lia]. replace bn with (bn * BSIZE / BSIZE) by (by apply Z.div_mul).
    apply Hfill. unfold BSIZE in *; lia. }
  split; [constructor|].
  - apply Hf.
  - done.
  - intros H. apply (file_block_fblock V i NDIRECT); [|lia]. by apply Hb.
  - intros bn H0 H1. destruct (Hb bn H0 H1) as [Hn _]. by rewrite (proj1 (file_block_fblock V i bn Hn)).
  - intros bn H0 H1. destruct (Hb bn H0 H1) as [Hn Hm]. rewrite (proj1 (file_block_fblock V i bn Hn)).
    by apply (fo_own _ _ _ _ _ Hf), owned_fblock.
  - intros x Hx. unfold file_byte, fbyte. by rewrite (proj1 (file_block_fblock V i _ (Hfill x Hx))).
Qed.

(** ** Properties *)

(** C9: a write to a file can be read back.  In a transaction with room in the log and enough free blocks, a
    [writei] of the bytes [bs] at an offset [off] within the file or at its end returns their number, allocating direct blocks, the indirect
    block and its entries as the file needs them; the size becomes the larger of the old one and the end of the write; the inode is
    written to its place in its disk block; no block is used twice, every block of the file is marked used in the bitmap, and the file has no holes; the
    bytes outside of the range written are as before; and [readi] of the same range then returns exactly [bs]. *)
Theorem writei_readi {HF : Fuel} {HU : UartHw} me q start sb ib ip W D V i off bs s :
  let n := Z.of_nat (length bs) in
  writing me q start sb ib ip W D (1 + 6 * rounds off n) (2 * Z.to_nat (rounds off n)) V i s ->
  0 <= off <= i_size i -> off + n <= MAXFILE * BSIZE -> i_size i <= MAXFILE * BSIZE -> filled V i (i_size i) ->
  ib = IBLOCK (i_inum i) sb ->
  exists V' i' s1 s2, let size' := Z.max (i_size i) (off + n) in
    writei ip (FromLocal bs) off n s = Done n s1 /\ writing me q start sb ib ip W D 0 0 V' i' s1 /\
    i' = set_i_size size' (set_i_addrs (i_addrs i') i) /\ V' ib = dinode_put (i_inum i) i' (V ib) /\
    filled V' i' size' /\ (forall x, 0 <= x < size' -> x < off \/ off + n <= x -> fbyte V' i' x = fbyte V i x) /\
    readi ip ToLocal off n s1 = Done (n, bs) s2 /\ bframe s1 s2.
Proof.
  intros n Hw Hoff Hmax Hsz Hfill Hib.
  assert (wp (writei ip (FromLocal bs) off n) s (fun r s1 => r = n /\ exists V' i',
    writing me q start sb ib ip W D 0 0 V' i' s1 /\ wrote ib V i off bs V' i')) as (r & s1 & Hrun & -> & V' & i' & Hw1 & Hwo).
  { eapply (wp_writei me q start sb ib ip W D 0 0); try done. intros V' i' s' H1 H2. split; [done|]. by exists V', i'. }
  pose proof Hw1 as [[L Ht] Hsb Hi Hfs Hf _]. destruct Hwo as [O1 O2 O3 O4]. fold n in O1, O4.
  assert (Esz : i_size i' = Z.max (i_size i) (off + n)) by (by rewrite O1). rewrite Esz in O3, O4.
  destruct (filled_content start sb ib V' i' Hf) as [Hc Ec]; [by rewrite Esz|rewrite Esz; lia|]. rewrite Esz in Ec.
  assert (HM : MAXFILE * BSIZE < 2 ^ 31) by by vm_compute.
  assert (wp (readi ip ToLocal off n) s1 (fun r s2 => r = (n, bs) /\ bframe s1 s2)) as (r & s2 & Hrun2 & -> & F2).
  { eapply (wp_readi me q ip i'); [constructor; [apply Ht| |exact Hi]|exact Hc|lia|lia|lia|].
    - destruct (txn_size _ _ _ _ _ _ _ _ _ _ Ht) as [?|?]; [|lia]. unfold NBUF, MAXOPBLOCKS. lia.
    - intros s2 _ F2. split; [|done]. unfold read_len. rewrite Esz. replace (_ <? off) with false by lia. rewrite Z.min_l by lia.
      f_equal. apply list_eq_same_length with (n := length bs); [done|unfold file_bytes; rewrite read_bytes_length; lia|].
      intros j x y Hj Hx Hy. unfold file_bytes in Hx. apply list_lookup_total_correct in Hx as <-, Hy as <-.
      rewrite read_bytes_lookup by lia. rewrite Ec, O4, decide_True by lia. f_equal. lia. }
  exists V', i', s1, s2. split_and!; try done. intros x Hx Ho. rewrite O4 by done. by rewrite decide_False by lia.
Qed.

(** the writes that [writei] refuses: one that would start beyond the end of the file, end beyond the
    largest file, or whose end overflows a 32-bit integer.  It returns -1 and nothing changes. *)
Theorem writei_refuses {HF : Fuel} {HU : UartHw} ip i off n src s :
  inodes s !! ip = Some i -> 0 <= off < 2 ^ 32 -> 0 <= n < 2 ^ 32 ->
  i_size i < off \/ MAXFILE * BSIZE < off + n \/ 2 ^ 32 <= off + n ->
  writei ip src off n s = Done (-1) s.
Proof.
  intros Hi Ho Hn Hbad. assert (wp (writei ip src off n) s (fun r s' => r = -1 /\ s' = s)) as (r & s' & E & -> & ->); [|done].
  by eapply wp_writei_refuses.
Qed.

(** ** A new file on the file system of [FsBlocks] *)
#[local] Existing Instance demo_fuel.
#[local] Instance write_uart : UartHw := fun _ => 0%nat.

Definition new_inode : inode := set_i_dev ROOTDEV (set_i_inum 1 (set_i_addrs (replicate 13 0) inode0)).
Definition new_file : kernel := set_k_it (Itable false (new_inode :: replicate 49 inode0)) fs_txn.
Definition two_blocks : list Z := replicate 1030 7.

Lemma new_fs_ok : fs_ok 2 fs_sb 33 (contents fs_disk).
Proof.
  assert (Hin : forall c, 0 <= c < sb_size fs_sb -> BBLOCK c fs_sb = 45) by apply fs_bblock.
  constructor; [exact fs_bitmap_ok|by vm_compute|by vm_compute| |].
  - intros b Hb Hu. assert (48 <= b).
    { destruct (decide (48 <= b)); [done|]. destruct fs_first_free as (_ & _ & Hall). cbn in Hb.
      rewrite Hall in Hu by lia. done. }
    cbn in Hb. split_and!; [lia|unfold loggable, home, LOGSIZE, MAXOPBLOCKS; lia|split; [lia|]].
    intros c Hc. rewrite Hin by done. lia.
  - split; [unfold loggable, home, LOGSIZE, MAXOPBLOCKS; lia|]. intros c Hc. by rewrite Hin.
Qed.

Lemma new_fblock V bn : 0 <= bn < MAXFILE -> fblock V new_inode bn = 0.
Proof.
  intros Hbn. unfold fblock. change (iblock new_inode) with 0. destruct (Z.ltb_spec bn NDIRECT); [|done].
  unfold addr_of. change (i_addrs new_inode) with (replicate 13 (0 : Z)). apply lookup_total_replicate_2. unfold NDIRECT in *. lia.
Qed.

Lemma new_file_ok : file_ok 2 fs_sb 33 (contents fs_disk) new_inode.
Proof.
  assert (E := new_fblock (contents fs_disk)). constructor; [done|done| | |].
  - intros b [Hb [->|(bn & Hbn & ->)]]; [done|]. by rewrite E in Hb.
  - intros bn bn' Hbn Hbn' _ Hn. by rewrite E in Hn.
  - intros bn Hbn Hn. by rewrite E in Hn.
Qed.

Lemma sb_set_it it s : k_sb (set_k_it it s) = k_sb s.
Proof. done. Qed.

Lemma new_writing : writing 1 demo_proc 2 fs_sb 33 0 [] (contents fs_disk) 13 4 (contents fs_disk) new_inode new_file.
Proof.
  destruct fs_txn_ok as [Ht Hsb]. unfold new_file.
  constructor; [|rewrite sb_set_it; exact Hsb|rewrite inodes_set_it; reflexivity|exact new_fs_ok|exact new_file_ok|].
  - exists ∅. apply txn_set_it. eapply txn_weaken; [|exact Ht]. lia.
  - exists [48; 49; 50; 51]. split_and!; [by apply (bool_decide_unpack _); vm_compute|done|].
    repeat constructor; try (cbn; lia); by vm_compute.
Qed.

Lemma writei_readi_witness : exists s1 s2,
  writei 0 (FromLocal two_blocks) 0 1030 new_file = Done 1030 s1 /\ readi 0 ToLocal 0 1030 s1 = Done (1030, two_blocks) s2.
Proof.
  destruct (writei_readi 1 demo_proc 2 fs_sb 33 0 [] (contents fs_disk) (contents fs_disk) new_inode 0 two_blocks new_file)
    as (V' & i' & s1 & s2 & H1 & _ & _ & _ & _ & _ & H2 & _).
  - exact new_writing.
  - cbn. lia.
  - by vm_compute.
  - by vm_compute.
  - intros x Hx. cbn in Hx. lia.
  - by vm_compute.
  - exists s1, s2. exact (conj H1 H2).
Defined.

Lemma writei_refuses_witness : writei 0 (FromLocal two_blocks) 1 1030 new_file = Done (-1) new_file.
Proof.
  apply (writei_refuses 0 new_inode); [unfold new_file; rewrite inodes_set_it; reflexivity|lia|lia|]. left. cbn. lia.
Defined.
