(* ===== verification/FsDir.v ===== *)
(** * Directories: dirlookup and dirlink of kernel/fs.c

    A directory is a file of entries of 16 bytes; an entry with inode number 0 is free.  Abstractly
    it is a map from names to inode numbers: [dirlookup] looks a name up, [dirlink] inserts one. *)

From S2P Require Import Prelude Params Memory Kalloc Block State Sched SchedSpec Quiet Kcopy.
From S2P Require Import Uart Dll Bio BioSpec Cache Log LogSpec Crash Fs FsSpec FsBlocks FsContent Inodes FsFile FsWrite.

(** ** The abstract directory *)

(** What counts of a name: the characters that fit an entry. *)
Definition key (name : list Z) : list Z := take (Z.to_nat DIRSIZ) (cstring name).

(** Entries as inode numbers and keys. *)
Abbreviation entries := (list (Z * list Z)).

(** The first entry of a name counts. *)
Definition dir_map (es : entries) : gmap (list Z) Z :=
  foldr (fun e m => if e.1 =? 0 then m else <[e.2 := e.1]> m) ∅ es.

Definition matches (nm : list Z) (e : Z * list Z) : Prop := e.1 <> 0 /\ e.2 = nm.

Lemma dir_map_find es nm : dir_map es !! nm = (fun p => p.2.1) <$> list_find (matches nm) es.
Proof.
  induction es as [|[n k] es IH]; [done|]. cbn [dir_map foldr list_find fst snd]. fold (dir_map es).
  destruct (decide (matches nm (n, k))) as [[H1 H2]|Hm]; simpl in *.
  - replace (n =? 0) with false by lia. subst. by rewrite lookup_insert_eq.
  - transitivity (dir_map es !! nm); [|rewrite IH; by destruct (list_find _ es)].
    destruct (Z.eqb_spec n 0); [done|]. apply lookup_insert_ne. intros ->. by destruct Hm.
Qed.

Lemma dir_map_app l1 l2 : dir_map (l1 ++ l2) = dir_map l1 ∪ dir_map l2.
Proof.
  induction l1 as [|[n k] l1 IH]; simpl; [by rewrite (left_id_L ∅ (∪))|]. rewrite IH.
  destruct (n =? 0); [done|]. by rewrite insert_union_l.
Qed.

(** A free entry can be filled. *)
Lemma dir_map_fill l1 l2 n nm : n <> 0 -> dir_map (l1 ++ l2) !! nm = None ->
  dir_map (l1 ++ (n, nm) :: l2) = <[nm := n]> (dir_map (l1 ++ l2)).
Proof.
  intros Hn Hnone. rewrite !dir_map_app in *. apply lookup_union_None in Hnone as [H1 H2]. simpl.
  replace (n =? 0) with false by lia. by rewrite insert_union_r.
Qed.

Lemma dir_map_free l1 l2 k : dir_map (l1 ++ (0, k) :: l2) = dir_map (l1 ++ l2).
Proof. by rewrite !dir_map_app. Qed.

(** ** The entries of a directory *)

Definition entry_of (de : list Z) : Z * list Z := (de_inum de, key (de_name de)).

Definition entry (V : Z -> block) (i : inode) (k : Z) : list Z := file_bytes V i (sizeof_dirent * k) sizeof_dirent.

Definition dents (V : Z -> block) (i : inode) : entries := entry_of <$> (entry V i <$> upto (i_size i / sizeof_dirent)).

(** A directory without holes and with whole entries. *)
Record dir_ok (V : Z -> block) (i : inode) : Prop := {
  do_type : i_type i = T_DIR;
  do_content : content_ok V i;
  do_whole : i_size i mod sizeof_dirent = 0;
}.

Lemma dents_lookup V i k : 0 <= k < i_size i / sizeof_dirent ->
  dents V i !! Z.to_nat k = Some (entry_of (entry V i k)).
Proof. intros Hk. unfold dents. rewrite !list_lookup_fmap, upto_lookup by lia. done. Qed.

Lemma entry_length V i k : length (entry V i k) = 16%nat.
Proof. apply read_bytes_length. Qed.

(** The test of [dirlookup]. *)
Lemma namecmp_entry name V i k : Z.of_nat (length name) < PGSIZE ->
  namecmp name (de_name (entry V i k)) = 0 <-> key name = (entry_of (entry V i k)).2.
Proof.
  intros Hn. apply namecmp_zero; [done|]. unfold de_name. rewrite slice_length; [by vm_compute|done|by vm_compute|].
  rewrite entry_length. by vm_compute.
Qed.

Section lookup.
Context {HF : Fuel} {HU : UartHw} (me : nat) (q : proc) (dp : nat) (i : inode).
Context (W : list (Z * block)) (V D : Z -> block) (L : gset Z).
Abbreviation reading := (reading me q dp i W V D L).

(** Reading entry [k]. *)
Lemma wp_read_entry k s (Q : Z * list Z -> kernel -> Prop) : reading s -> dir_ok V i -> 0 <= k < i_size i / sizeof_dirent ->
  (forall s', reading s' -> bframe s s' -> Q (sizeof_dirent, entry V i k) s') ->
  wp (readi dp ToLocal (sizeof_dirent * k) sizeof_dirent) s Q.
Proof using.
  intros Hr [_ Hc Hw] Hk HQ. pose proof (co_size _ _ Hc) as Hsz. assert (HM : MAXFILE * BSIZE < 2 ^ 30) by by vm_compute.
  change sizeof_dirent with 16 in *.
  assert (Hle : 16 * k + 16 <= i_size i) by (Z.div_mod_to_equations; lia).
  eapply (wp_readi me q dp i W V D L); [exact Hr|exact Hc|lia|lia|lia|]. intros s' Hr' Hf.
  assert (E : read_len i (16 * k) 16 = 16) by (unfold read_len; replace (i_size i <? 16 * k) with false by lia; lia).
  rewrite E. by apply HQ.
Qed.

(** No entry before [off] has the name. *)
Definition searched (name : list Z) (s : kernel) (off : Z) (s' : kernel) : Prop :=
  exists k, off = 16 * k /\ 0 <= k <= i_size i / 16 /\ reading s' /\ bframe s s' /\
    forall j e, (j < Z.to_nat k)%nat -> dents V i !! j = Some e -> ~ matches (key name) e.

Lemma searched_next name s k s1 s2 : 0 <= k < i_size i / 16 -> i_size i < 2 ^ 30 -> reading s2 -> bframe s s1 -> bframe s1 s2 ->
  (forall j e, (j < Z.to_nat k)%nat -> dents V i !! j = Some e -> ~ matches (key name) e) ->
  ~ matches (key name) (entry_of (entry V i k)) ->
  searched name s (u32 (16 * k + 16)) s2 /\
  (Z.to_nat (i_size i / 16 - u32 (16 * k + 16) / 16) < Z.to_nat (i_size i / 16 - 16 * k / 16))%nat.
Proof using.
  intros Hk Hsz Hr Hf1 Hf2 Hno Hm. assert (16 * (i_size i / 16) <= i_size i) by (Z.div_mod_to_equations; lia).
  rewrite uwrap_small by lia. replace (16 * k + 16) with (16 * (k + 1)) by lia.
  rewrite !(Z.mul_comm 16), !Z.div_mul by lia. split; [|lia]. exists (k + 1). rewrite !(Z.mul_comm 16).
  split; [done|]. split; [lia|]. split; [done|]. split; [by eapply bframe_trans|].
  intros j e Hj He. destruct (decide (j = Z.to_nat k)) as [->|]; [|eapply Hno; [|done]; lia].
  change 16 with sizeof_dirent in Hk. pose proof (dents_lookup V i k Hk). by simplify_eq.
Qed.

Lemma wp_dirlookup name s (Q : option (nat * Z) -> kernel -> Prop) :
  reading s -> dir_ok V i -> Z.of_nat (length name) < PGSIZE ->
  it_lock (k_it s) = false -> length (inodes s) = Z.to_nat NINODE ->
  (forall s', reading s' -> bframe s s' ->
    match list_find (matches (key name)) (dents V i) with
    | None => Q None s'
    | Some (k, e) => exists ip l, iget_table ROOTDEV e.1 (inodes s) = Some (ip, l) /\
        Q (Some (ip, sizeof_dirent * Z.of_nat k)) (on_inodes (fun _ => l) s')
    end) -> wp (dirlookup dp name) s Q.
Proof using.
  intros Hr Hd Hn Hlk Hlen HQ. unfold dirlookup. pose proof (rd_inode _ _ _ _ _ _ _ _ _ Hr) as Hi.
  apply wp_bind. eapply wp_iget_; [done|]. rewrite (do_type _ _ Hd). cbn [negb]. rewrite Z.eqb_refl. cbn [negb panic_if].
  apply wp_bind, wp_ret. apply wp_bind. eapply wp_iget_; [done|].
  pose proof (do_whole _ _ Hd) as Hw. pose proof (co_size _ _ (do_content _ _ Hd)) as Hsz. change sizeof_dirent with 16 in *.
  assert (HM : MAXFILE * BSIZE < 2 ^ 30) by by vm_compute.
  set (n := i_size i / 16) in *. assert (En : i_size i = 16 * n) by (unfold n; Z.div_mod_to_equations; lia).
  apply (wp_loop (searched name s) (fun off => Z.to_nat (n - off / 16)));
    [|exists 0; split_and!; try done; [lia|apply bframe_refl|intros; lia]|change (0 / 16) with 0; lia].
  intros off s1 (k & -> & Hk & Hr1 & Hf1 & Hno). destruct (Z.ltb_spec (16 * k) (i_size i)) as [Hlt|Hge].
  - assert (Hk' : 0 <= k < n) by lia. pose proof (dents_lookup V i k Hk') as Hent.
    apply wp_bind. apply (wp_read_entry k s1); [done|done|done|]. intros s2 Hr2 Hf2. cbn [fst snd].
    change (negb (sizeof_dirent =? 16)) with false. cbn [panic_if]. apply wp_bind, wp_ret.
    pose proof (searched_next name s k s1 s2 Hk' ltac:(lia) Hr2 Hf1 Hf2 Hno) as Hnext.
    destruct (Z.eqb_spec (de_inum (entry V i k)) 0) as [E0|E0]; [apply wp_ret, Hnext; by intros [? _]|].
    destruct (Z.eqb_spec (namecmp name (de_name (entry V i k))) 0) as [En0|En0].
    + apply namecmp_entry in En0; [|done].
      assert (Hfind : list_find (matches (key name)) (dents V i) = Some (Z.to_nat k, entry_of (entry V i k))).
      { apply list_find_Some. split; [done|]. split; [by split|]. intros j e He Hj. by eapply Hno. }
      assert (Hf : bframe s s2) by by eapply bframe_trans. pose proof (HQ s2 Hr2 Hf) as HQ2. rewrite Hfind in HQ2.
      destruct HQ2 as (ip & l & Ht & HQ2). rewrite Z2Nat.id in HQ2 by lia.
      apply wp_bind. eapply wp_iget_; [apply (rd_inode _ _ _ _ _ _ _ _ _ Hr2)|]. rewrite (co_dev _ _ (do_content _ _ Hd)).
      apply wp_bind. pose proof (bframe_it _ _ Hf) as Eit.
      eapply wp_done; [rewrite iget_eq, Eit, (Ht : iget_table ROOTDEV (de_inum (entry V i k)) _ = _); [done|..|by rewrite Eit|by rewrite Eit]|by apply wp_ret].
      apply (quiet_cpu _ _ _ (binv_quiet _ _ _ _ _ _ _ _ (rd_binv _ _ _ _ _ _ _ _ _ Hr2))).
    + apply wp_ret, Hnext. intros [_ Hm]. apply En0. apply namecmp_entry; [done|]. by rewrite Hm.
  - apply wp_ret. assert (k = n) as -> by lia. specialize (HQ s1 Hr1 Hf1).
    destruct (list_find (matches (key name)) (dents V i)) as [[j e]|] eqn:Hfind; [|done]. exfalso.
    apply list_find_Some in Hfind as (Hj & Hm & _). eapply Hno; [|exact Hj|exact Hm].
    apply lookup_lt_Some in Hj. unfold dents, upto in Hj. by rewrite !length_fmap, length_seq in Hj.
Qed.
End lookup.

(** ** Writing an entry *)

Section written.
Context (start : Z) (sb : superblock) (ib : Z).
Abbreviation wrote := (wrote ib).

(** A directory that can be written. *)
Record dir_file (V : Z -> block) (i : inode) : Prop := {
  df_type : i_type i = T_DIR;
  df_size : 0 <= i_size i <= MAXFILE * BSIZE;
  df_whole : i_size i mod sizeof_dirent = 0;
  df_filled : filled V i (i_size i);
}.

Lemma dir_file_ok V i : file_ok start sb ib V i -> dir_file V i ->
  dir_ok V i /\ forall x, 0 <= x < i_size i -> file_byte V i x = fbyte V i x.
Proof using.
  intros Hf [H1 H2 H3 H4]. destruct (filled_content start sb ib V i Hf H4 H2) as [Hc He]. by split; [constructor|].
Qed.

(** The entries after a write of one. *)
Lemma wrote_entry V i V' i' k bs j : file_ok start sb ib V i -> file_ok start sb ib V' i' -> dir_file V i -> dir_file V' i' ->
  wrote V i (16 * k) bs V' i' -> length bs = 16%nat -> 0 <= k -> 0 <= j -> 16 * j + 16 <= i_size i' ->
  (j <> k -> 16 * j + 16 <= i_size i) ->
  entry V' i' j = if decide (j = k) then bs else entry V i j.
Proof using.
  intros Hf Hf' Hd Hd' [_ _ _ Hby] Hlen Hk Hj Hsz Hjk.
  destruct (dir_file_ok V i Hf Hd) as [_ E]. destruct (dir_file_ok V' i' Hf' Hd') as [_ E']. rewrite Hlen in Hby.
  apply list_eq_same_length with (n := 16%nat); [by case_decide; [|apply entry_length]|apply entry_length|].
  intros o x y Ho Hx Hy. apply list_lookup_total_correct in Hx as <-, Hy as <-. unfold entry, file_bytes.
  change (Z.to_nat sizeof_dirent) with 16%nat. change sizeof_dirent with 16.
  rewrite read_bytes_lookup by done. rewrite E', Hby by lia. destruct (decide (j = k)) as [Ejk|Ejk].
  - subst j. rewrite decide_True by lia. f_equal. lia.
  - rewrite decide_False by lia. rewrite read_bytes_lookup by done. symmetry. apply E. apply Hjk in Ejk. lia.
Qed.

Lemma dents_length V i : length (dents V i) = Z.to_nat (i_size i / sizeof_dirent).
Proof using. unfold dents, upto. by rewrite !length_fmap, length_seq. Qed.

(** The list of entries after a write of one, and the map it stands for. *)
Lemma wrote_dents V i V' i' k bs : file_ok start sb ib V i -> file_ok start sb ib V' i' -> dir_file V i -> dir_file V' i' ->
  wrote V i (16 * k) bs V' i' -> length bs = 16%nat -> 0 <= k <= i_size i / 16 ->
  dents V' i' = take (Z.to_nat k) (dents V i) ++ entry_of bs :: drop (S (Z.to_nat k)) (dents V i).
Proof using.
  intros Hf Hf' Hd Hd' Hw Hlen Hk.
  assert (Esz : i_size i' = Z.max (i_size i) (16 * k + 16)).
  { rewrite (wo_inode _ _ _ _ _ _ _ Hw), Hlen. done. }
  pose proof (df_whole _ _ Hd) as Hwh. pose proof (df_size _ _ Hd) as Hsz. change sizeof_dirent with 16 in *.
  set (n := i_size i / 16) in *. assert (En : i_size i = 16 * n) by (unfold n; Z.div_mod_to_equations; lia).
  assert (En' : i_size i' / 16 = Z.max n (k + 1)).
  { rewrite Esz, En. replace (Z.max (16 * n) (16 * k + 16)) with (Z.max n (k + 1) * 16) by lia. by apply Z.div_mul. }
  pose proof (dents_length V i) as Hl. pose proof (dents_length V' i') as Hl'. change sizeof_dirent with 16 in *. fold n in Hl.
  apply list_eq_same_length with (n := length (dents V' i')); [|done|].
  { rewrite length_app, length_take. cbn [length]. rewrite length_drop. lia. }
  intros j x y Hj Hx Hy. rewrite Hl', En' in Hj.
  pose proof (dents_lookup V' i' (Z.of_nat j)) as Hj'. change sizeof_dirent with 16 in Hj'. rewrite Nat2Z.id in Hj'. rewrite Hj' in Hx by lia.
  rewrite (wrote_entry V i V' i' k bs) in Hx by (done || lia). injection Hx as <-.
  destruct (decide (Z.of_nat j = k)) as [Ej|Ej].
  - rewrite lookup_app_r in Hy by (rewrite length_take; lia). rewrite length_take in Hy.
    replace (j - Z.to_nat k `min` length (dents V i))%nat with 0%nat in Hy by lia. by simplify_eq/=.
  - pose proof (dents_lookup V i (Z.of_nat j)) as Hv. change sizeof_dirent with 16 in Hv. rewrite Nat2Z.id in Hv. fold n in Hv.
    destruct (decide (j < Z.to_nat k)%nat).
    + rewrite lookup_app_l, lookup_take_lt in Hy by (rewrite ?length_take; lia). rewrite Hv in Hy by lia. by simplify_eq.
    + rewrite lookup_app_r in Hy by (rewrite length_take; lia). rewrite length_take in Hy.
      replace (j - Z.to_nat k `min` length (dents V i))%nat with (S (j - S (Z.to_nat k))) in Hy by lia. change (drop (S (Z.to_nat k)) (dents V i) !! (j - S (Z.to_nat k))%nat = Some y) in Hy.
      rewrite lookup_drop in Hy. replace (S (Z.to_nat k) + (j - S (Z.to_nat k)))%nat with j in Hy by lia.
      rewrite Hv in Hy by lia. by simplify_eq.
Qed.
End written.

(** The first free entry, or the end. *)
Definition slot (es : entries) : nat := default (length es) (fst <$> list_find (fun e => e.1 = 0) es).

(** Filling the slot adds the name to the map. *)
Lemma dir_map_slot es nm n : n <> 0 -> dir_map es !! nm = None ->
  dir_map (take (slot es) es ++ (n, nm) :: drop (S (slot es)) es) = <[nm := n]> (dir_map es).
Proof using.
  intros Hn Hnone. unfold slot. destruct (list_find (fun e => e.1 = 0) es) as [[k [z nm']]|] eqn:E.
  - apply list_find_Some in E as (Hk & Hz & _). simpl in Hz. subst z. cbn [fmap option_fmap option_map default fst].
    assert (Ees : dir_map es = dir_map (take k es ++ drop (S k) es)).
    { rewrite <-(take_drop_middle es k _ Hk) at 1. apply dir_map_free. }
    rewrite Ees in *. by apply dir_map_fill.
  - cbn [fmap option_fmap option_map default]. rewrite firstn_all, skipn_all2 by lia.
    rewrite dir_map_fill; rewrite ?app_nil_r; done.
Qed.

Lemma slot_bound es : (slot es <= length es)%nat.
Proof using.
  unfold slot. destruct (list_find (fun e => e.1 = 0) es) as [[k e]|] eqn:E; [|done].
  apply list_find_Some in E as (Hk & _). apply lookup_lt_Some in Hk. simpl. lia.
Qed.

Lemma de_set_length name inum de : length de = 16%nat -> length (de_set name inum de) = 16%nat.
Proof.
  intros Hde. unfold de_set, put_16.
  assert (Hs : length (splice 2 (read_bytes (CString.strncpy (arrays (de_name de) name) 0 PGSIZE DIRSIZ) 0 (Z.to_nat DIRSIZ)) de) = 16%nat).
  { rewrite splice_length; rewrite ?read_bytes_length; rewrite ?Hde; by vm_compute. }
  rewrite put_le_length; rewrite ?Hs; done.
Qed.

(** One entry lies in one block. *)
Lemma entry_rounds k : 0 <= k -> rounds (16 * k) 16 = 1.
Proof. intros Hk. unfold rounds, BSIZE. simpl. Z.div_mod_to_equations. lia. Qed.

Section link.
Context {HF : Fuel} {HU : UartHw} (me : nat) (q : proc) (start : Z) (sb : superblock) (ib : Z) (dp : nat).
Context (W : list (Z * block)) (D : Z -> block).
Abbreviation writing := (writing me q start sb ib dp W D).

(** A writer can read, with another set of logged blocks in the cache at most. *)
Lemma writing_reading k n V i s : writing k n V i s -> 0 <= k -> exists L, reading me q dp i W V D L s /\
  forall s', reading me q dp i W V D L s' -> bframe s s' -> writing k n V i s'.
Proof using.
  intros [[L Ht] Hsb Hi Hfs Hf Hen] Hk. exists L. split.
  - constructor; [apply Ht| |exact Hi]. destruct (txn_size _ _ _ _ _ _ _ _ _ _ Ht) as [?|?]; [|lia]. unfold NBUF, MAXOPBLOCKS. lia.
  - intros s' [Hb _ Hi'] F. constructor; [exists L; by eapply txn_bframe|by rewrite (lframe_sb _ _ (lframe_bframe _ _ F))|done..].
Qed.

(** The search for a free entry; [de] is the entry read last. *)
Definition slot_round (size : Z) : Z * list Z -> K (Z * list Z + Z * list Z) := fun '(off, de) =>
  if off <? size then
    r <- readi dp ToLocal off sizeof_dirent ;;
    panic_if (negb (fst r =? sizeof_dirent)) "dirlink read" ;;
    let de := snd r in
    if de_inum de =? 0 then ret (inr (off, de))
    else ret (inl (off + sizeof_dirent, de))
  else ret (inr (off, de)).

Lemma wp_slot V i L s (Q : Z * list Z -> kernel -> Prop) : reading me q dp i W V D L s -> dir_ok V i ->
  (forall s' de, reading me q dp i W V D L s' -> bframe s s' -> length de = 16%nat ->
     Q (16 * Z.of_nat (slot (dents V i)), de) s') ->
  wp (loop (Z.to_nat (i_size i / sizeof_dirent + 2)) (slot_round (i_size i)) (0, replicate (Z.to_nat sizeof_dirent) 0)) s Q.
Proof using.
  intros Hr Hd HQ. pose proof (do_whole _ _ Hd) as Hw. pose proof (co_size _ _ (do_content _ _ Hd)) as Hsz. change sizeof_dirent with 16 in *.
  set (n := i_size i / 16) in *. assert (En : i_size i = 16 * n) by (unfold n; Z.div_mod_to_equations; lia).
  pose proof (dents_length V i) as Hlen. change sizeof_dirent with 16 in Hlen. fold n in Hlen.
  apply (wp_loop (fun '(off, de) s' => exists k, off = 16 * k /\ 0 <= k <= n /\ length de = 16%nat /\ reading me q dp i W V D L s' /\ bframe s s' /\
    forall j e, (j < Z.to_nat k)%nat -> dents V i !! j = Some e -> e.1 <> 0) (fun '(off, _) => Z.to_nat (n - off / 16)));
    [|exists 0; split_and!; try done; [lia|apply bframe_refl|intros; lia]|change (0 / 16) with 0; lia].
  intros [off de] s1 (k & -> & Hk & Hde & Hr1 & Hf1 & Hno). unfold slot_round. destruct (Z.ltb_spec (16 * k) (i_size i)) as [Hlt|Hge].
  - assert (Hk' : 0 <= k < n) by lia. pose proof (dents_lookup V i k Hk') as Hent. change sizeof_dirent with 16.
    apply wp_bind. apply (wp_read_entry me q dp i W V D L k s1); [done|done|done|]. intros s2 Hr2 Hf2. cbn [fst snd].
    change (negb (sizeof_dirent =? 16)) with false. cbn [panic_if]. apply wp_bind, wp_ret.
    destruct (Z.eqb_spec (de_inum (entry V i k)) 0) as [E0|E0]; apply wp_ret.
    + assert (Es : list_find (fun e => e.1 = 0) (dents V i) = Some (Z.to_nat k, entry_of (entry V i k))).
      { apply list_find_Some. split; [done|]. split; [done|]. intros j e He Hj. by eapply Hno. }
      assert (Hs : slot (dents V i) = Z.to_nat k) by (unfold slot; by rewrite Es).
      replace (16 * k) with (16 * Z.of_nat (slot (dents V i))) by lia.
      apply HQ; [done|by eapply bframe_trans|apply entry_length].
    + replace (16 * k + 16) with (16 * (k + 1)) by lia. rewrite !(Z.mul_comm 16), !Z.div_mul by lia. split; [|lia].
      exists (k + 1). rewrite !(Z.mul_comm 16). split; [done|]. split; [lia|]. split; [apply entry_length|]. split; [done|].
      split; [by eapply bframe_trans|]. intros j e Hj He. destruct (decide (j = Z.to_nat k)) as [->|]; [by simplify_eq|]. eapply Hno; [|done]. lia.
  - apply wp_ret. assert (k = n) as -> by lia.
    assert (Es : list_find (fun e => e.1 = 0) (dents V i) = None).
    { apply list_find_None, Forall_lookup. intros j e He. apply (Hno j); [|done]. apply lookup_lt_Some in He. lia. }
    assert (Hs : slot (dents V i) = length (dents V i)) by (unfold slot; by rewrite Es).
    replace (16 * n) with (16 * Z.of_nat (slot (dents V i))) by lia.
    by apply HQ.
Qed.

(** The name is not there, and there is room for an entry: it is added. *)
Lemma wp_dirlink V i name inum s (Q : Z -> kernel -> Prop) :
  writing 7 2 V i s -> dir_file V i -> i_size i + 16 <= MAXFILE * BSIZE -> ib = IBLOCK (i_inum i) sb ->
  Z.of_nat (length name) < PGSIZE -> 0 < inum < 2 ^ 16 ->
  it_lock (k_it s) = false -> length (inodes s) = Z.to_nat NINODE ->
  dir_map (dents V i) !! key name = None ->
  (forall V' i' s', writing 0 0 V' i' s' -> dir_file V' i' -> dir_map (dents V' i') = <[key name := inum]> (dir_map (dents V i)) ->
     Q 0 s') -> wp (dirlink dp name inum) s Q.
Proof using.
  intros Hw Hdf Hroom Hib Hn Hinum Hlk Hlen Hnone HQ. unfold dirlink.
  destruct (writing_reading _ _ _ _ _ Hw) as (L & Hr & Hback); [lia|].
  destruct (dir_file_ok start sb ib V i (wr_file _ _ _ _ _ _ _ _ _ _ _ _ _ Hw) Hdf) as [Hd _].
  apply wp_bind. eapply (wp_dirlookup me q dp i W V D L); [exact Hr|exact Hd|exact Hn|exact Hlk|exact Hlen|].
  intros s1 Hr1 Hf1. rewrite dir_map_find in Hnone. apply fmap_None in Hnone. rewrite Hnone.
  apply wp_bind. eapply wp_iget_; [apply (rd_inode _ _ _ _ _ _ _ _ _ Hr1)|]. apply wp_bind. fold (slot_round (i_size i)).
  eapply (wp_slot V i L s1); [exact Hr1|exact Hd|]. intros s2 de Hr2 Hf2 Hde.
  assert (Hw2 : writing 7 2 V i s2) by (apply Hback; [done|by eapply bframe_trans]).
  pose proof (slot_bound (dents V i)) as Hsl. pose proof (dents_length V i) as Hdl. pose proof (df_size _ _ Hdf) as Hsz.
  pose proof (df_whole _ _ Hdf) as Hwh. change sizeof_dirent with 16 in *. set (k := Z.of_nat (slot (dents V i))) in *.
  assert (HM : MAXFILE * BSIZE < 2 ^ 30) by by vm_compute.
  assert (Hk : 0 <= k <= i_size i / 16) by (pose proof (Z.div_pos (i_size i) 16); lia). assert (Hk2 : 16 * k <= i_size i) by (Z.div_mod_to_equations; lia).
  rewrite uwrap_small by lia.
  destruct (de_set_spec name inum de) as (E1 & E2 & E3); [by rewrite Hde|done|].
  pose proof (de_set_length name inum de Hde) as Hbs. set (bs := de_set name inum de) in *.
  assert (Hbz : Z.of_nat (length bs) = 16) by by rewrite Hbs.
  apply wp_bind. replace (writei dp (FromLocal bs) (16 * k) 16) with (writei dp (FromLocal bs) (16 * k) (Z.of_nat (length bs))) by (by rewrite Hbz).
  eapply (wp_writei me q start sb ib dp W D 0 0 V i (16 * k) bs s2);
    [rewrite Hbz, entry_rounds by lia; exact Hw2|lia|lia|lia|lia|apply Hdf|exact Hib|].
  intros V' i' s3 Hw3 Hwo. rewrite Hbz. apply wp_ret. change (negb (16 =? 16)) with false. cbv iota.
  pose proof (wo_inode _ _ _ _ _ _ _ Hwo) as Hi'. rewrite Hbz in Hi'.
  assert (Hsz' : i_size i' = Z.max (i_size i) (16 * k + 16)) by by rewrite Hi'.
  assert (Hdf' : dir_file V' i').
  { constructor; [by rewrite Hi'; apply Hdf|lia| |apply Hwo]. rewrite Hsz'. change sizeof_dirent with 16.
    destruct (Z.max_spec (i_size i) (16 * k + 16)) as [[_ ->]|[_ ->]]; [|done]. Z.div_mod_to_equations. lia. }
  apply (HQ V' i'); [exact Hw3|exact Hdf'|].
  rewrite (wrote_dents start sb ib V i V' i' k bs); [|apply Hw|apply Hw3|done..|lia].
  unfold k. rewrite Nat2Z.id. unfold entry_of. rewrite E1. replace (inum mod 2 ^ 16) with inum by (symmetry; apply Z.mod_small; lia).
  unfold key at 1. rewrite E2, take_take, Nat.min_id. fold (key name). apply dir_map_slot; [lia|]. by rewrite dir_map_find, Hnone.
Qed.

Lemma writing_inodes k n V i s f : writing k n V i s -> f (inodes s) !! dp = Some i -> writing k n V i (on_inodes f s).
Proof using.
  intros [[L Ht] Hsb Hi Hfs Hf Hen] Hl. constructor; [exists L; by apply txn_set_it|done|done|done|done|done].
Qed.

(** The name is there: [dirlink] takes a reference to its inode, gives it back, and refuses. *)
Lemma wp_dirlink_exists k n V i name inum m ip l s (Q : Z -> kernel -> Prop) :
  writing k n V i s -> 0 <= k -> dir_file V i -> 0 < i_ref i -> Z.of_nat (length name) < PGSIZE ->
  it_lock (k_it s) = false -> length (inodes s) = Z.to_nat NINODE ->
  dir_map (dents V i) !! key name = Some m -> iget_table ROOTDEV m (inodes s) = Some (ip, l) ->
  (forall s', writing k n V i s' -> Q (-1) s') -> wp (dirlink dp name inum) s Q.
Proof using.
  intros Hw Hk Hdf Href Hn Hlk Hlen Hm Ht HQ. unfold dirlink.
  destruct (writing_reading _ _ _ _ _ Hw Hk) as (L & Hr & Hback).
  destruct (dir_file_ok start sb ib V i (wr_file _ _ _ _ _ _ _ _ _ _ _ _ _ Hw) Hdf) as [Hd _].
  apply wp_bind. eapply (wp_dirlookup me q dp i W V D L); [exact Hr|exact Hd|exact Hn|exact Hlk|exact Hlen|].
  intros s1 Hr1 Hf1. rewrite dir_map_find in Hm. apply fmap_Some in Hm as ([j e] & Hfind & ->). rewrite Hfind.
  exists ip, l. split; [exact Ht|]. pose proof (bframe_it _ _ Hf1) as Eit.
  destruct (iget_table_spec _ _ _ _ _ Ht) as (i0 & i1 & H0 & -> & _ & _ & _ & Hcase).
  pose proof (lookup_lt_Some _ _ _ H0) as Hlt. rewrite <-Eit in H0, Hlt.
  set (s2 := on_inodes (fun _ => <[ip := i1]> (inodes s)) s1).
  assert (H1 : inodes s2 !! ip = Some i1) by (unfold s2; cbn; rewrite <-Eit; by apply list_lookup_insert_eq).
  assert (Hlast : (i_ref i1 =? 1) && i_valid i1 && (i_nlink i1 =? 0) = false).
  { destruct Hcase as [[Hi0 ->]|[_ ->]]; [|done]. apply Is_true_true in Hi0. unfold is_inode in Hi0.
    cbn [one_more i_ref set_i_ref i_valid i_nlink]. replace (i_ref i0 + 1 =? 1) with false by lia. done. }
  apply wp_bind. eapply wp_done.
  { apply (iput_eq ip i1 s2); [apply (quiet_cpu _ _ _ (binv_quiet _ _ _ _ _ _ _ _ (rd_binv _ _ _ _ _ _ _ _ _ Hr1)))|cbn; by rewrite Eit|done|done]. }
  apply wp_ret, HQ. unfold s2. rewrite on_inodes_compose. apply writing_inodes; [by apply Hback|].
  pose proof (rd_inode _ _ _ _ _ _ _ _ _ Hr1) as Hi1. rewrite <-Eit. destruct (decide (ip = dp)) as [->|Hne].
  - rewrite list_lookup_alter_eq, list_lookup_insert_eq by done. rewrite Hi1 in H0. injection H0 as <-.
    destruct Hcase as [[_ ->]|[Hz _]]; [|lia]. cbn [fmap option_fmap option_map]. by rewrite one_less_more.
  - by rewrite list_lookup_alter_ne, list_lookup_insert_ne.
Qed.
End link.

(** ** Properties *)

(** [dirlookup] looks a name up in the directory's map.  If the directory has no entry for the name it
    returns null, and changes nothing but the cache's bookkeeping.  Otherwise it returns the entry of the inode table
    that holds the inode number the map has for the name, with one more reference, at the offset of the entry; the other entries of the table are as
    before. *)
Theorem dirlookup_correct {HF : Fuel} {HU : UartHw} me q dp i W V D L name s :
  reading me q dp i W V D L s -> dir_ok V i -> Z.of_nat (length name) < PGSIZE ->
  it_lock (k_it s) = false -> length (inodes s) = Z.to_nat NINODE ->
  match dir_map (dents V i) !! key name with
  | None => exists s', dirlookup dp name s = Done None s' /\ reading me q dp i W V D L s' /\ bframe s s'
  | Some inum => forall ip l, iget_table ROOTDEV inum (inodes s) = Some (ip, l) ->
      exists k s' i0 i1, dirlookup dp name s = Done (Some (ip, sizeof_dirent * k)) s' /\
        0 <= k < i_size i / sizeof_dirent /\ entry_of (entry V i k) = (inum, key name) /\
        inodes s !! ip = Some i0 /\ inodes s' = <[ip := i1]> (inodes s) /\
        i_dev i1 = ROOTDEV /\ i_inum i1 = inum /\ i_ref i1 = i_ref i0 + 1 /\ bframe (on_inodes (fun _ => inodes s') s) s'
  end.
Proof.
  intros Hr Hd Hn Hlk Hlen. rewrite dir_map_find.
  destruct (list_find (matches (key name)) (dents V i)) as [[j e]|] eqn:Hfind; cbn [fmap option_fmap option_map snd fst].
  - intros ip l Ht. destruct (iget_table_spec _ _ _ _ _ Ht) as (i0 & i1 & H0 & El & Hdev & Hinum & _ & Hcase).
    assert (wp (dirlookup dp name) s (fun r s' => r = Some (ip, sizeof_dirent * Z.of_nat j) /\
      inodes s' = l /\ bframe (on_inodes (fun _ => inodes s') s) s')) as (r & s' & E & -> & Ei & F).
    { eapply (wp_dirlookup me q dp i W V D L); [done..|]. intros s1 _ F. rewrite Hfind. exists ip, l. split; [done|]. split; [done|].
      split; [done|]. cbn. unfold bframe in *. rewrite F. by destruct s. }
    exists (Z.of_nat j), s', i0, i1. split; [done|]. apply list_find_Some in Hfind as (Hj & [_ Hm] & _).
    pose proof (lookup_lt_Some _ _ _ Hj) as Hlt. rewrite dents_length in Hlt. split; [lia|].
    split; [|split; [done|]; split; [by rewrite Ei|]; split; [done|]; split; [done|]; split; [|done]].
    + pose proof (dents_lookup V i (Z.of_nat j) ltac:(lia)) as He. rewrite Nat2Z.id, Hj in He. injection He as <-.
      destruct e. simpl in *. by subst.
    + destruct Hcase as [[_ ->]|[Hz ->]]; [done|]. simpl. lia.
  - assert (wp (dirlookup dp name) s (fun r s' => r = None /\ reading me q dp i W V D L s' /\ bframe s s')) as (r & s' & E & -> & HQ).
    { eapply (wp_dirlookup me q dp i W V D L); [done..|]. intros s1 H1 F. by rewrite Hfind. }
    by exists s'.
Qed.

(** C35: [dirlink] inserts a name into the directory's map.  Inside a transaction, if the
    directory has no entry for the name, it returns 0, and the map is the old one with the
    inode number added under the name; the directory, the bitmap and the file's blocks stay in order.
    If the name is there it returns -1 and neither the directory nor any block changes. *)
Theorem dirlink_correct {HF : Fuel} {HU : UartHw} me q start sb ib dp W D V i name inum s :
  writing me q start sb ib dp W D 7 2 V i s -> dir_file V i -> 0 < i_ref i -> ib = IBLOCK (i_inum i) sb ->
  Z.of_nat (length name) < PGSIZE -> 0 < inum < 2 ^ 16 ->
  it_lock (k_it s) = false -> length (inodes s) = Z.to_nat NINODE ->
  match dir_map (dents V i) !! key name with
  | None => i_size i + sizeof_dirent <= MAXFILE * BSIZE -> exists V' i' s',
      dirlink dp name inum s = Done 0 s' /\ writing me q start sb ib dp W D 0 0 V' i' s' /\ dir_file V' i' /\
      dir_map (dents V' i') = <[key name := inum]> (dir_map (dents V i))
  | Some m => is_Some (iget_table ROOTDEV m (inodes s)) -> exists s',
      dirlink dp name inum s = Done (-1) s' /\ writing me q start sb ib dp W D 7 2 V i s'
  end.
Proof.
  intros Hw Hdf Href Hib Hn Hinum Hlk Hlen. destruct (dir_map (dents V i) !! key name) as [m|] eqn:Hm.
  - intros [[ip l] Ht].
    assert (wp (dirlink dp name inum) s (fun r s' => r = -1 /\ writing me q start sb ib dp W D 7 2 V i s')) as (r & s' & E & -> & HQ).
    { by eapply (wp_dirlink_exists me q start sb ib dp W D 7 2 V i name inum m ip l). }
    by exists s'.
  - intros Hroom.
    assert (wp (dirlink dp name inum) s (fun r s' => r = 0 /\ exists V' i', writing me q start sb ib dp W D 0 0 V' i' s' /\ dir_file V' i' /\
      dir_map (dents V' i') = <[key name := inum]> (dir_map (dents V i)))) as (r & s' & E & -> & V' & i' & HQ).
    { eapply (wp_dirlink me q start sb ib dp W D V i); try done. intros V' i' s' H1 H2 H3. split; [done|]. by exists V', i'. }
    by exists V', i', s'.
Qed.

(** ** Two directories *)
#[local] Existing Instance demo_fuel.
#[local] Instance dir_uart : UartHw := fun _ => 0%nat.

(** An empty directory on the file system of FsBlocks.v. *)
Definition empty_dir : inode := set_i_type T_DIR (set_i_ref 1 new_inode).
Definition dir_kernel : kernel := set_k_it (Itable false (empty_dir :: replicate 49 inode0)) fs_txn.

Lemma it_lock_set_it it s : it_lock (k_it (set_k_it it s)) = it_lock it.
Proof. done. Qed.

Lemma dir_writing : writing 1 demo_proc 2 fs_sb 33 0 [] (contents fs_disk) 7 2 (contents fs_disk) empty_dir dir_kernel.
Proof.
  destruct fs_txn_ok as [Ht Hsb]. unfold dir_kernel.
  constructor; [|rewrite sb_set_it; exact Hsb|rewrite inodes_set_it; reflexivity|exact new_fs_ok| |].
  - exists ∅. apply txn_set_it. eapply txn_weaken; [|exact Ht]. lia.
  - destruct new_file_ok as [F1 F2 F3 F4 F5]. constructor; [exact F1|exact F2|exact F3|exact F4|exact F5].
  - exists [48; 49]. split_and!; [by apply (bool_decide_unpack _); vm_compute|done|].
    repeat constructor; try (cbn; lia); by vm_compute.
Qed.

Lemma dirlink_correct_witness : exists V' i' s', dirlink 0 [97; 98] 5 dir_kernel = Done 0 s' /\
  writing 1 demo_proc 2 fs_sb 33 0 [] (contents fs_disk) 0 0 V' i' s' /\ dir_map (dents V' i') !! [97; 98] = Some 5.
Proof.
  pose proof (dirlink_correct 1 demo_proc 2 fs_sb 33 0 [] (contents fs_disk) (contents fs_disk) empty_dir [97; 98] 5 dir_kernel dir_writing) as Hl.
  destruct Hl as (V' & i' & s' & E & Hw & _ & Hm).
  - constructor; [reflexivity|by vm_compute|reflexivity|]. intros x Hx. cbn in Hx. lia.
  - cbn. lia.
  - by vm_compute.
  - by vm_compute.
  - lia.
  - unfold dir_kernel. rewrite it_lock_set_it. reflexivity.
  - unfold dir_kernel. rewrite inodes_set_it. reflexivity.
  - by vm_compute.
  - exists V', i', s'. split; [exact E|]. split; [exact Hw|]. rewrite Hm. exact (lookup_insert_eq _ _ _).
Defined.

(** A directory with an entry for inode 5 under the name ab, in block 100. *)
Definition one_entry : block := [5; 0; 97; 98] ++ replicate (Z.to_nat BSIZE - 4) 0.
Definition entry_disk : gmap Z block := {[ 100 := one_entry ]}.
Definition entry_inode : inode := set_i_type T_DIR (set_i_dev ROOTDEV (set_i_size 16 (set_i_addrs (100 :: replicate 12 0) inode0))).
Definition entry_kernel : kernel := set_k_it (Itable false (set_i_ref 1 entry_inode :: replicate 49 inode0)) (boot_on entry_disk (k_sb kernel0)).

Lemma entry_dir_ok : dir_ok (contents entry_disk) (set_i_ref 1 entry_inode).
Proof.
  assert (H0 : forall bn, 0 <= bn -> bn * BSIZE < 16 -> bn = 0) by (unfold BSIZE; lia).
  constructor; [reflexivity| |reflexivity]. constructor.
  - reflexivity.
  - by vm_compute.
  - by vm_compute.
  - intros bn H1 H2. rewrite (H0 bn H1 H2). by vm_compute.
  - intros bn H1 H2. rewrite (H0 bn H1 H2). by vm_compute.
Qed.

Lemma entry_reading : reading 1 demo_proc 0 (set_i_ref 1 entry_inode) [] (contents entry_disk) (contents entry_disk) ∅ entry_kernel.
Proof.
  destruct (boot_on_ok entry_disk (k_sb kernel0)) as ((Hinv & _) & Hw & _). rewrite Hw in Hinv.
  constructor; [by apply binv_set_it|by rewrite size_empty; vm_compute; lia|]. unfold entry_kernel. rewrite inodes_set_it. reflexivity.
Qed.

Lemma dirlookup_correct_witness : exists s', dirlookup 0 [97; 98] entry_kernel = Done (Some (1%nat, 0)) s'.
Proof.
  pose proof (dirlookup_correct 1 demo_proc 0 (set_i_ref 1 entry_inode) [] (contents entry_disk) (contents entry_disk) ∅ [97; 98] entry_kernel
    entry_reading entry_dir_ok ltac:(by vm_compute)) as Hl.
  replace (dir_map (dents (contents entry_disk) (set_i_ref 1 entry_inode)) !! key [97; 98]) with (Some 5) in Hl by (vm_compute; reflexivity).
  destruct (Hl ltac:(unfold entry_kernel; rewrite it_lock_set_it; reflexivity) ltac:(unfold entry_kernel; rewrite inodes_set_it; reflexivity)
    1%nat (alter (recycle ROOTDEV 5) 1%nat (set_i_ref 1 entry_inode :: replicate 49 inode0)))
    as (k & s' & i0 & i1 & E & Hk & _).
  - unfold entry_kernel. rewrite inodes_set_it. reflexivity.
  - change (i_size (set_i_ref 1 entry_inode) / sizeof_dirent) with 1 in Hk. assert (k = 0) as -> by lia. exists s'. exact E.
Defined.
