(* ===== verification/FsPath.v ===== *)
(** * Paths: ilock, iunlock and namex of kernel/fs.c

    The tree of directories on the disk as a graph of maps, and the walk of [namex] through it: which inode a path
    leads to, and that exactly one reference, to that inode, is left behind. *)

From S2P Require Import Prelude Params Memory Kalloc Block State Sched SchedSpec Quiet Kcopy.
From S2P Require Import Uart Dll Bio BioSpec Cache Log LogSpec Crash Fs FsSpec FsBlocks FsContent Inodes FsFile FsWrite FsDir.

(** Only the cache, the disk and the table of inodes differ. *)
Definition iframe (s s' : kernel) : Prop :=
  s' = set_k_it (k_it s') (set_k_writes (k_writes s') (set_k_disk (k_disk s') (set_k_bc (k_bc s') s))).

Lemma iframe_refl s : iframe s s.
Proof. by destruct s. Qed.
Lemma iframe_trans s1 s2 s3 : iframe s1 s2 -> iframe s2 s3 -> iframe s1 s3.
Proof. unfold iframe. intros H1 H2. rewrite H2, H1. done. Qed.
Lemma iframe_bframe s s' : bframe s s' -> iframe s s'.
Proof. unfold iframe, bframe. intros ->. by destruct s. Qed.
Lemma iframe_inodes f s : iframe s (on_inodes f s).
Proof. by destruct s. Qed.
Lemma iframe_sb s s' : iframe s s' -> k_sb s' = k_sb s.
Proof. unfold iframe. by intros ->. Qed.

Lemma bframe_on_inodes f s s' : bframe s s' -> bframe (on_inodes f s) (on_inodes f s').
Proof. unfold bframe. intros ->. by destruct s. Qed.

Section path.
Context {HF : Fuel} {HU : UartHw} (me : nat) (q : proc) (sb : superblock) (W : list (Z * block)) (V D : Z -> block) (L : gset Z).

(** ** The inodes on the disk *)

(** An entry with the fields that the disk has for its inode. *)
Definition loaded (i : inode) : inode := dinode_load (i_inum i) (V (IBLOCK (i_inum i) sb)) i.

Definition disk_inode (n : Z) : inode := loaded (set_i_dev ROOTDEV (set_i_inum n inode0)).

Definition dir_of (n : Z) : gmap (list Z) Z := dir_map (dents V (disk_inode n)).

Definition is_dir (n : Z) : bool := i_type (disk_inode n) =? T_DIR.

(** The inodes of the tree: allocated, with a link, the directories in order and leading to inodes of the tree again. *)
Record tree (live : Z -> Prop) : Prop := {
  tr_type n : live n -> i_type (disk_inode n) <> 0;
  tr_link n : live n -> i_nlink (disk_inode n) <> 0;
  tr_dir n : live n -> is_dir n = true -> dir_ok V (disk_inode n);
  tr_child n nm m : live n -> is_dir n = true -> dir_of n !! nm = Some m -> live m;
}.

(** The inode a path leads to; for the parent, the path without its last element. *)
Fixpoint leads_to (parent : bool) (n : Z) (es : list (list Z)) : option Z :=
  match es with
  | [] => if parent then None else Some n
  | e :: es' =>
      if is_dir n then
        if parent && bool_decide (es' = []) then Some n
        else m ← dir_of n !! take (Z.to_nat DIRSIZ) e; leads_to parent m es'
      else None
  end.

Context (live : Z -> Prop).
Hypothesis (Htree : tree live).

(** ** The table *)

Record entry_fine (i : inode) : Prop := {
  ef_dev : 0 < i_ref i -> i_dev i = ROOTDEV;
  ef_live : 0 < i_ref i -> live (i_inum i);
  ef_valid : 0 < i_ref i -> i_valid i = true -> loaded i = i;
}.

Record tab_ok (l : list inode) : Prop := {
  tk_table : table_ok l;
  tk_entry k i : l !! k = Some i -> entry_fine i;
}.

(** The locks are free, but for that of entry [ip]. *)
Definition unlocked_but (ip : option nat) (l : list inode) : Prop :=
  forall k i, l !! k = Some i -> Some k <> ip -> exists pid, i_lock i = Sleeplock false false pid.

(** The kernel [s] with the table [l], since [s0]. *)
Record view_of (s0 : kernel) (l : list inode) (s : kernel) : Prop := {
  vw_binv : binv me q W V D L ∅ s;
  vw_room : (size L < Z.to_nat NBUF)%nat;
  vw_sb : k_sb s = sb;
  vw_lock : it_lock (k_it s) = false;
  vw_tab : inodes s = l;
  vw_len : length l = Z.to_nat NINODE;
  vw_frame : iframe s0 s;
}.

Lemma view_reading s0 l s ip i : view_of s0 l s -> l !! ip = Some i -> reading me q ip i W V D L s.
Proof using. intros [H1 H2 H3 H4 <- H6 H7] Hi. by constructor. Qed.

Lemma view_bframe s0 l s ip i s' : view_of s0 l s -> reading me q ip i W V D L s' -> bframe s s' -> view_of s0 l s'.
Proof using.
  intros [H1 H2 H3 H4 H5 H6 H7] [R1 R2 R3] F. pose proof (bframe_it _ _ F) as E. constructor; rewrite ?E; try done.
  - rewrite <-H3. apply iframe_sb. by apply iframe_bframe.
  - eapply iframe_trans; [done|by apply iframe_bframe].
Qed.

Lemma view_inodes s0 l s f : view_of s0 l s -> length (f l) = length l -> view_of s0 (f l) (on_inodes f s).
Proof using.
  intros [H1 H2 H3 H4 H5 H6 H7] Hlen. constructor; try done.
  - by apply binv_set_it.
  - cbn. by rewrite H5.
  - by rewrite Hlen.
  - eapply iframe_trans; [done|apply iframe_inodes].
Qed.

Lemma view_quiet s0 l s : view_of s0 l s -> quiet me q s.
Proof using. intros Hv. apply (binv_quiet _ _ _ _ _ _ _ _ (vw_binv _ _ _ Hv)). Qed.

(** ** The locks of inodes *)

Lemma i_lock_update ip t s : update (i_lockL ip) t s = on_inodes (alter (set_i_lock t) ip) s.
Proof using. unfold i_lockL, inodeL, nthL, lcomp, on_inodes. simpl. by rewrite insert_alter. Qed.

Lemma i_lock_view ip i s : inodes s !! ip = Some i -> view (i_lockL ip) s = i_lock i.
Proof using. intros Hi. unfold i_lockL, inodeL, nthL, lcomp. simpl. by rewrite (list_lookup_total_correct _ _ _ Hi). Qed.

Lemma view_insert s0 l s ip i f : view_of s0 l s -> l !! ip = Some i ->
  view_of s0 (<[ip := f i]> l) (on_inodes (alter f ip) s).
Proof using.
  intros Hv Hi. pose proof (view_inodes s0 l s (alter f ip) Hv (length_alter _ _ _)) as Hv'.
  by rewrite (alter_insert f l ip i Hi) in Hv'.
Qed.

Definition my_lock : sleeplock := Sleeplock true false (p_pid q).
Definition free_lock : sleeplock := Sleeplock false false 0.

Lemma loaded_lock t i : loaded i = i -> loaded (set_i_lock t i) = set_i_lock t i.
Proof using. intros E. rewrite <-E at 2. by destruct i. Qed.

(** What [ilock] does when the entry's fields have not been read yet. *)
Definition ilock_read (ip : nat) : K unit :=
  sb <- gets k_sb ;;
  dev <- iget_ ip i_dev ;;
  inum <- iget_ ip i_inum ;;
  bp <- bread dev (IBLOCK inum sb) ;;
  d <- bdata bp ;;
  iset_ ip (dinode_load inum d) ;;
  brelse bp ;;
  iset_ ip (set_i_valid true) ;;
  t <- iget_ ip i_type ;;
  panic_if (t =? 0) "ilock: no type".

Lemma wp_ilock_read s0 l s ip i (Q : unit -> kernel -> Prop) : view_of s0 l s -> l !! ip = Some i -> i_dev i = ROOTDEV -> live (i_inum i) ->
  (forall s', view_of s0 (<[ip := set_i_valid true (loaded i)]> l) s' -> Q tt s') -> wp (ilock_read ip) s Q.
Proof using Htree.
  intros Hv Hi Hdev Hlive HQ. assert (Hs : inodes s !! ip = Some i) by by rewrite (vw_tab _ _ _ Hv).
  unfold ilock_read. apply wp_bind, wp_gets. rewrite (vw_sb _ _ _ Hv).
  apply wp_bind. eapply wp_iget_; [exact Hs|]. apply wp_bind. eapply wp_iget_; [exact Hs|]. rewrite Hdev.
  apply wp_bind. pose proof (view_reading _ _ _ _ _ Hv Hi) as Hr1.
  eapply wp_read_block; [exact Hr1|]. intros b s2 Hb2 F2.
  apply wp_bind. eapply (wp_bdata me q); [done|apply lookup_singleton_eq|].
  apply wp_bind. eapply wp_done; [apply iset__eq|].
  set (ld := dinode_load (i_inum i) (V (IBLOCK (i_inum i) sb))).
  pose proof (view_insert s0 l s ip i ld Hv Hi) as Hv2. set (i2 := ld i) in *. set (l2 := <[ip := i2]> l) in *.
  assert (Hi2 : l2 !! ip = Some i2) by (apply list_lookup_insert_eq; by eapply lookup_lt_Some).
  apply wp_bind. eapply (wp_done_block me q ip i2 W V D L (IBLOCK (i_inum i) sb) b (on_inodes (alter ld ip) s));
    [by eapply view_reading|by apply binv_set_it|by apply bframe_on_inodes|]. intros s3 Hr3 F3.
  pose proof (view_bframe _ _ _ _ _ _ Hv2 Hr3 F3) as Hv3.
  apply wp_bind. eapply wp_done; [apply iset__eq|].
  pose proof (view_insert s0 l2 s3 ip i2 (set_i_valid true) Hv3 Hi2) as Hv4. unfold l2 in Hv4. rewrite list_insert_insert_eq in Hv4.
  apply wp_bind. eapply wp_iget_.
  { rewrite (vw_tab _ _ _ Hv4). apply list_lookup_insert_eq. by eapply lookup_lt_Some. }
  assert (Ht : i_type (disk_inode (i_inum i)) <> 0) by by apply (tr_type _ Htree).
  change (i_type (set_i_valid true i2)) with (i_type (disk_inode (i_inum i))).
  replace (i_type (disk_inode (i_inum i)) =? 0) with false by lia. apply wp_ret, HQ. exact Hv4.
Qed.

(** [ilock]: the entry is locked, and has the fields that the disk has. *)
Lemma wp_ilock s0 l s ip i (Q : unit -> kernel -> Prop) : view_of s0 l s -> l !! ip = Some i -> unlocked_but None l -> entry_fine i -> 0 < i_ref i ->
  (forall s', view_of s0 (<[ip := set_i_valid true (loaded (set_i_lock my_lock i))]> l) s' -> Q tt s') ->
  wp (ilock ip) s Q.
Proof using Htree.
  intros Hv Hi Hun [Hdev Hlive Hvalid] Href HQ. destruct (Hun ip i Hi) as [pid Hlk]; [done|]. unfold ilock. fold (ilock_read ip).
  specialize (Hdev Href). specialize (Hlive Href). specialize (Hvalid Href).
  assert (Hs : inodes s !! ip = Some i) by by rewrite (vw_tab _ _ _ Hv).
  assert (Hlt : inode_dom ip s) by (unfold inode_dom; by eapply lookup_lt_Some).
  apply wp_bind. eapply wp_iget_; [done|]. replace (i_ref i <? 1) with false by lia. cbn [panic_if]. apply wp_bind, wp_ret.
  apply wp_bind. eapply wp_done.
  { apply (acquiresleep_eq (i_lockL ip) (inode_dom ip) _ me q s pid); [by eapply view_quiet|done|by rewrite (i_lock_view ip i)]. }
  fold my_lock. rewrite i_lock_update. set (i1 := set_i_lock my_lock i) in *.
  pose proof (view_insert s0 l s ip i (set_i_lock my_lock) Hv Hi) as Hv1. fold i1 in Hv1.
  assert (Hi1 : <[ip := i1]> l !! ip = Some i1) by (apply list_lookup_insert_eq; by eapply lookup_lt_Some).
  apply wp_bind. eapply wp_iget_; [rewrite (vw_tab _ _ _ Hv1); exact Hi1|]. change (i_valid i1) with (i_valid i).
  destruct (i_valid i) eqn:Ev; cbn [negb when].
  - apply wp_ret, HQ. replace (set_i_valid true (loaded i1)) with i1; [exact Hv1|]. unfold i1. rewrite loaded_lock by auto. destruct i. cbn in Ev. by subst.
  - eapply (wp_ilock_read s0 _ _ ip i1); [exact Hv1|exact Hi1|done|done|]. intros s' Hv'. rewrite list_insert_insert_eq in Hv'. by apply HQ.
Qed.

Lemma wp_iunlock s0 l s ip i (Q : unit -> kernel -> Prop) : view_of s0 l s -> l !! ip = Some i -> i_lock i = my_lock -> 0 < i_ref i ->
  (forall s', view_of s0 (<[ip := set_i_lock free_lock i]> l) s' -> Q tt s') -> wp (iunlock ip) s Q.
Proof using.
  intros Hv Hi Hlk Href HQ. assert (Hs : inodes s !! ip = Some i) by by rewrite (vw_tab _ _ _ Hv).
  assert (Hlt : inode_dom ip s) by (unfold inode_dom; by eapply lookup_lt_Some).
  assert (Hview : view (i_lockL ip) s = my_lock) by by rewrite (i_lock_view ip i).
  pose proof (view_quiet _ _ _ Hv) as Hq. unfold iunlock.
  apply wp_bind. eapply wp_done; [by apply (holdingsleep_eq (i_lockL ip) (inode_dom ip) me q s my_lock)|]. cbn [sl_locked sl_pid my_lock]. rewrite Z.eqb_refl.
  apply wp_bind. eapply wp_iget_; [exact Hs|]. replace (i_ref i <? 1) with false by lia. cbn [andb orb negb panic_if].
  apply wp_bind, wp_ret. eapply wp_done; [by apply (releasesleep_eq (i_lockL ip) (inode_dom ip) _ me q s (p_pid q))|].
  apply HQ. fold free_lock. rewrite i_lock_update. by apply view_insert.
Qed.

Definition one_less (i : inode) : inode := set_i_ref (i_ref i - 1) i.

Lemma wp_iput s0 l s ip i (Q : unit -> kernel -> Prop) : view_of s0 l s -> l !! ip = Some i ->
  (i_ref i =? 1) && i_valid i && (i_nlink i =? 0) = false ->
  (forall s', view_of s0 (<[ip := one_less i]> l) s' -> Q tt s') -> wp (iput ip) s Q.
Proof using HU.
  intros Hv Hi Hlast HQ. eapply wp_done.
  { apply (iput_eq ip i s); [apply (quiet_cpu _ _ _ (view_quiet _ _ _ Hv))|apply Hv|by rewrite (vw_tab _ _ _ Hv)|done]. }
  apply HQ. by apply (view_insert s0 l s ip i one_less).
Qed.

Lemma iget_table_length dev n l ip l' : iget_table dev n l = Some (ip, l') -> length l' = length l.
Proof using. intros (i & i' & _ & -> & _)%iget_table_spec. apply length_insert. Qed.

Lemma wp_iget s0 l s n ip l' (Q : nat -> kernel -> Prop) : view_of s0 l s -> iget_table ROOTDEV n l = Some (ip, l') ->
  (forall s', view_of s0 l' s' -> Q ip s') -> wp (iget ROOTDEV n) s Q.
Proof using.
  intros Hv Ht HQ. eapply wp_done.
  { rewrite iget_eq, (vw_tab _ _ _ Hv), Ht; [done|apply (quiet_cpu _ _ _ (view_quiet _ _ _ Hv))|apply Hv|rewrite (vw_tab _ _ _ Hv); apply Hv]. }
  apply HQ. apply (view_inodes s0 l s (fun _ => l') Hv). by eapply iget_table_length.
Qed.

(** [dirlookup] in an inode that is loaded. *)
Lemma wp_lookup s0 l s dp i name (Q : option (nat * Z) -> kernel -> Prop) : view_of s0 l s -> l !! dp = Some i -> dir_ok V i ->
  Z.of_nat (length name) < PGSIZE ->
  match dir_map (dents V i) !! key name with
  | None => forall s', view_of s0 l s' -> Q None s'
  | Some m => exists ip l', iget_table ROOTDEV m l = Some (ip, l') /\ forall off s', view_of s0 l' s' -> Q (Some (ip, off)) s'
  end -> wp (dirlookup dp name) s Q.
Proof using.
  intros Hv Hi Hd Hn HQ. rewrite dir_map_find in HQ.
  eapply (wp_dirlookup me q dp i W V D L); [by eapply view_reading|exact Hd|exact Hn|apply Hv|rewrite (vw_tab _ _ _ Hv); apply Hv|].
  intros s' Hr F. pose proof (view_bframe _ _ _ _ _ _ Hv Hr F) as Hv'.
  destruct (list_find (matches (key name)) (dents V i)) as [[k e]|]; cbn [fmap option_fmap option_map fst snd] in HQ; [|by apply HQ].
  destruct HQ as (ip & l' & Ht & HQ). exists ip, l'. rewrite (vw_tab _ _ _ Hv). split; [done|]. apply HQ.
  apply (view_inodes s0 l s' (fun _ => l') Hv'). by eapply iget_table_length.
Qed.

(** ** What becomes of the table *)

(** Locked and loaded. *)
Definition held (i : inode) : inode := set_i_valid true (loaded (set_i_lock my_lock i)).

Lemma held_fine i : entry_fine i -> entry_fine (held i).
Proof using. intros [H2 H3 H4]. constructor; [done|done|]. intros _ _. by destruct i. Qed.

Lemma lock_fine t i : entry_fine i -> entry_fine (set_i_lock t i).
Proof using. intros [H2 H3 H4]. constructor; [done|done|]. intros Hr Hv. by rewrite loaded_lock by auto. Qed.

Lemma less_fine i : entry_fine i -> 0 <= i_ref i -> entry_fine (one_less i).
Proof using.
  intros [H2 H3 H4] Hr. constructor; [intros ?; apply H2; cbn in *; lia|intros ?; apply H3; cbn in *; lia|].
  intros Hp Hv. rewrite <-(H4 ltac:(cbn in *; lia) Hv) at 2. by destruct i.
Qed.

(** An entry keeps its inode, or becomes free. *)
Lemma tab_ok_insert l ip i i' : tab_ok l -> l !! ip = Some i -> entry_fine i' -> 0 <= i_ref i' -> 0 < i_ref i ->
  i_dev i' = i_dev i -> i_inum i' = i_inum i -> tab_ok (<[ip := i']> l).
Proof using.
  intros [T1 T2] Hi Hf Hr Hp Hd Hn. constructor.
  - eapply table_ok_insert; [done|done|done|]. intros _ k j Hk Hj. apply not_true_iff_false. intros (B1 & B2 & B3)%is_inode_spec.
    apply Hk. eapply (to_one _ T1); [exact Hj|exact Hi|lia|lia|congruence|congruence].
  - intros k j Hk. destruct (decide (k = ip)) as [->|Hne].
    + rewrite list_lookup_insert_eq in Hk by (by eapply lookup_lt_Some). by simplify_eq.
    + rewrite list_lookup_insert_ne in Hk by done. by eapply T2.
Qed.

Lemma tab_ok_iget l n ip l' : tab_ok l -> live n -> iget_table ROOTDEV n l = Some (ip, l') -> tab_ok l'.
Proof using.
  intros [T1 T2] Hlive Ht. constructor; [by eapply iget_table_ok|]. intros k j Hk.
  destruct (iget_table_spec _ _ _ _ _ Ht) as (i & i' & Hi & -> & H1 & H2 & H3 & Hcase).
  destruct (decide (k = ip)) as [->|Hne]; [|rewrite list_lookup_insert_ne in Hk by done; by eapply T2].
  rewrite list_lookup_insert_eq in Hk by (by eapply lookup_lt_Some). simplify_eq.
  destruct (T2 _ _ Hi) as [E2 E3 E4]. destruct Hcase as [[Hi' ->]|[Hz ->]].
  - apply Is_true_true, is_inode_spec in Hi' as (A1 & A2 & A3). constructor; [by intros _; apply E2|by intros _; apply E3|].
    intros _ Hv. rewrite <-(E4 A1 Hv) at 2. by destruct i.
  - by constructor.
Qed.

(** The references are those of [l0] and one to inode [n], which entry [ip] has; there are entries for the next step. *)
Record standing (l0 : list inode) (l : list inode) (ip : nat) (n : Z) : Prop := {
  sd_tab : tab_ok l;
  sd_refs d m : refs d m l = refs d m l0 + plus_one ROOTDEV n d m;
  sd_entry : exists i, l !! ip = Some i /\ 0 < i_ref i /\ i_inum i = n /\ ((2 <= nfree l)%nat \/ ((1 <= nfree l)%nat /\ i_ref i = 1));
}.

Lemma sd_live l0 l ip n : standing l0 l ip n -> live n.
Proof using. intros [T _ (i & Hi & Hr & <- & _)]. by apply (ef_live _ (tk_entry _ T _ _ Hi)). Qed.

Lemma weight_same d n i i' : i_ref i' = i_ref i -> i_dev i' = i_dev i -> i_inum i' = i_inum i -> weight d n i' = weight d n i.
Proof using. intros E1 E2 E3. unfold weight, is_inode. by rewrite E1, E2, E3. Qed.

(** Nor does the entry's lock matter, or whether it is loaded. *)
Lemma standing_same l0 l ip n i i' : standing l0 l ip n -> l !! ip = Some i -> entry_fine i' ->
  i_ref i' = i_ref i -> i_dev i' = i_dev i -> i_inum i' = i_inum i -> standing l0 (<[ip := i']> l) ip n.
Proof using.
  intros [T R (i0 & Hi0 & Hr & Hn & Hf)] Hi Hfine E1 E2 E3. rewrite Hi in Hi0. injection Hi0 as <-. constructor.
  - eapply tab_ok_insert; [exact T|exact Hi|done|lia|lia|done|done].
  - intros d m. rewrite (refs_insert _ _ _ _ _ _ Hi), R. rewrite (weight_same d m i i') by done. lia.
  - exists i'. split; [apply list_lookup_insert_eq; by eapply lookup_lt_Some|]. split; [lia|]. split; [congruence|].
    pose proof (nfree_insert l ip i i' Hi) as E. unfold unused in E. rewrite E1 in *. lia.
Qed.

(** The reference that an entry gives up. *)
Lemma weight_less d m i : entry_fine i -> 0 < i_ref i -> weight d m i = weight d m (one_less i) + plus_one ROOTDEV (i_inum i) d m.
Proof using.
  intros Hfine Hr. pose proof (ef_dev _ Hfine Hr) as Hd.
  unfold weight, is_inode, plus_one, one_less. cbn [i_ref set_i_ref i_dev i_inum]. rewrite Hd, (Z.eqb_sym d), (Z.eqb_sym m).
  destruct (ROOTDEV =? d), (i_inum i =? m); rewrite ?andb_false_r, ?andb_true_r; cbn [andb]; [|lia..].
  replace (0 <? i_ref i) with true by lia. destruct (Z.ltb_spec 0 (i_ref i - 1)); lia.
Qed.

Lemma nfree_less l ip i : l !! ip = Some i -> 0 < i_ref i ->
  nfree (<[ip := one_less i]> l) = (nfree l + (if (i_ref i =? 1)%Z then 1 else 0))%nat.
Proof using.
  intros Hi Hr. pose proof (nfree_insert l ip i (one_less i) Hi) as E. unfold unused in E. change (i_ref (one_less i)) with (i_ref i - 1) in E.
  replace (i_ref i =? 0) with false in E by lia. destruct (Z.eqb_spec (i_ref i) 1), (Z.eqb_spec (i_ref i - 1) 0); cbn [Nat.b2n] in E; lia.
Qed.

(** Giving up the reference brings back the references of the start. *)
Lemma standing_dropped l0 l ip n i : standing l0 l ip n -> l !! ip = Some i ->
  tab_ok (<[ip := one_less i]> l) /\ (forall d m, refs d m (<[ip := one_less i]> l) = refs d m l0) /\ (2 <= nfree (<[ip := one_less i]> l))%nat.
Proof using.
  intros [T R (i' & Hi' & Hr & Hn & Hf)] Hi. rewrite Hi in Hi'. injection Hi' as <-.
  pose proof (tk_entry _ T _ _ Hi) as Hfine. split; [|split].
  - eapply tab_ok_insert; [exact T|exact Hi|apply less_fine; [done|lia]|cbn; lia|lia|done|done].
  - intros d m. rewrite (refs_insert _ _ _ _ _ _ Hi), R, (weight_less d m i Hfine Hr), Hn. lia.
  - rewrite (nfree_less l ip i Hi Hr). destruct (Z.eqb_spec (i_ref i) 1); lia.
Qed.

(** The step from a directory to an entry of it: a reference more, and one less. *)
Lemma standing_next l0 l ip n i m ip' l' : standing l0 l ip n -> l !! ip = Some i -> live m -> iget_table ROOTDEV m l = Some (ip', l') ->
  exists i2, l' !! ip = Some i2 /\ 0 < i_ref i2 /\ i_lock i2 = i_lock i /\ i_valid i2 = i_valid i /\ i_nlink i2 = i_nlink i /\
    forall t, standing l0 (<[ip := one_less (set_i_lock t i2)]> l') ip' m.
Proof using.
  intros Hst Hi Hlive Ht. pose proof Hst as [T R (i0 & Hi0 & Hr & Hn & Hf)]. rewrite Hi in Hi0. injection Hi0 as <-.
  pose proof (tab_ok_iget _ _ _ _ T Hlive Ht) as T'. destruct (iget_table_ok _ _ _ _ _ (tk_table _ T) Ht) as [_ R'].
  pose proof (tk_entry _ T _ _ Hi) as Hfine.
  destruct (iget_table_spec _ _ _ _ _ Ht) as (j & j' & Hj & -> & J1 & J2 & J3 & Hcase).
  destruct (decide (ip' = ip)) as [->|Hne].
  - rewrite Hi in Hj. injection Hj as <-. destruct Hcase as [[Hi' ->]|[Hz _]]; [|lia].
    apply Is_true_true, is_inode_spec in Hi' as (A1 & A2 & A3). exists (one_more i).
    split; [apply list_lookup_insert_eq; by eapply lookup_lt_Some|]. split; [cbn; lia|]. do 3 (split; [done|]). intros t.
    rewrite list_insert_insert_eq. assert (m = n) as -> by congruence.
    eapply standing_same; [exact Hst|exact Hi| |cbn; lia|done|done].
    replace (one_less (set_i_lock t (one_more i))) with (set_i_lock t i); [by apply lock_fine|].
    rewrite <-(one_less_more i) at 1. by destruct i.
  - assert (Hi2 : <[ip' := j']> l !! ip = Some i) by by rewrite list_lookup_insert_ne.
    exists i. split; [done|]. split; [done|]. do 3 (split; [done|]). intros t. pose proof (lock_fine t i Hfine) as Hft. constructor.
    + eapply tab_ok_insert; [exact T'|exact Hi2|apply less_fine; [done|cbn; lia]|cbn; lia|lia|done|done].
    + intros d k. rewrite (refs_insert _ _ _ _ _ _ Hi2), R', R. pose proof (weight_less d k (set_i_lock t i) Hft Hr) as Hw.
      change (i_inum (set_i_lock t i)) with (i_inum i) in Hw. rewrite Hn in Hw. rewrite (weight_same d k i (set_i_lock t i)) in Hw by done. lia.
    + exists j'. split; [rewrite list_lookup_insert_ne by done; apply list_lookup_insert_eq; by eapply lookup_lt_Some|].
      split; [lia|]. split; [done|].
      pose proof (nfree_insert l ip' j j' Hj) as E1. pose proof (nfree_insert _ ip i (one_less (set_i_lock t i)) Hi2) as E2.
      unfold unused in E1, E2. change (i_ref (one_less (set_i_lock t i))) with (i_ref i - 1) in E2.
      replace (i_ref i =? 0) with false in E2 by lia. replace (i_ref j' =? 0) with false in E1 by lia.
      destruct Hcase as [[Hj' ->]|[Hz ->]].
      * apply Is_true_true, is_inode_spec in Hj' as (A1 & _). replace (i_ref j =? 0) with false in E1 by lia.
        destruct (Z.eqb_spec (i_ref i - 1) 0); cbn [Nat.b2n] in E1, E2; lia.
      * rewrite Hz in E1. cbn [i_ref recycle set_i_valid set_i_ref]. destruct (Z.eqb_spec (i_ref i - 1) 0); cbn [Nat.b2n Z.eqb] in E1, E2; lia.
Qed.

Lemma unlocked_insert ip l i : unlocked_but (Some ip) l -> (exists pid, i_lock i = Sleeplock false false pid) -> unlocked_but None (<[ip := i]> l).
Proof using.
  intros Hu Hi k j Hk _. destruct (decide (k = ip)) as [->|Hne].
  - apply list_lookup_insert_Some in Hk as [(_ & -> & _)|[? _]]; done.
  - rewrite list_lookup_insert_ne in Hk by done. apply (Hu k j Hk). congruence.
Qed.

Lemma locked_insert ip l i : unlocked_but None l -> unlocked_but (Some ip) (<[ip := i]> l).
Proof using. intros Hu k j Hk Hne. rewrite list_lookup_insert_ne in Hk by congruence. by apply (Hu k j). Qed.

Lemma unlocked_iget p l n ip l' : unlocked_but p l -> iget_table ROOTDEV n l = Some (ip, l') -> unlocked_but p l'.
Proof using.
  intros Hu Ht k j Hk Hne. destruct (iget_table_spec _ _ _ _ _ Ht) as (i & i' & Hi & -> & _ & _ & _ & Hcase).
  apply list_lookup_insert_Some in Hk as [(<- & <- & _)|[_ Hk]]; [|by apply (Hu k j)].
  destruct (Hu ip i Hi Hne) as [pid Hp]. exists pid. by destruct Hcase as [[_ ->]|[_ ->]].
Qed.

(** ** namex *)

Lemma wp_iunlockput s0 l s ip i (Q : unit -> kernel -> Prop) : view_of s0 l s -> l !! ip = Some i -> i_lock i = my_lock -> 0 < i_ref i ->
  i_nlink i <> 0 -> (forall s', view_of s0 (<[ip := one_less (set_i_lock free_lock i)]> l) s' -> Q tt s') -> wp (iunlockput ip) s Q.
Proof using HU.
  intros Hv Hi Hlk Hr Hn HQ. unfold iunlockput. apply wp_bind. eapply wp_iunlock; [exact Hv|exact Hi|done|done|]. intros s1 Hv1.
  eapply (wp_iput s0 _ s1 ip (set_i_lock free_lock i)); [exact Hv1|apply list_lookup_insert_eq; by eapply lookup_lt_Some| |].
  - cbn [i_nlink set_i_lock]. replace (i_nlink i =? 0) with false by lia. apply andb_false_r.
  - intros s2 Hv2. rewrite list_insert_insert_eq in Hv2. by apply HQ.
Qed.

Lemma held_dir i : entry_fine i -> 0 < i_ref i -> is_dir (i_inum i) = true ->
  dir_ok V (held i) /\ dir_map (dents V (held i)) = dir_of (i_inum i).
Proof using Htree.
  intros Hf Hr Hd. split; [|done]. destruct (tr_dir _ Htree _ (ef_live _ Hf Hr) Hd) as [D1 [C1 C2 C3 C4 C5] D3].
  constructor; [exact D1| |exact D3]. constructor; [exact (ef_dev _ Hf Hr)|exact C2|exact C3|exact C4|exact C5].
Qed.

(** Where a walk has come to. *)
Record walking (s0 : kernel) (l0 : list inode) (parent : bool) (n0 : Z) (es0 : list (list Z)) (x : nat * list Z * list Z) (s : kernel) : Prop := {
  wk_path : Forall (fun c => c <> 0) x.1.2;
  wk_name : length x.2 = Z.to_nat DIRSIZ;
  wk_last : elements x.1.2 <> [] -> last (elements x.1.2) = last es0;
  wk_at : exists l n, view_of s0 l s /\ standing l0 l x.1.1 n /\ unlocked_but None l /\ leads_to parent n (elements x.1.2) = leads_to parent n0 es0;
}.

(** What a walk comes to. *)
Definition arrived (s0 : kernel) (l0 : list inode) (parent : bool) (n0 : Z) (es0 : list (list Z)) (r : option nat * list Z) (s : kernel) : Prop :=
  exists l, view_of s0 l s /\ tab_ok l /\ unlocked_but None l /\
    match leads_to parent n0 es0 with
    | Some m => exists ip, r.1 = Some ip /\ standing l0 l ip m /\ (parent = true -> exists e, last es0 = Some e /\ cstring r.2 = take (Z.to_nat DIRSIZ) e)
    | None => r.1 = None /\ forall d m, refs d m l = refs d m l0
    end.

(** One round of the loop, as in the code. *)
Definition namex_round (nameiparent : bool) : nat * list Z * list Z -> K (nat * list Z * list Z + option nat * list Z) := fun '(ip, path, name) =>
  match skipelem path name with
  | Some (path, name) =>
      ilock ip ;;
      t <- iget_ ip i_type ;;
      if negb (t =? T_DIR) then iunlockput ip ;; ret (inr (None, name))
      else if nameiparent && (hd 0 path =? 0) then
        iunlock ip ;; ret (inr (Some ip, name))
      else
        next <- dirlookup ip name ;;
        match next with
        | None => iunlockput ip ;; ret (inr (None, name))
        | Some (next, _) => iunlockput ip ;; ret (inl (next, path, name))
        end
  | None =>
      if (nameiparent : bool) then iput ip ;; ret (inr (None, name))
      else ret (inr (Some ip, name))
  end.

(** A walk that fails in a directory, or in what is not one: the lock and the reference are given up. *)
Lemma fail_here s0 l0 parent n0 es0 l ip n i s name : view_of s0 (<[ip := held i]> l) s -> standing l0 l ip n -> l !! ip = Some i ->
  unlocked_but None l -> leads_to parent n0 es0 = None ->
  wp (iunlockput ip ;; ret (@inr (nat * list Z * list Z) _ (None, name))) s
    (fun c s' => match c with inl _ => False | inr r => arrived s0 l0 parent n0 es0 r s' end).
Proof using HU Htree.
  intros Hv Hst Hi Hun Hw. pose proof Hst as [T R (i' & Hi' & Hr & Hn & Hf)]. rewrite Hi in Hi'. injection Hi' as <-.
  pose proof (tk_entry _ T _ _ Hi) as Hfine. pose proof (lookup_lt_Some _ _ _ Hi) as Hlt.
  apply wp_bind. eapply (wp_iunlockput s0 _ s ip (held i)); [exact Hv|by apply list_lookup_insert_eq|done|done|by apply (tr_link _ Htree), (ef_live _ Hfine)|].
  intros s1 Hv1. rewrite list_insert_insert_eq in Hv1. apply wp_ret.
  set (i1 := set_i_lock free_lock (held i)) in *.
  assert (Hst1 : standing l0 (<[ip := i1]> l) ip n) by (eapply standing_same; [done|done|by apply lock_fine, held_fine|done..]).
  destruct (standing_dropped _ _ _ _ i1 Hst1) as (T1 & R1 & _); [by apply list_lookup_insert_eq|].
  rewrite list_insert_insert_eq in T1, R1. exists (<[ip := one_less i1]> l). split; [exact Hv1|]. split; [exact T1|].
  split; [|by rewrite Hw]. rewrite <-(list_insert_insert_eq l ip (one_less i1) i1). apply unlocked_insert; [by apply locked_insert|by exists 0].
Qed.

(** The rest of a path has no NUL either, and is empty when it has no element. *)
Lemma skipelem_rest path name rest name' : Forall (fun c => c <> 0) path -> skipelem path name = Some (rest, name') ->
  Forall (fun c => c <> 0) rest.
Proof using.
  assert (Hskip : forall l : list Z, Forall (fun c => c <> 0) l -> Forall (fun c => c <> 0) (skip_slashes l)).
  { induction 1 as [|c l Hc Hl IH]; cbn [skip_slashes]; [done|]. case_match; [done|by constructor]. }
  assert (Htake : forall l : list Z, Forall (fun c => c <> 0) l -> Forall (fun c => c <> 0) (take_elem l).2).
  { induction 1 as [|c l Hc Hl IH]; cbn [take_elem]; [done|]. case_match; [by constructor|]. by destruct (take_elem l). }
  intros Hp. unfold skipelem. apply Hskip in Hp. destruct (skip_slashes path) as [|c l]; [done|].
  apply Htake in Hp. destruct (take_elem (c :: l)) as [e r]. intros [= <- <-]. by apply Hskip.
Qed.

Lemma no_elements rest : hd 0 rest <> 47 -> Forall (fun c => c <> 0) rest -> (hd 0 rest =? 0) = bool_decide (elements rest = []).
Proof using.
  intros Hh Hf. destruct rest as [|c rest]; [done|]. cbn [hd] in *. inversion Hf; subst. replace (c =? 0) with false by lia.
  symmetry. apply bool_decide_eq_false. pose proof (elements_take c rest Hh) as Ht. destruct (take_elem (c :: rest)). by destruct Ht as (-> & _).
Qed.

(** The end of the path: the entry is what the path leads to. *)
Lemma end_of_path s0 l0 parent n0 es0 ip path name s : walking s0 l0 parent n0 es0 (ip, path, name) s -> elements path = [] ->
  wp (if parent then iput ip ;; ret (@inr (nat * list Z * list Z) _ (None, name)) else ret (inr (Some ip, name))) s
    (fun c s' => match c with inl _ => False | inr r => arrived s0 l0 parent n0 es0 r s' end).
Proof using HU Htree.
  intros [_ _ _ (l & n & Hv & Hst & Hun & Hw)] He. cbn [fst snd] in *. rewrite He in Hw. cbn [leads_to] in Hw.
  destruct parent.
  - pose proof Hst as [T R (i & Hi & Hr & Hn & Hf)]. pose proof (tk_entry _ T _ _ Hi) as Hfine.
    apply wp_bind. eapply (wp_iput s0 l s ip i); [exact Hv|exact Hi| |].
    + destruct (i_valid i) eqn:Ev; [|by rewrite andb_false_r]. apply andb_false_intro2. apply Z.eqb_neq.
      rewrite <-(ef_valid _ Hfine Hr Ev). by apply (tr_link _ Htree), (ef_live _ Hfine).
    + intros s1 Hv1. apply wp_ret. destruct (standing_dropped _ _ _ _ i Hst Hi) as (T1 & R1 & _).
      eexists. split; [exact Hv1|]. split; [done|]. split; [|by rewrite <-Hw].
      destruct (Hun ip i Hi) as [pid Hp]; [done|]. apply unlocked_insert; [|by exists pid]. intros k j Hk _. by apply (Hun k j).
  - apply wp_ret. exists l. split; [done|]. split; [apply Hst|]. split; [done|]. rewrite <-Hw. by exists ip.
Qed.

(** The lookup in the directory, whose entry is locked and loaded, and the step to the inode found. *)
Lemma step_down s0 l0 parent n0 es0 l ip n i e rest name s : view_of s0 (<[ip := held i]> l) s -> standing l0 l ip n -> l !! ip = Some i ->
  unlocked_but None l -> is_dir n = true -> length name = Z.to_nat DIRSIZ -> key name = take (Z.to_nat DIRSIZ) e ->
  Forall (fun c => c <> 0) rest -> (elements rest <> [] -> last (elements rest) = last es0) ->
  (m ← dir_of n !! take (Z.to_nat DIRSIZ) e; leads_to parent m (elements rest)) = leads_to parent n0 es0 ->
  wp (next <- dirlookup ip name ;;
      match next with
      | None => iunlockput ip ;; ret (inr (None, name))
      | Some (next, _) => iunlockput ip ;; ret (inl (next, rest, name))
      end) s (fun c s' => match c with
    | inl x' => walking s0 l0 parent n0 es0 x' s' /\ x'.1.2 = rest
    | inr r => arrived s0 l0 parent n0 es0 r s' end).
Proof using HU Htree.
  intros Hv1 Hst Hi Hun Edir Hlen Hkey Hp' Hlast Hw.
  pose proof Hst as [T R (i' & Hi' & Hr & Hin & Hf)]. rewrite Hi in Hi'. injection Hi' as <-.
  pose proof (tk_entry _ T _ _ Hi) as Hfine. pose proof (lookup_lt_Some _ _ _ Hi) as Hlt. pose proof (sd_live _ _ _ _ Hst) as Hlive.
  assert (Hi1 : <[ip := held i]> l !! ip = Some (held i)) by by apply list_lookup_insert_eq.
  destruct (held_dir i Hfine Hr) as [Hdok Hdm]; [by rewrite Hin|]. rewrite Hin in Hdm.
  apply wp_bind. eapply (wp_lookup s0 _ s ip (held i) name); [exact Hv1|exact Hi1|exact Hdok|by rewrite Hlen; vm_compute|].
  rewrite Hdm, Hkey. destruct (dir_of n !! take (Z.to_nat DIRSIZ) e) as [m|] eqn:Em; cbn [mbind option_bind] in Hw.
  2:{ intros s2 Hv2. eapply wp_mono; [by eapply fail_here|]. by intros [c|c] s'. }
  pose proof (tr_child _ Htree _ _ _ Hlive Edir Em) as Hlm.
  assert (Hst1 : standing l0 (<[ip := held i]> l) ip n) by (eapply standing_same; [done|done|by apply held_fine|done..]).
  destruct (iget_table_room ROOTDEV m (<[ip := held i]> l)) as [[ip' l'] Ht]; [destruct Hst1 as [_ _ (? & ? & ? & ? & ?)]; lia|].
  exists ip', l'. split; [exact Ht|]. intros off s2 Hv2.
  destruct (standing_next l0 _ ip n (held i) m ip' l' Hst1 Hi1 Hlm Ht) as (i2 & Hi2 & Hr2 & Hlk2 & Hva2 & Hnl2 & Hst2).
  apply wp_bind. eapply (wp_iunlockput s0 l' s2 ip i2); [exact Hv2|exact Hi2|done|done|rewrite Hnl2; change (i_nlink (held i)) with (i_nlink (disk_inode (i_inum i))); rewrite Hin; by apply (tr_link _ Htree)|].
  intros s3 Hv3. apply wp_ret. cbn [fst snd]. split; [|done]. constructor; cbn [fst snd]; [done|done|done|].
  eexists _, m. split; [exact Hv3|]. split; [apply Hst2|]. split; [|done].
  apply unlocked_insert; [|by exists 0]. eapply unlocked_iget; [|exact Ht]. by apply locked_insert.
Qed.

(** A round takes the walk a step further, or ends it. *)
Lemma namex_step s0 l0 parent n0 es0 x s : walking s0 l0 parent n0 es0 x s ->
  wp (namex_round parent x) s (fun c s' => match c with
    | inl x' => walking s0 l0 parent n0 es0 x' s' /\ (length x'.1.2 < length x.1.2)%nat
    | inr r => arrived s0 l0 parent n0 es0 r s' end).
Proof using HU Htree.
  destruct x as [[ip path] name]. intros Hwk. pose proof Hwk as [Hp Hn Hlast (l & n & Hv & Hst & Hun & Hw)]. cbn [fst snd] in *.
  pose proof (skipelem_elements path name Hp Hn) as Hsk. unfold namex_round.
  destruct (skipelem path name) as [[rest name']|] eqn:Esk; destruct (elements path) as [|e es] eqn:Ees; try done.
  2:{ eapply wp_mono; [by apply (end_of_path s0 l0 parent n0 es0 ip path name s)|]. by intros [c|c] s'. }
  destruct Hsk as (Hname & Hlen & Hrest & Hhd & Hshort).
  pose proof Hst as [T R (i & Hi & Hr & Hin & Hf)]. pose proof (tk_entry _ T _ _ Hi) as Hfine. pose proof (lookup_lt_Some _ _ _ Hi) as Hlt.
  apply wp_bind. eapply (wp_ilock s0 l s ip i); [done|done|done|done|done|]. fold (held i). intros s1 Hv1.
  assert (Hi1 : <[ip := held i]> l !! ip = Some (held i)) by by apply list_lookup_insert_eq.
  apply wp_bind. eapply wp_iget_; [by rewrite (vw_tab _ _ _ Hv1)|].
  change (i_type (held i) =? T_DIR) with (is_dir (i_inum i)). rewrite Hin. cbn [leads_to] in Hw.
  destruct (is_dir n) eqn:Edir; cbn [negb].
  2:{ eapply wp_mono; [by eapply fail_here|]. by intros [c|c] s'. }
  pose proof (skipelem_rest _ _ _ _ Hp Esk) as Hp'. rewrite (no_elements rest Hhd Hp'), Hrest.
  pose proof (ef_live _ Hfine Hr) as Hlive. rewrite Hin in Hlive.
  destruct (parent && bool_decide (es = [])) eqn:Epar.
  - apply andb_true_iff in Epar as [-> Ees']. apply bool_decide_eq_true in Ees'. subst es.
    apply wp_bind. eapply (wp_iunlock s0 _ s1 ip (held i)); [exact Hv1|exact Hi1|done|done|]. intros s2 Hv2. apply wp_ret.
    rewrite list_insert_insert_eq in Hv2. set (i1 := set_i_lock free_lock (held i)) in *.
    assert (Hst1 : standing l0 (<[ip := i1]> l) ip n) by (eapply standing_same; [done|done|by apply lock_fine, held_fine|done..]).
    eexists. split; [exact Hv2|]. split; [apply Hst1|]. split.
    + rewrite <-(list_insert_insert_eq l ip i1 i). apply unlocked_insert; [by apply locked_insert|by exists 0].
    + rewrite <-Hw. exists ip. split; [done|]. split; [done|]. intros _. exists e. split; [by rewrite <-Hlast|done].
  - assert (Hkey : key name' = take (Z.to_nat DIRSIZ) e) by (unfold key; by rewrite Hname, take_take, Nat.min_id).
    rewrite <-Hrest in Hw. eapply wp_mono; [eapply (step_down s0 l0 parent n0 es0 l ip n i e rest name'); try done|].
    + intros Hne. rewrite Hrest in *. rewrite <-Hlast by done. by destruct es.
    + intros [x'|r] s'; [|done]. intros [Hx ->]. split; [done|]. exact Hshort.
Qed.

(** ** The start of a walk *)

(** The inode a path starts from: the root, or the working directory. *)
Definition starts (l0 : list inode) (path : list Z) (n0 : Z) : Prop :=
  if hd 0 path =? 47 then n0 = ROOTINO /\ live ROOTINO
  else exists ip i, p_cwd q = Some ip /\ l0 !! ip = Some i /\ 0 < i_ref i /\ i_inum i = n0.

Lemma standing_iget l0 n ip l' : tab_ok l0 -> live n -> (2 <= nfree l0)%nat -> iget_table ROOTDEV n l0 = Some (ip, l') -> standing l0 l' ip n.
Proof using.
  intros T Hlive Hf Ht. destruct (iget_table_ok _ _ _ _ _ (tk_table _ T) Ht) as [_ R].
  constructor; [by eapply tab_ok_iget|exact R|].
  destruct (iget_table_spec _ _ _ _ _ Ht) as (i & i' & Hi & -> & H1 & H2 & H3 & Hcase). exists i'.
  split; [apply list_lookup_insert_eq; by eapply lookup_lt_Some|]. split; [lia|]. split; [done|].
  pose proof (nfree_insert l0 ip i i' Hi) as E. unfold unused in E. replace (i_ref i' =? 0) with false in E by lia.
  destruct Hcase as [[Hi' ->]|[Hz ->]].
  - apply Is_true_true, is_inode_spec in Hi' as (A1 & _). replace (i_ref i =? 0) with false in E by lia. cbn [Nat.b2n] in E. lia.
  - rewrite Hz in E. cbn [Nat.b2n Z.eqb] in E. right. split; [lia|done].
Qed.

Lemma standing_idup l0 ip i : tab_ok l0 -> (2 <= nfree l0)%nat -> l0 !! ip = Some i -> 0 < i_ref i ->
  standing l0 (<[ip := one_more i]> l0) ip (i_inum i).
Proof using.
  intros T Hf Hi Hr. pose proof (tk_entry _ T _ _ Hi) as Hfine. destruct Hfine as [F1 F2 F3].
  assert (Hm : entry_fine (one_more i)).
  { constructor; [by intros _; apply F1|by intros _; apply F2|]. intros _ Hv. rewrite <-(F3 Hr Hv) at 2. by destruct i. }
  constructor.
  - eapply tab_ok_insert; [exact T|exact Hi|exact Hm|cbn; lia|lia|done|done].
  - intros d m. rewrite (refs_insert _ _ _ _ _ _ Hi). rewrite (weight_less d m (one_more i) Hm) by (cbn; lia).
    replace (one_less (one_more i)) with i by (symmetry; exact (one_less_more i)). change (i_inum (one_more i)) with (i_inum i). lia.
  - exists (one_more i). split; [apply list_lookup_insert_eq; by eapply lookup_lt_Some|]. split; [cbn; lia|]. split; [done|].
    pose proof (nfree_insert l0 ip i (one_more i) Hi) as E. unfold unused in E. change (i_ref (one_more i)) with (i_ref i + 1) in E.
    replace (i_ref i + 1 =? 0) with false in E by lia. replace (i_ref i =? 0) with false in E by lia. cbn [Nat.b2n] in E. lia.
Qed.

(** [namex], from its start to its end. *)
Lemma wp_namex s l0 parent n0 path name (Q : option nat * list Z -> kernel -> Prop) : view_of s l0 s -> tab_ok l0 -> unlocked_but None l0 ->
  (2 <= nfree l0)%nat -> starts l0 path n0 -> Forall (fun c => c <> 0) path -> length name = Z.to_nat DIRSIZ ->
  (forall r s', arrived s l0 parent n0 (elements path) r s' -> Q r s') -> wp (namex path parent name) s Q.
Proof using HU Htree.
  intros Hv T Hun Hf Hst Hp Hn HQ. unfold namex. fold (namex_round parent).
  assert (Hloop : forall l ip s1, view_of s l s1 -> standing l0 l ip n0 -> unlocked_but None l ->
    wp (loop (S (length path)) (namex_round parent) (ip, path, name)) s1 Q).
  { intros l ip s1 Hv1 Hs1 Hu1. apply (wp_loop (walking s l0 parent n0 (elements path)) (fun x => length x.1.2)); [|constructor; [done|done|done|by exists l, n0]|cbn; lia].
    intros x s2 Hx. eapply wp_mono; [by apply namex_step|]. intros [x'|r] s3 Hx'; [done|by apply HQ]. }
  apply wp_bind. unfold starts in Hst. destruct (hd 0 path =? 47).
  - destruct Hst as [-> Hlive]. destruct (iget_table_room ROOTDEV ROOTINO l0) as [[ip l'] Ht]; [lia|].
    eapply (wp_iget s l0 s); [exact Hv|exact Ht|]. intros s1 Hv1. eapply Hloop; [exact Hv1|by apply standing_iget|by eapply unlocked_iget].
  - destruct Hst as (ip & i & Hcwd & Hi & Hr & <-). pose proof (view_quiet _ _ _ Hv) as Hq.
    apply wp_bind. eapply wp_done; [apply (myproc'_eq s me (quiet_cpu _ _ _ Hq) (quiet_me _ _ _ Hq))|].
    apply wp_bind. eapply wp_done; [apply (pget_eq me _ s q (quiet_proc _ _ _ Hq))|]. rewrite Hcwd.
    eapply wp_done; [apply (idup_eq ip i s (quiet_cpu _ _ _ Hq) (vw_lock _ _ _ Hv)); by rewrite (vw_tab _ _ _ Hv)|].
    eapply Hloop; [by apply (view_insert s l0 s ip i one_more)|by apply standing_idup|].
    destruct (Hun ip i Hi) as [pid Hpid]; [done|]. apply unlocked_insert; [|by exists pid]. intros k j Hk _. by apply (Hun k j).
Qed.
End path.

(** ** Properties *)

(** C11: [namex] goes where the path leads.  On a disk whose tree of directories is in order, with the locks free
    and two free entries in the table of inodes, [namex] returns for every path.  When the maps of the directories lead
    from the root (of a path with a leading slash) or from the working directory through the path's elements to an
    inode, it returns an entry of that inode, and the references to inodes are those of before and one to that inode;
    for the parent it stops before the last element and leaves that element's name.  When they lead nowhere, because a
    name is missing or something on the way is no directory, it returns null and every inode has the references it had.
    In both cases all locks are free again, the disk has not changed, and the table is in order. *)
Theorem namex_correct {HF : Fuel} {HU : UartHw} me q sb W V D L live s path name parent n0 :
  tree sb V live -> view_of me q sb W V D L s (inodes s) s -> tab_ok sb V live (inodes s) -> unlocked_but None (inodes s) ->
  (2 <= nfree (inodes s))%nat -> starts q live (inodes s) path n0 -> Forall (fun c => c <> 0) path -> length name = Z.to_nat DIRSIZ ->
  exists r s', namex path parent name s = Done r s' /\ iframe s s' /\ binv me q W V D L ∅ s' /\
    tab_ok sb V live (inodes s') /\ unlocked_but None (inodes s') /\
    match leads_to sb V parent n0 (elements path) with
    | Some m => exists ip i, r.1 = Some ip /\ inodes s' !! ip = Some i /\ i_dev i = ROOTDEV /\ i_inum i = m /\
        (forall d k, refs d k (inodes s') = refs d k (inodes s) + plus_one ROOTDEV m d k) /\
        (parent = true -> exists e, last (elements path) = Some e /\ cstring r.2 = take (Z.to_nat DIRSIZ) e)
    | None => r.1 = None /\ forall d k, refs d k (inodes s') = refs d k (inodes s)
    end.
Proof.
  intros Htree Hv T Hun Hf Hst Hp Hn.
  destruct (wp_namex me q sb W V D L live Htree s (inodes s) parent n0 path name
    (arrived me q sb W V D L live s (inodes s) parent n0 (elements path)) Hv T Hun Hf Hst Hp Hn ltac:(done)) as (r & s' & E & l & Hv' & T' & Hun' & Hr).
  pose proof (vw_tab _ _ _ _ _ _ _ _ _ _ Hv') as El. subst l.
  exists r, s'. split; [done|]. split; [apply Hv'|]. split; [apply Hv'|]. split; [done|]. split; [done|].
  destruct (leads_to sb V parent n0 (elements path)) as [m|]; [|done].
  destruct Hr as (ip & H1 & [_ R (i & Hi & Hpos & Hin & _)] & Hlast). exists ip, i. do 2 (split; [done|]).
  split; [by apply (ef_dev _ _ _ _ (tk_entry _ _ _ _ T' _ _ Hi))|]. by do 2 (split; [done|]).
Qed.

#[local] Instance path_fuel : Fuel := 1000%nat.
#[local] Instance path_uart : UartHw := fun _ => 0%nat.

(** A disk with a root directory that has inode 5, a file, under the name ab. *)
Definition path_sb : superblock := set_sb_inodestart 32 (k_sb kernel0).
Definition path_inodes : block :=
  replicate 64 0 ++ [1; 0; 0; 0; 0; 0; 1; 0; 16; 0; 0; 0; 100] ++ replicate 243 0 ++ [2; 0; 0; 0; 0; 0; 1; 0] ++ replicate 696 0.
Definition path_disk : gmap Z block := {[ 32 := path_inodes; 100 := one_entry ]}.
Definition path_live (n : Z) : Prop := n = 1 \/ n = 5.
Definition path_kernel : kernel := set_k_it (Itable false (replicate 50 inode0)) (boot_on path_disk path_sb).

Lemma path_tree : tree path_sb (contents path_disk) path_live.
Proof.
  assert (H0 : forall bn, 0 <= bn -> bn * BSIZE < 16 -> bn = 0) by (unfold BSIZE; lia).
  assert (Hd : dir_of path_sb (contents path_disk) 1 = {[ [97; 98] := 5 ]}) by (vm_compute; reflexivity).
  constructor.
  - intros n [->| ->]; by vm_compute.
  - intros n [->| ->]; by vm_compute.
  - intros n [->| ->] E; [|by vm_compute in E]. constructor; [by vm_compute| |by vm_compute].
    constructor; [by vm_compute|by vm_compute|by vm_compute|..];
      intros bn H1 H2; rewrite (H0 bn H1 H2); by vm_compute.
  - intros n nm m [->| ->] E Hm; [|by vm_compute in E]. rewrite Hd in Hm. apply lookup_singleton_Some in Hm as [_ <-]. by right.
Qed.

Lemma namex_correct_witness : exists r s' ip i, namex [47; 97; 98] false name0 path_kernel = Done r s' /\
  r.1 = Some ip /\ inodes s' !! ip = Some i /\ i_inum i = 5 /\ refs ROOTDEV 5 (inodes s') = 1.
Proof.
  destruct (boot_on_ok path_disk path_sb) as ((Hinv & _) & Hw & _ & Hsb). rewrite Hw in Hinv.
  assert (Hin : inodes path_kernel = replicate 50 inode0) by (unfold path_kernel; by rewrite inodes_set_it).
  assert (Hall : forall k i, inodes path_kernel !! k = Some i -> i = inode0).
  { intros k i Hk. rewrite Hin in Hk. by apply lookup_replicate in Hk as [-> _]. }
  destruct (namex_correct 1 demo_proc path_sb [] (contents path_disk) (contents path_disk) ∅ path_live path_kernel [47; 97; 98] name0 false 1
    path_tree) as (r & s' & E & _ & _ & _ & _ & Hr).
  - constructor; [by apply binv_set_it|by rewrite size_empty; vm_compute; lia|unfold path_kernel; by rewrite sb_set_it| |done| |apply iframe_refl].
    + unfold path_kernel. by rewrite it_lock_set_it.
    + by rewrite Hin.
  - constructor; [constructor|].
    + intros k i ->%Hall. by vm_compute.
    + intros k j i i' ->%Hall _ H1. by vm_compute in H1.
    + intros k i ->%Hall. by constructor.
  - intros k i ->%Hall _. by eexists.
  - rewrite Hin. apply Nat.leb_le. by vm_compute.
  - split; [done|]. by left.
  - by repeat constructor.
  - by vm_compute.
  - replace (leads_to path_sb (contents path_disk) false 1 (elements [47; 97; 98])) with (Some 5) in Hr by (vm_compute; reflexivity).
    destruct Hr as (ip & i & H1 & H2 & H3 & H4 & H5 & _). exists r, s', ip, i. do 4 (split; [done|]). rewrite H5, Hin. by vm_compute.
Defined.
