(* ===== verification/File.v ===== *)
(** * Open files and pipes: kernel/file.c and kernel/pipe.c *)

From S2P Require Import Prelude Params Memory Kalloc Vm Block State Sched Kcopy Uart Console.
From S2P Require Import Bio Log Fs.

Definition file_ids : list nat := seq 0 (Z.to_nat NFILE).

Definition fget {A} (f : nat) (g : file -> A) : K A := getf (fileL f) g.
Definition fset (f : nat) (g : file -> file) : K unit := setf (fileL f) g.
Definition piget {A} (pi : Z) (g : pipe -> A) : K A := getf (pipeL pi) g.
Definition piset (pi : Z) (g : pipe -> pipe) : K unit := setf (pipeL pi) g.

Definition PIPESIZE : Z := 512.

Definition fileinit : K unit := initlock ft_lockL.

Definition filealloc : K (option nat) :=
  acquire ft_lockL ;;
  r <- scan file_ids (fun f =>
    rf <- fget f f_ref ;;
    if rf =? 0 then
      fset f (set_f_ref 1) ;;
      release ft_lockL ;;
      ret (Some f)
    else ret None) ;;
  match r with
  | Some f => ret (Some f)
  | None => release ft_lockL ;; ret None
  end.

Definition filedup (f : nat) : K nat :=
  acquire ft_lockL ;;
  rf <- fget f f_ref ;;
  panic_if (rf <? 1) "filedup" ;;
  fset f (fun x => set_f_ref (f_ref x + 1) x) ;;
  release ft_lockL ;;
  ret f.

(** [sizeof(struct stat)] bytes, with four bytes of padding before [size]. *)
Definition stat_bytes (st : stat) : list Z :=
  le_bytes 4 (st_dev st) ++ le_bytes 4 (st_ino st) ++ le_bytes 2 (st_type st) ++
  le_bytes 2 (st_nlink st) ++ [0; 0; 0; 0] ++ le_bytes 8 (st_size st).

(** A pointer the code dereferences without a check. *)
Definition deref {A} (p : option A) : K A :=
  match p with
  | Some a => ret a
  | None => panic "kerneltrap"
  end.

Section file.
Context `{Fuel, UartHw, Image}.

Abbreviation kfree := (kfree img_end).

(** ** kernel/pipe.c *)

Definition pipeclose (pi : Z) (writable : bool) : K unit :=
  acquire (pi_lockL pi) ;;
  (if writable then
     piset pi (set_pi_writeopen false) ;; wakeup (ChanPipeRead pi)
   else
     piset pi (set_pi_readopen false) ;; wakeup (ChanPipeWrite pi)) ;;
  ro <- piget pi pi_readopen ;;
  wo <- piget pi pi_writeopen ;;
  if negb ro && negb wo then
    release (pi_lockL pi) ;;
    setf pipesL (delete pi) ;;
    onmem (kfree pi)
  else release (pi_lockL pi).

(** Every round either stores a byte or waits. *)
Definition pipewrite (pi addr n : Z) : K Z :=
  pr <- myproc' ;;
  acquire (pi_lockL pi) ;;
  r <- loop (S (Z.to_nat n + fuel)) (fun i =>
    if i <? n then
      ro <- piget pi pi_readopen ;;
      k <- (if negb ro then ret 1 else killed pr) ;;
      if negb (k =? 0) then
        release (pi_lockL pi) ;; ret (inr None)
      else
        full <- piget pi (fun x => pi_nwrite x =? u32 (pi_nread x + PIPESIZE)) ;;
        if (full : bool) then
          wakeup (ChanPipeRead pi) ;;
          sleep (ChanPipeWrite pi) (pi_lockL pi) ;;
          ret (inl i)
        else
          pagetable <- pget pr p_pagetable ;;
          c <- onmem (copyin pagetable (u64 (addr + i)) 1) ;;
          if fst c =? -1 then ret (inr (Some i))
          else
            piset pi (fun x =>
              set_pi_nwrite (u32 (pi_nwrite x + 1))
                (set_pi_data (<[Z.to_nat (pi_nwrite x mod PIPESIZE) := hd 0 (snd c)]>
                   (pi_data x)) x)) ;;
            ret (inl (i + 1))
    else ret (inr (Some i))) 0 ;;
  match r with
  | None => ret (-1)
  | Some i =>
      wakeup (ChanPipeRead pi) ;;
      release (pi_lockL pi) ;;
      ret i
  end.

Definition piperead (pi addr n : Z) : K Z :=
  pr <- myproc' ;;
  acquire (pi_lockL pi) ;;
  ok <- loop (S fuel) (fun _ =>
    empty <- piget pi (fun x => (pi_nread x =? pi_nwrite x) && pi_writeopen x) ;;
    if (empty : bool) then
      k <- killed pr ;;
      if negb (k =? 0) then
        release (pi_lockL pi) ;; ret (inr false)
      else
        sleep (ChanPipeRead pi) (pi_lockL pi) ;;
        ret (inl tt)
    else ret (inr true)) tt ;;
  if negb ok then ret (-1)
  else
    i <- loop (S (Z.to_nat n)) (fun i =>
      if i <? n then
        empty <- piget pi (fun x => pi_nread x =? pi_nwrite x) ;;
        if (empty : bool) then ret (inr i)
        else
          ch <- piget pi (fun x => pi_data x !!! Z.to_nat (pi_nread x mod PIPESIZE)) ;;
          piset pi (fun x => set_pi_nread (u32 (pi_nread x + 1)) x) ;;
          pagetable <- pget pr p_pagetable ;;
          e <- onmem (copyout pagetable (u64 (addr + i)) [ch]) ;;
          if e =? -1 then ret (inr i) else ret (inl (i + 1))
      else ret (inr i)) 0 ;;
    wakeup (ChanPipeWrite pi) ;;
    release (pi_lockL pi) ;;
    ret i.

(** ** kernel/file.c *)

Definition fileclose (f : nat) : K unit :=
  acquire ft_lockL ;;
  rf <- fget f f_ref ;;
  panic_if (rf <? 1) "fileclose" ;;
  fset f (fun x => set_f_ref (f_ref x - 1) x) ;;
  rf <- fget f f_ref ;;
  if 0 <? rf then release ft_lockL
  else
    ff <- fget f id ;;
    fset f (set_f_ref 0) ;;
    fset f (set_f_type FD_NONE) ;;
    release ft_lockL ;;
    match f_type ff with
    | FD_PIPE => pipeclose (f_pipe ff) (f_writable ff)
    | FD_INODE | FD_DEVICE =>
        begin_op ;;
        ip <- deref (f_ip ff) ;;
        iput ip ;;
        end_op
    | FD_NONE => ret tt
    end.

Definition filestat (f : nat) (addr : Z) : K Z :=
  p <- myproc' ;;
  t <- fget f f_type ;;
  match t with
  | FD_INODE | FD_DEVICE =>
      ip <- fget f f_ip ;;
      ip <- deref ip ;;
      ilock ip ;;
      st <- stati ip ;;
      iunlock ip ;;
      pagetable <- pget p p_pagetable ;;
      e <- onmem (copyout pagetable addr (stat_bytes st)) ;;
      ret (if e <? 0 then -1 else 0)
  | _ => ret (-1)
  end.

(** [devsw]: only the console's entry is filled in, by [consoleinit]. *)
Definition devsw_ok (major : Z) : bool :=
  negb ((major <? 0) || (NDEV <=? major) || negb (major =? CONSOLE)).

Definition fileread (f : nat) (addr n : Z) : K Z :=
  r <- fget f f_readable ;;
  if negb r then ret (-1)
  else
    t <- fget f f_type ;;
    match t with
    | FD_PIPE =>
        pi <- fget f f_pipe ;; piperead pi addr n
    | FD_DEVICE =>
        major <- fget f f_major ;;
        if negb (devsw_ok major) then ret (-1) else consoleread (ToUser addr) n
    | FD_INODE =>
        ip <- fget f f_ip ;;
        ip <- deref ip ;;
        ilock ip ;;
        off <- fget f f_off ;;
        r <- readi ip (ToUser addr) off (u32 n) ;;
        when (0 <? fst r) (fset f (fun x => set_f_off (u32 (f_off x + fst r)) x)) ;;
        iunlock ip ;;
        ret (fst r)
    | FD_NONE => panic "fileread"
    end.

(** [((MAXOPBLOCKS-1-1-2) / 2) * BSIZE] *)
Definition write_max : Z := (MAXOPBLOCKS - 1 - 1 - 2) / 2 * BSIZE.

Definition filewrite (f : nat) (addr n : Z) : K Z :=
  w <- fget f f_writable ;;
  if negb w then ret (-1)
  else
    t <- fget f f_type ;;
    match t with
    | FD_PIPE =>
        pi <- fget f f_pipe ;; pipewrite pi addr n
    | FD_DEVICE =>
        major <- fget f f_major ;;
        if negb (devsw_ok major) then ret (-1) else consolewrite (FromUser addr) n
    | FD_INODE =>
        i <- loop (Z.to_nat (n / write_max + 2)) (fun i =>
          if i <? n then
            let n1 := Z.min (n - i) write_max in
            begin_op ;;
            ip <- fget f f_ip ;;
            ip <- deref ip ;;
            ilock ip ;;
            off <- fget f f_off ;;
            r <- writei ip (FromUser (u64 (addr + i))) off n1 ;;
            when (0 <? r) (fset f (fun x => set_f_off (u32 (f_off x + r)) x)) ;;
            iunlock ip ;;
            end_op ;;
            if negb (r =? n1) then ret (inr i) else ret (inl (i + r))
          else ret (inr i)) 0 ;;
        ret (if i =? n then n else -1)
    | FD_NONE => panic "filewrite"
    end.

(** Close a file unless the pointer is null. *)
Definition close_opt (f : option nat) : K unit :=
  match f with Some f => fileclose f | None => ret tt end.

Definition pipe_end (f : nat) (pi : Z) (readable writable : bool) : K unit :=
  fset f (fun x => set_f_pipe pi (set_f_writable writable
    (set_f_readable readable (set_f_type FD_PIPE x)))).

(** The two ends, or null. *)
Definition pipealloc : K (option (nat * nat)) :=
  f0 <- filealloc ;;
  f1 <- (match f0 with Some _ => filealloc | None => ret None end) ;;
  match f0, f1 with
  | Some r, Some w =>
      pi <- onmem kalloc ;;
      if pi =? 0 then close_opt f0 ;; close_opt f1 ;; ret None
      else
        (* the page is full of the allocator's junk *)
        setf pipesL (insert pi (Pipe false (replicate (Z.to_nat PIPESIZE) 5) 0 0 true true)) ;;
        initlock (pi_lockL pi) ;;
        pipe_end r pi true false ;;
        pipe_end w pi false true ;;
        ret (Some (r, w))
  | _, _ => close_opt f0 ;; close_opt f1 ;; ret None
  end.

End file.
