(* ===== verification/PipeSpec.v ===== *)
(** * Pipes are queues: the theorems about kernel/pipe.c *)

From S2P Require Import Prelude Params Memory Kalloc Vm VmSpec UserCopy AddressSpace Block.
From S2P Require Import State Sched SchedSpec Quiet Sleeping Kcopy Uart Console Bio BioSpec Cache Log.
From S2P Require Import LogSpec Fs File.

(** ** The ring buffer as a queue

    The two 32-bit counters wrap around; 2^32 is a multiple of [PIPESIZE]. *)

Definition qlen (x : pipe) : Z := (pi_nwrite x - pi_nread x) mod 2 ^ 32.
Definition qbyte (x : pipe) (k : Z) : Z := pi_data x !!! Z.to_nat ((pi_nread x + k) mod PIPESIZE).
Definition queue (x : pipe) : list Z := qbyte x <$> upto (qlen x).

Record pipe_ok (x : pipe) : Prop := {
  po_data : length (pi_data x) = Z.to_nat PIPESIZE;
  po_bytes : Forall (fun b => 0 <= b < 256) (pi_data x);
  po_nread : 0 <= pi_nread x < 2 ^ 32;
  po_nwrite : 0 <= pi_nwrite x < 2 ^ 32;
  po_len : qlen x <= PIPESIZE;
}.

(** The updates of [pipewrite] and [piperead]. *)
Definition push (ch : Z) (x : pipe) : pipe :=
  set_pi_nwrite (u32 (pi_nwrite x + 1))
    (set_pi_data (<[Z.to_nat (pi_nwrite x mod PIPESIZE) := ch]> (pi_data x)) x).
Definition pop (x : pipe) : pipe := set_pi_nread (u32 (pi_nread x + 1)) x.

Ltac ring_lia := unfold qlen, PIPESIZE, uwrap in *; Z.div_mod_to_equations; lia.

Lemma qlen_bound x : 0 <= qlen x < 2 ^ 32.
Proof. unfold qlen. apply Z.mod_pos_bound. lia. Qed.

Lemma full_spec x : pipe_ok x -> (pi_nwrite x =? u32 (pi_nread x + PIPESIZE)) = (qlen x =? PIPESIZE).
Proof.
  intros [_ _ Hr Hw _]. destruct (Z.eqb_spec (qlen x) PIPESIZE) as [E|E].
  - apply Z.eqb_eq. ring_lia.
  - apply Z.eqb_neq. ring_lia.
Qed.

Lemma empty_spec x : pipe_ok x -> (pi_nread x =? pi_nwrite x) = (qlen x =? 0).
Proof.
  intros [_ _ Hr Hw _]. destruct (Z.eqb_spec (qlen x) 0) as [E|E].
  - apply Z.eqb_eq. ring_lia.
  - apply Z.eqb_neq. ring_lia.
Qed.

Lemma push_queue ch x :
  pipe_ok x -> qlen x < PIPESIZE -> 0 <= ch < 256 ->
  pipe_ok (push ch x) /\ queue (push ch x) = queue x ++ [ch] /\ qlen (push ch x) = qlen x + 1.
Proof.
  intros [Hd Hby Hr Hw Hl] Hlt Hch. pose proof (qlen_bound x) as Hb.
  assert (Hq : qlen (push ch x) = qlen x + 1).
  { unfold qlen, push. cbn [pi_nwrite pi_nread set_pi_nwrite set_pi_data]. ring_lia. }
  assert (Hwm : pi_nwrite x mod PIPESIZE = (pi_nread x + qlen x) mod PIPESIZE) by ring_lia.
  assert (Hlen : (Z.to_nat (pi_nwrite x mod PIPESIZE) < length (pi_data x))%nat).
  { rewrite Hd. pose proof (Z.mod_pos_bound (pi_nwrite x) PIPESIZE ltac:(by compute)).
    unfold PIPESIZE in *. lia. }
  split_and!.
  - constructor.
    + unfold push. cbn. by rewrite length_insert.
    + by apply Forall_insert.
    + done.
    + apply (uwrap_bound 32). lia.
    + lia.
  - unfold queue. rewrite Hq, upto_snoc, fmap_app by lia. f_equal.
    + apply list_fmap_ext. intros k j Hj%list_elem_of_lookup_2%elem_of_upto.
      unfold qbyte, push. cbn [pi_data pi_nread set_pi_nwrite set_pi_data].
      rewrite list_lookup_total_insert_ne; [done|]. rewrite Hwm. intros E.
      apply Z2Nat.inj in E; [|unfold PIPESIZE; Z.div_mod_to_equations; lia..].
      unfold PIPESIZE in *. clear -E Hj Hlt Hb. Z.div_mod_to_equations. lia.
    + cbn [fmap list_fmap]. f_equal. unfold qbyte, push.
      cbn [pi_data pi_nread set_pi_nwrite set_pi_data]. rewrite <-Hwm.
      by apply list_lookup_total_insert_eq.
  - done.
Qed.

Lemma pop_queue x :
  pipe_ok x -> 0 < qlen x ->
  pipe_ok (pop x) /\ queue x = pi_data x !!! Z.to_nat (pi_nread x mod PIPESIZE) :: queue (pop x) /\
  qlen (pop x) = qlen x - 1.
Proof.
  intros [Hd Hby Hr Hw Hl] Hlt. pose proof (qlen_bound x) as Hb.
  assert (Hq : qlen (pop x) = qlen x - 1).
  { unfold qlen, pop. cbn [pi_nwrite pi_nread set_pi_nread]. ring_lia. }
  split_and!; [|unfold queue|done].
  - constructor; [done|done|apply (uwrap_bound 32); lia|done|lia].
  - rewrite Hq, (upto_cons (qlen x)) by done. cbn [fmap list_fmap]. f_equal.
    + unfold qbyte. by rewrite Z.add_0_r.
    + rewrite <-list_fmap_compose. apply list_fmap_ext. intros k j _. unfold compose, qbyte, pop.
      cbn [pi_data pi_nread set_pi_nread]. f_equal. f_equal. ring_lia.
Qed.

Lemma queue_length x : length (queue x) = Z.to_nat (qlen x).
Proof. unfold queue, upto. by rewrite !length_fmap, length_seq. Qed.

(** ** The operations *)

(** Process [me] runs with the address space [root]; the pipe at [pi] is [x]. *)
Record piping (kend : Z) (me : nat) (q : proc) (l : list Z) (T : tables) (pi : Z) (x : pipe)
    (s : kernel) : Prop := {
  pp_quiet : quiet me q s;
  pp_pipe : k_pipes s !! pi = Some x;
  pp_ok : pipe_ok x;
  pp_vm : vm_inv kend (k_mem s) l T;
  pp_root : is_root T (p_pagetable q);
}.

Section pipe.
Context {HF : Fuel} (kend : Z) (Hkend : KERNBASE <= kend <= PHYSTOP).
Context (me : nat) (q : proc) (l : list Z) (T : tables) (pi : Z).

Lemma piget_eq {A} (g : pipe -> A) s x :
  k_pipes s !! pi = Some x -> piget pi g s = Done (g x) s.
Proof using.
  intros Hx. unfold piget, getf, gets, pipeL, lcomp. simpl.
  by rewrite (lookup_total_correct _ _ _ Hx).
Qed.

Lemma piset_eq g s x :
  k_pipes s !! pi = Some x ->
  piset pi g s = Done tt (set_k_pipes (<[pi := g x]> (k_pipes s)) s).
Proof using.
  intros Hx. unfold piset, setf, modify, pipeL, lcomp. simpl.
  by rewrite (lookup_total_correct _ _ _ Hx).
Qed.

(** [s] with the lock of the pipe held, and the pipe as [y] says. *)
Definition in_pipe (s : kernel) (m : kmem) (y : pipe) : kernel :=
  set_k_mem m (set_k_pipes (<[pi := set_pi_lock true y]> (k_pipes s))
    (set_k_cpu (cpu_push (k_cpu s)) s)).

Lemma in_pipe_quiet s m y : quiet me q s -> quiet me q (in_pipe s m y).
Proof using.
  intros [Hc Hm Hlen Hq Hun Haw]. constructor; try done. by apply cpu_push_ok.
Qed.

Lemma in_pipe_running s m y : running me q s -> running me q (in_pipe s m y).
Proof using. intros Hr. eapply running_same; [by apply running_push|done|done]. Qed.

Lemma in_pipe_pipe s m y : k_pipes (in_pipe s m y) !! pi = Some (set_pi_lock true y).
Proof using. apply lookup_insert_eq. Qed.

Lemma in_pipe_set s m y y' g :
  g (set_pi_lock true y) = set_pi_lock true y' ->
  piset pi g (in_pipe s m y) = Done tt (in_pipe s m y').
Proof using.
  intros Hg. rewrite (piset_eq g _ _ (in_pipe_pipe s m y)), Hg. f_equal.
  unfold in_pipe. cbn. by rewrite insert_insert_eq.
Qed.

Lemma pipe_lock_eq s x :
  cpu_ok (k_cpu s) -> k_pipes s !! pi = Some x -> pi_lock x = false ->
  acquire (pi_lockL pi) s = Done tt (in_pipe s (k_mem s) x).
Proof using.
  intros Hc Hx Hl. rewrite acquire_eq; [|done|].
  - unfold locked, in_pipe, pi_lockL, pipeL, lcomp. cbn. rewrite (lookup_total_correct _ _ _ Hx).
    by destruct s.
  - unfold pi_lockL, pipeL, lcomp. cbn. by rewrite (lookup_total_correct _ _ _ Hx).
Qed.

(** The state once the lock is released. *)
Definition out_pipe (s : kernel) (m : kmem) (y : pipe) : kernel :=
  set_k_mem m (set_k_pipes (<[pi := set_pi_lock false y]> (k_pipes s)) s).

Lemma pipe_unlock_eq s m y :
  cpu_ok (k_cpu s) -> release (pi_lockL pi) (in_pipe s m y) = Done tt (out_pipe s m y).
Proof using.
  intros Hc. rewrite release_eq.
  - unfold unlocked, pi_lockL, pipeL, lcomp. cbn. rewrite lookup_total_insert_eq, insert_insert_eq.
    rewrite cpu_pop_push by done. unfold out_pipe. by destruct s.
  - by apply cpu_push_ok.
  - destruct Hc. simpl. lia.
  - unfold pi_lockL, pipeL, lcomp. cbn. by rewrite lookup_total_insert_eq.
Qed.

Lemma in_pipe_killed s m y : running me q s -> killed me (in_pipe s m y) = Done (p_killed q) (in_pipe s m y).
Proof using.
  intros Hr. pose proof (in_pipe_running s m y Hr) as Hr'. apply killed_eq; [apply Hr'|apply Hr'|by eapply running_lock].
Qed.

Lemma in_pipe_pagetable s m y :
  running me q s -> pget me p_pagetable (in_pipe s m y) = Done (p_pagetable q) (in_pipe s m y).
Proof using. intros Hr. apply pget_eq, Hr. Qed.

#[local] Instance user_ok_dec m root va : Decision (user_ok m root va) := ltac:(unfold user_ok; apply _).

(** One byte of user memory, if the address is accessible. *)
Lemma in_pipe_copyin s m y va : vm_inv kend m l T -> is_root T (p_pagetable q) -> 0 <= va ->
  exists c, onmem (copyin (p_pagetable q) va 1) (in_pipe s m y) = Done c (in_pipe s m y) /\
    if decide (user_ok (phys m) (p_pagetable q) va) then c = (0, [user_byte (phys m) (p_pagetable q) va]) else fst c = -1.
Proof using Hkend.
  intros Hvm Hr Hva. unfold lift. cbn [view memL]. change (k_mem (in_pipe s m y)) with m.
  destruct (wp_copyin kend Hkend m l T (p_pagetable q) va 1 Hvm Hr Hva ltac:(lia))
    as (r & m' & -> & -> & [[-> Hok]|(i & n & -> & Hi & _ & Hno)]); (eexists; split; [done|]); case_decide as Hd.
  - unfold user_bytes. change (Z.to_nat 1) with 1%nat. by rewrite read_bytes_S.
  - destruct Hd. specialize (Hok 0 ltac:(lia)). by rewrite Z.add_0_r in Hok.
  - destruct Hno. by replace (va + i) with va by lia.
  - done.
Qed.

Lemma queue_lock b y : queue (set_pi_lock b y) = queue y.
Proof using. done. Qed.

Lemma pipe_ok_lock b y : pipe_ok y -> pipe_ok (set_pi_lock b y).
Proof using. by intros []. Qed.

(** ** A writer *)

(** The bytes at user address [a] up to the first that is not accessible, [n] at most. *)
Fixpoint accessible (m : mem) (root a : Z) (n : nat) : list Z :=
  match n with
  | O => []
  | S n' =>
      if decide (user_ok m root (u64 a)) then user_byte m root (u64 a) :: accessible m root (a + 1) n' else []
  end.

(** [y] is [x] with the bytes [bs] at the end of its queue. *)
Record appended (x : pipe) (bs : list Z) (y : pipe) : Prop := {
  ap_ok : pipe_ok y;
  ap_queue : queue y = queue x ++ bs;
  ap_len : qlen y = qlen x + Z.of_nat (length bs);
  ap_read : pi_readopen y = pi_readopen x;
  ap_write : pi_writeopen y = pi_writeopen x;
  ap_nread : pi_nread y = pi_nread x;
  ap_lock : pi_lock y = pi_lock x;
}.

Lemma appended_nil x : pipe_ok x -> appended x [] x.
Proof using. intros Hx. constructor; try done; [by rewrite app_nil_r|cbn [length]; lia]. Qed.

Lemma appended_cons x b bs y : pipe_ok x -> qlen x < PIPESIZE -> 0 <= b < 256 -> appended (push b x) bs y -> appended x (b :: bs) y.
Proof using.
  intros Hx Hlt Hb [A1 A2 A3 A4 A5 A6 A7]. destruct (push_queue b x Hx Hlt Hb) as (_ & Hq & Hl).
  constructor; try done; [by rewrite A2, Hq, <-app_assoc|cbn [length]; lia].
Qed.

(** The body of the loop of [pipewrite]. *)
Definition write_round (addr n : Z) (i : Z) : K (Z + option Z) :=
  if i <? n then
    ro <- piget pi pi_readopen ;;
    k <- (if negb ro then ret 1 else killed me) ;;
    if negb (k =? 0) then
      release (pi_lockL pi) ;; ret (inr None)
    else
      full <- piget pi (fun x => pi_nwrite x =? u32 (pi_nread x + PIPESIZE)) ;;
      if (full : bool) then
        wakeup (ChanPipeRead pi) ;;
        sleep (ChanPipeWrite pi) (pi_lockL pi) ;;
        ret (inl i)
      else
        pagetable <- pget me p_pagetable ;;
        c <- onmem (copyin pagetable (u64 (addr + i)) 1) ;;
        if fst c =? -1 then ret (inr (Some i))
        else
          piset pi (push (hd 0 (snd c))) ;;
          ret (inl (i + 1))
  else ret (inr (Some i)).

Definition write_end (r : option Z) : K Z :=
  match r with
  | None => ret (-1)
  | Some i => wakeup (ChanPipeRead pi) ;; release (pi_lockL pi) ;; ret i
  end.

Section writer.
Context (s : kernel) (addr n : Z).
Hypothesis Hr : running me q s.

Lemma round_ends i y : n <= i -> write_round addr n i (in_pipe s (k_mem s) y) = Done (inr (Some i)) (in_pipe s (k_mem s) y).
Proof using. intros Hi. unfold write_round. by replace (i <? n) with false by lia. Qed.

(** The reader is gone, or the writer is killed. *)
Lemma round_closed i y : i < n -> pi_readopen y = false \/ p_killed q <> 0 ->
  write_round addr n i (in_pipe s (k_mem s) y) = Done (inr None) (out_pipe s (k_mem s) y).
Proof using Hr.
  intros Hi Hc. unfold write_round. replace (i <? n) with true by lia.
  erewrite bind_done; [|by apply piget_eq, in_pipe_pipe]. change (pi_readopen (set_pi_lock true y)) with (pi_readopen y).
  assert (exists k, (if negb (pi_readopen y) then ret 1 else killed me) (in_pipe s (k_mem s) y) = Done k (in_pipe s (k_mem s) y) /\ k <> 0) as (k & E & Hk).
  { destruct (pi_readopen y); cbn [negb]; [|by exists 1]. exists (p_killed q). split; [by apply in_pipe_killed|by destruct Hc]. }
  rewrite (bind_done _ _ _ _ _ E). replace (k =? 0) with false by lia. cbn [negb].
  by erewrite bind_done; [|apply pipe_unlock_eq, Hr].
Qed.

Section open.
Hypothesis Hki : p_killed q = 0.

(** The tests before a byte is taken. *)
Lemma round_open i y (f : K (Z + option Z)) : i < n -> pi_readopen y = true -> pipe_ok y ->
  (if qlen y =? PIPESIZE then
     wakeup (ChanPipeRead pi) ;; sleep (ChanPipeWrite pi) (pi_lockL pi) ;; ret (inl i)
   else
     pagetable <- pget me p_pagetable ;;
     c <- onmem (copyin pagetable (u64 (addr + i)) 1) ;;
     if fst c =? -1 then ret (inr (Some i))
     else piset pi (push (hd 0 (snd c))) ;; ret (inl (i + 1))) = f ->
  write_round addr n i (in_pipe s (k_mem s) y) = f (in_pipe s (k_mem s) y).
Proof using Hr Hki.
  intros Hi Hro Hy <-. unfold write_round. replace (i <? n) with true by lia.
  erewrite bind_done; [|by apply piget_eq, in_pipe_pipe]. change (pi_readopen (set_pi_lock true y)) with (pi_readopen y). rewrite Hro. cbn [negb].
  erewrite bind_done; [|by apply in_pipe_killed]. rewrite Hki. cbn [Z.eqb negb].
  erewrite bind_done; [|by apply piget_eq, in_pipe_pipe].
  change (pi_nwrite (set_pi_lock true y) =? u32 (pi_nread (set_pi_lock true y) + PIPESIZE)) with (pi_nwrite y =? u32 (pi_nread y + PIPESIZE)).
  by rewrite full_spec.
Qed.

(** One byte more, or the end of the accessible memory. *)
Lemma round_byte i y : vm_inv kend (k_mem s) l T -> is_root T (p_pagetable q) ->
  i < n -> pi_readopen y = true -> pipe_ok y -> qlen y < PIPESIZE ->
  let root := p_pagetable q in
  write_round addr n i (in_pipe s (k_mem s) y) =
    if decide (user_ok (phys (k_mem s)) root (u64 (addr + i)))
    then Done (inl (i + 1)) (in_pipe s (k_mem s) (push (user_byte (phys (k_mem s)) root (u64 (addr + i))) y))
    else Done (inr (Some i)) (in_pipe s (k_mem s) y).
Proof using Hkend Hr Hki.
  intros Hvm Hroot Hi Hro Hy Hlt root. erewrite round_open; [|done|done|done|reflexivity].
  replace (qlen y =? PIPESIZE) with false by lia. erewrite bind_done; [|by apply in_pipe_pagetable].
  destruct (in_pipe_copyin s (k_mem s) y (u64 (addr + i)) Hvm Hroot) as (c & E & Hc); [apply (uwrap_bound 64); lia|].
  rewrite (bind_done _ _ _ _ _ E). fold root in Hc. case_decide.
  - subst c. cbn [fst snd hd Z.eqb]. set (b := user_byte _ _ _).
    assert (E2 : piset pi (push b) (in_pipe s (k_mem s) y) = Done tt (in_pipe s (k_mem s) (push b y))) by by apply in_pipe_set.
    by rewrite (bind_done _ _ _ _ _ E2).
  - by rewrite Hc.
Qed.

(** The writer takes bytes as long as they are accessible. *)
Lemma write_bytes k f : vm_inv kend (k_mem s) l T -> is_root T (p_pagetable q) ->
  forall i y, Z.of_nat k <= n - i -> pi_readopen y = true -> pipe_ok y -> qlen y + Z.of_nat k <= PIPESIZE ->
  let bs := accessible (phys (k_mem s)) (p_pagetable q) (addr + i) k in
  exists y', appended y bs y' /\ loop (length bs + f) (write_round addr n) i (in_pipe s (k_mem s) y) =
    loop f (write_round addr n) (i + Z.of_nat (length bs)) (in_pipe s (k_mem s) y').
Proof using Hkend Hr Hki.
  intros Hvm Hroot. induction k as [|k IH]; intros i y Hk Hro Hy Hfit bs.
  { exists y. split; [by apply appended_nil|]. cbn. by rewrite Z.add_0_r. }
  unfold bs. cbn [accessible]. pose proof (round_byte i y Hvm Hroot ltac:(lia) Hro Hy ltac:(lia)) as Hb. cbv zeta in Hb.
  destruct (decide (user_ok _ _ _)) as [Hok|Hno].
  2:{ exists y. split; [by apply appended_nil|]. cbn [length Nat.add]. by rewrite Z.add_0_r. }
  set (b := user_byte _ _ _) in *. assert (Hbb : 0 <= b < 256) by apply (inv_bytes _ _ _ (vm_kmem _ _ _ _ Hvm)).
  destruct (push_queue b y Hy ltac:(lia) Hbb) as (Hy1 & _ & Hl1).
  destruct (IH (i + 1) (push b y)) as (y' & Ha & E); [lia|done|done|lia|]. exists y'. rewrite Z.add_assoc in Ha, E.
  split; [by apply appended_cons; [|lia| |]|]. cbn [length Nat.add]. rewrite (loop_next _ _ _ _ _ _ Hb), E. f_equal. lia.
Qed.

Lemma accessible_length m root a k : (length (accessible m root a k) <= k)%nat.
Proof using. revert a. induction k as [|k IH]; intros a; cbn [accessible length]; [lia|]. case_decide; cbn [length]; [|lia]. specialize (IH (a + 1)). lia. Qed.

(** When fewer bytes were accessible than asked for, the next is not. *)
Lemma accessible_stops m root a k : (length (accessible m root a k) < k)%nat ->
  ~ user_ok m root (u64 (a + Z.of_nat (length (accessible m root a k)))).
Proof using.
  revert a. induction k as [|k IH]; intros a; cbn [accessible length]; [lia|]. case_decide as Hd; cbn [length].
  - intros Hlt. replace (a + Z.of_nat (S (length (accessible m root (a + 1) k)))) with (a + 1 + Z.of_nat (length (accessible m root (a + 1) k))) by lia.
    apply IH. lia.
  - intros _. by rewrite Z.add_0_r.
Qed.

Lemma in_pipe_locked y : pi_lock y = false -> in_pipe s (k_mem s) y = locked (pi_lockL pi) (out_pipe s (k_mem s) y).
Proof using.
  intros _. unfold in_pipe, out_pipe, locked, pi_lockL, pipeL, lcomp. cbn. rewrite lookup_total_insert_eq, insert_insert_eq. done.
Qed.

(** The ring is full: readers are woken and the writer sleeps, with the ring as it is. *)
Lemma round_full i y : i < n -> pi_readopen y = true -> pipe_ok y -> qlen y = PIPESIZE -> noff (k_cpu s) = 0 ->
  let s1 := woken (ChanPipeRead pi) me (out_pipe s (k_mem s) y) in
  exists k, write_round addr n i (in_pipe s (k_mem s) y) = Switch (dozing (ChanPipeWrite pi) me s1) k /\
    forall s2 q2, resumes me q2 s2 -> pipe_dom pi s2 -> view (pi_lockL pi) s2 = false ->
      k s2 = Done (inl i) (locked (pi_lockL pi) (returned me s1 s2)).
Proof using Hr Hki.
  intros Hi Hro Hy Hfull Hn s1. erewrite round_open; [|done|done|done|reflexivity]. replace (qlen y =? PIPESIZE) with true by lia.
  erewrite bind_done; [|by eapply wakeup_running, in_pipe_running].
  assert (Hr1 : running me q s1) by (apply woken_running; by eapply running_same; [exact Hr|..]).
  assert (E : woken (ChanPipeRead pi) me (in_pipe s (k_mem s) y) = locked (pi_lockL pi) s1).
  { unfold s1, in_pipe, out_pipe, woken, locked, pi_lockL, pipeL, lcomp. cbn. rewrite lookup_total_insert_eq, insert_insert_eq. done. }
  rewrite E. destruct (sleep_section me q (pi_lockL pi) (pipe_dom pi) (ChanPipeWrite pi) s1 Hr1) as (k & Ek & Hk); [done|..].
  - unfold pipe_dom. unfold s1, woken, out_pipe. cbn. rewrite lookup_insert_eq. by eexists.
  - unfold s1, woken, out_pipe, pi_lockL, pipeL, lcomp. cbn. by rewrite lookup_total_insert_eq.
  - rewrite (bind_switch _ _ _ _ _ Ek). eexists. split; [done|]. intros s2 q2 Hres Hd Hv. cbv beta. by rewrite (Hk s2 q2).
Qed.
End open.

(** The end of the call. *)
Lemma write_returns i y : write_end (Some i) (in_pipe s (k_mem s) y) =
  Done i (woken (ChanPipeRead pi) me (out_pipe s (k_mem s) y)).
Proof using Hr.
  unfold write_end. erewrite bind_done; [|by eapply wakeup_running, in_pipe_running].
  erewrite bind_done; [|apply (pipe_unlock_eq (woken (ChanPipeRead pi) me s) (k_mem s) y), Hr]. done.
Qed.
End writer.

(** Process [me] is about to write into the pipe [x]. *)
Record writing (x : pipe) (s : kernel) : Prop := {
  wr_run : running me q s;
  wr_pipe : k_pipes s !! pi = Some x;
  wr_free : pi_lock x = false;
  wr_ok : pipe_ok x;
  wr_vm : vm_inv kend (k_mem s) l T;
  wr_root : is_root T (p_pagetable q);
}.

(** The pipe is [y] now, and its readers are awake. *)
Definition written (y : pipe) (s : kernel) : kernel :=
  woken (ChanPipeRead pi) me (set_k_pipes (<[pi := y]> (k_pipes s)) s).
(** Byte by byte, [copyout] stores a list. *)
Lemma stored_step m bs va n b m1 m2 :
  vm_inv kend m l T -> is_root T (p_pagetable q) ->
  stored kend m l T (p_pagetable q) va bs n m1 ->
  stored kend m1 l T (p_pagetable q) (va + Z.of_nat n) [b] 1 m2 -> bs !! n = Some b ->
  stored kend m l T (p_pagetable q) va bs (S n) m2.
Proof using.
  intros Hvm Hr [Hi1 Ha1 Ho1 Hb1 Hf1] [Hi2 Ha2 Ho2 Hb2 Hf2] Hb.
  assert (Htr : forall vb, translate (phys m1) (p_pagetable q) vb = translate (phys m) (p_pagetable q) vb)
    by (intros; by eapply translate_agree).
  assert (Huok : forall vb, user_ok (phys m1) (p_pagetable q) vb <-> user_ok (phys m) (p_pagetable q) vb)
    by (intros; unfold user_ok; by rewrite Htr).
  assert (Huad : forall vb, user_addr (phys m1) (p_pagetable q) vb = user_addr (phys m) (p_pagetable q) vb)
    by (intros; unfold user_addr; by rewrite Htr).
  constructor.
  - done.
  - intros p x Hp Hx. rewrite (Ha2 p x Hp Hx). by apply (Ha1 p).
  - intros i Hi. destruct (decide (i = Z.of_nat n)) as [->|]; [|apply Ho1; lia].
    apply Huok. specialize (Ho2 0 ltac:(lia)). by rewrite Z.add_0_r in Ho2.
  - intros vb Hvb Hu. rewrite Hb2 by (done || by apply Huok). rewrite Hb1 by done.
    destruct (in_range_spec (va + Z.of_nat n) (Z.of_nat 1) vb),
      (in_range_spec va (Z.of_nat (S n)) vb), (in_range_spec va (Z.of_nat n) vb); try lia; try done.
    replace (vb - (va + Z.of_nat n)) with 0 by lia.
    replace (Z.to_nat (vb - va)) with n by lia. by rewrite (list_lookup_total_correct _ _ _ Hb).
  - intros x Hx. rewrite Hf2, Hf1; [done| |].
    + intros i Hi. apply Hx. lia.
    + intros i Hi. rewrite Huad. replace i with 0 by lia. rewrite Z.add_0_r. apply Hx. lia.
Qed.

Lemma user_space_agree m m' :
  vm_inv kend m l T -> is_root T (p_pagetable q) -> agree_tables T (phys m) (phys m') ->
  user_space (phys m) l T (p_pagetable q) -> user_space (phys m') l T (p_pagetable q).
Proof using.
  intros Hvm Hr Ha [H1 H2].
  assert (Htr : forall vb, translate (phys m') (p_pagetable q) vb = translate (phys m) (p_pagetable q) vb)
    by (intros; by eapply translate_agree).
  split; intros; rewrite ?Htr in *; [by apply H1|by apply H2].
Qed.

Lemma in_pipe_copyout s m y va b :
  vm_inv kend m l T -> is_root T (p_pagetable q) -> user_space (phys m) l T (p_pagetable q) ->
  0 <= va -> 0 <= b < 256 -> user_ok (phys m) (p_pagetable q) va ->
  exists m', onmem (copyout (p_pagetable q) va [b]) (in_pipe s m y) = Done 0 (in_pipe s m' y) /\
    stored kend m l T (p_pagetable q) va [b] 1 m'.
Proof using Hkend.
  intros Hvm Hr Hus Hva Hb Hok. unfold lift. cbn [view memL].
  change (k_mem (in_pipe s m y)) with m.
  assert (wp (copyout (p_pagetable q) va [b]) m (fun r m' => r = 0 /\
    stored kend m l T (p_pagetable q) va [b] 1 m')) as (r & m' & -> & -> & Hst).
  { eapply (wp_copyout kend Hkend m l T); [done|done|done|done|by apply Forall_singleton| |].
    - done.
    - intros m' k i _ Hi Hno. destruct Hno. cbn in Hi. by replace (va + i) with va by lia. }
  by exists m'.
Qed.

(** A reader that finds bytes in the pipe, or its other end closed. *)
Lemma wp_piperead x s addr n (Q : Z -> kernel -> Prop) :
  let k := Z.min n (qlen x) in
  piping kend me q l T pi x s -> pi_lock x = false -> 0 < qlen x \/ pi_writeopen x = false ->
  user_space (phys (k_mem s)) l T (p_pagetable q) -> 0 <= n -> 0 <= addr ->
  (forall i, 0 <= i < k -> user_ok (phys (k_mem s)) (p_pagetable q) (addr + i)) ->
  (forall y m', pipe_ok y -> queue y = drop (Z.to_nat k) (queue x) ->
     pi_readopen y = pi_readopen x -> pi_writeopen y = pi_writeopen x ->
     stored kend (k_mem s) l T (p_pagetable q) addr (queue x) (Z.to_nat k) m' ->
     Q k (out_pipe s m' y)) ->
  wp (piperead pi addr n) s Q.
Proof using Hkend.
  intros k [Hq Hx Hok Hvm Hr] Hl Hne Hus Hn Ha Huok HQ. unfold piperead.
  pose proof (qlen_bound x) as Hqb.
  apply wp_bind. eapply wp_done; [apply (myproc'_eq s me); apply Hq|].
  apply wp_bind. eapply wp_done; [apply pipe_lock_eq; [apply Hq|done|done]|].
  apply wp_bind, wp_loop_exit.
  apply wp_bind. eapply wp_done; [by apply piget_eq, in_pipe_pipe|]. cbn beta.
  change (pi_nread (set_pi_lock true x) =? pi_nwrite (set_pi_lock true x)) with (pi_nread x =? pi_nwrite x).
  rewrite empty_spec by done.
  replace ((qlen x =? 0) && pi_writeopen (set_pi_lock true x)) with false.
  2:{ symmetry. apply andb_false_iff. destruct Hne as [?|Hw]; [left; lia|by right]. }
  apply wp_ret. cbn [negb]. apply wp_bind.
  apply (wp_loop (fun i s' => 0 <= i <= k /\ exists y m', s' = in_pipe s m' y /\ pipe_ok y /\
      queue y = drop (Z.to_nat i) (queue x) /\ qlen y = qlen x - i /\
      pi_readopen y = pi_readopen x /\ pi_writeopen y = pi_writeopen x /\
      stored kend (k_mem s) l T (p_pagetable q) addr (queue x) (Z.to_nat i) m')
    (fun i => Z.to_nat (n - i))).
  - intros i s' (Hi & y & m' & -> & Hy & Hqy & Hly & Hroy & Hwoy & Hst).
    assert (Hend : i = k -> wp (wakeup (ChanPipeWrite pi) ;; release (pi_lockL pi) ;; ret i)
      (in_pipe s m' y) Q).
    { intros ->. apply wp_bind. eapply wp_done; [by eapply wakeup_quiet, in_pipe_quiet|].
      apply wp_bind. eapply wp_done; [apply pipe_unlock_eq, Hq|]. apply wp_ret. by apply HQ. }
    destruct (Z.ltb_spec i n); [|apply wp_ret, Hend; lia].
    apply wp_bind. eapply wp_done; [by apply piget_eq, in_pipe_pipe|]. cbn beta.
    change (pi_nread (set_pi_lock true y) =? pi_nwrite (set_pi_lock true y)) with (pi_nread y =? pi_nwrite y).
    rewrite empty_spec by done.
    destruct (Z.eqb_spec (qlen y) 0); [apply wp_ret, Hend; lia|].
    apply wp_bind. eapply wp_done; [by apply piget_eq, in_pipe_pipe|].
    set (ch := pi_data y !!! Z.to_nat (pi_nread y mod PIPESIZE)).
    change (pi_data (set_pi_lock true y) !!! Z.to_nat (pi_nread (set_pi_lock true y) mod PIPESIZE)) with ch.
    destruct (pop_queue y Hy ltac:(lia)) as (Hok' & Hq' & Hl'). fold ch in Hq'.
    apply wp_bind. eapply wp_done; [by apply (in_pipe_set s m' y (pop y))|].
    apply wp_bind. eapply wp_done; [by apply in_pipe_pagetable, quiet_running|].
    assert (user_ok (phys (k_mem s)) (p_pagetable q) (addr + i)) as Hu by (apply Huok; lia).
    assert (addr + i < 2 ^ 64) as H64.
    { pose proof Hu as Hu2. apply translate_bound in Hu2.
      destruct (PGROUNDDOWN_bound (addr + i)) as [Hb _].
      assert (MAXVA + PGSIZE < 2 ^ 64) by by compute. lia. }
    rewrite uwrap_small by lia.
    assert (Hch : queue x !! Z.to_nat i = Some ch).
    { rewrite <-(Nat.add_0_r (Z.to_nat i)), <-lookup_drop, <-Hqy, Hq'. done. }
    assert (0 <= ch < 256) as Hchb.
    { apply (Forall_lookup_1 _ _ (Z.to_nat (pi_nread y mod PIPESIZE)) _ (po_bytes _ Hy)).
      apply list_lookup_lookup_total_lt. rewrite (po_data _ Hy).
      pose proof (Z.mod_pos_bound (pi_nread y) PIPESIZE ltac:(by compute)). unfold PIPESIZE in *. lia. }
    destruct (in_pipe_copyout s m' (pop y) (addr + i) ch) as (m2 & Hco & Hst2); try done.
    { apply Hst. }
    { by eapply user_space_agree; [..|apply Hst|]. }
    { lia. }
    { unfold user_ok in *. by rewrite (translate_agree kend (k_mem s) l T) by (done || apply Hst). }
    apply wp_bind. eapply wp_done; [exact Hco|]. cbn [Z.eqb]. apply wp_ret.
    split; [|lia]. split; [lia|]. exists (pop y), m2.
    replace (Z.to_nat (i + 1)) with (S (Z.to_nat i)) by lia.
    split_and!; [done|done| |lia|done|done|].
    + rewrite <-Nat.add_1_r, <-drop_drop, <-Hqy, Hq'. done.
    + eapply stored_step; [done|done|done| |done]. by rewrite Z2Nat.id by lia.
  - split; [lia|]. exists x, (k_mem s). split_and!; try done; [lia|]. by apply stored_refl.
  - lia.
Qed.
End pipe.

(** What a call of [pipewrite] for [n] bytes at [addr] does from [s] on, after it has written [i] of them, up to the time it
    has slept [rounds] times. *)
Fixpoint writer_spec (rounds : nat) (kend : Z) (me : nat) (pi addr n i : Z) (s : kernel) (o : outcome kernel Z) : Prop :=
  match rounds with
  | O => True
  | S rounds' => forall q l T x, writing kend me q l T pi x s ->
      if (i <? n) && (negb (pi_readopen x) || negb (p_killed q =? 0)) then o = Done (-1) s
      else
        let room := PIPESIZE - qlen x in
        let bs := accessible (phys (k_mem s)) (p_pagetable q) (addr + i) (Z.to_nat (Z.min (n - i) room)) in
        let j := i + Z.of_nat (length bs) in
        exists y, appended x bs y /\
          if (j <? n) && (Z.of_nat (length bs) =? room) then
            noff (k_cpu s) = 0 -> exists k, o = Switch (dozing (ChanPipeWrite pi) me (written me pi y s)) k /\
              forall s2 q2, resumes me q2 s2 -> pipe_dom pi s2 -> view (pi_lockL pi) s2 = false ->
                writer_spec rounds' kend me pi addr n j (returned me (written me pi y s) s2) (k s2)
          else o = Done j (written me pi y s)
  end.

Section write.
Context {HF : Fuel} (kend : Z) (Hkend : KERNBASE <= kend <= PHYSTOP) (me : nat) (pi addr n : Z).

Lemma out_pipe_set s y : pi_lock y = false -> out_pipe pi s (k_mem s) y = set_k_pipes (<[pi := y]> (k_pipes s)) s.
Proof using. intros Hl. unfold out_pipe. replace (set_pi_lock false y) with y by (destruct y; cbn in Hl; by subst). by destruct s. Qed.

Lemma writer_rounds rounds : forall i s x, i <= n -> k_pipes s !! pi = Some x ->
  writer_spec rounds kend me pi addr n i s
    (bind (loop (Z.to_nat (n - i) + rounds) (write_round me pi addr n) i) (write_end pi) (in_pipe pi s (k_mem s) x)).
Proof using Hkend.
  induction rounds as [|rounds IH]; intros i s x Hi Hx; cbn [writer_spec]; [done|]. intros q l T x' [Hr Hx' Hl Hok Hvm Hroot].
  assert (x' = x) as -> by congruence. clear Hx'. pose proof (qlen_bound x) as Hql. pose proof (po_len _ Hok) as Hle.
  set (body := write_round me pi addr n). destruct ((i <? n) && (negb (pi_readopen x) || negb (p_killed q =? 0))) eqn:Hclosed.
  { apply andb_true_iff in Hclosed as [Hlt Hc]. rewrite Nat.add_comm. cbn [Nat.add].
    erewrite bind_done; [|apply loop_last, (round_closed me q pi s addr n Hr); [lia|]].
    - unfold write_end, ret. f_equal. rewrite out_pipe_set by done. rewrite insert_id by done. by destruct s.
    - apply orb_true_iff in Hc as [H%negb_true_iff|H%negb_true_iff]; [by left|right; lia]. }
  cbv zeta. set (room := PIPESIZE - qlen x) in *. set (m := phys (k_mem s)). set (root := p_pagetable q).
  assert (Hopen : i < n -> pi_readopen x = true /\ p_killed q = 0).
  { intros Hlt. replace (i <? n) with true in Hclosed by lia. cbn [andb] in Hclosed.
    apply orb_false_iff in Hclosed as [H1%negb_false_iff H2%negb_false_iff]. split; [done|lia]. }
  set (k := Z.to_nat (Z.min (n - i) room)). set (bs := accessible m root (addr + i) k).
  pose proof (accessible_length m root (addr + i) k) as Hbl. fold bs in Hbl.
  destruct (decide (i < n)) as [Hlt|Hge].
  2:{ assert (k = 0%nat) as Hk by lia. assert (bs = []) as -> by (unfold bs; by rewrite Hk). exists x. split; [by apply appended_nil|].
      cbn [length]. replace (i + Z.of_nat 0) with i by lia. replace (i <? n) with false by lia. cbn [andb].
      rewrite Nat.add_comm. cbn [Nat.add]. erewrite bind_done; [|apply loop_last, round_ends; lia].
      erewrite (write_returns me q pi s Hr). by rewrite out_pipe_set. }
  destruct (Hopen Hlt) as [Hro Hki]. destruct (write_bytes kend Hkend me q l T pi s addr n Hr Hki k (Z.to_nat (n - i) - length bs + S rounds) Hvm Hroot i x) as (y & Ha & E);
    [lia|done|done|lia|]. fold m root bs in Ha, E.
  assert (Hlock : pi_lock y = false) by by rewrite (ap_lock _ _ _ Ha). pose proof (ap_len _ _ _ Ha) as Hly. exists y. split; [done|].
  replace (Z.to_nat (n - i) + S rounds)%nat with (length bs + (Z.to_nat (n - i) - length bs + S rounds))%nat by lia.
  set (j := i + Z.of_nat (length bs)) in *. unfold bind. fold body in E. rewrite E. replace (Z.to_nat (n - i) - length bs + S rounds)%nat with (S (Z.to_nat (n - j) + rounds)) by lia.
  destruct (Z.ltb_spec j n) as [Hj|Hj]; cbn [andb].
  2:{ erewrite loop_last; [|by apply round_ends]. cbn [obind]. rewrite (write_returns me q pi s Hr), out_pipe_set by done. done. }
  assert (Hroy : pi_readopen y = true) by by rewrite (ap_read _ _ _ Ha).
  destruct (Z.eqb_spec (Z.of_nat (length bs)) room) as [Hfull|Hnot].
  - intros Hn. destruct (round_full me q pi s addr n Hr Hki j y Hj Hroy (ap_ok _ _ _ Ha) ltac:(lia) Hn) as (kk & Ek & Hk).
    rewrite out_pipe_set in Ek, Hk by done. cbn [loop]. fold body in Ek. rewrite (bind_switch _ _ _ _ _ Ek). cbn [obind]. eexists. split; [done|].
    intros s2 q2 Hres Hd Hv. cbv beta. rewrite (Hk s2 q2 Hres Hd Hv). cbn [obind].
    set (s3 := returned me _ s2). destruct Hd as [x2 Hx2].
    assert (Hp3 : k_pipes s3 !! pi = Some x2) by exact Hx2.
    replace (locked (pi_lockL pi) s3) with (in_pipe pi s3 (k_mem s3) x2); [apply IH; [lia|done]|].
    unfold in_pipe, locked, pi_lockL, pipeL, lcomp. cbn. rewrite (lookup_total_correct _ _ _ Hx2). done.
  - assert (Hno : ~ user_ok m root (u64 (addr + j))).
    { unfold j. rewrite Z.add_assoc. apply accessible_stops. fold bs. lia. }
    pose proof (round_byte kend Hkend me q l T pi s addr n Hr Hki j y Hvm Hroot Hj Hroy (ap_ok _ _ _ Ha) ltac:(lia)) as Hb. cbv zeta in Hb.
    fold m root in Hb. rewrite decide_False in Hb by done. rewrite (loop_last _ _ _ _ _ _ Hb). cbn [obind].
    rewrite (write_returns me q pi s Hr), out_pipe_set by done. done.
Qed.
End write.

(** ** Properties *)

(** C33: a pipe is a first-in first-out queue, whatever its wrapping counters.  From every state in which [me] may write,
    [pipewrite] does what [writer_spec] says.  If the reader is gone or [me] was killed it returns -1 and changes nothing.
    Otherwise it appends bytes of [me]'s memory to the queue, which is otherwise as it was, and wakes the readers: all that
    are still to write, or as many as there is room for, or those before the first that is not accessible.  Having written
    all, or met the inaccessible one, it returns their number.  With the ring full it sleeps instead, holding no lock, with
    no unread byte overwritten; and when it is resumed, whatever the others have done meanwhile, it goes on in the same way
    with the byte it has come to. *)
Theorem pipewrite_appends {HF : Fuel} (kend : Z) (me : nat) (q : proc) (l : list Z) (T : tables)
    (pi : Z) (x : pipe) (s : kernel) (addr n : Z) :
  KERNBASE <= kend <= PHYSTOP -> writing kend me q l T pi x s -> 0 <= n ->
  writer_spec (S fuel) kend me pi addr n 0 s (pipewrite pi addr n s).
Proof.
  intros Hk [Hr Hx Hl Hok Hvm Hroot] Hn. unfold pipewrite.
  rewrite (bind_done _ _ _ _ _ (myproc'_eq s me (rn_cpu _ _ _ Hr) (rn_me _ _ _ Hr))).
  rewrite (bind_done _ _ _ _ _ (pipe_lock_eq pi s x (rn_cpu _ _ _ Hr) Hx Hl)).
  replace (S (Z.to_nat n + fuel)) with (Z.to_nat (n - 0) + S fuel)%nat by lia. by apply writer_rounds.
Qed.

(** C34: a reader takes bytes from the front: if there are any, or the
    write end is closed, it returns the smaller of [n] and the length of the queue; its user memory then holds these first
    bytes, the queue the others, and no other byte of user memory has changed. *)
Theorem piperead_removes {HF : Fuel} (kend : Z) (me : nat) (q : proc) (l : list Z) (T : tables)
    (pi : Z) (x : pipe) (s : kernel) (addr n : Z) :
  KERNBASE <= kend <= PHYSTOP -> piping kend me q l T pi x s ->
  pi_lock x = false -> 0 < qlen x \/ pi_writeopen x = false ->
  user_space (phys (k_mem s)) l T (p_pagetable q) -> 0 <= n -> 0 <= addr ->
  let k := Z.min n (qlen x) in
  (forall i, 0 <= i < k -> user_ok (phys (k_mem s)) (p_pagetable q) (addr + i)) ->
  exists s' y, piperead pi addr n s = Done k s' /\ piping kend me q l T pi y s' /\
    queue y = drop (Z.to_nat k) (queue x) /\ pi_lock y = false /\
    forall vb, 0 <= vb -> user_ok (phys (k_mem s)) (p_pagetable q) vb ->
      user_byte (phys (k_mem s')) (p_pagetable q) vb =
        if in_range addr k vb then queue x !!! Z.to_nat (vb - addr)
        else user_byte (phys (k_mem s)) (p_pagetable q) vb.
Proof.
  intros Hk Hp Hl Hne Hus Hn Ha k Huok. pose proof (qlen_bound x) as Hqb.
  assert (wp (piperead pi addr n) s (fun r s' => r = k /\ exists y,
    piping kend me q l T pi y s' /\ queue y = drop (Z.to_nat k) (queue x) /\ pi_lock y = false /\
    forall vb, 0 <= vb -> user_ok (phys (k_mem s)) (p_pagetable q) vb ->
      user_byte (phys (k_mem s')) (p_pagetable q) vb =
        if in_range addr k vb then queue x !!! Z.to_nat (vb - addr)
        else user_byte (phys (k_mem s)) (p_pagetable q) vb)) as (r & s' & Hrun & -> & y & HQ).
  { eapply (wp_piperead kend Hk me q l T pi x s); try done.
    intros y m' Hy Hqy _ _ Hst. split; [done|]. exists (set_pi_lock false y).
    destruct Hp as [Hq Hx Hok Hvm Hr]. split_and!; [|done|done|].
    - constructor; [by eapply quiet_same|apply lookup_insert_eq|by apply pipe_ok_lock| |done].
      exact (st_inv _ _ _ _ _ _ _ _ _ Hst).
    - intros vb Hvb Hu. change (k_mem (out_pipe pi s m' y)) with m'.
      rewrite (st_bytes _ _ _ _ _ _ _ _ _ Hst vb Hvb Hu). by rewrite Z2Nat.id by lia. }
  by exists s', y.
Qed.

(** A process with one page of memory and a pipe whose counters are about to
    wrap around. *)
#[local] Existing Instance demo_fuel.

Definition pipe_proc : proc := set_p_pagetable KERNBASE demo_proc.
Definition wrap_pipe : pipe := Pipe false (replicate (Z.to_nat PIPESIZE) 5) (2 ^ 32 - 1) (2 ^ 32 - 1) true true.
Definition pipe_kernel (x : pipe) : kernel :=
  set_k_mem user_kmem (set_k_pipes {[ 0 := x ]} (running_kernel 1 pipe_proc 0)).

Lemma pipe_kernel_piping x l T :
  pipe_ok x -> vm_inv KERNBASE user_kmem l T -> is_root T KERNBASE ->
  piping KERNBASE 1 pipe_proc l T 0 x (pipe_kernel x).
Proof.
  intros Hx Hvm Hr. constructor; [|apply lookup_singleton_eq|done|done|done].
  eapply quiet_same; [apply (running_kernel_quiet 1 pipe_proc); [unfold NPROC; lia|done]|done..].
Qed.

Lemma wrap_pipe_ok : pipe_ok wrap_pipe.
Proof.
  constructor; [done| |by compute|by compute|by compute]. apply Forall_replicate. lia.
Qed.

(** A ring with room for two bytes more, and the ring its reader leaves. *)
Definition crowded_pipe : pipe := Pipe false (replicate (Z.to_nat PIPESIZE) 5) (2 ^ 32 - 1) 509 true true.

Lemma page0_bytes a k : 0 <= a -> a + Z.of_nat k <= PGSIZE -> length (accessible (phys user_kmem) KERNBASE a k) = k.
Proof.
  revert a. induction k as [|k IH]; intros a Ha Hk; cbn [accessible]; [done|]. unfold PGSIZE in *.
  rewrite decide_True; [|rewrite uwrap_small by lia; apply user_page0_ok; unfold PGSIZE; lia]. cbn [length]. rewrite IH by lia. done.
Qed.

Lemma pipe_kernel_writing x l T : pipe_ok x -> pi_lock x = false -> vm_inv KERNBASE user_kmem l T -> is_root T KERNBASE ->
  writing KERNBASE 1 pipe_proc l T 0 x (pipe_kernel x).
Proof.
  intros Hx Hl Hvm Hr. destruct (pipe_kernel_piping x l T Hx Hvm Hr). constructor; try done. by apply quiet_running.
Qed.

Lemma crowded_pipe_ok : pipe_ok crowded_pipe.
Proof. constructor; [done| |by compute|by compute|by compute]. apply Forall_replicate. lia. Qed.

Lemma resumes_pipes me q m s : resumes me q s -> resumes me q (set_k_pipes m s).
Proof. intros Hs. by eapply resumes_same. Qed.

Lemma written_running me q pi y s : running me q s -> running me q (written me pi y s).
Proof. intros Hs. apply woken_running. by eapply running_same. Qed.

(** The writer of three bytes fills the ring and sleeps; when the reader has emptied it, the third byte follows. *)
Lemma pipewrite_appends_witness :
  exists y k, pipewrite 0 8 3 (pipe_kernel crowded_pipe) = Switch (dozing (ChanPipeWrite 0) 1 (written 1 0 y (pipe_kernel crowded_pipe))) k /\
    qlen y = PIPESIZE /\
    exists s', k (set_k_pipes {[ 0 := wrap_pipe ]} (run_again 1 (ChanPipeWrite 0) (written 1 0 y (pipe_kernel crowded_pipe)))) = Done 3 s'.
Proof.
  destruct user_kmem_space as (l & T & Hvm & Hr & _). set (s := pipe_kernel crowded_pipe).
  pose proof (pipe_kernel_writing crowded_pipe l T crowded_pipe_ok eq_refl Hvm Hr) as Hw.
  pose proof (pipewrite_appends KERNBASE 1 pipe_proc l T 0 crowded_pipe s 8 3 ltac:(by compute) Hw ltac:(lia)) as Hs.
  change (S fuel) with 2%nat in Hs. cbn [writer_spec] in Hs. specialize (Hs _ _ _ _ Hw).
  assert (Er : PIPESIZE - qlen crowded_pipe = 2) by by compute.
  change ((0 <? 3) && (negb (pi_readopen crowded_pipe) || negb (p_killed pipe_proc =? 0))) with false in Hs. cbv iota zeta in Hs.
  rewrite Er in Hs. change (k_mem s) with user_kmem in Hs. change (p_pagetable pipe_proc) with KERNBASE in Hs.
  change (Z.to_nat (Z.min (3 - 0) 2)) with 2%nat in Hs.
  destruct Hs as (y & [A1 A2 A3 A4 A5 A6 A7] & Hs). rewrite page0_bytes in A3, Hs by (unfold PGSIZE; lia).
  change ((0 + Z.of_nat 2 <? 3) && (Z.of_nat 2 =? 2)) with true in Hs. cbv iota in Hs. specialize (Hs eq_refl).
  destruct Hs as (k & E & Hk). exists y, k. split; [exact E|]. split; [change (Z.of_nat 2) with 2 in A3; clear -A3 Er; lia|].
  set (s1 := written 1 0 y s) in *. set (s2 := set_k_pipes {[ 0 := wrap_pipe ]} (run_again 1 (ChanPipeWrite 0) s1)).
  assert (Hrun : running 1 pipe_proc s1) by (apply written_running; apply Hw).
  assert (Hres : resumes 1 (set_p_state RUNNING (fall_asleep (ChanPipeWrite 0) pipe_proc)) s2).
  { apply resumes_pipes, run_again_resumes; [exact Hrun|reflexivity]. }
  specialize (Hk s2 _ Hres ltac:(by eexists) eq_refl). set (s3 := returned 1 s1 s2) in *.
  assert (Hw3 : writing KERNBASE 1 (wake_up (set_p_state RUNNING (fall_asleep (ChanPipeWrite 0) pipe_proc))) l T 0 wrap_pipe s3).
  { constructor; [exact (resumes_running 1 s1 s2 _ Hres)|reflexivity|reflexivity|exact wrap_pipe_ok|exact Hvm|exact Hr]. }
  specialize (Hk _ _ _ _ Hw3). assert (Em : k_mem s3 = user_kmem) by reflexivity. clearbody s3. clear E Hw Hres Hrun.
  change ((0 + Z.of_nat 2 <? 3) && (negb (pi_readopen wrap_pipe) || negb (p_killed (wake_up (set_p_state RUNNING (fall_asleep (ChanPipeWrite 0) pipe_proc))) =? 0))) with false in Hk.
  cbv iota zeta in Hk. rewrite Em in Hk. change (p_pagetable (wake_up _)) with KERNBASE in Hk.
  assert (Er3 : PIPESIZE - qlen wrap_pipe = 512) by by compute. rewrite Er3 in Hk.
  change (Z.to_nat (Z.min (3 - (0 + Z.of_nat 2)) 512)) with 1%nat in Hk. destruct Hk as (y3 & _ & Hk).
  rewrite page0_bytes in Hk by (unfold PGSIZE; lia). exists (written 1 0 y3 s3). exact Hk.
Defined.

Definition full_pipe : pipe :=
  Pipe false (replicate (Z.to_nat PIPESIZE) 5) (2 ^ 32 - 1) 1 true true.

Lemma piperead_removes_witness :
  exists s', piperead 0 8 3 (pipe_kernel full_pipe) = Done 2 s'.
Proof.
  destruct user_kmem_space as (l & T & Hinv & Hr & Hus).
  destruct (piperead_removes KERNBASE 1 pipe_proc l T 0 full_pipe (pipe_kernel full_pipe) 8 3)
    as (s' & y & H1 & _).
  - by compute.
  - apply pipe_kernel_piping; [|exact Hinv|exact Hr].
    constructor; [done| |by compute|by compute|by compute]. apply Forall_replicate. lia.
  - reflexivity.
  - left. by compute.
  - exact Hus.
  - lia.
  - lia.
  - intros i Hi. apply user_page0_ok. assert (Z.min 3 (qlen full_pipe) = 2) by by compute.
    unfold PGSIZE. lia.
  - exists s'. exact H1.
Defined.
