(* ===== verification/Tables.v ===== *)
(** * The tables of open files and of inodes: the theorems about the
      reference counts of kernel/file.c and kernel/fs.c *)

From S2P Require Import Prelude Params Memory Kalloc Vm Block State Sched SchedSpec Quiet Kcopy.
From S2P Require Import Uart Console Bio BioSpec Cache Log Fs File.

(** ** Open files *)

Abbreviation files s := (ft_file (k_ft s)).

Definition on_files (f : list file -> list file) (s : kernel) : kernel :=
  set_k_ft (set_ft_file (f (files s)) (k_ft s)) s.

Lemma on_files_id f s : f (files s) = files s -> on_files f s = s.
Proof. unfold on_files. intros ->. by destruct s as [? ? ? ? ? ? ? ? ? ? ? []]. Qed.

Lemma on_files_compose f g s : on_files f (on_files g s) = on_files (fun l => f (g l)) s.
Proof. by destruct s. Qed.

Lemma fset_eq i g s : fset i g s = Done tt (on_files (alter g i) s).
Proof.
  unfold fset, setf, modify, fileL, nthL, lcomp, on_files. simpl. by rewrite insert_alter.
Qed.

Lemma fget_eq {A} i (g : file -> A) s x : files s !! i = Some x -> fget i g s = Done (g x) s.
Proof.
  intros Hx. unfold fget, getf, gets, fileL, nthL, lcomp. simpl.
  by rewrite (list_lookup_total_correct _ _ _ Hx).
Qed.

Lemma unlock_files f s :
  cpu_ok (k_cpu s) -> ft_lock (k_ft s) = false ->
  release ft_lockL (on_files f (locked ft_lockL s)) = Done tt (on_files f s).
Proof.
  intros Hc Hl. rewrite release_eq; [|by apply cpu_push_ok|destruct Hc; simpl; lia|done].
  unfold unlocked, locked. cbn [k_cpu on_files set_k_ft].
  f_equal. unfold on_files. cbn. change (noff (k_cpu s) + 1) with (noff (cpu_push (k_cpu s))).
  rewrite cpu_pop_push by done. by destruct s as [? ? ? ? ? ? ? ? ? ? ? []]; simpl in *; subst.
Qed.

Lemma unlock_files_same s :
  cpu_ok (k_cpu s) -> ft_lock (k_ft s) = false ->
  release ft_lockL (locked ft_lockL s) = Done tt s.
Proof.
  intros Hc Hl. pose proof (unlock_files id s Hc Hl) as E. by rewrite !on_files_id in E.
Qed.

(** The first entry that satisfies a test. *)
Lemma first_index {A} (P : A -> bool) (l : list A) :
  (exists i x, l !! i = Some x /\ P x = true /\
     forall j y, (j < i)%nat -> l !! j = Some y -> P y = false) \/
  (forall j y, l !! j = Some y -> P y = false).
Proof.
  induction l as [|a l IH]; [by right|]. destruct (P a) eqn:E.
  - left. exists 0%nat, a. split_and!; [done|done|]. intros; lia.
  - destruct IH as [(i & x & Hi & HP & Hj)|Hn].
    + left. exists (S i), x. split_and!; [done|done|]. intros [|j] y Hlt Hy; [by simplify_eq/=|].
      apply (Hj j y); [lia|done].
    + right. intros [|j] y Hy; [by simplify_eq/=|by apply (Hn j)].
Qed.

(** [filealloc] takes the first entry of the file table without references, gives
    it one, and changes nothing else; without such an entry it returns null and changes nothing. *)
Theorem filealloc_first (s : kernel) :
  cpu_ok (k_cpu s) -> ft_lock (k_ft s) = false -> length (files s) = Z.to_nat NFILE ->
  (exists f x, files s !! f = Some x /\ f_ref x = 0 /\
     (forall j y, (j < f)%nat -> files s !! j = Some y -> f_ref y <> 0) /\
     filealloc s = Done (Some f) (on_files (alter (set_f_ref 1) f) s)) \/
  ((forall j y, files s !! j = Some y -> f_ref y <> 0) /\ filealloc s = Done None s).
Proof.
  intros Hc Hl Hlen. unfold filealloc.
  rewrite (bind_done _ _ _ _ _ (acquire_eq (lk := ft_lockL) s Hc Hl)).
  set (s1 := locked ft_lockL s).
  assert (Hpass : forall i x, files s !! i = Some x -> f_ref x <> 0 ->
    (rf <- fget i f_ref ;;
     if rf =? 0 then fset i (set_f_ref 1) ;; release ft_lockL ;; ret (Some i) else ret None) s1 =
    Done None s1).
  { intros i x Hx Hr. rewrite (bind_done _ _ _ _ _ (fget_eq i f_ref s1 x Hx)).
    by replace (f_ref x =? 0) with false by lia. }
  destruct (first_index (fun x => f_ref x =? 0) (files s)) as [(f & x & Hf & Hr & Hj)|Hn].
  - left. exists f, x. split_and!; [done|lia|intros j y Hlt Hy; specialize (Hj j y Hlt Hy); lia|].
    assert (Hlt : (f < Z.to_nat NFILE)%nat) by (rewrite <-Hlen; by eapply lookup_lt_Some).
    rewrite (bind_done _ _ _ (Some f) (on_files (alter (set_f_ref 1) f) s)); [done|].
    replace file_ids with (seq 0 f ++ f :: seq (S f) (Z.to_nat NFILE - S f)).
    2:{ unfold file_ids. rewrite <-(Nat.add_1_r f) at 2.
        replace (Z.to_nat NFILE) with (f + S (Z.to_nat NFILE - S f))%nat at 2 by lia.
        rewrite seq_app. simpl. by rewrite Nat.add_1_r. }
    apply scan_find.
    + intros i Hi%elem_of_seq.
      destruct (lookup_lt_is_Some_2 (files s) i) as [y Hy]; [lia|].
      apply (Hpass i y Hy). specialize (Hj i y ltac:(lia) Hy). lia.
    + rewrite (bind_done _ _ _ _ _ (fget_eq f f_ref s1 x Hf)), Hr.
      rewrite (bind_done _ _ _ _ _ (fset_eq f (set_f_ref 1) s1)).
      by rewrite (bind_done _ _ _ _ _ (unlock_files _ s Hc Hl)).
  - right. split; [intros j y Hy; specialize (Hn j y Hy); lia|].
    rewrite (bind_done _ _ _ None s1).
    + by rewrite (bind_done _ _ _ _ _ (unlock_files_same s Hc Hl)).
    + apply scan_none. intros i Hi%elem_of_seq.
      destruct (lookup_lt_is_Some_2 (files s) i) as [y Hy]; [lia|].
      apply (Hpass i y Hy). specialize (Hn i y Hy). lia.
Qed.

Lemma filealloc_first_witness :
  exists f s', filealloc kernel0 = Done (Some f) s'.
Proof.
  destruct (filealloc_first kernel0) as [(f & x & _ & _ & _ & H)|[Hn _]].
  - constructor; simpl; lia || done.
  - reflexivity.
  - reflexivity.
  - exists f. eexists. exact H.
  - destruct (Hn 0%nat file0); reflexivity.
Defined.

(** references to open files are counted.  [filedup] adds one reference and [fileclose] takes one away, so that
    closing a duplicate restores the table exactly; both panic on an entry
    without references. *)
Theorem filedup_fileclose {HF : Fuel} {HU : UartHw} {HI : Image} (f : nat) (x : file) (s : kernel) :
  cpu_ok (k_cpu s) -> ft_lock (k_ft s) = false -> files s !! f = Some x ->
  if decide (1 <= f_ref x)
  then exists s1, filedup f s = Done f s1 /\
    s1 = on_files (alter (fun x => set_f_ref (f_ref x + 1) x) f) s /\ fileclose f s1 = Done tt s
  else filedup f s = Panic "filedup" /\ fileclose f s = Panic "fileclose".
Proof.
  intros Hc Hl Hx.
  assert (Hget : forall g A (h : file -> A), fget f h (on_files (alter g f) (locked ft_lockL s)) =
    Done (h (g x)) (on_files (alter g f) (locked ft_lockL s))).
  { intros g A h. apply fget_eq. change (files _) with (alter g f (files s)).
    by rewrite list_lookup_alter_eq, Hx. }
  set (inc := fun x => set_f_ref (f_ref x + 1) x).
  case_decide as Hr.
  - exists (on_files (alter inc f) s). split_and!; [|done|].
    + unfold filedup. rewrite (bind_done _ _ _ _ _ (acquire_eq (lk := ft_lockL) s Hc Hl)).
      rewrite (bind_done _ _ _ _ _ (fget_eq f f_ref (locked ft_lockL s) x Hx)).
      rewrite (bind_done _ _ _ tt (locked ft_lockL s))
        by (replace (f_ref x <? 1) with false by lia; done).
      rewrite (bind_done _ _ _ _ _ (fset_eq f _ _)).
      by rewrite (bind_done _ _ _ _ _ (unlock_files _ s Hc Hl)).
    + set (s1 := on_files (alter inc f) s).
      assert (Hx1 : files s1 !! f = Some (inc x)).
      { change (files s1) with (alter inc f (files s)). by rewrite list_lookup_alter_eq, Hx. }
      unfold fileclose. rewrite (bind_done _ _ _ _ _ (acquire_eq (lk := ft_lockL) s1 Hc Hl)).
      rewrite (bind_done _ _ _ _ _ (fget_eq f f_ref (locked ft_lockL s1) _ Hx1)).
      rewrite (bind_done _ _ _ tt (locked ft_lockL s1))
        by (replace (f_ref (inc x) <? 1) with false by (simpl; lia); done).
      set (dec := fun x => set_f_ref (f_ref x - 1) x).
      rewrite (bind_done _ _ _ _ _ (fset_eq f dec _)).
      assert (Hg : fget f f_ref (on_files (alter dec f) (locked ft_lockL s1)) =
        Done (f_ref x) (on_files (alter dec f) (locked ft_lockL s1))).
      { rewrite (fget_eq f f_ref _ (dec (inc x))).
        - f_equal. simpl. lia.
        - change (files _) with (alter dec f (files s1)). by rewrite list_lookup_alter_eq, Hx1. }
      rewrite (bind_done _ _ _ _ _ Hg). replace (0 <? f_ref x) with true by lia.
      rewrite (unlock_files _ s1 Hc Hl). unfold s1. rewrite on_files_compose. f_equal.
      apply on_files_id. rewrite alter_compose_at. apply list_eq. intros j.
      destruct (decide (f = j)) as [<-|].
      * rewrite list_lookup_alter_eq, Hx. simpl. f_equal. unfold dec, inc.
        destruct x. cbn. unfold set_f_ref. cbn. f_equal. lia.
      * by rewrite list_lookup_alter_ne.
  - split.
    + unfold filedup. rewrite (bind_done _ _ _ _ _ (acquire_eq (lk := ft_lockL) s Hc Hl)).
      rewrite (bind_done _ _ _ _ _ (fget_eq f f_ref (locked ft_lockL s) x Hx)).
      apply bind_panic. by replace (f_ref x <? 1) with true by lia.
    + unfold fileclose. rewrite (bind_done _ _ _ _ _ (acquire_eq (lk := ft_lockL) s Hc Hl)).
      rewrite (bind_done _ _ _ _ _ (fget_eq f f_ref (locked ft_lockL s) x Hx)).
      apply bind_panic. by replace (f_ref x <? 1) with true by lia.
Qed.

#[local] Instance table_fuel : Fuel := 1%nat.

#[local] Instance table_uart : UartHw := fun _ => 0%nat.

#[local] Instance table_image : Image := {|
  img_end := 0x80022000; img_etext := 0x80008000; img_trampoline := 0x80007000;
  img_uservec := 0x80007000; img_userret := 0x8000709c; img_usertrap := 0x80002800;
  img_kernelvec := 0x80005000 |}.

(** An open file with one reference in the first entry of the table. *)
Definition one_open : kernel := on_files (alter (set_f_ref 1) 0%nat) kernel0.

Lemma filedup_fileclose_witness :
  exists s1, filedup 0 one_open = Done 0%nat s1 /\ f_ref (files s1 !!! 0%nat) = 2 /\
    fileclose 0 s1 = Done tt one_open.
Proof.
  destruct (filedup_fileclose 0 (set_f_ref 1 file0) one_open) as (s1 & H1 & H2 & H3).
  - constructor; simpl; lia || done.
  - reflexivity.
  - reflexivity.
  - exists s1. split; [exact H1|]. split; [|exact H3]. rewrite H2. reflexivity.
Defined.
