(* ===== verification/UartSpec.v ===== *)
(** * Output reaches the wire in order: the theorems about kernel/uart.c and
      kernel/printf.c *)

From S2P Require Import Prelude Params Memory Kalloc Block State Sched SchedSpec Quiet Sleeping Kcopy.
From S2P Require Import Uart Bio BioSpec Cache Log LogSpec.

(** ** The transmit ring *)

Definition ulen (u : uart) : Z := (uart_tx_w u - uart_tx_r u) mod 2 ^ 64.
Definition ubyte (u : uart) (k : Z) : Z :=
  uart_tx_buf u !!! Z.to_nat ((uart_tx_r u + k) mod UART_TX_BUF_SIZE).
(** The bytes that wait in the ring. *)
Definition uqueue (u : uart) : list Z := ubyte u <$> upto (ulen u).

Record uart_ok (u : uart) : Prop := {
  uo_buf : length (uart_tx_buf u) = Z.to_nat UART_TX_BUF_SIZE;
  uo_r : 0 <= uart_tx_r u < 2 ^ 64;
  uo_w : 0 <= uart_tx_w u < 2 ^ 64;
  uo_len : ulen u <= UART_TX_BUF_SIZE;
  uo_bytes : Forall (fun b => 0 <= b < 256) (uart_tx_buf u);
}.

Ltac uart_lia := unfold ulen, UART_TX_BUF_SIZE, uwrap in *; Z.div_mod_to_equations; lia.

Definition uput (c : Z) (u : uart) : uart :=
  set_uart_tx_w (u64 (uart_tx_w u + 1))
    (set_uart_tx_buf (<[Z.to_nat (uart_tx_w u mod UART_TX_BUF_SIZE) := u8 c]> (uart_tx_buf u)) u).

Lemma ulen_bound u : 0 <= ulen u < 2 ^ 64.
Proof. unfold ulen. apply Z.mod_pos_bound. lia. Qed.

Lemma ufull_spec u :
  uart_ok u -> (uart_tx_w u =? u64 (uart_tx_r u + UART_TX_BUF_SIZE)) = (ulen u =? UART_TX_BUF_SIZE).
Proof.
  intros [_ Hr Hw _ _]. destruct (Z.eqb_spec (ulen u) UART_TX_BUF_SIZE).
  - apply Z.eqb_eq. uart_lia.
  - apply Z.eqb_neq. uart_lia.
Qed.

Lemma uempty_spec u : uart_ok u -> (uart_tx_w u =? uart_tx_r u) = (ulen u =? 0).
Proof.
  intros [_ Hr Hw _ _]. destruct (Z.eqb_spec (ulen u) 0).
  - apply Z.eqb_eq. uart_lia.
  - apply Z.eqb_neq. uart_lia.
Qed.

Lemma uput_queue c u :
  uart_ok u -> ulen u < UART_TX_BUF_SIZE ->
  uart_ok (uput c u) /\ uqueue (uput c u) = uqueue u ++ [u8 c] /\ ulen (uput c u) = ulen u + 1.
Proof.
  intros [Hd Hr Hw Hl Hby] Hlt. pose proof (ulen_bound u) as Hb.
  assert (Hq : ulen (uput c u) = ulen u + 1).
  { unfold ulen, uput. cbn [uart_tx_w uart_tx_r set_uart_tx_w set_uart_tx_buf]. uart_lia. }
  assert (Hwm : uart_tx_w u mod UART_TX_BUF_SIZE = (uart_tx_r u + ulen u) mod UART_TX_BUF_SIZE)
    by uart_lia.
  split_and!; [| |done].
  - constructor; [|done|apply (uwrap_bound 64); lia|lia|].
    + unfold uput. cbn. by rewrite length_insert.
    + apply Forall_insert; [done|]. apply (uwrap_bound 8). lia.
  - unfold uqueue. rewrite Hq, upto_snoc, fmap_app by lia. f_equal.
    + apply list_fmap_ext. intros k j Hj%list_elem_of_lookup_2%elem_of_upto.
      unfold ubyte, uput. cbn [uart_tx_buf uart_tx_r set_uart_tx_w set_uart_tx_buf].
      rewrite list_lookup_total_insert_ne; [done|]. rewrite Hwm. intros E.
      apply Z2Nat.inj in E; [|unfold UART_TX_BUF_SIZE; Z.div_mod_to_equations; lia..].
      unfold UART_TX_BUF_SIZE in *. clear -E Hj Hlt Hb. Z.div_mod_to_equations. lia.
    + cbn [fmap list_fmap]. f_equal. unfold ubyte, uput.
      cbn [uart_tx_buf uart_tx_r set_uart_tx_w set_uart_tx_buf]. rewrite <-Hwm.
      apply list_lookup_total_insert_eq. rewrite Hd.
      pose proof (Z.mod_pos_bound (uart_tx_w u) UART_TX_BUF_SIZE ltac:(by compute)).
      unfold UART_TX_BUF_SIZE in *. lia.
Qed.

Definition upop (u : uart) : uart := set_uart_tx_r (u64 (uart_tx_r u + 1)) u.

Lemma upop_queue u :
  uart_ok u -> 0 < ulen u ->
  let c := uart_tx_buf u !!! Z.to_nat (uart_tx_r u mod UART_TX_BUF_SIZE) in
  uart_ok (upop u) /\ uqueue u = c :: uqueue (upop u) /\ ulen (upop u) = ulen u - 1 /\ u8 c = c.
Proof.
  intros [Hd Hr Hw Hl Hby] Hlt c. pose proof (ulen_bound u) as Hb.
  assert (Hq : ulen (upop u) = ulen u - 1).
  { unfold ulen, upop. cbn [uart_tx_w uart_tx_r set_uart_tx_r]. uart_lia. }
  split_and!; [|unfold uqueue|done|].
  - constructor; [done|apply (uwrap_bound 64); lia|done|lia|done].
  - rewrite Hq, (upto_cons (ulen u)) by done. cbn [fmap list_fmap]. f_equal.
    + unfold ubyte. by rewrite Z.add_0_r.
    + rewrite <-list_fmap_compose. apply list_fmap_ext. intros k j _. unfold compose, ubyte, upop.
      cbn [uart_tx_buf uart_tx_r set_uart_tx_r]. f_equal. f_equal. uart_lia.
  - apply (uwrap_small 8). apply (Forall_lookup_1 _ _ (Z.to_nat (uart_tx_r u mod UART_TX_BUF_SIZE)) c Hby).
    apply list_lookup_lookup_total_lt. rewrite Hd.
    pose proof (Z.mod_pos_bound (uart_tx_r u) UART_TX_BUF_SIZE ltac:(by compute)).
    unfold UART_TX_BUF_SIZE in *. lia.
Qed.

(** ** uartstart and uartputc *)

Section uart.
Context {HF : Fuel} {HU : UartHw} (me : nat) (q : proc).

Lemma uget_eq {A} (f : uart -> A) s : uget f s = Done (f (k_uart s)) s.
Proof using. done. Qed.

Lemma wp_uget {A} (f : uart -> A) s (Q : A -> kernel -> Prop) :
  Q (f (k_uart s)) s -> wp (uget f) s Q.
Proof using. intros. by eapply wp_done. Qed.

Lemma wp_uset f s (Q : unit -> kernel -> Prop) :
  Q tt (set_k_uart (f (k_uart s)) s) -> wp (uset f) s Q.
Proof using. intros. by eapply wp_done. Qed.

Lemma running_uart u s : running me q s -> running me q (set_k_uart u s).
Proof using. intros Hr. by eapply running_same. Qed.

(** The bytes the driver was given, in order: those on the wire and those in
    the ring. *)
Definition given (u : uart) : list Z := uart_sent u ++ uqueue u.

(** What stays the same while bytes move from the ring to the wire. *)
Record flow (u u' : uart) : Prop := {
  fl_ok : uart_ok u';
  fl_given : given u' = given u;
  fl_lock : uart_tx_lock u' = uart_tx_lock u;
  fl_rx : uart_rx u' = uart_rx u;
  fl_sent : uart_sent u `prefix_of` uart_sent u';
}.

Lemma flow_refl u : uart_ok u -> flow u u.
Proof using. by split. Qed.

Lemma flow_busy u u' n : flow u u' -> flow u (set_uart_busy n u').
Proof using. intros [[] ? ? ? ?]. by constructor. Qed.

(** One byte goes to the wire. *)
Lemma flow_send u u' n :
  flow u u' -> 0 < ulen u' ->
  let c := uart_tx_buf u' !!! Z.to_nat (uart_tx_r u' mod UART_TX_BUF_SIZE) in
  flow u (set_uart_busy n (set_uart_sent (uart_sent u' ++ [u8 c]) (upop u'))).
Proof using.
  intros [Hok Hg Hl Hr Hs] Hlt c. destruct (upop_queue u' Hok Hlt) as (Hok' & Hq & Hlen & Hc).
  fold c in Hq, Hc. apply flow_busy. constructor; try done.
  - by destruct Hok'.
  - rewrite <-Hg. unfold given. cbn [uart_sent set_uart_sent].
    change (uqueue (set_uart_sent (uart_sent u' ++ [u8 c]) (upop u'))) with (uqueue (upop u')).
    by rewrite Hq, Hc, <-app_assoc.
  - cbn [uart_sent set_uart_sent]. by apply prefix_app_r.
Qed.

(** The line is [u] now; if a byte has gone to the wire, those who wait for room are awake. *)
Definition drained (u : uart) (s : kernel) : kernel :=
  set_k_uart u (if decide (uart_sent u = uart_sent (k_uart s)) then s else woken ChanUart me s).

Lemma drained_running u s : running me q s -> running me q (drained u s).
Proof using. intros Hr. unfold drained. apply running_uart. case_decide; [done|by apply woken_running]. Qed.

(** One byte more has gone to the wire, and the sleepers are woken once more. *)
Lemma drained_more u u' s c : uart_sent (k_uart s) `prefix_of` uart_sent u -> uart_sent u' = uart_sent u ++ [c] ->
  set_k_uart u' (woken ChanUart me (drained u s)) = drained u' s.
Proof using.
  intros [cs Hcs] Hu'. unfold drained. rewrite (decide_False (P := uart_sent u' = _)).
  2:{ rewrite Hu', Hcs, <-app_assoc. intros E%(f_equal length). rewrite !length_app in E. cbn [length] in E. lia. }
  case_decide; [done|]. rewrite <-(woken_twice me ChanUart s) at 2. done.
Qed.

Lemma wp_uartstart s (Q : unit -> kernel -> Prop) :
  running me q s -> uart_ok (k_uart s) ->
  (forall u, flow (k_uart s) u -> Q tt (drained u s)) ->
  wp uartstart s Q.
Proof using.
  intros Hq Hok HQ. unfold uartstart.
  apply (wp_loop_state (fun _ s' => exists u, s' = drained u s /\ flow (k_uart s) u)
    (fun _ s' => Z.to_nat (ulen (k_uart s')))).
  - intros [] s' (u & -> & Hf). pose proof (fl_ok _ _ Hf) as Hu.
    apply wp_bind, wp_uget, wp_bind, wp_uget. change (k_uart (drained u s)) with u.
    rewrite uempty_spec by done. destruct (Z.eqb_spec (ulen u) 0); [by apply wp_ret, HQ|].
    pose proof (ulen_bound u).
    apply wp_bind. unfold tx_idle. apply wp_bind, wp_uget. change (k_uart (drained u s)) with u.
    destruct (uart_busy u) as [|b].
    + apply wp_ret. cbn [negb]. apply wp_bind, wp_uget, wp_bind, wp_uset.
      change (k_uart (drained u s)) with u. apply wp_bind.
      eapply wp_done; [by eapply (wakeup_running me q), running_uart, drained_running|].
      apply wp_bind, wp_uset. apply wp_ret.
      set (c := uart_tx_buf u !!! _). set (u' := set_uart_busy _ _). split.
      * exists u'. split; [|apply (flow_send _ u); [done|lia]].
        change (set_k_uart u' (woken ChanUart me (drained u s)) = drained u' s).
        apply (drained_more u u' s (u8 c)); [apply Hf|reflexivity].
      * change (ulen (upop u) < ulen u)%nat || change (Z.to_nat (ulen (upop u)) < Z.to_nat (ulen u))%nat.
        destruct (upop_queue u Hu ltac:(lia)) as (_ & _ & -> & _). lia.
    + apply wp_bind, wp_uset, wp_ret. cbn [negb]. apply wp_ret.
      change (set_k_uart (set_uart_busy b (k_uart (drained u s))) (drained u s)) with (drained (set_uart_busy b u) s).
      by apply HQ, flow_busy.
  - exists (k_uart s). split; [|by apply flow_refl]. unfold drained. rewrite decide_True by done. by destruct s.
  - pose proof (uo_len _ Hok). unfold UART_TX_BUF_SIZE in *. lia.
Qed.

(** The body of the loop in which [uartputc] waits for room. *)
Definition putc_wait : unit -> K (unit + unit) := fun _ =>
  b <- uget (fun u => uart_tx_w u =? u64 (uart_tx_r u + UART_TX_BUF_SIZE)) ;;
  if b then sleep ChanUart uart_lockL ;; ret (inl tt) else ret (inr tt).

(** What it does once there is room. *)
Definition putc_end (c : Z) : K unit :=
  uset (fun u => set_uart_tx_buf (<[Z.to_nat (uart_tx_w u mod UART_TX_BUF_SIZE) := u8 c]> (uart_tx_buf u)) u) ;;
  uset (fun u => set_uart_tx_w (u64 (uart_tx_w u + 1)) u) ;;
  uartstart ;;
  release uart_lockL.

(** Process [me] is about to print, and the ring is well formed. *)
Record printing (s : kernel) : Prop := {
  pr_run : running me q s;
  pr_free : uart_tx_lock (k_uart s) = false;
  pr_ok : uart_ok (k_uart s);
}.

(** The line [u] after the byte [c] was given to the driver in state [s]. *)
Record given_one (c : Z) (s : kernel) (u : uart) : Prop := {
  go_ok : uart_ok u;
  go_given : given u = given (k_uart s) ++ [u8 c];
  go_sent : uart_sent (k_uart s) `prefix_of` uart_sent u;
  go_rx : uart_rx u = uart_rx (k_uart s);
  go_free : uart_tx_lock u = false;
}.

Lemma putc_ends c s : printing s -> ulen (k_uart s) < UART_TX_BUF_SIZE ->
  exists u, putc_end c (locked uart_lockL s) = Done tt (drained u s) /\ given_one c s u.
Proof using.
  intros [Hr Hl Hok] Hlt. pose proof (rn_cpu _ _ _ Hr) as Hc.
  enough (wp (putc_end c) (locked uart_lockL s) (fun _ s' => exists u, s' = drained u s /\ given_one c s u)) as ([] & s' & Hrun & u & -> & HQ) by by exists u.
  set (s1 := locked uart_lockL s).
  assert (Hr1 : running me q s1) by (apply (running_update me q uart_lockL always), running_push, Hr).
  set (u1 := set_uart_tx_lock true (k_uart s)).
  assert (Hu1 : k_uart s1 = u1) by done.
  assert (Hok1 : uart_ok u1) by by destruct Hok.
  unfold putc_end. apply wp_bind, wp_uset, wp_bind, wp_uset. cbn [k_uart set_k_uart]. rewrite Hu1.
  destruct (uput_queue c u1 Hok1 Hlt) as (Hok2 & Hq2 & Hl2).
  apply wp_bind. eapply wp_uartstart; [by apply running_uart, running_uart|exact Hok2|].
  intros u Hf. change (k_uart (set_k_uart _ (set_k_uart _ s1))) with (uput c u1) in Hf.
  destruct Hf as [Hfo Hfg Hfl Hfr Hfs]. set (s2 := set_k_uart _ (set_k_uart _ s1)).
  assert (Hc2 : k_cpu (drained u s2) = cpu_push (k_cpu s)) by (unfold drained; by case_decide).
  eapply wp_done; [apply (release_eq (lk := uart_lockL)); [rewrite Hc2; by apply cpu_push_ok|rewrite Hc2; destruct Hc; simpl; lia|exact Hfl]|].
  exists (set_uart_tx_lock false u). split.
  - unfold unlocked. rewrite Hc2, cpu_pop_push by done. unfold drained. change (uart_sent (k_uart s2)) with (uart_sent (k_uart s)).
    cbn [uart_sent set_uart_tx_lock]. case_decide; by destruct s as [? ? []].
  - constructor; [by destruct Hfo| |exact Hfs|exact Hfr|done].
    change (given (set_uart_tx_lock false u)) with (given u). rewrite Hfg. unfold given. rewrite Hq2. by rewrite app_assoc.
Qed.

Lemma putc_room s : printing s -> ulen (k_uart s) <> UART_TX_BUF_SIZE ->
  putc_wait tt (locked uart_lockL s) = Done (inr tt) (locked uart_lockL s).
Proof using.
  intros [Hr Hl Hok] Hne. unfold putc_wait. rewrite (bind_done _ _ _ _ _ (uget_eq _ _)).
  change (k_uart (locked uart_lockL s)) with (set_uart_tx_lock true (k_uart s)). rewrite ufull_spec by by destruct Hok.
  change (ulen (set_uart_tx_lock true (k_uart s))) with (ulen (k_uart s)). by replace (ulen (k_uart s) =? UART_TX_BUF_SIZE) with false by lia.
Qed.

Lemma putc_full s : printing s -> ulen (k_uart s) = UART_TX_BUF_SIZE -> noff (k_cpu s) = 0 ->
  exists k, putc_wait tt (locked uart_lockL s) = Switch (dozing ChanUart me s) k /\
    forall s2 q2, resumes me q2 s2 -> uart_tx_lock (k_uart s2) = false -> k s2 = Done (inl tt) (locked uart_lockL (returned me s s2)).
Proof using.
  intros [Hr Hl Hok] Hfull Hn. unfold putc_wait. rewrite (bind_done _ _ _ _ _ (uget_eq _ _)).
  change (k_uart (locked uart_lockL s)) with (set_uart_tx_lock true (k_uart s)). rewrite ufull_spec by by destruct Hok.
  change (ulen (set_uart_tx_lock true (k_uart s))) with (ulen (k_uart s)). replace (ulen (k_uart s) =? UART_TX_BUF_SIZE) with true by lia.
  destruct (sleep_section me q uart_lockL always ChanUart s Hr Hn I Hl) as (k & Ek & Hk). rewrite (bind_switch _ _ _ _ _ Ek).
  eexists. split; [done|]. intros s2 q2 Hres Hv. cbv beta. by rewrite (Hk s2 q2 Hres I Hv).
Qed.

(** ** Synchronous output *)

Lemma tx_wait s (Q : unit -> kernel -> Prop) :
  Q tt (set_k_uart (set_uart_busy 0 (k_uart s)) s) ->
  wp (loop (S (uart_busy (k_uart s))) (fun _ : unit =>
    idle <- tx_idle ;; ret (if (idle : bool) then inr tt else inl tt)) tt) s Q.
Proof using.
  intros HQ.
  apply (wp_loop_state (fun _ s' => exists n, s' = set_k_uart (set_uart_busy n (k_uart s)) s)
    (fun _ s' => uart_busy (k_uart s'))).
  - intros [] s' (n & ->). unfold tx_idle. apply wp_bind, wp_bind, wp_uget.
    cbn [k_uart set_k_uart uart_busy set_uart_busy]. destruct n as [|n].
    + apply wp_ret, wp_ret. exact HQ.
    + apply wp_bind, wp_uset, wp_ret, wp_ret. cbn [k_uart set_k_uart uart_busy set_uart_busy].
      split; [|lia]. by exists n.
  - exists (uart_busy (k_uart s)). by destruct s as [? ? ? ? ? ? ? ? ? ? ? ? ? ? []].
  - lia.
Qed.

(** The line after the bytes [cs] have been sent synchronously. *)
Definition sent_on (cs : list Z) (u u' : uart) : Prop :=
  uart_sent u' = uart_sent u ++ cs /\ uart_tx_lock u' = uart_tx_lock u /\
  uart_tx_buf u' = uart_tx_buf u /\ uart_tx_w u' = uart_tx_w u /\ uart_tx_r u' = uart_tx_r u /\
  uart_rx u' = uart_rx u /\ uart_conf u' = uart_conf u.

Lemma sent_on_nil u : sent_on [] u u.
Proof using. unfold sent_on. by rewrite app_nil_r. Qed.

Lemma sent_on_trans cs ds u u' u'' :
  sent_on cs u u' -> sent_on ds u' u'' -> sent_on (cs ++ ds) u u''.
Proof using.
  unfold sent_on. intros (H1&?&?&?&?&?&?) (G1&?&?&?&?&?&?). rewrite G1, H1, <-app_assoc.
  split_and!; congruence.
Qed.

Lemma wp_uartputc_sync c s (Q : unit -> kernel -> Prop) :
  cpu_ok (k_cpu s) ->
  (forall u, sent_on [u8 c] (k_uart s) u -> Q tt (set_k_uart u s)) ->
  wp (uartputc_sync c) s Q.
Proof using.
  intros Hc HQ. unfold uartputc_sync.
  apply wp_bind. eapply wp_done; [by apply push_off_eq|].
  apply wp_bind, wp_uget. apply wp_bind, tx_wait. apply wp_bind, wp_uset.
  cbn [k_uart set_k_uart set_k_cpu].
  eapply wp_done; [apply pop_off_eq; cbn [k_cpu set_k_uart set_k_cpu]|].
  - by apply cpu_push_ok.
  - destruct Hc. simpl. lia.
  - cbn [k_cpu set_k_uart set_k_cpu]. rewrite cpu_pop_push by done.
    match goal with |- Q tt (set_k_cpu _ (set_k_uart ?u _)) => specialize (HQ u) end.
    replace (set_k_cpu _ _) with (set_k_uart (set_uart_busy (tx_time (length (uart_sent (k_uart s))))
      (set_uart_sent (uart_sent (k_uart s) ++ [u8 c]) (set_uart_busy 0 (k_uart s)))) s)
      by by destruct s.
    by apply HQ.
Qed.
End uart.

(** ** Properties *)

(** What a call of [uartputc] does from [s] on, up to the time it has slept [rounds] times. *)
Fixpoint putc_spec (rounds : nat) (me : nat) (c : Z) (s : kernel) (o : outcome kernel unit) : Prop :=
  match rounds with
  | O => True
  | S rounds' => forall q, printing me q s ->
      if ulen (k_uart s) =? UART_TX_BUF_SIZE then
        noff (k_cpu s) = 0 -> exists k, o = Switch (dozing ChanUart me s) k /\
          forall s2 q2, resumes me q2 s2 -> uart_tx_lock (k_uart s2) = false -> putc_spec rounds' me c (returned me s s2) (k s2)
      else exists u, o = Done tt (drained me u s) /\ given_one c s u
  end.

Lemma putc_rounds {HF : Fuel} {HU : UartHw} me c rounds s :
  putc_spec rounds me c s (bind (loop rounds putc_wait tt) (fun _ => putc_end c) (locked uart_lockL s)).
Proof.
  revert s. induction rounds as [|rounds IH]; intros s; cbn [putc_spec]; [done|]. intros q Hp.
  destruct (Z.eqb_spec (ulen (k_uart s)) UART_TX_BUF_SIZE) as [Hfull|Hroom].
  - intros Hn. destruct (putc_full me q s Hp Hfull Hn) as (k & Ek & Hk). unfold bind at 1. cbn [loop]. rewrite (bind_switch _ _ _ _ _ Ek).
    eexists. split; [done|]. intros s2 q2 Hres Hv. cbv beta. rewrite (Hk s2 q2 Hres Hv). apply IH.
  - pose proof (uo_len _ (pr_ok _ _ _ Hp)). destruct (putc_ends me q c s Hp ltac:(lia)) as (u & E & Hu). exists u. split; [|done].
    by erewrite bind_done; [exact E|apply loop_last, (putc_room me q)].
Qed.


(** A full ring; and the ring with the last byte gone to the wire. *)
Definition full_uart : uart := set_uart_tx_w 32 (k_uart kernel0).
Definition eased_uart : uart := set_uart_tx_r 1 full_uart.
Definition uart_kernel (u : uart) : kernel := set_k_uart u (running_kernel 1 demo_proc 0).

Lemma ring_ok r w : 0 <= r <= w -> w <= r + UART_TX_BUF_SIZE -> w < 2 ^ 64 -> uart_ok (set_uart_tx_r r (set_uart_tx_w w (k_uart kernel0))).
Proof.
  intros Hr Hw Hlt. constructor; cbn [uart_tx_r uart_tx_w set_uart_tx_r set_uart_tx_w uart_tx_buf]; [reflexivity|lia|lia| |apply Forall_replicate; lia].
  unfold ulen. cbn [uart_tx_r uart_tx_w set_uart_tx_r set_uart_tx_w]. rewrite Z.mod_small by (unfold UART_TX_BUF_SIZE in *; lia). lia.
Qed.

Lemma resumes_uart me q u s : resumes me q s -> resumes me q (set_k_uart u s).
Proof. intros Hs. by eapply resumes_same. Qed.


(** *** Numbers *)

Definition digit_value (c : Z) : Z := if c <=? 57 then c - 48 else c - 87.

(** The number a list of digits stands for. *)
Definition value (base : Z) (cs : list Z) : Z :=
  foldr (fun c acc => digit_value c + base * acc) 0 (rev cs).

Definition signed_value (base : Z) (cs : list Z) : Z :=
  match cs with
  | 45 :: ds => - value base ds
  | _ => value base cs
  end.

Lemma digit_ok x :
  0 <= x < 16 -> digit_value (digit x) = x /\ 0 <= digit x < 256 /\ digit x <> 45.
Proof.
  intros Hx.
  assert (forallb (fun x => (digit_value (digit x) =? x) && (0 <=? digit x) && (digit x <? 256) &&
    negb (digit x =? 45)) (upto 16) = true) as Hall by by vm_compute.
  rewrite forallb_forall in Hall. specialize (Hall x).
  rewrite <-list_elem_of_In, elem_of_upto in Hall. specialize (Hall Hx). lia.
Qed.

Lemma int_digits_spec base n x :
  2 <= base <= 16 -> 0 <= x < base ^ Z.of_nat n ->
  let ds := int_digits n x base in
  foldr (fun c acc => digit_value c + base * acc) 0 ds = x /\
  Forall (fun c => 0 <= c < 256 /\ c <> 45) ds.
Proof.
  intros Hb. revert x. induction n as [|n IH]; intros x Hx; cbn [int_digits].
  - simpl in Hx. split; [simpl; lia|done].
  - pose proof (Z.mod_pos_bound x base ltac:(lia)).
    destruct (digit_ok (x mod base)) as (E & Hr & Hm); [lia|].
    assert (0 <= x / base < base ^ Z.of_nat n) as Hq.
    { split; [apply Z.div_pos; lia|]. apply Z.div_lt_upper_bound; [lia|].
      rewrite <-Z.pow_succ_r by lia. replace (Z.succ (Z.of_nat n)) with (Z.of_nat (S n)) by lia. apply Hx. }
    destruct (Z.eqb_spec (x / base) 0) as [Hz|Hz].
    + split; [|by constructor]. cbn [foldr]. rewrite E.
      rewrite (Z.div_mod x base) at 2 by lia. rewrite Hz. lia.
    + destruct (IH _ Hq) as [IH1 IH2]. split; [|by constructor].
      cbn [foldr]. rewrite IH1, E. rewrite (Z.div_mod x base) at 3 by lia. lia.
Qed.

Lemma int_digits_length base n x k :
  2 <= base -> 0 <= x < base ^ Z.of_nat (S k) -> (length (int_digits n x base) <= S k)%nat.
Proof.
  intros Hb. revert x k. induction n as [|n IH]; intros x k Hx; cbn [int_digits length]; [lia|].
  destruct (Z.eqb_spec (x / base) 0) as [Hz|Hz]; [simpl; lia|].
  destruct k as [|k].
  - change (Z.of_nat 1) with 1 in Hx. rewrite Z.pow_1_r in Hx. rewrite Z.div_small in Hz by lia. done.
  - apply le_n_S, IH. split; [apply Z.div_pos; lia|]. apply Z.div_lt_upper_bound; [lia|].
    rewrite <-Z.pow_succ_r by lia.
    replace (Z.succ (Z.of_nat (S k))) with (Z.of_nat (S (S k))) by lia. apply Hx.
Qed.

Lemma wp_consputs {HF : Fuel} {HU : UartHw} cs s (Q : unit -> kernel -> Prop) :
  cpu_ok (k_cpu s) -> Forall (fun c => 0 <= c < 256) cs ->
  (forall u, sent_on cs (k_uart s) u -> Q tt (set_k_uart u s)) ->
  wp (iter cs consputc) s Q.
Proof.
  revert s Q. induction cs as [|c cs IH]; intros s Q Hc Hcs HQ; cbn [iter].
  - apply wp_ret. replace s with (set_k_uart (k_uart s) s) by by destruct s.
    apply HQ, sent_on_nil.
  - apply Forall_cons in Hcs as [Hcb Hcs]. apply wp_bind. unfold consputc.
    replace (c =? BACKSPACE) with false by (unfold BACKSPACE; lia).
    apply wp_uartputc_sync; [done|]. intros u Hu. rewrite (uwrap_small 8) in Hu by lia.
    apply IH; [done|done|]. cbn [k_uart set_k_uart]. intros u' Hu'.
    change (set_k_uart u' (set_k_uart u s)) with (set_k_uart u' s).
    apply HQ. exact (sent_on_trans [c] cs _ u _ Hu Hu').
Qed.

(** [printint] prints the number: what it sends is a numeral for the
    argument, with a sign if asked for one, also for the smallest integer; and the numeral fits into its buffer
    of 16 characters in the bases the kernel uses. *)
Theorem printint_correct {HF : Fuel} {HU : UartHw} (xx base : Z) (sign : bool) (s : kernel) :
  cpu_ok (k_cpu s) -> - 2 ^ 31 <= xx < 2 ^ 31 -> 10 <= base <= 16 ->
  exists u cs, printint xx base sign s = Done tt (set_k_uart u s) /\
    uart_sent u = uart_sent (k_uart s) ++ cs /\ (length cs <= 16)%nat /\
    (if sign then signed_value base cs = xx else value base cs = xx mod 2 ^ 32).
Proof.
  intros Hc Hx Hb. unfold printint.
  set (neg := sign && (xx <? 0)). set (x := if neg then u32 (- xx) else u32 xx).
  set (ds := int_digits 32 x base).
  assert (Hxb : 0 <= x < 2 ^ 32) by (unfold x; destruct neg; apply (uwrap_bound 32); lia).
  assert (Hp : forall k, (1 <= k)%nat -> 2 ^ 32 <= 10 ^ Z.of_nat k -> 0 <= x < base ^ Z.of_nat k).
  { intros k Hk H10. pose proof (Z.pow_le_mono_l 10 base (Z.of_nat k) ltac:(lia)). lia. }
  destruct (int_digits_spec base 32 x) as [Hv Hd]; [lia|apply Hp; [lia|by compute]|].
  pose proof (int_digits_length base 32 x 9 ltac:(lia) (Hp 10%nat ltac:(lia) ltac:(by compute))) as Hlen.
  fold ds in Hv, Hd, Hlen.
  set (cs := rev (ds ++ if neg then [45] else [])).
  assert (Hcs : Forall (fun c => 0 <= c < 256) cs).
  { unfold cs. apply Forall_rev, Forall_app_2.
    - eapply Forall_impl; [exact Hd|]. by intros ? [? _].
    - destruct neg; repeat constructor; lia. }
  assert (wp (iter cs consputc) s (fun _ s' => exists u, s' = set_k_uart u s /\
    sent_on cs (k_uart s) u)) as ([] & s' & Hrun & u & -> & Hu).
  { apply wp_consputs; [done|done|]. intros u Hu. by exists u. }
  exists u, cs. split_and!; [done|apply Hu| |].
  - unfold cs. rewrite length_rev, length_app. clearbody ds neg. clear -Hlen.
    destruct neg; cbn [length]; lia.
  - assert (Hval : value base (rev ds) = x) by (unfold value; by rewrite rev_involutive).
    assert (Hns : signed_value base (rev ds) = value base (rev ds)).
    { unfold signed_value. destruct (rev ds) as [|c r] eqn:E; [done|].
      assert (c <> 45) as Hc45.
      { apply Forall_rev in Hd. rewrite E in Hd. by apply Forall_cons in Hd as [[_ ?] _]. }
      repeat (case_match; try done); lia. }
    clear Hp Hlen Hrun Hu Hcs Hv Hd. clearbody ds. unfold cs, x, neg in *. clear Hxb. clear x cs.
    revert Hval. destruct sign; cbn [andb].
    + destruct (Z.ltb_spec xx 0); intros Hval.
      * rewrite rev_app_distr. cbn [rev app signed_value]. rewrite Hval, uwrap_small by lia. lia.
      * rewrite app_nil_r, Hns, Hval, uwrap_small by lia. done.
    + intros Hval. rewrite app_nil_r, Hval. done.
Qed.

Lemma printint_correct_witness :
  let _ : Fuel := 1%nat in let _ : UartHw := fun _ => 3%nat in
  exists u cs, printint (- 2 ^ 31) 10 true kernel0 = Done tt (set_k_uart u kernel0) /\
    uart_sent u = [] ++ cs /\ signed_value 10 cs = - 2 ^ 31.
Proof.
  intros F U. destruct (printint_correct (- 2 ^ 31) 10 true kernel0) as (u & cs & H1 & H2 & _ & H3).
  - constructor; simpl; lia || done.
  - lia.
  - lia.
  - exists u, cs. split; [exact H1|]. split; [exact H2|exact H3].
Defined.
