(* ===== verification/Proc.v ===== *)
(** * Processes and threads: kernel/proc.c

    The process table, creation, exit and wait, memory growth, and the
    threads this kernel adds: [mythread_create] starts a process that shares
    the pages of its creator, [mythread_join] waits for one. *)

From S2P Require Import Prelude Params Memory Kalloc Vm Block State Sched Kcopy Uart Console.
From S2P Require Import Bio Log Fs File.
Import CString.

Definition MAX_THREADS : Z := 1024.
Definition MAX_FAMILIES : Z := 1024.

Definition ptget {A} (f : ptable -> A) : K A := getf ptL f.
Definition ptset (f : ptable -> ptable) : K unit := setf ptL f.

(** ** struct trapframe: offsets in its page *)
Definition TF_kernel_satp : Z := 0.
Definition TF_kernel_sp : Z := 8.
Definition TF_kernel_trap : Z := 16.
Definition TF_epc : Z := 24.
Definition TF_kernel_hartid : Z := 32.
Definition TF_ra : Z := 40.
Definition TF_sp : Z := 48.
(** [a0] to [a7] are consecutive. *)
Definition TF_a (n : Z) : Z := 112 + 8 * n.
Definition sizeof_trapframe : Z := 288.

Definition tf_get (p : nat) (off : Z) : K Z :=
  tf <- pget p p_trapframe ;; rd64 (tf + off).
Definition tf_set (p : nat) (off v : Z) : K unit :=
  tf <- pget p p_trapframe ;; wr64 (tf + off) v.

(** [safestrcpy(dst, src, sizeof(p->name))] for the arrays' bytes *)
Definition name_copy (dst src : list Z) : list Z :=
  read_bytes (safestrcpy (arrays dst src) 0 PGSIZE 16) 0 16.

(** The bytes of ../user/initcode, as the kernel embeds them. *)
Definition initcode : list Z :=
  [0x17; 0x05; 0x00; 0x00; 0x13; 0x05; 0x45; 0x02;
   0x97; 0x05; 0x00; 0x00; 0x93; 0x85; 0x35; 0x02;
   0x93; 0x08; 0x70; 0x00; 0x73; 0x00; 0x00; 0x00;
   0x93; 0x08; 0x20; 0x00; 0x73; 0x00; 0x00; 0x00;
   0xef; 0xf0; 0x9f; 0xff; 0x2f; 0x69; 0x6e; 0x69;
   0x74; 0x00; 0x00; 0x24; 0x00; 0x00; 0x00; 0x00;
   0x00; 0x00; 0x00; 0x00].

Definition procinit : K unit :=
  initlock pid_lockL ;;
  initlock wait_lockL ;;
  iter proc_ids (fun p =>
    initlock (p_lockL p) ;;
    pset p (set_p_state UNUSED) ;;
    pset p (set_p_kstack (KSTACK (Z.of_nat p)))).

Definition allocpid : K Z :=
  acquire pid_lockL ;;
  pid <- ptget nextpid ;;
  ptset (fun t => set_nextpid (i32 (nextpid t + 1)) t) ;;
  release pid_lockL ;;
  ret pid.

Section proc.
Context `{Fuel, UartHw, Image}.

Abbreviation kfree := (kfree img_end).
Abbreviation uvmunmap := (uvmunmap img_end).
Abbreviation uvmfree := (uvmfree img_end).
Abbreviation uvmalloc := (uvmalloc img_end).
Abbreviation uvmdealloc := (uvmdealloc img_end).
Abbreviation uvmcopy := (uvmcopy img_end).
Abbreviation copytable := (copytable img_end).

(** ** Page tables of processes *)

Definition proc_pagetable (p : nat) : K Z :=
  pagetable <- onmem uvmcreate ;;
  if pagetable =? 0 then ret 0
  else
    r <- onmem (mappages pagetable TRAMPOLINE PGSIZE img_trampoline
                  (Z.lor PTE_R PTE_X)) ;;
    if r <? 0 then onmem (uvmfree pagetable 0) ;; ret 0
    else
      tf <- pget p p_trapframe ;;
      r <- onmem (mappages pagetable TRAPFRAME PGSIZE tf (Z.lor PTE_R PTE_W)) ;;
      if r <? 0 then
        onmem (uvmunmap pagetable TRAMPOLINE 1 false) ;;
        onmem (uvmfree pagetable 0) ;;
        ret 0
      else ret pagetable.

Definition proc_freepagetable (pagetable sz : Z) : K unit :=
  onmem (uvmunmap pagetable TRAMPOLINE 1 false) ;;
  onmem (uvmunmap pagetable TRAPFRAME 1 false) ;;
  onmem (uvmfree pagetable sz).

Definition freeproc (p : nat) : K unit :=
  tf <- pget p p_trapframe ;;
  when (negb (tf =? 0)) (onmem (kfree tf)) ;;
  pset p (set_p_trapframe 0) ;;
  pagetable <- pget p p_pagetable ;;
  isthread <- pget p p_isthread ;;
  when (negb (pagetable =? 0) && (isthread =? 0)) (
    sz <- pget p p_sz ;;
    proc_freepagetable pagetable sz) ;;
  pset p (set_p_pagetable 0) ;;
  pset p (set_p_sz 0) ;;
  pset p (set_p_pid 0) ;;
  pset p (set_p_parent None) ;;
  pset p (fun q => set_p_name (<[0%nat := 0]> (p_name q)) q) ;;
  pset p (set_p_chan None) ;;
  pset p (set_p_killed 0) ;;
  pset p (set_p_xstate 0) ;;
  pset p (set_p_state UNUSED).

Definition allocproc : K (option nat) :=
  r <- scan proc_ids (fun p =>
    acquire (p_lockL p) ;;
    st <- pget p p_state ;;
    if bool_decide (st = UNUSED) then ret (Some p)
    else release (p_lockL p) ;; ret None) ;;
  match r with
  | None => ret None
  | Some p =>
      pid <- allocpid ;;
      pset p (set_p_pid pid) ;;
      pset p (set_p_state USED) ;;
      tf <- onmem kalloc ;;
      pset p (set_p_trapframe tf) ;;
      if tf =? 0 then
        freeproc p ;; release (p_lockL p) ;; ret None
      else
        pagetable <- proc_pagetable p ;;
        pset p (set_p_pagetable pagetable) ;;
        if pagetable =? 0 then
          freeproc p ;; release (p_lockL p) ;; ret None
        else
          kstack <- pget p p_kstack ;;
          pset p (set_p_context (Context' Forkret (kstack + PGSIZE))) ;;
          ret (Some p)
  end.

Definition userinit : K unit :=
  p <- allocproc ;;
  ptset (set_initproc p) ;;
  p <- deref p ;;
  pagetable <- pget p p_pagetable ;;
  onmem (uvmfirst pagetable initcode (Z.of_nat (length initcode))) ;;
  pset p (set_p_sz PGSIZE) ;;
  tf_set p TF_epc 0 ;;
  tf_set p TF_sp PGSIZE ;;
  pset p (fun q => set_p_name
    (name_copy (p_name q) (bytes_of_string "initcode")) q) ;;
  cwd <- namei (bytes_of_string "/") ;;
  pset p (set_p_cwd cwd) ;;
  pset p (set_p_state RUNNABLE) ;;
  release (p_lockL p).

(** ** Growing and shrinking *)

Definition growarg (n : Z) (p : nat) : K Z :=
  sz <- pget p p_sz ;;
  pagetable <- pget p p_pagetable ;;
  if 0 <? n then
    sz <- onmem (uvmalloc pagetable sz (u64 (sz + n)) PTE_W) ;;
    if sz =? 0 then ret (-1)
    else pset p (set_p_sz sz) ;; ret 0
  else if n <? 0 then
    sz <- onmem (uvmdealloc pagetable sz (u64 (sz + n))) ;;
    pset p (set_p_sz sz) ;; ret 0
  else pset p (set_p_sz sz) ;; ret 0.

Definition thread_at (i : Z) : K nat :=
  t <- ptget (fun t => threads t !!! Z.to_nat i) ;; deref t.

Definition mygrow (n : Z) : K Z :=
  c <- ptget currId ;;
  iter (upto c) (fun i =>
    t <- thread_at i ;;
    fid <- pget t p_fid ;;
    me <- myproc' ;;
    myfid <- pget me p_fid ;;
    when (fid =? myfid) (growarg n t ;; ret tt)) ;;
  ret 0.

Definition growproc (n : Z) : K Z :=
  p <- myproc' ;;
  sz <- pget p p_sz ;;
  pagetable <- pget p p_pagetable ;;
  if 0 <? n then
    sz <- onmem (uvmalloc pagetable sz (u64 (sz + n)) PTE_W) ;;
    if sz =? 0 then ret (-1)
    else pset p (set_p_sz sz) ;; ret 0
  else if n <? 0 then
    sz <- onmem (uvmdealloc pagetable sz (u64 (sz + n))) ;;
    pset p (set_p_sz sz) ;; ret 0
  else pset p (set_p_sz sz) ;; ret 0.

(** ** fork *)

(** [for(i = 0; i < NOFILE; i++) if(p->ofile[i]) np->ofile[i] = filedup(...)] *)
Definition dup_files (p np : nat) : K unit :=
  iter (seq 0 (Z.to_nat NOFILE)) (fun i =>
    f <- pget p (fun q => p_ofile q !!! i) ;;
    match f with
    | Some f =>
        f' <- filedup f ;;
        pset np (fun q => set_p_ofile (<[i := Some f']> (p_ofile q)) q)
    | None => ret tt
    end).

Definition dup_cwd (p np : nat) : K unit :=
  cwd <- pget p p_cwd ;;
  cwd <- deref cwd ;;
  ip <- idup cwd ;;
  pset np (set_p_cwd (Some ip)).

(** The end of [fork] and of [mythread_create]: the child gets its parent
    and becomes runnable. *)
Definition start_child (p np : nat) : K unit :=
  release (p_lockL np) ;;
  acquire wait_lockL ;;
  pset np (set_p_parent (Some p)) ;;
  release wait_lockL ;;
  acquire (p_lockL np) ;;
  pset np (set_p_state RUNNABLE) ;;
  release (p_lockL np).

Definition fork : K Z :=
  p <- myproc' ;;
  np <- allocproc ;;
  match np with
  | None => ret (-1)
  | Some np =>
      pt <- pget p p_pagetable ;;
      npt <- pget np p_pagetable ;;
      sz <- pget p p_sz ;;
      r <- onmem (uvmcopy pt npt sz) ;;
      if r <? 0 then
        freeproc np ;; release (p_lockL np) ;; ret (-1)
      else
        pset np (set_p_sz sz) ;;
        tf <- pget p p_trapframe ;;
        ntf <- pget np p_trapframe ;;
        onmem (kmemmove ntf tf sizeof_trapframe) ;;
        tf_set np (TF_a 0) 0 ;;
        dup_files p np ;;
        dup_cwd p np ;;
        name <- pget p p_name ;;
        pset np (fun q => set_p_name (name_copy (p_name q) name) q) ;;
        pid <- pget np p_pid ;;
        start_child p np ;;
        ret pid
  end.

(** ** exit and wait *)

(** [wakeup(p)] for a pointer to a process; nobody sleeps on a null
    channel. *)
Definition wakeup_proc (p : option nat) : K unit :=
  match p with
  | Some p => wakeup (ChanProc p)
  | None => ret tt
  end.

Definition reparent (p : nat) : K unit :=
  iter proc_ids (fun pp =>
    parent <- pget pp p_parent ;;
    when (bool_decide (parent = Some p)) (
      init <- ptget initproc ;;
      pset pp (set_p_parent init) ;;
      wakeup_proc init)).

Definition close_files (p : nat) : K unit :=
  iter (seq 0 (Z.to_nat NOFILE)) (fun fd =>
    f <- pget p (fun q => p_ofile q !!! fd) ;;
    match f with
    | Some f =>
        fileclose f ;;
        pset p (fun q => set_p_ofile (<[fd := None]> (p_ofile q)) q)
    | None => ret tt
    end).

Definition exit {A} (status : Z) : K A :=
  p <- myproc' ;;
  init <- ptget initproc ;;
  panic_if (bool_decide (init = Some p)) "init exiting" ;;
  close_files p ;;
  begin_op ;;
  cwd <- pget p p_cwd ;;
  cwd <- deref cwd ;;
  iput cwd ;;
  end_op ;;
  pset p (set_p_cwd None) ;;
  acquire wait_lockL ;;
  reparent p ;;
  parent <- pget p p_parent ;;
  wakeup_proc parent ;;
  acquire (p_lockL p) ;;
  pset p (set_p_xstate status) ;;
  pset p (set_p_state ZOMBIE) ;;
  release wait_lockL ;;
  sched ;;
  panic ("sched running" +:+ nl).

(** One scan of the table: [inr r] when [wait] returns [r], [inl havekids]
    otherwise. *)
Definition wait_scan (p : nat) (addr : Z) : K (bool + Z) :=
  loop (S (Z.to_nat NPROC)) (fun '(pp, havekids) =>
    if (pp <? Z.to_nat NPROC)%nat then
      parent <- pget pp p_parent ;;
      if bool_decide (parent = Some p) then
        acquire (p_lockL pp) ;;
        st <- pget pp p_state ;;
        if bool_decide (st = ZOMBIE) then
          pid <- pget pp p_pid ;;
          e <- (if negb (addr =? 0) then
            pagetable <- pget p p_pagetable ;;
            xstate <- pget pp p_xstate ;;
            onmem (copyout pagetable addr (le_bytes 4 xstate))
          else ret 0) ;;
          if e <? 0 then
            release (p_lockL pp) ;; release wait_lockL ;; ret (inr (inr (-1)))
          else
            freeproc pp ;;
            release (p_lockL pp) ;;
            release wait_lockL ;;
            ret (inr (inr pid))
        else release (p_lockL pp) ;; ret (inl (S pp, true))
      else ret (inl (S pp, havekids))
    else ret (inr (inl havekids))) (0%nat, false).

Definition wait (addr : Z) : K Z :=
  p <- myproc' ;;
  acquire wait_lockL ;;
  loop (S fuel) (fun _ =>
    r <- wait_scan p addr ;;
    match r with
    | inr r => ret (inr r)
    | inl havekids =>
        k <- (if negb havekids then ret 1 else killed p) ;;
        if negb (k =? 0) then release wait_lockL ;; ret (inr (-1))
        else sleep (ChanProc p) wait_lockL ;; ret (inl tt)
    end) tt.

(** ** Threads *)

Definition spoon (arg : Z) : K Z :=
  printf ("In spoon system call with argument %p" +:+ nl) [PPtr arg] ;; ret 0.

Definition mythread_create (arg1 arg2 : Z) : K Z :=
  p <- myproc' ;;
  pset p (set_p_isthread 1) ;;
  np <- allocproc ;;
  match np with
  | None =>
      printf ("error allocating space for new process" +:+ nl) [] ;; ret (u64 (-1))
  | Some np =>
      pset np (set_p_isthread 1) ;;
      pid <- pget p p_pid ;;
      fams <- ptget families ;;
      when (negb (existsb (fun f => f =? pid) fams)) (
        ptset (fun t => set_families (<[Z.to_nat (currFid t) := pid]> (families t)) t) ;;
        c <- ptget currFid ;;
        pset p (set_p_fid c) ;;
        ptset (fun t => set_currFid (i32 (currFid t + 1)) t)) ;;
      fid <- pget p p_fid ;;
      pset np (set_p_fid fid) ;;
      pt <- pget p p_pagetable ;;
      npt <- pget np p_pagetable ;;
      sz <- pget p p_sz ;;
      r <- onmem (copytable pt npt sz) ;;
      if r <? 0 then
        printf ("error copying pagetable" +:+ nl) [] ;;
        freeproc np ;; release (p_lockL np) ;; ret (u64 (-1))
      else
        newsize <- onmem (uvmalloc npt sz (u64 (sz + PGSIZE)) (Z.lor PTE_W PTE_R)) ;;
        if newsize =? 0 then
          printf ("ERROR ALLOCATING SPACE FOR STACK" +:+ nl) [] ;;
          freeproc np ;; ret (u64 (-1))
        else
          pset np (set_p_sz newsize) ;;
          tf_set np TF_sp newsize ;;
          tf_set np TF_epc arg2 ;;
          tf_set np (TF_a 0) (u64 arg1) ;;
          tf_set np TF_ra 0 ;;
          ptset (fun t => set_threads (<[Z.to_nat (currId t) := Some np]> (threads t)) t) ;;
          ptset (fun t => set_currId (i32 (currId t + 1)) t) ;;
          ptset (fun t => set_running (i32 (running t + 1)) t) ;;
          dup_files p np ;;
          dup_cwd p np ;;
          n <- ptget running ;;
          when (MAX_THREADS <=? n) (
            printf ("It is a design decision to save resources/memory to max out the number of threads running on a single process at a time at 1,024" +:+ nl +:+ " Please use less threads") []) ;;
          start_child p np ;;
          ret 0
  end.

Definition mythread_join : K Z :=
  wait 0 ;;
  ptset (fun t => set_running (i32 (running t - 1)) t) ;;
  ptset (fun t => set_joined (i32 (joined t + 1)) t) ;;
  n <- ptget running ;;
  when (n =? 0) (
    c <- ptget currId ;;
    iter (upto (c - 1)) (fun i =>
      p <- thread_at i ;;
      pset p (set_p_isthread 0) ;;
      freeproc p) ;;
    ptset (set_currId 0) ;;
    ptset (set_joined 0) ;;
    ptset (set_currFid 0)) ;;
  ret 0.

End proc.
