(* ===== verification/ProcLife.v ===== *)
(** * The life of a process: freeproc, wait and exit of kernel/proc.c

    How a process ends: [exit] makes it a zombie and wakes its parent, whose [wait] takes the status, gives the memory
    back and frees the entry of the table. *)

From S2P Require Import Prelude Params Memory Kalloc Vm VmSpec UserCopy AddressSpace VmFree VmGrow ProcMem Block State Sched SchedSpec Quiet Sleeping Kcopy.
From S2P Require Import Uart Console Bio Log Fs File Proc.
Import CString.

(** A path with two parts runs the first, then the second. *)
Lemma wp_bind_split {S A B} (m : M S A) (f : A -> M S B) s (Q : B -> S -> Prop) : wp (bind m f) s Q -> wp m s (fun a s1 => wp (f a) s1 Q).
Proof.
  intros (b & s' & E & HQ). unfold bind in E. destruct (m s) as [a s1| | |] eqn:Em; cbn [obind] in E; try done.
  exists a, s1. split; [done|]. by exists b, s'.
Qed.

(** ** freeproc *)

(** An entry of the table after [freeproc]. *)
Definition freed (z : proc) : proc :=
  set_p_state UNUSED (set_p_xstate 0 (set_p_killed 0 (set_p_chan None (set_p_name (<[0%nat := 0]> (p_name z))
    (set_p_parent None (set_p_pid 0 (set_p_sz 0 (set_p_pagetable 0 (set_p_trapframe 0 z))))))))).

Lemma on_procs_mem f m s : on_procs f (set_k_mem m s) = set_k_mem m (on_procs f s).
Proof. done. Qed.

Lemma set_mem_mem m m' s : set_k_mem m (set_k_mem m' s) = set_k_mem m s.
Proof. done. Qed.

Section life.
Context `{HF : Fuel, HU : UartHw, HI : Image, HIok : !ImageOk}.

Lemma wp_freeproc s p z l T (Q : unit -> kernel -> Prop) : procs (k_pt s) !! p = Some z -> p_isthread z = 0 ->
  vm_inv img_end (k_mem s) l T -> proc_mem img_end (phys (k_mem s)) l T (p_pagetable z) (p_sz z) (p_trapframe z) ->
  (forall m', released img_end (p_pagetable z) (p_trapframe z :: upages (phys (k_mem s)) (p_pagetable z) 0 (npages (p_sz z))) (k_mem s) l T m' ->
     Q tt (set_k_mem m' (on_procs (alter freed p) s))) ->
  wp (freeproc p) s Q.
Proof using HIok.
  intros Hz Hth Hvm Hpm HQ. pose proof (@img_end_ok _ HIok) as Hend.
  assert (Htf : p_trapframe z <> 0). { destruct (pm_frame _ _ _ _ _ _ _ Hpm) as [F _]. pose proof (page_ok_nonzero _ Hend _ F). lia. }
  assert (Hpt : p_pagetable z <> 0).
  { pose proof (pt_page _ _ _ (vm_pt _ _ _ _ Hvm) _ _ _ (pm_root _ _ _ _ _ _ _ Hpm)) as [F _]. pose proof (page_ok_nonzero _ Hend _ F). lia. }
  pose proof (wp_proc_mem_free img_end Hend (k_mem s) l T (p_pagetable z) (p_sz z) (p_trapframe z)
    (fun _ m' => released img_end (p_pagetable z) (p_trapframe z :: upages (phys (k_mem s)) (p_pagetable z) 0 (npages (p_sz z))) (k_mem s) l T m')
    Hvm Hpm (fun _ H => H)) as Hmem.
  unfold freeproc. apply wp_bind. eapply wp_done; [by apply pget_eq|]. replace (p_trapframe z =? 0) with false by lia. cbn [negb when].
  apply wp_bind, wp_lift. apply wp_bind_split in Hmem. eapply wp_mono; [exact Hmem|]. clear Hmem. intros [] m1 Hmem. cbn [view memL update].
  apply wp_bind. eapply wp_done; [apply pset_eq|]. apply wp_bind. eapply wp_done; [apply pget_eq; cbn; by rewrite list_lookup_alter_eq, Hz|].
  apply wp_bind. eapply wp_done; [apply pget_eq; cbn; by rewrite list_lookup_alter_eq, Hz|]. cbn [p_pagetable p_isthread set_p_trapframe].
  replace (p_pagetable z =? 0) with false by lia. rewrite Hth. cbn [negb andb Z.eqb when].
  apply wp_bind. apply wp_bind. eapply wp_done; [apply pget_eq; cbn; by rewrite list_lookup_alter_eq, Hz|]. unfold proc_freepagetable.
  apply wp_bind, wp_lift. apply wp_bind_split in Hmem. eapply wp_mono; [exact Hmem|]. clear Hmem. intros [] m2 Hmem. cbn [view memL update].
  apply wp_bind, wp_lift. apply wp_bind_split in Hmem. eapply wp_mono; [exact Hmem|]. clear Hmem. intros [] m3 Hmem. cbn [view memL update].
  apply wp_lift. eapply wp_mono; [exact Hmem|]. clear Hmem. intros [] m4 Hrel. cbn [view memL update].
  do 8 (apply wp_bind; eapply wp_done; [apply pset_eq|]). eapply wp_done; [apply pset_eq|].
  rewrite !on_procs_mem, !set_mem_mem, !on_procs_compose. apply HQ in Hrel.
  match goal with |- Q tt ?s2 => match type of Hrel with Q tt ?s1 => replace s2 with s1; [exact Hrel|] end end.
  f_equal. apply on_procs_ext. rewrite !alter_compose_at. by apply list_alter_ext_at.
Qed.

(** The entry has no page table, or the table of a thread: only the trap frame is given back. *)
Lemma wp_freeproc_frame s p z l T (Q : unit -> kernel -> Prop) : procs (k_pt s) !! p = Some z -> p_pagetable z = 0 \/ p_isthread z <> 0 ->
  vm_inv img_end (k_mem s) l T -> page_ok img_end (p_trapframe z) -> p_trapframe z ∉ l -> T !! p_trapframe z = None ->
  (forall m', vm_inv img_end m' (p_trapframe z :: l) T -> same_outside (p_trapframe z) (phys (k_mem s)) (phys m') ->
     Q tt (set_k_mem m' (on_procs (alter freed p) s))) -> wp (freeproc p) s Q.
Proof using HIok.
  intros Hz Hno Hvm Htf Hl HT HQ. pose proof (@img_end_ok _ HIok) as Hend. pose proof (page_ok_nonzero _ Hend _ Htf) as Hnz.
  unfold freeproc. apply wp_bind. eapply wp_done; [by apply pget_eq|]. replace (p_trapframe z =? 0) with false by lia. cbn [negb when].
  apply wp_bind, wp_lift. eapply (wp_kfree_vm img_end Hend (k_mem s) l T); [done|done|done|done|]. intros m' Hvm' Hs. cbn [view memL update].
  apply wp_bind. eapply wp_done; [apply pset_eq|]. do 2 (apply wp_bind; eapply wp_done; [apply pget_eq; cbn; by rewrite list_lookup_alter_eq, Hz|]).
  cbn [p_pagetable p_isthread set_p_trapframe]. replace (negb (p_pagetable z =? 0) && (p_isthread z =? 0)) with false by (destruct Hno; lia). cbn [when].
  apply wp_bind, wp_ret. do 8 (apply wp_bind; eapply wp_done; [apply pset_eq|]). eapply wp_done; [apply pset_eq|].
  rewrite !on_procs_mem, !on_procs_compose. specialize (HQ m' Hvm' Hs).
  match goal with |- Q tt ?s2 => match type of HQ with Q tt ?s1 => replace s2 with s1; [exact HQ|] end end.
  f_equal. apply on_procs_ext. rewrite !alter_compose_at. by apply list_alter_ext_at.
Qed.

(** What [freeproc] gives back of [z]: the trap frame, and the user memory unless [z] is a thread. *)
Definition pages_of (m : mem) (z : proc) : list Z :=
  p_trapframe z :: (if p_isthread z =? 0 then upages m (p_pagetable z) 0 (npages (p_sz z)) else []).

(** The memory of [z]: an address space of its own, or, for a thread, a trap frame of its own. *)
Definition owned (m : mem) (l : list Z) (T : tables) (z : proc) : Prop :=
  if p_isthread z =? 0 then proc_mem img_end m l T (p_pagetable z) (p_sz z) (p_trapframe z)
  else page_ok img_end (p_trapframe z) /\ p_trapframe z ∉ l /\ T !! p_trapframe z = None.

(** The memory after [freeproc] of [z].  The pages of [z] are free, with the tables of its address space; the tables of a
    thread stay where they are, and only its trap frame is free. *)
Record reclaimed (z : proc) (m : kmem) (l : list Z) (T : tables) (m' : kmem) : Prop := {
  rc_inv : if p_isthread z =? 0
    then exists l' ts, vm_inv img_end m' l' (without (p_pagetable z) T) /\ tables_of T (p_pagetable z) ts /\ l' ≡ₚ pages_of (phys m) z ++ ts ++ l
    else vm_inv img_end m' (p_trapframe z :: l) T;
  rc_leaf r va : is_root T r -> (p_isthread z = 0 -> r <> p_pagetable z) -> 0 <= va < MAXVA -> leaf (phys m') r va = leaf (phys m) r va;
  rc_frame q x : T !! q = None -> q ∉ pages_of (phys m) z -> q mod PGSIZE = 0 -> q <= x < q + PGSIZE -> phys m' x = phys m x;
}.

Lemma reclaimed_lock b z m l T m' : reclaimed (set_p_lock b z) m l T m' -> reclaimed z m l T m'.
Proof using. intros [H1 H2 H3]. by constructor. Qed.

Lemma wp_freeproc_any s p z l T (Q : unit -> kernel -> Prop) : procs (k_pt s) !! p = Some z ->
  vm_inv img_end (k_mem s) l T -> owned (phys (k_mem s)) l T z ->
  (forall m', reclaimed z (k_mem s) l T m' -> Q tt (set_k_mem m' (on_procs (alter freed p) s))) -> wp (freeproc p) s Q.
Proof using HIok.
  intros Hz Hvm Hown HQ. unfold owned in Hown. destruct (Z.eqb_spec (p_isthread z) 0) as [Hth|Hth].
  - eapply (wp_freeproc s p z l T); [done..|]. intros m' [L1 L2 L3]. apply HQ. constructor; unfold pages_of; rewrite Hth; [exact L1| |exact L3].
    intros r va Hr Hne Hva. apply L2; [done|by apply Hne|done].
  - destruct Hown as (Htf & Hl & HT). eapply (wp_freeproc_frame s p z l T); [done|by right|done..|]. intros m' Hvm' Hs. apply HQ.
    constructor; unfold pages_of; replace (p_isthread z =? 0) with false by lia.
    + done.
    + intros r va Hr _ _. apply (leaf_agree img_end T); [apply Hvm| |done]. eapply agree_outside; [apply Hvm|apply Htf|done|done].
    + intros q x Hq Hnq Hal Hx. apply Hs. assert (q <> p_trapframe z) by (intros ->; apply Hnq; by left).
      destruct Htf as [Ha _]. apply Z.mod_divide in Ha as [k1 E1]; [|done]. apply Z.mod_divide in Hal as [k2 E2]; [|done].
      rewrite E1, E2 in *. unfold PGSIZE in *. lia.
Qed.

(** ** proc_pagetable *)

(** What [proc_pagetable] does from the memory [m]: a new address space with the trampoline and the trap frame [tf], or
    nothing. *)
Definition new_space (m : kmem) (l : list Z) (T : tables) (tf r : Z) (m' : kmem) : Prop :=
  (r <> 0 /\ exists l' T', made img_end r (high_map img_trampoline tf) m l T m' l' T') \/
  (r = 0 /\ exists l' T', given_back img_end m l T m' l' T').

Lemma given_back_refl m l T : vm_inv img_end m l T -> given_back img_end m l T m l T.
Proof using. by intros. Qed.

Lemma wp_proc_pagetable s p q l T (Q : Z -> kernel -> Prop) : procs (k_pt s) !! p = Some q -> vm_inv img_end (k_mem s) l T ->
  page_ok img_end (p_trapframe q) -> 0 <= img_trampoline < PHYSTOP -> img_trampoline mod PGSIZE = 0 ->
  (forall r m', new_space (k_mem s) l T (p_trapframe q) r m' -> Q r (set_k_mem m' s)) -> wp (proc_pagetable p) s Q.
Proof using HIok.
  intros Hq Hvm Htf Htr Hal HQ. pose proof (@img_end_ok _ HIok) as Hend. destruct high_pages as (T1 & T2 & T3 & T4 & T5).
  assert (0 <= TRAMPOLINE /\ TRAMPOLINE + PGSIZE <= MAXVA /\ TRAPFRAME + PGSIZE <= MAXVA) as (B1 & B2 & B3) by by compute.
  assert (Hfail : forall m' l' T', given_back img_end (k_mem s) l T m' l' T' -> Q 0 (set_k_mem m' s)) by (intros m' l' T' Hg; apply HQ; right; eauto).
  unfold proc_pagetable. apply wp_bind, wp_lift. eapply (wp_make_root img_end Hend (k_mem s) l T); [done| |].
  { apply wp_ret. by eapply Hfail, given_back_refl. }
  intros root m1 l1 T1' Hr Hm1. cbn [view memL update]. replace (root =? 0) with false by lia.
  apply wp_bind, wp_lift. eapply (wp_map_high img_end Hend root _ (k_mem s) l T m1 l1 T1' TRAMPOLINE); [exact Hm1|done|lia|lia|done|by compute|done|..]; cbn [view memL update].
  2:{ intros m2 l2 T2' Hm2. cbn [Z.ltb Z.compare]. apply wp_bind, wp_lift. eapply (wp_unmake img_end Hend root _ (k_mem s) l T m2 l2 T2'); [done|exact Hm2|done|].
      intros m3 l3 T3' Hg. apply wp_ret. rewrite set_mem_mem. by eapply Hfail. }
  intros m2 l2 T2' Hm2. fold (tramp_entry img_trampoline) in Hm2. fold (tramp_map img_trampoline) in Hm2. cbn [Z.ltb Z.compare].
  apply wp_bind. eapply wp_done; [by apply (pget_eq p _ _ q)|]. pose proof (page_ok_nonzero img_end Hend _ Htf) as Hnz.
  apply wp_bind, wp_lift. eapply (wp_map_high img_end Hend root _ (k_mem s) l T m2 l2 T2' TRAPFRAME); [exact Hm2|done|done|lia|destruct Htf; lia|by compute| |..]; cbn [view memL update].
  - intros vb Hvb. by rewrite tramp_map_high.
  - intros m3 l3 T3' Hm3. cbn [Z.ltb Z.compare]. apply wp_ret. rewrite !set_mem_mem. apply HQ. left. split; [done|]. by exists l3, T3'.
  - intros m3 l3 T3' Hm3. cbn [Z.ltb Z.compare].
    pose proof (wp_unmake_tramp img_end Hend img_trampoline root (k_mem s) l T m3 l3 T3' (fun _ m' => exists l' T', given_back img_end (k_mem s) l T m' l' T')
      Htr Hal Hvm Hm3 (fun m' l' T' H => ex_intro _ l' (ex_intro _ T' H))) as Hmem.
    apply wp_bind, wp_lift. apply wp_bind_split in Hmem. eapply wp_mono; [exact Hmem|]. clear Hmem. intros [] m4 Hmem. cbn [view memL update].
    apply wp_bind, wp_lift. eapply wp_mono; [exact Hmem|]. clear Hmem. intros [] m5 (l5 & T5' & Hg). cbn [view memL update].
    apply wp_ret. rewrite !set_mem_mem. by eapply Hfail.
Qed.

(** ** The status a parent gets *)

(** Process [q] may reap the zombie [z]: the memory that [freeproc] gives back is that of [z] and of nobody else. *)
Record reap_ok (s : kernel) (l : list Z) (T : tables) (q z : proc) : Prop := {
  ra_vm : vm_inv img_end (k_mem s) l T;
  ra_root : is_root T (p_pagetable q);
  ra_space : user_space (phys (k_mem s)) l T (p_pagetable q);
  ra_mem : owned (phys (k_mem s)) l T z;
  ra_other : p_isthread z = 0 -> p_pagetable q <> p_pagetable z;
  ra_apart va : 0 <= va -> user_ok (phys (k_mem s)) (p_pagetable q) va ->
    translate (phys (k_mem s)) (p_pagetable q) (PGROUNDDOWN va) ∉ pages_of (phys (k_mem s)) z;
}.

Lemma le_bytes_range n v : Forall (fun b => 0 <= b < 256) (le_bytes n v).
Proof using.
  revert v. induction n as [|n IH]; intros v; cbn [le_bytes]; [done|]. constructor; [|done]. apply Z.mod_pos_bound. lia.
Qed.

(** Stored in user memory, tables and free pages are as before. *)
Lemma stored_proc_mem m l T root va bs n m1 r sz tf : stored img_end m l T root va bs n m1 -> vm_inv img_end m l T ->
  proc_mem img_end (phys m) l T r sz tf ->
  proc_mem img_end (phys m1) l T r sz tf /\ upages (phys m1) r 0 (npages sz) = upages (phys m) r 0 (npages sz).
Proof using.
  intros [S1 S2 _ _ _] Hvm [H1 [Hsz Hleaf [Hok Hnd]] H3 H4 H5 H6 (F1 & F2 & F3 & F4)].
  assert (Hl : forall va, leaf (phys m1) r va = leaf (phys m) r va) by (intros vb; apply (leaf_agree img_end T); [apply Hvm|done|done]).
  destruct (upages_same (phys m) (phys m1) r 0 (npages sz)) as [Eus Eu]; [intros; apply Hl|]. split; [|done].
  constructor; rewrite ?Hl; try done.
  - constructor; [done|intros k Hk; rewrite Hl; by apply Hleaf|]. constructor; rewrite Eus; done.
  - intros vb Hvb. rewrite Hl. by apply H6.
  - by rewrite Eus.
Qed.

Lemma stored_owned m l T root va bs n m1 z : stored img_end m l T root va bs n m1 -> vm_inv img_end m l T ->
  owned (phys m) l T z -> owned (phys m1) l T z /\ pages_of (phys m1) z = pages_of (phys m) z.
Proof using.
  intros Hst Hvm. unfold owned, pages_of. destruct (p_isthread z =? 0); [|done]. intros Hpm.
  destruct (stored_proc_mem _ _ _ _ _ _ _ _ _ _ _ Hst Hvm Hpm) as [H1 ->]. done.
Qed.

(** The address spaces map what they mapped. *)
Definition same_leaves (T : tables) (m m' : kmem) : Prop := forall r va, is_root T r -> leaf (phys m') r va = leaf (phys m) r va.

Lemma stored_leaves m l T root va bs n m1 : stored img_end m l T root va bs n m1 -> vm_inv img_end m l T -> same_leaves T m m1.
Proof using. intros [S1 S2 _ _ _] Hvm r vb Hr. apply (leaf_agree img_end T); [apply Hvm|done|done]. Qed.

(** The bytes the parent was given are still there when the child's memory is gone. *)
Lemma status_kept s l T q z va bs m1 m2 : reap_ok s l T q z -> 0 <= va -> stored img_end (k_mem s) l T (p_pagetable q) va bs (length bs) m1 ->
  reclaimed z m1 l T m2 -> pages_of (phys m1) z = pages_of (phys (k_mem s)) z ->
  user_bytes (phys m2) (p_pagetable q) va (length bs) = bs.
Proof using.
  intros [R1 R2 R3 R4 R6 R7] Hva [S1 S2 S3 S4 S5] [_ L2 L3] Eus.
  assert (Htr : forall vb, 0 <= vb -> translate (phys m2) (p_pagetable q) vb = translate (phys (k_mem s)) (p_pagetable q) vb).
  { intros vb Hvb. transitivity (translate (phys m1) (p_pagetable q) vb); [|by eapply (translate_agree img_end)].
    unfold translate. destruct (Z.leb_spec MAXVA vb); [done|]. by rewrite L2. }
  assert (Htr1 : forall vb, translate (phys m1) (p_pagetable q) vb = translate (phys (k_mem s)) (p_pagetable q) vb) by (intros; by eapply (translate_agree img_end)).
  apply list_eq. intros i. destruct (decide (i < length bs)%nat) as [Hlt|Hge].
  2:{ rewrite !lookup_ge_None_2; [done|lia|]. unfold user_bytes, read_bytes. rewrite length_map, length_seq. lia. }
  rewrite (list_lookup_lookup_total_lt bs i Hlt). unfold user_bytes, read_bytes.
  rewrite list_lookup_fmap, lookup_seq_lt by done. cbn [fmap option_fmap option_map Nat.add]. f_equal.
  assert (Hi : user_ok (phys (k_mem s)) (p_pagetable q) (va + Z.of_nat i)) by (apply S3; lia).
  specialize (S4 (va + Z.of_nat i) ltac:(lia) Hi). destruct (in_range_spec va (Z.of_nat (length bs)) (va + Z.of_nat i)) as [_|]; [|lia].
  replace (Z.to_nat (va + Z.of_nat i - va)) with i in S4 by lia. rewrite <-S4. unfold user_byte, user_addr.
  destruct (PGROUNDDOWN_bound (va + Z.of_nat i)) as [P1 P2]. assert (P3 : 0 <= PGROUNDDOWN (va + Z.of_nat i)) by page_lia.
  rewrite Htr, Htr1 by done. destruct (us_frame _ _ _ _ R3 (PGROUNDDOWN (va + Z.of_nat i)) P3 Hi) as [U1 U2].
  apply (L3 (translate (phys (k_mem s)) (p_pagetable q) (PGROUNDDOWN (va + Z.of_nat i)))); [done| |apply translate_aligned|unfold PGSIZE in *; lia].
  rewrite Eus. apply R7; [lia|done].
Qed.

(** ** wait *)

(** What [wait] does with a zombie, with both locks held. *)
Definition reap (p pp : nat) (addr : Z) : K (nat * bool + (bool + Z)) :=
  pid <- pget pp p_pid ;;
  e <- (if negb (addr =? 0) then
    pagetable <- pget p p_pagetable ;;
    xstate <- pget pp p_xstate ;;
    onmem (copyout pagetable addr (le_bytes 4 xstate))
  else ret 0) ;;
  if e <? 0 then
    release (p_lockL pp) ;; release wait_lockL ;; ret (inr (inr (-1)))
  else
    freeproc pp ;;
    release (p_lockL pp) ;;
    release wait_lockL ;;
    ret (inr (inr pid)).

(** The parent [q] has reaped [z], or its buffer is not accessible.  Of a process every page is free again, with the tables
    of its address space; of a thread only the trap frame is, and its tables are where they were.  No other address space
    has changed. *)
Definition reaped (s : kernel) (l : list Z) (T : tables) (q z : proc) (pp : nat) (addr r : Z) (s' : kernel) : Prop :=
  (exists m', r = p_pid z /\ s' = set_k_mem m' (on_procs (alter freed pp) s) /\
     (if p_isthread z =? 0
      then exists l' ts, vm_inv img_end m' l' (without (p_pagetable z) T) /\ tables_of T (p_pagetable z) ts /\
             l' ≡ₚ pages_of (phys (k_mem s)) z ++ ts ++ l
      else vm_inv img_end m' (p_trapframe z :: l) T) /\
     (forall r va, is_root T r -> (p_isthread z = 0 -> r <> p_pagetable z) -> 0 <= va < MAXVA ->
        leaf (phys m') r va = leaf (phys (k_mem s)) r va) /\
     (addr <> 0 -> user_bytes (phys m') (p_pagetable q) addr 4 = le_bytes 4 (p_xstate z))) \/
  (exists m' i, r = -1 /\ s' = set_k_mem m' s /\ vm_inv img_end m' l T /\ addr <> 0 /\
     0 <= i < 4 /\ ~ user_ok (phys (k_mem s)) (p_pagetable q) (addr + i)).

(** The state with the lock of the table and that of an entry. *)
Definition held_by_wait (pp : nat) (s : kernel) : kernel := locked (p_lockL pp) (locked wait_lockL s).

Lemma held_mem pp m s : set_k_mem m (held_by_wait pp s) = held_by_wait pp (set_k_mem m s).
Proof using. done. Qed.

Lemma locked_wait_procs f s : on_procs f (locked wait_lockL s) = locked wait_lockL (on_procs f s).
Proof using. by destruct s as [? ? []]. Qed.

Lemma release_wait s : cpu_ok (k_cpu s) -> view wait_lockL s = false -> release wait_lockL (locked wait_lockL s) = Done tt s.
Proof using.
  intros Hc Hl. rewrite (release_eq (lk := wait_lockL)); [by rewrite (unlocked_locked (lk := wait_lockL))|by apply (locked_ok (lk := wait_lockL))|by apply (locked_noff (lk := wait_lockL))|done].
Qed.

(** Both locks are given back, with what was done to the entry. *)
Lemma wp_release_both pp f s z {R} (r : R) (Q : R -> kernel -> Prop) : cpu_ok (k_cpu s) -> view wait_lockL s = false ->
  procs (k_pt s) !! pp = Some z -> p_lock z = false -> lock_free f -> Q r (on_procs (alter f pp) s) ->
  wp (release (p_lockL pp) ;; release wait_lockL ;; ret r) (on_procs (alter f pp) (held_by_wait pp s)) Q.
Proof using.
  intros Hc Hl Hz Hlk Hf HQ. apply wp_bind. eapply wp_done.
  { apply (proc_section_eq pp f (locked wait_lockL s) z); [by apply (locked_ok (lk := wait_lockL))|done|done|done]. }
  rewrite locked_wait_procs. apply wp_bind. eapply wp_done; [apply release_wait; done|]. by apply wp_ret.
Qed.

Lemma held_lookup pp s j x : procs (k_pt s) !! j = Some x ->
  procs (k_pt (held_by_wait pp s)) !! j = Some (if decide (j = pp) then set_p_lock true x else x).
Proof using.
  intros Hx. unfold held_by_wait. case_decide as E.
  - subst j. by apply locked_proc.
  - unfold locked at 1. rewrite p_lock_update. cbn. by rewrite list_lookup_alter_ne.
Qed.

Lemma lock_free_freed : lock_free freed.
Proof using. done. Qed.

Lemma wp_reap me q pp z l T addr s : cpu_ok (k_cpu s) -> view wait_lockL s = false ->
  procs (k_pt s) !! me = Some q -> procs (k_pt s) !! pp = Some z -> p_lock z = false -> 0 <= addr -> reap_ok s l T q z ->
  wp (reap me pp addr) (held_by_wait pp s) (fun c s' => exists r, c = inr (inr r) /\ reaped s l T q z pp addr r s').
Proof using HIok.
  intros Hc Hl Hq Hz Hlk Ha Hra. pose proof Hra as [R1 R2 R3 R5 R6 R7]. pose proof (@img_end_ok _ HIok) as Hend.
  pose proof (held_lookup pp s pp z Hz) as Hz1. rewrite decide_True in Hz1 by done. pose proof (held_lookup pp s me q Hq) as Hq1.
  unfold reap. apply wp_bind. eapply wp_done; [by apply pget_eq|]. apply wp_bind.
  (* the memory after the status is written, if it is *)
  apply (wp_mono _ _ (fun e s1 => exists m1, s1 = set_k_mem m1 (held_by_wait pp s) /\ vm_inv img_end m1 l T /\
    ((e = 0 /\ owned (phys m1) l T z /\ pages_of (phys m1) z = pages_of (phys (k_mem s)) z /\
      same_leaves T (k_mem s) m1 /\
      (addr <> 0 -> stored img_end (k_mem s) l T (p_pagetable q) addr (le_bytes 4 (p_xstate z)) 4 m1)) \/
     (e = -1 /\ addr <> 0 /\ exists i, 0 <= i < 4 /\ ~ user_ok (phys (k_mem s)) (p_pagetable q) (addr + i))))).
  - destruct (Z.eqb_spec addr 0) as [->|Hne]; cbn [negb].
    { apply wp_ret. exists (k_mem s). split; [by destruct s as [? ? []]|]. split; [done|]. left. split; [done|]. split; [done|]. split; [done|]. split; [|done]. by intros r va _. }
    apply wp_bind. eapply wp_done; [by apply (pget_eq me _ _ _ Hq1)|]. apply wp_bind. eapply wp_done; [by apply (pget_eq pp _ _ _ Hz1)|].
    replace (p_pagetable (if decide (me = pp) then set_p_lock true q else q)) with (p_pagetable q) by (by case_decide). change (p_xstate (set_p_lock true z)) with (p_xstate z).
    apply wp_lift. eapply (wp_copyout img_end Hend (k_mem s) l T); [done|done|done|done|apply le_bytes_range|..].
    + intros m1 Hst. rewrite le_bytes_length in Hst. exists m1. split; [done|]. split; [apply Hst|]. left. split; [done|].
      destruct (stored_owned _ _ _ _ _ _ _ _ _ Hst R1 R5) as [Hpm E]. split; [done|]. split; [done|]. split; [|done]. by eapply stored_leaves.
    + intros m1 n i Hst Hi Hno. rewrite le_bytes_length in Hi. exists m1. split; [done|]. split; [apply Hst|]. right. split; [done|]. split; [done|]. exists i. split; [lia|done].
  - intros e s1 (m1 & -> & Hvm1 & [(-> & Hpm & Eus & Hsl & Hst)|(-> & Hne & i & Hi & Hno)]); cbn [Z.ltb Z.compare]; rewrite held_mem.
    + apply wp_bind. eapply (wp_freeproc_any (held_by_wait pp (set_k_mem m1 s)) pp (set_p_lock true z) l T); [by apply (held_lookup pp (set_k_mem m1 s) pp z) in Hz; rewrite decide_True in Hz by done|done|done|].
      intros m2 Hrel. apply reclaimed_lock in Hrel. change (reclaimed z m1 l T m2) in Hrel. change (set_k_mem m2 (on_procs (alter freed pp) (held_by_wait pp (set_k_mem m1 s)))) with (on_procs (alter freed pp) (held_by_wait pp (set_k_mem m2 s))).
      eapply wp_release_both; [done|done|exact Hz|done|apply lock_free_freed|]. eexists. split; [done|]. left. exists m2. split; [done|]. split; [done|]. split; [|split].
      * pose proof (rc_inv _ _ _ _ _ Hrel) as L. by rewrite Eus in L.
      * intros r va Hr Hne Hva. rewrite (rc_leaf _ _ _ _ _ Hrel) by done. by apply Hsl.
      * intros Hne. replace 4%nat with (length (le_bytes 4 (p_xstate z))) by done. eapply status_kept; [done|done| |exact Hrel|done]. rewrite le_bytes_length. by apply Hst.
    + replace (held_by_wait pp (set_k_mem m1 s)) with (on_procs (alter id pp) (held_by_wait pp (set_k_mem m1 s))) by (apply on_procs_id, alter_id_eq).
      eapply wp_release_both; [done|done|exact Hz|done|apply lock_free_id|]. rewrite on_procs_id by apply alter_id_eq. eexists. split; [done|].
      right. by exists m1, i.
Qed.

(** ** The scan of the table *)

Definition child_of (me : nat) (z : proc) : bool := bool_decide (p_parent z = Some me).
Definition zombie_of (me : nat) (z : proc) : Prop := child_of me z = true /\ p_state z = ZOMBIE.

(** The first child that is a zombie. *)
Definition find_zombie (me : nat) (ps : list proc) : option (nat * proc) := list_find (zombie_of me) ps.
Definition has_child (me : nat) (ps : list proc) : bool := existsb (child_of me) ps.

Lemma has_child_snoc me ps z : has_child me (ps ++ [z]) = has_child me ps || child_of me z.
Proof using. unfold has_child. rewrite existsb_app. cbn. by rewrite orb_false_r. Qed.

(** A critical section on an entry that changes nothing. *)
Lemma wp_release_entry pp s z {R} (r : R) (Q : R -> kernel -> Prop) : cpu_ok (k_cpu s) -> procs (k_pt s) !! pp = Some z -> p_lock z = false ->
  Q r (locked wait_lockL s) -> wp (release (p_lockL pp) ;; ret r) (held_by_wait pp s) Q.
Proof using.
  intros Hc Hz Hl HQ. pose proof (proc_section_eq pp id (locked wait_lockL s) z) as E. rewrite !on_procs_id in E by apply alter_id_eq.
  apply wp_bind. eapply wp_done; [apply E; [by apply (locked_ok (lk := wait_lockL))|done|done|apply lock_free_id]|]. by apply wp_ret.
Qed.

(** The state of a scan before entry [pp]. *)
Definition scanning (me : nat) (s : kernel) (x : nat * bool) (s1 : kernel) : Prop :=
  s1 = locked wait_lockL s /\ (x.1 <= Z.to_nat NPROC)%nat /\
  (forall j z, (j < x.1)%nat -> procs (k_pt s) !! j = Some z -> ~ zombie_of me z) /\ x.2 = has_child me (take x.1 (procs (k_pt s))).

Lemma wp_wait_scan me addr s (Q : bool + Z -> kernel -> Prop) : cpu_ok (k_cpu s) -> all_unlocked s -> length (procs (k_pt s)) = Z.to_nat NPROC ->
  match find_zombie me (procs (k_pt s)) with
  | Some (pp, z) => wp (reap me pp addr) (held_by_wait pp s) (fun c s' => exists r, c = inr (inr r) /\ Q (inr r) s')
  | None => Q (inl (has_child me (procs (k_pt s)))) (locked wait_lockL s)
  end -> wp (wait_scan me addr) (locked wait_lockL s) Q.
Proof using.
  intros Hc Hun Hlen HQ. unfold wait_scan.
  apply (wp_loop (scanning me s) (fun x => Z.to_nat NPROC - x.1)%nat).
  2:{ split; [done|]. split; [cbn; lia|]. split; [|done]. intros j z Hj. cbn in Hj. lia. }
  2:{ cbn [fst]. lia. }
  intros [pp hk] s1 (-> & Hpp & Hno & Ehk). cbn [fst snd] in *. subst hk. destruct (Nat.ltb_spec pp (Z.to_nat NPROC)) as [Hlt|Hge].
  2:{ apply wp_ret. assert (pp = Z.to_nat NPROC) as -> by lia. destruct (find_zombie me (procs (k_pt s))) as [[j z]|] eqn:Ef.
      - apply list_find_Some in Ef as (Hj & Hz & _). exfalso. apply (Hno j z); [|done|done]. rewrite <-Hlen. by eapply lookup_lt_Some.
      - by rewrite firstn_all2 by lia. }
  destruct (lookup_lt_is_Some_2 (procs (k_pt s)) pp) as [z Hz]; [lia|]. pose proof (Forall_lookup_1 _ _ _ _ Hun Hz) as Hlk. cbv beta in Hlk.
  assert (Hnext : ~ zombie_of me z -> scanning me s (S pp, has_child me (take pp (procs (k_pt s))) || child_of me z) (locked wait_lockL s)).
  { intros Hnz. split; [done|]. split; [cbn; lia|]. cbn [fst snd]. split; [|by rewrite (take_S_r _ _ _ Hz), has_child_snoc].
    intros j z' Hj Hz'. destruct (decide (j = pp)) as [->|]; [by simplify_eq|]. apply (Hno j z'); [lia|done]. }
  apply wp_bind. eapply wp_done; [by apply pget_eq|]. fold (child_of me z). destruct (child_of me z) eqn:Ech.
  2:{ apply wp_ret. rewrite orb_false_r in Hnext. split; [apply Hnext; intros [? _]; congruence|cbn; lia]. }
  apply wp_bind. eapply wp_done.
  { apply acquire_eq; [by apply (locked_ok (lk := wait_lockL))|]. by rewrite (p_lock_view pp _ z). }
  fold (held_by_wait pp s). pose proof (held_lookup pp s pp z Hz) as Hz1. rewrite decide_True in Hz1 by done.
  apply wp_bind. eapply wp_done; [by apply pget_eq|]. change (p_state (set_p_lock true z)) with (p_state z).
  destruct (bool_decide (p_state z = ZOMBIE)) eqn:Est.
  - apply bool_decide_eq_true in Est. assert (Ef : find_zombie me (procs (k_pt s)) = Some (pp, z)).
    { apply list_find_Some. split; [done|]. split; [done|]. intros j z' Hz' Hj. by apply (Hno j z'). }
    rewrite Ef in HQ. fold (reap me pp addr). eapply wp_mono; [exact HQ|]. by intros c s' (r & -> & HQr).
  - apply bool_decide_eq_false in Est. eapply wp_release_entry; [done|exact Hz|done|]. rewrite orb_true_r in Hnext.
    split; [apply Hnext; by intros [_ ?]|cbn; lia].
Qed.

(** ** One round of wait *)

Definition wait_round (p : nat) (addr : Z) : unit -> K (unit + Z) := fun _ =>
  r <- wait_scan p addr ;;
  match r with
  | inr r => ret (inr r)
  | inl havekids =>
      k <- (if negb havekids then ret 1 else killed p) ;;
      if negb (k =? 0) then release wait_lockL ;; ret (inr (-1))
      else sleep (ChanProc p) wait_lockL ;; ret (inl tt)
  end.

(** Process [me] runs, and no lock that [wait] takes is held. *)
Record waiting (me : nat) (q : proc) (s : kernel) : Prop := {
  wt_run : running me q s;
  wt_lock : wait_lock (k_pt s) = false;
}.

Lemma wait_eq me q addr s : waiting me q s -> wait addr s = loop (S fuel) (wait_round me addr) tt (locked wait_lockL s).
Proof using.
  intros [[H1 H2 H3 H4 H5] H6]. unfold wait. rewrite (bind_done _ _ _ _ _ (myproc'_eq s me H1 H2)).
  by rewrite (bind_done _ _ _ _ _ (acquire_eq (lk := wait_lockL) s H1 H6)).
Qed.

Lemma round_reaps me q addr s pp z l T : waiting me q s -> 0 <= addr -> find_zombie me (procs (k_pt s)) = Some (pp, z) -> reap_ok s l T q z ->
  exists r s', wait_round me addr tt (locked wait_lockL s) = Done (inr r) s' /\ reaped s l T q z pp addr r s'.
Proof using HIok.
  intros [[H1 H2 H3 H4 H5] H6] Ha Hf Hra. pose proof Hf as (Hz & _ & _)%list_find_Some.
  assert (wp (wait_scan me addr) (locked wait_lockL s) (fun c s' => exists r, c = inr r /\ reaped s l T q z pp addr r s')) as (c & s' & E & r & -> & Hr).
  { apply wp_wait_scan; [done|done|done|]. rewrite Hf. eapply wp_mono; [eapply (wp_reap me q pp z l T addr s); try done; by apply (Forall_lookup_1 _ _ _ _ H5 Hz)|].
    intros c s' (r & -> & Hr). exists r. split; [done|]. by exists r. }
  exists r, s'. split; [|done]. unfold wait_round. by rewrite (bind_done _ _ _ _ _ E).
Qed.

(** Nobody to wait for. *)
Lemma round_scan me q addr s : waiting me q s -> find_zombie me (procs (k_pt s)) = None ->
  wait_scan me addr (locked wait_lockL s) = Done (inl (has_child me (procs (k_pt s)))) (locked wait_lockL s).
Proof using.
  intros [[H1 H2 H3 H4 H5] H6] Hf.
  assert (wp (wait_scan me addr) (locked wait_lockL s) (fun c s' => c = inl (has_child me (procs (k_pt s))) /\ s' = locked wait_lockL s)) as (c & s' & E & -> & ->); [|done].
  apply wp_wait_scan; [done|done|done|]. by rewrite Hf.
Qed.

Lemma round_gives_up me q addr s : waiting me q s -> find_zombie me (procs (k_pt s)) = None ->
  has_child me (procs (k_pt s)) = false \/ p_killed q <> 0 -> wait_round me addr tt (locked wait_lockL s) = Done (inr (-1)) s.
Proof using.
  intros Hw Hf Hno. pose proof Hw as [[H1 H2 H3 H4 H5] H6]. unfold wait_round. rewrite (bind_done _ _ _ _ _ (round_scan me q addr s Hw Hf)).
  assert (exists k, (if negb (has_child me (procs (k_pt s))) then ret 1 else killed me) (locked wait_lockL s) = Done k (locked wait_lockL s) /\ k <> 0) as (k & E & Hk).
  { destruct (has_child me (procs (k_pt s))); cbn [negb]; [|by exists 1]. exists (p_killed q). split; [|by destruct Hno].
    apply killed_eq; [by apply (locked_ok (lk := wait_lockL))|done|by apply (Forall_lookup_1 _ _ _ _ H5 H4)]. }
  rewrite (bind_done _ _ _ _ _ E). replace (k =? 0) with false by lia. cbn [negb]. by rewrite (bind_done _ _ _ _ _ (release_wait s H1 H6)).
Qed.

Lemma round_sleeps me q addr s : waiting me q s -> find_zombie me (procs (k_pt s)) = None -> has_child me (procs (k_pt s)) = true -> p_killed q = 0 ->
  noff (k_cpu s) = 0 -> exists k, wait_round me addr tt (locked wait_lockL s) = Switch (dozing (ChanProc me) me s) k /\
    forall s2 q2, resumes me q2 s2 -> wait_lock (k_pt s2) = false -> k s2 = Done (inl tt) (locked wait_lockL (returned me s s2)).
Proof using.
  intros Hw Hf Hch Hk Hn. pose proof Hw as [Hr H6]. unfold wait_round. rewrite (bind_done _ _ _ _ _ (round_scan me q addr s Hw Hf)). rewrite Hch. cbn [negb].
  erewrite bind_done; [|apply (killed_eq me (locked wait_lockL s) q); [by apply (locked_ok (lk := wait_lockL)), Hr|apply Hr|by eapply running_lock]]. rewrite Hk. cbn [Z.eqb negb].
  destruct (sleep_section me q wait_lockL always (ChanProc me) s Hr Hn I H6) as (k & Ek & Hres). rewrite (bind_switch _ _ _ _ _ Ek).
  eexists. split; [done|]. intros s2 q2 Hr2 Hl2. cbv beta. by rewrite (Hres s2 q2 Hr2 I Hl2).
Qed.

(** ** What wait promises *)

(** What [wait] of process [me] does from [s], for the first [n] rounds of its loop: it reaps the first zombie among the
    children, gives up when there is no child or [me] was killed, and otherwise sleeps; and whatever the others did to
    the kernel while it slept, it does the same again from the state it comes back to. *)
Fixpoint wait_spec (n : nat) (me : nat) (addr : Z) (s : kernel) (o : outcome kernel Z) : Prop :=
  match n with
  | O => True
  | S n' => forall q, waiting me q s ->
      match find_zombie me (procs (k_pt s)) with
      | Some (pp, z) => forall l T, reap_ok s l T q z -> exists r s', o = Done r s' /\ reaped s l T q z pp addr r s'
      | None =>
          if negb (has_child me (procs (k_pt s))) || negb (p_killed q =? 0) then o = Done (-1) s
          else noff (k_cpu s) = 0 -> exists k, o = Switch (dozing (ChanProc me) me s) k /\
                 forall s2 q2, resumes me q2 s2 -> wait_lock (k_pt s2) = false -> wait_spec n' me addr (returned me s s2) (k s2)
      end
  end.

Lemma wait_rounds me addr n s : 0 <= addr -> wait_spec n me addr s (loop n (wait_round me addr) tt (locked wait_lockL s)).
Proof using HIok.
  intros Ha. revert s. induction n as [|n IH]; intros s; cbn [wait_spec]; [done|]. intros q Hw.
  destruct (find_zombie me (procs (k_pt s))) as [[pp z]|] eqn:Hf.
  - intros l T Hra. destruct (round_reaps me q addr s pp z l T Hw Ha Hf Hra) as (r & s' & E & Hr). exists r, s'. split; [by apply loop_last|done].
  - destruct (negb (has_child me (procs (k_pt s))) || negb (p_killed q =? 0)) eqn:Eg.
    + apply loop_last, (round_gives_up me q); [done|done|]. apply orb_true_iff in Eg as [E%negb_true_iff|E%negb_true_iff%Z.eqb_neq]; auto.
    + apply orb_false_iff in Eg as [E1%negb_false_iff E2%negb_false_iff%Z.eqb_eq]. intros Hn.
      destruct (round_sleeps me q addr s Hw Hf E1 E2 Hn) as (k & Ek & Hk). cbn [loop]. rewrite (bind_switch _ _ _ _ _ Ek).
      eexists. split; [done|]. intros s2 q2 Hr Hl. cbv beta. rewrite (Hk s2 q2 Hr Hl). cbn [obind]. apply IH.
Qed.

(** C13: [wait] behaves as [wait_spec] says, for every state in which the calling process runs with no lock held: the
    status of the first zombie child, process or thread, goes to [addr] in the caller's memory (unless that is 0), its entry
    of the table is free and its pid is returned; every page and every table of a child that is a process is given back to
    the allocator, and of a thread the trap frame and nothing else; a bad [addr] gives -1 and leaves the child; no child, or a killed caller, gives -1 at once; otherwise the caller sleeps on its own entry with no lock
    but its own, and scans again when it is resumed, whatever happened meanwhile. *)
Theorem wait_correct me q addr s : waiting me q s -> 0 <= addr -> wait_spec (S fuel) me addr s (wait addr s).
Proof using HIok. intros Hw Ha. rewrite (wait_eq me q addr s Hw). by apply wait_rounds. Qed.
End life.

(** [proc_pagetable] makes the address space of a new process, or nothing.  It returns a root that was a free page, in
    which the trampoline page is mapped at [TRAMPOLINE] for the kernel to execute, the trap frame of the process at
    [TRAPFRAME] for the kernel to read and write, and nothing else; or 0, when memory ran out.  Either way each page is
    free or a table as before but for those the new space took, every other address space maps what it mapped, no byte of
    a page in use has changed, and the rest of the kernel is untouched. *)
Theorem proc_pagetable_correct {HF : Fuel} {HU : UartHw} {HI : Image} {HIok : ImageOk} (p : nat) (q : proc) (s : kernel) (l : list Z) (T : tables) :
  procs (k_pt s) !! p = Some q -> vm_inv img_end (k_mem s) l T ->
  page_ok img_end (p_trapframe q) -> T !! p_trapframe q = None -> p_trapframe q ∉ l ->
  0 <= img_trampoline < PHYSTOP -> img_trampoline mod PGSIZE = 0 ->
  exists r m' l' T', proc_pagetable p s = Done r (set_k_mem m' s) /\ vm_inv img_end m' l' T' /\ T ⊆ T' /\ pages l' T' = pages l T /\
    (forall root va, is_root T root -> 0 <= va < MAXVA -> leaf (phys m') root va = leaf (phys (k_mem s)) root va) /\
    (forall a x, T !! a = None -> a ∉ l -> a mod PGSIZE = 0 -> a <= x < a + PGSIZE -> phys m' x = phys (k_mem s) x) /\
    (r = 0 \/ r <> 0 /\ T !! r = None /\ proc_mem img_end (phys m') l' T' r 0 (p_trapframe q) /\
      leaf (phys m') r TRAMPOLINE = tramp_entry img_trampoline /\ leaf (phys m') r TRAPFRAME = frame_entry (p_trapframe q) /\
      (forall va, 0 <= va < TRAPFRAME -> leaf (phys m') r va = 0)).
Proof.
  intros Hq Hvm Htf HT Hl Htr Hal. pose proof (@img_end_ok _ HIok) as Hend.
  assert (wp (proc_pagetable p) s (fun r s' => exists m', s' = set_k_mem m' s /\ new_space (k_mem s) l T (p_trapframe q) r m')) as (r & s' & E & m' & -> & Hn).
  { eapply (wp_proc_pagetable s p q l T); try done. intros r m' Hn. by exists m'. }
  destruct Hn as [(Hr & l' & T' & Hm)|(-> & l' & T' & Hg)]; exists r || exists 0; exists m', l', T'; (split; [exact E|]).
  - pose proof Hm as [A1 A2 A3 A4 A5 A6 A7 A8]. destruct (high_map_pages img_trampoline (p_trapframe q)) as [E1 E2].
    assert (B : 0 <= TRAMPOLINE < MAXVA /\ 0 <= TRAPFRAME < MAXVA) by by compute.
    do 5 (split; [done|]). right. split; [done|]. split; [done|]. split; [by eapply (made_proc_mem img_end Hend)|].
    rewrite !A6 by apply B. split; [done|]. split; [done|]. intros va Hva. rewrite A6 by (destruct B; lia). apply high_map_low. lia.
  - destruct Hg as [A1 A2 A3 A4 A5]. do 5 (split; [done|]). by left.
Qed.

(** ** A parent and its zombie *)

#[local] Instance life_fuel : Fuel := 1%nat.
#[local] Instance life_uart : UartHw := fun _ => 0%nat.

Definition life_image : Image := {|
  img_end := life_end; img_etext := 0x80008000; img_trampoline := 0x80007000;
  img_uservec := 0x80007000; img_userret := 0x8000709c; img_usertrap := 0x80001a2e; img_kernelvec := 0x80005cd0 |}.
#[local] Existing Instance life_image.
#[local] Instance life_image_ok : ImageOk := {| img_end_ok := life_end_ok |}.

(** Process 1 runs, with a page of memory; process 2 is to be its child. *)
Definition life_proc : proc := set_p_sz PGSIZE (set_p_pagetable life_parent (set_p_state RUNNING proc0)).
Definition life_kernel : kernel :=
  set_k_mem life_kmem (on_procs (<[1%nat := life_proc]>) (set_k_cpu (Cpu (Some 1%nat) 0 true true) kernel0)).

(** The child is given a trap frame and an address space, as [allocproc] does. *)
Definition life_spawn : K unit :=
  tf <- onmem kalloc ;;
  pset 2 (set_p_trapframe tf) ;;
  pt <- proc_pagetable 2 ;;
  pset 2 (set_p_pagetable pt).

Definition state_of {A} (o : outcome kernel A) : kernel := match o with Done _ s => s | _ => kernel0 end.
Definition life_born : kernel := state_of (life_spawn life_kernel).

(** The child, a process or a thread, ends with status 42, and its parent is about to wait. *)
Definition life_dead (th : Z) (z : proc) : proc :=
  set_p_isthread th (set_p_xstate 42 (set_p_pid 7 (set_p_parent (Some 1%nat) (set_p_state ZOMBIE z)))).
Definition life_waits (th : Z) : kernel := on_procs (alter (life_dead th) 2%nat) life_born.

(** What these states look like. *)
Definition life_entry (tf r : Z) : proc := set_p_pagetable r (set_p_trapframe tf proc0).
Definition life_table (m : kmem) (tf r : Z) : kernel :=
  on_procs (alter (fun z => set_p_pagetable r (set_p_trapframe tf z)) 2%nat) (set_k_mem m life_kernel).

(** User code of the parent reaches its page only. *)
Lemma life_parent_space m l T : user_mem life_end m l T life_parent PGSIZE -> (forall va, PGROUNDUP PGSIZE <= va < MAXVA -> leaf m life_parent va = 0) ->
  user_space m l T life_parent /\ forall va, 0 <= va -> user_ok m life_parent va -> translate m life_parent (PGROUNDDOWN va) ∈ upages m life_parent 0 (npages PGSIZE).
Proof.
  intros Hum Htop. assert (Htr : forall vb, PGROUNDUP PGSIZE <= vb < MAXVA -> translate m life_parent vb = 0).
  { intros vb Hvb. unfold translate. rewrite Htop by done. by case_match. }
  split; [by apply (user_mem_space life_end _ _ _ _ PGSIZE)|]. intros va Hva Hok. destruct (PGROUNDDOWN_bound va).
  destruct (translate_page life_end m l T life_parent PGSIZE (PGROUNDDOWN va) Hum Htr) as (j & Hj & _ & ->); [page_lia|done|].
  apply list_elem_of_fmap. exists j. split; [done|]. apply elem_of_seq. lia.
Qed.

Lemma unlocked_check ps : forallb (fun p => negb (p_lock p)) ps = true -> Forall (fun p => p_lock p = false) ps.
Proof. intros H. apply Forall_forall. intros p Hp%list_elem_of_In. by apply negb_true_iff, (proj1 (forallb_forall _ _) H p). Qed.

Lemma life_spawn_ok : wp life_spawn life_kernel (fun _ s => exists m tf r, s = life_table m tf r /\
  (r <> 0 -> exists l T, reap_ok s l T life_proc (life_entry tf r) /\ translate (phys m) life_parent 0 = translate (phys life_kmem) life_parent 0)).
Proof.
  destruct life_ok as (l & T & [H1 (H2 & H3 & H4) H5 H6 H7]).
  destruct l as [|tf l].
  { exfalso. pose proof (inv_linked _ _ _ (vm_kmem _ _ _ _ H1)) as Hfl. cbn [linked] in Hfl. vm_compute in Hfl. discriminate Hfl. }
  unfold life_spawn. apply wp_bind, wp_lift. change (view memL life_kernel) with life_kmem. eapply (wp_kalloc_vm life_end life_end_ok); [exact H1|].
  intros m1 Hvm1 Htf HT Hl1 Hs1. assert (Hl : forall r va, is_root T r -> leaf (phys m1) r va = leaf (phys life_kmem) r va).
  { intros r va Hr. apply (leaf_agree life_end T); [apply H1| |done]. eapply agree_outside; [apply H1|apply Htf|done|done]. }
  assert (Hum1 : user_mem life_end (phys m1) l T life_parent PGSIZE) by (eapply (user_mem_keep life_end); [exact H5|by intros; apply Hl|intros p [Hp|Hp]; [left; by right|by right]]).
  apply wp_bind. eapply wp_done; [apply pset_eq|]. set (s2 := on_procs _ _).
  apply wp_bind. eapply (wp_proc_pagetable s2 2 (set_p_trapframe tf proc0) l T); [vm_compute; reflexivity|exact Hvm1|exact Htf|by compute|by compute|].
  intros r m2 Hnew. eapply wp_done; [apply pset_eq|]. exists m2, tf, r. split.
  { transitivity (on_procs (fun ps => alter (set_p_pagetable r) 2%nat (alter (set_p_trapframe tf) 2%nat ps)) (set_k_mem m2 life_kernel)); [reflexivity|]. apply on_procs_ext, alter_compose_at. }
  destruct Hnew as [(Hr & l2 & T2 & Hm)|(-> & _)]; [|by intros []]. intros _. exists l2, T2.
  pose proof Hm as [A1 A2 A3 A4 A5 A6 A7 A8]. change (k_mem s2) with m1 in A7, A8.
  assert (Hl2 : forall va, 0 <= va < MAXVA -> leaf (phys m2) life_parent va = leaf (phys life_kmem) life_parent va) by (intros; rewrite A7 by done; by apply Hl).
  split; [|unfold translate; rewrite Hl2 by (by compute); reflexivity].
  assert (Hum2 : user_mem life_end (phys m2) l2 T2 life_parent PGSIZE).
  { eapply (user_mem_keep life_end); [exact Hum1|intros; by apply A7|]. intros p Hp. apply elem_of_pages. rewrite <-A5. by apply elem_of_pages. }
  destruct (life_parent_space (phys m2) l2 T2 Hum2) as [Hsp Hin].
  { intros va Hva. assert (0 <= PGROUNDUP PGSIZE) by by compute. rewrite Hl2 by lia. by apply H6. }
  match goal with |- reap_ok ?s3 _ _ _ _ => assert (Em : k_mem s3 = m2) by reflexivity end.
  constructor; rewrite ?Em; clear Em; [exact A1|by eapply is_root_mono|exact Hsp|by eapply (made_proc_mem life_end life_end_ok 0x80007000 tf r m1 l T)| |].
  - cbn. intros _ <-. unfold is_root in H2. change (p_pagetable life_proc) with life_parent in A3. congruence.
  - intros va Hva Hok [E|Hno]%elem_of_cons; [|by apply elem_of_nil in Hno]. apply (Hin va Hva) in Hok. change (p_pagetable life_proc) with life_parent in E. rewrite E in Hok.
    cbn [p_trapframe life_entry set_p_pagetable set_p_trapframe] in Hok. destruct (upages_same (phys life_kmem) (phys m2) life_parent 0 (npages PGSIZE)) as [Eus _].
    { intros j Hj. assert (npages PGSIZE = 1%nat) by (vm_compute; reflexivity). assert (j = 0%nat) as -> by lia. apply Hl2. by compute. }
    rewrite Eus in Hok. destruct (up_ok _ _ _ _ _ _ _ (um_pages _ _ _ _ _ _ H5) _ Hok) as (_ & _ & Hnot). apply Hnot. by left.
Qed.

(** What is written to the entry of the child does not matter to its memory; of a thread, less is given back. *)
Lemma reap_ok_dead s l T q z f th : p_isthread z = 0 -> reap_ok s l T q z -> reap_ok (on_procs f s) l T q (life_dead th z).
Proof.
  intros Hz [R1 R2 R3 R4 R6 R7]. constructor; try done.
  - unfold owned in *. rewrite Hz in R4. cbn [Z.eqb] in R4. change (p_isthread (life_dead th z)) with th. destruct (th =? 0); [exact R4|].
    destruct (pm_frame _ _ _ _ _ _ _ R4) as (F1 & F2 & F3 & _). done.
  - intros _. exact (R6 Hz).
  - intros va Hva Hok Hin. apply (R7 va Hva Hok). unfold pages_of in *. rewrite Hz. cbn [Z.eqb]. change (p_isthread (life_dead th z)) with th in Hin.
    destruct (th =? 0); [exact Hin|]. apply elem_of_cons in Hin as [E|Hin]; [apply elem_of_cons; by left|by apply elem_of_nil in Hin].
Qed.

Lemma life_spawned : match procs (k_pt life_born) !! 2%nat with Some z => p_pagetable z =? 0 | None => true end = false.
Proof. vm_compute. reflexivity. Qed.

Lemma life_buffer : (translate (phys life_kmem) life_parent 0 =? 0) = false.
Proof. vm_compute. reflexivity. Qed.

(** The parent can wait, finds the child, may reap it, and has room for the status. *)
Record life_facts (th : Z) (s : kernel) (z : proc) : Prop := {
  lf_waiting : waiting 1 life_proc s;
  lf_found : find_zombie 1 (procs (k_pt s)) = Some (2%nat, life_dead th z);
  lf_reap : exists l T, reap_ok s l T life_proc (life_dead th z);
  lf_buffer : translate (phys (k_mem s)) life_parent 0 <> 0;
  lf_pid : p_pid (life_dead th z) = 7 /\ p_xstate (life_dead th z) = 42;
}.

Lemma life_shape th m tf r : waiting 1 life_proc (on_procs (alter (life_dead th) 2%nat) (life_table m tf r)) /\
  find_zombie 1 (procs (k_pt (on_procs (alter (life_dead th) 2%nat) (life_table m tf r)))) = Some (2%nat, life_dead th (life_entry tf r)).
Proof.
  split; [|vm_compute; reflexivity]. constructor; [|reflexivity]. constructor; [|reflexivity|vm_compute; reflexivity|vm_compute; reflexivity|apply unlocked_check; vm_compute; reflexivity].
  constructor; [discriminate|intros E; discriminate E|reflexivity].
Qed.

Lemma life_waits_ok th : exists z, life_facts th (life_waits th) z.
Proof.
  destruct life_spawn_ok as ([] & s & E & m & tf & r & Hs & Hr). assert (Es : life_born = s) by (unfold life_born; rewrite E; reflexivity).
  rewrite Hs in Es, Hr. clear E Hs s. assert (Hr0 : r <> 0).
  { pose proof life_spawned as C. rewrite Es in C. cbn in C. by apply Z.eqb_neq. }
  destruct (Hr Hr0) as (l & T & Hra & Etr). destruct (life_shape th m tf r) as [Hw Hf]. exists (life_entry tf r). unfold life_waits. rewrite Es. constructor.
  - exact Hw.
  - exact Hf.
  - exists l, T. apply reap_ok_dead; [reflexivity|exact Hra].
  - change (translate (phys m) life_parent 0 <> 0). rewrite Etr. apply Z.eqb_neq. exact life_buffer.
  - split; reflexivity.
Qed.

(** The parent gets the status of either, and has the pid of the child. *)
Lemma wait_correct_witness :
  (exists s', wait 16 (life_waits 0) = Done 7 s' /\ user_bytes (phys (k_mem s')) life_parent 16 4 = [42; 0; 0; 0]) /\
  (exists s', wait 16 (life_waits 1) = Done 7 s' /\ user_bytes (phys (k_mem s')) life_parent 16 4 = [42; 0; 0; 0]).
Proof.
  enough (H : forall th, exists s', wait 16 (life_waits th) = Done 7 s' /\ user_bytes (phys (k_mem s')) life_parent 16 4 = [42; 0; 0; 0])
    by (split; apply H).
  intros th. destruct (life_waits_ok th) as (z & [Hw Hf (l & T & Hra) Hb [Hp Hx]]).
  pose proof (wait_correct 1 life_proc 16 (life_waits th) Hw ltac:(discriminate)) as H. change (S fuel) with 2%nat in H. cbn [wait_spec] in H.
  specialize (H life_proc Hw). rewrite Hf in H. destruct (H l T Hra) as (r & s' & E & [Hok|Hno]); clear H.
  - destruct Hok as (m' & Hr & -> & _ & _ & Hby). rewrite Hr, Hp in E. eexists. split; [exact E|]. rewrite Hx in Hby. apply Hby. discriminate.
  - exfalso. destruct Hno as (m' & i & _ & _ & _ & _ & Hi & Hno). apply Hno. unfold user_ok. replace (PGROUNDDOWN (16 + i)) with 0.
    + exact Hb.
    + rewrite PGROUNDDOWN_eq, Z.mod_small; clear -Hi; unfold PGSIZE; lia.
Defined.
