(* ===== verification/ProcExit.v ===== *)
(** * How a process ends: reparent and exit of kernel/proc.c

    The table of processes after [exit]: the children go to init, the sleepers on init and on the parent are woken, and
    the process is a zombie that keeps its status for [wait]. *)

From S2P Require Import Prelude Params Memory Kalloc Vm VmSpec UserCopy AddressSpace VmFree VmGrow ProcMem Block State Sched SchedSpec Quiet Kcopy.
From S2P Require Import Uart Console Bio Log Fs File Proc ProcLife.
Import CString.

(** ** The table after each step *)

(** Entry [i] after [wakeup(c)] by process [me]. *)
Definition wake_other (c : chan) (me i : nat) (z : proc) : proc := if decide (i = me) then z else wake c z.

(** Entry [i] when [reparent] has seen the first [n] entries, [woke] when one of them was a child. *)
Definition adopted (me init n : nat) (i : nat) (z : proc) : proc :=
  if decide (i < n)%nat then (if child_of me z then set_p_parent (Some init) z else z) else z.
Definition reparented (me init n : nat) (ps : list proc) : list proc :=
  imap (fun i z => (if has_child me (take n ps) then wake_other (ChanProc init) me i else id) (adopted me init n i z)) ps.

Lemma wake_parent c z : p_parent (wake c z) = p_parent z.
Proof. unfold wake. by case_match. Qed.

Lemma wake_set_parent c x z : wake c (set_p_parent x z) = set_p_parent x (wake c z).
Proof. unfold wake. cbn. by case_match. Qed.

Lemma wake_wake c z : wake c (wake c z) = wake c z.
Proof.
  unfold wake at 2 3. destruct (bool_decide (p_state z = SLEEPING) && bool_decide (p_chan z = Some c)) eqn:E; [done|].
  unfold wake. by rewrite E.
Qed.

Lemma reparented_lookup me init n ps i z : ps !! i = Some z ->
  reparented me init n ps !! i = Some ((if has_child me (take n ps) then wake_other (ChanProc init) me i else id) (adopted me init n i z)).
Proof. intros Hz. unfold reparented. by rewrite list_lookup_imap, Hz. Qed.

Lemma reparented_length me init n ps : length (reparented me init n ps) = length ps.
Proof. apply length_imap. Qed.

Lemma reparented_0 me init ps : reparented me init 0 ps = ps.
Proof.
  apply list_eq. intros i. destruct (ps !! i) as [z|] eqn:Hz; [by rewrite (reparented_lookup _ _ _ _ _ _ Hz)|].
  apply lookup_ge_None in Hz. by rewrite lookup_ge_None_2 by (rewrite reparented_length; lia).
Qed.

(** An entry that is no child changes nothing. *)
Lemma reparented_skip me init n ps z : ps !! n = Some z -> child_of me z = false -> reparented me init (S n) ps = reparented me init n ps.
Proof.
  intros Hn Hc. apply list_eq. intros i. destruct (ps !! i) as [x|] eqn:Hx.
  - rewrite !(reparented_lookup _ _ _ _ _ _ Hx), (take_S_r _ _ _ Hn), has_child_snoc, Hc, orb_false_r.
    unfold adopted. destruct (decide (i = n)) as [->|Hne].
    + rewrite decide_True, decide_False by lia. replace x with z by congruence. by rewrite Hc.
    + destruct (decide (i < n)%nat); [rewrite decide_True by lia|rewrite decide_False by lia]; done.
  - apply lookup_ge_None in Hx. by rewrite !lookup_ge_None_2 by (rewrite reparented_length; lia).
Qed.

(** A child goes to init, which is woken. *)
Lemma reparented_child me init n ps z : ps !! n = Some z -> child_of me z = true -> length ps = Z.to_nat NPROC ->
  wake_all (ChanProc init) (Some me) proc_ids (alter (set_p_parent (Some init)) n (reparented me init n ps)) = reparented me init (S n) ps.
Proof.
  intros Hn Hc Hlen. apply list_eq. intros i. destruct (ps !! i) as [x|] eqn:Hx.
  2:{ apply lookup_ge_None in Hx. by rewrite !lookup_ge_None_2 by (rewrite ?wake_all_length, ?length_alter, reparented_length; lia). }
  rewrite wake_all_lookup, (reparented_lookup _ _ _ _ _ _ Hx), (take_S_r _ _ _ Hn), has_child_snoc, Hc, orb_true_r.
  assert (Hin : i ∈ proc_ids). { apply elem_of_seq. pose proof (lookup_lt_Some _ _ _ Hx). lia. }
  assert (Hw : forall z', (if decide (i ∈ proc_ids /\ Some me <> Some i) then wake (ChanProc init) z' else z') = wake_other (ChanProc init) me i z').
  { intros z'. unfold wake_other. destruct (decide (i = me)) as [->|Hne]; [by rewrite decide_False by naive_solver|]. rewrite decide_True; [done|]. split; [done|congruence]. }
  assert (Hid : forall b z', wake_other (ChanProc init) me i ((if b : bool then wake_other (ChanProc init) me i else id) z') = wake_other (ChanProc init) me i z').
  { intros [] z'; [|done]. unfold wake_other. destruct (decide (i = me)); [done|apply wake_wake]. }
  destruct (decide (i = n)) as [->|Hne].
  - rewrite list_lookup_alter_eq, (reparented_lookup _ _ _ _ _ _ Hn). cbn [fmap option_fmap option_map]. f_equal. rewrite Hw. replace x with z by congruence.
    unfold adopted. rewrite decide_False, decide_True, Hc by lia. destruct (has_child me (take n ps)); unfold wake_other; destruct (decide (n = me)); rewrite ?wake_set_parent, ?wake_wake; done.
  - rewrite list_lookup_alter_ne, (reparented_lookup _ _ _ _ _ _ Hx) by done. cbn [fmap option_fmap option_map]. f_equal. rewrite Hw, Hid. f_equal.
    unfold adopted. destruct (decide (i < n)%nat); [rewrite decide_True by lia|rewrite decide_False by lia]; done.
Qed.

Lemma reparented_unlocked me init n ps : Forall (fun z => p_lock z = false) ps -> Forall (fun z => p_lock z = false) (reparented me init n ps).
Proof.
  intros Hf. apply Forall_lookup_2. intros i z Hz. unfold reparented in Hz. rewrite list_lookup_imap in Hz. destruct (ps !! i) as [x|] eqn:Hx; [|done].
  injection Hz as <-. pose proof (Forall_lookup_1 _ _ _ _ Hf Hx) as Hl. cbv beta in Hl.
  assert (Ha : p_lock (adopted me init n i x) = false) by (unfold adopted; by repeat case_match).
  destruct (has_child me (take n ps)); [|done]. unfold wake_other. case_decide; [done|]. by rewrite wake_lock.
Qed.

Section exits.
Context `{HF : Fuel, HU : UartHw, HI : Image}.

Lemma reparent_eq me init s : cpu_ok (k_cpu s) -> c_proc (k_cpu s) = Some me -> length (procs (k_pt s)) = Z.to_nat NPROC -> all_unlocked s ->
  initproc (k_pt s) = Some init -> reparent me s = Done tt (on_procs (reparented me init (Z.to_nat NPROC)) s).
Proof using.
  intros Hc Hme Hlen Hun Hin.
  assert (wp (reparent me) s (fun _ s' => s' = on_procs (reparented me init (Z.to_nat NPROC)) s)) as ([] & s' & E & ->); [|done].
  unfold reparent.
  apply (wp_iter (fun l s1 => exists n, l = seq n (Z.to_nat NPROC - n) /\ (n <= Z.to_nat NPROC)%nat /\ s1 = on_procs (reparented me init n) s)).
  - intros i l s1 (n & El & Hn & ->). destruct (decide (n = Z.to_nat NPROC)) as [->|Hne]; [by rewrite Nat.sub_diag in El|].
    replace (Z.to_nat NPROC - n)%nat with (S (Z.to_nat NPROC - S n)) in El by lia. cbn [seq] in El. injection El as -> ->.
    destruct (lookup_lt_is_Some_2 (procs (k_pt s)) n) as [z Hz]; [lia|].
    pose proof (reparented_lookup me init n _ _ _ Hz) as Hz1. set (z1 := (if has_child _ _ then _ else _) _) in Hz1.
    assert (Hp : p_parent z1 = p_parent z).
    { unfold z1, adopted. rewrite decide_False by lia. destruct (has_child me _); [|done]. unfold wake_other. destruct (decide (n = me)); [done|apply wake_parent]. }
    apply wp_bind. eapply wp_done; [by apply pget_eq|]. rewrite Hp. fold (child_of me z). destruct (child_of me z) eqn:Ech; cbn [when].
    + apply wp_bind. eapply wp_done; [done|]. apply wp_bind. eapply wp_done; [apply pset_eq|]. rewrite on_procs_compose.
      match goal with |- wp (wakeup_proc ?x) _ _ => change x with (initproc (k_pt s)) end. rewrite Hin. cbn [wakeup_proc].
      eapply wp_done; [apply wakeup_eq; [done| |]|].
      * rewrite on_procs_procs, length_alter, reparented_length. done.
      * intros j x Hx _. rewrite on_procs_procs in Hx. pose proof (reparented_unlocked me init n _ Hun) as Hl.
        destruct (decide (j = n)) as [->|Hj]; [rewrite list_lookup_alter_eq in Hx|rewrite list_lookup_alter_ne in Hx by done; by apply (Forall_lookup_1 _ _ _ _ Hl Hx)].
        rewrite Hz1 in Hx. injection Hx as <-. by apply (Forall_lookup_1 _ _ _ _ Hl Hz1).
      * exists (S n). split; [done|]. split; [lia|]. rewrite on_procs_compose. apply on_procs_ext.
        change (c_proc (k_cpu (on_procs (fun ps => alter (set_p_parent (Some init)) n (reparented me init n ps)) s))) with (c_proc (k_cpu s)). rewrite Hme.
        by apply (reparented_child me init n _ z).
    + apply wp_ret. exists (S n). split; [done|]. split; [lia|]. apply on_procs_ext. symmetry. by apply (reparented_skip me init n _ z).
  - intros s1 (n & En & Hn & ->). destruct (decide (n = Z.to_nat NPROC)) as [->|Hne]; [done|].
    replace (Z.to_nat NPROC - n)%nat with (S (Z.to_nat NPROC - S n)) in En by lia. discriminate En.
  - exists 0%nat. split; [done|]. split; [lia|]. symmetry. apply on_procs_id, reparented_0.
Qed.

(** ** exit *)

Lemma bind_done_inv {S A B} (m : M S A) (f : A -> M S B) s b s' : bind m f s = Done b s' -> exists a s1, m s = Done a s1 /\ f a s1 = Done b s'.
Proof using. unfold bind. destruct (m s) as [a s1| | |]; cbn [obind]; [|done..]. intros E. by exists a, s1. Qed.

(** The files and the directory of a process are given up. *)
Definition exit_files (p : nat) : K unit :=
  close_files p ;;
  begin_op ;;
  cwd <- pget p p_cwd ;;
  cwd <- deref cwd ;;
  iput cwd ;;
  end_op ;;
  pset p (set_p_cwd None).

(** The rest of [exit]. *)
Definition leave {A} (p : nat) (status : Z) : K A :=
  acquire wait_lockL ;;
  reparent p ;;
  parent <- pget p p_parent ;;
  wakeup_proc parent ;;
  acquire (p_lockL p) ;;
  pset p (set_p_xstate status) ;;
  pset p (set_p_state ZOMBIE) ;;
  release wait_lockL ;;
  sched ;;
  panic ("sched running" +:+ nl).

Lemma exit_eq {A} me status s0 s : cpu_ok (k_cpu s0) -> c_proc (k_cpu s0) = Some me -> initproc (k_pt s0) <> Some me ->
  exit_files me s0 = Done tt s -> exit (A := A) status s0 = leave me status s.
Proof using.
  intros Hc Hme Hin Hf. unfold exit. rewrite (bind_done _ _ _ _ _ (myproc'_eq s0 me Hc Hme)).
  rewrite (bind_done _ _ _ (initproc (k_pt s0)) s0) by done. rewrite (bind_done _ _ _ tt s0) by (by rewrite bool_decide_eq_false_2).
  unfold exit_files in Hf. repeat (apply bind_done_inv in Hf as (? & ? & E & Hf); rewrite (bind_done _ _ _ _ _ E); clear E).
  by rewrite (bind_done _ _ _ _ _ Hf).
Qed.

(** The entry of a process that has ended. *)
Definition gone (status : Z) (q : proc) : proc :=
  set_p_context (set_ctx_ra InSwtch (p_context q)) (set_p_state ZOMBIE (set_p_xstate status (set_p_lock true q))).

(** The table of processes when [me], a child of [parent], has ended. *)
Definition ended (me init parent : nat) (status : Z) (ps : list proc) : list proc :=
  alter (gone status) me (wake_all (ChanProc parent) (Some me) proc_ids (reparented me init (Z.to_nat NPROC) ps)).

(** What becomes of the entry [p] of another process: a child of [me] gets [init] as its parent, and it is runnable if it
    slept on the parent of [me], or on [init] when [me] had children. *)
Definition after_exit (me init parent : nat) (kids : bool) (p : proc) : proc :=
  let p1 := if child_of me p then set_p_parent (Some init) p else p in
  if bool_decide (p_state p = SLEEPING) &&
     (bool_decide (p_chan p = Some (ChanProc parent)) || kids && bool_decide (p_chan p = Some (ChanProc init)))
  then set_p_state RUNNABLE p1 else p1.

Lemma ended_other me init parent status ps i p : length ps = Z.to_nat NPROC -> i <> me -> ps !! i = Some p ->
  ended me init parent status ps !! i = Some (after_exit me init parent (has_child me ps) p).
Proof using.
  intros Hlen Hne Hp. unfold ended. rewrite list_lookup_alter_ne by done. rewrite wake_all_lookup, (reparented_lookup _ _ _ _ _ _ Hp).
  pose proof (lookup_lt_Some _ _ _ Hp) as Hi. cbn [fmap option_fmap option_map]. rewrite decide_True.
  2:{ split; [apply elem_of_seq; lia|congruence]. }
  f_equal. unfold adopted, wake_other. rewrite (decide_True (P := (i < Z.to_nat NPROC)%nat)) by lia. rewrite (firstn_all2 ps) by lia.
  unfold after_exit. set (p1 := if child_of me p then _ else p).
  assert (p_state p1 = p_state p /\ p_chan p1 = p_chan p) as [E1 E2] by (unfold p1; by case_match).
  destruct (has_child me ps); [rewrite (decide_False (P := i = me)) by done|]; unfold wake, id; rewrite !E1, ?E2.
  - destruct (bool_decide (p_state p = SLEEPING)) eqn:Es; cbn [andb]; [|by rewrite E1, Es].
    destruct (bool_decide (p_chan p = Some (ChanProc init))) eqn:Ei; cbn [p_state set_p_state].
    + rewrite orb_true_r. done.
    + rewrite E1, Es, E2, orb_false_r. done.
  - cbn [andb]. by rewrite orb_false_r.
Qed.

Lemma ended_me me init parent status ps q : ps !! me = Some q -> p_parent q <> Some me -> ended me init parent status ps !! me = Some (gone status q).
Proof using.
  intros Hq Hp. unfold ended. rewrite list_lookup_alter_eq, wake_all_lookup, (reparented_lookup _ _ _ _ _ _ Hq). cbn [fmap option_fmap option_map].
  rewrite decide_False by naive_solver. do 2 f_equal. assert (Hch : child_of me q = false) by by apply bool_decide_eq_false_2.
  unfold adopted. rewrite Hch. replace (if decide (me < Z.to_nat NPROC)%nat then q else q) with q by (by case_decide).
  destruct (has_child _ _); [|done]. unfold wake_other. by rewrite decide_True.
Qed.

Lemma ended_length me init parent status ps : length (ended me init parent status ps) = length ps.
Proof using. unfold ended. by rewrite length_alter, wake_all_length, reparented_length. Qed.

(** Nobody is left with [me] as its parent. *)
Lemma ended_orphans me init parent status ps q : length ps = Z.to_nat NPROC -> ps !! me = Some q -> p_parent q <> Some me -> init <> me ->
  has_child me (ended me init parent status ps) = false.
Proof using.
  intros Hlen Hq Hp Hi. apply not_true_is_false. intros (z & Hz & Hc)%existsb_exists. apply bool_decide_eq_true in Hc.
  apply list_elem_of_In, list_elem_of_lookup in Hz as [i Hz]. destruct (decide (i = me)) as [->|Hne].
  - rewrite (ended_me _ _ _ _ _ q) in Hz by done. injection Hz as <-. done.
  - destruct (ps !! i) as [p|] eqn:Hpi.
    + rewrite (ended_other _ _ _ _ _ _ p) in Hz by done. injection Hz as <-. revert Hc. unfold after_exit.
      destruct (child_of me p) eqn:Ech; [case_match; cbn; congruence|]. apply bool_decide_eq_false in Ech. by case_match.
    + apply lookup_ge_None in Hpi. rewrite lookup_ge_None_2 in Hz; [done|]. by rewrite ended_length.
Qed.

Lemma leave_eq {A} me q init parent status s : waiting me q s -> noff (k_cpu s) = 0 -> initproc (k_pt s) = Some init ->
  p_parent q = Some parent -> parent <> me ->
  exists k, leave (A := A) me status s = Switch (set_k_cpu (cpu_push (k_cpu s)) (on_procs (ended me init parent status) s)) k /\
    forall s2, k s2 = Panic ("sched running" +:+ nl).
Proof using.
  intros [[H1 H2 H3 H4 H5] H6] Hn Hin Hpar Hne. unfold leave.
  rewrite (bind_done _ _ _ _ _ (acquire_eq (lk := wait_lockL) s H1 H6)). set (sw := locked wait_lockL s).
  assert (Hcw : cpu_ok (k_cpu sw)) by by apply (locked_ok (lk := wait_lockL)).
  rewrite (bind_done _ _ _ _ _ (reparent_eq me init sw Hcw H2 H3 H5 Hin)).
  set (ps1 := reparented me init (Z.to_nat NPROC)). assert (Hq1 : ps1 (procs (k_pt s)) !! me = Some q).
  { unfold ps1. rewrite (reparented_lookup _ _ _ _ _ _ H4). f_equal.
    assert (Hch : child_of me q = false) by (apply bool_decide_eq_false_2; congruence). unfold adopted. rewrite Hch.
    replace (if decide (me < Z.to_nat NPROC)%nat then q else q) with q by (by case_decide). destruct (has_child _ _); [|done]. unfold wake_other. by rewrite decide_True. }
  rewrite (bind_done _ _ _ _ _ (pget_eq me p_parent (on_procs ps1 sw) q Hq1)), Hpar. cbn [wakeup_proc].
  assert (Hlen1 : length (ps1 (procs (k_pt s))) = Z.to_nat NPROC) by (unfold ps1; by rewrite reparented_length).
  pose proof (reparented_unlocked me init (Z.to_nat NPROC) _ H5) as Hun1. fold ps1 in Hun1.
  rewrite (bind_done _ _ _ _ _ (wakeup_eq (ChanProc parent) (on_procs ps1 sw) Hcw Hlen1 (fun i p Hp _ => Forall_lookup_1 _ _ _ _ Hun1 Hp))).
  change (c_proc (k_cpu (on_procs ps1 sw))) with (c_proc (k_cpu s)). rewrite H2, on_procs_compose.
  set (ps2 := fun ps => wake_all (ChanProc parent) (Some me) proc_ids (ps1 ps)). assert (Hq2 : procs (k_pt (on_procs ps2 sw)) !! me = Some q).
  { rewrite on_procs_procs. unfold ps2. rewrite wake_all_lookup. change (procs (k_pt sw)) with (procs (k_pt s)). rewrite Hq1. cbn [fmap option_fmap option_map].
    rewrite decide_False by naive_solver. done. }
  pose proof (Forall_lookup_1 _ _ _ _ H5 H4) as Hlk. cbv beta in Hlk.
  erewrite bind_done; [|apply (acquire_eq (lk := p_lockL me)); [exact Hcw|by rewrite (p_lock_view me _ q Hq2)]].
  unfold locked at 1. rewrite p_lock_update. rewrite !on_procs_cpu, on_procs_compose.
  rewrite (bind_done _ _ _ _ _ (pset_eq _ _ _)), on_procs_cpu, on_procs_compose. rewrite (bind_done _ _ _ _ _ (pset_eq _ _ _)), on_procs_cpu, on_procs_compose.
  erewrite bind_done; [|apply (release_eq (lk := wait_lockL)); [by apply cpu_push_ok|change (0 < noff (k_cpu s) + 1 + 1); lia|done]].
  match goal with |- context [unlocked wait_lockL ?x] => set (sx := unlocked wait_lockL x) end.
  assert (Ex : sx = set_k_cpu (cpu_push (k_cpu s)) (on_procs (fun ps => alter (fun q => set_p_state ZOMBIE (set_p_xstate status (set_p_lock true q))) me (ps2 ps)) s)).
  { unfold sx, unlocked. cbn [k_cpu set_k_cpu on_procs]. rewrite cpu_pop_push by exact Hcw. destruct s as [? ? []]. cbn in H6. subst. cbn. rewrite !alter_compose_at. reflexivity. }
  rewrite Ex. clear Ex sx. erewrite bind_switch.
  2:{ apply (sched_eq _ me (set_p_state ZOMBIE (set_p_xstate status (set_p_lock true q)))); [by apply cpu_push_ok|cbn; lia|done| |done|done].
      cbn. rewrite list_lookup_alter_eq. change (procs (k_pt sw)) with (procs (k_pt s)) in Hq2. rewrite on_procs_procs in Hq2. change (procs (k_pt sw)) with (procs (k_pt s)) in Hq2. by rewrite Hq2. }
  eexists. split; [|done]. rewrite on_procs_cpu, on_procs_compose. f_equal. f_equal. apply on_procs_ext. by rewrite alter_compose_at.
Qed.

(** C14: [exit] of process [me], once its files are closed, never returns: it switches to the scheduler with no lock but its
    own held, and panics if it is ever resumed.  The process is then a zombie of its parent with the status it gave, and
    keeps its pid and its memory for [wait]; its children, zombies included, are children of init and none is left to it;
    the sleepers that [wait] for the parent's children are runnable, those of init only when it got a child; and no other
    entry changes. *)
Theorem exit_correct me q init parent status s0 s :
  cpu_ok (k_cpu s0) -> c_proc (k_cpu s0) = Some me -> initproc (k_pt s0) <> Some me -> exit_files me s0 = Done tt s ->
  waiting me q s -> noff (k_cpu s) = 0 -> initproc (k_pt s) = Some init -> init <> me -> p_parent q = Some parent -> parent <> me ->
  exists ps k, exit (A := Z) status s0 = Switch (set_k_cpu (cpu_push (k_cpu s)) (set_k_pt (set_procs ps (k_pt s)) s)) k /\
    (forall s2, k s2 = Panic ("sched running" +:+ nl)) /\
    (exists z, ps !! me = Some z /\ zombie_of parent z /\ p_xstate z = status /\ p_pid z = p_pid q /\ p_lock z = true /\
       p_pagetable z = p_pagetable q /\ p_sz z = p_sz q /\ p_trapframe z = p_trapframe q) /\
    has_child me ps = false /\
    (forall i p, i <> me -> procs (k_pt s) !! i = Some p -> ps !! i = Some (after_exit me init parent (has_child me (procs (k_pt s))) p)).
Proof using.
  intros Hc Hme Hin0 Hf Hw Hn Hin Hi Hpar Hne. destruct (leave_eq (A := Z) me q init parent status s Hw Hn Hin Hpar Hne) as (k & Ek & Hk).
  pose proof Hw as [[H1 H2 H3 H4 H5] H6]. assert (Hp : p_parent q <> Some me) by congruence.
  exists (ended me init parent status (procs (k_pt s))), k. rewrite (exit_eq me status s0 s Hc Hme Hin0 Hf).
  split; [exact Ek|]. split; [done|]. split; [|split; [by apply (ended_orphans _ _ _ _ _ q)|by intros; apply ended_other]].
  exists (gone status q). split; [by apply ended_me|]. split; [|done]. split; [|done]. by apply bool_decide_eq_true_2.
Qed.
End exits.

(** ** A process that ends *)

#[local] Instance exit_fuel : Fuel := 1%nat.
#[local] Instance exit_uart : UartHw := fun _ => 0%nat.
#[local] Instance exit_image : Image := life_image.

(** Init sleeps in [wait], the shell (1) waits for process 2, which runs and has a child (3), a zombie. *)
Definition exit_start : kernel :=
  let sleeper i := set_p_chan (Some (ChanProc i)) (set_p_state SLEEPING proc0) in
  set_k_it (set_it_inode (alter (set_i_ref 2) 0%nat (it_inode (k_it kernel0))) (k_it kernel0))
    (set_k_pt (set_initproc (Some 0%nat) (set_procs
      (<[0%nat := sleeper 0%nat]> (<[1%nat := set_p_parent (Some 0%nat) (sleeper 1%nat)]>
       (<[2%nat := set_p_pid 7 (set_p_cwd (Some 0%nat) (set_p_parent (Some 1%nat) (set_p_state RUNNING proc0)))]>
       (<[3%nat := set_p_parent (Some 2%nat) (set_p_state ZOMBIE proc0)]> (procs (k_pt kernel0)))))) (k_pt kernel0)))
    (set_k_cpu (Cpu (Some 2%nat) 0 true true) kernel0)).

Definition exit_closed : kernel := state_of (exit_files 2 exit_start).
Definition exit_proc : proc := default proc0 (procs (k_pt exit_closed) !! 2%nat).

Lemma exit_closed_run : exit_files 2 exit_start = Done tt exit_closed.
Proof.
  assert (C : match exit_files 2 exit_start with Done _ _ => true | _ => false end = true) by (vm_compute; reflexivity).
  unfold exit_closed. destruct (exit_files 2 exit_start) as [[] s| | |]; [reflexivity|discriminate C..].
Qed.

Lemma exit_closed_ok : waiting 2 exit_proc exit_closed.
Proof.
  constructor; [constructor|].
  - constructor; [vm_compute; discriminate|vm_compute; intros E; discriminate E|vm_compute; reflexivity].
  - vm_compute. reflexivity.
  - vm_compute. reflexivity.
  - vm_compute. reflexivity.
  - apply unlocked_check. vm_compute. reflexivity.
  - vm_compute. reflexivity.
Qed.

Lemma exit_correct_witness : exists ps k, exit (A := Z) 5 exit_start =
    Switch (set_k_cpu (cpu_push (k_cpu exit_closed)) (set_k_pt (set_procs ps (k_pt exit_closed)) exit_closed)) k /\
  (exists z, ps !! 2%nat = Some z /\ zombie_of 1 z /\ p_xstate z = 5 /\ p_pid z = 7) /\
  (exists z, ps !! 1%nat = Some z /\ p_state z = RUNNABLE) /\ exists z, ps !! 3%nat = Some z /\ p_parent z = Some 0%nat.
Proof.
  destruct (exit_correct 2 exit_proc 0 1 5 exit_start exit_closed) as (ps & k & E & _ & (z & Hz & Hzom & Hx & Hpid & _) & _ & Ho);
    [split; [discriminate|intros H; discriminate H|reflexivity]|reflexivity|discriminate|exact exit_closed_run|exact exit_closed_ok|vm_compute; reflexivity|vm_compute; reflexivity|discriminate|vm_compute; reflexivity|discriminate|].
  exists ps, k. split; [exact E|]. split; [|split].
  - exists z. split; [exact Hz|]. split; [exact Hzom|]. split; [exact Hx|]. rewrite Hpid. vm_compute. reflexivity.
  - eexists. split; [apply Ho; [discriminate|vm_compute; reflexivity]|]. vm_compute. reflexivity.
  - eexists. split; [apply Ho; [discriminate|vm_compute; reflexivity]|]. vm_compute. reflexivity.
Defined.
