(* ===== verification/ProcFork.v ===== *)
(** * How a process begins: allocproc and fork of kernel/proc.c

    [allocproc] takes an entry of the table and gives it a pid, a trap frame and an address space, or gives everything
    back; [fork] fills it with a copy of the caller. *)

From S2P Require Import Prelude Params Memory Kalloc Vm VmSpec UserCopy AddressSpace VmFree VmGrow ProcMem Block State Sched SchedSpec Quiet Sleeping Kcopy.
From S2P Require Import Uart Console Bio Log Fs Inodes File Tables Proc ProcLife.
Import CString.

(** The memory is [m] and the next pid [n]. *)
Definition taken (m : kmem) (n : Z) (s : kernel) : kernel := set_k_mem m (set_k_pt (set_nextpid n (k_pt s)) s).

(** The first entry of the table that is not in use. *)
Definition find_unused (ps : list proc) : option (nat * proc) := list_find (fun z => p_state z = UNUSED) ps.

(** An entry that is free as [freeproc] leaves that of a process that is no thread. *)
Record unused_ok (z : proc) : Prop := {
  un_state : p_state z = UNUSED;
  un_frame : p_trapframe z = 0;
  un_root : p_pagetable z = 0;
  un_sz : p_sz z = 0;
  un_thread : p_isthread z = 0;
  un_files : p_ofile z = replicate (Z.to_nat NOFILE) None;
}.

(** The entry once [allocproc] returns it. *)
Definition born (pid tf root : Z) (z : proc) : proc :=
  set_p_context (Context' Forkret (p_kstack z + PGSIZE)) (set_p_pagetable root (set_p_trapframe tf (set_p_state USED (set_p_pid pid z)))).

(** ** Pages that come and go *)

Section pages.
Variable kend : Z.
Hypothesis kend_ok : KERNBASE <= kend <= PHYSTOP.

(** A new address space [root], with the trap frame [tf] in a page of its own. *)
Record child_space (tramp : Z) (m : kmem) (l : list Z) (T : tables) (tf root : Z) (m' : kmem) (l' : list Z) (T' : tables) : Prop := {
  cs_inv : vm_inv kend m' l' T';
  cs_sub : T ⊆ T';
  cs_root : root <> 0 /\ T !! root = None;
  cs_frame : tf <> 0 /\ tf ∈ l;
  cs_mem : proc_mem kend (phys m') l' T' root 0 tf;
  cs_pages : pages l' T' ∪ {[ tf ]} = pages l T;
  cs_low va : 0 <= va < TRAPFRAME -> leaf (phys m') root va = 0;
  cs_other r va : is_root T r -> 0 <= va < MAXVA -> leaf (phys m') r va = leaf (phys m) r va;
  cs_bytes q x : T !! q = None -> q ∉ l -> q mod PGSIZE = 0 -> q <= x < q + PGSIZE -> phys m' x = phys m x;
}.

Section frame.
Context (m : kmem) (tf : Z) (l : list Z) (T : tables) (m1 : kmem).
Hypothesis Hvm : vm_inv kend m (tf :: l) T.
Hypothesis Hvm1 : vm_inv kend m1 l T.
Hypothesis Htf : page_ok kend tf.
Hypothesis HT : T !! tf = None.
Hypothesis Hl : tf ∉ l.
Hypothesis Hs : same_outside tf (phys m) (phys m1).

Lemma frame_leaves r va : is_root T r -> leaf (phys m1) r va = leaf (phys m) r va.
Proof using Hvm Htf HT Hs.
  intros Hr. apply (leaf_agree kend T); [apply Hvm| |done]. eapply agree_outside; [apply Hvm|apply Htf|done|done].
Qed.

Lemma frame_bytes q x : q ∉ tf :: l -> q mod PGSIZE = 0 -> q <= x < q + PGSIZE -> phys m1 x = phys m x.
Proof using Htf Hs.
  intros Hq Hal Hx. apply Hs. apply (page_disjoint q tf); [done|apply Htf| |done]. intros ->. apply Hq. by left.
Qed.

(** The trap frame was taken, and the address space made. *)
Lemma made_child tramp root m2 l2 T2 : 0 <= tramp < PHYSTOP -> tramp mod PGSIZE = 0 -> root <> 0 ->
  made kend root (high_map tramp tf) m1 l T m2 l2 T2 -> child_space tramp m (tf :: l) T tf root m2 l2 T2.
Proof using All.
  intros Htr Hal Hr Hm. pose proof Hm as [A1 A2 A3 A4 A5 A6 A7 A8]. pose proof (page_ok_nonzero kend kend_ok tf Htf) as Hnz.
  destruct high_pages as (P1 & P2 & P3 & P4 & P5). constructor; [done|done|done|split; [lia|by left]|by eapply (made_proc_mem kend kend_ok)| | | |].
  - rewrite A5. unfold pages. rewrite list_to_set_cons. set_solver.
  - intros va Hva. rewrite A6 by (unfold PGSIZE in *; lia). apply high_map_low. lia.
  - intros r va Hrr Hva. rewrite A7 by done. by apply frame_leaves.
  - intros q x HTq Hq Hq0 Hx. rewrite (A8 q) by (done || by apply not_elem_of_cons in Hq as [_ ?]). by apply (frame_bytes q).
Qed.

(** No address space could be made, and the trap frame goes back. *)
Lemma frame_back m2 l2 T2 m3 : given_back kend m1 l T m2 l2 T2 -> vm_inv kend m3 (tf :: l2) T2 -> same_outside tf (phys m2) (phys m3) ->
  given_back kend m (tf :: l) T m3 (tf :: l2) T2.
Proof using All.
  intros [B1 B2 B3 B4 B5] Hvm3 Hs3. destruct (pages_none _ _ _ _ _ B3 HT Hl) as [HT2 Hl2]. constructor; [done|done| | |].
  - unfold pages in *. rewrite !list_to_set_cons, <-!(union_assoc_L {[tf]}). by rewrite B3.
  - intros r va Hr Hva. transitivity (leaf (phys m2) r va); [|rewrite B4 by done; by apply frame_leaves].
    apply (leaf_agree kend T2); [apply B1|eapply agree_outside; [apply B1|apply Htf|done|done]|by eapply is_root_mono].
  - intros q x HTq Hq Hq0 Hx. rewrite Hs3; [|apply (page_disjoint q tf); [done|apply Htf| |done]; intros ->; apply Hq; by left].
    rewrite (B5 q) by (done || by apply not_elem_of_cons in Hq as [_ ?]). by apply (frame_bytes q).
Qed.
End frame.
End pages.

Lemma freed_alloc pid tf r z : freed (set_p_pagetable r (set_p_trapframe tf (set_p_state USED (set_p_pid pid z)))) = freed z.
Proof. done. Qed.

(** ** A new entry, with its lock held *)

(** Entry [np] of the table is [f] of what it was, and locked; the memory is [m] and the next pid [n]. *)
Definition newborn (np : nat) (f : proc -> proc) (m : kmem) (n : Z) (s : kernel) : kernel :=
  on_procs (alter f np) (locked (p_lockL np) (taken m n s)).

Lemma newborn_pset np f g m n s : pset np g (newborn np f m n s) = Done tt (newborn np (fun z => g (f z)) m n s).
Proof. rewrite pset_eq. unfold newborn. rewrite on_procs_compose. f_equal. apply on_procs_ext, alter_compose_at. Qed.

Lemma newborn_mem np f m m' n s : set_k_mem m' (newborn np f m n s) = newborn np f m' n s.
Proof. done. Qed.

Lemma newborn_files np f m n g s : on_files g (newborn np f m n s) = newborn np f m n (on_files g s).
Proof. done. Qed.

Lemma newborn_lookup np f m n s z : procs (k_pt s) !! np = Some z -> procs (k_pt (newborn np f m n s)) !! np = Some (f (set_p_lock true z)).
Proof.
  intros Hz. unfold newborn. rewrite on_procs_procs, list_lookup_alter_eq, (locked_proc np (taken m n s) z); [done|]. done.
Qed.

Lemma newborn_other np f m n s i p : i <> np -> procs (k_pt s) !! i = Some p -> procs (k_pt (newborn np f m n s)) !! i = Some p.
Proof.
  intros Hi Hp. unfold newborn. rewrite on_procs_procs, list_lookup_alter_ne by done. unfold locked. rewrite p_lock_update, on_procs_procs, list_lookup_alter_ne by done. done.
Qed.

Lemma newborn_release np f m n s z : cpu_ok (k_cpu s) -> procs (k_pt s) !! np = Some z -> p_lock z = false -> lock_free f ->
  release (p_lockL np) (newborn np f m n s) = Done tt (on_procs (alter f np) (taken m n s)).
Proof. intros Hc Hz Hl Hf. by apply (proc_section_eq np f (taken m n s) z). Qed.

Lemma newborn_ext_at np f g m n s z : procs (k_pt s) !! np = Some z -> f (set_p_lock true z) = g (set_p_lock true z) -> newborn np f m n s = newborn np g m n s.
Proof.
  intros Hz E. unfold newborn. apply on_procs_ext, list_alter_ext_at. intros x Hx. rewrite (locked_proc np (taken m n s) z) in Hx by done. by injection Hx as <-.
Qed.

Lemma newborn_ext np f g m n s : (forall z, f z = g z) -> newborn np f m n s = newborn np g m n s.
Proof. intros E. unfold newborn. apply on_procs_ext, list_alter_ext_at. intros x _. apply E. Qed.

Section alloc.
Context `{HF : Fuel, HU : UartHw, HI : Image, HIok : !ImageOk}.

(** ** freeproc without an address space of its own *)

(** [freeproc] of a thread gives the trap frame back and no page of its address space, whose tables are lost with the entry;
    and the entry keeps its mark, so that a later process in it is taken for a thread and its address space lost as well. *)
Theorem freeproc_thread s p z l T : procs (k_pt s) !! p = Some z -> p_isthread z <> 0 -> vm_inv img_end (k_mem s) l T ->
  page_ok img_end (p_trapframe z) -> p_trapframe z ∉ l -> T !! p_trapframe z = None ->
  exists m', freeproc p s = Done tt (set_k_mem m' (on_procs (alter freed p) s)) /\ vm_inv img_end m' (p_trapframe z :: l) T /\
    p_pagetable (freed z) = 0 /\ p_isthread (freed z) = p_isthread z.
Proof using HIok.
  intros Hz Hth Hvm Htf Hl HT.
  assert (wp (freeproc p) s (fun _ s' => exists m', s' = set_k_mem m' (on_procs (alter freed p) s) /\ vm_inv img_end m' (p_trapframe z :: l) T))
    as ([] & s' & E & m' & -> & Hvm'); [|by exists m'].
  eapply (wp_freeproc_frame s p z l T); [done|by right|done|done|done|done|]. intros m' Hvm' _. by exists m'.
Qed.

(** There is no trap frame either. *)
Lemma freeproc_empty s p z : procs (k_pt s) !! p = Some z -> p_pagetable z = 0 -> p_trapframe z = 0 ->
  freeproc p s = Done tt (on_procs (alter freed p) s).
Proof using.
  intros Hz Hpt Htf. unfold freeproc. rewrite (bind_done _ _ _ _ _ (pget_eq p p_trapframe s z Hz)), Htf. cbn [Z.eqb negb when].
  rewrite (bind_done _ _ _ tt s) by done. rewrite (bind_done _ _ _ _ _ (pset_eq _ _ _)).
  erewrite bind_done; [|apply pget_eq; cbn; by rewrite list_lookup_alter_eq, Hz]. erewrite bind_done; [|apply pget_eq; cbn; by rewrite list_lookup_alter_eq, Hz].
  cbn [p_pagetable p_isthread set_p_trapframe]. rewrite Hpt. cbn [Z.eqb negb andb when]. erewrite bind_done; [|done].
  do 8 (rewrite (bind_done _ _ _ _ _ (pset_eq _ _ _))). rewrite pset_eq. f_equal. rewrite !on_procs_compose. apply on_procs_ext.
  rewrite !alter_compose_at. by apply list_alter_ext_at.
Qed.

(** ** allocproc *)

Lemma allocpid_eq s : cpu_ok (k_cpu s) -> pid_lock (k_pt s) = false ->
  allocpid s = Done (nextpid (k_pt s)) (taken (k_mem s) (i32 (nextpid (k_pt s) + 1)) s).
Proof using.
  intros Hc Hl. unfold allocpid. rewrite (bind_done _ _ _ _ _ (acquire_eq (lk := pid_lockL) s Hc Hl)).
  rewrite (bind_done _ _ _ (nextpid (k_pt s)) (locked pid_lockL s)) by done. erewrite bind_done; [|reflexivity].
  erewrite bind_done; [|apply (release_eq (lk := pid_lockL)); [by apply (locked_ok (lk := pid_lockL))|by apply (locked_noff (lk := pid_lockL))|done]].
  unfold ret. f_equal. unfold unlocked. change (cpu_pop (k_cpu _)) with (cpu_pop (cpu_push (k_cpu s))). rewrite cpu_pop_push by done. destruct s as [? ? []]. cbn in *. by subst.
Qed.

Lemma alloc_scan s : cpu_ok (k_cpu s) -> all_unlocked s -> length (procs (k_pt s)) = Z.to_nat NPROC ->
  scan proc_ids (fun p => acquire (p_lockL p) ;; st <- pget p p_state ;; if bool_decide (st = UNUSED) then ret (Some p) else release (p_lockL p) ;; ret None) s =
  match find_unused (procs (k_pt s)) with Some (p, _) => Done (Some p) (locked (p_lockL p) s) | None => Done None s end.
Proof using.
  intros Hc Hun Hlen.
  assert (Hpass : forall i z, procs (k_pt s) !! i = Some z -> p_state z <> UNUSED ->
    (acquire (p_lockL i) ;; st <- pget i p_state ;; if bool_decide (st = UNUSED) then ret (Some i) else release (p_lockL i) ;; ret None) s = Done (@None nat) s).
  { intros i z Hz Hst. pose proof (Forall_lookup_1 _ _ _ _ Hun Hz) as Hlk. cbv beta in Hlk.
    erewrite bind_done; [|apply (acquire_eq (lk := p_lockL i)); [done|by rewrite (p_lock_view i _ z Hz)]].
    erewrite bind_done; [|apply pget_eq, locked_proc, Hz]. rewrite bool_decide_eq_false_2 by done.
    pose proof (proc_section_eq i id s z Hc Hz Hlk lock_free_id) as E. rewrite !on_procs_id in E by apply alter_id_eq. by rewrite (bind_done _ _ _ _ _ E). }
  destruct (find_unused (procs (k_pt s))) as [[p z]|] eqn:Ef.
  - apply list_find_Some in Ef as (Hz & Hst & Hj). pose proof (lookup_lt_Some _ _ _ Hz) as Hlt. pose proof (Forall_lookup_1 _ _ _ _ Hun Hz) as Hlk. cbv beta in Hlk.
    replace proc_ids with (seq 0 p ++ p :: seq (S p) (Z.to_nat NPROC - S p)).
    2:{ change (p :: seq (S p) (Z.to_nat NPROC - S p)) with (seq (0 + p) (S (Z.to_nat NPROC - S p))). rewrite <-seq_app. unfold proc_ids. f_equal. lia. }
    apply scan_find.
    + intros i [_ Hi]%elem_of_seq. cbn in Hi. destruct (lookup_lt_is_Some_2 (procs (k_pt s)) i) as [y Hy]; [lia|]. apply (Hpass i y Hy). by apply (Hj i).
    + erewrite bind_done; [|apply (acquire_eq (lk := p_lockL p)); [done|by rewrite (p_lock_view p _ z Hz)]].
      erewrite bind_done; [|apply pget_eq, locked_proc, Hz]. by rewrite bool_decide_eq_true_2.
  - apply scan_none. intros i [_ Hi]%elem_of_seq. cbn in Hi. destruct (lookup_lt_is_Some_2 (procs (k_pt s)) i) as [y Hy]; [lia|]. apply (Hpass i y Hy).
    intros Hst. apply list_find_None in Ef. by apply (Forall_lookup_1 _ _ _ _ Ef Hy).
Qed.

Lemma wp_allocproc s l T (Q : option nat -> kernel -> Prop) : cpu_ok (k_cpu s) -> all_unlocked s -> length (procs (k_pt s)) = Z.to_nat NPROC ->
  pid_lock (k_pt s) = false -> vm_inv img_end (k_mem s) l T -> 0 <= img_trampoline < PHYSTOP -> img_trampoline mod PGSIZE = 0 ->
  match find_unused (procs (k_pt s)) with
  | None => Q None s
  | Some (np, z) => p_trapframe z = 0 /\ p_pagetable z = 0 /\
      (forall m' l' T', given_back img_end (k_mem s) l T m' l' T' -> Q None (on_procs (alter freed np) (taken m' (i32 (nextpid (k_pt s) + 1)) s))) /\
      (forall tf r m' l' T', child_space img_end img_trampoline (k_mem s) l T tf r m' l' T' ->
         Q (Some np) (newborn np (born (nextpid (k_pt s)) tf r) m' (i32 (nextpid (k_pt s) + 1)) s))
  end -> wp allocproc s Q.
Proof using HIok.
  intros Hc Hun Hlen Hpl Hvm Htr Hal HQ. pose proof (@img_end_ok _ HIok) as Hend. pose proof (alloc_scan s Hc Hun Hlen) as Escan.
  destruct (find_unused (procs (k_pt s))) as [[np z]|] eqn:Ef; unfold allocproc; (apply wp_bind; eapply wp_done; [exact Escan|]); clear Escan.
  2:{ by apply wp_ret. }
  destruct HQ as (Htf0 & Hpt0 & Hfail & Hok). apply list_find_Some in Ef as (Hz & _ & _). pose proof (Forall_lookup_1 _ _ _ _ Hun Hz) as Hlk. cbv beta in Hlk.
  apply wp_bind. eapply wp_done; [by apply allocpid_eq; [apply (locked_ok (lk := p_lockL np))|]|].
  set (pid := nextpid (k_pt s)) in *. set (n := i32 (pid + 1)) in *.
  assert (E0 : taken (k_mem (locked (p_lockL np) s)) (i32 (nextpid (k_pt (locked (p_lockL np) s)) + 1)) (locked (p_lockL np) s) = newborn np id (k_mem s) n s).
  { unfold newborn. rewrite on_procs_id by apply alter_id_eq. done. }
  rewrite E0. change (nextpid (k_pt (locked (p_lockL np) s))) with pid. clear E0.
  do 2 (apply wp_bind; eapply wp_done; [apply newborn_pset|]). cbn [id].
  assert (Hnone : forall f m' l' T', lock_free f -> (forall z, freed (f z) = freed z) -> given_back img_end (k_mem s) l T m' l' T' ->
    wp (release (p_lockL np) ;; ret (@None nat)) (newborn np (fun z => freed (f z)) m' n s) Q).
  { intros f m' l' T' Hlf Hfr Hg. apply wp_bind. rewrite (newborn_ext np (fun z => freed (f z)) freed) by done.
    eapply wp_done; [by apply (newborn_release _ _ _ _ _ z)|]. apply wp_ret. by eapply Hfail. }
  apply wp_bind, wp_lift. eapply (wp_kalloc_vm img_end Hend); [exact Hvm|]. destruct l as [|tf l].
  - cbn [view memL update]. apply wp_bind. eapply wp_done; [apply newborn_pset|]. cbn [Z.eqb]. apply wp_bind.
    eapply wp_done; [eapply freeproc_empty; [by apply newborn_lookup|done|done]|]. unfold newborn. rewrite on_procs_compose.
    erewrite on_procs_ext; [|apply alter_compose_at]. eapply (Hnone (fun z => set_p_trapframe 0 (set_p_state USED (set_p_pid pid z)))); [done|done|by apply given_back_refl].
  - intros m1 Hvm1 Htf HT Hl Hs. cbn [view memL update]. rewrite newborn_mem. apply wp_bind. eapply wp_done; [apply newborn_pset|].
    pose proof (page_ok_nonzero _ Hend _ Htf) as Hnz. replace (tf =? 0) with false by lia.
    apply wp_bind. eapply (wp_proc_pagetable _ np _ l T); [by apply newborn_lookup|exact Hvm1|done|done|done|]. cbn [p_trapframe set_p_trapframe].
    intros r m2 Hnew. rewrite newborn_mem. apply wp_bind. eapply wp_done; [apply newborn_pset|]. destruct Hnew as [(Hr & l2 & T2 & Hm)|(-> & l2 & T2 & Hg)].
    + replace (r =? 0) with false by lia. apply wp_bind. eapply wp_done; [apply pget_eq; by apply newborn_lookup|].
      apply wp_bind. eapply wp_done; [apply newborn_pset|]. apply wp_ret. cbn [p_kstack set_p_pagetable set_p_trapframe set_p_state set_p_pid set_p_lock].
      specialize (Hok tf r m2 l2 T2). match goal with |- Q _ ?s2 => replace s2 with (newborn np (born pid tf r) m2 n s) end.
      * eapply Hok, made_child; [done|exact Hvm|exact Hvm1|done|done|done|exact Hs|done|done|done|exact Hm].
      * unfold newborn. apply on_procs_ext, list_alter_ext_at. intros x Hx. rewrite (locked_proc np (taken m2 n s) z) in Hx by done. injection Hx as <-. done.
    + cbn [Z.eqb]. destruct (pages_none _ _ _ _ _ (gb_pages _ _ _ _ _ _ _ Hg) HT Hl) as [HT2 Hl2]. apply wp_bind.
      eapply (wp_freeproc_frame _ np _ l2 T2); [by apply newborn_lookup|by left|apply Hg|done|done|done|]. cbn [p_trapframe set_p_pagetable set_p_trapframe].
      intros m3 Hvm3 Hs3. unfold newborn at 1. rewrite on_procs_compose. erewrite on_procs_ext; [|apply alter_compose_at].
      eapply (Hnone (fun z => set_p_pagetable 0 (set_p_trapframe tf (set_p_state USED (set_p_pid pid z)))) m3); [done|done|].
      eapply frame_back; [exact Hend|exact Hvm|exact Hvm1|done|done|done|exact Hs|exact Hg|exact Hvm3|exact Hs3].
Qed.
End alloc.

(** ** The memory of the child *)

Section copy.
Variable kend : Z.
Hypothesis kend_ok : KERNBASE <= kend <= PHYSTOP.

(** The child [root] of size [sz] with the trap frame [tf] has its own copy of the memory of the parent [pt]; nothing that
    was in use has changed. *)
Record copied (m : kmem) (l : list Z) (T : tables) (pt sz tf root : Z) (m' : kmem) (l' : list Z) (T' : tables) : Prop := {
  cp_inv : vm_inv kend m' l' T';
  cp_sub : T ⊆ T';
  cp_root : T !! root = None;
  cp_frame : tf ∈ l;
  cp_mem : proc_mem kend (phys m') l' T' root sz tf;
  cp_pages : pages l' T' ∪ list_to_set (tf :: upages (phys m') root 0 (npages sz)) = pages l T;
  cp_bytes va : 0 <= va < PGROUNDUP sz -> byte_at (phys m') root va = byte_at (phys m) pt va /\
    PTE_FLAGS (leaf (phys m') root va) = PTE_FLAGS (leaf (phys m) pt va);
  cp_other r va : is_root T r -> 0 <= va < MAXVA -> leaf (phys m') r va = leaf (phys m) r va;
  cp_kept q x : T !! q = None -> q ∉ l -> q mod PGSIZE = 0 -> q <= x < q + PGSIZE -> phys m' x = phys m x;
}.

Section run.
Context (tramp : Z) (m : kmem) (l : list Z) (T : tables) (tf root : Z) (m1 : kmem) (l1 : list Z) (T1 : tables) (pt sz : Z).
Hypothesis Hcs : child_space kend tramp m l T tf root m1 l1 T1.
Hypothesis Hpt : is_root T pt.
Hypothesis Hum : user_mem kend (phys m) l T pt sz.
Hypothesis Hmax : sz <= TRAPFRAME.

(** A page that was in use is in use. *)
Lemma child_none q : T !! q = None -> q ∉ l -> T1 !! q = None /\ q ∉ l1.
Proof using Hcs.
  intros HT Hl. assert (Hq : q ∉ pages l1 T1).
  { intros Hin. assert (Hin2 : q ∈ pages l T) by (rewrite <-(cs_pages _ _ _ _ _ _ _ _ _ _ Hcs); apply elem_of_union; by left). apply elem_of_pages in Hin2 as [?|[? ?]]; [done|congruence]. }
  rewrite elem_of_pages in Hq. split; [|by intros ?; apply Hq; left]. apply eq_None_not_Some. intros ?. apply Hq. by right.
Qed.

Lemma child_from p : p ∈ l1 \/ is_Some (T1 !! p) -> p ∈ l \/ is_Some (T !! p).
Proof using Hcs.
  intros Hp. apply elem_of_pages. rewrite <-(cs_pages _ _ _ _ _ _ _ _ _ _ Hcs). apply elem_of_union. left. by apply elem_of_pages.
Qed.

Lemma child_parent : is_root T1 pt /\ pt <> root /\ user_mem kend (phys m1) l1 T1 pt sz.
Proof using Hcs Hpt Hum.
  pose proof Hcs as [C1 C2 [C3 C3'] C4 C5 C6 C7 C8 C9]. split; [by eapply is_root_mono|]. split; [intros ->; unfold is_root in Hpt; congruence|].
  eapply (user_mem_keep kend); [exact Hum|by intros; apply C8|apply child_from].
Qed.

(** Nothing of the parent's memory was changed. *)
Lemma child_byte va : 0 <= va < PGROUNDUP sz -> byte_at (phys m1) pt va = byte_at (phys m) pt va /\ leaf (phys m1) pt va = leaf (phys m) pt va.
Proof using Hcs Hpt Hum.
  intros Hva. destruct (user_mem_bytes kend m l T m1 l1 T1 pt sz Hum) as [_ Hb]; [by intros; apply (cs_other _ _ _ _ _ _ _ _ _ _ Hcs)|apply child_from|by apply (cs_bytes _ _ _ _ _ _ _ _ _ _ Hcs)|].
  by destruct (Hb va Hva).
Qed.

(** What fails leaves the child's address space as it was. *)
Lemma child_upd m2 l2 T2 : vm_upd kend root (leaf (phys m1) root) m1 l1 T1 m2 l2 T2 -> child_space kend tramp m l T tf root m2 l2 T2.
Proof using Hcs kend_ok.
  intros [U1 U2 U3 U4 U5 U6 U7 U8]. pose proof Hcs as [C1 C2 [C3 C3'] C4 C5 C6 C7 C8 C9]. destruct high_pages as (P1 & P2 & P3 & P4 & P5).
  pose proof C5 as [H1 [Hsz Hleaf [Hok Hnd]] H3 H4 H5 H6 (F1 & F2 & F3 & F4)]. destruct (pages_none _ _ _ _ _ U5 F2 F3) as [F2' F3'].
  constructor; [done|by trans T1|done|done| |by rewrite U5|..].
  - constructor; [by eapply is_root_mono| |done|rewrite U6; [done|unfold PGSIZE in *; lia]|rewrite U6; [done|unfold PGSIZE in *; lia]| |done].
    + constructor; [done|intros k Hk; vm_compute in Hk; lia|constructor; [intros p Hp; by apply elem_of_nil in Hp|apply NoDup_nil_2]].
    + intros va Hva. change (PGROUNDUP 0) with 0 in *. rewrite U6 by (unfold PGSIZE in *; lia). by apply H6.
  - intros va Hva. rewrite U6 by (unfold PGSIZE in *; lia). by apply C7.
  - intros r va Hr Hva. rewrite U7; [by apply C8|by eapply is_root_mono| |done]. intros ->. unfold is_root in Hr. congruence.
  - intros q x HTq Hq Hal Hx. destruct (child_none q HTq Hq). rewrite (U8 q) by done. by apply (C9 q).
Qed.

Lemma child_copied m2 l2 T2 : grown kend root 0 (copy_perm (phys m1) pt) (copy_fill (phys m1) pt) m1 l1 T1 (npages sz) m2 l2 T2 ->
  copied m l T pt sz tf root m2 l2 T2.
Proof using Hcs Hpt Hum Hmax kend_ok.
  intros Hg. destruct child_parent as (D1 & D2 & D3). pose proof Hcs as [C1 C2 [C3 C3'] [C4 C4'] C5 C6 C7 C8 C9]. destruct high_pages as (P1 & P2 & P3 & P4 & P5).
  pose proof (um_size _ _ _ _ _ _ Hum) as Hsz. destruct (size_bound sz Hsz) as (B1 & B2 & B3). pose proof (npages_stop sz Hsz) as Hstop.
  pose proof C5 as [H1 _ _ H4 H5 _ (F1 & F2 & F3 & _)]. assert (Hlow : PGROUNDUP sz <= TRAPFRAME) by page_lia. rewrite <-Hstop in Hlow.
  assert (Hrest : forall va, PGSIZE * Z.of_nat (npages sz) <= va < MAXVA -> leaf (phys m2) root va = leaf (phys m1) root va).
  { intros va Hva. apply (gw_rest _ _ _ _ _ _ _ _ _ _ _ _ Hg); [unfold PGSIZE in *; lia|]. destruct (PGROUNDDOWN_bound va). page_lia. }
  assert (Hfr : tf ∉ pages l2 T2 ∪ list_to_set (upages (phys m2) root 0 (npages sz))).
  { rewrite (gw_pages _ _ _ _ _ _ _ _ _ _ _ _ Hg). intros [?|[? ?]]%elem_of_pages; [done|congruence]. }
  apply not_elem_of_union in Hfr as [Hfr1 Hfr2]. rewrite elem_of_pages in Hfr1. rewrite elem_of_list_to_set in Hfr2.
  constructor; [apply Hg|trans T1; [done|apply Hg]|done|done| | |..].
  - constructor; [eapply is_root_mono; [apply Hg|done]| |done|rewrite Hrest by (unfold PGSIZE in *; lia); done|rewrite Hrest by (unfold PGSIZE in *; lia); done| |].
    + eapply (grown_user_mem kend kend_ok); [done| |exact Hg]. intros j Hj. apply leaf_flags. by apply (um_leaf _ _ _ _ _ _ D3).
    + intros va Hva. rewrite Hrest by (unfold PGSIZE in *; lia). rewrite C7 by (unfold PGSIZE in *; lia). done.
    + split; [done|]. split; [apply eq_None_not_Some; intros ?; apply Hfr1; by right|]. split; [intros ?; apply Hfr1; by left|done].
  - rewrite <-C6, <-(gw_pages _ _ _ _ _ _ _ _ _ _ _ _ Hg), list_to_set_cons. rewrite (union_comm_L {[tf]}), union_assoc_L. done.
  - intros va Hva. destruct (child_byte va Hva) as [<- <-]. by apply (copied_bytes kend kend_ok m1 l1 T1 pt root sz m2 l2 T2).
  - intros r va Hr Hva. rewrite (gw_other _ _ _ _ _ _ _ _ _ _ _ _ Hg); [by apply C8|by eapply is_root_mono| |done]. intros ->. unfold is_root in Hr. congruence.
  - intros q x HTq Hq Hal Hx. destruct (child_none q HTq Hq). rewrite (gw_frame _ _ _ _ _ _ _ _ _ _ _ _ Hg q) by done. by apply (C9 q).
Qed.

Lemma wp_child_copy (Q : Z -> kmem -> Prop) : (forall m2 l2 T2, copied m l T pt sz tf root m2 l2 T2 -> Q 0 m2) ->
  (forall m2 l2 T2, child_space kend tramp m l T tf root m2 l2 T2 -> Q (-1) m2) -> wp (uvmcopy kend pt root sz) m1 Q.
Proof using Hcs Hpt Hum Hmax kend_ok.
  intros HQ HQ1. destruct child_parent as (D1 & D2 & D3). pose proof Hcs as [C1 C2 [C3 C3'] C4 C5 C6 C7 C8 C9]. destruct high_pages as (P1 & P2 & P3 & P4 & P5).
  pose proof (um_size _ _ _ _ _ _ Hum) as Hsz. destruct (size_bound sz Hsz) as (B1 & B2 & B3).
  eapply (wp_uvmcopy kend kend_ok m1 l1 T1 pt root sz); [done|done|apply C5|done|done| | |].
  - intros vb Hvb. apply C7. page_lia.
  - intros m2 l2 T2 Hg. by eapply HQ, child_copied.
  - intros m2 l2 T2 Hu. by eapply HQ1, child_upd.
Qed.
End run.

(** An address space that could not be filled is given back, with the trap frame. *)
Lemma child_released tramp m l T tf root m2 l2 T2 m3 : vm_inv kend m l T -> child_space kend tramp m l T tf root m2 l2 T2 ->
  released kend root [tf] m2 l2 T2 m3 -> exists l' T', given_back kend m l T m3 l' T'.
Proof using.
  intros Hvm [C1 C2 [C3 C3'] [C4 C4'] C5 C6 C7 C8 C9] [(l' & ts & R1 & [R2 R3] & R4) R5 R6]. exists l', (without root T2).
  assert (Hsub : T ⊆ without root T2).
  { apply map_subseteq_spec. intros p [r path] Hp. apply without_lookup. split; [by eapply lookup_weaken|]. cbn. intros ->.
    pose proof (owner_root _ _ _ _ _ _ (vm_pt _ _ _ _ Hvm) Hp) as Hr. unfold is_root in Hr. congruence. }
  constructor; [done|done| | |].
  - rewrite <-C6. apply set_eq. intros q. rewrite elem_of_union, elem_of_singleton, !elem_of_pages, R4. cbn [app]. rewrite elem_of_cons, elem_of_app, R3. split.
    + intros [[->|[[path Hq]|Hq]]|[[r path] [Hq _]%without_lookup]]; [by right|left; right; by eexists|left; by left|left; right; by eexists].
    + intros [[Hq|[[r path] Hq]]| ->]; [left; right; by right| |left; by left].
      destruct (decide (r = root)) as [->|Hne]; [left; right; left; by eexists|]. right. exists (r, path). by apply without_lookup.
  - intros r va Hr Hva. rewrite R5; [by apply C8|by eapply is_root_mono| |done]. intros ->. unfold is_root in Hr. congruence.
  - intros q x HT Hq Hal Hx. assert (Hn : q ∉ pages l2 T2). { intros Hin. assert (Hin2 : q ∈ pages l T) by (rewrite <-C6; apply elem_of_union; by left). apply elem_of_pages in Hin2 as [?|[? ?]]; [done|congruence]. }
    rewrite elem_of_pages in Hn. rewrite (R6 q); [by apply (C9 q)|apply eq_None_not_Some; intros ?; apply Hn; by right| |done|done].
    intros ->%list_elem_of_singleton. done.
Qed.

(** ** The registers of the child *)

(** The trap frame of the parent in the page [tf], with [a0] set to 0. *)
Definition child_frame (m : mem) (tf ptf : Z) : mem := store64 (memmove m tf ptf sizeof_trapframe) (tf + TF_a 0) 0.

Lemma child_frame_outside m tf ptf : same_outside tf m (child_frame m tf ptf).
Proof using.
  intros x Hx. unfold child_frame, TF_a, sizeof_trapframe. rewrite store64_outside by (unfold PGSIZE in *; lia). rewrite memmove_copies by done.
  destruct (in_range_spec tf 288 x); [unfold PGSIZE in *; lia|done].
Qed.

Lemma child_frame_copy m tf ptf x : 0 <= x < sizeof_trapframe -> ~ (TF_a 0 <= x < TF_a 1) -> child_frame m tf ptf (tf + x) = m (ptf + x).
Proof using.
  unfold child_frame, TF_a, sizeof_trapframe. intros Hx Ha. rewrite store64_outside by lia. rewrite memmove_copies by done.
  destruct (in_range_spec tf 288 (tf + x)); [|lia]. f_equal. lia.
Qed.

Lemma copied_frame m l T pt sz tf root m2 l2 T2 ptf : copied m l T pt sz tf root m2 l2 T2 ->
  copied m l T pt sz tf root (set_phys (child_frame (phys m2) tf ptf) m2) l2 T2.
Proof using.
  intros [C1 C2 C3 C4 C5 C6 C7 C8 C9]. pose proof C5 as [H1 Hum H3 H4 H5 H6 (F1 & F2 & F3 & F4)]. set (mm := child_frame (phys m2) tf ptf).
  pose proof (child_frame_outside (phys m2) tf ptf) as Hs. fold mm in Hs.
  assert (Hok : mem_ok mm).
  { unfold mm, child_frame, store64. apply mem_ok_store, mem_ok_memmove; [done|]. apply (inv_bytes _ _ _ (vm_kmem _ _ _ _ C1)). }
  destruct (vm_page_write kend m2 l2 T2 tf mm C1 F2 F3 (proj1 F1) Hs Hok) as [Hvm Hag].
  assert (Hl : forall r va, is_root T2 r -> leaf mm r va = leaf (phys m2) r va) by (intros r va Hr; apply (leaf_agree kend T2); [apply C1|done|done]).
  assert (Eus : upages mm root 0 (npages sz) = upages (phys m2) root 0 (npages sz)) by (apply upages_same; intros; by apply Hl).
  pose proof (um_size _ _ _ _ _ _ Hum) as Hsz. destruct (size_bound sz Hsz) as (B1 & B2 & B3).
  constructor; cbn [phys set_phys]; [done|done|done|done| |by rewrite Eus|..].
  - constructor; rewrite ?Hl, ?Eus by done; try done.
    + eapply (user_mem_keep kend); [exact Hum|by intros; apply Hl|done].
    + intros va Hva. rewrite Hl by done. by apply H6.
  - intros va Hva. destruct (C7 va Hva) as [E1 E2]. rewrite <-E1, <-E2, !byte_at_page, !Hl by (done || lia). split; [|done]. apply Hs.
    destruct (va_page sz va Hsz Hva) as (j & x & Hj & Hx & _ & -> & ->).
    assert (Hin : upage (phys m2) root 0 j ∈ upages (phys m2) root 0 (npages sz)) by (apply list_elem_of_fmap; exists j; split; [done|apply elem_of_seq; lia]).
    destruct (up_ok _ _ _ _ _ _ _ (um_pages _ _ _ _ _ _ Hum) _ Hin) as (G1 & _). unfold upage in Hin, G1. rewrite Z.add_0_l in Hin, G1.
    apply (page_disjoint (PTE2PA (leaf (phys m2) root (PGSIZE * Z.of_nat j))) tf); [apply G1|apply F1|by intros E; rewrite E in Hin|unfold PGSIZE in *; lia].
  - intros r va Hr Hva. rewrite Hl by by eapply is_root_mono. by apply C8.
  - intros q x HT Hq Hal Hx. rewrite Hs; [by apply (C9 q)|]. apply (page_disjoint q tf); [done|apply F1| |done]. by intros ->.
Qed.
End copy.

(** ** The files of the child *)

(** How many descriptors refer to file [f]. *)
Definition fd_refs (f : nat) (fds : list (option nat)) : Z := Z.of_nat (length (filter (fun o => o = Some f) fds)).
Definition more_refs (fds : list (option nat)) (fs : list file) : list file := imap (fun f x => set_f_ref (f_ref x + fd_refs f fds) x) fs.

Lemma fd_refs_snoc f fds o : fd_refs f (fds ++ [o]) = fd_refs f fds + (if decide (o = Some f) then 1 else 0).
Proof. unfold fd_refs. rewrite filter_app, length_app. cbn [filter list_filter]. case_decide; cbn; lia. Qed.

Lemma more_refs_lookup fds fs f x : fs !! f = Some x -> more_refs fds fs !! f = Some (set_f_ref (f_ref x + fd_refs f fds) x).
Proof. intros Hx. unfold more_refs. by rewrite list_lookup_imap, Hx. Qed.

Lemma more_refs_nil fs : more_refs [] fs = fs.
Proof.
  apply list_eq. intros f. unfold more_refs. rewrite list_lookup_imap. destruct (fs !! f) as [x|]; [|done]. cbn. f_equal. destruct x. unfold set_f_ref, fd_refs. cbn. f_equal. lia.
Qed.

Lemma more_refs_some fds fs f : more_refs (fds ++ [Some f]) fs = alter (fun x => set_f_ref (f_ref x + 1) x) f (more_refs fds fs).
Proof.
  apply list_eq. intros g. unfold more_refs. rewrite list_lookup_imap. destruct (decide (g = f)) as [->|Hne].
  - rewrite list_lookup_alter_eq, list_lookup_imap. destruct (fs !! f) as [x|]; [|done]. cbn. f_equal. rewrite fd_refs_snoc, decide_True by done. unfold set_f_ref. cbn. f_equal. lia.
  - rewrite list_lookup_alter_ne, list_lookup_imap by done. destruct (fs !! g) as [x|]; [|done]. cbn. rewrite fd_refs_snoc, decide_False by congruence. by rewrite Z.add_0_r.
Qed.

Lemma more_refs_none fds fs : more_refs (fds ++ [None]) fs = more_refs fds fs.
Proof.
  apply list_eq. intros g. unfold more_refs. rewrite !list_lookup_imap. destruct (fs !! g) as [x|]; [|done]. cbn. by rewrite fd_refs_snoc, decide_False, Z.add_0_r.
Qed.

Lemma set_ofile_same z v : p_ofile z = v -> set_p_ofile v z = z.
Proof. intros <-. by destruct z. Qed.

Section files.
Context `{HF : Fuel, HU : UartHw, HI : Image}.
Context (me np : nat) (q z : proc) (f : proc -> proc) (m : kmem) (n : Z) (s : kernel).
Hypothesis Hc : cpu_ok (k_cpu s).
Hypothesis Hme : procs (k_pt s) !! me = Some q.
Hypothesis Hnp : procs (k_pt s) !! np = Some z.
Hypothesis Hne : me <> np.
Hypothesis Hlen : length (p_ofile q) = Z.to_nat NOFILE.
Hypothesis Hz : p_ofile (f (set_p_lock true z)) = replicate (Z.to_nat NOFILE) None.
Hypothesis Hft : ft_lock (k_ft s) = false.
Hypothesis Hopen : forall g, Some g ∈ p_ofile q -> exists x, files s !! g = Some x /\ 1 <= f_ref x.

(** The child when the first [k] descriptors are copied. *)
Definition with_fds (k : nat) : kernel :=
  newborn np (fun z => set_p_ofile (take k (p_ofile q) ++ replicate (Z.to_nat NOFILE - k) None) (f z)) m n (on_files (more_refs (take k (p_ofile q))) s).

Lemma with_fds_0 : with_fds 0 = newborn np f m n s.
Proof using Hnp Hz.
  unfold with_fds. change (take 0 (p_ofile q)) with (@nil (option nat)). cbn [app]. rewrite Nat.sub_0_r.
  rewrite (on_files_id _ s (more_refs_nil _)). apply (newborn_ext_at np _ _ m n s z Hnp). by apply set_ofile_same.
Qed.

Lemma with_fds_files k g : on_files g (with_fds k) =
  newborn np (fun z => set_p_ofile (take k (p_ofile q) ++ replicate (Z.to_nat NOFILE - k) None) (f z)) m n (on_files (fun fs => g (more_refs (take k (p_ofile q)) fs)) s).
Proof using. unfold with_fds. by rewrite newborn_files, on_files_compose. Qed.

Lemma with_fds_S k o : p_ofile q !! k = Some o ->
  with_fds (S k) = newborn np (fun z => set_p_ofile (take k (p_ofile q) ++ o :: replicate (Z.to_nat NOFILE - S k) None) (f z)) m n (on_files (more_refs (take k (p_ofile q) ++ [o])) s).
Proof using. intros Ho. unfold with_fds. by rewrite (take_S_r _ _ _ Ho), <-(assoc_L (++)). Qed.

Lemma wp_dup_files (Q : unit -> kernel -> Prop) :
  Q tt (newborn np (fun z => set_p_ofile (p_ofile q) (f z)) m n (on_files (more_refs (p_ofile q)) s)) -> wp (dup_files me np) (newborn np f m n s) Q.
Proof using All.
  intros HQ. rewrite <-with_fds_0. unfold dup_files.
  apply (wp_iter (fun l s1 => exists k, l = seq k (Z.to_nat NOFILE - k) /\ (k <= Z.to_nat NOFILE)%nat /\ s1 = with_fds k)).
  - intros i l s1 (k & El & Hk & ->). destruct (decide (k = Z.to_nat NOFILE)) as [->|Hkn]; [by rewrite Nat.sub_diag in El|].
    replace (Z.to_nat NOFILE - k)%nat with (S (Z.to_nat NOFILE - S k)) in El by lia. cbn [seq] in El. injection El as -> ->.
    destruct (lookup_lt_is_Some_2 (p_ofile q) k) as [o Ho]; [lia|].
    assert (Hq : procs (k_pt (with_fds k)) !! me = Some q) by (unfold with_fds; apply newborn_other; [exact Hne|exact Hme]).
    apply wp_bind. eapply wp_done; [exact (pget_eq me _ (with_fds k) q Hq)|]. rewrite (list_lookup_total_correct _ _ _ Ho). destruct o as [g|].
    + destruct (Hopen g) as (x & Hx & Hr); [by apply list_elem_of_lookup_2 in Ho|].
      assert (Hx1 : files (with_fds k) !! g = Some (set_f_ref (f_ref x + fd_refs g (take k (p_ofile q))) x)) by (by apply more_refs_lookup).
      pose proof (filedup_fileclose g _ (with_fds k) (cpu_push_ok _ Hc) Hft Hx1) as Hdup. rewrite decide_True in Hdup by (unfold fd_refs; cbn; lia).
      destruct Hdup as (s1 & Ed & -> & _). apply wp_bind. eapply wp_done; [exact Ed|]. rewrite with_fds_files.
      eapply wp_done; [apply newborn_pset|]. exists (S k). split; [done|]. split; [lia|]. rewrite (with_fds_S _ _ Ho). unfold on_files at 2. rewrite more_refs_some. fold (on_files (fun fs => alter (fun x => set_f_ref (f_ref x + 1) x) g (more_refs (take k (p_ofile q)) fs)) s).
      apply newborn_ext.
      intros x'. cbn [p_ofile set_p_ofile]. unfold set_p_ofile at 1. cbn. f_equal.
      replace (Z.to_nat NOFILE - k)%nat with (S (Z.to_nat NOFILE - S k)) by lia. cbn [replicate].
      rewrite insert_app_r_alt by (rewrite length_take; lia). replace (k - length (take k (p_ofile q)))%nat with 0%nat by (rewrite length_take; lia). done.
    + apply wp_ret. exists (S k). split; [done|]. split; [lia|]. rewrite (with_fds_S _ _ Ho). unfold on_files. rewrite more_refs_none. unfold with_fds.
      by replace (Z.to_nat NOFILE - k)%nat with (S (Z.to_nat NOFILE - S k)) by lia.
  - intros s1 (k & Ek & Hk & ->). destruct (decide (k = Z.to_nat NOFILE)) as [->|Hkn].
    + unfold with_fds in *. rewrite Nat.sub_diag in *. rewrite firstn_all2 by lia. cbn [replicate]. rewrite app_nil_r. exact HQ.
    + replace (Z.to_nat NOFILE - k)%nat with (S (Z.to_nat NOFILE - S k)) in Ek by lia. discriminate Ek.
  - exists 0%nat. split; [done|]. split; [lia|done].
Qed.
End files.

(** ** The child is let go *)

Lemma lock_free_lock f z : lock_free f -> p_lock (f z) = p_lock z.
Proof.
  intros Hf. assert (E : set_p_lock (p_lock z) z = z) by by destruct z. pose proof (Hf (p_lock z) z) as E2. rewrite E in E2. by rewrite <-E2.
Qed.

Definition let_go (me : nat) (z : proc) : proc := set_p_state RUNNABLE (set_p_parent (Some me) z).

Lemma start_child_eq me np f m n s z : cpu_ok (k_cpu s) -> procs (k_pt s) !! np = Some z -> p_lock z = false -> lock_free f -> wait_lock (k_pt s) = false ->
  start_child me np (newborn np f m n s) = Done tt (on_procs (alter (fun z => let_go me (f z)) np) (taken m n s)).
Proof.
  intros Hc Hz Hl Hf Hw. unfold start_child. erewrite bind_done; [|by apply (newborn_release _ _ _ _ _ z)]. set (s1 := on_procs (alter f np) (taken m n s)).
  assert (Hc1 : cpu_ok (k_cpu s1)) by exact Hc.
  rewrite (bind_done _ _ _ _ _ (acquire_eq (lk := wait_lockL) s1 Hc1 Hw)). rewrite (bind_done _ _ _ _ _ (pset_eq _ _ _)). rewrite locked_wait_procs.
  erewrite bind_done; [|apply release_wait; [exact Hc|exact Hw]].
  set (s2 := on_procs (alter (set_p_parent (Some me)) np) s1).
  assert (Hz2 : procs (k_pt s2) !! np = Some (set_p_parent (Some me) (f z))).
  { unfold s2, s1. rewrite !on_procs_procs, !list_lookup_alter_eq. change (procs (k_pt (taken m n s))) with (procs (k_pt s)). by rewrite Hz. }
  assert (Hl2 : p_lock (set_p_parent (Some me) (f z)) = false) by (cbn; by rewrite (lock_free_lock f z Hf)).
  erewrite bind_done; [|apply (acquire_eq (lk := p_lockL np)); [exact Hc|by rewrite (p_lock_view np s2 _ Hz2)]].
  rewrite (bind_done _ _ _ _ _ (pset_eq _ _ _)). rewrite (proc_section_eq np (set_p_state RUNNABLE) s2 _ Hc1 Hz2 Hl2) by done. f_equal.
  unfold s2, s1. rewrite !on_procs_compose. apply on_procs_ext. by rewrite !alter_compose_at.
Qed.

(** ** fork *)

Lemma newborn_inodes np f m n g s : on_inodes g (newborn np f m n s) = newborn np f m n (on_inodes g s).
Proof. done. Qed.

(** The entry of the child. *)
Definition forked (me : nat) (q : proc) (c : nat) (pid tf root : Z) (z : proc) : proc :=
  let_go me (set_p_name (name_copy (p_name z) (p_name q)) (set_p_cwd (Some c) (set_p_ofile (p_ofile q) (set_p_sz (p_sz q) (born pid tf root z))))).

Lemma alter_insert_at {A} (f : A -> A) (l : list A) i x : l !! i = Some x -> alter f i l = <[i := f x]> l.
Proof.
  intros Hx. apply list_eq. intros j. destruct (decide (j = i)) as [->|Hne].
  - rewrite list_lookup_alter_eq, Hx, list_lookup_insert_eq; [done|by eapply lookup_lt_Some].
  - by rewrite list_lookup_alter_ne, list_lookup_insert_ne.
Qed.

Section fork.
Context `{HF : Fuel, HU : UartHw, HI : Image, HIok : !ImageOk}.

(** Process [me] may call [fork]. *)
Record fork_ok (me : nat) (q : proc) (s : kernel) (l : list Z) (T : tables) : Prop := {
  fk_waiting : waiting me q s;
  fk_running : p_state q <> UNUSED;
  fk_locks : pid_lock (k_pt s) = false /\ ft_lock (k_ft s) = false /\ it_lock (k_it s) = false;
  fk_vm : vm_inv img_end (k_mem s) l T;
  fk_root : is_root T (p_pagetable q);
  fk_user : user_mem img_end (phys (k_mem s)) l T (p_pagetable q) (p_sz q);
  fk_size : p_sz q <= TRAPFRAME;
  fk_frame : p_trapframe q mod PGSIZE = 0 /\ T !! p_trapframe q = None /\ p_trapframe q ∉ l;
  fk_fds : length (p_ofile q) = Z.to_nat NOFILE;
  fk_open g : Some g ∈ p_ofile q -> exists x, files s !! g = Some x /\ 1 <= f_ref x;
  fk_cwd : exists c i, p_cwd q = Some c /\ it_inode (k_it s) !! c = Some i;
  fk_free np z : find_unused (procs (k_pt s)) = Some (np, z) -> unused_ok z;
  fk_image : 0 <= img_trampoline < PHYSTOP /\ img_trampoline mod PGSIZE = 0;
}.

(** The registers at [tf] are those at [ptf], but for the return value 0. *)
Definition same_registers (m : mem) (ptf : Z) (m' : mem) (tf : Z) : Prop :=
  (forall x, 0 <= x < sizeof_trapframe -> ~ (TF_a 0 <= x < TF_a 1) -> m' (tf + x) = m (ptf + x)) /\ load64 m' (tf + TF_a 0) = 0.

(** What [fork] returns and leaves. *)
Definition fork_spec (me : nat) (q : proc) (s : kernel) (l : list Z) (T : tables) (r : Z) (s' : kernel) : Prop :=
  let pid := nextpid (k_pt s) in
  match find_unused (procs (k_pt s)) with
  | None => r = -1 /\ s' = s
  | Some (np, z) =>
      (r = -1 /\ exists m' l' T' ctx, s' = on_procs (<[np := set_p_context ctx (freed z)]>) (taken m' (i32 (pid + 1)) s) /\ given_back img_end (k_mem s) l T m' l' T') \/
      (r = pid /\ exists m' l' T' tf root c,
         s' = on_inodes (alter one_more c) (on_files (more_refs (p_ofile q)) (on_procs (<[np := forked me q c pid tf root z]>) (taken m' (i32 (pid + 1)) s))) /\
         p_cwd q = Some c /\ copied img_end (k_mem s) l T (p_pagetable q) (p_sz q) tf root m' l' T' /\
         same_registers (phys (k_mem s)) (p_trapframe q) (phys m') tf)
  end.

Lemma wp_fork me q s l T : fork_ok me q s l T -> wp fork s (fork_spec me q s l T).
Proof using HF HU HIok.
  intros [[[W1 W2 W3 W4 W5] W6] Hrun (L1 & L2 & L3) Hvm Hroot Hum Hsz (F1 & F2 & F3) Hfds Hopen (c & ic & Hcwd & Hic) Hfree [I1 I2]].
  pose proof (@img_end_ok _ HIok) as Hend. unfold fork. apply wp_bind. eapply wp_done; [by apply myproc'_eq|].
  apply wp_bind. eapply (wp_allocproc s l T); [done|done|done|done|done|done|done|]. unfold fork_spec.
  destruct (find_unused (procs (k_pt s))) as [[np z]|] eqn:Ef; [|by apply wp_ret].
  destruct (Hfree np z eq_refl) as [U1 U2 U3 U4 U5 U6]. pose proof Ef as (Hz & _ & _)%list_find_Some. split; [done|]. split; [done|].
  pose proof (Forall_lookup_1 _ _ _ _ W5 Hz) as Hlk. cbv beta in Hlk. assert (Hne : me <> np) by (intros ->; congruence).
  set (pid := nextpid (k_pt s)). set (n := i32 (pid + 1)). split.
  { intros m' l' T' Hg. apply wp_ret. left. split; [done|]. exists m', l', T', (p_context z). split; [|done].
    apply on_procs_ext. change (procs (k_pt (taken m' n s))) with (procs (k_pt s)). by rewrite (alter_insert_at _ _ _ _ Hz). }
  intros tf r m1 l1 T1 Hcs. destruct (cs_root _ _ _ _ _ _ _ _ _ _ Hcs) as [Hr0 _].
  assert (Hq : forall f m s1, procs (k_pt s1) = procs (k_pt s) -> procs (k_pt (newborn np f m n s1)) !! me = Some q) by (intros f m s1 E; apply newborn_other; [done|congruence]).
  apply wp_bind. eapply wp_done; [by apply pget_eq, Hq|]. apply wp_bind. eapply wp_done; [by apply pget_eq, newborn_lookup|].
  apply wp_bind. eapply wp_done; [by apply pget_eq, Hq|]. cbn [p_pagetable born set_p_context set_p_pagetable].
  apply wp_bind, wp_lift. eapply (wp_child_copy img_end Hend img_trampoline (k_mem s) l T tf r m1 l1 T1); [exact Hcs|done|done|done|..]; cbn [view memL update].
  2:{ intros m2 l2 T2 Hcs2. rewrite newborn_mem. cbn [Z.ltb Z.compare]. apply wp_bind.
      eapply (wp_freeproc _ np _ l2 T2); [by apply newborn_lookup|done|apply Hcs2|cbn; rewrite U4; apply Hcs2|]. cbn. rewrite U4.
      intros m3 Hrel. change (upages (phys m2) r 0 (npages 0)) with (@nil Z) in Hrel.
      destruct (child_released _ _ _ _ _ _ _ _ _ _ _ Hvm Hcs2 Hrel) as (l3 & T3 & Hg). unfold newborn at 1. rewrite on_procs_compose.
      erewrite on_procs_ext; [|apply alter_compose_at]. change (set_k_mem m3 _) with (newborn np (fun z => freed (born pid tf r z)) m3 n s).
      apply wp_bind. eapply wp_done; [by apply (newborn_release _ _ _ _ _ z)|]. apply wp_ret. left. split; [done|]. exists m3, l3, T3, (Context' Forkret (p_kstack z + PGSIZE)). split; [|done].
      apply on_procs_ext. change (procs (k_pt (taken m3 n s))) with (procs (k_pt s)). by rewrite (alter_insert_at _ _ _ _ Hz). }
  intros m2 l2 T2 Hcp. rewrite newborn_mem. cbn [Z.ltb Z.compare].
  apply wp_bind. eapply wp_done; [apply newborn_pset|]. apply wp_bind. eapply wp_done; [by apply pget_eq, Hq|]. apply wp_bind. eapply wp_done; [by apply pget_eq, newborn_lookup|].
  cbn [p_trapframe set_p_sz born set_p_context set_p_pagetable set_p_trapframe].
  apply wp_bind, wp_lift. apply wp_modify. cbn [view memL update]. rewrite newborn_mem.
  apply wp_bind. unfold tf_set. apply wp_bind. eapply wp_done; [by apply pget_eq, newborn_lookup|]. cbn [p_trapframe set_p_sz born set_p_context set_p_pagetable set_p_trapframe].
  unfold wr64, onmem. apply wp_lift, wp_modify. cbn [view memL update]. rewrite newborn_mem.
  match goal with |- context [newborn np _ ?x n s] => change x with (set_phys (child_frame (phys m2) tf (p_trapframe q)) m2) end.
  set (m3 := set_phys (child_frame (phys m2) tf (p_trapframe q)) m2).
  apply wp_bind. eapply (wp_dup_files me np q z); [done|done|done|done|done|done|done|done|].
  set (s4 := on_files (more_refs (p_ofile q)) s). apply wp_bind. unfold dup_cwd.
  apply wp_bind. eapply wp_done; [by apply pget_eq, Hq|]. rewrite Hcwd. apply wp_bind. apply wp_ret.
  apply wp_bind. eapply wp_done; [apply (idup_eq c ic); [exact (cpu_push_ok _ W1)|exact L3|exact Hic]|]. rewrite newborn_inodes. eapply wp_done; [apply newborn_pset|].
  set (s5 := on_inodes (alter one_more c) s4). apply wp_bind. eapply wp_done; [by apply pget_eq, Hq|]. apply wp_bind. eapply wp_done; [apply newborn_pset|].
  apply wp_bind. eapply wp_done; [by apply pget_eq, newborn_lookup|]. apply wp_bind. eapply wp_done; [by apply (start_child_eq me np _ m3 n s5 z)|]. apply wp_ret.
  right. split; [done|]. exists m3, l2, T2, tf, r, c. split; [|split; [done|split; [by apply copied_frame|split]]].
  - transitivity (on_procs (<[np := forked me q c pid tf r z]>) (taken m3 n s5)); [|reflexivity]. apply on_procs_ext.
    change (procs (k_pt (taken m3 n s5))) with (procs (k_pt s)). by rewrite (alter_insert_at _ _ _ _ Hz).
  - intros x Hx Ha. unfold m3. cbn [phys set_phys]. rewrite child_frame_copy by done. apply (cp_kept _ _ _ _ _ _ _ _ _ _ _ Hcp (p_trapframe q)); [done|done|done|].
    unfold sizeof_trapframe, PGSIZE in *. lia.
  - unfold m3, child_frame. cbn [phys set_phys]. by apply load64_store64_same.
Qed.

(** C12: [fork] returns -1 and changes nothing when every entry of the table is in use; returns -1 with every page given back
    and the entry free again when memory runs out; and otherwise returns the pid of a child that is runnable, has the
    caller as its parent, its own copy of every page of the caller's memory with the same flags, the caller's registers
    but for the return value 0, the same open files and directory, each counted once more for every descriptor, and the
    caller's name.  Nothing of the caller, of other processes, or of any page in use changes. *)
Theorem fork_correct me q s l T : fork_ok me q s l T -> exists r s', fork s = Done r s' /\ fork_spec me q s l T r s'.
Proof using HF HU HIok. intros Hok. destruct (wp_fork me q s l T Hok) as (r & s' & E & H). by exists r, s'. Qed.
End fork.

(** ** A process that forks *)

#[local] Instance fork_fuel : Fuel := 1%nat.
#[local] Instance fork_uart : UartHw := fun _ => 0%nat.
#[local] Existing Instance life_image.
#[local] Instance fork_image_ok : ImageOk := {| img_end_ok := life_end_ok |}.

(** The running process of ProcLife.v, with a directory, an open file on two descriptors, and a trap frame. *)
Definition fork_fds : list (option nat) := <[0%nat := Some 5%nat]> (<[1%nat := Some 5%nat]> (replicate (Z.to_nat NOFILE) None)).
Definition fork_before : kernel :=
  on_files (alter (set_f_ref 2) 5%nat) (on_inodes (alter (set_i_ref 1) 0%nat)
    (on_procs (alter (fun q => set_p_sz 0 (set_p_cwd (Some 0%nat) (set_p_ofile fork_fds q))) 1%nat) life_kernel)).
Definition fork_frame : K unit := tf <- onmem kalloc ;; pset 1 (set_p_trapframe tf).
Definition fork_start : kernel := state_of (fork_frame fork_before).

Lemma fork_start_ok : wp fork_frame fork_before (fun _ s => exists q l T, fork_ok 1 q s l T).
Proof.
  destruct life_ok as (l & T & [H1 (H2 & H3 & H4) H5 H6 H7]). destruct l as [|tf l].
  { exfalso. pose proof (inv_linked _ _ _ (vm_kmem _ _ _ _ H1)) as Hfl. cbn [linked] in Hfl. vm_compute in Hfl. discriminate Hfl. }
  unfold fork_frame. apply wp_bind, wp_lift. change (view memL fork_before) with life_kmem. eapply (wp_kalloc_vm life_end life_end_ok); [exact H1|].
  intros m1 Hvm1 Htf HT Hl1 Hs1. eapply wp_done; [apply pset_eq|].
  exists (set_p_trapframe tf (set_p_sz 0 (set_p_cwd (Some 0%nat) (set_p_ofile fork_fds life_proc)))), l, T. constructor.
  - constructor; [constructor|].
    + constructor; [vm_compute; discriminate|vm_compute; intros E; discriminate E|vm_compute; reflexivity].
    + reflexivity.
    + vm_compute. reflexivity.
    + vm_compute. reflexivity.
    + apply unlocked_check. vm_compute. reflexivity.
    + reflexivity.
  - discriminate.
  - split; [|split]; vm_compute; reflexivity.
  - exact Hvm1.
  - exact H2.
  - constructor; [split; [discriminate|by compute]|intros k Hk; vm_compute in Hk; lia|constructor; [intros p Hp; by apply elem_of_nil in Hp|apply NoDup_nil_2]].
  - vm_compute. discriminate.
  - split; [apply Htf|]. split; [exact HT|exact Hl1].
  - vm_compute. reflexivity.
  - intros g Hg. assert (g = 5%nat) as ->.
    { cbn [p_ofile set_p_trapframe set_p_sz set_p_cwd set_p_ofile] in Hg. unfold fork_fds in Hg. apply list_elem_of_lookup in Hg as [i Hi].
      destruct i as [|[|i]]; [vm_compute in Hi; congruence|vm_compute in Hi; congruence|]. exfalso. rewrite !list_lookup_insert_ne in Hi by lia. by apply lookup_replicate in Hi as [? _]. }
    eexists. split; [vm_compute; reflexivity|]. vm_compute. discriminate.
  - eexists _, _. split; [reflexivity|vm_compute; reflexivity].
  - intros np z Hz. vm_compute in Hz. injection Hz as _ <-. constructor; vm_compute; reflexivity.
  - split; [split; [discriminate|reflexivity]|reflexivity].
Qed.

Lemma fork_run : match fork fork_start with Done r _ => r | _ => -1 end = 1.
Proof. vm_compute. reflexivity. Qed.

Lemma fork_start_table : procs (k_pt fork_start) !! 0%nat = Some proc0 /\ find_unused (procs (k_pt fork_start)) = Some (0%nat, proc0).
Proof. split; vm_compute; reflexivity. Qed.

(** The child as the table has it. *)
Lemma fork_spec_child me q s l T r s' np z : fork_spec me q s l T r s' -> find_unused (procs (k_pt s)) = Some (np, z) -> r <> -1 ->
  exists z', procs (k_pt s') !! np = Some z' /\ p_state z' = RUNNABLE /\ p_parent z' = Some me /\ p_ofile z' = p_ofile q /\ files s' = more_refs (p_ofile q) (files s).
Proof.
  unfold fork_spec. intros Hs Hf Hr. rewrite Hf in Hs. destruct Hs as [[? _]|(_ & m' & l' & T' & tf & root & c & -> & _)]; [done|].
  apply list_find_Some in Hf as (Hz & _ & _). exists (forked me q c (nextpid (k_pt s)) tf root z). split; [apply list_lookup_insert_eq; by eapply lookup_lt_Some|]. by repeat split.
Qed.

Definition fork_file : file := default file0 (files fork_start !! 5%nat).
Lemma fork_file_ok : files fork_start !! 5%nat = Some fork_file /\ f_ref fork_file + fd_refs 5 fork_fds = 4.
Proof. split; vm_compute; reflexivity. Qed.

Lemma fork_fds_ok q : procs (k_pt fork_start) !! 1%nat = Some q -> p_ofile q = fork_fds.
Proof.
  intros Hq. assert (C : match procs (k_pt fork_start) !! 1%nat with Some q => p_ofile q | None => [] end = fork_fds) by (vm_compute; reflexivity).
  rewrite Hq in C. exact C.
Qed.

Lemma fork_correct_witness : exists s' z x, fork fork_start = Done 1 s' /\ procs (k_pt s') !! 0%nat = Some z /\ p_state z = RUNNABLE /\ p_parent z = Some 1%nat /\
  p_ofile z = fork_fds /\ files s' !! 5%nat = Some x /\ f_ref x = 4.
Proof.
  destruct fork_start_ok as ([] & s & E & q & l & T & Hok). assert (Es : s = fork_start) by (unfold fork_start; rewrite E; reflexivity). rewrite Es in Hok.
  destruct (fork_correct 1 q fork_start l T Hok) as (r & s' & Er & Hs). pose proof fork_run as Hr. rewrite Er in Hr. rewrite Hr in Er, Hs.
  destruct (fork_spec_child _ _ _ _ _ _ _ _ _ Hs (proj2 fork_start_table)) as (z & Hz & H1 & H2 & H3 & H4); [discriminate|].
  pose proof (fork_fds_ok q (rn_proc _ _ _ (wt_run _ _ _ (fk_waiting _ _ _ _ _ Hok)))) as Hfd. rewrite Hfd in H3, H4.
  exists s', z, (set_f_ref 4 fork_file). split; [exact Er|]. split; [exact Hz|]. split; [exact H1|]. split; [exact H2|]. split; [exact H3|]. split; [|reflexivity].
  rewrite H4, <-(proj2 fork_file_ok). apply more_refs_lookup. exact (proj1 fork_file_ok).
Defined.
