(* ===== verification/Exec.v ===== *)
(** * Program loading: kernel/exec.c *)

From S2P Require Import Prelude Params Memory Kalloc Vm Block State Sched Kcopy Uart Console.
From S2P Require Import Bio Log Fs File Proc.
Import CString.

(** ** kernel/elf.h *)

Definition ELF_MAGIC : Z := 0x464C457F.
Definition ELF_PROG_LOAD : Z := 1.

(** Fields of [struct elfhdr] and [struct proghdr] in their bytes. *)
Definition sizeof_elfhdr : Z := 64.
Definition elf_magic (e : list Z) : Z := get_u32 0 e.
Definition elf_entry (e : list Z) : Z := get_u64 24 e.
Definition elf_phoff (e : list Z) : Z := get_u64 32 e.
Definition elf_phnum (e : list Z) : Z := get_u16 56 e.
Definition sizeof_proghdr : Z := 56.
Definition ph_type (h : list Z) : Z := get_u32 0 h.
Definition ph_flags (h : list Z) : Z := get_u32 4 h.
Definition ph_off (h : list Z) : Z := get_u64 8 h.
Definition ph_vaddr (h : list Z) : Z := get_u64 16 h.
Definition ph_filesz (h : list Z) : Z := get_u64 32 h.
Definition ph_memsz (h : list Z) : Z := get_u64 40 h.

Definition flags2perm (flags : Z) : Z :=
  let perm := if negb (Z.land flags 0x1 =? 0) then PTE_X else 0 in
  if negb (Z.land flags 0x2 =? 0) then Z.lor perm PTE_W else perm.

(** The part of the path after the last slash. *)
Fixpoint last_elem (last s : list Z) : list Z :=
  match s with
  | [] => last
  | c :: s' => if c =? 47 then last_elem s' s' else last_elem last s'
  end.

(** [strlen] of a string in a page of its own. *)
Definition kstrlen (a : Z) : K Z :=
  r <- getf memL (fun m => strlen (Z.to_nat PGSIZE) (phys m) a) ;;
  match r with
  | Some n => ret n
  | None => out_of_fuel
  end.

Section exec.
Context `{Fuel, UartHw, Image}.

Abbreviation uvmalloc := (uvmalloc img_end).

Definition loadseg (pagetable va : Z) (ip : nat) (offset sz : Z) : K Z :=
  loop (Z.to_nat (sz / PGSIZE + 2)) (fun i =>
    if i <? sz then
      pa <- onmem (walkaddr pagetable (u64 (va + i))) ;;
      panic_if (pa =? 0) "loadseg: address should exist" ;;
      let n := if sz - i <? PGSIZE then sz - i else PGSIZE in
      r <- readi ip (ToPhys pa) (u32 (offset + i)) n ;;
      if negb (fst r =? n) then ret (inr (-1))
      else ret (inl (u32 (i + PGSIZE)))
    else ret (inr 0)) 0.

(** The loop over the program headers: whether all went well, and [sz]. *)
Definition load_segments (pagetable : Z) (ip : nat) (elf : list Z) : K (bool * Z) :=
  loop (S (Z.to_nat (elf_phnum elf))) (fun '(i, off, sz) =>
    if i <? elf_phnum elf then
      r <- readi ip ToLocal (u32 off) sizeof_proghdr ;;
      if negb (fst r =? sizeof_proghdr) then ret (inr (false, sz))
      else
        let ph := snd r in
        let next := i32 (off + sizeof_proghdr) in
        if negb (ph_type ph =? ELF_PROG_LOAD) then ret (inl (i + 1, next, sz))
        else if ph_memsz ph <? ph_filesz ph then ret (inr (false, sz))
        else if u64 (ph_vaddr ph + ph_memsz ph) <? ph_vaddr ph then ret (inr (false, sz))
        else if negb (ph_vaddr ph mod PGSIZE =? 0) then ret (inr (false, sz))
        else
          sz1 <- onmem (uvmalloc pagetable sz (u64 (ph_vaddr ph + ph_memsz ph))
                          (flags2perm (ph_flags ph))) ;;
          if sz1 =? 0 then ret (inr (false, sz))
          else
            l <- loadseg pagetable (ph_vaddr ph) ip (u32 (ph_off ph)) (u32 (ph_filesz ph)) ;;
            if l <? 0 then ret (inr (false, sz1))
            else ret (inl (i + 1, next, sz1))
    else ret (inr (true, sz))) (0, i32 (elf_phoff elf), 0).

(** The strings go on the stack, then the array of pointers to them: the
    number of arguments and the stack pointer, or failure. *)
Definition push_args (pagetable sp stackbase : Z) (argv : list Z) : K (option (Z * Z)) :=
  r <- loop (S (length argv)) (fun '(argc, sp, ustack) =>
    let arg := default 0 (argv !! Z.to_nat argc) in
    if arg =? 0 then ret (inr (Some (argc, sp, ustack)))
    else if MAXARG <=? argc then ret (inr None)
    else
      n <- kstrlen arg ;;
      let sp := u64 (sp - (n + 1)) in
      let sp := sp - sp mod 16 in
      if sp <? stackbase then ret (inr None)
      else
        s <- getf memL (fun m => read_bytes (phys m) arg (Z.to_nat (n + 1))) ;;
        e <- onmem (copyout pagetable sp s) ;;
        if e <? 0 then ret (inr None)
        else ret (inl (argc + 1, sp, ustack ++ [sp]))) (0, sp, []) ;;
  match r with
  | None => ret None
  | Some (argc, sp, ustack) =>
      let sp := u64 (sp - (argc + 1) * 8) in
      let sp := sp - sp mod 16 in
      if sp <? stackbase then ret None
      else
        e <- onmem (copyout pagetable sp (concat (le_bytes 8 <$> (ustack ++ [0])))) ;;
        ret (if e <? 0 then None else Some (argc, sp))
  end.

(** [bad:] *)
Definition exec_bad (pagetable sz : Z) (ip : option nat) : K Z :=
  when (negb (pagetable =? 0)) (proc_freepagetable pagetable sz) ;;
  match ip with
  | Some ip => iunlockput ip ;; end_op
  | None => ret tt
  end ;;
  ret (-1).

(** From the stack on; the inode is closed. *)
Definition exec_stack (p : nat) (path argv elf : list Z) (pagetable sz : Z) : K Z :=
  oldsz <- pget p p_sz ;;
  let sz := PGROUNDUP sz in
  sz1 <- onmem (uvmalloc pagetable sz (u64 (sz + 2 * PGSIZE)) PTE_W) ;;
  if sz1 =? 0 then exec_bad pagetable sz None
  else
    let sz := sz1 in
    onmem (uvmclear pagetable (u64 (sz - 2 * PGSIZE))) ;;
    let stackbase := u64 (sz - PGSIZE) in
    r <- push_args pagetable sz stackbase argv ;;
    match r with
    | None => exec_bad pagetable sz None
    | Some (argc, sp) =>
        tf_set p (TF_a 1) sp ;;
        pset p (fun q => set_p_name (name_copy (p_name q) (last_elem path path)) q) ;;
        oldpagetable <- pget p p_pagetable ;;
        pset p (set_p_pagetable pagetable) ;;
        pset p (set_p_sz sz) ;;
        tf_set p TF_epc (elf_entry elf) ;;
        tf_set p TF_sp sp ;;
        proc_freepagetable oldpagetable oldsz ;;
        ret argc
    end.

Definition exec (path : list Z) (argv : list Z) : K Z :=
  p <- myproc' ;;
  begin_op ;;
  r <- namei path ;;
  match r with
  | None => end_op ;; ret (-1)
  | Some ip =>
      ilock ip ;;
      r <- readi ip ToLocal 0 sizeof_elfhdr ;;
      if negb (fst r =? sizeof_elfhdr) then exec_bad 0 0 (Some ip)
      else
        let elf := snd r in
        if negb (elf_magic elf =? ELF_MAGIC) then exec_bad 0 0 (Some ip)
        else
          pagetable <- proc_pagetable p ;;
          if pagetable =? 0 then exec_bad 0 0 (Some ip)
          else
            r <- load_segments pagetable ip elf ;;
            let '(ok, sz) := r in
            if negb ok then exec_bad pagetable sz (Some ip)
            else
              iunlockput ip ;;
              end_op ;;
              p <- myproc' ;;
              exec_stack p path argv elf pagetable sz
  end.

End exec.
