(* ===== verification/Syscall.v ===== *)
(** * System calls: kernel/syscall.c, kernel/sysproc.c and kernel/sysfile.c

    A handler returns the value that goes into the caller's [a0]; -1 is the
    error.  A path or string argument is the bytes before its NUL. *)

From S2P Require Import Prelude Params Memory Kalloc Vm Block State Sched Kcopy Uart Console.
From S2P Require Import Bio Log Fs File Proc Exec.
Import CString.

(** ** kernel/syscall.c: arguments *)

(** The code and the word. *)
Definition fetchaddr (addr : Z) : K (Z * Z) :=
  p <- myproc' ;;
  sz <- pget p p_sz ;;
  if (sz <=? addr) || (sz <? u64 (addr + 8)) then ret (-1, 0)
  else
    pagetable <- pget p p_pagetable ;;
    r <- onmem (copyin pagetable addr 8) ;;
    if negb (fst r =? 0) then ret (-1, 0) else ret (0, le_val (snd r)).

(** The length of the string or -1, and what was stored in the buffer. *)
Definition fetchstr (addr max : Z) : K (Z * list Z) :=
  p <- myproc' ;;
  pagetable <- pget p p_pagetable ;;
  r <- onmem (copyinstr pagetable addr max) ;;
  if fst r <? 0 then ret (-1, snd r)
  else ret (Z.of_nat (length (cstring (snd r))), snd r).

Definition argraw (n : Z) : K Z :=
  p <- myproc' ;;
  panic_if ((n <? 0) || (5 <? n)) "argraw" ;;
  tf_get p (TF_a n).

Definition argint (n : Z) : K Z := v <- argraw n ;; ret (i32 v).
Definition argaddr (n : Z) : K Z := argraw n.

(** The string, or an error. *)
Definition argstr (n max : Z) : K (option (list Z)) :=
  addr <- argaddr n ;;
  r <- fetchstr addr max ;;
  ret (if fst r <? 0 then None else Some (cstring (snd r))).

Section syscalls.
Context `{Fuel, UartHw, Image}.

Abbreviation kfree := (kfree img_end).

(** ** kernel/sysproc.c *)

Definition sys_exit : K Z := n <- argint 0 ;; exit n.

Definition sys_getpid : K Z := p <- myproc' ;; pget p p_pid.

Definition sys_fork : K Z := fork.

Definition sys_wait : K Z := p <- argaddr 0 ;; wait p.

Definition sys_sbrk : K Z :=
  n <- argint 0 ;;
  p <- myproc' ;;
  addr <- pget p p_sz ;;
  r <- growproc n ;;
  if r <? 0 then ret (-1) else ret addr.

(** [ticks - ticks0 < n] compares unsigned numbers. *)
Definition sys_sleep : K Z :=
  n <- argint 0 ;;
  acquire tickslockL ;;
  ticks0 <- gets k_ticks ;;
  loop (S fuel) (fun _ =>
    t <- gets k_ticks ;;
    if u32 (t - ticks0) <? u32 n then
      p <- myproc' ;;
      k <- killed p ;;
      if negb (k =? 0) then release tickslockL ;; ret (inr (-1))
      else sleep ChanTicks tickslockL ;; ret (inl tt)
    else release tickslockL ;; ret (inr 0)) tt.

Definition sys_kill : K Z := pid <- argint 0 ;; kill pid.

Definition sys_uptime : K Z :=
  acquire tickslockL ;;
  xticks <- gets k_ticks ;;
  release tickslockL ;;
  ret xticks.

Definition sys_spoon : K Z := arg <- argaddr 0 ;; spoon arg.

Definition sys_create : K Z :=
  arg1 <- argint 0 ;;
  arg2 <- argaddr 1 ;;
  mythread_create arg1 arg2.

Definition sys_join : K Z := argint 0 ;; mythread_join.

(** ** kernel/sysfile.c *)

(** The descriptor and the file. *)
Definition argfd (n : Z) : K (option (nat * nat)) :=
  fd <- argint n ;;
  if (fd <? 0) || (NOFILE <=? fd) then ret None
  else
    p <- myproc' ;;
    f <- pget p (fun q => p_ofile q !!! Z.to_nat fd) ;;
    ret (match f with Some f => Some (Z.to_nat fd, f) | None => None end).

Definition set_ofile (p fd : nat) (f : option nat) : K unit :=
  pset p (fun q => set_p_ofile (<[fd := f]> (p_ofile q)) q).

Definition fdalloc (f : nat) : K (option nat) :=
  p <- myproc' ;;
  scan (seq 0 (Z.to_nat NOFILE)) (fun fd =>
    o <- pget p (fun q => p_ofile q !!! fd) ;;
    match o with
    | None => set_ofile p fd (Some f) ;; ret (Some fd)
    | Some _ => ret None
    end).

Definition sys_dup : K Z :=
  a <- argfd 0 ;;
  match a with
  | None => ret (-1)
  | Some (_, f) =>
      fd <- fdalloc f ;;
      match fd with
      | None => ret (-1)
      | Some fd => filedup f ;; ret (Z.of_nat fd)
      end
  end.

Definition sys_read : K Z :=
  p <- argaddr 1 ;;
  n <- argint 2 ;;
  a <- argfd 0 ;;
  match a with
  | None => ret (-1)
  | Some (_, f) => fileread f p n
  end.

Definition sys_write : K Z :=
  p <- argaddr 1 ;;
  n <- argint 2 ;;
  a <- argfd 0 ;;
  match a with
  | None => ret (-1)
  | Some (_, f) => filewrite f p n
  end.

Definition sys_close : K Z :=
  a <- argfd 0 ;;
  match a with
  | None => ret (-1)
  | Some (fd, f) =>
      p <- myproc' ;;
      set_ofile p fd None ;;
      fileclose f ;;
      ret 0
  end.

Definition sys_fstat : K Z :=
  st <- argaddr 1 ;;
  a <- argfd 0 ;;
  match a with
  | None => ret (-1)
  | Some (_, f) => filestat f st
  end.

(** [ip->nlink++] and [ip->nlink--] *)
Definition nlink_add (ip : nat) (d : Z) : K unit :=
  iset_ ip (fun i => set_i_nlink (i16 (i_nlink i + d)) i).

Definition link_bad (ip : nat) : K Z :=
  ilock ip ;;
  nlink_add ip (-1) ;;
  iupdate ip ;;
  iunlockput ip ;;
  end_op ;;
  ret (-1).

Definition sys_link : K Z :=
  old <- argstr 0 MAXPATH ;;
  new <- (match old with Some _ => argstr 1 MAXPATH | None => ret None end) ;;
  match old, new with
  | Some old, Some new =>
      begin_op ;;
      ip <- namei old ;;
      match ip with
      | None => end_op ;; ret (-1)
      | Some ip =>
          ilock ip ;;
          t <- iget_ ip i_type ;;
          if t =? T_DIR then iunlockput ip ;; end_op ;; ret (-1)
          else
            nlink_add ip 1 ;;
            iupdate ip ;;
            iunlock ip ;;
            r <- nameiparent new ;;
            match r with
            | (None, _) => link_bad ip
            | (Some dp, name) =>
                ilock dp ;;
                ddev <- iget_ dp i_dev ;;
                idev <- iget_ ip i_dev ;;
                inum <- iget_ ip i_inum ;;
                l <- (if negb (ddev =? idev) then ret (-1) else dirlink dp name inum) ;;
                if l <? 0 then iunlockput dp ;; link_bad ip
                else
                  iunlockput dp ;;
                  iput ip ;;
                  end_op ;;
                  ret 0
            end
      end
  | _, _ => ret (-1)
  end.

Definition isdirempty (dp : nat) : K bool :=
  size <- iget_ dp i_size ;;
  loop (Z.to_nat (size / sizeof_dirent + 2)) (fun off =>
    if off <? size then
      r <- readi dp ToLocal off sizeof_dirent ;;
      panic_if (negb (fst r =? sizeof_dirent)) "isdirempty: readi" ;;
      if negb (de_inum (snd r) =? 0) then ret (inr false)
      else ret (inl (off + sizeof_dirent))
    else ret (inr true)) (2 * sizeof_dirent).

Definition unlink_bad (dp : nat) : K Z := iunlockput dp ;; end_op ;; ret (-1).

Definition sys_unlink : K Z :=
  path <- argstr 0 MAXPATH ;;
  match path with
  | None => ret (-1)
  | Some path =>
      begin_op ;;
      r <- nameiparent path ;;
      match r with
      | (None, _) => end_op ;; ret (-1)
      | (Some dp, name) =>
          ilock dp ;;
          if (namecmp name (bytes_of_string ".") =? 0) ||
             (namecmp name (bytes_of_string "..") =? 0) then unlink_bad dp
          else
            r <- dirlookup dp name ;;
            match r with
            | None => unlink_bad dp
            | Some (ip, off) =>
                ilock ip ;;
                nlink <- iget_ ip i_nlink ;;
                panic_if (nlink <? 1) "unlink: nlink < 1" ;;
                t <- iget_ ip i_type ;;
                busy <- (if t =? T_DIR then e <- isdirempty ip ;; ret (negb e)
                         else ret false) ;;
                if (busy : bool) then iunlockput ip ;; unlink_bad dp
                else
                  w <- writei dp (FromLocal (replicate (Z.to_nat sizeof_dirent) 0))
                         off sizeof_dirent ;;
                  panic_if (negb (w =? sizeof_dirent)) "unlink: writei" ;;
                  when (t =? T_DIR) (nlink_add dp (-1) ;; iupdate dp) ;;
                  iunlockput dp ;;
                  nlink_add ip (-1) ;;
                  iupdate ip ;;
                  iunlockput ip ;;
                  end_op ;;
                  ret 0
            end
      end
  end.

Definition create_fail (ip dp : nat) : K (option nat) :=
  iset_ ip (set_i_nlink 0) ;;
  iupdate ip ;;
  iunlockput ip ;;
  iunlockput dp ;;
  ret None.

Definition create (path : list Z) (type major minor : Z) : K (option nat) :=
  r <- nameiparent path ;;
  match r with
  | (None, _) => ret None
  | (Some dp, name) =>
      ilock dp ;;
      r <- dirlookup dp name ;;
      match r with
      | Some (ip, _) =>
          iunlockput dp ;;
          ilock ip ;;
          t <- iget_ ip i_type ;;
          if (type =? T_FILE) && ((t =? T_FILE) || (t =? T_DEVICE)) then ret (Some ip)
          else iunlockput ip ;; ret None
      | None =>
          ddev <- iget_ dp i_dev ;;
          r <- ialloc ddev type ;;
          match r with
          | None => iunlockput dp ;; ret None
          | Some ip =>
              ilock ip ;;
              iset_ ip (set_i_major major) ;;
              iset_ ip (set_i_minor minor) ;;
              iset_ ip (set_i_nlink 1) ;;
              iupdate ip ;;
              inum <- iget_ ip i_inum ;;
              l <- (if type =? T_DIR then
                l <- dirlink ip (bytes_of_string ".") inum ;;
                if l <? 0 then ret l
                else dinum <- iget_ dp i_inum ;; dirlink ip (bytes_of_string "..") dinum
              else ret 0) ;;
              if l <? 0 then create_fail ip dp
              else
                l <- dirlink dp name inum ;;
                if l <? 0 then create_fail ip dp
                else
                  when (type =? T_DIR) (nlink_add dp 1 ;; iupdate dp) ;;
                  iunlockput dp ;;
                  ret (Some ip)
          end
      end
  end.

(** From the locked inode on. *)
Definition open_inode (ip : nat) (omode : Z) : K Z :=
  t <- iget_ ip i_type ;;
  major <- iget_ ip i_major ;;
  if (t =? T_DEVICE) && ((major <? 0) || (NDEV <=? major)) then
    iunlockput ip ;; end_op ;; ret (-1)
  else
    f <- filealloc ;;
    fd <- (match f with Some f => fdalloc f | None => ret None end) ;;
    match f, fd with
    | Some f, Some fd =>
        (if t =? T_DEVICE then
           fset f (set_f_type FD_DEVICE) ;; fset f (set_f_major major)
         else
           fset f (set_f_type FD_INODE) ;; fset f (set_f_off 0)) ;;
        fset f (set_f_ip (Some ip)) ;;
        fset f (set_f_readable (Z.land omode O_WRONLY =? 0)) ;;
        fset f (set_f_writable (negb (Z.land omode O_WRONLY =? 0) ||
                                negb (Z.land omode O_RDWR =? 0))) ;;
        when (negb (Z.land omode O_TRUNC =? 0) && (t =? T_FILE)) (itrunc ip) ;;
        iunlock ip ;;
        end_op ;;
        ret (Z.of_nat fd)
    | _, _ =>
        close_opt f ;;
        iunlockput ip ;;
        end_op ;;
        ret (-1)
    end.

Definition sys_open : K Z :=
  omode <- argint 1 ;;
  path <- argstr 0 MAXPATH ;;
  match path with
  | None => ret (-1)
  | Some path =>
      begin_op ;;
      if negb (Z.land omode O_CREATE =? 0) then
        ip <- create path T_FILE 0 0 ;;
        match ip with
        | None => end_op ;; ret (-1)
        | Some ip => open_inode ip omode
        end
      else
        ip <- namei path ;;
        match ip with
        | None => end_op ;; ret (-1)
        | Some ip =>
            ilock ip ;;
            t <- iget_ ip i_type ;;
            if (t =? T_DIR) && negb (omode =? O_RDONLY) then
              iunlockput ip ;; end_op ;; ret (-1)
            else open_inode ip omode
        end
  end.

(** The end of [sys_mkdir] and [sys_mknod]. *)
Definition created (ip : option nat) : K Z :=
  match ip with
  | None => end_op ;; ret (-1)
  | Some ip => iunlockput ip ;; end_op ;; ret 0
  end.

Definition sys_mkdir : K Z :=
  begin_op ;;
  path <- argstr 0 MAXPATH ;;
  ip <- (match path with Some path => create path T_DIR 0 0 | None => ret None end) ;;
  created ip.

Definition sys_mknod : K Z :=
  begin_op ;;
  major <- argint 1 ;;
  minor <- argint 2 ;;
  path <- argstr 0 MAXPATH ;;
  ip <- (match path with
         | Some path => create path T_DEVICE (i16 major) (i16 minor)
         | None => ret None
         end) ;;
  created ip.

Definition sys_chdir : K Z :=
  p <- myproc' ;;
  begin_op ;;
  path <- argstr 0 MAXPATH ;;
  ip <- (match path with Some path => namei path | None => ret None end) ;;
  match ip with
  | None => end_op ;; ret (-1)
  | Some ip =>
      ilock ip ;;
      t <- iget_ ip i_type ;;
      if negb (t =? T_DIR) then iunlockput ip ;; end_op ;; ret (-1)
      else
        iunlock ip ;;
        cwd <- pget p p_cwd ;;
        cwd <- deref cwd ;;
        iput cwd ;;
        end_op ;;
        pset p (set_p_cwd (Some ip)) ;;
        ret 0
  end.

(** The loop of [sys_exec] that fetches the argument strings into pages of
    their own: whether all went well, and the pages. *)
Definition fetch_argv (uargv : Z) : K (bool * list Z) :=
  loop (S (Z.to_nat MAXARG)) (fun '(i, argv) =>
    if MAXARG <=? i then ret (inr (false, argv))
    else
      r <- fetchaddr (u64 (uargv + 8 * i)) ;;
      let '(e, uarg) := r in
      if e <? 0 then ret (inr (false, argv))
      else if uarg =? 0 then ret (inr (true, argv))
      else
        page <- onmem kalloc ;;
        if page =? 0 then ret (inr (false, argv))
        else
          r <- fetchstr uarg PGSIZE ;;
          setf memL (fun m => set_phys (write_bytes (phys m) page (snd r)) m) ;;
          if fst r <? 0 then ret (inr (false, argv ++ [page]))
          else ret (inl (i + 1, argv ++ [page]))) (0, []).

Definition sys_exec : K Z :=
  uargv <- argaddr 1 ;;
  path <- argstr 0 MAXPATH ;;
  match path with
  | None => ret (-1)
  | Some path =>
      r <- fetch_argv uargv ;;
      let '(ok, argv) := r in
      res <- (if (ok : bool) then exec path argv else ret (-1)) ;;
      iter argv (fun a => onmem (kfree a)) ;;
      ret res
  end.

Definition sys_pipe : K Z :=
  p <- myproc' ;;
  fdarray <- argaddr 0 ;;
  r <- pipealloc ;;
  match r with
  | None => ret (-1)
  | Some (rf, wf) =>
      fd0 <- fdalloc rf ;;
      fd1 <- (match fd0 with Some _ => fdalloc wf | None => ret None end) ;;
      match fd0, fd1 with
      | Some fd0, Some fd1 =>
          pagetable <- pget p p_pagetable ;;
          e <- onmem (copyout pagetable fdarray (le_bytes 4 (Z.of_nat fd0))) ;;
          e <- (if e <? 0 then ret e
                else onmem (copyout pagetable (u64 (fdarray + 4))
                              (le_bytes 4 (Z.of_nat fd1)))) ;;
          if e <? 0 then
            set_ofile p fd0 None ;;
            set_ofile p fd1 None ;;
            fileclose rf ;;
            fileclose wf ;;
            ret (-1)
          else ret 0
      | _, _ =>
          match fd0 with Some fd0 => set_ofile p fd0 None | None => ret tt end ;;
          fileclose rf ;;
          fileclose wf ;;
          ret (-1)
      end
  end.

(** ** kernel/syscall.c: dispatch *)

Definition syscalls (num : Z) : option (K Z) :=
  match num with
  | 1 => Some sys_fork
  | 2 => Some sys_exit
  | 3 => Some sys_wait
  | 4 => Some sys_pipe
  | 5 => Some sys_read
  | 6 => Some sys_kill
  | 7 => Some sys_exec
  | 8 => Some sys_fstat
  | 9 => Some sys_chdir
  | 10 => Some sys_dup
  | 11 => Some sys_getpid
  | 12 => Some sys_sbrk
  | 13 => Some sys_sleep
  | 14 => Some sys_uptime
  | 15 => Some sys_open
  | 16 => Some sys_write
  | 17 => Some sys_mknod
  | 18 => Some sys_unlink
  | 19 => Some sys_link
  | 20 => Some sys_mkdir
  | 21 => Some sys_close
  | 22 => Some sys_spoon
  | 23 => Some sys_create
  | 24 => Some sys_join
  | _ => None
  end.

Definition syscall : K unit :=
  p <- myproc' ;;
  num <- tf_get p (TF_a 7) ;;
  let num := i32 num in
  match syscalls num with
  | Some f =>
      r <- f ;;
      tf_set p (TF_a 0) (u64 r)
  | None =>
      pid <- pget p p_pid ;;
      name <- pget p p_name ;;
      printf ("%d %s: unknown sys call %d" +:+ nl)
        [PInt pid; PStr (Some name); PInt num] ;;
      tf_set p (TF_a 0) (u64 (-1))
  end.

End syscalls.
