(* ===== verification/Trap.v ===== *)
(** * Traps, interrupts and boot: kernel/trap.c, kernel/plic.c, kernel/main.c

    The disk driver's own interrupt handler and initialisation are those of
    [Virtio.v]; here they are parameters, since a transfer is one step for the
    rest of the kernel. *)

From S2P Require Import Prelude Params Memory Kalloc Vm Block State Sched Kcopy Uart Console.
From S2P Require Import Bio Log Fs File Proc Exec Syscall.

Definition csrget {A} (f : csr -> A) : K A := getf csrL f.
Definition csrset (f : csr -> csr) : K unit := setf csrL f.

Definition SATP_SV39 : Z := Z.shiftl 8 60.
Definition MAKE_SATP (pagetable : Z) : Z := Z.lor SATP_SV39 (Z.shiftr pagetable 12).

(** kernel/plic.c *)
Definition plic_claim : K Z := csrget plic_irq.
Definition plic_complete (irq : Z) : K unit :=
  csrset (fun c => set_plic_done (plic_done c ++ [irq]) c).


Definition plic_write (a v : Z) : K unit :=
  csrset (fun c => set_plic_conf (plic_conf c ++ [(a, v)]) c).

Definition plicinit : K unit :=
  plic_write (PLIC + UART0_IRQ * 4) 1 ;;
  plic_write (PLIC + VIRTIO0_IRQ * 4) 1.

Definition PLIC_SENABLE (hart : Z) : Z := PLIC + 0x2080 + hart * 0x100.
Definition PLIC_SPRIORITY (hart : Z) : Z := PLIC + 0x201000 + hart * 0x2000.

Definition plicinithart (hart : Z) : K unit :=
  plic_write (PLIC_SENABLE hart)
    (Z.lor (Z.shiftl 1 UART0_IRQ) (Z.shiftl 1 VIRTIO0_IRQ)) ;;
  plic_write (PLIC_SPRIORITY hart) 0.

Section trap.
Context `{Fuel, UartHw, Image}.
Variable virtio_disk_intr virtio_disk_init : K unit.

Definition trapinit : K unit := initlock tickslockL.
Definition trapinithart : K unit := csrset (set_stvec img_kernelvec).

Definition clockintr : K unit :=
  acquire tickslockL ;;
  setf ticksL (fun t => u32 (t + 1)) ;;
  wakeup ChanTicks ;;
  release tickslockL.

(** On processor 0. *)
Definition devintr : K Z :=
  scause <- csrget scause ;;
  if negb (Z.land scause 0x8000000000000000 =? 0) && (Z.land scause 0xff =? 9) then
    irq <- plic_claim ;;
    (if irq =? UART0_IRQ then uartintr
     else if irq =? VIRTIO0_IRQ then virtio_disk_intr
     else when (negb (irq =? 0))
       (printf ("unexpected interrupt irq=%d" +:+ nl) [PInt irq])) ;;
    when (negb (irq =? 0)) (plic_complete irq) ;;
    ret 1
  else if scause =? 0x8000000000000001 then
    clockintr ;;
    csrset (fun c => set_sip (Z.land (sip c) (Z.lnot 2)) c) ;;
    ret 2
  else ret 0.

(** The value is the argument of [userret], the user's [satp]. *)
Definition usertrapret : K Z :=
  p <- myproc' ;;
  intr_off ;;
  csrset (set_stvec (u64 (TRAMPOLINE + (img_uservec - img_trampoline)))) ;;
  satp <- csrget satp ;;
  tf_set p TF_kernel_satp satp ;;
  kstack <- pget p p_kstack ;;
  tf_set p TF_kernel_sp (u64 (kstack + PGSIZE)) ;;
  tf_set p TF_kernel_trap img_usertrap ;;
  tf_set p TF_kernel_hartid 0 ;;
  csrset (set_sstatus_SPP false) ;;
  csrset (set_sstatus_SPIE true) ;;
  epc <- tf_get p TF_epc ;;
  csrset (set_sepc epc) ;;
  pagetable <- pget p p_pagetable ;;
  ret (MAKE_SATP pagetable).

Definition usertrap : K Z :=
  spp <- csrget sstatus_SPP ;;
  panic_if spp "usertrap: not from user mode" ;;
  csrset (set_stvec img_kernelvec) ;;
  p <- myproc' ;;
  epc <- csrget sepc ;;
  tf_set p TF_epc epc ;;
  cause <- csrget scause ;;
  which_dev <- (if cause =? 8 then
    k <- killed p ;;
    when (negb (k =? 0)) (exit (-1)) ;;
    epc <- tf_get p TF_epc ;;
    tf_set p TF_epc (u64 (epc + 4)) ;;
    intr_on ;;
    syscall ;;
    ret 0
  else
    which_dev <- devintr ;;
    if negb (which_dev =? 0) then ret which_dev
    else
      pid <- pget p p_pid ;;
      printf ("usertrap(): unexpected scause %p pid=%d" +:+ nl) [PPtr cause; PInt pid] ;;
      epc <- csrget sepc ;;
      v <- csrget stval ;;
      printf ("            sepc=%p stval=%p" +:+ nl) [PPtr epc; PPtr v] ;;
      setkilled p ;;
      ret 0) ;;
  k <- killed p ;;
  when (negb (k =? 0)) (exit (-1)) ;;
  when (which_dev =? 2) yield ;;
  usertrapret.

Definition kerneltrap : K unit :=
  epc <- csrget sepc ;;
  spp <- csrget sstatus_SPP ;;
  spie <- csrget sstatus_SPIE ;;
  cause <- csrget scause ;;
  panic_if (negb spp) "kerneltrap: not from supervisor mode" ;;
  i <- intr_get ;;
  panic_if i "kerneltrap: interrupts enabled" ;;
  which_dev <- devintr ;;
  if which_dev =? 0 then
    printf ("scause %p" +:+ nl) [PPtr cause] ;;
    pc <- csrget sepc ;;
    v <- csrget stval ;;
    printf ("sepc=%p stval=%p" +:+ nl) [PPtr pc; PPtr v] ;;
    panic "kerneltrap"
  else
    me <- myproc ;;
    st <- (match me with Some p => pget p p_state | None => ret UNUSED end) ;;
    when ((which_dev =? 2) && bool_decide (st = RUNNING)) yield ;;
    csrset (set_sepc epc) ;;
    (* w_sstatus: interrupts were off when the trap was taken *)
    csrset (set_sstatus_SPP spp) ;;
    csrset (set_sstatus_SPIE spie) ;;
    intr_off.

(** kernel/proc.c: the first code of a new process in the kernel *)
Definition forkret : K Z :=
  p <- myproc' ;;
  release (p_lockL p) ;;
  first <- gets k_first ;;
  when first (
    modify (set_k_first false) ;;
    fsinit ROOTDEV) ;;
  usertrapret.

(** ** kernel/main.c, on processor 0 *)

Definition kvminit : K Z := onmem (kvmmake img_etext img_trampoline).
Definition kvminithart (kernel_pagetable : Z) : K unit :=
  csrset (set_satp (MAKE_SATP kernel_pagetable)).

Definition main : K unit :=
  consoleinit ;;
  printfinit ;;
  printf nl [] ;;
  printf ("xv6 kernel is booting" +:+ nl) [] ;;
  printf nl [] ;;
  onmem (kinit img_end) ;;
  kernel_pagetable <- kvminit ;;
  kvminithart kernel_pagetable ;;
  procinit ;;
  trapinit ;;
  trapinithart ;;
  plicinit ;;
  plicinithart 0 ;;
  binit ;;
  iinit ;;
  fileinit ;;
  virtio_disk_init ;;
  userinit.

End trap.
