(* ===== verification/Harts.v ===== *)
(** * Spin locks between harts

    kernel/spinlock.c as several harts execute it at the same time: every
    step of the machine below is one access to a lock, and the steps of
    different harts interleave in any order.  [push_off] and [pop_off] only
    touch the hart's own [struct cpu] and are single steps.  Memory is
    sequentially consistent, which is what the fences in the code ask for. *)

From stdpp Require Import functions.
From S2P Require Import Prelude Params Memory Kalloc State.

Module Harts.

Record spinlock := Spinlock {
  locked : bool;
  lk_cpu : option nat;
}.

(** Where in spinlock.c a hart is.  [holding] reads [lk->locked] and then, if
    it is set, [lk->cpu]: two steps, in [acquire] and in [release]. *)
Inductive pc :=
| Run
| AcqHolding (lk : nat)
| AcqHoldingCpu (lk : nat)
| AcqSwap (lk : nat)
| AcqCpu (lk : nat)
| RelHolding (lk : nat)
| RelHoldingCpu (lk : nat)
| RelCpu (lk : nat)
| RelSwap (lk : nat)
| RelPop
| Panicked (msg : string) (lk : nat).

(** A hart, with the locks it has acquired and not begun to release, and the
    number of its own calls of [push_off] that are still open. *)
Record hart := Hart {
  h_cpu : cpu;
  h_pc : pc;
  h_held : list nat;
  h_nest : nat;
}.

Record machine := Machine {
  locks : nat -> spinlock;
  harts : nat -> hart;
}.

Definition set_lock (lk : nat) (l : spinlock) (m : machine) : machine :=
  Machine (<[lk := l]> (locks m)) (harts m).
Definition set_hart (h : nat) (x : hart) (m : machine) : machine :=
  Machine (locks m) (<[h := x]> (harts m)).
Definition goto (h : nat) (p : pc) (m : machine) : machine :=
  let x := harts m h in set_hart h (Hart (h_cpu x) p (h_held x) (h_nest x)) m.

Definition push_off (c : cpu) : cpu :=
  let old := intr c in
  let c := set_intr false c in
  let c := if noff c =? 0 then set_intena old c else c in
  set_noff (noff c + 1) c.

Definition pop_off (c : cpu) : string + cpu :=
  if intr c then inl "pop_off - interruptible"
  else if noff c <? 1 then inl "pop_off"
  else
    let c := set_noff (noff c - 1) c in
    inr (if (noff c =? 0) && intena c then set_intr true c else c).

Definition initlock : spinlock := Spinlock false None.

(** What a hart outside spinlock.c may call. *)
Inductive op :=
| Acquire (lk : nat)
| Release (lk : nat)
| PushOff
| PopOff.

Definition call (h : nat) (o : op) (m : machine) : machine :=
  let x := harts m h in
  match o with
  | Acquire lk =>
      set_hart h (Hart (push_off (h_cpu x)) (AcqHolding lk) (h_held x) (h_nest x)) m
  | Release lk => goto h (RelHolding lk) m
  | PushOff => set_hart h (Hart (push_off (h_cpu x)) Run (h_held x) (S (h_nest x))) m
  | PopOff =>
      match pop_off (h_cpu x) with
      | inl msg => goto h (Panicked msg 0) m
      | inr c => set_hart h (Hart c Run (h_held x) (pred (h_nest x))) m
      end
  end.

(** The next step of a hart inside spinlock.c. *)
Definition advance (h : nat) (m : machine) : machine :=
  let x := harts m h in
  match h_pc x with
  | Run | Panicked _ _ => m
  | AcqHolding lk =>
      goto h (if locked (locks m lk) then AcqHoldingCpu lk else AcqSwap lk) m
  | AcqHoldingCpu lk =>
      goto h (if bool_decide (lk_cpu (locks m lk) = Some h) then Panicked "acquire" lk
              else AcqSwap lk) m
  | AcqSwap lk =>
      let was := locked (locks m lk) in
      goto h (if was then AcqSwap lk else AcqCpu lk)
        (set_lock lk (Spinlock true (lk_cpu (locks m lk))) m)
  | AcqCpu lk =>
      set_hart h (Hart (h_cpu x) Run (lk :: h_held x) (h_nest x))
        (set_lock lk (Spinlock (locked (locks m lk)) (Some h)) m)
  | RelHolding lk =>
      goto h (if locked (locks m lk) then RelHoldingCpu lk else Panicked "release" lk) m
  | RelHoldingCpu lk =>
      if bool_decide (lk_cpu (locks m lk) = Some h) then
        set_hart h (Hart (h_cpu x) (RelCpu lk) (filter (.≠ lk) (h_held x)) (h_nest x)) m
      else goto h (Panicked "release" lk) m
  | RelCpu lk => goto h (RelSwap lk) (set_lock lk (Spinlock (locked (locks m lk)) None) m)
  | RelSwap lk => goto h RelPop (set_lock lk (Spinlock false (lk_cpu (locks m lk))) m)
  | RelPop =>
      match pop_off (h_cpu x) with
      | inl msg => goto h (Panicked msg 0) m
      | inr c => set_hart h (Hart c Run (h_held x) (h_nest x)) m
      end
  end.

(** Any hart may go on, or call a function of spinlock.c; it matches its own
    [pop_off]s with [push_off]s, and nothing else is asked of it. *)
Inductive step (m : machine) : machine -> Prop :=
| step_call h o :
    h_pc (harts m h) = Run -> (o = PopOff -> (0 < h_nest (harts m h))%nat) ->
    step m (call h o m)
| step_advance h : step m (advance h m).

(** Locks after [initlock], harts that hold none and run with interrupts on or off. *)
Record initial (m : machine) : Prop := {
  init_locks lk : locks m lk = initlock;
  init_pc h : h_pc (harts m h) = Run;
  init_held h : h_held (harts m h) = [];
  init_nest h : h_nest (harts m h) = 0%nat;
  init_noff h : noff (h_cpu (harts m h)) = 0;
}.

(** ** The invariant *)

(** The hart at this point has set [locked] and not reset it. *)
Definition swapping (p : pc) (lk : nat) : Prop :=
  p = AcqCpu lk \/ p = RelCpu lk \/ p = RelSwap lk.

Definition owns (m : machine) (h lk : nat) : Prop :=
  lk ∈ h_held (harts m h) \/ swapping (h_pc (harts m h)) lk.

(** One level of nesting that belongs to a lock not in [h_held]. *)
Definition extra (p : pc) : Z :=
  match p with
  | AcqHolding _ | AcqHoldingCpu _ | AcqSwap _ | AcqCpu _ | RelCpu _ | RelSwap _ | RelPop => 1
  | Panicked msg _ => if decide (msg = "acquire") then 1 else 0
  | _ => 0
  end.

Definition cpu_inv (x : hart) : Prop :=
  noff (h_cpu x) = Z.of_nat (h_nest x) + Z.of_nat (length (h_held x)) + extra (h_pc x) /\
  (0 < noff (h_cpu x) -> intr (h_cpu x) = false).

Definition pc_inv (x : hart) : Prop :=
  match h_pc x with
  | AcqSwap lk | AcqCpu lk | RelCpu lk | RelSwap lk => lk ∉ h_held x
  | Panicked msg lk =>
      msg = "acquire" /\ lk ∈ h_held x \/ msg = "release" /\ lk ∉ h_held x
  | _ => True
  end.

Definition lock_inv (m : machine) (lk : nat) : Prop :=
  (locked (locks m lk) = true <-> exists h, owns m h lk) /\
  (forall h1 h2, owns m h1 lk -> owns m h2 lk -> h1 = h2) /\
  (forall h, lk_cpu (locks m lk) = Some h <->
     lk ∈ h_held (harts m h) \/ h_pc (harts m h) = RelCpu lk).

Record inv (m : machine) : Prop := {
  inv_lock lk : lock_inv m lk;
  inv_cpu h : cpu_inv (harts m h);
  inv_pc h : pc_inv (harts m h);
  inv_nodup h : NoDup (h_held (harts m h));
}.

(** ** Steps that concern one hart and one lock *)

(** [m'] differs from [m] in hart [h] only, as far as harts go. *)
Definition only (h : nat) (m m' : machine) : Prop :=
  forall h', h' <> h -> harts m' h' = harts m h'.

Lemma owns_other h m m' h' lk : only h m m' -> h' <> h -> owns m' h' lk <-> owns m h' lk.
Proof. unfold owns. intros Ho Hn. by rewrite (Ho h' Hn). Qed.

Lemma owner_cpu m lk h : lock_inv m lk -> owns m h lk ->
  forall h', lk_cpu (locks m lk) = Some h' -> h' = h.
Proof.
  unfold lock_inv, owns, swapping. intros (_ & Hu & Hc) Ho h' Hs%Hc. apply (Hu h' h); tauto.
Qed.

(** The lock and what [h] has to do with it stay the same. *)
Lemma lock_same h m m' lk :
  only h m m' -> locks m' lk = locks m lk ->
  (lk ∈ h_held (harts m' h) <-> lk ∈ h_held (harts m h)) ->
  (swapping (h_pc (harts m' h)) lk <-> swapping (h_pc (harts m h)) lk) ->
  (h_pc (harts m' h) = RelCpu lk <-> h_pc (harts m h) = RelCpu lk) ->
  lock_inv m lk -> lock_inv m' lk.
Proof.
  intros Ho Hl Hh Hs Hp (H1 & H2 & H3).
  assert (Hown : forall h', owns m' h' lk <-> owns m h' lk).
  { intros h'. destruct (decide (h' = h)) as [->|]; [|by eapply owns_other].
    unfold owns. by rewrite Hh, Hs. }
  unfold lock_inv. rewrite Hl. split_and!.
  - rewrite H1. by setoid_rewrite Hown.
  - intros h1 h2. rewrite !Hown. apply H2.
  - intros h'. rewrite H3. destruct (decide (h' = h)) as [->|Hn]; [by rewrite Hh, Hp|].
    by rewrite (Ho h' Hn).
Qed.

(** [h] owns the lock before and after, and keeps [lk->cpu] up to date. *)
Lemma lock_owned h m m' lk :
  only h m m' -> owns m h lk -> owns m' h lk -> locked (locks m' lk) = locked (locks m lk) ->
  (lk_cpu (locks m' lk) = None \/ lk_cpu (locks m' lk) = Some h) ->
  (lk_cpu (locks m' lk) = Some h <->
     lk ∈ h_held (harts m' h) \/ h_pc (harts m' h) = RelCpu lk) ->
  lock_inv m lk -> lock_inv m' lk.
Proof.
  intros Ho H0 H0' Hl Hc Hh (H1 & H2 & H3).
  assert (Honly : forall h', owns m' h' lk -> h' = h).
  { intros h' Hw. destruct (decide (h' = h)) as [|Hn]; [done|].
    apply (H2 h' h); [by rewrite <-(owns_other h m m')|done]. }
  split_and!.
  - rewrite Hl, H1. split; eauto.
  - intros h1 h2 ->%Honly ->%Honly. done.
  - intros h'. destruct (decide (h' = h)) as [->|Hn]; [done|]. split.
    + intros E. destruct Hc as [Hc|Hc]; congruence.
    + intros Hw. destruct Hn. apply Honly. unfold owns, swapping. tauto.
Qed.

(** [h] takes a free lock. *)
Lemma lock_taken h m m' lk :
  only h m m' -> locked (locks m lk) = false -> h_pc (harts m' h) = AcqCpu lk ->
  h_held (harts m' h) = h_held (harts m h) -> locked (locks m' lk) = true ->
  lk_cpu (locks m' lk) = lk_cpu (locks m lk) -> lock_inv m lk -> lock_inv m' lk.
Proof.
  intros Ho Hf Hp Hh Hl Hc (H1 & H2 & H3).
  assert (Hno : forall h', ~ owns m h' lk).
  { intros h' Hw. pose proof (proj2 H1 (ex_intro _ h' Hw)). congruence. }
  assert (Hown : forall h', owns m' h' lk <-> h' = h).
  { intros h'. destruct (decide (h' = h)) as [->|Hn].
    - split; [done|]. intros _. right. by left.
    - rewrite (owns_other h m m') by done. split; [by intros ?%Hno|done]. }
  split_and!.
  - rewrite Hl. split; [|done]. intros _. exists h. by apply Hown.
  - intros h1 h2 ->%Hown ->%Hown. done.
  - intros h'. rewrite Hc, H3. destruct (decide (h' = h)) as [->|Hn]; [|by rewrite (Ho h' Hn)].
    rewrite Hh, Hp. split; [intros [?|?]|intros [?|?]; [by left|done]].
    + by left.
    + destruct (Hno h). right. unfold swapping. tauto.
Qed.

(** [h] gives the lock back. *)
Lemma lock_freed h m m' lk :
  only h m m' -> h_pc (harts m h) = RelSwap lk -> lk ∉ h_held (harts m h) ->
  ~ swapping (h_pc (harts m' h)) lk -> h_held (harts m' h) = h_held (harts m h) ->
  locked (locks m' lk) = false -> lk_cpu (locks m' lk) = lk_cpu (locks m lk) ->
  lock_inv m lk -> lock_inv m' lk.
Proof.
  intros Ho Hp Hn Hs Hh Hl Hc (H1 & H2 & H3).
  assert (Hw : owns m h lk) by (right; rewrite Hp; unfold swapping; tauto).
  assert (Hno : forall h', ~ owns m' h' lk).
  { intros h' Hw'. destruct (decide (h' = h)) as [->|Hne].
    - destruct Hw' as [Hw'|Hw']; [by rewrite Hh in Hw'|done].
    - apply Hne, (H2 h' h); [by rewrite <-(owns_other h m m')|done]. }
  split_and!.
  - rewrite Hl. split; [done|]. by intros [h' ?%Hno].
  - by intros h1 h2 ?%Hno.
  - intros h'. rewrite Hc. split.
    + intros E. assert (h' = h) as -> by (eapply owner_cpu; [|done|done]; by split_and!).
      apply H3 in E as [|E]; [done|]. congruence.
    + intros Hw'. destruct (Hno h'). unfold owns, swapping. tauto.
Qed.

(** ** The invariant is preserved *)

Lemma push_off_inv c : 0 <= noff c -> noff (push_off c) = noff c + 1 /\ intr (push_off c) = false.
Proof. intros. unfold push_off. cbn. by destruct (noff c =? 0). Qed.

Lemma pop_off_inv c : 0 < noff c -> intr c = false ->
  exists c', pop_off c = inr c' /\ noff c' = noff c - 1 /\ (0 < noff c' -> intr c' = false).
Proof.
  intros Hn Hi. unfold pop_off. rewrite Hi. destruct (Z.ltb_spec (noff c) 1); [lia|]. eexists.
  split; [done|]. simpl. destruct (Z.eqb_spec (noff c - 1) 0) as [E|E]; simpl.
  - destruct (intena c); simpl; split; lia || done.
  - done.
Qed.

Lemma only_set_hart h x m : only h m (set_hart h x m).
Proof. intros h' Hn. simpl. by rewrite fn_lookup_insert_ne by done. Qed.

Lemma only_set_lock h x lk l m : only h m (set_hart h x (set_lock lk l m)).
Proof. apply (only_set_hart h x (set_lock lk l m)). Qed.

Lemma filter_notin (lk : nat) (l : list nat) : lk ∉ l -> filter (.≠ lk) l = l.
Proof.
  induction l as [|a l IH]; [done|]. rewrite not_elem_of_cons, filter_cons. intros [Ha Hl].
  rewrite decide_True by done. by rewrite IH.
Qed.

Lemma filter_length_nodup (lk : nat) (l : list nat) : NoDup l -> lk ∈ l ->
  S (length (filter (.≠ lk) l)) = length l.
Proof.
  induction 1 as [|a l Ha Hl IH]; [by intros ?%not_elem_of_nil|].
  rewrite filter_cons, elem_of_cons. intros [->|Hin].
  - rewrite decide_False by auto. simpl. by rewrite filter_notin.
  - rewrite decide_True by (intros ->; done). simpl. by rewrite IH.
Qed.

(** What is left to show when only hart [h] changes. *)
Lemma inv_step h m m' :
  inv m -> only h m m' -> (forall lk, lock_inv m lk -> lock_inv m' lk) ->
  cpu_inv (harts m' h) -> pc_inv (harts m' h) -> NoDup (h_held (harts m' h)) -> inv m'.
Proof.
  intros [Il Ic Ip In] Ho Hl Hc Hp Hn. split.
  - intros lk. apply Hl, Il.
  - intros h'. destruct (decide (h' = h)) as [->|Hne]; [done|]. by rewrite (Ho h' Hne).
  - intros h'. destruct (decide (h' = h)) as [->|Hne]; [done|]. by rewrite (Ho h' Hne).
  - intros h'. destruct (decide (h' = h)) as [->|Hne]; [done|]. by rewrite (Ho h' Hne).
Qed.

(** A hart that goes on without touching a lock, and owns what it owned. *)
Lemma inv_quiet h m x :
  inv m -> h_held x = h_held (harts m h) ->
  (forall lk, swapping (h_pc (harts m h)) lk <-> swapping (h_pc x) lk) ->
  (forall lk, h_pc (harts m h) = RelCpu lk <-> h_pc x = RelCpu lk) ->
  cpu_inv x -> pc_inv x -> inv (set_hart h x m).
Proof.
  intros Hi Hh Hs Hr Hc Hp. apply (inv_step h m); simpl; rewrite ?fn_lookup_insert; try done.
  - apply only_set_hart.
  - intros lk. apply (lock_same h); simpl; rewrite ?fn_lookup_insert, ?Hh; try done.
    apply only_set_hart.
  - rewrite Hh. apply (inv_nodup m Hi).
Qed.

Lemma held_locked m h lk : inv m -> locked (locks m lk) = false -> lk ∉ h_held (harts m h).
Proof.
  intros Hi Hl Hin. destruct (inv_lock m Hi lk) as [H1 _].
  enough (locked (locks m lk) = true) by congruence. apply H1. exists h. by left.
Qed.

Lemma held_cpu m h lk : inv m -> (forall lk', h_pc (harts m h) <> RelCpu lk') ->
  lk_cpu (locks m lk) = Some h <-> lk ∈ h_held (harts m h).
Proof.
  intros Hi Hp. destruct (inv_lock m Hi lk) as (_ & _ & H3). rewrite H3.
  split; [intros [?|?]; [done|by destruct (Hp lk)]|by left].
Qed.

(** The goals of [inv_quiet] for a hart whose program counter changes. *)
Ltac quiet_pc Ex :=
  unfold goto; apply inv_quiet; simpl; rewrite ?Ex; unfold swapping; try done;
    try (intros; intuition congruence).

(** The goals of [lock_same] for a lock that the step is not about. *)
Ltac other_lock h m Ex :=
  apply (lock_same h m); simpl; rewrite ?fn_lookup_insert, ?fn_lookup_insert_ne, ?Ex by done;
    simpl; rewrite ?elem_of_cons; unfold swapping; try (intuition congruence);
    try apply only_set_lock.

Lemma cpu_inv_pc x p : cpu_inv x -> extra p = extra (h_pc x) ->
  cpu_inv (Hart (h_cpu x) p (h_held x) (h_nest x)).
Proof. unfold cpu_inv. simpl. by intros ? ->. Qed.

Lemma call_inv h o m : h_pc (harts m h) = Run ->
  (o = PopOff -> (0 < h_nest (harts m h))%nat) -> inv m -> inv (call h o m).
Proof.
  intros Ex Hpop Hi. pose proof (inv_cpu m Hi h) as [Hn Hf]. rewrite Ex in Hn. simpl in Hn.
  destruct o; unfold call.
  - destruct (push_off_inv (h_cpu (harts m h))) as [E1 E2]; [lia|].
    generalize dependent (push_off (h_cpu (harts m h))). intros c E1 E2.
    quiet_pc Ex. split; simpl; [lia|done].
  - quiet_pc Ex.
  - destruct (push_off_inv (h_cpu (harts m h))) as [E1 E2]; [lia|].
    generalize dependent (push_off (h_cpu (harts m h))). intros c E1 E2.
    quiet_pc Ex. split; simpl; [lia|done].
  - specialize (Hpop eq_refl). destruct (pop_off_inv (h_cpu (harts m h))) as (c & -> & E1 & E2);
      [lia|apply Hf; lia|].
    quiet_pc Ex. split; simpl; [lia|done].
Qed.

Lemma advance_swap_inv h lk m : inv m -> h_pc (harts m h) = AcqSwap lk -> inv (advance h m).
Proof.
  intros Hi Ex. pose proof (inv_pc m Hi h) as Hp. unfold advance, pc_inv, goto in *.
  rewrite Ex in *. apply (inv_step h m); simpl; rewrite ?fn_lookup_insert; simpl;
    [done|apply only_set_lock| | | |apply (inv_nodup m Hi)].
  - intros lk' Hl. destruct (decide (lk' = lk)) as [->|Hne].
    + destruct (locked (locks m lk)) eqn:El.
      * apply (lock_same h m); simpl; rewrite ?fn_lookup_insert, ?Ex; try done.
        -- apply only_set_lock.
        -- rewrite <-El. by destruct (locks m lk).
      * apply (lock_taken h m); simpl; rewrite ?fn_lookup_insert; try done. apply only_set_lock.
    + destruct (locked (locks m lk)); other_lock h m Ex.
  - apply cpu_inv_pc; [apply (inv_cpu m Hi)|]. rewrite Ex. by destruct (locked _).
  - by destruct (locked _).
Qed.

Lemma advance_cpu_inv h lk m : inv m -> h_pc (harts m h) = AcqCpu lk -> inv (advance h m).
Proof.
  intros Hi Ex. pose proof (inv_pc m Hi h) as Hp. pose proof (inv_cpu m Hi h) as [Hc1 Hc2].
  unfold advance, pc_inv in *. rewrite Ex in *.
  apply (inv_step h m); simpl; rewrite ?fn_lookup_insert; simpl;
    [done|apply only_set_lock| | |done|by constructor; [|apply (inv_nodup m Hi)]].
  - intros lk' Hl. destruct (decide (lk' = lk)) as [->|Hne]; [|other_lock h m Ex].
    apply (lock_owned h m); unfold owns, swapping; simpl; rewrite ?fn_lookup_insert; simpl;
      rewrite ?elem_of_cons; try tauto. apply only_set_lock.
  - simpl in Hc1. split; simpl; [lia|done].
Qed.

Lemma advance_holding_inv h lk m : inv m -> h_pc (harts m h) = RelHoldingCpu lk ->
  inv (advance h m).
Proof.
  intros Hi Ex. pose proof (inv_cpu m Hi h) as [Hc1 Hc2]. pose proof (inv_nodup m Hi h) as Hd.
  pose proof (held_cpu m h lk Hi ltac:(intros ?; by rewrite Ex)) as Hh.
  unfold advance, pc_inv in *. rewrite Ex in *. simpl in Hc1. case_bool_decide as Hb.
  - apply Hh in Hb as Hin. pose proof (filter_length_nodup lk _ Hd Hin) as Hlen.
    assert (Hfil : forall l, l ∈ filter (.≠ lk) (h_held (harts m h)) <->
      l <> lk /\ l ∈ h_held (harts m h)) by (intros; by rewrite list_elem_of_filter).
    apply (inv_step h m); simpl; rewrite ?fn_lookup_insert; simpl;
      [done|apply only_set_hart| | | |by apply NoDup_filter].
    + intros lk' Hl. destruct (decide (lk' = lk)) as [->|Hne].
      * apply (lock_owned h m); unfold owns, swapping; simpl; rewrite ?fn_lookup_insert; simpl;
          try tauto. apply only_set_hart.
      * apply (lock_same h m); simpl; rewrite ?fn_lookup_insert; simpl; rewrite ?Ex, ?Hfil;
          unfold swapping; try (intuition congruence). apply only_set_hart.
    + split; simpl; [lia|done].
    + unfold pc_inv. simpl. rewrite Hfil. tauto.
  - quiet_pc Ex. right. split; [done|]. by rewrite <-Hh.
Qed.

Lemma advance_release_inv h lk m : inv m ->
  h_pc (harts m h) = RelCpu lk \/ h_pc (harts m h) = RelSwap lk -> inv (advance h m).
Proof.
  intros Hi Ex. pose proof (inv_pc m Hi h) as Hp. pose proof (inv_cpu m Hi h) as Hc.
  unfold advance, pc_inv, goto in *.
  destruct Ex as [Ex|Ex]; rewrite Ex in *; apply (inv_step h m); simpl;
    rewrite ?fn_lookup_insert; simpl; try done; try apply only_set_lock;
    try apply (inv_nodup m Hi); try (by apply cpu_inv_pc; [|rewrite Ex]);
    intros lk' Hl; (destruct (decide (lk' = lk)) as [->|Hne]; [|other_lock h m Ex]).
  - apply (lock_owned h m); unfold owns, swapping; simpl; rewrite ?fn_lookup_insert; simpl;
      try tauto; [apply only_set_lock|]. intuition congruence.
  - apply (lock_freed h m); unfold swapping; simpl; rewrite ?fn_lookup_insert; simpl;
      try done; [apply only_set_lock|]. intuition congruence.
Qed.

Lemma advance_inv h m : inv m -> inv (advance h m).
Proof.
  intros Hi. pose proof (inv_cpu m Hi h) as Hc. 
  destruct (h_pc (harts m h)) as [|lk|lk|lk|lk|lk|lk|lk|lk| |msg lk] eqn:Ex;
    eauto using advance_swap_inv, advance_cpu_inv, advance_holding_inv, advance_release_inv;
    unfold advance; rewrite Ex; try done.
  - destruct (locked (locks m lk)) eqn:El; quiet_pc Ex; try (by apply cpu_inv_pc; [|rewrite Ex]).
    by apply held_locked.
  - pose proof (held_cpu m h lk Hi ltac:(intros ?; by rewrite Ex)) as Hh.
    case_bool_decide as Hb; quiet_pc Ex; try (by apply cpu_inv_pc; [|rewrite Ex]).
    + left. split; [done|]. by apply Hh.
    + unfold pc_inv. simpl. by rewrite <-Hh.
  - destruct (locked (locks m lk)) eqn:El; quiet_pc Ex; try (by apply cpu_inv_pc; [|rewrite Ex]).
    right. split; [done|]. by apply held_locked.
  - destruct Hc as [Hn Hf]. rewrite Ex in Hn. simpl in Hn.
    destruct (pop_off_inv (h_cpu (harts m h))) as (c & -> & E1 & E2); [lia|apply Hf; lia|].
    quiet_pc Ex. split; simpl; [lia|done].
Qed.

Lemma reachable_inv m0 m : initial m0 -> rtc step m0 m -> inv m.
Proof.
  intros [Il Ip Ih In Io] Hr.
  assert (Hinit : inv m0).
  { split.
    - intros lk. unfold lock_inv, owns, swapping. setoid_rewrite Ih. setoid_rewrite Ip.
      rewrite Il. simpl. setoid_rewrite elem_of_nil. split_and!.
      + split; [done|]. intros [h [[]|[|[|]]]]; done.
      + intros h1 h2 [[]|[|[|]]]; done.
      + intros h. split; [done|]. by intros [[]|].
    - intros h. unfold cpu_inv. rewrite Ih, In, Ip, Io. done.
    - intros h. unfold pc_inv. by rewrite Ip.
    - intros h. rewrite Ih. constructor. }
  clear -Hinit Hr. induction Hr as [|m1 m2 m3 Hs _ IH]; [done|].
  apply IH. destruct Hs; auto using call_inv, advance_inv.
Qed.

(** ** Mutual exclusion *)

(** C6: spin locks exclude each other's harts.  However the steps of any number of
    harts interleave: a lock is held by one hart at most; a hart that holds
    a lock runs with interrupts off; [acquire] panics only on a hart that
    holds the lock already and [release] only on one that does not, although
    [holding] reads the lock without holding it; and a hart that finds the lock taken waits for another
    hart, which has it. *)
Theorem spinlock_mutual_exclusion (m0 m : machine) :
  initial m0 -> rtc step m0 m ->
  (forall lk h1 h2, lk ∈ h_held (harts m h1) -> lk ∈ h_held (harts m h2) -> h1 = h2) /\
  (forall h, h_held (harts m h) <> [] -> intr (h_cpu (harts m h)) = false) /\
  (forall h msg lk, h_pc (harts m h) = Panicked msg lk ->
     msg = "acquire" /\ lk ∈ h_held (harts m h) \/ msg = "release" /\ lk ∉ h_held (harts m h)) /\
  (forall h lk, h_pc (harts m h) = AcqSwap lk ->
     if locked (locks m lk) then exists h', h' <> h /\ owns m h' lk
     else h_pc (harts (advance h m) h) = AcqCpu lk).
Proof.
  intros H0 Hr. pose proof (reachable_inv m0 m H0 Hr) as Hi. split_and!.
  - intros lk h1 h2 H1 H2. apply (inv_lock m Hi lk); by left.
  - intros h Hh. destruct (inv_cpu m Hi h) as [Hn Hf]. apply Hf. rewrite Hn.
    destruct (h_held (harts m h)) as [|a l]; [done|].
    assert (0 <= extra (h_pc (harts m h))) by (destruct (h_pc _); simpl; try case_decide; lia).
    simpl. lia.
  - intros h msg lk Hp. pose proof (inv_pc m Hi h) as Hq. unfold pc_inv in Hq. by rewrite Hp in Hq.
  - intros h lk Hp. destruct (locked (locks m lk)) eqn:El.
    + apply (inv_lock m Hi lk) in El as [h' Hw]. exists h'. split; [|done]. intros ->.
      pose proof (inv_pc m Hi h) as Hq. unfold pc_inv in Hq. rewrite Hp in Hq.
      destruct Hw as [Hw|Hw]; [done|]. rewrite Hp in Hw. by destruct Hw as [|[|]].
    + unfold advance. rewrite Hp, El. simpl. by rewrite fn_lookup_insert.
Qed.

(** Two harts after the boot; hart 0 has acquired lock 5, hart 1 waits for it. *)
Definition two_harts : machine :=
  Machine (fun _ => initlock) (fun _ => Hart (Cpu None 0 false true) Run [] 0).

Definition contended : machine :=
  let m := call 0 (Acquire 5) two_harts in
  let m := advance 0 m in
  let m := call 1 (Acquire 5) m in
  let m := advance 0 m in
  let m := advance 1 m in
  let m := advance 1 m in
  advance 0 m.

Lemma spinlock_mutual_exclusion_witness :
  rtc step two_harts contended /\ intr (h_cpu (harts contended 0)) = false /\
  exists h', h' <> 1%nat /\ owns contended h' 5.
Proof.
  assert (Hr : rtc step two_harts contended).
  { unfold contended. cbv zeta.
    repeat first [apply rtc_refl
      | eapply rtc_r; [|apply step_advance]
      | eapply rtc_r; [|apply step_call; [reflexivity|done]]]. }
  destruct (spinlock_mutual_exclusion two_harts contended) as (_ & H2 & _ & H4).
  - by split.
  - exact Hr.
  - split; [exact Hr|]. split; [apply H2; done|]. exact (H4 1%nat 5%nat eq_refl).
Defined.

End Harts.
