(* ===== verification/SleepHarts.v ===== *)
(** * Sleep and wakeup between harts

    [sleep], [wakeup], [sched], [scheduler] and [yield] of kernel/proc.c with
    the sleep locks of kernel/sleeplock.c, as several harts execute them at the
    same time.  Every access to a lock or to the data it protects is a step,
    and the steps of different harts interleave in any order.  A call of
    [acquire] or [release] is one step here; Harts.v shows what happens inside.

    A hart runs the loop of [scheduler] or the kernel thread of a process, and
    [swtch] goes from one to the other.  A process that is not in this code
    ([Idle]) may call [acquiresleep] or [yield] at any time, and [releasesleep]
    for a sleep lock it holds. *)

From stdpp Require Import functions.
From S2P Require Import Prelude Params Memory Kalloc State.

Module SleepHarts.

(** The spin locks: that of a sleep lock and that of a process. *)
Inductive lock :=
| LkS (l : nat)
| LkP (j : nat).

#[export] Instance lock_eq_dec : EqDecision lock.
Proof. solve_decision. Defined.

Record slock := Slock {
  s_lk : option nat;
  s_locked : bool;
  s_pid : Z;
}.

(** Where the kernel thread of a process is, in [acquiresleep], [sleep],
    [releasesleep], [wakeup] or [yield]. *)
Inductive ppc :=
| Idle
| AcqLk (l : nat)
| TestLocked (l : nat)
| SetLocked (l : nat)
| SetPid (l : nat)
| RelLk (l : nat)
| SlAcqP (l : nat)
| SlRelLk (l : nat)
| SlChan (l : nat)
| SlState (l : nat)
| SlSched (l : nat)
| SlWake (l : nat)
| SlRelP (l : nat)
| SlAcqLk (l : nat)
| RlAcqLk (l : nat)
| RlClear (l : nat)
| RlPid (l : nat)
| WkLoop (l k : nat)
| WkTest (l k : nat)
| WkRelP (l k : nat)
| RlRelLk (l : nat)
| YdAcqP
| YdState
| YdSched
| YdRelP.

(** [p_held] are the sleep locks whose [acquiresleep] has returned and whose
    [releasesleep] has not been called. *)
Record process := Process {
  p_lk : option nat;
  p_st : procstate;
  p_ch : option nat;
  p_id : Z;
  p_pc : ppc;
  p_held : list nat;
}.

(** Where a hart is: in [scheduler], about to take the lock of process [k],
    with the lock in front of the test of its state, or after [swtch] has
    returned; or in the thread of a process. *)
Inductive hpc :=
| Scan (k : nat)
| Test (k : nat)
| Back (k : nat)
| Run (j : nat)
| Panicked (msg : string).

Record hart := Hart {
  h_pc : hpc;
  h_noff : Z;
}.

Record machine := Machine {
  slocks : nat -> slock;
  procs : nat -> process;
  harts : nat -> hart;
}.

Definition on_slock (l : nat) (f : slock -> slock) (m : machine) : machine :=
  Machine (<[l := f (slocks m l)]> (slocks m)) (procs m) (harts m).
Definition on_proc (j : nat) (f : process -> process) (m : machine) : machine :=
  Machine (slocks m) (<[j := f (procs m j)]> (procs m)) (harts m).
Definition on_hart (h : nat) (f : hart -> hart) (m : machine) : machine :=
  Machine (slocks m) (procs m) (<[h := f (harts m h)]> (harts m)).

Definition owner (m : machine) (k : lock) : option nat :=
  match k with LkS l => s_lk (slocks m l) | LkP j => p_lk (procs m j) end.
Definition set_owner (k : lock) (o : option nat) : machine -> machine :=
  match k with
  | LkS l => on_slock l (fun s => Slock o (s_locked s) (s_pid s))
  | LkP j => on_proc j (fun p => Process o (p_st p) (p_ch p) (p_id p) (p_pc p) (p_held p))
  end.
Definition set_locked (l : nat) (b : bool) : machine -> machine :=
  on_slock l (fun s => Slock (s_lk s) b (s_pid s)).
Definition set_pid (l : nat) (x : Z) : machine -> machine :=
  on_slock l (fun s => Slock (s_lk s) (s_locked s) x).
Definition set_st (j : nat) (st : procstate) : machine -> machine :=
  on_proc j (fun p => Process (p_lk p) st (p_ch p) (p_id p) (p_pc p) (p_held p)).
Definition set_ch (j : nat) (c : option nat) : machine -> machine :=
  on_proc j (fun p => Process (p_lk p) (p_st p) c (p_id p) (p_pc p) (p_held p)).
Definition goto (j : nat) (c : ppc) : machine -> machine :=
  on_proc j (fun p => Process (p_lk p) (p_st p) (p_ch p) (p_id p) c (p_held p)).
Definition set_held (j : nat) (f : list nat -> list nat) : machine -> machine :=
  on_proc j (fun p => Process (p_lk p) (p_st p) (p_ch p) (p_id p) (p_pc p) (f (p_held p))).
Definition set_hpc (h : nat) (c : hpc) : machine -> machine :=
  on_hart h (fun x => Hart c (h_noff x)).
Definition add_noff (h : nat) (d : Z) : machine -> machine :=
  on_hart h (fun x => Hart (h_pc x) (h_noff x + d)).

(** [acquire] and [release] of the lock [k] on hart [h], and what follows.  A
    hart that finds the lock taken stays where it is. *)
Definition acquire_then (h : nat) (k : lock) (next : machine -> machine) (m : machine) : machine :=
  match owner m k with
  | None => next (set_owner k (Some h) (add_noff h 1 m))
  | Some h' => if decide (h' = h) then set_hpc h (Panicked "acquire") m else m
  end.

Definition release_then (h : nat) (k : lock) (next : machine -> machine) (m : machine) : machine :=
  if decide (owner m k = Some h) then next (set_owner k None (add_noff h (-1) m))
  else set_hpc h (Panicked "release") m.

(** [sched] of process [j]: the thread will go on at [c]. *)
Definition sched_at (h j : nat) (c : ppc) (m : machine) : machine :=
  if decide (owner m (LkP j) <> Some h) then set_hpc h (Panicked "sched p->lock") m
  else if decide (h_noff (harts m h) <> 1) then set_hpc h (Panicked "sched locks") m
  else if decide (p_st (procs m j) = RUNNING) then set_hpc h (Panicked "sched running") m
  else set_hpc h (Back j) (goto j c m).

Definition nproc : nat := Z.to_nat NPROC.

(** What the thread of process [j], which hart [h] runs, does at the point [c] of a function. *)
Definition acquiresleep_at (h j : nat) (c : ppc) (m : machine) : machine :=
  match c with
  | AcqLk l => acquire_then h (LkS l) (goto j (TestLocked l)) m
  | TestLocked l => goto j (if s_locked (slocks m l) then SlAcqP l else SetLocked l) m
  | SetLocked l => goto j (SetPid l) (set_locked l true m)
  | SetPid l => goto j (RelLk l) (set_pid l (p_id (procs m j)) m)
  | RelLk l => release_then h (LkS l) (fun m => goto j Idle (set_held j (fun ls => l :: ls) m)) m
  | _ => m
  end.

Definition sleep_at (h j : nat) (c : ppc) (m : machine) : machine :=
  match c with
  | SlAcqP l => acquire_then h (LkP j) (goto j (SlRelLk l)) m
  | SlRelLk l => release_then h (LkS l) (goto j (SlChan l)) m
  | SlChan l => goto j (SlState l) (set_ch j (Some l) m)
  | SlState l => goto j (SlSched l) (set_st j SLEEPING m)
  | SlSched l => sched_at h j (SlWake l) m
  | SlWake l => goto j (SlRelP l) (set_ch j None m)
  | SlRelP l => release_then h (LkP j) (goto j (SlAcqLk l)) m
  | SlAcqLk l => acquire_then h (LkS l) (goto j (TestLocked l)) m
  | _ => m
  end.

Definition releasesleep_at (h j : nat) (c : ppc) (m : machine) : machine :=
  match c with
  | RlAcqLk l => acquire_then h (LkS l) (goto j (RlClear l)) m
  | RlClear l => goto j (RlPid l) (set_locked l false m)
  | RlPid l => goto j (WkLoop l 0) (set_pid l 0 m)
  | RlRelLk l => release_then h (LkS l) (goto j Idle) m
  | _ => m
  end.

Definition wakeup_at (h j : nat) (c : ppc) (m : machine) : machine :=
  match c with
  | WkLoop l k =>
      if decide (nproc <= k)%nat then goto j (RlRelLk l) m
      else if decide (k = j) then goto j (WkLoop l (S k)) m
      else acquire_then h (LkP k) (goto j (WkTest l k)) m
  | WkTest l k =>
      goto j (WkRelP l k)
        (if decide (p_st (procs m k) = SLEEPING /\ p_ch (procs m k) = Some l) then set_st k RUNNABLE m else m)
  | WkRelP l k => release_then h (LkP k) (goto j (WkLoop l (S k))) m
  | _ => m
  end.

Definition yield_at (h j : nat) (c : ppc) (m : machine) : machine :=
  match c with
  | YdAcqP => acquire_then h (LkP j) (goto j YdState) m
  | YdState => goto j YdSched (set_st j RUNNABLE m)
  | YdSched => sched_at h j YdRelP m
  | YdRelP => release_then h (LkP j) (goto j Idle) m
  | _ => m
  end.

Definition thread (h j : nat) (m : machine) : machine :=
  let c := p_pc (procs m j) in
  match c with
  | Idle => m
  | AcqLk _ | TestLocked _ | SetLocked _ | SetPid _ | RelLk _ => acquiresleep_at h j c m
  | SlAcqP _ | SlRelLk _ | SlChan _ | SlState _ | SlSched _ | SlWake _ | SlRelP _ | SlAcqLk _ => sleep_at h j c m
  | RlAcqLk _ | RlClear _ | RlPid _ | RlRelLk _ => releasesleep_at h j c m
  | WkLoop _ _ | WkTest _ _ | WkRelP _ _ => wakeup_at h j c m
  | YdAcqP | YdState | YdSched | YdRelP => yield_at h j c m
  end.

(** The next step of hart [h], which is in the loop of [scheduler] or runs a thread. *)
Definition scheduler_at (h : nat) (m : machine) : machine :=
  match h_pc (harts m h) with
  | Scan k => acquire_then h (LkP k) (set_hpc h (Test k)) m
  | Test k =>
      if decide (p_st (procs m k) = RUNNABLE) then set_hpc h (Run k) (set_st k RUNNING m)
      else set_hpc h (Back k) m
  | Back k => release_then h (LkP k) (set_hpc h (Scan (if decide (S k < nproc)%nat then S k else 0%nat))) m
  | Run j => thread h j m
  | Panicked _ => m
  end.

(** What a process may call. *)
Inductive op :=
| AcquireSleep (l : nat)
| ReleaseSleep (l : nat)
| Yield.

Definition call (j : nat) (o : op) (m : machine) : machine :=
  match o with
  | AcquireSleep l => goto j (AcqLk l) m
  | ReleaseSleep l => goto j (RlAcqLk l) (set_held j (filter (.≠ l)) m)
  | Yield => goto j YdAcqP m
  end.

Definition may_call (j : nat) (o : op) (m : machine) : Prop :=
  match o with ReleaseSleep l => l ∈ p_held (procs m j) | _ => True end.

Inductive step (m : machine) : machine -> Prop :=
| step_advance h : step m (scheduler_at h m)
| step_call h j o : h_pc (harts m h) = Run j -> p_pc (procs m j) = Idle -> may_call j o m -> step m (call j o m).

(** Every process is runnable and begins, as in [forkret], by releasing its
    lock; every hart begins to scan the table. *)
Record initial (m : machine) : Prop := {
  init_slock l : s_lk (slocks m l) = None /\ s_locked (slocks m l) = false;
  init_proc j : p_lk (procs m j) = None /\ p_st (procs m j) = RUNNABLE /\ p_ch (procs m j) = None /\
    p_pc (procs m j) = YdRelP /\ p_held (procs m j) = [];
  init_hart h : harts m h = Hart (Scan 0) 0;
}.


(** ** The invariant *)

(** The spin locks that the thread of process [j] holds at each point, and
    those a hart holds. *)
Definition held_by (j : nat) (c : ppc) : list lock :=
  match c with
  | Idle | AcqLk _ | SlAcqLk _ | RlAcqLk _ | YdAcqP => []
  | TestLocked l | SetLocked l | SetPid l | RelLk l | SlAcqP l => [LkS l]
  | SlRelLk l => [LkP j; LkS l]
  | SlChan _ | SlState _ | SlSched _ | SlWake _ | SlRelP _ => [LkP j]
  | RlClear l | RlPid l | WkLoop l _ | RlRelLk l => [LkS l]
  | WkTest l k | WkRelP l k => [LkP k; LkS l]
  | YdState | YdSched | YdRelP => [LkP j]
  end.

Definition held (m : machine) (h : nat) : list lock :=
  match h_pc (harts m h) with
  | Scan _ | Panicked _ => []
  | Test k | Back k => [LkP k]
  | Run j => held_by j (p_pc (procs m j))
  end.

(** The state of a process that runs. *)
Definition state_at (c : ppc) : procstate :=
  match c with SlSched _ => SLEEPING | YdSched => RUNNABLE | _ => RUNNING end.

(** A process that no hart runs. *)
Definition parked (j : nat) (p : process) : Prop :=
  (p_pc p = YdRelP /\ p_st p = RUNNABLE) \/
  (exists l, p_pc p = SlWake l /\ (p_st p = RUNNABLE \/ p_st p = SLEEPING) /\ (j < nproc)%nat).

Definition index_ok (c : hpc) : Prop :=
  match c with Scan k | Test k | Back k | Run k => (k < nproc)%nat | Panicked _ => False end.

(** Who holds what: the part of the invariant that is about spin locks and harts. *)
Record hart_inv (m : machine) : Prop := {
  i_own k h : owner m k = Some h <-> k ∈ held m h;
  i_noff h : h_noff (harts m h) = Z.of_nat (length (held m h));
  i_run h h' j : h_pc (harts m h) = Run j -> h_pc (harts m h') = Run j -> h = h';
  i_index h : index_ok (h_pc (harts m h));
  i_state h j : h_pc (harts m h) = Run j -> p_st (procs m j) = state_at (p_pc (procs m j));
  i_procs j : (exists h, h_pc (harts m h) = Run j) \/ parked j (procs m j);
}.

(** What is known of the sleep lock and of the process at each point. *)
Definition pc_ok (m : machine) (j : nat) : Prop :=
  match p_pc (procs m j) with
  | SetLocked l => s_locked (slocks m l) = false
  | SetPid l | SlAcqP l | SlRelLk l => s_locked (slocks m l) = true
  | RlAcqLk l => l ∉ p_held (procs m j)
  | RlClear l => s_locked (slocks m l) = true /\ l ∉ p_held (procs m j)
  | RelLk l => s_locked (slocks m l) = true /\ s_pid (slocks m l) = p_id (procs m j)
  | RlPid l | RlRelLk l => s_locked (slocks m l) = false
  | WkLoop l k => s_locked (slocks m l) = false
  | WkTest l k | WkRelP l k => s_locked (slocks m l) = false /\ (k < nproc)%nat /\ k <> j
  | SlState l | SlSched l | SlWake l => p_ch (procs m j) = Some l
  | _ => True
  end.

(** Process [j] has set [locked] of the sleep lock [l] and not reset it. *)
Definition owned_at (c : ppc) (l : nat) : Prop :=
  c = SetPid l \/ c = RelLk l \/ c = RlAcqLk l \/ c = RlClear l.
Definition owns (m : machine) (j l : nat) : Prop :=
  l ∈ p_held (procs m j) \/ owned_at (p_pc (procs m j)) l.

(** Process [j] sleeps on [l] or is about to. *)
Definition waits (m : machine) (j l : nat) : Prop :=
  match p_pc (procs m j) with
  | SlAcqP l' | SlRelLk l' | SlChan l' | SlState l' | SlSched l' => l' = l
  | SlWake l' => l' = l /\ p_st (procs m j) = SLEEPING
  | _ => False
  end.

(** A process at [c] is in [wakeup] for [l] and has process [j] still before it. *)
Definition to_visit (c : ppc) (l j : nat) : Prop :=
  match c with
  | RlPid l' => l' = l
  | WkLoop l' k | WkTest l' k => l' = l /\ (k <= j)%nat
  | WkRelP l' k => l' = l /\ (k < j)%nat
  | _ => False
  end.

Record sleep_inv (m : machine) : Prop := {
  i_pc j : pc_ok m j;
  i_owner l : s_locked (slocks m l) = true <-> exists j, owns m j l;
  i_unique l j j' : owns m j l -> owns m j' l -> j = j';
  i_pid l j : l ∈ p_held (procs m j) -> s_pid (slocks m l) = p_id (procs m j);
  i_waits l j : waits m j l -> s_locked (slocks m l) = true \/ exists i, to_visit (p_pc (procs m i)) l j;
}.

(** ** Spin locks and harts *)

Lemma held_nodup m h : NoDup (held m h).
Proof.
  unfold held. destruct (h_pc (harts m h)) as [k|k|k|j|msg]; try (apply NoDup_nil; done) || apply NoDup_singleton.
  destruct (p_pc (procs m j)); cbn [held_by]; try (apply NoDup_nil_2) || (apply NoDup_singleton) || idtac; repeat constructor; set_solver.
Qed.

(** A lock of a sleep lock is held by the thread of one process at most, which a hart runs. *)
Lemma thread_runs m j l : hart_inv m -> LkS l ∈ held_by j (p_pc (procs m j)) -> exists h, h_pc (harts m h) = Run j /\ owner m (LkS l) = Some h.
Proof.
  intros Hi Hin. destruct (i_procs m Hi j) as [[h Hh]|Hp].
  - exists h. split; [done|]. apply (i_own m Hi). unfold held. by rewrite Hh.
  - destruct Hp as [[E _]|(l' & E & _)]; rewrite E in Hin; cbn [held_by] in Hin; set_solver.
Qed.

Lemma thread_excl m j j' l : hart_inv m -> LkS l ∈ held_by j (p_pc (procs m j)) -> LkS l ∈ held_by j' (p_pc (procs m j')) -> j = j'.
Proof.
  intros Hi H1 H2. destruct (thread_runs m j l Hi H1) as (h & R1 & O1). destruct (thread_runs m j' l Hi H2) as (h' & R2 & O2).
  assert (h = h') as <- by congruence. congruence.
Qed.

(** The steps change one hart, and of the program counters only that of the process it runs or begins to run. *)
Definition local (h j : nat) (m m' : machine) : Prop :=
  (forall h', h' <> h -> harts m' h' = harts m h') /\ (forall j', j' <> j -> p_pc (procs m' j') = p_pc (procs m j')).

Lemma held_other h j m m' h' : local h j m m' -> (forall h0, h_pc (harts m h0) = Run j -> h0 = h) -> h' <> h -> held m' h' = held m h'.
Proof.
  intros [H1 H2] Hj Hne. unfold held. rewrite (H1 h' Hne). destruct (h_pc (harts m h')) as [k|k|k|j'|msg] eqn:E; try done.
  destruct (decide (j' = j)) as [->|Hn]; [by apply Hj in E|]. by rewrite H2.
Qed.

(** What a step of hart [h] does to the spin locks: nothing, or it takes or gives back one. *)
Inductive lock_change (h : nat) (m m' : machine) : Prop :=
| lc_same : (forall k, owner m' k = owner m k) -> held m' h = held m h -> h_noff (harts m' h) = h_noff (harts m h) ->
    lock_change h m m'
| lc_acquire k : owner m k = None -> (forall k', owner m' k' = if decide (k' = k) then Some h else owner m k') ->
    held m' h ≡ₚ k :: held m h -> h_noff (harts m' h) = h_noff (harts m h) + 1 -> lock_change h m m'
| lc_release k : (forall k', owner m' k' = if decide (k' = k) then None else owner m k') ->
    held m h ≡ₚ k :: held m' h -> h_noff (harts m' h) = h_noff (harts m h) + -1 -> lock_change h m m'.

Lemma lock_part h m m' : hart_inv m -> NoDup (held m h) -> (forall h', h' <> h -> harts m' h' = harts m h' /\ held m' h' = held m h') ->
  lock_change h m m' ->
  (forall k h', owner m' k = Some h' <-> k ∈ held m' h') /\ (forall h', h_noff (harts m' h') = Z.of_nat (length (held m' h'))).
Proof.
  intros Hi Hnd Hoth Hc.
  assert (Hn : forall h', h' <> h -> h_noff (harts m' h') = Z.of_nat (length (held m' h'))).
  { intros h' Hne. destruct (Hoth h' Hne) as [-> ->]. apply (i_noff m Hi). }
  pose proof (i_noff m Hi h) as Hn0. pose proof (i_own m Hi) as Ho.
  destruct Hc as [Hk Hh Hf|k Hfree Hk Hh Hf|k Hk Hh Hf].
  - split.
    + intros k h'. rewrite Hk, Ho. destruct (decide (h' = h)) as [->|Hne]; [by rewrite Hh|]. by destruct (Hoth h' Hne) as [_ ->].
    + intros h'. destruct (decide (h' = h)) as [->|Hne]; [|by apply Hn]. by rewrite Hf, Hh.
  - split.
    + intros k' h'. rewrite Hk. destruct (decide (h' = h)) as [->|Hne].
      * rewrite Hh, elem_of_cons, <-Ho. case_decide; subst; naive_solver.
      * destruct (Hoth h' Hne) as [_ ->]. case_decide as Hd; [|apply Ho]. subst k'. split; [congruence|]. intros Hin%Ho. congruence.
    + intros h'. destruct (decide (h' = h)) as [->|Hne]; [|by apply Hn]. rewrite Hf, Hh. cbn [length]. lia.
  - assert (Hnk : k ∉ held m' h) by (rewrite Hh in Hnd; by apply NoDup_cons in Hnd as [? _]). split.
    + intros k' h'. rewrite Hk. destruct (decide (h' = h)) as [->|Hne].
      * case_decide as Hd; [subst k'; split; [done|by intros ?]|]. rewrite Ho, Hh, elem_of_cons. naive_solver.
      * destruct (Hoth h' Hne) as [_ ->]. case_decide as Hd; [|apply Ho]. subst k'. split; [done|]. intros Hin%Ho.
        assert (owner m k = Some h) by (apply Ho; rewrite Hh; by left). congruence.
    + intros h'. destruct (decide (h' = h)) as [->|Hne]; [|by apply Hn]. rewrite Hf. rewrite Hh in Hn0. cbn [length] in Hn0. lia.
Qed.

(** A step of a thread that stays on its hart. *)
Lemma thread_hart h j m m' : hart_inv m -> h_pc (harts m h) = Run j ->
  (forall h', h_pc (harts m' h') = h_pc (harts m h')) -> (forall h', h' <> h -> harts m' h' = harts m h') ->
  (forall j', j' <> j -> p_pc (procs m' j') = p_pc (procs m j') /\ p_st (procs m' j') = p_st (procs m j')) ->
  p_st (procs m' j) = state_at (p_pc (procs m' j)) -> lock_change h m m' -> hart_inv m'.
Proof.
  intros Hi Hh Hpc Hoth Hproc Hst Hlc.
  destruct (lock_part h m m' Hi (held_nodup m h)) as [H1 H2]; [|done|].
  { intros h' Hne. split; [by apply Hoth|]. apply (held_other h j); [split; [done|intros; by apply Hproc]| |done].
    intros h0 H0. by apply (i_run m Hi h0 h j). }
  constructor; [done|done|..]; setoid_rewrite Hpc.
  - apply (i_run m Hi).
  - apply (i_index m Hi).
  - intros h' j' Hr. destruct (decide (j' = j)) as [->|Hne]; [done|]. destruct (Hproc j' Hne) as [-> ->]. by apply (i_state m Hi h').
  - intros j'. destruct (decide (j' = j)) as [->|Hne]; [left; by exists h|]. destruct (i_procs m Hi j') as [?|Hp]; [by left|right].
    unfold parked in *. by destruct (Hproc j' Hne) as [-> ->].
Qed.

(** Reading a machine after an update. *)
Ltac obs := unfold set_owner, set_locked, set_pid, set_st, set_ch, goto, set_held, set_hpc, add_noff, on_slock, on_proc, on_hart, owner in *;
  cbn [slocks procs harts s_lk s_locked s_pid p_lk p_st p_ch p_id p_pc p_held h_pc h_noff] in *; unfold insert, fn_insert in *; try done;
  repeat (case_decide; subst; cbn [slocks procs harts s_lk s_locked s_pid p_lk p_st p_ch p_id p_pc p_held h_pc h_noff] in *; try done).

Section thread.
Context (h j : nat) (m : machine).
Hypothesis Hi : hart_inv m.
Hypothesis Hh : h_pc (harts m h) = Run j.

Lemma held_run : held m h = held_by j (p_pc (procs m j)).
Proof using Hh. unfold held. by rewrite Hh. Qed.

(** [m'] is [m0] but for data of process [j] and of sleep locks, with process [j] at [c]. *)
Definition moves (c : ppc) (m0 m' : machine) : Prop :=
  harts m' = harts m0 /\ (forall k, owner m' k = owner m0 k) /\ p_pc (procs m' j) = c /\
  (forall j', j' <> j -> p_pc (procs m' j') = p_pc (procs m0 j') /\ p_st (procs m' j') = p_st (procs m0 j')).

Lemma quiet_hart c m' : moves c m m' -> held_by j c = held_by j (p_pc (procs m j)) -> p_st (procs m' j) = state_at c -> hart_inv m'.
Proof using Hi Hh.
  intros (H1 & H2 & H3 & H4) He Hst. apply (thread_hart h j m m'); rewrite ?H1, ?H3; try done.
  apply lc_same; [done| |by rewrite H1]. unfold held. by rewrite H1, Hh, H3.
Qed.

Lemma acquire_hart k c : held_by j c ≡ₚ k :: held_by j (p_pc (procs m j)) -> NoDup (held_by j c) -> state_at c = state_at (p_pc (procs m j)) ->
  hart_inv (acquire_then h k (goto j c) m).
Proof using Hi Hh.
  intros He Hnd Hst. unfold acquire_then. destruct (owner m k) as [h'|] eqn:Eo.
  - case_decide as Hd; [|done]. subst h'. apply (i_own m Hi) in Eo. rewrite held_run in Eo. rewrite He in Hnd. by apply NoDup_cons in Hnd as [? _].
  - pose proof (i_state m Hi h j Hh) as Hj. apply (thread_hart h j m); try done.
    + intros h'. destruct k; obs; congruence.
    + intros h' Hne. destruct k; obs.
    + intros j' Hne. destruct k; obs.
    + rewrite <-Hst in Hj. destruct k; obs.
    + apply (lc_acquire h m _ k Eo).
      * intros k'. destruct k, k'; obs; congruence.
      * assert (held (goto j c (set_owner k (Some h) (add_noff h 1 m))) h = held_by j c) as ->; [|by rewrite held_run].
        unfold held. destruct k; obs; rewrite Hh; obs.
      * destruct k; obs.
Qed.

Lemma release_hart k c next : k :: held_by j c ≡ₚ held_by j (p_pc (procs m j)) -> state_at c = state_at (p_pc (procs m j)) ->
  (forall m0, moves c m0 (next m0) /\ p_st (procs (next m0) j) = p_st (procs m0 j)) -> hart_inv (release_then h k next m).
Proof using Hi Hh.
  intros He Hst Hn. assert (Eo : owner m k = Some h) by (apply (i_own m Hi); rewrite held_run, <-He; by left).
  unfold release_then. rewrite decide_True by done. set (m1 := set_owner k None (add_noff h (-1) m)).
  destruct (Hn m1) as ((H1 & H2 & H3 & H4) & H5). pose proof (i_state m Hi h j Hh) as Hj.
  apply (thread_hart h j m); try done; rewrite ?H1, ?H3.
  - intros h'. unfold m1. destruct k; obs; congruence.
  - intros h' Hne. unfold m1. destruct k; obs.
  - intros j' Hne. destruct (H4 j' Hne) as [-> ->]. unfold m1. destruct k; obs.
  - rewrite H5, Hst, <-Hj. unfold m1. destruct k; obs.
  - apply (lc_release h m _ k).
    + intros k'. rewrite H2. unfold m1. destruct k, k'; obs; congruence.
    + assert (held (next m1) h = held_by j c) as ->; [|by rewrite held_run, He].
      unfold held. rewrite H1. assert (h_pc (harts m1 h) = Run j) as -> by (unfold m1; destruct k; obs). by rewrite H3.
    + rewrite H1. unfold m1. destruct k; obs.
Qed.
End thread.

(** A step of the scheduler that does not enter or leave a thread. *)
Lemma scheduler_hart h m m' : hart_inv m -> (forall j, h_pc (harts m h) <> Run j) -> (forall j, h_pc (harts m' h) <> Run j) ->
  (forall h', h' <> h -> harts m' h' = harts m h') ->
  (forall j, p_pc (procs m' j) = p_pc (procs m j) /\ p_st (procs m' j) = p_st (procs m j)) ->
  index_ok (h_pc (harts m' h)) -> lock_change h m m' -> hart_inv m'.
Proof.
  intros Hi Hr Hr' Hoth Hproc Hidx Hlc.
  destruct (lock_part h m m' Hi (held_nodup m h)) as [H1 H2]; [|done|].
  { intros h' Hne. split; [by apply Hoth|]. unfold held. rewrite Hoth by done. destruct (h_pc (harts m h')); try done. by rewrite (proj1 (Hproc j)). }
  assert (Hrun : forall h' j, h_pc (harts m' h') = Run j <-> h_pc (harts m h') = Run j).
  { intros h' j. destruct (decide (h' = h)) as [->|Hne]; [|by rewrite Hoth]. split; [by intros ?%Hr'|by intros ?%Hr]. }
  constructor; [done|done|..].
  - intros h1 h2 j. rewrite !Hrun. apply (i_run m Hi).
  - intros h'. destruct (decide (h' = h)) as [->|Hne]; [done|]. rewrite Hoth by done. apply (i_index m Hi).
  - intros h' j ?%Hrun. destruct (Hproc j) as [-> ->]. by apply (i_state m Hi h').
  - intros j. setoid_rewrite Hrun. unfold parked. destruct (Hproc j) as [-> ->]. apply (i_procs m Hi).
Qed.

(** A process whose lock the hart holds from outside is parked, unless it runs in the middle of its time slice. *)
Lemma locked_parked h k m : hart_inv m -> LkP k ∈ held m h -> h_pc (harts m h) <> Run k ->
  p_st (procs m k) <> RUNNING -> (forall h', h_pc (harts m h') <> Run k) /\ parked k (procs m k).
Proof.
  intros Hi Hk Hr Hst.
  assert (Hno : forall h', h_pc (harts m h') <> Run k).
  { intros h' Hh'. assert (Hin : LkP k ∈ held m h').
    { unfold held. rewrite Hh'. pose proof (i_state m Hi h' k Hh') as E. destruct (p_pc (procs m k)); cbn [state_at held_by] in *; congruence || set_solver. }
    apply (i_own m Hi) in Hin, Hk. assert (h' = h) by congruence. by subst. }
  split; [done|]. destruct (i_procs m Hi k) as [[h' Hh']|]; [by apply Hno in Hh'|done].
Qed.

Lemma parked_held k p : parked k p -> held_by k (p_pc p) = [LkP k] /\ state_at (p_pc p) = RUNNING /\ p_st p <> RUNNING.
Proof. intros [[-> ->]|(l & -> & [-> | ->] & _)]; done. Qed.

Lemma scan_hart h k m : hart_inv m -> h_pc (harts m h) = Scan k -> hart_inv (acquire_then h (LkP k) (set_hpc h (Test k)) m).
Proof.
  intros Hi Hh. assert (He : held m h = []) by (unfold held; by rewrite Hh). unfold acquire_then. destruct (owner m (LkP k)) as [h'|] eqn:Eo.
  - case_decide as Hd; [|done]. subst h'. apply (i_own m Hi) in Eo. rewrite He in Eo. set_solver.
  - pose proof (i_index m Hi h) as Hidx. rewrite Hh in Hidx. apply (scheduler_hart h m); try done.
    + by rewrite Hh.
    + intros j. obs.
    + intros h' Hne. obs.
    + intros j. obs.
    + obs.
    + apply (lc_acquire h m _ (LkP k) Eo).
      * intros k'. destruct k'; obs; congruence.
      * rewrite He. unfold held. obs.
      * obs.
Qed.

Lemma back_hart h k m : hart_inv m -> h_pc (harts m h) = Back k ->
  hart_inv (release_then h (LkP k) (set_hpc h (Scan (if decide (S k < nproc)%nat then S k else 0%nat))) m).
Proof.
  intros Hi Hh. assert (He : held m h = [LkP k]) by (unfold held; by rewrite Hh).
  assert (Eo : owner m (LkP k) = Some h) by (apply (i_own m Hi); rewrite He; by left).
  set (k' := if decide (S k < nproc)%nat then S k else 0%nat). assert (Hk' : (k' < nproc)%nat) by (unfold k'; case_decide; [done|unfold nproc, NPROC; lia]).
  unfold release_then. rewrite decide_True by done. clearbody k'. apply (scheduler_hart h m); try done.
  - by rewrite Hh.
  - intros j. obs.
  - intros h' Hne. obs.
  - intros j. obs.
  - obs.
  - apply (lc_release h m _ (LkP k)).
    + intros k2. destruct k2; obs; congruence.
    + rewrite He. unfold held. obs.
    + obs.
Qed.

Lemma test_hart h k m : hart_inv m -> h_pc (harts m h) = Test k ->
  hart_inv (if decide (p_st (procs m k) = RUNNABLE) then set_hpc h (Run k) (set_st k RUNNING m) else set_hpc h (Back k) m).
Proof.
  intros Hi Hh. assert (He : held m h = [LkP k]) by (unfold held; by rewrite Hh). pose proof (i_index m Hi h) as Hidx. rewrite Hh in Hidx.
  case_decide as Hst.
  2:{ apply (scheduler_hart h m); try done; [by rewrite Hh|intros j; obs|intros h' Hne; obs|obs|].
      apply lc_same; [intros []; obs|rewrite He; unfold held; obs|obs]. }
  destruct (locked_parked h k m Hi) as [Hno Hp]; [rewrite He; by left|by rewrite Hh|by rewrite Hst|].
  destruct (parked_held k _ Hp) as (E1 & E2 & _). set (m' := set_hpc h (Run k) (set_st k RUNNING m)).
  assert (Hpc : forall j, p_pc (procs m' j) = p_pc (procs m j)) by (intros j; unfold m'; obs).
  assert (Hoth : forall h', h' <> h -> harts m' h' = harts m h') by (intros h' Hne; unfold m'; obs).
  assert (Hrun : h_pc (harts m' h) = Run k) by (unfold m'; obs).
  destruct (lock_part h m m' Hi (held_nodup m h)) as [H1 H2].
  { intros h' Hne. split; [by apply Hoth|]. unfold held. rewrite Hoth by done. destruct (h_pc (harts m h')); try done. by rewrite Hpc. }
  { apply lc_same; [intros []; unfold m'; obs| |unfold m'; obs]. rewrite He. unfold held. rewrite Hrun, Hpc. done. }
  constructor; [done|done|..].
  - intros h1 h2 j R1 R2. destruct (decide (h1 = h)) as [->|N1], (decide (h2 = h)) as [->|N2]; [done| | |].
    + rewrite Hrun in R1. injection R1 as <-. rewrite Hoth in R2 by done. by apply Hno in R2.
    + rewrite Hrun in R2. injection R2 as <-. rewrite Hoth in R1 by done. by apply Hno in R1.
    + rewrite Hoth in R1, R2 by done. by apply (i_run m Hi h1 h2 j).
  - intros h'. destruct (decide (h' = h)) as [->|Hne]; [by rewrite Hrun|]. rewrite Hoth by done. apply (i_index m Hi).
  - intros h' j Hr. rewrite Hpc. destruct (decide (h' = h)) as [->|Hne].
    + rewrite Hrun in Hr. injection Hr as <-. rewrite E2. unfold m'. obs.
    + rewrite Hoth in Hr by done. rewrite <-(i_state m Hi h' j Hr). assert (j <> k) by (intros ->; by apply Hno in Hr). unfold m'. obs.
  - intros j. destruct (decide (j = k)) as [->|Hne]; [left; by exists h|]. destruct (i_procs m Hi j) as [[h' Hh']|Hpj].
    + left. exists h'. rewrite Hoth; [done|]. intros ->. congruence.
    + right. assert (procs m' j = procs m j) as -> by (unfold m'; obs). done.
Qed.

Lemma sched_hart h j c m : hart_inv m -> h_pc (harts m h) = Run j ->
  held_by j (p_pc (procs m j)) = [LkP j] -> state_at (p_pc (procs m j)) <> RUNNING ->
  (forall st, st = state_at (p_pc (procs m j)) -> (c = YdRelP /\ st = RUNNABLE) \/ exists l, c = SlWake l /\ (st = RUNNABLE \/ st = SLEEPING)) ->
  sched_at h j c m = set_hpc h (Back j) (goto j c m) /\ hart_inv (sched_at h j c m).
Proof.
  intros Hi Hh Hb Hst Hpk. assert (He : held m h = [LkP j]) by (unfold held; by rewrite Hh).
  pose proof (i_state m Hi h j Hh) as Hj. pose proof (i_noff m Hi h) as Hn. rewrite He in Hn. pose proof (i_index m Hi h) as Hidx. rewrite Hh in Hidx.
  assert (Eo : owner m (LkP j) = Some h) by (apply (i_own m Hi); rewrite He; by left).
  unfold sched_at. rewrite decide_False by congruence. rewrite decide_False by (cbn [length] in Hn; lia). rewrite decide_False by congruence.
  split; [done|]. set (m' := set_hpc h (Back j) (goto j c m)).
  assert (Hpc : forall j', j' <> j -> procs m' j' = procs m j') by (intros j' Hne; unfold m'; obs).
  assert (Hoth : forall h', h' <> h -> harts m' h' = harts m h') by (intros h' Hne; unfold m'; obs).
  assert (Hback : h_pc (harts m' h) = Back j) by (unfold m'; obs).
  assert (Hrn : forall h' j', h_pc (harts m' h') = Run j' -> h' <> h /\ j' <> j /\ h_pc (harts m h') = Run j').
  { intros h' j' Hr. destruct (decide (h' = h)) as [->|Hne]; [congruence|]. rewrite Hoth in Hr by done. split; [done|]. split; [|done].
    intros ->. apply Hne. by apply (i_run m Hi h' h j). }
  destruct (lock_part h m m' Hi (held_nodup m h)) as [H1 H2].
  { intros h' Hne. split; [by apply Hoth|]. apply (held_other h j); [split; [done|intros j' Hj'; by rewrite Hpc]| |done].
    intros h0 H0. by apply (i_run m Hi h0 h j). }
  { apply lc_same; [intros []; unfold m'; obs| |unfold m'; obs]. rewrite He. unfold held. by rewrite Hback. }
  constructor; [done|done|..].
  - intros h1 h2 j' (_ & _ & R1)%Hrn (_ & _ & R2)%Hrn. by apply (i_run m Hi h1 h2 j').
  - intros h'. destruct (decide (h' = h)) as [->|Hne]; [by rewrite Hback|]. rewrite Hoth by done. apply (i_index m Hi).
  - intros h' j' (_ & Hne & R)%Hrn. rewrite Hpc by done. by apply (i_state m Hi h').
  - intros j'. destruct (decide (j' = j)) as [->|Hne].
    + right. unfold parked. assert (p_pc (procs m' j) = c /\ p_st (procs m' j) = p_st (procs m j)) as [-> ->] by (unfold m'; obs).
      destruct (Hpk _ Hj) as [?|(l & -> & ?)]; [by left|right; by exists l].
    + rewrite Hpc by done. destruct (i_procs m Hi j') as [[h' Hh']|?]; [left|by right]. exists h'. rewrite Hoth; [done|]. intros ->. congruence.
Qed.

(** [wakeup] makes a sleeper runnable. *)
Lemma wake_hart h j l k m : hart_inv m -> sleep_inv m -> h_pc (harts m h) = Run j -> p_pc (procs m j) = WkTest l k ->
  p_st (procs m k) = SLEEPING -> hart_inv (set_st k RUNNABLE m) /\ parked k (procs m k).
Proof.
  intros Hi Hs Hh Hpc Hst. pose proof (i_pc m Hs j) as Hok. unfold pc_ok in Hok. rewrite Hpc in Hok. destruct Hok as (_ & Hk & Hkj).
  assert (He : held m h = [LkP k; LkS l]) by (unfold held; by rewrite Hh, Hpc).
  destruct (locked_parked h k m Hi) as [Hno Hp]; [rewrite He; by left|by rewrite Hh; congruence|by rewrite Hst|]. split; [|done].
  set (m' := set_st k RUNNABLE m). assert (Epc : forall j', p_pc (procs m' j') = p_pc (procs m j')) by (intros j'; unfold m'; obs).
  assert (Eh : forall h', held m' h' = held m h') by (intros h'; unfold held; change (harts m') with (harts m); destruct (h_pc (harts m h')); try done; by rewrite Epc).
  constructor; change (harts m') with (harts m).
  - intros k' h'. rewrite Eh, <-(i_own m Hi). unfold m'. destruct k'; obs.
  - intros h'. rewrite Eh. apply (i_noff m Hi).
  - apply (i_run m Hi).
  - apply (i_index m Hi).
  - intros h' j' Hr. rewrite Epc, <-(i_state m Hi h' j' Hr). assert (j' <> k) by (intros ->; by apply Hno in Hr). unfold m'. obs.
  - intros j'. destruct (decide (j' = k)) as [->|Hne].
    + right. destruct Hp as [[E1 E2]|(l' & E1 & E2 & E3)]; [left|right; exists l']; rewrite Epc; unfold m'; obs; auto.
    + assert (procs m' j' = procs m j') as -> by (unfold m'; obs). apply (i_procs m Hi).
Qed.

Lemma moves_goto j c m : moves j c m (goto j c m) /\ p_st (procs (goto j c m) j) = p_st (procs m j).
Proof. split; [split_and!|]; [done|intros []; obs|obs|intros j' Hne; obs|obs]. Qed.

Ltac moves_tac := split_and!; [done|let k := fresh in intros k; destruct k; obs|obs|intros ? ?; obs].

Lemma thread_hart_inv h j m : hart_inv m -> sleep_inv m -> h_pc (harts m h) = Run j -> hart_inv (thread h j m).
Proof.
  intros Hi Hs Hh. pose proof (i_state m Hi h j Hh) as Hj. pose proof (i_pc m Hs j) as Hok. unfold pc_ok in Hok.
  unfold thread. cbv zeta. destruct (p_pc (procs m j)) as [|l|l|l|l|l|l|l|l|l|l|l|l|l|l|l|l|l k|l k|l k|l| | | |] eqn:Epc; cbn [acquiresleep_at sleep_at releasesleep_at wakeup_at yield_at]; try done.
  - apply (acquire_hart h j m Hi Hh); rewrite ?Epc; [done|apply NoDup_singleton|done].
  - eapply (quiet_hart h j m Hi Hh); [by apply moves_goto|rewrite ?Epc; by case_match|destruct (s_locked (slocks m l)); obs].
  - eapply (quiet_hart h j m Hi Hh (SetPid l)); [moves_tac|by rewrite Epc|obs].
  - eapply (quiet_hart h j m Hi Hh (RelLk l)); [moves_tac|by rewrite Epc|obs].
  - apply (release_hart h j m Hi Hh _ Idle); rewrite ?Epc; [done|done|]. intros m0. split; [moves_tac|obs].
  - apply (acquire_hart h j m Hi Hh); rewrite ?Epc; [done|repeat constructor; set_solver|done].
  - apply (release_hart h j m Hi Hh _ (SlChan l)); rewrite ?Epc; [apply perm_swap|done|intros; apply moves_goto].
  - eapply (quiet_hart h j m Hi Hh (SlState l)); [moves_tac|by rewrite Epc|obs].
  - eapply (quiet_hart h j m Hi Hh (SlSched l)); [moves_tac|by rewrite Epc|obs].
  - apply sched_hart; rewrite ?Epc; try done. intros st ->. right. exists l. split; [done|by right].
  - eapply (quiet_hart h j m Hi Hh (SlRelP l)); [moves_tac|by rewrite Epc|obs].
  - apply (release_hart h j m Hi Hh _ (SlAcqLk l)); rewrite ?Epc; [done|done|intros; apply moves_goto].
  - apply (acquire_hart h j m Hi Hh); rewrite ?Epc; [done|apply NoDup_singleton|done].
  - apply (acquire_hart h j m Hi Hh); rewrite ?Epc; [done|apply NoDup_singleton|done].
  - eapply (quiet_hart h j m Hi Hh (RlPid l)); [moves_tac|by rewrite Epc|obs].
  - eapply (quiet_hart h j m Hi Hh (WkLoop l 0)); [moves_tac|by rewrite Epc|obs].
  - case_decide as Hn; [|case_decide as Hk].
    + eapply (quiet_hart h j m Hi Hh); [by apply moves_goto|by rewrite Epc|obs].
    + eapply (quiet_hart h j m Hi Hh); [by apply moves_goto|by rewrite Epc|obs].
    + apply (acquire_hart h j m Hi Hh); rewrite ?Epc; [done|repeat constructor; set_solver|done].
  - case_decide as Hd.
    + destruct (wake_hart h j l k m Hi Hs Hh Epc (proj1 Hd)) as [Hi' _]. destruct Hok as (_ & _ & Hkj). set (m1 := set_st k RUNNABLE m) in *.
      assert (E1 : procs m1 j = procs m j) by (unfold m1; obs).
      apply (quiet_hart h j m1 Hi' Hh (WkRelP l k)); [by apply moves_goto|by rewrite E1, Epc|].
      destruct (moves_goto j (WkRelP l k) m1) as [_ ->]. by rewrite E1.
    + eapply (quiet_hart h j m Hi Hh); [by apply moves_goto|by rewrite Epc|obs].
  - apply (release_hart h j m Hi Hh _ (WkLoop l (S k))); rewrite ?Epc; [done|done|intros; apply moves_goto].
  - apply (release_hart h j m Hi Hh _ Idle); rewrite ?Epc; [done|done|intros; apply moves_goto].
  - apply (acquire_hart h j m Hi Hh); rewrite ?Epc; [done|apply NoDup_singleton|done].
  - eapply (quiet_hart h j m Hi Hh YdSched); [moves_tac|by rewrite Epc|obs].
  - apply sched_hart; rewrite ?Epc; try done. intros st ->. by left.
  - apply (release_hart h j m Hi Hh _ Idle); rewrite ?Epc; [done|done|intros; apply moves_goto].
Qed.

Lemma advance_hart h m : hart_inv m -> sleep_inv m -> hart_inv (scheduler_at h m).
Proof.
  intros Hi Hs. unfold scheduler_at. destruct (h_pc (harts m h)) as [k|k|k|j|msg] eqn:Eh;
    [by apply scan_hart|by apply test_hart|by apply back_hart|by apply thread_hart_inv|done].
Qed.

Lemma call_hart h j o m : hart_inv m -> h_pc (harts m h) = Run j -> p_pc (procs m j) = Idle -> hart_inv (call j o m).
Proof.
  intros Hi Hh Epc. pose proof (i_state m Hi h j Hh) as Hj. rewrite Epc in Hj.
  destruct o as [l|l|]; unfold call.
  - eapply (quiet_hart h j m Hi Hh); [by apply moves_goto|by rewrite Epc|obs].
  - eapply (quiet_hart h j m Hi Hh (RlAcqLk l)); [moves_tac|by rewrite Epc|obs].
  - eapply (quiet_hart h j m Hi Hh); [by apply moves_goto|by rewrite Epc|obs].
Qed.

(** ** Sleep locks *)

(** A step of process [j]: of the others, some sleepers may have become runnable. *)
Record frame (j : nat) (m m' : machine) : Prop := {
  fr_other j' : j' <> j -> p_pc (procs m' j') = p_pc (procs m j') /\ p_held (procs m' j') = p_held (procs m j') /\
    p_ch (procs m' j') = p_ch (procs m j') /\ p_id (procs m' j') = p_id (procs m j') /\
    (p_st (procs m' j') = SLEEPING -> p_st (procs m j') = SLEEPING);
  fr_id : p_id (procs m' j) = p_id (procs m j);
}.

Section frame.
Context (j : nat) (m m' : machine).
Hypothesis Hi : hart_inv m.
Hypothesis Hs : sleep_inv m.
Hypothesis Hf : frame j m m'.

Lemma owns_frame j' l : j' <> j -> owns m' j' l <-> owns m j' l.
Proof using Hf. intros Hne. unfold owns. destruct (fr_other _ _ _ Hf j' Hne) as (-> & -> & _). done. Qed.

Lemma waits_other j' l : j' <> j -> waits m' j' l -> waits m j' l.
Proof using Hf.
  intros Hne. unfold waits. destruct (fr_other _ _ _ Hf j' Hne) as (-> & _ & _ & _ & Hst). destruct (p_pc (procs m j')); try done. intros [? ?]. auto.
Qed.

Lemma pc_ok_other j' : j' <> j ->
  (forall l, LkS l ∉ held_by j (p_pc (procs m j)) -> s_locked (slocks m' l) = s_locked (slocks m l) /\ s_pid (slocks m' l) = s_pid (slocks m l)) ->
  pc_ok m' j'.
Proof using Hi Hs Hf.
  intros Hne Hl. pose proof (i_pc m Hs j') as Hok. unfold pc_ok in *. destruct (fr_other _ _ _ Hf j' Hne) as (Epc & Ehd & Ech & Eid & _).
  rewrite Epc, Ehd, Ech, Eid.
  assert (Hsl : forall l, LkS l ∈ held_by j' (p_pc (procs m j')) -> s_locked (slocks m' l) = s_locked (slocks m l) /\ s_pid (slocks m' l) = s_pid (slocks m l)).
  { intros l Hin. apply Hl. intros Hin'. apply Hne. by apply (thread_excl m j' j l). }
  destruct (p_pc (procs m j')) as [|l|l|l|l|l|l|l|l|l|l|l|l|l|l|l|l|l k|l k|l k|l| | | |]; try done;
    (destruct (Hsl l) as [E1 E2]; [cbn [held_by]; set_solver|]); rewrite ?E1, ?E2; done.
Qed.

Lemma sleep_step :
  (forall l, LkS l ∉ held_by j (p_pc (procs m j)) -> s_locked (slocks m' l) = s_locked (slocks m l) /\ s_pid (slocks m' l) = s_pid (slocks m l)) ->
  pc_ok m' j ->
  (forall l, s_locked (slocks m' l) = true <-> owns m' j l \/ exists j', j' <> j /\ owns m j' l) ->
  (forall l j', owns m' j l -> j' <> j -> ~ owns m j' l) ->
  (forall l, l ∈ p_held (procs m' j) -> s_pid (slocks m' l) = p_id (procs m j)) ->
  (forall l j', j' <> j -> l ∈ p_held (procs m j') -> s_pid (slocks m' l) = s_pid (slocks m l)) ->
  (forall l, waits m' j l -> waits m j l \/ s_locked (slocks m' l) = true) ->
  (forall l j', waits m' j' l -> s_locked (slocks m l) = true \/ to_visit (p_pc (procs m j)) l j' ->
     s_locked (slocks m' l) = true \/ to_visit (p_pc (procs m' j)) l j') ->
  sleep_inv m'.
Proof using Hi Hs Hf.
  intros Hl Hpc Hown Huniq Hpid Hpid' Hw Hv. constructor.
  - intros j'. destruct (decide (j' = j)) as [->|Hne]; [done|by apply pc_ok_other].
  - intros l. rewrite Hown. split.
    + intros [?|(j' & Hne & ?)]; [by exists j|]. exists j'. by apply owns_frame.
    + intros [j' Ho]. destruct (decide (j' = j)) as [->|Hne]; [by left|right]. exists j'. split; [done|]. by apply owns_frame.
  - intros l j1 j2 H1 H2. destruct (decide (j1 = j)) as [->|N1], (decide (j2 = j)) as [->|N2]; [done| | |].
    + rewrite owns_frame in H2 by done. by apply (Huniq l j2) in H2.
    + rewrite owns_frame in H1 by done. by apply (Huniq l j1) in H1.
    + rewrite owns_frame in H1, H2 by done. by apply (i_unique m Hs l).
  - intros l j' Hin. destruct (decide (j' = j)) as [->|Hne]; [by rewrite Hpid, (fr_id _ _ _ Hf)|].
    destruct (fr_other _ _ _ Hf j' Hne) as (_ & E & _ & -> & _). rewrite E in Hin. rewrite (Hpid' l j') by done. by apply (i_pid m Hs).
  - intros l j' Hj'. assert (Hwm : waits m j' l \/ s_locked (slocks m' l) = true).
    { destruct (decide (j' = j)) as [->|Hne]; [by apply Hw|left; by apply waits_other]. }
    destruct Hwm as [Hwm|?]; [|by left]. destruct (i_waits m Hs l j' Hwm) as [Ht|[i Hvi]].
    + destruct (Hv l j' Hj' (or_introl Ht)) as [?|?]; [by left|right; by exists j].
    + destruct (decide (i = j)) as [->|Hne].
      * destruct (Hv l j' Hj' (or_intror Hvi)) as [?|?]; [by left|right; by exists j].
      * right. exists i. destruct (fr_other _ _ _ Hf i Hne) as (-> & _). done.
Qed.

(** A step that leaves the sleep locks alone. *)
Lemma sleep_quiet :
  (forall l, s_locked (slocks m' l) = s_locked (slocks m l) /\ s_pid (slocks m' l) = s_pid (slocks m l)) ->
  pc_ok m' j -> (forall l, owns m' j l <-> owns m j l) ->
  (forall l, l ∈ p_held (procs m' j) -> l ∈ p_held (procs m j) \/ s_pid (slocks m l) = p_id (procs m j)) ->
  (forall l, waits m' j l -> waits m j l \/ s_locked (slocks m l) = true) ->
  (forall l j', waits m' j' l -> to_visit (p_pc (procs m j)) l j' -> to_visit (p_pc (procs m' j)) l j') ->
  sleep_inv m'.
Proof using Hi Hs Hf.
  intros Hl Hpc Hown Hpid Hw Hv. apply sleep_step; [intros l _; apply Hl|done|..].
  - intros l. rewrite (proj1 (Hl l)), (i_owner m Hs l), Hown. split.
    + intros [j' Hj']. destruct (decide (j' = j)) as [->|]; [by left|right; by exists j'].
    + intros [?|(j' & _ & ?)]; eauto.
  - intros l j' Ho%Hown Hne Ho'. apply Hne. by apply (i_unique m Hs l).
  - intros l Hin. rewrite (proj2 (Hl l)). destruct (Hpid l Hin) as [?|?]; [by apply (i_pid m Hs)|done].
  - intros l j' _ _. apply Hl.
  - intros l Hwl. rewrite (proj1 (Hl l)). auto.
  - intros l j' Hwl [?|?]; [left; by rewrite (proj1 (Hl l))|right; by apply Hv].
Qed.
End frame.

(** Only processes of the table wait. *)
Lemma waits_index m j l : hart_inv m -> waits m j l -> (j < nproc)%nat.
Proof.
  intros Hi Hw. destruct (i_procs m Hi j) as [[h Hh]|[[E _]|(l' & _ & _ & ?)]]; [|by unfold waits in Hw; rewrite E in Hw|done].
  pose proof (i_index m Hi h) as Hx. by rewrite Hh in Hx.
Qed.

(** Nothing that matters to the sleep locks has changed. *)
Lemma sleep_inv_same m m' : (forall l, s_locked (slocks m' l) = s_locked (slocks m l) /\ s_pid (slocks m' l) = s_pid (slocks m l)) ->
  (forall j, p_pc (procs m' j) = p_pc (procs m j) /\ p_held (procs m' j) = p_held (procs m j) /\ p_ch (procs m' j) = p_ch (procs m j) /\
     p_id (procs m' j) = p_id (procs m j) /\ (p_st (procs m' j) = SLEEPING -> p_st (procs m j) = SLEEPING)) ->
  sleep_inv m -> sleep_inv m'.
Proof.
  intros Hl Hp Hs.
  assert (Ho : forall j l, owns m' j l <-> owns m j l) by (intros j l; unfold owns; destruct (Hp j) as (-> & -> & _); done).
  constructor.
  - intros j. pose proof (i_pc m Hs j) as Hok. unfold pc_ok in *. destruct (Hp j) as (-> & -> & -> & -> & _).
    destruct (p_pc (procs m j)) as [|l|l|l|l|l|l|l|l|l|l|l|l|l|l|l|l|l k|l k|l k|l| | | |]; try done; destruct (Hl l) as [F1 F2]; by rewrite ?F1, ?F2.
  - intros l. rewrite (proj1 (Hl l)), (i_owner m Hs). by setoid_rewrite Ho.
  - intros l j j'. rewrite !Ho. apply (i_unique m Hs).
  - intros l j. destruct (Hp j) as (_ & -> & _ & -> & _). rewrite (proj2 (Hl l)). apply (i_pid m Hs).
  - intros l j Hw. assert (Hwm : waits m j l).
    { unfold waits in *. destruct (Hp j) as (E & _ & _ & _ & Hst). rewrite E in Hw. destruct (p_pc (procs m j)); try done. destruct Hw; auto. }
    rewrite (proj1 (Hl l)). destruct (i_waits m Hs l j Hwm) as [?|[i Hv]]; [by left|right]. exists i. by destruct (Hp i) as (-> & _).
Qed.

Ltac same_tac := apply sleep_inv_same; [let l := fresh in intros l; obs|let j := fresh in intros j; obs; auto].

Lemma acquire_sleep h k j c m : sleep_inv m -> sleep_inv (goto j c m) -> sleep_inv (acquire_then h k (goto j c) m).
Proof.
  intros Hs Hg. unfold acquire_then. destruct (owner m k) as [h'|].
  - case_decide; [|done]. revert Hs. same_tac.
  - revert Hg. destruct k; same_tac.
Qed.

Lemma release_sleep h k j c m : sleep_inv m -> sleep_inv (goto j c m) -> sleep_inv (release_then h k (goto j c) m).
Proof.
  intros Hs Hg. unfold release_then. case_decide; [|revert Hs; same_tac]. revert Hg. destruct k; same_tac.
Qed.

Lemma frame_goto j m c : frame j m (goto j c m).
Proof. constructor; [intros j' Hne|]; obs. Qed.

Lemma goto_pc j m c : p_pc (procs (goto j c m) j) = c.
Proof. obs. Qed.

Section steps.
Context (j : nat) (m : machine).
Hypothesis Hi : hart_inv m.
Hypothesis Hs : sleep_inv m.

(** The thread goes to [c], and its own data change. *)
Lemma goto_sleep c m' : frame j m m' -> slocks m' = slocks m -> p_pc (procs m' j) = c -> p_held (procs m' j) = p_held (procs m j) ->
  pc_ok m' j -> (forall l, owned_at c l <-> owned_at (p_pc (procs m j)) l) ->
  (forall l, waits m' j l -> waits m j l \/ s_locked (slocks m l) = true) ->
  (forall l j', waits m' j' l -> to_visit (p_pc (procs m j)) l j' -> to_visit c l j') -> sleep_inv m'.
Proof using Hi Hs.
  intros Hf Hl Epc Eh Hok Ho Hw Hv. apply (sleep_quiet j m m' Hi Hs Hf); [by rewrite Hl|done| |intros l; rewrite Eh; by left|done|by rewrite Epc].
  intros l. unfold owns. by rewrite Eh, Epc, Ho.
Qed.

End steps.

(** A process that [wakeup] has locked and not found asleep does not wait. *)
Lemma visited h j l k m : hart_inv m -> sleep_inv m -> h_pc (harts m h) = Run j -> p_pc (procs m j) = WkTest l k ->
  waits m k l -> p_pc (procs m k) = SlWake l /\ p_st (procs m k) = SLEEPING /\ p_ch (procs m k) = Some l.
Proof.
  intros Hi Hs Hh Epc Hw. pose proof (i_pc m Hs j) as Hok. unfold pc_ok in Hok. rewrite Epc in Hok. destruct Hok as (_ & _ & Hkj).
  assert (Hin : LkP k ∈ held m h /\ LkS l ∈ held m h) by (unfold held; rewrite Hh, Epc; cbn [held_by]; set_solver). destruct Hin as [HkP HkS].
  assert (Hp : parked k (procs m k)).
  { destruct (i_procs m Hi k) as [[h' Hh']|?]; [|done]. exfalso. assert (Hne : h' <> h) by (intros ->; congruence).
    assert (Hno : forall x, x ∈ held m h -> x ∉ held m h') by (intros x X1 X2; apply Hne; apply (i_own m Hi) in X1, X2; congruence).
    pose proof (Hno _ HkP) as N1. pose proof (Hno _ HkS) as N2. unfold held in N1, N2. rewrite Hh' in N1, N2. unfold waits in Hw.
    pose proof (i_state m Hi h' k Hh') as Hst.
    destruct (p_pc (procs m k)); try done; cbn [held_by state_at] in *; try (subst; set_solver); destruct Hw; congruence. }
  destruct Hp as [[E _]|(l' & E & _)]; unfold waits in Hw; rewrite E in Hw; [done|]. destruct Hw as [-> ?].
  pose proof (i_pc m Hs k) as Hk. unfold pc_ok in Hk. rewrite E in Hk. done.
Qed.

Lemma wake_sleep h j l k m : hart_inv m -> sleep_inv m -> h_pc (harts m h) = Run j -> p_pc (procs m j) = WkTest l k ->
  sleep_inv (goto j (WkRelP l k) (if decide (p_st (procs m k) = SLEEPING /\ p_ch (procs m k) = Some l) then set_st k RUNNABLE m else m)).
Proof.
  intros Hi Hs Hh Epc. pose proof (i_pc m Hs j) as Hok. unfold pc_ok in Hok. rewrite Epc in Hok. destruct Hok as (Hlk & Hk & Hkj).
  set (m1 := if decide _ then _ else m).
  assert (Hst : p_st (procs m1 k) = SLEEPING -> p_ch (procs m k) <> Some l).
  { unfold m1. case_decide as Hd; [obs|]. intros E Ec. by apply Hd. }
  assert (Hm1 : slocks m1 = slocks m /\ forall j', p_pc (procs m1 j') = p_pc (procs m j') /\ p_held (procs m1 j') = p_held (procs m j') /\
    p_ch (procs m1 j') = p_ch (procs m j') /\ p_id (procs m1 j') = p_id (procs m j') /\ (p_st (procs m1 j') = SLEEPING -> p_st (procs m j') = SLEEPING)).
  { unfold m1. case_decide; [|done]. split; [done|]. intros j'. obs. }
  clearbody m1. destruct Hm1 as [Es Hp]. set (m' := goto j (WkRelP l k) m1).
  assert (Ep : forall j', j' <> j -> procs m' j' = procs m1 j') by (intros j' Hne; unfold m'; obs).
  assert (Epc' : p_pc (procs m' j) = WkRelP l k) by apply goto_pc.
  assert (Hf : frame j m m').
  { constructor; [intros j' Hne; rewrite Ep by done; apply Hp|]. unfold m'. obs. apply Hp. }
  apply (goto_sleep j m Hi Hs (WkRelP l k) m' Hf Es Epc').
  - unfold m'. obs. apply Hp.
  - unfold pc_ok. rewrite Epc'. change (slocks m') with (slocks m1). by rewrite Es.
  - intros l'. rewrite Epc. unfold owned_at. naive_solver.
  - intros l'. unfold waits. by rewrite Epc'.
  - intros l' j' Hw. rewrite Epc. cbn [to_visit]. intros [-> Hle]. split; [done|]. destruct (decide (j' = k)) as [->|]; [|lia]. exfalso.
    pose proof (waits_other j m m' Hf k l' Hkj Hw) as Hwm. destruct (visited h j l' k m Hi Hs Hh Epc Hwm) as (E & _ & Hc).
    unfold waits in Hw. rewrite Ep in Hw by done. destruct (Hp k) as (E' & _). rewrite E', E in Hw. destruct Hw as [_ Hsl]. by apply Hst.
Qed.

(** The steps that change a sleep lock. *)
Section locks.
Context (j l : nat) (m : machine).
Hypothesis Hi : hart_inv m.
Hypothesis Hs : sleep_inv m.

Lemma other_locks c f l' : LkS l' ∉ held_by j (p_pc (procs m j)) -> LkS l ∈ held_by j (p_pc (procs m j)) ->
  slocks (goto j c (on_slock l f m)) l' = slocks m l'.
Proof using. intros Hn Hin. cbn. rewrite fn_lookup_insert_ne; [done|]. by intros <-. Qed.

Lemma frame_slock c f : frame j m (goto j c (on_slock l f m)).
Proof using. constructor; [intros j' Hne; cbn; by rewrite fn_lookup_insert_ne|cbn; by rewrite fn_lookup_insert]. Qed.

(** Nobody owns a sleep lock that is not locked. *)
Lemma unlocked_free j' : s_locked (slocks m l) = false -> ~ owns m j' l.
Proof using Hs. intros Hl Ho. assert (s_locked (slocks m l) = true) by (apply (i_owner m Hs); eauto). congruence. Qed.

Lemma set_locked_sleep : p_pc (procs m j) = SetLocked l -> sleep_inv (goto j (SetPid l) (set_locked l true m)).
Proof using Hi Hs.
  intros Epc. pose proof (i_pc m Hs j) as Hl. unfold pc_ok in Hl. rewrite Epc in Hl. unfold set_locked. set (m' := goto _ _ _).
  assert (Epc' : p_pc (procs m' j) = SetPid l) by apply goto_pc.
  assert (El : s_locked (slocks m' l) = true) by (cbn; by rewrite fn_lookup_insert).
  assert (En : forall l', l' <> l -> slocks m' l' = slocks m l') by (intros; cbn; by rewrite fn_lookup_insert_ne).
  assert (Eh : p_held (procs m' j) = p_held (procs m j)) by (cbn; by rewrite fn_lookup_insert).
  assert (Eid : forall l', s_pid (slocks m' l') = s_pid (slocks m l')) by (intros l'; cbn; destruct (decide (l = l')) as [<-|]; [by rewrite fn_lookup_insert|by rewrite fn_lookup_insert_ne]).
  assert (Ho : forall l', owns m' j l' <-> owns m j l' \/ l' = l).
  { intros l'. unfold owns, owned_at. rewrite Epc, Epc', Eh. naive_solver. }
  apply (sleep_step j m m' Hi Hs (frame_slock _ _)).
  - intros l' Hn. rewrite En; [done|]. rewrite Epc in Hn. intros ->. apply Hn. by left.
  - unfold pc_ok. by rewrite Epc'.
  - intros l'. destruct (decide (l' = l)) as [->|Hne].
    + rewrite El, Ho. split; [by intros; left; right|done].
    + rewrite En by done. rewrite (i_owner m Hs), Ho. split; [|naive_solver]. intros [j' Hj']. destruct (decide (j' = j)) as [->|]; naive_solver.
  - intros l' j' [Hj| ->]%Ho Hne Hj'; [by apply Hne, (i_unique m Hs l')|by apply (unlocked_free j' Hl)].
  - intros l' Hin. rewrite Eid. rewrite Eh in Hin. by apply (i_pid m Hs).
  - intros l' j' _ _. apply Eid.
  - intros l'. unfold waits. by rewrite Epc'.
  - intros l' j' _ [Ht|Hv]; [|by rewrite Epc in Hv]. left. destruct (decide (l' = l)) as [->|]; [done|by rewrite En].
Qed.

Lemma set_pid_sleep : p_pc (procs m j) = SetPid l -> sleep_inv (goto j (RelLk l) (set_pid l (p_id (procs m j)) m)).
Proof using Hi Hs.
  intros Epc. pose proof (i_pc m Hs j) as Hl. unfold pc_ok in Hl. rewrite Epc in Hl. unfold set_pid. set (m' := goto _ _ _).
  assert (Epc' : p_pc (procs m' j) = RelLk l) by apply goto_pc.
  assert (Elk : forall l', s_locked (slocks m' l') = s_locked (slocks m l')) by (intros l'; cbn; destruct (decide (l = l')) as [<-|]; [by rewrite fn_lookup_insert|by rewrite fn_lookup_insert_ne]).
  assert (En : forall l', l' <> l -> slocks m' l' = slocks m l') by (intros; cbn; by rewrite fn_lookup_insert_ne).
  assert (Eh : p_held (procs m' j) = p_held (procs m j)) by (cbn; by rewrite fn_lookup_insert).
  assert (Eid : s_pid (slocks m' l) = p_id (procs m j)) by (cbn; by rewrite fn_lookup_insert).
  assert (Ho : forall l', owns m' j l' <-> owns m j l').
  { intros l'. unfold owns, owned_at. rewrite Epc, Epc', Eh. naive_solver. }
  assert (Hown : owns m j l) by (right; rewrite Epc; by left).
  apply (sleep_step j m m' Hi Hs (frame_slock _ _)).
  - intros l' Hn. rewrite En; [done|]. rewrite Epc in Hn. intros ->. apply Hn. by left.
  - unfold pc_ok. rewrite Epc', Elk. split; [done|]. cbn. by rewrite !fn_lookup_insert.
  - intros l'. rewrite Elk, (i_owner m Hs), Ho. split; [|naive_solver]. intros [j' Hj']. destruct (decide (j' = j)) as [->|]; naive_solver.
  - intros l' j' Hj%Ho Hne Hj'. by apply Hne, (i_unique m Hs l').
  - intros l' Hin. rewrite Eh in Hin. destruct (decide (l' = l)) as [->|]; [done|]. rewrite En by done. by apply (i_pid m Hs).
  - intros l' j' Hne Hin. destruct (decide (l' = l)) as [->|]; [|by rewrite En]. destruct Hne. apply (i_unique m Hs l); [by left|done].
  - intros l'. unfold waits. by rewrite Epc'.
  - intros l' j' _ [Ht|Hv]; [|by rewrite Epc in Hv]. left. by rewrite Elk.
Qed.

Lemma clear_sleep : p_pc (procs m j) = RlClear l -> sleep_inv (goto j (RlPid l) (set_locked l false m)).
Proof using Hi Hs.
  intros Epc. pose proof (i_pc m Hs j) as Hl. unfold pc_ok in Hl. rewrite Epc in Hl. destruct Hl as [Hl Hnh]. unfold set_locked. set (m' := goto _ _ _).
  assert (Epc' : p_pc (procs m' j) = RlPid l) by apply goto_pc.
  assert (El : s_locked (slocks m' l) = false) by (cbn; by rewrite fn_lookup_insert).
  assert (En : forall l', l' <> l -> slocks m' l' = slocks m l') by (intros; cbn; by rewrite fn_lookup_insert_ne).
  assert (Eh : p_held (procs m' j) = p_held (procs m j)) by (cbn; by rewrite fn_lookup_insert).
  assert (Eid : forall l', s_pid (slocks m' l') = s_pid (slocks m l')) by (intros l'; cbn; destruct (decide (l = l')) as [<-|]; [by rewrite fn_lookup_insert|by rewrite fn_lookup_insert_ne]).
  assert (Hown : owns m j l) by (right; rewrite Epc; unfold owned_at; tauto).
  assert (Ho : forall l', owns m' j l' <-> owns m j l' /\ l' <> l).
  { intros l'. unfold owns, owned_at. rewrite Epc, Epc', Eh. naive_solver. }
  apply (sleep_step j m m' Hi Hs (frame_slock _ _)).
  - intros l' Hn. rewrite En; [done|]. rewrite Epc in Hn. intros ->. apply Hn. by left.
  - unfold pc_ok. by rewrite Epc'.
  - intros l'. destruct (decide (l' = l)) as [->|Hne].
    + rewrite El, Ho. split; [done|]. intros [[_ ?]|(j' & Hne & Hj')]; [done|]. destruct Hne. by apply (i_unique m Hs l).
    + rewrite En by done. rewrite (i_owner m Hs), Ho. split; [|naive_solver]. intros [j' Hj']. destruct (decide (j' = j)) as [->|]; naive_solver.
  - intros l' j' [Hj _]%Ho Hne Hj'. by apply Hne, (i_unique m Hs l').
  - intros l' Hin. rewrite Eid. rewrite Eh in Hin. by apply (i_pid m Hs).
  - intros l' j' _ _. apply Eid.
  - intros l'. unfold waits. by rewrite Epc'.
  - intros l' j' _ [Ht|Hv]; [|by rewrite Epc in Hv]. rewrite Epc'. destruct (decide (l' = l)) as [->|]; [by right|left; by rewrite En].
Qed.

Lemma clear_pid_sleep : p_pc (procs m j) = RlPid l -> sleep_inv (goto j (WkLoop l 0) (set_pid l 0 m)).
Proof using Hi Hs.
  intros Epc. pose proof (i_pc m Hs j) as Hl. unfold pc_ok in Hl. rewrite Epc in Hl. unfold set_pid. set (m' := goto _ _ _).
  assert (Epc' : p_pc (procs m' j) = WkLoop l 0) by apply goto_pc.
  assert (Elk : forall l', s_locked (slocks m' l') = s_locked (slocks m l')) by (intros l'; cbn; destruct (decide (l = l')) as [<-|]; [by rewrite fn_lookup_insert|by rewrite fn_lookup_insert_ne]).
  assert (En : forall l', l' <> l -> slocks m' l' = slocks m l') by (intros; cbn; by rewrite fn_lookup_insert_ne).
  assert (Eh : p_held (procs m' j) = p_held (procs m j)) by (cbn; by rewrite fn_lookup_insert).
  assert (Ho : forall l', owns m' j l' <-> owns m j l').
  { intros l'. unfold owns, owned_at. rewrite Epc, Epc', Eh. naive_solver. }
  assert (Hfree : forall j' l', l' ∈ p_held (procs m j') -> l' <> l) by (intros j' l' Hin ->; apply (unlocked_free j' Hl); by left).
  apply (sleep_step j m m' Hi Hs (frame_slock _ _)).
  - intros l' Hn. rewrite En; [done|]. rewrite Epc in Hn. intros ->. apply Hn. by left.
  - unfold pc_ok. by rewrite Epc', Elk.
  - intros l'. rewrite Elk, (i_owner m Hs), Ho. split; [|naive_solver]. intros [j' Hj']. destruct (decide (j' = j)) as [->|]; naive_solver.
  - intros l' j' Hj%Ho Hne Hj'. by apply Hne, (i_unique m Hs l').
  - intros l' Hin. rewrite Eh in Hin. rewrite En by by apply (Hfree j). by apply (i_pid m Hs).
  - intros l' j' _ Hin. by rewrite En by by apply (Hfree j').
  - intros l'. unfold waits. by rewrite Epc'.
  - intros l' j' _ [Ht|Hv]; [left; by rewrite Elk|]. rewrite Epc in Hv. rewrite Epc'. right. split; [done|lia].
Qed.

(** The sleep lock becomes the caller's when [acquiresleep] returns. *)
Lemma got_sleep : p_pc (procs m j) = RelLk l -> sleep_inv (goto j Idle (set_held j (fun ls => l :: ls) m)).
Proof using Hi Hs.
  intros Epc. pose proof (i_pc m Hs j) as Hl. unfold pc_ok in Hl. rewrite Epc in Hl. set (m' := goto _ _ _).
  assert (Epc' : p_pc (procs m' j) = Idle) by apply goto_pc.
  assert (Eh : p_held (procs m' j) = l :: p_held (procs m j)) by (cbn; by rewrite !fn_lookup_insert).
  assert (Hf : frame j m m') by (constructor; [intros j' Hne; cbn; by rewrite !fn_lookup_insert_ne|cbn; by rewrite !fn_lookup_insert]).
  apply (sleep_quiet j m m' Hi Hs Hf); [done|..].
  - unfold pc_ok. by rewrite Epc'.
  - intros l'. unfold owns, owned_at. rewrite Epc, Epc', Eh, elem_of_cons. naive_solver.
  - intros l'. rewrite Eh. intros [->|?]%elem_of_cons; [right; apply Hl|by left].
  - intros l'. unfold waits. by rewrite Epc'.
  - intros l' j' _. by rewrite Epc.
Qed.

(** [releasesleep] is called. *)
Lemma give_sleep : p_pc (procs m j) = Idle -> l ∈ p_held (procs m j) -> sleep_inv (goto j (RlAcqLk l) (set_held j (filter (.≠ l)) m)).
Proof using Hi Hs.
  intros Epc Hin. set (m' := goto _ _ _).
  assert (Epc' : p_pc (procs m' j) = RlAcqLk l) by apply goto_pc.
  assert (Eh : p_held (procs m' j) = filter (.≠ l) (p_held (procs m j))) by (cbn; by rewrite !fn_lookup_insert).
  assert (Hf : frame j m m') by (constructor; [intros j' Hne; cbn; by rewrite !fn_lookup_insert_ne|cbn; by rewrite !fn_lookup_insert]).
  apply (sleep_quiet j m m' Hi Hs Hf); [done|..].
  - unfold pc_ok. rewrite Epc', Eh, list_elem_of_filter. naive_solver.
  - intros l'. unfold owns, owned_at. rewrite Epc, Epc', Eh, list_elem_of_filter. destruct (decide (l' = l)) as [->|]; naive_solver.
  - intros l'. rewrite Eh, list_elem_of_filter. naive_solver.
  - intros l'. unfold waits. by rewrite Epc'.
  - intros l' j' _. by rewrite Epc.
Qed.
End locks.

Lemma release_got h j l m : sleep_inv m -> sleep_inv (goto j Idle (set_held j (fun ls => l :: ls) m)) ->
  sleep_inv (release_then h (LkS l) (fun m => goto j Idle (set_held j (fun ls => l :: ls) m)) m).
Proof. intros Hs Hg. unfold release_then. case_decide; [|revert Hs; same_tac]. revert Hg. same_tac. Qed.

Lemma sched_sleep h j c m : sleep_inv m -> sleep_inv (goto j c m) -> sleep_inv (sched_at h j c m).
Proof.
  intros Hs Hg. unfold sched_at. repeat (case_decide; [revert Hs; same_tac|]). revert Hg. same_tac.
Qed.

(** The goals of [goto_sleep] for a thread that goes from one point of the code to the next. *)
Ltac pc_tac := unfold pc_ok; rewrite ?goto_pc; cbn; rewrite ?fn_lookup_insert; cbn; auto.
Ltac go j m Epc := eapply (goto_sleep j m);
  [eassumption|eassumption|constructor; [intros ? ?|]; obs|reflexivity|apply goto_pc|obs|try done; pc_tac
  |intros ?; rewrite Epc; unfold owned_at; naive_solver
  |intros ?; unfold waits; rewrite ?goto_pc, ?Epc; try done; auto
  |intros l1 j1 Hw1; rewrite Epc; try done].

Lemma thread_sleep h j m : hart_inv m -> sleep_inv m -> h_pc (harts m h) = Run j -> sleep_inv (thread h j m).
Proof.
  intros Hi Hs Hh. pose proof (i_pc m Hs j) as Hok. unfold pc_ok in Hok. pose proof (i_state m Hi h j Hh) as Hst.
  unfold thread. cbv zeta. destruct (p_pc (procs m j)) as [|l|l|l|l|l|l|l|l|l|l|l|l|l|l|l|l|l k|l k|l k|l| | | |] eqn:Epc; cbn [acquiresleep_at sleep_at releasesleep_at wakeup_at yield_at]; try done.
  - apply acquire_sleep; [done|]. go j m Epc.
  - destruct (s_locked (slocks m l)) eqn:El; go j m Epc. naive_solver.
  - by apply set_locked_sleep.
  - by apply set_pid_sleep.
  - apply release_got; [done|]. by apply got_sleep.
  - apply acquire_sleep; [done|]. go j m Epc.
  - apply release_sleep; [done|]. go j m Epc.
  - go j m Epc.
  - go j m Epc.
  - apply sched_sleep; [done|]. go j m Epc. naive_solver.
  - go j m Epc.
  - apply release_sleep; [done|]. go j m Epc.
  - apply acquire_sleep; [done|]. go j m Epc.
  - apply acquire_sleep; [done|]. go j m Epc. split; [|done]. apply (i_owner m Hs). exists j. right. rewrite Epc. unfold owned_at. tauto.
  - by apply clear_sleep.
  - by apply clear_pid_sleep.
  - case_decide as Hn; [|case_decide as Hk].
    + go j m Epc. intros [<- Hle]. exfalso. assert (Hne : j1 <> j) by (intros ->; unfold waits in Hw1; by rewrite goto_pc in Hw1).
      pose proof (waits_index m j1 l Hi (waits_other j m _ (frame_goto j m _) j1 l Hne Hw1)). lia.
    + go j m Epc. intros [<- Hle]. assert (Hne : j1 <> j) by (intros ->; unfold waits in Hw1; by rewrite goto_pc in Hw1).
      split; [done|lia].
    + apply acquire_sleep; [done|]. go j m Epc. split; [done|]. split; [lia|done].
  - by eapply wake_sleep.
  - apply release_sleep; [done|]. go j m Epc. apply Hok.
  - apply release_sleep; [done|]. go j m Epc.
  - apply acquire_sleep; [done|]. go j m Epc.
  - go j m Epc.
  - apply sched_sleep; [done|]. go j m Epc.
  - apply release_sleep; [done|]. go j m Epc.
Qed.

Lemma advance_sleep h m : hart_inv m -> sleep_inv m -> sleep_inv (scheduler_at h m).
Proof.
  intros Hi Hs. unfold scheduler_at. destruct (h_pc (harts m h)) as [k|k|k|j|msg] eqn:Eh; [| | |by apply thread_sleep|done].
  - unfold acquire_then. destruct (owner m (LkP k)); [case_decide; [|done]|]; revert Hs; same_tac.
  - case_decide; revert Hs; same_tac.
  - unfold release_then. case_decide; revert Hs; same_tac.
Qed.

Lemma call_sleep j o m : hart_inv m -> sleep_inv m -> p_pc (procs m j) = Idle -> may_call j o m -> sleep_inv (call j o m).
Proof.
  intros Hi Hs Epc Hm. destruct o as [l|l|]; unfold call; [go j m Epc|by apply give_sleep|go j m Epc].
Qed.

Lemma initial_inv m : initial m -> hart_inv m /\ sleep_inv m.
Proof.
  intros [Hl Hp Hh]. assert (Hheld : forall h, held m h = []) by (intros h; unfold held; by rewrite Hh).
  assert (Hno : forall j l, ~ owns m j l).
  { intros j l. unfold owns, owned_at. destruct (Hp j) as (_ & _ & _ & -> & ->). set_solver. }
  split; constructor.
  - intros k h. rewrite Hheld. split; [|set_solver]. unfold owner. destruct k as [l|j]; [by rewrite (proj1 (Hl l))|by rewrite (proj1 (Hp j))].
  - intros h. by rewrite Hheld, Hh.
  - intros h h' j. by rewrite Hh.
  - intros h. rewrite Hh. cbn. unfold nproc, NPROC. lia.
  - intros h j. by rewrite Hh.
  - intros j. right. left. destruct (Hp j) as (_ & ? & _ & ? & _). done.
  - intros j. unfold pc_ok. by destruct (Hp j) as (_ & _ & _ & -> & _).
  - intros l. rewrite (proj2 (Hl l)). split; [done|]. by intros [j ?%Hno].
  - by intros l j j' ?%Hno.
  - intros l j. destruct (Hp j) as (_ & _ & _ & _ & ->). set_solver.
  - intros l j. unfold waits. by destruct (Hp j) as (_ & _ & _ & -> & _).
Qed.

Lemma reachable_sleep_inv m0 m : initial m0 -> rtc step m0 m -> hart_inv m /\ sleep_inv m.
Proof.
  intros H0 Hr. apply initial_inv in H0. induction Hr as [|m1 m2 m3 Hst _ IH]; [done|]. apply IH. destruct H0 as [Hi Hs].
  destruct Hst as [h|h j o Hh Epc Hm]; split; eauto using advance_hart, advance_sleep, call_hart, call_sleep.
Qed.

(** ** No wakeup is lost *)

(** The lock that a hart is about to acquire. *)
Definition wants (m : machine) (h : nat) : option lock :=
  match h_pc (harts m h) with
  | Scan k => Some (LkP k)
  | Run j =>
      match p_pc (procs m j) with
      | AcqLk l | SlAcqLk l | RlAcqLk l => Some (LkS l)
      | SlAcqP _ | YdAcqP => Some (LkP j)
      | WkLoop _ k => if decide (nproc <= k)%nat then None else if decide (k = j) then None else Some (LkP k)
      | _ => None
      end
  | _ => None
  end.

(** Hart [h] waits for a spin lock that is taken. *)
Definition spins (m : machine) (h : nat) (k : lock) : Prop := wants m h = Some k /\ owner m k <> None.

(** Where hart [h] is. *)
Definition place (m : machine) (h : nat) : hpc * option ppc :=
  (h_pc (harts m h), match h_pc (harts m h) with Run j => Some (p_pc (procs m j)) | _ => None end).

Ltac at_pc h m := let E := fresh "E" in
  destruct (h_pc (harts m h)) as [k1|k1|k1|j1|msg1]; [..|destruct (p_pc (procs m j1)) as [|l1|l1|l1|l1|l1|l1|l1|l1|l1|l1|l1|l1|l1|l1|l1|l1|l1 k2|l1 k2|l1 k2|l1| | | |]|].

Lemma wants_not_held m h k : wants m h = Some k -> k ∉ held m h.
Proof. unfold wants, held. at_pc h m; cbn [held_by]; repeat case_decide; intros ?; simplify_eq; set_solver. Qed.

(** A hart that wants a lock holds at most that of a sleep lock, and then wants that of a process. *)
Lemma wants_held m h k k' : wants m h = Some k -> k' ∈ held m h -> exists j, k = LkP j.
Proof. unfold wants, held. at_pc h m; cbn [held_by]; repeat case_decide; intros ? Hin; simplify_eq; try (by apply elem_of_nil in Hin); eauto. Qed.

Lemma process_lock_last m h j : LkP j ∈ held m h -> wants m h = None.
Proof. unfold wants, held. at_pc h m; cbn [held_by]; repeat case_decide; intros Hin; done || set_solver. Qed.

(** A hart waits for another, which does not wait, or waits for a process lock whose holder does not wait. *)
Lemma spins_chain m h k : hart_inv m -> spins m h k ->
  exists h', h' <> h /\ owner m k = Some h' /\
    forall k', spins m h' k' -> exists j h'', k' = LkP j /\ owner m k' = Some h'' /\ forall k'', ~ spins m h'' k''.
Proof.
  intros Hi [Hw Hn]. destruct (owner m k) as [h'|] eqn:Eo; [|done]. exists h'. apply (i_own m Hi) in Eo as Hin.
  split; [intros ->; by apply (wants_not_held m h k)|]. split; [done|]. intros k' [Hw' Hn'].
  destruct (wants_held m h' k' k Hw' Hin) as [j ->]. destruct (owner m (LkP j)) as [h''|] eqn:Eo'; [|done]. exists j, h''. split; [done|]. split; [done|].
  intros k'' [Hw'' _]. apply (i_own m Hi) in Eo'. by rewrite (process_lock_last m h'' j Eo') in Hw''.
Qed.

(** A process that sleeps on [l] is one that waits for it. *)
Lemma sleeper_waits m j l : hart_inv m -> sleep_inv m -> p_st (procs m j) = SLEEPING -> p_ch (procs m j) = Some l -> waits m j l.
Proof.
  intros Hi Hs Hst Hch. pose proof (i_pc m Hs j) as Hok. unfold pc_ok, waits in *. destruct (i_procs m Hi j) as [[h Hh]|[[E E']|(l' & E & _)]].
  - pose proof (i_state m Hi h j Hh) as E. rewrite Hst in E. destruct (p_pc (procs m j)); cbn in E; congruence.
  - congruence.
  - rewrite E in *. split; [congruence|done].
Qed.

Lemma visit_runs m i l j : hart_inv m -> to_visit (p_pc (procs m i)) l j -> exists h, h_pc (harts m h) = Run i /\ owner m (LkS l) = Some h.
Proof. intros Hi Hv. apply thread_runs; [done|]. destruct (p_pc (procs m i)); cbn [held_by to_visit] in *; try done; set_solver. Qed.

Lemma place_run m h j c : h_pc (harts m h) = Run j -> p_pc (procs m j) = c -> place m h = (Run j, Some c).
Proof. unfold place. by intros -> ->. Qed.

Lemma place_goto m h j c : h_pc (harts m h) = Run j -> place (goto j c m) h = (Run j, Some c).
Proof. intros Hh. apply place_run; [done|apply goto_pc]. Qed.

Lemma place_back m h j : place (set_hpc h (Back j) m) h = (Back j, None).
Proof. unfold place. cbn. by rewrite fn_lookup_insert. Qed.

Lemma place_acquire m h j k c : h_pc (harts m h) = Run j -> owner m k = None -> place (acquire_then h k (goto j c) m) h = (Run j, Some c).
Proof. intros Hh Eo. unfold acquire_then. rewrite Eo. apply place_run; [destruct k; cbn; by rewrite ?fn_lookup_insert|apply goto_pc]. Qed.

Lemma place_release m h j k c f : hart_inv m -> h_pc (harts m h) = Run j -> k ∈ held m h ->
  (forall m0, harts (f m0) = harts m0) -> place (release_then h k (fun m0 => goto j c (f m0)) m) h = (Run j, Some c).
Proof.
  intros Hi Hh Hk Hf. unfold release_then. rewrite decide_True by by apply (i_own m Hi). apply place_run; [|apply goto_pc].
  change (h_pc (harts (f (set_owner k None (add_noff h (-1) m))) h) = Run j). rewrite Hf. destruct k; cbn; by rewrite fn_lookup_insert.
Qed.

(** A hart that does not wait goes on. *)
Lemma moves_on m h : hart_inv m -> (forall k, ~ spins m h k) -> (forall j, h_pc (harts m h) = Run j -> p_pc (procs m j) <> Idle) ->
  place (scheduler_at h m) h <> place m h.
Proof.
  intros Hi Hsp Hidle. assert (Hfree : forall k, wants m h = Some k -> owner m k = None).
  { intros k Hk. destruct (owner m k) eqn:E; [|done]. destruct (Hsp k). split; [done|congruence]. }
  unfold scheduler_at. destruct (h_pc (harts m h)) as [k|k|k|j|msg] eqn:Hh.
  - unfold acquire_then. rewrite Hfree by (unfold wants; by rewrite Hh). unfold place. cbn. rewrite !fn_lookup_insert. cbn. by rewrite Hh.
  - case_decide; unfold place; cbn; rewrite ?fn_lookup_insert; cbn; rewrite Hh; congruence.
  - unfold release_then. rewrite decide_True by (apply (i_own m Hi); unfold held; rewrite Hh; by left). unfold place. cbn. rewrite !fn_lookup_insert. cbn. by rewrite Hh.
  - specialize (Hidle j eq_refl). rewrite (place_run m h j _ Hh eq_refl).
    assert (Hheld : held m h = held_by j (p_pc (procs m j))) by (unfold held; by rewrite Hh).
    assert (Hw : forall k, wants m h = Some k -> owner m k = None) by done. unfold wants in Hw. rewrite Hh in Hw.
    unfold thread. cbv zeta. destruct (p_pc (procs m j)) as [|l|l|l|l|l|l|l|l|l|l|l|l|l|l|l|l|l k|l k|l k|l| | | |] eqn:Epc; cbn [acquiresleep_at sleep_at releasesleep_at wakeup_at yield_at]; try done;
      try (rewrite place_acquire by (done || by apply Hw); congruence);
      try (rewrite place_release; [congruence|done|done|rewrite Hheld; cbn [held_by]; set_solver|done]);
      try (rewrite place_goto by exact Hh; case_match || idtac; congruence).
    + destruct (sched_hart h j (SlWake l) m Hi Hh) as [-> _]; rewrite ?Epc; try done; [|by rewrite place_back].
      intros st ->. right. exists l. split; [done|by right].
    + repeat case_decide; [by rewrite place_goto|rewrite place_goto by done; intros [=]; lia|rewrite place_acquire by (done || by apply Hw); congruence].
    + case_decide; by rewrite place_goto.
    + destruct (sched_hart h j YdRelP m Hi Hh) as [-> _]; rewrite ?Epc; try done; [|by rewrite place_back]. intros st ->. by left.
  - pose proof (i_index m Hi h) as Hx. by rewrite Hh in Hx.
Qed.


(** ** A run of two harts *)

(** Process 0 holds sleep lock 3; process 1 sleeps on it; process 0 has cleared [locked] and begins [wakeup]. *)
Definition asleep_start : machine :=
  Machine (fun _ => Slock None false 0) (fun j => Process None RUNNABLE None (Z.of_nat j + 1) YdRelP []) (fun _ => Hart (Scan 0) 0).

Fixpoint turns (n h : nat) (m : machine) : machine :=
  match n with O => m | S n' => turns n' h (scheduler_at h m) end.

Lemma turns_steps n h m m' : rtc step m' m -> rtc step m' (turns n h m).
Proof. revert m. induction n as [|n IH]; intros m Hr; cbn [turns]; [done|]. apply IH. eapply rtc_r; [done|apply step_advance]. Qed.

Definition both_run : machine := turns 6 1 (turns 3 0 asleep_start).
Definition one_holds : machine := turns 5 0 (call 0 (AcquireSleep 3) both_run).
Definition other_sleeps : machine := turns 8 1 (call 1 (AcquireSleep 3) one_holds).
Definition waking : machine := turns 3 0 (call 0 (ReleaseSleep 3) other_sleeps).

Lemma waking_reachable : rtc step asleep_start waking.
Proof.
  assert (H1 : rtc step asleep_start both_run) by (do 2 apply turns_steps; apply rtc_refl).
  assert (H2 : rtc step asleep_start one_holds).
  { apply turns_steps. eapply rtc_r; [exact H1|]. apply (step_call _ 0); [vm_compute; reflexivity|vm_compute; reflexivity|done]. }
  assert (H3 : rtc step asleep_start other_sleeps).
  { apply turns_steps. eapply rtc_r; [exact H2|]. apply (step_call _ 1); [vm_compute; reflexivity|vm_compute; reflexivity|done]. }
  apply turns_steps. eapply rtc_r; [exact H3|]. apply (step_call _ 0); [vm_compute; reflexivity|vm_compute; reflexivity|]. vm_compute. left.
Qed.

End SleepHarts.
