(* ===== verification/Virtio.v ===== *)
(** * The disk driver: kernel/virtio_disk.c

    The driver, the processes that wait in it, and the device, which runs
    beside them.  The driver's code is cut into the pieces between which
    others can run: at [sleep], where it gives up [disk.vdisk_lock], and where
    the device may look at the rings, which no lock protects.  The device is
    not part of the repository: its steps are those that the virtio
    specification allows it. *)

From stdpp Require Import functions.
From S2P Require Import Prelude Params Block State.

Module Virtio.

Definition NUM : nat := 8.
Definition VRING_DESC_F_NEXT : Z := 1.
Definition VRING_DESC_F_WRITE : Z := 2.
Definition VIRTIO_BLK_T_IN : Z := 0.
Definition VIRTIO_BLK_T_OUT : Z := 1.

(** The objects whose addresses the driver gives to the device. *)
Inductive addr :=
| ANull
| AOps (i : nat)       (* &disk.ops[i] *)
| AData (b : nat)      (* b->data *)
| AStatus (i : nat).   (* &disk.info[i].status *)

Record virtq_desc := Desc {
  d_addr : addr;
  d_len : Z;
  d_flags : Z;
  d_next : nat;
}.

Record virtio_blk_req := Req {
  rq_type : Z;
  rq_reserved : Z;
  rq_sector : Z;
}.

(** [struct disk]; the arrays of [NUM] entries are functions of the index. *)
Record disk := Disk {
  desc : nat -> virtq_desc;
  avail_ring : nat -> nat;
  avail_idx : Z;
  used_ring : nat -> nat;      (* the id of each entry *)
  used_head : Z;               (* disk.used->idx *)
  free : nat -> bool;
  used_idx : Z;
  info_b : nat -> option nat;
  info_status : nat -> Z;
  ops : nat -> virtio_blk_req;
  vdisk_lock : bool;
}.

(** The fields of [struct buf] that the driver uses. *)
Record vbuf := VBuf {
  vb_blockno : Z;
  vb_data : block;
  vb_disk : bool;
}.

(** Where a process is in [virtio_disk_rw]; [idx] are its three descriptors. *)
Inductive thread :=
| Idle
| Try (b : nat) (write : bool)                               (* to allocate descriptors *)
| AsleepFree (b : nat) (write : bool)                        (* sleep(&disk.free[0]) *)
| Formatted (b : nat) (write : bool) (idx : nat * nat * nat) (* to publish the chain *)
| Waiting (b : nat) (write : bool) (idx : nat * nat * nat)   (* to test b->disk *)
| AsleepBuf (b : nat) (write : bool) (idx : nat * nat * nat). (* sleep(b) *)

(** What the device keeps for itself: the sectors, how far it has read the available
    ring, the chains it works on, and the interrupt line. *)
Record device := Device {
  dev_media : Z -> list Z;
  dev_last : Z;
  dev_pending : list nat;
  dev_irq : bool;
}.

Record vstate := VState {
  v_disk : disk;
  v_buf : nat -> vbuf;
  v_thread : nat -> thread;
  v_intr : bool;               (* virtio_disk_intr is in its loop *)
  v_dev : device;
}.

Definition on_disk (f : disk -> disk) (s : vstate) : vstate :=
  VState (f (v_disk s)) (v_buf s) (v_thread s) (v_intr s) (v_dev s).
Definition set_buf (b : nat) (x : vbuf) (s : vstate) : vstate :=
  VState (v_disk s) (<[b := x]> (v_buf s)) (v_thread s) (v_intr s) (v_dev s).
Definition set_thread (p : nat) (t : thread) (s : vstate) : vstate :=
  VState (v_disk s) (v_buf s) (<[p := t]> (v_thread s)) (v_intr s) (v_dev s).
Definition set_v_intr (i : bool) (s : vstate) : vstate :=
  VState (v_disk s) (v_buf s) (v_thread s) i (v_dev s).
Definition on_dev (f : device -> device) (s : vstate) : vstate :=
  VState (v_disk s) (v_buf s) (v_thread s) (v_intr s) (f (v_dev s)).

Definition set_desc (i : nat) (x : virtq_desc) (d : disk) : disk :=
  Disk (<[i := x]> (desc d)) (avail_ring d) (avail_idx d) (used_ring d) (used_head d)
    (free d) (used_idx d) (info_b d) (info_status d) (ops d) (vdisk_lock d).
Definition set_avail_ring (i : nat) (x : nat) (d : disk) : disk :=
  Disk (desc d) (<[i := x]> (avail_ring d)) (avail_idx d) (used_ring d) (used_head d)
    (free d) (used_idx d) (info_b d) (info_status d) (ops d) (vdisk_lock d).
Definition set_avail_idx (x : Z) (d : disk) : disk :=
  Disk (desc d) (avail_ring d) x (used_ring d) (used_head d)
    (free d) (used_idx d) (info_b d) (info_status d) (ops d) (vdisk_lock d).
Definition set_used (i : nat) (x : nat) (h : Z) (d : disk) : disk :=
  Disk (desc d) (avail_ring d) (avail_idx d) (<[i := x]> (used_ring d)) h
    (free d) (used_idx d) (info_b d) (info_status d) (ops d) (vdisk_lock d).
Definition set_free (i : nat) (x : bool) (d : disk) : disk :=
  Disk (desc d) (avail_ring d) (avail_idx d) (used_ring d) (used_head d)
    (<[i := x]> (free d)) (used_idx d) (info_b d) (info_status d) (ops d) (vdisk_lock d).
Definition set_used_idx (x : Z) (d : disk) : disk :=
  Disk (desc d) (avail_ring d) (avail_idx d) (used_ring d) (used_head d)
    (free d) x (info_b d) (info_status d) (ops d) (vdisk_lock d).
Definition set_info_b (i : nat) (x : option nat) (d : disk) : disk :=
  Disk (desc d) (avail_ring d) (avail_idx d) (used_ring d) (used_head d)
    (free d) (used_idx d) (<[i := x]> (info_b d)) (info_status d) (ops d) (vdisk_lock d).
Definition set_info_status (i : nat) (x : Z) (d : disk) : disk :=
  Disk (desc d) (avail_ring d) (avail_idx d) (used_ring d) (used_head d)
    (free d) (used_idx d) (info_b d) (<[i := x]> (info_status d)) (ops d) (vdisk_lock d).
Definition set_ops (i : nat) (x : virtio_blk_req) (d : disk) : disk :=
  Disk (desc d) (avail_ring d) (avail_idx d) (used_ring d) (used_head d)
    (free d) (used_idx d) (info_b d) (info_status d) (<[i := x]> (ops d)) (vdisk_lock d).
Definition set_lock (x : bool) (d : disk) : disk :=
  Disk (desc d) (avail_ring d) (avail_idx d) (used_ring d) (used_head d)
    (free d) (used_idx d) (info_b d) (info_status d) (ops d) x.

Abbreviation V := (M vstate).

Definition dget {A} (f : disk -> A) : V A := gets (fun s => f (v_disk s)).
Definition dset (f : disk -> disk) : V unit := modify (on_disk f).
Definition dlockL : lens vstate bool :=
  Lens (fun s => vdisk_lock (v_disk s)) (fun x => on_disk (set_lock x)).

(** [wakeup(&disk.free[0])] and [wakeup(b)]: sleepers on the channel run again. *)
Definition wakeup_free : V unit :=
  modify (fun s => VState (v_disk s) (v_buf s)
    (fun p => match v_thread s p with AsleepFree b w => Try b w | t => t end)
    (v_intr s) (v_dev s)).
Definition wakeup_buf (b : nat) : V unit :=
  modify (fun s => VState (v_disk s) (v_buf s)
    (fun p => match v_thread s p with
              | AsleepBuf b' w idx => if decide (b' = b) then Waiting b' w idx else AsleepBuf b' w idx
              | t => t
              end)
    (v_intr s) (v_dev s)).

(** ** Descriptors *)

Definition alloc_desc : V (option nat) :=
  scan (seq 0 NUM) (fun i =>
    f <- dget (fun d => free d i) ;;
    if f then dset (set_free i false) ;; ret (Some i)
    else ret None).

Definition free_desc (i : nat) : V unit :=
  panic_if (NUM <=? i)%nat "free_desc 1" ;;
  f <- dget (fun d => free d i) ;;
  panic_if f "free_desc 2" ;;
  dset (fun d => set_desc i (Desc ANull (d_len (desc d i)) (d_flags (desc d i)) (d_next (desc d i))) d) ;;
  dset (fun d => set_desc i (Desc (d_addr (desc d i)) 0 (d_flags (desc d i)) (d_next (desc d i))) d) ;;
  dset (fun d => set_desc i (Desc (d_addr (desc d i)) (d_len (desc d i)) 0 (d_next (desc d i))) d) ;;
  dset (fun d => set_desc i (Desc (d_addr (desc d i)) (d_len (desc d i)) (d_flags (desc d i)) 0) d) ;;
  dset (set_free i true) ;;
  wakeup_free.

(** Every round frees a descriptor that was in use, so [NUM] rounds are enough. *)
Definition free_chain (i : nat) : V unit :=
  loop (S NUM) (fun i =>
    flag <- dget (fun d => d_flags (desc d i)) ;;
    nxt <- dget (fun d => d_next (desc d i)) ;;
    free_desc i ;;
    if negb (Z.land flag VRING_DESC_F_NEXT =? 0) then ret (inl nxt) else ret (inr tt)) i.

(** The three rounds of the loop; a round that fails gives back the earlier
    descriptors.  [None] is -1. *)
Definition alloc3_desc : V (option (nat * nat * nat)) :=
  i0 <- alloc_desc ;;
  match i0 with
  | None => ret None
  | Some i0 =>
      i1 <- alloc_desc ;;
      match i1 with
      | None => free_desc i0 ;; ret None
      | Some i1 =>
          i2 <- alloc_desc ;;
          match i2 with
          | None => free_desc i0 ;; free_desc i1 ;; ret None
          | Some i2 => ret (Some (i0, i1, i2))
          end
      end
  end.

(** ** virtio_disk_rw *)

Definition vb_set_disk (x : bool) (v : vbuf) : vbuf := VBuf (vb_blockno v) (vb_data v) x.
Definition vb_set_data (x : block) (v : vbuf) : vbuf := VBuf (vb_blockno v) x (vb_disk v).

(** [disk.avail->ring[disk.avail->idx % NUM]] *)
Definition slot (i : Z) : nat := Z.to_nat (i mod Z.of_nat NUM).

(** The three descriptors, up to the entry in the available ring. *)
Definition rw_format (b : nat) (write : bool) (idx : nat * nat * nat) : V unit :=
  let '(i0, i1, i2) := idx in
  blockno <- gets (fun s => vb_blockno (v_buf s b)) ;;
  let sector := u32 (blockno * (BSIZE / 512)) in
  dset (set_ops i0 (Req (if write then VIRTIO_BLK_T_OUT else VIRTIO_BLK_T_IN) 0 sector)) ;;
  dset (set_desc i0 (Desc (AOps i0) 16 VRING_DESC_F_NEXT i1)) ;;
  dset (set_desc i1 (Desc (AData b) BSIZE
    (Z.lor (if write then 0 else VRING_DESC_F_WRITE) VRING_DESC_F_NEXT) i2)) ;;
  dset (set_info_status i0 0xff) ;;
  dset (set_desc i2 (Desc (AStatus i0) 1 VRING_DESC_F_WRITE 0)) ;;
  modify (fun s => set_buf b (vb_set_disk true (v_buf s b)) s) ;;
  dset (set_info_b i0 (Some b)) ;;
  dset (fun d => set_avail_ring (slot (avail_idx d)) i0 d).

(** A process [p] at the top of the first loop: it gets the lock, and either
    the descriptors or it sleeps. *)
Definition rw_try (p b : nat) (write : bool) : V unit :=
  acquire dlockL ;;
  r <- alloc3_desc ;;
  match r with
  | None =>
      modify (set_thread p (AsleepFree b write)) ;;
      release dlockL
  | Some idx =>
      rw_format b write idx ;;
      modify (set_thread p (Formatted b write idx))
  end.

(** [while(b->disk == 1) sleep(b, ...)] and what follows it. *)
Definition rw_wait (p b : nat) (write : bool) (idx : nat * nat * nat) : V unit :=
  let '(i0, _, _) := idx in
  busy <- gets (fun s => vb_disk (v_buf s b)) ;;
  if busy then
    modify (set_thread p (AsleepBuf b write idx)) ;;
    release dlockL
  else
    dset (set_info_b i0 None) ;;
    free_chain i0 ;;
    release dlockL ;;
    modify (set_thread p Idle).

(** [disk.avail->idx += 1] and the notification. *)
Definition rw_publish (p b : nat) (write : bool) (idx : nat * nat * nat) : V unit :=
  dset (fun d => set_avail_idx (u16 (avail_idx d + 1)) d) ;;
  rw_wait p b write idx.

(** Awake again. *)
Definition rw_finish (p b : nat) (write : bool) (idx : nat * nat * nat) : V unit :=
  acquire dlockL ;;
  rw_wait p b write idx.

(** ** virtio_disk_intr *)

Definition dev_set_irq (x : bool) (d : device) : device :=
  Device (dev_media d) (dev_last d) (dev_pending d) x.

(** Up to the acknowledgement, after which the device may raise the line again. *)
Definition intr_begin : V unit :=
  acquire dlockL ;;
  modify (on_dev (dev_set_irq false)) ;;
  modify (set_v_intr true).

(** One round of [while(disk.used_idx != disk.used->idx)]. *)
Definition intr_round : V unit :=
  u <- dget used_idx ;;
  h <- dget used_head ;;
  if u =? h then
    release dlockL ;;
    modify (set_v_intr false)
  else
    id <- dget (fun d => used_ring d (slot (used_idx d))) ;;
    st <- dget (fun d => info_status d id) ;;
    panic_if (negb (st =? 0)) "virtio_disk_intr status" ;;
    b <- dget (fun d => info_b d id) ;;
    match b with
    | None => panic "kerneltrap"
    | Some b =>
        modify (fun s => set_buf b (vb_set_disk false (v_buf s b)) s) ;;
        wakeup_buf b ;;
        dset (fun d => set_used_idx (u16 (used_idx d + 1)) d)
    end.

(** ** The device *)

(** [len] bytes from a sector on. *)
Definition read_sectors (m : Z -> list Z) (sector len : Z) : list Z :=
  mjoin (map (fun k => m (sector + Z.of_nat k)) (seq 0 (Z.to_nat (len / 512)))).
Definition write_sectors (m : Z -> list Z) (sector len : Z) (data : list Z) : Z -> list Z :=
  fun k => if decide (sector <= k < sector + len / 512)
           then slice ((k - sector) * 512) 512 data else m k.

(** It takes the next chain from the available ring. *)
Definition dev_fetch (s : vstate) : vstate :=
  let h := avail_ring (v_disk s) (slot (dev_last (v_dev s))) in
  on_dev (fun d => Device (dev_media d) (u16 (dev_last d + 1)) (h :: dev_pending d) (dev_irq d)) s.

(** It carries out the request whose chain starts at [h]: a header, a buffer and a status byte,
    [None] if the chain is not one. *)
Definition dev_request (s : vstate) (h : nat) : option (virtio_blk_req * virtq_desc * nat * nat) :=
  let d := v_disk s in
  let d0 := desc d h in
  let d1 := desc d (d_next d0) in
  let d2 := desc d (d_next d1) in
  match d_addr d0, d_addr d1, d_addr d2 with
  | AOps i, AData b, AStatus j =>
      if (d_len d0 =? 16) && (d_len d2 =? 1) && (d_len d1 mod 512 =? 0) &&
         Z.testbit (d_flags d0) 0 && Z.testbit (d_flags d1) 0 && negb (Z.testbit (d_flags d2) 0) &&
         negb (Z.testbit (d_flags d0) 1) && Z.testbit (d_flags d2) 1
      then Some (ops d i, d1, b, j) else None
  | _, _, _ => None
  end.

Definition dev_complete (h : nat) (s : vstate) : option vstate :=
  match dev_request s h with
  | None => None
  | Some (rq, d1, b, j) =>
      let x := v_buf s b in
      let m := dev_media (v_dev s) in
      let done (s : vstate) :=
        on_disk (fun d => set_used (slot (used_head d)) h (u16 (used_head d + 1))
                            (set_info_status j 0 d))
          (on_dev (fun d => Device (dev_media d) (dev_last d)
                              (filter (.≠ h) (dev_pending d)) true) s) in
      if rq_type rq =? VIRTIO_BLK_T_OUT then
        if Z.testbit (d_flags d1) 1 then None
        else Some (done (on_dev (fun d =>
          Device (write_sectors m (rq_sector rq) (d_len d1) (vb_data x))
            (dev_last d) (dev_pending d) (dev_irq d)) s))
      else if rq_type rq =? VIRTIO_BLK_T_IN then
        if Z.testbit (d_flags d1) 1 then
          Some (done (set_buf b (vb_set_data (read_sectors m (rq_sector rq) (d_len d1)) x) s))
        else None
      else None
  end.

(** ** Steps *)

(** The buffer a process has given to the driver; its caller holds the
    buffer's sleep lock. *)
Definition busy_with (t : thread) : option nat :=
  match t with
  | Idle => None
  | Try b _ | AsleepFree b _ | Formatted b _ _ | Waiting b _ _ | AsleepBuf b _ _ => Some b
  end.

Definition lock_free (s : vstate) : Prop := vdisk_lock (v_disk s) = false.

Inductive outcome_of := Ok (s : vstate) | Bad.

Definition run (m : V unit) (s : vstate) : outcome_of :=
  match m s with Done _ s' => Ok s' | _ => Bad end.

(** A step of the kernel or of the device, [Bad] if the kernel panics or
    gives the device a chain that is not a request. *)
Inductive vwork (s : vstate) : outcome_of -> Prop :=
| v_try p b write :
    v_thread s p = Try b write -> lock_free s -> vwork s (run (rw_try p b write) s)
| v_publish p b write idx :
    v_thread s p = Formatted b write idx -> vwork s (run (rw_publish p b write idx) s)
| v_finish p b write idx :
    v_thread s p = Waiting b write idx -> lock_free s ->
    vwork s (run (rw_finish p b write idx) s)
| v_intr_begin :
    dev_irq (v_dev s) = true -> v_intr s = false -> lock_free s -> vwork s (run intr_begin s)
| v_intr_round : v_intr s = true -> vwork s (run intr_round s)
| v_fetch :
    dev_last (v_dev s) <> avail_idx (v_disk s) -> vwork s (Ok (dev_fetch s))
| v_complete h :
    h ∈ dev_pending (v_dev s) ->
    vwork s (match dev_complete h s with Some s' => Ok s' | None => Bad end).

(** A step of the system. *)
Inductive vstep (s : vstate) : outcome_of -> Prop :=
(** a process calls [virtio_disk_rw] with a buffer that nobody else uses *)
| v_call p b write :
    v_thread s p = Idle -> (forall p', busy_with (v_thread s p') <> Some b) ->
    vstep s (Ok (set_thread p (Try b write) s))
(** the owner of a buffer that is not in the driver changes it *)
| v_client b n data :
    (forall p, busy_with (v_thread s p) <> Some b) -> 0 <= n < 2 ^ 31 ->
    length data = Z.to_nat BSIZE ->
    vstep s (Ok (set_buf b (VBuf n data (vb_disk (v_buf s b))) s))
| v_work o : vwork s o -> vstep s o.

Definition vnext (s s' : vstate) : Prop := vstep s (Ok s').

(** After [virtio_disk_init]: the queue memory is zero, every descriptor is free. *)
Record vinit (s : vstate) : Prop := {
  vi_free i : (i < NUM)%nat -> free (v_disk s) i = true;
  vi_avail : avail_idx (v_disk s) = 0;
  vi_used : used_head (v_disk s) = 0;
  vi_used_idx : used_idx (v_disk s) = 0;
  vi_lock : vdisk_lock (v_disk s) = false;
  vi_thread p : v_thread s p = Idle;
  vi_intr : v_intr s = false;
  vi_last : dev_last (v_dev s) = 0;
  vi_pending : dev_pending (v_dev s) = [];
  vi_media k : length (dev_media (v_dev s) k) = 512%nat;
  vi_buf b : 0 <= vb_blockno (v_buf s b) < 2 ^ 31 /\
             length (vb_data (v_buf s b)) = Z.to_nat BSIZE;
}.

(** ** The abstract disk *)

Inductive areq := ANone | APending (b : nat) (write : bool) | AExecuted (b : nat) (write : bool).

(** Blocks, buffers and requests; a request is carried out in one step. *)
Record astate := AState {
  a_media : Z -> block;
  a_buf : nat -> Z * block;
  a_req : nat -> areq;
}.

Definition same {X Y} (f g : X -> Y) : Prop := forall x, f x = g x.
Definition except {X Y} `{EqDecision X} (x : X) (y : Y) (f g : X -> Y) : Prop :=
  forall x', g x' = if decide (x' = x) then y else f x'.

Definition abuf_busy (r : areq) : option nat :=
  match r with ANone => None | APending b _ | AExecuted b _ => Some b end.

Inductive astep (a a' : astate) : Prop :=
| a_call p b write :
    a_req a p = ANone -> (forall p', abuf_busy (a_req a p') <> Some b) ->
    except p (APending b write) (a_req a) (a_req a') ->
    same (a_media a) (a_media a') -> same (a_buf a) (a_buf a') -> astep a a'
| a_client b n data :
    (forall p, abuf_busy (a_req a p) <> Some b) ->
    except b (n, data) (a_buf a) (a_buf a') ->
    same (a_media a) (a_media a') -> same (a_req a) (a_req a') -> astep a a'
| a_write p b :
    a_req a p = APending b true ->
    except (fst (a_buf a b)) (snd (a_buf a b)) (a_media a) (a_media a') ->
    same (a_buf a) (a_buf a') ->
    except p (AExecuted b true) (a_req a) (a_req a') -> astep a a'
| a_read p b :
    a_req a p = APending b false ->
    except b (fst (a_buf a b), a_media a (fst (a_buf a b))) (a_buf a) (a_buf a') ->
    same (a_media a) (a_media a') ->
    except p (AExecuted b false) (a_req a) (a_req a') -> astep a a'
| a_return p b write :
    a_req a p = AExecuted b write ->
    except p ANone (a_req a) (a_req a') ->
    same (a_media a) (a_media a') -> same (a_buf a) (a_buf a') -> astep a a'
| a_stutter :
    same (a_req a) (a_req a') -> same (a_media a) (a_media a') ->
    same (a_buf a) (a_buf a') -> astep a a'.

(** A request counts as carried out once the device has written its status. *)
Definition abs_req (d : disk) (t : thread) : areq :=
  match t with
  | Idle => ANone
  | Try b w | AsleepFree b w | Formatted b w _ => APending b w
  | Waiting b w (i0, _, _) | AsleepBuf b w (i0, _, _) =>
      if info_status d i0 =? 0 then AExecuted b w else APending b w
  end.

Definition abs (s : vstate) : astate :=
  AState (fun n => dev_media (v_dev s) (2 * n) ++ dev_media (v_dev s) (2 * n + 1))
    (fun b => (vb_blockno (v_buf s b), vb_data (v_buf s b)))
    (fun p => abs_req (v_disk s) (v_thread s p)).

End Virtio.
