(* ===== verification/VirtioSpec.v ===== *)
(** * The disk driver implements a disk

    The invariant of the driver's rings, descriptors and sleepers, and the
    theorems about [Virtio]. *)

From stdpp Require Import functions.
From S2P Require Import Prelude Params Block State Virtio.

Module VirtioSpec.
Import Virtio.

(** ** The invariant *)

(** What the invariant needs to know of a process: its buffer, its
    descriptors once it has them, and whether the device knows of them. *)
Definition view := option (nat * bool * option (nat * nat * nat * bool)).

Definition view_of (t : thread) : view :=
  match t with
  | Idle => None
  | Try b w | AsleepFree b w => Some (b, w, None)
  | Formatted b w idx => Some (b, w, Some (idx, false))
  | Waiting b w idx | AsleepBuf b w idx => Some (b, w, Some (idx, true))
  end.

Definition in_idx (i : nat) (idx : nat * nat * nat) : Prop :=
  let '(i0, i1, i2) := idx in i = i0 \/ i = i1 \/ i = i2.

(** The entries of a ring from counter [from] on. *)
Definition window (ring : nat -> nat) (from to : Z) (l : list nat) : Prop :=
  0 <= from < 2 ^ 16 /\ to = u16 (from + Z.of_nat (length l)) /\ (length l <= NUM)%nat /\
  forall k h, l !! k = Some h -> ring (slot (from + Z.of_nat k)) = h.

(** The chain the driver builds for buffer [b]. *)
Record chain_ok (d : disk) (x : vbuf) (b : nat) (w : bool) (i0 i1 i2 : nat) : Prop := {
  ch_lt : (i0 < NUM)%nat /\ (i1 < NUM)%nat /\ (i2 < NUM)%nat;
  ch_ne : i0 <> i1 /\ i0 <> i2 /\ i1 <> i2;
  ch_used : free d i0 = false /\ free d i1 = false /\ free d i2 = false;
  ch_0 : desc d i0 = Desc (AOps i0) 16 VRING_DESC_F_NEXT i1;
  ch_1 : desc d i1 = Desc (AData b) BSIZE
           (Z.lor (if w then 0 else VRING_DESC_F_WRITE) VRING_DESC_F_NEXT) i2;
  ch_2 : desc d i2 = Desc (AStatus i0) 1 VRING_DESC_F_WRITE 0;
  ch_op : ops d i0 = Req (if w then VIRTIO_BLK_T_OUT else VIRTIO_BLK_T_IN) 0 (2 * vb_blockno x);
  ch_info : info_b d i0 = Some b;
}.

(** Descriptors and buffers belong to one process each. *)
Record chains (d : disk) (bf : nat -> vbuf) (vw : nat -> view) : Prop := {
  cs_ok p b w i0 i1 i2 pub :
    vw p = Some (b, w, Some (i0, i1, i2, pub)) -> chain_ok d (bf b) b w i0 i1 i2;
  cs_idx p p' b b' w w' idx idx' pub pub' i :
    vw p = Some (b, w, Some (idx, pub)) -> vw p' = Some (b', w', Some (idx', pub')) ->
    in_idx i idx -> in_idx i idx' -> p = p';
  cs_owner i : (i < NUM)%nat -> free d i = false ->
    exists p b w idx pub, vw p = Some (b, w, Some (idx, pub)) /\ in_idx i idx;
  cs_buf p p' b w w' c c' : vw p = Some (b, w, c) -> vw p' = Some (b, w', c') -> p = p';
}.

(** [A] waits in the available ring, the device works on [P], and [U] are in
    the used ring. *)
Record rings (d : disk) (bf : nat -> vbuf) (vw : nat -> view) (dv : device)
    (A U : list nat) : Prop := {
  rg_avail : window (avail_ring d) (dev_last dv) (avail_idx d) A;
  rg_used : window (used_ring d) (used_idx d) (used_head d) U;
  rg_nodup : NoDup (A ++ dev_pending dv ++ U);
  rg_head h : h ∈ A ++ dev_pending dv ++ U ->
    exists p b w i1 i2, vw p = Some (b, w, Some (h, i1, i2, true));
  rg_todo h : h ∈ A ++ dev_pending dv -> info_status d h <> 0;
  rg_done h : h ∈ U -> info_status d h = 0;
  rg_new p b w i0 i1 i2 : vw p = Some (b, w, Some (i0, i1, i2, false)) ->
    avail_ring d (slot (avail_idx d)) = i0 /\ info_status d i0 <> 0 /\ vb_disk (bf b) = true;
  rg_disk p b w i0 i1 i2 : vw p = Some (b, w, Some (i0, i1, i2, true)) ->
    vb_disk (bf b) = true <-> i0 ∈ A ++ dev_pending dv ++ U;
  rg_acked p b w i0 i1 i2 : vw p = Some (b, w, Some (i0, i1, i2, true)) ->
    vb_disk (bf b) = false -> info_status d i0 = 0;
}.

(** The lock is held between two steps only by a process that has
    formatted a chain, or by the interrupt handler. *)
Record locking (lk intr : bool) (vw : nat -> view) : Prop := {
  lk_intr : intr = true -> lk = true /\
    forall p b w idx, vw p <> Some (b, w, Some (idx, false));
  lk_new p b w idx : vw p = Some (b, w, Some (idx, false)) -> lk = true;
  lk_one p p' b b' w w' idx idx' :
    vw p = Some (b, w, Some (idx, false)) -> vw p' = Some (b', w', Some (idx', false)) -> p = p';
  lk_held : lk = true -> intr = true \/ exists p b w idx, vw p = Some (b, w, Some (idx, false));
}.

Definition nfree (d : disk) : nat :=
  length (filter (fun i => free d i = true) (seq 0 NUM)).

(** Nobody sleeps who could go on, or whom nobody will wake. *)
Record sleepers (s : vstate) (U : list nat) : Prop := {
  sl_free p b w : v_thread s p = AsleepFree b w -> (nfree (v_disk s) < 3)%nat;
  sl_buf p b w idx : v_thread s p = AsleepBuf b w idx -> vb_disk (v_buf s b) = true;
  sl_irq : U <> [] -> dev_irq (v_dev s) = true \/ v_intr s = true;
}.

Record contents (bf : nat -> vbuf) (m : Z -> list Z) : Prop := {
  ct_no b : 0 <= vb_blockno (bf b) < 2 ^ 31;
  ct_data b : length (vb_data (bf b)) = Z.to_nat BSIZE;
  ct_media k : length (m k) = 512%nat;
}.

Definition views (s : vstate) (p : nat) : view := view_of (v_thread s p).

Record inv_at (s : vstate) (A U : list nat) : Prop := {
  iv_chains : chains (v_disk s) (v_buf s) (views s);
  iv_rings : rings (v_disk s) (v_buf s) (views s) (v_dev s) A U;
  iv_locking : locking (vdisk_lock (v_disk s)) (v_intr s) (views s);
  iv_sleepers : sleepers s U;
  iv_contents : contents (v_buf s) (dev_media (v_dev s));
}.

Arguments cs_ok {d bf vw}.
Arguments cs_idx {d bf vw}.
Arguments cs_owner {d bf vw}.
Arguments cs_buf {d bf vw}.
Arguments lk_intr {lk intr vw}.
Arguments lk_new {lk intr vw}.
Arguments lk_one {lk intr vw}.
Arguments lk_held {lk intr vw}.
Arguments iv_chains {s A U}.
Arguments iv_rings {s A U}.
Arguments iv_locking {s A U}.
Arguments iv_sleepers {s A U}.
Arguments iv_contents {s A U}.

Definition vinv (s : vstate) : Prop := exists A U, inv_at s A U.

(** ** The descriptors *)

Definition wake (t : thread) : thread :=
  match t with AsleepFree b w => Try b w | t => t end.

Lemma view_wake t : view_of (wake t) = view_of t.
Proof. by destruct t. Qed.

(** The state with other descriptors. *)
Definition frame_desc (s s' : vstate) : Prop :=
  v_buf s' = v_buf s /\ v_intr s' = v_intr s /\ v_dev s' = v_dev s /\
  let d := v_disk s in let d' := v_disk s' in
  avail_ring d' = avail_ring d /\ avail_idx d' = avail_idx d /\ used_ring d' = used_ring d /\
  used_head d' = used_head d /\ used_idx d' = used_idx d /\ info_b d' = info_b d /\
  info_status d' = info_status d /\ ops d' = ops d /\ vdisk_lock d' = vdisk_lock d.

Lemma frame_desc_trans s1 s2 s3 : frame_desc s1 s2 -> frame_desc s2 s3 -> frame_desc s1 s3.
Proof. unfold frame_desc. intuition congruence. Qed.

Lemma alloc_desc_spec s :
  (exists i, (i < NUM)%nat /\ free (v_disk s) i = true /\
     alloc_desc s = Done (Some i) (on_disk (set_free i false) s)) \/
  ((forall i, (i < NUM)%nat -> free (v_disk s) i = false) /\ alloc_desc s = Done None s).
Proof.
  unfold alloc_desc. destruct (list_first (free (v_disk s)) (seq 0 NUM))
    as [(l1 & i & l2 & E & Hi & H1)|Hn].
  - left. exists i. split_and!; [|done|].
    + assert (i ∈ seq 0 NUM) as Hin by (rewrite E; apply elem_of_app; right; by left).
      apply elem_of_seq in Hin. lia.
    + rewrite E. apply scan_find.
      * intros x Hx. unfold dget, bind, gets. simpl. by rewrite H1.
      * unfold dget, bind, gets. simpl. by rewrite Hi.
  - right. split.
    + intros i Hi. apply Hn, elem_of_seq. lia.
    + apply scan_none. intros x Hx. unfold dget, bind, gets. simpl. by rewrite Hn.
Qed.

(** [i] has become free, and the sleepers know. *)
Definition freed (i : nat) (s s' : vstate) : Prop :=
  frame_desc s s' /\ (forall p, v_thread s' p = wake (v_thread s p)) /\
  (forall j, desc (v_disk s') j = if decide (j = i) then Desc ANull 0 0 0 else desc (v_disk s) j) /\
  (forall j, free (v_disk s') j = if decide (j = i) then true else free (v_disk s) j).

Lemma insert_eq_if {A} (f : nat -> A) i x j : <[i := x]> f j = if decide (j = i) then x else f j.
Proof.
  case_decide as E; [by rewrite E, fn_lookup_insert|]. by rewrite fn_lookup_insert_ne.
Qed.

Lemma free_desc_spec i s : (i < NUM)%nat -> free (v_disk s) i = false ->
  exists s', free_desc i s = Done tt s' /\ freed i s s'.
Proof.
  intros Hi Hf. unfold free_desc.
  replace (NUM <=? i)%nat with false by (symmetry; apply Nat.leb_gt; lia).
  unfold dget, dset, wakeup_free, bind, gets, modify. cbn. rewrite Hf. cbn.
  eexists. split; [done|]. split; [by split_and!|split; [intros p; simpl; unfold wake; by destruct (v_thread s p)|split]]; intros j; simpl;
    rewrite !insert_eq_if; repeat case_decide; done.
Qed.

(** The state with the descriptors of a triple taken. *)
Definition took (idx : nat * nat * nat) (s s' : vstate) : Prop :=
  frame_desc s s' /\ v_thread s' = v_thread s /\ desc (v_disk s') = desc (v_disk s) /\
  (forall j, free (v_disk s') j = if decide (in_idx j idx) then false else free (v_disk s) j).

(** The state with the same free descriptors, and sleepers awake. *)
Definition gave_back (s s' : vstate) : Prop :=
  frame_desc s s' /\
  ((forall p, v_thread s' p = v_thread s p) \/ (forall p, v_thread s' p = wake (v_thread s p))) /\
  (forall j, free (v_disk s) j = false -> desc (v_disk s') j = desc (v_disk s) j) /\
  (forall j, free (v_disk s') j = free (v_disk s) j).

Lemma nfree_bound d (l : list nat) :
  (forall i, (i < NUM)%nat -> free d i = true -> i ∈ l) -> (nfree d <= length l)%nat.
Proof.
  intros Hl. apply submseteq_length, NoDup_submseteq.
  - apply NoDup_filter, NoDup_seq.
  - intros i [Hf Hi]%list_elem_of_filter. apply elem_of_seq in Hi. apply Hl; [lia|done].
Qed.

#[local] Instance in_idx_dec i idx : Decision (in_idx i idx).
Proof. destruct idx as [[i0 i1] i2]. unfold in_idx. apply _. Defined.

Lemma alloc3_desc_spec s :
  (exists i0 i1 i2 s', alloc3_desc s = Done (Some (i0, i1, i2)) s' /\ took (i0, i1, i2) s s' /\
     (i0 < NUM)%nat /\ (i1 < NUM)%nat /\ (i2 < NUM)%nat /\ i0 <> i1 /\ i0 <> i2 /\ i1 <> i2 /\
     free (v_disk s) i0 = true /\ free (v_disk s) i1 = true /\ free (v_disk s) i2 = true) \/
  ((nfree (v_disk s) < 3)%nat /\
   exists s', alloc3_desc s = Done None s' /\ gave_back s s').
Proof.
  unfold alloc3_desc.
  destruct (alloc_desc_spec s) as [(i0 & L0 & F0 & E0)|[Hn E0]]; rewrite (bind_done _ _ _ _ _ E0).
  2:{ right. split.
      - apply (Nat.le_lt_trans _ (length (@nil nat))); [|simpl; lia]. apply nfree_bound.
        intros i Hi. by rewrite Hn.
      - exists s. split; [done|]. split_and!; auto. by split_and!. }
  destruct (alloc_desc_spec (on_disk (set_free i0 false) s)) as [(i1 & L1 & F1 & E1)|[Hn E1]];
    rewrite (bind_done _ _ _ _ _ E1).
  2:{ simpl in Hn. right. split.
      - apply (Nat.le_lt_trans _ (length [i0])); [|simpl; lia]. apply nfree_bound.
        intros i Hi Hf. apply Hn in Hi. rewrite insert_eq_if in Hi. case_decide; [subst; by left|congruence].
      - destruct (free_desc_spec i0 (on_disk (set_free i0 false) s))
          as (s' & E & Hfr & Ht & Hd & Hf); [done|by apply fn_lookup_insert|].
        exists s'. split; [by rewrite (bind_done _ _ _ _ _ E)|]. split_and!; auto.
        + intros j Hj. rewrite Hd. simpl. rewrite decide_False by congruence. done.
        + intros j. rewrite Hf. simpl. rewrite insert_eq_if. case_decide; congruence. }
  simpl in F1. rewrite insert_eq_if in F1. case_decide as N1; [done|].
  destruct (alloc_desc_spec (on_disk (set_free i1 false) (on_disk (set_free i0 false) s)))
    as [(i2 & L2 & F2 & E2)|[Hn E2]]; rewrite (bind_done _ _ _ _ _ E2).
  2:{ simpl in Hn. right. split.
      - apply (Nat.le_lt_trans _ (length [i0; i1])); [|simpl; lia]. apply nfree_bound.
        intros i Hi Hf. apply Hn in Hi. rewrite !insert_eq_if in Hi.
        repeat case_decide; subst; [by right; left|by left|congruence].
      - set (s2 := on_disk _ _).
        destruct (free_desc_spec i0 s2) as (s' & E & Hfr & Ht & Hd & Hf); [done| |].
        { simpl. rewrite !insert_eq_if. by repeat case_decide. }
        destruct (free_desc_spec i1 s') as (s'' & E' & Hfr' & Ht' & Hd' & Hf'); [done| |].
        { rewrite Hf. simpl. rewrite !insert_eq_if. by repeat case_decide. }
        exists s''. split; [by rewrite (bind_done _ _ _ _ _ E), (bind_done _ _ _ _ _ E')|].
        split_and!.
        + by eapply frame_desc_trans.
        + right. intros p. rewrite Ht', Ht. simpl. by destruct (v_thread s p).
        + intros j Hj. rewrite Hd', Hd. simpl. rewrite !decide_False by congruence. done.
        + intros j. rewrite Hf', Hf. simpl. rewrite !insert_eq_if. repeat case_decide; congruence. }
  simpl in F2. rewrite !insert_eq_if in F2. repeat (case_decide; [done|]).
  left. exists i0, i1, i2. eexists. split; [done|]. split_and!; auto.
  split_and!; [by split_and!|done|done|]. intros j. simpl. rewrite !insert_eq_if.
  repeat case_decide; unfold in_idx in *; try done; tauto.
Qed.

Lemma in_idx_lt i i0 i1 i2 : in_idx i (i0, i1, i2) ->
  (i0 < NUM)%nat -> (i1 < NUM)%nat -> (i2 < NUM)%nat -> (i < NUM)%nat.
Proof. unfold in_idx. intros [E|[E|E]]; by rewrite E. Qed.

(** The descriptors of a triple have become free. *)
Definition freed3 (idx : nat * nat * nat) (s s' : vstate) : Prop :=
  frame_desc s s' /\ (forall p, v_thread s' p = wake (v_thread s p)) /\
  (forall j, ~ in_idx j idx -> desc (v_disk s') j = desc (v_disk s) j) /\
  (forall j, free (v_disk s') j = if decide (in_idx j idx) then true else free (v_disk s) j).

Lemma free_chain_spec d x b w i0 i1 i2 s :
  chain_ok d x b w i0 i1 i2 -> desc (v_disk s) = desc d -> free (v_disk s) = free d ->
  exists s', free_chain i0 s = Done tt s' /\ freed3 (i0, i1, i2) s s'.
Proof.
  intros [(L0 & L1 & L2) (N01 & N02 & N12) (F0 & F1 & F2) D0 D1 D2 _ _] Hd Hf.
  rewrite <-Hd in D0, D1, D2. rewrite <-Hf in F0, F1, F2. clear Hd Hf.
  destruct (free_desc_spec i0 s L0 F0) as (s1 & E1 & Fr1 & T1 & Ds1 & Fs1).
  destruct (free_desc_spec i1 s1 L1) as (s2 & E2 & Fr2 & T2 & Ds2 & Fs2).
  { rewrite Fs1. by rewrite decide_False by congruence. }
  destruct (free_desc_spec i2 s2 L2) as (s3 & E3 & Fr3 & T3 & Ds3 & Fs3).
  { rewrite Fs2, Fs1. by rewrite !decide_False by congruence. }
  exists s3. split.
  - unfold free_chain, NUM. rewrite (loop_next _ _ _ _ i1 s1); [rewrite (loop_next _ _ _ _ i2 s2);
      [apply (loop_last _ _ _ _ tt s3)|]|]; unfold dget, gets, bind; cbn.
    + rewrite Ds2, Ds1. rewrite !decide_False by congruence. rewrite D2. cbn. by rewrite E3.
    + rewrite Ds1. rewrite !decide_False by congruence. rewrite D1. cbn. rewrite E2.
      by destruct w.
    + rewrite D0. cbn. by rewrite E1.
  - split_and!.
    + by eapply frame_desc_trans; [eapply frame_desc_trans|].
    + intros p. rewrite T3, T2, T1. by destruct (v_thread s p).
    + unfold in_idx. intros j Hj. rewrite Ds3, Ds2, Ds1. by rewrite !decide_False by tauto.
    + intros j. rewrite Fs3, Fs2, Fs1. unfold in_idx. repeat case_decide; try done; tauto.
Qed.

(** ** Rings *)

Lemma slot_lt i : (slot i < NUM)%nat.
Proof. unfold slot, NUM. pose proof (Z.mod_pos_bound i 8). simpl. lia. Qed.

Lemma slot_u16 i : slot (u16 i) = slot i.
Proof.
  unfold slot, uwrap, NUM. f_equal. change (2 ^ 16) with (8 * 8192). simpl Z.of_nat.
  by rewrite Z.mod_mod_divide by (exists 8192; lia).
Qed.

(** Slots of a window of [NUM] entries differ. *)
Lemma slot_ne a i j : 0 <= i < j -> j < i + Z.of_nat NUM -> slot (a + i) <> slot (a + j).
Proof.
  unfold slot, NUM. simpl Z.of_nat. intros Hij Hj E.
  pose proof (Z.mod_pos_bound (a + i) 8). pose proof (Z.mod_pos_bound (a + j) 8).
  apply Z2Nat.inj in E; [|lia..].
  Z.div_mod_to_equations. lia.
Qed.

Section windows.
Context (ring : nat -> nat) (from to : Z) (l : list nat).
Hypothesis Hw : window ring from to l.

Lemma window_slot : slot to = slot (from + Z.of_nat (length l)).
Proof using Hw. destruct Hw as (_ & -> & _). apply slot_u16. Qed.

Lemma window_insert h : (length l < NUM)%nat -> window (<[slot to := h]> ring) from to l.
Proof using Hw.
  intros Hlt. pose proof window_slot as Es. destruct Hw as (Hf & Ht & Hl & Hr).
  refine (conj Hf (conj Ht (conj Hl _))). intros k h' Hk. rewrite fn_lookup_insert_ne; [by apply Hr|].
  apply lookup_lt_Some in Hk. rewrite Es. symmetry. apply slot_ne; lia.
Qed.

Lemma window_push h : (length l < NUM)%nat -> ring (slot to) = h ->
  window ring from (u16 (to + 1)) (l ++ [h]).
Proof using Hw.
  intros Hlt Hh. pose proof window_slot as Es. destruct Hw as (Hf & Ht & Hl & Hr).
  refine (conj Hf (conj _ (conj _ _))).
  - rewrite Ht, length_app. simpl. rewrite uwrap_add_l. f_equal. lia.
  - rewrite length_app. simpl. lia.
  - intros k h'. rewrite lookup_app_Some. intros [Hk|[Hk E]]; [by apply Hr|].
    apply list_lookup_singleton_Some in E as [E <-].
    replace k with (length l) by lia. by rewrite <-Es.
Qed.

Lemma window_empty : from = to <-> l = [].
Proof using Hw.
  destruct Hw as (Hf & Ht & Hl & _). unfold NUM in Hl. split.
  - intros E. apply length_zero_iff_nil.
    assert (u16 from = u16 (from + Z.of_nat (length l))) as E' by (rewrite uwrap_small; congruence).
    apply uwrap_eq_iff in E'; lia.
  - intros ->. rewrite Ht. simpl. rewrite Z.add_0_r, uwrap_small; done.
Qed.
End windows.

Lemma window_pop ring from to h l : window ring from to (h :: l) ->
  ring (slot from) = h /\ window ring (u16 (from + 1)) to l.
Proof.
  intros (Hf & Ht & Hl & Hr). split.
  - rewrite <-(Hr 0%nat h) by done. by rewrite Z.add_0_r.
  - refine (conj _ (conj _ (conj _ _))).
    + by apply uwrap_bound.
    + rewrite Ht, uwrap_add_l. simpl length. f_equal. lia.
    + simpl in Hl. lia.
    + intros k h' Hk. rewrite <-(Hr (S k) h') by done.
      rewrite <-(slot_u16 (u16 (from + 1) + _)), uwrap_add_l, slot_u16. do 2 f_equal. lia.
Qed.

(** Heads that miss a descriptor are fewer than [NUM]. *)
Lemma heads_short (l : list nat) j :
  NoDup l -> (forall h, h ∈ l -> (h < NUM)%nat) -> (j < NUM)%nat -> j ∉ l -> (length l < NUM)%nat.
Proof.
  intros Hd Hl Hj Hn.
  assert (length (j :: l) <= length (seq 0 NUM))%nat as E.
  { apply submseteq_length, NoDup_submseteq; [by constructor|].
    intros x [->|Hx]%elem_of_cons; apply elem_of_seq; [lia|]. apply Hl in Hx. lia. }
  rewrite length_seq in E. simpl in *. lia.
Qed.

(** ** What the parts of the invariant depend on *)

(** The same processes have the same chains. *)
Definition same_chains (vw vw' : nat -> view) : Prop :=
  forall p b w idx pub, vw' p = Some (b, w, Some (idx, pub)) -> vw p = Some (b, w, Some (idx, pub)).

Lemma same_chains_refl vw : same_chains vw vw.
Proof. by intros p b w idx pub. Qed.

#[local] Hint Resolve same_chains_refl : core.

Lemma chain_ok_agree d d' x x' b w i0 i1 i2 :
  chain_ok d x b w i0 i1 i2 ->
  (forall i, in_idx i (i0, i1, i2) -> desc d' i = desc d i /\ free d' i = free d i) ->
  ops d' i0 = ops d i0 -> info_b d' i0 = info_b d i0 -> vb_blockno x' = vb_blockno x ->
  chain_ok d' x' b w i0 i1 i2.
Proof.
  intros [Hl Hn (F0 & F1 & F2) D0 D1 D2 Ho Hi] Ha Eo Ei Ex.
  destruct (Ha i0) as [A0 B0]; [simpl; tauto|]. destruct (Ha i1) as [A1 B1]; [simpl; tauto|].
  destruct (Ha i2) as [A2 B2]; [simpl; tauto|].
  split; rewrite ?A0, ?A1, ?A2, ?B0, ?B1, ?B2, ?Eo, ?Ei, ?Ex; done.
Qed.

(** The same, whether or not the device knows of them. *)
Definition same_idx (vw vw' : nat -> view) : Prop :=
  forall p b w idx pub, vw' p = Some (b, w, Some (idx, pub)) ->
    exists pub0, vw p = Some (b, w, Some (idx, pub0)).

Lemma same_chains_idx vw vw' : same_chains vw vw' -> same_idx vw vw'.
Proof. intros Hs p b w idx pub Hp. eauto. Qed.

Lemma same_idx_refl vw : same_idx vw vw.
Proof. intros p b w idx pub. eauto. Qed.

#[local] Hint Resolve same_idx_refl : core.

(** Fewer chains, which have not changed. *)
Lemma chains_agree d d' bf bf' vw vw' :
  chains d bf vw -> same_idx vw vw' ->
  (forall p b w i0 i1 i2 pub, vw' p = Some (b, w, Some (i0, i1, i2, pub)) ->
     chain_ok d (bf b) b w i0 i1 i2 -> chain_ok d' (bf' b) b w i0 i1 i2) ->
  (forall i, (i < NUM)%nat -> free d' i = false ->
     exists p b w idx pub, vw' p = Some (b, w, Some (idx, pub)) /\ in_idx i idx) ->
  (forall p p' b w w' c c', vw' p = Some (b, w, c) -> vw' p' = Some (b, w', c') -> p = p') ->
  chains d' bf' vw'.
Proof.
  intros [C1 C2 C3 C4] Hs Hok Hown Hbuf. split.
  - intros p b w i0 i1 i2 pub Hp. eapply Hok; [exact Hp|]. apply Hs in Hp as [? Hp]. by eapply C1.
  - intros p p' b b' w w' idx idx' pub pub' i [? Hp]%Hs [? Hp']%Hs. by eapply C2.
  - done.
  - done.
Qed.

(** The disk is the same as far as the rings are concerned. *)
Definition same_rings (d d' : disk) (dv dv' : device) : Prop :=
  avail_ring d' = avail_ring d /\ avail_idx d' = avail_idx d /\ used_ring d' = used_ring d /\
  used_head d' = used_head d /\ used_idx d' = used_idx d /\ info_status d' = info_status d /\
  dev_last dv' = dev_last dv /\ dev_pending dv' = dev_pending dv.

Lemma rings_agree d d' bf bf' vw vw' dv dv' A U :
  rings d bf vw dv A U -> same_rings d d' dv dv' -> same_chains vw vw' ->
  (forall p b w i0 i1 i2, vw p = Some (b, w, Some (i0, i1, i2, true)) ->
     i0 ∈ A ++ dev_pending dv ++ U -> vw' p = Some (b, w, Some (i0, i1, i2, true))) ->
  (forall p b w idx pub, vw' p = Some (b, w, Some (idx, pub)) -> vb_disk (bf' b) = vb_disk (bf b)) ->
  rings d' bf' vw' dv' A U.
Proof.
  intros [R1 R2 R3 R4 R5 R6 R7 R8 R9] (E1 & E2 & E3 & E4 & E5 & E6 & E7 & E8) Hs Hh Hb.
  split; rewrite ?E1, ?E2, ?E3, ?E4, ?E5, ?E6, ?E7, ?E8; try done.
  - intros h Hin. destruct (R4 h Hin) as (p & b & w & i1 & i2 & Hp). eauto 10.
  - intros p b w i0 i1 i2 Hp. rewrite (Hb _ _ _ _ _ Hp). eapply R7, Hs, Hp.
  - intros p b w i0 i1 i2 Hp. rewrite (Hb _ _ _ _ _ Hp). eapply R8, Hs, Hp.
  - intros p b w i0 i1 i2 Hp. rewrite (Hb _ _ _ _ _ Hp). eapply R9, Hs, Hp.
Qed.

Lemma locking_agree lk intr vw vw' :
  locking lk intr vw ->
  (forall p b w idx, vw' p = Some (b, w, Some (idx, false)) <-> vw p = Some (b, w, Some (idx, false))) ->
  locking lk intr vw'.
Proof.
  intros [L1 L2 L3 L4] Hs. split.
  - intros Hi. destruct (L1 Hi) as [Hl Hn]. split; [done|]. intros p b w idx. rewrite Hs. apply Hn.
  - intros p b w idx. rewrite Hs. apply L2.
  - intros p p' b b' w w' idx idx'. rewrite !Hs. apply L3.
  - intros Hl. destruct (L4 Hl) as [|(p & b & w & idx & Hp)]; [by left|]. right. exists p, b, w, idx.
    by apply Hs.
Qed.

Lemma contents_agree bf bf' m :
  contents bf m -> (forall b, vb_blockno (bf' b) = vb_blockno (bf b) /\ vb_data (bf' b) = vb_data (bf b)) ->
  contents bf' m.
Proof.
  intros [C1 C2 C3] Hb. split; [| |done]; intros b; destruct (Hb b) as [E1 E2]; rewrite ?E1, ?E2; auto.
Qed.

Lemma nfree_agree d d' : (forall i, free d' i = free d i) -> nfree d' = nfree d.
Proof.
  intros Hf. unfold nfree. f_equal. apply list_filter_iff. intros i. by rewrite Hf.
Qed.

(** Changes that the abstract disk does not see. *)
Lemma astep_stutter s s' :
  (forall p, abs_req (v_disk s') (v_thread s' p) = abs_req (v_disk s) (v_thread s p)) ->
  dev_media (v_dev s') = dev_media (v_dev s) ->
  (forall b, vb_blockno (v_buf s' b) = vb_blockno (v_buf s b) /\
             vb_data (v_buf s' b) = vb_data (v_buf s b)) ->
  astep (abs s) (abs s').
Proof.
  intros Hr Hm Hb. apply a_stutter.
  - intros p. simpl. by rewrite Hr.
  - intros n. simpl. by rewrite Hm.
  - intros b. simpl. destruct (Hb b) as [E1 E2]. by rewrite E1, E2.
Qed.

(** What is to be shown of every step. *)
Definition good (s : vstate) (o : outcome_of) : Prop :=
  exists s', o = Ok s' /\ vinv s' /\ astep (abs s) (abs s').

Lemma good_run m s s' :
  m s = Done tt s' -> vinv s' /\ astep (abs s) (abs s') -> good s (run m s).
Proof. intros E [Hi Ha]. exists s'. unfold run. by rewrite E. Qed.

Lemma views_set p t s q : views (set_thread p t s) q = if decide (q = p) then view_of t else views s q.
Proof. unfold views. simpl. rewrite insert_eq_if. by case_decide. Qed.

Lemma busy_view t b : busy_with t = Some b <-> exists w c, view_of t = Some (b, w, c).
Proof. destruct t; simpl; (split; [intros [=]|intros (? & ? & [=])]); subst; eauto. Qed.

Lemma busy_abs d t : abuf_busy (abs_req d t) = busy_with t.
Proof. destruct t as [| | | |b w [[i0 i1] i2]|b w [[i0 i1] i2]]; simpl; try case_match; done. Qed.

(** ** The steps of the callers *)

Lemma good_call s p b w : vinv s -> v_thread s p = Idle ->
  (forall p', busy_with (v_thread s p') <> Some b) -> good s (Ok (set_thread p (Try b w) s)).
Proof.
  intros (A & U & [Hc Hr Hl Hs Hct]) Hp Hb. eexists. split; [done|].
  assert (Hn : forall q b' w' idx pub, views (set_thread p (Try b w) s) q = Some (b', w', Some (idx, pub)) <->
    views s q = Some (b', w', Some (idx, pub))).
  { intros q b' w' idx pub. rewrite views_set. case_decide as E; [|done]. subst q.
    unfold views. by rewrite Hp. }
  split; [exists A, U; split|].
  - apply (chains_agree (v_disk s) _ (v_buf s) _ (views s)); try done.
    + apply same_chains_idx. intros q b' w' idx pub. apply Hn.
    + intros i Hi Hf. destruct (cs_owner Hc i Hi Hf) as (q & b' & w' & idx & pub & Hq & Hin).
      exists q, b', w', idx, pub. by rewrite Hn.
    + intros q q' b' w1 w2 c c'. rewrite !views_set. repeat case_decide; subst; try done.
      * intros E Hq'. simplify_eq/=. destruct (Hb q'). apply busy_view. eauto.
      * intros Hq E. simplify_eq/=. destruct (Hb q). apply busy_view. eauto.
      * apply (cs_buf Hc).
  - eapply rings_agree; try done.
    + intros q b' w' idx pub. apply Hn.
    + intros q b' w' i0 i1 i2 Hq _. by apply Hn.
  - eapply locking_agree; [done|]. intros q b' w' idx. apply Hn.
  - destruct Hs as [S1 S2 S3]. split; simpl; [| |done].
    + intros q b' w'. rewrite insert_eq_if. case_decide; [done|]. apply S1.
    + intros q b' w' idx. rewrite insert_eq_if. case_decide; [done|]. apply S2.
  - done.
  - apply (a_call _ _ p b w); try done.
    + simpl. by rewrite Hp.
    + intros p'. simpl. by rewrite busy_abs.
    + intros q. simpl. rewrite insert_eq_if. by case_decide.
Qed.

Lemma good_client s b n data : vinv s -> (forall p, busy_with (v_thread s p) <> Some b) ->
  0 <= n < 2 ^ 31 -> length data = Z.to_nat BSIZE ->
  good s (Ok (set_buf b (VBuf n data (vb_disk (v_buf s b))) s)).
Proof.
  intros (A & U & [Hc Hr Hl Hs Hct]) Hb Hn Hd. eexists. split; [done|].
  set (s' := set_buf b _ s).
  assert (Hsame : forall p b' w c, views s p = Some (b', w, c) -> v_buf s' b' = v_buf s b').
  { intros p b' w c Hp. simpl. rewrite insert_eq_if. case_decide; [|done]. subst.
    destruct (Hb p). apply busy_view. eauto. }
  split; [exists A, U; split|].
  - apply (chains_agree (v_disk s) _ (v_buf s) _ (views s)); try done.
    + intros q b' w i0 i1 i2 pub Hq. by rewrite (Hsame _ _ _ _ Hq).
    + apply (cs_owner Hc).
    + apply (cs_buf Hc).
  - eapply rings_agree; try done. intros q b' w idx pub Hq. by rewrite (Hsame _ _ _ _ Hq).
  - done.
  - destruct Hs as [S1 S2 S3]. split; [done| |done].
    intros q b' w idx Hq. rewrite (Hsame q b' w (Some (idx, true))); [by eapply S2|].
    unfold views. simpl in Hq. by rewrite Hq.
  - destruct Hct as [C1 C2 C3]. split; [| |done]; intros b'; simpl; rewrite insert_eq_if;
      case_decide; simpl; auto.
  - apply (a_client _ _ b n data); try done.
    + intros p. simpl. by rewrite busy_abs.
    + intros b'. simpl. rewrite insert_eq_if. by case_decide.
Qed.

(** ** Descriptors and sleeping *)

Lemma owned_not_free s A U p b w idx pub i : inv_at s A U ->
  views s p = Some (b, w, Some (idx, pub)) -> in_idx i idx -> free (v_disk s) i = false.
Proof.
  intros Hi Hp. destruct idx as [[i0 i1] i2].
  destruct (cs_ok (iv_chains Hi) _ _ _ _ _ _ _ Hp) as [_ _ (F0 & F1 & F2) _ _ _ _ _].
  simpl. intros [E|[E|E]]; by rewrite E.
Qed.

Lemma no_formatted s A U p b w idx : inv_at s A U -> lock_free s ->
  views s p <> Some (b, w, Some (idx, false)).
Proof.
  intros Hi Hl Hp. pose proof (lk_new (iv_locking Hi) _ _ _ _ Hp) as E.
  unfold lock_free in Hl. congruence.
Qed.

Lemma no_intr s A U : inv_at s A U -> lock_free s -> v_intr s = false.
Proof.
  intros Hi Hl. destruct (v_intr s) eqn:E; [|done].
  destruct (lk_intr (iv_locking Hi) E) as [El _]. unfold lock_free in Hl. congruence.
Qed.

(** The state in which [p] sleeps for want of descriptors. *)
Lemma good_no_desc s p b w s1 : vinv s -> v_thread s p = Try b w -> lock_free s ->
  (nfree (v_disk s) < 3)%nat -> gave_back (on_disk (set_lock true) s) s1 ->
  let s' := on_disk (set_lock false) (set_thread p (AsleepFree b w) s1) in
  vinv s' /\ astep (abs s) (abs s').
Proof.
  intros (A & U & Hi) Hp Hlk Hn (Hfr & Ht & Hd & Hf) s'. destruct Hi as [Hc Hr Hl Hs Hct] eqn:Ei.
  clear Ei. destruct Hfr as (Eb & Ein & Edv & E1 & E2 & E3 & E4 & E5 & E6 & E7 & E8 & E9).
  simpl in *.
  assert (Hv : forall q, views s' q = views s q).
  { intros q. unfold s', views. simpl. rewrite insert_eq_if. case_decide as E.
    - subst. by rewrite Hp.
    - destruct Ht as [Ht|Ht]; rewrite Ht; [done|apply view_wake]. }
  assert (Hsc : same_chains (views s) (views s')) by (intros q b' w' idx pub; by rewrite Hv).
  pose proof (same_chains_idx _ _ Hsc) as Hsi.
  split; [exists A, U; split|].
  - apply (chains_agree (v_disk s) _ (v_buf s) _ (views s)); try done; simpl; rewrite ?Eb.
    + intros q b' w' i0 i1 i2 pub Hq Hok. apply (chain_ok_agree (v_disk s) _ (v_buf s b'));
        simpl; rewrite ?E6, ?E8; try done.
      intros i Hin. rewrite Hf. split; [|done]. apply Hd. rewrite Hv in Hq.
      by eapply (owned_not_free s A U); [split|..].
    + intros i Hlt. rewrite Hf. intros Hu.
      destruct (cs_owner Hc i Hlt Hu) as (q & b' & w' & idx & pub & Hq & Hin).
      exists q, b', w', idx, pub. by rewrite Hv.
    + intros q q' b' w1 w2 c c'. rewrite !Hv. apply (cs_buf Hc).
  - eapply rings_agree; try done; simpl.
    + unfold same_rings. simpl. by rewrite Edv.
    + intros q b' w' i0 i1 i2 Hq _. by rewrite Hv.
    + intros q b' w' idx pub _. by rewrite Eb.
  - simpl. rewrite Ein. unfold lock_free in Hlk. rewrite Hlk in Hl.
    eapply locking_agree; [done|]. intros. by rewrite Hv.
  - destruct Hs as [S1 S2 S3]. split; simpl; rewrite ?Ein, ?Edv, ?Eb; [| |done].
    + intros q b' w' _. by rewrite (nfree_agree (v_disk s)) by (intros i; apply Hf).
    + intros q b' w' idx. rewrite insert_eq_if. case_decide; [done|].
      destruct Ht as [Ht|Ht]; rewrite Ht; [apply S2|].
      destruct (v_thread s q) eqn:Eq; simpl; try done. intros [= -> -> ->]. by eapply S2.
  - simpl. by rewrite Eb, Edv.
  - apply astep_stutter; simpl; rewrite ?Edv, ?Eb; try done. intros q. rewrite insert_eq_if.
    case_decide as E; [subst; by rewrite Hp|].
    destruct Ht as [Ht|Ht]; rewrite Ht; destruct (v_thread s q) as [| | | |? ? [[]]|? ? [[]]];
      simpl; by rewrite ?E7.
Qed.

(** What [rw_format] leaves. *)
Record formats (b : nat) (w : bool) (i0 i1 i2 : nat) (s s' : vstate) : Prop := {
  fm_free : free (v_disk s') = free (v_disk s);
  fm_desc j : ~ in_idx j (i0, i1, i2) -> desc (v_disk s') j = desc (v_disk s) j;
  fm_0 : desc (v_disk s') i0 = Desc (AOps i0) 16 VRING_DESC_F_NEXT i1;
  fm_1 : desc (v_disk s') i1 = Desc (AData b) BSIZE
           (Z.lor (if w then 0 else VRING_DESC_F_WRITE) VRING_DESC_F_NEXT) i2;
  fm_2 : desc (v_disk s') i2 = Desc (AStatus i0) 1 VRING_DESC_F_WRITE 0;
  fm_ops j : ops (v_disk s') j =
    if decide (j = i0) then Req (if w then VIRTIO_BLK_T_OUT else VIRTIO_BLK_T_IN) 0
                              (u32 (vb_blockno (v_buf s b) * 2))
    else ops (v_disk s) j;
  fm_info j : info_b (v_disk s') j = if decide (j = i0) then Some b else info_b (v_disk s) j;
  fm_status j : info_status (v_disk s') j =
    if decide (j = i0) then 255 else info_status (v_disk s) j;
  fm_ring : avail_ring (v_disk s') = <[slot (avail_idx (v_disk s)) := i0]> (avail_ring (v_disk s));
  fm_buf b' : v_buf s' b' = if decide (b' = b) then vb_set_disk true (v_buf s b) else v_buf s b';
  fm_rest : v_thread s' = v_thread s /\ v_intr s' = v_intr s /\ v_dev s' = v_dev s /\
    avail_idx (v_disk s') = avail_idx (v_disk s) /\ used_ring (v_disk s') = used_ring (v_disk s) /\
    used_head (v_disk s') = used_head (v_disk s) /\ used_idx (v_disk s') = used_idx (v_disk s) /\
    vdisk_lock (v_disk s') = vdisk_lock (v_disk s);
}.

Arguments fm_free {b w i0 i1 i2 s s'}.
Arguments fm_desc {b w i0 i1 i2 s s'}.
Arguments fm_ops {b w i0 i1 i2 s s'}.
Arguments fm_info {b w i0 i1 i2 s s'}.
Arguments fm_status {b w i0 i1 i2 s s'}.
Arguments fm_ring {b w i0 i1 i2 s s'}.
Arguments fm_buf {b w i0 i1 i2 s s'}.
Arguments fm_rest {b w i0 i1 i2 s s'}.

Lemma rw_format_spec b w i0 i1 i2 s : i0 <> i1 -> i0 <> i2 -> i1 <> i2 ->
  exists s', rw_format b w (i0, i1, i2) s = Done tt s' /\ formats b w i0 i1 i2 s s'.
Proof.
  intros N01 N02 N12. unfold rw_format, dset.
  cbv beta zeta iota delta [bind gets modify obind].
  eexists. split; [reflexivity|]. split; try done; simpl; intros; rewrite ?insert_eq_if; try done;
    repeat case_decide; subst; try done; unfold in_idx in *; tauto.
Qed.

Lemma sector_exact x : 0 <= vb_blockno x < 2 ^ 31 -> u32 (vb_blockno x * 2) = 2 * vb_blockno x.
Proof. intros. rewrite uwrap_small; lia. Qed.

(** The views when [p] has formatted its chain. *)
Lemma format_views s p b w idx vw : v_thread s p = Try b w ->
  (forall q, vw q = if decide (q = p) then Some (b, w, Some (idx, false)) else views s q) ->
  forall q b' w' c, vw q = Some (b', w', Some c) ->
    q = p /\ b' = b /\ w' = w /\ c = (idx, false) \/ q <> p /\ views s q = Some (b', w', Some c).
Proof.
  intros Hp Hv q b' w' c. rewrite Hv. case_decide as E; [intros; simplify_eq; auto|auto].
Qed.

Lemma nfree_mono d d' : (forall i, free d' i = true -> free d i = true) -> (nfree d' <= nfree d)%nat.
Proof.
  intros Hf. apply nfree_bound. intros i Hi Ht. apply list_elem_of_filter. split; [by apply Hf|].
  apply elem_of_seq. lia.
Qed.

(** A head in one of the rings is the first descriptor of a chain. *)
Lemma head_used s A U h : inv_at s A U -> h ∈ A ++ dev_pending (v_dev s) ++ U ->
  (h < NUM)%nat /\ free (v_disk s) h = false.
Proof.
  intros Hi Hh. destruct (rg_head _ _ _ _ _ _ (iv_rings Hi) h Hh) as (p & b & w & i1 & i2 & Hp).
  destruct (cs_ok (iv_chains Hi) _ _ _ _ _ _ _ Hp) as [(L & _) _ (F & _) _ _ _ _ _]. done.
Qed.

Lemma rings_short s A U j : inv_at s A U -> (j < NUM)%nat ->
  (j ∉ A -> (length A < NUM)%nat) /\ (j ∉ U -> (length U < NUM)%nat).
Proof.
  intros Hi Hj. pose proof (rg_nodup _ _ _ _ _ _ (iv_rings Hi)) as Hd.
  apply NoDup_app in Hd as (HA & _ & (_ & _ & HU)%NoDup_app).
  split; intros Hn; eapply (heads_short _ j); try done; intros h Hh;
    eapply (head_used s A U); try done; rewrite !elem_of_app; tauto.
Qed.

Section format.
Context (s s2 : vstate) (A U : list nat) (p b i0 i1 i2 : nat) (w : bool).
Hypothesis Hi : inv_at s A U.
Hypothesis Hp : v_thread s p = Try b w.
Hypothesis Hlk : lock_free s.
Hypothesis Hfree : free (v_disk s) i0 = true /\ free (v_disk s) i1 = true /\ free (v_disk s) i2 = true.
Hypothesis Hlt : (i0 < NUM)%nat /\ (i1 < NUM)%nat /\ (i2 < NUM)%nat.
Hypothesis Hne : i0 <> i1 /\ i0 <> i2 /\ i1 <> i2.
(** [s2] is [s] with the chain, as seen from the invariant. *)
Variable s1 : vstate.
Hypothesis Htook : took (i0, i1, i2) (on_disk (set_lock true) s) s1.
Hypothesis Hfm : formats b w i0 i1 i2 s1 s2.

Let s' := set_thread p (Formatted b w (i0, i1, i2)) s2.

Lemma format_view q :
  views s' q = if decide (q = p) then Some (b, w, Some (i0, i1, i2, false)) else views s q.
Proof using Htook Hfm.
  destruct Htook as (_ & Ht & _). destruct (fm_rest Hfm) as (Ht2 & _).
  unfold s'. rewrite views_set. case_decide; [done|]. unfold views. by rewrite Ht2, Ht.
Qed.

Lemma format_other q b' w' idx pub i : views s q = Some (b', w', Some (idx, pub)) ->
  in_idx i idx -> ~ in_idx i (i0, i1, i2).
Proof using Hi Hfree Hlt Hne.
  intros Hq Hin [E|[E|E]]; pose proof (owned_not_free s A U _ _ _ _ _ i Hi Hq Hin) as F;
    subst i; intuition congruence.
Qed.

Lemma format_buf q b' w' c : q <> p -> views s q = Some (b', w', c) -> v_buf s' b' = v_buf s b'.
Proof using Hi Hp Htook Hfm.
  intros Hq Hb. destruct Htook as ((Eb & _) & _). unfold s'. simpl.
  rewrite (fm_buf Hfm). case_decide; [|by rewrite Eb]. subst b'. destruct Hq.
  eapply (cs_buf (iv_chains Hi)); [exact Hb|]. unfold views. by rewrite Hp.
Qed.

Lemma format_chains : chains (v_disk s') (v_buf s') (views s').
Proof using Hi Hp Hfree Hlt Hne Htook Hfm.
  pose proof Htook as (Hfr & _ & Hd & Hf). destruct Hfr as (Eb & _ & _ & _ & _ & _ & _ & _ & E6 & _ & E8 & _).
  pose proof (format_views s p b w (i0, i1, i2) (views s') Hp format_view) as Hcase.
  simpl in Eb, Hd, Hf, E6, E8.
  assert (Hold : forall q b' w' j0 j1 j2 pub, q <> p -> views s q = Some (b', w', Some (j0, j1, j2, pub)) ->
    chain_ok (v_disk s') (v_buf s' b') b' w' j0 j1 j2).
  { intros q b' w' j0 j1 j2 pub Hq Hv.
    apply (chain_ok_agree (v_disk s) _ (v_buf s b')); [by eapply (cs_ok (iv_chains Hi))|..].
    - intros i Hin. pose proof (format_other _ _ _ _ _ i Hv Hin) as Hno. simpl.
      rewrite (fm_desc Hfm i Hno), (fm_free Hfm), Hd, Hf.
      by rewrite decide_False.
    - simpl. rewrite (fm_ops Hfm), E8. rewrite decide_False; [done|].
      intros ->. eapply (format_other _ _ _ _ _ i0 Hv); simpl; tauto.
    - simpl. rewrite (fm_info Hfm), E6. rewrite decide_False; [done|].
      intros ->. eapply (format_other _ _ _ _ _ i0 Hv); simpl; tauto.
    - by rewrite (format_buf q b' w' _ Hq Hv). }
  split.
  - intros q b' w' j0 j1 j2 pub Hq. destruct (Hcase _ _ _ _ Hq) as [(-> & -> & -> & E)|[Hqp Hv]];
      [|by eapply Hold]. simplify_eq. split; simpl; try done; try (by apply Hfm).
    + rewrite (fm_free Hfm), !Hf. by rewrite !decide_True by (simpl; tauto).
    + rewrite (fm_ops Hfm), decide_True by done.
      rewrite (fm_buf Hfm), decide_True by done. simpl. rewrite Eb.
      by rewrite sector_exact by apply (iv_contents Hi).
    + by rewrite (fm_info Hfm), decide_True.
  - intros q q' b1 b2 w1 w2 idx idx' pub pub' i Hq Hq' Hin Hin'.
    destruct (Hcase _ _ _ _ Hq) as [(-> & -> & -> & E)|[Hqp Hv]];
      destruct (Hcase _ _ _ _ Hq') as [(-> & -> & -> & E')|[Hqp' Hv']]; simplify_eq; try done.
    + by destruct (format_other _ _ _ _ _ i Hv' Hin').
    + by destruct (format_other _ _ _ _ _ i Hv Hin).
    + by eapply (cs_idx (iv_chains Hi)).
  - intros i Hi8. simpl. rewrite (fm_free Hfm), Hf. case_decide as Hin.
    + intros _. exists p, b, w, (i0, i1, i2), false. rewrite format_view. by rewrite decide_True.
    + intros Hu. destruct (cs_owner (iv_chains Hi) i Hi8 Hu) as (q & b' & w' & idx & pub & Hq & Hin').
      exists q, b', w', idx, pub. split; [|done]. rewrite format_view, decide_False; [done|].
      intros ->. unfold views in Hq. by rewrite Hp in Hq.
  - assert (Hb : forall q b' w' c, views s' q = Some (b', w', c) -> exists c', views s q = Some (b', w', c')).
    { intros q b' w' c. rewrite format_view. case_decide; [|eauto]. intros; simplify_eq.
      unfold views. rewrite Hp. simpl. eauto. }
    intros q q' b' w1 w2 c c' Hq Hq'. apply Hb in Hq as [? Hq]. apply Hb in Hq' as [? Hq'].
    by eapply (cs_buf (iv_chains Hi)).
Qed.

Lemma format_head h : h ∈ A ++ dev_pending (v_dev s) ++ U -> h <> i0.
Proof using Hi Hfree.
  intros Hh ->. destruct (head_used _ _ _ _ Hi Hh) as [_ F]. destruct Hfree. congruence.
Qed.

Lemma format_rings : rings (v_disk s') (v_buf s') (views s') (v_dev s') A U.
Proof using Hi Hp Hlk Hfree Hlt Hne Htook Hfm.
  pose proof Htook as (Hfr & _).
  destruct Hfr as (Eb & _ & Edv & E1 & E2 & E3 & E4 & E5 & _ & E7 & _). simpl in *.
  destruct (fm_rest Hfm) as (_ & _ & Edv2 & F2 & F3 & F4 & F5 & _).
  pose proof (format_views s p b w (i0, i1, i2) (views s') Hp format_view) as Hcase.
  destruct (iv_rings Hi) as [R1 R2 R3 R4 R5 R6 R7 R8 R9].
  assert (Hst : forall h, h ∈ A ++ dev_pending (v_dev s) ++ U ->
    info_status (v_disk s2) h = info_status (v_disk s) h).
  { intros h Hh. rewrite (fm_status Hfm), decide_False by (by apply format_head). by rewrite E7. }
  assert (Hpub : forall q b' w' j0 j1 j2, views s' q = Some (b', w', Some (j0, j1, j2, true)) ->
    views s q = Some (b', w', Some (j0, j1, j2, true)) /\ v_buf s' b' = v_buf s b' /\ j0 <> i0).
  { intros q b' w' j0 j1 j2 Hq. destruct (Hcase _ _ _ _ Hq) as [(_ & _ & _ & E)|[Hqp Hv]]; [done|].
    split; [done|]. split; [by eapply format_buf|]. intros ->.
    by eapply (format_other _ _ _ _ _ i0 Hv); left. }
  split; unfold s'; simpl; rewrite ?Edv2, ?Edv, ?F2, ?F3, ?F4, ?F5, ?E2, ?E3, ?E4, ?E5; try done.
  - rewrite (fm_ring Hfm), E1, E2. apply (window_insert _ _ _ _ R1).
    apply (rings_short s A U i0 Hi); [tauto|]. intros Hin. eapply (format_head i0); [|done].
    rewrite elem_of_app. by left.
  - intros h Hh. destruct (R4 h Hh) as (q & b' & w' & j1 & j2 & Hq). exists q, b', w', j1, j2.
    fold s'. rewrite format_view, decide_False; [done|]. intros ->. unfold views in Hq. by rewrite Hp in Hq.
  - intros h Hh. rewrite Hst; [by apply R5|]. rewrite !elem_of_app in *. tauto.
  - intros h Hh. rewrite Hst; [by apply R6|]. rewrite !elem_of_app in *. tauto.
  - intros q b' w' j0 j1 j2 Hq. destruct (Hcase _ _ _ _ Hq) as [(-> & -> & -> & E)|[Hqp Hv]].
    + simplify_eq. rewrite (fm_ring Hfm), E1, E2, fn_lookup_insert, (fm_status Hfm), (fm_buf Hfm).
      by rewrite !decide_True.
    + by destruct (no_formatted s A U q b' w' (j0, j1, j2) Hi Hlk).
  - intros q b' w' j0 j1 j2 Hq. destruct (Hpub _ _ _ _ _ _ Hq) as (Hv & Hb & _). unfold s' in Hb. simpl in Hb.
    rewrite Hb. by eapply R8.
  - intros q b' w' j0 j1 j2 Hq. destruct (Hpub _ _ _ _ _ _ Hq) as (Hv & Hb & Hj). unfold s' in Hb. simpl in Hb.
    rewrite Hb, (fm_status Hfm), decide_False, E7 by done. by eapply R9.
Qed.

Lemma format_good : vinv s' /\ astep (abs s) (abs s').
Proof using Hi Hp Hlk Hfree Hlt Hne Htook Hfm.
  pose proof Htook as (Hfr & Ht & _ & Hf).
  destruct Hfr as (Eb & Ein & Edv & _ & _ & _ & _ & _ & _ & E7 & _ & E9). simpl in *.
  destruct (fm_rest Hfm) as (Ht2 & Ein2 & Edv2 & _ & _ & _ & _ & F9).
  pose proof (no_intr s A U Hi Hlk) as Hint.
  assert (Hnob : forall b', vb_blockno (v_buf s2 b') = vb_blockno (v_buf s b') /\
                            vb_data (v_buf s2 b') = vb_data (v_buf s b')).
  { intros b'. rewrite (fm_buf Hfm), Eb. case_decide; subst; done. }
  split; [exists A, U; split|].
  - apply format_chains.
  - apply format_rings.
  - unfold s'. simpl. rewrite Ein2, Ein, F9, E9. rewrite Hint. split.
    + done.
    + done.
    + intros q q' b1 b2 w1 w2 idx idx'. fold s'. rewrite !format_view. repeat case_decide; subst; try done.
      * intros _ Hq. by destruct (no_formatted s A U _ _ _ _ Hi Hlk Hq).
      * intros Hq. by destruct (no_formatted s A U _ _ _ _ Hi Hlk Hq).
      * intros Hq. by destruct (no_formatted s A U _ _ _ _ Hi Hlk Hq).
    + intros _. right. exists p, b, w, (i0, i1, i2). fold s'. by rewrite format_view, decide_True.
  - destruct (iv_sleepers Hi) as [S1 S2 S3]. split; unfold s'; simpl.
    + intros q b' w'. rewrite insert_eq_if, Ht2, Ht. case_decide; [done|]. intros Hq.
      eapply Nat.le_lt_trans; [|by eapply S1]. apply nfree_mono. intros i.
      rewrite (fm_free Hfm), Hf. by case_decide.
    + intros q b' w' idx. rewrite insert_eq_if, Ht2, Ht. case_decide as E; [done|]. intros Hq.
      pose proof (format_buf q b' w' (Some (idx, true)) E) as Hb. unfold s', views in Hb. simpl in Hb.
      rewrite Hb by (by rewrite Hq). by eapply S2.
    + rewrite Edv2, Edv, Ein2, Ein. done.
  - unfold s'. simpl. rewrite Edv2, Edv. eapply contents_agree; [apply Hi|]. done.
  - apply astep_stutter; unfold s'; simpl; [|by rewrite Edv2, Edv|done].
    intros q. rewrite insert_eq_if, Ht2, Ht. case_decide; [subst; by rewrite Hp|].
    destruct (v_thread s q) as [| | | |b' w' [[j0 j1] j2]|b' w' [[j0 j1] j2]] eqn:Eq; simpl; try done;
      rewrite (fm_status Hfm), E7, decide_False; try done; intros ->;
      eapply (format_other q b' w' (i0, j1, j2) true i0); unfold views; rewrite ?Eq; simpl; tauto.
Qed.
End format.

Lemma good_try s p b w : vinv s -> v_thread s p = Try b w -> lock_free s ->
  good s (run (rw_try p b w) s).
Proof.
  intros Hi Hp Hlk. set (s0 := on_disk (set_lock true) s).
  assert (E0 : acquire dlockL s = Done tt s0).
  { unfold acquire, dlockL. simpl. unfold lock_free in Hlk. by rewrite Hlk. }
  destruct (alloc3_desc_spec s0) as [(i0 & i1 & i2 & s1 & E1 & Htk & L0 & L1 & L2 & N01 & N02 & N12 &
    F0 & F1 & F2)|(Hn & s1 & E1 & Hg)].
  - destruct (rw_format_spec b w i0 i1 i2 s1 N01 N02 N12) as (s2 & E2 & Hfm).
    destruct Hi as (A & U & Hi).
    destruct (format_good s s2 A U p b i0 i1 i2 w Hi Hp Hlk) with (s1 := s1) as [G1 G2]; try done.
    eapply good_run; [|split; [exact G1|exact G2]]. unfold rw_try.
    by rewrite (bind_done _ _ _ _ _ E0), (bind_done _ _ _ _ _ E1), (bind_done _ _ _ _ _ E2).
  - destruct (good_no_desc s p b w s1 Hi Hp Hlk Hn Hg) as [G1 G2].
    eapply good_run; [|split; [exact G1|exact G2]]. unfold rw_try.
    rewrite (bind_done _ _ _ _ _ E0), (bind_done _ _ _ _ _ E1). unfold bind, modify, release. simpl.
    destruct Hg as (Hfr & _). destruct Hfr as (_ & _ & _ & _ & _ & _ & _ & _ & _ & _ & _ & E9).
    simpl in E9. by rewrite E9.
Qed.

(** ** Publishing a chain *)

Lemma head_of s A U p b w i0 i1 i2 pub : inv_at s A U ->
  views s p = Some (b, w, Some (i0, i1, i2, pub)) -> i0 ∈ A ++ dev_pending (v_dev s) ++ U -> pub = true.
Proof.
  intros Hi Hp Hin. destruct (rg_head _ _ _ _ _ _ (iv_rings Hi) i0 Hin) as (q & b' & w' & j1 & j2 & Hq).
  assert (p = q) as <- by (eapply (cs_idx (iv_chains Hi) p q _ _ _ _ _ _ _ _ i0 Hp Hq); simpl; tauto).
  rewrite Hp in Hq. by simplify_eq.
Qed.

Lemma not_head s A U p b w i0 i1 i2 q b' w' j0 j1 j2 pub pub' : inv_at s A U ->
  views s p = Some (b, w, Some (i0, i1, i2, pub)) ->
  views s q = Some (b', w', Some (j0, j1, j2, pub')) -> q <> p -> j0 <> i0.
Proof.
  intros Hi Hp Hq Hne ->. destruct Hne. symmetry.
  eapply (cs_idx (iv_chains Hi) p q _ _ _ _ _ _ _ _ i0 Hp Hq); simpl; tauto.
Qed.

Lemma good_publish s p b w idx : vinv s -> v_thread s p = Formatted b w idx ->
  good s (run (rw_publish p b w idx) s).
Proof.
  intros (A & U & Hi) Ht. destruct idx as [[i0 i1] i2].
  assert (Hp : views s p = Some (b, w, Some (i0, i1, i2, false))) by (unfold views; by rewrite Ht).
  destruct (iv_rings Hi) as [R1 R2 R3 R4 R5 R6 R7 R8 R9].
  destruct (R7 _ _ _ _ _ _ Hp) as (Hring & Hst & Hdk).
  pose proof (lk_new (iv_locking Hi) _ _ _ _ Hp) as Hlk.
  assert (Hout : i0 ∉ A ++ dev_pending (v_dev s) ++ U).
  { intros Hin. by pose proof (head_of s A U p _ _ _ _ _ _ Hi Hp Hin). }
  assert (Hlt : (i0 < NUM)%nat) by apply (cs_ok (iv_chains Hi) _ _ _ _ _ _ _ Hp).
  set (s' := on_disk (set_lock false) (set_thread p (AsleepBuf b w (i0, i1, i2))
               (on_disk (fun d => set_avail_idx (u16 (avail_idx d + 1)) d) s))).
  apply (good_run _ _ s').
  { unfold rw_publish, rw_wait, dset, bind, modify, gets, release. simpl. rewrite Hdk. simpl.
    by rewrite Hlk. }
  assert (Hv : forall q, views s' q = if decide (q = p) then Some (b, w, Some (i0, i1, i2, true)) else views s q).
  { intros q. unfold s', views. simpl. rewrite insert_eq_if. by case_decide. }
  assert (Hcase : forall q b' w' j0 j1 j2 pub, views s' q = Some (b', w', Some (j0, j1, j2, pub)) ->
    exists pub0, views s q = Some (b', w', Some (j0, j1, j2, pub0)) /\ pub = true /\
      (q = p /\ j0 = i0 /\ b' = b \/ q <> p /\ pub0 = true /\ j0 <> i0)).
  { intros q b' w' j0 j1 j2 pub. rewrite Hv. case_decide as E.
    - intros; simplify_eq. exists false. split_and!; auto.
    - intros Hq. exists pub. assert (pub = true) as ->.
      { destruct pub; [done|]. destruct E. by eapply (lk_one (iv_locking Hi)). }
      split_and!; try done. right. split_and!; try done. by eapply not_head. }
  split; [exists (A ++ [i0]), U; split|].
  - apply (chains_agree (v_disk s) _ (v_buf s) _ (views s)); [apply Hi|..].
    + intros q b' w' [[j0 j1] j2] pub Hq. destruct (Hcase _ _ _ _ _ _ _ Hq) as (pub0 & Hq0 & _). eauto.
    + intros q b' w' j0 j1 j2 pub Hq Hok. by apply (chain_ok_agree (v_disk s) _ (v_buf s b')).
    + intros i Hi8 Hu. destruct (cs_owner (iv_chains Hi) i Hi8 Hu) as (q & b' & w' & jdx & pub & Hq & Hin).
      exists q, b', w', jdx. destruct (decide (q = p)) as [->|Hqp].
      * exists true. rewrite Hv, decide_True by done. rewrite Hp in Hq. by simplify_eq.
      * exists pub. by rewrite Hv, decide_False.
    + intros q q' b' w1 w2 c c'. rewrite !Hv. repeat case_decide; subst; try done.
      * intros E Hq'. simplify_eq. by eapply (cs_buf (iv_chains Hi)).
      * intros Hq E. simplify_eq. by eapply (cs_buf (iv_chains Hi)).
      * apply (cs_buf (iv_chains Hi)).
  - split; simpl; try done.
    + apply (window_push _ _ _ _ R1); [|done]. apply (rings_short s A U i0 Hi Hlt).
      rewrite elem_of_app in Hout. tauto.
    + rewrite <-app_assoc. simpl. rewrite <-Permutation_middle. by constructor.
    + intros h. rewrite <-app_assoc. simpl. rewrite <-Permutation_middle.
      intros [->|Hh]%elem_of_cons.
      * exists p, b, w, i1, i2. by rewrite Hv, decide_True.
      * destruct (R4 h Hh) as (q & b' & w' & j1 & j2 & Hq). exists q, b', w', j1, j2.
        rewrite Hv, decide_False; [done|]. intros ->. rewrite Hp in Hq. by simplify_eq.
    + intros h. rewrite <-app_assoc. simpl. rewrite <-Permutation_middle.
      intros [->|Hh]%elem_of_cons; [done|]. by apply R5.
    + intros q b' w' j0 j1 j2 Hq. by destruct (Hcase _ _ _ _ _ _ _ Hq) as (pub0 & _ & E & _).
    + intros q b' w' j0 j1 j2 Hq. rewrite <-app_assoc. simpl. rewrite <-Permutation_middle, elem_of_cons.
      destruct (Hcase _ _ _ _ _ _ _ Hq) as (pub0 & Hq0 & _ & [(-> & -> & ->)|(_ & -> & Hj)]).
      * rewrite Hdk. tauto.
      * rewrite (R8 _ _ _ _ _ _ Hq0). tauto.
    + intros q b' w' j0 j1 j2 Hq.
      destruct (Hcase _ _ _ _ _ _ _ Hq) as (pub0 & Hq0 & _ & [(-> & -> & ->)|(_ & -> & Hj)]).
      * congruence.
      * by eapply R9.
  - simpl. assert (Hint : v_intr s = false).
    { destruct (v_intr s) eqn:E; [|done]. by destruct (proj2 (lk_intr (iv_locking Hi) E) _ _ _ _ Hp). }
    rewrite Hint. split; try done.
    + intros q b' w' [[j0 j1] j2] Hq. by destruct (Hcase _ _ _ _ _ _ _ Hq) as (? & _ & E & _).
    + intros q q' b1 b2 w1 w2 [[j0 j1] j2] idx' Hq. by destruct (Hcase _ _ _ _ _ _ _ Hq) as (? & _ & E & _).
  - destruct (iv_sleepers Hi) as [S1 S2 S3]. split; simpl; [| |done].
    + intros q b' w'. rewrite insert_eq_if. case_decide; [done|]. apply S1.
    + intros q b' w' jdx. rewrite insert_eq_if. case_decide; [by intros [= <- <- <-]|]. apply S2.
  - apply Hi.
  - apply astep_stutter; simpl; try done. intros q. rewrite insert_eq_if. case_decide; [subst q|].
    + rewrite Ht. simpl. by destruct (Z.eqb_spec (info_status (v_disk s) i0) 0).
    + by destruct (v_thread s q) as [| | | |? ? [[]]|? ? [[]]].
Qed.

(** ** The end of a request *)

(** A process that finds the buffer still with the disk sleeps again. *)
Lemma good_again s p b w idx : vinv s -> v_thread s p = Waiting b w idx -> lock_free s ->
  vb_disk (v_buf s b) = true ->
  let s' := on_disk (set_lock false) (set_thread p (AsleepBuf b w idx) (on_disk (set_lock true) s)) in
  vinv s' /\ astep (abs s) (abs s').
Proof.
  intros (A & U & Hi) Ht Hlk Hdk s'.
  assert (Hv : forall q, views s' q = views s q).
  { intros q. unfold s', views. simpl. rewrite insert_eq_if. case_decide; [subst; by rewrite Ht|done]. }
  assert (Hsc : same_chains (views s) (views s')) by (intros q b' w' jdx pub; by rewrite Hv).
  split; [exists A, U; split|].
  - apply (chains_agree (v_disk s) _ (v_buf s) _ (views s)); [apply Hi|by apply same_chains_idx|..].
    + intros q b' w' i0 i1 i2 pub _ Hok. by apply (chain_ok_agree (v_disk s) _ (v_buf s b')).
    + intros i Hi8 Hf. destruct (cs_owner (iv_chains Hi) i Hi8 Hf) as (q & b' & w' & jdx & pub & Hq & Hin).
      exists q, b', w', jdx, pub. by rewrite Hv.
    + intros q q' b' w1 w2 c c'. rewrite !Hv. apply (cs_buf (iv_chains Hi)).
  - eapply rings_agree; [apply Hi|done|done|..].
    + intros q b' w' i0 i1 i2 Hq _. by rewrite Hv.
    + done.
  - pose proof (iv_locking Hi) as Hl. unfold lock_free in Hlk. rewrite Hlk in Hl.
    eapply locking_agree; [exact Hl|]. intros. by rewrite Hv.
  - destruct (iv_sleepers Hi) as [S1 S2 S3]. split; simpl; [| |done].
    + intros q b' w'. rewrite insert_eq_if. case_decide; [done|]. apply S1.
    + intros q b' w' jdx. rewrite insert_eq_if. case_decide; [by intros [= <- <- <-]|]. apply S2.
  - apply Hi.
  - apply astep_stutter; simpl; try done. intros q. rewrite insert_eq_if. case_decide.
    + subst q. rewrite Ht. by destruct idx as [[]].
    + by destruct (v_thread s q) as [| | | |? ? [[]]|? ? [[]]].
Qed.

(** The request is done: the descriptors are free again and the process returns. *)
Lemma good_end s p b w i0 i1 i2 s2 : vinv s -> v_thread s p = Waiting b w (i0, i1, i2) -> lock_free s ->
  vb_disk (v_buf s b) = false ->
  freed3 (i0, i1, i2) (on_disk (set_info_b i0 None) (on_disk (set_lock true) s)) s2 ->
  let s' := set_thread p Idle (on_disk (set_lock false) s2) in
  vinv s' /\ astep (abs s) (abs s').
Proof.
  intros (A & U & Hi) Ht Hlk Hdk (Hfr & Hth & Hd & Hf) s'.
  assert (Hp : views s p = Some (b, w, Some (i0, i1, i2, true))) by (unfold views; by rewrite Ht).
  destruct Hfr as (Eb & Ein & Edv & E1 & E2 & E3 & E4 & E5 & E6 & E7 & E8 & E9). simpl in *.
  assert (Hv : forall q, views s' q = if decide (q = p) then None else views s q).
  { intros q. unfold s', views. simpl. rewrite insert_eq_if, Hth. case_decide; [done|]. apply view_wake. }
  assert (Hq' : forall q b' w' c, views s' q = Some (b', w', c) -> q <> p /\ views s q = Some (b', w', c)).
  { intros q b' w' c. rewrite Hv. by case_decide. }
  assert (Hsc : same_chains (views s) (views s')) by (intros q b' w' jdx pub Hq; by eapply Hq').
  assert (Hst : info_status (v_disk s) i0 = 0) by (by eapply (rg_acked _ _ _ _ _ _ (iv_rings Hi))).
  split; [exists A, U; split|].
  - apply (chains_agree (v_disk s) _ (v_buf s) _ (views s)); [apply Hi|by apply same_chains_idx|..].
    + intros q b' w' j0 j1 j2 pub [Hqp Hq]%Hq' Hok.
      assert (Hdis : forall i, in_idx i (j0, j1, j2) -> ~ in_idx i (i0, i1, i2)).
      { intros i H1 H2. destruct Hqp. by eapply (cs_idx (iv_chains Hi)). }
      apply (chain_ok_agree (v_disk s) _ (v_buf s b')); simpl; rewrite ?E8, ?E6, ?Eb; try done.
      * intros i Hin. specialize (Hdis i Hin). rewrite Hd, Hf by done. by rewrite decide_False.
      * simpl. rewrite insert_eq_if, decide_False; [done|]. intros ->. eapply (Hdis i0); simpl; tauto.
    + intros i Hi8. simpl. rewrite Hf. case_decide as Hin; [done|]. intros Hu.
      destruct (cs_owner (iv_chains Hi) i Hi8 Hu) as (q & b' & w' & jdx & pub & Hq & Hj).
      exists q, b', w', jdx, pub. split; [|done]. rewrite Hv, decide_False; [done|].
      intros ->. rewrite Hp in Hq. by simplify_eq.
    + intros q q' b' w1 w2 c c' [_ Hq]%Hq' [_ Hq2]%Hq'. by eapply (cs_buf (iv_chains Hi)).
  - eapply rings_agree; [apply Hi| |done|..].
    + unfold same_rings. simpl. by rewrite Edv.
    + intros q b' w' j0 j1 j2 Hq Hin. rewrite Hv, decide_False; [done|]. intros ->.
      rewrite Hp in Hq. simplify_eq. apply (rg_disk _ _ _ _ _ _ (iv_rings Hi) _ _ _ _ _ _ Hp) in Hin. congruence.
    + simpl. by rewrite Eb.
  - pose proof (no_intr s A U Hi Hlk) as Hint. simpl. rewrite Ein, Hint. split; try done.
    + intros q b' w' jdx [_ Hq]%Hq'. by destruct (no_formatted s A U _ _ _ _ Hi Hlk Hq).
    + intros q q' b1 b2 w1 w2 jdx jdx' [_ Hq]%Hq'. by destruct (no_formatted s A U _ _ _ _ Hi Hlk Hq).
  - destruct (iv_sleepers Hi) as [S1 S2 S3]. split; simpl; rewrite ?Eb, ?Edv, ?Ein; [| |done].
    + intros q b' w'. rewrite insert_eq_if, Hth. case_decide; [done|]. by destruct (v_thread s q).
    + intros q b' w' jdx. rewrite insert_eq_if, Hth. case_decide; [done|].
      destruct (v_thread s q) eqn:Eq; simpl; try done. intros [= <- <- <-]. by eapply S2.
  - simpl. rewrite Eb, Edv. apply Hi.
  - apply (a_return _ _ p b w); try (intros ?; simpl; by rewrite ?Edv, ?Eb).
    + simpl. rewrite Ht. simpl. by rewrite Hst.
    + intros q. simpl. rewrite insert_eq_if, Hth. case_decide; [done|].
      destruct (v_thread s q) as [| | | |? ? [[]]|? ? [[]]]; simpl; by rewrite ?E7.
Qed.

Lemma good_finish s p b w idx : vinv s -> v_thread s p = Waiting b w idx -> lock_free s ->
  good s (run (rw_finish p b w idx) s).
Proof.
  intros Hi Ht Hlk. destruct idx as [[i0 i1] i2].
  assert (E0 : acquire dlockL s = Done tt (on_disk (set_lock true) s)).
  { unfold acquire, dlockL. simpl. unfold lock_free in Hlk. by rewrite Hlk. }
  destruct (vb_disk (v_buf s b)) eqn:Hdk.
  - eapply good_run; [|by apply good_again]. unfold rw_finish. rewrite (bind_done _ _ _ _ _ E0).
    unfold rw_wait, bind, gets, modify, release. simpl. by rewrite Hdk.
  - assert (Hok : exists x, chain_ok (v_disk s) x b w i0 i1 i2).
    { destruct Hi as (A & U & Hi). eexists. eapply (cs_ok (iv_chains Hi) p). unfold views. by rewrite Ht. }
    destruct Hok as [x Hok].
    destruct (free_chain_spec _ _ _ _ _ _ _ (on_disk (set_info_b i0 None) (on_disk (set_lock true) s)) Hok)
      as (s2 & E2 & Hfr); [done|done|].
    eapply good_run; [|by eapply good_end]. unfold rw_finish. rewrite (bind_done _ _ _ _ _ E0).
    unfold rw_wait. unfold bind at 1, gets. simpl. rewrite Hdk. unfold dset, modify, bind at 1. simpl.
    rewrite (bind_done _ _ _ _ _ E2). destruct Hfr as (Hfr & _).
    destruct Hfr as (_ & _ & _ & _ & _ & _ & _ & _ & _ & _ & _ & E9). simpl in E9.
    unfold bind, release. simpl. by rewrite E9.
Qed.

(** ** The interrupt handler *)

Lemma good_intr_begin s : vinv s -> lock_free s -> good s (run intr_begin s).
Proof.
  intros (A & U & Hi) Hlk.
  eapply (good_run _ _ (set_v_intr true (on_dev (dev_set_irq false) (on_disk (set_lock true) s)))).
  { unfold intr_begin, acquire, bind, modify. simpl. unfold lock_free in Hlk. by rewrite Hlk. }
  split; [exists A, U; split|].
  - destruct (iv_chains Hi) as [C1 C2 C3 C4]. split; try done.
    intros q b w i0 i1 i2 pub Hq. by apply (chain_ok_agree (v_disk s) _ (v_buf s b)); [eapply C1|..].
  - by eapply rings_agree; [apply Hi|..].
  - split; simpl; try done.
    + intros _. split; [done|]. intros q b w idx Hq. by apply (no_formatted s A U q b w idx Hi Hlk).
    + intros q q' b b' w w' idx idx' Hq. by destruct (no_formatted s A U q b w idx Hi Hlk).
    + by left.
  - destruct (iv_sleepers Hi) as [S1 S2 S3]. split; simpl; auto.
  - apply Hi.
  - by apply astep_stutter.
Qed.

Lemma good_intr_end s : vinv s -> v_intr s = true -> used_idx (v_disk s) = used_head (v_disk s) ->
  good s (run intr_round s).
Proof.
  intros (A & U & Hi) Hint Heq. destruct (lk_intr (iv_locking Hi) Hint) as [Hlk Hnf].
  assert (U = []) as -> by by apply (window_empty _ _ _ _ (rg_used _ _ _ _ _ _ (iv_rings Hi))).
  eapply (good_run _ _ (set_v_intr false (on_disk (set_lock false) s))).
  { unfold intr_round, dget, release, bind, modify, gets. simpl. rewrite Heq, Z.eqb_refl. simpl.
    by rewrite Hlk. }
  split; [exists A, []; split|].
  - destruct (iv_chains Hi) as [C1 C2 C3 C4]. split; try done.
    intros q b w i0 i1 i2 pub Hq. by apply (chain_ok_agree (v_disk s) _ (v_buf s b)); [eapply C1|..].
  - by eapply rings_agree; [apply Hi|..].
  - split; simpl; try done.
    + intros q b w idx Hq. by destruct (Hnf q b w idx).
    + intros q q' b b' w w' idx idx' Hq. by destruct (Hnf q b w idx).
  - destruct (iv_sleepers Hi) as [S1 S2 S3]. split; simpl; auto.
  - apply Hi.
  - by apply astep_stutter.
Qed.

Lemma good_intr_entry s : vinv s -> v_intr s = true -> used_idx (v_disk s) <> used_head (v_disk s) ->
  good s (run intr_round s).
Proof.
  intros (A & U & Hi) Hint Hneq.
  destruct (iv_rings Hi) as [R1 R2 R3 R4 R5 R6 R7 R8 R9].
  destruct U as [|h U].
  { destruct Hneq. by apply (window_empty _ _ _ _ R2). }
  destruct (window_pop _ _ _ _ _ R2) as [Hring R2'].
  destruct (R4 h) as (p & b & w & i1 & i2 & Hp); [rewrite !elem_of_app; right; right; by left|].
  pose proof (cs_ok (iv_chains Hi) _ _ _ _ _ _ _ Hp) as Hok.
  assert (Hst : info_status (v_disk s) h = 0) by (apply R6; by left).
  assert (Hnd : h ∉ A ++ dev_pending (v_dev s) ++ U).
  { rewrite app_assoc in R3. rewrite <-Permutation_middle, <-app_assoc in R3. by inversion R3. }
  assert (Hmem : forall x, x ∈ A ++ dev_pending (v_dev s) ++ h :: U <->
                           x = h \/ x ∈ A ++ dev_pending (v_dev s) ++ U).
  { intros x. rewrite !elem_of_app, elem_of_cons. tauto. }
  eexists. split.
  { unfold run, intr_round, dget, bind, gets. simpl. replace (_ =? _) with false by lia. simpl.
    rewrite Hring, Hst. simpl. rewrite (ch_info _ _ _ _ _ _ _ Hok). reflexivity. }
  set (s' := on_disk _ _).
  assert (Hv : forall q, views s' q = views s q).
  { intros q. unfold s', views. simpl. destruct (v_thread s q); simpl; try case_decide; done. }
  assert (Hbuf : forall b', v_buf s' b' = if decide (b' = b) then vb_set_disk false (v_buf s b) else v_buf s b')
    by (intros b'; simpl; apply insert_eq_if).
  assert (Hno : forall q b' w' c, views s q = Some (b', w', c) -> q <> p -> v_buf s' b' = v_buf s b').
  { intros q b' w' c Hq Hqp. rewrite Hbuf. case_decide; [|done]. subst b'. destruct Hqp.
    by eapply (cs_buf (iv_chains Hi)). }
  split; [exists A, U; split|].
  - apply (chains_agree (v_disk s) _ (v_buf s) _ (views s)); [apply Hi|..].
    + intros q b' w' idx pub. rewrite Hv. eauto.
    + intros q b' w' j0 j1 j2 pub _ Hc. apply (chain_ok_agree (v_disk s) _ (v_buf s b')); try done.
      rewrite Hbuf. by case_decide; subst.
    + intros i Hi8 Hf. destruct (cs_owner (iv_chains Hi) i Hi8 Hf) as (q & b' & w' & jdx & pub & Hq & Hin).
      exists q, b', w', jdx, pub. by rewrite Hv.
    + intros q q' b' w1 w2 c c'. rewrite !Hv. apply (cs_buf (iv_chains Hi)).
  - split; try done.
    + rewrite app_assoc in R3. rewrite <-Permutation_middle, <-app_assoc in R3. by inversion R3.
    + intros x Hx. destruct (R4 x) as (q & b' & w' & j1 & j2 & Hq); [by apply Hmem; right|].
      exists q, b', w', j1, j2. by rewrite Hv.
    + intros x Hx. apply R6. by right.
    + intros q b' w' j0 j1 j2. rewrite Hv. intros Hq. destruct (R7 _ _ _ _ _ _ Hq) as (T1 & T2 & T3).
      split_and!; try done. rewrite (Hno _ _ _ _ Hq); [done|]. intros ->. rewrite Hp in Hq. by simplify_eq.
    + intros q b' w' j0 j1 j2. rewrite Hv. intros Hq. destruct (decide (q = p)) as [->|Hqp].
      * rewrite Hp in Hq. simplify_eq. rewrite Hbuf, decide_True by done. done.
      * rewrite (Hno _ _ _ _ Hq Hqp), (R8 _ _ _ _ _ _ Hq), Hmem.
        pose proof (not_head _ _ _ _ _ _ _ _ _ _ _ _ _ _ _ _ _ Hi Hp Hq Hqp). tauto.
    + intros q b' w' j0 j1 j2. rewrite Hv. intros Hq. destruct (decide (q = p)) as [->|Hqp].
      * rewrite Hp in Hq. by simplify_eq.
      * rewrite (Hno _ _ _ _ Hq Hqp). by eapply R9.
  - eapply locking_agree; [apply Hi|]. intros. by rewrite Hv.
  - destruct (iv_sleepers Hi) as [S1 S2 S3]. split.
    + intros q b' w' Hq. apply (S1 q b' w'). simpl in Hq.
      destruct (v_thread s q); try done. by case_decide.
    + intros q b' w' jdx Hq. simpl in Hq. rewrite Hbuf.
      destruct (v_thread s q) eqn:Eq; try done. case_decide; [done|]. simplify_eq.
      rewrite decide_False by done. by eapply S2.
    + intros _. by right.
  - eapply contents_agree; [apply Hi|]. intros b'. rewrite Hbuf. by case_decide; subst.
  - apply astep_stutter; try done.
    + intros q. simpl. destruct (v_thread s q) as [| | | |? ? [[]]|? ? [[]]]; simpl; try case_decide; done.
    + intros b'. rewrite Hbuf. by case_decide; subst.
Qed.

(** ** The device *)

Lemma good_fetch s : vinv s -> dev_last (v_dev s) <> avail_idx (v_disk s) -> good s (Ok (dev_fetch s)).
Proof.
  intros (A & U & Hi) Hneq. destruct (iv_rings Hi) as [R1 R2 R3 R4 R5 R6 R7 R8 R9].
  destruct A as [|h A].
  { destruct Hneq. by apply (window_empty _ _ _ _ R1). }
  destruct (window_pop _ _ _ _ _ R1) as [Hring R1'].
  set (P := dev_pending (v_dev s)) in *.
  assert (Hperm : A ++ (h :: P) ++ U ≡ₚ (h :: A) ++ P ++ U) by (simpl; symmetry; apply Permutation_middle).
  eexists. split; [done|]. unfold dev_fetch. rewrite Hring. fold P.
  split; [exists A, U; split|]; try apply Hi.
  - split; simpl; try done; fold P; change (h :: P ++ U) with ((h :: P) ++ U);
      change (A ++ h :: P) with (A ++ (h :: P)).
    + by rewrite Hperm.
    + intros x. rewrite Hperm. apply R4.
    + intros x Hx. apply R5. rewrite !elem_of_app, !elem_of_cons in *. tauto.
    + intros q b w j0 j1 j2. rewrite Hperm. apply R8.
  - by destruct (iv_sleepers Hi).
  - by apply astep_stutter.
Qed.

Lemma read_two m sec : read_sectors m sec BSIZE = m sec ++ m (sec + 1).
Proof.
  unfold read_sectors. change (Z.to_nat (BSIZE / 512)) with 2%nat. simpl.
  by rewrite Z.add_0_r, app_nil_r.
Qed.

Lemma write_two m sec data n : length data = Z.to_nat BSIZE -> sec = 2 * n ->
  forall k, write_sectors m sec BSIZE data (2 * k) ++ write_sectors m sec BSIZE data (2 * k + 1) =
    if decide (k = n) then data else m (2 * k) ++ m (2 * k + 1).
Proof.
  intros Hl -> k. unfold write_sectors. change (BSIZE / 512) with 2. case_decide as E.
  - assert (k = n) as -> by lia. rewrite !decide_True by lia.
    replace ((2 * n - 2 * n) * 512) with 0 by lia. replace ((2 * n + 1 - 2 * n) * 512) with 512 by lia.
    unfold slice. simpl Z.to_nat. rewrite drop_0, (take_ge (drop _ data)) by (rewrite length_drop, Hl; done).
    apply take_drop.
  - rewrite !decide_False by lia. done.
Qed.

Lemma write_sectors_length m sec data k : length data = Z.to_nat BSIZE ->
  (forall k, length (m k) = 512%nat) -> length (write_sectors m sec BSIZE data k) = 512%nat.
Proof.
  intros Hl Hm. unfold write_sectors. change (BSIZE / 512) with 2. case_decide as E; [|done].
  unfold slice. rewrite length_take, length_drop, Hl. change (Z.to_nat BSIZE) with 1024%nat. lia.
Qed.

(** The device reads from the driver's chain the request that was meant. *)
Lemma dev_request_ok s x b w i0 i1 i2 : chain_ok (v_disk s) x b w i0 i1 i2 ->
  exists d1, dev_request s i0 =
    Some (Req (if w then VIRTIO_BLK_T_OUT else VIRTIO_BLK_T_IN) 0 (2 * vb_blockno x), d1, b, i0) /\
    d_len d1 = BSIZE /\ Z.testbit (d_flags d1) 1 = negb w.
Proof.
  intros [_ _ _ D0 D1 D2 Ho _]. exists (desc (v_disk s) i1). unfold dev_request.
  rewrite D0. cbn [d_addr d_next]. rewrite D1. cbn [d_addr d_next]. rewrite D2. cbn [d_addr d_next].
  rewrite Ho. by destruct w.
Qed.

(** What completing the request of [p] leaves. *)
Record completes (s s' : vstate) (b : nat) (w : bool) (h : nat) : Prop := {
  cp_disk : v_disk s' = set_used (slot (used_head (v_disk s))) h (u16 (used_head (v_disk s) + 1))
                          (set_info_status h 0 (v_disk s));
  cp_thread : v_thread s' = v_thread s;
  cp_intr : v_intr s' = v_intr s;
  cp_last : dev_last (v_dev s') = dev_last (v_dev s);
  cp_pending : dev_pending (v_dev s') = filter (.≠ h) (dev_pending (v_dev s));
  cp_irq : dev_irq (v_dev s') = true;
  cp_media : dev_media (v_dev s') =
    if w then write_sectors (dev_media (v_dev s)) (2 * vb_blockno (v_buf s b)) BSIZE (vb_data (v_buf s b))
    else dev_media (v_dev s);
  cp_buf b' : v_buf s' b' =
    if decide (b' = b) then
      (if w then v_buf s b
       else vb_set_data (read_sectors (dev_media (v_dev s)) (2 * vb_blockno (v_buf s b)) BSIZE) (v_buf s b))
    else v_buf s b';
}.

Lemma dev_complete_spec s b w i0 i1 i2 : chain_ok (v_disk s) (v_buf s b) b w i0 i1 i2 ->
  exists s', dev_complete i0 s = Some s' /\ completes s s' b w i0.
Proof.
  intros Hok. destruct (dev_request_ok _ _ _ _ _ _ _ Hok) as (d1 & E & El & Ef).
  unfold dev_complete. rewrite E. cbn [rq_type rq_sector]. rewrite El, Ef.
  destruct w; simpl; eexists; (split; [reflexivity|]); split; try done.
  - intros b'. simpl. by case_decide; subst.
  - intros b'. simpl. by rewrite insert_eq_if.
Qed.

Lemma filter_out (h : nat) (l : list nat) : NoDup l -> h ∈ l -> l ≡ₚ h :: filter (.≠ h) l.
Proof.
  intros Hd Hin. apply NoDup_Permutation; [done| |].
  - constructor; [|by apply NoDup_filter]. by intros [? _]%list_elem_of_filter.
  - intros x. rewrite elem_of_cons, list_elem_of_filter. destruct (decide (x = h)); [subst|]; tauto.
Qed.

Lemma completes_buf s s' b w h b' : completes s s' b w h ->
  vb_blockno (v_buf s' b') = vb_blockno (v_buf s b') /\ vb_disk (v_buf s' b') = vb_disk (v_buf s b').
Proof. intros Hc. rewrite (cp_buf _ _ _ _ _ Hc). case_decide; [subst; by destruct w|done]. Qed.

Section complete.
Context (s s' : vstate) (A U : list nat) (p b h i1 i2 : nat) (w : bool).
Hypothesis Hi : inv_at s A U.
Hypothesis Hp : views s p = Some (b, w, Some (h, i1, i2, true)).
Hypothesis Hin : h ∈ dev_pending (v_dev s).
Hypothesis Hcp : completes s s' b w h.

Let P' := dev_pending (v_dev s').

Lemma complete_views q : views s' q = views s q.
Proof using Hcp. unfold views. by rewrite (cp_thread _ _ _ _ _ Hcp). Qed.

Lemma complete_pending : dev_pending (v_dev s) ≡ₚ h :: P'.
Proof using Hi Hin Hcp.
  unfold P'. rewrite (cp_pending _ _ _ _ _ Hcp). apply filter_out; [|done].
  pose proof (rg_nodup _ _ _ _ _ _ (iv_rings Hi)) as Hd.
  by apply NoDup_app in Hd as (_ & _ & (? & _ & _)%NoDup_app).
Qed.

Lemma complete_perm : A ++ P' ++ U ++ [h] ≡ₚ A ++ dev_pending (v_dev s) ++ U.
Proof using Hi Hin Hcp.
  rewrite complete_pending. f_equiv. rewrite app_assoc, <-Permutation_cons_append. done.
Qed.

Lemma complete_todo x : x ∈ A ++ P' \/ x ∈ U -> x <> h.
Proof using Hi Hin Hcp.
  intros Hx ->. pose proof (rg_nodup _ _ _ _ _ _ (iv_rings Hi)) as Hd.
  rewrite complete_pending in Hd. simpl in Hd. rewrite <-Permutation_middle in Hd.
  inversion Hd as [|? ? Hn _]. destruct Hn. rewrite !elem_of_app in *. tauto.
Qed.

Lemma complete_status x : info_status (v_disk s') x = if decide (x = h) then 0 else info_status (v_disk s) x.
Proof using Hcp. rewrite (cp_disk _ _ _ _ _ Hcp). simpl. apply insert_eq_if. Qed.

Lemma complete_chains : chains (v_disk s') (v_buf s') (views s').
Proof using Hi Hcp.
  apply (chains_agree (v_disk s) _ (v_buf s) _ (views s)); [apply Hi|..].
  - intros q b' w' jdx pub. rewrite complete_views. eauto.
  - intros q b' w' j0 j1 j2 pub _ Hok. apply (chain_ok_agree (v_disk s) _ (v_buf s b'));
      rewrite ?(cp_disk _ _ _ _ _ Hcp); try done. by eapply completes_buf.
  - intros i Hi8. rewrite (cp_disk _ _ _ _ _ Hcp). intros Hf.
    destruct (cs_owner (iv_chains Hi) i Hi8 Hf) as (q & b' & w' & jdx & pub & Hq & Hj).
    exists q, b', w', jdx, pub. by rewrite complete_views.
  - intros q q' b' w1 w2 c c'. rewrite !complete_views. apply (cs_buf (iv_chains Hi)).
Qed.

Lemma complete_rings : rings (v_disk s') (v_buf s') (views s') (v_dev s') A (U ++ [h]).
Proof using Hi Hp Hin Hcp.
  destruct (iv_rings Hi) as [R1 R2 R3 R4 R5 R6 R7 R8 R9].
  assert (HnU : h ∉ U) by (intros Hx; by eapply (complete_todo h); [right|]).
  assert (Hlt : (h < NUM)%nat) by apply (cs_ok (iv_chains Hi) _ _ _ _ _ _ _ Hp).
  assert (Hdisk : forall b', vb_disk (v_buf s' b') = vb_disk (v_buf s b')) by (intros; by eapply completes_buf).
  split; fold P'.
  - rewrite (cp_disk _ _ _ _ _ Hcp), (cp_last _ _ _ _ _ Hcp). done.
  - rewrite (cp_disk _ _ _ _ _ Hcp). simpl.
    assert (HlU : (length U < NUM)%nat) by (by apply (rings_short s A U h Hi Hlt)).
    apply window_push; [by apply window_insert|done|]. by rewrite fn_lookup_insert.
  - by rewrite complete_perm.
  - intros x. rewrite complete_perm. intros Hx.
    destruct (R4 x Hx) as (q & b' & w' & j1 & j2 & Hq). exists q, b', w', j1, j2. by rewrite complete_views.
  - intros x Hx. rewrite complete_status, decide_False by (apply complete_todo; by left).
    apply R5. rewrite complete_pending. rewrite !elem_of_app, !elem_of_cons in *. tauto.
  - intros x. rewrite complete_status. case_decide; [done|]. rewrite elem_of_app, list_elem_of_singleton.
    intros [Hx|Hx]; [by apply R6|done].
  - intros q b' w' j0 j1 j2. rewrite complete_views, Hdisk, complete_status. intros Hq.
    destruct (R7 _ _ _ _ _ _ Hq) as (T1 & T2 & T3). rewrite (cp_disk _ _ _ _ _ Hcp). simpl.
    split_and!; try done. rewrite decide_False; [done|].
    eapply (not_head s A U p _ _ _ _ _ q); try done. intros ->. rewrite Hp in Hq. by simplify_eq.
  - intros q b' w' j0 j1 j2. rewrite complete_views, Hdisk, complete_perm. apply R8.
  - intros q b' w' j0 j1 j2. rewrite complete_views, Hdisk, complete_status. intros Hq Hf.
    case_decide; [done|]. by eapply R9.
Qed.

Lemma complete_good : vinv s' /\ astep (abs s) (abs s').
Proof using Hi Hp Hin Hcp.
  assert (Hreq : except p (AExecuted b w) (a_req (abs s)) (a_req (abs s'))).
  { intros q. simpl. rewrite (cp_thread _ _ _ _ _ Hcp).
    case_decide as Eq; [subst q|].
    - unfold views in Hp. destruct (v_thread s p); simplify_eq/=; by rewrite complete_status, decide_True.
    - destruct (v_thread s q) as [| | | |b' w' [[j0 j1] j2]|b' w' [[j0 j1] j2]] eqn:E; simpl; try done;
        rewrite complete_status, decide_False; try done;
        eapply (not_head s A U p _ _ _ _ _ q); try done; unfold views; by rewrite E. }
  assert (Hpend : a_req (abs s) p = APending b w).
  { simpl. assert (info_status (v_disk s) h <> 0) as Hst
      by (apply (rg_todo _ _ _ _ _ _ (iv_rings Hi)); rewrite elem_of_app; by right).
    unfold views in Hp. destruct (v_thread s p); simplify_eq/=; by destruct (Z.eqb_spec (info_status (v_disk s) h) 0). }
  destruct (iv_contents Hi) as [T1 T2 T3].
  split; [exists A, (U ++ [h]); split|].
  - apply complete_chains.
  - apply complete_rings.
  - pose proof (iv_locking Hi) as Hl. rewrite (cp_disk _ _ _ _ _ Hcp), (cp_intr _ _ _ _ _ Hcp). simpl.
    eapply locking_agree; [exact Hl|]. intros. by rewrite complete_views.
  - destruct (iv_sleepers Hi) as [S1 S2 S3].
    split; rewrite ?(cp_thread _ _ _ _ _ Hcp), ?(cp_disk _ _ _ _ _ Hcp).
    + apply S1.
    + intros q b' w' jdx Hq. rewrite (proj2 (completes_buf _ _ _ _ _ b' Hcp)). by eapply S2.
    + intros _. left. apply (cp_irq _ _ _ _ _ Hcp).
  - split.
    + intros b'. rewrite (proj1 (completes_buf _ _ _ _ _ b' Hcp)). done.
    + intros b'. rewrite (cp_buf _ _ _ _ _ Hcp). case_decide; [|done]. destruct w; [done|].
      simpl. rewrite read_two, length_app, !T3. done.
    + intros k. rewrite (cp_media _ _ _ _ _ Hcp). destruct w; [|done]. by apply write_sectors_length.
  - destruct w.
    + apply (a_write _ _ p b); try done.
      * intros n. simpl. rewrite (cp_media _ _ _ _ _ Hcp). by apply write_two.
      * intros b'. simpl. rewrite (cp_buf _ _ _ _ _ Hcp). by case_decide; subst.
    + apply (a_read _ _ p b); try done.
      * intros b'. simpl. rewrite (cp_buf _ _ _ _ _ Hcp). case_decide; [|done]. simpl.
        by rewrite read_two.
      * intros n. simpl. by rewrite (cp_media _ _ _ _ _ Hcp).
Qed.
End complete.

Lemma good_complete s h : vinv s -> h ∈ dev_pending (v_dev s) ->
  good s (match dev_complete h s with Some s' => Ok s' | None => Bad end).
Proof.
  intros (A & U & Hi) Hh.
  destruct (rg_head _ _ _ _ _ _ (iv_rings Hi) h) as (p & b & w & i1 & i2 & Hp).
  { rewrite !elem_of_app. tauto. }
  destruct (dev_complete_spec s b w h i1 i2) as (s' & E & Hcp).
  { by eapply (cs_ok (iv_chains Hi)). }
  rewrite E. exists s'. split; [done|]. by eapply complete_good.
Qed.

(** ** Every step *)

Lemma work_good s o : vinv s -> vwork s o -> good s o.
Proof.
  intros Hi Hs. destruct Hs; auto using good_try, good_publish,
    good_finish, good_intr_begin, good_fetch, good_complete.
  destruct (decide (used_idx (v_disk s) = used_head (v_disk s)));
    auto using good_intr_end, good_intr_entry.
Qed.

Lemma step_good s o : vinv s -> vstep s o -> good s o.
Proof. intros Hi Hs. destruct Hs; auto using good_call, good_client, work_good. Qed.

Lemma window_nil ring : window ring 0 0 [].
Proof. split_and!; try done. simpl. lia. Qed.

Lemma vinit_inv s : vinit s -> vinv s.
Proof.
  intros [Hf Ha Hu Hui Hlk Ht Hin Hla Hpe Hm Hb]. exists [], [].
  assert (Hv : forall q, views s q = None) by (intros q; unfold views; by rewrite Ht).
  split; split; try (intros *; rewrite ?Hv; done).
  - intros i Hi. by rewrite Hf.
  - rewrite Hla, Ha. apply window_nil.
  - rewrite Hui, Hu. apply window_nil.
  - rewrite Hpe. constructor.
  - rewrite Hpe. by intros h ?%not_elem_of_nil.
  - rewrite Hpe. by intros h ?%not_elem_of_nil.
  - by intros h ?%not_elem_of_nil.
  - by rewrite Hin.
  - by rewrite Hlk.
  - intros p b w. by rewrite Ht.
  - intros p b w idx. by rewrite Ht.
  - intros b. apply Hb.
  - intros b. apply Hb.
Qed.

Lemma reachable_vinv s0 s : vinit s0 -> rtc vnext s0 s -> vinv s.
Proof.
  intros H0%vinit_inv Hr. induction Hr as [|s1 s2 s3 Hs _ IH]; [done|].
  apply IH. destruct (step_good s1 (Ok s2) H0 Hs) as (s' & [= ->] & Hi & _). done.
Qed.

(** ** Deadlock *)

Lemma two_chains s A U : inv_at s A U -> (nfree (v_disk s) < 3)%nat ->
  exists p b w idx pub, views s p = Some (b, w, Some (idx, pub)).
Proof.
  intros Hi Hn.
  destruct (list_first (fun i => negb (free (v_disk s) i)) (seq 0 NUM)) as [(l1 & i & l2 & E & Hf & _)|Hall].
  - assert (i ∈ seq 0 NUM) as Hin by (rewrite E; apply elem_of_app; right; by left).
    apply elem_of_seq in Hin.
    destruct (cs_owner (iv_chains Hi) i) as (p & b & w & idx & pub & Hp & _); [lia| |eauto 10].
    by destruct (free (v_disk s) i).
  - exfalso. assert (nfree (v_disk s) = NUM) as E; [|unfold NUM in E; lia].
    unfold nfree. rewrite <-(length_seq NUM 0) at 2. f_equal.
    clear -Hall. induction (seq 0 NUM) as [|i l IH]; [done|]. rewrite filter_cons.
    specialize (Hall i) as Hf. rewrite decide_True.
    + rewrite IH; [done|]. intros x Hx. apply Hall. by right.
    + destruct (free (v_disk s) i); [done|]. discriminate Hf. by left.
Qed.

Lemma good_ok s o : vinv s -> vwork s o -> exists s', vwork s (Ok s').
Proof. intros Hi Hw. destruct (work_good s o Hi Hw) as (s' & -> & _). eauto. Qed.

(** A process with a chain can go on, or the device or the interrupt handler can. *)
Lemma chain_progress s A U p b w idx pub : inv_at s A U ->
  views s p = Some (b, w, Some (idx, pub)) -> exists s', vwork s (Ok s').
Proof.
  intros Hi Hp. assert (Hv : vinv s) by (exists A, U; done).
  destruct (vdisk_lock (v_disk s)) eqn:Hlk.
  { destruct (lk_held (iv_locking Hi) Hlk) as [Hint|(q & b' & w' & jdx & Hq)].
    - eapply good_ok; [done|]. by apply v_intr_round.
    - unfold views in Hq. destruct (v_thread s q) eqn:E; try done.
      eapply good_ok; [done|]. by eapply v_publish. }
  unfold views in Hp. destruct (v_thread s p) as [| | |b' w' jdx|b' w' jdx|b' w' jdx] eqn:E; simplify_eq/=.
  - eapply good_ok; [done|]. by eapply v_publish.
  - eapply good_ok; [done|]. by eapply v_finish.
  - destruct idx as [[i0 i1] i2].
    assert (Hd : vb_disk (v_buf s b) = true) by (by eapply (sl_buf _ _ (iv_sleepers Hi))).
    assert (Hp : views s p = Some (b, w, Some (i0, i1, i2, true))) by (unfold views; by rewrite E).
    apply (rg_disk _ _ _ _ _ _ (iv_rings Hi) _ _ _ _ _ _ Hp) in Hd.
    rewrite !elem_of_app in Hd. destruct Hd as [Hd|[Hd|Hd]].
    + eapply good_ok; [done|]. apply v_fetch. intros Eq.
      apply (window_empty _ _ _ _ (rg_avail _ _ _ _ _ _ (iv_rings Hi))) in Eq. subst A.
      by apply not_elem_of_nil in Hd.
    + eapply good_ok; [done|]. by eapply v_complete.
    + destruct (sl_irq _ _ (iv_sleepers Hi)) as [Hirq|Hint].
      { intros ->. by apply not_elem_of_nil in Hd. }
      * eapply good_ok; [done|]. apply v_intr_begin; try done. by eapply no_intr.
      * eapply good_ok; [done|]. by apply v_intr_round.
Qed.

(** ** The theorems *)

(** C3: the driver implements a disk.  Any number of processes read and write
    blocks through [virtio_disk_rw] at the same time, with the device and the
    interrupt handler running beside them: whatever happens is what a disk
    does that carries out each request in one step, between its call and its return;
    the kernel never panics, and every chain the device is given is a
    well-formed request. *)
Theorem virtio_refines_disk (s0 s : vstate) :
  vinit s0 -> rtc vnext s0 s ->
  rtc astep (abs s0) (abs s) /\ forall o, vstep s o -> o <> Bad.
Proof.
  intros H0 Hr. split.
  - apply vinit_inv in H0 as Hi. clear H0. induction Hr as [|s1 s2 s3 Hs _ IH]; [done|].
    destruct (step_good s1 (Ok s2) Hi Hs) as (s' & E & Hi' & Ha). simplify_eq.
    eapply rtc_l; [exact Ha|]. by apply IH.
  - intros o Ho. destruct (step_good s o (reachable_vinv s0 s H0 Hr) Ho) as (s' & -> & _). done.
Qed.


(** A machine after the boot, and a process that writes a buffer of sevens to block 9. *)
Definition demo0 : vstate :=
  VState
    (Disk (fun _ => Desc ANull 0 0 0) (fun _ => 0%nat) 0 (fun _ => 0%nat) 0 (fun _ => true) 0
       (fun _ => None) (fun _ => 0) (fun _ => Req 0 0 0) false)
    (fun _ => VBuf 9 (replicate 1024 7) false) (fun _ => Idle) false
    (Device (fun _ => replicate 512 0) 0 [] false).

Definition state_of (o : outcome_of) : vstate := match o with Ok s => s | Bad => demo0 end.

Definition demo1 : vstate := set_thread 4 (Try 2 true) demo0.
Definition demo2 : vstate := state_of (run (rw_try 4 2 true) demo1).
Definition demo3 : vstate := state_of (run (rw_publish 4 2 true (0, 1, 2)%nat) demo2).
Definition demo4 : vstate := dev_fetch demo3.
Definition demo5 : vstate := default demo0 (dev_complete 0 demo4).

Lemma demo_init : vinit demo0.
Proof. split; try done. Qed.

Lemma work_next s o s' : vwork s o -> o = Ok s' -> vnext s s'.
Proof. intros Hw ->. by apply v_work. Qed.

Lemma demo_steps : rtc vnext demo0 demo5.
Proof.
  eapply rtc_l; [apply (v_call _ 4%nat 2%nat true); done|].
  eapply (rtc_l _ demo1 demo2).
  { eapply work_next; [apply (v_try demo1 4%nat 2%nat true)|]; vm_compute; reflexivity. }
  eapply (rtc_l _ demo2 demo3).
  { eapply work_next; [apply (v_publish demo2 4%nat 2%nat true (0, 1, 2)%nat)|]; vm_compute; reflexivity. }
  eapply (rtc_l _ demo3 demo4).
  { eapply work_next; [apply (v_fetch demo3)|reflexivity]. vm_compute. discriminate. }
  eapply (rtc_l _ demo4 demo5); [|apply rtc_refl].
  eapply work_next; [apply (v_complete demo4 0%nat)|]; vm_compute; [by left|reflexivity].
Qed.

Lemma virtio_refines_disk_witness :
  rtc astep (abs demo0) (abs demo5) /\ a_media (abs demo0) 9 = replicate 1024 0 /\
  a_media (abs demo5) 9 = replicate 1024 7 /\ a_req (abs demo5) 4 = AExecuted 2 true.
Proof.
  split; [exact (proj1 (virtio_refines_disk demo0 demo5 demo_init demo_steps))|].
  split; [vm_compute; reflexivity|]. split; vm_compute; reflexivity.
Defined.


End VirtioSpec.
