(* ===== verification/VirtioInit.v ===== *)
(** * Bringing up the disk: virtio_disk_init of kernel/virtio_disk.c

    The registers of the device are memory mapped: a write is recorded, and
    what a read returns is up to the device, which knows the writes so far. *)

From S2P Require Import Prelude Params Memory Kalloc Virtio.
Import CString.

(** The registers of virtio.h. *)
Definition VIRTIO_MMIO_MAGIC_VALUE : Z := 0x000.
Definition VIRTIO_MMIO_VERSION : Z := 0x004.
Definition VIRTIO_MMIO_DEVICE_ID : Z := 0x008.
Definition VIRTIO_MMIO_VENDOR_ID : Z := 0x00c.
Definition VIRTIO_MMIO_DEVICE_FEATURES : Z := 0x010.
Definition VIRTIO_MMIO_DRIVER_FEATURES : Z := 0x020.
Definition VIRTIO_MMIO_QUEUE_SEL : Z := 0x030.
Definition VIRTIO_MMIO_QUEUE_NUM_MAX : Z := 0x034.
Definition VIRTIO_MMIO_QUEUE_NUM : Z := 0x038.
Definition VIRTIO_MMIO_QUEUE_READY : Z := 0x044.
Definition VIRTIO_MMIO_STATUS : Z := 0x070.
Definition VIRTIO_MMIO_QUEUE_DESC_LOW : Z := 0x080.
Definition VIRTIO_MMIO_QUEUE_DESC_HIGH : Z := 0x084.
Definition VIRTIO_MMIO_DRIVER_DESC_LOW : Z := 0x090.
Definition VIRTIO_MMIO_DRIVER_DESC_HIGH : Z := 0x094.
Definition VIRTIO_MMIO_DEVICE_DESC_LOW : Z := 0x0a0.
Definition VIRTIO_MMIO_DEVICE_DESC_HIGH : Z := 0x0a4.

Definition VIRTIO_CONFIG_S_ACKNOWLEDGE : Z := 1.
Definition VIRTIO_CONFIG_S_DRIVER : Z := 2.
Definition VIRTIO_CONFIG_S_DRIVER_OK : Z := 4.
Definition VIRTIO_CONFIG_S_FEATURES_OK : Z := 8.

(** RO, SCSI, CONFIG_WCE, MQ, ANY_LAYOUT, EVENT_IDX and INDIRECT_DESC. *)
Definition refused_features : list Z := [5; 7; 11; 12; 27; 29; 28].

Record istate := IState {
  i_mem : kmem;
  i_regs : list (Z * Z);      (* the register writes, oldest first *)
  i_desc : Z;
  i_avail : Z;
  i_used : Z;
  i_free : list bool;
  i_lock : bool;
}.

Definition i_memL : lens istate kmem :=
  Lens i_mem (fun m s => IState m (i_regs s) (i_desc s) (i_avail s) (i_used s) (i_free s) (i_lock s)).
Definition set_i_regs (r : list (Z * Z)) (s : istate) : istate :=
  IState (i_mem s) r (i_desc s) (i_avail s) (i_used s) (i_free s) (i_lock s).
Definition set_i_queue (d a u : Z) (s : istate) : istate :=
  IState (i_mem s) (i_regs s) d a u (i_free s) (i_lock s).
Definition set_i_free (f : list bool) (s : istate) : istate :=
  IState (i_mem s) (i_regs s) (i_desc s) (i_avail s) (i_used s) f (i_lock s).
Definition set_i_lock (l : bool) (s : istate) : istate :=
  IState (i_mem s) (i_regs s) (i_desc s) (i_avail s) (i_used s) (i_free s) l.

(** What the device returns from register [r] after the writes [w]. *)
Class VirtioRegs := mmio_read : list (Z * Z) -> Z -> Z.

Section init.
Context `{VirtioRegs}.

Definition readR (r : Z) : M istate Z := gets (fun s => mmio_read (i_regs s) r).
Definition writeR (r v : Z) : M istate unit :=
  modify (fun s => set_i_regs (i_regs s ++ [(r, u32 v)]) s).

(** [features &= ~(1 << b)] for every refused bit. *)
Definition clear_bits (features : Z) : Z :=
  foldl (fun f b => Z.land f (Z.lnot (Z.shiftl 1 b))) features refused_features.

Definition clear_page (p : Z) : M istate unit :=
  lift i_memL (modify (fun s => set_phys (memset (phys s) p 0 PGSIZE) s)).

Definition virtio_disk_init : M istate unit :=
  modify (set_i_lock false) ;;
  magic <- readR VIRTIO_MMIO_MAGIC_VALUE ;;
  version <- readR VIRTIO_MMIO_VERSION ;;
  device <- readR VIRTIO_MMIO_DEVICE_ID ;;
  vendor <- readR VIRTIO_MMIO_VENDOR_ID ;;
  panic_if (negb (magic =? 0x74726976) || negb (version =? 2) || negb (device =? 2) ||
            negb (vendor =? 0x554d4551)) "could not find virtio disk" ;;
  (* reset device *)
  writeR VIRTIO_MMIO_STATUS 0 ;;
  let status := Z.lor 0 VIRTIO_CONFIG_S_ACKNOWLEDGE in
  writeR VIRTIO_MMIO_STATUS status ;;
  let status := Z.lor status VIRTIO_CONFIG_S_DRIVER in
  writeR VIRTIO_MMIO_STATUS status ;;
  (* negotiate features *)
  features <- readR VIRTIO_MMIO_DEVICE_FEATURES ;;
  writeR VIRTIO_MMIO_DRIVER_FEATURES (clear_bits features) ;;
  let status := Z.lor status VIRTIO_CONFIG_S_FEATURES_OK in
  writeR VIRTIO_MMIO_STATUS status ;;
  status <- readR VIRTIO_MMIO_STATUS ;;
  panic_if (Z.land status VIRTIO_CONFIG_S_FEATURES_OK =? 0) "virtio disk FEATURES_OK unset" ;;
  (* initialize queue 0 *)
  writeR VIRTIO_MMIO_QUEUE_SEL 0 ;;
  ready <- readR VIRTIO_MMIO_QUEUE_READY ;;
  panic_if (negb (ready =? 0)) "virtio disk should not be ready" ;;
  max <- readR VIRTIO_MMIO_QUEUE_NUM_MAX ;;
  panic_if (max =? 0) "virtio disk has no queue 0" ;;
  panic_if (max <? Z.of_nat Virtio.NUM) "virtio disk max queue too short" ;;
  (* allocate and zero queue memory *)
  desc <- lift i_memL kalloc ;;
  avail <- lift i_memL kalloc ;;
  used <- lift i_memL kalloc ;;
  modify (set_i_queue desc avail used) ;;
  panic_if ((desc =? 0) || (avail =? 0) || (used =? 0)) "virtio disk kalloc" ;;
  clear_page desc ;;
  clear_page avail ;;
  clear_page used ;;
  writeR VIRTIO_MMIO_QUEUE_NUM (Z.of_nat Virtio.NUM) ;;
  writeR VIRTIO_MMIO_QUEUE_DESC_LOW desc ;;
  writeR VIRTIO_MMIO_QUEUE_DESC_HIGH (Z.shiftr desc 32) ;;
  writeR VIRTIO_MMIO_DRIVER_DESC_LOW avail ;;
  writeR VIRTIO_MMIO_DRIVER_DESC_HIGH (Z.shiftr avail 32) ;;
  writeR VIRTIO_MMIO_DEVICE_DESC_LOW used ;;
  writeR VIRTIO_MMIO_DEVICE_DESC_HIGH (Z.shiftr used 32) ;;
  (* queue is ready *)
  writeR VIRTIO_MMIO_QUEUE_READY 1 ;;
  (* all NUM descriptors start out unused *)
  iter (seq 0 Virtio.NUM) (fun i => modify (fun s => set_i_free (<[i := true]> (i_free s)) s)) ;;
  (* tell device we're completely ready *)
  writeR VIRTIO_MMIO_STATUS (Z.lor status VIRTIO_CONFIG_S_DRIVER_OK).

End init.

(** ** The handshake *)

Lemma clear_bits_spec f b : 0 <= b ->
  Z.testbit (clear_bits f) b = Z.testbit f b && negb (bool_decide (b ∈ refused_features)).
Proof.
  intros Hb. unfold clear_bits.
  assert (Hgen : forall l g, Forall (fun c => 0 <= c) l ->
    Z.testbit (foldl (fun f c => Z.land f (Z.lnot (Z.shiftl 1 c))) g l) b =
    Z.testbit g b && negb (bool_decide (b ∈ l))).
  { induction l as [|c l IH]; intros g Hl; cbn [foldl].
    - rewrite bool_decide_false by apply not_elem_of_nil. by rewrite andb_true_r.
    - apply Forall_cons in Hl as [Hc Hl]. rewrite IH by done.
      rewrite Z.land_spec, Z.lnot_spec by done. rewrite Z.shiftl_mul_pow2, Z.mul_1_l by done.
      rewrite Z.pow2_bits_eqb by done.
      destruct (Z.eqb_spec c b) as [->|Hne]; cbn [negb].
      + rewrite (bool_decide_true (b ∈ b :: l)) by (by left). by rewrite andb_false_r, andb_false_r.
      + rewrite andb_true_r. f_equal. f_equal. apply bool_decide_ext. rewrite elem_of_cons.
        split; [by right|]. by intros [->|]. }
  apply Hgen. by repeat constructor.
Qed.

(** The addresses of the queue, in two halves each. *)
Definition queue_writes (d a u : Z) : list (Z * Z) :=
  [(VIRTIO_MMIO_QUEUE_NUM, 8);
   (VIRTIO_MMIO_QUEUE_DESC_LOW, u32 d); (VIRTIO_MMIO_QUEUE_DESC_HIGH, u32 (Z.shiftr d 32));
   (VIRTIO_MMIO_DRIVER_DESC_LOW, u32 a); (VIRTIO_MMIO_DRIVER_DESC_HIGH, u32 (Z.shiftr a 32));
   (VIRTIO_MMIO_DEVICE_DESC_LOW, u32 u); (VIRTIO_MMIO_DEVICE_DESC_HIGH, u32 (Z.shiftr u 32));
   (VIRTIO_MMIO_QUEUE_READY, 1)].

Definition zero_page (m : mem) (p : Z) : Prop := forall x, p <= x < p + PGSIZE -> m x = 0.

Definition disk_found `{VirtioRegs} (w : list (Z * Z)) : Prop :=
  mmio_read w VIRTIO_MMIO_MAGIC_VALUE = 0x74726976 /\ mmio_read w VIRTIO_MMIO_VERSION = 2 /\
  mmio_read w VIRTIO_MMIO_DEVICE_ID = 2 /\ mmio_read w VIRTIO_MMIO_VENDOR_ID = 0x554d4551.

Section handshake.
Context `{VirtioRegs} (kend : Z).
Hypothesis kend_ok : KERNBASE <= kend <= PHYSTOP.

(** Clearing a page that is not free. *)
Lemma clear_inv m l p : kmem_inv kend m l -> page_ok kend p -> p ∉ l ->
  kmem_inv kend (set_phys (memset (phys m) p 0 PGSIZE) m) l.
Proof using.
  intros [Hlk Hl Hnd Hok] [Hp _] Hn.
  split; cbn [kmem_lock freelist phys set_phys]; [exact Hlk| |exact Hnd|].
  - eapply linked_frame; [done|exact Hp|done|apply same_outside_memset].
  - by apply mem_ok_memset.
Qed.

Lemma zero_page_memset m p q : p mod PGSIZE = 0 -> q mod PGSIZE = 0 ->
  p = q \/ zero_page m q -> zero_page (memset m p 0 PGSIZE) q.
Proof using.
  intros Hp Hq Hz x Hx. rewrite memset_spec by done. unfold in_range.
  destruct (decide (p = q)) as [->|Hne].
  - replace ((q <=? x) && (x <? q + PGSIZE)) with true by lia. done.
  - destruct Hz as [|Hz]; [done|]. pose proof (page_disjoint q p x Hq Hp ltac:(congruence) Hx).
    replace ((p <=? x) && (x <? p + PGSIZE)) with false by lia. by apply Hz.
Qed.

(** Three pages from the allocator, cleared. *)
Lemma wp_queue_pages (s : istate) d a u l (Q : unit -> istate -> Prop)
    (k : Z -> Z -> Z -> M istate unit) :
  kmem_inv kend (i_mem s) (d :: a :: u :: l) ->
  (forall m', kmem_inv kend m' l -> zero_page (phys m') d -> zero_page (phys m') a ->
     zero_page (phys m') u ->
     wp (k d a u) (set_i_queue d a u (update i_memL m' s)) Q) ->
  wp (desc <- lift i_memL kalloc ;;
      avail <- lift i_memL kalloc ;;
      used <- lift i_memL kalloc ;;
      modify (set_i_queue desc avail used) ;;
      panic_if ((desc =? 0) || (avail =? 0) || (used =? 0)) "virtio disk kalloc" ;;
      clear_page desc ;; clear_page avail ;; clear_page used ;;
      k desc avail used) s Q.
Proof using kend_ok.
  intros Hi Hk.
  wp_run. eapply (wp_kalloc kend); [done|exact Hi|]. cbv iota. intros m1 Hi1 Hd Nd _ _.
  wp_run. eapply (wp_kalloc kend); [done|exact Hi1|]. cbv iota. intros m2 Hi2 Ha Na _ _.
  wp_run. eapply (wp_kalloc kend); [done|exact Hi2|]. cbv iota. intros m3 Hi3 Hu Nu _ _.
  pose proof (page_ok_nonzero kend kend_ok _ Hd). pose proof (page_ok_nonzero kend kend_ok _ Ha).
  pose proof (page_ok_nonzero kend kend_ok _ Hu).
  apply not_elem_of_cons in Nd as [_ [_ Nd]%not_elem_of_cons].
  apply not_elem_of_cons in Na as [_ Na].
  wp_run. apply wp_panic_if; [lia|]. unfold clear_page. wp_run. cbn.
  set (m4 := set_phys (memset (phys m3) d 0 PGSIZE) m3).
  set (m5 := set_phys (memset (phys m4) a 0 PGSIZE) m4).
  apply (Hk (set_phys (memset (phys m5) u 0 PGSIZE) m5)).
  - apply clear_inv; [|done|done]. apply clear_inv; [|done|done]. by apply clear_inv.
  - do 3 (apply zero_page_memset; [apply Hu || apply Ha || apply Hd|apply Hd|]; (by left) || right).
  - do 2 (apply zero_page_memset; [apply Hu || apply Ha|apply Ha|]; (by left) || right).
  - apply zero_page_memset; [apply Hu|apply Hu|]. by left.
Qed.

Lemma free_all (f : list bool) : length f = Virtio.NUM ->
  foldl (fun f i => <[i := true]> f) f (seq 0 Virtio.NUM) = replicate Virtio.NUM true.
Proof using.
  intros Hl. unfold Virtio.NUM in *. do 8 (destruct f as [|? f]; [done|]). by destruct f.
Qed.

Lemma free_loop (l : list nat) (s : istate) :
  iter l (fun i => modify (fun s => set_i_free (<[i := true]> (i_free s)) s)) s =
  Done tt (set_i_free (foldl (fun f i => <[i := true]> f) (i_free s) l) s).
Proof using.
  revert s. induction l as [|i l IH]; intros s; cbn [iter foldl]; [by destruct s|].
  unfold bind, modify at 1. cbn [obind]. by rewrite IH.
Qed.
End handshake.

(** The writes before a read of register [r], by name. *)
Ltac regs_are r w :=
  match goal with
  | |- context [mmio_read ?v r] => replace v with w by (unfold w; by rewrite <-?app_assoc)
  end.

(** If the registers identify a disk and the device accepts the features, [virtio_disk_init]
    goes through the handshake of the virtio specification in its order, with the refused
    features cleared and the driver's final status last, hands the device three distinct cleared pages
    and leaves every descriptor free. *)
Theorem virtio_handshake `{VirtioRegs} (kend d a u : Z) (l : list Z) (s : istate) :
  KERNBASE <= kend <= PHYSTOP -> kmem_inv kend (i_mem s) (d :: a :: u :: l) ->
  length (i_free s) = Virtio.NUM -> disk_found (i_regs s) ->
  let w1 := i_regs s ++ [(VIRTIO_MMIO_STATUS, 0); (VIRTIO_MMIO_STATUS, 1); (VIRTIO_MMIO_STATUS, 3)] in
  let features := u32 (clear_bits (mmio_read w1 VIRTIO_MMIO_DEVICE_FEATURES)) in
  let w2 := w1 ++ [(VIRTIO_MMIO_DRIVER_FEATURES, features); (VIRTIO_MMIO_STATUS, 11)] in
  let status := mmio_read w2 VIRTIO_MMIO_STATUS in
  let w3 := w2 ++ [(VIRTIO_MMIO_QUEUE_SEL, 0)] in
  Z.land status VIRTIO_CONFIG_S_FEATURES_OK <> 0 ->
  mmio_read w3 VIRTIO_MMIO_QUEUE_READY = 0 -> 8 <= mmio_read w3 VIRTIO_MMIO_QUEUE_NUM_MAX ->
  exists s', virtio_disk_init s = Done tt s' /\
    i_regs s' = w3 ++ queue_writes d a u ++
      [(VIRTIO_MMIO_STATUS, u32 (Z.lor status VIRTIO_CONFIG_S_DRIVER_OK))] /\
    (forall b, b ∈ refused_features -> Z.testbit features b = false) /\
    i_free s' = replicate Virtio.NUM true /\ kmem_inv kend (i_mem s') l /\
    zero_page (phys (i_mem s')) d /\ zero_page (phys (i_mem s')) a /\ zero_page (phys (i_mem s')) u /\
    (i_desc s', i_avail s', i_used s') = (d, a, u) /\ i_lock s' = false.
Proof.
  intros Hk Hi Hf (F1 & F2 & F3 & F4) w1 features w2 status w3 Hst Hready Hmax.
  assert (Hw : wp virtio_disk_init s (fun _ s' =>
    i_regs s' = w3 ++ queue_writes d a u ++
      [(VIRTIO_MMIO_STATUS, u32 (Z.lor status VIRTIO_CONFIG_S_DRIVER_OK))] /\
    i_free s' = replicate Virtio.NUM true /\ kmem_inv kend (i_mem s') l /\
    zero_page (phys (i_mem s')) d /\ zero_page (phys (i_mem s')) a /\ zero_page (phys (i_mem s')) u /\
    (i_desc s', i_avail s', i_used s') = (d, a, u) /\ i_lock s' = false)).
  { unfold virtio_disk_init, readR, writeR. wp_run. cbn [i_regs set_i_lock].
    rewrite F1, F2, F3, F4. apply wp_panic_if; [done|]. wp_run.
    cbn [i_regs set_i_regs set_i_lock i_mem i_desc i_avail i_used i_free i_lock].
    regs_are VIRTIO_MMIO_DEVICE_FEATURES w1. regs_are VIRTIO_MMIO_STATUS w2.
    apply wp_panic_if; [by apply Z.eqb_neq|]. wp_run.
    cbn [i_regs set_i_regs]. regs_are VIRTIO_MMIO_QUEUE_READY w3. rewrite Hready. apply wp_panic_if; [done|]. wp_run.
    cbn [i_regs set_i_regs].
    apply wp_panic_if; [lia|]. wp_run. change (Z.of_nat Virtio.NUM) with 8. apply wp_panic_if; [lia|].
    apply (wp_queue_pages kend Hk _ d a u l); [exact Hi|]. intros m' Hi' Zd Za Zu. wp_run.
    eapply wp_done; [apply free_loop|]. apply wp_modify.
    cbn [i_regs set_i_regs set_i_lock set_i_free set_i_queue i_mem i_desc i_avail i_used i_free i_lock
         update i_memL].
    split; [unfold queue_writes; by rewrite <-!app_assoc|]. split; [exact (free_all (i_free s) Hf)|].
    split; [exact Hi'|]. split; [exact Zd|]. split; [exact Za|]. split; [exact Zu|]. by split. }
  destruct Hw as ([] & s' & E & HQ). exists s'. split; [exact E|].
  destruct HQ as (Q1 & Q2). split; [exact Q1|]. split; [|exact Q2].
  intros b Hb. assert (0 <= b < 32) as Hb0.
  { unfold refused_features in Hb. rewrite !elem_of_cons, elem_of_nil in Hb. lia. }
  unfold features, uwrap. rewrite Z.mod_pow2_bits_low by lia. rewrite clear_bits_spec by lia.
  rewrite bool_decide_true by done. apply andb_false_r.
Qed.
