(* ===== verification/User.v ===== *)
(** * User programs: system calls, user/ulib.c and user/printf.c

    A user program is a computation over what it sees of the kernel: its open
    files and what it has written.  The kernel promises little about [read]
    and [write]: a read returns some of the bytes that are left, at least one
    if there are any, and either may fail.  How many bytes each read
    returns and which calls fail is a parameter, so that the theorems hold for
    every behaviour of the kernel. *)

From S2P Require Import Prelude Params Block.

(** [struct stat] of kernel/stat.h, without the device and the links. *)
Record ustat := Stat { st_type : Z; st_ino : Z; st_size : Z }.

(** The system calls whose effect the caller does not see, but for the result. *)
Inductive ucall :=
| CKill (pid : Z)
| CLink (old new : list Z)
| CUnlink (path : list Z)
| CMkdir (path : list Z)
| CSleep (n : Z).

(** What the kernel does: the number of bytes beyond the first that the [k]-th [read]
    returns at most, [None] if it fails; whether the [k]-th [write] succeeds; the contents of the files, for those that can be opened,
    and their attributes; and the results of the other calls, after the calls so far. *)
Class UserEnv := {
  env_read : nat -> option nat;
  env_write : nat -> bool;
  env_file : list Z -> option (list Z);
  env_stat : list Z -> option ustat;
  env_call : list (ucall * Z) -> ucall -> Z;
}.

(** The bytes left in each open file, the writes so far, the number of reads and writes, the path
    each descriptor was opened with, and the other calls with their results. *)
Record ustate := UState {
  u_fds : gmap Z (list Z);
  u_out : list (Z * list Z);
  u_reads : nat;
  u_writes : nat;
  u_path : gmap Z (list Z);
  u_calls : list (ucall * Z);
}.

(** A computation over a state [S] that returns a value or stops with an [E]. *)
Abbreviation MU S E A := (M S (E + A)).

Definition uret {S E A} (a : A) : MU S E A := ret (inr a).
Definition ubind {S E A B} (m : MU S E A) (f : A -> MU S E B) : MU S E B :=
  r <- m ;; match r with inl c => ret (inl c) | inr a => f a end.

Declare Scope user_scope.
Delimit Scope user_scope with user.
Global Open Scope user_scope.

Notation "x <~ m ;; k" := (ubind m (fun x => k))
  (at level 100, m at next level, right associativity) : user_scope.
Notation "m ';!' k" := (ubind m (fun _ => k))
  (at level 100, right associativity) : user_scope.

Lemma ubind_ok {S E A B} (m : MU S E A) (f : A -> MU S E B) s a s' :
  m s = Done (inr a) s' -> ubind m f s = f a s'.
Proof. intros Em. unfold ubind. by rewrite (bind_done _ _ _ _ _ Em). Qed.

Lemma ubind_stop {S E A B} (m : MU S E A) (f : A -> MU S E B) s e s' :
  m s = Done (inl e) s' -> ubind m f s = Done (inl e) s'.
Proof. intros Em. unfold ubind. by rewrite (bind_done _ _ _ _ _ Em). Qed.

Lemma ubind_fuel {S E A B} (m : MU S E A) (f : A -> MU S E B) s : m s = OutOfFuel -> ubind m f s = OutOfFuel.
Proof. intros Em. unfold ubind, bind. by rewrite Em. Qed.

(** A loop whose body goes round again, leaves, or stops. *)
Definition uloop {S E X R} (fuel : nat) (body : X -> MU S E (X + R)) (x : X) : MU S E R :=
  loop fuel (fun x =>
    r <- body x ;;
    ret (match r with
         | inl c => inr (inl c)
         | inr (inl x') => inl x'
         | inr (inr r) => inr (inr r)
         end)) x.

Section uloop.
Context {S E X R : Type} (body : X -> MU S E (X + R)).

Lemma uloop_next n x s x' s' : body x s = Done (inr (inl x')) s' -> uloop (Datatypes.S n) body x s = uloop n body x' s'.
Proof using. intros Eb. unfold uloop. apply loop_next. by rewrite (bind_done _ _ _ _ _ Eb). Qed.

Lemma uloop_last n x s r s' : body x s = Done (inr (inr r)) s' -> uloop (Datatypes.S n) body x s = Done (inr r) s'.
Proof using. intros Eb. unfold uloop. apply loop_last. by rewrite (bind_done _ _ _ _ _ Eb). Qed.

Lemma uloop_stop n x s e s' : body x s = Done (inl e) s' -> uloop (Datatypes.S n) body x s = Done (inl e) s'.
Proof using. intros Eb. unfold uloop. apply loop_last. by rewrite (bind_done _ _ _ _ _ Eb). Qed.

Lemma uloop_fuel n x s : body x s = OutOfFuel -> uloop (Datatypes.S n) body x s = OutOfFuel.
Proof using. intros Eb. unfold uloop. simpl. unfold bind. by rewrite Eb. Qed.
End uloop.

Fixpoint uiter {S E A} (l : list A) (body : A -> MU S E unit) : MU S E unit :=
  match l with
  | [] => uret tt
  | a :: l' => body a ;! uiter l' body
  end.

(** ** Total correctness of a program that does not stop early *)

Definition uwp {S E A} (m : MU S E A) (s : S) (Q : A -> S -> Prop) : Prop :=
  wp m s (fun r s' => match r with inr a => Q a s' | inl _ => False end).

Section uwp.
Context {S E : Type}.

Lemma uwp_elim {A} (m : MU S E A) s Q : uwp m s Q -> exists a s', m s = Done (inr a) s' /\ Q a s'.
Proof using. intros ([e|a] & s' & Er & HQ); [done|]. by exists a, s'. Qed.

Lemma uwp_done {A} (m : MU S E A) s a s' (Q : A -> S -> Prop) : m s = Done (inr a) s' -> Q a s' -> uwp m s Q.
Proof using. intros Er HQ. by exists (inr a), s'. Qed.

Lemma uwp_ret {A} (a : A) s (Q : A -> S -> Prop) : Q a s -> uwp (uret (E := E) a) s Q.
Proof using. by apply uwp_done. Qed.

Lemma uwp_bind {A B} (m : MU S E A) (f : A -> MU S E B) s Q : uwp m s (fun a s' => uwp (f a) s' Q) -> uwp (ubind m f) s Q.
Proof using. intros (a & s' & Er & HQ)%uwp_elim. unfold uwp, wp in *. by rewrite (ubind_ok _ _ _ _ _ Er). Qed.

Lemma wp_ubind {A B} (m : MU S E A) (f : A -> MU S E B) s Q : uwp m s (fun a s' => wp (f a) s' Q) -> wp (ubind m f) s Q.
Proof using. intros (a & s' & Er & HQ)%uwp_elim. unfold wp in *. by rewrite (ubind_ok _ _ _ _ _ Er). Qed.

Lemma uwp_mono {A} (m : MU S E A) s (Q R : A -> S -> Prop) : uwp m s Q -> (forall a s', Q a s' -> R a s') -> uwp m s R.
Proof using. intros (a & s' & Er & HQ)%uwp_elim HR. eapply uwp_done; [done|by apply HR]. Qed.

(** A loop, with an invariant and a measure. *)
Lemma uwp_loop_state {X R} (Inv : X -> S -> Prop) (mu : X -> S -> nat) (body : X -> MU S E (X + R)) (Q : R -> S -> Prop) fuel x s :
  (forall x s, Inv x s -> uwp (body x) s (fun c s' =>
     match c with inl x' => Inv x' s' /\ (mu x' s' < mu x s)%nat | inr r => Q r s' end)) ->
  Inv x s -> (mu x s < fuel)%nat -> uwp (uloop fuel body x) s Q.
Proof using.
  intros Hb. revert x s. induction fuel as [|fuel IH]; intros x s Hx Hf; [lia|].
  destruct (uwp_elim _ _ _ (Hb x s Hx)) as ([x'|r] & s' & Er & HQ).
  - destruct HQ as [Hx' Hmu]. unfold uwp, wp. rewrite (uloop_next _ _ _ _ _ _ Er). apply IH; [done|lia].
  - eapply uwp_done; [by apply uloop_last|done].
Qed.

Lemma uwp_loop {X R} (Inv : X -> S -> Prop) (mu : X -> nat) (body : X -> MU S E (X + R)) (Q : R -> S -> Prop) fuel x s :
  (forall x s, Inv x s -> uwp (body x) s (fun c s' =>
     match c with inl x' => Inv x' s' /\ (mu x' < mu x)%nat | inr r => Q r s' end)) ->
  Inv x s -> (mu x < fuel)%nat -> uwp (uloop fuel body x) s Q.
Proof using. apply (uwp_loop_state Inv (fun x _ => mu x)). Qed.

Lemma uwp_iter {A} (P : list A -> S -> Prop) (l : list A) (body : A -> MU S E unit) s (Q : unit -> S -> Prop) :
  (forall l1 a l2 s, l = l1 ++ a :: l2 -> P l1 s -> uwp (body a) s (fun _ s' => P (l1 ++ [a]) s')) ->
  P [] s -> (forall s', P l s' -> Q tt s') -> uwp (uiter l body) s Q.
Proof using.
  intros Hb H0 HQ. assert (Hgen : forall l2 l1 s, l = l1 ++ l2 -> P l1 s -> uwp (uiter l2 body) s Q).
  { induction l2 as [|a l2 IH]; intros l1 s' El HP; simpl.
    - apply uwp_ret, HQ. by rewrite El, app_nil_r.
    - apply uwp_bind. eapply uwp_mono; [by eapply Hb|]. intros [] s2 HP2. apply (IH (l1 ++ [a])); [by rewrite <-app_assoc|done]. }
  by apply (Hgen l []).
Qed.
End uwp.

(** A program returns a value or has called [exit]. *)
Abbreviation U A := (MU ustate Z A).

Definition exit {A} (status : Z) : U A := ret (inl status).

Definition O_RDONLY : Z := 0.
Definition NOFILE : nat := 16.

Section syscalls.
Context `{UserEnv}.

Definition set_u_fds (f : gmap Z (list Z)) (s : ustate) : ustate :=
  UState f (u_out s) (u_reads s) (u_writes s) (u_path s) (u_calls s).
Definition set_u_path (p : gmap Z (list Z)) (s : ustate) : ustate :=
  UState (u_fds s) (u_out s) (u_reads s) (u_writes s) p (u_calls s).
Definition set_u_calls (c : list (ucall * Z)) (s : ustate) : ustate :=
  UState (u_fds s) (u_out s) (u_reads s) (u_writes s) (u_path s) c.

(** The lowest descriptor that is not open. *)
Definition free_fd (f : gmap Z (list Z)) : option Z :=
  Z.of_nat <$> list_find (fun i => f !! Z.of_nat i = None) (seq 0 NOFILE) ≫= (fun p => Some p.1).

Definition open (path : list Z) : U Z :=
  fun s =>
    match env_file (cstring path), free_fd (u_fds s) with
    | Some content, Some fd => Done (inr fd) (set_u_path (<[fd := cstring path]> (u_path s)) (set_u_fds (<[fd := content]> (u_fds s)) s))
    | _, _ => Done (inr (-1)) s
    end.

Definition close (fd : Z) : U unit :=
  modify (fun s => set_u_fds (delete fd (u_fds s)) s) ;; uret tt.

(** [read(fd, buf, n)]: the result and the bytes that arrived in [buf]. *)
Definition read (fd n : Z) : U (Z * list Z) :=
  fun s =>
    let s' := UState (u_fds s) (u_out s) (S (u_reads s)) (u_writes s) (u_path s) (u_calls s) in
    match u_fds s !! fd, env_read (u_reads s) with
    | Some inp, Some c =>
        let m := Nat.min (Z.to_nat n) (Nat.min (S c) (length inp)) in
        Done (inr (Z.of_nat m, take m inp)) (set_u_fds (<[fd := drop m inp]> (u_fds s)) s')
    | _, _ => Done (inr (-1, [])) s'
    end.

Definition write (fd : Z) (bs : list Z) : U Z :=
  fun s =>
    if env_write (u_writes s) then
      Done (inr (Z.of_nat (length bs)))
        (UState (u_fds s) (u_out s ++ [(fd, bs)]) (u_reads s) (S (u_writes s)) (u_path s) (u_calls s))
    else Done (inr (-1)) (UState (u_fds s) (u_out s) (u_reads s) (S (u_writes s)) (u_path s) (u_calls s)).

(** [fstat(fd, &st)]: the attributes, if the call succeeds. *)
Definition fstat (fd : Z) : U (option ustat) :=
  fun s =>
    Done (inr (match u_fds s !! fd, u_path s !! fd with
               | Some _, Some path => env_stat path
               | _, _ => None
               end)) s.

Definition other_call (c : ucall) : U Z :=
  fun s => let r := env_call (u_calls s) c in Done (inr r) (set_u_calls (u_calls s ++ [(c, r)]) s).

(** ** user/ulib.c

    A [char *] is the rest of the string it points to; a NUL or the end of
    the list ends it. *)

Fixpoint strlen (s : list Z) : Z :=
  match s with
  | [] => 0
  | c :: s' => if c =? 0 then 0 else 1 + strlen s'
  end.

Fixpoint strcmp (p q : list Z) : Z :=
  match p, q with
  | c :: p', d :: q' => if negb (c =? 0) && (c =? d) then strcmp p' q' else c - d
  | c :: _, [] => c
  | [], d :: _ => - d
  | [], [] => 0
  end.

(** The rest of [s] from the first [c] on. *)
Fixpoint strchr (s : list Z) (c : Z) : option (list Z) :=
  match s with
  | [] => None
  | d :: s' => if d =? 0 then None else if d =? c then Some s else strchr s' c
  end.

Fixpoint atoi_loop (n : Z) (s : list Z) : Z :=
  match s with
  | [] => n
  | c :: s' => if (48 <=? c) && (c <=? 57) then atoi_loop (i32 (n * 10 + c - 48)) s' else n
  end.

Definition atoi (s : list Z) : Z := atoi_loop 0 s.

Definition stat (n : list Z) : U (option ustat) :=
  fd <~ open n ;;
  if fd <? 0 then uret None
  else
    r <~ fstat fd ;;
    close fd ;!
    uret r.

Definition gets (max : Z) : U (list Z) :=
  uloop (S (Z.to_nat max)) (fun buf =>
    if Z.of_nat (length buf) + 1 <? max then
      r <~ read 0 1 ;;
      let '(cc, cs) := r in
      if cc <? 1 then uret (inr buf)
      else
        let c := hd 0 cs in
        if (c =? 10) || (c =? 13) then uret (inr (buf ++ [c]))
        else uret (inl (buf ++ [c]))
    else uret (inr buf)) [].

(** ** user/printf.c *)

Definition putc (fd c : Z) : U unit := _ <~ write fd [u8 c] ;; uret tt.

Definition digit (d : Z) : Z := if d <? 10 then 48 + d else 55 + d.

(** The digits, least significant first. *)
Fixpoint udigits (n : nat) (x base : Z) : list Z :=
  match n with
  | O => []
  | S n' => digit (x mod base) :: (if x / base =? 0 then [] else udigits n' (x / base) base)
  end.

(** [char buf[16]]: a 32-bit number has at most 32 digits in any base. *)
Definition printint (fd xx base : Z) (sgn : bool) : U unit :=
  let neg := sgn && (xx <? 0) in
  let x := if (neg : bool) then u32 (- xx) else u32 xx in
  uiter (rev (udigits 32 x base ++ (if (neg : bool) then [45] else []))) (putc fd).

Definition printptr (fd x : Z) : U unit :=
  putc fd 48 ;! putc fd 120 ;!
  uloop 17 (fun '(i, x) =>
    if i <? 16 then
      putc fd (digit (Z.shiftr x 60)) ;!
      uret (inl (i + 1, u64 (Z.shiftl x 4)))
    else uret (inr tt)) (0, x).

(** The variable arguments. *)
Inductive arg := AInt (x : Z) | AStr (s : option (list Z)).

Definition arg_int (ap : list arg) : Z := match ap with AInt x :: _ => x | _ => 0 end.
Definition arg_str (ap : list arg) : list Z :=
  match ap with AStr (Some s) :: _ => cstring s | _ => bytes_of_string "(null)" end.

(** [state] is true after a percent sign. *)
Fixpoint vprintf (fd : Z) (state : bool) (fmt : list Z) (ap : list arg) : U unit :=
  match fmt with
  | [] => uret tt
  | c :: fmt' =>
      if c =? 0 then uret tt
      else if negb state then
        if c =? 37 then vprintf fd true fmt' ap
        else putc fd c ;! vprintf fd false fmt' ap
      else if c =? 100 then
        printint fd (i32 (arg_int ap)) 10 true ;! vprintf fd false fmt' (tail ap)
      else if c =? 108 then
        printint fd (i32 (arg_int ap)) 10 false ;! vprintf fd false fmt' (tail ap)
      else if c =? 120 then
        printint fd (i32 (arg_int ap)) 16 false ;! vprintf fd false fmt' (tail ap)
      else if c =? 112 then
        printptr fd (u64 (arg_int ap)) ;! vprintf fd false fmt' (tail ap)
      else if c =? 115 then
        uiter (arg_str ap) (putc fd) ;! vprintf fd false fmt' (tail ap)
      else if c =? 99 then
        putc fd (arg_int ap) ;! vprintf fd false fmt' (tail ap)
      else if c =? 37 then putc fd c ;! vprintf fd false fmt' ap
      else putc fd 37 ;! putc fd c ;! vprintf fd false fmt' ap
  end.

Definition fprintf (fd : Z) (fmt : string) (ap : list arg) : U unit :=
  vprintf fd false (bytes_of_string fmt) ap.
Definition printf (fmt : string) (ap : list arg) : U unit := fprintf 1 fmt ap.


(** ** Formatted output always returns *)

Lemma putc_returns fd c s : uwp (putc fd c) s (fun _ _ => True).
Proof using. unfold putc, write. apply uwp_bind. destruct (env_write (u_writes s)) eqn:Ew; (eapply uwp_done; [by rewrite Ew|by apply uwp_ret]). Qed.

Lemma putcs_return fd l s : uwp (uiter l (putc fd)) s (fun _ _ => True).
Proof using. apply (uwp_iter (fun _ _ => True)); [|done|done]. intros. apply putc_returns. Qed.

Lemma printptr_returns fd x s : uwp (printptr fd x) s (fun _ _ => True).
Proof using.
  unfold printptr. do 2 (apply uwp_bind; eapply uwp_mono; [apply putc_returns|]; intros [] ? _).
  apply (uwp_loop (fun '(i, _) _ => 0 <= i <= 16) (fun '(i, _) => Z.to_nat (16 - i))); [|lia|lia].
  intros [i y] s2 Hi. destruct (Z.ltb_spec i 16) as [Hlt|Hge]; [|by apply uwp_ret].
  apply uwp_bind. eapply uwp_mono; [apply putc_returns|]. intros [] s3 _. apply uwp_ret. lia.
Qed.

Lemma vprintf_returns fd b fmt ap s : uwp (vprintf fd b fmt ap) s (fun _ _ => True).
Proof using.
  revert b ap s. induction fmt as [|c fmt IH]; intros b ap s; [by apply uwp_ret|]. cbn [vprintf].
  repeat case_match; first [by apply uwp_ret|apply IH|idtac];
    repeat (apply uwp_bind; eapply uwp_mono; [first [apply putc_returns|apply putcs_return|apply printptr_returns]|intros [] ? _]); apply IH.
Qed.

Lemma printf_returns fmt ap s : uwp (printf fmt ap) s (fun _ _ => True).
Proof using. apply vprintf_returns. Qed.
End syscalls.
