(* ===== verification/Grep.v ===== *)
(** * grep: user/grep.c

    The regular expression matcher of Kernighan and Pike, and the program
    that filters the lines of its input with it. *)

From S2P Require Import Prelude Params Block User.

(** ** The matcher *)

(** [matchstar(c, re, text)], where [here] is [matchhere(re, .)]. *)
Fixpoint matchstar (c : Z) (here : list Z -> bool) (text : list Z) : bool :=
  here text ||
  match text with
  | [] => false
  | t :: text' => ((t =? c) || (c =? 46)) && matchstar c here text'
  end.

Fixpoint matchhere (re text : list Z) : bool :=
  match re with
  | [] => true
  | c :: re1 =>
      let single :=
        match text with
        | [] => false
        | t :: text' => ((c =? 46) || (c =? t)) && matchhere re1 text'
        end in
      match re1 with
      | [] => if c =? 36 then bool_decide (text = []) else single
      | d :: re2 => if d =? 42 then matchstar c (matchhere re2) text else single
      end
  end.

(** The loop of [match] over the text, which also looks at its empty end. *)
Fixpoint match_from (re text : list Z) : bool :=
  matchhere re text ||
  match text with
  | [] => false
  | _ :: text' => match_from re text'
  end.

Definition match' (re text : list Z) : bool :=
  match re with
  | c :: re' => if c =? 94 then matchhere re' text else match_from re text
  | [] => match_from re text
  end.

(** ** grep *)

Section grep.
Context `{UserEnv}.

(** The loop over the complete lines in the buffer. *)
Definition grep_lines (pattern buf : list Z) : U (list Z) :=
  uloop (S (length buf)) (fun p =>
    match strchr p 10 with
    | None => uret (inr p)
    | Some q =>
        let line := take (length p - length q) p in
        (if match' pattern line then
           _ <~ write 1 (line ++ [10]) ;; uret tt
         else uret tt) ;!
        uret (inl (tail q))
    end) buf.

(** [buf] holds [m] bytes; every read adds at least one byte to what has been read. *)
Definition grep (fuel : nat) (pattern : list Z) (fd : Z) : U unit :=
  uloop fuel (fun buf =>
    r <~ read fd (1024 - Z.of_nat (length buf) - 1) ;;
    let '(n, bytes) := r in
    if n <=? 0 then uret (inr tt)
    else
      rest <~ grep_lines pattern (buf ++ bytes) ;;
      uret (inl rest)) [].

(** The rounds of [grep] that a file of this length can take. *)
Definition grep_fuel (fd : Z) : U nat :=
  fun s => Done (inr (S (length (default [] (u_fds s !! fd))))) s.

Definition grep_main (argv : list (list Z)) : U unit :=
  match argv with
  | [] | [_] =>
      fprintf 2 "usage: grep pattern [file ...]" [] ;! putc 2 10 ;! exit 1
  | [_; pattern] =>
      n <~ grep_fuel 0 ;; grep n pattern 0 ;! exit 0
  | _ :: pattern :: paths =>
      uiter paths (fun path =>
        fd <~ open path ;;
        if fd <? 0 then
          printf "grep: cannot open %s" [AStr (Some path)] ;! putc 1 10 ;! exit 1
        else
          n <~ grep_fuel fd ;; grep n pattern fd ;! close fd) ;!
      exit 0
  end.

End grep.

(** ** Regular expressions

    A pattern is a sequence of items, each a character or dot, alone or with
    a star; a caret at its start and a dollar at its end anchor it. *)

Inductive item := One (c : Z) | Many (c : Z).

Fixpoint parse (re : list Z) : list item * bool :=
  match re with
  | [] => ([], false)
  | c :: re1 =>
      match re1 with
      | [] => if c =? 36 then ([], true) else ([One c], false)
      | d :: re2 =>
          if d =? 42 then let r := parse re2 in (Many c :: r.1, r.2)
          else let r := parse re1 in (One c :: r.1, r.2)
      end
  end.

Definition accepts (c t : Z) : Prop := c = 46 \/ c = t.

(** The words of an item, and of a sequence of items. *)
Definition item_lang (i : item) (w : list Z) : Prop :=
  match i with
  | One c => exists t, w = [t] /\ accepts c t
  | Many c => Forall (accepts c) w
  end.

Fixpoint lang (its : list item) (w : list Z) : Prop :=
  match its with
  | [] => w = []
  | i :: its' => exists u v, w = u ++ v /\ item_lang i u /\ lang its' v
  end.

(** A word of the pattern at the start of the text, up to its end if the
    pattern ends in a dollar. *)
Definition matches_at_start (p : list item * bool) (text : list Z) : Prop :=
  exists mid post, text = mid ++ post /\ lang p.1 mid /\ (p.2 = true -> post = []).

Definition anchored (re : list Z) : bool * list Z :=
  match re with
  | c :: re' => if c =? 94 then (true, re') else (false, re)
  | [] => (false, re)
  end.

Lemma matchstar_spec c here text (P : list Z -> Prop) :
  (forall t, here t = true <-> P t) ->
  matchstar c here text = true <-> exists u v, text = u ++ v /\ Forall (accepts c) u /\ P v.
Proof.
  intros Hh. induction text as [|t text IH]; simpl.
  - rewrite orb_false_r, Hh. split.
    + intros. by exists [], [].
    + intros (u & v & E & _ & Hv). symmetry in E. by apply app_nil in E as [-> ->].
  - rewrite orb_true_iff, andb_true_iff, Hh, IH. split.
    + intros [HP|[Ht (u & v & -> & Hu & Hv)]]; [by exists [], (t :: text)|].
      exists (t :: u), v. split_and!; [done| |done]. constructor; [|done]. unfold accepts. lia.
    + intros (u & v & E & Hu & Hv). destruct u as [|t' u]; simplify_eq/=; [by left|].
      apply Forall_cons in Hu as [Ha Hu]. right. split; [unfold accepts in Ha; lia|eauto].
Qed.

Lemma single_spec c re text :
  (forall t, matchhere re t = true <-> matches_at_start (parse re) t) ->
  match text with
  | [] => false
  | t :: text' => ((c =? 46) || (c =? t)) && matchhere re text'
  end = true <-> matches_at_start (One c :: (parse re).1, (parse re).2) text.
Proof.
  intros IH. unfold matches_at_start. simpl. destruct text as [|t text]; simpl.
  - split; [done|]. intros (mid & post & E & (u & v & -> & (t & -> & _) & _) & _). done.
  - rewrite andb_true_iff, IH. split.
    + intros [Ha (mid & post & -> & Hl & Hp)]. exists (t :: mid), post. split; [done|]. split; [|done].
      exists [t], mid. split; [done|]. split; [|done]. exists t. split; [done|]. unfold accepts. lia.
    + intros (mid & post & E & (u & v & -> & (t' & -> & Ha) & Hl) & Hp). simplify_eq/=.
      split; [unfold accepts in Ha; lia|]. by exists v, post.
Qed.

Lemma matchhere_spec re text : matchhere re text = true <-> matches_at_start (parse re) text.
Proof.
  remember (length re) as n eqn:En. revert re En text.
  induction (lt_wf n) as [n _ IH]. intros re -> text.
  destruct re as [|c [|d re]]; cbn [matchhere parse].
  - unfold matches_at_start. simpl. split; [|done]. intros _. by exists [], text.
  - destruct (Z.eqb_spec c 36) as [->|Hc].
    + unfold matches_at_start. simpl. rewrite bool_decide_eq_true. split.
      * intros ->. by exists [], [].
      * intros (mid & post & -> & -> & Hp). by rewrite Hp.
    + apply (single_spec c [] text). intros t. apply (IH 0%nat); simpl; [lia|done].
  - destruct (Z.eqb_spec d 42) as [->|Hd].
    + rewrite (matchstar_spec _ _ _ (matches_at_start (parse re))).
      2:{ intros t. apply (IH (length re)); simpl; [lia|done]. }
      unfold matches_at_start. simpl. split.
      * intros (u & v & -> & Hu & mid & post & -> & Hl & Hp). exists (u ++ mid), post.
        split; [by rewrite app_assoc|]. eauto 10.
      * intros (mid & post & -> & (u & v & -> & Hu & Hl) & Hp). exists u, (v ++ post).
        split; [by rewrite app_assoc|]. eauto 10.
    + apply (single_spec c (d :: re) text). intros t. apply (IH (S (length re))); simpl; [lia|done].
Qed.

Lemma match_from_spec re text :
  match_from re text = true <-> exists pre rest, text = pre ++ rest /\ matches_at_start (parse re) rest.
Proof.
  induction text as [|t text IH]; simpl; rewrite orb_true_iff, matchhere_spec.
  - split.
    + intros [Hm|]; [by exists [], []|done].
    + intros (pre & rest & E & Hm). symmetry in E. apply app_nil in E as [-> ->]. by left.
  - rewrite IH. split.
    + intros [Hm|(pre & rest & -> & Hm)]; [by exists [], (t :: text)|by exists (t :: pre), rest].
    + intros (pre & rest & E & Hm). destruct pre as [|t' pre]; simplify_eq/=; [by left|]. eauto.
Qed.

(** C19: the matcher decides its regular expressions: [match'] accepts a text exactly if
    some part of it, at the start if the pattern starts with a caret and at the end if it
    ends with a dollar, is a word of the pattern's language. *)
Theorem match_correct (re text : list Z) :
  match' re text = true <->
  exists pre mid post, text = pre ++ mid ++ post /\
    lang (parse (anchored re).2).1 mid /\
    ((anchored re).1 = true -> pre = []) /\ ((parse (anchored re).2).2 = true -> post = []).
Proof.
  assert (Hfree : match_from re text = true <-> exists pre mid post, text = pre ++ mid ++ post /\
    lang (parse re).1 mid /\ (false = true -> pre = []) /\ ((parse re).2 = true -> post = [])).
  { rewrite match_from_spec. split.
    - intros (pre & rest & -> & mid & post & -> & Hl & Hp). by exists pre, mid, post.
    - intros (pre & mid & post & -> & Hl & _ & Hp). exists pre, (mid ++ post). split; [done|].
      by exists mid, post. }
  destruct re as [|c re]; [exact Hfree|]. cbn [match' anchored]. destruct (Z.eqb_spec c 94) as [->|Hc];
    [|exact Hfree]. rewrite matchhere_spec. split.
  - intros (mid & post & -> & Hl & Hp). by exists [], mid, post.
  - intros (pre & mid & post & -> & Hl & Hpre & Hp). rewrite (Hpre eq_refl). by exists mid, post.
Qed.

(** ** The lines of a file *)

(** The complete lines, without their newlines, and what follows the last of them. *)
Fixpoint lines_of (inp : list Z) : list (list Z) * list Z :=
  match inp with
  | [] => ([], [])
  | c :: inp' =>
      let r := lines_of inp' in
      if c =? 10 then ([] :: r.1, r.2)
      else match r.1 with
           | [] => ([], c :: r.2)
           | l :: ls => ((c :: l) :: ls, r.2)
           end
  end.

Lemma lines_of_none a : 10 ∉ a -> lines_of a = ([], a).
Proof.
  induction a as [|c a IH]; [done|]. rewrite not_elem_of_cons. intros [Hc Ha]. simpl.
  rewrite IH by done. by replace (c =? 10) with false by lia.
Qed.

Lemma lines_of_cons a b : 10 ∉ a -> lines_of (a ++ 10 :: b) = (a :: (lines_of b).1, (lines_of b).2).
Proof.
  induction a as [|c a IH]; [done|]. rewrite not_elem_of_cons. intros [Hc Ha]. simpl.
  rewrite IH by done. by replace (c =? 10) with false by lia.
Qed.

(** Any input is a first line and the rest, or has no complete line. *)
Lemma first_line inp : (exists a b, inp = a ++ 10 :: b /\ 10 ∉ a) \/ 10 ∉ inp.
Proof.
  destruct (list_first (fun c => c =? 10) inp) as [(a & c & b & -> & Hc & Ha)|Hn].
  - left. exists a, b. apply Z.eqb_eq in Hc as ->. split; [done|]. intros Hin. by specialize (Ha _ Hin).
  - right. intros Hin. by specialize (Hn _ Hin).
Qed.

Lemma strchr_found a b : Forall (fun c => c <> 0) a -> 10 ∉ a ->
  strchr (a ++ 10 :: b) 10 = Some (10 :: b).
Proof.
  induction a as [|c a IH]; [done|]. intros [Hc Ha]%Forall_cons Hn.
  apply not_elem_of_cons in Hn as [Hne Hn]. simpl. rewrite IH by done.
  by replace (c =? 0) with false by lia; replace (c =? 10) with false by lia.
Qed.

Lemma strchr_none a : Forall (fun c => c <> 0) a -> 10 ∉ a -> strchr a 10 = None.
Proof.
  induction a as [|c a IH]; [done|]. intros [Hc Ha]%Forall_cons Hn.
  apply not_elem_of_cons in Hn as [Hne Hn]. simpl. rewrite IH by done.
  by replace (c =? 0) with false by lia; replace (c =? 10) with false by lia.
Qed.

Section grep_proofs.
Context `{UserEnv} (pattern : list Z).
Hypothesis reads_ok : forall k, env_read k <> None.
Hypothesis writes_ok : forall k, env_write k = true.

(** What [grep] is to print for some input. *)
Definition selected (inp : list Z) : list (Z * list Z) :=
  map (fun l => (1, l ++ [10])) (filter (fun l => match' pattern l = true) (lines_of inp).1).

(** The process has written [o], and nothing else has changed but the count of writes. *)
Definition wrote (o : list (Z * list Z)) (s s' : ustate) : Prop :=
  u_out s' = u_out s ++ o /\ u_fds s' = u_fds s /\ u_reads s' = u_reads s.

Lemma wrote_trans o1 o2 s1 s2 s3 : wrote o1 s1 s2 -> wrote o2 s2 s3 -> wrote (o1 ++ o2) s1 s3.
Proof using.
  intros (E1 & F1 & G1) (E2 & F2 & G2). split_and!; [|congruence..].
  by rewrite E2, E1, app_assoc.
Qed.

Lemma wrote_nil s : wrote [] s s.
Proof using. split_and!; try done. by rewrite app_nil_r. Qed.

Lemma write_wrote fd bs s : exists s', write fd bs s = Done (inr (Z.of_nat (length bs))) s' /\
  wrote [(fd, bs)] s s'.
Proof using writes_ok.
  unfold write. rewrite writes_ok. eexists. split; [done|]. by split_and!.
Qed.

Lemma selected_cons a b : 10 ∉ a ->
  selected (a ++ 10 :: b) = (if match' pattern a then [(1, a ++ [10])] else []) ++ selected b.
Proof using.
  intros Ha. unfold selected. rewrite lines_of_cons by done. simpl. rewrite filter_cons.
  destruct (match' pattern a) eqn:E.
  - by rewrite decide_True.
  - by rewrite decide_False.
Qed.

Lemma selected_none a : 10 ∉ a -> selected a = [].
Proof using. intros Ha. unfold selected. by rewrite lines_of_none. Qed.

(** The buffer's complete lines are printed as they should be, the rest stays. *)
Lemma wp_grep_lines buf s : Forall (fun c => c <> 0) buf ->
  wp (grep_lines pattern buf) s (fun r s' =>
    r = inr (lines_of buf).2 /\ wrote (selected buf) s s').
Proof using writes_ok.
  intros Hz. unfold grep_lines, uloop.
  eapply (wp_loop (fun p s1 => Forall (fun c => c <> 0) p /\ exists o,
    wrote o s s1 /\ selected buf = o ++ selected p /\ (lines_of buf).2 = (lines_of p).2) (fun p => length p)).
  - intros p s1 (Hp & o & Ho & Es & El). destruct (first_line p) as [(a & b & -> & Ha)|Hn].
    + apply Forall_app in Hp as [Hpa [_ Hpb]%Forall_cons]. rewrite strchr_found by done.
      apply wp_bind. rewrite (selected_cons a b Ha) in Es.
      rewrite lines_of_cons in El by done. simpl in El.
      replace (take _ (a ++ 10 :: b)) with a by
        (rewrite length_app, Nat.add_sub, take_app_length; done).
      destruct (match' pattern a) eqn:Em.
      * destruct (write_wrote 1 (a ++ [10]) s1) as (s2 & E2 & W2).
        eapply wp_done.
        { erewrite ubind_ok; [reflexivity|]. by rewrite (ubind_ok _ _ _ _ _ E2). }
        apply wp_ret. simpl. split; [|rewrite length_app; simpl; lia]. split; [done|].
        exists (o ++ [(1, a ++ [10])]). split_and!; [by eapply wrote_trans| |done].
        by rewrite Es, <-app_assoc.
      * eapply wp_done; [reflexivity|]. apply wp_ret. simpl.
        split; [|rewrite length_app; simpl; lia]. split; [done|]. by exists o.
    + rewrite strchr_none by done. unfold uret. wp_run.
      rewrite (selected_none p Hn), app_nil_r in Es. rewrite (lines_of_none p Hn) in El.
      split; [by rewrite El|]. by rewrite Es.
  - split; [done|]. exists []. split_and!; [apply wrote_nil|done|done].
  - lia.
Qed.

(** Complete lines that fit into the buffer. *)
Definition short_lines (inp : list Z) : Prop :=
  Forall (fun l => Z.of_nat (length l) <= 1022) (lines_of inp).1.

Lemma lines_rest_no_newline buf : 10 ∉ (lines_of buf).2.
Proof using.
  induction buf as [|c buf IH]; [by apply not_elem_of_nil|]. simpl.
  destruct (Z.eqb_spec c 10); [done|]. destruct (lines_of buf).1; simpl; [|done].
  rewrite not_elem_of_cons. split; [congruence|done].
Qed.

(** More input after a buffer: its lines are those of the buffer and those
    of what the buffer leaves followed by the input. *)
Lemma lines_of_app buf more :
  (lines_of (buf ++ more)).1 = (lines_of buf).1 ++ (lines_of ((lines_of buf).2 ++ more)).1 /\
  (lines_of (buf ++ more)).2 = (lines_of ((lines_of buf).2 ++ more)).2.
Proof using.
  remember (length buf) as n eqn:En. revert buf En. induction (lt_wf n) as [n _ IH]. intros buf ->.
  destruct (first_line buf) as [(a & b & -> & Ha)|Hn].
  - rewrite <-app_assoc. simpl. rewrite !lines_of_cons by done. simpl.
    destruct (IH (length b)) with (buf := b) as [E1 E2]; [rewrite length_app; simpl; lia|done|].
    split; [by rewrite E1|done].
  - rewrite (lines_of_none buf) by done. done.
Qed.

Lemma selected_app buf more :
  selected (buf ++ more) = selected buf ++ selected ((lines_of buf).2 ++ more).
Proof using.
  unfold selected. rewrite (proj1 (lines_of_app buf more)). by rewrite filter_app, map_app.
Qed.

Lemma lines_rest_suffix buf : exists pre, buf = pre ++ (lines_of buf).2.
Proof using.
  remember (length buf) as n eqn:En. revert buf En. induction (lt_wf n) as [n _ IH]. intros buf ->.
  destruct (first_line buf) as [(a & b & -> & Ha)|Hn].
  - destruct (IH (length b)) with (buf := b) as [pre E]; [rewrite length_app; simpl; lia|done|].
    exists (a ++ 10 :: pre). rewrite lines_of_cons by done. simpl. rewrite <-app_assoc. simpl. by rewrite <-E.
  - exists []. by rewrite lines_of_none.
Qed.

(** A full buffer without a newline is followed by no complete line. *)
Lemma full_buffer buf rest : 10 ∉ buf -> length buf = 1023%nat -> short_lines (buf ++ rest) ->
  selected (buf ++ rest) = [].
Proof using.
  intros Hb Hl Hs. destruct (first_line (buf ++ rest)) as [(a & b & E & Ha)|Hn]; [|by apply selected_none].
  unfold short_lines in Hs. rewrite E, lines_of_cons in Hs by done. apply Forall_cons in Hs as [Hs _].
  destruct (decide (length buf <= length a)%nat) as [|Hlt]; [lia|]. exfalso. apply Hb.
  assert ((buf ++ rest) !! length a = Some 10) as Hx by (rewrite E; by rewrite list_lookup_middle).
  rewrite lookup_app_l in Hx by lia. by eapply list_elem_of_lookup_2.
Qed.

(** The invariant of the outer loop. *)
Definition grep_inv (fd : Z) (inp : list Z) (s : ustate) (buf : list Z) (s1 : ustate) : Prop :=
  exists rest o, u_fds s1 = <[fd := rest]> (u_fds s) /\ u_out s1 = u_out s ++ o /\
    selected inp = o ++ selected (buf ++ rest) /\ (10 ∉ buf) /\ (length buf <= 1023)%nat /\
    Forall (fun c => c <> 0) (buf ++ rest) /\ short_lines (buf ++ rest).

(** A round that finds bytes. *)
Lemma grep_inv_step fd inp s buf s1 m rest s2 o :
  u_fds s1 = <[fd := rest]> (u_fds s) -> u_out s1 = u_out s ++ o ->
  selected inp = o ++ selected (buf ++ rest) -> (length buf + m <= 1023)%nat ->
  Forall (fun c => c <> 0) (buf ++ rest) -> short_lines (buf ++ rest) ->
  u_fds s2 = <[fd := drop m rest]> (u_fds s1) ->
  u_out s2 = u_out s1 ++ selected (buf ++ take m rest) ->
  grep_inv fd inp s (lines_of (buf ++ take m rest)).2 s2.
Proof using.
  intros Ef Eo Es Hm Hz Hs Ef2 Eo2. set (new := buf ++ take m rest).
  assert (Enew : buf ++ rest = new ++ drop m rest) by (unfold new; by rewrite <-app_assoc, take_drop).
  rewrite Enew in Es, Hz, Hs. destruct (lines_rest_suffix new) as [pre Epre].
  exists (drop m rest), (o ++ selected new). split_and!.
  - rewrite Ef2, Ef. apply insert_insert_eq.
  - by rewrite Eo2, Eo, app_assoc.
  - by rewrite Es, selected_app, app_assoc.
  - apply lines_rest_no_newline.
  - assert (length (lines_of new).2 <= length new)%nat as Hle.
    { rewrite Epre at 2. rewrite length_app. lia. }
    unfold new in Hle |- *. rewrite length_app, length_take in Hle. lia.
  - apply Forall_app in Hz as [Hz1 Hz2]. apply Forall_app. split; [|done].
    rewrite Epre in Hz1. by apply Forall_app in Hz1 as [_ ?].
  - unfold short_lines in *. rewrite (proj1 (lines_of_app new (drop m rest))) in Hs.
    by apply Forall_app in Hs as [_ ?].
Qed.

Lemma wp_grep fuel fd inp s :
  u_fds s !! fd = Some inp -> (length inp < fuel)%nat -> Forall (fun c => c <> 0) inp -> short_lines inp ->
  wp (grep fuel pattern fd) s (fun r s' => r = inr tt /\ u_out s' = u_out s ++ selected inp).
Proof using reads_ok writes_ok.
  intros Hfd Hf Hz Hs. unfold grep, uloop.
  eapply (wp_loop_state (grep_inv fd inp s) (fun _ s1 => length (default [] (u_fds s1 !! fd)))).
  - intros buf s1 (rest & o & Ef & Eo & Es & Hn & Hl & Hz1 & Hs1). apply wp_bind.
    assert (Hfd1 : u_fds s1 !! fd = Some rest) by (rewrite Ef; apply lookup_insert_eq).
    destruct (env_read (u_reads s1)) as [c|] eqn:Er; [|by destruct (reads_ok (u_reads s1))].
    set (m := Nat.min (Z.to_nat (1024 - Z.of_nat (length buf) - 1)) (Nat.min (S c) (length rest))).
    set (s2 := UState (<[fd := drop m rest]> (u_fds s1)) (u_out s1) (S (u_reads s1)) (u_writes s1) (u_path s1) (u_calls s1)).
    assert (Eread : read fd (1024 - Z.of_nat (length buf) - 1) s1 =
      Done (inr (Z.of_nat m, take m rest)) s2).
    { unfold read. by rewrite Hfd1, Er. }
    destruct (decide (m = 0%nat)) as [E0|Hm].
    + eapply wp_done; [by rewrite (ubind_ok _ _ _ _ _ Eread), E0|]. apply wp_ret. split; [done|].
      assert (Hsel : selected (buf ++ rest) = []).
      { destruct rest as [|x rest].
        - rewrite app_nil_r. by apply selected_none.
        - apply full_buffer; [done| |done]. unfold m in E0. simpl in E0. lia. }
      simpl. by rewrite Eo, Es, Hsel, app_nil_r.
    + destruct (wp_grep_lines (buf ++ take m rest) s2) as (r & s3 & E3 & Hr & Ho).
      { apply Forall_app in Hz1 as [? Hz2]. apply Forall_app. split; [done|]. by apply Forall_take. }
      subst r. destruct Ho as (O1 & O2 & O3).
      eapply wp_done.
      { rewrite (ubind_ok _ _ _ _ _ Eread). replace (Z.of_nat m <=? 0) with false by lia.
        by rewrite (ubind_ok _ _ _ _ _ E3). }
      apply wp_ret. split.
      * eapply grep_inv_step; try done. unfold m. lia.
      * rewrite O2, Hfd1. simpl. rewrite lookup_insert_eq. simpl. rewrite length_drop. unfold m in *. lia.
  - exists inp, []. split_and!; try done; [by rewrite insert_id|by rewrite app_nil_r|by apply not_elem_of_nil|simpl; lia].
  - by rewrite Hfd.
Qed.
End grep_proofs.

(** C20: [grep] filters lines.  However the kernel cuts the file into reads, and as long as no call fails,
    [grep] returns, having written exactly the complete lines of the file that the matcher accepts, each
    with its newline, in their order; lines of more than 1022 characters and NUL bytes apart. *)
Theorem grep_filters `{UserEnv} (pattern inp : list Z) (fd : Z) (s : ustate) :
  (forall k, env_read k <> None) -> (forall k, env_write k = true) ->
  u_fds s !! fd = Some inp -> Forall (fun c => c <> 0) inp ->
  Forall (fun l => Z.of_nat (length l) <= 1022) (lines_of inp).1 ->
  exists s', (n <~ grep_fuel fd ;; grep n pattern fd) s = Done (inr tt) s' /\
    u_out s' = u_out s ++
      map (fun l => (1, l ++ [10])) (filter (fun l => match' pattern l = true) (lines_of inp).1).
Proof.
  intros Hr Hw Hfd Hz Hs.
  destruct (wp_grep pattern Hr Hw (S (length inp)) fd inp s Hfd) as (r & s' & E & -> & Ho); [lia|done|done|].
  exists s'. split; [|exact Ho]. unfold grep_fuel, ubind, bind. cbn [obind]. rewrite Hfd. exact E.
Qed.

(** Reads of one and of three bytes in turn. *)
#[local] Instance demo_env : UserEnv := {|
  env_stat := fun _ => None; env_call := fun _ _ => 0;
  env_read k := Some (if Nat.even k then 0%nat else 2%nat);
  env_write _ := true;
  env_file _ := None;
|}.

Definition demo_file : list Z := bytes_of_string "ab" ++ [10] ++ bytes_of_string "cd" ++ [10] ++ bytes_of_string "b".

Definition demo_proc : ustate := UState {[0 := demo_file]} [] 0 0 ∅ [].

Lemma grep_filters_witness : exists s',
  (n <~ grep_fuel 0 ;; grep n (bytes_of_string "^.b$") 0) demo_proc = Done (inr tt) s' /\
  u_out s' = [(1, bytes_of_string "ab" ++ [10])].
Proof.
  destruct (grep_filters (bytes_of_string "^.b$") demo_file 0 demo_proc) as (s' & H1 & H2).
  - done.
  - done.
  - reflexivity.
  - by repeat constructor.
  - by repeat constructor.
  - exists s'. split; [exact H1|]. rewrite H2. reflexivity.
Defined.
