(* ===== verification/Tools.v ===== *)
(** * Small programs: user/cat.c, user/wc.c and user/echo.c

    Programs that read a file to its end in pieces, of whatever length the
    kernel makes them. *)

From S2P Require Import Prelude Params Block User.

Module Tools.

Section tools.
Context `{UserEnv}.

(** Every read takes at least one byte, so a file of this length is read in this many rounds. *)
Definition rounds (fd : Z) : U nat :=
  fun s => Done (inr (S (length (default [] (u_fds s !! fd))))) s.

(** ** cat *)

Definition cat (fd : Z) : U unit :=
  fuel <~ rounds fd ;;
  n <~ uloop fuel (fun _ : unit =>
    r <~ read fd 512 ;;
    let '(n, buf) := r in
    if 0 <? n then
      m <~ write 1 buf ;;
      if negb (m =? n) then
        fprintf 2 "cat: write error" [] ;! putc 2 10 ;! exit 1
      else uret (inl tt)
    else uret (inr n)) tt ;;
  if n <? 0 then
    fprintf 2 "cat: read error" [] ;! putc 2 10 ;! exit 1
  else uret tt.

Definition cat_main (argv : list (list Z)) : U unit :=
  match argv with
  | [] | [_] => cat 0 ;! exit 0
  | _ :: paths =>
      uiter paths (fun path =>
        fd <~ open path ;;
        if fd <? 0 then
          fprintf 2 "cat: cannot open %s" [AStr (Some path)] ;! putc 2 10 ;! exit 1
        else cat fd ;! close fd) ;!
      exit 0
  end.

(** ** wc *)

(** Lines, words, characters, and whether the last character was in a word. *)
Definition counts : Type := Z * Z * Z * bool.

Definition spaces : list Z := [32; 13; 9; 10; 11].

Definition wc_char (x : counts) (ch : Z) : counts :=
  let '(l, w, c, inword) := x in
  let c := i32 (c + 1) in
  let l := if ch =? 10 then i32 (l + 1) else l in
  match strchr spaces ch with
  | Some _ => (l, w, c, false)
  | None => if negb inword then (l, i32 (w + 1), c, true) else (l, w, c, inword)
  end.

Definition wc (fd : Z) (name : list Z) : U unit :=
  fuel <~ rounds fd ;;
  r <~ uloop fuel (fun x : counts =>
    r <~ read fd 512 ;;
    let '(n, buf) := r in
    if 0 <? n then uret (inl (foldl wc_char x buf))
    else uret (inr (n, x))) (0, 0, 0, false) ;;
  let '(n, (l, w, c, _)) := r in
  if n <? 0 then
    printf "wc: read error" [] ;! putc 1 10 ;! exit 1
  else
    printf "%d %d %d %s" [AInt l; AInt w; AInt c; AStr (Some name)] ;! putc 1 10.

Definition wc_main (argv : list (list Z)) : U unit :=
  match argv with
  | [] | [_] => wc 0 [] ;! exit 0
  | _ :: paths =>
      uiter paths (fun path =>
        fd <~ open path ;;
        if fd <? 0 then
          printf "wc: cannot open %s" [AStr (Some path)] ;! putc 1 10 ;! exit 1
        else wc fd path ;! close fd) ;!
      exit 0
  end.

(** ** echo *)

Fixpoint echo_args (args : list (list Z)) : U unit :=
  match args with
  | [] => uret tt
  | a :: args' =>
      _ <~ write 1 (cstring a) ;;
      (match args' with
       | _ :: _ => _ <~ write 1 [32] ;; uret tt
       | [] => _ <~ write 1 [10] ;; uret tt
       end) ;!
      echo_args args'
  end.

Definition echo_main (argv : list (list Z)) : U unit := echo_args (tail argv) ;! exit 0.

End tools.

(** ** Reading to the end *)

Section reading.
Context `{UserEnv}.

(** What one read does to the state. *)
Lemma read_cases fd n s inp : u_fds s !! fd = Some inp -> 0 < n ->
  (exists s', read fd n s = Done (inr (-1, [])) s' /\ env_read (u_reads s) = None /\
     u_out s' = u_out s /\ u_fds s' = u_fds s /\ u_writes s' = u_writes s) \/
  (exists m s', read fd n s = Done (inr (Z.of_nat m, take m inp)) s' /\ (m = 0%nat <-> inp = []) /\ (m <= length inp)%nat /\
     u_out s' = u_out s /\ u_fds s' = <[fd := drop m inp]> (u_fds s) /\ u_writes s' = u_writes s).
Proof using.
  intros Hfd Hn. unfold read. rewrite Hfd. destruct (env_read (u_reads s)) as [c|]; [right|left].
  - set (m := Nat.min (Z.to_nat n) (Nat.min (S c) (length inp))). eexists m, _. split_and!; try done; [|unfold m; lia].
    unfold m. split; [|intros ->; simpl; lia]. destruct inp; [done|]. simpl. lia.
  - eexists _. by split_and!.
Qed.

Lemma rounds_eq {A} fd s inp (k : nat -> U A) : u_fds s !! fd = Some inp -> ubind (rounds fd) k s = k (S (length inp)) s.
Proof using. intros Hfd. unfold ubind, bind, rounds. cbn [obind]. by rewrite Hfd. Qed.

(** What a process has written to its standard output. *)
Definition stdout (s : ustate) : list Z := concat (snd <$> filter (fun w => w.1 = 1) (u_out s)).

Lemma stdout_same s s' : u_out s' = u_out s -> stdout s' = stdout s.
Proof using. unfold stdout. by intros ->. Qed.

Lemma stdout_write fd bs s s' : u_out s' = u_out s ++ [(fd, bs)] -> stdout s' = stdout s ++ (if decide (fd = 1) then bs else []).
Proof using.
  intros E. unfold stdout. rewrite E, filter_app, fmap_app, concat_app. f_equal.
  destruct (decide (fd = 1)) as [->|Hne].
  - rewrite filter_cons_True by done. simpl. by rewrite app_nil_r.
  - by rewrite filter_cons_False.
Qed.

(** A write, successful or not. *)
Lemma write_cases fd bs s : exists s', u_fds s' = u_fds s /\
  ((write fd bs s = Done (inr (Z.of_nat (length bs))) s' /\ stdout s' = stdout s ++ (if decide (fd = 1) then bs else [])) \/
   (write fd bs s = Done (inr (-1)) s' /\ stdout s' = stdout s /\ env_write (u_writes s) = false)).
Proof using.
  unfold write. destruct (env_write (u_writes s)); eexists.
  - split; [|left; split; [reflexivity|by apply stdout_write]]. done.
  - split; [|right; split; [reflexivity|done]]. done.
Qed.

Lemma putc_other fd c s : fd <> 1 -> exists s', putc fd c s = Done (inr tt) s' /\ stdout s' = stdout s.
Proof using.
  intros Hfd. destruct (write_cases fd [u8 c] s) as (s' & _ & [[E Eo]|(E & Eo & _)]); exists s'; unfold putc;
    rewrite (ubind_ok _ _ _ _ _ E); (split; [done|]); [|done]. by rewrite Eo, decide_False, app_nil_r.
Qed.

(** Messages without formats go to their descriptor. *)
Lemma message_runs fd fmt s : fd <> 1 -> forallb (fun c => negb (c =? 37)) fmt = true ->
  exists s', vprintf fd false fmt [] s = Done (inr tt) s' /\ stdout s' = stdout s.
Proof using.
  intros Hfd. revert s. induction fmt as [|c fmt IH]; intros s Hc; [by exists s|].
  cbn [forallb] in Hc. apply andb_prop in Hc as [Hc1 Hc2]. cbn [vprintf negb]. destruct (c =? 0); [by exists s|].
  replace (c =? 37) with false by lia. destruct (putc_other fd c s Hfd) as (s1 & E1 & O1).
  rewrite (ubind_ok _ _ _ _ _ E1), <-O1. by apply IH.
Qed.

Lemma fails_with A fmt s : forallb (fun c => negb (c =? 37)) (bytes_of_string fmt) = true ->
  exists s', (fprintf 2 fmt [] ;! putc 2 10 ;! exit (A := A) 1) s = Done (inl 1) s' /\ stdout s' = stdout s.
Proof using.
  intros Hf. unfold fprintf. destruct (message_runs 2 (bytes_of_string fmt) s) as (s1 & E1 & O1); [done|done|].
  rewrite (ubind_ok _ _ _ _ _ E1). destruct (putc_other 2 10 s1) as (s2 & E2 & O2); [done|].
  rewrite (ubind_ok _ _ _ _ _ E2). exists s2. split; [done|]. by rewrite O2.
Qed.

(** Some call has failed. *)
Definition call_failed : Prop := (exists k, env_read k = None) \/ (exists k, env_write k = false).

(** The loop of cat. *)
Definition cat_body (fd : Z) : unit -> U (unit + Z) := fun _ =>
  r <~ read fd 512 ;;
  let '(n, buf) := r in
  if 0 <? n then
    m <~ write 1 buf ;;
    if negb (m =? n) then
      fprintf 2 "cat: write error" [] ;! putc 2 10 ;! exit 1
    else uret (inl tt)
  else uret (inr n).

Lemma cat_write_error A s : exists s',
  (fprintf 2 "cat: write error" [] ;! putc 2 10 ;! exit (A := A) 1) s = Done (inl 1) s' /\ stdout s' = stdout s.
Proof using. apply fails_with. vm_compute. reflexivity. Qed.

(** After a read that failed, at the end of the file, and with [m] bytes. *)
Lemma cat_body_stop fd s n bs s1 : read fd 512 s = Done (inr (n, bs)) s1 -> n <= 0 ->
  cat_body fd tt s = Done (inr (inr n)) s1.
Proof using.
  intros E Hn. unfold cat_body. rewrite (ubind_ok _ _ _ _ _ E). cbv beta match. by rewrite (proj2 (Z.ltb_ge 0 n) Hn).
Qed.

Lemma cat_body_write fd s n bs s1 : read fd 512 s = Done (inr (n, bs)) s1 -> 0 < n ->
  cat_body fd tt s = (m <~ write 1 bs ;;
    if negb (m =? n) then fprintf 2 "cat: write error" [] ;! putc 2 10 ;! exit 1 else uret (inl tt)) s1.
Proof using.
  intros E Hn. unfold cat_body. rewrite (ubind_ok _ _ _ _ _ E). cbv beta match. by rewrite (proj2 (Z.ltb_lt 0 n) Hn).
Qed.

Lemma cat_loop fd fuel s inp : u_fds s !! fd = Some inp -> (length inp < fuel)%nat ->
  exists r s' copied rest, uloop fuel (cat_body fd) tt s = Done r s' /\ inp = copied ++ rest /\
    stdout s' = stdout s ++ copied /\
    ((r = inr 0 /\ rest = []) \/ ((r = inr (-1) \/ r = inl 1) /\ call_failed)).
Proof using.
  revert s inp. induction fuel as [|fuel IH]; intros s inp Hfd Hf; [lia|].
  destruct (read_cases fd 512 s inp Hfd) as [(s1 & E & Hr & Ho & _)|(m & s1 & E & Hm & Hml & Ho & Hfds & _)]; [lia| |].
  { exists (inr (-1)), s1, [], inp. split_and!; [|done|by rewrite app_nil_r; apply stdout_same|].
    - apply uloop_last. by apply (cat_body_stop _ _ _ _ _ E).
    - right. split; [by left|]. left. by eexists. }
  destruct (decide (m = 0%nat)) as [E0|Hm0].
  { exists (inr 0), s1, [], []. split_and!; [|by apply Hm|by rewrite app_nil_r; apply stdout_same|by left].
    apply uloop_last. rewrite E0 in E. by apply (cat_body_stop _ _ _ _ _ E). }
  pose proof (cat_body_write _ _ _ _ _ E ltac:(lia)) as Hb.
  apply stdout_same in Ho.
  destruct (write_cases 1 (take m inp) s1) as (s2 & Hfds2 & [[Ew Eo]|(Ew & Eo & Hw)]); rewrite (ubind_ok _ _ _ _ _ Ew) in Hb.
  - rewrite length_take, Nat.min_l, Z.eqb_refl in Hb by lia. cbn [negb] in Hb. rewrite (uloop_next _ _ _ _ _ _ Hb).
    destruct (IH s2 (drop m inp)) as (r & s' & c & rest & E' & Ed & Eo' & Hr).
    { rewrite Hfds2, Hfds. apply lookup_insert_eq. } { rewrite length_drop. lia. }
    exists r, s', (take m inp ++ c), rest. split_and!; [done|by rewrite <-app_assoc, <-Ed, take_drop| |done].
    rewrite Eo', Eo, Ho, decide_True, app_assoc by done. done.
  - assert (Hneg : negb (-1 =? Z.of_nat m) = true) by lia. rewrite Hneg in Hb.
    assert (Hf' : exists s', cat_body fd tt s = Done (inl 1) s' /\ stdout s' = stdout s2).
    { rewrite Hb. apply cat_write_error. }
    destruct Hf' as (s' & E' & Eo'). exists (inl 1), s', [], inp.
    split_and!; [by apply uloop_stop|done|by rewrite app_nil_r, Eo', Eo, Ho|]. right. split; [by right|]. right. by eexists.
Qed.

(** ** Counting *)

Definition space (c : Z) : bool := match strchr spaces c with Some _ => true | None => false end.

(** The words of a text: its longest runs of characters that are not spaces. *)
Fixpoint words_of (t : list Z) : list (list Z) :=
  match t with
  | [] => []
  | c :: t' =>
      if space c then words_of t'
      else
        let ws := words_of t' in
        match t', ws with
        | d :: _, w :: ws' => if space d then [c] :: ws else (c :: w) :: ws'
        | _, _ => [c] :: ws
        end
  end.

Definition newlines (t : list Z) : nat := length (filter (fun c => c = 10) t).

(** The words that start in [t], after a character in or outside a word. *)
Fixpoint starts (inword : bool) (t : list Z) : nat :=
  match t with
  | [] => 0
  | c :: t' => if space c then starts false t' else (if inword then 0 else 1) + starts true t'
  end.

Lemma starts_words t : starts false t = length (words_of t) /\
  starts true t = match t with c :: _ => if space c then length (words_of t) else pred (length (words_of t)) | [] => 0%nat end.
Proof using.
  induction t as [|c t [IH1 IH2]]; [done|]. cbn [starts words_of]. destruct (space c); [by rewrite IH1|].
  rewrite IH2. destruct t as [|d t]; [done|].
  destruct (space d) eqn:Hd; [by destruct (words_of (d :: t))|].
  assert (Hne : words_of (d :: t) <> []).
  { cbn [words_of]. rewrite Hd. destruct t; [done|]. destruct (words_of (z :: t)); [done|]. by destruct (space z). }
  destruct (words_of (d :: t)); [done|]. done.
Qed.

Lemma starts_length b t : (starts b t <= length t)%nat.
Proof using.
  revert b. induction t as [|c t IH]; intros b; [done|]. cbn [starts length].
  pose proof (IH false). pose proof (IH true). destruct (space c), b; lia.
Qed.

Lemma newlines_cons c t : newlines (c :: t) = ((if (c =? 10)%Z then 1 else 0) + newlines t)%nat.
Proof using.
  unfold newlines. destruct (Z.eqb_spec c 10); [by rewrite filter_cons_True|by rewrite filter_cons_False].
Qed.

Lemma newlines_length t : (newlines t <= length t)%nat.
Proof using. unfold newlines. apply length_filter. Qed.

Ltac tuples := repeat match goal with |- (_, _) = (_, _) => f_equal end; lia.

(** The pieces are counted as the whole. *)
Lemma wc_chars l w c b t : 0 <= l -> 0 <= w -> 0 <= c -> Z.max l (Z.max w c) + Z.of_nat (length t) < 2 ^ 31 ->
  exists b', foldl wc_char (l, w, c, b) t =
    (l + Z.of_nat (newlines t), w + Z.of_nat (starts b t), c + Z.of_nat (length t), b').
Proof using.
  revert l w c b. induction t as [|ch t IH]; intros l w c b Hl Hw Hc Hb.
  - exists b. cbn [foldl starts length]. change (newlines []) with 0%nat. tuples.
  - cbn [length] in Hb. rewrite newlines_cons. cbn [foldl starts length]. unfold wc_char at 2.
    rewrite (swrap_small 32 ltac:(lia) (c + 1)) by lia. 
    assert (El : (if ch =? 10 then i32 (l + 1) else l) = l + Z.of_nat (if (ch =? 10)%Z then 1 else 0)).
    { destruct (ch =? 10); [rewrite swrap_small by lia|]; lia. }
    rewrite El. unfold space. destruct (strchr spaces ch) as [|].
    + destruct (IH (l + Z.of_nat (if (ch =? 10)%Z then 1 else 0)) w (c + 1) false) as (b' & E); try lia; [destruct (ch =? 10); lia|].
      exists b'. rewrite E. tuples.
    + destruct b; cbn [negb].
      * destruct (IH (l + Z.of_nat (if (ch =? 10)%Z then 1 else 0)) w (c + 1) true) as (b' & E); try lia; [destruct (ch =? 10); lia|].
        exists b'. rewrite E. tuples.
      * rewrite (swrap_small 32 ltac:(lia) (w + 1)) by lia.
        destruct (IH (l + Z.of_nat (if (ch =? 10)%Z then 1 else 0)) (w + 1) (c + 1) true) as (b' & E); try lia; [destruct (ch =? 10); lia|].
        exists b'. rewrite E. tuples.
Qed.

(** The loop of wc. *)
Definition wc_body (fd : Z) : counts -> U (counts + Z * counts) := fun x =>
  r <~ read fd 512 ;;
  let '(n, buf) := r in
  if 0 <? n then uret (inl (foldl wc_char x buf)) else uret (inr (n, x)).

Lemma wc_loop fd fuel s inp x : (forall k, env_read k <> None) -> u_fds s !! fd = Some inp -> (length inp < fuel)%nat ->
  exists s', uloop fuel (wc_body fd) x s = Done (inr (0, foldl wc_char x inp)) s' /\
    u_out s' = u_out s /\ u_fds s' = <[fd := []]> (u_fds s).
Proof using.
  intros Hr. revert s inp x. induction fuel as [|fuel IH]; intros s inp x Hfd Hf; [lia|].
  destruct (read_cases fd 512 s inp Hfd) as [(s1 & E & Hn & _)|(m & s1 & E & Hm & Hml & Ho & Hfds & _)]; [lia|by apply Hr in Hn|].
  assert (Eb : wc_body fd x s = (if 0 <? Z.of_nat m then uret (inl (foldl wc_char x (take m inp))) else uret (inr (Z.of_nat m, x))) s1).
  { unfold wc_body. by rewrite (ubind_ok _ _ _ _ _ E). }
  destruct (decide (m = 0%nat)) as [E0|Hm0].
  - subst m. assert (inp = []) as -> by by apply Hm. exists s1. split_and!; [by apply uloop_last|done|done].
  - replace (0 <? Z.of_nat m) with true in Eb by lia. rewrite (uloop_next _ _ _ _ _ _ Eb).
    destruct (IH s1 (drop m inp) (foldl wc_char x (take m inp))) as (s' & E' & Eo & Ef).
    { rewrite Hfds. apply lookup_insert_eq. } { rewrite length_drop. lia. }
    exists s'. split_and!; [|by rewrite Eo|by rewrite Ef, Hfds, insert_insert_eq].
    by rewrite E', <-foldl_app, take_drop.
Qed.
End reading.

(** C37: [cat] copies.  Whatever the kernel does, [cat] comes to an end, and the standard output has then received a
    part of the file from its start on: all of it, and [cat] returns; or a call has failed,
    and the process exits with status 1. *)
Theorem cat_copies `{UserEnv} (fd : Z) (inp : list Z) (s : ustate) : u_fds s !! fd = Some inp ->
  exists r s' copied rest, cat fd s = Done r s' /\ inp = copied ++ rest /\ stdout s' = stdout s ++ copied /\
    ((r = inr tt /\ rest = []) \/ (r = inl 1 /\ call_failed)).
Proof.
  intros Hfd. unfold cat. rewrite (rounds_eq _ _ _ _ Hfd). fold (cat_body fd).
  destruct (cat_loop fd (S (length inp)) s inp Hfd) as (r & s1 & c & rest & E & Ei & Eo & Hr); [lia|].
  destruct Hr as [(-> & ->)|[[->| ->] Hc]].
  - exists (inr tt), s1, c, []. rewrite (ubind_ok _ _ _ _ _ E). split_and!; [done|done|done|by left].
  - rewrite (ubind_ok _ _ _ _ _ E). change (-1 <? 0) with true.
    destruct (fails_with unit "cat: read error" s1) as (s2 & E2 & O2); [vm_compute; reflexivity|].
    exists (inl 1), s2, c, rest. split_and!; [exact E2|done|by rewrite O2, Eo|by right].
  - exists (inl 1), s1, c, rest. rewrite (ubind_stop _ _ _ _ _ E). split_and!; [done|done|done|by right].
Qed.

(** [wc] counts.  However the reads cut the file, and as long as none fails, [wc] prints the number
    of newlines, of words and of bytes of the whole file, and nothing else; a word that straddles two
    reads is counted once. *)
Theorem wc_counts `{UserEnv} (fd : Z) (name inp : list Z) (s : ustate) : (forall k, env_read k <> None) ->
  u_fds s !! fd = Some inp -> Z.of_nat (length inp) < 2 ^ 31 ->
  exists s', u_out s' = u_out s /\ u_fds s' = <[fd := []]> (u_fds s) /\
    wc fd name s = (printf "%d %d %d %s" [AInt (Z.of_nat (newlines inp)); AInt (Z.of_nat (length (words_of inp)));
                                          AInt (Z.of_nat (length inp)); AStr (Some name)] ;! putc 1 10) s'.
Proof.
  intros Hr Hfd Hl. unfold wc. rewrite (rounds_eq _ _ _ _ Hfd). fold (wc_body fd).
  destruct (wc_loop fd (S (length inp)) s inp (0, 0, 0, false) Hr Hfd) as (s' & E & Eo & Ef); [lia|].
  exists s'. split_and!; [done|done|]. rewrite (ubind_ok _ _ _ _ _ E).
  destruct (wc_chars 0 0 0 false inp) as (b' & ->); [lia..|]. by rewrite (proj1 (starts_words inp)).
Qed.

(** Reads of one and of three bytes in turn; the fourth write fails. *)
#[local] Instance demo_env : UserEnv := {|
  env_stat := fun _ => None; env_call := fun _ _ => 0;
  env_read k := Some (if Nat.even k then 0%nat else 2%nat);
  env_write k := negb (Nat.eqb k 3);
  env_file _ := None;
|}.

Definition demo_text : list Z := bytes_of_string "two words" ++ [10] ++ bytes_of_string "more".
Definition demo_proc : ustate := UState {[0 := demo_text]} [] 0 0 ∅ [].

Lemma cat_copies_witness : exists r s' copied rest, cat 0 demo_proc = Done r s' /\ demo_text = copied ++ rest /\
  stdout s' = copied /\ ((r = inr tt /\ rest = []) \/ (r = inl 1 /\ call_failed)).
Proof. exact (cat_copies 0 demo_text demo_proc eq_refl). Defined.

Lemma wc_counts_witness : exists s', u_out s' = [] /\ u_fds s' = <[0 := []]> (u_fds demo_proc) /\
  wc 0 [] demo_proc = (printf "%d %d %d %s" [AInt 1; AInt 3; AInt 14; AStr (Some [])] ;! putc 1 10) s'.
Proof.
  apply (wc_counts 0 [] demo_text demo_proc).
  - discriminate.
  - reflexivity.
  - vm_compute. reflexivity.
Defined.
End Tools.
