(* ===== verification/Find.v ===== *)
(** * Programs on directories: user/find.c and user/ls.c, and on names: user/kill.c, user/ln.c, user/mkdir.c,
      user/rm.c and user/sleep.c *)

From S2P Require Import Prelude Params Block User Tools.

Module Find.
Import Tools.

(** ** Directory entries *)

Definition ent_inum (de : list Z) : Z := get_u16 0 de.
Definition ent_name (de : list Z) : list Z := slice 2 DIRSIZ de.

(** The characters after the last slash: [for(p = path+strlen(path); p >= path && *p != '/'; p--)]. *)
Fixpoint back_to_slash (rpath acc : list Z) : list Z :=
  match rpath with
  | [] => acc
  | c :: rpath' => if c =? 47 then acc else back_to_slash rpath' (c :: acc)
  end.

Definition after_slash (path : list Z) : list Z := back_to_slash (rev (cstring path)) [].

Section find.
Context `{UserEnv}.

(** ** find *)

(** A long name is returned as it is, a short one in a buffer. *)
Definition find_fmtname (path : list Z) : list Z :=
  let p := after_slash path in
  if DIRSIZ <=? strlen p then p else p ++ [0].

(** [sizeof(buf)] *)
Definition BUF : Z := 512.

Fixpoint find (fuel : nat) (path str : list Z) : U unit :=
  match fuel with
  | O => fun _ => OutOfFuel
  | S fuel =>
      fd <~ open path ;;
      if fd <? 0 then
        fprintf 2 "find: cannot open %s" [AStr (Some path)] ;! putc 2 10
      else
        r <~ fstat fd ;;
        match r with
        | None => fprintf 2 "find: cannot stat1 %s" [AStr (Some path)] ;! putc 2 10 ;! close fd
        | Some st =>
            (if (st_type st =? T_DEVICE) || (st_type st =? T_FILE) then
               if strcmp str (find_fmtname path) =? 0 then printf "%s" [AStr (Some path)] ;! putc 1 10
               else uret tt
             else if st_type st =? T_DIR then
               if BUF <? strlen path + 1 + DIRSIZ + 1 then printf "find: path too long" [] ;! putc 1 10
               else
                 n <~ rounds fd ;;
                 uloop n (fun _ : unit =>
                   r <~ read fd sizeof_dirent ;;
                   let '(n, de) := r in
                   if negb (n =? sizeof_dirent) then uret (inr tt)
                   else if (ent_inum de =? 0) || (strcmp (ent_name de) (bytes_of_string ".") =? 0) ||
                     (strcmp (ent_name de) (bytes_of_string "..") =? 0) then uret (inl tt)
                   else
                     let buf := cstring path ++ [47] ++ ent_name de ++ [0] in
                     r <~ stat buf ;;
                     match r with
                     | None => printf "find: cannot stat %s" [AStr (Some buf)] ;! putc 1 10 ;! uret (inl tt)
                     | Some _ => find fuel buf str ;! uret (inl tt)
                     end) tt
             else uret tt) ;!
            close fd
        end
  end.

(** The depth of the tree is not known beforehand. *)
Definition find_main (fuel : nat) (argv : list (list Z)) : U unit :=
  match argv with
  | _ :: path :: str :: _ => find fuel path str ;! exit 0
  | _ => exit 0
  end.

(** ** ls *)

Definition ls_fmtname (path : list Z) : list Z :=
  let p := after_slash path in
  if DIRSIZ <=? strlen p then p else p ++ replicate (Z.to_nat (DIRSIZ - strlen p)) 32 ++ [0].

Definition ls (path : list Z) : U unit :=
  fd <~ open path ;;
  if fd <? 0 then
    fprintf 2 "ls: cannot open %s" [AStr (Some path)] ;! putc 2 10
  else
    r <~ fstat fd ;;
    match r with
    | None => fprintf 2 "ls: cannot stat %s" [AStr (Some path)] ;! putc 2 10 ;! close fd
    | Some st =>
        (if (st_type st =? T_DEVICE) || (st_type st =? T_FILE) then
           printf "%s %d %d %l" [AStr (Some (ls_fmtname path)); AInt (st_type st); AInt (st_ino st); AInt (st_size st)] ;! putc 1 10
         else if st_type st =? T_DIR then
           if BUF <? strlen path + 1 + DIRSIZ + 1 then printf "ls: path too long" [] ;! putc 1 10
           else
             n <~ rounds fd ;;
             uloop n (fun _ : unit =>
               r <~ read fd sizeof_dirent ;;
               let '(n, de) := r in
               if negb (n =? sizeof_dirent) then uret (inr tt)
               else if ent_inum de =? 0 then uret (inl tt)
               else
                 let buf := cstring path ++ [47] ++ ent_name de ++ [0] in
                 r <~ stat buf ;;
                 match r with
                 | None => printf "ls: cannot stat %s" [AStr (Some buf)] ;! putc 1 10 ;! uret (inl tt)
                 | Some st =>
                     printf "%s %d %d %d" [AStr (Some (ls_fmtname buf)); AInt (st_type st); AInt (st_ino st); AInt (st_size st)] ;!
                     putc 1 10 ;! uret (inl tt)
                 end) tt
         else uret tt) ;!
        close fd
    end.

Definition ls_main (argv : list (list Z)) : U unit :=
  match argv with
  | [] | [_] => ls (bytes_of_string ".") ;! exit 0
  | _ :: paths => uiter paths ls ;! exit 0
  end.

(** ** Programs that make one call per argument *)

(** Up to the first call that fails. *)
Fixpoint call_each (call : list Z -> ucall) (msg : string) (args : list (list Z)) : U unit :=
  match args with
  | [] => uret tt
  | arg :: args' =>
      r <~ other_call (call arg) ;;
      if r <? 0 then fprintf 2 msg [AStr (Some arg)] ;! putc 2 10
      else call_each call msg args'
  end.

Definition mkdir_main (argv : list (list Z)) : U unit :=
  match argv with
  | [] | [_] => fprintf 2 "Usage: mkdir files..." [] ;! putc 2 10 ;! exit 1
  | _ :: args => call_each CMkdir "mkdir: %s failed to create" args ;! exit 0
  end.

Definition rm_main (argv : list (list Z)) : U unit :=
  match argv with
  | [] | [_] => fprintf 2 "Usage: rm files..." [] ;! putc 2 10 ;! exit 1
  | _ :: args => call_each CUnlink "rm: %s failed to delete" args ;! exit 0
  end.

Definition kill_main (argv : list (list Z)) : U unit :=
  match argv with
  | [] | [_] => fprintf 2 "usage: kill pid..." [] ;! putc 2 10 ;! exit 1
  | _ :: args => uiter args (fun arg => other_call (CKill (atoi arg)) ;! uret tt) ;! exit 0
  end.

Definition ln_main (argv : list (list Z)) : U unit :=
  match argv with
  | [_; old; new] =>
      r <~ other_call (CLink old new) ;;
      (if r <? 0 then fprintf 2 "link %s %s: failed" [AStr (Some old); AStr (Some new)] ;! putc 2 10 else uret tt) ;!
      exit 0
  | _ => fprintf 2 "Usage: ln old new" [] ;! putc 2 10 ;! exit 1
  end.

Definition sleep_main (argv : list (list Z)) : U unit :=
  match argv with
  | _ :: arg :: _ => other_call (CSleep (atoi arg)) ;! exit 0
  | _ => exit 0
  end.

End find.
End Find.
