(* ===== verification/FindSpec.v ===== *)
(** * What find prints *)

From S2P Require Import Prelude Params Block User Tools Find.

Module FindSpec.
Import Tools Find.

(** ** Strings *)

Lemma strcmp_zero p q : strcmp p q = 0 <-> cstring p = cstring q.
Proof.
  revert q. induction p as [|c p IH]; intros [|d q]; cbn [strcmp cstring].
  - done.
  - destruct (Z.eqb_spec d 0); [split; [done|lia]|split; [lia|done]].
  - destruct (Z.eqb_spec c 0); [split; [done|lia]|split; [lia|done]].
  - destruct (Z.eqb_spec c 0) as [->|Hc]; cbn [negb andb].
    + destruct (Z.eqb_spec d 0); [split; [done|lia]|split; [lia|done]].
    + destruct (Z.eqb_spec c d) as [->|Hne].
      * rewrite IH. destruct (Z.eqb_spec d 0); [done|]. split; [by intros ->|by intros [=]].
      * split; [lia|]. destruct (Z.eqb_spec d 0); [done|]. by intros [=].
Qed.

Lemma cstring_idem l : cstring (cstring l) = cstring l.
Proof. induction l as [|c l IH]; [done|]. cbn [cstring]. destruct (Z.eqb_spec c 0); [done|]. cbn [cstring]. rewrite (proj2 (Z.eqb_neq c 0)) by done. by rewrite IH. Qed.

Lemma cstring_app_nonzero l r : Forall (fun c => c <> 0) l -> cstring (l ++ r) = l ++ cstring r.
Proof. induction 1 as [|c l Hc Hl IH]; [done|]. cbn [app cstring]. by rewrite (proj2 (Z.eqb_neq c 0) Hc), IH. Qed.

Lemma cstring_snoc_nul l : cstring (l ++ [0]) = cstring l.
Proof. induction l as [|c l IH]; [done|]. cbn [app cstring]. by rewrite IH. Qed.

Lemma strlen_cstring l : strlen l = Z.of_nat (length (cstring l)).
Proof. induction l as [|c l IH]; [done|]. cbn [strlen cstring]. destruct (c =? 0); [done|]. rewrite IH. cbn [length]. lia. Qed.

(** ** The files below a path, from the contents of the directories *)

Fixpoint dirents (n : nat) (content : list Z) : list (list Z) :=
  match n with
  | O => []
  | S n' => if decide (16 <= length content)%nat then take 16 content :: dirents n' (drop 16 content) else []
  end.

(** Free entries, and the two entries that every directory has. *)
Definition skipped (de : list Z) : bool :=
  (ent_inum de =? 0) || bool_decide (cstring (ent_name de) = bytes_of_string ".") ||
  bool_decide (cstring (ent_name de) = bytes_of_string "..").

Definition below (path : list Z) (de : list Z) : list Z := path ++ [47] ++ cstring (ent_name de).

(** The name of a file. *)
Definition base (path : list Z) : list Z := after_slash path.

Section tree.
Context `{UserEnv}.

Fixpoint files_under (n : nat) (path : list Z) : list (list Z) :=
  match n, env_stat path, env_file path with
  | S n', Some st, Some content =>
      if (st_type st =? T_DEVICE) || (st_type st =? T_FILE) then [path]
      else if st_type st =? T_DIR then
        concat ((fun de => if skipped de then [] else files_under n' (below path de)) <$> dirents (length content) content)
      else []
  | _, _, _ => []
  end.

(** The paths down to [n] levels can be read, and end there. *)
Fixpoint readable (n : nat) (path : list Z) : Prop :=
  match n with
  | O => False
  | S n' => Forall (fun c => 0 < c < 256) path /\
      exists st content, env_stat path = Some st /\ env_file path = Some content /\
        (st_type st = T_DIR -> Z.of_nat (length path) + 1 + DIRSIZ + 1 <= BUF /\
           Forall (fun de => skipped de = false -> readable n' (below path de)) (dirents (length content) content))
  end.

(** ** Descriptors *)

(** How many more files can be opened. *)
Definition free_fds (f : gmap Z (list Z)) : nat := length (filter (fun i => f !! Z.of_nat i = None) (seq 0 NOFILE)).

Lemma free_fd_some f : (0 < free_fds f)%nat -> exists fd, free_fd f = Some fd /\ f !! fd = None /\ 0 <= fd /\
  forall c, S (free_fds (<[fd := c]> f)) = free_fds f.
Proof using.
  unfold free_fd, free_fds. generalize NOFILE. intros N Hpos.
  destruct (list_find (fun i => f !! Z.of_nat i = None) (seq 0 N)) as [[k i]|] eqn:E.
  - apply list_find_Some in E as (Ek & Hi & Hbefore). apply lookup_seq in Ek as [-> Hk]. rewrite Nat.add_0_l in Hi.
    exists (Z.of_nat k). split_and!; [done|done|lia|]. intros c.
    replace N with (k + S (N - S k))%nat in * by lia. rewrite seq_app. cbn [seq]. rewrite !Nat.add_0_l, !filter_app, !length_app.
    rewrite filter_cons_False by (rewrite lookup_insert_eq; done). rewrite (filter_cons_True _ k) by done. cbn [length].
    assert (Hsame : forall l : list nat, k ∉ l -> filter (fun i => <[Z.of_nat k := c]> f !! Z.of_nat i = None) l = filter (fun i => f !! Z.of_nat i = None) l).
    { induction l as [|x l IH]; intros Hl; [done|]. apply not_elem_of_cons in Hl as [Hx Hl].
      rewrite !filter_cons, lookup_insert_ne, IH by (done || lia). done. }
    rewrite !Hsame; [lia|..]; rewrite elem_of_seq; lia.
  - exfalso. apply list_find_None in E. assert (E0 : filter (fun i => f !! Z.of_nat i = None) (seq 0 N) = []); [|rewrite E0 in Hpos; simpl in Hpos; lia].
    apply elem_of_nil_inv. intros x [Hx Hin]%list_elem_of_filter. rewrite Forall_forall in E. by apply (E x).
Qed.

(** ** System calls *)

(** Reads are not cut short, and writes do not fail. *)
Context (Hread : forall k, exists c, env_read k = Some c /\ (15 <= c)%nat) (Hwrite : forall k, env_write k = true).

Lemma uwp_open path content s (Q : Z -> ustate -> Prop) : env_file (cstring path) = Some content -> (0 < free_fds (u_fds s))%nat ->
  (forall fd s', 0 <= fd -> u_fds s !! fd = None -> u_fds s' = <[fd := content]> (u_fds s) -> u_path s' !! fd = Some (cstring path) ->
     S (free_fds (u_fds s')) = free_fds (u_fds s) -> stdout s' = stdout s -> Q fd s') -> uwp (open path) s Q.
Proof using.
  intros Hf Hfree HQ. destruct (free_fd_some _ Hfree) as (fd & Efd & Hn & Hpos & Hc).
  eapply uwp_done; [unfold open; by rewrite Hf, Efd|]. apply HQ; cbn [u_fds u_path set_u_path set_u_fds]; [done|done|done|apply lookup_insert_eq|by apply Hc|done].
Qed.

Lemma uwp_close fd s (Q : unit -> ustate -> Prop) :
  (forall s', u_fds s' = delete fd (u_fds s) -> stdout s' = stdout s -> Q tt s') -> uwp (close fd) s Q.
Proof using. intros HQ. unfold uwp, close. apply wp_bind, wp_modify, wp_ret. by apply HQ. Qed.

Lemma uwp_fstat fd s path st content (Q : option ustat -> ustate -> Prop) : u_fds s !! fd = Some content -> u_path s !! fd = Some path ->
  env_stat path = Some st -> Q (Some st) s -> uwp (fstat fd) s Q.
Proof using. intros E1 E2 E3 HQ. eapply uwp_done; [unfold fstat; by rewrite E1, E2, E3|done]. Qed.

Lemma uwp_stat path st content s (Q : option ustat -> ustate -> Prop) : env_file (cstring path) = Some content -> env_stat (cstring path) = Some st ->
  (0 < free_fds (u_fds s))%nat -> (forall s', u_fds s' = u_fds s -> stdout s' = stdout s -> Q (Some st) s') -> uwp (stat path) s Q.
Proof using.
  intros Hf Hs Hfree HQ. unfold stat. apply uwp_bind. eapply uwp_open; [done|done|]. intros fd s1 Hpos Hn Ef Ep _ Eo.
  replace (fd <? 0) with false by lia. apply uwp_bind. eapply uwp_fstat; [rewrite Ef; apply lookup_insert_eq|done|done|].
  apply uwp_bind, uwp_close. intros s2 Ef2 Eo2. apply uwp_ret, HQ; [|congruence]. by rewrite Ef2, Ef, delete_insert_id.
Qed.

Lemma uwp_read fd inp s (Q : Z * list Z -> ustate -> Prop) : u_fds s !! fd = Some inp ->
  (forall s', u_fds s' = <[fd := drop 16 inp]> (u_fds s) -> stdout s' = stdout s ->
     Q (Z.of_nat (Nat.min 16 (length inp)), take 16 inp) s') -> uwp (read fd sizeof_dirent) s Q.
Proof using Hread.
  intros Hfd HQ. destruct (Hread (u_reads s)) as (c & Ec & Hc).
  assert (Em : Nat.min 16 (Nat.min (S c) (length inp)) = Nat.min 16 (length inp)) by lia.
  eapply uwp_done; [unfold read; rewrite Hfd, Ec; change (Z.to_nat sizeof_dirent) with 16%nat; rewrite Em; reflexivity|].
  replace (take (Nat.min 16 (length inp)) inp) with (take 16 inp) by (destruct (decide (16 <= length inp)%nat); [by rewrite Nat.min_l|rewrite Nat.min_r, !take_ge; done || lia]).
  apply HQ; [|done]. cbn [u_fds set_u_fds]. f_equal.
  destruct (decide (16 <= length inp)%nat); [by rewrite Nat.min_l|]. rewrite !drop_ge; [done|lia|lia].
Qed.

Lemma uwp_putc c s (Q : unit -> ustate -> Prop) : 0 <= c < 256 ->
  (forall s', u_fds s' = u_fds s -> stdout s' = stdout s ++ [c] -> Q tt s') -> uwp (putc 1 c) s Q.
Proof using Hwrite.
  intros Hc HQ. unfold putc. apply uwp_bind. destruct (write_cases 1 [u8 c] s) as (s' & Ef & [[E Eo]|(_ & _ & E)]); [|by rewrite Hwrite in E].
  eapply uwp_done; [exact E|]. apply uwp_ret, HQ; [done|]. by rewrite Eo, decide_True, uwrap_small by done.
Qed.

Lemma uwp_puts l s (Q : unit -> ustate -> Prop) : Forall (fun c => 0 < c < 256) l ->
  (forall s', u_fds s' = u_fds s -> stdout s' = stdout s ++ l -> Q tt s') -> uwp (uiter l (putc 1)) s Q.
Proof using Hwrite.
  intros Hl HQ. apply (uwp_iter (fun l1 s1 => u_fds s1 = u_fds s /\ stdout s1 = stdout s ++ l1)).
  - intros l1 c l2 s1 E [Ef Eo]. apply uwp_putc; [rewrite E in Hl; apply Forall_app in Hl as [_ Hl]; apply Forall_inv in Hl; lia|].
    intros s2 Ef2 Eo2. split; [congruence|]. by rewrite Eo2, Eo, app_assoc.
  - by rewrite app_nil_r.
  - intros s' [Ef Eo]. by apply HQ.
Qed.

(** [printf("%s\n", p)] *)
Lemma uwp_print_path p s (Q : unit -> ustate -> Prop) : Forall (fun c => 0 < c < 256) (cstring p) ->
  (forall s', u_fds s' = u_fds s -> stdout s' = stdout s ++ cstring p ++ [10] -> Q tt s') ->
  uwp (printf "%s" [AStr (Some p)] ;! putc 1 10) s Q.
Proof using Hwrite.
  intros Hp HQ. apply uwp_bind. change (printf "%s" [AStr (Some p)]) with (uiter (cstring p) (putc 1) ;! uret tt).
  apply uwp_bind, uwp_puts; [done|]. intros s1 Ef1 Eo1. apply uwp_ret, uwp_putc; [lia|]. intros s2 Ef2 Eo2.
  apply HQ; [congruence|]. by rewrite Eo2, Eo1, app_assoc.
Qed.

(** ** find *)

(** One line for each file with the name. *)
Definition printed (str : list Z) (paths : list (list Z)) : list Z :=
  concat ((fun p => p ++ [10]) <$> filter (fun p => base p = cstring str) paths).

Lemma printed_app str l l' : printed str (l ++ l') = printed str l ++ printed str l'.
Proof using. unfold printed. by rewrite filter_app, fmap_app, concat_app. Qed.

Lemma dirents_ge m m' c : (length c <= m)%nat -> (length c <= m')%nat -> dirents m c = dirents m' c.
Proof using.
  revert m' c. induction m as [|m IH]; intros [|m'] c H1 H2; cbn [dirents]; [done| | |].
  - by rewrite decide_False by lia.
  - by rewrite decide_False by lia.
  - destruct (decide _); [|done]. f_equal. apply IH; rewrite length_drop; lia.
Qed.

Lemma dirents_step content :
  dirents (length content) content =
    if decide (16 <= length content)%nat then take 16 content :: dirents (length (drop 16 content)) (drop 16 content) else [].
Proof using.
  rewrite (dirents_ge _ (S (length content))) by lia. cbn [dirents]. destruct (decide _); [|done]. f_equal.
  apply dirents_ge; rewrite ?length_drop; lia.
Qed.

Lemma skipped_eq de : (ent_inum de =? 0) || (strcmp (ent_name de) (bytes_of_string ".") =? 0) ||
  (strcmp (ent_name de) (bytes_of_string "..") =? 0) = skipped de.
Proof using.
  assert (E : forall q, (strcmp (ent_name de) q =? 0) = bool_decide (cstring (ent_name de) = cstring q)).
  { intros q. apply eq_bool_prop_intro. rewrite Is_true_true, Z.eqb_eq, strcmp_zero. by rewrite bool_decide_spec. }
  rewrite !E. done.
Qed.

Lemma fmtname_eq p : cstring (find_fmtname p) = cstring (base (cstring p)).
Proof using.
  unfold find_fmtname, base, after_slash. rewrite cstring_idem. fold (after_slash p). destruct (_ <=? _); [done|]. apply cstring_snoc_nul.
Qed.

Lemma back_to_slash_nonzero r acc : Forall (fun c => c <> 0) r -> Forall (fun c => c <> 0) acc -> Forall (fun c => c <> 0) (back_to_slash r acc).
Proof using.
  revert acc. induction r as [|c r IH]; intros acc Hr Ha; [done|]. apply Forall_cons in Hr as [Hc Hr]. cbn [back_to_slash].
  destruct (c =? 47); [done|]. apply IH; [done|by constructor].
Qed.

(** Once a directory is open, its entries are visited. *)
Lemma uwp_entries n fd path str content s body (Q : unit -> ustate -> Prop) :
  let kids content := concat ((fun de => if skipped de then [] else files_under n (below path de)) <$> dirents (length content) content) in
  u_fds s !! fd = Some content ->
  (forall de s1 (Q1 : unit + unit -> ustate -> Prop), de ∈ dirents (length content) content ->
     (exists rest, u_fds s1 = <[fd := rest]> (u_fds s)) ->
     (forall s2, u_fds s2 = u_fds s1 -> stdout s2 = stdout s1 ++ printed str (if skipped de then [] else files_under n (below path de)) -> Q1 (inl tt) s2) ->
     uwp (body de) s1 Q1) ->
  (forall s', u_fds s' = <[fd := []]> (u_fds s) \/ (exists r, u_fds s' = <[fd := r]> (u_fds s)) -> stdout s' = stdout s ++ printed str (kids content) -> Q tt s') ->
  uwp (uloop (S (length content)) (fun _ : unit => r <~ read fd sizeof_dirent ;;
    let '(n, de) := r in if negb (n =? sizeof_dirent) then uret (inr tt) else body de) tt) s Q.
Proof using Hread.
  intros kids Hfd Hbody HQ.
  apply (uwp_loop_state (fun (_ : unit) s1 => exists done rest, dirents (length content) content = done ++ dirents (length rest) rest /\
      u_fds s1 = <[fd := rest]> (u_fds s) /\
      stdout s1 = stdout s ++ printed str (concat ((fun de => if skipped de then [] else files_under n (below path de)) <$> done)))
    (fun _ s1 => length (default [] (u_fds s1 !! fd)))).
  - intros [] s1 (dn & rest & Ed & Ef & Eo). apply uwp_bind. eapply uwp_read; [rewrite Ef; apply lookup_insert_eq|].
    intros s2 Ef2 Eo2. rewrite Ef, insert_insert_eq in Ef2. rewrite (dirents_step rest) in Ed.
    destruct (decide (16 <= length rest)%nat) as [Hge|Hlt].
    + replace (Z.of_nat (Nat.min 16 (length rest)) =? sizeof_dirent) with true by (rewrite Nat.min_l by lia; done). cbn [negb].
      apply Hbody; [rewrite Ed; apply elem_of_app; right; by left|by eexists|]. intros s3 Ef3 Eo3. split.
      * exists (dn ++ [take 16 rest]), (drop 16 rest). split_and!; [by rewrite <-app_assoc|congruence|].
        rewrite Eo3, Eo2, Eo, fmap_app, concat_app, printed_app, app_assoc. cbn [fmap list_fmap concat]. by rewrite app_nil_r.
      * rewrite Ef3, Ef2, Ef, !lookup_insert_eq. cbn [default from_option id]. rewrite length_drop. lia.
    + replace (Z.of_nat (Nat.min 16 (length rest)) =? sizeof_dirent) with false
        by (symmetry; apply Z.eqb_neq; rewrite Nat.min_r by lia; change sizeof_dirent with 16; lia). cbn [negb].
      apply uwp_ret, HQ; [right; by eexists|]. rewrite Eo2, Eo. unfold kids. by rewrite Ed, app_nil_r.
  - exists [], content. split_and!; [done|by rewrite insert_id|by rewrite app_nil_r].
  - rewrite Hfd. cbn. lia.
Qed.

Lemma free_fds_insert f fd c c' : free_fds (<[fd := c]> f) = free_fds (<[fd := c']> f).
Proof using.
  unfold free_fds. f_equal. induction (seq 0 NOFILE) as [|x l IH]; [done|]. rewrite !filter_cons, IH.
  destruct (decide (Z.of_nat x = fd)) as [->|Hne]; [by rewrite !lookup_insert_eq|by rewrite !lookup_insert_ne].
Qed.

Lemma path_nonzero path : Forall (fun c => 0 < c < 256) path -> Forall (fun c => c <> 0) path.
Proof using. intros Hp. eapply Forall_impl; [exact Hp|]. intros c ?; simpl in *; lia. Qed.

Lemma base_nonzero path : Forall (fun c => 0 < c < 256) path -> cstring (base path) = base path.
Proof using.
  intros Hp%path_nonzero. apply cstring_nonzero. unfold base, after_slash. rewrite cstring_nonzero by done.
  apply back_to_slash_nonzero; [by apply List.Forall_rev|done].
Qed.

Lemma uwp_find n p str s (Q : unit -> ustate -> Prop) : readable n (cstring p) -> (n < free_fds (u_fds s))%nat ->
  (forall s', u_fds s' = u_fds s -> stdout s' = stdout s ++ printed str (files_under n (cstring p)) -> Q tt s') ->
  uwp (find n p str) s Q.
Proof using Hread Hwrite.
  revert p s Q. induction n as [|n IH]; intros p s Q Hr Hfree HQ; [done|]. set (path := cstring p) in *.
  destruct Hr as (Hp & st & content & Est & Efile & Hdir). cbn [find files_under] in *. rewrite Est, Efile in HQ.
  apply uwp_bind. eapply uwp_open; [done|lia|]. intros fd s1 Hpos Hnone Ef1 Ep1 Ec1 Eo1. replace (fd <? 0) with false by lia.
  apply uwp_bind. eapply uwp_fstat; [rewrite Ef1; apply lookup_insert_eq|done|done|]. cbv beta iota.
  assert (Hend : forall s2 l, (exists r, u_fds s2 = <[fd := r]> (u_fds s)) -> stdout s2 = stdout s ++ l ->
    (forall s', u_fds s' = u_fds s -> stdout s' = stdout s ++ l -> Q tt s') -> uwp (close fd) s2 Q).
  { intros s2 l [r Ef2] Eo2 HQ2. apply uwp_close. intros s3 Ef3 Eo3. apply HQ2; [|congruence]. by rewrite Ef3, Ef2, delete_insert_id. }
  apply uwp_bind. destruct ((st_type st =? T_DEVICE) || (st_type st =? T_FILE)) eqn:Etype.
  { destruct (Z.eqb_spec (strcmp str (find_fmtname p)) 0) as [E|E]; rewrite strcmp_zero, fmtname_eq in E; fold path in E; rewrite base_nonzero in E by done.
    - apply uwp_print_path; [done|]. intros s2 Ef2 Eo2. eapply Hend; [exists content; congruence| |exact HQ].
      rewrite Eo2, Eo1. f_equal. unfold printed. rewrite filter_cons_True by done. by cbn; rewrite app_nil_r.
    - apply uwp_ret. eapply Hend; [by exists content| |exact HQ]. rewrite Eo1. unfold printed.
      rewrite filter_cons_False by (by apply not_eq_sym). by rewrite app_nil_r. }
  destruct (Z.eqb_spec (st_type st) T_DIR) as [Et|Et].
  2:{ apply uwp_ret. eapply Hend; [by exists content| |exact HQ]. by rewrite Eo1, app_nil_r. }
  destruct (Hdir Et) as [Hlen Hkids]. rewrite strlen_cstring. fold path.
  replace (BUF <? Z.of_nat (length path) + 1 + DIRSIZ + 1) with false by lia.
  apply uwp_bind. eapply uwp_done; [unfold rounds; rewrite Ef1, lookup_insert_eq; reflexivity|]. cbn [default from_option id].
  eapply (uwp_entries n fd path str content s1); [rewrite Ef1; apply lookup_insert_eq| |].
  - intros de s2 Q2 Hin [rest Ef2] HQ2. rewrite skipped_eq. destruct (skipped de) eqn:Hsk.
    { apply uwp_ret, HQ2; [done|]. by rewrite app_nil_r. }
    rewrite Forall_forall in Hkids. pose proof (Hkids de Hin Hsk) as Hkid.
    set (buf := path ++ [47] ++ ent_name de ++ [0]). assert (Ebuf : cstring buf = below path de).
    { unfold buf, below. rewrite cstring_app_nonzero by (by apply path_nonzero). f_equal. cbn [app cstring]. f_equal. apply cstring_snoc_nul. }
    destruct n as [|n']; [done|]. pose proof Hkid as (_ & st' & content' & Est' & Efile' & _).
    assert (Hfree2 : free_fds (u_fds s2) = free_fds (u_fds s1)).
    { rewrite Ef2, Ef1, insert_insert_eq. apply free_fds_insert. }
    apply uwp_bind. eapply uwp_stat; [by rewrite Ebuf|by rewrite Ebuf|lia|]. intros s3 Ef3 Eo3. cbv beta iota.
    apply uwp_bind. apply IH; [by rewrite Ebuf|rewrite Ef3; lia|]. intros s4 Ef4 Eo4. apply uwp_ret, HQ2; [congruence|]. by rewrite Eo4, Eo3, Ebuf.
  - intros s2 Ef2 Eo2. eapply Hend; [|rewrite Eo2, Eo1; reflexivity|exact HQ].
    destruct Ef2 as [Ef2|[r Ef2]]; rewrite Ef2, Ef1, insert_insert_eq; by eexists.
Qed.
End tree.

(** ** Properties *)

(** C36: [find] prints exactly the files with the name.  For a tree of [n] levels that can be read, with enough descriptors left for them, and for
    reads and writes that do not fail, [find] comes to an end, writes to standard output the path of every
    file and device below [path] whose last element is [str], each on a line of its own and in the order of the directories, descends
    neither into free entries nor into "." and "..", and leaves the descriptors as they were. *)
Theorem find_correct `{UserEnv} n path str s :
  (forall k, exists c, env_read k = Some c /\ (15 <= c)%nat) -> (forall k, env_write k = true) ->
  readable n path -> (n < free_fds (u_fds s))%nat ->
  exists s', find n path str s = Done (inr tt) s' /\ u_fds s' = u_fds s /\
    stdout s' = stdout s ++ concat ((fun p => p ++ [10]) <$> filter (fun p => base p = cstring str) (files_under n path)).
Proof.
  intros Hrd Hwr Hr Hfree. destruct n as [|n]; [done|]. pose proof (proj1 Hr) as Hp.
  assert (Ec : cstring path = path) by (by apply cstring_nonzero, path_nonzero).
  destruct (uwp_elim (find (S n) path str) s (fun _ s' => u_fds s' = u_fds s /\ stdout s' = stdout s ++ printed str (files_under (S n) path)))
    as ([] & s' & E & HQ); [|by exists s'].
  apply (uwp_find Hrd Hwr); rewrite ?Ec; [done|done|]. done.
Qed.

(** A directory with a file and a directory in it. *)
Definition demo_de (inum : Z) (name : string) : list Z :=
  le_bytes 2 inum ++ take 14 (bytes_of_string name ++ replicate 14 0).

#[local] Instance demo_env : UserEnv := {|
  env_read _ := Some 100%nat; env_write _ := true; env_call := fun _ _ => 0;
  env_file p :=
    if decide (p = bytes_of_string "t") then Some (demo_de 2 "." ++ demo_de 1 ".." ++ demo_de 3 "x" ++ demo_de 0 "x" ++ demo_de 4 "d")
    else if decide (p = bytes_of_string "t/d") then Some (demo_de 4 "." ++ demo_de 2 ".." ++ demo_de 5 "y" ++ demo_de 6 "x")
    else Some [];
  env_stat p :=
    if decide (p = bytes_of_string "t") then Some (Stat T_DIR 2 80)
    else if decide (p = bytes_of_string "t/d") then Some (Stat T_DIR 4 64) else Some (Stat T_FILE 9 0);
|}.

Definition demo_proc : ustate := UState {[0 := []; 1 := []; 2 := []]} [] 0 0 ∅ [].

(** A path whose characters are in range. *)
Lemma demo_path p : forallb (fun c => (0 <? c) && (c <? 256)) p = true -> Forall (fun c => 0 < c < 256) p.
Proof. rewrite forallb_forall, Forall_forall. intros Hp c Hc%list_elem_of_In%Hp. lia. Qed.

Lemma demo_readable : readable 3 (bytes_of_string "t").
Proof.
  assert (Hfile : forall n p, forallb (fun c => (0 <? c) && (c <? 256)) p = true -> env_stat p = Some (Stat T_FILE 9 0) -> readable (S n) p).
  { intros n p Hp Es. split; [by apply demo_path|]. destruct (env_file p) as [c|] eqn:Ef; [by exists (Stat T_FILE 9 0), c|].
    unfold env_file, demo_env in Ef. repeat case_decide; done. }
  assert (Hd : readable 2 (bytes_of_string "t/d")).
  { split; [by apply demo_path|]. eexists _, _. split; [reflexivity|]. split; [reflexivity|]. intros _. split; [by vm_compute|].
    apply Forall_forall. intros de Hin. vm_compute in Hin.
    repeat (apply elem_of_cons in Hin as [->|Hin]; [intros Hs; first [vm_compute in Hs; discriminate|apply Hfile; vm_compute; reflexivity]|]).
    by apply not_elem_of_nil in Hin. }
  split; [by apply demo_path|]. eexists _, _. split; [reflexivity|]. split; [reflexivity|]. intros _. split; [by vm_compute|].
  apply Forall_forall. intros de Hin. vm_compute in Hin.
  repeat (apply elem_of_cons in Hin as [->|Hin];
    [intros Hs; first [vm_compute in Hs; discriminate|apply Hfile; vm_compute; reflexivity|exact Hd]|]).
  by apply not_elem_of_nil in Hin.
Qed.

Lemma find_correct_witness : exists s', find 3 (bytes_of_string "t") (bytes_of_string "x") demo_proc = Done (inr tt) s' /\
  stdout s' = bytes_of_string "t/x" ++ [10] ++ bytes_of_string "t/d/x" ++ [10].
Proof.
  destruct (find_correct 3 (bytes_of_string "t") (bytes_of_string "x") demo_proc) as (s' & E & _ & Eo).
  - intros k. exists 100%nat. split; [reflexivity|lia].
  - intros k. reflexivity.
  - exact demo_readable.
  - vm_compute. lia.
  - exists s'. split; [exact E|]. rewrite Eo. vm_compute. reflexivity.
Defined.
End FindSpec.
