(* ===== verification/Umalloc.v ===== *)
(** * The user-level memory allocator: user/umalloc.c

    The allocator of Kernighan and Ritchie: the free blocks form a circular
    list in the order of their addresses, through headers of 16 bytes in
    front of the blocks, and sizes count headers.  [base] is the address of the
    static header, below the heap. *)

From stdpp Require Import functions.
From S2P Require Import Prelude Params.

Module Umalloc.

Definition sizeof_Header : Z := 16.

(** The headers in memory, [freep], the end of the heap, and the number of calls of [sbrk]. *)
Record heap := Heap {
  hp_ptr : Z -> Z;
  hp_size : Z -> Z;
  hp_freep : Z;
  hp_brk : Z;
  hp_calls : nat;
}.

Definition set_ptr (p v : Z) (h : heap) : heap :=
  Heap (<[p := v]> (hp_ptr h)) (hp_size h) (hp_freep h) (hp_brk h) (hp_calls h).
Definition set_size (p v : Z) (h : heap) : heap :=
  Heap (hp_ptr h) (<[p := v]> (hp_size h)) (hp_freep h) (hp_brk h) (hp_calls h).
Definition set_freep (v : Z) (h : heap) : heap :=
  Heap (hp_ptr h) (hp_size h) v (hp_brk h) (hp_calls h).

(** Where the linker puts [base], and which calls of [sbrk] succeed, by the
    number of the call and the new end of the heap it asks for. *)
Class HeapEnv := {
  base : Z;
  sbrk_ok : nat -> Z -> bool;
}.

Section umalloc.
Context `{HeapEnv}.

Abbreviation HM := (M heap).

Definition ptr (p : Z) : HM Z := gets (fun h => hp_ptr h p).
Definition size (p : Z) : HM Z := gets (fun h => hp_size h p).

(** [sbrk] takes an [int]; it returns the old end of the heap, or -1. *)
Definition sbrk (n : Z) : HM Z := fun h =>
  let n := i32 n in
  if sbrk_ok (hp_calls h) (hp_brk h + n) then
    Done (hp_brk h) (Heap (hp_ptr h) (hp_size h) (hp_freep h) (hp_brk h + n) (S (hp_calls h)))
  else Done (-1) (Heap (hp_ptr h) (hp_size h) (hp_freep h) (hp_brk h) (S (hp_calls h))).

(** As many blocks as the memory above [base] has room for. *)
Definition max_blocks (h : heap) : nat := Z.to_nat ((hp_brk h - base) / sizeof_Header + 2).

Definition free (ap : Z) : HM unit :=
  let bp := ap - sizeof_Header in
  fuel <- gets max_blocks ;;
  p0 <- gets hp_freep ;;
  p <- loop fuel (fun p =>
    n <- ptr p ;;
    if (p <? bp) && (bp <? n) then ret (inr p)
    else if (n <=? p) && ((p <? bp) || (bp <? n)) then ret (inr p)
    else ret (inl n)) p0 ;;
  bsize <- size bp ;;
  next <- ptr p ;;
  (if bp + sizeof_Header * bsize =? next then
     nsize <- size next ;;
     modify (set_size bp (u32 (bsize + nsize))) ;;
     nptr <- ptr next ;;
     modify (set_ptr bp nptr)
   else modify (set_ptr bp next)) ;;
  psize <- size p ;;
  (if p + sizeof_Header * psize =? bp then
     bsize <- size bp ;;
     modify (set_size p (u32 (psize + bsize))) ;;
     bptr <- ptr bp ;;
     modify (set_ptr p bptr)
   else modify (set_ptr p bp)) ;;
  modify (set_freep p).

(** [None] is the null pointer. *)
Definition morecore (nu : Z) : HM (option Z) :=
  let nu := if nu <? 4096 then 4096 else nu in
  p <- sbrk (nu * sizeof_Header) ;;
  if p =? -1 then ret None
  else
    modify (set_size p nu) ;;
    free (p + sizeof_Header) ;;
    fp <- gets hp_freep ;;
    ret (Some fp).

(** One round of the search; [freep] has been set. *)
Definition malloc_round (nunits : Z) (x : Z * Z) : HM ((Z * Z) + Z) :=
  let '(prevp, p) := x in
  psize <- size p ;;
  if nunits <=? psize then
    p' <- (if psize =? nunits then
             n <- ptr p ;;
             modify (set_ptr prevp n) ;;
             ret p
           else
             modify (set_size p (u32 (psize - nunits))) ;;
             s' <- size p ;;
             let p := p + sizeof_Header * s' in
             modify (set_size p nunits) ;;
             ret p) ;;
    modify (set_freep prevp) ;;
    ret (inr (p' + sizeof_Header))
  else
    fp <- gets hp_freep ;;
    if p =? fp then
      r <- morecore nunits ;;
      match r with
      | None => ret (inr 0)
      | Some p => n <- ptr p ;; ret (inl (p, n))
      end
    else n <- ptr p ;; ret (inl (p, n)).

(** The list is walked at most twice, the second time with one block more. *)
Definition malloc (nbytes : Z) : HM Z :=
  let nunits := (nbytes + sizeof_Header - 1) / sizeof_Header + 1 in
  fp <- gets hp_freep ;;
  prevp <- (if fp =? 0 then
              modify (set_ptr base base) ;;
              modify (set_freep base) ;;
              modify (set_size base 0) ;;
              ret base
            else ret fp) ;;
  p <- ptr prevp ;;
  fuel <- gets max_blocks ;;
  loop (2 * fuel + 2) (malloc_round nunits) (prevp, p).

End umalloc.

(** ** The free list *)

(** A free block: its address and its size in headers. *)
Abbreviation blocks := (list (Z * Z)).

Section list.
Context `{HeapEnv}.

(** From the header at [a] the list goes through [F], and back to [base]. *)
Fixpoint path (h : heap) (a : Z) (F : blocks) : Prop :=
  match F with
  | [] => True
  | (b, n) :: F' => hp_ptr h a = b /\ hp_size h b = n /\ path h b F'
  end.

Definition node_from (a : Z) (F : blocks) : Z := default a (fst <$> last F).

Definition node (F : blocks) : Z := node_from base F.

Definition chain (h : heap) (a : Z) (F : blocks) : Prop :=
  path h a F /\ hp_ptr h (node_from a F) = base.

(** Blocks above [lo] in ascending order, with gaps between them, up to [hi]. *)
Fixpoint ordered (lo : Z) (F : blocks) (hi : Z) : Prop :=
  match F with
  | [] => lo <= hi
  | (b, n) :: F' => lo < b /\ 1 <= n /\ ordered (b + sizeof_Header * n) F' hi
  end.

(** Where the last block ends. *)
Definition top (lo : Z) (F : blocks) : Z :=
  match last F with Some (b, n) => b + sizeof_Header * n | None => lo end.

(** The free blocks [F] lie between the header [base] and the end of the heap. *)
Record heap_inv (h : heap) (F : blocks) : Prop := {
  hi_base : 0 < base;
  hi_size0 : hp_size h base = 0;
  hi_chain : chain h base F;
  hi_ordered : ordered (base + sizeof_Header - 1) F (hp_brk h);
  hi_brk : hp_brk h < 2 ^ 32;
  hi_freep : exists F1 F2, F = F1 ++ F2 /\ hp_freep h = node F1;
}.

(** ** Lists of blocks *)

Lemma node_from_cons a b n F : node_from a ((b, n) :: F) = node_from b F.
Proof using.
  unfold node_from. destruct F as [|c F _] using rev_ind; [done|].
  change ((b, n) :: F ++ [c]) with (((b, n) :: F) ++ [c]). by rewrite !last_snoc.
Qed.

Lemma node_snoc a F b n : node_from a (F ++ [(b, n)]) = b.
Proof using. unfold node_from. by rewrite last_snoc. Qed.

Lemma top_cons lo b n F : top lo ((b, n) :: F) = top (b + sizeof_Header * n) F.
Proof using.
  unfold top. destruct F as [|c F _] using rev_ind; [done|].
  change ((b, n) :: F ++ [c]) with (((b, n) :: F) ++ [c]). by rewrite !last_snoc.
Qed.

Lemma top_snoc lo F b n : top lo (F ++ [(b, n)]) = b + sizeof_Header * n.
Proof using. unfold top. by rewrite last_snoc. Qed.

Lemma path_app h a F1 F2 : path h a (F1 ++ F2) <-> path h a F1 /\ path h (node_from a F1) F2.
Proof using.
  revert a. induction F1 as [|[b n] F1 IH]; intros a; [simpl; tauto|].
  rewrite node_from_cons. simpl. rewrite IH. tauto.
Qed.

Lemma node_from_app a F1 F2 : node_from a (F1 ++ F2) = node_from (node_from a F1) F2.
Proof using.
  revert a. induction F1 as [|[b n] F1 IH]; intros a; [done|]. simpl app.
  by rewrite !node_from_cons, IH.
Qed.

Lemma ordered_app lo F1 F2 hi : ordered lo (F1 ++ F2) hi <->
  ordered lo F1 (top lo F1) /\ ordered (top lo F1) F2 hi.
Proof using.
  revert lo. induction F1 as [|[b n] F1 IH]; intros lo; simpl.
  - unfold top. simpl. split; [split; [lia|done]|tauto].
  - rewrite top_cons, IH. tauto.
Qed.

Lemma ordered_top lo F hi : ordered lo F hi <-> ordered lo F (top lo F) /\ top lo F <= hi.
Proof using.
  revert lo. induction F as [|[b n] F IH]; intros lo; simpl.
  - unfold top. simpl. lia.
  - rewrite top_cons, (IH (b + sizeof_Header * n)). tauto.
Qed.

Lemma ordered_top_le lo F hi : ordered lo F hi -> lo <= top lo F <= hi.
Proof using.
  revert lo. induction F as [|[b n] F IH]; intros lo; simpl.
  - unfold top. simpl. lia.
  - intros (H1 & H2 & H3). rewrite top_cons. specialize (IH _ H3). unfold sizeof_Header in *. lia.
Qed.

Lemma ordered_weaken lo lo' F hi hi' : lo' <= lo -> hi <= hi' -> ordered lo F hi -> ordered lo' F hi'.
Proof using.
  intros H1 H2. revert lo lo' H1. induction F as [|[b n] F IH]; intros lo lo' H1; simpl; [lia|].
  intros (H3 & H4 & H5). split_and!; [lia|done|]. by eapply IH.
Qed.

(** Every block lies between the bounds. *)
Lemma ordered_in lo F hi b n : ordered lo F hi -> (b, n) ∈ F ->
  lo < b /\ 1 <= n /\ b + sizeof_Header * n <= hi.
Proof using.
  revert lo. induction F as [|[c m] F IH]; intros lo; [by intros _ ?%not_elem_of_nil|].
  simpl. intros (H1 & H2 & H3) [Hin|Hin]%elem_of_cons.
  - simplify_eq. pose proof (ordered_top_le _ _ _ H3). lia.
  - destruct (IH _ H3 Hin) as (H4 & H5 & H6). unfold sizeof_Header in *. lia.
Qed.

Lemma node_bounds lo F hi : ordered lo F hi -> base <= lo ->
  base <= node F /\ (F <> [] -> lo < node F) /\ node F <= Z.max base (top lo F).
Proof using.
  intros Ho Hb. destruct F as [|[b n] F _] using rev_ind.
  - unfold node, node_from. simpl. split_and!; [lia|done|lia].
  - unfold node. rewrite node_snoc, top_snoc.
    destruct (ordered_in _ _ _ b n Ho) as (H1 & H2 & H3); [apply elem_of_app; right; by left|].
    unfold sizeof_Header. split_and!; [lia|done|lia].
Qed.

Lemma chain_app h a F1 F2 : chain h a (F1 ++ F2) <-> path h a F1 /\ chain h (node_from a F1) F2.
Proof using. unfold chain. rewrite path_app, node_from_app. tauto. Qed.

Lemma chain_cons h a b n F : chain h a ((b, n) :: F) <->
  hp_ptr h a = b /\ hp_size h b = n /\ chain h b F.
Proof using. unfold chain. rewrite node_from_cons. simpl. tauto. Qed.

(** The header after [a] in a list. *)
Definition next_of (F : blocks) : Z := match F with [] => base | (b, _) :: _ => b end.

Lemma chain_next h a F : chain h a F -> hp_ptr h a = next_of F.
Proof using. destruct F as [|[b n] F]; intros [Hp He]; [exact He|apply Hp]. Qed.

Lemma node_from_ge a lo F hi : ordered lo F hi -> a <= lo -> a <= node_from a F.
Proof using.
  revert a lo. induction F as [|[b n] F IH]; intros a lo; simpl.
  - unfold node_from. simpl. lia.
  - intros (H1 & H2 & H3) Ha. rewrite node_from_cons. specialize (IH b _ H3).
    unfold sizeof_Header in *. lia.
Qed.

(** Writes from the last header on do not disturb the way to it. *)
Lemma path_frame h h' a lo F hi : ordered lo F hi -> a <= lo -> path h a F ->
  (forall x, a <= x < node_from a F -> hp_ptr h' x = hp_ptr h x) ->
  (forall x, a < x <= node_from a F -> hp_size h' x = hp_size h x) -> path h' a F.
Proof using.
  revert a lo. induction F as [|[b n] F IH]; intros a lo; [done|]. cbn [ordered path].
  rewrite node_from_cons. intros (H1 & H2 & H3) Ha (P1 & P2 & P3) Hp Hs.
  assert (b <= b + sizeof_Header * n) by (unfold sizeof_Header; lia).
  pose proof (node_from_ge b _ _ _ H3 ltac:(lia)).
  split_and!; [rewrite Hp; [done|lia]|rewrite Hs; [done|lia]|].
  eapply (IH b); [exact H3|lia|done|..]; intros x Hx; [apply Hp|apply Hs]; lia.
Qed.

(** The rest of a list, from another header. *)
Lemma chain_frame h h' a a' F : chain h a F -> hp_ptr h' a' = hp_ptr h a ->
  (forall b n, (b, n) ∈ F -> hp_ptr h' b = hp_ptr h b /\ hp_size h' b = hp_size h b) ->
  chain h' a' F.
Proof using.
  revert a a'. induction F as [|[b n] F IH]; intros a a'.
  - unfold chain, node_from. simpl. intros [_ Ha] E _. by rewrite E.
  - rewrite !chain_cons. intros (P1 & P2 & P3) E Hf. destruct (Hf b n) as [E1 E2]; [by left|].
    split_and!; [congruence|congruence|]. eapply (IH b b); [done|done|]. intros c m Hc. apply (Hf c m). by right.
Qed.

(** The bytes of a set of blocks. *)
Definition covers (F : blocks) (x : Z) : Prop :=
  exists b n, (b, n) ∈ F /\ b <= x < b + sizeof_Header * n.

Lemma covers_app F1 F2 x : covers (F1 ++ F2) x <-> covers F1 x \/ covers F2 x.
Proof using.
  unfold covers. setoid_rewrite elem_of_app. split.
  - intros (b & n & [Hin|Hin] & Hx); eauto.
  - intros [(b & n & Hin & Hx)|(b & n & Hin & Hx)]; eauto.
Qed.

Lemma covers_cons b n F x : covers ((b, n) :: F) x <-> b <= x < b + sizeof_Header * n \/ covers F x.
Proof using.
  unfold covers. setoid_rewrite elem_of_cons. split.
  - intros (c & m & [E|Hin] & Hx); [simplify_eq; by left|eauto].
  - intros [Hx|(c & m & Hin & Hx)]; [by exists b, n; eauto|eauto].
Qed.

(** A block that is clear of the free ones. *)
Definition clear_of (bp n : Z) (F : blocks) : Prop :=
  forall b m, (b, m) ∈ F -> b + sizeof_Header * m <= bp \/ bp + sizeof_Header * n <= b.

(** Its place among them. *)
Lemma ordered_split lo F hi bp n : ordered lo F hi -> lo <= bp -> 1 <= n -> bp + sizeof_Header * n <= hi ->
  clear_of bp n F ->
  exists F1 F2, F = F1 ++ F2 /\ ordered lo F1 bp /\ ordered (bp + sizeof_Header * n - 1) F2 hi.
Proof using.
  revert lo. induction F as [|[b m] F IH]; intros lo Ho Hlo Hn Hhi Hc.
  - exists [], []. simpl. split_and!; [done|lia|lia].
  - simpl in Ho. destruct Ho as (H1 & H2 & H3). destruct (Hc b m) as [Hb|Hb]; [by left| |].
    + destruct (IH _ H3) as (F1 & F2 & -> & O1 & O2); try done.
      { intros c k Hin. apply Hc. by right. }
      exists ((b, m) :: F1), F2. by split_and!.
    + exists [], ((b, m) :: F). split_and!; [done|simpl; lia|]. simpl. split_and!; [lia|done|done].
Qed.

Lemma ordered_length lo F hi : ordered lo F hi -> sizeof_Header * Z.of_nat (length F) <= hi - lo.
Proof using.
  revert lo. induction F as [|[b n] F IH]; intros lo; simpl; [lia|]. intros (H1 & H2 & H3).
  specialize (IH _ H3). unfold sizeof_Header in *. lia.
Qed.
End list.

(** ** free *)

Section free_proofs.
Context `{HeapEnv}.

(** The test of the loop of [free], as in its definition. *)
Definition free_round (bp p : Z) : M heap (Z + Z) :=
  n <- ptr p ;;
  if (p <? bp) && (bp <? n) then ret (inr p)
  else if (n <=? p) && ((p <? bp) || (bp <? n)) then ret (inr p)
  else ret (inl n).

(** The list and the place of the block in it. *)
Context (h : heap) (G1 G2 : blocks) (bp n : Z).
Hypothesis Hbase : 0 < base.
Hypothesis Hchain : chain h base (G1 ++ G2).
Hypothesis Hlow : ordered (base + sizeof_Header - 1) G1 bp.
Hypothesis Hhigh : ordered (bp + sizeof_Header * n - 1) G2 (hp_brk h).
Hypothesis Hn : 1 <= n.

Lemma bp_above : base + sizeof_Header <= bp + 1.
Proof using Hlow. pose proof (ordered_top_le _ _ _ Hlow). lia. Qed.

Lemma low_node A B : G1 = A ++ B -> base <= node A < bp.
Proof using Hlow.
  intros E. pose proof bp_above. unfold sizeof_Header in *.
  destruct A as [|[b m] A _] using rev_ind.
  - unfold node, node_from. simpl. lia.
  - unfold node. rewrite node_snoc.
    destruct (ordered_in _ _ _ b m Hlow) as (H1 & H2 & H3).
    { rewrite E, <-app_assoc. apply elem_of_app. right. by left. }
    unfold sizeof_Header in *. lia.
Qed.

Lemma round_at A B : G1 ++ G2 = A ++ B -> ptr (node A) h = Done (next_of B) h.
Proof using Hchain.
  intros E. rewrite E in Hchain. apply chain_app in Hchain as [_ Hc].
  unfold ptr, gets, node. by rewrite (chain_next _ _ _ Hc).
Qed.

Lemma node_app_cons A b m : node (A ++ [(b, m)]) = b.
Proof using. apply node_snoc. Qed.

Lemma search_low A B fuel : G1 = A ++ B -> (length B < fuel)%nat ->
  loop fuel (free_round bp) (node A) h = Done (node G1) h.
Proof using Hchain Hlow Hhigh Hn.
  revert A fuel. induction B as [|[b m] B IH]; intros A fuel E Hf; (destruct fuel as [|fuel]; [simpl in Hf; lia|]).
  - rewrite app_nil_r in E. subst A. apply loop_last. unfold free_round.
    rewrite (bind_done _ _ _ _ _ (round_at G1 G2 eq_refl)).
    pose proof (low_node G1 [] ltac:(by rewrite app_nil_r)).
    destruct G2 as [|[b2 n2] G2']; cbn [next_of].
    + replace ((node G1 <? bp) && (bp <? base)) with false by lia.
      by replace ((base <=? node G1) && ((node G1 <? bp) || (bp <? base))) with true by lia.
    + simpl in Hhigh. unfold sizeof_Header in Hhigh.
      by replace ((node G1 <? bp) && (bp <? b2)) with true by lia.
  - rewrite (loop_next _ _ _ _ b h).
    + rewrite <-(node_app_cons A b m). apply IH; [by rewrite <-app_assoc|simpl in Hf; lia].
    + unfold free_round. rewrite (bind_done _ _ _ _ _ (round_at A ((b, m) :: B ++ G2) ltac:(by rewrite E, <-app_assoc))).
      cbn [next_of]. pose proof (low_node (A ++ [(b, m)]) B ltac:(by rewrite <-app_assoc)) as Hb.
      rewrite node_app_cons in Hb.
      assert (Hlt : node A < b).
      { rewrite E in Hlow. apply ordered_app in Hlow as [O1 O2]. simpl in O2.
        destruct (node_bounds _ _ _ O1) as (_ & _ & Hx); [unfold sizeof_Header; lia|].
        pose proof (ordered_top_le _ _ _ O1). unfold sizeof_Header in *. lia. }
      replace ((node A <? bp) && (bp <? b)) with false by lia.
      by replace ((b <=? node A) && ((node A <? bp) || (bp <? b))) with false by lia.
Qed.

Lemma search_high A B fuel b0 m0 : G2 = A ++ (b0, m0) :: B -> (length B < fuel)%nat ->
  exists fuel', (fuel <= fuel' + S (length B))%nat /\
    loop fuel (free_round bp) b0 h = loop fuel' (free_round bp) base h.
Proof using Hchain Hlow Hhigh Hn.
  revert A b0 m0 fuel. induction B as [|[b m] B IH]; intros A b0 m0 fuel E Hf;
    (destruct fuel as [|fuel]; [simpl in Hf; lia|]);
    assert (Hb0 : bp < b0) by
      (destruct (ordered_in _ _ _ b0 m0 Hhigh) as (H1 & _ & _);
       [rewrite E; apply elem_of_app; right; by left|unfold sizeof_Header in *; lia]);
    pose proof bp_above as Hbp; unfold sizeof_Header in Hbp;
    assert (Hat : forall C, G2 = A ++ (b0, m0) :: C -> ptr b0 h = Done (next_of C) h) by
      (intros C EC; rewrite <-(node_app_cons (G1 ++ A) b0 m0);
       apply round_at; rewrite EC, <-!app_assoc; done).
  - exists fuel. split; [simpl; lia|]. apply loop_next. unfold free_round.
    rewrite (bind_done _ _ _ _ _ (Hat [] E)). cbn [next_of].
    replace ((b0 <? bp) && (bp <? base)) with false by lia.
    by replace ((base <=? b0) && ((b0 <? bp) || (bp <? base))) with false by lia.
  - destruct (IH (A ++ [(b0, m0)]) b m fuel) as (fuel' & Hf' & E'); [by rewrite <-app_assoc|simpl in Hf; lia|].
    exists fuel'. split; [simpl; lia|]. rewrite <-E'. apply loop_next. unfold free_round.
    rewrite (bind_done _ _ _ _ _ (Hat ((b, m) :: B) E)). cbn [next_of].
    assert (b0 < b).
    { rewrite E in Hhigh. apply ordered_app in Hhigh as [_ O]. simpl in O. unfold sizeof_Header in O. lia. }
    replace ((b0 <? bp) && (bp <? b)) with false by lia.
    by replace ((b <=? b0) && ((b0 <? bp) || (bp <? b))) with false by lia.
Qed.

(** From anywhere in the list the search finds the header below the block. *)
Lemma search_found F1 F2 fuel : G1 ++ G2 = F1 ++ F2 -> (S (length (G1 ++ G2)) < fuel)%nat ->
  loop fuel (free_round bp) (node F1) h = Done (node G1) h.
Proof using Hchain Hlow Hhigh Hn.
  intros E Hf. destruct (app_eq_inv _ _ _ _ E) as [(k & E1 & E2)|(k & E1 & E2)].
  - apply (search_low F1 k); [done|]. rewrite length_app, E1, length_app in Hf. lia.
  - subst F1. rewrite E2, !length_app in Hf. destruct k as [|[b0 m0] k' _] using rev_ind.
    + rewrite app_nil_r. apply (search_low G1 []); [by rewrite app_nil_r|simpl; lia].
    + rewrite app_assoc, node_app_cons. rewrite length_app in Hf. simpl in Hf.
      destruct (search_high k' F2 fuel b0 m0) as (fuel' & Hf' & ->).
      * by rewrite E2, <-app_assoc.
      * lia.
      * apply (search_low [] G1 fuel'); [done|]. lia.
Qed.
End free_proofs.

Section free_links.
Context `{HeapEnv}.

Lemma zinsert_if {A} (f : Z -> A) i x j : <[i := x]> f j = if decide (j = i) then x else f j.
Proof using. case_decide as E; [by rewrite E, fn_lookup_insert|]. by rewrite fn_lookup_insert_ne. Qed.

Lemma ordered_strict x F hi : ordered (x - 1) F hi -> x <= hi -> next_of F <> x -> ordered x F hi.
Proof using. destruct F as [|[b n] F]; simpl; [lia|]. intros (H1 & H2 & H3) _ Hne. split_and!; [lia|done|done]. Qed.

(** The first half of the linking: the block, maybe with its upper neighbour,
    in front of the rest of the list. *)
Definition link_up (bp next bsize : Z) : M heap unit :=
  if bp + sizeof_Header * bsize =? next then
    nsize <- size next ;;
    modify (set_size bp (u32 (bsize + nsize))) ;;
    nptr <- ptr next ;;
    modify (set_ptr bp nptr)
  else modify (set_ptr bp next).

Lemma link_up_spec h a G2 bp n :
  chain h a G2 -> ordered (bp + sizeof_Header * n - 1) G2 (hp_brk h) -> hp_size h bp = n ->
  1 <= n -> base + sizeof_Header <= bp -> 0 < base -> bp + sizeof_Header * n <= hp_brk h < 2 ^ 32 ->
  exists h1 N R, link_up bp (next_of G2) n h = Done tt h1 /\
    chain h1 bp R /\ hp_size h1 bp = N /\ ordered (bp + sizeof_Header * N) R (hp_brk h) /\ 1 <= N /\
    (forall x, x <> bp -> hp_ptr h1 x = hp_ptr h x /\ hp_size h1 x = hp_size h x) /\
    hp_freep h1 = hp_freep h /\ hp_brk h1 = hp_brk h /\ hp_calls h1 = hp_calls h /\
    (forall x, covers ((bp, N) :: R) x <-> covers ((bp, n) :: G2) x) /\ (length R <= length G2)%nat.
Proof using.
  intros Hc Ho Hs Hn Hb Hb0 Hbrk. unfold sizeof_Header in *.
  destruct (decide (bp + 16 * n = next_of G2)) as [E|E].
  - destruct G2 as [|[b2 n2] R]; simpl in E; [lia|]. simpl in Ho. destruct Ho as (O1 & O2 & O3).
    apply chain_cons in Hc as (_ & Hs2 & Hc). pose proof (ordered_top_le _ _ _ O3) as Ht.
    unfold sizeof_Header in *.
    exists (set_ptr bp (hp_ptr h b2) (set_size bp (n + n2) h)), (n + n2), R.
    refine (conj _ (conj _ (conj _ (conj _ (conj _ (conj _ (conj eq_refl (conj eq_refl (conj eq_refl _))))))))).
    + unfold link_up, size, ptr, gets, bind, modify. simpl.
      replace (bp + sizeof_Header * n =? b2) with true by (unfold sizeof_Header; lia). simpl.
      by rewrite Hs2, uwrap_small by lia.
    + eapply chain_frame; [exact Hc|simpl; by rewrite zinsert_if, decide_True|].
      intros b m Hin. destruct (ordered_in _ _ _ b m O3 Hin) as (Hlt & _). simpl.
      rewrite !zinsert_if, !decide_False by lia. done.
    + simpl. by rewrite zinsert_if, decide_True.
    + unfold sizeof_Header. replace (bp + 16 * (n + n2)) with (b2 + 16 * n2) by lia. exact O3.
    + lia.
    + intros x Hx. simpl. by rewrite !zinsert_if, !decide_False by done.
    + split; [|simpl; lia]. intros x. rewrite !covers_cons. unfold sizeof_Header. intuition lia.
  - exists (set_ptr bp (next_of G2) h), n, G2.
    refine (conj _ (conj _ (conj Hs (conj _ (conj Hn (conj _ (conj eq_refl (conj eq_refl (conj eq_refl _))))))))).
    + unfold link_up. replace (bp + sizeof_Header * n =? next_of G2) with false by (unfold sizeof_Header; lia). done.
    + eapply chain_frame; [exact Hc| |].
      * simpl. rewrite zinsert_if, decide_True by done. symmetry. by apply chain_next.
      * intros b m Hin. destruct (ordered_in _ _ _ b m Ho Hin) as (Hlt & _). simpl.
        rewrite !zinsert_if, !decide_False by lia. done.
    + unfold sizeof_Header. apply ordered_strict; [done|lia|congruence].
    + intros x Hx. simpl. by rewrite zinsert_if, decide_False by done.
    + by split.
Qed.

(** The second half: the header below, maybe merged with the block. *)
Definition link_down (p bp psize : Z) : M heap unit :=
  if p + sizeof_Header * psize =? bp then
    bsize <- size bp ;;
    modify (set_size p (u32 (psize + bsize))) ;;
    bptr <- ptr bp ;;
    modify (set_ptr p bptr)
  else modify (set_ptr p bp).

Lemma link_down_spec h G1 bp N R :
  path h base G1 -> ordered (base + sizeof_Header - 1) G1 bp -> hp_size h base = 0 ->
  chain h bp R -> hp_size h bp = N -> ordered (bp + sizeof_Header * N) R (hp_brk h) -> 1 <= N ->
  base + sizeof_Header <= bp -> 0 < base -> hp_brk h < 2 ^ 32 ->
  exists h1 F' F1 F2, link_down (node G1) bp (hp_size h (node G1)) h = Done tt h1 /\
    chain h1 base F' /\ ordered (base + sizeof_Header - 1) F' (hp_brk h) /\
    F' = F1 ++ F2 /\ node F1 = node G1 /\ hp_size h1 base = 0 /\
    (forall x, x <> node G1 -> hp_size h1 x = hp_size h x) /\
    hp_freep h1 = hp_freep h /\ hp_brk h1 = hp_brk h /\ hp_calls h1 = hp_calls h /\
    (forall x, covers F' x <-> covers G1 x \/ covers ((bp, N) :: R) x) /\
    (length F' <= S (length G1 + length R))%nat.
Proof using.
  intros Hp Ho Hs0 Hc Hs Hor HN Hb Hb0 Hbrk.
  pose proof (ordered_top_le _ _ _ Hor) as Ht. pose proof (low_node G1 bp Ho G1 [] ltac:(by rewrite app_nil_r)) as Hnode.
  assert (HR : forall b m, (b, m) ∈ R -> bp < b).
  { intros b m Hin. destruct (ordered_in _ _ _ b m Hor Hin) as (Hlt & _). unfold sizeof_Header in *. lia. }
  destruct (decide (node G1 + sizeof_Header * hp_size h (node G1) = bp)) as [E|E].
  - destruct G1 as [|[b1 n1] G _] using rev_ind.
    { unfold node, node_from in E. simpl in E. rewrite Hs0 in E. unfold sizeof_Header in *. lia. }
    unfold node in *. rewrite node_snoc in *. apply path_app in Hp as [Hp (Hp1 & Hs1 & _)].
    rewrite Hs1 in E. apply ordered_app in Ho as [O1 (O2 & O3 & O4)].
    destruct (node_bounds _ _ _ O1) as (_ & _ & Hx); [unfold sizeof_Header; lia|].
    pose proof (ordered_top_le _ _ _ O1) as Hto. unfold node in Hx.
    assert (Hlt1 : node_from base G < b1) by (unfold sizeof_Header in *; lia).
    set (h1 := set_ptr b1 (hp_ptr h bp) (set_size b1 (n1 + N) h)).
    exists h1, (G ++ (b1, n1 + N) :: R), (G ++ [(b1, n1 + N)]), R.
    unfold sizeof_Header in *.
    refine (conj _ (conj _ (conj _ (conj _ (conj _ (conj _ (conj _ (conj eq_refl (conj eq_refl (conj eq_refl _)))))))))).
    + unfold link_down, size, ptr, gets, bind, modify. rewrite Hs1. unfold sizeof_Header.
      replace (b1 + 16 * n1 =? bp) with true by lia. simpl. rewrite Hs, uwrap_small by lia.
      done.
    + apply chain_app. split.
      * eapply path_frame; [exact O1|unfold sizeof_Header; lia|exact Hp|..]; intros x Hx'; unfold h1; simpl;
          rewrite zinsert_if, decide_False by lia; done.
      * apply chain_cons. split_and!.
        -- unfold h1. simpl. rewrite zinsert_if, decide_False by lia. done.
        -- unfold h1. simpl. by rewrite zinsert_if, decide_True.
        -- eapply chain_frame; [exact Hc|unfold h1; simpl; by rewrite zinsert_if, decide_True|].
           intros b m Hin%HR. unfold h1. simpl. rewrite !zinsert_if, !decide_False by lia. done.
    + apply ordered_app. split; [done|]. simpl. unfold sizeof_Header in *. split_and!; [done|lia|].
      by replace (b1 + 16 * (n1 + N)) with (bp + 16 * N) by lia.
    + by rewrite <-app_assoc.
    + by rewrite node_snoc.
    + unfold h1. simpl. by rewrite zinsert_if, decide_False by lia.
    + intros x Hne. unfold h1. simpl. by rewrite zinsert_if, decide_False.
    + split; [|rewrite !length_app; simpl; lia]. intros x. rewrite !covers_app, !covers_cons. unfold sizeof_Header.
      assert (~ covers [] x) by (intros (? & ? & ?%not_elem_of_nil & _); done). intuition lia.
  - set (h1 := set_ptr (node G1) bp h).
    exists h1, (G1 ++ (bp, N) :: R), G1, ((bp, N) :: R).
    refine (conj _ (conj _ (conj _ (conj eq_refl (conj eq_refl (conj Hs0 (conj _ (conj eq_refl (conj eq_refl (conj eq_refl _)))))))))).
    + unfold link_down. by replace (_ =? bp) with false by lia.
    + apply chain_app. split.
      * eapply path_frame; [exact Ho|unfold sizeof_Header; lia|exact Hp|..]; intros x Hx'; unfold h1; simpl; [|done].
        rewrite zinsert_if, decide_False; [done|]. unfold node. lia.
      * apply chain_cons. split_and!.
        -- unfold h1. simpl. by rewrite zinsert_if, decide_True.
        -- done.
        -- eapply chain_frame; [exact Hc|unfold h1; simpl; by rewrite zinsert_if, decide_False by lia|].
           intros b m Hin%HR. unfold h1. simpl. rewrite !zinsert_if, !decide_False by lia. done.
    + apply ordered_app. apply ordered_top in Ho as [O1 O2]. split; [done|]. simpl. split_and!; [|done|done].
      destruct G1 as [|[b1 n1] G _] using rev_ind.
      * unfold top. simpl. unfold sizeof_Header in *. lia.
      * rewrite top_snoc in *. apply path_app in Hp as [_ (_ & Hs1 & _)]. unfold node in E.
        rewrite node_snoc, Hs1 in E. lia.
    + done.
    + split; [|rewrite length_app; simpl; lia]. intros x. rewrite covers_app. tauto.
Qed.

Lemma bind_gets {S A B} (f : S -> A) (k : A -> M S B) s : bind (gets f) k s = k (f s) s.
Proof using. done. Qed.

Lemma bind_ptr {B} p (k : Z -> M heap B) h : bind (ptr p) k h = k (hp_ptr h p) h.
Proof using. done. Qed.

Lemma bind_size {B} p (k : Z -> M heap B) h : bind (size p) k h = k (hp_size h p) h.
Proof using. done. Qed.

Lemma bind_modify {S B} (f : S -> S) (k : M S B) s : (modify f ;; k) s = k (f s).
Proof using. done. Qed.

Lemma max_blocks_length h F : heap_inv h F -> (S (length F) < max_blocks h)%nat.
Proof using.
  intros Hi. pose proof (ordered_length _ _ _ (hi_ordered _ _ Hi)) as Hl. unfold max_blocks, sizeof_Header in *.
  apply Nat2Z.inj_lt. rewrite Z2Nat.id by (pose proof (Z.div_pos (hp_brk h - base) 16); lia).
  pose proof (Z.div_mod (hp_brk h - base) 16). pose proof (Z.mod_pos_bound (hp_brk h - base) 16). lia.
Qed.
(** A block that is not free goes back to the list. *)
Lemma free_spec h F bp n : heap_inv h F -> clear_of bp n F -> hp_size h bp = n -> 1 <= n ->
  base + sizeof_Header <= bp -> bp + sizeof_Header * n <= hp_brk h ->
  exists h' F', free (bp + sizeof_Header) h = Done tt h' /\ heap_inv h' F' /\
    hp_brk h' = hp_brk h /\ hp_calls h' = hp_calls h /\
    (forall x, covers F' x <-> bp <= x < bp + sizeof_Header * n \/ covers F x) /\
    (forall x, x <> bp -> ~ covers F x -> hp_size h' x = hp_size h x) /\ (length F' <= S (length F))%nat.
Proof using.
  intros Hi Hcl Hs Hn Hbp Htop. pose proof Hi as [Hb Hs0 Hc Ho Hbrk (F1 & F2 & E12 & Hfp)].
  destruct (ordered_split _ _ _ bp n Ho) as (G1 & G2 & -> & O1 & O2); [lia|done|done|done|].
  pose proof Hc as [Hp1 Hc2]%chain_app.
  assert (Hsearch : loop (max_blocks h) (free_round bp) (hp_freep h) h = Done (node G1) h).
  { rewrite Hfp. eapply (search_found h G1 G2 bp n); [done..|]. by apply max_blocks_length. }
  destruct (link_up_spec h _ G2 bp n Hc2 O2 Hs Hn Hbp Hb (conj Htop Hbrk))
    as (h1 & N & R & E1 & C1 & S1 & R1 & HN & Fr1 & P1 & B1 & K1 & Cov1 & L1).
  pose proof (low_node G1 bp O1 G1 [] ltac:(by rewrite app_nil_r)) as Hnode.
  destruct (link_down_spec h1 G1 bp N R) as (h2 & F' & A1 & A2 & E2 & C2 & O2' & -> & N2 & S2 & Fr2 & P2 & B2 & K2 & Cov2 & L2).
  { eapply path_frame; [exact O1|unfold sizeof_Header; lia|exact Hp1|..];
      intros x Hx; apply Fr1; fold (node G1) in Hx; lia. }
  { done. } { rewrite <-Hs0. apply Fr1. unfold sizeof_Header in Hbp. lia. }
  { done. } { done. } { by rewrite B1. } { done. } { done. } { done. } { by rewrite B1. }
  exists (set_freep (node G1) h2), (A1 ++ A2).
  refine (conj _ (conj _ (conj _ (conj _ (conj _ (conj _ _)))))).
  - unfold free. replace (bp + sizeof_Header - sizeof_Header) with bp by lia.
    change (fun p : Z => n0 <- ptr p;; _) with (free_round bp).
    rewrite !bind_gets, (bind_done _ _ _ _ _ Hsearch), bind_size, Hs, bind_ptr.
    unfold node in *. rewrite (chain_next _ _ _ Hc2).
    fold (link_up bp (next_of G2) n). rewrite (bind_done _ _ _ _ _ E1).
    rewrite bind_size.
    fold (link_down (node_from base G1) bp (hp_size h1 (node_from base G1))).
    by rewrite (bind_done _ _ _ _ _ E2).
  - constructor; simpl; [done|done|by eapply chain_frame; [exact C2|..]|by rewrite B2|by rewrite B2, B1|].
    exists A1, A2. by rewrite N2.
  - simpl. congruence.
  - simpl. congruence.
  - intros x. rewrite Cov2, Cov1, covers_app, covers_cons. tauto.
  - intros x Hx Hnc. simpl. destruct (decide (x = node G1)) as [->|Hne].
    + destruct G1 as [|[b m] G _] using rev_ind.
      * unfold node, node_from in *. simpl in *. rewrite S2, Hs0. done.
      * exfalso. apply Hnc. exists b, m. unfold node. rewrite node_snoc.
        pose proof (ordered_in _ _ _ b m Ho ltac:(apply elem_of_app; left; apply elem_of_app; right; by left)).
        split; [apply elem_of_app; left; apply elem_of_app; right; by left|unfold sizeof_Header; lia].
    + rewrite Fr2 by done. by apply Fr1.
  - rewrite (length_app G1). lia.
Qed.
End free_links.

End Umalloc.
