(* ===== verification/MallocSpec.v ===== *)
(** * What [malloc] and [free] promise

    The search of [malloc], the way it cuts a block, and its clients: whatever
    the order of the calls, the allocated blocks are disjoint, inside the heap
    and large enough, and together with the free ones they are the heap. *)

From stdpp Require Import functions.
From S2P Require Import Prelude Params Umalloc.
Import Umalloc.

Module MallocSpec.

Section search.
Context `{HeapEnv}.

Lemma node_below lo A b n C hi : ordered lo (A ++ (b, n) :: C) hi -> base <= lo ->
  node A < b /\ node A < next_of ((b, n) :: C) /\ (forall c m, (c, m) ∈ C -> b < c).
Proof using.
  intros Ho Hlo. apply ordered_app in Ho as [O1 (O2 & O3 & O4)].
  destruct (node_bounds _ _ _ O1 Hlo) as (_ & _ & Hx). pose proof (ordered_top_le _ _ _ O1) as Ht.
  split_and!; [lia|simpl; lia|]. intros c m Hin. destruct (ordered_in _ _ _ c m O4 Hin) as (Hlt & _).
  unfold sizeof_Header in *. lia.
Qed.

(** Sizes and links of other addresses do not matter to a list. *)
Lemma hi_next h F A B : heap_inv h F -> F = A ++ B -> hp_ptr h (node A) = next_of B.
Proof using. intros Hi ->. apply hi_chain in Hi. apply chain_app in Hi as [_ Hc]. by apply chain_next. Qed.

Lemma hi_block h F A b n B : heap_inv h F -> F = A ++ (b, n) :: B -> hp_size h b = n.
Proof using. intros Hi ->. apply hi_chain in Hi. apply chain_app in Hi as [_ Hc]. by apply chain_cons in Hc as (_ & ? & _). Qed.

(** [q] is a block of [n] headers taken from the free blocks [F], which leaves [F']. *)
Record taken (h : heap) (F : blocks) (n q : Z) (h' : heap) (F' : blocks) : Prop := {
  tk_inv : heap_inv h' F';
  tk_size : hp_size h' q = n;
  tk_brk : hp_brk h' = hp_brk h;
  tk_calls : hp_calls h' = hp_calls h;
  tk_low : base + sizeof_Header <= q;
  tk_in : forall x, q <= x < q + sizeof_Header * n -> covers F x;
  tk_clear : clear_of q n F';
  tk_covers : forall x, covers F x <-> covers F' x \/ q <= x < q + sizeof_Header * n;
  tk_frame : forall x, ~ covers F x -> hp_size h' x = hp_size h x;
}.

Context (nunits : Z).
Hypothesis Hnu : 1 <= nunits.

(** The block is used up. *)
Lemma take_all h F A b C : heap_inv h F -> F = A ++ (b, nunits) :: C ->
  taken h F nunits b (set_freep (node A) (set_ptr (node A) (hp_ptr h b) h)) (A ++ C).
Proof using Hnu.
  intros Hi E. pose proof Hi as [Hb Hs0 Hc Ho Hbrk _]. subst F.
  pose proof Hc as [Hp1 (Hpb & Hsb & Hc2)%chain_cons]%chain_app.
  destruct (node_below _ _ _ _ _ _ Ho) as (Hlt & _ & HC); [unfold sizeof_Header; lia|].
  pose proof Ho as [O1 (O2 & O3 & O4)]%ordered_app. pose proof (ordered_top_le _ _ _ O1) as Ht.
  assert (Hcov : forall x, covers (A ++ (b, nunits) :: C) x <->
                 covers (A ++ C) x \/ b <= x < b + sizeof_Header * nunits).
  { intros x. rewrite !covers_app, covers_cons. tauto. }
  constructor; simpl; [|done|done|done|lia|intros x Hx; apply Hcov; by right| |exact Hcov|done].
  - constructor; simpl; [done|done| | |done|by exists A, C].
    + apply chain_app. fold (node A). split.
      * eapply path_frame; [exact O1|unfold sizeof_Header; lia|exact Hp1| |done].
        intros x Hx. simpl. rewrite zinsert_if, decide_False; [done|]. fold (node A) in Hx. lia.
      * eapply chain_frame; [exact Hc2|simpl; by rewrite zinsert_if, decide_True|].
        intros c m Hin%HC. simpl. by rewrite zinsert_if, decide_False by lia.
    + apply ordered_app. split; [done|]. eapply ordered_weaken; [|reflexivity|exact O4].
      unfold sizeof_Header in *. lia.
  - intros c m [Hin|Hin]%elem_of_app.
    + left. destruct (ordered_in _ _ _ c m O1 Hin). unfold sizeof_Header in *. lia.
    + right. destruct (ordered_in _ _ _ c m O4 Hin). unfold sizeof_Header in *. lia.
Qed.

(** The tail end of the block is cut off. *)
Lemma take_tail h F A b n C : heap_inv h F -> F = A ++ (b, n) :: C -> nunits < n ->
  taken h F nunits (b + sizeof_Header * (n - nunits))
    (set_freep (node A) (set_size (b + sizeof_Header * (n - nunits)) nunits (set_size b (n - nunits) h)))
    (A ++ (b, n - nunits) :: C).
Proof using Hnu.
  intros Hi E Hn. pose proof Hi as [Hb Hs0 Hc Ho Hbrk _]. subst F.
  pose proof Hc as [Hp1 (Hpb & Hsb & Hc2)%chain_cons]%chain_app.
  destruct (node_below _ _ _ _ _ _ Ho) as (Hlt & _ & HC); [unfold sizeof_Header; lia|].
  pose proof Ho as [O1 (O2 & O3 & O4)]%ordered_app. pose proof (ordered_top_le _ _ _ O1) as Ht.
  set (q := b + sizeof_Header * (n - nunits)).
  assert (Hq : b < q /\ q + sizeof_Header * nunits = b + sizeof_Header * n) by (unfold q, sizeof_Header; lia).
  assert (Hcov : forall x, covers (A ++ (b, n) :: C) x <->
                 covers (A ++ (b, n - nunits) :: C) x \/ q <= x < q + sizeof_Header * nunits).
  { intros x. rewrite !covers_app, !covers_cons. fold q.
    destruct Hq as [Hq1 Hq2]. unfold sizeof_Header in *. intuition lia. }
  assert (HCq : forall c m, (c, m) ∈ C -> b < c /\ q <> c).
  { intros c m Hin. destruct (ordered_in _ _ _ c m O4 Hin). unfold sizeof_Header in *. lia. }
  assert (Hbase : base < b) by (unfold sizeof_Header in *; lia).
  constructor; simpl; [|by rewrite zinsert_if, decide_True|done|done|lia|intros x Hx; apply Hcov; by right| |exact Hcov|].
  - constructor; simpl; [done|by rewrite !zinsert_if, !decide_False by lia| | |done|by exists A, ((b, n - nunits) :: C)].
    + apply chain_app. split.
      * eapply path_frame; [exact O1|unfold sizeof_Header; lia|exact Hp1|done|].
        intros x Hx. simpl. rewrite !zinsert_if, !decide_False; [done|..]; fold (node A) in Hx; lia.
      * apply chain_cons. simpl. split_and!; [done|by rewrite zinsert_if, decide_False, zinsert_if, decide_True by lia|].
        eapply chain_frame; [exact Hc2|done|]. intros c m Hin%HCq. simpl.
        by rewrite !zinsert_if, !decide_False by lia.
    + apply ordered_app. split; [done|]. simpl. split_and!; [done|lia|]. fold q.
      eapply ordered_weaken; [|reflexivity|exact O4]. unfold sizeof_Header in *. lia.
  - intros c m [Hin|[Hin|Hin]%elem_of_cons]%elem_of_app.
    + left. destruct (ordered_in _ _ _ c m O1 Hin). lia.
    + left. simplify_eq. lia.
    + right. destruct (ordered_in _ _ _ c m O4 Hin). lia.
  - intros x Hx. rewrite !zinsert_if, !decide_False; [done|..]; intros ->; apply Hx, covers_app; right; apply covers_cons; left;
      unfold sizeof_Header in *; lia.
Qed.

(** The round that finds a block. *)
Lemma round_hit h F A b n C : heap_inv h F -> F = A ++ (b, n) :: C -> nunits <= n ->
  exists q h' F', malloc_round nunits (node A, b) h = Done (inr (q + sizeof_Header)) h' /\ taken h F nunits q h' F'.
Proof using Hnu.
  intros Hi E Hn. pose proof (hi_block _ _ _ _ _ _ Hi E) as Hs. unfold malloc_round. rewrite bind_size, Hs.
  replace (nunits <=? n) with true by lia. destruct (decide (n = nunits)) as [->|Hne].
  - rewrite Z.eqb_refl. exists b. eexists _, (A ++ C). split; [reflexivity|]. by apply (take_all h F A b C).
  - replace (n =? nunits) with false by lia. exists (b + sizeof_Header * (n - nunits)).
    eexists _, (A ++ (b, n - nunits) :: C). split; [|by apply (take_tail h F A b n C); [..|lia]].
    assert (Hsm : u32 (n - nunits) = n - nunits).
    { apply uwrap_small. pose proof (hi_ordered _ _ Hi) as Ho. rewrite E in Ho.
      destruct (ordered_in _ _ _ b n Ho ltac:(apply elem_of_app; right; by left)).
      pose proof (hi_brk _ _ Hi). pose proof (hi_base _ _ Hi). unfold sizeof_Header in *. lia. }
    rewrite Hsm. unfold bind, modify, size, gets, ret. simpl. by rewrite zinsert_if, decide_True.
Qed.

(** A round that passes a header. *)
Lemma round_pass h prevp p : hp_size h p < nunits -> p <> hp_freep h ->
  malloc_round nunits (prevp, p) h = Done (inl (p, hp_ptr h p)) h.
Proof using.
  intros Hs Hp. unfold malloc_round. rewrite bind_size.
  replace (nunits <=? hp_size h p) with false by lia. rewrite bind_gets.
  by replace (p =? hp_freep h) with false by lia.
Qed.

Lemma walk h F A B C : heap_inv h F -> F = A ++ B ++ C ->
  (forall b n, (b, n) ∈ B -> n < nunits /\ b <> hp_freep h) ->
  forall k, loop (length B + k) (malloc_round nunits) (node A, next_of (B ++ C)) h =
            loop k (malloc_round nunits) (node (A ++ B), next_of C) h.
Proof using.
  intros Hi. revert A. induction B as [|[b n] B IH]; intros A E HB k; [by rewrite app_nil_r|].
  destruct (HB b n) as [Hn Hb]; [by left|]. cbn [length Nat.add app next_of].
  rewrite (loop_next _ _ _ _ (b, next_of (B ++ C)) h).
  - specialize (IH (A ++ [(b, n)])). unfold node at 1 in IH. rewrite node_snoc, <-!app_assoc in IH.
    apply IH; [done|]. intros c m Hin. apply HB. by right.
  - rewrite round_pass; [|by rewrite (hi_block _ _ _ _ _ _ Hi E)|done].
    replace (hp_ptr h b) with (next_of (B ++ C)); [done|]. symmetry.
    rewrite <-(node_snoc base A b n). apply (hi_next h F (A ++ [(b, n)])); [done|]. by rewrite <-app_assoc.
Qed.

Lemma walk_hit h F A B b n C k : heap_inv h F -> F = A ++ B ++ (b, n) :: C ->
  (forall c m, (c, m) ∈ B -> m < nunits /\ c <> hp_freep h) -> nunits <= n -> (length B < k)%nat ->
  exists q h' F', loop k (malloc_round nunits) (node A, next_of (B ++ (b, n) :: C)) h = Done (q + sizeof_Header) h' /\
    taken h F nunits q h' F'.
Proof using Hnu.
  intros Hi E HB Hn Hk.
  destruct (round_hit h F (A ++ B) b n C Hi) as (q & h' & F' & Er & Ht); [by rewrite <-app_assoc|done|].
  exists q, h', F'. split; [|done].
  replace k with (length B + S (k - length B - 1))%nat by lia.
  rewrite (walk h F A B ((b, n) :: C) Hi E HB). by apply loop_last.
Qed.

Lemma snoc_cases {A} (l : list A) : l = [] \/ exists l' x, l = l' ++ [x].
Proof using. destruct l as [|x l _] using rev_ind; eauto. Qed.

(** Where the walk starts: at the header after [freep]. *)
Section walks.
Context (h : heap) (F1 F2 : blocks).
Hypothesis Hi : heap_inv h (F1 ++ F2).
Hypothesis Hfp : hp_freep h = node F1.

Lemma freep_not_above b n : (b, n) ∈ F2 -> b <> hp_freep h.
Proof using Hi Hfp.
  intros (L & R & ->)%list_elem_of_split. rewrite Hfp.
  pose proof (hi_ordered _ _ Hi) as Ho. rewrite app_assoc in Ho.
  destruct (node_below _ _ _ _ _ _ Ho) as (Hlt & _); [unfold sizeof_Header; lia|].
  assert (node F1 <= node (F1 ++ L)); [|lia]. unfold node. rewrite node_from_app.
  rewrite <-app_assoc in Ho. pose proof Ho as [O1 [O2 _]%ordered_app]%ordered_app.
  eapply node_from_ge; [exact O2|].
  destruct (node_bounds _ _ _ O1) as (_ & _ & Hx); [unfold sizeof_Header; lia|].
  pose proof (ordered_top_le _ _ _ O1). unfold node, sizeof_Header in *. lia.
Qed.

Lemma freep_not_below B b n C : F1 = B ++ (b, n) :: C -> forall c m, (c, m) ∈ B -> c <> hp_freep h.
Proof using Hi Hfp.
  intros E c m Hin. pose proof (hi_ordered _ _ Hi) as Ho. apply ordered_app in Ho as [Ho _]. rewrite E in Ho.
  apply ordered_app in Ho as [O1 (O2 & O3 & O4)]. destruct (ordered_in _ _ _ c m O1 Hin) as (_ & Hm & Hc).
  rewrite Hfp, E. unfold node. rewrite node_from_app, node_from_cons.
  pose proof (node_from_ge b _ _ _ O4). unfold sizeof_Header in *. lia.
Qed.

(** Past the upper end of the list the walk goes on below. *)
Lemma walk_around : (forall b n, (b, n) ∈ F2 -> n < nunits) -> F1 <> [] ->
  forall k, loop (length F2 + S k) (malloc_round nunits) (node F1, next_of F2) h =
            loop k (malloc_round nunits) (node [], next_of (F1 ++ F2)) h.
Proof using Hi Hfp Hnu.
  intros H2 Hne k. pose proof (walk h (F1 ++ F2) F1 F2 [] Hi ltac:(by rewrite app_nil_r)) as W.
  rewrite app_nil_r in W. rewrite W by (intros b n Hin; split; [by eapply H2|by eapply freep_not_above]).
  apply loop_next. cbn [next_of]. rewrite round_pass.
  - replace (hp_ptr h base) with (next_of (F1 ++ F2)); [done|]. symmetry. by apply (hi_next h (F1 ++ F2) []).
  - rewrite (hi_size0 _ _ Hi). lia.
  - pose proof (hi_ordered _ _ Hi) as Ho. apply ordered_app in Ho as [Ho _].
    destruct (node_bounds _ _ _ Ho) as (_ & Hx & _); [unfold sizeof_Header; lia|]. specialize (Hx Hne).
    rewrite Hfp. unfold sizeof_Header in *. lia.
Qed.

(** When some free block is large enough one is found. *)
Lemma search_hit b n k : (b, n) ∈ F1 ++ F2 -> nunits <= n -> (length (F1 ++ F2) < k)%nat ->
  exists q h' F', loop k (malloc_round nunits) (node F1, next_of F2) h = Done (q + sizeof_Header) h' /\
    taken h (F1 ++ F2) nunits q h' F'.
Proof using Hi Hfp Hnu.
  intros Hin Hn Hk. rewrite length_app in Hk.
  destruct (list_first (fun x => nunits <=? x.2) F2) as [(L & [c m] & R & E & Hm & HL)|H2].
  - simpl in Hm. replace (next_of F2) with (next_of (L ++ (c, m) :: R)) by (by rewrite E). apply (walk_hit h (F1 ++ F2) F1 L c m R k); [done|by rewrite E| |lia|].
    + intros d e Hd. pose proof (HL _ Hd). simpl in *. split; [lia|].
      apply (freep_not_above d e). rewrite E. apply elem_of_app. by left.
    + rewrite E, length_app in Hk. simpl in Hk. lia.
  - destruct (list_first (fun x => nunits <=? x.2) F1) as [(L & [c m] & R & E & Hm & HL)|H1].
    + simpl in Hm. replace k with (length F2 + S (k - length F2 - 1))%nat by lia.
      rewrite walk_around; [|intros d e Hd; pose proof (H2 _ Hd); simpl in *; lia|intros E'; rewrite E in E'; by destruct L].
      replace (next_of (F1 ++ F2)) with (next_of (L ++ (c, m) :: R ++ F2)) by (by rewrite E, <-app_assoc).
      apply (walk_hit h (F1 ++ F2) [] L c m (R ++ F2)); [done|by rewrite E, <-app_assoc| |lia|].
      * intros d e Hd. pose proof (HL _ Hd). simpl in *. split; [lia|]. by eapply freep_not_below.
      * rewrite E, length_app in Hk. simpl in Hk. lia.
    + exfalso. apply elem_of_app in Hin as [Hin|Hin]; [apply H1 in Hin|apply H2 in Hin]; simpl in Hin; lia.
Qed.

(** When none is, the walk comes back to [freep]. *)
Lemma search_miss : (forall b n, (b, n) ∈ F1 ++ F2 -> n < nunits) ->
  exists q j, (j <= length (F1 ++ F2))%nat /\ hp_size h (hp_freep h) < nunits /\
    forall k, loop (j + k) (malloc_round nunits) (node F1, next_of F2) h =
              loop k (malloc_round nunits) (q, hp_freep h) h.
Proof using Hi Hfp Hnu.
  intros HF. rewrite length_app.
  assert (H2 : forall b n, (b, n) ∈ F2 -> n < nunits) by (intros b n Hin; apply (HF b n), elem_of_app; by right).
  destruct (snoc_cases F1) as [E|(L & [b m] & E)].
  - exists (node F2), (length F2). pose proof Hfp as Hb. rewrite E in Hb. unfold node, node_from in Hb. simpl in Hb.
    split_and!; [lia|rewrite Hb, (hi_size0 _ _ Hi); lia|]. intros k. rewrite Hb.
    pose proof (walk h (F1 ++ F2) F1 F2 [] Hi ltac:(by rewrite app_nil_r)) as W. rewrite app_nil_r in W.
    rewrite W by (intros c n Hin; split; [by eapply H2|by eapply freep_not_above]). by rewrite E.
  - exists (node L), (length F2 + S (length L))%nat.
    assert (Hb : hp_freep h = b) by (rewrite Hfp, E; apply node_snoc).
    assert (EL : F1 ++ F2 = L ++ (b, m) :: F2) by (by rewrite E, <-app_assoc).
    assert (HL : length F1 = S (length L)) by (rewrite E, length_app; simpl; lia).
    split_and!; [lia| |].
    + rewrite Hb, (hi_block h _ L b m F2 Hi EL). apply (HF b m). rewrite EL. apply elem_of_app. right. by left.
    + intros k. replace (length F2 + S (length L) + k)%nat with (length F2 + S (length L + k))%nat by lia.
      rewrite walk_around by (done || (intros E'; by rewrite E' in HL)). rewrite EL, Hb.
      apply (walk h (F1 ++ F2) [] L ((b, m) :: F2)); [done|done|].
      intros c n Hin. split; [|by eapply (freep_not_below L b m [])].
      apply (HF c n). rewrite EL. apply elem_of_app. by left.
Qed.
End walks.
End search.

(** ** malloc *)

(** No free block starts where another ends, so a stretch of free memory is in one block. *)
Lemma ordered_gap lo F hi b n : ordered lo F hi -> (b, n) ∈ F -> ~ covers F (b + sizeof_Header * n).
Proof.
  intros Ho (L & R & ->)%list_elem_of_split (c & m & Hin & Hx).
  apply ordered_app in Ho as [O1 (O2 & O3 & O4)].
  apply elem_of_app in Hin as [Hin|[Hin|Hin]%elem_of_cons]; [|simplify_eq; lia|].
  - destruct (ordered_in _ _ _ c m O1 Hin). unfold sizeof_Header in *. lia.
  - destruct (ordered_in _ _ _ c m O4 Hin). lia.
Qed.

Lemma stretch_in_block lo F hi x n : ordered lo F hi -> 1 <= n ->
  (forall y, x <= y < x + sizeof_Header * n -> covers F y) ->
  exists b m, (b, m) ∈ F /\ n <= m.
Proof.
  intros Ho Hn Hx. destruct (Hx x) as (b & m & Hin & Hb); [unfold sizeof_Header; lia|].
  exists b, m. split; [done|]. destruct (decide (b + sizeof_Header * m < x + sizeof_Header * n)) as [Hlt|Hge].
  - exfalso. eapply ordered_gap; [exact Ho|exact Hin|]. apply Hx. lia.
  - unfold sizeof_Header in *. lia.
Qed.

Definition nunits_of (nbytes : Z) : Z := (nbytes + sizeof_Header - 1) / sizeof_Header + 1.

(** What the heap grows by for a request of [nu] headers. *)
Definition growth (nu : Z) : Z := sizeof_Header * Z.max 4096 nu.

Section malloc.
Context `{HeapEnv}.

(** The end of the heap stays below 4 GiB: the machine has 128 MiB of memory. *)
Definition sbrk_limit : Prop := forall k e, sbrk_ok k e = true -> e < 2 ^ 32.
Hypothesis Hlimit : sbrk_limit.

Lemma morecore_fails h nu : 1 <= nu -> sizeof_Header * nu < 2 ^ 31 ->
  sbrk_ok (hp_calls h) (hp_brk h + growth nu) = false ->
  morecore nu h = Done None (Heap (hp_ptr h) (hp_size h) (hp_freep h) (hp_brk h) (S (hp_calls h))).
Proof using.
  intros H1 H2 Hk. unfold morecore.
  replace (if nu <? 4096 then 4096 else nu) with (Z.max 4096 nu) by (destruct (Z.ltb_spec nu 4096); lia).
  unfold sbrk. rewrite swrap_small by (unfold sizeof_Header in *; lia).
  unfold growth in Hk. rewrite Z.mul_comm in Hk. unfold bind at 1. by rewrite Hk.
Qed.

(** New memory joins the free list, and the request fits. *)
Lemma morecore_grows h F nu : heap_inv h F -> 1 <= nu -> sizeof_Header * nu < 2 ^ 31 ->
  base + sizeof_Header <= hp_brk h -> sbrk_ok (hp_calls h) (hp_brk h + growth nu) = true ->
  exists h' F' b n, morecore nu h = Done (Some (hp_freep h')) h' /\ heap_inv h' F' /\
    hp_brk h' = hp_brk h + growth nu /\ hp_calls h' = S (hp_calls h) /\
    (forall x, covers F' x <-> covers F x \/ hp_brk h <= x < hp_brk h') /\
    (forall x, x < hp_brk h -> ~ covers F x -> hp_size h' x = hp_size h x) /\
    (length F' <= S (length F))%nat /\ (b, n) ∈ F' /\ nu <= n.
Proof using Hlimit.
  intros Hi H1 H2 Hb Hk. set (n := Z.max 4096 nu).
  assert (Hg : growth nu = sizeof_Header * n) by done.
  set (h0 := set_size (hp_brk h) n (Heap (hp_ptr h) (hp_size h) (hp_freep h) (hp_brk h + growth nu) (S (hp_calls h)))).
  assert (Hin : forall b m, (b, m) ∈ F -> base < b < hp_brk h /\ b + sizeof_Header * m <= hp_brk h).
  { intros b m Hin. destruct (ordered_in _ _ _ b m (hi_ordered _ _ Hi) Hin). unfold sizeof_Header in *. lia. }
  destruct (free_spec h0 F (hp_brk h) n) as (h' & F' & E & Hi' & B' & K' & Cov & Fr & Hl).
  - destruct Hi as [I1 I2 I3 I4 I5 I6]. constructor; simpl; [done| | | |by apply Hlimit in Hk|done].
    + rewrite zinsert_if, decide_False; [done|]. unfold sizeof_Header in Hb. lia.
    + eapply chain_frame; [exact I3|done|]. intros b m Hbm%Hin. simpl. rewrite zinsert_if, decide_False by lia. done.
    + eapply ordered_weaken; [reflexivity| |exact I4]. unfold growth, sizeof_Header. lia.
  - intros b m Hbm%Hin. left. lia.
  - simpl. by rewrite zinsert_if, decide_True.
  - unfold n. lia.
  - done.
  - simpl. unfold growth, n. lia.
  - simpl in B', K', Fr. exists h', F'.
    assert (Cov' : forall x, covers F' x <-> covers F x \/ hp_brk h <= x < hp_brk h').
    { intros x. rewrite Cov, B', Hg. tauto. }
    destruct (stretch_in_block _ F' _ (hp_brk h) n (hi_ordered _ _ Hi')) as (b & m & Hbm & Hm); [unfold n; lia| |].
    { intros y Hy. apply Cov'. right. by rewrite B', Hg. }
    exists b, m. refine (conj _ (conj Hi' (conj B' (conj K' (conj Cov' (conj _ (conj Hl (conj Hbm _)))))))).
    + unfold morecore. replace (if nu <? 4096 then 4096 else nu) with n by (unfold n; destruct (Z.ltb_spec nu 4096); lia).
      unfold sbrk. rewrite swrap_small by (unfold n, sizeof_Header in *; lia).
      rewrite Z.mul_comm, <-Hg. unfold bind at 1. rewrite Hk. pose proof (hi_base _ _ Hi). unfold sizeof_Header in Hb.
      cbn [obind]. replace (hp_brk h =? -1) with false by lia. rewrite bind_modify. fold h0.
      rewrite (bind_done _ _ _ _ _ E). done.
    + intros x Hx Hnc. rewrite Fr by (lia || done). rewrite zinsert_if, decide_False by lia. done.
    + unfold n in Hm. lia.
Qed.

(** [q] is a block of [n] headers that was free or is new. *)
Record allocated (h : heap) (F : blocks) (n q : Z) (h' : heap) (F' : blocks) : Prop := {
  al_inv : heap_inv h' F';
  al_size : hp_size h' q = n;
  al_brk : hp_brk h <= hp_brk h';
  al_low : base + sizeof_Header <= q;
  al_clear : clear_of q n F';
  al_covers : forall x, covers F x \/ hp_brk h <= x < hp_brk h' <->
                        covers F' x \/ q <= x < q + sizeof_Header * n;
  al_frame : forall x, x < hp_brk h -> ~ covers F x -> hp_size h' x = hp_size h x;
}.

(** The first call makes the list. *)
Definition initialised (h : heap) : heap :=
  if hp_freep h =? 0 then set_size base 0 (set_freep base (set_ptr base base h)) else h.

Lemma malloc_eq h nbytes F1 F2 : heap_inv (initialised h) (F1 ++ F2) -> hp_freep (initialised h) = node F1 ->
  malloc nbytes h = loop (2 * max_blocks (initialised h) + 2) (malloc_round (nunits_of nbytes))
                      (node F1, next_of F2) (initialised h).
Proof using.
  intros Hi Hfp. unfold malloc. fold (nunits_of nbytes). rewrite bind_gets.
  rewrite <-(hi_next _ _ F1 F2 Hi eq_refl), <-Hfp. unfold initialised. by destruct (hp_freep h =? 0).
Qed.

Lemma nunits_bound nbytes : 0 <= nbytes -> nbytes <= sizeof_Header * (nunits_of nbytes - 1) < nbytes + 16.
Proof using.
  intros Hn. unfold nunits_of, sizeof_Header.
  pose proof (Z.div_mod (nbytes + 16 - 1) 16). pose proof (Z.mod_pos_bound (nbytes + 16 - 1) 16). lia.
Qed.

(** Every call of [malloc] returns: a block, or 0 when no free block is large
    enough and the heap cannot grow. *)
Lemma malloc_spec h F nbytes : heap_inv (initialised h) F -> base + sizeof_Header <= hp_brk h ->
  0 <= nbytes <= 2 ^ 31 - 32 ->
  let n := nunits_of nbytes in
  (exists q h' F', malloc nbytes h = Done (q + sizeof_Header) h' /\ allocated (initialised h) F n q h' F') \/
  (exists h', malloc nbytes h = Done 0 h' /\ heap_inv h' F /\ hp_brk h' = hp_brk h /\
     hp_size h' = hp_size (initialised h) /\
     (forall b m, (b, m) ∈ F -> m < n) /\ sbrk_ok (hp_calls h) (hp_brk h + growth n) = false).
Proof using Hlimit.
  intros Hi Hb Hn n. destruct (hi_freep _ _ Hi) as (F1 & F2 & -> & Hfp). rewrite (malloc_eq h nbytes F1 F2 Hi Hfp).
  fold n. pose proof (max_blocks_length _ _ Hi) as Hlen. pose proof (nunits_bound nbytes) as Hu. fold n in Hu.
  assert (Hn1 : 1 <= n) by (unfold sizeof_Header in *; lia).
  assert (Hn2 : sizeof_Header * n < 2 ^ 31) by (unfold sizeof_Header in *; lia).
  assert (Ebrk : hp_brk (initialised h) = hp_brk h) by (unfold initialised; by destruct (hp_freep h =? 0)).
  assert (Ecalls : hp_calls (initialised h) = hp_calls h) by (unfold initialised; by destruct (hp_freep h =? 0)).
  set (k := max_blocks (initialised h)) in *.
  destruct (list_first (fun x => n <=? x.2) (F1 ++ F2)) as [(L & [b m] & R & E & Hm & _)|HF].
  { left. destruct (search_hit n Hn1 _ F1 F2 Hi Hfp b m (2 * k + 2)) as (q & h' & F' & El & T).
    - rewrite E. apply elem_of_app. right. by left.
    - simpl in Hm. lia.
    - lia.
    - exists q, h', F'. split; [exact El|]. destruct T as [T1 T2 T3 T4 T5 T6 T7 T8 T9].
      constructor; [done|done|lia|done|done| |by intros x _; apply T9].
      intros x. rewrite <-T8, T3. split; [|tauto]. intros [?|?]; [done|lia]. }
  assert (HF' : forall b m, (b, m) ∈ F1 ++ F2 -> m < n) by (intros b m Hin; apply HF in Hin; simpl in Hin; lia).
  destruct (search_miss n Hn1 _ F1 F2 Hi Hfp HF') as (q & j & Hj & Hsz & Hloop).
  replace (2 * k + 2)%nat with (j + S (2 * k + 1 - j))%nat by lia. rewrite Hloop.
  assert (Hround : forall r h1, morecore n (initialised h) = Done r h1 ->
    malloc_round n (q, hp_freep (initialised h)) (initialised h) =
    match r with None => Done (inr 0) h1 | Some p => Done (inl (p, hp_ptr h1 p)) h1 end).
  { intros r h1 Er. unfold malloc_round. rewrite bind_size.
    replace (n <=? hp_size (initialised h) (hp_freep (initialised h))) with false by lia.
    rewrite bind_gets, Z.eqb_refl, (bind_done _ _ _ _ _ Er). by destruct r. }
  destruct (sbrk_ok (hp_calls h) (hp_brk h + growth n)) eqn:Hk; rewrite <-Ecalls, <-Ebrk in Hk.
  - left. destruct (morecore_grows _ _ n Hi Hn1 Hn2 ltac:(lia) Hk) as (h1 & G & b & m & E1 & Hi1 & B1 & K1 & Cov1 & Fr1 & Hl & Hin & Hm).
    rewrite (loop_next _ _ _ _ _ _ (Hround _ _ E1)).
    destruct (hi_freep _ _ Hi1) as (G1 & G2 & -> & Hfp1). rewrite Hfp1, (hi_next _ _ G1 G2 Hi1 eq_refl).
    destruct (search_hit n Hn1 h1 G1 G2 Hi1 Hfp1 b m (2 * k + 1 - j)) as (q' & h' & F' & El & T); [done|done|lia|].
    exists q', h', F'. split; [exact El|]. destruct T as [T1 T2 T3 T4 T5 T6 T7 T8 T9].
    constructor; [done|done|unfold growth, sizeof_Header in B1; lia|done|done| |].
    + intros x. rewrite <-T8, Cov1, T3. tauto.
    + intros x Hx Hnc. rewrite T9; [by apply Fr1|]. rewrite Cov1. intros [?|?]; [done|lia].
  - right. pose proof (morecore_fails _ _ Hn1 Hn2 Hk) as Ef.
    eexists. split; [apply loop_last, (Hround _ _ Ef)|]. rewrite <-Ebrk. simpl.
    split_and!; [|done|done|done|done]. destruct Hi as [I1 I2 I3 I4 I5 I6].
    constructor; simpl; [done|done| |done|done|done]. by eapply chain_frame; [exact I3|..].
Qed.

(** ** A program that allocates and frees *)

(** The heap and the blocks that the program holds. *)
Record client := Client { cl_heap : heap; cl_live : blocks }.

Inductive client_step : client -> client -> Prop :=
| client_malloc nbytes h live ap h' :
    0 <= nbytes <= 2 ^ 31 - 32 -> malloc nbytes h = Done ap h' -> ap <> 0 ->
    client_step (Client h live) (Client h' ((ap - sizeof_Header, nunits_of nbytes) :: live))
| client_malloc_fails nbytes h live h' :
    0 <= nbytes <= 2 ^ 31 - 32 -> malloc nbytes h = Done 0 h' ->
    client_step (Client h live) (Client h' live)
| client_free h L b n R h' :
    free (b + sizeof_Header) h = Done tt h' ->
    client_step (Client h (L ++ (b, n) :: R)) (Client h' (L ++ R)).

(** No two blocks overlap. *)
Fixpoint separate (l : blocks) : Prop :=
  match l with [] => True | (b, n) :: l' => clear_of b n l' /\ separate l' end.

Lemma clear_of_cons b n c m l : clear_of b n ((c, m) :: l) <->
  (c + sizeof_Header * m <= b \/ b + sizeof_Header * n <= c) /\ clear_of b n l.
Proof using.
  unfold clear_of. setoid_rewrite elem_of_cons. split.
  - intros Hc. split; [apply Hc; by left|]. intros d k Hd. apply Hc. by right.
  - intros [H1 H2] d k [E|Hd]; [by simplify_eq|by apply H2].
Qed.

Lemma separate_middle L b n R : separate (L ++ (b, n) :: R) -> clear_of b n (L ++ R) /\ separate (L ++ R).
Proof using.
  induction L as [|[c m] L IH]; [done|]. cbn [app separate]. intros [Hc (I1 & I2)%IH].
  split; [apply clear_of_cons; split; [|done]|split; [|done]].
  - destruct (Hc b n); [apply elem_of_app; right; by left|lia..].
  - intros d k Hd. apply Hc. apply elem_of_app in Hd as [Hd|Hd]; apply elem_of_app; [by left|right; by right].
Qed.

(** The heap from [start] on consists of the program's blocks and the free ones. *)
Record client_inv (start : Z) (c : client) (F : blocks) : Prop := {
  ci_heap : heap_inv (initialised (cl_heap c)) F;
  ci_start : base + sizeof_Header <= start <= hp_brk (cl_heap c);
  ci_fresh : hp_freep (cl_heap c) = 0 -> cl_live c = [];
  ci_live : forall b n, (b, n) ∈ cl_live c ->
    hp_size (cl_heap c) b = n /\ 1 <= n /\ start <= b /\ b + sizeof_Header * n <= hp_brk (cl_heap c) /\ clear_of b n F;
  ci_separate : separate (cl_live c);
  ci_covers : forall x, covers (cl_live c) x \/ covers F x <-> start <= x < hp_brk (cl_heap c);
}.

Lemma initialised_id h F : heap_inv h F -> initialised h = h.
Proof using.
  intros Hi. unfold initialised. destruct (hi_freep _ _ Hi) as (F1 & F2 & -> & ->).
  pose proof (hi_ordered _ _ Hi) as Ho. apply ordered_app in Ho as [Ho _].
  destruct (node_bounds _ _ _ Ho) as (Hx & _); [unfold sizeof_Header; lia|].
  pose proof (hi_base _ _ Hi). by replace (node F1 =? 0) with false by lia.
Qed.

Lemma initialised_brk h : hp_brk (initialised h) = hp_brk h.
Proof using. unfold initialised. by destruct (hp_freep h =? 0). Qed.

Lemma initialised_size h x : x <> base -> hp_size (initialised h) x = hp_size h x.
Proof using.
  intros Hx. unfold initialised. destruct (hp_freep h =? 0); [|done]. simpl. by rewrite zinsert_if, decide_False.
Qed.

(** A live block has no byte among the free ones. *)
Lemma live_not_free b n F : clear_of b n F -> 1 <= n -> forall x, b <= x < b + sizeof_Header * n -> ~ covers F x.
Proof using. intros Hc Hn x Hx (c & m & Hin & Hm). destruct (Hc c m Hin); lia. Qed.

(** Blocks with no byte in common are clear of each other. *)
Lemma disjoint_clear b n F : (forall c m, (c, m) ∈ F -> 1 <= m) -> 1 <= n ->
  (forall x, b <= x < b + sizeof_Header * n -> ~ covers F x) -> clear_of b n F.
Proof using.
  intros Ho Hn Hd c m Hin. pose proof (Ho c m Hin) as Hm.
  destruct (decide (c + sizeof_Header * m <= b)); [by left|]. right.
  destruct (decide (b + sizeof_Header * n <= c)); [done|]. exfalso.
  apply (Hd (Z.max b c)); [unfold sizeof_Header in *; lia|]. exists c, m. split; [done|]. unfold sizeof_Header in *. lia.
Qed.

Lemma heap_blocks h F c m : heap_inv h F -> (c, m) ∈ F -> 1 <= m.
Proof using. intros Hi Hin. by destruct (ordered_in _ _ _ c m (hi_ordered _ _ Hi) Hin) as (_ & ? & _). Qed.

Lemma heap_freep h F : heap_inv h F -> hp_freep h <> 0.
Proof using.
  intros Hi E. pose proof (initialised_id _ _ Hi) as Ei. unfold initialised in Ei. rewrite E in Ei. simpl in Ei.
  apply (f_equal hp_freep) in Ei. simpl in Ei. pose proof (hi_base _ _ Hi). lia.
Qed.

Lemma alloc_preserves start h live F n q h' F' : client_inv start (Client h live) F -> 1 <= n ->
  allocated (initialised h) F n q h' F' -> client_inv start (Client h' ((q, n) :: live)) F'.
Proof using.
  intros [I1 I2 I3 I4 I5 I6] Hn [A1 A2 A3 A4 A5 A6 A7]. simpl in *. rewrite initialised_brk in *.
  assert (Hnew : forall x, q <= x < q + sizeof_Header * n -> covers F x \/ hp_brk h <= x < hp_brk h').
  { intros x Hx. apply A6. by right. }
  assert (Hold : forall b m x, (b, m) ∈ live -> b <= x < b + sizeof_Header * m ->
    ~ covers F x /\ x < hp_brk h /\ ~ (q <= x < q + sizeof_Header * n)).
  { intros b m x Hin Hx. destruct (I4 b m Hin) as (L1 & L2 & L3 & L4 & L5).
    pose proof (live_not_free _ _ _ L5 L2 x Hx) as Hf. split_and!; [done|lia|]. intros [Hc|Hc]%Hnew; [done|lia]. }
  assert (Hq : start <= q /\ q + sizeof_Header * n <= hp_brk h').
  { destruct (Hnew q) as [Hc|Hc]; destruct (Hnew (q + sizeof_Header * n - 1)) as [Hc'|Hc'];
      try (unfold sizeof_Header in *; lia);
      try pose proof (proj1 (I6 _) (or_intror Hc)); try pose proof (proj1 (I6 _) (or_intror Hc')); lia. }
  constructor; simpl.
  - by rewrite (initialised_id _ _ A1).
  - lia.
  - intros E. by apply (heap_freep _ _ A1) in E.
  - intros b m [E|Hin]%elem_of_cons; [simplify_eq; split_and!; done || lia|].
    destruct (I4 b m Hin) as (L1 & L2 & L3 & L4 & L5). split_and!; [|done|done|lia|].
    + destruct (Hold b m b Hin) as (Hf & Hb & _); [unfold sizeof_Header; lia|].
      rewrite A7 by done. rewrite initialised_size; [done|]. unfold sizeof_Header in *. lia.
    + apply disjoint_clear; [intros c k; by apply (heap_blocks h')|done|]. intros x Hx Hc.
      destruct (Hold b m x Hin Hx) as (Hf & Hb & _). destruct (proj2 (A6 x) (or_introl Hc)); [done|lia].
  - split; [|done]. apply disjoint_clear; [intros c k Hin; by apply I4 in Hin as (_ & ? & _)|done|].
    intros x Hx (b & m & Hin & Hb). by destruct (Hold b m x Hin Hb) as (_ & _ & ?).
  - intros x. rewrite covers_cons. pose proof (A6 x). pose proof (I6 x).
    assert (start <= x < hp_brk h' <-> start <= x < hp_brk h \/ hp_brk h <= x < hp_brk h') by lia. tauto.
Qed.

Lemma free_preserves start h L b n R F : client_inv start (Client h (L ++ (b, n) :: R)) F ->
  exists h' F', free (b + sizeof_Header) h = Done tt h' /\ client_inv start (Client h' (L ++ R)) F'.
Proof using.
  intros [I1 I2 I3 I4 I5 I6]. simpl in *.
  assert (Hid : initialised h = h).
  { unfold initialised. destruct (Z.eqb_spec (hp_freep h) 0) as [E|]; [|done]. by apply I3 in E; destruct L. }
  rewrite Hid in I1. destruct (I4 b n) as (L1 & L2 & L3 & L4 & L5); [apply elem_of_app; right; by left|].
  destruct (free_spec h F b n I1 L5 L1 L2) as (h' & F' & E & Hi' & B' & K' & Cov & Fr & _); [lia|done|].
  destruct (separate_middle _ _ _ _ I5) as [Hc Hs].
  assert (Hsub : forall c m, (c, m) ∈ L ++ R -> (c, m) ∈ L ++ (b, n) :: R).
  { intros c m [Hin|Hin]%elem_of_app; apply elem_of_app; [by left|right; by right]. }
  exists h', F'. split; [done|]. constructor; simpl.
  - by rewrite (initialised_id _ _ Hi').
  - lia.
  - intros Ez. by apply (heap_freep _ _ Hi') in Ez.
  - intros c m Hin. destruct (I4 c m (Hsub _ _ Hin)) as (M1 & M2 & M3 & M4 & M5).
    assert (Hcb := Hc c m Hin). split_and!; [|done|done|lia|].
    + rewrite Fr; [done|unfold sizeof_Header in *; lia|].
      apply (live_not_free _ _ _ M5 M2). unfold sizeof_Header. lia.
    + apply disjoint_clear; [intros d k; by apply (heap_blocks h')|done|]. intros x Hx [Hx'|Hx']%Cov; [lia|].
      by apply (live_not_free _ _ _ M5 M2 x).
  - done.
  - intros x. rewrite Cov, B', <-I6, !covers_app, covers_cons. tauto.
Qed.

Lemma step_preserves start c c' F : client_inv start c F -> client_step c c' -> exists F', client_inv start c' F'.
Proof using Hlimit.
  intros Hi Hs. pose proof (ci_start _ _ _ Hi) as Hst. destruct Hs as [nbytes h live ap h' Hn E Hap|nbytes h live h' Hn E|h L b n R h' E].
  - simpl in Hst.
    destruct (malloc_spec h F nbytes (ci_heap _ _ _ Hi)) as [(q & h1 & F' & E1 & A)|(h1 & E1 & _)]; [lia|done| |];
      rewrite E in E1; simplify_eq. exists F'. rewrite Z.add_simpl_r. eapply alloc_preserves; [exact Hi| |exact A].
    pose proof (nunits_bound nbytes). unfold sizeof_Header in *. lia.
  - simpl in Hst.
    destruct (malloc_spec h F nbytes (ci_heap _ _ _ Hi)) as [(q & h1 & F' & E1 & A)|(h1 & E1 & Hi' & B' & S' & _)]; [lia|done| |];
      rewrite E in E1; simplify_eq.
    + pose proof (al_low _ _ _ _ _ _ A). pose proof (hi_base _ _ (al_inv _ _ _ _ _ _ A)). unfold sizeof_Header in *. lia.
    + exists F. destruct Hi as [I1 I2 I3 I4 I5 I6]. simpl in *. constructor; simpl; rewrite ?B'; try done.
      * by rewrite (initialised_id _ _ Hi').
      * intros Ez. by apply (heap_freep _ _ Hi') in Ez.
      * intros b n Hin. destruct (I4 b n Hin) as (M1 & M2 & M3 & M4 & M5). rewrite S', initialised_size; [done|].
        unfold sizeof_Header in *. lia.
  - destruct (free_preserves _ _ _ _ _ _ _ Hi) as (h1 & F' & E1 & I'). rewrite E in E1. simplify_eq. by exists F'.
Qed.

(** A program starts with no block: [freep] is 0 and the heap is empty. *)
Lemma start_inv start h0 : 0 < base -> base + sizeof_Header <= start < 2 ^ 32 -> hp_freep h0 = 0 ->
  hp_brk h0 = start -> client_inv start (Client h0 []) [].
Proof using.
  intros Hb Hst Hf Hbrk. constructor; simpl; try done; [| |by intros b n ?%not_elem_of_nil|].
  - unfold initialised. rewrite Hf. simpl. constructor; simpl; [done|by rewrite zinsert_if, decide_True| | |lia|].
    + split; [done|]. unfold node_from. simpl. by rewrite zinsert_if, decide_True.
    + lia.
    + by exists [], [].
  - lia.
  - intros x. rewrite Hbrk. split; [|lia]. by intros [(? & ? & ?%not_elem_of_nil & _)|(? & ? & ?%not_elem_of_nil & _)].
Qed.

Lemma client_reachable start h0 c : 0 < base -> base + sizeof_Header <= start < 2 ^ 32 -> hp_freep h0 = 0 ->
  hp_brk h0 = start -> rtc client_step (Client h0 []) c -> exists F, client_inv start c F.
Proof using Hlimit.
  intros Hb Hst Hf Hbrk Hr. pose proof (start_inv start h0 Hb Hst Hf Hbrk) as Hi.
  revert Hi. generalize (@nil (Z * Z)) at 2. induction Hr as [c|c1 c2 c3 Hs _ IH]; intros F Hi; [by exists F|].
  destruct (step_preserves _ _ _ _ Hi Hs) as (F' & Hi'). by eapply IH.
Qed.
End malloc.

(** C7: Whatever a program allocates and frees, in any order, its blocks never
    overlap, each keeps the size [malloc] wrote in front of it, and the heap
    from its start to its end is at every moment exactly the program's blocks
    and the blocks of the free list: no byte is lost, and none is handed out twice. *)
Theorem heap_partition `{HeapEnv} start h0 c : sbrk_limit -> 0 < base -> base + sizeof_Header <= start < 2 ^ 32 ->
  hp_freep h0 = 0 -> hp_brk h0 = start -> rtc client_step (Client h0 []) c ->
  exists F, chain (initialised (cl_heap c)) base F /\ ordered (base + sizeof_Header - 1) F (hp_brk (cl_heap c)) /\
    separate (cl_live c) /\
    (forall b n, (b, n) ∈ cl_live c -> hp_size (cl_heap c) b = n /\ clear_of b n F) /\
    (forall x, covers (cl_live c) x \/ covers F x <-> start <= x < hp_brk (cl_heap c)).
Proof.
  intros Hl Hb Hst Hf Hbrk Hr. destruct (client_reachable Hl start h0 c Hb Hst Hf Hbrk Hr) as (F & [I1 I2 I3 I4 I5 I6]).
  exists F. split_and!; [apply (hi_chain _ _ I1)| |done| |done].
  - rewrite <-initialised_brk. apply (hi_ordered _ _ I1).
  - intros b n Hin. by apply I4 in Hin as (? & _ & _ & _ & ?).
Qed.

(** C18: In every state of a program, each request of at most 2 GiB returns: either
    memory for that many bytes inside the heap that no block of the program
    overlaps, or 0, and then no free block is large enough and the kernel
    refused to grow the heap.  Every block of the program can be freed. *)
Theorem malloc_free_return `{HeapEnv} start h0 c : sbrk_limit -> 0 < base -> base + sizeof_Header <= start < 2 ^ 32 ->
  hp_freep h0 = 0 -> hp_brk h0 = start -> rtc client_step (Client h0 []) c ->
  exists F, chain (initialised (cl_heap c)) base F /\
    (forall nbytes, 0 <= nbytes <= 2 ^ 31 - 32 ->
       exists ap h', malloc nbytes (cl_heap c) = Done ap h' /\
         ((start < ap /\ ap + nbytes <= hp_brk h' /\
           forall b n, (b, n) ∈ cl_live c -> b + sizeof_Header * n <= ap \/ ap + nbytes <= b) \/
          (ap = 0 /\ (forall b n, (b, n) ∈ F -> n < nunits_of nbytes) /\
           sbrk_ok (hp_calls (cl_heap c)) (hp_brk (cl_heap c) + growth (nunits_of nbytes)) = false))) /\
    (forall b n, (b, n) ∈ cl_live c -> exists h', free (b + sizeof_Header) (cl_heap c) = Done tt h').
Proof.
  intros Hl Hb Hst Hf Hbrk Hr. destruct (client_reachable Hl start h0 c Hb Hst Hf Hbrk Hr) as (F & Hi).
  exists F. split_and!; [apply (hi_chain _ _ (ci_heap _ _ _ Hi))| |].
  - intros nbytes Hn. destruct c as [h live]. pose proof (ci_start _ _ _ Hi) as Hs. simpl in Hs.
    pose proof (nunits_bound nbytes ltac:(lia)) as Hu.
    destruct (malloc_spec Hl h F nbytes (ci_heap _ _ _ Hi)) as [(q & h1 & F' & E1 & A)|(h1 & E1 & _ & _ & _ & Hno & Hk)];
      [lia|done| |by exists 0, h1; split; [done|right]].
    exists (q + sizeof_Header), h1. split; [done|left]. unfold sizeof_Header in Hu.
    pose proof (alloc_preserves start h live F (nunits_of nbytes) q h1 F' Hi ltac:(lia) A) as Hi'.
    destruct (ci_live _ _ _ Hi' q (nunits_of nbytes)) as (_ & _ & M3 & M4 & _); [by left|]. simpl in M3, M4.
    unfold sizeof_Header in *. split_and!; [lia|lia|]. intros b n Hin.
    destruct (ci_separate _ _ _ Hi') as [Hc _]. destruct (Hc b n Hin); unfold sizeof_Header in *; lia.
  - intros b n (L & R & E)%list_elem_of_split. destruct c as [h live]. simpl in E. subst live.
    destruct (free_preserves _ _ _ _ _ _ _ Hi) as (h' & _ & E & _). by exists h'.
Qed.

(** ** A run *)

(** The parts of a result. *)
Definition value_of {S A} (o : outcome S A) : option A := match o with Done a _ => Some a | _ => None end.
Definition state_of {S A} (o : outcome S A) (d : S) : S := match o with Done _ s => s | _ => d end.

Lemma outcome_done {S A} (o : outcome S A) a d : value_of o = Some a -> o = Done a (state_of o d).
Proof. destruct o; simpl; congruence. Qed.

(** A process whose static data end below 8 KiB, on a machine of 128 MiB. *)
#[local] Instance demo_env : HeapEnv := {| base := 4096; sbrk_ok _ e := e <=? 128 * 1024 * 1024 |}.

Definition demo_start : heap := Heap (fun _ => 0) (fun _ => 0) 0 8192 0.
Definition demo1 : heap := state_of (malloc 100 demo_start) demo_start.
Definition demo2 : heap := state_of (malloc 10 demo1) demo1.
Definition demo3 : heap := state_of (free 73616 demo2) demo2.

Lemma demo_limit : sbrk_limit.
Proof. intros k e He. cbn [sbrk_ok demo_env] in He. lia. Qed.

(** The first block comes from the upper end of the new memory, the second
    from below it, and the first is freed. *)
Lemma demo_reachable : rtc client_step (Client demo_start []) (Client demo3 [(73568, 2)]).
Proof.
  eapply rtc_l; [apply (client_malloc 100 _ _ 73616 demo1); [lia|apply outcome_done; vm_compute; reflexivity|done]|].
  eapply rtc_l; [apply (client_malloc 10 _ _ 73584 demo2); [lia|apply outcome_done; vm_compute; reflexivity|done]|].
  eapply rtc_l; [|apply rtc_refl].
  apply (client_free demo2 [(73568, 2)] 73600 8 [] demo3), outcome_done. vm_compute. reflexivity.
Qed.

Lemma heap_partition_witness : exists F,
  chain (initialised demo3) base F /\ ordered (base + sizeof_Header - 1) F (hp_brk demo3) /\
  separate [(73568, 2)] /\
  (forall b n, (b, n) ∈ [(73568, 2)] -> hp_size demo3 b = n /\ clear_of b n F) /\
  (forall x, covers [(73568, 2)] x \/ covers F x <-> 8192 <= x < hp_brk demo3).
Proof.
  apply (heap_partition 8192 demo_start (Client demo3 [(73568, 2)]) demo_limit).
  - change (0 < 4096). lia.
  - change (4096 + 16 <= 8192 < 2 ^ 32). lia.
  - reflexivity.
  - reflexivity.
  - exact demo_reachable.
Defined.

Lemma malloc_free_return_witness : exists F, chain (initialised demo3) base F /\
  (forall nbytes, 0 <= nbytes <= 2 ^ 31 - 32 ->
     exists ap h', malloc nbytes demo3 = Done ap h' /\
       ((8192 < ap /\ ap + nbytes <= hp_brk h' /\
         forall b n, (b, n) ∈ [(73568, 2)] -> b + sizeof_Header * n <= ap \/ ap + nbytes <= b) \/
        (ap = 0 /\ (forall b n, (b, n) ∈ F -> n < nunits_of nbytes) /\
         sbrk_ok (hp_calls demo3) (hp_brk demo3 + growth (nunits_of nbytes)) = false))) /\
  (forall b n, (b, n) ∈ [(73568, 2)] -> exists h', free (b + sizeof_Header) demo3 = Done tt h').
Proof.
  apply (malloc_free_return 8192 demo_start (Client demo3 [(73568, 2)]) demo_limit).
  - change (0 < 4096). lia.
  - change (4096 + 16 <= 8192 < 2 ^ 32). lia.
  - reflexivity.
  - reflexivity.
  - exact demo_reachable.
Defined.

(** Above 2 GiB the argument of [sbrk] overflows its [int]: for a request of
    4 GiB less 16 bytes the heap grows by nothing, and [malloc] returns memory
    that the process does not have. *)
Theorem malloc_huge : value_of (malloc (2 ^ 32 - 16) demo_start) = Some 8208 /\
  hp_brk (state_of (malloc (2 ^ 32 - 16) demo_start) demo_start) = 8192.
Proof. split; vm_compute; reflexivity. Qed.
End MallocSpec.
