(* ===== verification/UserHeap.v ===== *)
(** * A user program with memory of its own

    The bytes a program can address, the allocator it calls, and the routines of
    user/ulib.c on memory.  The allocator is an interface: programs are proved
    against the laws of [AllocatorOk], which HeapAlloc.v discharges for user/umalloc.c.

    A load or store the page table does not allow ends the process: the trap
    handler kills it, and it exits with status -1. *)

From S2P Require Import Prelude Params Memory User.

(** ** The interface of the allocator *)

(** Its state is [H]; [a_mapped h x] says that the heap of [h] has the byte [x]. *)
Class Allocator (H : Type) := {
  a_malloc : Z -> M H Z;
  a_free : Z -> M H unit;
  a_mapped : H -> Z -> bool;
}.

(** [a_ok h L]: the program holds the blocks [L], from addresses to sizes. *)
Class AllocatorOk (H : Type) `{Allocator H} := {
  a_ok : H -> gmap Z Z -> Prop;
  a_malloc_ok h L n : a_ok h L -> 0 <= n <= 2 ^ 31 - 32 ->
    exists p h', a_malloc n h = Done p h' /\
      ((p = 0 /\ a_ok h' L) \/ (p <> 0 /\ L !! p = None /\ a_ok h' (<[p := n]> L)));
  a_free_ok h L p n : a_ok h L -> L !! p = Some n ->
    exists h', a_free p h = Done tt h' /\ a_ok h' (delete p L);
  a_separate h L p n q m : a_ok h L -> L !! p = Some n -> L !! q = Some m -> p <> q ->
    p + n <= q \/ q + m <= p;
  a_block h L p n : a_ok h L -> L !! p = Some n -> PGSIZE <= p < 2 ^ 64 /\
    forall x, p <= x < p + n -> a_mapped h x = true;
  a_low h L x : a_ok h L -> x < PGSIZE -> a_mapped h x = false;
}.

(** The pages of the program's image and its stack: which bytes can be read
    and written.  The first page holds code, which user.ld links at 0 and
    exec maps without write permission.  [us_junk k x] is what the block of the [k]-th call of [malloc]
    holds at [x] before the program writes there; [us_fuel] bounds the length of strings. *)
Class UserSpace := {
  us_load : Z -> bool;
  us_store : Z -> bool;
  us_junk : nat -> Z -> Z;
  us_fuel : nat;
  us_text x : 0 <= x < PGSIZE -> us_store x = false;
  us_junk_ok k x : 0 <= us_junk k x < 256;
}.

(** [a_mallocs] records what the calls of [malloc] have returned so far. *)
Record astate (H : Type) := AState {
  a_heap : H;
  a_mem : mem;
  a_user : ustate;
  a_mallocs : list Z;
}.
Arguments AState {H}.
Arguments a_heap {H}.
Arguments a_mem {H}.
Arguments a_user {H}.
Arguments a_mallocs {H}.

Section userheap.
Context `{Allocator H} `{UserSpace}.

Abbreviation UA A := (MU (astate H) Z A).

Definition set_a_mem (m : mem) (s : astate H) : astate H := AState (a_heap s) m (a_user s) (a_mallocs s).

Definition readable (s : astate H) (x : Z) : bool := us_load x || a_mapped (a_heap s) x.
Definition writable (s : astate H) (x : Z) : bool := us_store x || a_mapped (a_heap s) x.

Definition all_bytes (P : Z -> bool) (a : Z) (n : nat) : bool := forallb (fun i => P (a + Z.of_nat i)) (seq 0 n).

Definition trapped {A} : UA A := ret (inl (-1)).

(** A load and a store of [n] bytes. *)
Definition uload (n : nat) (a : Z) : UA Z := fun s =>
  if all_bytes (readable s) a n then Done (inr (load (a_mem s) a n)) s else trapped s.
Definition ustore (n : nat) (a v : Z) : UA unit := fun s =>
  if all_bytes (writable s) a n then Done (inr tt) (set_a_mem (store (a_mem s) a n v) s) else trapped s.

Definition load_char (a : Z) : UA Z := uload 1 a.
Definition store_char (a v : Z) : UA unit := ustore 1 a v.
Definition load_int (a : Z) : UA Z := v <~ uload 4 a ;; uret (i32 v).
Definition store_int (a v : Z) : UA unit := ustore 4 a v.
Definition load_ptr (a : Z) : UA Z := uload 8 a.
Definition store_ptr (a v : Z) : UA unit := ustore 8 a v.

Definition fill_block (k : nat) (p n : Z) (m : mem) : mem := fun x => if in_range p n x then us_junk k x else m x.

(** [malloc] takes an [uint]. *)
Definition malloc (n : Z) : UA Z := fun s =>
  match a_malloc (u32 n) (a_heap s) with
  | Done p h =>
      Done (inr p) (AState h (if p =? 0 then a_mem s else fill_block (length (a_mallocs s)) p (u32 n) (a_mem s))
                     (a_user s) (a_mallocs s ++ [p]))
  | Panic msg => Panic msg
  | _ => OutOfFuel
  end.

Definition free (p : Z) : UA unit := fun s =>
  match a_free p (a_heap s) with
  | Done _ h => Done (inr tt) (AState h (a_mem s) (a_user s) (a_mallocs s))
  | Panic msg => Panic msg
  | _ => OutOfFuel
  end.

(** A call of the library that does not touch the memory. *)
Definition user {A} (m : U A) : UA A := fun s =>
  match m (a_user s) with
  | Done r u => Done r (AState (a_heap s) (a_mem s) u (a_mallocs s))
  | Panic msg => Panic msg
  | _ => OutOfFuel
  end.

(** ** user/ulib.c on memory *)

(** A program whose [main] returns exits with status 0. *)
Definition _main {A} (main : UA A) : UA unit := main ;! ret (inl 0).

Definition m_strcpy (s t : Z) : UA Z :=
  uloop us_fuel (fun '(s, t) =>
    c <~ load_char t ;;
    store_char s c ;!
    if c =? 0 then uret (inr tt) else uret (inl (s + 1, t + 1))) (s, t) ;!
  uret s.

Definition m_strlen (s : Z) : UA Z :=
  n <~ uloop us_fuel (fun n =>
    c <~ load_char (s + n) ;;
    if c =? 0 then uret (inr n) else uret (inl (i32 (n + 1)))) 0 ;;
  uret (u32 n).

Definition m_strcmp (p q : Z) : UA Z :=
  uloop us_fuel (fun '(p, q) =>
    c <~ load_char p ;;
    d <~ load_char q ;;
    if negb (c =? 0) && (c =? d) then uret (inl (p + 1, q + 1)) else uret (inr (c - d))) (p, q).

(** [i] is an [int], which the comparison converts to unsigned. *)
Definition m_memset (dst c n : Z) : UA Z :=
  uloop (S (Z.to_nat (u32 n))) (fun i =>
    if u32 i <? u32 n then
      store_char (dst + i) c ;! uret (inl (i32 (i + 1)))
    else uret (inr tt)) 0 ;!
  uret dst.

Definition m_memmove (vdst vsrc n : Z) : UA Z :=
  (if vdst <? vsrc then
     uloop (S (Z.to_nat n)) (fun '(dst, src, n) =>
       if 0 <? n then
         c <~ load_char src ;; store_char dst c ;! uret (inl (dst + 1, src + 1, n - 1))
       else uret (inr tt)) (vdst, vsrc, n)
   else
     uloop (S (Z.to_nat n)) (fun '(dst, src, n) =>
       if 0 <? n then
         c <~ load_char (src - 1) ;; store_char (dst - 1) c ;! uret (inl (dst - 1, src - 1, n - 1))
       else uret (inr tt)) (vdst + n, vsrc + n, n)) ;!
  uret vdst.

Definition m_memcmp (s1 s2 n : Z) : UA Z :=
  uloop (S (Z.to_nat (u32 n))) (fun '(p1, p2, n) =>
    if 0 <? n then
      c <~ load_char p1 ;;
      d <~ load_char p2 ;;
      if c =? d then uret (inl (p1 + 1, p2 + 1, n - 1)) else uret (inr (c - d))
    else uret (inr 0)) (s1, s2, u32 n).

Definition m_memcpy (dst src n : Z) : UA Z := m_memmove dst src (i32 n).
End userheap.

Arguments a_ok {H _ _}.

(** ** Reasoning about programs that may be killed

    [twp m s Q E]: from [s] the program [m] returns with a result and a state that satisfy [Q], or
    ends with a status and a state that satisfy [E]. *)

Definition twp {S E A} (m : MU S E A) (s : S) (Q : A -> S -> Prop) (X : E -> S -> Prop) : Prop :=
  wp m s (fun r s' => match r with inr a => Q a s' | inl e => X e s' end).

Section twp.
Context {S E : Type} (X : E -> S -> Prop).

Lemma twp_done {A} (m : MU S E A) s a s' (Q : A -> S -> Prop) : m s = Done (inr a) s' -> Q a s' -> twp m s Q X.
Proof using. intros Em HQ. by exists (inr a), s'. Qed.

Lemma twp_stop {A} (m : MU S E A) s e s' (Q : A -> S -> Prop) : m s = Done (inl e) s' -> X e s' -> twp m s Q X.
Proof using. intros Em HX. by exists (inl e), s'. Qed.

Lemma twp_ret {A} (a : A) s (Q : A -> S -> Prop) : Q a s -> twp (uret a) s Q X.
Proof using. by apply twp_done. Qed.

Lemma twp_bind {A B} (m : MU S E A) (f : A -> MU S E B) s Q :
  twp m s (fun a s' => twp (f a) s' Q X) X -> twp (ubind m f) s Q X.
Proof using.
  intros ([e|a] & s' & Em & HQ).
  - by eapply twp_stop; [apply ubind_stop|].
  - unfold twp, wp in *. by rewrite (ubind_ok _ _ _ _ _ Em).
Qed.

Lemma twp_mono {A} (m : MU S E A) s (Q R : A -> S -> Prop) :
  twp m s Q X -> (forall a s', Q a s' -> R a s') -> twp m s R X.
Proof using. intros ([e|a] & s' & Em & HQ) HR; exists (inl e), s' || exists (inr a), s'; split; auto. Qed.

Lemma twp_weaken {A} (m : MU S E A) s (Q : A -> S -> Prop) (Y : E -> S -> Prop) :
  twp m s Q X -> (forall e s', X e s' -> Y e s') -> twp m s Q Y.
Proof using. intros ([e|a] & s' & Em & HQ) HY; exists (inl e), s' || exists (inr a), s'; split; auto. Qed.

Lemma twp_uwp {A} (m : MU S E A) s (Q : A -> S -> Prop) : uwp m s Q -> twp m s Q X.
Proof using. intros (a & s' & Em & HQ)%uwp_elim. by eapply twp_done. Qed.

Lemma twp_loop {Y R} (Inv : Y -> S -> Prop) (mu : Y -> nat) (body : Y -> MU S E (Y + R)) (Q : R -> S -> Prop) fuel y s :
  (forall y s, Inv y s -> twp (body y) s (fun c s' =>
     match c with inl y' => Inv y' s' /\ (mu y' < mu y)%nat | inr r => Q r s' end) X) ->
  Inv y s -> (mu y < fuel)%nat -> twp (uloop fuel body y) s Q X.
Proof using.
  intros Hb. revert y s. induction fuel as [|fuel IH]; intros y s Hy Hf; [lia|].
  destruct (Hb y s Hy) as ([e|[y'|r]] & s' & Em & HQ).
  - eapply twp_stop; [by apply uloop_stop|done].
  - destruct HQ as [Hy' Hmu]. unfold twp, wp. rewrite (uloop_next _ _ _ _ _ _ Em). apply IH; [done|lia].
  - eapply twp_done; [by apply uloop_last|done].
Qed.

Lemma twp_iter {A} (P : list A -> S -> Prop) (l : list A) (body : A -> MU S E unit) s (Q : unit -> S -> Prop) :
  (forall l1 a l2 s, l = l1 ++ a :: l2 -> P l1 s -> twp (body a) s (fun _ s' => P (l1 ++ [a]) s') X) ->
  P [] s -> (forall s', P l s' -> Q tt s') -> twp (uiter l body) s Q X.
Proof using.
  intros Hb H0 HQ. assert (Hgen : forall l2 l1 s, l = l1 ++ l2 -> P l1 s -> twp (uiter l2 body) s Q X).
  { induction l2 as [|a l2 IH]; intros l1 s' El HP; simpl.
    - apply twp_ret, HQ. by rewrite El, app_nil_r.
    - apply twp_bind. eapply twp_mono; [by eapply Hb|]. intros [] s2 HP2. apply (IH (l1 ++ [a])); [by rewrite <-app_assoc|done]. }
  by apply (Hgen l []).
Qed.
End twp.

(** ** Accesses to blocks *)

Section blocks.
Context `{HA : Allocator H} `{HO : !AllocatorOk H} `{US : UserSpace}.

Implicit Types (s : astate H) (L : gmap Z Z).

Record owns s L : Prop := {
  ow_ok : a_ok (a_heap s) L;
  ow_mem : mem_ok (a_mem s);
}.

(** The [n] bytes at [a] lie in a block of [L]. *)
Definition within L (a n : Z) : Prop := exists p k, L !! p = Some k /\ p <= a /\ a + n <= p + k.

Lemma all_bytes_intro (P : Z -> bool) a n : (forall x, a <= x < a + Z.of_nat n -> P x = true) -> all_bytes P a n = true.
Proof using. intros HP. apply forallb_forall. intros i Hi%in_seq. apply HP. lia. Qed.

Lemma uload_in s L a n : owns s L -> within L a (Z.of_nat n) -> uload n a s = Done (inr (load (a_mem s) a n)) s.
Proof using HO.
  intros [Ho _] (p & k & Hp & H1 & H2). unfold uload. rewrite all_bytes_intro; [done|]. intros x Hx.
  unfold readable. apply orb_true_iff. right. eapply a_block; [done..|lia].
Qed.

Lemma ustore_in s L a n v : owns s L -> within L a (Z.of_nat n) ->
  ustore n a v s = Done (inr tt) (set_a_mem (store (a_mem s) a n v) s).
Proof using HO.
  intros [Ho _] (p & k & Hp & H1 & H2). unfold ustore. rewrite all_bytes_intro; [done|]. intros x Hx.
  unfold writable. apply orb_true_iff. right. eapply a_block; [done..|lia].
Qed.

Lemma load_int_in s L a : owns s L -> within L a 4 -> load_int a s = Done (inr (i32 (load (a_mem s) a 4))) s.
Proof using HO. intros Ho Hw. unfold load_int. by rewrite (ubind_ok _ _ _ _ _ (uload_in s L a 4 Ho Hw)). Qed.

Lemma owns_store s L n a v : owns s L -> owns (set_a_mem (store (a_mem s) a n v) s) L.
Proof using. intros [H1 H2]. constructor; [done|]. by apply mem_ok_store. Qed.

(** A store to the first page kills the process. *)
Lemma ustore_text s L a n v : owns s L -> 0 <= a < PGSIZE -> (0 < n)%nat -> ustore n a v s = Done (inl (-1)) s.
Proof using HO.
  intros [Ho _] Ha Hn. unfold ustore. destruct n as [|n]; [lia|]. unfold all_bytes. cbn [seq forallb].
  replace (a + Z.of_nat 0) with a by lia. unfold writable.
  by rewrite us_text, (a_low _ _ _ Ho) by lia.
Qed.

(** A call of [malloc] of this run has returned 0. *)
Definition refused s : Prop := 0 ∈ a_mallocs s.

(** How a program ends that does not check the results of [malloc]: it is killed, after one of them was 0. *)
Definition out_of_memory (e : Z) (s : astate H) : Prop := e = -1 /\ refused s.

Lemma refused_now s s' : a_mallocs s' = a_mallocs s ++ [0] -> refused s'.
Proof using. unfold refused. intros ->. set_solver. Qed.

Lemma not_refused_now s s' p : ~ refused s -> p <> 0 -> a_mallocs s' = a_mallocs s ++ [p] -> ~ refused s'.
Proof using. unfold refused. intros H1 H2 ->. set_solver. Qed.

Lemma refused_same s s' : a_mallocs s' = a_mallocs s -> refused s' <-> refused s.
Proof using. unfold refused. by intros ->. Qed.

(** The bytes of the blocks of [L] are the same. *)
Definition same_blocks L (m m' : mem) : Prop := forall p n x, L !! p = Some n -> p <= x < p + n -> m' x = m x.

#[export] Instance same_blocks_preorder L : PreOrder (same_blocks L).
Proof using. split; [by intros m p n x|]. intros m1 m2 m3 H1 H2 p n x Hp Hx. by rewrite (H2 p n), (H1 p n). Qed.

Lemma malloc_in s L n : owns s L -> 0 <= n <= 2 ^ 31 - 32 -> exists p s', malloc n s = Done (inr p) s' /\
  a_user s' = a_user s /\ a_mallocs s' = a_mallocs s ++ [p] /\
  ((p = 0 /\ owns s' L /\ a_mem s' = a_mem s) \/
   (p <> 0 /\ L !! p = None /\ owns s' (<[p := n]> L) /\ same_blocks L (a_mem s) (a_mem s'))).
Proof using HO.
  intros [Ho Hm] Hn. destruct (a_malloc_ok _ _ _ Ho Hn) as (p & h' & E & Hp).
  eexists p, _. unfold malloc. rewrite uwrap_small by lia. rewrite E. split; [done|]. split; [done|]. split; [done|].
  destruct Hp as [[-> Ho']|(Hp & Hfr & Ho')]; [left|right].
  - split; [done|]. split; [by constructor|done].
  - replace (p =? 0) with false by lia. split; [done|]. split; [done|]. split.
    + constructor; [done|]. intros x. cbn [a_mem]. unfold fill_block. case_match; [apply us_junk_ok|done].
    + intros q k x Hq Hx. cbn [a_mem]. unfold fill_block. destruct (in_range_spec p n x); [|done]. exfalso.
      assert (Hne : p <> q) by (by intros ->; rewrite Hq in Hfr).
      destruct (a_separate _ _ p n q k Ho'); [by rewrite lookup_insert_eq|by rewrite lookup_insert_ne|done|lia..].
Qed.

Lemma free_in s L p n : owns s L -> L !! p = Some n ->
  exists s', free p s = Done (inr tt) s' /\ owns s' (delete p L) /\ a_mem s' = a_mem s /\ a_user s' = a_user s /\ a_mallocs s' = a_mallocs s.
Proof using HO.
  intros [Ho Hm] Hp. destruct (a_free_ok _ _ _ _ Ho Hp) as (h' & E & Ho'). eexists. unfold free. rewrite E.
  split; [done|]. split; [by constructor|done].
Qed.

(** A store into one block leaves the others alone. *)
Lemma store_same s L p k n a v : owns s L -> L !! p = Some k -> p <= a -> a + Z.of_nat n <= p + k ->
  same_blocks (delete p L) (a_mem s) (store (a_mem s) a n v).
Proof using HO.
  intros [Ho _] Hp H1 H2 q m x [Hne Hq]%lookup_delete_Some Hx. apply store_outside.
  destruct (a_separate _ _ p k q m Ho); [done..|lia|lia].
Qed.

Lemma same_blocks_sub L L' m m' : L' ⊆ L -> same_blocks L m m' -> same_blocks L' m m'.
Proof using. intros Hs Hb p n x Hp. apply Hb. by eapply lookup_weaken. Qed.

Lemma same_load L m m' p k a n : same_blocks L m m' -> L !! p = Some k -> p <= a -> a + Z.of_nat n <= p + k ->
  load m' a n = load m a n.
Proof using. intros Hs Hp H1 H2. apply load_ext. intros x Hx. apply (Hs p k); [done|lia]. Qed.

Lemma i32_load_store m a v : - 2 ^ 31 <= v < 2 ^ 31 -> i32 (load (store m a 4 v) a 4) = v.
Proof using.
  intros Hv. rewrite load_store_same. change (256 ^ Z.of_nat 4) with (2 ^ 32). unfold swrap. change (32 - 1) with 31.
  rewrite Zplus_mod_idemp_l. rewrite Z.mod_small by lia. lia.
Qed.
End blocks.
