(* ===== verification/Rhtest.v ===== *)
(** * The test library: user/rhtest.c

    Growing strings in memory that [malloc] gives, and the assertions the exercises check themselves with.
    [struct rhstring] is 16 bytes: length and size as [int], then the pointer to the buffer. *)

From S2P Require Import Prelude Params Memory Block User UserHeap.

Module Rhtest.

Section code.
Context `{UserEnv} `{Allocator HT} `{UserSpace}.

Abbreviation UA A := (MU (astate HT) Z A).

Definition RHSTRING_MAX : Z := 256.
Definition sizeof_rhstring : Z := 16.

Definition rhstring_init (str : Z) : UA unit :=
  store_int str 0 ;!
  store_int (str + 4) RHSTRING_MAX ;!
  size <~ load_int (str + 4) ;;
  b <~ malloc (u64 size * 1) ;;
  store_ptr (str + 8) b ;!
  b <~ load_ptr (str + 8) ;;
  store_char b 0.

Definition rhstring_new : UA Z :=
  str <~ malloc sizeof_rhstring ;;
  rhstring_init str ;!
  uret str.

Definition rhstring_resize (str new_size : Z) : UA unit :=
  buff <~ malloc (u64 new_size * 1) ;;
  b <~ load_ptr (str + 8) ;;
  m_strcpy buff b ;!
  length <~ load_int str ;;
  store_char (buff + length) 0 ;!
  b <~ load_ptr (str + 8) ;;
  free b ;!
  store_ptr (str + 8) buff ;!
  store_int (str + 4) new_size.

Definition rhstring_append (str text : Z) : UA unit :=
  if (str =? 0) || (text =? 0) then uret tt
  else
    n <~ m_strlen text ;;
    let len := i32 n in
    length <~ load_int str ;;
    size <~ load_int (str + 4) ;;
    (if size <=? i32 (length + len + 1) then
       rhstring_resize str (i32 (length + len + 1 + RHSTRING_MAX))
     else uret tt) ;!
    length <~ load_int str ;;
    store_int str (i32 (length + len)) ;!
    b <~ load_ptr (str + 8) ;;
    n <~ m_strlen b ;;
    m_strcpy (b + n) text ;!
    uret tt.

(** [char text[2]] of the caller's frame is at [text]. *)
Definition rhstring_append_char (text str ch : Z) : UA unit :=
  store_char text ch ;!
  store_char (text + 1) 0 ;!
  rhstring_append str text.

Definition rhstring_delete (str : Z) : UA unit :=
  if str =? 0 then uret tt
  else
    b <~ load_ptr (str + 8) ;;
    free b ;!
    free str.

(** ** Assertions *)

Definition uexit {A} (status : Z) : UA A := ret (inl status).

Definition rhassert (exp : bool) (func : string) (line : Z) : UA unit :=
  let f := AStr (Some (bytes_of_string func)) in
  if exp then user (printf "%s(%d): OK.
" [f; AInt line])
  else
    user (printf "%s(%d): Assertion FAILED.
" [f; AInt line]) ;!
    uexit 1.

Definition rhassert_int_equals (actual expected : Z) (func : string) (line : Z) : UA unit :=
  let f := AStr (Some (bytes_of_string func)) in
  if actual =? expected then user (printf "%s(%d): OK.
" [f; AInt line])
  else
    user (printf "%s(%d): Assertion FAILED: actual = %d, expected = %d
" [f; AInt line; AInt actual; AInt expected]) ;!
    uexit 1.

Definition rhassert_ptr_equals (actual expected : Z) (func : string) (line : Z) : UA unit :=
  let f := AStr (Some (bytes_of_string func)) in
  if actual =? expected then user (printf "%s(%d): OK.
" [f; AInt line])
  else
    user (printf "%s(%d): Assertion FAILED: actual = %p, expected = %p
" [f; AInt line; AInt actual; AInt expected]) ;!
    uexit 1.

(** The string at an address, for [printf]. *)
Definition string_at (p : Z) : UA (option (list Z)) :=
  if p =? 0 then uret None
  else n <~ m_strlen p ;; fun s => Done (inr (Some (read_bytes (a_mem s) p (Z.to_nat n)))) s.

Definition rhassert_str_equals (actual expected : Z) (func : string) (line : Z) : UA unit :=
  let f := AStr (Some (bytes_of_string func)) in
  equal <~ (if (actual =? 0) && (expected =? 0) then uret true
            else if negb (actual =? 0) && negb (expected =? 0) then
              d <~ m_strcmp actual expected ;; uret (d =? 0)
            else uret false) ;;
  if (equal : bool) then user (printf "%s(%d): OK.
" [f; AInt line])
  else
    a <~ string_at actual ;;
    e <~ string_at expected ;;
    user (printf "%s(%d): Assertion FAILED: actual = %s, expected = %s
" [f; AInt line; AStr a; AStr e]) ;!
    uexit 1.
End code.
End Rhtest.
