(* ===== verification/HeapAlloc.v ===== *)
(** * user/umalloc.c keeps the promises of the allocator interface

    The laws of [AllocatorOk] for the [malloc] and [free] of Umalloc.v, from the
    partition of the heap that MallocSpec.v proves.  Programs that are
    correct for every allocator are so for this one. *)

From S2P Require Import Prelude Params Memory Umalloc MallocSpec UserHeap.

Module HeapAlloc.
Import Umalloc MallocSpec.

Section instance.
Context `{HE : HeapEnv}.

(** The heap begins at [start], where the program's image and stack end; the
    kernel maps whole pages. *)
Context (start : Z).
Hypothesis (Hlimit : sbrk_limit) (Hbase : 0 < base) (Hstart : base + sizeof_Header <= start < 2 ^ 32) (Hpage : PGSIZE <= start).

#[local] Instance umalloc_allocator : Allocator heap := {
  a_malloc := malloc;
  a_free := free;
  a_mapped h x := (start <=? x) && (x <? PGROUNDUP (hp_brk h));
}.

(** The program's blocks are among the blocks in use. *)
Definition heap_ok (h : heap) (L : gmap Z Z) : Prop :=
  exists live F, client_inv start (Client h live) F /\
    forall p n, L !! p = Some n -> 0 <= n <= 2 ^ 31 - 32 /\ (p - sizeof_Header, nunits_of n) ∈ live.

Lemma heap_ok_malloc h L n : heap_ok h L -> 0 <= n <= 2 ^ 31 - 32 ->
  exists p h', malloc n h = Done p h' /\
    ((p = 0 /\ heap_ok h' L) \/ (p <> 0 /\ L !! p = None /\ heap_ok h' (<[p := n]> L))).
Proof using Hlimit Hbase Hstart.
  intros (live & F & Hi & HL) Hn. pose proof (ci_start _ _ _ Hi) as Hs. simpl in Hs.
  destruct (malloc_spec Hlimit h F n (ci_heap _ _ _ Hi)) as [(q & h' & F' & E & A)|(h' & E & _)]; [lia|done|..].
  - pose proof (al_low _ _ _ _ _ _ A) as Hlow. exists (q + sizeof_Header), h'. split; [done|]. right.
    assert (Hu : 1 <= nunits_of n) by (pose proof (nunits_bound n); unfold sizeof_Header in *; lia).
    pose proof (alloc_preserves start h live F (nunits_of n) q h' F' Hi Hu A) as Hi'.
    split; [unfold sizeof_Header in *; lia|]. split.
    + apply eq_None_not_Some. intros [k Hk]. apply HL in Hk as [Hk1 Hk2]. rewrite Z.add_simpl_r in Hk2.
      destruct (ci_separate _ _ _ Hi') as [Hc _]. apply (Hc q _) in Hk2. pose proof (nunits_bound k). unfold sizeof_Header in *. lia.
    + exists ((q, nunits_of n) :: live), F'. split; [done|]. intros p k. rewrite lookup_insert_Some.
      intros [[<- <-]|[_ Hk]]; [rewrite Z.add_simpl_r; split; [done|by left]|]. apply HL in Hk as [Hk1 Hk2]. split; [done|by right].
  - exists 0, h'. split; [done|]. left. split; [done|].
    destruct (step_preserves Hlimit start (Client h live) (Client h' live) F Hi) as [F' Hi'].
    { by eapply client_malloc_fails. }
    by exists live, F'.
Qed.

Lemma heap_ok_free h L p n : heap_ok h L -> L !! p = Some n ->
  exists h', free p h = Done tt h' /\ heap_ok h' (delete p L).
Proof using.
  intros (live & F & Hi & HL) Hp. pose proof (HL _ _ Hp) as [Hn Hin].
  apply list_elem_of_split in Hin as (l1 & l2 & ->). destruct (free_preserves _ _ _ _ _ _ _ Hi) as (h' & F' & E & Hi').
  rewrite Z.sub_simpl_r in E. exists h'. split; [done|]. exists (l1 ++ l2), F'. split; [done|].
  intros q k [Hne Hq]%lookup_delete_Some. apply HL in Hq as [Hk Hq]. split; [done|].
  apply elem_of_app in Hq as [Hq|Hq]; apply elem_of_app; [by left|].
  apply elem_of_cons in Hq as [[= Hq]|Hq]; [unfold sizeof_Header in *; lia|by right].
Qed.

Lemma heap_ok_block h L p n : heap_ok h L -> L !! p = Some n ->
  0 <= n /\ start + sizeof_Header <= p /\ p + n <= hp_brk h /\ hp_brk h < 2 ^ 32.
Proof using.
  intros (live & F & Hi & HL) Hp. pose proof (HL _ _ Hp) as [Hn Hin].
  destruct (ci_live _ _ _ Hi _ _ Hin) as (_ & _ & H1 & H2 & _). simpl in H2. pose proof (nunits_bound n).
  pose proof (hi_brk _ _ (ci_heap _ _ _ Hi)) as Hb. rewrite initialised_brk in Hb. simpl in Hb. unfold sizeof_Header in *. lia.
Qed.

Lemma separate_apart l b n c m : separate l -> (b, n) ∈ l -> (c, m) ∈ l -> b <> c ->
  b + sizeof_Header * n <= c \/ c + sizeof_Header * m <= b.
Proof using.
  induction l as [|[d k] l IH]; [by intros _ ?%not_elem_of_nil|]. intros [Hc Hs] [E1|H1]%elem_of_cons [E2|H2]%elem_of_cons Hne.
  - by simplify_eq.
  - simplify_eq. apply Hc in H2. lia.
  - simplify_eq. apply Hc in H1. lia.
  - by apply IH.
Qed.

#[local] Instance umalloc_ok : AllocatorOk heap.
Proof using Hlimit Hbase Hstart Hpage.
  refine {| a_ok := heap_ok; a_malloc_ok := heap_ok_malloc; a_free_ok := heap_ok_free |}.
  - intros h L p n q m (live & F & Hi & HL) Hp Hq Hne. apply HL in Hp as [Hp1 Hp2]. apply HL in Hq as [Hq1 Hq2].
    pose proof (nunits_bound n). pose proof (nunits_bound m).
    destruct (separate_apart _ _ _ _ _ (ci_separate _ _ _ Hi) Hp2 Hq2); unfold sizeof_Header in *; lia.
  - intros h L p n Ho Hp. destruct (heap_ok_block h L p n Ho Hp) as (Hn & H1 & H2 & H3).
    destruct (PGROUNDUP_bound (hp_brk h)) as [Hr _]; unfold PGSIZE, sizeof_Header in *; [lia|]. split; [lia|]. intros x Hx. simpl. lia.
  - intros h L x _ Hx. simpl. lia.
Defined.
End instance.
End HeapAlloc.
