(* ===== verification/ArrayList.v ===== *)
(** * Growing arrays of integers: user/arraylist.c

    [struct arraylist] is 16 bytes: size and capacity as [int], then the pointer to the items.  The
    theorems show that it is a list, for every allocator with the laws of UserHeap.v. *)

From S2P Require Import Prelude Params Memory Block User Umalloc MallocSpec UserHeap Rhtest HeapAlloc.

Module ArrayList.
Import Rhtest.

Section code.
Context `{UserEnv} `{Allocator HT} `{UserSpace}.

Abbreviation UA A := (MU (astate HT) Z A).

Definition DEF_ARRAY_LIST_CAPACITY : Z := 4.
Definition sizeof_arraylist : Z := 16.
Definition sizeof_int : Z := 4.

Definition al_new : UA Z :=
  newList <~ malloc sizeof_arraylist ;;
  store_int newList 0 ;!
  store_int (newList + 4) DEF_ARRAY_LIST_CAPACITY ;!
  l <~ malloc (DEF_ARRAY_LIST_CAPACITY * sizeof_int) ;;
  store_ptr (newList + 8) l ;!
  uret newList.

Definition al_free (al : Z) : UA unit :=
  l <~ load_ptr (al + 8) ;;
  free l ;!
  free al.

(** 0xffffffff as an [int] is -1. *)
Definition al_get_at (al pos : Z) : UA Z :=
  size <~ load_int al ;;
  if size <=? pos then uret (i32 0xffffffff)
  else
    l <~ load_ptr (al + 8) ;;
    load_int (l + sizeof_int * pos).

(** One round of the loop that copies the items. *)
Definition al_copy (al newList i : Z) : UA (Z + unit) :=
  size <~ load_int al ;;
  if i <? size then
    l <~ load_ptr (al + 8) ;;
    v <~ load_int (l + sizeof_int * i) ;;
    store_int (newList + sizeof_int * i) v ;!
    uret (inl (i + 1))
  else uret (inr tt).

Definition al_resize (al : Z) : UA unit :=
  capacity <~ load_int (al + 4) ;;
  let newCap := i32 (2 * capacity) in
  newList <~ malloc (u64 (u64 newCap * sizeof_int)) ;;
  size <~ load_int al ;;
  uloop (S (Z.to_nat size)) (al_copy al newList) 0 ;!
  l <~ load_ptr (al + 8) ;;
  free l ;!
  store_ptr (al + 8) newList ;!
  store_int (al + 4) newCap.

Definition al_append (al val : Z) : UA unit :=
  size <~ load_int al ;;
  capacity <~ load_int (al + 4) ;;
  (if size =? capacity then al_resize al else uret tt) ;!
  l <~ load_ptr (al + 8) ;;
  size <~ load_int al ;;
  store_int (l + sizeof_int * size) val ;!
  size <~ load_int al ;;
  store_int al (i32 (size + 1)).

Definition al_print (al : Z) : UA unit :=
  user (printf "[" []) ;!
  size <~ load_int al ;;
  uloop (S (Z.to_nat size)) (fun i =>
    size <~ load_int al ;;
    if i <? size then
      l <~ load_ptr (al + 8) ;;
      v <~ load_int (l + sizeof_int * i) ;;
      user (printf "%d, " [AInt v]) ;!
      uret (inl (i + 1))
    else uret (inr tt)) 0 ;!
  user (printf "]
" []).

Definition check_field (a expected line : Z) : UA unit :=
  v <~ load_int a ;; rhassert_int_equals v expected "main" line.

Definition check_item (al pos expected line : Z) : UA unit :=
  v <~ al_get_at al pos ;; rhassert_int_equals v expected "main" line.

Definition main : UA unit :=
  al <~ al_new ;;
  rhassert (negb (al =? 0)) "main" 165 ;!
  check_field al 0 166 ;!
  check_field (al + 4) DEF_ARRAY_LIST_CAPACITY 167 ;!
  al_append al 1 ;!
  al_append al 2 ;!
  check_field al 2 172 ;!
  check_field (al + 4) DEF_ARRAY_LIST_CAPACITY 173 ;!
  check_item al 0 1 176 ;!
  check_item al 1 2 177 ;!
  check_item al 5 (i32 0xffffffff) 178 ;!
  al_append al 3 ;!
  al_append al 4 ;!
  check_field al 4 183 ;!
  check_field (al + 4) DEF_ARRAY_LIST_CAPACITY 184 ;!
  al_append al 5 ;!
  check_field al 5 188 ;!
  check_field (al + 4) (2 * DEF_ARRAY_LIST_CAPACITY) 189 ;!
  check_item al 0 1 192 ;!
  check_item al 1 2 193 ;!
  check_item al 2 3 194 ;!
  check_item al 3 4 195 ;!
  check_item al 4 5 196 ;!
  uexit 0.
End code.

(** ** The list in memory *)

Section spec.
Context `{UE : UserEnv} `{HA : Allocator HT} `{HO : !AllocatorOk HT} `{US : UserSpace}.

Implicit Types (s : astate HT) (L : gmap Z Z).

(** The struct at [al] with its items at [buf] is the list [xs]. *)
Record is_list (m : mem) L (al buf cap : Z) (xs : list Z) : Prop := {
  il_al : L !! al = Some sizeof_arraylist;
  il_blk : L !! buf = Some (sizeof_int * cap);
  il_ne : al <> buf;
  il_size : i32 (load m al 4) = Z.of_nat (length xs);
  il_cap : i32 (load m (al + 4) 4) = cap;
  il_buf : load m (al + 8) 8 = buf;
  il_items i x : xs !! i = Some x -> i32 (load m (buf + sizeof_int * Z.of_nat i) 4) = x;
  il_fits : Z.of_nat (length xs) <= cap;
  il_bound : 4 <= cap <= 2 ^ 29;
}.

Lemma is_list_frame m m' L L' al buf cap xs : is_list m L al buf cap xs ->
  L' !! al = L !! al -> L' !! buf = L !! buf ->
  (forall x, al <= x < al + 16 -> m' x = m x) -> (forall x, buf <= x < buf + 4 * cap -> m' x = m x) ->
  is_list m' L' al buf cap xs.
Proof using.
  intros [I1 I2 I3 I4 I5 I6 I7 I8 I9] E1 E2 Ha Hb. constructor; try done; try congruence.
  - rewrite <-I4. f_equal. apply load_ext. intros x Hx. apply Ha. lia.
  - rewrite <-I5. f_equal. apply load_ext. intros x Hx. apply Ha. lia.
  - rewrite <-I6. apply load_ext. intros x Hx. apply Ha. lia.
  - intros i x Hi. rewrite <-(I7 i x Hi). f_equal. apply load_ext. intros y Hy. apply Hb.
    apply lookup_lt_Some in Hi. unfold sizeof_int in *. lia.
Qed.

Section ops.
Context (s : astate HT) (L : gmap Z Z) (al buf cap : Z) (xs : list Z).
Hypothesis (Ho : owns s L) (Hl : is_list (a_mem s) L al buf cap xs).

Lemma field_within k n : 0 <= k -> k + n <= 16 -> within L (al + k) n.
Proof using Hl. intros Hk Hn. exists al, 16. split; [apply (il_al _ _ _ _ _ _ Hl)|lia]. Qed.

Lemma item_within i : 0 <= i < cap -> within L (buf + sizeof_int * i) 4.
Proof using Hl. intros Hi. exists buf, (sizeof_int * cap). split; [apply (il_blk _ _ _ _ _ _ Hl)|unfold sizeof_int; lia]. Qed.

Lemma load_size : load_int al s = Done (inr (Z.of_nat (length xs))) s.
Proof using HO Ho Hl.
  rewrite (load_int_in s L) by (done || (rewrite <-(Z.add_0_r al); by apply field_within)).
  by rewrite (il_size _ _ _ _ _ _ Hl).
Qed.

Lemma load_cap : load_int (al + 4) s = Done (inr cap) s.
Proof using HO Ho Hl. rewrite (load_int_in s L) by (done || by apply field_within). by rewrite (il_cap _ _ _ _ _ _ Hl). Qed.

Lemma load_buf : load_ptr (al + 8) s = Done (inr buf) s.
Proof using HO Ho Hl.
  unfold load_ptr. rewrite (uload_in s L) by (done || by apply field_within). by rewrite (il_buf _ _ _ _ _ _ Hl).
Qed.

Lemma load_item i x : xs !! i = Some x -> load_int (buf + sizeof_int * Z.of_nat i) s = Done (inr x) s.
Proof using HO Ho Hl.
  intros Hi. pose proof (lookup_lt_Some _ _ _ Hi). pose proof (il_fits _ _ _ _ _ _ Hl).
  rewrite (load_int_in s L); [|done|apply item_within; lia]. by rewrite (il_items _ _ _ _ _ _ Hl i x Hi).
Qed.

Lemma al_get_at_in pos : 0 <= pos ->
  al_get_at al pos s = Done (inr (default (-1) (xs !! Z.to_nat pos))) s.
Proof using HO Ho Hl.
  intros Hpos. unfold al_get_at. rewrite (ubind_ok _ _ _ _ _ load_size).
  destruct (Z.leb_spec (Z.of_nat (length xs)) pos) as [Hp|Hp].
  - by rewrite lookup_ge_None_2 by lia.
  - rewrite (ubind_ok _ _ _ _ _ load_buf). destruct (lookup_lt_is_Some_2 xs (Z.to_nat pos)) as [x Hx]; [lia|].
    rewrite Hx. rewrite <-(Z2Nat.id pos) by lia. by apply load_item.
Qed.

Lemma al_free_in : exists s', al_free al s = Done (inr tt) s' /\ owns s' (delete al (delete buf L)) /\
  a_mem s' = a_mem s /\ a_user s' = a_user s /\ a_mallocs s' = a_mallocs s.
Proof using HO Ho Hl.
  unfold al_free. rewrite (ubind_ok _ _ _ _ _ load_buf).
  destruct (free_in s L buf _ Ho (il_blk _ _ _ _ _ _ Hl)) as (s1 & E1 & Ho1 & M1 & U1 & A1).
  rewrite (ubind_ok _ _ _ _ _ E1).
  destruct (free_in s1 (delete buf L) al sizeof_arraylist Ho1) as (s2 & E2 & Ho2 & M2 & U2 & A2).
  { rewrite lookup_delete_ne; [apply (il_al _ _ _ _ _ _ Hl)|]. by intros ->; destruct (il_ne _ _ _ _ _ _ Hl). }
  exists s2. split; [done|]. split; [done|]. by rewrite M2, U2, A2.
Qed.

(** The struct and the items are apart. *)
Lemma list_apart : al + 16 <= buf \/ buf + 4 * cap <= al.
Proof using HO Ho Hl.
  destruct (a_separate _ _ al 16 buf (4 * cap) (ow_ok _ _ Ho)); [apply Hl|apply Hl|apply Hl|lia|lia].
Qed.
End ops.

(** The blocks of the program other than the list's. *)
Definition others L (al buf : Z) : gmap Z Z := delete buf (delete al L).

(** A list with room takes one item more. *)
Lemma push_in s L al buf cap xs v : owns s L -> is_list (a_mem s) L al buf cap xs ->
  Z.of_nat (length xs) < cap -> - 2 ^ 31 <= v < 2 ^ 31 ->
  let m1 := store (a_mem s) (buf + sizeof_int * Z.of_nat (length xs)) 4 v in
  let m2 := store m1 al 4 (Z.of_nat (length xs) + 1) in
  owns (set_a_mem m2 s) L /\ is_list m2 L al buf cap (xs ++ [v]) /\ same_blocks (others L al buf) (a_mem s) m2.
Proof using HO.
  intros Ho Hl Hlen Hv m1 m2. pose proof (list_apart s L al buf cap xs Ho Hl) as Hap.
  assert (H1 : forall x, ~ (buf <= x < buf + 4 * cap) -> m1 x = a_mem s x).
  { intros x Hx. apply store_outside. unfold sizeof_int. lia. }
  assert (H2 : forall x, ~ (al <= x < al + 4) -> m2 x = m1 x) by (intros x Hx; by apply store_outside).
  split; [constructor; [apply Ho|by do 2 apply mem_ok_store; apply Ho]|]. split.
  - destruct Hl as [I1 I2 I3 I4 I5 I6 I7 I8 I9]. constructor; try done; rewrite ?length_app; cbn [length].
    + unfold m2. rewrite i32_load_store by lia. lia.
    + rewrite <-I5. f_equal. apply load_ext. intros x Hx. rewrite H2, H1 by lia. done.
    + rewrite <-I6. apply load_ext. intros x Hx. rewrite H2, H1 by lia. done.
    + intros i x Hi. assert (Hi' : (i < S (length xs))%nat) by (apply lookup_lt_Some in Hi; rewrite length_app in Hi; simpl in Hi; lia).
      rewrite (load_ext 4 m2 m1) by (intros y Hy; apply H2; unfold sizeof_int in *; lia).
      apply lookup_snoc_Some in Hi as [[Hi1 Hi]|[-> ->]].
      * rewrite <-(I7 i x Hi). f_equal. apply load_store_disjoint. unfold sizeof_int. lia.
      * by apply i32_load_store.
    + lia.
  - intros p n x Hp Hx. unfold others in Hp. apply lookup_delete_Some in Hp as [Hpb Hp].
    apply lookup_delete_Some in Hp as [Hpa Hp].
    destruct (a_separate _ _ p n al 16 (ow_ok _ _ Ho) Hp); [apply Hl|done|..];
    (destruct (a_separate _ _ p n buf (4 * cap) (ow_ok _ _ Ho) Hp); [apply Hl|done|..]); rewrite H2, H1; done || lia.
Qed.

Lemma push_run s L al buf cap xs v : owns s L -> is_list (a_mem s) L al buf cap xs ->
  Z.of_nat (length xs) < cap -> - 2 ^ 31 <= v < 2 ^ 31 ->
  let m1 := store (a_mem s) (buf + sizeof_int * Z.of_nat (length xs)) 4 v in
  let m2 := store m1 al 4 (Z.of_nat (length xs) + 1) in
  (l <~ load_ptr (al + 8) ;; size <~ load_int al ;; store_int (l + sizeof_int * size) v ;!
   size <~ load_int al ;; store_int al (i32 (size + 1))) s = Done (inr tt) (set_a_mem m2 s).
Proof using HO.
  intros Ho Hl Hlen Hv m1 m2. pose proof (list_apart s L al buf cap xs Ho Hl) as Hap. pose proof (il_bound _ _ _ _ _ _ Hl) as Hb.
  rewrite (ubind_ok _ _ _ _ _ (load_buf s L al buf cap xs Ho Hl)), (ubind_ok _ _ _ _ _ (load_size s L al buf cap xs Ho Hl)).
  assert (E1 : store_int (buf + sizeof_int * Z.of_nat (length xs)) v s = Done (inr tt) (set_a_mem m1 s)).
  { apply (ustore_in s L); [done|]. apply (item_within s L al buf cap xs Hl). lia. }
  rewrite (ubind_ok _ _ _ _ _ E1).
  pose proof (owns_store s L 4 (buf + sizeof_int * Z.of_nat (length xs)) v Ho) as Ho1. fold m1 in Ho1.
  assert (Hal : within L al 4).
  { exists al, 16. split; [apply Hl|lia]. }
  rewrite (ubind_ok _ _ _ _ _ (load_int_in _ L al Ho1 Hal)). cbn [a_mem set_a_mem].
  replace (i32 (load m1 al 4)) with (Z.of_nat (length xs)).
  - rewrite swrap_small by lia. by apply (ustore_in _ L _ 4 _ Ho1).
  - rewrite <-(il_size _ _ _ _ _ _ Hl). f_equal. symmetry. apply load_store_disjoint. unfold sizeof_int. lia.
Qed.

(** ** Growing *)

(** Storing the pointer and the capacity makes the items at [nb] the list's. *)
Lemma relink s L al nb cap xs : owns s L -> L !! al = Some 16 -> L !! nb = Some (4 * cap) -> al <> nb ->
  i32 (load (a_mem s) al 4) = Z.of_nat (length xs) -> Z.of_nat (length xs) <= cap -> 4 <= cap <= 2 ^ 29 ->
  (forall i x, xs !! i = Some x -> i32 (load (a_mem s) (nb + 4 * Z.of_nat i) 4) = x) ->
  let m1 := store (a_mem s) (al + 8) 8 nb in
  let m2 := store m1 (al + 4) 4 cap in
  (store_ptr (al + 8) nb ;! store_int (al + 4) cap) s = Done (inr tt) (set_a_mem m2 s) /\
  owns (set_a_mem m2 s) L /\ is_list m2 L al nb cap xs /\ same_blocks (delete al L) (a_mem s) m2.
Proof using HO.
  intros Ho Hal Hnb Hne Hsz Hfit Hcap Hit m1 m2.
  pose proof (owns_store s L 8 (al + 8) nb Ho) as Ho1. fold m1 in Ho1.
  assert (Hw : forall k n, 0 <= k -> k + n <= 16 -> within L (al + k) n) by (intros k n ? ?; exists al, 16; split; [done|lia]).
  assert (Hap := a_separate _ _ al 16 nb (4 * cap) (ow_ok _ _ Ho) Hal Hnb Hne).
  assert (Hout : forall x, ~ (al + 4 <= x < al + 16) -> m2 x = a_mem s x).
  { intros x Hx. unfold m2, m1. by rewrite !store_outside by lia. }
  destruct (a_block _ _ nb (4 * cap) (ow_ok _ _ Ho) Hnb) as [Hnb64 _]. unfold PGSIZE in Hnb64.
  split; [|split; [|split]].
  - assert (E1 : store_ptr (al + 8) nb s = Done (inr tt) (set_a_mem m1 s)) by (apply (ustore_in s L); [done|by apply Hw]).
    rewrite (ubind_ok _ _ _ _ _ E1). apply (ustore_in _ L _ 4 _ Ho1). by apply Hw.
  - by apply (owns_store _ L 4 (al + 4) cap) in Ho1.
  - constructor; try done.
    + rewrite <-Hsz. f_equal. apply load_ext. intros x Hx. apply Hout. lia.
    + apply i32_load_store. lia.
    + unfold m2. rewrite load_store_disjoint by lia. unfold m1. rewrite load_store_same.
      change (256 ^ Z.of_nat 8) with (2 ^ 64). apply Z.mod_small. lia.
    + intros i x Hi. rewrite <-(Hit i x Hi). f_equal. apply load_ext. intros y Hy. apply Hout.
      apply lookup_lt_Some in Hi. unfold sizeof_int in *. lia.
  - intros p n x [Hp1 Hp]%lookup_delete_Some Hx. apply Hout.
    destruct (a_separate _ _ al 16 p n (ow_ok _ _ Ho) Hal Hp Hp1); lia.
Qed.

Section resize.
Context (s0 : astate HT) (L : gmap Z Z) (al buf cap : Z) (xs : list Z).
Hypothesis (Ho0 : owns s0 L) (Hl0 : is_list (a_mem s0) L al buf cap xs).

(** After [malloc], in any state that has the blocks of before: a round of the loop. *)
Lemma copy_round nb s i x : L !! nb = None -> owns s (<[nb := 8 * cap]> L) ->
  same_blocks L (a_mem s0) (a_mem s) -> xs !! i = Some x ->
  let m := store (a_mem s) (nb + sizeof_int * Z.of_nat i) 4 x in
  al_copy al nb (Z.of_nat i) s = Done (inr (inl (Z.of_nat i + 1))) (set_a_mem m s) /\ same_blocks L (a_mem s0) m.
Proof using HO Hl0.
  intros Hnb Ho Hs Hi m. pose proof (lookup_lt_Some _ _ _ Hi) as Hlt. pose proof (il_fits _ _ _ _ _ _ Hl0) as Hf.
  pose proof (il_al _ _ _ _ _ _ Hl0) as Hal. pose proof (il_blk _ _ _ _ _ _ Hl0) as Hbuf. unfold sizeof_int, sizeof_arraylist in *.
  assert (Hl : is_list (a_mem s) (<[nb := 8 * cap]> L) al buf cap xs).
  { eapply is_list_frame; [exact Hl0|..].
    - apply lookup_insert_ne. by intros ->; rewrite Hal in Hnb.
    - apply lookup_insert_ne. by intros ->; rewrite Hbuf in Hnb.
    - intros y Hy. by apply (Hs al 16).
    - intros y Hy. by apply (Hs buf (4 * cap)). }
  split.
  - unfold al_copy. rewrite (ubind_ok _ _ _ _ _ (load_size s _ al buf cap xs Ho Hl)).
    replace (Z.of_nat i <? Z.of_nat (length xs)) with true by lia.
    rewrite (ubind_ok _ _ _ _ _ (load_buf s _ al buf cap xs Ho Hl)), (ubind_ok _ _ _ _ _ (load_item s _ al buf cap xs Ho Hl i x Hi)).
    assert (E1 : store_int (nb + sizeof_int * Z.of_nat i) x s = Done (inr tt) (set_a_mem m s)).
    { apply (ustore_in s (<[nb := 8 * cap]> L)); [done|]. exists nb, (8 * cap). split; [apply lookup_insert_eq|unfold sizeof_int; lia]. }
    by rewrite (ubind_ok _ _ _ _ _ E1).
  - etransitivity; [exact Hs|]. eapply same_blocks_sub; [|eapply (store_same s (<[nb := 8 * cap]> L) nb (8 * cap)); [done|apply lookup_insert_eq|lia|lia]].
    by rewrite delete_insert_id.
Qed.

Lemma al_copy_in nb s : L !! nb = None -> owns s (<[nb := 8 * cap]> L) -> same_blocks L (a_mem s0) (a_mem s) ->
  exists s', uloop (S (length xs)) (al_copy al nb) 0 s = Done (inr tt) s' /\ owns s' (<[nb := 8 * cap]> L) /\
    same_blocks L (a_mem s0) (a_mem s') /\ a_user s' = a_user s /\ a_mallocs s' = a_mallocs s /\
    forall j x, xs !! j = Some x -> i32 (load (a_mem s') (nb + 4 * Z.of_nat j) 4) = x.
Proof using HO Hl0.
  intros Hnb Ho Hs.
  set (Inv := fun (i : Z) s' => exists k : nat, i = Z.of_nat k /\ (k <= length xs)%nat /\ owns s' (<[nb := 8 * cap]> L) /\
    same_blocks L (a_mem s0) (a_mem s') /\ a_user s' = a_user s /\ a_mallocs s' = a_mallocs s /\
    forall j x, xs !! j = Some x -> (j < k)%nat -> i32 (load (a_mem s') (nb + 4 * Z.of_nat j) 4) = x).
  assert (Hw : uwp (uloop (S (length xs)) (al_copy al nb) 0) s (fun _ s' => Inv (Z.of_nat (length xs)) s')).
  { apply (uwp_loop Inv (fun i => (length xs - Z.to_nat i)%nat)); [|exists O; split_and!; try done; lia|lia].
    intros i s' (k & -> & Hk & Ho' & Hs' & Hu' & Hc' & Hit). destruct (decide (k < length xs)%nat) as [Hlt|Hge].
    - destruct (lookup_lt_is_Some_2 xs k Hlt) as [x Hx].
      destruct (copy_round nb s' k x Hnb Ho' Hs' Hx) as [E Hs'']. eapply uwp_done; [exact E|]. split; [|lia].
      exists (S k). split; [lia|]. split; [lia|]. split; [by apply owns_store|]. split; [done|]. split; [done|]. split; [done|].
      intros j y Hj Hjk. cbn [a_mem set_a_mem]. unfold sizeof_int. destruct (decide (j = k)) as [->|Hne].
      + rewrite Hx in Hj. simplify_eq. apply i32_load_store. rewrite <-(il_items _ _ _ _ _ _ Hl0 k y Hx). by apply (swrap_bound 32).
      + rewrite load_store_disjoint by lia. apply Hit; [done|lia].
    - assert (k = length xs) as -> by lia.
      apply (uwp_done _ _ (inr tt) s'); [unfold al_copy|by exists (length xs)].
      assert (Hal : within (<[nb := 8 * cap]> L) al 4).
      { exists al, 16. split; [|lia]. pose proof (il_al _ _ _ _ _ _ Hl0) as Ha. rewrite lookup_insert_ne; [done|].
        by intros ->; rewrite Ha in Hnb. }
      rewrite (ubind_ok _ _ _ _ _ (load_int_in s' _ al Ho' Hal)).
      rewrite (same_load L (a_mem s0) _ al 16) by (done || apply Hl0 || lia). rewrite (il_size _ _ _ _ _ _ Hl0).
      by replace (Z.of_nat (length xs) <? Z.of_nat (length xs)) with false by lia. }
  destruct (uwp_elim _ _ _ Hw) as ([] & s' & E & (k & Ek & Hk & Ho' & Hs' & Hu' & Hc' & Hit)). exists s'.
  split_and!; try done. intros j x Hj. apply Hit; [done|]. apply lookup_lt_Some in Hj. lia.
Qed.

(** With no memory, the first store of the loop goes to address 0. *)
Lemma copy_null s n x ys : xs = x :: ys -> owns s L -> a_mem s = a_mem s0 ->
  uloop (S n) (al_copy al 0) 0 s = Done (inl (-1)) s.
Proof using HO Hl0.
  intros Hxs Ho Em. assert (Hl : is_list (a_mem s) L al buf cap xs) by by rewrite Em.
  apply uloop_stop. unfold al_copy. rewrite (ubind_ok _ _ _ _ _ (load_size s L al buf cap xs Ho Hl)).
  replace (0 <? Z.of_nat (length xs)) with true by (apply (f_equal length) in Hxs; cbn [length] in Hxs; lia).
  rewrite (ubind_ok _ _ _ _ _ (load_buf s L al buf cap xs Ho Hl)).
  rewrite (ubind_ok _ _ _ _ _ (load_item s L al buf cap xs Ho Hl 0 x ltac:(by rewrite Hxs))).
  apply ubind_stop. apply (ustore_text s L); [done|by vm_compute|lia].
Qed.

Lemma al_resize_in : ~ refused s0 -> xs <> [] -> 8 * cap <= 2 ^ 31 - 32 ->
  twp (al_resize al) s0 (fun _ s' => exists nb, L !! nb = None /\
    owns s' (delete buf (<[nb := 8 * cap]> L)) /\
    is_list (a_mem s') (delete buf (<[nb := 8 * cap]> L)) al nb (2 * cap) xs /\
    same_blocks (others L al buf) (a_mem s0) (a_mem s') /\ a_user s' = a_user s0 /\ ~ refused s') out_of_memory.
Proof using HO Ho0 Hl0.
  intros Hnr Hne Hcap. pose proof (il_bound _ _ _ _ _ _ Hl0) as Hb. unfold al_resize.
  apply twp_bind. eapply twp_done; [by apply (load_cap s0 L al buf cap xs)|].
  rewrite swrap_small by lia. unfold sizeof_int. rewrite (uwrap_small 64 (2 * cap)), (uwrap_small 64) by lia.
  replace (2 * cap * 4) with (8 * cap) by lia. apply twp_bind.
  destruct (malloc_in s0 L (8 * cap) Ho0) as (nb & s1 & E1 & U1 & C1 & Hm); [lia|]. eapply twp_done; [exact E1|].
  destruct Hm as [(-> & Ho1 & M1)|(Hnb0 & Hnb & Ho1 & Hs1)].
  - assert (Hl1 : is_list (a_mem s1) L al buf cap xs) by by rewrite M1.
    apply twp_bind. eapply twp_done; [by apply (load_size s1 L al buf cap xs)|]. rewrite Nat2Z.id.
    apply twp_bind. assert (exists x ys, xs = x :: ys) as (x & ys & Hxs) by (clear -Hne; destruct xs; [done|by eexists _, _]).
    eapply twp_stop; [by eapply copy_null|split; [done|by eapply refused_now]].
  - assert (Hal : within (<[nb := 8 * cap]> L) al 4) by (exists al, 16; split; [rewrite lookup_insert_ne; [apply Hl0|]|lia]; intros ->; by rewrite (il_al _ _ _ _ _ _ Hl0) in Hnb).
    apply twp_bind. eapply twp_done; [by apply (load_int_in _ _ _ Ho1)|].
    rewrite (same_load L (a_mem s0) _ al 16) by (done || apply Hl0 || lia). rewrite (il_size _ _ _ _ _ _ Hl0), Nat2Z.id.
    destruct (al_copy_in nb s1 Hnb Ho1 Hs1) as (s2 & E2 & Ho2 & Hs2 & U2 & C2 & Hit).
    apply twp_bind. eapply twp_done; [exact E2|].
    pose proof (il_al _ _ _ _ _ _ Hl0) as Hal0. pose proof (il_blk _ _ _ _ _ _ Hl0) as Hbuf0. unfold sizeof_int, sizeof_arraylist in *.
    assert (Hna : nb <> al) by by intros ->; rewrite Hal0 in Hnb.
    assert (Hnbuf : nb <> buf) by by intros ->; rewrite Hbuf0 in Hnb.
    assert (Hl2 : is_list (a_mem s2) (<[nb := 8 * cap]> L) al buf cap xs).
    { eapply is_list_frame; [exact Hl0|by apply lookup_insert_ne|by apply lookup_insert_ne|..].
      - intros y Hy. by apply (Hs2 al 16).
      - intros y Hy. by apply (Hs2 buf (4 * cap)). }
    apply twp_bind. eapply twp_done; [exact (load_buf s2 _ al buf cap xs Ho2 Hl2)|].
    destruct (free_in s2 _ buf (4 * cap) Ho2) as (s3 & E3 & Ho3 & M3 & U3 & C3); [by rewrite lookup_insert_ne|].
    apply twp_bind. eapply twp_done; [exact E3|].
    destruct (relink s3 (delete buf (<[nb := 8 * cap]> L)) al nb (2 * cap) xs Ho3) as (E4 & Ho4 & Hl4 & Hs4);
      [by rewrite lookup_delete_ne, lookup_insert_ne by (done || intros ->; by apply (il_ne _ _ _ _ _ _ Hl0))
      |rewrite lookup_delete_ne, lookup_insert_eq by done; f_equal; lia|done
      |rewrite M3; apply Hl2|pose proof (il_fits _ _ _ _ _ _ Hl0); lia|lia|by rewrite M3|].
    eapply twp_done; [exact E4|]. exists nb. split; [done|]. split; [done|]. split; [done|]. split; [|split; [by rewrite <-U1, <-U2, <-U3|]].
    2:{ apply (not_refused_now s0 _ nb Hnr Hnb0). by rewrite <-C1, <-C2, <-C3. }
    transitivity (a_mem s2).
    { eapply same_blocks_sub; [|exact Hs2]. unfold others. etransitivity; apply delete_subseteq. }
    rewrite <-M3. eapply same_blocks_sub; [|exact Hs4]. unfold others.
    rewrite (delete_delete (<[nb := 8 * cap]> L) al). apply delete_mono, delete_mono, insert_subseteq, Hnb.
Qed.
End resize.

(** [s'] is [s] but for the list at [al], which is now [xs]; [L] are the other blocks of the program. *)
Definition holds s L (al cap : Z) (xs : list Z) s' : Prop :=
  exists L' buf, owns s' L' /\ is_list (a_mem s') L' al buf cap xs /\ others L' al buf = L /\
    same_blocks L (a_mem s) (a_mem s') /\ a_user s' = a_user s /\ ~ refused s'.

Lemma al_append_in s0 s L al cap xs v : holds s0 L al cap xs s -> - 2 ^ 31 <= v < 2 ^ 31 ->
  (Z.of_nat (length xs) = cap -> 8 * cap <= 2 ^ 31 - 32) ->
  twp (al_append al v) s
    (fun _ => holds s0 L al (if Z.of_nat (length xs) =? cap then 2 * cap else cap) (xs ++ [v])) out_of_memory.
Proof using HO.
  intros (L1 & buf & Ho & Hl & HL & Hs & Hu & Hnr) Hv Hcap. unfold al_append.
  apply twp_bind. eapply twp_done; [exact (load_size s L1 al buf cap xs Ho Hl)|].
  apply twp_bind. eapply twp_done; [exact (load_cap s L1 al buf cap xs Ho Hl)|].
  pose proof (il_bound _ _ _ _ _ _ Hl) as Hb. pose proof (il_fits _ _ _ _ _ _ Hl) as Hf.
  apply twp_bind. destruct (Z.eqb_spec (Z.of_nat (length xs)) cap) as [Eq|Hne].
  - eapply twp_mono; [apply (al_resize_in s L1 al buf cap xs Ho Hl Hnr); [by intros ->; simpl in Eq; lia|by apply Hcap]|].
    intros [] s1 (nb & Hnb & Ho1 & Hl1 & Hs1 & U1 & Hnr1).
    destruct (push_in s1 _ al nb (2 * cap) xs v Ho1 Hl1) as (Ho2 & Hl2 & Hs2); [lia|done|].
    assert (Eo : others (delete buf (<[nb := 8 * cap]> L1)) al nb = L).
    { rewrite <-HL. unfold others. rewrite (delete_delete _ nb al), (delete_delete _ nb buf), delete_insert_id by done.
      apply delete_delete. }
    eapply twp_done; [apply (push_run s1 _ al nb (2 * cap) xs v Ho1 Hl1); [lia|done]|].
    eexists _, nb. split; [done|]. split; [done|]. split; [done|]. split; [|split; [by rewrite <-Hu, <-U1|done]].
    rewrite Eo in Hs2. rewrite HL in Hs1. by do 2 (etransitivity; [done|]).
  - eapply twp_ret. destruct (push_in s L1 al buf cap xs v Ho Hl) as (Ho2 & Hl2 & Hs2); [lia|done|].
    eapply twp_done; [apply (push_run s L1 al buf cap xs v Ho Hl); [lia|done]|].
    eexists L1, buf. split; [done|]. split; [done|]. split; [done|]. split; [|done].
    rewrite HL in Hs2. by etransitivity.
Qed.

(** A list that has no memory for its items: [al_new] does not check its second [malloc]. *)
Definition null_list s L (al : Z) s' : Prop :=
  refused s' /\ owns s' (<[al := 16]> L) /\ L !! al = None /\ a_user s' = a_user s /\
  i32 (load (a_mem s') al 4) = 0 /\ i32 (load (a_mem s') (al + 4) 4) = 4 /\ load (a_mem s') (al + 8) 8 = 0.

Lemma null_loads s0 s L al : null_list s0 L al s ->
  load_int al s = Done (inr 0) s /\ load_int (al + 4) s = Done (inr 4) s /\ load_ptr (al + 8) s = Done (inr 0) s.
Proof using HO.
  intros (_ & Ho & _ & _ & F1 & F2 & F3).
  assert (Hw : forall a n, al <= a -> a + n <= al + 16 -> within (<[al := 16]> L) a n)
    by (intros a n ? ?; exists al, 16; split; [apply lookup_insert_eq|lia]).
  rewrite (load_int_in s _ al Ho), (load_int_in s _ (al + 4) Ho), F1, F2 by (apply Hw; lia).
  split; [done|]. split; [done|]. unfold load_ptr. by rewrite (uload_in s _ _ 8 Ho), F3 by (apply Hw; lia).
Qed.

Lemma append_null s0 s L al v : null_list s0 L al s -> al_append al v s = Done (inl (-1)) s.
Proof using HO.
  intros Hn. destruct (null_loads _ _ _ _ Hn) as (E1 & E2 & E3). destruct Hn as (_ & Ho & _). unfold al_append.
  rewrite (ubind_ok _ _ _ _ _ E1), (ubind_ok _ _ _ _ _ E2). cbn [Z.eqb].
  rewrite (ubind_ok (uret tt) _ _ _ _ eq_refl), (ubind_ok _ _ _ _ _ E3), (ubind_ok _ _ _ _ _ E1).
  apply ubind_stop. by apply (ustore_text s (<[al := 16]> L)); [done|by vm_compute|lia].
Qed.

(** The fields of a new list, whatever [malloc] did between the stores. *)
Lemma new_fields m1 m3 al p : (forall x, al <= x < al + 8 -> m3 x = store (store m1 al 4 0) (al + 4) 4 4 x) -> 0 <= p < 2 ^ 64 ->
  let m := store m3 (al + 8) 8 p in
  i32 (load m al 4) = 0 /\ i32 (load m (al + 4) 4) = 4 /\ load m (al + 8) 8 = p.
Proof using.
  intros Hm Hp m. split; [|split].
  - unfold m. rewrite load_store_disjoint by lia. rewrite (load_ext 4 m3 (store m1 al 4 0)); [by apply i32_load_store|].
    intros x Hx. rewrite Hm by lia. apply store_outside. lia.
  - unfold m. rewrite load_store_disjoint by lia.
    rewrite (load_ext 4 m3 (store (store m1 al 4 0) (al + 4) 4 4)); [by apply i32_load_store|]. intros x Hx. apply Hm. lia.
  - unfold m. rewrite load_store_same. by apply Z.mod_small.
Qed.

(** The last store of [al_new], after [malloc] has gone from [s1] with the fields stored to [s3]. *)
Lemma finish_new s s1 s3 L L3 al l : let m2 := store (store (a_mem s1) al 4 0) (al + 4) 4 4 in
  L !! al = None -> owns s1 (<[al := 16]> L) -> same_blocks L (a_mem s) m2 ->
  owns s3 L3 -> L3 !! al = Some 16 -> same_blocks (<[al := 16]> L) m2 (a_mem s3) -> 0 <= l < 2 ^ 64 ->
  let m := store (a_mem s3) (al + 8) 8 l in
  store_ptr (al + 8) l s3 = Done (inr tt) (set_a_mem m s3) /\ owns (set_a_mem m s3) L3 /\
  (i32 (load m al 4) = 0 /\ i32 (load m (al + 4) 4) = 4 /\ load m (al + 8) 8 = l) /\ same_blocks L (a_mem s) m.
Proof using HO.
  intros m2 Hfr Ho1 Hs2 Ho4 Hal3 Hs3 Hl m. split; [|split; [|split]].
  - apply (ustore_in s3 L3); [done|]. exists al, 16. split; [done|lia].
  - by apply owns_store.
  - apply (new_fields (a_mem s1)); [|done]. intros x Hx. apply (Hs3 al 16); [apply lookup_insert_eq|lia].
  - etransitivity; [exact Hs2|]. intros q n x Hq Hx. assert (Hne : al <> q) by by intros ->; rewrite Hq in Hfr.
    assert (Hq1 : <[al := 16]> L !! q = Some n) by by rewrite lookup_insert_ne.
    destruct (a_separate _ _ al 16 q n (ow_ok _ _ Ho1) (lookup_insert_eq _ _ _) Hq1 Hne);
      unfold m; rewrite store_outside by lia; by apply (Hs3 q n).
Qed.

Lemma al_new_in s L : owns s L -> ~ refused s ->
  twp al_new s (fun al s' => al <> 0 /\ (holds s L al 4 [] s' \/ null_list s L al s')) out_of_memory.
Proof using HO.
  intros Ho Hnr. unfold al_new. apply twp_bind.
  destruct (malloc_in s L sizeof_arraylist Ho) as (al & s1 & E1 & U1 & C1 & H1); [done|]. eapply twp_done; [exact E1|].
  destruct H1 as [(-> & Ho1 & M1)|(Hal & Hfr & Ho1 & Hs1)].
  { apply twp_bind. eapply twp_stop; [apply (ustore_text s1 L 0 4 0 Ho1); [by vm_compute|lia]|split; [done|by eapply refused_now]]. }
  change sizeof_arraylist with 16 in *. set (L1 := <[al := 16]> L) in *.
  assert (Hal1 : L1 !! al = Some 16) by apply lookup_insert_eq.
  assert (Hw : forall k n, 0 <= k -> k + n <= 16 -> within L1 (al + k) n) by (intros k n ? ?; exists al, 16; split; [done|lia]).
  assert (Hw0 : within L1 al 4) by (exists al, 16; split; [done|lia]).
  apply twp_bind. eapply twp_done; [by apply (ustore_in s1 L1 al 4 0 Ho1)|].
  pose proof (owns_store s1 L1 4 al 0 Ho1) as Ho2.
  apply twp_bind. eapply twp_done; [by apply (ustore_in _ L1 (al + 4) 4 4 Ho2), Hw|].
  pose proof (owns_store _ L1 4 (al + 4) 4 Ho2) as Ho3. cbn [a_mem set_a_mem a_heap a_user a_mallocs] in Ho3 |- *.
  set (m2 := store (store (a_mem s1) al 4 0) (al + 4) 4 4) in *. set (s2 := set_a_mem m2 s1) in *.
  destruct (malloc_in s2 L1 16 Ho3) as (l & s3 & E3 & U3 & C3 & H3); [done|]. apply twp_bind. eapply twp_done; [exact E3|].
  assert (Hs2 : same_blocks L (a_mem s) m2).
  { etransitivity; [exact Hs1|]. intros q n x Hq Hx. unfold m2. assert (Hne : q <> al) by by intros ->; rewrite Hq in Hfr.
    destruct (a_separate _ _ al 16 q n (ow_ok _ _ Ho1) Hal1); [by unfold L1; rewrite lookup_insert_ne|done|..]; by rewrite !store_outside by lia. }
  apply twp_bind. destruct H3 as [(-> & Ho4 & M3)|(Hl & Hfr3 & Ho4 & Hs3)].
  - destruct (finish_new s s1 s3 L L1 al 0 Hfr Ho1 Hs2 Ho4 Hal1) as (E4 & Ho5 & (F1 & F2 & F3) & Hs5); [by rewrite M3|done|].
    eapply twp_done; [exact E4|]. apply twp_ret. split; [done|]. right. split; [by eapply (refused_now s2)|]. split; [done|]. split; [done|].
    split; [by rewrite <-U1, <-(U3 : _ = a_user s1)|]; done.
  - assert (Hla : l <> al) by by intros ->; rewrite Hal1 in Hfr3.
    destruct (a_block _ _ l 16 (ow_ok _ _ Ho4)) as [Hl64 _]; [apply lookup_insert_eq|]. unfold PGSIZE in Hl64.
    destruct (finish_new s s1 s3 L (<[l := 16]> L1) al l Hfr Ho1 Hs2 Ho4) as (E4 & Ho5 & (F1 & F2 & F3) & Hs5); [by rewrite lookup_insert_ne|done|lia|].
    eapply twp_done; [exact E4|]. apply twp_ret. split; [done|]. left. eexists _, l. split; [exact Ho5|].
    split; [|split; [|split; [exact Hs5|split; [by rewrite <-U1, <-(U3 : _ = a_user s1)|]]]].
    + constructor; try done; [by rewrite lookup_insert_ne|by rewrite lookup_insert_eq].
    + unfold others, L1. rewrite (delete_delete _ l al), delete_insert_id, delete_insert_id by done. done.
    + apply (not_refused_now s2 _ l); [|done|exact C3]. by apply (not_refused_now s s1 al).
Qed.

(** ** A program that builds a list *)

Definition build (vs : list Z) : MU (astate HT) Z Z :=
  al <~ al_new ;;
  uiter vs (al_append al) ;!
  uret al.

(** The capacity is doubled only when the list is full. *)
Definition cap_for (n : nat) (cap : Z) : Prop :=
  exists k : nat, cap = 4 * 2 ^ Z.of_nat k /\ Z.of_nat n <= cap /\ (cap = 4 \/ cap < 2 * Z.of_nat n).

Lemma cap_for_step n cap : cap_for n cap -> cap_for (S n) (if Z.of_nat n =? cap then 2 * cap else cap).
Proof using.
  intros (k & -> & Hn & Hc). destruct (Z.eqb_spec (Z.of_nat n) (4 * 2 ^ Z.of_nat k)) as [E|Hne].
  - exists (S k). rewrite Nat2Z.inj_succ, Z.pow_succ_r by lia. lia.
  - exists k. lia.
Qed.

Lemma build_in s L vs : owns s L -> ~ refused s -> Forall (fun v => - 2 ^ 31 <= v < 2 ^ 31) vs -> Z.of_nat (length vs) <= 2 ^ 28 - 4 ->
  twp (build vs) s (fun al s' => al <> 0 /\ ((vs = [] /\ null_list s L al s') \/ exists cap, cap_for (length vs) cap /\ holds s L al cap vs s')) out_of_memory.
Proof using HO.
  intros Ho Hnr Hvs Hlen. unfold build. apply twp_bind. eapply twp_mono; [by apply al_new_in|]. intros al s1 [Hal H1]. apply twp_bind.
  apply (twp_iter _ (fun l s' => (l = [] /\ null_list s L al s') \/ exists cap, cap_for (length l) cap /\ holds s L al cap l s')).
  - intros l1 v l2 s2 El [(-> & Hn)|(cap & Hc & Hh)].
    + eapply twp_stop; [by eapply append_null|]. split; [done|apply Hn].
    + assert (Hl1 : (length l1 < length vs)%nat) by (rewrite El, length_app; cbn [length]; lia).
      eapply twp_mono; [apply (al_append_in _ _ _ _ _ _ _ Hh)|].
      * rewrite El in Hvs. apply Forall_app in Hvs as [_ Hvs]. by inversion Hvs.
      * lia.
      * intros [] s3 Hh3. right. eexists. split; [|exact Hh3]. rewrite length_app, Nat.add_comm. by apply cap_for_step.
  - destruct H1 as [Hh|Hn]; [right; exists 4; split; [by exists O; split_and!; [done|done|left]|done]|by left].
  - intros s2 H2. by apply twp_ret.
Qed.

Lemma holds_returns s0 L al cap vs s : holds s0 L al cap vs s ->
  load_int al s = Done (inr (Z.of_nat (length vs))) s /\ load_int (al + 4) s = Done (inr cap) s /\
  (forall pos, 0 <= pos -> al_get_at al pos s = Done (inr (default (-1) (vs !! Z.to_nat pos))) s) /\
  exists s', al_free al s = Done (inr tt) s' /\ owns s' L /\ same_blocks L (a_mem s0) (a_mem s').
Proof using HO.
  intros (L' & buf & Ho & Hl & HL & Hs & Hu & _). split; [by eapply load_size|]. split; [by eapply load_cap|].
  split; [intros pos Hpos; by eapply al_get_at_in|].
  destruct (al_free_in s L' al buf cap vs Ho Hl) as (s' & E & Ho' & M' & U'). exists s'. split; [done|].
  rewrite M'. split; [|done]. rewrite <-HL. unfold others. by rewrite delete_delete.
Qed.
End spec.

(** ** The program's own tests pass *)

Section main.
Context `{UE : UserEnv} `{HA : Allocator HT} `{HO : !AllocatorOk HT} `{US : UserSpace}.

Implicit Types (s : astate HT).

(** The list at [al] holds [xs], and nothing else matters. *)
Definition has al cap xs s : Prop := exists s0 L, holds s0 L al cap xs s.

Lemma user_printf fmt ap s : exists u, user (printf fmt ap) s = Done (inr tt) (AState (a_heap s) (a_mem s) u (a_mallocs s)).
Proof using.
  destruct (uwp_elim _ _ _ (printf_returns fmt ap (a_user s))) as ([] & u & E & _). exists u. unfold user. by rewrite E.
Qed.

(** What [printf] changes does not matter to the list. *)
Lemma has_printf al cap xs s u : has al cap xs s -> has al cap xs (AState (a_heap s) (a_mem s) u (a_mallocs s)).
Proof using.
  intros (s0 & L & L' & buf & Ho & Hl & HL & Hs & Hu & Hnr).
  exists (AState (a_heap s0) (a_mem s0) u (a_mallocs s0)), L, L', buf. split; [|done]. split; apply Ho.
Qed.

Lemma assert_passes al cap xs s (m : MU (astate HT) Z unit) fmt ap (Q : unit -> astate HT -> Prop) X :
  has al cap xs s -> m = user (printf fmt ap) -> (forall s', has al cap xs s' -> Q tt s') -> twp m s Q X.
Proof using.
  intros Hh -> HQ. destruct (user_printf fmt ap s) as [u E]. eapply twp_done; [exact E|]. by apply HQ, has_printf.
Qed.

Lemma check_size al cap xs s line (Q : unit -> astate HT -> Prop) X : has al cap xs s ->
  (forall s', has al cap xs s' -> Q tt s') -> twp (check_field al (Z.of_nat (length xs)) line) s Q X.
Proof using HO.
  intros Hh HQ. pose proof Hh as (s0 & L & (E & _)%holds_returns). apply twp_bind. eapply twp_done; [exact E|].
  unfold rhassert_int_equals. rewrite Z.eqb_refl. by eapply assert_passes.
Qed.

Lemma check_capacity al cap xs s line (Q : unit -> astate HT -> Prop) X : has al cap xs s ->
  (forall s', has al cap xs s' -> Q tt s') -> twp (check_field (al + 4) cap line) s Q X.
Proof using HO.
  intros Hh HQ. pose proof Hh as (s0 & L & (_ & E & _)%holds_returns). apply twp_bind. eapply twp_done; [exact E|].
  unfold rhassert_int_equals. rewrite Z.eqb_refl. by eapply assert_passes.
Qed.

Lemma check_item_passes al cap xs s pos line (Q : unit -> astate HT -> Prop) X : has al cap xs s -> 0 <= pos ->
  (forall s', has al cap xs s' -> Q tt s') -> twp (check_item al pos (default (-1) (xs !! Z.to_nat pos)) line) s Q X.
Proof using HO.
  intros Hh Hpos HQ. pose proof Hh as (s0 & L & (_ & _ & E & _)%holds_returns). apply twp_bind. eapply twp_done; [by apply E|].
  unfold rhassert_int_equals. rewrite Z.eqb_refl. by eapply assert_passes.
Qed.

Lemma append_has al cap xs v s (Q : unit -> astate HT -> Prop) X : has al cap xs s ->
  (forall e s', out_of_memory e s' -> X e s') -> - 2 ^ 31 <= v < 2 ^ 31 -> cap <= 2 ^ 28 - 4 ->
  (forall s', has al (if Z.of_nat (length xs) =? cap then 2 * cap else cap) (xs ++ [v]) s' -> Q tt s') ->
  twp (al_append al v) s Q X.
Proof using HO.
  intros (s0 & L & Hh) HX Hv Hcap HQ. eapply twp_weaken; [|exact HX]. eapply twp_mono; [apply (al_append_in _ _ _ _ _ _ _ Hh Hv); lia|].
  intros [] s' Hh'. apply HQ. by exists s0, L.
Qed.

(** The same for a list without an array. *)
Definition has_null al s : Prop := exists s0 L, null_list s0 L al s.

Lemma null_printf al s u : has_null al s -> has_null al (AState (a_heap s) (a_mem s) u (a_mallocs s)).
Proof using.
  intros (s0 & L & Hr & Ho & Hfr & Hu & E1 & E2 & E3).
  exists (AState (a_heap s0) (a_mem s0) u (a_mallocs s0)), L. split; [done|]. split; [split; apply Ho|done].
Qed.

(** A check of a field that prints, or of the pointer. *)
Lemma null_check al s (m : MU (astate HT) Z unit) (Q : unit -> astate HT -> Prop) X : has_null al s ->
  (exists fmt ap, m s = user (printf fmt ap) s) -> (forall s', has_null al s' -> Q tt s') -> twp m s Q X.
Proof using.
  intros Hs (fmt & ap & E) HQ. destruct (user_printf fmt ap s) as [u Eu]. eapply twp_done; [by rewrite E, Eu|]. by apply HQ, null_printf.
Qed.

Definition main_end (e : Z) (s : astate HT) : Prop := e = 0 \/ out_of_memory e s.

Ltac main_step :=
  lazymatch goal with Hs : has ?al ?cap ?xs ?s |- twp (ubind ?m _) ?s _ _ =>
    apply twp_bind;
    lazymatch m with
    | al_append al ?v => apply (append_has al cap xs v s _ main_end Hs); [by right|lia|lia|]
    | check_field al _ ?line =>
        change m with (check_field al (Z.of_nat (length xs)) line); apply (check_size al cap xs s line _ main_end Hs)
    | check_field (al + 4) _ ?line =>
        change m with (check_field (al + 4) cap line); apply (check_capacity al cap xs s line _ main_end Hs)
    | check_item al ?pos _ ?line =>
        change m with (check_item al pos (default (-1) (xs !! Z.to_nat pos)) line); apply (check_item_passes al cap xs s pos line _ main_end Hs); [lia|]
    end; clear Hs;
    let s' := fresh "s" in intros s' Hs;
    repeat match type of Hs with
    | has _ ?c ?l _ => progress (let c' := eval vm_compute in c in let l' := eval simpl in l in change (has al c' l' s') in Hs)
    end
  end.

(** The tests print that all is well and exit with status 0, unless memory runs out. *)
Lemma main_passes s L : owns s L -> ~ refused s -> twp main s (fun _ _ => False) main_end.
Proof using HO.
  intros Ho Hnr. unfold main. apply twp_bind.
  eapply twp_mono; [eapply twp_weaken; [by apply al_new_in|by right]|]. intros al s1 [Hal [Hh|Hn]].
  - assert (Hs : has al 4 [] s1) by by exists s, L. apply twp_bind.
    unfold rhassert. replace (al =? 0) with false by lia. cbn [negb].
    eapply assert_passes; [exact Hs|done|]. clear Hs. intros s2 Hs.
    repeat main_step. eapply twp_stop; [reflexivity|by left].
  - assert (Hs : has_null al s1) by by exists s, L.
    apply twp_bind, (null_check al); [exact Hs|unfold rhassert; replace (al =? 0) with false by lia; by eexists _, _|].
    clear s1 Hn Hs. intros s1 Hs. pose proof Hs as (s2 & L2 & (E1 & _)%null_loads).
    apply twp_bind, (null_check al); [exact Hs|unfold check_field; rewrite (ubind_ok _ _ _ _ _ E1); by eexists _, _|].
    clear dependent s1. intros s1 Hs. pose proof Hs as (s3 & L3 & (_ & E2 & _)%null_loads).
    apply twp_bind, (null_check al); [exact Hs|unfold check_field; rewrite (ubind_ok _ _ _ _ _ E2); by eexists _, _|].
    clear dependent s1. intros s1 (s4 & L4 & Hn). apply twp_bind. eapply twp_stop; [by eapply append_null|right; split; [done|apply Hn]].
Qed.
End main.

(** C40: A program that makes a list and appends numbers to it, over any
    allocator that keeps its promises, ends in one of three ways.  It gets a
    list of exactly these numbers in this order, and no call of [malloc] returned 0: [al_get_at] returns them by
    position and 0xffffffff past the end, the capacity is the least 4 * 2^k
    that holds them, no other memory of the program has changed, and
    [al_free] gives back all that was allocated.  Or a call of [malloc] in this run returned 0, and the process was
    killed by the store through the null pointer.  Or
    nothing was appended, and the list has no array, since the second [malloc] of [al_new], which is not checked, returned 0. *)
Theorem arraylist_correct `{AllocatorOk HT} `{UserSpace} (s : astate HT) L vs :
  owns s L -> ~ refused s -> Forall (fun v => - 2 ^ 31 <= v < 2 ^ 31) vs -> Z.of_nat (length vs) <= 2 ^ 28 - 4 ->
  exists r s', build vs s = Done r s' /\
    match r with
    | inl status => status = -1 /\ refused s'
    | inr al => (vs = [] /\ null_list s L al s') \/
        exists cap, ~ refused s' /\ cap_for (length vs) cap /\ a_user s' = a_user s /\ same_blocks L (a_mem s) (a_mem s') /\
          load_int al s' = Done (inr (Z.of_nat (length vs))) s' /\ load_int (al + 4) s' = Done (inr cap) s' /\
          (forall pos, 0 <= pos -> al_get_at al pos s' = Done (inr (default (-1) (vs !! Z.to_nat pos))) s') /\
          exists s'', al_free al s' = Done (inr tt) s'' /\ owns s'' L /\ same_blocks L (a_mem s) (a_mem s'')
    end.
Proof.
  intros Ho Hnr Hvs Hlen. destruct (build_in s L vs Ho Hnr Hvs Hlen) as ([e|al] & s' & E & HQ); (eexists _, s'; split; [exact E|]); [done|].
  destruct HQ as [_ [Hn|(cap & Hc & Hh)]]; [by left|right]. exists cap. destruct Hh as (L' & buf & Hh). split; [apply Hh|]. split; [done|].
  split; [apply Hh|]. split; [apply Hh|].
  apply (holds_returns s L al cap vs s'). by exists L', buf.
Qed.

(** ** A run on user/umalloc.c *)

#[local] Existing Instance MallocSpec.demo_env.
#[local] Existing Instance HeapAlloc.umalloc_allocator.

(** One page of code, one of data, and the heap from 8 KiB on. *)
#[local] Instance demo_space : UserSpace.
Proof.
  refine {| us_load x := (0 <=? x) && (x <? 8192); us_store x := (4096 <=? x) && (x <? 8192);
            us_junk _ _ := 170; us_fuel := 100 |}; [|lia].
  intros x Hx. unfold PGSIZE in Hx. lia.
Defined.

#[local] Instance demo_ok : @AllocatorOk Umalloc.heap (HeapAlloc.umalloc_allocator 8192) :=
  HeapAlloc.umalloc_ok 8192 MallocSpec.demo_limit ltac:(by vm_compute) ltac:(by vm_compute) ltac:(by vm_compute).

Definition demo_list : astate Umalloc.heap := AState MallocSpec.demo_start (fun _ => 0) (UState ∅ [] 0 0 ∅ []) [].

Lemma demo_owns : @owns _ (HeapAlloc.umalloc_allocator 8192) _ demo_list ∅.
Proof.
  split; [|intros x; cbn; lia]. exists [], []. split; [|by intros p n ?%lookup_empty_Some].
  apply MallocSpec.start_inv; by vm_compute.
Qed.

Lemma arraylist_correct_witness : exists r s', @build _ (HeapAlloc.umalloc_allocator 8192) _ [10; -20; 30; -40; 50] demo_list = Done r s' /\
  exists al cap, r = inr al /\ cap_for 5 cap /\ @load_int _ (HeapAlloc.umalloc_allocator 8192) _ (al + 4) s' = Done (inr cap) s' /\
    @al_get_at _ (HeapAlloc.umalloc_allocator 8192) _ al 4 s' = Done (inr 50) s' /\
    @al_get_at _ (HeapAlloc.umalloc_allocator 8192) _ al 5 s' = Done (inr (-1)) s'.
Proof.
  destruct (arraylist_correct (H := demo_ok) demo_list ∅ [10; -20; 30; -40; 50] demo_owns (not_elem_of_nil _)) as (r & s' & E & HQ).
  - repeat (constructor; [lia|]). constructor.
  - vm_compute. discriminate.
  - assert (Er : r = inr 73712).
    { apply (f_equal MallocSpec.value_of) in E. vm_compute in E. congruence. }
    exists r, s'. split; [exact E|]. clear E. subst r. cbv beta iota in HQ.
    destruct HQ as [HQ|HQ]; [destruct HQ as [HF _]; discriminate HF|].
    destruct HQ as (cap & _ & Hc & _ & _ & _ & Hcap & Hget & _).
    exists 73712, cap. split; [reflexivity|]. split; [exact Hc|]. split; [exact Hcap|].
    split; [apply (Hget 4); lia|apply (Hget 5); lia].
Defined.
End ArrayList.
