(* ===== verification/Warmup.v ===== *)
(** * The pointer exercises: user/warmup.c

    The four functions on memory, the tests with their local variables at
    [fp], and the theorem that [string_with_q] finds the string as its comment says. *)

From S2P Require Import Prelude Params Memory Block User UserHeap Rhtest.

Module Warmup.
Import Rhtest.

(** Where the linker puts the string literals. *)
Class Literals := { lit : string -> Z }.

Section code.
Context `{UserEnv} `{Allocator HT} `{UserSpace} `{Literals}.

Abbreviation UA A := (MU (astate HT) Z A).

Definition add_with_pointers (val1 val2 : Z) : UA Z :=
  a <~ load_int val1 ;;
  b <~ load_int val2 ;;
  uret (i32 (a + b)).

Definition ensure_correct_order (should_be_smaller should_be_larger : Z) : UA unit :=
  a <~ load_int should_be_smaller ;;
  b <~ load_int should_be_larger ;;
  if b <? a then
    temp <~ load_int should_be_smaller ;;
    b <~ load_int should_be_larger ;;
    store_int should_be_smaller b ;!
    store_int should_be_larger temp
  else uret tt.

Definition special_equals (val1 val2 : Z) : UA Z :=
  if val1 =? val2 then uret 2
  else
    a <~ load_int val1 ;;
    b <~ load_int val2 ;;
    if a =? b then uret 1 else uret 0.

(** One round of the loop: the address to store, or the next position. *)
Definition q_round (s1 s2 i : Z) : UA (Z + Z) :=
  c <~ load_char (s1 + i) ;;
  if c =? 0 then uret (inr 0)
  else if c =? 81 then uret (inr s1)
  else
    d <~ load_char (s2 + i) ;;
    if d =? 81 then uret (inr s2) else uret (inl (i32 (i + 1))).

Definition string_with_q (s1 s2 output : Z) : UA unit :=
  r <~ uloop us_fuel (q_round s1 s2) 0 ;;
  store_ptr output r.

(** ** The tests *)

Definition check_int (a expected : Z) (func : string) (line : Z) : UA unit :=
  v <~ load_int a ;; rhassert_int_equals v expected func line.

Definition test_add_with_pointers (fp : Z) : UA unit :=
  let a := fp in let b := fp + 4 in
  store_int a 7 ;! store_int b 11 ;!
  r <~ add_with_pointers a b ;;
  rhassert_int_equals r 18 "test_add_with_pointers" 42.

Definition test_ensure_correct_order (fp : Z) : UA unit :=
  let a := fp in let b := fp + 4 in
  store_int a 7 ;! store_int b 11 ;!
  ensure_correct_order a b ;!
  check_int a 7 "test_ensure_correct_order" 66 ;!
  check_int b 11 "test_ensure_correct_order" 67 ;!
  ensure_correct_order b a ;!
  check_int a 11 "test_ensure_correct_order" 70 ;!
  check_int b 7 "test_ensure_correct_order" 71.

Definition test_special_equals (fp : Z) : UA unit :=
  let a := fp in let b := fp + 4 in let c := fp + 8 in
  store_int a 7 ;! store_int b 11 ;! store_int c 11 ;!
  r <~ special_equals a a ;; rhassert_int_equals r 2 "test_special_equals" 102 ;!
  r <~ special_equals b c ;; rhassert_int_equals r 1 "test_special_equals" 103 ;!
  r <~ special_equals a b ;; rhassert_int_equals r 0 "test_special_equals" 104 ;!
  r <~ special_equals a c ;; rhassert_int_equals r 0 "test_special_equals" 105.

Definition test_string_with_q (fp : Z) : UA unit :=
  let output := fp in
  store_ptr output 0 ;!
  string_with_q (lit "abQ") (lit "abc") output ;!
  o <~ load_ptr output ;; rhassert_ptr_equals o (lit "abQ") "test_string_with_q" 154 ;!
  string_with_q (lit "xyz") (lit "abc") output ;!
  o <~ load_ptr output ;; rhassert_ptr_equals o 0 "test_string_with_q" 158 ;!
  string_with_q (lit "12345") (lit "zzQzz") output ;!
  o <~ load_ptr output ;; rhassert_str_equals o (lit "zzQzz") "test_string_with_q" 161 ;!
  string_with_q (lit "Q2345") (lit "zzzzz") output ;!
  o <~ load_ptr output ;; rhassert_str_equals o (lit "Q2345") "test_string_with_q" 164 ;!
  string_with_q (lit "") (lit "") output ;!
  o <~ load_ptr output ;; rhassert_ptr_equals o 0 "test_string_with_q" 167.

(** [argv] without its end. *)
Definition warmup_main (fp : Z) (argv : list (list Z)) : UA unit :=
  match argv with
  | _ :: arg :: _ =>
      let opt := atoi arg in
      (if opt =? 1 then test_add_with_pointers fp
       else if opt =? 2 then test_ensure_correct_order fp
       else if opt =? 3 then test_special_equals fp
       else if opt =? 4 then test_string_with_q fp
       else
         user (printf "Unknown option %d
" [AInt opt]) ;!
         uexit 1) ;!
      uexit 0
  | _ =>
      test_add_with_pointers fp ;!
      test_ensure_correct_order fp ;!
      test_special_equals fp ;!
      test_string_with_q fp ;!
      uexit 0
  end.
End code.

(** ** [string_with_q] *)

Section spec.
Context `{HA : Allocator HT} `{US : UserSpace}.

Implicit Types (s : astate HT).

(** The NUL-terminated string [bs] is at [p], where the program can read it. *)
Definition cstr s (p : Z) (bs : list Z) : Prop :=
  (forall b, b ∈ bs -> b <> 0) /\
  forall i b, (bs ++ [0]) !! i = Some b -> readable s (p + Z.of_nat i) = true /\ a_mem s (p + Z.of_nat i) = b.

Lemma load_cstr s p bs i b : cstr s p bs -> (bs ++ [0]) !! i = Some b -> load_char (p + Z.of_nat i) s = Done (inr b) s.
Proof using.
  intros [_ Hc] Hi. apply Hc in Hi as [Hr Hm]. unfold load_char, uload, all_bytes. cbn [seq forallb load].
  rewrite Z.add_0_r, Hr. cbn [andb]. do 2 f_equal. rewrite Hm. lia.
Qed.

(** What the string exercise asks for. *)
Definition with_q (p1 p2 : Z) (bs1 bs2 : list Z) : Z :=
  if decide (81 ∈ bs1) then p1 else if decide (81 ∈ bs2) then p2 else 0.

Lemma not_in_take (b : Z) i (bs : list Z) c : bs !! i = Some c -> c <> b -> b ∉ take i bs -> b ∉ take (S i) bs.
Proof using. intros Hi Hc Hn. rewrite (take_S_r _ _ _ Hi). intros [?|[<-|?%not_elem_of_nil]%elem_of_cons]%elem_of_app; done. Qed.

Lemma q_loop s p1 p2 bs1 bs2 : cstr s p1 bs1 -> cstr s p2 bs2 -> length bs1 = length bs2 ->
  Z.of_nat (length bs1) < 2 ^ 31 - 1 -> (81 ∉ bs1 \/ 81 ∉ bs2) ->
  forall n i, (i <= length bs1)%nat -> (length bs1 - i < n)%nat -> 81 ∉ take i bs1 -> 81 ∉ take i bs2 ->
  uloop n (q_round p1 p2) (Z.of_nat i) s = Done (inr (with_q p1 p2 bs1 bs2)) s.
Proof using.
  intros H1 H2 Hlen Hmax Hone. induction n as [|n IH]; intros i Hi Hn T1 T2; [lia|].
  destruct (decide (i = length bs1)) as [->|Hne].
  - apply uloop_last. unfold q_round.
    rewrite (ubind_ok _ _ _ _ _ (load_cstr s p1 bs1 _ 0 H1 (list_lookup_middle _ _ _ _ eq_refl))). cbn [Z.eqb].
    rewrite firstn_all in T1. rewrite Hlen, firstn_all in T2. unfold with_q. by rewrite !decide_False by done.
  - destruct (lookup_lt_is_Some_2 bs1 i) as [c Hc]; [lia|]. destruct (lookup_lt_is_Some_2 bs2 i) as [d Hd]; [lia|].
    pose proof (load_cstr s p1 bs1 i c H1 ltac:(by apply lookup_app_l_Some)) as E1.
    pose proof (load_cstr s p2 bs2 i d H2 ltac:(by apply lookup_app_l_Some)) as E2.
    pose proof (proj1 H1 c (list_elem_of_lookup_2 _ _ _ Hc)) as Hc0.
    assert (Er : q_round p1 p2 (Z.of_nat i) s = Done (inr (if c =? 81 then inr p1 else if d =? 81 then inr p2 else inl (i32 (Z.of_nat i + 1)))) s).
    { unfold q_round. rewrite (ubind_ok _ _ _ _ _ E1). replace (c =? 0) with false by lia.
      destruct (c =? 81); [done|]. rewrite (ubind_ok _ _ _ _ _ E2). by destruct (d =? 81). }
    destruct (Z.eqb_spec c 81) as [->|Hc1]; [|destruct (Z.eqb_spec d 81) as [->|Hd1]].
    + rewrite (uloop_last _ _ _ _ _ _ Er). unfold with_q. rewrite decide_True; [done|]. by eapply list_elem_of_lookup_2.
    + rewrite (uloop_last _ _ _ _ _ _ Er). unfold with_q. apply list_elem_of_lookup_2 in Hd.
      rewrite decide_False by (by destruct Hone). by rewrite decide_True.
    + rewrite (uloop_next _ _ _ _ _ _ Er), swrap_small by lia. replace (Z.of_nat i + 1) with (Z.of_nat (S i)) by lia.
      apply IH; [lia|lia|by eapply not_in_take..].
Qed.
End spec.

(** Of two strings of equal length of which at most one has a Q, [string_with_q] stores the address of
    the one that has it, or 0. *)
Theorem string_with_q_correct `{Allocator HT} `{UserSpace} (s : astate HT) p1 p2 output bs1 bs2 :
  cstr s p1 bs1 -> cstr s p2 bs2 -> length bs1 = length bs2 -> (81 ∉ bs1 \/ 81 ∉ bs2) ->
  Z.of_nat (length bs1) < 2 ^ 31 - 1 -> (length bs1 < us_fuel)%nat -> all_bytes (writable s) output 8 = true ->
  string_with_q p1 p2 output s = Done (inr tt) (set_a_mem (store (a_mem s) output 8 (with_q p1 p2 bs1 bs2)) s).
Proof.
  intros H1 H2 Hlen Hone Hmax Hfuel Hout. unfold string_with_q.
  pose proof (q_loop s p1 p2 bs1 bs2 H1 H2 Hlen Hmax Hone us_fuel 0 ltac:(lia) ltac:(lia) ltac:(by apply not_elem_of_nil) ltac:(by apply not_elem_of_nil)) as E.
  rewrite (ubind_ok _ _ _ _ _ E). unfold store_ptr, ustore. by rewrite Hout.
Qed.
End Warmup.
