(* ===== verification/Sh.v ===== *)
(** * The shell's parser: user/sh.c

    [parsecmd] and everything it calls.  The commands are nodes of a store,
    as [malloc] returns them: [parseexec] goes on filling in the arguments of
    a node that redirections already point to.  Positions in the line are
    indices of the buffer, and a string is a pair of positions until
    [nulterminate] writes a NUL at its end. *)

From S2P Require Import Prelude Params Block User.

Module Sh.

Definition MAXARGS : nat := 10.

Definition O_WRONLY : Z := 1.
Definition O_CREATE : Z := 512.
Definition O_TRUNC : Z := 1024.

(** struct execcmd, redircmd, pipecmd, listcmd and backcmd; [None] is a null pointer. *)
Inductive node :=
| EXEC (argv eargv : list (option nat))
| REDIR (cmd file efile : nat) (mode fd : Z)
| PIPE (left right : nat)
| LIST (left right : nat)
| BACK (cmd : nat).

Record shell := Shell { sh_buf : list Z; sh_nodes : list node }.

(** The process has printed [out] on descriptor 2 and called [exit(1)], or it
    was killed by the kernel. *)
Inductive stop := Exited (out : list Z) | Killed.

(** Which calls of [malloc] succeed. *)
Class ShellEnv := { sh_malloc : nat -> bool }.

Abbreviation SM A := (MU shell stop A).

(** ** Tokens *)

Definition whitespace : list Z := [32; 9; 13; 10; 11].
Definition symbols : list Z := [60; 124; 62; 38; 59; 40; 41].

Definition among (c : Z) (s : list Z) : bool := match strchr s c with Some _ => true | None => false end.

(** [*s] for a position [s] of the buffer. *)
Definition at_ (buf : list Z) (s : nat) : Z := default 0 (buf !! s).

(** [while(s < es && test) s++], where the test is on the character at [s], with [n] the distance to [es]. *)
Fixpoint span (test : Z -> bool) (buf : list Z) (n s : nat) : nat :=
  match n with
  | O => s
  | S n' => if test (at_ buf s) then span test buf n' (S s) else s
  end.

Definition skip (buf : list Z) (es s : nat) : nat :=
  span (fun c => among c whitespace) buf (es - s) s.

(** The token, where it starts and ends, and where the next one starts. *)
Definition gettoken (buf : list Z) (es s : nat) : Z * nat * nat * nat :=
  let q := skip buf es s in
  let c := at_ buf q in
  let '(r, s) :=
    if c =? 0 then (c, q)
    else if (c =? 124) || (c =? 40) || (c =? 41) || (c =? 59) || (c =? 38) || (c =? 60) then (c, S q)
    else if c =? 62 then
      if at_ buf (S q) =? 62 then (43, S (S q)) else (c, S q)
    else (97, span (fun c => negb (among c whitespace) && negb (among c symbols)) buf (es - q) q) in
  (r, q, s, skip buf es s).

Definition peek (buf : list Z) (es s : nat) (toks : list Z) : nat * bool :=
  let s := skip buf es s in
  (s, negb (at_ buf s =? 0) && among (at_ buf s) toks).

Section parser.
Context `{ShellEnv}.

Definition panic {A} (s : string) : SM A := ret (inl (Exited (bytes_of_string s ++ [10]))).

Definition buffer : SM (list Z) := b <- Prelude.gets sh_buf ;; uret b.

(** ** Constructors

    [malloc] and [memset]: the result of [malloc] is not checked, so that when
    it is null the write at address 0 kills the process. *)

Definition newnode (n : node) : SM nat := fun st =>
  let i := length (sh_nodes st) in
  if sh_malloc i then Done (inr i) (Shell (sh_buf st) (sh_nodes st ++ [n]))
  else Done (inl Killed) st.

Definition execcmd : SM nat := newnode (EXEC (replicate MAXARGS None) (replicate MAXARGS None)).
Definition redircmd (subcmd file efile : nat) (mode fd : Z) : SM nat := newnode (REDIR subcmd file efile mode fd).
Definition pipecmd (left right : nat) : SM nat := newnode (PIPE left right).
Definition listcmd (left right : nat) : SM nat := newnode (LIST left right).
Definition backcmd (subcmd : nat) : SM nat := newnode (BACK subcmd).

(** [cmd->argv[argc] = q; cmd->eargv[argc] = eq], inside the arrays. *)
Definition set_arg (cmd argc : nat) (q eq : option nat) : SM unit := fun st =>
  match sh_nodes st !! cmd with
  | Some (EXEC argv eargv) =>
      if decide (argc < MAXARGS)%nat then
        Done (inr tt) (Shell (sh_buf st) (<[cmd := EXEC (<[argc := q]> argv) (<[argc := eq]> eargv)]> (sh_nodes st)))
      else Panic "argv out of bounds"
  | _ => Panic "not an execcmd"
  end.

(** ** Parsing: a function returns the command and moves [*ps]. *)

Definition parseredirs (es cmd s : nat) : SM (nat * nat) :=
  uloop (S es) (fun '(cmd, s) =>
    b <~ buffer ;;
    let '(s, more) := peek b es s [60; 62] in
    if negb more then uret (inr (cmd, s))
    else
      let '(tok, _, _, s) := gettoken b es s in
      let '(tok2, q, eq, s) := gettoken b es s in
      if negb (tok2 =? 97) then panic "missing file for redirection"
      else if tok =? 60 then
        cmd <~ redircmd cmd q eq O_RDONLY 0 ;; uret (inl (cmd, s))
      else if tok =? 62 then
        cmd <~ redircmd cmd q eq (Z.lor (Z.lor O_WRONLY O_CREATE) O_TRUNC) 1 ;; uret (inl (cmd, s))
      else if tok =? 43 then
        cmd <~ redircmd cmd q eq (Z.lor O_WRONLY O_CREATE) 1 ;; uret (inl (cmd, s))
      else uret (inl (cmd, s))) (cmd, s).

(** The part of [parseexec] after the test for a block. *)
Definition parsesimple (es s : nat) : SM (nat * nat) :=
  cmd <~ execcmd ;;
  r <~ parseredirs es cmd s ;;
  let '(ret0, s) := r in
  r <~ uloop (S es) (fun '(ret0, s, argc) =>
    b <~ buffer ;;
    let '(s, stop) := peek b es s [124; 41; 38; 59] in
    if (stop : bool) then uret (inr (ret0, s, argc))
    else
      let '(tok, q, eq, s) := gettoken b es s in
      if tok =? 0 then uret (inr (ret0, s, argc))
      else if negb (tok =? 97) then panic "syntax"
      else
        set_arg cmd argc (Some q) (Some eq) ;!
        let argc := S argc in
        if (MAXARGS <=? argc)%nat then panic "too many args"
        else
          r <~ parseredirs es ret0 s ;;
          let '(ret0, s) := r in
          uret (inl (ret0, s, argc))) (ret0, s, O) ;;
  let '(ret0, s, argc) := r in
  set_arg cmd argc None None ;!
  uret (ret0, s).

(** The four functions call each other: each takes what stands for the calls it makes. *)
Inductive parser := Parseline | Parsepipe | Parseexec | Parseblock.

Definition parseline (call : parser -> nat -> nat -> SM (nat * nat)) (es s : nat) : SM (nat * nat) :=
  r <~ call Parsepipe es s ;;
  r <~ uloop (S es) (fun '(cmd, s) =>
    b <~ buffer ;;
    let '(s, more) := peek b es s [38] in
    if (more : bool) then
      let '(_, _, _, s) := gettoken b es s in
      cmd <~ backcmd cmd ;; uret (inl (cmd, s))
    else uret (inr (cmd, s))) r ;;
  let '(cmd, s) := r in
  b <~ buffer ;;
  let '(s, more) := peek b es s [59] in
  if (more : bool) then
    let '(_, _, _, s) := gettoken b es s in
    r <~ call Parseline es s ;;
    let '(rcmd, s) := r in
    cmd <~ listcmd cmd rcmd ;; uret (cmd, s)
  else uret (cmd, s).

Definition parsepipe (call : parser -> nat -> nat -> SM (nat * nat)) (es s : nat) : SM (nat * nat) :=
  r <~ call Parseexec es s ;;
  let '(cmd, s) := r in
  b <~ buffer ;;
  let '(s, more) := peek b es s [124] in
  if (more : bool) then
    let '(_, _, _, s) := gettoken b es s in
    r <~ call Parsepipe es s ;;
    let '(rcmd, s) := r in
    cmd <~ pipecmd cmd rcmd ;; uret (cmd, s)
  else uret (cmd, s).

Definition parseexec (call : parser -> nat -> nat -> SM (nat * nat)) (es s : nat) : SM (nat * nat) :=
  b <~ buffer ;;
  let '(s, block) := peek b es s [40] in
  if (block : bool) then call Parseblock es s else parsesimple es s.

Definition parseblock (call : parser -> nat -> nat -> SM (nat * nat)) (es s : nat) : SM (nat * nat) :=
  b <~ buffer ;;
  let '(s, ok) := peek b es s [40] in
  if negb ok then panic "parseblock"
  else
    let '(_, _, _, s) := gettoken b es s in
    r <~ call Parseline es s ;;
    let '(cmd, s) := r in
    b <~ buffer ;;
    let '(s, ok) := peek b es s [41] in
    if negb ok then panic "syntax - missing )"
    else
      let '(_, _, _, s) := gettoken b es s in
      parseredirs es cmd s.

(** The recursion, [fuel] calls deep. *)
Fixpoint parse (fuel : nat) (f : parser) : nat -> nat -> SM (nat * nat) :=
  match fuel with
  | O => fun _ _ _ => OutOfFuel
  | S fuel =>
      match f with
      | Parseline => parseline (parse fuel)
      | Parsepipe => parsepipe (parse fuel)
      | Parseexec => parseexec (parse fuel)
      | Parseblock => parseblock (parse fuel)
      end
  end.

(** ** NUL-termination *)

Definition put_nul (s : nat) : SM unit :=
  modify (fun st => Shell (<[s := 0]> (sh_buf st)) (sh_nodes st)) ;; uret tt.

(** [for(i = 0; argv[i]; i++) *eargv[i] = 0], inside the arrays. *)
Fixpoint nul_args (argv eargv : list (option nat)) : SM unit :=
  match argv, eargv with
  | None :: _, _ => uret tt
  | Some _ :: argv', Some e :: eargv' => put_nul e ;! nul_args argv' eargv'
  | _, _ => fun _ => Panic "argv out of bounds"
  end.

Fixpoint nulterminate (fuel cmd : nat) : SM unit :=
  match fuel with
  | O => fun _ => OutOfFuel
  | S fuel =>
      nodes <- Prelude.gets sh_nodes ;;
      match nodes !! cmd with
      | Some (EXEC argv eargv) => nul_args argv eargv
      | Some (REDIR c _ efile _ _) => nulterminate fuel c ;! put_nul efile
      | Some (PIPE l r) => nulterminate fuel l ;! nulterminate fuel r
      | Some (LIST l r) => nulterminate fuel l ;! nulterminate fuel r
      | Some (BACK c) => nulterminate fuel c
      | None => fun _ => Panic "bad command"
      end
  end.

(** Four calls per token at most, and no command is deeper than the number of nodes. *)
Definition parsecmd : SM nat :=
  b <~ buffer ;;
  let es := Z.to_nat (strlen b) in
  r <~ parse (4 * es + 8) Parseline es 0 ;;
  let '(cmd, s) := r in
  let '(s, _) := peek b es s [] in
  if negb (s =? es)%nat then
    ret (inl (Exited (bytes_of_string "leftovers: " ++ cstring (drop s b) ++ [10] ++ bytes_of_string "syntax" ++ [10])))
  else
    n <- Prelude.gets (fun st => length (sh_nodes st)) ;;
    nulterminate (S n) cmd ;!
    uret cmd.

End parser.
End Sh.
