(* ===== verification/ShSpec.v ===== *)
(** * Tokens and commands of the shell

    The line as a list of tokens, what [gettoken] and [peek] see of it, a
    parser that is a function on tokens, and how the nodes of the store stand
    for a command. *)

From S2P Require Import Prelude Params Block User Sh.
Import Sh.

Module ShSpec.

(** ** Tokens *)

Inductive tok := Word (w : list Z) | Sym (c : Z) | Append.

Definition white (c : Z) : bool := among c whitespace.
Definition symbol (c : Z) : bool := among c symbols.
Definition wordc (c : Z) : bool := negb (white c) && negb (symbol c).

(** Whether a text goes on with a character of a word. *)
Definition in_word (t : list Z) : bool := match t with c :: _ => wordc c | [] => false end.

Definition add_char (c : Z) (t : list Z) (ts : list tok) : list tok :=
  match ts with
  | Word w :: ts' => if in_word t then Word (c :: w) :: ts' else Word [c] :: ts
  | _ => Word [c] :: ts
  end.

Fixpoint lex (t : list Z) : list tok :=
  match t with
  | [] => []
  | c :: t' =>
      if white c then lex t'
      else if c =? 62 then
        match t' with
        | d :: t'' => if d =? 62 then Append :: lex t'' else Sym 62 :: lex t'
        | [] => [Sym 62]
        end
      else if symbol c then Sym c :: lex t'
      else add_char c t' (lex t')
  end.

Lemma lex_white w r : Forall (fun c => white c = true) w -> lex (w ++ r) = lex r.
Proof. induction 1 as [|c w Hc _ IH]; [done|]. cbn [app lex]. by rewrite Hc. Qed.

Lemma wordc_not c : wordc c = true -> white c = false /\ symbol c = false /\ c <> 62.
Proof.
  unfold wordc. intros H. apply andb_prop in H as [H1 H2].
  apply negb_true_iff in H1, H2. split_and!; [done|done|]. intros ->. by vm_compute in H2.
Qed.

Lemma lex_word w r : w <> [] -> Forall (fun c => wordc c = true) w -> in_word r = false ->
  lex (w ++ r) = Word w :: lex r.
Proof.
  intros Hne Hw Hr. induction Hw as [|c w Hc Hw IH]; [done|].
  destruct (wordc_not c Hc) as (H1 & H2 & H3). cbn [app lex]. rewrite H1, H2, (proj2 (Z.eqb_neq c 62) H3).
  destruct w as [|d w].
  - simpl app. unfold add_char. rewrite Hr. by destruct (lex r) as [|[]].
  - rewrite IH by done. unfold add_char. simpl in_word. by rewrite (Forall_inv Hw).
Qed.

(** The symbols that gettoken returns alone. *)
Lemma symbol_cases c : symbol c = true ->
  c = 60 \/ c = 124 \/ c = 62 \/ c = 38 \/ c = 59 \/ c = 40 \/ c = 41.
Proof.
  unfold symbol, among, symbols. cbn [strchr].
  repeat match goal with |- context [?a =? c] => destruct (Z.eqb_spec a c) end; simpl; intros ?; lia || done.
Qed.

Lemma symbol_other c : symbol c = false ->
  c <> 60 /\ c <> 124 /\ c <> 62 /\ c <> 38 /\ c <> 59 /\ c <> 40 /\ c <> 41.
Proof.
  intros H. split_and!; intros ->; by vm_compute in H.
Qed.

(** ** The buffer of a line *)

Section buffer.
Context (t tail : list Z).
Hypothesis Ht : Forall (fun c => c <> 0) t.

Let buf := t ++ 0 :: tail.
Let es := length t.

Lemma at_in s c r : drop s t = c :: r -> at_ buf s = c.
Proof using.
  intros E. unfold at_, buf. assert (Hs : t !! s = Some c) by (rewrite <-(Nat.add_0_r s), <-lookup_drop, E; done).
  rewrite lookup_app_l by (by eapply lookup_lt_Some). by rewrite Hs.
Qed.

Lemma at_end s : drop s t = [] -> (s <= es)%nat -> at_ buf s = 0 /\ s = es.
Proof using.
  intros E Hs. apply (f_equal length) in E. rewrite length_drop in E. simpl in E. unfold es in *.
  replace s with (length t + 0)%nat by lia. split; [|lia]. unfold at_, buf. by rewrite lookup_app_r, Nat.add_sub_swap, Nat.sub_diag by lia.
Qed.

Lemma at_nonzero s c r : drop s t = c :: r -> c <> 0.
Proof using Ht.
  intros E. assert (Hc : Forall (fun c => c <> 0) (drop s t)) by by apply Forall_drop.
  rewrite E in Hc. by apply Forall_inv in Hc.
Qed.

(** What a scan skips. *)
Lemma span_spec test s : (s <= es)%nat ->
  exists w r, drop s t = w ++ r /\ span test buf (es - s) s = (s + length w)%nat /\
    Forall (fun c => test c = true) w /\ (forall c r', r = c :: r' -> test c = false) /\
    drop (s + length w) t = r /\ (s + length w <= es)%nat.
Proof using.
  intros Hs. remember (es - s)%nat as n eqn:En. revert s Hs En. induction n as [|n IH]; intros s Hs En.
  - exists [], []. assert (E : drop s t = []) by (apply drop_ge; unfold es in *; lia).
    simpl. rewrite Nat.add_0_r. by split_and!.
  - destruct (drop s t) as [|c r] eqn:E; [apply (f_equal length) in E; rewrite length_drop in E; simpl in E; unfold es in *; lia|].
    cbn [span]. rewrite (at_in _ _ _ E). destruct (test c) eqn:Hc.
    + assert (E' : drop (S s) t = r) by (by rewrite <-Nat.add_1_r, <-drop_drop, E).
      destruct (IH (S s)) as (w & r' & E1 & E2 & E3 & E4 & E5 & E6); [unfold es in *; lia|lia|].
      exists (c :: w), r'. rewrite E' in E1. rewrite E1. simpl length.
      replace (s + S (length w))%nat with (S s + length w)%nat by lia.
      split_and!; [done|done|by constructor|done|done|done].
    + exists [], (c :: r). simpl. rewrite Nat.add_0_r. split_and!; [done|done|done|by intros ? ? [= <-]|done|done].
Qed.

(** White space in front of a token. *)
Lemma skip_spec s : (s <= es)%nat ->
  exists r, drop (skip buf es s) t = r /\ (s <= skip buf es s <= es)%nat /\ lex r = lex (drop s t) /\
    (forall c r', r = c :: r' -> white c = false).
Proof using.
  intros Hs. destruct (span_spec (fun c => among c whitespace) s Hs) as (w & r & E1 & E2 & E3 & E4 & E5 & E6).
  fold (skip buf es s) in E2. exists r. rewrite E2. split_and!; [done|lia|done| |done].
  rewrite E1. symmetry. by apply lex_white.
Qed.

(** A word of the line: its characters, and no more of them behind it. *)
Definition word_at (q e : nat) (w : list Z) : Prop :=
  exists r, drop q t = w ++ r /\ e = (q + length w)%nat /\ w <> [] /\ Forall (fun c => wordc c = true) w /\ in_word r = false.

Definition tok_code (k : tok) : Z := match k with Word _ => 97 | Sym c => c | Append => 43 end.

Lemma gettoken_spec s : (s <= es)%nat ->
  exists r q e s', gettoken buf es s = (r, q, e, s') /\ (s' <= es)%nat /\
    match lex (drop s t) with
    | [] => r = 0 /\ drop s' t = []
    | k :: ts => r = tok_code k /\ r <> 0 /\ lex (drop s' t) = ts /\ (s < s')%nat /\
        match k with Word w => word_at q e w | _ => r <> 97 end
    end.
Proof using Ht.
  intros Hs. destruct (skip_spec s Hs) as (x & Ex & Hq & Hl & Hw). rewrite <-Hl. clear Hl.
  unfold gettoken. set (q := skip buf es s) in *.
  assert (Hfin : forall e, (q <= e <= es)%nat -> (e <= skip buf es e <= es)%nat /\
            lex (drop (skip buf es e) t) = lex (drop e t)).
  { intros e He. destruct (skip_spec e) as (y & Ey & He' & Hy & _); [lia|]. by rewrite Ey. }
  destruct x as [|c x'].
  { destruct (at_end q Ex) as [E0 Eq]; [lia|]. rewrite E0. simpl. exists 0, q, q, (skip buf es q).
    destruct (skip_spec q) as (y & Ey & Hy & _); [lia|]. split_and!; [done|lia|done|].
    apply drop_ge. unfold es in *. lia. }
  rewrite (at_in q c x' Ex). pose proof (at_nonzero q c x' Ex) as Hc0. specialize (Hw c x' eq_refl).
  assert (Ex' : drop (S q) t = x') by (by rewrite <-Nat.add_1_r, <-drop_drop, Ex).
  assert (Hlen : (S q <= es)%nat).
  { apply (f_equal length) in Ex. rewrite length_drop in Ex. simpl in Ex. unfold es. lia. }
  rewrite (proj2 (Z.eqb_neq c 0) Hc0). cbn [lex]. rewrite Hw.
  destruct (Z.eqb_spec c 62) as [->|H62].
  { cbn [orb Z.eqb Pos.eqb]. destruct x' as [|d x''].
    - destruct (at_end (S q) Ex') as [-> _]; [done|]. cbn [Z.eqb].
      destruct (Hfin (S q)) as [F1 F2]; [lia|]. eexists _, _, _, _. split; [reflexivity|].
      rewrite F2, Ex'. split_and!; try done; lia.
    - rewrite (at_in (S q) d x'' Ex'). destruct (d =? 62).
      + assert (Ex'' : drop (S (S q)) t = x'') by (by rewrite <-Nat.add_1_r, <-drop_drop, Ex').
        apply (f_equal length) in Ex' as Hl. rewrite length_drop in Hl. simpl in Hl.
        destruct (Hfin (S (S q))) as [F1 F2]; [unfold es; lia|]. eexists _, _, _, _. split; [reflexivity|].
        rewrite F2, Ex''. split_and!; try done; lia.
      + destruct (Hfin (S q)) as [F1 F2]; [lia|]. eexists _, _, _, _. split; [reflexivity|].
        rewrite F2, Ex'. split_and!; try done; lia. }
  destruct (symbol c) eqn:Hsym.
  { replace ((c =? 124) || (c =? 40) || (c =? 41) || (c =? 59) || (c =? 38) || (c =? 60)) with true
      by (destruct (symbol_cases c Hsym) as [?|[?|[?|[?|[?|[?|?]]]]]]; subst c; done).
    destruct (Hfin (S q)) as [F1 F2]; [lia|]. eexists _, _, _, _. split; [reflexivity|].
    rewrite F2, Ex'. split_and!; try done; [lia|lia|].
    destruct (symbol_cases c Hsym) as [?|[?|[?|[?|[?|[?|?]]]]]]; lia. }
  destruct (symbol_other c Hsym) as (N1 & N2 & N3 & N4 & N5 & N6 & N7).
  replace ((c =? 124) || (c =? 40) || (c =? 41) || (c =? 59) || (c =? 38) || (c =? 60)) with false by lia.
  destruct (span_spec (fun c => negb (among c whitespace) && negb (among c symbols)) q) as (w & r & E1 & E2 & E3 & E4 & E5 & E6); [lia|].
  rewrite E2. destruct (Hfin (q + length w)%nat) as [F1 F2]; [lia|].
  assert (Hne : w <> []).
  { intros ->. rewrite Ex in E1. simpl in E1. symmetry in E1. apply E4 in E1.
    change (wordc c = false) in E1. unfold wordc in E1. by rewrite Hw, Hsym in E1. }
  assert (Hr : in_word r = false) by (destruct r as [|d r]; [done|by apply (E4 d r)]).
  assert (El : add_char c x' (lex x') = Word w :: lex r).
  { rewrite <-(lex_word w r Hne E3 Hr), <-E1, Ex. cbn [lex]. by rewrite Hw, Hsym, (proj2 (Z.eqb_neq c 62) H62). }
  rewrite El. eexists _, _, _, _. split; [reflexivity|]. rewrite F2, E5.
  split_and!; try done; [lia|destruct w; [done|simpl in *; lia]|]. by exists r.
Qed.

Definition peeks (toks : list Z) (ts : list tok) : bool :=
  match ts with
  | Sym c :: _ => among c toks
  | Append :: _ => among 62 toks
  | _ => false
  end.

Lemma peek_spec s toks : (s <= es)%nat -> (forall c, among c toks = true -> symbol c = true) ->
  exists s', peek buf es s toks = (s', peeks toks (lex (drop s t))) /\ (s <= s' <= es)%nat /\ lex (drop s' t) = lex (drop s t).
Proof using Ht.
  intros Hs Htoks. destruct (skip_spec s Hs) as (x & Ex & Hq & Hl & Hw). rewrite <-Hl. unfold peek.
  set (q := skip buf es s) in *. exists q. rewrite Ex. split_and!; [|lia|lia|done]. f_equal.
  destruct x as [|c x']; [by destruct (at_end q Ex) as [-> _]; [lia|]|].
  rewrite (at_in q c x' Ex), (proj2 (Z.eqb_neq c 0) (at_nonzero q c x' Ex)). specialize (Hw c x' eq_refl).
  cbn [lex negb andb]. rewrite Hw. destruct (Z.eqb_spec c 62) as [->|H62].
  - destruct x' as [|d x'']; [done|]. by destruct (d =? 62).
  - destruct (symbol c) eqn:Hsym; [done|].
    replace (peeks toks (add_char c x' (lex x'))) with false.
    + destruct (among c toks) eqn:Ha; [|done]. apply Htoks in Ha. congruence.
    + unfold add_char. destruct (lex x') as [|[]]; try done. by destruct (in_word x').
Qed.
End buffer.

(** ** Commands *)

Inductive cmd :=
| CExec (args : list (list Z))
| CRedir (c : cmd) (file : list Z) (mode fd : Z)
| CPipe (l r : cmd)
| CList (l r : cmd)
| CBack (c : cmd).

(** A redirection: the file, the mode it is opened with and the descriptor. *)
Abbreviation redir := (list Z * Z * Z)%type.

Definition add_redirs (c : cmd) (rs : list redir) : cmd :=
  foldl (fun c '(w, mode, fd) => CRedir c w mode fd) c rs.

Definition redir_of (k : tok) : option (Z * Z) :=
  match k with
  | Sym c => if c =? 60 then Some (O_RDONLY, 0)
             else if c =? 62 then Some (Z.lor (Z.lor O_WRONLY O_CREATE) O_TRUNC, 1) else None
  | Append => Some (Z.lor O_WRONLY O_CREATE, 1)
  | Word _ => None
  end.

(** ** A parser on tokens

    It runs out of fuel, stops with a message, or returns what it read and the rest. *)

Abbreviation PR A := (option (string + (A * list tok))).

Definition pbind {A B} (m : PR A) (f : A -> list tok -> PR B) : PR B :=
  match m with
  | None => None
  | Some (inl e) => Some (inl e)
  | Some (inr (a, ts)) => f a ts
  end.

Section functional.
Context (N : nat).

Fixpoint p_redirs (n : nat) (rs : list redir) (ts : list tok) : PR (list redir) :=
  match n with
  | O => None
  | S n =>
      match ts with
      | k :: ts' =>
          match redir_of k, ts' with
          | Some (mode, fd), Word w :: ts'' => p_redirs n (rs ++ [(w, mode, fd)]) ts''
          | Some _, _ => Some (inl "missing file for redirection"%string)
          | None, _ => Some (inr (rs, ts))
          end
      | [] => Some (inr (rs, ts))
      end
  end.

Fixpoint p_args (n : nat) (args : list (list Z)) (rs : list redir) (ts : list tok) : PR (list (list Z) * list redir) :=
  match n with
  | O => None
  | S n =>
      match ts with
      | [] => Some (inr (args, rs, []))
      | k :: ts' =>
          if peeks [124; 41; 38; 59] ts then Some (inr (args, rs, ts))
          else match k with
               | Word w =>
                   if (MAXARGS <=? S (length args))%nat then Some (inl "too many args"%string)
                   else pbind (p_redirs N rs ts') (fun rs ts => p_args n (args ++ [w]) rs ts)
               | _ => Some (inl "syntax"%string)
               end
      end
  end.

Definition p_simple (ts : list tok) : PR cmd :=
  pbind (p_redirs N [] ts) (fun rs ts =>
  pbind (p_args N [] rs ts) (fun '(args, rs) ts =>
  Some (inr (add_redirs (CExec args) rs, ts)))).

Fixpoint p_amps (n : nat) (c : cmd) (ts : list tok) : PR cmd :=
  match n with
  | O => None
  | S n => if peeks [38] ts then p_amps n (CBack c) (tail ts) else Some (inr (c, ts))
  end.

Fixpoint p_line (fuel : nat) (ts : list tok) : PR cmd :=
  match fuel with
  | O => None
  | S fuel =>
      pbind (p_pipe fuel ts) (fun c ts =>
      pbind (p_amps N c ts) (fun c ts =>
      if peeks [59] ts then pbind (p_line fuel (tail ts)) (fun r ts => Some (inr (CList c r, ts)))
      else Some (inr (c, ts))))
  end
with p_pipe (fuel : nat) (ts : list tok) : PR cmd :=
  match fuel with
  | O => None
  | S fuel =>
      pbind (p_exec fuel ts) (fun c ts =>
      if peeks [124] ts then pbind (p_pipe fuel (tail ts)) (fun r ts => Some (inr (CPipe c r, ts)))
      else Some (inr (c, ts)))
  end
with p_exec (fuel : nat) (ts : list tok) : PR cmd :=
  match fuel with
  | O => None
  | S fuel => if peeks [40] ts then p_block fuel ts else p_simple ts
  end
with p_block (fuel : nat) (ts : list tok) : PR cmd :=
  match fuel with
  | O => None
  | S fuel =>
      if negb (peeks [40] ts) then Some (inl "parseblock"%string)
      else
        pbind (p_line fuel (tail ts)) (fun c ts =>
        if negb (peeks [41] ts) then Some (inl "syntax - missing )"%string)
        else pbind (p_redirs N [] (tail ts)) (fun rs ts => Some (inr (add_redirs c rs, ts))))
  end.
End functional.

(** ** Commands in the store *)

Section rep.
Context (W : nat -> nat -> list Z -> Prop).

Definition args_rep (argv eargv : list (option nat)) (args : list (list Z)) : Prop :=
  exists qs es, argv = (Some <$> qs) ++ replicate (MAXARGS - length args) None /\
    eargv = (Some <$> es) ++ replicate (MAXARGS - length args) None /\
    Forall3 W qs es args /\ (length args < MAXARGS)%nat.

Inductive rep (nodes : list node) : nat -> cmd -> Prop :=
| rep_exec i argv eargv args :
    nodes !! i = Some (EXEC argv eargv) -> args_rep argv eargv args -> rep nodes i (CExec args)
| rep_redir i j q e mode fd w c :
    nodes !! i = Some (REDIR j q e mode fd) -> (j < i)%nat -> W q e w -> rep nodes j c -> rep nodes i (CRedir c w mode fd)
| rep_pipe i l r cl cr :
    nodes !! i = Some (PIPE l r) -> (l < i)%nat -> (r < i)%nat -> rep nodes l cl -> rep nodes r cr -> rep nodes i (CPipe cl cr)
| rep_list i l r cl cr :
    nodes !! i = Some (LIST l r) -> (l < i)%nat -> (r < i)%nat -> rep nodes l cl -> rep nodes r cr -> rep nodes i (CList cl cr)
| rep_back i j c :
    nodes !! i = Some (BACK j) -> (j < i)%nat -> rep nodes j c -> rep nodes i (CBack c).

Lemma rep_app nodes ext i c : rep nodes i c -> rep (nodes ++ ext) i c.
Proof using.
  induction 1; [eapply rep_exec|eapply rep_redir|eapply rep_pipe|eapply rep_list|eapply rep_back];
    try (by apply lookup_app_l_Some); done.
Qed.

Lemma rep_bound nodes i c : rep nodes i c -> (i < length nodes)%nat.
Proof using. destruct 1; by eapply lookup_lt_Some. Qed.

(** The nodes that a list of redirections adds on top of [j], from the index [b] on. *)
Fixpoint redir_chain (b j : nat) (R : list node) (rs : list redir) (top : nat) : Prop :=
  match R, rs with
  | [], [] => top = j
  | REDIR j' q e mode fd :: R, (w, mode', fd') :: rs =>
      j' = j /\ mode' = mode /\ fd' = fd /\ W q e w /\ redir_chain (S b) b R rs top
  | _, _ => False
  end.

Lemma redir_chain_app b j R1 rs1 k R2 rs2 top :
  redir_chain b j R1 rs1 k -> redir_chain (b + length R1) k R2 rs2 top ->
  redir_chain b j (R1 ++ R2) (rs1 ++ rs2) top.
Proof using.
  revert b j rs1. induction R1 as [|n R1 IH]; intros b j rs1; destruct rs1 as [|[[w m] f] rs1]; try done.
  - intros ->. simpl. by rewrite Nat.add_0_r.
  - by destruct n.
  - destruct n; try done. cbn [redir_chain app]. intros (-> & -> & -> & HW & H1) H2. split_and!; try done.
    apply IH; [done|]. simpl length in H2. by rewrite Nat.add_succ_l, <-Nat.add_succ_r.
Qed.

(** Redirections on top of a command. *)
Lemma rep_redirs nodes j c R rs top : rep nodes j c -> redir_chain (length nodes) j R rs top ->
  rep (nodes ++ R) top (add_redirs c rs).
Proof using.
  revert nodes j c rs. induction R as [|n R IH]; intros nodes j c rs Hj; destruct rs as [|[[w m] f] rs]; try done.
  - intros ->. by rewrite app_nil_r.
  - by destruct n.
  - destruct n as [|j' q e mode fd| | |]; try done. cbn [redir_chain]. intros (-> & -> & -> & HW & H1).
    replace (nodes ++ REDIR j q e mode fd :: R) with ((nodes ++ [REDIR j q e mode fd]) ++ R) by (by rewrite <-app_assoc).
    change (add_redirs c ((w, mode, fd) :: rs)) with (add_redirs (CRedir c w mode fd) rs).
    apply (IH _ (length nodes)); [|by rewrite length_app, Nat.add_1_r].
    eapply rep_redir; [by rewrite list_lookup_middle|by eapply rep_bound|exact HW|by apply rep_app].
Qed.
End rep.
End ShSpec.
