(* ===== verification/ShGrammar.v ===== *)
(** * The grammar of the shell

    A line is a sequence of pipelines, pipelines are commands joined by bars,
    and a command is a block in parentheses or words mixed with redirections.
    The parser on tokens accepts exactly the lines of the grammar. *)

From S2P Require Import Prelude Params Block User Sh ShSpec.
Import Sh ShSpec.

Module ShGrammar.

Inductive g_redirs : list tok -> list redir -> Prop :=
| g_redirs_nil : g_redirs [] []
| g_redirs_cons k w mode fd ts rs :
    redir_of k = Some (mode, fd) -> g_redirs ts rs -> g_redirs (k :: Word w :: ts) ((w, mode, fd) :: rs).

(** Words and redirections in any order. *)
Inductive g_simple : list tok -> list (list Z) -> list redir -> Prop :=
| g_simple_nil : g_simple [] [] []
| g_simple_word w ts args rs : g_simple ts args rs -> g_simple (Word w :: ts) (w :: args) rs
| g_simple_redir k w mode fd ts args rs :
    redir_of k = Some (mode, fd) -> g_simple ts args rs -> g_simple (k :: Word w :: ts) args ((w, mode, fd) :: rs).

Inductive g_line : list tok -> cmd -> Prop :=
| g_line_one ts c n : g_pipe ts c -> g_line (ts ++ replicate n (Sym 38)) (Nat.iter n CBack c)
| g_line_seq ts c n ts2 c2 : g_pipe ts c -> g_line ts2 c2 ->
    g_line (ts ++ replicate n (Sym 38) ++ Sym 59 :: ts2) (CList (Nat.iter n CBack c) c2)
with g_pipe : list tok -> cmd -> Prop :=
| g_pipe_one ts c : g_exec ts c -> g_pipe ts c
| g_pipe_more ts c ts2 c2 : g_exec ts c -> g_pipe ts2 c2 -> g_pipe (ts ++ Sym 124 :: ts2) (CPipe c c2)
with g_exec : list tok -> cmd -> Prop :=
| g_exec_simple ts args rs : g_simple ts args rs -> (length args < MAXARGS)%nat -> g_exec ts (add_redirs (CExec args) rs)
| g_exec_block ts c rts rs : g_line ts c -> g_redirs rts rs ->
    g_exec (Sym 40 :: ts ++ Sym 41 :: rts) (add_redirs c rs).

Scheme g_line_mut := Induction for g_line Sort Prop
with g_pipe_mut := Induction for g_pipe Sort Prop
with g_exec_mut := Induction for g_exec Sort Prop.
Combined Scheme grammar_mut from g_line_mut, g_pipe_mut, g_exec_mut.

(** ** What is read is in the grammar *)

Lemma among_one c d : among c [d] = true -> c = d.
Proof. unfold among. simpl. destruct (d =? 0); [done|]. by destruct (Z.eqb_spec d c). Qed.

Lemma peeks_one c ts : peeks [c] ts = true -> c <> 62 -> ts = Sym c :: List.tl ts.
Proof.
  intros Hp Hc. destruct ts as [|[w|d|] ts]; try done; simpl in Hp.
  - by apply among_one in Hp as ->.
  - by apply among_one in Hp.
Qed.

Lemma redirs_sound n rs ts rs' rest : p_redirs n rs ts = Some (inr (rs', rest)) ->
  exists ts1 rs1, ts = ts1 ++ rest /\ rs' = rs ++ rs1 /\ g_redirs ts1 rs1.
Proof.
  revert rs ts. induction n as [|n IH]; intros rs ts; [done|]. cbn [p_redirs].
  assert (H0 : @Some (string + _) (inr (rs, ts)) = Some (inr (rs', rest)) ->
    exists ts1 rs1, ts = ts1 ++ rest /\ rs' = rs ++ rs1 /\ g_redirs ts1 rs1).
  { intros [= -> ->]. exists [], []. rewrite app_nil_r. split_and!; [done|done|constructor]. }
  destruct ts as [|k ts]; [exact H0|]. destruct (redir_of k) as [[mode fd]|] eqn:Ek; [|exact H0].
  destruct ts as [|[w|c|] ts]; try done. intros (ts1 & rs1 & -> & -> & Hg)%IH.
  exists (k :: Word w :: ts1), ((w, mode, fd) :: rs1). rewrite <-app_assoc. split_and!; [done|done|by constructor].
Qed.

Lemma simple_app ts1 a1 r1 ts2 a2 r2 : g_simple ts1 a1 r1 -> g_simple ts2 a2 r2 -> g_simple (ts1 ++ ts2) (a1 ++ a2) (r1 ++ r2).
Proof. induction 1; intros H2; [done| |]; simpl; constructor; auto. Qed.

Lemma redirs_simple ts rs : g_redirs ts rs -> g_simple ts [] rs.
Proof. induction 1; by constructor. Qed.

Lemma args_sound N n args rs ts args' rs' rest : p_args N n args rs ts = Some (inr ((args', rs'), rest)) ->
  (length args < MAXARGS)%nat ->
  exists ts1 a1 r1, ts = ts1 ++ rest /\ args' = args ++ a1 /\ rs' = rs ++ r1 /\ g_simple ts1 a1 r1 /\
    (length args' < MAXARGS)%nat.
Proof.
  revert args rs ts. induction n as [|n IH]; intros args rs ts; [done|]. cbn [p_args].
  assert (H0 : @Some (string + _) (inr ((args, rs), ts)) = Some (inr ((args', rs'), rest)) -> (length args < MAXARGS)%nat ->
    exists ts1 a1 r1, ts = ts1 ++ rest /\ args' = args ++ a1 /\ rs' = rs ++ r1 /\ g_simple ts1 a1 r1 /\
    (length args' < MAXARGS)%nat).
  { intros [= -> -> ->] Hl. exists [], [], []. rewrite !app_nil_r. split_and!; try done. constructor. }
  destruct ts as [|k ts]; [exact H0|]. destruct (peeks [124; 41; 38; 59] (k :: ts)); [exact H0|].
  destruct k as [w| |]; [|done|done]. destruct (Nat.leb_spec MAXARGS (S (length args))) as [|Hm]; [done|].
  destruct (p_redirs N rs ts) as [[e|[rs2 ts2]]|] eqn:Er; [done| |done]. cbn [pbind].
  apply redirs_sound in Er as (t1 & r1 & -> & -> & Hg). intros Hp _.
  apply IH in Hp as (t2 & a2 & r2 & -> & -> & -> & Hs & Hl); [|rewrite length_app; simpl; lia].
  exists (Word w :: t1 ++ t2), (w :: a2), (r1 ++ r2). cbn [app]. rewrite <-!app_assoc in *.
  split_and!; [done|done|done| |done]. constructor. change a2 with ([] ++ a2). apply simple_app; [by apply redirs_simple|done].
Qed.

Lemma simple_sound N ts c rest : p_simple N ts = Some (inr (c, rest)) -> exists ts1, ts = ts1 ++ rest /\ g_exec ts1 c.
Proof.
  unfold p_simple. destruct (p_redirs N [] ts) as [[e|[rs2 ts2]]|] eqn:Er; [done| |done]. cbn [pbind].
  apply redirs_sound in Er as (t1 & r1 & -> & -> & Hg).
  destruct (p_args N N [] ([] ++ r1) ts2) as [[e|[[args rs] ts3]]|] eqn:Ea; [done| |done]. cbn [pbind].
  apply args_sound in Ea as (t2 & a2 & r2 & -> & -> & -> & Hs & Hl); [|unfold MAXARGS; simpl; lia].
  intros [= <- <-]. exists (t1 ++ t2). rewrite app_assoc. split; [done|]. constructor; [|done].
  apply (simple_app t1 [] r1); [by apply redirs_simple|done].
Qed.

Lemma amps_sound n c ts c' rest : p_amps n c ts = Some (inr (c', rest)) ->
  exists k, ts = replicate k (Sym 38) ++ rest /\ c' = Nat.iter k CBack c.
Proof.
  revert c ts. induction n as [|n IH]; intros c ts; [done|]. cbn [p_amps]. destruct (peeks [38] ts) eqn:Hp.
  - apply peeks_one in Hp; [|done]. intros (k & E & ->)%IH. exists (S k). rewrite Hp at 1. rewrite E. split; [done|].
    by rewrite Nat.iter_succ_r.
  - intros [= -> ->]. by exists O.
Qed.

Lemma parse_sound N fuel :
  (forall ts c rest, p_line N fuel ts = Some (inr (c, rest)) -> exists ts1, ts = ts1 ++ rest /\ g_line ts1 c) /\
  (forall ts c rest, p_pipe N fuel ts = Some (inr (c, rest)) -> exists ts1, ts = ts1 ++ rest /\ g_pipe ts1 c) /\
  (forall ts c rest, p_exec N fuel ts = Some (inr (c, rest)) -> exists ts1, ts = ts1 ++ rest /\ g_exec ts1 c) /\
  (forall ts c rest, p_block N fuel ts = Some (inr (c, rest)) -> exists ts1, ts = ts1 ++ rest /\ g_exec ts1 c).
Proof.
  induction fuel as [|fuel (IHl & IHp & IHe & IHb)]; [by split_and!|].
  split_and!; intros ts c rest; cbn [p_line p_pipe p_exec p_block].
  - destruct (p_pipe N fuel ts) as [[e|[c1 ts1]]|] eqn:E1; [done| |done]. apply IHp in E1 as (t1 & -> & G1). cbn [pbind].
    destruct (p_amps N c1 ts1) as [[e|[c2 ts2]]|] eqn:E2; [done| |done]. apply amps_sound in E2 as (k & -> & ->). cbn [pbind].
    destruct (peeks [59] ts2) eqn:Hp.
    + apply peeks_one in Hp; [|done]. destruct (p_line N fuel (List.tl ts2)) as [[e|[c3 ts3]]|] eqn:E3; [done| |done].
      apply IHl in E3 as (t3 & E3 & G3). intros [= <- <-]. exists (t1 ++ replicate k (Sym 38) ++ Sym 59 :: t3).
      rewrite Hp, E3, <-!app_assoc. split; [done|by constructor].
    + intros [= <- <-]. exists (t1 ++ replicate k (Sym 38)). rewrite app_assoc. split; [done|by constructor].
  - destruct (p_exec N fuel ts) as [[e|[c1 ts1]]|] eqn:E1; [done| |done]. apply IHe in E1 as (t1 & -> & G1). cbn [pbind].
    destruct (peeks [124] ts1) eqn:Hp.
    + apply peeks_one in Hp; [|done]. destruct (p_pipe N fuel (List.tl ts1)) as [[e|[c3 ts3]]|] eqn:E3; [done| |done].
      apply IHp in E3 as (t3 & E3 & G3). intros [= <- <-]. exists (t1 ++ Sym 124 :: t3).
      rewrite Hp, E3, <-!app_assoc. split; [done|by constructor].
    + intros [= <- <-]. exists t1. split; [done|by constructor].
  - destruct (peeks [40] ts); [apply IHb|apply simple_sound].
  - destruct (peeks [40] ts) eqn:Hp; [|done]. cbn [negb]. apply peeks_one in Hp; [|done].
    destruct (p_line N fuel (List.tl ts)) as [[e|[c1 ts1]]|] eqn:E1; [done| |done]. apply IHl in E1 as (t1 & E1 & G1). cbn [pbind].
    destruct (peeks [41] ts1) eqn:Hp'; [|done]. cbn [negb]. apply peeks_one in Hp'; [|done].
    destruct (p_redirs N [] (List.tl ts1)) as [[e|[rs ts2]]|] eqn:E2; [done| |done]. cbn [pbind].
    apply redirs_sound in E2 as (t2 & r2 & E2 & -> & G2). intros [= <- <-].
    exists (Sym 40 :: t1 ++ Sym 41 :: t2). rewrite Hp, E1, Hp', E2. simpl. rewrite <-app_assoc. split; [done|by constructor].
Qed.

(** ** The parser ends *)

Lemma redirs_ends n rs ts : (length ts < n)%nat -> p_redirs n rs ts <> None.
Proof.
  revert rs ts. induction n as [|n IH]; intros rs ts Hn; [lia|]. cbn [p_redirs].
  destruct ts as [|k ts]; [done|]. destruct (redir_of k) as [[mode fd]|]; [|done].
  destruct ts as [|[w| |] ts]; try done. apply IH. simpl in Hn. lia.
Qed.

Lemma amps_ends n c ts : (length ts < n)%nat -> p_amps n c ts <> None.
Proof.
  revert c ts. induction n as [|n IH]; intros c ts Hn; [lia|]. cbn [p_amps].
  destruct ts as [|k ts]; [done|]. destruct (peeks [38] (k :: ts)); [|done]. apply IH. simpl in *. lia.
Qed.

Lemma args_ends N n args rs ts : (length ts < N)%nat -> (length ts < n)%nat -> p_args N n args rs ts <> None.
Proof.
  revert args rs ts. induction n as [|n IH]; intros args rs ts HN Hn; [lia|]. cbn [p_args].
  destruct ts as [|k ts]; [done|]. destruct (peeks _ (k :: ts)); [done|]. destruct k as [w| |]; [|done|done].
  destruct (MAXARGS <=? S (length args))%nat; [done|]. simpl in HN, Hn.
  destruct (p_redirs N rs ts) as [[e|[rs2 ts2]]|] eqn:Er; [done| |by apply redirs_ends in Er; [|lia]].
  cbn [pbind]. apply redirs_sound in Er as (t1 & r1 & -> & _). rewrite length_app in *. apply IH; lia.
Qed.

Lemma simple_ends N ts : (length ts < N)%nat -> p_simple N ts <> None.
Proof.
  intros HN. unfold p_simple. destruct (p_redirs N [] ts) as [[e|[rs2 ts2]]|] eqn:Er; [done| |by apply redirs_ends in Er].
  cbn [pbind]. apply redirs_sound in Er as (t1 & r1 & -> & _). rewrite length_app in HN.
  destruct (p_args N N [] rs2 ts2) as [[e|[[args rs] ts3]]|] eqn:Ea; [done|done|]. apply args_ends in Ea; [done|lia|lia].
Qed.

Lemma parse_ends N fuel :
  (forall ts, (length ts < N)%nat -> (4 * length ts + 4 <= fuel)%nat -> p_line N fuel ts <> None) /\
  (forall ts, (length ts < N)%nat -> (4 * length ts + 3 <= fuel)%nat -> p_pipe N fuel ts <> None) /\
  (forall ts, (length ts < N)%nat -> (4 * length ts + 2 <= fuel)%nat -> p_exec N fuel ts <> None) /\
  (forall ts, (length ts < N)%nat -> (4 * length ts + 1 <= fuel)%nat -> p_block N fuel ts <> None).
Proof.
  induction fuel as [|fuel (IHl & IHp & IHe & IHb)]; [split_and!; intros; lia|].
  destruct (parse_sound N fuel) as (Sl & Sp & Se & _).
  split_and!; intros ts HN Hf; cbn [p_line p_pipe p_exec p_block].
  - destruct (p_pipe N fuel ts) as [[e|[c1 ts1]]|] eqn:E1; [done| |by apply IHp in E1; [|lia|lia]].
    apply Sp in E1 as (t1 & -> & _). rewrite length_app in *. cbn [pbind].
    destruct (p_amps N c1 ts1) as [[e|[c2 ts2]]|] eqn:E2; [done| |by apply amps_ends in E2; [|lia]].
    apply amps_sound in E2 as (k & -> & _). rewrite length_app in *. cbn [pbind]. destruct (peeks [59] ts2) eqn:Hp; [|done].
    apply peeks_one in Hp; [|done]. rewrite Hp in HN, Hf. simpl in HN, Hf.
    destruct (p_line N fuel (List.tl ts2)) as [[e|[c3 ts3]]|] eqn:E3; [done|done|]. by apply IHl in E3; [|lia|lia].
  - destruct (p_exec N fuel ts) as [[e|[c1 ts1]]|] eqn:E1; [done| |by apply IHe in E1; [|lia|lia]].
    apply Se in E1 as (t1 & -> & _). rewrite length_app in *. cbn [pbind]. destruct (peeks [124] ts1) eqn:Hp; [|done].
    apply peeks_one in Hp; [|done]. rewrite Hp in HN, Hf. simpl in HN, Hf.
    destruct (p_pipe N fuel (List.tl ts1)) as [[e|[c3 ts3]]|] eqn:E3; [done|done|]. by apply IHp in E3; [|lia|lia].
  - destruct (peeks [40] ts); [apply IHb; lia|by apply simple_ends].
  - destruct (peeks [40] ts) eqn:Hp; [|done]. cbn [negb]. apply peeks_one in Hp; [|done]. rewrite Hp in HN, Hf. simpl in HN, Hf.
    destruct (p_line N fuel (List.tl ts)) as [[e|[c1 ts1]]|] eqn:E1; [done| |by apply IHl in E1; [|lia|lia]].
    apply Sl in E1 as (t1 & E1 & _). rewrite E1, length_app in HN. cbn [pbind].
    destruct (peeks [41] ts1) eqn:Hp'; [|done]. cbn [negb]. apply peeks_one in Hp'; [|done].
    assert (length (List.tl ts1) <= length ts1)%nat by (destruct ts1; simpl; lia).
    destruct (p_redirs N [] (List.tl ts1)) as [[e|[rs ts2]]|] eqn:E2; [done|done|]. by apply redirs_ends in E2; [|lia].
Qed.

(** ** The grammar is read *)

(** What can follow: the end, or one of these symbols. *)
Definition follow (cs : list Z) (ts : list tok) : Prop := ts = [] \/ exists c ts', ts = Sym c :: ts' /\ c ∈ cs.

Lemma redirs_complete n rs ts rs1 rest : g_redirs ts rs1 -> (length ts < n)%nat ->
  follow [124; 41; 38; 59] rest -> p_redirs n rs (ts ++ rest) = Some (inr (rs ++ rs1, rest)).
Proof.
  intros Hg. revert n rs. induction Hg as [|k w mode fd ts rs1 Hk Hg IH]; intros n rs Hn Hf;
    (destruct n as [|n]; [simpl in Hn; lia|]); cbn [p_redirs app].
  - rewrite app_nil_r. destruct Hf as [->|(c & ts' & -> & Hc)]; [done|]. set_unfold in Hc. 
    cbn [redir_of]. by replace (c =? 60) with false by lia; replace (c =? 62) with false by lia.
  - rewrite Hk, IH; [by rewrite <-app_assoc|simpl in Hn; lia|done].
Qed.

(** The redirections in front, and then the words. *)
Lemma simple_complete N M n ts a1 r1 args rs rest : g_simple ts a1 r1 -> (length ts < N)%nat -> (length ts < M)%nat ->
  (length ts < n)%nat -> follow [124; 41; 38; 59] rest -> (length args + length a1 < MAXARGS)%nat ->
  pbind (p_redirs M rs (ts ++ rest)) (fun rs ts => p_args N n args rs ts) = Some (inr ((args ++ a1, rs ++ r1), rest)).
Proof.
  intros Hg. revert M n args rs. induction Hg as [|w ts a1 r1 Hg IH|k w mode fd ts a1 r1 Hk Hg IH];
    intros M n args rs HN HM Hn Hf Ha.
  - rewrite (redirs_complete M rs [] [] rest) by (done || constructor). cbn [pbind]. destruct n as [|n]; [simpl in Hn; lia|].
    cbn [p_args]. rewrite !app_nil_r. destruct Hf as [->|(c & ts' & -> & Hc)]; [done|]. set_unfold in Hc.
    replace (peeks [124; 41; 38; 59] (Sym c :: ts')) with true; [done|].
    by destruct Hc as [->|[->|[->|[->|?]]]].
  - destruct M as [|M]; [simpl in HM; lia|]. destruct n as [|n]; [simpl in Hn; lia|]. simpl in HN, HM, Hn, Ha.
    cbn [p_redirs app redir_of pbind p_args peeks].
    destruct (Nat.leb_spec MAXARGS (S (length args))); [lia|].
    rewrite IH; [by rewrite <-app_assoc|lia|lia|lia|done|rewrite length_app; simpl; lia].
  - destruct M as [|M]; [simpl in HM; lia|]. simpl in HN, HM, Hn. cbn [p_redirs app]. rewrite Hk.
    rewrite IH; [by rewrite <-app_assoc|lia|lia|lia|done|done].
Qed.

Lemma follow_weaken cs cs' ts : follow cs ts -> cs ⊆ cs' -> follow cs' ts.
Proof. intros [->|(c & ts' & -> & Hc)] Hs; [by left|right]. exists c, ts'. by split; [|apply Hs]. Qed.

Lemma follow_sym cs c ts : c ∈ cs -> follow cs (Sym c :: ts).
Proof. intros Hc. right. by exists c, ts. Qed.

Lemma among_out c cs : c ∉ cs -> among c cs = false.
Proof.
  unfold among. intros Hc. induction cs as [|d cs IH]; [done|]. apply not_elem_of_cons in Hc as [H1 H2]. simpl.
  destruct (d =? 0); [done|]. destruct (Z.eqb_spec d c); [congruence|]. by apply IH.
Qed.

Lemma follow_peeks cs d ts : follow cs ts -> d ∉ cs -> peeks [d] ts = false.
Proof.
  intros [->|(c & ts' & -> & Hc)] Hd; [done|]. simpl. apply among_out. intros ->%list_elem_of_singleton. done.
Qed.

Lemma amps_complete n c k rest : (k < n)%nat -> peeks [38] rest = false ->
  p_amps n c (replicate k (Sym 38) ++ rest) = Some (inr (Nat.iter k CBack c, rest)).
Proof.
  revert n c. induction k as [|k IH]; intros n c Hn Hp; (destruct n as [|n]; [lia|]); cbn [p_amps replicate app].
  - by rewrite Hp.
  - cbn [peeks List.tl]. rewrite (IH n) by (done || lia). by rewrite Nat.iter_succ_r.
Qed.

Lemma simple_no_block ts args rs rest : g_simple ts args rs -> follow [124; 41; 38; 59] rest -> peeks [40] (ts ++ rest) = false.
Proof.
  intros Hg Hf. destruct Hg as [|w ts args rs Hg|k w mode fd ts args rs Hk Hg]; [|done|].
  - apply (follow_peeks _ _ _ Hf). set_solver.
  - destruct k as [|c|]; [done| |done]. simpl in *. apply among_out. intros ->%list_elem_of_singleton. done.
Qed.

Lemma parse_complete :
  (forall ts c, g_line ts c -> forall N fuel rest, (length (ts ++ rest) < N)%nat -> (4 * length (ts ++ rest) + 4 <= fuel)%nat ->
     follow [41] rest -> p_line N fuel (ts ++ rest) = Some (inr (c, rest))) /\
  (forall ts c, g_pipe ts c -> forall N fuel rest, (length (ts ++ rest) < N)%nat -> (4 * length (ts ++ rest) + 3 <= fuel)%nat ->
     follow [41; 38; 59] rest -> p_pipe N fuel (ts ++ rest) = Some (inr (c, rest))) /\
  (forall ts c, g_exec ts c -> forall N fuel rest, (length (ts ++ rest) < N)%nat -> (4 * length (ts ++ rest) + 2 <= fuel)%nat ->
     follow [124; 41; 38; 59] rest -> p_exec N fuel (ts ++ rest) = Some (inr (c, rest))).
Proof.
  apply grammar_mut.
  - intros ts c k _ IH N fuel rest HN Hf Hr. destruct fuel as [|fuel]; [lia|]. cbn [p_line]. rewrite <-app_assoc in *.
    rewrite IH; [|done|lia|].
    + cbn [pbind]. rewrite !length_app, length_replicate in *. rewrite amps_complete; [|lia|apply (follow_peeks _ _ _ Hr); set_solver].
      cbn [pbind]. by rewrite (follow_peeks _ _ _ Hr) by set_solver.
    + destruct k; [|by apply follow_sym; set_solver]. apply (follow_weaken _ _ _ Hr). set_solver.
  - intros ts c k ts2 c2 _ IH _ IH2 N fuel rest HN Hf Hr. destruct fuel as [|fuel]; [lia|]. cbn [p_line].
    rewrite <-!app_assoc in *. cbn [app] in *. rewrite IH; [|done|lia|by destruct k; apply follow_sym; set_solver].
    rewrite !length_app, length_replicate in *. cbn [pbind length] in *. rewrite length_app in *.
    rewrite amps_complete by (done || lia). cbn [pbind peeks List.tl]. change (among 59 [59]) with true. cbn match.
    rewrite (IH2 N fuel rest); [done|rewrite length_app; lia..|done].
  - intros ts c _ IH N fuel rest HN Hf Hr. destruct fuel as [|fuel]; [lia|]. cbn [p_pipe].
    rewrite IH; [|done|lia|apply (follow_weaken _ _ _ Hr); set_solver]. cbn [pbind].
    by rewrite (follow_peeks _ _ _ Hr) by set_solver.
  - intros ts c ts2 c2 _ IH _ IH2 N fuel rest HN Hf Hr. destruct fuel as [|fuel]; [lia|]. cbn [p_pipe].
    rewrite <-!app_assoc in *. cbn [app] in *. rewrite IH; [|done|lia|by apply follow_sym; set_solver].
    rewrite !length_app in *. cbn [pbind length peeks List.tl] in *. rewrite length_app in *.
    change (among 124 [124]) with true. cbn match. rewrite (IH2 N fuel rest); [done|rewrite length_app; lia..|done].
  - intros ts args rs Hg Hl N fuel rest HN Hf Hr. destruct fuel as [|fuel]; [lia|]. cbn [p_exec].
    rewrite (simple_no_block _ _ _ _ Hg Hr). unfold p_simple. rewrite length_app in HN.
    pose proof (simple_complete N N N ts args rs [] [] rest Hg) as E. simpl in E.
    specialize (E ltac:(lia) ltac:(lia) ltac:(lia) Hr Hl).
    destruct (p_redirs N [] (ts ++ rest)) as [[e|[rs2 ts2]]|]; [done| |done]. cbn [pbind] in *. by rewrite E.
  - intros ts c rts rs _ IH Hg N fuel rest HN Hf Hr. destruct fuel as [|fuel]; [lia|]. cbn [p_exec].
    destruct fuel as [|fuel]; [lia|]. cbn [p_block app peeks]. cbn [List.tl]. rewrite <-!app_assoc in *.
    cbn [app length] in *. rewrite <-app_assoc in *. cbn [app] in *.
    replace (among 40 [40]) with true by done. cbn [negb].
    rewrite IH; [|lia|lia|by apply follow_sym; set_solver]. cbn [pbind peeks List.tl].
    replace (among 41 [41]) with true by done. cbn [negb]. rewrite !length_app in *. simpl in *. rewrite length_app in *.
    by rewrite (redirs_complete N [] rts rs rest Hg) by (done || lia).
Qed.

(** ** The parser decides the grammar *)

Definition accepts_line (ts : list tok) (r : PR cmd) : Prop :=
  match r with
  | None => False
  | Some (inr (c, [])) => g_line ts c /\ forall c', g_line ts c' -> c' = c
  | Some _ => forall c, ~ g_line ts c
  end.

Lemma parse_decides N fuel ts : (length ts < N)%nat -> (4 * length ts + 4 <= fuel)%nat ->
  accepts_line ts (p_line N fuel ts).
Proof.
  intros HN Hf.
  assert (Hc : forall c, g_line ts c -> p_line N fuel ts = Some (inr (c, []))).
  { intros c Hg. destruct parse_complete as [Pc _]. specialize (Pc ts c Hg N fuel []). rewrite app_nil_r in Pc.
    apply Pc; [done|done|by left]. }
  destruct (parse_ends N fuel) as [Pe _]. specialize (Pe ts HN Hf). destruct (parse_sound N fuel) as [Ps _].
  destruct (p_line N fuel ts) as [[e|[c rest]]|] eqn:E; [by intros c Hg%Hc| |done].
  apply Ps in E as (ts1 & E1 & G1). destruct rest as [|k rest]; cbn [accepts_line].
  - rewrite app_nil_r in E1. subst ts1. split; [done|]. intros c' Hg%Hc. by simplify_eq.
  - by intros c' Hg%Hc.
Qed.
End ShGrammar.
