(* ===== verification/ShParse.v ===== *)
(** * The shell's parser, against the parser on tokens

    [parsecmd] does what the parser on tokens does, message for message, and
    the nodes it leaves in the store stand for the command. *)

From S2P Require Import Prelude Params Block User Sh ShSpec ShGrammar.
Import Sh ShSpec ShGrammar.

Module ShParse.

Lemma redir_of_code k : peeks [60; 62] [k] = match redir_of k with Some _ => true | None => false end.
Proof.
  destruct k as [w|c|]; [done| |done]. unfold peeks, among, redir_of. cbn [strchr].
  destruct (Z.eqb_spec 60 c), (Z.eqb_spec c 60), (Z.eqb_spec 62 c), (Z.eqb_spec c 62); simpl; lia || done.
Qed.

(** The arrays of an execcmd. *)
Lemma array_fill {A} (l : list A) n x : length l = n -> (n < MAXARGS)%nat ->
  <[n := Some x]> ((Some <$> l) ++ replicate (MAXARGS - n) None) = (Some <$> (l ++ [x])) ++ replicate (MAXARGS - (n + 1)) None.
Proof.
  intros <- Hn. rewrite insert_app_r_alt by (by rewrite length_fmap). rewrite length_fmap, Nat.sub_diag.
  replace (MAXARGS - length l)%nat with (S (MAXARGS - (length l + 1))) by lia.
  by rewrite fmap_app, <-app_assoc.
Qed.

Lemma array_end {A} (l : list A) n : length l = n -> (n < MAXARGS)%nat ->
  <[n := None]> ((Some <$> l) ++ replicate (MAXARGS - n) None) = (Some <$> l) ++ replicate (MAXARGS - n) None.
Proof.
  intros <- Hn. rewrite insert_app_r_alt by (by rewrite length_fmap). rewrite length_fmap, Nat.sub_diag.
  by replace (MAXARGS - length l)%nat with (S (MAXARGS - (length l + 1))) by lia.
Qed.

Section sim.
Context `{ShellEnv} (t tail : list Z).
Hypothesis Ht : Forall (fun c => c <> 0) t.
Hypothesis Hmalloc : forall i, sh_malloc i = true.

Let buf := t ++ 0 :: tail.
Let es := length t.
Let W := word_at t.

(** The run of the parser, the result of the parser on tokens, and what they have in common. *)
Definition sim {A B} (m : outcome shell (stop + (A * nat))) (p : PR B) (post : A -> list node -> B -> Prop) : Prop :=
  match p with
  | None => m = OutOfFuel
  | Some (inl e) => exists st, m = Done (inl (Exited (bytes_of_string e ++ [10]))) st
  | Some (inr (b, ts)) =>
      exists a s nodes, m = Done (inr (a, s)) (Shell buf nodes) /\ (s <= es)%nat /\ lex (drop s t) = ts /\ post a nodes b
  end.

Lemma buffer_eq nodes {A} (f : list Z -> SM A) : (ubind buffer f) (Shell buf nodes) = f buf (Shell buf nodes).
Proof using. done. Qed.

Lemma newnode_eq n nodes : newnode n (Shell buf nodes) = Done (inr (length nodes)) (Shell buf (nodes ++ [n])).
Proof using Hmalloc. unfold newnode. simpl. by rewrite Hmalloc. Qed.

Lemma peek_eq s toks : (s <= es)%nat -> forallb symbol toks = true ->
  exists s', peek buf es s toks = (s', peeks toks (lex (drop s t))) /\ (s <= s' <= es)%nat /\ lex (drop s' t) = lex (drop s t).
Proof using Ht.
  intros Hs Ha. apply peek_spec; [done|done|]. intros c Hc. rewrite forallb_forall in Ha. apply Ha.
  unfold among in Hc. clear -Hc. induction toks as [|d toks IH]; [done|]. simpl in Hc.
  destruct (d =? 0); [done|]. destruct (Z.eqb_spec d c); [by left|]. right. by apply IH.
Qed.

Lemma gettoken_eq s : (s <= es)%nat ->
  exists r q e s', gettoken buf es s = (r, q, e, s') /\ (s' <= es)%nat /\
    match lex (drop s t) with
    | [] => r = 0 /\ drop s' t = []
    | k :: ts => r = tok_code k /\ r <> 0 /\ lex (drop s' t) = ts /\ (s < s')%nat /\
        match k with Word w => W q e w | _ => r <> 97 end
    end.
Proof using Ht. exact (gettoken_spec t tail Ht s). Qed.

(** The loop of [parseredirs]. *)
Definition redirs_body : nat * nat -> SM ((nat * nat) + (nat * nat)) := fun '(cmd, s) =>
  b <~ buffer ;;
  let '(s, more) := peek b es s [60; 62] in
  if negb more then uret (inr (cmd, s))
  else
    let '(tok, _, _, s) := gettoken b es s in
    let '(tok2, q, eq, s) := gettoken b es s in
    if negb (tok2 =? 97) then panic "missing file for redirection"
    else if tok =? 60 then
      cmd <~ redircmd cmd q eq O_RDONLY 0 ;; uret (inl (cmd, s))
    else if tok =? 62 then
      cmd <~ redircmd cmd q eq (Z.lor (Z.lor O_WRONLY O_CREATE) O_TRUNC) 1 ;; uret (inl (cmd, s))
    else if tok =? 43 then
      cmd <~ redircmd cmd q eq (Z.lor O_WRONLY O_CREATE) 1 ;; uret (inl (cmd, s))
    else uret (inl (cmd, s)).

(** One redirection. *)
Lemma redirs_body_one cmd s nodes k w ts mode fd : (s <= es)%nat -> lex (drop s t) = k :: Word w :: ts ->
  redir_of k = Some (mode, fd) ->
  exists q e s', redirs_body (cmd, s) (Shell buf nodes) =
      Done (inr (inl (length nodes, s'))) (Shell buf (nodes ++ [REDIR cmd q e mode fd])) /\
    W q e w /\ (s' <= es)%nat /\ lex (drop s' t) = ts.
Proof using Ht Hmalloc.
  intros Hs El Hk. unfold redirs_body. rewrite buffer_eq.
  destruct (peek_eq s [60; 62] Hs eq_refl) as (s1 & -> & Hs1 & L1).
  rewrite El in L1 |- *. change (peeks [60; 62] (k :: Word w :: ts)) with (peeks [60; 62] [k]).
  rewrite redir_of_code, Hk. cbn [negb].
  destruct (gettoken_eq s1) as (r & q & e & s2 & -> & Hs2 & G); [apply Hs1|]. rewrite L1 in G.
  destruct G as (Hr & _ & L2 & _).
  destruct (gettoken_eq s2) as (r' & q' & e' & s3 & -> & Hs3 & G); [done|]. rewrite L2 in G.
  destruct G as (Hr' & _ & L3 & _ & HW). rewrite Hr'. cbn [tok_code Z.eqb Pos.eqb negb].
  exists q', e', s3. split; [|by split_and!].
  unfold redircmd. destruct k as [|c|]; [done| |].
  - simpl in Hk, Hr. subst r. destruct (c =? 60); [|destruct (c =? 62)]; simplify_eq;
      by rewrite (ubind_ok _ _ _ _ _ (newnode_eq _ _)).
  - simpl in Hk, Hr. simplify_eq. cbn [Z.eqb Pos.eqb]. by rewrite (ubind_ok _ _ _ _ _ (newnode_eq _ _)).
Qed.

(** A redirection without a file. *)
Lemma redirs_body_missing cmd s nodes k ts : (s <= es)%nat -> lex (drop s t) = k :: ts -> redir_of k <> None ->
  (forall w ts', ts <> Word w :: ts') ->
  redirs_body (cmd, s) (Shell buf nodes) =
    Done (inl (Exited (bytes_of_string "missing file for redirection" ++ [10]))) (Shell buf nodes).
Proof using Ht.
  intros Hs El Hk Hts. unfold redirs_body. rewrite buffer_eq.
  destruct (peek_eq s [60; 62] Hs eq_refl) as (s1 & -> & Hs1 & L1).
  rewrite El in L1 |- *. change (peeks [60; 62] (k :: ts)) with (peeks [60; 62] [k]).
  rewrite redir_of_code. destruct (redir_of k) eqn:Ek; [|done]. cbn [negb].
  destruct (gettoken_eq s1) as (r & q & e & s2 & -> & Hs2 & G); [apply Hs1|]. rewrite L1 in G.
  destruct G as (Hr & _ & L2 & _).
  destruct (gettoken_eq s2) as (r' & q' & e' & s3 & -> & Hs3 & G); [done|]. rewrite L2 in G.
  assert (Hne : r' <> 97).
  { destruct ts as [|[w|c|] ts]; [destruct G as [-> _]; done|by destruct (Hts w ts)|apply G|apply G]. }
  by rewrite (proj2 (Z.eqb_neq r' 97) Hne).
Qed.

Lemma redirs_body_none cmd s nodes : (s <= es)%nat -> peeks [60; 62] (lex (drop s t)) = false ->
  exists s', redirs_body (cmd, s) (Shell buf nodes) = Done (inr (inr (cmd, s'))) (Shell buf nodes) /\
    (s' <= es)%nat /\ lex (drop s' t) = lex (drop s t).
Proof using Ht.
  intros Hs Hp. unfold redirs_body. rewrite buffer_eq.
  destruct (peek_eq s [60; 62] Hs eq_refl) as (s1 & -> & Hs1 & L1). rewrite Hp. exists s1. split_and!; [done|lia|done].
Qed.

Lemma sim_redirs n cmd s nodes rs : (s <= es)%nat ->
  sim (uloop n redirs_body (cmd, s) (Shell buf nodes)) (p_redirs n rs (lex (drop s t)))
    (fun top nodes' rs' => exists R rs1, nodes' = nodes ++ R /\ rs' = rs ++ rs1 /\
       redir_chain W (length nodes) cmd R rs1 top).
Proof using Ht Hmalloc.
  revert cmd s nodes rs. induction n as [|n IH]; intros cmd s nodes rs Hs; [done|]. cbn [p_redirs].
  assert (Hnone : peeks [60; 62] (lex (drop s t)) = false ->
    sim (uloop (S n) redirs_body (cmd, s) (Shell buf nodes)) (Some (inr (rs, lex (drop s t))))
      (fun top nodes' rs' => exists R rs1, nodes' = nodes ++ R /\ rs' = rs ++ rs1 /\
         redir_chain W (length nodes) cmd R rs1 top)).
  { intros Hp. destruct (redirs_body_none cmd s nodes Hs Hp) as (s' & E & Hs' & L).
    exists cmd, s', nodes. split_and!; [by apply uloop_last|done|done|]. exists [], []. by rewrite !app_nil_r. }
  destruct (lex (drop s t)) as [|k ts] eqn:El; [by apply Hnone|].
  destruct (redir_of k) as [[mode fd]|] eqn:Ek; [|apply Hnone; change (peeks [60; 62] [k] = false); by rewrite redir_of_code, Ek].
  assert (Hmiss : (forall w ts', ts <> Word w :: ts') ->
    exists st, uloop (S n) redirs_body (cmd, s) (Shell buf nodes) =
      Done (inl (Exited (bytes_of_string "missing file for redirection" ++ [10]))) st).
  { intros Hts. eexists. apply uloop_stop. eapply redirs_body_missing; [done|done|by rewrite Ek|done]. }
  destruct ts as [|[w|c|] ts]; [by apply Hmiss| |by apply Hmiss|by apply Hmiss].
  destruct (redirs_body_one cmd s nodes k w ts mode fd Hs El Ek) as (q & e & s' & E & HW & Hs' & L).
  rewrite (uloop_next _ _ _ _ _ _ E), <-L.
  specialize (IH (length nodes) s' (nodes ++ [REDIR cmd q e mode fd]) (rs ++ [(w, mode, fd)]) Hs').
  destruct (p_redirs n (rs ++ [(w, mode, fd)]) (lex (drop s' t))) as [[e'|[rs' ts']]|]; [done| |done].
  destruct IH as (top & s'' & nodes' & E' & Hs'' & L' & R & rs1 & -> & -> & Hc).
  exists top, s'', (nodes ++ REDIR cmd q e mode fd :: R). rewrite <-!app_assoc in *. split_and!; [done|done|done|].
  exists (REDIR cmd q e mode fd :: R), ((w, mode, fd) :: rs1). split_and!; [done|done|].
  cbn [redir_chain]. split_and!; [done..|]. rewrite length_app, Nat.add_1_r in Hc. exact Hc.
Qed.

(** ** Simple commands *)

(** The command under construction: its node, and the redirections on top. *)
Definition building (N0 : list node) (args : list (list Z)) (rs : list redir) (top : nat) (nodes : list node) : Prop :=
  exists argv eargv R, nodes = N0 ++ EXEC argv eargv :: R /\ args_rep W argv eargv args /\
    redir_chain W (S (length N0)) (length N0) R rs top.

Lemma building_rep N0 args rs top nodes : building N0 args rs top nodes -> rep W nodes top (add_redirs (CExec args) rs).
Proof using.
  intros (argv & eargv & R & -> & Ha & Hc).
  replace (N0 ++ EXEC argv eargv :: R) with ((N0 ++ [EXEC argv eargv]) ++ R) by (by rewrite <-app_assoc).
  eapply (rep_redirs W _ (length N0)); [|by rewrite length_app, Nat.add_1_r].
  eapply rep_exec; [by rewrite list_lookup_middle|done].
Qed.

Lemma set_arg_some N0 args rs top nodes q e w : building N0 args rs top nodes -> W q e w ->
  (S (length args) < MAXARGS)%nat ->
  exists nodes', set_arg (length N0) (length args) (Some q) (Some e) (Shell buf nodes) = Done (inr tt) (Shell buf nodes') /\
    building N0 (args ++ [w]) rs top nodes'.
Proof using.
  intros (argv & eargv & R & -> & (qs & es' & -> & -> & HF & Hl) & Hc) HW Hn.
  unfold set_arg. cbn [sh_nodes sh_buf]. rewrite list_lookup_middle by done. rewrite decide_True by lia.
  eexists. split; [reflexivity|]. eexists _, _, R. rewrite insert_app_r_alt, Nat.sub_diag by lia.
  split; [reflexivity|]. split; [|done]. exists (qs ++ [q]), (es' ++ [e]).
  pose proof (Forall3_length_lr _ _ _ _ HF) as L1. pose proof (Forall3_length_lm _ _ _ _ HF) as L2.
  rewrite !length_app. simpl. split_and!; [| |by apply Forall3_app; [|constructor; [|constructor]]|lia].
  - rewrite <-L1. by apply array_fill; lia.
  - rewrite <-L1, L2. by apply array_fill; lia.
Qed.

Lemma set_arg_none N0 args rs top nodes : building N0 args rs top nodes ->
  exists nodes', set_arg (length N0) (length args) None None (Shell buf nodes) = Done (inr tt) (Shell buf nodes') /\
    building N0 args rs top nodes'.
Proof using.
  intros (argv & eargv & R & -> & (qs & es' & -> & -> & HF & Hl) & Hc).
  unfold set_arg. cbn [sh_nodes sh_buf]. rewrite list_lookup_middle by done. rewrite decide_True by lia.
  eexists. split; [reflexivity|]. eexists _, _, R. rewrite insert_app_r_alt, Nat.sub_diag by lia.
  split; [reflexivity|]. split; [|done]. exists qs, es'.
  pose proof (Forall3_length_lr _ _ _ _ HF) as L1. pose proof (Forall3_length_lm _ _ _ _ HF) as L2.
  split_and!; [| |done|done].
  - rewrite <-L1. by apply array_end; lia.
  - rewrite <-L1, L2. by apply array_end; lia.
Qed.

Lemma building_more N0 args rs top nodes R rs1 top' : building N0 args rs top nodes ->
  redir_chain W (length nodes) top R rs1 top' -> building N0 args (rs ++ rs1) top' (nodes ++ R).
Proof using.
  intros (argv & eargv & R0 & -> & Ha & Hc) H1. exists argv, eargv, (R0 ++ R). rewrite <-app_assoc.
  split_and!; [done|done|]. eapply redir_chain_app; [done|].
  rewrite length_app in H1. simpl in H1. by rewrite Nat.add_succ_l, <-Nat.add_succ_r.
Qed.

Lemma parseredirs_sim cmd s nodes rs : (s <= es)%nat ->
  sim (parseredirs es cmd s (Shell buf nodes)) (p_redirs (S es) rs (lex (drop s t)))
    (fun top nodes' rs' => exists R rs1, nodes' = nodes ++ R /\ rs' = rs ++ rs1 /\
       redir_chain W (length nodes) cmd R rs1 top).
Proof using Ht Hmalloc. intros Hs. exact (sim_redirs (S es) cmd s nodes rs Hs). Qed.

(** The loop of [parseexec]. *)
Definition args_body (cmd : nat) : nat * nat * nat -> SM ((nat * nat * nat) + (nat * nat * nat)) := fun '(ret0, s, argc) =>
  b <~ buffer ;;
  let '(s, stop) := peek b es s [124; 41; 38; 59] in
  if (stop : bool) then uret (inr (ret0, s, argc))
  else
    let '(tok, q, eq, s) := gettoken b es s in
    if tok =? 0 then uret (inr (ret0, s, argc))
    else if negb (tok =? 97) then panic "syntax"
    else
      set_arg cmd argc (Some q) (Some eq) ;!
      let argc := S argc in
      if (MAXARGS <=? argc)%nat then panic "too many args"
      else
        r <~ parseredirs es ret0 s ;;
        let '(ret0, s) := r in
        uret (inl (ret0, s, argc)).

(** The ninth argument is the last. *)
Lemma set_arg_last N0 args rs top nodes q e : building N0 args rs top nodes ->
  exists st, set_arg (length N0) (length args) (Some q) (Some e) (Shell buf nodes) = Done (inr tt) st.
Proof using.
  intros (argv & eargv & R & -> & (qs & es' & -> & -> & HF & Hl) & Hc).
  unfold set_arg. cbn [sh_nodes sh_buf]. rewrite list_lookup_middle by done. rewrite decide_True by lia. by eexists.
Qed.

Lemma sim_args n N0 args rs top nodes s : (s <= es)%nat -> building N0 args rs top nodes ->
  match p_args (S es) n args rs (lex (drop s t)) with
  | None => uloop n (args_body (length N0)) (top, s, length args) (Shell buf nodes) = OutOfFuel
  | Some (inl e) => exists st, uloop n (args_body (length N0)) (top, s, length args) (Shell buf nodes) =
      Done (inl (Exited (bytes_of_string e ++ [10]))) st
  | Some (inr ((args', rs'), ts)) => exists top' s' nodes',
      uloop n (args_body (length N0)) (top, s, length args) (Shell buf nodes) =
        Done (inr (top', s', length args')) (Shell buf nodes') /\
      (s' <= es)%nat /\ lex (drop s' t) = ts /\ building N0 args' rs' top' nodes'
  end.
Proof using Ht Hmalloc.
  revert args rs top nodes s. induction n as [|n IH]; intros args rs top nodes s Hs HB; [done|]. cbn [p_args].
  destruct (peek_eq s [124; 41; 38; 59] Hs eq_refl) as (s1 & Ep & Hs1 & L1).
  destruct (gettoken_eq s1) as (r & q & e & s2 & Eg & Hs2 & G); [apply Hs1|].
  assert (Hbody : forall ts, lex (drop s t) = ts -> args_body (length N0) (top, s, length args) (Shell buf nodes) =
    (if peeks [124; 41; 38; 59] ts then uret (inr (top, s1, length args))
     else if r =? 0 then uret (inr (top, s2, length args))
     else if negb (r =? 97) then panic "syntax"
     else set_arg (length N0) (length args) (Some q) (Some e) ;!
       if (MAXARGS <=? S (length args))%nat then panic "too many args"
       else r <~ parseredirs es top s2 ;; let '(ret0, s) := r in uret (inl (ret0, s, S (length args)))) (Shell buf nodes)).
  { intros ts <-. unfold args_body. by rewrite buffer_eq, Ep, Eg. }
  specialize (Hbody _ eq_refl). rewrite L1 in G. revert L1 G Hbody. generalize (lex (drop s t)). intros ts L1 G Hbody.
  destruct ts as [|k ts].
  { destruct G as [-> E]. exists top, s2, nodes. split_and!; [by apply uloop_last|done|by rewrite E|done]. }
  destruct (peeks [124; 41; 38; 59] (k :: ts)) eqn:Hk.
  { exists top, s1, nodes. split_and!; [by apply uloop_last|lia|done|done]. }
  destruct G as (Hr & Hr0 & L2 & _ & HW). rewrite (proj2 (Z.eqb_neq r 0) Hr0) in Hbody.
  destruct k as [w|c|]; [|rewrite (proj2 (Z.eqb_neq r 97) HW) in Hbody; eexists; by apply uloop_stop..].
  rewrite Hr in Hbody. cbn [tok_code Z.eqb Pos.eqb negb] in Hbody.
  destruct (Nat.leb_spec MAXARGS (S (length args))) as [Hmax|Hmax].
  { destruct (set_arg_last N0 args rs top nodes q e HB) as (st & Es). rewrite (ubind_ok _ _ _ _ _ Es) in Hbody.
    eexists. by apply uloop_stop. }
  destruct (set_arg_some N0 args rs top nodes q e w HB HW Hmax) as (nodes1 & Es & HB1).
  rewrite (ubind_ok _ _ _ _ _ Es) in Hbody. pose proof (parseredirs_sim top s2 nodes1 rs Hs2) as Hsim. rewrite L2 in Hsim.
  destruct (p_redirs (S es) rs ts) as [[e'|[rs' ts']]|]; cbn [pbind sim] in *.
  - destruct Hsim as (st & E). rewrite (ubind_stop _ _ _ _ _ E) in Hbody. exists st. by apply uloop_stop.
  - destruct Hsim as (top' & s3 & nodes2 & E & Hs3 & <- & R & rs1 & -> & -> & Hc).
    rewrite (ubind_ok _ _ _ _ _ E) in Hbody. rewrite (uloop_next _ _ _ _ _ _ Hbody).
    specialize (IH (args ++ [w]) (rs ++ rs1) top' (nodes1 ++ R) s3 Hs3 ltac:(by eapply building_more)).
    rewrite length_app, Nat.add_1_r in IH. exact IH.
  - rewrite (ubind_fuel _ _ _ Hsim) in Hbody. by apply uloop_fuel.
Qed.

(** The nodes a call adds stand for the command it read. *)
Definition parsed (nodes : list node) (i : nat) (nodes' : list node) (c : cmd) : Prop :=
  exists ext, nodes' = nodes ++ ext /\ rep W nodes' i c.

Lemma parsesimple_sim s nodes : (s <= es)%nat ->
  sim (parsesimple es s (Shell buf nodes)) (p_simple (S es) (lex (drop s t))) (parsed nodes).
Proof using Ht Hmalloc.
  intros Hs. unfold parsesimple, p_simple, execcmd. rewrite (ubind_ok _ _ _ _ _ (newnode_eq _ _)).
  set (new := EXEC (replicate MAXARGS None) (replicate MAXARGS None)).
  pose proof (parseredirs_sim (length nodes) s (nodes ++ [new]) [] Hs) as Hsim.
  destruct (p_redirs (S es) [] (lex (drop s t))) as [[e|[rs ts]]|]; cbn [pbind sim] in *.
  - destruct Hsim as (st & E). exists st. by rewrite (ubind_stop _ _ _ _ _ E).
  - destruct Hsim as (top & s1 & nodes1 & E & Hs1 & L1 & R & rs1 & -> & -> & Hc). rewrite (ubind_ok _ _ _ _ _ E).
    assert (HB : building nodes [] rs1 top ((nodes ++ [new]) ++ R)).
    { exists (replicate MAXARGS None), (replicate MAXARGS None), R. rewrite <-app_assoc. split_and!; [done| |].
      - exists [], []. split_and!; [done|done|constructor|unfold MAXARGS; simpl; lia].
      - by rewrite length_app, Nat.add_1_r in Hc. }
    pose proof (sim_args (S es) nodes [] rs1 top _ s1 Hs1 HB) as Ha. rewrite L1 in Ha. cbn [length app] in Ha |- *.
    fold (args_body (length nodes)).
    destruct (p_args (S es) (S es) [] rs1 ts) as [[e|[[args rs] ts']]|].
    + destruct Ha as (st & Ea). exists st. by rewrite (ubind_stop _ _ _ _ _ Ea).
    + destruct Ha as (top' & s2 & nodes2 & Ea & Hs2 & L2 & HB2). rewrite (ubind_ok _ _ _ _ _ Ea).
      destruct (set_arg_none nodes args rs top' nodes2 HB2) as (nodes3 & Es & HB3). rewrite (ubind_ok _ _ _ _ _ Es).
      exists top', s2, nodes3. split_and!; [done|done|done|]. pose proof (building_rep _ _ _ _ _ HB3).
      destruct HB3 as (argv & eargv & R' & -> & _). by eexists.
    + by rewrite (ubind_fuel _ _ _ Ha).
  - by rewrite (ubind_fuel _ _ _ Hsim).
Qed.

(** A symbol that was seen is read. *)
Lemma take_symbol s toks : (s <= es)%nat -> peeks toks (lex (drop s t)) = true ->
  exists r q e s', gettoken buf es s = (r, q, e, s') /\ (s' <= es)%nat /\ lex (drop s' t) = List.tl (lex (drop s t)).
Proof using Ht.
  intros Hs Hp. destruct (gettoken_eq s Hs) as (r & q & e & s' & E & Hs' & G). exists r, q, e, s'. split_and!; [done|done|].
  destruct (lex (drop s t)); [done|]. apply G.
Qed.

(** The loop of [parseline]. *)
Definition amps_body : nat * nat -> SM ((nat * nat) + (nat * nat)) := fun '(cmd, s) =>
  b <~ buffer ;;
  let '(s, more) := peek b es s [38] in
  if (more : bool) then
    let '(_, _, _, s) := gettoken b es s in
    cmd <~ backcmd cmd ;; uret (inl (cmd, s))
  else uret (inr (cmd, s)).

Lemma sim_amps n s nodes i c : (s <= es)%nat -> rep W nodes i c ->
  sim (uloop n amps_body (i, s) (Shell buf nodes)) (p_amps n c (lex (drop s t))) (parsed nodes).
Proof using Ht Hmalloc.
  revert s nodes i c. induction n as [|n IH]; intros s nodes i c Hs Hi; [done|]. cbn [p_amps].
  destruct (peek_eq s [38] Hs eq_refl) as (s1 & Ep & Hs1 & L1).
  destruct (peeks [38] (lex (drop s t))) eqn:Hp.
  - destruct (take_symbol s1 [38]) as (r & q & e & s2 & Eg & Hs2 & L2); [lia|by rewrite L1|].
    rewrite (uloop_next _ _ _ _ (length nodes, s2) (Shell buf (nodes ++ [BACK i]))).
    2:{ unfold amps_body. rewrite buffer_eq, Ep, Eg. unfold backcmd. by rewrite (ubind_ok _ _ _ _ _ (newnode_eq _ _)). }
    specialize (IH s2 (nodes ++ [BACK i]) (length nodes) (CBack c) Hs2). rewrite L2, L1 in IH.
    assert (Hr : rep W (nodes ++ [BACK i]) (length nodes) (CBack c)).
    { eapply rep_back; [by rewrite list_lookup_middle|by eapply rep_bound|by apply rep_app]. }
    specialize (IH Hr). destruct (p_amps n (CBack c) _) as [[e'|[c' ts']]|]; [done| |done].
    destruct IH as (i' & s' & nodes' & E & Hs' & L' & ext & -> & Hrep). exists i', s', ((nodes ++ [BACK i]) ++ ext).
    split_and!; [done|done|done|]. exists ([BACK i] ++ ext). by rewrite app_assoc.
  - exists i, s1, nodes. split_and!; [|lia|done|by exists []; rewrite app_nil_r].
    apply uloop_last. unfold amps_body. by rewrite buffer_eq, Ep.
Qed.

Lemma sim_bind {A B C D} (m : SM (A * nat)) (p : PR B) (f : A * nat -> SM (C * nat)) (g : B -> list tok -> PR D) st
    (P : A -> list node -> B -> Prop) (Q : C -> list node -> D -> Prop) :
  sim (m st) p P ->
  (forall a s nodes b, (s <= es)%nat -> P a nodes b -> sim (f (a, s) (Shell buf nodes)) (g b (lex (drop s t))) Q) ->
  sim (ubind m f st) (pbind p g) Q.
Proof using.
  destruct p as [[e|[b ts]]|]; cbn [sim pbind].
  - intros (st' & E) _. exists st'. by rewrite (ubind_stop _ _ _ _ _ E).
  - intros (a & s & nodes & E & Hs & <- & HP) Hf. rewrite (ubind_ok _ _ _ _ _ E). by apply Hf.
  - intros E _. by rewrite (ubind_fuel _ _ _ E).
Qed.

Lemma sim_weaken {A B} (m : outcome shell (stop + (A * nat))) (p : PR B) (P Q : A -> list node -> B -> Prop) :
  (forall a nodes b, P a nodes b -> Q a nodes b) -> sim m p P -> sim m p Q.
Proof using.
  intros HPQ. destruct p as [[e|[b ts]]|]; cbn [sim]; [done| |done].
  intros (a & s & nodes & E & Hs & Hl & HP). exists a, s, nodes. split_and!; [done..|by apply HPQ].
Qed.

Lemma parsed_trans nodes i nodes1 c j nodes2 d : parsed nodes i nodes1 c -> parsed nodes1 j nodes2 d -> parsed nodes j nodes2 d.
Proof using. intros (e1 & -> & _) (e2 & -> & Hr). exists (e1 ++ e2). split; [by rewrite app_assoc|done]. Qed.

(** What follows the left side of an operator. *)
Lemma sim_operator (mk : nat -> nat -> node) (Mk : cmd -> cmd -> cmd) c toks rest (p : list tok -> PR cmd) i s nodes0 nodes :
  (forall nodes i l r cl cr, nodes !! i = Some (mk l r) -> (l < i)%nat -> (r < i)%nat ->
     rep W nodes l cl -> rep W nodes r cr -> rep W nodes i (Mk cl cr)) ->
  forallb symbol toks = true -> (s <= es)%nat -> parsed nodes0 i nodes c ->
  (forall s nodes, (s <= es)%nat -> sim (rest s (Shell buf nodes)) (p (lex (drop s t))) (parsed nodes)) ->
  sim ((b <~ buffer ;;
        let '(s, more) := peek b es s toks in
        if (more : bool) then
          let '(_, _, _, s) := gettoken b es s in
          r <~ rest s ;;
          let '(rcmd, s) := r in
          cmd <~ newnode (mk i rcmd) ;; uret (cmd, s)
        else uret (i, s)) (Shell buf nodes))
    (if peeks toks (lex (drop s t)) then pbind (p (List.tl (lex (drop s t)))) (fun r ts => Some (inr (Mk c r, ts)))
     else Some (inr (c, lex (drop s t)))) (parsed nodes0).
Proof using Ht Hmalloc.
  intros Hmk Htoks Hs HP Hrest. rewrite buffer_eq. destruct (peek_eq s toks Hs Htoks) as (s1 & -> & Hs1 & L1).
  destruct (peeks toks (lex (drop s t))) eqn:Hp; [|exists i, s1, nodes; split_and!; [done|lia|done|done]].
  destruct (take_symbol s1 toks) as (r & q & e & s2 & -> & Hs2 & L2); [lia|by rewrite L1|]. rewrite <-L1, <-L2.
  eapply sim_bind; [by apply Hrest|]. intros j s3 nodes3 cr Hs3 HP3.
  rewrite (ubind_ok _ _ _ _ _ (newnode_eq _ _)). exists (length nodes3), s3, (nodes3 ++ [mk i j]).
  split_and!; [done|done|done|]. destruct HP3 as (ext & -> & Hr). destruct HP as (ext0 & -> & Hl).
  exists (ext0 ++ ext ++ [mk i j]). split; [by rewrite !app_assoc|].
  pose proof (rep_bound _ _ _ _ Hl) as Bl. pose proof (rep_bound _ _ _ _ Hr) as Br.
  eapply Hmk; [by rewrite list_lookup_middle| | |by apply rep_app, rep_app|by apply rep_app]; rewrite ?length_app in *; lia.
Qed.

Lemma sim_parse fuel :
  (forall s nodes, (s <= es)%nat -> sim (parse fuel Parseline es s (Shell buf nodes)) (p_line (S es) fuel (lex (drop s t))) (parsed nodes)) /\
  (forall s nodes, (s <= es)%nat -> sim (parse fuel Parsepipe es s (Shell buf nodes)) (p_pipe (S es) fuel (lex (drop s t))) (parsed nodes)) /\
  (forall s nodes, (s <= es)%nat -> sim (parse fuel Parseexec es s (Shell buf nodes)) (p_exec (S es) fuel (lex (drop s t))) (parsed nodes)) /\
  (forall s nodes, (s <= es)%nat -> sim (parse fuel Parseblock es s (Shell buf nodes)) (p_block (S es) fuel (lex (drop s t))) (parsed nodes)).
Proof using Ht Hmalloc.
  induction fuel as [|fuel (IHl & IHp & IHe & IHb)]; [by split_and!|]. split_and!; intros s nodes Hs.
  - cbn [parse parseline p_line]; unfold parseline. eapply sim_bind; [by apply IHp|]. intros i s1 nodes1 c Hs1 HP.
    eapply sim_bind; [apply sim_amps; [done|by destruct HP as (ext & _ & ?)]|]. intros i2 s2 nodes2 c2 Hs2 HP2.
    apply (sim_operator LIST CList c2 [59] (fun s => parse fuel Parseline es s) (p_line (S es) fuel));
      [intros; by eapply rep_list|done|done|by eapply parsed_trans|done].
  - cbn [parse parsepipe p_pipe]; unfold parsepipe. eapply sim_bind; [by apply IHe|]. intros i s1 nodes1 c Hs1 HP.
    apply (sim_operator PIPE CPipe c [124] (fun s => parse fuel Parsepipe es s) (p_pipe (S es) fuel));
      [intros; by eapply rep_pipe|done|done|done|done].
  - cbn [parse parseexec p_exec]; unfold parseexec. rewrite buffer_eq. destruct (peek_eq s [40] Hs eq_refl) as (s1 & -> & Hs1 & L1).
    rewrite <-L1. destruct (peeks [40] (lex (drop s1 t))); [apply IHb; lia|apply parsesimple_sim; lia].
  - cbn [parse parseblock p_block]; unfold parseblock. rewrite buffer_eq. destruct (peek_eq s [40] Hs eq_refl) as (s1 & -> & Hs1 & L1).
    rewrite <-L1. destruct (peeks [40] (lex (drop s1 t))) eqn:Hp; [|by eexists]. cbn [negb].
    destruct (take_symbol s1 [40]) as (r & q & e & s2 & -> & Hs2 & L2); [lia|done|]. rewrite <-L2.
    eapply sim_bind; [by apply IHl|]. intros i s3 nodes3 c Hs3 HP. rewrite buffer_eq.
    destruct (peek_eq s3 [41] Hs3 eq_refl) as (s4 & -> & Hs4 & L4). rewrite <-L4.
    destruct (peeks [41] (lex (drop s4 t))) eqn:Hp'; [|by eexists]. cbn [negb].
    destruct (take_symbol s4 [41]) as (r' & q' & e' & s5 & -> & Hs5 & L5); [lia|done|]. rewrite <-L5.
    pose proof (parseredirs_sim i s5 nodes3 [] Hs5) as Hsim. destruct HP as (ext & -> & Hr).
    destruct (p_redirs (S es) [] (lex (drop s5 t))) as [[e''|[rs ts]]|]; [done| |done].
    destruct Hsim as (top & s6 & nodes6 & E & Hs6 & L6 & R & rs1 & -> & -> & Hc). exists top, s6, ((nodes ++ ext) ++ R).
    split_and!; [done|done|done|]. exists (ext ++ R). split; [by rewrite app_assoc|]. by eapply rep_redirs.
Qed.
End sim.

(** ** NUL-termination *)

Lemma rep_mono (W W' : nat -> nat -> list Z -> Prop) nodes i c :
  (forall q e w, W q e w -> W' q e w) -> rep W nodes i c -> rep W' nodes i c.
Proof.
  intros HW. induction 1 as [i argv eargv args Hi (qs & es & -> & -> & HF & Hl)| | | |].
  - eapply rep_exec; [done|]. exists qs, es. split_and!; [done|done| |done]. by eapply Forall3_impl.
  - eapply rep_redir; eauto.
  - eapply rep_pipe; eauto.
  - eapply rep_list; eauto.
  - eapply rep_back; eauto.
Qed.

Section nul.
Context `{ShellEnv} (t : list Z).

(** NULs are written only where no word goes on. *)
Definition zeroed (b b' : list Z) : Prop :=
  length b' = length b /\
  forall p, b' !! p = b !! p \/ (b' !! p = Some 0 /\ in_word (drop p t) = false).

Lemma zeroed_refl b : zeroed b b.
Proof using. split; [done|]. by left. Qed.

Lemma zeroed_trans b1 b2 b3 : zeroed b1 b2 -> zeroed b2 b3 -> zeroed b1 b3.
Proof using.
  intros [L1 Z1] [L2 Z2]. split; [lia|]. intros p. destruct (Z2 p) as [E|[E Hp]]; [|by right].
  rewrite E. apply Z1.
Qed.

Lemma zeroed_keeps b b' p : zeroed b b' -> b !! p = Some 0 -> b' !! p = Some 0.
Proof using. intros [_ Hz] Hb. by destruct (Hz p) as [->|[-> _]]. Qed.

(** A word whose end is a NUL. *)
Definition ended (b : list Z) (q e : nat) (w : list Z) : Prop := word_at t q e w /\ b !! e = Some 0.

Lemma ended_keeps b b' q e w : zeroed b b' -> ended b q e w -> ended b' q e w.
Proof using. intros Hz [HW He]. split; [done|]. by eapply zeroed_keeps. Qed.

Lemma word_end q e w : word_at t q e w -> (e <= length t)%nat /\ in_word (drop e t) = false.
Proof using.
  intros (r & Hd & -> & Hne & _ & Hr). split.
  - apply (f_equal length) in Hd. rewrite length_drop, length_app in Hd. destruct w; [done|]. simpl in *. lia.
  - by rewrite <-drop_drop, Hd, drop_app_length.
Qed.

Lemma put_nul_spec b nodes q e w : word_at t q e w -> (length t < length b)%nat ->
  exists b', put_nul e (Shell b nodes) = Done (inr tt) (Shell b' nodes) /\ zeroed b b' /\ ended b' q e w.
Proof using.
  intros HW Hb. destruct (word_end _ _ _ HW) as [He Hend]. exists (<[e := 0]> b). split_and!; [done| |split; [done|]].
  - split; [apply length_insert|]. intros p. destruct (decide (p = e)) as [->|Hne].
    + right. split; [|done]. apply list_lookup_insert_eq. lia.
    + left. by apply list_lookup_insert_ne.
  - apply list_lookup_insert_eq. lia.
Qed.

Lemma nul_args_spec b nodes argv eargv args : (length t < length b)%nat -> args_rep (word_at t) argv eargv args ->
  exists b', nul_args argv eargv (Shell b nodes) = Done (inr tt) (Shell b' nodes) /\ zeroed b b' /\
    args_rep (ended b') argv eargv args.
Proof using.
  intros Hb (qs & es & -> & -> & HF & Hl). unfold args_rep.
  destruct (MAXARGS - length args)%nat as [|k] eqn:Ek; [lia|].
  assert (Hx : exists b', nul_args ((Some <$> qs) ++ replicate (S k) None) ((Some <$> es) ++ replicate (S k) None) (Shell b nodes) =
     Done (inr tt) (Shell b' nodes) /\ zeroed b b' /\ Forall3 (ended b') qs es args).
  { clear Ek Hl. revert b Hb. induction HF as [|q e w qs es args HW HF IH]; intros b Hb.
    - exists b. split_and!; [done|apply zeroed_refl|constructor].
    - cbn [fmap list_fmap app nul_args]. destruct (put_nul_spec b nodes q e w HW Hb) as (b1 & E1 & Z1 & D1).
      rewrite (ubind_ok _ _ _ _ _ E1). destruct (IH b1) as (b2 & E2 & Z2 & F2); [destruct Z1; lia|].
      exists b2. split_and!; [done|by eapply zeroed_trans|]. constructor; [by eapply ended_keeps|done]. }
  destruct Hx as (b' & E & Z & F). exists b'. split_and!; [done|done|]. by exists qs, es.
Qed.

Lemma nulterminate_spec b nodes i c fuel : (length t < length b)%nat -> rep (word_at t) nodes i c -> (i < fuel)%nat ->
  exists b', nulterminate fuel i (Shell b nodes) = Done (inr tt) (Shell b' nodes) /\ zeroed b b' /\ rep (ended b') nodes i c.
Proof using.
  intros Hb Hr. revert b fuel Hb.
  assert (Hk : forall b b' i c, zeroed b b' -> rep (ended b) nodes i c -> rep (ended b') nodes i c).
  { intros b b' j d Hz. apply rep_mono. intros q e w. by apply ended_keeps. }
  induction Hr as [i argv eargv args Hi Ha|i j q e mode fd w c Hi Hj HW Hr IH|i l r cl cr Hi Hl Hr R1 IH1 R2 IH2|
                   i l r cl cr Hi Hl Hr R1 IH1 R2 IH2|i j c Hi Hj Hr IH]; intros b fuel Hb Hf;
    (destruct fuel as [|fuel]; [lia|]); cbn [nulterminate]; unfold bind at 1, Prelude.gets; cbn [obind sh_nodes]; rewrite Hi.
  - destruct (nul_args_spec b nodes argv eargv args Hb Ha) as (b' & E & Z & A). exists b'. split_and!; [done|done|].
    by eapply rep_exec.
  - destruct (IH b fuel Hb) as (b1 & E1 & Z1 & R1); [lia|]. rewrite (ubind_ok _ _ _ _ _ E1).
    destruct (put_nul_spec b1 nodes q e w HW) as (b2 & E2 & Z2 & D2); [destruct Z1; lia|].
    exists b2. split_and!; [done|by eapply zeroed_trans|]. eapply rep_redir; eauto.
  - destruct (IH1 b fuel Hb) as (b1 & E1 & Z1 & D1); [lia|]. rewrite (ubind_ok _ _ _ _ _ E1).
    destruct (IH2 b1 fuel) as (b2 & E2 & Z2 & D2); [destruct Z1; lia|lia|].
    exists b2. split_and!; [done|by eapply zeroed_trans|]. eapply rep_pipe; eauto.
  - destruct (IH1 b fuel Hb) as (b1 & E1 & Z1 & D1); [lia|]. rewrite (ubind_ok _ _ _ _ _ E1).
    destruct (IH2 b1 fuel) as (b2 & E2 & Z2 & D2); [destruct Z1; lia|lia|].
    exists b2. split_and!; [done|by eapply zeroed_trans|]. eapply rep_list; eauto.
  - destruct (IH b fuel Hb) as (b1 & E1 & Z1 & D1); [lia|]. exists b1. split_and!; [done|done|]. eapply rep_back; eauto.
Qed.

(** The word is then the C string at its start. *)
Lemma ended_string tail b q e w : Forall (fun c => c <> 0) t -> zeroed (t ++ 0 :: tail) b -> ended b q e w ->
  cstring (drop q b) = w.
Proof using.
  intros Ht [_ Hz] [(r & Hd & -> & Hne & Hw & Hr) He].
  assert (Hw0 : Forall (fun c => c <> 0) w).
  { assert (Hx : Forall (fun c => c <> 0) (drop q t)) by by apply Forall_drop. rewrite Hd in Hx. by apply Forall_app in Hx as [? _]. }
  assert (E : drop q b = w ++ 0 :: drop (S (q + length w)) b); [|rewrite E; by apply cstring_app_nul].
  rewrite <-(take_drop (length w) (drop q b)). f_equal.
  - apply list_eq. intros i. destruct (decide (i < length w)%nat) as [Hi|Hi].
    + rewrite lookup_take_lt, lookup_drop by done.
      destruct (lookup_lt_is_Some_2 w i Hi) as [x Hx].
      assert (Hti : t !! (q + i)%nat = Some x) by (by rewrite <-lookup_drop, Hd, lookup_app_l).
      destruct (Hz (q + i)%nat) as [->|[_ Hin]].
      * by rewrite lookup_app_l, Hti, Hx by (by eapply lookup_lt_Some).
      * exfalso. rewrite (drop_S _ _ _ Hti) in Hin. simpl in Hin. rewrite Forall_lookup in Hw.
        by rewrite (Hw i x Hx) in Hin.
    + rewrite !lookup_ge_None_2; [done|lia|]. rewrite length_take. lia.
  - rewrite drop_drop. by apply drop_S.
Qed.
End nul.

(** ** parsecmd *)

Lemma lex_length t : (length (lex t) <= length t)%nat.
Proof.
  assert (H : forall n t, (length t <= n)%nat -> (length (lex t) <= length t)%nat); [|by eapply H].
  clear t. induction n as [|n IH]; intros [|c t] Hn; simpl in Hn |- *; try lia.
  pose proof (IH t ltac:(lia)). destruct (white c); [lia|]. destruct (c =? 62).
  - destruct t as [|d t]; [simpl; lia|]. destruct (d =? 62); [|cbn [length] in *; lia].
    specialize (IH t). simpl in *. lia.
  - destruct (symbol c); [simpl; lia|]. unfold add_char. destruct (lex t) as [|[] ts]; try (simpl in *; lia).
    destruct (in_word t); simpl in *; lia.
Qed.

Lemma strlen_line t tail : Forall (fun c => c <> 0) t -> strlen (t ++ 0 :: tail) = Z.of_nat (length t).
Proof. induction 1 as [|c t Hc _ IH]; [done|]. simpl. rewrite (proj2 (Z.eqb_neq c 0) Hc), IH. lia. Qed.

(** The string at a position of the buffer. *)
Definition string_at (b : list Z) (q e : nat) (w : list Z) : Prop := cstring (drop q b) = w.

Lemma parsecmd_spec `{ShellEnv} (t tail : list Z) :
  Forall (fun c => c <> 0) t -> (forall i, sh_malloc i = true) ->
  (exists c i b nodes, g_line (lex t) c /\ (forall c', g_line (lex t) c' -> c' = c) /\
     parsecmd (Shell (t ++ 0 :: tail) []) = Done (inr i) (Shell b nodes) /\ rep (string_at b) nodes i c) \/
  ((forall c, ~ g_line (lex t) c) /\
   exists msg st, parsecmd (Shell (t ++ 0 :: tail) []) = Done (inl (Exited msg)) st).
Proof.
  intros Ht Hm. pose proof (lex_length t) as Hl. set (es := length t).
  pose proof (proj1 (sim_parse t tail Ht Hm (4 * es + 8)) 0%nat [] ltac:(lia)) as Hsim. rewrite drop_0 in Hsim.
  pose proof (parse_decides (S es) (4 * es + 8) (lex t) ltac:(unfold es; lia) ltac:(unfold es; lia)) as Hd.
  unfold parsecmd. rewrite (buffer_eq t tail).
  rewrite (strlen_line t tail Ht), Nat2Z.id. fold es in Hsim |- *.
  destruct (p_line (S es) (4 * es + 8) (lex t)) as [[e|[c ts]]|]; [| |done].
  - right. split; [exact Hd|]. destruct Hsim as (st & E). eexists _, st. by rewrite (ubind_stop _ _ _ _ _ E).
  - destruct Hsim as (i & s & nodes & E & Hs & Hts & ext & _ & Hr). rewrite (ubind_ok _ _ _ _ _ E).
    destruct (skip_spec t tail s Hs) as (x & Ex & Hq & Hlx & Hw). fold es in Ex, Hq.
    unfold peek. set (q := skip (t ++ 0 :: tail) es s) in *. rewrite Hts in Hlx.
    destruct (Nat.eqb_spec q es) as [Eq|Nq]; cbn [negb].
    + assert (x = []) as -> by (rewrite <-Ex, Eq; apply drop_ge; unfold es; lia). simpl in Hlx. rewrite <-Hlx in Hd.
      left. cbn [accepts_line] in Hd. destruct Hd as [Hg Hu]. unfold bind at 1, Prelude.gets. cbn [obind sh_nodes].
      destruct (nulterminate_spec t (t ++ 0 :: tail) nodes i c (S (length nodes))) as (b & En & Z & R).
      { rewrite length_app. simpl. lia. } { done. } { pose proof (rep_bound _ _ _ _ Hr). lia. }
      exists c, i, b, nodes. split_and!; [done|done|by rewrite (ubind_ok _ _ _ _ _ En)|].
      eapply rep_mono; [|exact R]. intros q' e w. by eapply ended_string.
    + right. split; [|by eexists _, _]. destruct ts as [|k ts]; [|exact Hd]. exfalso. apply Nq.
      destruct x as [|d x]; [by destruct (at_end t tail q Ex ltac:(lia)) as [_ ?]|].
      specialize (Hw d x eq_refl). simpl in Hlx. rewrite Hw in Hlx. unfold add_char in Hlx.
      destruct (d =? 62); [destruct x as [|z x]; [done|by destruct (z =? 62)]|].
      destruct (symbol d); [done|]. destruct (lex x) as [|[] ?]; try done. by destruct (in_word x).
Qed.

(** The nodes stand for one command only. *)
Lemma args_rep_fun b argv eargv args args' : args_rep (string_at b) argv eargv args -> args_rep (string_at b) argv eargv args' -> args = args'.
Proof.
  intros (qs & es & -> & -> & HF & Hl) (qs' & es' & E & _ & HF' & Hl'). revert E.
  destruct (MAXARGS - length args)%nat as [|k] eqn:Ek; [lia|]. destruct (MAXARGS - length args')%nat as [|k'] eqn:Ek'; [lia|].
  clear Ek Ek' Hl Hl'. revert qs' es' args' HF'. induction HF as [|q e w qs es args HW HF IH]; intros qs' es' args' HF';
    destruct HF' as [|q' e' w' qs' es' args' HW' HF']; cbn [fmap list_fmap app replicate]; intros E; simplify_eq; [done|].
  unfold string_at in HW, HW'. f_equal; [congruence|]. by eapply IH.
Qed.

Lemma rep_fun b nodes i c c' : rep (string_at b) nodes i c -> rep (string_at b) nodes i c' -> c = c'.
Proof.
  intros Hr. revert c'. induction Hr; intros c' Hr'; inversion Hr'; simplify_eq; f_equal; eauto using args_rep_fun.
  unfold string_at in *. congruence.
Qed.

(** C21: The shell's parser decides its grammar.  [parsecmd] returns a command exactly
    if the tokens of the line derive it: the nodes it allocated then stand for that command, and every word
    and file name in them is a NUL-terminated string of the buffer.
    If the line derives no command, [parsecmd] prints a message and exits; it never
    writes outside the argument arrays, and it always ends. *)
Theorem parsecmd_correct `{ShellEnv} (t tail : list Z) :
  Forall (fun c => c <> 0) t -> (forall i, sh_malloc i = true) ->
  (forall c, g_line (lex t) c <->
     exists i b nodes, parsecmd (Shell (t ++ 0 :: tail) []) = Done (inr i) (Shell b nodes) /\ rep (string_at b) nodes i c) /\
  ((forall c, ~ g_line (lex t) c) <->
     exists msg st, parsecmd (Shell (t ++ 0 :: tail) []) = Done (inl (Exited msg)) st).
Proof.
  intros Ht Hm. destruct (parsecmd_spec t tail Ht Hm) as [(c & i & b & nodes & Hg & Hu & E & Hr)|[Hno (msg & st & E)]];
    rewrite E; split.
  - intros c'. split; [intros ->%Hu; by exists i, b, nodes|].
    intros (i' & b' & nodes' & E' & Hr'). simplify_eq. by rewrite (rep_fun _ _ _ _ _ Hr' Hr).
  - split; [by intros Hno; destruct (Hno c)|by intros (msg & st & ?)].
  - intros c. split; [by intros ?%Hno|by intros (i & b & nodes & ? & _)].
  - split; [by intros _; exists msg, st|done].
Qed.

(** A shell whose memory does not run out. *)
#[local] Instance demo_env : ShellEnv := {| sh_malloc _ := true |}.

Definition demo_line : list Z := bytes_of_string "(ls a; b)>x | wc<y &" ++ [10].

Lemma parsecmd_correct_witness :
  (forall c, g_line (lex demo_line) c <->
     exists i b nodes, parsecmd (Shell (demo_line ++ [0]) []) = Done (inr i) (Shell b nodes) /\ rep (string_at b) nodes i c) /\
  exists c, g_line (lex demo_line) c.
Proof.
  assert (Hnz : Forall (fun c => c <> 0) demo_line) by (repeat constructor; discriminate).
  assert (Hm : forall i, sh_malloc i = true) by (intros i; reflexivity).
  destruct (parsecmd_correct demo_line [] Hnz Hm) as [H1 H2]. split; [exact H1|].
  destruct (parsecmd_spec demo_line [] Hnz Hm) as [(c & _ & _ & _ & Hg & _)|[_ (msg & st & E)]]; [by exists c|].
  exfalso. vm_compute in E. discriminate E.
Defined.
End ShParse.
