(* ===== verification/ShRun.v ===== *)
(** * The shell's processes: user/sh.c

    [runcmd], [getcmd] and [main] as programs over the system calls they
    make.  [fork] is a program with two continuations.  A program is then run
    on a table of descriptors, each process on a copy of its own; the events
    are what a process does that others can see. *)

From stdpp Require Import gmap.
From S2P Require Import Prelude Params Block User Sh.
Import Sh.

Module ShRun.

(** ** Programs *)

Inductive prog :=
| PExit (status : Z)
| PKilled
| PWrite (fd : Z) (bs : list Z) (k : prog)
| PRead (k : option Z -> prog)
| PExec (path : list Z) (argv : list (list Z)) (k : prog)
| PClose (fd : Z) (k : prog)
| POpen (path : list Z) (mode : Z) (k : Z -> prog)
| PDup (fd : Z) (k : prog)
| PPipe (k : option (Z * Z) -> prog)
| PFork (k : Z -> prog)
| PWait (k : prog)
| PChdir (path : list Z) (k : Z -> prog).

(** [fprintf(2, ...)] writes one character at a time. *)
Definition print2 (bs : list Z) (k : prog) : prog := foldr (fun c k => PWrite 2 [c] k) k bs.

Definition panic (s : string) : prog := print2 (bytes_of_string s ++ [10]) (PExit 1).

Definition fork1 (k : Z -> prog) : prog :=
  PFork (fun pid => if pid =? -1 then panic "fork" else k pid).

(** The C string at a position of the buffer. *)
Definition str (st : shell) (q : nat) : list Z := cstring (drop q (sh_buf st)).

(** The arguments up to the null pointer. *)
Fixpoint args_of (st : shell) (argv : list (option nat)) : list (list Z) :=
  match argv with
  | Some q :: argv' => str st q :: args_of st argv'
  | _ => []
  end.

(** No command is deeper than the number of nodes. *)
Fixpoint runcmd (fuel : nat) (st : shell) (cmd : option nat) : prog :=
  match fuel, cmd with
  | _, None => PExit 1
  | O, _ => PKilled
  | S fuel, Some cmd =>
      match sh_nodes st !! cmd with
      | None => panic "runcmd"
      | Some (EXEC argv _) =>
          match argv with
          | Some q :: _ =>
              PExec (str st q) (args_of st argv)
                (print2 (bytes_of_string "exec " ++ str st q ++ bytes_of_string " failed" ++ [10]) (PExit 0))
          | _ => PExit 1
          end
      | Some (REDIR c file _ mode fd) =>
          PClose fd (POpen (str st file) mode (fun r =>
            if r <? 0 then
              print2 (bytes_of_string "open " ++ str st file ++ bytes_of_string " failed" ++ [10]) (PExit 1)
            else runcmd fuel st (Some c)))
      | Some (LIST l r) =>
          fork1 (fun pid =>
            if pid =? 0 then runcmd fuel st (Some l)
            else PWait (runcmd fuel st (Some r)))
      | Some (PIPE l r) =>
          PPipe (fun p =>
            match p with
            | None => panic "pipe"
            | Some (p0, p1) =>
                fork1 (fun pid =>
                  if pid =? 0 then
                    PClose 1 (PDup p1 (PClose p0 (PClose p1 (runcmd fuel st (Some l)))))
                  else
                    fork1 (fun pid =>
                      if pid =? 0 then
                        PClose 0 (PDup p0 (PClose p0 (PClose p1 (runcmd fuel st (Some r)))))
                      else
                        PClose p0 (PClose p1 (PWait (PWait (PExit 0))))))
            end)
      | Some (BACK c) =>
          fork1 (fun pid => if pid =? 0 then runcmd fuel st (Some c) else PExit 0)
      end
  end.

Section main.
Context `{ShellEnv}.

(** [runcmd(parsecmd(buf))] *)
Definition child (buf : list Z) : prog :=
  match parsecmd (Shell buf []) with
  | Done (inr i) st => runcmd (S (length (sh_nodes st))) st (Some i)
  | Done (inl (Exited out)) _ => print2 out (PExit 1)
  | _ => PKilled
  end.

(** [gets(buf, max)]: [n] characters are left to read at most; [buf] holds the ones read. *)
Fixpoint sh_gets (n : nat) (buf : list Z) (k : list Z -> prog) : prog :=
  match n with
  | O => k buf
  | S n' => PRead (fun r =>
      match r with
      | None => k buf
      | Some c => if (c =? 10) || (c =? 13) then k (buf ++ [c]) else sh_gets n' (buf ++ [c]) k
      end)
  end.

Definition nbuf : nat := 100.

(** The buffer is zeroed first; [None] at the end of the input. *)
Definition getcmd (k : option (list Z) -> prog) : prog :=
  PWrite 2 (bytes_of_string "$ ")
    (sh_gets (nbuf - 1) [] (fun cs =>
       let buf := cs ++ replicate (nbuf - length cs) 0 in
       if at_ buf 0 =? 0 then k None else k (Some buf))).

(** The loop of [main], for at most [n] lines. *)
Fixpoint command_loop (n : nat) : prog :=
  match n with
  | O => PKilled
  | S n' =>
      getcmd (fun line =>
        match line with
        | None => PExit 0
        | Some buf =>
            if (at_ buf 0 =? 99) && (at_ buf 1 =? 100) && (at_ buf 2 =? 32) then
              let buf := <[Z.to_nat (strlen buf - 1) := 0]> buf in
              PChdir (cstring (drop 3 buf)) (fun r =>
                if r <? 0 then
                  print2 (bytes_of_string "cannot cd " ++ cstring (drop 3 buf) ++ [10]) (command_loop n')
                else command_loop n')
            else
              fork1 (fun pid => if pid =? 0 then child buf else PWait (command_loop n'))
        end)
  end.

Definition O_RDWR : Z := 2.

(** [main] opens the console until the three standard descriptors are taken. *)
Fixpoint open_console (n : nat) (k : prog) : prog :=
  match n with
  | O => PKilled
  | S n' => POpen (bytes_of_string "console") O_RDWR (fun fd =>
      if fd <? 0 then k else if 3 <=? fd then PClose fd k else open_console n' k)
  end.

Definition sh_main (n : nat) : prog := open_console (S NOFILE) (command_loop n).

End main.

(** ** Runs *)

Inductive file := FPath (path : list Z) (mode : Z) | FPipeR (p : nat) | FPipeW (p : nat).

Abbreviation fdtable := (gmap Z file).

(** What a process does.  A process that another forks has events of its own. *)
Inductive event :=
| EWrite (f : option file) (bs : list Z)
| EExec (path : list Z) (argv : list (list Z)) (fds : fdtable)
| EFork (child : list event)
| EWait
| EChdir (path : list Z)
| EExit (status : Z)
| EKilled.

(** Which files can be opened, which programs can be loaded, and which directories there are. *)
Class FileEnv := {
  can_open : list Z -> Z -> bool;
  can_exec : list Z -> bool;
  can_chdir : list Z -> bool;
}.

Section run.
Context `{FileEnv}.

(** The lowest descriptor that is not in use. *)
Definition lowest (fds : fdtable) : option Z :=
  snd <$> list_find (fun fd => fds !! fd = None) (Z.of_nat <$> seq 0 NOFILE).

(** The number of pipes made so far, and the input that is left. *)
Record world := World { w_pipes : nat; w_input : list Z }.

Fixpoint run (w : world) (fds : fdtable) (p : prog) : list event * world :=
  match p with
  | PExit s => ([EExit s], w)
  | PKilled => ([EKilled], w)
  | PWrite fd bs k => let '(es, w) := run w fds k in (EWrite (fds !! fd) bs :: es, w)
  | PRead k =>
      match w_input w with
      | [] => run w fds (k None)
      | c :: inp => run (World (w_pipes w) inp) fds (k (Some c))
      end
  | PExec path argv k => if can_exec path then ([EExec path argv fds], w) else run w fds k
  | PClose fd k => run w (delete fd fds) k
  | POpen path mode k =>
      match lowest fds with
      | Some fd => if can_open path mode then run w (<[fd := FPath path mode]> fds) (k fd) else run w fds (k (-1))
      | None => run w fds (k (-1))
      end
  | PDup fd k =>
      match fds !! fd, lowest fds with
      | Some f, Some fd' => run w (<[fd' := f]> fds) k
      | _, _ => run w fds k
      end
  | PPipe k =>
      let n := w_pipes w in
      let w := World (S n) (w_input w) in
      match lowest fds with
      | Some r =>
          let fds' := <[r := FPipeR n]> fds in
          match lowest fds' with
          | Some wr => run w (<[wr := FPipeW n]> fds') (k (Some (r, wr)))
          | None => run w fds (k None)
          end
      | None => run w fds (k None)
      end
  | PFork k =>
      let '(e1, w) := run w fds (k 0) in
      let '(e2, w) := run w fds (k 1) in
      (EFork e1 :: e2, w)
  | PWait k => let '(es, w) := run w fds k in (EWait :: es, w)
  | PChdir path k =>
      if can_chdir path then let '(es, w) := run w fds (k 0) in (EChdir path :: es, w)
      else run w fds (k (-1))
  end.

End run.
End ShRun.
