(* ===== verification/ShExec.v ===== *)
(** * What the processes of the shell do

    The meaning of a command, and that the shell carries it out: every program of
    the line is started with the arguments and the descriptors that the line
    asks for, in processes that are waited for where the line says so. *)

From stdpp Require Import gmap.
From S2P Require Import Prelude Params Block User Sh ShSpec ShGrammar ShParse ShRun.
Import Sh ShSpec ShGrammar ShParse ShRun.

Module ShExec.

Section meaning.
Context `{FileEnv}.

Definition says (fds : fdtable) (bs : list Z) : list event := (fun c => EWrite (fds !! 2) [c]) <$> bs.

(** The events of the process that runs a command with the descriptors [fds]. *)
Fixpoint denote (w : world) (fds : fdtable) (c : cmd) : list event * world :=
  match c with
  | CExec [] => ([EExit 1], w)
  | CExec (path :: args) =>
      if can_exec path then ([EExec path (path :: args) fds], w)
      else (says fds (bytes_of_string "exec " ++ path ++ bytes_of_string " failed" ++ [10]) ++ [EExit 0], w)
  | CRedir c file mode fd =>
      if can_open file mode then denote w (<[fd := FPath file mode]> fds) c
      else (says (delete fd fds) (bytes_of_string "open " ++ file ++ bytes_of_string " failed" ++ [10]) ++ [EExit 1], w)
  | CList l r =>
      let '(e1, w) := denote w fds l in
      let '(e2, w) := denote w fds r in
      (EFork e1 :: EWait :: e2, w)
  | CPipe l r =>
      let n := w_pipes w in
      let '(e1, w) := denote (World (S n) (w_input w)) (<[1 := FPipeW n]> fds) l in
      let '(e2, w) := denote w (<[0 := FPipeR n]> fds) r in
      ([EFork e1; EFork e2; EWait; EWait; EExit 0], w)
  | CBack c =>
      let '(e1, w) := denote w fds c in
      ([EFork e1; EExit 0], w)
  end.

(** The descriptors of a shell: 0, 1 and 2 are open, 3 and 4 are not. *)
Definition standard (fds : fdtable) : Prop :=
  is_Some (fds !! 0) /\ is_Some (fds !! 1) /\ is_Some (fds !! 2) /\ fds !! 3 = None /\ fds !! 4 = None.

(** Redirections are of the standard input and output. *)
Fixpoint redirs_io (c : cmd) : Prop :=
  match c with
  | CExec _ => True
  | CRedir c _ _ fd => (fd = 0 \/ fd = 1) /\ redirs_io c
  | CPipe l r | CList l r => redirs_io l /\ redirs_io r
  | CBack c => redirs_io c
  end.

Lemma redir_of_io k mode fd : redir_of k = Some (mode, fd) -> fd = 0 \/ fd = 1.
Proof using.
  destruct k as [|c|]; simpl; [done| |intros [= <- <-]; by right].
  destruct (c =? 60); [intros [= <- <-]; by left|]. destruct (c =? 62); [intros [= <- <-]; by right|done].
Qed.

Lemma add_redirs_io c rs : redirs_io c -> Forall (fun r : redir => r.2 = 0 \/ r.2 = 1) rs -> redirs_io (add_redirs c rs).
Proof using. intros Hc Hr. revert c Hc. induction Hr as [|[[w m] fd] rs Hfd Hr IH]; intros c Hc; [done|]. by apply IH. Qed.

Lemma grammar_io :
  (forall ts c, g_line ts c -> redirs_io c) /\ (forall ts c, g_pipe ts c -> redirs_io c) /\
  (forall ts c, g_exec ts c -> redirs_io c).
Proof using.
  assert (Hiter : forall n c, redirs_io c -> redirs_io (Nat.iter n CBack c)) by (induction n; simpl; auto).
  apply grammar_mut; simpl; auto.
  - intros ts args rs Hg _. apply add_redirs_io; [done|]. induction Hg; try constructor; simpl; eauto using redir_of_io.
  - intros ts c rts rs _ Hc Hg. apply add_redirs_io; [done|]. induction Hg; try constructor; simpl; eauto using redir_of_io.
Qed.

(** ** Descriptors *)

Lemma lowest_first (fds : fdtable) k : (k < NOFILE)%nat -> fds !! Z.of_nat k = None ->
  (forall j, (j < k)%nat -> is_Some (fds !! Z.of_nat j)) -> lowest fds = Some (Z.of_nat k).
Proof using.
  intros Hk Hn Hlt. unfold lowest.
  replace (list_find _ _) with (Some (k, Z.of_nat k)); [done|]. symmetry. apply list_find_Some. split_and!.
  - rewrite list_lookup_fmap, lookup_seq_lt by done. done.
  - done.
  - intros j y Hj Hjk. rewrite list_lookup_fmap, lookup_seq_lt in Hj by lia. simpl in Hj. simplify_eq.
    intros E. destruct (Hlt j Hjk) as [f Hf]. congruence.
Qed.

Lemma standard_insert fds fd f : standard fds -> fd = 0 \/ fd = 1 -> standard (<[fd := f]> fds).
Proof using.
  intros (H0 & H1 & H2 & H3 & H4) Hfd. unfold standard.
  destruct Hfd as [Hfd|Hfd]; subst fd; rewrite ?lookup_insert_eq, ?lookup_insert_ne by done; eauto 10.
Qed.

(** A standard descriptor that was just closed is the next to be used. *)
Lemma lowest_closed fds fd : standard fds -> fd = 0 \/ fd = 1 -> lowest (delete fd fds) = Some fd.
Proof using.
  intros (H0 & H1 & H2 & H3 & H4) [Hfd|Hfd]; subst fd.
  - apply (lowest_first _ 0); [unfold NOFILE; lia|apply lookup_delete_eq|lia].
  - apply (lowest_first _ 1); [unfold NOFILE; lia|apply lookup_delete_eq|].
    intros j Hj. replace j with O by lia. by rewrite lookup_delete_ne.
Qed.

Lemma run_print2 w fds bs k : run w fds (print2 bs k) = let '(es, w) := run w fds k in (says fds bs ++ es, w).
Proof using.
  induction bs as [|c bs IH]; cbn [print2 foldr run says fmap list_fmap app]; [by destruct (run w fds k)|].
  fold (print2 bs k). rewrite IH. by destruct (run w fds k).
Qed.

Lemma run_fork1 w fds k : run w fds (fork1 k) =
  let '(e1, w) := run w fds (k 0) in let '(e2, w) := run w fds (k 1) in (EFork e1 :: e2, w).
Proof using. done. Qed.

Lemma run_pipe w fds k : standard fds -> run w fds (PPipe k) =
  run (World (S (w_pipes w)) (w_input w)) (<[4 := FPipeW (w_pipes w)]> (<[3 := FPipeR (w_pipes w)]> fds)) (k (Some (3, 4))).
Proof using.
  intros (H0 & H1 & H2 & H3 & H4). cbn [run].
  rewrite (lowest_first fds 3); [|unfold NOFILE; lia|done|].
  2:{ intros j Hj. destruct j as [|[|[|j]]]; [done|done|done|lia]. }
  change (Z.of_nat 3) with 3. rewrite (lowest_first (<[3 := FPipeR (w_pipes w)]> fds) 4); [done|unfold NOFILE; lia| |].
  - by rewrite lookup_insert_ne.
  - intros j Hj. destruct j as [|[|[|[|j]]]]; rewrite ?lookup_insert_eq, ?lookup_insert_ne by done; eauto. lia.
Qed.

(** The side of a pipe that a child keeps, under the descriptor [fd]. *)
Lemma run_pipe_end w n fds fd e k : standard fds -> fd = 0 \/ fd = 1 -> e = 3 \/ e = 4 ->
  run w (<[4 := FPipeW n]> (<[3 := FPipeR n]> fds)) (PClose fd (PDup e (PClose 3 (PClose 4 k)))) =
  run w (<[fd := if e =? 3 then FPipeR n else FPipeW n]> fds) k.
Proof using.
  intros Hs Hfd He. cbn [run]. set (f3 := FPipeR n). set (f4 := FPipeW n).
  set (big := <[4 := f4]> (<[3 := f3]> fds)).
  assert (Hl : lowest (delete fd big) = Some fd).
  { destruct Hs as (H0 & H1 & H2 & H3 & H4). unfold big. destruct Hfd as [Hfd|Hfd]; subst fd.
    - apply (lowest_first _ 0); [unfold NOFILE; lia|apply lookup_delete_eq|lia].
    - apply (lowest_first _ 1); [unfold NOFILE; lia|apply lookup_delete_eq|].
      intros j Hj. replace j with O by lia. by rewrite lookup_delete_ne, !lookup_insert_ne. }
  assert (He' : delete fd big !! e = Some (if e =? 3 then f3 else f4)).
  { unfold big. destruct Hfd, He; subst; rewrite lookup_delete_ne by done; [by rewrite lookup_insert_ne, lookup_insert_eq|
      by rewrite lookup_insert_eq|by rewrite lookup_insert_ne, lookup_insert_eq|by rewrite lookup_insert_eq]. }
  rewrite He', Hl. f_equal. destruct Hs as (_ & _ & _ & H3 & H4). apply map_eq. intros j. unfold big.
  destruct (decide (j = 4)) as [Ej|N4]; [subst j; rewrite lookup_delete_eq, lookup_insert_ne by lia; by rewrite H4|].
  rewrite lookup_delete_ne by done.
  destruct (decide (j = 3)) as [Ej|N3]; [subst j; rewrite lookup_delete_eq, lookup_insert_ne by lia; by rewrite H3|].
  rewrite lookup_delete_ne by done. destruct (decide (j = fd)) as [Ej|Nf]; [subst j; by rewrite !lookup_insert_eq|].
  by rewrite lookup_insert_ne, lookup_delete_ne, !lookup_insert_ne by done.
Qed.

(** ** A command is carried out *)

Lemma args_of_rep b nodes argv eargv args : args_rep (string_at b) argv eargv args ->
  args_of (Shell b nodes) argv = args /\
  match args with
  | [] => exists argv', argv = None :: argv'
  | path :: _ => exists q argv', argv = Some q :: argv' /\ str (Shell b nodes) q = path
  end.
Proof using.
  intros (qs & es & -> & -> & HF & Hl). unfold MAXARGS in *.
  assert (E : exists k, (10 - length args = S k)%nat) by (exists (9 - length args)%nat; lia). destruct E as [k ->]. clear Hl. split.
  - induction HF as [|q e w qs es args HW HF IH]; [done|]. cbn [fmap list_fmap app args_of]. rewrite IH. unfold str. by rewrite HW.
  - destruct HF as [|q e w qs es args HW HF]; [by eexists|]. by exists q, ((Some <$> qs) ++ replicate (S k) None).
Qed.

Lemma run_runcmd w fds b nodes i c fuel : rep (string_at b) nodes i c -> redirs_io c -> standard fds -> (i < fuel)%nat ->
  run w fds (runcmd fuel (Shell b nodes) (Some i)) = denote w fds c.
Proof using.
  intros Hr. revert w fds fuel.
  induction Hr as [i argv eargv args Hi Ha|i j q e mode fd wd c Hi Hj HW Hr IH|i l r cl cr Hi Hl Hr R1 IH1 R2 IH2|
                   i l r cl cr Hi Hl Hr R1 IH1 R2 IH2|i j c Hi Hj Hr IH]; intros w fds fuel Hio Hs Hf;
    (destruct fuel as [|fuel]; [lia|]); cbn [runcmd sh_nodes denote]; rewrite Hi.
  - destruct (args_of_rep b nodes argv eargv args Ha) as [Ea Hm]. destruct args as [|path args].
    + destruct Hm as (argv' & ->). done.
    + destruct Hm as (q & argv' & -> & Eq). rewrite Ea, Eq. cbn [run]. destruct (can_exec path); [done|]. by rewrite run_print2.
  - destruct Hio as [Hfd Hio]. assert (Es : str (Shell b nodes) q = wd) by exact HW.
    rewrite Es. cbn [run]. rewrite (lowest_closed fds fd Hs Hfd).
    destruct (can_open wd mode).
    + replace (fd <? 0) with false by lia. rewrite insert_delete_eq. apply IH; [done|by apply standard_insert|lia].
    + cbn [Z.ltb Z.compare]. by rewrite run_print2.
  - destruct Hio as [Hio1 Hio2]. rewrite run_pipe by done. cbn match. rewrite run_fork1. cbn [Z.eqb].
    rewrite run_pipe_end by auto. change (4 =? 3) with false. cbn match.
    rewrite IH1; [|done|by apply standard_insert; auto|lia].
    destruct (denote (World (S (w_pipes w)) (w_input w)) _ cl) as [e1 w1]. rewrite run_fork1. cbn [Z.eqb].
    rewrite run_pipe_end by auto. change (3 =? 3) with true. cbn match.
    rewrite IH2; [|done|by apply standard_insert; auto|lia]. by destruct (denote w1 _ cr).
  - destruct Hio as [Hio1 Hio2]. rewrite run_fork1. cbn [Z.eqb run]. rewrite IH1; [|done|done|lia].
    destruct (denote w fds cl) as [e1 w1]. rewrite IH2; [|done|done|lia]. by destruct (denote w1 fds cr).
  - rewrite run_fork1. cbn [Z.eqb run]. rewrite IH; [|done|done|lia]. by destruct (denote w fds c).
Qed.
End meaning.

(** The child of a line. *)
Lemma child_runs `{FileEnv} `{ShellEnv} w fds t tail : Forall (fun c => c <> 0) t -> (forall i, sh_malloc i = true) ->
  standard fds ->
  (exists c, g_line (lex t) c /\ run w fds (child (t ++ 0 :: tail)) = denote w fds c) \/
  ((forall c, ~ g_line (lex t) c) /\ exists msg, run w fds (child (t ++ 0 :: tail)) = (says fds msg ++ [EExit 1], w)).
Proof.
  intros Ht Hm Hs. unfold child.
  destruct (parsecmd_spec t tail Ht Hm) as [(c & i & b & nodes & Hg & _ & E & Hr)|[Hno (msg & st & E)]]; rewrite E.
  - left. exists c. split; [done|]. apply run_runcmd; [done|exact (proj1 grammar_io _ _ Hg)|done|].
    cbn [sh_nodes]. pose proof (rep_bound _ _ _ _ Hr). lia.
  - right. split; [done|]. exists msg. by rewrite run_print2.
Qed.

(** ** Sessions *)

Section session.
Context `{FileEnv} `{ShellEnv}.

Definition prompt (fds : fdtable) : event := EWrite (fds !! 2) (bytes_of_string "$ ").

Definition is_cd (l : list Z) : Prop := exists dir, l = bytes_of_string "cd " ++ dir.

(** What the shell does with the lines it reads. *)
Inductive session (fds : fdtable) : nat -> list (list Z) -> list event -> Prop :=
| session_end p : session fds p [] [prompt fds; EExit 0]
| session_run p l ls c inp e p' es : ~ is_cd l -> g_line (lex (l ++ [10])) c ->
    denote (World p inp) fds c = (e, World p' inp) -> session fds p' ls es ->
    session fds p (l :: ls) (prompt fds :: EFork e :: EWait :: es)
| session_bad p l ls msg es : ~ is_cd l -> (forall c, ~ g_line (lex (l ++ [10])) c) -> session fds p ls es ->
    session fds p (l :: ls) (prompt fds :: EFork (says fds msg ++ [EExit 1]) :: EWait :: es)
| session_cd p dir ls es : can_chdir dir = true -> session fds p ls es ->
    session fds p ((bytes_of_string "cd " ++ dir) :: ls) (prompt fds :: EChdir dir :: es)
| session_cd_fails p dir ls es : can_chdir dir = false -> session fds p ls es ->
    session fds p ((bytes_of_string "cd " ++ dir) :: ls)
      (prompt fds :: says fds (bytes_of_string "cannot cd " ++ dir ++ [10]) ++ es).

(** A line that fits the buffer. *)
Definition line_ok (l : list Z) : Prop :=
  Forall (fun c => c <> 0 /\ c <> 10 /\ c <> 13) l /\ (length l + 2 <= nbuf)%nat.

Lemma run_gets n acc l rest p fds k : Forall (fun c => c <> 0 /\ c <> 10 /\ c <> 13) l -> (length l < n)%nat ->
  run (World p (l ++ 10 :: rest)) fds (sh_gets n acc k) = run (World p rest) fds (k (acc ++ l ++ [10])).
Proof using.
  revert n acc. induction l as [|c l IH]; intros n acc Hl Hn; (destruct n as [|n]; [simpl in Hn; lia|]).
  - done.
  - apply Forall_cons in Hl as [(Hc0 & Hc1 & Hc2) Hl]. cbn [sh_gets run w_input app w_pipes].
    replace ((c =? 10) || (c =? 13)) with false by lia. rewrite IH; [|done|simpl in Hn; lia]. by rewrite <-app_assoc.
Qed.

Lemma denote_input w fds c : w_input (denote w fds c).2 = w_input w.
Proof using.
  revert w fds. induction c as [args|c IH file mode fd|l IHl r IHr|l IHl r IHr|c IH]; intros w fds; cbn [denote].
  - destruct args; [done|]. by destruct (can_exec _).
  - by destruct (can_open file mode); [apply IH|].
  - specialize (IHl (World (S (w_pipes w)) (w_input w)) (<[1 := FPipeW (w_pipes w)]> fds)). destruct (denote _ _ l) as [e1 w1].
    specialize (IHr w1 (<[0 := FPipeR (w_pipes w)]> fds)). destruct (denote w1 _ r) as [e2 w2]. simpl in *. congruence.
  - specialize (IHl w fds). destruct (denote w fds l) as [e1 w1]. specialize (IHr w1 fds). destruct (denote w1 fds r) as [e2 w2].
    simpl in *. congruence.
  - specialize (IH w fds). by destruct (denote w fds c).
Qed.

(** The buffer after a line has been read. *)
Definition line_buf (l : list Z) : list Z := (l ++ [10]) ++ 0 :: replicate (nbuf - length l - 2) 0.

Lemma run_getcmd l rest p fds k : line_ok l ->
  run (World p (l ++ 10 :: rest)) fds (getcmd k) =
  let '(es, w) := run (World p rest) fds (k (Some (line_buf l))) in (prompt fds :: es, w).
Proof using.
  intros [Hl Hn]. unfold getcmd, nbuf in *. cbn [run]. rewrite run_gets by (done || simpl; lia). cbn [app].
  rewrite length_app. simpl length. replace (100 - (length l + 1))%nat with (S (100 - length l - 2)) by lia.
  change ((l ++ [10]) ++ replicate (S (100 - length l - 2)) 0) with (line_buf l).
  replace (at_ (line_buf l) 0 =? 0) with false; [done|]. symmetry. apply Z.eqb_neq. unfold at_, line_buf.
  destruct l as [|c l]; [done|]. by apply Forall_cons in Hl as [[Hc _] _].
Qed.

Lemma cd_test l : (at_ (line_buf l) 0 =? 99) && (at_ (line_buf l) 1 =? 100) && (at_ (line_buf l) 2 =? 32) = true <-> is_cd l.
Proof using.
  unfold at_, line_buf, is_cd. change (bytes_of_string "cd ") with [99; 100; 32]. split.
  - destruct l as [|a [|b [|c l]]]; simpl; try (intros ?; lia). intros Hx. exists l.
    apply andb_prop in Hx as [[H1 H2]%andb_prop H3]. by rewrite (proj1 (Z.eqb_eq _ _) H1), (proj1 (Z.eqb_eq _ _) H2), (proj1 (Z.eqb_eq _ _) H3).
  - by intros (dir & ->).
Qed.

Lemma cd_dir dir : line_ok (bytes_of_string "cd " ++ dir) ->
  let buf := line_buf (bytes_of_string "cd " ++ dir) in cstring (drop 3 (<[Z.to_nat (strlen buf - 1) := 0]> buf)) = dir.
Proof using.
  intros [Hl Hn] buf. unfold buf, line_buf. set (l := bytes_of_string "cd " ++ dir) in *.
  assert (Hl0 : Forall (fun c => c <> 0) (l ++ [10])).
  { apply Forall_app. split; [|by repeat constructor]. eapply Forall_impl; [exact Hl|]. by intros c (? & _). }
  rewrite strlen_line by done. replace (length (l ++ [10])) with (length l + 1)%nat by (by rewrite length_app).
  replace (Z.to_nat (Z.of_nat (length l + 1) - 1)) with (length l + 0)%nat by lia.
  rewrite <-app_assoc, insert_app_r. cbn [app insert list_insert]. unfold l. change (bytes_of_string "cd ") with [99; 100; 32].
  cbn [app drop]. apply cstring_app_nul. apply Forall_app in Hl as [_ Hd]. eapply Forall_impl; [exact Hd|]. by intros c (? & _).
Qed.

Lemma session_runs p fds lines : standard fds -> (forall i, sh_malloc i = true) -> Forall line_ok lines ->
  session fds p lines (run (World p (concat ((fun l => l ++ [10]) <$> lines))) fds (command_loop (S (length lines)))).1.
Proof using.
  intros Hs Hm Hok. revert p. induction Hok as [|l lines Hl Hok IH]; intros p; [apply session_end|].
  cbn [fmap list_fmap concat length]. rewrite <-app_assoc. cbn [app]. set (rest := concat _) in *.
  assert (Estep : forall n, command_loop (S n) = getcmd (fun line => match line with
    | None => PExit 0
    | Some buf =>
        if (at_ buf 0 =? 99) && (at_ buf 1 =? 100) && (at_ buf 2 =? 32) then
          let buf := <[Z.to_nat (strlen buf - 1) := 0]> buf in
          PChdir (cstring (drop 3 buf)) (fun r =>
            if r <? 0 then print2 (bytes_of_string "cannot cd " ++ cstring (drop 3 buf) ++ [10]) (command_loop n)
            else command_loop n)
        else fork1 (fun pid => if pid =? 0 then child buf else PWait (command_loop n))
    end)) by done.
  rewrite Estep, run_getcmd by done. cbv beta zeta. destruct (_ && _ && _) eqn:Hcd.
  - apply cd_test in Hcd as (dir & ->). rewrite cd_dir by done. cbn [run]. specialize (IH p).
    destruct (can_chdir dir) eqn:Hd.
    + cbn [Z.ltb Z.compare]. destruct (run (World p rest) fds (command_loop (S (length lines)))). by apply session_cd.
    + cbn [Z.ltb Z.compare]. rewrite run_print2. destruct (run (World p rest) fds (command_loop (S (length lines)))).
      by apply session_cd_fails.
  - assert (Hnc : ~ is_cd l) by (rewrite <-cd_test, Hcd; done). rewrite run_fork1. cbn [Z.eqb]. unfold line_buf.
    assert (Hl0 : Forall (fun c => c <> 0) (l ++ [10])).
    { apply Forall_app. split; [|by repeat constructor]. eapply Forall_impl; [exact (proj1 Hl)|]. by intros c (? & _). }
    destruct (child_runs (World p rest) fds (l ++ [10]) (replicate (nbuf - length l - 2) 0) Hl0 Hm Hs)
      as [(c & Hg & ->)|[Hno (msg & ->)]].
    + pose proof (denote_input (World p rest) fds c) as Hi. destruct (denote (World p rest) fds c) as [e [p' inp]] eqn:Ed.
      simpl in Hi. subst inp. cbn [run]. specialize (IH p').
      destruct (run (World p' rest) fds (command_loop (S (length lines)))). by eapply session_run.
    + cbn [run]. specialize (IH p). destruct (run (World p rest) fds (command_loop (S (length lines)))). by apply session_bad.
Qed.

(** The console is open already, so [main] closes the descriptor it gets. *)
Lemma run_open_console w fds n k : standard fds -> can_open (bytes_of_string "console") O_RDWR = true ->
  run w fds (open_console (S n) k) = run w fds k.
Proof using.
  intros Hs Hc. cbn [open_console run]. pose proof Hs as (F0 & F1 & F2 & F3 & F4).
  rewrite (lowest_first fds 3); [|unfold NOFILE; lia|done|].
  2:{ intros j Hj. destruct j as [|[|[|j]]]; [done|done|done|lia]. }
  rewrite Hc. change (Z.of_nat 3) with 3. cbn [Z.ltb Z.leb Z.compare Pos.compare Pos.compare_cont run].
  by rewrite delete_insert_id.
Qed.
End session.

(** C8: A session of the shell.  Started with its three descriptors open, the
    shell prompts, reads a line at a time, changes directory itself,
    and for every other line forks a process and waits for it.  For a line of
    the grammar the processes are those of the command: every program gets its arguments and a
    table of descriptors that differs from the shell's only in the
    redirections and pipe ends the line asks for (no end of a pipe is left open by
    mistake), both sides of a pipe run concurrently, and lists run in sequence.
    A line outside the grammar is reported and runs nothing. *)
Theorem shell_session `{FileEnv} `{ShellEnv} (p : nat) (fds : fdtable) (lines : list (list Z)) :
  standard fds -> can_open (bytes_of_string "console") O_RDWR = true -> (forall i, sh_malloc i = true) ->
  Forall line_ok lines ->
  session fds p lines (run (World p (concat ((fun l => l ++ [10]) <$> lines))) fds (sh_main (S (length lines)))).1.
Proof.
  intros Hs Hc Hm Hl. unfold sh_main. rewrite run_open_console by done. by apply session_runs.
Qed.

(** Every file opens and every program loads. *)
#[local] Instance demo_files : FileEnv := {| can_open _ _ := true; can_exec _ := true; can_chdir _ := true |}.
#[local] Instance demo_shell : ShellEnv := {| sh_malloc _ := true |}.

Definition demo_console : file := FPath (bytes_of_string "console") 2.
Definition demo_fds : fdtable := <[0 := demo_console]> (<[1 := demo_console]> {[2 := demo_console]}).
Definition demo_lines : list (list Z) :=
  [bytes_of_string "cat <in | (grep x; wc) >out"; bytes_of_string "cd dir"; bytes_of_string "ls |) &"].

Lemma shell_session_witness :
  session demo_fds 0 demo_lines
    (run (World 0 (concat ((fun l => l ++ [10]) <$> demo_lines))) demo_fds (sh_main (S (length demo_lines)))).1.
Proof.
  apply shell_session.
  - split_and!; [by eexists|by eexists|by eexists|reflexivity|reflexivity].
  - reflexivity.
  - intros i. reflexivity.
  - repeat apply Forall_cons_2; [..|apply Forall_nil_2]; (split; [|vm_compute; lia]);
      repeat (apply Forall_cons_2; [split_and!; discriminate|]); apply Forall_nil_2.
Defined.
End ShExec.
