(* ===== verification/Mkfs.v ===== *)
(** * The image builder: mkfs/mkfs.c

    A program of the host that writes the first image of the file system. The
    image is a file of the host, kept as the list of its sectors; a [struct
    dinode] is an [inode] of which only the fields that are on disk
    count, and the host is little-endian.  What it prints is not modelled. *)

From S2P Require Import Prelude Params Memory Block State Log Fs User.

Module Mkfs.

(** ** The host *)

(** Whether the image can be opened, and whether the [k]-th access to it succeeds; the files; and the number of bytes beyond
    the first that the [k]-th read of a file returns at most, [None] if it fails. *)
Class Host := {
  host_image : bool;
  host_io : nat -> bool;
  host_file : list Z -> option (list Z);
  host_read : nat -> option nat;
}.

Record mkfs := Mk {
  m_img : list block;
  freeinode : Z;
  freeblock : Z;
  m_ios : nat;
  m_reads : nat;
}.

Definition set_m_img (v : list block) (s : mkfs) : mkfs := Mk v (freeinode s) (freeblock s) (m_ios s) (m_reads s).
Definition set_freeinode (v : Z) (s : mkfs) : mkfs := Mk (m_img s) v (freeblock s) (m_ios s) (m_reads s).
Definition set_freeblock (v : Z) (s : mkfs) : mkfs := Mk (m_img s) (freeinode s) v (m_ios s) (m_reads s).
Definition set_m_ios (v : nat) (s : mkfs) : mkfs := Mk (m_img s) (freeinode s) (freeblock s) v (m_reads s).
Definition set_m_reads (v : nat) (s : mkfs) : mkfs := Mk (m_img s) (freeinode s) (freeblock s) (m_ios s) v.

(** The program ends with a status, or an assertion fails. *)
Inductive ending := Exit (status : Z) | Assert.

Abbreviation MK A := (MU mkfs ending A).

Definition stop {A} (e : ending) : MK A := ret (inl e).
Definition die {A} : MK A := stop (Exit 1).
Definition assert (c : bool) : MK unit := if c then uret tt else stop Assert.

(** ** Layout *)

Definition NINODES : Z := 200.
Definition nbitmap : Z := FSSIZE / (BSIZE * 8) + 1.
Definition ninodeblocks : Z := NINODES / IPB + 1.
Definition nlog : Z := LOGSIZE.
Definition nmeta : Z := 2 + nlog + ninodeblocks + nbitmap.
Definition nblocks : Z := FSSIZE - nmeta.

(** Numbers in the order of the disk. *)
Definition xshort (x : Z) : Z := le_val [u8 x; u8 (Z.shiftr x 8)].
Definition xint (x : Z) : Z := le_val [u8 x; u8 (Z.shiftr x 8); u8 (Z.shiftr x 16); u8 (Z.shiftr x 24)].

Definition sb : superblock :=
  Superblock FSMAGIC (xint FSSIZE) (xint nblocks) (xint NINODES) (xint nlog) (xint 2) (xint (2 + nlog))
    (xint (2 + nlog + ninodeblocks)).

(** [memmove(buf, &sb, sizeof(sb))] *)
Definition sb_bytes (sb : superblock) : list Z :=
  concat (le_bytes 4 <$> [sb_magic sb; sb_size sb; sb_nblocks sb; sb_ninodes sb; sb_nlog sb; sb_logstart sb;
    sb_inodestart sb; sb_bmapstart sb]).

Section mkfs.
Context `{Host}.

(** ** Sectors *)

Definition host_access : MK bool :=
  fun s => Done (inr (host_io (m_ios s))) (set_m_ios (S (m_ios s)) s).

(** A write beyond the end leaves a gap of zeroes. *)
Definition wsect (sec : Z) (buf : block) : MK unit :=
  let pos := Z.to_nat (u32 (sec * BSIZE) / BSIZE) in
  ok <~ host_access ;;
  if (ok : bool) then
    modify (fun s => set_m_img (<[pos := buf]> (m_img s ++ replicate (S pos - length (m_img s)) zero_block)) s) ;; uret tt
  else die.

Definition rsect (sec : Z) : MK block :=
  let pos := Z.to_nat (u32 (sec * BSIZE) / BSIZE) in
  ok <~ host_access ;;
  img <- Prelude.gets m_img ;;
  match img !! pos with
  | Some d => if (ok : bool) then uret d else die
  | None => die
  end.

(** ** Inodes *)

Definition blank (inum : Z) : inode := set_i_dev ROOTDEV (set_i_inum inum inode0).

Definition winode (inum : Z) (ip : inode) : MK unit :=
  let bn := IBLOCK inum sb in
  buf <~ rsect bn ;;
  wsect bn (dinode_put inum ip buf).

Definition rinode (inum : Z) : MK inode :=
  buf <~ rsect (IBLOCK inum sb) ;;
  uret (dinode_load inum buf (blank inum)).

Definition ialloc (type : Z) : MK Z :=
  inum <- Prelude.gets freeinode ;;
  modify (set_freeinode (u32 (inum + 1))) ;;
  let din := set_i_size (xint 0) (set_i_nlink (xshort 1) (set_i_type (xshort type) (blank inum))) in
  winode inum din ;!
  uret inum.

(** [freeblock++] *)
Definition next_block : MK Z :=
  b <- Prelude.gets freeblock ;;
  modify (set_freeblock (u32 (b + 1))) ;;
  uret b.

(** [buf[i/8] | (0x1 << (i%8))] for the first [used] bits. *)
Definition bitmap (used : Z) : block := foldl (fun buf i => bit_set i buf) zero_block (upto used).

Definition balloc (used : Z) : MK unit :=
  assert (used <? BSIZE * 8) ;!
  wsect (sb_bmapstart sb) (bitmap used).

Definition addr (din : inode) (k : Z) : Z := xint (i_addrs din !!! Z.to_nat k).
Definition set_addr (k a : Z) (din : inode) : inode := set_i_addrs (<[Z.to_nat k := xint a]> (i_addrs din)) din.

(** The block of part [fbn], allocated if there is none yet. *)
Definition iappend_block (din : inode) (fbn : Z) : MK (inode * Z) :=
  if fbn <? NDIRECT then
    din <~ (if addr din fbn =? 0 then b <~ next_block ;; uret (set_addr fbn b din) else uret din) ;;
    uret (din, addr din fbn)
  else
    din <~ (if addr din NDIRECT =? 0 then b <~ next_block ;; uret (set_addr NDIRECT b din) else uret din) ;;
    indirect <~ rsect (addr din NDIRECT) ;;
    let k := 4 * (fbn - NDIRECT) in
    indirect <~
      (if get_u32 k indirect =? 0 then
         b <~ next_block ;;
         let indirect := put_32 k (xint b) indirect in
         wsect (addr din NDIRECT) indirect ;!
         uret indirect
       else uret indirect) ;;
    uret (din, xint (get_u32 k indirect)).

Definition iappend (inum : Z) (xp : list Z) (n : Z) : MK unit :=
  din <~ rinode inum ;;
  let off := xint (i_size din) in
  r <~ uloop (Z.to_nat (n / BSIZE + 3)) (fun '(n, off, p, din) =>
    if 0 <? n then
      let fbn := off / BSIZE in
      assert (fbn <? MAXFILE) ;!
      r <~ iappend_block din fbn ;;
      let '(din, x) := r in
      let n1 := Z.min n (u32 ((fbn + 1) * BSIZE - off)) in
      buf <~ rsect x ;;
      wsect x (splice (off - fbn * BSIZE) (take (Z.to_nat n1) p) buf) ;!
      uret (inl (n - n1, u32 (off + n1), drop (Z.to_nat n1) p, din))
    else uret (inr (off, din))) (n, off, xp, din) ;;
  let '(off, din) := r in
  winode inum (set_i_size (xint off) din).

(** ** main *)

(** [bzero(&de, sizeof(de)); de.inum = ...; strncpy(de.name, name, DIRSIZ)]; [strcpy] of a short name does the same. *)
Definition dirent (inum : Z) (name : list Z) : list Z :=
  put_16 0 (xshort inum)
    (splice 2 (take (Z.to_nat DIRSIZ) (cstring name ++ replicate (Z.to_nat DIRSIZ) 0)) (replicate (Z.to_nat sizeof_dirent) 0)).

Definition append_entry (dir inum : Z) (name : list Z) : MK unit := iappend dir (dirent inum name) sizeof_dirent.

(** The name without "user/". *)
Definition shortname (arg : list Z) : list Z :=
  if decide (take 5 (cstring arg) = bytes_of_string "user/") then drop 5 (cstring arg) else cstring arg.

(** [read(fd, buf, sizeof(buf))] of a file with [rest] left. *)
Definition read_file (rest : list Z) : MK (option (list Z)) :=
  fun s =>
    Done (inr ((fun c => take (Nat.min (Z.to_nat BSIZE) (S c)) rest) <$> host_read (m_reads s)))
      (set_m_reads (S (m_reads s)) s).

Definition copy_file (inum : Z) (content : list Z) : MK unit :=
  uloop (S (length content)) (fun rest =>
    r <~ read_file rest ;;
    match r with
    | Some (c :: cs) =>
        let buf := c :: cs in
        iappend inum buf (Z.of_nat (length buf)) ;!
        uret (inl (drop (length buf) rest))
    | _ => uret (inr tt)
    end) content.

(** [index(shortname, '/') == 0] *)
Definition no_slash (name : list Z) : bool := forallb (fun c => negb (c =? 47)) name.

Definition add_file (rootino : Z) (arg : list Z) : MK unit :=
  let short := shortname arg in
  assert (no_slash short) ;!
  match host_file (cstring arg) with
  | None => die
  | Some content =>
      let short := if hd 0 short =? 95 then tail short else short in
      inum <~ ialloc T_FILE ;;
      append_entry rootino inum short ;!
      copy_file inum content
  end.

Definition main (argv : list (list Z)) : MK unit :=
  match argv with
  | _ :: _ :: files =>
      if negb host_image then die
      else
        modify (set_m_img []) ;;
        modify (set_freeblock nmeta) ;;
        uiter (upto FSSIZE) (fun i => wsect i zero_block) ;!
        wsect 1 (splice 0 (sb_bytes sb) zero_block) ;!
        rootino <~ ialloc T_DIR ;;
        assert (rootino =? ROOTINO) ;!
        append_entry rootino rootino (bytes_of_string ".") ;!
        append_entry rootino rootino (bytes_of_string "..") ;!
        uiter files (add_file rootino) ;!
        din <~ rinode rootino ;;
        let off := xint (i_size din) in
        let off := u32 ((off / BSIZE + 1) * BSIZE) in
        winode rootino (set_i_size (xint off) din) ;!
        used <- Prelude.gets freeblock ;;
        balloc used ;!
        stop (Exit 0)
  | _ => stop (Exit 1)
  end.

(** [freeinode] is 1 when the program starts. *)
Definition start : mkfs := Mk [] 1 0 0 0.

End mkfs.
End Mkfs.
