(* ===== verification/MkfsSpec.v ===== *)
(** * What mkfs builds

    The image of mkfs/mkfs.c is a file system in order for the kernel: the
    bitmap is right, no block is used twice, and the kernel reads every file
    as it was on the host. *)

From S2P Require Import Prelude Params Memory Block State Bio BioSpec Log LogSpec Fs FsSpec FsBlocks FsContent FsFile FsWrite User Mkfs.

Module MkfsSpec.
Import Mkfs.

(** ** Numbers *)

Lemma le_val_4 x : 0 <= x < 2 ^ 32 -> le_val [u8 x; u8 (Z.shiftr x 8); u8 (Z.shiftr x 16); u8 (Z.shiftr x 24)] = x.
Proof.
  intros Hx. unfold uwrap. rewrite !Z.shiftr_div_pow2 by lia. cbn [le_val]. change (2 ^ 8) with 256 in *.
  change (2 ^ 16) with 65536. change (2 ^ 24) with 16777216. Z.div_mod_to_equations. lia.
Qed.

Lemma xint_id x : 0 <= x < 2 ^ 32 -> xint x = x.
Proof. apply le_val_4. Qed.

Lemma xshort_id x : 0 <= x < 2 ^ 16 -> xshort x = x.
Proof.
  intros Hx. unfold xshort, uwrap. rewrite !Z.shiftr_div_pow2 by lia. cbn [le_val]. change (2 ^ 8) with 256 in *.
  Z.div_mod_to_equations. lia.
Qed.

(** ** The bitmap *)

Lemma bitmap_succ n : 0 <= n -> bitmap (n + 1) = bit_set n (bitmap n).
Proof. intros Hn. unfold bitmap. by rewrite upto_snoc, foldl_snoc. Qed.

Lemma bitmap_length n : 0 <= n -> Z.of_nat (length (bitmap n)) = BSIZE.
Proof.
  intros Hn. pattern n. apply natlike_ind; [by vm_compute| |done].
  intros x Hx IH. unfold Z.succ. by rewrite bitmap_succ, bit_set_length.
Qed.

Lemma bitmap_used n b : 0 <= n <= BPB -> 0 <= b < BPB -> bit_used b (bitmap n) = (b <? n).
Proof.
  intros [Hn Hle] Hb. revert Hle. pattern n. apply natlike_ind; [| |done]; clear n Hn.
  - intros _. replace (b <? 0) with false by lia. unfold bit_used, bit_byte. change (bitmap 0) with zero_block.
    unfold zero_block. rewrite lookup_total_replicate_2; [done|]. change BPB with 8192 in Hb. unfold BSIZE. Z.div_mod_to_equations. lia.
  - intros n Hn IH Hle. unfold Z.succ in *. rewrite bitmap_succ, bit_used_set by (try rewrite bitmap_length; change BPB with 8192 in *; unfold BSIZE; lia).
    rewrite IH by lia. destruct (decide (b = n)); lia.
Qed.

(** ** The image *)

(** The image with [V] in its blocks, the bitmap as it will be written at the end. *)
Record built (s : mkfs) (V : Z -> block) : Prop := {
  bu_length : length (m_img s) = Z.to_nat FSSIZE;
  bu_sees : forall b, 0 <= b < FSSIZE -> b <> 45 -> m_img s !! Z.to_nat b = Some (V b);
  bu_bitmap : V 45 = bitmap (freeblock s);
  bu_block : forall b, 0 <= b < FSSIZE -> Z.of_nat (length (V b)) = BSIZE;
  bu_range : nmeta <= freeblock s <= FSSIZE;
  bu_free : forall b, freeblock s <= b < FSSIZE -> V b = zero_block;
}.

Lemma sb_eq : sb = Superblock FSMAGIC 2000 1954 200 30 2 32 45.
Proof. by vm_compute. Qed.

Lemma BBLOCK_eq b : 0 <= b < FSSIZE -> BBLOCK b sb = 45 /\ b mod BPB = b.
Proof.
  intros Hb. unfold BBLOCK. rewrite sb_eq. cbn [sb_bmapstart]. change BPB with 8192. unfold FSSIZE in Hb.
  rewrite Z.div_small, Z.mod_small by lia. done.
Qed.

Lemma IBLOCK_eq inum : 0 <= inum < NINODES -> 32 <= IBLOCK inum sb < 45.
Proof.
  intros Hi. unfold IBLOCK. rewrite sb_eq. cbn [sb_inodestart]. change IPB with 16. unfold NINODES in Hi.
  rewrite uwrap_small; Z.div_mod_to_equations; lia.
Qed.

Section built.
Context (s : mkfs) (V : Z -> block) (Hb : built s V).

Lemma built_used b : 0 <= b < FSSIZE -> used sb V b = (b <? freeblock s).
Proof using Hb.
  intros Hr. unfold used. destruct (BBLOCK_eq b Hr) as [-> ->]. rewrite (bu_bitmap _ _ Hb).
  pose proof (bu_range _ _ Hb). apply bitmap_used; change BPB with 8192; change nmeta with 46 in *; unfold FSSIZE in *; lia.
Qed.

Lemma built_fs ib : 32 <= ib < 45 -> fs_ok 2 sb ib V.
Proof using Hb.
  intros Hi. pose proof (bu_range _ _ Hb) as Hr. change nmeta with 46 in Hr. change (sb_size sb) with FSSIZE.
  assert (Hlog : forall b, 32 <= b < FSSIZE -> loggable 2 b).
  { intros b Hbb. unfold loggable, home, LOGSIZE, MAXOPBLOCKS, FSSIZE in *. lia. }
  constructor; change (sb_size sb) with FSSIZE.
  - intros b Hbb. destruct (BBLOCK_eq b Hbb) as [-> _]. split; [apply Hlog; unfold FSSIZE; lia|]. apply (bu_block _ _ Hb). unfold FSSIZE. lia.
  - by vm_compute.
  - by vm_compute.
  - intros b Hbb Hu. rewrite built_used in Hu by done. split_and!; [lia|apply Hlog; lia|]. split; [lia|].
    change (sb_size sb) with FSSIZE. intros c Hc. destruct (BBLOCK_eq c Hc) as [-> _]. lia.
  - split; [apply Hlog; unfold FSSIZE; lia|]. intros c Hc. destruct (BBLOCK_eq c Hc) as [-> _]. lia.
Qed.

Lemma built_first : freeblock s < FSSIZE -> first_free sb V (freeblock s).
Proof using Hb.
  intros Hlt. pose proof (bu_range _ _ Hb) as Hr. change nmeta with 46 in Hr. change (first_free sb V) with (fun b =>
    0 <= b < FSSIZE /\ used sb V b = false /\ forall c, 0 <= c < b -> used sb V c = true). cbv beta. split_and!; [lia|lia| |].
  - rewrite built_used; lia.
  - intros c Hc. rewrite built_used by lia. lia.
Qed.
End built.

(** ** Sectors *)

(** The accesses to the image succeed. *)
Class GoodHost `{Host} := good_io : forall k, host_io k = true.

(** Everything but the blocks and their number is as it was. *)
Definition same_rest (s s' : mkfs) : Prop := freeinode s' = freeinode s /\ m_reads s' = m_reads s.

Lemma same_rest_refl s : same_rest s s.
Proof. done. Qed.

Lemma same_rest_trans s1 s2 s3 : same_rest s1 s2 -> same_rest s2 s3 -> same_rest s1 s3.
Proof. unfold same_rest. intros [-> ->] [-> ->]. done. Qed.

#[local] Hint Resolve same_rest_refl same_rest_trans : core.

Lemma built_ext s s' V : m_img s' = m_img s -> freeblock s' = freeblock s -> built s V -> built s' V.
Proof. intros E1 E2 [B1 B2 B3 B4 B5 B6]. constructor; rewrite ?E1, ?E2; done. Qed.

Lemma sector_pos b : 0 <= b < FSSIZE -> Z.to_nat (u32 (b * BSIZE) / BSIZE) = Z.to_nat b.
Proof. intros Hb. unfold FSSIZE, BSIZE in *. rewrite uwrap_small by lia. f_equal. apply Z.div_mul. lia. Qed.

Section sectors.
Context `{GoodHost}.

Lemma host_access_eq s : host_access s = Done (inr true) (set_m_ios (S (m_ios s)) s).
Proof using All. unfold host_access. by rewrite good_io. Qed.

Lemma uwp_rsect b s V (Q : block -> mkfs -> Prop) : built s V -> 0 <= b < FSSIZE -> b <> 45 ->
  (forall s', built s' V -> freeblock s' = freeblock s -> same_rest s s' -> Q (V b) s') -> uwp (rsect b) s Q.
Proof using All.
  intros Hb Hr Hn HQ. eapply uwp_done; [|eapply (HQ (set_m_ios (S (m_ios s)) s)); [by apply (built_ext s)|done|done]].
  unfold rsect. rewrite sector_pos, (ubind_ok _ _ _ _ _ (host_access_eq s)) by done. unfold bind, Prelude.gets.
  cbn [obind m_img set_m_ios]. by rewrite (bu_sees _ _ Hb b Hr Hn).
Qed.

Lemma wsect_eq b d s : (Z.to_nat b < length (m_img s))%nat -> 0 <= b < FSSIZE ->
  wsect b d s = Done (inr tt) (set_m_img (<[Z.to_nat b := d]> (m_img s)) (set_m_ios (S (m_ios s)) s)).
Proof using All.
  intros Hl Hr. unfold wsect. rewrite sector_pos, (ubind_ok _ _ _ _ _ (host_access_eq s)) by done. unfold bind, modify.
  cbn [obind m_img set_m_ios]. replace (S (Z.to_nat b) - length (m_img s))%nat with 0%nat by lia. cbn [replicate]. by rewrite app_nil_r.
Qed.

(** A write to a block that is in use. *)
Lemma uwp_wsect b d s V (Q : unit -> mkfs -> Prop) : built s V -> 0 <= b < freeblock s -> b <> 45 -> Z.of_nat (length d) = BSIZE ->
  (forall s', built s' (fupd V b d) -> freeblock s' = freeblock s -> same_rest s s' -> Q tt s') -> uwp (wsect b d) s Q.
Proof using All.
  intros [B1 B2 B3 B4 B5 B6] Hr Hn Hd HQ. eapply uwp_done; [apply wsect_eq; [rewrite B1; lia|lia]|]. apply HQ; [|done|done].
  constructor; cbn [m_img set_m_img freeblock set_m_ios]; [by rewrite length_insert| | | |done|].
  - intros c Hc Hcn. destruct (decide (c = b)) as [->|Hne].
    + rewrite fupd_eq. apply list_lookup_insert_eq. lia.
    + rewrite fupd_ne, list_lookup_insert_ne by (done || lia). by apply B2.
  - by rewrite fupd_ne by (by apply not_eq_sym).
  - intros c Hc. destruct (decide (c = b)) as [->|Hne]; [by rewrite fupd_eq|rewrite fupd_ne by done; by apply B4].
  - intros c Hc. rewrite fupd_ne by lia. by apply B6.
Qed.

(** The next block is the first one that is free. *)
Lemma uwp_next_block s V (Q : Z -> mkfs -> Prop) : built s V -> freeblock s < FSSIZE ->
  (forall s', built s' (alloc_block sb V (freeblock s)) -> freeblock s' = freeblock s + 1 -> same_rest s s' -> Q (freeblock s) s') ->
  uwp next_block s Q.
Proof using.
  intros [B1 B2 B3 B4 B5 B6] Hlt HQ. change nmeta with 46 in B5. unfold FSSIZE in Hlt.
  assert (E : u32 (freeblock s + 1) = freeblock s + 1) by (apply uwrap_small; lia).
  eapply uwp_done; [reflexivity|]. apply HQ; [|done|done]. unfold alloc_block.
  destruct (BBLOCK_eq (freeblock s)) as [-> ->]; [unfold FSSIZE; lia|].
  constructor; cbn [m_img set_freeblock freeblock]; rewrite ?E; [done| | | |change nmeta with 46; unfold FSSIZE; lia|].
  - intros b Hb Hn. rewrite B2 by done. f_equal. destruct (decide (b = freeblock s)) as [->|Hne].
    + rewrite fupd_eq. by apply B6.
    + by rewrite !fupd_ne.
  - rewrite fupd_ne by lia. by rewrite fupd_eq, B3, bitmap_succ by lia.
  - intros b Hb. destruct (decide (b = freeblock s)) as [->|Hne]; [rewrite fupd_eq; by vm_compute|]. rewrite fupd_ne by done.
    destruct (decide (b = 45)) as [->|Hn]; [|rewrite fupd_ne by done; by apply B4]. rewrite fupd_eq, bit_set_length. by apply B4.
  - intros b Hb. rewrite !fupd_ne by lia. apply B6. lia.
Qed.
End sectors.

(** ** A block for the next part of a file *)

Section append.
Context `{GoodHost} (ib : Z) (Hib : 32 <= ib < 45).
Abbreviation file_ok := (file_ok 2 sb ib).

Lemma owned_range V i b : file_ok V i -> owned V i b -> 0 < b < FSSIZE.
Proof using. intros Hf Ho. pose proof (fo_own _ _ _ _ _ Hf b Ho) as [Hr _ _ _ _]. change (sb_size sb) with FSSIZE in Hr. destruct Ho as [? _]. lia. Qed.

Lemma owned_not V i b : file_ok V i -> owned V i b -> b <> 45.
Proof using.
  intros Hf Ho. pose proof (fo_own _ _ _ _ _ Hf b Ho) as [_ _ _ [_ Hn] _]. specialize (Hn 0). rewrite (proj1 (BBLOCK_eq 0 ltac:(unfold FSSIZE; lia))) in Hn.
  apply Hn. by vm_compute.
Qed.

Lemma owned_used s V i b : built s V -> file_ok V i -> owned V i b -> b < freeblock s.
Proof using.
  intros Hb Hf Ho. pose proof (owned_range _ _ _ Hf Ho). pose proof (fo_own _ _ _ _ _ Hf b Ho) as [_ Hu _ _ _].
  rewrite (built_used s V Hb) in Hu by lia. lia.
Qed.

Lemma addr_eq V i k : file_ok V i -> 0 <= k <= NDIRECT -> addr i k = addr_of i k.
Proof using.
  intros Hf Hk. unfold addr. fold (addr_of i k). apply xint_id. destruct (decide (addr_of i k = 0)) as [->|Hn]; [lia|].
  assert (Ho : owned V i (addr_of i k)).
  { destruct (decide (k = NDIRECT)) as [->|Hne]; [by apply owned_iblock|].
    assert (E : fblock V i k = addr_of i k) by (unfold fblock; by replace (k <? NDIRECT) with true by lia).
    rewrite <-E. apply owned_fblock; [change MAXFILE with 268; unfold NDIRECT in *; lia|by rewrite E]. }
  pose proof (owned_range _ _ _ Hf Ho). unfold FSSIZE in *. lia.
Qed.

Lemma set_addr_eq k a i : 0 <= a < FSSIZE -> set_addr k a i = with_addr i k a.
Proof using. intros Ha. unfold set_addr, with_addr. rewrite xint_id; [done|]. unfold FSSIZE in Ha. lia. Qed.

(** The file with its indirect block. *)
Definition indirect_step (din : inode) : MK inode :=
  if addr din NDIRECT =? 0 then b <~ next_block ;; uret (set_addr NDIRECT b din) else uret din.

Lemma uwp_indirect_step s V i (Q : inode -> mkfs -> Prop) : built s V -> file_ok V i -> freeblock s + b2z (iblock i =? 0) <= FSSIZE ->
  (forall V1 i1 s1, built s1 V1 -> file_ok V1 i1 -> with_indirect ib V i V1 i1 -> freeblock s1 = freeblock s + b2z (iblock i =? 0) ->
     same_rest s s1 -> (forall c, 0 <= c < freeblock s -> c <> 45 -> V1 c = V c) ->
     iblock i1 = iblock i \/ freeblock s <= iblock i1 < freeblock s1 -> Q i1 s1) ->
  uwp (indirect_step i) s Q.
Proof using All.
  intros Hb Hf Hroom HQ. unfold indirect_step. rewrite (addr_eq V) by (done || unfold NDIRECT; lia). fold (iblock i).
  destruct (Z.eqb_spec (iblock i) 0) as [E0|Hn]; cbn [b2z] in *.
  - apply uwp_bind. eapply uwp_next_block; [done|lia|]. intros s1 Hb1 Ef1 Hs1. apply uwp_ret.
    pose proof (bu_range _ _ Hb) as Hr. change nmeta with 46 in Hr. rewrite set_addr_eq by lia.
    pose proof (built_fs _ _ Hb ib Hib) as Hfs. pose proof (built_first _ _ Hb ltac:(lia)) as Hff.
    destruct (alloc_file_ok _ _ _ _ _ _ Hfs Hf Hff) as (Hf' & Ef & Hno & Ho).
    destruct (add_indirect 2 sb ib (alloc_block sb V (freeblock s)) i (freeblock s) Hf' E0) as (Hf2 & Ei & Ef2);
      [lia|done|by apply alloc_in_use|by apply alloc_new|].
    eapply HQ; [exact Hb1|exact Hf2| |done|done| |right; rewrite Ei; lia].
    + constructor; [by destruct i|rewrite Ei; lia| | |by eapply alloc_ib].
      * intros b Hbb. by rewrite Ef2, Ef.
      * intros b Hbb Hn. by apply Ho, owned_fblock.
    + intros c Hc Hn. apply alloc_other; [lia|]. by rewrite (proj1 (BBLOCK_eq (freeblock s) ltac:(lia))).
  - apply uwp_ret. eapply HQ; [exact Hb|exact Hf| |lia|done|done|by left]. constructor; try done. by destruct i.
Qed.

(** What a round does to make room. *)
Record grown (s : mkfs) (V : Z -> block) (i : inode) (bn : Z) (s' : mkfs) (V' : Z -> block) (i' : inode) (b : Z) : Prop := {
  gr_built : built s' V';
  gr_file : file_ok V' i';
  gr_mapped : mapped ib V i bn V' i' b;
  gr_new : fblock V i bn = 0 -> V' b = zero_block;
  gr_indirect : iblock i' <> 0 <-> iblock i <> 0 \/ NDIRECT <= bn;
  gr_count : freeblock s' = freeblock s + b2z (fblock V i bn =? 0) + b2z ((iblock i =? 0) && (NDIRECT <=? bn));
  gr_rest : same_rest s s';
  gr_frame : forall c, 0 <= c < freeblock s -> c <> 45 -> ~ owned V i c -> V' c = V c;
  gr_owned : forall c, owned V' i' c -> owned V i c \/ freeblock s <= c;
}.

Lemma mapped_owned V i bn V' i' b c : mapped ib V i bn V' i' b -> 0 <= bn < MAXFILE -> owned V' i' c ->
  c = b \/ c = iblock i' \/ owned V i c.
Proof using.
  intros [M1 M2 M3 M4 M5 M6] Hbn [Hc [->|(k & Hk & ->)]]; [by right; left|].
  destruct (decide (k = bn)) as [->|Hne]; [by left|]. right. right. rewrite M4 in Hc |- * by auto. by apply owned_fblock.
Qed.

Lemma uwp_direct s V i bn (Q : inode * Z -> mkfs -> Prop) : built s V -> file_ok V i -> 0 <= bn < NDIRECT ->
  freeblock s + b2z (fblock V i bn =? 0) <= FSSIZE ->
  (forall V' i' b s', grown s V i bn s' V' i' b -> Q (i', b) s') -> uwp (iappend_block i bn) s Q.
Proof using All.
  intros Hb Hf Hbn Hroom HQ. unfold iappend_block. replace (bn <? NDIRECT) with true by lia.
  assert (Ea : fblock V i bn = addr_of i bn) by (unfold fblock; by replace (bn <? NDIRECT) with true by lia).
  rewrite (addr_eq V), <-Ea by (done || lia). pose proof (bu_range _ _ Hb) as Hr. change nmeta with 46 in Hr.
  assert (HM : NDIRECT <= MAXFILE) by by vm_compute.
  destruct (Z.eqb_spec (fblock V i bn) 0) as [E0|Hn]; cbn [b2z] in Hroom.
  - apply uwp_bind, uwp_bind. eapply uwp_next_block; [done|lia|]. intros s1 Hb1 Ef1 Hs1. apply uwp_ret, uwp_ret.
    rewrite set_addr_eq by lia. pose proof (built_fs _ _ Hb ib Hib) as Hfs. pose proof (built_first _ _ Hb ltac:(lia)) as Hff.
    destruct (mapped_direct 2 sb ib V i bn (freeblock s) Hfs Hf Hff Hbn E0) as (_ & Hf' & Hm).
    rewrite (addr_eq (alloc_block sb V (freeblock s))), addr_of_with, decide_True by (done || lia || apply Hf).
    assert (Ei : iblock (with_addr i bn (freeblock s)) = iblock i).
    { unfold iblock. rewrite addr_of_with by (lia || apply Hf). by rewrite decide_False by lia. }
    eapply HQ. constructor; [exact Hb1|exact Hf'|exact Hm|by intros _; apply alloc_new| | |done| |].
    + rewrite Ei. split; [by left|intros [?|?]; [done|lia]].
    + rewrite E0. replace (NDIRECT <=? bn) with false by lia. rewrite andb_false_r. cbn [b2z Z.eqb]. lia.
    + intros c Hc Hn _. apply alloc_other; [lia|]. by rewrite (proj1 (BBLOCK_eq (freeblock s) ltac:(lia))).
    + intros c Hc. destruct (mapped_owned _ _ _ _ _ _ _ Hm ltac:(lia) Hc) as [->|[->|Ho]]; [right; lia| |by left].
      left. rewrite Ei in Hc |- *. destruct Hc. by apply owned_iblock.
  - apply uwp_bind, uwp_ret, uwp_ret. rewrite (addr_eq V), <-Ea by (done || lia). eapply HQ.
    constructor; [exact Hb|exact Hf|by apply mapped_same|done| | |done|done|by left].
    + split; [by left|intros [?|?]; [done|lia]].
    + rewrite (proj2 (Z.eqb_neq _ 0) Hn). replace (NDIRECT <=? bn) with false by lia. rewrite andb_false_r. cbn [b2z]. lia.
Qed.

Lemma b2z_bound c : 0 <= b2z c <= 1.
Proof using. destruct c; simpl; lia. Qed.

Lemma entry_eq V i bn : iblock i <> 0 -> NDIRECT <= bn -> fblock V i bn = get_u32 (4 * (bn - NDIRECT)) (V (iblock i)).
Proof using. intros Hi Hbn. unfold fblock. replace (bn <? NDIRECT) with false by lia. by rewrite (proj2 (Z.eqb_neq _ 0) Hi). Qed.

Lemma uwp_indirect s V i bn (Q : inode * Z -> mkfs -> Prop) : built s V -> file_ok V i -> NDIRECT <= bn < MAXFILE ->
  freeblock s + b2z (fblock V i bn =? 0) + b2z (iblock i =? 0) <= FSSIZE ->
  (forall V' i' b s', grown s V i bn s' V' i' b -> Q (i', b) s') -> uwp (iappend_block i bn) s Q.
Proof using All.
  intros Hb Hf Hbn Hroom HQ. unfold iappend_block. replace (bn <? NDIRECT) with false by lia. fold (indirect_step i).
  assert (Hbn' : 0 <= bn < MAXFILE) by (unfold NDIRECT in *; lia).
  pose proof (b2z_bound (fblock V i bn =? 0)). pose proof (b2z_bound (iblock i =? 0)).
  apply uwp_bind. eapply uwp_indirect_step; [done|done|lia|]. intros V1 i1 s1 Hb1 Hf1 Hwi Ef1 Hs1 Hfr1 Hi1.
  pose proof (wi_nonzero _ _ _ _ _ Hwi) as Hnz. pose proof (owned_iblock V1 i1 Hnz) as Hoi.
  pose proof (owned_range _ _ _ Hf1 Hoi) as Hri. pose proof (owned_not _ _ _ Hf1 Hoi) as Hni. pose proof (owned_used _ _ _ _ Hb1 Hf1 Hoi) as Hui.
  assert (Ead : addr i1 NDIRECT = iblock i1) by (apply (addr_eq V1); [done|unfold NDIRECT; lia]). rewrite !Ead.
  apply uwp_bind. eapply uwp_rsect; [exact Hb1|lia|done|]. intros s2 Hb2 Ef2 Hs2. rewrite <-(entry_eq V1) by (done || lia).
  assert (Eold : fblock V1 i1 bn = fblock V i bn) by by apply (wi_block _ _ _ _ _ Hwi). rewrite Eold in *.
  assert (Hind : iblock i1 <> 0 <-> iblock i <> 0 \/ NDIRECT <= bn) by (split; [right; lia|done]).
  assert (Hend : forall V' s' b, built s' V' -> file_ok V' i1 -> mapped ib V1 i1 bn V' i1 b -> (fblock V i bn = 0 -> V' b = zero_block) ->
    freeblock s' = freeblock s1 + b2z (fblock V i bn =? 0) -> same_rest s2 s' ->
    (forall c, 0 <= c < freeblock s1 -> c <> 45 -> c <> iblock i1 -> V' c = V1 c) -> (b = fblock V i bn \/ freeblock s1 <= b) -> Q (i1, b) s').
  { intros V' s' b Hb' Hf' Hm Hnew Ec Hs' Hfr Hbb. eapply HQ. constructor; [exact Hb'|exact Hf'|by eapply mapped_trans|done|exact Hind| |eauto| |].
    - rewrite Ec, Ef1. replace (NDIRECT <=? bn) with true by lia. rewrite andb_true_r. lia.
    - intros c Hc Hcn Ho.
      rewrite Hfr; [by apply Hfr1|lia|done|]. intros ->. destruct Hi1 as [E|?]; [|lia]. apply Ho. rewrite E. apply owned_iblock. by rewrite <-E.
    - intros c Ho. destruct (mapped_owned _ _ _ _ _ _ _ Hm Hbn' Ho) as [->|[->|[Hc [->|(k & Hk & ->)]]]].
      + destruct Hbb as [->|?]; [|right; lia]. left. apply owned_fblock; [done|]. by destruct Ho.
      + destruct Hi1 as [E|?]; [|right; lia]. left. rewrite E. apply owned_iblock. by rewrite <-E.
      + destruct Hi1 as [E|?]; [|right; lia]. left. rewrite E. apply owned_iblock. by rewrite <-E.
      + left. rewrite (wi_block _ _ _ _ _ Hwi) in Hc |- * by done. by apply owned_fblock. }
  destruct (Z.eqb_spec (fblock V i bn) 0) as [E0|Hn]; cbn [b2z] in *.
  - apply uwp_bind, uwp_bind. pose proof (bu_range _ _ Hb2) as Hr2. change nmeta with 46 in Hr2.
    eapply uwp_next_block; [exact Hb2|lia|]. intros s3 Hb3 Ef3 Hs3. rewrite xint_id by (unfold FSSIZE in *; lia).
    destruct (mapped_entry 2 sb ib V1 i1 bn (freeblock s2) (built_fs _ _ Hb2 ib Hib) Hf1 (built_first _ _ Hb2 ltac:(lia)) Hnz Hbn ltac:(congruence))
      as (_ & Hf' & Hm & Eb).
    assert (Hlen : 4 * (bn - NDIRECT) + 4 <= Z.of_nat (length (V1 (iblock i1)))).
    { rewrite (bu_block _ _ Hb1) by lia. change MAXFILE with 268 in Hbn. unfold BSIZE, NDIRECT in *. lia. }
    apply uwp_bind. eapply uwp_wsect; [exact Hb3|lia|done| |].
    { unfold put_32. rewrite put_le_length by (lia || unfold NDIRECT in *; lia). apply (bu_block _ _ Hb1). lia. }
    intros s4 Hb4 Ef4 Hs4. apply uwp_ret, uwp_ret. unfold get_u32 at 1, put_32 at 1. rewrite get_put_same by (unfold NDIRECT in *; lia).
    rewrite Z.mod_small, xint_id by (simpl; unfold FSSIZE in *; lia).
    apply (Hend (with_entry (alloc_block sb V1 (freeblock s2)) i1 bn (freeblock s2))); [|exact Hf'|exact Hm| |lia|eauto| |right; lia].
    + unfold with_entry. by rewrite Eb.
    + intros _. unfold with_entry. rewrite fupd_ne by lia. apply alloc_new.
    + intros c Hc Hcn Hci. unfold with_entry. rewrite fupd_ne by done. apply alloc_other; [lia|].
      by rewrite (proj1 (BBLOCK_eq (freeblock s2) ltac:(lia))).
  - apply uwp_bind, uwp_ret, uwp_ret. rewrite <-(entry_eq V1), Eold by (done || lia).
    assert (Ho : owned V1 i1 (fblock V i bn)) by (rewrite <-Eold; apply owned_fblock; [done|by rewrite Eold]).
    pose proof (owned_range _ _ _ Hf1 Ho). rewrite xint_id by (unfold FSSIZE in *; lia).
    apply (Hend V1); [done|done|rewrite <-Eold; apply mapped_same; by rewrite Eold|done|lia|done|done|by left].
Qed.

Lemma uwp_iappend_block s V i bn (Q : inode * Z -> mkfs -> Prop) : built s V -> file_ok V i -> 0 <= bn < MAXFILE ->
  freeblock s + b2z (fblock V i bn =? 0) + b2z ((iblock i =? 0) && (NDIRECT <=? bn)) <= FSSIZE ->
  (forall V' i' b s', grown s V i bn s' V' i' b -> Q (i', b) s') -> uwp (iappend_block i bn) s Q.
Proof using All.
  intros Hb Hf Hbn Hroom HQ. destruct (Z.leb_spec NDIRECT bn) as [Hd|Hd].
  - rewrite andb_true_r in Hroom. apply uwp_indirect with V; [done|done|lia|done|done].
  - rewrite andb_false_r in Hroom. cbn [b2z] in Hroom. apply uwp_direct with V; [done|done|lia|lia|done].
Qed.

(** ** The file as it grows *)

(** The file has the bytes [c], and exactly the blocks they need; the rest of its last block is zero. *)
Record stored (V : Z -> block) (i : inode) (c : list Z) : Prop := {
  st_ok : file_ok V i;
  st_len : Z.of_nat (length c) <= MAXFILE * BSIZE;
  st_map : forall bn, 0 <= bn < MAXFILE -> fblock V i bn <> 0 <-> bn * BSIZE < Z.of_nat (length c);
  st_indirect : iblock i <> 0 <-> NDIRECT * BSIZE < Z.of_nat (length c);
  st_bytes : forall x, 0 <= x < MAXFILE * BSIZE -> fblock V i (x / BSIZE) <> 0 -> fbyte V i x = default 0 (c !! Z.to_nat x);
  st_data : forall b, owned V i b -> nmeta <= b;
}.

(** The number of blocks for [n] bytes. *)
Definition cost (n : Z) : Z := (n + BSIZE - 1) / BSIZE + b2z (NDIRECT * BSIZE <? n).

Lemma part_range x : 0 <= x < MAXFILE * BSIZE -> 0 <= x / BSIZE < MAXFILE.
Proof using. intros Hx. unfold BSIZE in *. split; [apply Z.div_pos; lia|apply Z.div_lt_upper_bound; lia]. Qed.

Lemma file_chunk_stored V1 i1 c V2 i2 b chunk : let o := Z.of_nat (length c) in let m := Z.of_nat (length chunk) in
  stored V1 i1 c -> 0 < m -> o mod BSIZE + m <= BSIZE -> o + m <= MAXFILE * BSIZE ->
  mapped ib V1 i1 (o / BSIZE) V2 i2 b -> file_ok V2 i2 -> (fblock V1 i1 (o / BSIZE) = 0 -> V2 b = zero_block) ->
  (iblock i2 <> 0 <-> iblock i1 <> 0 \/ NDIRECT <= o / BSIZE) -> (forall x, owned V2 i2 x -> nmeta <= x) ->
  let d := splice (o mod BSIZE) chunk (V2 b) in
  stored (fupd V2 b d) i2 (c ++ chunk) /\ Z.of_nat (length d) = BSIZE /\ owned V2 i2 b.
Proof using.
  intros o m Hst Hm Hle Hmax [M1 M2 M3 M4 M5 M6] Hf Hnew Hind Hdat d.
  assert (Hbn : 0 <= o / BSIZE < MAXFILE) by (apply part_range; lia).
  assert (Hown : owned V2 i2 b) by (rewrite <-M3; apply owned_fblock; [done|by rewrite M3]).
  pose proof (fo_own _ _ _ _ _ Hf b Hown) as [_ _ _ _ Hlb].
  pose proof (Z.mod_pos_bound o BSIZE ltac:(by compute)) as Hmod.
  assert (Hld : Z.of_nat (length d) = BSIZE) by (unfold d; rewrite splice_length; lia).
  assert (Hbi : b <> iblock i2) by (rewrite <-M3; apply (fo_ind _ _ _ _ _ Hf); [done|by rewrite M3]).
  assert (Ef : forall k, fblock (fupd V2 b d) i2 k = fblock V2 i2 k).
  { apply fblock_ext. intros _. by rewrite fupd_ne by done. }
  assert (Elen : Z.of_nat (length (c ++ chunk)) = o + m) by (rewrite length_app; lia).
  split_and!; [|done|done]. constructor; [by apply write_owned|lia| | | |].
  - intros k Hk. rewrite Ef, Elen. destruct (decide (k = o / BSIZE)) as [->|Hne].
    + rewrite M3. split; [|done]. intros _. unfold BSIZE in *. Z.div_mod_to_equations. lia.
    + rewrite M4 by auto. rewrite (st_map _ _ _ Hst) by done. fold o. unfold BSIZE in *. Z.div_mod_to_equations. lia.
  - rewrite Hind, (st_indirect _ _ _ Hst), Elen. fold o. unfold BSIZE, NDIRECT in *. Z.div_mod_to_equations. lia.
  - intros x Hx. rewrite Ef. intros Hn. unfold fbyte. rewrite Ef. pose proof (part_range x Hx) as Hxb.
    destruct (chunk_place o m x) as (P1 & P2 & P3 & P4); [lia|done|done|lia|].
    destruct (decide (x / BSIZE = o / BSIZE)) as [Ek|Nk].
    + rewrite Ek, M3, fupd_eq. specialize (P2 Ek). specialize (P3 Ek). rewrite list_lookup_total_alt. unfold d.
      rewrite lookup_splice by lia. destruct (decide (o <= x < o + m)) as [Hc|Hc].
      * rewrite decide_True by lia. rewrite lookup_app_r by lia.
        replace (Z.to_nat (x mod BSIZE) - Z.to_nat (o mod BSIZE))%nat with (Z.to_nat x - length c)%nat by lia.
        destruct (lookup_lt_is_Some_2 chunk (Z.to_nat x - length c)) as [y ->]; [lia|]. done.
      * rewrite decide_False by lia. rewrite <-list_lookup_total_alt.
        assert (Ec : (c ++ chunk) !! Z.to_nat x = c !! Z.to_nat x).
        { destruct (decide (x < o)); [apply lookup_app_l; lia|]. rewrite !lookup_ge_None_2; [done|lia|rewrite length_app; lia]. }
        rewrite Ec. destruct (decide (fblock V1 i1 (o / BSIZE) = 0)) as [E0|E0].
        { rewrite Hnew by done. unfold zero_block. rewrite lookup_total_replicate_2 by lia.
          assert (Ho : ~ (o / BSIZE * BSIZE < o)) by (intros ?; by apply (st_map _ _ _ Hst (o / BSIZE) Hbn)).
          rewrite lookup_ge_None_2; [done|]. unfold BSIZE in *. Z.div_mod_to_equations. lia. }
        rewrite <-(st_bytes _ _ _ Hst) by (done || by rewrite Ek). unfold fbyte. rewrite Ek. rewrite <-M3 at 1. rewrite M4 by auto. by rewrite M5.
    + rewrite M4 in Hn by auto. assert (Hx' : x < o).
      { pose proof (proj1 (st_map _ _ _ Hst _ Hxb) Hn). unfold o, BSIZE in *. Z.div_mod_to_equations. lia. }
      rewrite lookup_app_l by lia. rewrite <-(st_bytes _ _ _ Hst) by done. unfold fbyte. rewrite M4 by auto. rewrite fupd_ne.
      * by rewrite M5.
      * intros E. apply Nk. apply (fo_inj _ _ _ _ _ Hf); [done|done|by rewrite M3, M4 by auto|by rewrite M4 by auto].
  - intros x Hx. apply Hdat. by apply (owned_ext V2 (fupd V2 b d)).
Qed.

Lemma cost_chunk V i c m : stored V i c -> let o := Z.of_nat (length c) in 0 < m -> o mod BSIZE + m <= BSIZE -> o + m <= MAXFILE * BSIZE ->
  b2z (fblock V i (o / BSIZE) =? 0) + b2z ((iblock i =? 0) && (NDIRECT <=? o / BSIZE)) = cost (o + m) - cost o.
Proof using.
  intros Hst o Hm Hle Hmax. assert (Hbn : 0 <= o / BSIZE < MAXFILE) by (apply part_range; lia).
  pose proof (st_map _ _ _ Hst _ Hbn) as H1. pose proof (st_indirect _ _ _ Hst) as H2. fold o in H1, H2. unfold cost.
  destruct (Z.eqb_spec (fblock V i (o / BSIZE)) 0), (Z.eqb_spec (iblock i) 0), (Z.leb_spec NDIRECT (o / BSIZE)),
    (Z.ltb_spec (NDIRECT * BSIZE) (o + m)), (Z.ltb_spec (NDIRECT * BSIZE) o);
    cbn [b2z andb]; unfold BSIZE, NDIRECT in *; Z.div_mod_to_equations; lia.
Qed.

(** ** iappend, up to the inode *)

Record appended (s : mkfs) (V : Z -> block) (i : inode) (c : list Z) (s' : mkfs) (V' : Z -> block) (i' : inode) (c' : list Z) : Prop := {
  ap_built : built s' V';
  ap_stored : stored V' i' c';
  ap_inode : i' = set_i_addrs (i_addrs i') i;
  ap_count : freeblock s' = freeblock s + cost (Z.of_nat (length c')) - cost (Z.of_nat (length c));
  ap_more : freeblock s <= freeblock s';
  ap_rest : same_rest s s';
  ap_frame : forall b, 0 <= b < freeblock s -> b <> 45 -> ~ owned V i b -> V' b = V b;
  ap_owned : forall b, owned V' i' b -> owned V i b \/ freeblock s <= b;
}.

Lemma appended_refl s V i c : built s V -> stored V i c -> appended s V i c s V i c.
Proof using. intros Hb Hs. constructor; try done; [by destruct i|lia|by left]. Qed.

Lemma appended_trans s V i c s1 V1 i1 c1 s2 V2 i2 c2 :
  appended s V i c s1 V1 i1 c1 -> appended s1 V1 i1 c1 s2 V2 i2 c2 -> appended s V i c s2 V2 i2 c2.
Proof using.
  intros [A1 A2 A3 A4 A5 A6 A7 A8] [B1 B2 B3 B4 B5 B6 B7 B8]. constructor; [done|done| |lia|lia|eauto| |].
  - rewrite B3, A3. by destruct i.
  - intros b Hb Hn Ho. rewrite B7; [by apply A7|lia|done|]. intros [?|?]%A8; [done|lia].
  - intros b [Hb|Hb]%B8; [by apply A8|right; lia].
Qed.

(** One round of the loop. *)
Definition append_round : Z * Z * list Z * inode -> MK ((Z * Z * list Z * inode) + (Z * inode)) := fun '(n, off, p, din) =>
  if 0 <? n then
    let fbn := off / BSIZE in
    assert (fbn <? MAXFILE) ;!
    r <~ iappend_block din fbn ;;
    let '(din, x) := r in
    let n1 := Z.min n (u32 ((fbn + 1) * BSIZE - off)) in
    buf <~ rsect x ;;
    wsect x (splice (off - fbn * BSIZE) (take (Z.to_nat n1) p) buf) ;!
    uret (inl (n - n1, u32 (off + n1), drop (Z.to_nat n1) p, din))
  else uret (inr (off, din)).

Lemma uwp_append_round s V i c p (Q : (Z * Z * list Z * inode) + (Z * inode) -> mkfs -> Prop) :
  let o := Z.of_nat (length c) in let n := Z.of_nat (length p) in let m := Z.min n (BSIZE - o mod BSIZE) in
  built s V -> stored V i c -> 0 < n -> o + n <= MAXFILE * BSIZE -> freeblock s + cost (o + n) - cost o <= FSSIZE ->
  (forall V' i' s', appended s V i c s' V' i' (c ++ take (Z.to_nat m) p) ->
     Q (inl (n - m, o + m, drop (Z.to_nat m) p, i')) s') -> uwp (append_round (n, o, p, i)) s Q.
Proof using All.
  intros o n m Hb Hst Hn Hmax Hroom HQ. unfold append_round.
  destruct (rounds_step o n ltac:(lia) ltac:(lia)) as [Hm _]. fold m in Hm. replace (0 <? n) with true by lia.
  assert (Hbn : 0 <= o / BSIZE < MAXFILE) by (apply part_range; lia). unfold assert. replace (o / BSIZE <? MAXFILE) with true by lia.
  set (chunk := take (Z.to_nat m) p). assert (Hlc : Z.of_nat (length chunk) = m) by (unfold chunk; rewrite length_take; lia).
  assert (Hfit : o mod BSIZE + m <= BSIZE) by (unfold m; lia).
  pose proof (cost_chunk V i c m Hst ltac:(lia) Hfit ltac:(lia)) as Hcost. fold o in Hcost.
  assert (Hmono : cost (o + m) <= cost (o + n)).
  { unfold cost. destruct (Z.ltb_spec (NDIRECT * BSIZE) (o + m)), (Z.ltb_spec (NDIRECT * BSIZE) (o + n));
      cbn [b2z]; unfold BSIZE, NDIRECT in *; Z.div_mod_to_equations; lia. }
  apply uwp_bind, uwp_ret, uwp_bind. eapply uwp_iappend_block; [exact Hb|apply Hst|done|lia|].
  intros V1 i1 b s1 [G1 G2 G3 G4 G5 G6 G7 G8 G9].
  assert (HM : MAXFILE * BSIZE < 2 ^ 31) by by vm_compute.
  assert (En1 : Z.min n (u32 ((o / BSIZE + 1) * BSIZE - o)) = m).
  { unfold m. f_equal. rewrite uwrap_small; unfold BSIZE; Z.div_mod_to_equations; lia. }
  rewrite En1. replace (o - o / BSIZE * BSIZE) with (o mod BSIZE) by (unfold BSIZE; Z.div_mod_to_equations; lia). fold chunk.
  pose proof (bu_range _ _ Hb) as Hr. 
  assert (Hdat : forall x, owned V1 i1 x -> nmeta <= x).
  { intros x [Hx|Hx]%G9; [by apply (st_data _ _ _ Hst)|lia]. }
  pose proof (file_chunk_stored V i c V1 i1 b chunk Hst) as Hsc. cbv zeta in Hsc. rewrite Hlc in Hsc. fold o in Hsc.
  destruct (Hsc ltac:(lia) Hfit ltac:(lia) G3 G2 G4 G5 Hdat) as (Hst' & Hld & Hown). clear Hsc.
  pose proof (owned_used _ _ _ _ G1 G2 Hown) as Hub. pose proof (owned_range _ _ _ G2 Hown) as Hrb. pose proof (owned_not _ _ _ G2 Hown) as Hnb.
  apply uwp_bind. eapply uwp_rsect; [exact G1|lia|done|]. intros s2 Hb2 Ef2 Hs2.
  apply uwp_bind. eapply uwp_wsect; [exact Hb2|lia|done|exact Hld|]. intros s3 Hb3 Ef3 Hs3. apply uwp_ret.
  rewrite uwrap_small by lia. eapply HQ. constructor; [exact Hb3|exact Hst'|apply G3| | |eauto| |].
  - fold chunk. rewrite Ef3, Ef2, G6, length_app, Nat2Z.inj_add, Hlc. fold o. lia.
  - pose proof (b2z_bound (fblock V i (o / BSIZE) =? 0)). pose proof (b2z_bound ((iblock i =? 0) && (NDIRECT <=? o / BSIZE))). lia.
  - intros x Hx Hxn Ho. rewrite fupd_ne; [by apply G8|]. intros ->. destruct (G9 b Hown); [done|lia].
  - intros x Hx. apply G9. rewrite (owned_ext V1) in Hx; [exact Hx|]. apply fblock_ext. intros Hi. apply fupd_ne. intros E.
    apply (fo_ind _ _ _ _ _ G2 (o / BSIZE)); [done| |]; rewrite (mp_block _ _ _ _ _ _ _ G3); [apply G3|by rewrite E].
Qed.

Lemma uwp_append_loop s V i c p (Q : Z * inode -> mkfs -> Prop) :
  let o := Z.of_nat (length c) in let n := Z.of_nat (length p) in
  built s V -> stored V i c -> o + n <= MAXFILE * BSIZE -> freeblock s + cost (o + n) - cost o <= FSSIZE ->
  (forall V' i' s', appended s V i c s' V' i' (c ++ p) -> Q (o + n, i') s') ->
  uwp (uloop (Z.to_nat (n / BSIZE + 3)) append_round (n, o, p, i)) s Q.
Proof using All.
  intros o n Hb Hst Hmax Hroom HQ.
  apply (uwp_loop (fun '((k, off, q, i1) : Z * Z * list Z * inode) s1 => exists V1 c1, appended s V i c s1 V1 i1 c1 /\
      c1 ++ q = c ++ p /\ k = Z.of_nat (length q) /\ off = Z.of_nat (length c1))
    (fun '(k, off, _, _) => Z.to_nat (rounds off k))).
  - intros [[[k off] q] i1] s1 (V1 & c1 & Hap & Ecq & -> & ->).
    assert (El : Z.of_nat (length c1) + Z.of_nat (length q) = o + n).
    { unfold o, n. rewrite <-!Nat2Z.inj_add, <-!length_app. by rewrite Ecq. }
    destruct q as [|x q].
    + cbn. apply uwp_ret. rewrite app_nil_r in Ecq. subst c1. rewrite length_app.
      replace (Z.of_nat (length c + length p)) with (o + n) by lia. by eapply HQ.
    + set (q' := x :: q) in *. assert (Hq : 0 < Z.of_nat (length q')) by (unfold q'; simpl; lia). clearbody q'.
      pose proof Hap as [A1 A2 A3 A4 A5 A6 A7 A8].
      eapply (uwp_append_round s1 V1 i1 c1 q'); [done|done|done|lia| |].
      { rewrite El. fold o in A4. lia. }
      intros V2 i2 s2 Hap2.
      destruct (rounds_step (Z.of_nat (length c1)) (Z.of_nat (length q')) ltac:(lia) ltac:(lia)) as [Hm Hmu].
      set (m := Z.min _ _) in *. split; [|lia]. exists V2, (c1 ++ take (Z.to_nat m) q').
      split_and!; [by eapply appended_trans|by rewrite <-app_assoc, take_drop|rewrite length_drop; lia|].
      rewrite length_app, length_take. lia.
  - exists V, c. split_and!; [by apply appended_refl|done|done|done].
  - unfold rounds, BSIZE. destruct (Z.ltb_spec 0 n); Z.div_mod_to_equations; lia.
Qed.

(** Changes elsewhere. *)
Lemma stored_frame s' V V' i c : built s' V' -> stored V i c -> (forall b, owned V i b -> V' b = V b /\ b < freeblock s') ->
  stored V' i c /\ forall b, owned V' i b <-> owned V i b.
Proof using.
  intros Hb' Hst Ho. pose proof Hst as [S1 S2 S3 S4 S5 S6].
  assert (Ef : forall bn, fblock V' i bn = fblock V i bn).
  { apply fblock_ext. intros Hi. by apply Ho, owned_iblock. }
  assert (Eo : forall b, owned V' i b <-> owned V i b) by (intros b; by apply owned_ext).
  split; [|done]. constructor; [|done|by setoid_rewrite Ef|done| |by setoid_rewrite Eo].
  - apply (file_ok_ext 2 sb ib V); [done|done|]. intros b Hb. destruct (Ho b Hb) as [-> Hlt].
    pose proof (owned_range _ _ _ S1 Hb). split; [rewrite (built_used s' V' Hb'); lia|].
    by destruct (fo_own _ _ _ _ _ S1 b Hb).
  - intros x Hx. rewrite Ef. intros Hn. rewrite <-S5 by done. unfold fbyte. rewrite Ef.
    rewrite (proj1 (Ho _ (owned_fblock V i _ (part_range x Hx) Hn))). done.
Qed.
End append.

(** ** Inodes *)

(** The inode as the kernel loads it. *)
Definition ino (V : Z -> block) (inum : Z) : inode := dinode_load inum (V (IBLOCK inum sb)) (blank inum).

(** What is not on disk is as in a blank inode. *)
Definition on_disk (inum : Z) (i : inode) : Prop :=
  i_dev i = ROOTDEV /\ i_inum i = inum /\ i_ref i = 0 /\ i_lock i = sleeplock0 /\ i_valid i = false.

Lemma ino_on_disk V inum : on_disk inum (ino V inum).
Proof. done. Qed.

Lemma put_load inum i d : on_disk inum i -> inode_fits i -> Z.of_nat (length d) = BSIZE ->
  dinode_load inum (dinode_put inum i d) (blank inum) = i.
Proof.
  intros (E1 & E2 & E3 & E4 & E5) Hfit Hd. rewrite (proj1 (dinode_put_load inum i (blank inum) d Hfit Hd)).
  destruct i; cbn in *. by subst.
Qed.

Lemma put_load_other inum inum' i d : inode_fits i -> Z.of_nat (length d) = BSIZE -> inum' mod IPB <> inum mod IPB ->
  dinode_load inum' (dinode_put inum i d) (blank inum') = dinode_load inum' d (blank inum').
Proof. intros Hfit Hd Hn. by apply (proj2 (dinode_put_load inum i (blank inum') d Hfit Hd)). Qed.

Lemma IBLOCK_mod inum inum' : 0 <= inum < NINODES -> 0 <= inum' < NINODES -> IBLOCK inum' sb = IBLOCK inum sb ->
  inum' mod IPB = inum mod IPB -> inum' = inum.
Proof.
  intros H1 H2. unfold IBLOCK. rewrite sb_eq. cbn [sb_inodestart]. change IPB with 16. unfold NINODES in *.
  rewrite !uwrap_small by (Z.div_mod_to_equations; lia). intros. Z.div_mod_to_equations. lia.
Qed.

Lemma ino_put V inum i inum' : 0 <= inum < NINODES -> 0 <= inum' < NINODES -> on_disk inum i -> inode_fits i ->
  Z.of_nat (length (V (IBLOCK inum sb))) = BSIZE ->
  ino (fupd V (IBLOCK inum sb) (dinode_put inum i (V (IBLOCK inum sb)))) inum' = if decide (inum' = inum) then i else ino V inum'.
Proof.
  intros H1 H2 Hd Hfit Hl. unfold ino. destruct (decide (inum' = inum)) as [->|Hne].
  - rewrite fupd_eq. by apply put_load.
  - destruct (decide (IBLOCK inum' sb = IBLOCK inum sb)) as [E|E]; [|by rewrite fupd_ne].
    rewrite E, fupd_eq. apply put_load_other; [done|done|]. intros Em. apply Hne. by apply IBLOCK_mod.
Qed.

Lemma stored_fits V ib i c z : stored ib V i c -> - 2 ^ 15 <= i_type i < 2 ^ 15 -> - 2 ^ 15 <= i_nlink i < 2 ^ 15 ->
  i_major i = 0 -> i_minor i = 0 -> 0 <= z < 2 ^ 32 -> inode_fits (set_i_size z i).
Proof.
  intros [S1 _ _ _ _ _] Ht Hn Ea Ei Hz. constructor; cbn; [done|rewrite Ea; lia|rewrite Ei; lia|done|done|apply S1|].
  apply Forall_lookup_2. intros k a Hk. pose proof (lookup_lt_Some _ _ _ Hk) as Hlt. rewrite (fo_addrs _ _ _ _ _ S1) in Hlt.
  assert (E : addr_of i (Z.of_nat k) = a) by (unfold addr_of; rewrite Nat2Z.id; by apply list_lookup_total_correct).
  destruct (decide (a = 0)) as [->|Hna]; [lia|]. assert (Ho : owned V i a).
  { destruct (decide (Z.of_nat k = NDIRECT)) as [Ek|Nk]; [rewrite <-E, Ek; apply owned_iblock; unfold iblock; by rewrite <-Ek, E|].
    assert (Ef : fblock V i (Z.of_nat k) = a) by (unfold fblock; replace (Z.of_nat k <? NDIRECT) with true by (unfold NDIRECT in *; lia); done).
    rewrite <-Ef. apply owned_fblock; [change MAXFILE with 268; lia|by rewrite Ef]. }
  pose proof (owned_range ib V i a S1 Ho). unfold FSSIZE in *. lia.
Qed.

Section inodes.
Context `{GoodHost}.

Lemma uwp_rinode inum s V (Q : inode -> mkfs -> Prop) : built s V -> 0 <= inum < NINODES ->
  (forall s', built s' V -> freeblock s' = freeblock s -> same_rest s s' -> Q (ino V inum) s') -> uwp (rinode inum) s Q.
Proof using All.
  intros Hb Hi HQ. pose proof (IBLOCK_eq inum Hi). apply uwp_bind. eapply uwp_rsect; [done|unfold FSSIZE; lia|lia|].
  intros s' Hb' E Hs. apply uwp_ret. by apply HQ.
Qed.

Lemma uwp_winode inum i s V (Q : unit -> mkfs -> Prop) : built s V -> 0 <= inum < NINODES -> length (i_addrs i) = 13%nat ->
  (forall s', built s' (fupd V (IBLOCK inum sb) (dinode_put inum i (V (IBLOCK inum sb)))) -> freeblock s' = freeblock s ->
     same_rest s s' -> Q tt s') -> uwp (winode inum i) s Q.
Proof using All.
  intros Hb Hi Ha HQ. pose proof (IBLOCK_eq inum Hi) as Hib. pose proof (bu_range _ _ Hb) as Hr. change nmeta with 46 in Hr.
  apply uwp_bind. eapply uwp_rsect; [done|unfold FSSIZE; lia|lia|]. intros s1 Hb1 E1 Hs1.
  eapply uwp_wsect; [done|lia|lia| |].
  - apply dinode_put_spec; [|by rewrite Ha]. apply (bu_block _ _ Hb). unfold FSSIZE. lia.
  - intros s2 Hb2 E2 Hs2. apply HQ; [done|lia|eauto].
Qed.
End inodes.

(** ** The file system: for each inode its type and content *)

Abbreviation files := (list (Z * list Z)).

Record inode_ok (V : Z -> block) (inum t : Z) (c : list Z) (i : inode) : Prop := {
  in_stored : stored (IBLOCK inum sb) V i c;
  in_disk : on_disk inum i;
  in_type : i_type i = t /\ 0 <= t < 2 ^ 15;
  in_nlink : i_nlink i = 1;
  in_dev : i_major i = 0 /\ i_minor i = 0;
  in_size : 0 <= i_size i < 2 ^ 32;
}.

Record inodes_ok (V : Z -> block) (fs : files) : Prop := {
  io_file : forall k t c, fs !! k = Some (t, c) -> inode_ok V (Z.of_nat k + 1) t c (ino V (Z.of_nat k + 1));
  io_apart : forall k k' f f' b, fs !! k = Some f -> fs !! k' = Some f' ->
    owned V (ino V (Z.of_nat k + 1)) b -> owned V (ino V (Z.of_nat k' + 1)) b -> k = k';
  io_super : V 1 = splice 0 (sb_bytes sb) zero_block;
  io_boot : V 0 = zero_block;
}.

Lemma stored_size ib V i c z : stored ib V i c -> stored ib V (set_i_size z i) c.
Proof. intros [[F1 F2 F3 F4 F5] S2 S3 S4 S5 S6]. constructor; [by constructor|done..]. Qed.

Lemma inode_ok_fits V inum t c i : inode_ok V inum t c i -> inode_fits i.
Proof.
  intros [I1 I2 [I3 I3'] I4 [I5 I6] I7]. replace i with (set_i_size (i_size i) i) by by destruct i.
  eapply stored_fits; [exact I1|lia|lia|done|done|done].
Qed.

(** File [k] changes or is new, and its inode is written. *)
Lemma inodes_step s V fs s2 V2 s3 fs' k t c i : let inum := Z.of_nat k + 1 in let ib := IBLOCK inum sb in
  let V3 := fupd V2 ib (dinode_put inum i (V2 ib)) in let old b := is_Some (fs !! k) /\ owned V (ino V inum) b in
  built s V -> inodes_ok V fs -> (length fs <= 199)%nat -> (k < 199)%nat ->
  built s2 V2 -> freeblock s <= freeblock s2 -> built s3 V3 -> freeblock s3 = freeblock s2 ->
  (forall b, 0 <= b < freeblock s -> b <> 45 -> ~ old b -> V2 b = V b) -> (forall b, owned V2 i b -> old b \/ freeblock s <= b) ->
  inode_ok V2 inum t c i -> fs' !! k = Some (t, c) -> (forall j, j <> k -> fs' !! j = fs !! j) ->
  inodes_ok V3 fs' /\ forall j, (j < 199)%nat -> ino V3 (Z.of_nat j + 1) = if decide (j = k) then i else ino V (Z.of_nat j + 1).
Proof.
  intros inum ib V3 old Hb [J1 J2 J3 J4] Hlen Hk Hb2 Hle Hb3 Efb Hfr Hnew Hi Ek Ej.
  assert (Hinum : 0 <= inum < NINODES) by (unfold inum, NINODES; lia). pose proof (IBLOCK_eq inum Hinum) as Hib. fold ib in Hib.
  pose proof (bu_range _ _ Hb) as Hr. change nmeta with 46 in Hr.
  assert (Hold : forall b, old b -> nmeta <= b).
  { intros b [[[t0 c0] E] Ho]. apply J1 in E. by apply (st_data _ _ _ _ (in_stored _ _ _ _ _ E)). }
  change nmeta with 46 in Hold.
  assert (Hlow : forall b, 0 <= b < 45 -> V2 b = V b).
  { intros b Hbb. apply Hfr; [lia|lia|]. intros Ho%Hold. lia. }
  assert (Eino : forall j, (j < 199)%nat -> ino V3 (Z.of_nat j + 1) = if decide (j = k) then i else ino V (Z.of_nat j + 1)).
  { intros j Hj. unfold V3, ib. rewrite ino_put; [|done|unfold NINODES; lia|apply Hi|by eapply inode_ok_fits|].
    2:{ apply (bu_block _ _ Hb2). fold ib. unfold FSSIZE. lia. }
    destruct (decide (j = k)) as [->|Hne]; [by rewrite decide_True|]. rewrite decide_False by (unfold inum; lia).
    unfold ino. rewrite Hlow; [done|]. pose proof (IBLOCK_eq (Z.of_nat j + 1)). unfold NINODES in *. lia. }
  assert (Hhigh : forall b, 46 <= b -> V3 b = V2 b) by (intros b Hbb; apply fupd_ne; lia).
  assert (Hme : stored ib V3 i c /\ forall b, owned V3 i b <-> owned V2 i b).
  { eapply (stored_frame ib s3 V2); [done|apply Hi|]. intros b Ho. pose proof (in_stored _ _ _ _ _ Hi) as Hst.
    pose proof (st_data _ _ _ _ Hst b Ho) as Hd. split; [by apply Hhigh|]. rewrite Efb.
    by eapply (owned_used ib); [|apply Hst|]. }
  assert (Hoth : forall j t' c', j <> k -> fs !! j = Some (t', c') -> let i' := ino V (Z.of_nat j + 1) in
    stored (IBLOCK (Z.of_nat j + 1) sb) V3 i' c' /\ forall b, owned V3 i' b <-> owned V i' b).
  { intros j t' c' Hne E i'. pose proof (in_stored _ _ _ _ _ (J1 _ _ _ E)) as Hst. fold i' in Hst.
    apply (stored_frame _ s3 V); [done|done|]. intros b Ho. pose proof (st_data _ _ _ _ Hst b Ho) as Hd. change nmeta with 46 in Hd.
    pose proof (owned_used _ s V i' b Hb (st_ok _ _ _ _ Hst) Ho) as Hu. rewrite Hhigh by done. split; [|lia].
    apply Hfr; [lia|lia|]. intros [[f E'] Ho']. apply Hne. by eapply (J2 j k). }
  assert (Hlt : forall j f, fs' !! j = Some f -> (j < 199)%nat).
  { intros j f E. destruct (decide (j = k)) as [->|Hne]; [done|]. rewrite Ej in E by done. apply lookup_lt_Some in E. lia. }
  split; [|exact Eino]. constructor.
  - intros j t' c' E. rewrite Eino by (by eapply Hlt). destruct (decide (j = k)) as [->|Hne].
    + assert (t' = t /\ c' = c) as [-> ->] by (split; congruence). destruct Hi as [I1 I2 I3 I4 I5 I6]. constructor; [apply Hme|done..].
    + rewrite Ej in E by done. destruct (J1 _ _ _ E) as [I1 I2 I3 I4 I5 I6]. constructor; [by eapply Hoth|done..].
  - assert (Hapart : forall j f b, j <> k -> fs !! j = Some f -> owned V3 i b -> owned V3 (ino V (Z.of_nat j + 1)) b -> False).
    { intros j [t' c'] b Hne E Ho Ho'. apply (Hoth j t' c' Hne E) in Ho'. apply Hme in Ho. apply Hnew in Ho as [[[f E'] Ho]|Hge].
      - apply Hne. by eapply (J2 j k).
      - pose proof (in_stored _ _ _ _ _ (J1 _ _ _ E)) as Hst. pose proof (owned_used _ s V _ b Hb (st_ok _ _ _ _ Hst) Ho'). lia. }
    intros j j' f f' b E E'. rewrite !Eino by (by eapply Hlt). intros Ho Ho'.
    destruct (decide (j = k)) as [->|Hne], (decide (j' = k)) as [->|Hne']; [done| | |].
    + rewrite Ej in E' by done. destruct (Hapart j' f' b Hne' E' Ho Ho').
    + rewrite Ej in E by done. destruct (Hapart j f b Hne E Ho' Ho).
    + rewrite Ej in E, E' by done. destruct f as [t1 c1], f' as [t2 c2]. apply (Hoth j t1 c1 Hne E) in Ho.
      apply (Hoth j' t2 c2 Hne' E') in Ho'. by eapply (J2 j j').
  - unfold V3. rewrite fupd_ne by lia. rewrite Hlow by lia. done.
  - unfold V3. rewrite fupd_ne by lia. rewrite Hlow by lia. done.
Qed.
End MkfsSpec.
