(* ===== verification/MkfsImage.v ===== *)
(** * The image that mkfs/mkfs.c leaves behind *)

From S2P Require Import Prelude Params Memory Block State Sched Quiet Kcopy Uart Bio BioSpec Log LogSpec Fs FsSpec FsBlocks FsContent FsFile FsWrite User Mkfs MkfsSpec.

Module MkfsImage.
Import Mkfs MkfsSpec.

(** The blocks of all files. *)
Definition total (fs : files) : Z := foldr (fun f a => cost (Z.of_nat (length f.2)) + a) 0 fs.

Record image_ok (s : mkfs) (V : Z -> block) (fs : files) : Prop := {
  im_built : built s V;
  im_inodes : inodes_ok V fs;
  im_size : forall k t c, fs !! k = Some (t, c) -> i_size (ino V (Z.of_nat k + 1)) = Z.of_nat (length c);
  im_next : freeinode s = Z.of_nat (length fs) + 1;
  im_max : (length fs <= 199)%nat;
  im_count : freeblock s = nmeta + total fs;
}.

Lemma cost_pos n : 0 <= n -> 0 <= cost n.
Proof. intros Hn. unfold cost. pose proof (b2z_bound (NDIRECT * BSIZE <? n)). unfold BSIZE in *. Z.div_mod_to_equations. lia. Qed.

Lemma total_app l l' : total (l ++ l') = total l + total l'.
Proof. unfold total. induction l as [|f l IH]; simpl; lia. Qed.

Lemma total_insert fs k f g : fs !! k = Some f ->
  total (<[k := g]> fs) = total fs + cost (Z.of_nat (length g.2)) - cost (Z.of_nat (length f.2)).
Proof.
  revert k. unfold total. induction fs as [|h fs IH]; intros [|k] E; simplify_eq/=; [lia|]. rewrite IH by done. lia.
Qed.

Section ops.
Context `{GoodHost}.

Lemma uwp_iappend k t c p s V fs (Q : unit -> mkfs -> Prop) : let fs' := <[k := (t, c ++ p)]> fs in
  image_ok s V fs -> fs !! k = Some (t, c) -> Z.of_nat (length c) + Z.of_nat (length p) <= MAXFILE * BSIZE -> nmeta + total fs' <= FSSIZE ->
  (forall s' V', image_ok s' V' fs' -> m_reads s' = m_reads s -> Q tt s') ->
  uwp (iappend (Z.of_nat k + 1) p (Z.of_nat (length p))) s Q.
Proof using All.
  intros fs' [Hb Hin Hsz Hne Hmax Hcnt] Ek Hlen Hroom HQ. pose proof (lookup_lt_Some _ _ _ Ek) as Hk.
  set (inum := Z.of_nat k + 1). assert (Hinum : 0 <= inum < NINODES) by (unfold inum, NINODES; lia).
  pose proof (io_file _ _ Hin _ _ _ Ek) as Hi. fold inum in Hi. pose proof Hi as [I1 I2 I3 I4 I5 I6].
  assert (HM : MAXFILE * BSIZE < 2 ^ 31) by by vm_compute.
  assert (Etot : total fs' = total fs + cost (Z.of_nat (length c) + Z.of_nat (length p)) - cost (Z.of_nat (length c))).
  { unfold fs'. rewrite (total_insert _ _ _ _ Ek). cbn [snd]. by rewrite length_app, Nat2Z.inj_add. }
  unfold iappend. apply uwp_bind. eapply uwp_rinode; [done|done|]. intros s1 Hb1 Ef1 Hs1. fold append_round.
  pose proof (Hsz _ _ _ Ek) as Esz. fold inum in Esz. rewrite Esz, xint_id by lia. apply uwp_bind.
  eapply (uwp_append_loop (IBLOCK inum sb) (IBLOCK_eq inum Hinum) s1 V); [done|done|done|lia|].
  intros V2 i2 s2 [A1 A2 A3 A4 A5 A6 A7 A8]. rewrite xint_id by lia.
  set (i3 := set_i_size (Z.of_nat (length c) + Z.of_nat (length p)) i2).
  assert (Hi3 : inode_ok V2 inum t (c ++ p) i3).
  { unfold i3. rewrite A3 in A2 |- *. constructor; [by apply stored_size|done..|]. cbn. lia. }
  eapply uwp_winode; [exact A1|done|apply (inode_ok_fits _ _ _ _ _ Hi3)|]. intros s3 Hb3 Ef3 Hs3.
  destruct (inodes_step s1 V fs s2 V2 s3 fs' k t (c ++ p) i3) as [Hin3 Eino]; [done|done|done|lia|done|lia|done|done| | |exact Hi3| | |].
  { intros b Hbb Hn Ho. apply A7; [done|done|]. intros Ho'. apply Ho. split; [by eexists|done]. }
  { intros b [Ho|Ho]%A8; [left; split; [by eexists|done]|by right]. }
  { unfold fs'. by apply list_lookup_insert_eq. }
  { intros j Hj. unfold fs'. by apply list_lookup_insert_ne. }
  eapply HQ; [|destruct Hs1, A6, Hs3; congruence]. constructor; [exact Hb3|exact Hin3| | | |].
  - intros j t' c' E. rewrite Eino by (apply lookup_lt_Some in E; unfold fs' in E; rewrite length_insert in E; lia).
    unfold fs' in E. destruct (decide (j = k)) as [->|Hj]; [|rewrite list_lookup_insert_ne in E by done; by eapply Hsz].
    rewrite list_lookup_insert_eq in E by done. simplify_eq. unfold i3. cbn. rewrite length_app. lia.
  - destruct Hs1 as [E1 _], A6 as [E2 _], Hs3 as [E3 _]. unfold fs'. by rewrite E3, E2, E1, length_insert.
  - unfold fs'. by rewrite length_insert.
  - rewrite Ef3, A4, Etot, length_app, Nat2Z.inj_add. lia.
Qed.

(** A new inode. *)
Lemma empty_stored ib s V i : built s V -> i_dev i = ROOTDEV -> i_addrs i = replicate 13 0 -> stored ib V i [].
Proof using.
  intros Hb Hd Ha. assert (Ea : forall k, 0 <= k <= NDIRECT -> addr_of i k = 0).
  { intros k Hk. unfold addr_of. rewrite Ha. apply lookup_total_replicate_2. unfold NDIRECT in *. lia. }
  assert (Ei : iblock i = 0) by (apply Ea; unfold NDIRECT; lia).
  assert (Ef : forall bn, 0 <= bn < MAXFILE -> fblock V i bn = 0).
  { intros bn Hbn. unfold fblock. rewrite Ei. destruct (Z.ltb_spec bn NDIRECT); [apply Ea; lia|done]. }
  assert (Ho : forall b, ~ owned V i b).
  { intros b [Hn [->|(bn & Hbn & ->)]]; [done|]. by apply Hn, Ef. }
  constructor.
  - constructor; [done|by rewrite Ha| | |].
    + intros b Hbo. destruct (Ho b Hbo).
    + intros bn bn' Hbn _ _ Hn. by rewrite Ef in Hn.
    + intros bn Hbn Hn. by rewrite Ef in Hn.
  - by vm_compute.
  - intros bn Hbn. rewrite Ef by done. simpl. unfold BSIZE. lia.
  - rewrite Ei. simpl. unfold NDIRECT, BSIZE. lia.
  - intros x Hx Hn. rewrite Ef in Hn; [done|]. by apply part_range.
  - intros b Hbo. destruct (Ho b Hbo).
Qed.

Lemma uwp_ialloc t s V fs (Q : Z -> mkfs -> Prop) : image_ok s V fs -> (length fs < 199)%nat -> 0 <= t < 2 ^ 15 ->
  (forall s' V', image_ok s' V' (fs ++ [(t, [])]) -> m_reads s' = m_reads s -> Q (Z.of_nat (length fs) + 1) s') -> uwp (ialloc t) s Q.
Proof using All.
  intros [Hb Hin Hsz Hne Hmax Hcnt] Hlt Ht HQ. unfold ialloc. set (inum := Z.of_nat (length fs) + 1).
  assert (Hinum : 0 <= inum < NINODES) by (unfold inum, NINODES; lia).
  unfold uwp. apply wp_bind, wp_gets. rewrite Hne. fold inum. apply wp_bind, wp_modify.
  set (s1 := set_freeinode _ s). assert (Hb1 : built s1 V) by by apply (built_ext s).
  rewrite xint_id, !xshort_id by (simpl; lia). set (din := set_i_size 0 _).
  assert (Hi : inode_ok V inum t [] din).
  { constructor; [|done..]. by apply (empty_stored _ s1). }
  apply (uwp_bind (winode inum din)). eapply uwp_winode; [exact Hb1|done|done|]. intros s2 Hb2 Ef2 Hs2. apply uwp_ret.
  destruct (inodes_step s1 V fs s1 V s2 (fs ++ [(t, [])]) (length fs) t [] din) as [Hin2 Eino];
    [done|done|done|lia|done|lia|done|done|done| |exact Hi| | |].
  { intros b Ho. destruct Ho as [Hn [->|(bn & Hbn & ->)]]; [done|]. exfalso.
    apply (st_map _ _ _ _ (in_stored _ _ _ _ _ Hi) bn Hbn) in Hn. simpl in Hn. unfold BSIZE in Hn. lia. }
  { by rewrite list_lookup_middle. }
  { intros j Hj. destruct (decide (j < length fs)%nat); [by apply lookup_app_l|].
    rewrite !lookup_ge_None_2; [done|lia|rewrite length_app; simpl; lia]. }
  eapply HQ; [|by destruct Hs2]. constructor; [exact Hb2|exact Hin2| | | |].
  - intros j t' c' E. rewrite Eino by (apply lookup_lt_Some in E; rewrite length_app in E; simpl in E; lia).
    apply lookup_snoc_Some in E as [[Hj E]|[-> E]]; [rewrite decide_False by lia; by eapply Hsz|]. rewrite decide_True by done. by simplify_eq.
  - destruct Hs2 as [-> _]. cbn [freeinode s1 set_freeinode]. rewrite length_app, Nat2Z.inj_add. cbn [length]. rewrite uwrap_small; unfold inum; lia.
  - rewrite length_app. simpl. lia.
  - rewrite Ef2, total_app. change (total [(t, [])]) with 0. change (freeblock s1) with (freeblock s). lia.
Qed.

(** ** Files *)

Lemma cost_mono m n : m <= n -> cost m <= cost n.
Proof using.
  intros Hm. unfold cost. destruct (Z.ltb_spec (NDIRECT * BSIZE) m), (Z.ltb_spec (NDIRECT * BSIZE) n);
    cbn [b2z]; unfold BSIZE, NDIRECT in *; Z.div_mod_to_equations; lia.
Qed.

(** No read of the files fails. *)
Context (Hreads : forall k, host_read k <> None).

Lemma read_file_eq rest s : exists m, (rest <> [] -> (0 < m)%nat) /\
  read_file rest s = Done (inr (Some (take m rest))) (set_m_reads (S (m_reads s)) s).
Proof using Hreads.
  unfold read_file. destruct (host_read (m_reads s)) as [c|] eqn:E; [|by destruct (Hreads (m_reads s))].
  eexists. split; [|reflexivity]. intros _. unfold BSIZE. lia.
Qed.

Lemma image_reads s V fs n : image_ok s V fs -> image_ok (set_m_reads n s) V fs.
Proof using. intros [M1 M2 M3 M4 M5 M6]. constructor; try done. by apply (built_ext s). Qed.

Lemma uwp_copy_file k t content s V fs (Q : unit -> mkfs -> Prop) : let fs' := <[k := (t, content)]> fs in
  image_ok s V fs -> fs !! k = Some (t, []) -> Z.of_nat (length content) <= MAXFILE * BSIZE -> nmeta + total fs' <= FSSIZE ->
  (forall s' V', image_ok s' V' fs' -> Q tt s') -> uwp (copy_file (Z.of_nat k + 1) content) s Q.
Proof using All.
  intros fs' Him Ek Hlen Hroom HQ. unfold copy_file. pose proof (lookup_lt_Some _ _ _ Ek) as Hk.
  apply (uwp_loop (fun rest s1 => exists V1 d, image_ok s1 V1 (<[k := (t, d)]> fs) /\ d ++ rest = content) (fun rest => length rest)).
  - intros rest s1 (V1 & d & Him1 & Ed). destruct (read_file_eq rest s1) as (m & Hm & Er).
    apply uwp_bind. eapply uwp_done; [exact Er|]. assert (Hc : take m rest = [] -> rest = []).
    { intros E. destruct rest as [|x rest]; [done|]. destruct m; [specialize (Hm ltac:(done)); lia|done]. }
    destruct (take m rest) as [|x l] eqn:Et.
    + rewrite (Hc eq_refl), app_nil_r in Ed. subst d. apply uwp_ret. apply (HQ _ V1). by apply image_reads.
    + assert (El : (x :: l) ++ drop (length (x :: l)) rest = rest).
      { rewrite <-Et, length_take. destruct (decide (m <= length rest)%nat); [rewrite Nat.min_l by lia; apply take_drop|].
        rewrite Nat.min_r, take_ge, drop_ge by lia. apply app_nil_r. }
      set (buf := x :: l) in *. assert (Hpos : (0 < length buf)%nat) by (unfold buf; simpl; lia). clearbody buf.
      assert (Ell : (length d + length buf + length (drop (length buf) rest) = length content)%nat).
      { apply (f_equal length) in Ed, El. rewrite length_app in Ed, El. lia. }
      apply uwp_bind. eapply (uwp_iappend k t d buf); [by apply image_reads|by apply list_lookup_insert_eq|lia| |].
      * rewrite list_insert_insert_eq. unfold fs' in Hroom. rewrite (total_insert _ _ _ (t, content) Ek) in Hroom.
        rewrite (total_insert _ _ _ (t, d ++ buf) Ek). cbn [snd] in *.
        rewrite length_app. pose proof (cost_mono (Z.of_nat (length d + length buf)) (Z.of_nat (length content)) ltac:(lia)). lia.
      * intros s2 V2 Him2 _. apply uwp_ret. split.
        -- exists V2, (d ++ buf). rewrite list_insert_insert_eq in Him2. split; [done|]. by rewrite <-app_assoc, El.
        -- apply (f_equal length) in El. rewrite length_app in El. lia.
  - exists V, []. split; [|done]. by rewrite list_insert_id.
  - lia.
Qed.

Lemma dirent_length inum name : length (dirent inum name) = 16%nat.
Proof using.
  assert (E : Z.of_nat (length (dirent inum name)) = 16); [|lia]. unfold dirent, put_16.
  rewrite put_le_length; rewrite ?splice_length; rewrite ?length_take, ?length_app, ?length_replicate;
    change (Z.to_nat DIRSIZ) with 14%nat; change (Z.to_nat sizeof_dirent) with 16%nat; lia.
Qed.

(** The name of a file in the image. *)
Definition file_name (arg : list Z) : list Z :=
  let short := shortname arg in if hd 0 short =? 95 then tail short else short.

(** A directory at the root, and a file. *)
Lemma uwp_add_file arg content s V d fs (Q : unit -> mkfs -> Prop) :
  let inum := Z.of_nat (length fs) + 2 in let fs' := (T_DIR, d ++ dirent inum (file_name arg)) :: fs ++ [(T_FILE, content)] in
  image_ok s V ((T_DIR, d) :: fs) -> (length fs < 198)%nat -> no_slash (shortname arg) = true ->
  host_file (cstring arg) = Some content -> Z.of_nat (length d) + 16 <= MAXFILE * BSIZE -> Z.of_nat (length content) <= MAXFILE * BSIZE ->
  nmeta + total fs' <= FSSIZE -> (forall s' V', image_ok s' V' fs' -> Q tt s') -> uwp (add_file ROOTINO arg) s Q.
Proof using All.
  intros inum fs' Him Hlt Hns Hfile Hd Hc Hroom HQ. unfold add_file. rewrite Hns, Hfile. unfold assert. apply uwp_bind, uwp_ret.
  fold (file_name arg). apply uwp_bind. eapply uwp_ialloc; [exact Him|simpl; lia|unfold T_FILE; lia|]. intros s1 V1 Him1 _. cbn [app length] in *.
  replace (Z.of_nat (S (length fs)) + 1) with inum by (unfold inum; lia).
  assert (Htot : total fs' = cost (Z.of_nat (length (d ++ dirent inum (file_name arg)))) + (total fs + cost (Z.of_nat (length content)))).
  { unfold fs'. change (total (?f :: ?l)) with (cost (Z.of_nat (length f.2)) + total l). rewrite total_app. cbn [snd total foldr]. lia. }
  apply uwp_bind. unfold append_entry. replace sizeof_dirent with (Z.of_nat (length (dirent inum (file_name arg)))) by by rewrite dirent_length.
  eapply (uwp_iappend 0 T_DIR d); [exact Him1|done|rewrite dirent_length; lia| |].
  { cbn [insert list_insert]. change (total (?f :: ?l)) with (cost (Z.of_nat (length f.2)) + total l). rewrite total_app. cbn [snd total foldr].
    change (length (@nil Z)) with 0%nat. change (cost (Z.of_nat 0)) with 0. pose proof (cost_pos (Z.of_nat (length content))). lia. }
  intros s2 V2 Him2 _. cbn [insert list_insert] in Him2. replace inum with (Z.of_nat (S (length fs)) + 1) by (unfold inum; lia).
  assert (E : <[S (length fs) := (T_FILE, content)]> ((T_DIR, d ++ dirent inum (file_name arg)) :: fs ++ [(T_FILE, [])]) = fs').
  { unfold fs'. change (<[S ?n := ?x]> (?y :: ?l)) with (y :: <[n := x]> l). by rewrite insert_app_r_alt, Nat.sub_diag by lia. }
  eapply uwp_copy_file; [exact Him2|rewrite <-lookup_tail; cbn [tail]; by rewrite list_lookup_middle|done| |].
  - rewrite E. exact Hroom.
  - rewrite E. exact HQ.
Qed.

(** ** All of them: [l] has the names and the contents *)

Definition root_bytes (names : list (list Z)) : list Z :=
  dirent ROOTINO (bytes_of_string ".") ++ dirent ROOTINO (bytes_of_string "..") ++
  concat (imap (fun k n => dirent (Z.of_nat k + 2) n) names).

Definition fs_of (l : list (list Z * list Z)) : files := (T_DIR, root_bytes (l.*1)) :: ((fun f => (T_FILE, f.2)) <$> l).

Lemma root_bytes_snoc names n : root_bytes (names ++ [n]) = root_bytes names ++ dirent (Z.of_nat (length names) + 2) n.
Proof using.
  unfold root_bytes. rewrite imap_app, concat_app. cbn [imap concat app]. rewrite Nat.add_0_r, app_nil_r, !app_assoc. done.
Qed.

Lemma root_bytes_length names : length (root_bytes names) = (16 * (length names + 2))%nat.
Proof using.
  induction names as [|n names IH] using rev_ind; [unfold root_bytes; rewrite !length_app, !dirent_length; done|].
  rewrite root_bytes_snoc, !length_app, dirent_length, IH. simpl. lia.
Qed.

Lemma fs_of_snoc l f : fs_of (l ++ [f]) =
  (T_DIR, root_bytes (l.*1) ++ dirent (Z.of_nat (length l) + 2) f.1) :: ((fun f => (T_FILE, f.2)) <$> l) ++ [(T_FILE, f.2)].
Proof using. unfold fs_of. rewrite !fmap_app. cbn [fmap list_fmap]. by rewrite root_bytes_snoc, length_fmap. Qed.

Lemma total_cons f fs : total (f :: fs) = cost (Z.of_nat (length f.2)) + total fs.
Proof using. done. Qed.

Lemma total_pos fs : 0 <= total fs.
Proof using. induction fs as [|f fs IH]; [done|]. rewrite total_cons. pose proof (cost_pos (Z.of_nat (length f.2))). lia. Qed.

Lemma total_prefix l1 l2 : total (fs_of l1) <= total (fs_of (l1 ++ l2)).
Proof using.
  unfold fs_of. rewrite !total_cons, !fmap_app, total_app. cbn [snd]. rewrite !root_bytes_length, length_app.
  pose proof (total_pos ((fun f => (T_FILE, f.2)) <$> l2)).
  pose proof (cost_mono (Z.of_nat (16 * (length l1.*1 + 2))) (Z.of_nat (16 * (length l1.*1 + length l2.*1 + 2))) ltac:(lia)). lia.
Qed.

Definition input (arg : list Z) (f : list Z * list Z) : Prop :=
  no_slash (shortname arg) = true /\ host_file (cstring arg) = Some f.2 /\ f.1 = file_name arg /\ Z.of_nat (length f.2) <= MAXFILE * BSIZE.

Lemma uwp_add_files args l s V (Q : unit -> mkfs -> Prop) : Forall2 input args l -> (length l <= 198)%nat -> nmeta + total (fs_of l) <= FSSIZE ->
  image_ok s V (fs_of []) -> (forall s' V', image_ok s' V' (fs_of l) -> Q tt s') -> uwp (uiter args (add_file ROOTINO)) s Q.
Proof using All.
  intros Hin Hmax Hroom Him HQ. pose proof (Forall2_length _ _ _ Hin) as El.
  apply (uwp_iter (fun l1 s1 => exists V1, image_ok s1 V1 (fs_of (take (length l1) l)))).
  - intros l1 arg l2 s1 Ea (V1 & Him1). destruct (Forall2_lookup_l _ _ _ (length l1) arg Hin) as (f & Ef & H1 & H2 & H3 & H4);
      [rewrite Ea; by apply list_lookup_middle|].
    pose proof (lookup_lt_Some _ _ _ Ef) as Hlt. rewrite length_app. cbn [length]. rewrite Nat.add_1_r, (take_S_r _ _ _ Ef), fs_of_snoc.
    assert (Elt : length (take (length l1) l) = length l1) by (rewrite length_take; lia).
    assert (HM : 10000 < MAXFILE * BSIZE) by by vm_compute.
    set (tl := (fun f0 => (T_FILE, f0.2)) <$> take (length l1) l) in *. assert (Etl : length tl = length l1) by (unfold tl; by rewrite length_fmap).
    eapply (uwp_add_file arg f.2 s1 V1 (root_bytes (take (length l1) l).*1) tl); [exact Him1|lia|done|done| |done| |].
    + rewrite root_bytes_length, length_fmap. lia.
    + rewrite Etl, <-H3. replace (Z.of_nat (length l1) + 2) with (Z.of_nat (length (take (length l1) l)) + 2) by lia. unfold tl. rewrite <-fs_of_snoc, <-(take_S_r _ _ _ Ef).
      rewrite <-(take_drop (S (length l1)) l) in Hroom. pose proof (total_prefix (take (S (length l1)) l) (drop (S (length l1)) l)). lia.
    + intros s2 V2 Him2. exists V2. rewrite Etl, <-H3 in Him2. rewrite Elt. exact Him2.
  - by exists V.
  - intros s' (V' & Him'). rewrite take_ge in Him' by lia. by eapply HQ.
Qed.

(** ** The empty image *)

Definition super_block : block := splice 0 (sb_bytes sb) zero_block.
Definition empty_disk : Z -> block := fupd (fupd (fun _ => zero_block) 45 (bitmap nmeta)) 1 super_block.

Lemma upto_index n l1 a l2 : upto n = l1 ++ a :: l2 -> a = Z.of_nat (length l1) /\ 0 <= a < n.
Proof using.
  intros E. assert (El : upto n !! length l1 = Some a) by (rewrite E; by apply list_lookup_middle).
  pose proof (list_elem_of_lookup_2 _ _ _ El) as Hel. apply elem_of_upto in Hel.
  replace (length l1) with (Z.to_nat (Z.of_nat (length l1))) in El by lia.
  pose proof (lookup_lt_Some _ _ _ El) as Hlt. unfold upto in Hlt. rewrite length_fmap, length_seq in Hlt.
  rewrite upto_lookup in El by lia. split; [congruence|done].
Qed.

Lemma uwp_zero s (Q : unit -> mkfs -> Prop) : m_img s = [] ->
  (forall s', m_img s' = replicate (Z.to_nat FSSIZE) zero_block -> freeblock s' = freeblock s -> same_rest s s' -> Q tt s') ->
  uwp (uiter (upto FSSIZE) (fun i => wsect i zero_block)) s Q.
Proof using All.
  intros Es HQ. apply (uwp_iter (fun l1 s1 => m_img s1 = replicate (length l1) zero_block /\ freeblock s1 = freeblock s /\ same_rest s s1)).
  - intros l1 a l2 s1 El (Ei & Ef & Hs). destruct (upto_index _ _ _ _ El) as [-> Hr]. unfold wsect.
    rewrite sector_pos, Nat2Z.id by done. apply uwp_bind. eapply uwp_done; [apply host_access_eq|]. cbn [host_access].
    unfold uwp. apply wp_bind, wp_modify, wp_ret. split_and!; [|done|destruct Hs; by split].
    cbn [m_img set_m_img set_m_ios]. rewrite Ei, length_replicate, length_app. replace (S (length l1) - length l1)%nat with 1%nat by lia.
    cbn [length replicate]. rewrite insert_app_r_alt by (rewrite length_replicate; lia). rewrite length_replicate, Nat.sub_diag. cbn [insert list_insert].
    by rewrite replicate_add.
  - by rewrite Es.
  - intros s' (Ei & Ef & Hs). apply HQ; [|done|done]. rewrite Ei. unfold upto. by rewrite length_fmap, length_seq.
Qed.

Lemma uwp_super s (Q : unit -> mkfs -> Prop) : m_img s = replicate (Z.to_nat FSSIZE) zero_block -> freeblock s = nmeta -> freeinode s = 1 ->
  (forall s', image_ok s' empty_disk [] -> Q tt s') -> uwp (wsect 1 super_block) s Q.
Proof using All.
  intros Ei Ef En HQ. eapply uwp_done; [apply wsect_eq; [rewrite Ei, length_replicate|]; unfold FSSIZE; lia|]. apply HQ.
  assert (Hv : forall b, 0 <= b < FSSIZE -> b <> 45 -> b <> 1 -> empty_disk b = zero_block) by (intros; unfold empty_disk; by rewrite !fupd_ne).
  constructor; [| |done|cbn; by rewrite En|simpl; lia|cbn; rewrite Ef; by vm_compute].
  - constructor; cbn [m_img set_m_img set_m_ios freeblock].
    + by rewrite Ei, length_insert, length_replicate.
    + intros b Hb Hn. rewrite Ei. destruct (decide (b = 1)) as [->|H1].
      * rewrite list_lookup_insert_eq by (rewrite length_replicate; unfold FSSIZE; lia). unfold empty_disk. by rewrite fupd_eq.
      * rewrite list_lookup_insert_ne by lia. rewrite lookup_replicate_2 by (unfold FSSIZE in *; lia). by rewrite Hv.
    + rewrite Ef. unfold empty_disk. by rewrite fupd_ne, fupd_eq.
    + intros b Hb. destruct (decide (b = 45)) as [->|H45]; [by vm_compute|]. destruct (decide (b = 1)) as [->|H1]; [by vm_compute|].
      rewrite Hv by done. by vm_compute.
    + rewrite Ef. by vm_compute.
    + rewrite Ef. change nmeta with 46. intros b Hb. apply Hv; lia.
  - constructor; [done|done| |].
    + unfold empty_disk. by rewrite fupd_eq.
    + apply Hv; unfold FSSIZE; lia.
Qed.

(** ** main *)

(** The size of the root directory in the end. *)
Definition root_size (names : list (list Z)) : Z := (Z.of_nat (length (root_bytes names)) / BSIZE + 1) * BSIZE.

Record finished (s : mkfs) (V : Z -> block) (l : list (list Z * list Z)) : Prop := {
  fi_image : forall b, 0 <= b < FSSIZE -> m_img s !! Z.to_nat b = Some (V b);
  fi_length : length (m_img s) = Z.to_nat FSSIZE;
  fi_built : built s V;
  fi_inodes : inodes_ok V (fs_of l);
  fi_size : forall k f, l !! k = Some f -> i_size (ino V (Z.of_nat k + 2)) = Z.of_nat (length f.2);
  fi_root : i_size (ino V ROOTINO) = root_size (l.*1);
  fi_count : freeblock s = nmeta + total (fs_of l);
  fi_max : (length l <= 198)%nat;
}.

Lemma uwp_root s V l (Q : unit -> mkfs -> Prop) : image_ok s V (fs_of l) -> (length l <= 198)%nat ->
  (forall s' V', built s' V' -> inodes_ok V' (fs_of l) -> (forall k f, l !! k = Some f -> i_size (ino V' (Z.of_nat k + 2)) = Z.of_nat (length f.2)) ->
     i_size (ino V' ROOTINO) = root_size (l.*1) -> freeblock s' = nmeta + total (fs_of l) -> Q tt s') ->
  uwp (rinode ROOTINO) s (fun din s1 => uwp (winode ROOTINO (set_i_size (xint (u32 ((xint (i_size din) / BSIZE + 1) * BSIZE))) din)) s1 Q).
Proof using All.
  intros [Hb Hin Hsz Hne Hmax Hcnt] Hl HQ. assert (E0 : fs_of l !! 0%nat = Some (T_DIR, root_bytes (l.*1))) by done.
  eapply uwp_rinode; [done|unfold ROOTINO, NINODES; lia|]. intros s1 Hb1 Ef1 Hs1.
  pose proof (Hsz _ _ _ E0) as Er. change (Z.of_nat 0 + 1) with ROOTINO in Er. pose proof (root_bytes_length (l.*1)) as Hrl. rewrite length_fmap in Hrl.
  rewrite Er, (xint_id (Z.of_nat (length (root_bytes (l.*1))))) by lia. fold (root_size (l.*1)). assert (Hrs : 0 <= root_size (l.*1) < 2 ^ 32).
  { unfold root_size, BSIZE. Z.div_mod_to_equations. lia. }
  rewrite uwrap_small, xint_id by done. pose proof (io_file _ _ Hin _ _ _ E0) as Hi. change (Z.of_nat 0 + 1) with ROOTINO in Hi.
  set (i := set_i_size (root_size (l.*1)) (ino V ROOTINO)). assert (Hi' : inode_ok V ROOTINO T_DIR (root_bytes (l.*1)) i).
  { destruct Hi as [I1 I2 I3 I4 I5 I6]. constructor; [by apply stored_size|done..]. }
  eapply uwp_winode; [exact Hb1|unfold ROOTINO, NINODES; lia|apply (inode_ok_fits _ _ _ _ _ Hi')|]. intros s2 Hb2 Ef2 Hs2.
  destruct (inodes_step s1 V (fs_of l) s1 V s2 (fs_of l) 0 T_DIR (root_bytes (l.*1)) i) as [Hin2 Eino];
    [done|done|done|lia|done|lia|done|done|done| |exact Hi'|done|done|].
  { intros b Ho. left. split; [by eexists|exact Ho]. }
  eapply HQ; [exact Hb2|exact Hin2| | |lia].
  - intros k f Ek. replace (Z.of_nat k + 2) with (Z.of_nat (S k) + 1) by lia. pose proof (lookup_lt_Some _ _ _ Ek).
    change ROOTINO with (Z.of_nat 0 + 1). rewrite Eino by lia. rewrite decide_False by lia. apply (Hsz (S k) T_FILE).
    change (fs_of l !! S k) with (((fun f => (T_FILE, f.2)) <$> l) !! k). by rewrite list_lookup_fmap, Ek.
  - specialize (Eino 0%nat ltac:(lia)). change (Z.of_nat 0 + 1) with ROOTINO in Eino. rewrite Eino, decide_True by done. done.
Qed.

Lemma uwp_bitmap s V (Q : unit -> mkfs -> Prop) : built s V ->
  (forall s', built s' V -> (forall b, 0 <= b < FSSIZE -> m_img s' !! Z.to_nat b = Some (V b)) -> freeblock s' = freeblock s -> Q tt s') ->
  uwp (balloc (freeblock s)) s Q.
Proof using All.
  intros Hb HQ. pose proof Hb as [B1 B2 B3 B4 B5 B6]. unfold balloc, assert. change nmeta with 46 in B5.
  replace (freeblock s <? BSIZE * 8) with true by (unfold BSIZE, FSSIZE in *; lia). apply uwp_bind, uwp_ret.
  change (sb_bmapstart sb) with 45. eapply uwp_done; [apply wsect_eq; [rewrite B1|]; unfold FSSIZE; lia|]. apply HQ; [|intros b Hbb|done].
  - constructor; cbn [m_img set_m_img set_m_ios freeblock]; [by rewrite length_insert| |done|done|done|done].
    intros b Hbb Hn. rewrite list_lookup_insert_ne by lia. by apply B2.
  - cbn [m_img set_m_img set_m_ios]. destruct (decide (b = 45)) as [->|Hn]; [|rewrite list_lookup_insert_ne by lia; by apply B2].
    rewrite B3. apply list_lookup_insert_eq. rewrite B1. unfold FSSIZE. lia.
Qed.

Lemma main_finishes prog img args l : host_image = true -> Forall2 input args l -> (length l <= 198)%nat -> nmeta + total (fs_of l) <= FSSIZE ->
  exists s V, main (prog :: img :: args) start = Done (inl (Exit 0)) s /\ finished s V l.
Proof using All.
  intros Hh Hin Hl Hroom.
  assert (Hm : wp (main (prog :: img :: args)) start (fun r s => r = inl (Exit 0) /\ exists V, finished s V l)).
  2:{ destruct Hm as (r & s & E & -> & V & Hf). by exists s, V. }
  unfold main. rewrite Hh. cbn [negb]. apply wp_bind, wp_modify, wp_bind, wp_modify.
  apply wp_ubind. eapply uwp_zero; [done|]. intros s1 Ei1 Ef1 [En1 _]. fold super_block.
  apply wp_ubind. eapply uwp_super; [done|by rewrite Ef1|by rewrite En1|]. intros s2 Him2.
  apply wp_ubind. eapply uwp_ialloc; [exact Him2|simpl; lia|unfold T_DIR; lia|]. intros s3 V3 Him3 _. cbn [length app] in Him3 |- *.
  change (Z.of_nat 0 + 1) with (Z.of_nat 0%nat + 1). change (Z.of_nat 0 + 1 =? ROOTINO) with true. unfold assert. apply wp_ubind, uwp_ret.
  assert (HM : 10000 < MAXFILE * BSIZE) by by vm_compute.
  assert (Hentry : forall d n s V (Q : unit -> mkfs -> Prop), image_ok s V [(T_DIR, d)] -> (length d <= 1000)%nat ->
    (forall s' V', image_ok s' V' [(T_DIR, d ++ dirent ROOTINO n)] -> Q tt s') -> uwp (append_entry ROOTINO ROOTINO n) s Q).
  { intros d n s V Q Him Hd HQ. unfold append_entry. replace sizeof_dirent with (Z.of_nat (length (dirent ROOTINO n))) by by rewrite dirent_length.
    eapply (uwp_iappend 0 T_DIR d); [exact Him|done|rewrite dirent_length; lia| |intros s' V' Him' _; by eapply HQ].
    change (<[0%nat := ?x]> [?y]) with [x]. rewrite total_cons. cbn [snd]. rewrite length_app, dirent_length.
    pose proof (cost_mono (Z.of_nat (length d + 16)) 1016 ltac:(lia)) as Hc. change (cost 1016) with 1 in Hc. change (total []) with 0.
    change nmeta with 46. unfold FSSIZE. lia. }
  apply wp_ubind. eapply Hentry; [exact Him3|simpl; lia|]. intros s4 V4 Him4.
  apply wp_ubind. eapply Hentry; [exact Him4|rewrite app_nil_l, dirent_length; lia|]. intros s5 V5 Him5.
  apply wp_ubind. eapply uwp_add_files; [exact Hin|done|done|rewrite app_nil_l in Him5; exact Him5|]. intros s6 V6 Him6.
  apply wp_ubind. eapply uwp_mono; [eapply uwp_root; [exact Him6|done|]|intros din s7 Hw; apply wp_ubind; exact Hw].
  intros s7 V7 Hb7 Hin7 Hsz7 Hr7 Ef7.
  apply wp_bind, wp_gets. apply wp_ubind. eapply uwp_bitmap; [exact Hb7|]. intros s8 Hb8 Hv8 Ef8. apply wp_ret.
  split; [done|]. exists V7. constructor; [done|apply Hb8|done|done|done|done|lia|done].
Qed.
End ops.

(** ** What the kernel finds *)

Lemma finished_super V fs : inodes_ok V fs -> superblock_of (V 1) = sb.
Proof. intros [_ _ -> _]. by vm_compute. Qed.

Lemma finished_file s V l k f : finished s V l -> l !! k = Some f ->
  let inum := Z.of_nat k + 2 in let i := ino V inum in
  file_ok 2 sb (IBLOCK inum sb) V i /\ fs_ok 2 sb (IBLOCK inum sb) V /\ i_type i = T_FILE /\ i_nlink i = 1 /\
  i_size i = Z.of_nat (length f.2) /\ content_ok V i /\ file_bytes V i 0 (i_size i) = f.2.
Proof.
  intros [F1 F2 F3 F4 F5 F6 F7 F8] Ek inum i. pose proof (F5 _ _ Ek) as Esz. fold inum i in Esz.
  assert (Ef : fs_of l !! S k = Some (T_FILE, f.2)).
  { change (fs_of l !! S k) with (((fun f => (T_FILE, f.2)) <$> l) !! k). by rewrite list_lookup_fmap, Ek. }
  pose proof (io_file _ _ F4 _ _ _ Ef) as [I1 I2 [I3 _] I4 _ _]. replace (Z.of_nat (S k) + 1) with inum in * by (unfold inum; lia). fold i in I1, I2, I3, I4.
  pose proof I1 as [S1 S2 S3 S4 S5 S6].
  assert (Hfill : filled V i (i_size i)).
  { intros x Hx. apply S3; [apply part_range; lia|]. rewrite Esz in Hx. unfold BSIZE in *. Z.div_mod_to_equations. lia. }
  destruct (filled_content 2 sb (IBLOCK inum sb) V i S1 Hfill) as [Hc Ec]; [lia|].
  split_and!; [done| |done|done|done|done|].
  - apply (built_fs _ _ F3). apply IBLOCK_eq. assert (Z.of_nat k + 2 < 200); [|unfold inum, NINODES; lia].
    pose proof (lookup_lt_Some _ _ _ Ek). lia.
  - apply list_eq_same_length with (n := length f.2); [done|unfold file_bytes; rewrite read_bytes_length; lia|].
    intros j x y Hj Hx Hy. unfold file_bytes in Hx. apply list_lookup_total_correct in Hx as <-. rewrite read_bytes_lookup by lia.
    rewrite Ec, S5 by (try apply Hfill; lia). replace (Z.to_nat (0 + Z.of_nat j)) with j by lia. by rewrite Hy.
Qed.

(** The inode as it is after [ilock], whatever the rest of it is. *)
Lemma reload inum d V i0 : i_dev i0 = ROOTDEV -> content_ok V (dinode_load inum d (blank inum)) -> content_ok V (dinode_load inum d i0).
Proof. intros Hd [C1 C2 C3 C4 C5]. by constructor. Qed.

Lemma finished_root s V l : finished s V l -> let r := ino V ROOTINO in
  i_type r = T_DIR /\ i_nlink r = 1 /\ i_size r = root_size (l.*1) /\
  forall x, 0 <= x < i_size r -> fbyte V r x = default 0 (root_bytes (l.*1) !! Z.to_nat x).
Proof.
  intros [F1 F2 F3 F4 F5 F6 F7 F8] r. pose proof (io_file _ _ F4 0%nat _ _ eq_refl) as [I1 I2 [I3 _] I4 _ _].
  change (Z.of_nat 0 + 1) with ROOTINO in I1, I3, I4. fold r in I1, I3, I4. split_and!; [done|done|done|]. fold r in F6. rewrite F6.
  intros x Hx. assert (Hr : root_size (l.*1) <= MAXFILE * BSIZE).
  { pose proof (root_bytes_length (l.*1)) as E. rewrite length_fmap in E. change (MAXFILE * BSIZE) with 274432. unfold root_size, BSIZE. Z.div_mod_to_equations. lia. }
  destruct (decide (fblock V r (x / BSIZE) = 0)) as [E0|Hn]; [|by apply (st_bytes _ _ _ _ I1); [lia|]].
  rewrite lookup_ge_None_2.
  - unfold fbyte. rewrite E0, (io_boot _ _ F4). unfold zero_block. apply lookup_total_replicate_2.
    pose proof (Z.mod_pos_bound x BSIZE ltac:(by compute)). lia.
  - pose proof (part_range x ltac:(lia)) as Hp. assert (~ (x / BSIZE * BSIZE < Z.of_nat (length (root_bytes (l.*1))))).
    { intros Hlt. by apply (st_map _ _ _ _ I1 _ Hp) in Hlt. }
    unfold BSIZE in *. Z.div_mod_to_equations. lia.
Qed.

(** ** Properties *)

(** C10: mkfs builds a file system that the kernel reads.  When the files named on the command line fit, [main] exits with status 0 and the image has [FSSIZE] blocks: the superblock that [readsb] loads; an inode
    for every file, numbered from 2 in the order of the command line, with the file's size and, whatever lengths the reads of the host had, a [readi] that returns the file's bytes; a root directory with ".", ".."
    and the names; a bitmap in which exactly the blocks up to the last one allocated are used, so that the kernel's invariants
    of bitmap and block maps hold; and no block belongs to two inodes. *)
Theorem mkfs_image `{Host} prog img args l :
  host_image = true -> (forall k, host_io k = true) -> (forall k, host_read k <> None) ->
  Forall2 input args l -> (length l <= 198)%nat -> nmeta + total (fs_of l) <= FSSIZE ->
  exists s V, main (prog :: img :: args) start = Done (inl (Exit 0)) s /\
    length (m_img s) = Z.to_nat FSSIZE /\ (forall b, 0 <= b < FSSIZE -> m_img s !! Z.to_nat b = Some (V b)) /\
    superblock_of (V 1) = sb /\ (forall b, 0 <= b < FSSIZE -> used sb V b = (b <? nmeta + total (fs_of l))) /\
    (forall k name c, l !! k = Some (name, c) -> let inum := Z.of_nat k + 2 in let i := ino V inum in
       fs_ok 2 sb (IBLOCK inum sb) V /\ file_ok 2 sb (IBLOCK inum sb) V i /\ i_type i = T_FILE /\ i_nlink i = 1 /\
       forall (HF : Fuel) (HU : UartHw) me q W D L ip i0 ks, binv me q W V D L ∅ ks -> (size L < Z.to_nat NBUF)%nat ->
         i_dev i0 = ROOTDEV -> inodes ks !! ip = Some (dinode_load inum (V (IBLOCK inum sb)) i0) ->
         exists ks', readi ip ToLocal 0 (Z.of_nat (length c)) ks = Done (Z.of_nat (length c), c) ks') /\
    (let r := ino V ROOTINO in i_type r = T_DIR /\ i_nlink r = 1 /\ i_size r = root_size (l.*1) /\
       forall x, 0 <= x < i_size r -> fbyte V r x = default 0 (root_bytes (l.*1) !! Z.to_nat x)) /\
    (forall k k' b, (k <= length l)%nat -> (k' <= length l)%nat ->
       owned V (ino V (Z.of_nat k + 1)) b -> owned V (ino V (Z.of_nat k' + 1)) b -> k = k').
Proof.
  intros Hh Hio Hrd Hin Hl Hroom. assert (GoodHost) by exact Hio.
  destruct (main_finishes Hrd prog img args l Hh Hin Hl Hroom) as (s & V & Hrun & Hfin). exists s, V.
  pose proof Hfin as [F1 F2 F3 F4 F5 F6 F7 F8].
  split; [done|]. split; [done|]. split; [done|]. split; [by eapply finished_super|].
  split; [intros b Hb; rewrite (built_used s V F3 b Hb), F7; done|].
  split; [|split; [by apply finished_root with s|]].
  - intros k name c Ek inum i. destruct (finished_file s V l k (name, c) Hfin Ek) as (Q1 & Q2 & Q3 & Q4 & Q5 & Q6 & Q7).
    fold inum i in Q1, Q2, Q3, Q4, Q5, Q6, Q7. cbn [snd] in Q5, Q7. split; [done|]. split; [done|]. split; [done|]. split; [done|].
    intros HF HU me q W D L ip i0 ks Hinv HL Hd Hip. pose proof (reload inum _ V i0 Hd Q6) as Hc.
    assert (HM : MAXFILE * BSIZE < 2 ^ 31) by by vm_compute. pose proof (co_size _ _ Q6).
    assert (wp (readi ip ToLocal 0 (Z.of_nat (length c))) ks (fun r _ => r = (Z.of_nat (length c), c))) as (r & ks' & E & ->); [|by exists ks'].
    eapply (wp_readi me q ip (dinode_load inum (V (IBLOCK inum sb)) i0)); [by constructor|exact Hc|lia|lia|lia|].
    intros ks' _ _. change (i_size (dinode_load inum (V (IBLOCK inum sb)) i0)) with (i_size i). unfold read_len.
    change (i_size (dinode_load inum (V (IBLOCK inum sb)) i0)) with (i_size i).
    replace (i_size i <? 0) with false by lia. rewrite Z.sub_0_r, Q5, Z.min_id. f_equal. rewrite Q5 in Q7. exact Q7.
  - intros k k' b Hk Hk' Ho Ho'. assert (Hs : forall j, (j <= length l)%nat -> is_Some (fs_of l !! j)).
    { intros j Hj. apply lookup_lt_is_Some. unfold fs_of. simpl. rewrite length_fmap. lia. }
    destruct (Hs k Hk) as [f Ef], (Hs k' Hk') as [f' Ef']. by eapply (io_apart _ _ F4 k k').
Qed.

(** Two files, read in pieces of at most 700 bytes. *)
Definition demo_args : list (list Z) := [bytes_of_string "user/_cat"; bytes_of_string "README"].
Definition demo_files : list (list Z * list Z) :=
  [(bytes_of_string "cat", replicate 1500 7); (bytes_of_string "README", bytes_of_string "hello")].

Definition demo_host : Host := {|
  host_image := true; host_io := fun _ => true; host_read := fun _ => Some 699%nat;
  host_file := fun p => if decide (p = bytes_of_string "README") then Some (bytes_of_string "hello") else Some (replicate 1500 7);
|}.

Lemma mkfs_image_witness : exists s, @main demo_host ([] :: [] :: demo_args) start = Done (inl (Exit 0)) s /\
  superblock_of (m_img s !!! 1%nat) = sb.
Proof.
  destruct (@mkfs_image demo_host [] [] demo_args demo_files) as (s & V & Hrun & Hlen & Himg & Hsb & _).
  - reflexivity.
  - intros k. reflexivity.
  - intros k. discriminate.
  - repeat constructor; by vm_compute.
  - simpl. lia.
  - by vm_compute.
  - exists s. split; [exact Hrun|]. rewrite <-Hsb. f_equal. apply list_lookup_total_correct. apply (Himg 1). unfold FSSIZE. lia.
Defined.
End MkfsImage.
